(* ===== verification/_CoqProject ===== *)
-Q . S2P
Prelude.v
TagPtr.v
Fam.v
RadixTree.v
RadixInv.v
RadixSpec.v
RadixPut.v
RadixOps.v
RadixScan.v
RadixConc.v
KvsRadixTree.v
Bipbuffer.v
ObjCache.v
Assoc.v
Hash.v
Item.v
Slabs.v
Items.v
SlabAutomove.v
Itoa.v
ItemFrame.v
ItemInv.v
ItemAlloc.v
ItemAllocSpec.v
ItemNew.v
LruMaintainer.v
ItemOps.v
SlabRebalance.v
SlabMove.v
SlabMover.v
SlabPass.v
SlabThread.v
Util.v
Tokenize.v
Stats.v
KvsTiny.v
Reverse.v
SplitOrdered.v
SplitOrderedSpec.v
KvsSplitOrdered.v
CacheIface.v
CacheItems.v
CacheApi.v
Command.v
CacheApiSpec.v
CacheValues.v
StoreCommands.v
CommandSpec.v
CacheDelta.v
GetCommand.v
ConnOut.v
Drive.v
DriveSpec.v
DriveTotal.v
CacheClients.v
CacheStore.v
CacheHistory.v
TextService.v
TextSession.v
TextServer.v
Network.v
CrawlQueue.v
Crawler.v
CrawlerSpec.v
CrawlExpired.v
CrawlDump.v
Config.v
