(* ===== verification/Prelude.v ===== *)
(** * OpenFAM radix tree and DRAM cache: verification development

    The program keeps key-value stores in fabric-attached memory (FAM) and caches them
    in DRAM.  Its parts, from the bottom:

    - NVMM: heaps, global pointers and FAM atomics, a library outside the repository;
    - the index structures in FAM: a lock-free radix tree and a split-ordered hash table;
    - three key-value stores on these indexes, with calls that let a client cache node
      and value pointers and find out by version tags whether they are current;
    - the DRAM cache, a derivative of memcached: items in slab memory, found by a hash
      table that grows incrementally, and kept in LRU queues; with its helpers for
      statistics, number printing and parsing, and a lock-free log buffer.

    ** Files

    Foundations:
    - [Prelude]: machine integers, byte strings, their order, lists; tactics and hints.
    - [TagPtr]: [TagGptr] of include/radixtree/common.h, a pointer with mark and tag.
    - [Fam]: the class [Nvmm] (NVMM as parameters) and its documented laws [NvmmLaws];
      blocks of memory; programs as trees of memory events; [run] for one thread and
      [run_sched] for interleavings.  [RefNvmm] is an instance that satisfies the laws.

    The radix tree, src/radix_tree.cc:
    - [RadixTree]: the constructor, put, get, destroy, putC, getC, destroyC and their
      short-cuts by node pointer, one definition per loop or branch of the code.
    - [RadixInv], [RadixSpec]: the invariant of the tree in memory, and its abstraction
      to a map from keys to versioned value pointers.
    - [RadixPut], [RadixOps]: every operation preserves the invariant and computes the
      map operation; histories of operations; cached pointers stay valid.
    - [RadixScan]: iterators, next_value, lower_bound, scan and get_next; a scan lists
      the range.
    - [RadixConc]: interleavings of threads; linearizability of updates of one key, and
      two schedules on which the code goes wrong.

    The key-value stores:
    - [KvsRadixTree], [KvsTiny]: src/kvs_radix_tree.cc and src/kvs_radix_tree_tiny.cc
      over the radix tree; refinement of maps from keys to byte strings and to words.
    - [Reverse], [SplitOrdered], [SplitOrderedSpec], [KvsSplitOrdered]: bit reversal and
      the order of split keys, the table of src/split_ordered.cc with its compare-and-swap
      loops for one thread, its invariant and refinement of a map, and the store of
      src/kvs_split_ordered.cc.

    The DRAM cache, extra/KVS-DRAM-Cache:
    - [Bipbuffer]: bipbuffer.c, the two-region queue of the logger and the LRU bumps.
    - [ObjCache]: cache.c, the pool of objects of one size, with red zones around them.
    - [Hash], [Assoc]: the hash functions, and the hash table with incremental expansion.
    - [Item], [Slabs], [Items]: item headers and queues, the slab allocator, and the
      operations of items.c that link, unlink, replace, fetch and free items.
    - [ItemFrame], [ItemInv]: what an operation on one item leaves alone; the invariant of
      the items and their references.
    - [ItemAlloc], [ItemAllocSpec], [ItemNew]: allocation of items in items.c, eviction
      from the tail of the LRU queues, and the new item; when an allocation succeeds, and
      when it never returns.
    - [LruMaintainer]: the rounds of the LRU maintainer of items.c over the slab classes.
    - [CrawlQueue], [Crawler]: crawler.c and the crawlers' functions of items.c.  [CrawlQueue]
      relates a cache with crawlers in its queues to the cache without them.  [CrawlerSpec]: a
      round of the thread, for any module that keeps the laws of the class ModuleLaws.
      [CrawlExpired], [CrawlDump]: the two modules keep them; what their crawls do.
    - [SlabAutomove]: slab_automove.c, the choice of the classes between which a page moves.
    - [SlabRebalance], [SlabMove], [SlabMover], [SlabPass], [SlabThread]: the rebalancer of
      slabs.c; how a page leaves its class, how one chunk of it is cleared, and the passes of
      the mover over the page from the request to the finish.
    - [Itoa], [Util], [Stats]: itoa_ljust.c, util.c and stats.c.
    - [ItemOps]: the operations that the cache service calls, on the invariant of the items.
    - [CacheIface], [CacheApi]: cache_api.cc, the cache in front of the store, in all its
      modes, against two interfaces: the store, and the item functions.  [CacheApiSpec]:
      in full mode with versions checked the cache is coherent with the store.
      [CacheClients]: so are the caches of many clients.  [CacheItems]: items.c over slabs.c
      and assoc.c keeps the laws of the items.  [CacheStore]: the store on the radix tree
      keeps the laws of the store.  [CacheHistory]: the composition of all of these.
    - [Tokenize], [Command]: the text protocol of memcached.c: the tokenizer, the dispatch of
      a command line, the storage, arithmetic and administrative commands.  [CommandSpec]:
      the settings a line may change, the lines that are no command, the update lines.
    - [CacheValues]: the values that linked items hold, under each operation on the items.
      [StoreCommands]: do_store_item, add to cas, against those values.  [CacheDelta]:
      do_add_delta, incr and decr.  [GetCommand]: process_get_command and the suffix of a
      VALUE line.  [TextService]: the four commands over items.c, slabs.c and assoc.c.
    - [ConnOut]: the messages of an answer that wait to be sent, for TCP and UDP.  [Drive]: drive_machine, the state
      machine of a connection.  [DriveSpec]: it refines the session of its client, which is given all the bytes
      at once; [DriveTotal]: each call comes back.  [TextSession]: the text commands behind the
      machine.  [TextServer]: the cache behind the text commands.  [Network]: the properties of all of
      these together, and runs of the whole service, from bytes to bytes.

    ** What the theorems show

    A refinement theorem relates the state to an abstract map by an invariant and says
    that an operation run in such a state returns what the map operation returns and
    leaves a state for its result, error returns included.  History theorems compose
    these from the constructor on.  Loops carry fuel; the theorems give a bound on it,
    in terms of the key length or of the length of the list, under which the operation
    returns, so they are statements of total correctness.  The only other outcome they
    allow is a heap that refuses memory, and then they say so.  Findings about the code
    are theorems too: they exhibit an input or a schedule.

    ** Fuel and bounds

    - put and get descend at most one node per key byte: fuel over the length of the key
      plus one is enough for one thread.
    - The search in the split-ordered list needs more fuel than the list has nodes; an
      operation adds at most 22 nodes (a bucket, and its chain of at most 20 parents, as
      the table has at most 2^20 buckets).
    - Loops over a slab page, a chain or a queue recurse on the list that models it.
    - A walk up an LRU queue looks at five items and the crawlers between them: fuel for
      the length of the queue and six is enough.  The loop of an allocation is unbounded in
      the code: its fuel stands for the number of rounds, and the theorems on it hold for
      every fuel, or say how much is enough.
    - The loops over the keys of a get line take a token at each step: fuel over the length of
      the line is enough.  drive_machine has enough fuel for its turns, as [DriveTotal] shows.
    - The crawler's loop over the queues needs one round more than the longest queue has items;
      its waits for a client that reads need no more calls of poll than its buffer has bytes.

    ** Not modelled

    - NVMM, CityHash and libevent are not in the repository: they are parameters, or the
      code around them is left out.
    - Cache flushes and metrics, which do not change memory contents; printing.
    - Threads, except in [RadixConc] and where a background thread's steps are modelled
      as operations that interleave with others ([Assoc], [Items]).
    - [RadixTree::list] and [structure] (debugging output).
    - Of the cache: accepting connections and handing them to threads, the binary protocol,
      the stats command, items of several chunks and the logger's output.  The crawler
      is modelled without other threads that change the queues during a crawl.

    ** Plan

    In the order of importance: the binary protocol, the partition maps of
    src/cluster. *)

From stdpp Require Export base tactics list gmap numbers.
From Stdlib Require Export ZArith Lia.

Declare Scope fam_scope.
Delimit Scope fam_scope with fam.

Create HintDb radix.

#[global] Open Scope Z_scope.

(** ** Machine integers *)

Definition two64 : Z := 2 ^ 64.
Definition two32 : Z := 2 ^ 32.

(** [uint64_t] and [uint32_t] arithmetic wraps around. *)
Definition u64 (z : Z) : Z := z mod two64.
Definition u32 (z : Z) : Z := z mod two32.

(** A [char] is signed on the platforms the code targets: the byte [b], read
    as a [char] and converted to [uint64_t], is sign-extended. *)
Definition char_to_u64 (b : Z) : Z := if b <? 128 then b else u64 (b - 256).

Definition is_byte (b : Z) : Prop := 0 <= b < 256.

#[global] Instance is_byte_dec b : Decision (is_byte b).
Proof. unfold is_byte. apply _. Defined.

(** A key is a byte string. *)
Abbreviation bytes := (list Z).

Definition byte_key (k : bytes) : Prop := Forall is_byte k.

#[global] Instance byte_key_dec k : Decision (byte_key k).
Proof. unfold byte_key. apply _. Defined.

Lemma u64_small z : 0 <= z < two64 → u64 z = z.
Proof. intros. unfold u64. by apply Z.mod_small. Qed.

Lemma u64_range z : 0 <= u64 z < two64.
Proof. unfold u64. apply Z.mod_pos_bound. reflexivity. Qed.

#[export] Hint Resolve u64_range : radix.

(** ** Lexicographic order on byte strings

    [std::string::compare] (and [memcmp] on strings of equal length): bytes
    are compared as unsigned, a proper prefix is smaller. *)
Fixpoint lex_cmp (a b : bytes) : comparison :=
  match a, b with
  | [], [] => Eq
  | [], _ :: _ => Lt
  | _ :: _, [] => Gt
  | x :: a', y :: b' =>
      match Z.compare x y with
      | Eq => lex_cmp a' b'
      | c => c
      end
  end.

Definition lex_lt (a b : bytes) : Prop := lex_cmp a b = Lt.
Definition lex_ltb (a b : bytes) : bool :=
  match lex_cmp a b with Lt => true | _ => false end.
Definition lex_le (a b : bytes) : Prop := lex_cmp a b ≠ Gt.

Lemma lex_cmp_refl a : lex_cmp a a = Eq.
Proof. induction a as [|x a IH]; simpl; [done|]. by rewrite Z.compare_refl. Qed.

Lemma lex_cmp_eq a b : lex_cmp a b = Eq ↔ a = b.
Proof.
  split; [|intros ->; apply lex_cmp_refl].
  revert b; induction a as [|x a IH]; intros [|y b]; simpl; try done.
  destruct (Z.compare_spec x y); try done. intros; subst; f_equal; auto.
Qed.

Lemma lex_cmp_antisym a b : lex_cmp b a = CompOpp (lex_cmp a b).
Proof.
  revert b; induction a as [|x a IH]; intros [|y b]; simpl; try done.
  rewrite (Z.compare_antisym x y). destruct (x ?= y); simpl; auto.
Qed.

Lemma lex_lt_trans a b c : lex_lt a b → lex_lt b c → lex_lt a c.
Proof.
  unfold lex_lt. revert b c; induction a as [|x a IH]; intros [|y b] [|z c];
    simpl; try done.
  destruct (Z.compare_spec x y), (Z.compare_spec y z), (Z.compare_spec x z);
    try done; subst; try lia; eauto.
Qed.

Lemma lex_lt_irrefl a : ¬ lex_lt a a.
Proof. unfold lex_lt. by rewrite lex_cmp_refl. Qed.

Lemma lex_lt_app p a b : lex_lt (p ++ a) (p ++ b) ↔ lex_lt a b.
Proof.
  unfold lex_lt. induction p as [|x p IH]; simpl; [done|].
  by rewrite Z.compare_refl.
Qed.

Lemma lex_lt_prefix p x a : lex_lt p (p ++ x :: a).
Proof. unfold lex_lt. induction p as [|y p IH]; simpl; [done|]. by rewrite Z.compare_refl. Qed.

Lemma lex_lt_branch p x y a b : x < y → lex_lt (p ++ x :: a) (p ++ y :: b).
Proof.
  intros. apply lex_lt_app. unfold lex_lt. simpl.
  by rewrite (proj2 (Z.compare_lt_iff x y)).
Qed.

Lemma lex_le_lt_eq a b : lex_le a b ↔ lex_lt a b ∨ a = b.
Proof.
  unfold lex_le, lex_lt. rewrite <-lex_cmp_eq. destruct (lex_cmp a b); naive_solver.
Qed.

Lemma lex_not_le a b : ¬ lex_le a b ↔ lex_lt b a.
Proof.
  unfold lex_le, lex_lt. rewrite (lex_cmp_antisym a b).
  destruct (lex_cmp a b); simpl; naive_solver.
Qed.

#[global] Instance lex_le_dec a b : Decision (lex_le a b).
Proof. unfold lex_le. apply _. Defined.

#[global] Instance lex_lt_dec a b : Decision (lex_lt a b).
Proof. unfold lex_lt. apply _. Defined.

Lemma lex_le_refl a : lex_le a a.
Proof. apply lex_le_lt_eq. by right. Qed.

Lemma lex_lt_le a b : lex_lt a b → lex_le a b.
Proof. intros. apply lex_le_lt_eq. by left. Qed.

Lemma lex_le_lt_trans a b c : lex_le a b → lex_lt b c → lex_lt a c.
Proof. rewrite lex_le_lt_eq. intros [?| ->] ?; [by eapply lex_lt_trans|done]. Qed.

Lemma lex_lt_le_trans a b c : lex_lt a b → lex_le b c → lex_lt a c.
Proof. rewrite lex_le_lt_eq. intros ? [?|<-]; [by eapply lex_lt_trans|done]. Qed.

Lemma lex_le_trans a b c : lex_le a b → lex_le b c → lex_le a c.
Proof.
  rewrite (lex_le_lt_eq a b). intros [H| ->] H'; [|done].
  by eapply lex_lt_le, lex_lt_le_trans.
Qed.

Lemma lex_le_antisym a b : lex_le a b → lex_le b a → a = b.
Proof.
  rewrite (lex_le_lt_eq a b). intros [H|] H'; [|done].
  by destruct (lex_lt_irrefl a); eapply lex_lt_le_trans.
Qed.

Lemma lex_prefix_le p k : p `prefix_of` k → lex_le p k.
Proof.
  intros [l ->]. apply lex_le_lt_eq.
  destruct l as [|x l]; [right; by rewrite app_nil_r|left; apply lex_lt_prefix].
Qed.

Lemma lex_lt_app_both a b x y :
  length a = length b → lex_lt a b → lex_lt (a ++ x) (b ++ y).
Proof.
  unfold lex_lt. revert b. induction a as [|u a IH]; intros [|v b]; simpl; try done.
  intros [=]. destruct (u ?= v); eauto.
Qed.

(** [k] comes after everything that starts with [p]. *)
Definition lex_above (p k : bytes) : Prop := lex_lt p k ∧ ¬ p `prefix_of` k.

Lemma lex_above_app p k l : lex_above p k → lex_lt (p ++ l) k.
Proof.
  intros [H Hn]. revert k H Hn. induction p as [|x p IH]; intros [|y k]; simpl; try done.
  - intros _ []. apply prefix_nil.
  - unfold lex_lt. simpl. destruct (Z.compare_spec x y) as [->|H|H]; try done.
    intros H' Hn. apply IH; [done|]. intros Hp. apply Hn. by apply prefix_cons.
Qed.

(** How a key can be at or after [p ++ [x]]. *)
Lemma lex_le_snoc p x k :
  lex_le (p ++ [x]) k ↔ lex_above p k ∨ ∃ y l, k = p ++ y :: l ∧ x <= y.
Proof.
  split.
  - intros H. destruct (decide (p `prefix_of` k)) as [[l ->]|Hp].
    + right. destruct l as [|y l].
      * rewrite app_nil_r in H. exfalso. apply (lex_lt_irrefl p).
        eapply lex_lt_le_trans; [apply lex_lt_prefix|exact H].
      * exists y, l. split; [done|]. apply Z.nlt_ge. intros Hlt.
        apply (lex_lt_irrefl (p ++ [x])). eapply lex_le_lt_trans; [exact H|].
        by apply lex_lt_branch.
    + left. split; [|done]. eapply lex_lt_le_trans; [apply lex_lt_prefix|exact H].
  - intros [H|(y & l & -> & Hy)]; [by apply lex_lt_le, lex_above_app|].
    destruct (decide (x = y)) as [->|].
    + apply lex_prefix_le. exists l. by rewrite <-(assoc_L (++)).
    + apply lex_lt_le, lex_lt_branch. lia.
Qed.

(** The keys that start with [p ++ [i]] are an interval. *)
Lemma lex_interval p i k :
  lex_le (p ++ [i]) k → lex_lt k (p ++ [i + 1]) → p ++ [i] `prefix_of` k.
Proof.
  intros [Ha|(y & l & -> & Hy)]%lex_le_snoc Hlt.
  - destruct (lex_lt_irrefl k). by eapply lex_lt_trans, lex_above_app.
  - destruct (decide (y = i)) as [->|]; [exists l; by rewrite <-(assoc_L (++))|].
    destruct (lex_lt_irrefl (p ++ y :: l)). eapply lex_lt_le_trans; [exact Hlt|].
    apply lex_le_snoc. right. exists y, l. split; [done|lia].
Qed.

#[export] Hint Resolve lex_lt_prefix lex_lt_branch lex_cmp_refl : radix.

(** ** Prefixes of lists *)

Lemma prefix_take {A} (n : nat) (l : list A) : take n l `prefix_of` l.
Proof. exists (drop n l). by rewrite take_drop. Qed.

Lemma prefix_snoc_lookup {A} (p : list A) x l :
  p ++ [x] `prefix_of` l ↔ p `prefix_of` l ∧ l !! length p = Some x.
Proof.
  split.
  - intros [k ->]. rewrite <-(assoc_L (++)). split; [by eexists|].
    rewrite lookup_app_r by lia. by rewrite Nat.sub_diag.
  - intros [[k ->] Hl]. rewrite lookup_app_r, Nat.sub_diag in Hl by lia.
    destruct k as [|y k]; simplify_eq/=. exists k. by rewrite <-(assoc_L (++)).
Qed.

Lemma prefix_length_eq_l {A} (l1 l2 : list A) :
  l1 `prefix_of` l2 → (length l2 ≤ length l1)%nat → l1 = l2.
Proof.
  intros [k ->]. rewrite length_app. intros. destruct k; simpl in *; [|lia].
  by rewrite app_nil_r.
Qed.

Lemma prefix_comparable {A} (a b c : list A) :
  a `prefix_of` c → b `prefix_of` c → (length a ≤ length b)%nat →
  a `prefix_of` b.
Proof.
  intros Ha Hb Hl. destruct (prefix_weak_total _ _ _ Ha Hb) as [|Hba]; [done|].
  by rewrite (prefix_length_eq_l _ _ Hba).
Qed.

#[export] Hint Resolve prefix_take : radix.

(** ** Answers *)

(** What a call answers: a result; [Assertion] when an assertion fails or memory is
    accessed that is not the program's; [Never] when it does not come back, as from a loop
    that does not end, or from [abort]. *)
Inductive answer (A : Type) := Answer (a : A) | Assertion | Never.
Arguments Answer {A} a.
Arguments Assertion {A}.
Arguments Never {A}.

#[global] Instance answer_ret : MRet answer := λ A a, Answer a.
#[global] Instance answer_bind : MBind answer := λ A B f m,
  match m with Answer a => f a | Assertion => Assertion | Never => Never end.

(** An operation that stops only at an assertion. *)
Definition asserting {A} (m : option A) : answer A :=
  match m with Some a => Answer a | None => Assertion end.

(** The call comes back with a result that satisfies [Q], or not at all. *)
Definition ends {A} (m : answer A) (Q : A → Prop) : Prop :=
  match m with Answer a => Q a | Assertion => False | Never => True end.

Lemma ends_bind {A B} (m : answer A) (f : A → answer B) Q : ends m (λ a, ends (f a) Q) → ends (m ≫= f) Q.
Proof. by destruct m. Qed.

Lemma ends_mono {A} (m : answer A) (P Q : A → Prop) : ends m P → (∀ a, P a → Q a) → ends m Q.
Proof. destruct m; simpl; eauto. Qed.

Lemma ends_asserting {A} (m : option A) a (Q : A → Prop) : m = Some a → Q a → ends (asserting m) Q.
Proof. by intros ->. Qed.

(** ** The development's tactics *)

(** Case analysis on every boolean comparison the goal branches on. *)
Ltac bool_cases :=
  repeat (case_match;
    repeat match goal with
    | H : (_ =? _) = true |- _ => apply Z.eqb_eq in H
    | H : (_ =? _) = false |- _ => apply Z.eqb_neq in H
    | H : (_ <? _) = true |- _ => apply Z.ltb_lt in H
    | H : (_ <? _) = false |- _ => apply Z.ltb_ge in H
    | H : (_ <=? _) = true |- _ => apply Z.leb_le in H
    | H : (_ <=? _) = false |- _ => apply Z.leb_gt in H
    | H : (_ =? _)%nat = true |- _ => apply Nat.eqb_eq in H
    | H : (_ =? _)%nat = false |- _ => apply Nat.eqb_neq in H
    | H : (_ <? _)%nat = true |- _ => apply Nat.ltb_lt in H
    | H : (_ <? _)%nat = false |- _ => apply Nat.ltb_ge in H
    end).

(** Decide a closed proposition by computation. *)
Ltac by_decide := apply (bool_decide_unpack _); vm_compute; exact I.
