(* ===== verification/TagPtr.v ===== *)
(** Tagged global pointers: [include/radixtree/common.h].

    A [Gptr] (an [nvmm::GlobalPtr]) is a 64-bit word; a [TagGptr] pairs one
    with a 64-bit version tag, and may carry a mark in its least significant
    bit. *)

From S2P Require Import Prelude.

Abbreviation Gptr := Z.

Record TagGptr := mkTagGptr { gptr_ : Gptr; tag_ : Z }.

#[global] Instance TagGptr_eq_dec : EqDecision TagGptr.
Proof. solve_decision. Defined.

(** [TagGptr()], [TagGptr(uint64_t)], [TagGptr(gptr, tag)]. *)
Definition TagGptr_null : TagGptr := mkTagGptr 0 0.
Definition TagGptr_of_u64 (g : Z) : TagGptr := mkTagGptr g 0.
Definition TagGptr_make (g : Gptr) (t : Z) : TagGptr := mkTagGptr g t.

(** [p & ~(Gptr)1] on a 64-bit word. *)
Definition gptr_mask (p : Gptr) : Gptr := Z.land p (two64 - 2).

(** [TagGptr(mark, gptr, tag)]. *)
Definition TagGptr_marked (mark : Z) (g : Gptr) (t : Z) : TagGptr :=
  mkTagGptr (Z.lor (gptr_mask g) (Z.land mark 1)) t.

Definition mark (t : TagGptr) : Z := Z.land (gptr_ t) 1.
Definition gptr (t : TagGptr) : Gptr := gptr_mask (gptr_ t).
Definition gptr_nomark (t : TagGptr) : Gptr := gptr_ t.
Definition tag (t : TagGptr) : Z := tag_ t.

(** [tq.tag() + 1] on [uint64_t]. *)
Definition tag_succ (t : TagGptr) : Z := u64 (tag t + 1).

(** [operator==]. *)
Definition TagGptr_eqb (a b : TagGptr) : bool :=
  (gptr a =? gptr b) && (mark a =? mark b) && (tag a =? tag b).

Definition wf_ptr (g : Gptr) : Prop := 0 <= g < two64.

#[global] Instance wf_ptr_dec g : Decision (wf_ptr g).
Proof. unfold wf_ptr. apply _. Defined.

(** ** Splitting a word into its masked part and its mark *)

Lemma land_1_mod g : Z.land g 1 = g mod 2.
Proof. change 1 with (Z.ones 1) at 1. by rewrite Z.land_ones. Qed.

Lemma gptr_mask_even g : wf_ptr g → gptr_mask g = g - g mod 2.
Proof.
  intros [H0 H1]. unfold gptr_mask. rewrite <-land_1_mod.
  assert (Z.land g (two64 - 2) = Z.ldiff g 1) as ->.
  { apply Z.bits_inj'. intros n Hn. rewrite Z.land_spec, Z.ldiff_spec.
    destruct (decide (n < 64)) as [Hs|Hs].
    - f_equal. change (two64 - 2) with (Z.ldiff (Z.ones 64) 1).
      rewrite Z.ldiff_spec, Z.ones_spec_low by lia. done.
    - assert (Z.testbit g n = false) as ->; [|done].
      apply Z.bits_above_log2; [lia|].
      destruct (decide (g = 0)) as [->|]; [simpl; lia|].
      apply Z.log2_lt_pow2; [lia|]. unfold two64 in H1.
      eapply Z.lt_le_trans; [exact H1|]. apply Z.pow_le_mono_r; lia. }
  pose proof (Z.land_ldiff g 1) as Hd.
  pose proof (Z.add_nocarry_lxor (Z.land g 1) (Z.ldiff g 1)) as Ha.
  rewrite (Z.land_comm g 1) in *.
  assert (Z.land (Z.land 1 g) (Z.ldiff g 1) = 0) as Hz.
  { apply Z.bits_inj'. intros n _. rewrite !Z.land_spec, Z.ldiff_spec, Z.bits_0.
    destruct (Z.testbit 1 n), (Z.testbit g n); done. }
  specialize (Ha Hz).
  rewrite Z.lxor_lor in Ha by done.
  assert (Z.lor (Z.land 1 g) (Z.ldiff g 1) = g) as Hg.
  { apply Z.bits_inj'. intros n _. rewrite Z.lor_spec, Z.land_spec, Z.ldiff_spec.
    destruct (Z.testbit 1 n), (Z.testbit g n); done. }
  lia.
Qed.

Lemma TagGptr_eqb_spec a b :
  wf_ptr (gptr_ a) → wf_ptr (gptr_ b) → TagGptr_eqb a b = true ↔ a = b.
Proof.
  intros Ha Hb. unfold TagGptr_eqb, gptr, mark, tag.
  rewrite !andb_true_iff, !Z.eqb_eq, !gptr_mask_even, !land_1_mod by done.
  destruct a as [ga ta], b as [gb tb]; simpl.
  split; [intros [[??] ?]|intros [=]]; subst; [f_equal; lia|done].
Qed.

Lemma TagGptr_eqb_refl t : TagGptr_eqb t t = true.
Proof. unfold TagGptr_eqb. by rewrite !Z.eqb_refl. Qed.
