(* ===== verification/Fam.v ===== *)
(** Fabric-attached memory: the NVMM interface, the blocks the library keeps
    in it, and programs over it.

    NVMM (the heap, global pointers, the FAM atomics and [fam_memcmp]) is not
    part of this repository: it is the class [Nvmm], whose documented
    behaviour is the class [NvmmLaws].  Everything the library stores in FAM
    is a block of [mem]: a radix-tree [Node] or a value buffer [ValBuf].

    An operation of the library is a [prog]: a tree of [event]s, one per access
    to shared memory or call of the heap.  [run] executes a program alone;
    [step_thread] and [run_sched] interleave several of them, one event at a
    time. *)

From S2P Require Import Prelude TagPtr.

(** ** Blocks *)

Definition MAX_KEY_LEN : nat := 128.

(** [struct RadixTree::Node].  [n_key] is the whole [char key[MAX_KEY_LEN]]
    array, as unsigned bytes; only its first [n_prefix] bytes are meaningful. *)
Record Node := mkNode {
  n_key : bytes;
  n_prefix : nat;
  n_child : list Gptr;
  n_value : TagGptr
}.

(** [struct KVSRadixTree::ValBuf]. *)
Record ValBuf := mkValBuf { vb_size : Z; vb_val : bytes }.

Inductive block := BlkNode (n : Node) | BlkVal (v : ValBuf).

Definition sizeof_Node : Z := 2208.
Definition sizeof_ValBuf : Z := 8.

(** ** The NVMM interface *)

Class Nvmm := {
  HeapSt : Type;
  (** [Heap::Alloc(size)]: the null pointer when it fails. *)
  heap_Alloc : HeapSt → Z → Gptr * HeapSt;
  (** [Heap::Free(p)], at once, and [Heap::Free(op, p)], once the epoch ends. *)
  heap_Free : HeapSt → Gptr → HeapSt;
  heap_FreeOp : HeapSt → Gptr → HeapSt;
  heap_Size : HeapSt → Z;
  (** [Heap::Resize(n) == NO_ERROR] and the new state. *)
  heap_Resize : HeapSt → Z → bool * HeapSt;
  (** what a block just allocated reads as *)
  fresh_node : HeapSt → Gptr → Node;
  fresh_val : HeapSt → Gptr → Z → ValBuf;
  (** the blocks in use *)
  live : HeapSt → gset Gptr;
  (** [GlobalPtr::IsValid]. *)
  ptr_IsValid : Gptr → bool;
  (** [fam_memcmp] on two buffers of one length. *)
  fam_memcmp : bytes → bytes → Z;
  (** compare-and-store on a cell: the cell's content, the expected and the
      new value give the content seen and the content left. *)
  fam_cas64 : Z → Z → Z → Z * Z;
  fam_cas128 : TagGptr → TagGptr → TagGptr → TagGptr * TagGptr
}.

(** A node as a block of zeroed memory reads. *)
Definition no_key : bytes := replicate MAX_KEY_LEN 0.
Definition no_children : list Gptr := replicate 256 0.

#[global] Arguments no_key : simpl never.
#[global] Arguments no_children : simpl never.

Definition zero_node : Node := mkNode no_key 0 no_children TagGptr_null.

Class NvmmLaws (N : Nvmm) := {
  null_invalid : ptr_IsValid 0 = false;
  live_valid h p : p ∈ live h → ptr_IsValid p = true;
  alloc_fail h sz p h' :
    heap_Alloc h sz = (p, h') → p = 0 → live h' = live h;
  alloc_fresh h sz p h' :
    heap_Alloc h sz = (p, h') → p ≠ 0 →
    ptr_IsValid p = true ∧ wf_ptr p ∧ p ∉ live h ∧ live h' = {[p]} ∪ live h;
  (** [alignas(16) TagGptr value]: the 128-bit atomics need it *)
  alloc_aligned h sz : (fst (heap_Alloc h sz)) mod 16 = 0;
  alloc_zeroed h p : fresh_node h p = zero_node;
  free_live h p : live (heap_Free h p) = live h ∖ {[p]};
  free_op_live h p : live (heap_FreeOp h p) = live h;
  resize_live h n b h' : heap_Resize h n = (b, h') → live h' = live h;
  memcmp_spec a b : length a = length b →
    match lex_cmp a b with
    | Eq => fam_memcmp a b = 0
    | Lt => fam_memcmp a b < 0
    | Gt => 0 < fam_memcmp a b
    end;
  cas64_spec cur old new :
    fam_cas64 cur old new = (cur, if cur =? old then new else cur);
  cas128_spec cur old new :
    fam_cas128 cur old new = (cur, if decide (cur = old) then new else cur)
}.

(** ** Shared memory and events *)

Section Fam.
Context {N : Nvmm}.

Record world := mkWorld { hs : HeapSt; mem : gmap Gptr block }.

Inductive event : Type → Type :=
  (** the heap *)
  | AllocNode : event Gptr
  | AllocVal (len : Z) : event Gptr
  | FreeBlk (p : Gptr) : event unit
  | FreeOp (p : Gptr) : event unit
  | HeapSize : event Z
  | HeapResize (n : Z) : event bool
  (** a node: its key and prefix size, its child pointers, its value *)
  | LoadHdr (q : Gptr) : event (bytes * nat)
  | LoadChild (q : Gptr) (i : nat) : event Gptr
  | LoadValue (q : Gptr) : event TagGptr
  | CasChild (q : Gptr) (i : nat) (old new : Gptr) : event Gptr
  | CasValue (q : Gptr) (old new : TagGptr) : event TagGptr
  (** plain writes to a node *)
  | StoreNode (q : Gptr) (f : Node → Node) : event unit
  (** a value buffer *)
  | StoreVal (p : Gptr) (v : ValBuf) : event unit
  | LoadVal (p : Gptr) : event ValBuf.

Definition node_at (w : world) (q : Gptr) : option Node :=
  match mem w !! q with Some (BlkNode n) => Some n | _ => None end.

Definition set_node (q : Gptr) (n : Node) (w : world) : world :=
  mkWorld (hs w) (<[q := BlkNode n]> (mem w)).

Definition set_heap (h : HeapSt) (w : world) : world := mkWorld h (mem w).

Definition with_child (i : nat) (c : Gptr) (n : Node) : Node :=
  mkNode (n_key n) (n_prefix n) (<[i := c]> (n_child n)) (n_value n).

Definition with_value (v : TagGptr) (n : Node) : Node :=
  mkNode (n_key n) (n_prefix n) (n_child n) v.

Definition with_prefix (k : nat) (n : Node) : Node :=
  mkNode (n_key n) k (n_child n) (n_value n).

(** [memcpy(n->key, key, key_size)]: the bytes past [key_size] stay. *)
Definition with_key (key : bytes) (n : Node) : Node :=
  mkNode (key ++ drop (length key) (n_key n)) (n_prefix n) (n_child n) (n_value n).

(** The effect of one event; [None] is an access to memory that is not there. *)
Definition exec {X} (e : event X) (w : world) : option (X * world) :=
  match e in event X return option (X * world) with
  | AllocNode =>
      let '(p, h') := heap_Alloc (hs w) sizeof_Node in
      Some (p, if p =? 0 then set_heap h' w
               else set_node p (fresh_node (hs w) p) (set_heap h' w))
  | AllocVal len =>
      let '(p, h') := heap_Alloc (hs w) (u64 (len + sizeof_ValBuf)) in
      Some (p, if p =? 0 then set_heap h' w
               else mkWorld h' (<[p := BlkVal (fresh_val (hs w) p len)]> (mem w)))
  | FreeBlk p => Some (tt, mkWorld (heap_Free (hs w) p) (delete p (mem w)))
  | FreeOp p => Some (tt, set_heap (heap_FreeOp (hs w) p) w)
  | HeapSize => Some (heap_Size (hs w), w)
  | HeapResize n =>
      let '(b, h') := heap_Resize (hs w) n in Some (b, set_heap h' w)
  | LoadHdr q => n ← node_at w q; Some ((n_key n, n_prefix n), w)
  | LoadChild q i => n ← node_at w q; c ← n_child n !! i; Some (c, w)
  | LoadValue q => n ← node_at w q; Some (n_value n, w)
  | CasChild q i old new =>
      n ← node_at w q; c ← n_child n !! i;
      let '(seen, cell) := fam_cas64 c old new in
      Some (seen, set_node q (with_child i cell n) w)
  | CasValue q old new =>
      n ← node_at w q;
      let '(seen, cell) := fam_cas128 (n_value n) old new in
      Some (seen, set_node q (with_value cell n) w)
  | StoreNode q f => n ← node_at w q; Some (tt, set_node q (f n) w)
  | StoreVal p v =>
      match mem w !! p with
      | Some (BlkVal _) => Some (tt, mkWorld (hs w) (<[p := BlkVal v]> (mem w)))
      | _ => None
      end
  | LoadVal p =>
      match mem w !! p with Some (BlkVal v) => Some (v, w) | _ => None end
  end.

(** ** Programs *)

Inductive prog (A : Type) : Type :=
  | Ret (a : A)
  | Abort                     (* an assertion failed *)
  | OutOfFuel                 (* a loop ran longer than its fuel *)
  | Vis {X : Type} (e : event X) (k : X → prog A).

Arguments Ret {A} a.
Arguments Abort {A}.
Arguments OutOfFuel {A}.
Arguments Vis {A X} e k.

Definition call {X} (e : event X) : prog X := Vis e Ret.

#[global] Instance prog_ret : MRet prog := @Ret.
#[global] Instance prog_bind : MBind prog := λ A B f,
  fix go (m : prog A) : prog B :=
    match m with
    | Ret a => f a
    | Abort => Abort
    | OutOfFuel => OutOfFuel
    | Vis e k => Vis e (λ x, go (k x))
    end.

(** [assert(b)]. *)
Definition assert (b : bool) : prog unit := if b then Ret tt else Abort.

Inductive outcome (A : Type) :=
  | Done (a : A) (w : world)
  | Aborted
  | NoFuel
  | Fault.

Arguments Done {A} a w.
Arguments Aborted {A}.
Arguments NoFuel {A}.
Arguments Fault {A}.

(** A program run alone. *)
Fixpoint run {A} (m : prog A) (w : world) : outcome A :=
  match m with
  | Ret a => Done a w
  | Abort => Aborted
  | OutOfFuel => NoFuel
  | Vis e k => match exec e w with
               | Some (x, w') => run (k x) w'
               | None => Fault
               end
  end.

Lemma run_bind {A B} (m : prog A) (f : A → prog B) w :
  run (m ≫= f) w =
    match run m w with
    | Done a w' => run (f a) w'
    | Aborted => Aborted
    | NoFuel => NoFuel
    | Fault => Fault
    end.
Proof.
  revert w. induction m as [| | |X e k IH]; intros w; simpl; try done.
  destruct (exec e w) as [[x w']|]; [apply IH|done].
Qed.

(** ** Interleaving

    A configuration is the shared memory and the programs the threads still
    have to run; a schedule names the thread that makes the next access. *)

Record config (A : Type) := mkConfig { c_world : world; c_threads : list (prog A) }.
Arguments mkConfig {A} _ _.
Arguments c_world {A} _.
Arguments c_threads {A} _.

Definition step_thread {A} (i : nat) (c : config A) : option (config A) :=
  m ← c_threads c !! i;
  match m with
  | Vis e k =>
      '(x, w') ← exec e (c_world c);
      Some (mkConfig w' (<[i := k x]> (c_threads c)))
  | _ => None
  end.

Fixpoint run_sched {A} (s : list nat) (c : config A) : option (config A) :=
  match s with
  | [] => Some c
  | i :: s' => c' ← step_thread i c; run_sched s' c'
  end.

(** The thread's next access. *)
Inductive step {A} (c c' : config A) : Prop :=
  step_intro i (H : step_thread i c = Some c').

(** ** Weakest preconditions

    [wp ab m w Q]: run from [w], [m] ends in a result and a memory that satisfy
    [Q], or in an assertion that failed, and then [ab] holds. *)

Definition wp {A} (ab : Prop) (m : prog A) (w : world) (Q : A → world → Prop) : Prop :=
  match run m w with
  | Done a w' => Q a w'
  | Aborted => ab
  | NoFuel | Fault => False
  end.

Lemma wp_ret {A} ab (a : A) w (Q : A → world → Prop) : Q a w → wp ab (Ret a) w Q.
Proof. done. Qed.

Lemma wp_bind {A B} ab (m : prog A) (f : A → prog B) w Q :
  wp ab m w (λ a w', wp ab (f a) w' Q) → wp ab (m ≫= f) w Q.
Proof. unfold wp. rewrite run_bind. by destruct (run m w). Qed.

Lemma wp_call {X} ab (e : event X) w (Q : X → world → Prop) x w' :
  exec e w = Some (x, w') → Q x w' → wp ab (call e) w Q.
Proof. unfold wp. simpl. by intros ->. Qed.

Lemma wp_mono {A} ab (m : prog A) w (P Q : A → world → Prop) :
  wp ab m w P → (∀ a w', P a w' → Q a w') → wp ab m w Q.
Proof. unfold wp. destruct (run m w); eauto. Qed.

Lemma wp_assert ab b w (Q : unit → world → Prop) :
  b = true → Q tt w → wp ab (assert b) w Q.
Proof. by intros ->. Qed.

Lemma wp_done {A} ab (m : prog A) w Q :
  wp ab m w Q →
  (∃ a w', run m w = Done a w' ∧ Q a w') ∨ (run m w = Aborted ∧ ab).
Proof. unfold wp. destruct (run m w) eqn:E; naive_solver. Qed.

Lemma wp_total {A} (m : prog A) w Q :
  wp False m w Q → ∃ a w', run m w = Done a w' ∧ Q a w'.
Proof. by intros [?|[_ ?]]%wp_done. Qed.

Lemma wp_run {A} ab (m : prog A) w a w' (Q : A → world → Prop) :
  run m w = Done a w' → Q a w' → wp ab m w Q.
Proof. unfold wp. by intros ->. Qed.

Lemma wp_first {A} (m : prog A) w a (Q : world → Prop) :
  wp False m w (λ a' w', a' = a ∧ Q w') → ∃ w', run m w = Done a w' ∧ Q w'.
Proof. intros (a' & w' & Hr & -> & HQ)%wp_total. eauto. Qed.

(** The heap gives [n] more nodes, each at the first call. *)
Fixpoint heap_gives (n : nat) (h : HeapSt) : Prop :=
  match n with
  | O => True
  | S n' => let '(p, h') := heap_Alloc h sizeof_Node in p ≠ 0 ∧ heap_gives n' h'
  end.

#[global] Instance heap_gives_dec n h : Decision (heap_gives n h).
Proof.
  revert h. induction n as [|n IH]; intros h; simpl; [apply _|].
  destruct (heap_Alloc h sizeof_Node). apply _.
Defined.

Lemma node_at_lookup w q n : node_at w q = Some n ↔ mem w !! q = Some (BlkNode n).
Proof. unfold node_at. split; [|by intros ->]. repeat case_match; naive_solver. Qed.

End Fam.

Arguments Ret {A} a.
Arguments Abort {A}.
Arguments OutOfFuel {A}.
Arguments Vis {A X} e k.
Arguments Done {N A} a w.
Arguments Aborted {N A}.
Arguments NoFuel {N A}.
Arguments Fault {N A}.
Arguments mkConfig {N A} _ _.
Arguments c_world {N A} _.
Arguments c_threads {N A} _.

(** Step through a program under [wp]. *)
Ltac wp_step :=
  cbv beta;
  lazymatch goal with
  | |- wp _ (Ret _) _ _ => apply wp_ret
  | |- wp _ (mbind _ _) _ _ => apply wp_bind
  | |- wp _ (assert _) _ _ => apply wp_assert
  | |- wp _ (call _) _ _ => eapply wp_call
  end.

(** ** A reference instance

    A heap that hands out ascending, 16-byte aligned, zeroed blocks below
    [2^63] and never reuses one: it shows that the laws can hold, and it runs
    the examples. *)

Definition ref_memcmp (a b : bytes) : Z :=
  match lex_cmp a b with Eq => 0 | Lt => -1 | Gt => 1 end.

Record RefHeap := mkRefHeap { rh_next : Z; rh_size : Z; rh_live : gset Gptr }.

Definition ref_Alloc (h : RefHeap) (sz : Z) : Gptr * RefHeap :=
  let p := 16 * (rh_next h) in
  let p' := rh_next h + Z.max 0 (sz / 16) + 1 in
  if (0 <? rh_next h) && (p <? 2 ^ 63) && negb (bool_decide (p ∈ rh_live h)) then
    (p, mkRefHeap p' (rh_size h) ({[p]} ∪ rh_live h))
  else (0, h).

#[export] Instance RefNvmm : Nvmm := {|
  HeapSt := RefHeap;
  heap_Alloc := ref_Alloc;
  heap_Free h p := mkRefHeap (rh_next h) (rh_size h) (rh_live h ∖ {[p]});
  heap_FreeOp h p := h;
  heap_Size := rh_size;
  heap_Resize h n := (true, mkRefHeap (rh_next h) n (rh_live h));
  fresh_node _ _ := zero_node;
  fresh_val _ _ len := mkValBuf 0 (replicate (Z.to_nat len) 0);
  live h := rh_live h ∖ {[0]};
  ptr_IsValid p := negb (p =? 0);
  fam_memcmp := ref_memcmp;
  fam_cas64 cur old new := (cur, if cur =? old then new else cur);
  fam_cas128 cur old new := (cur, if decide (cur = old) then new else cur)
|}.

#[export] Instance RefNvmmLaws : NvmmLaws RefNvmm.
Proof.
  split; simpl; try done.
  - intros h p Hp. apply negb_true_iff, Z.eqb_neq. set_solver.
  - intros h sz p h'. unfold ref_Alloc. case_match eqn:E; naive_solver lia.
  - intros h sz p h'. unfold ref_Alloc. case_match eqn:E; intros [= <- <-] Hp; [|done].
    apply andb_true_iff in E as [[E1 E2]%andb_true_iff E3].
    apply Z.ltb_lt in E1, E2. apply negb_true_iff, bool_decide_eq_false in E3.
    split_and!; simpl.
    + by apply negb_true_iff, Z.eqb_neq.
    + unfold wf_ptr, two64. lia.
    + set_solver.
    + set_solver.
  - intros h sz. unfold ref_Alloc. case_match; simpl; [|done].
    rewrite Z.mul_comm. apply Z_mod_mult.
  - set_solver.
  - naive_solver.
  - intros a b _. unfold ref_memcmp. by destruct (lex_cmp a b).
Qed.

Definition ref_heap : RefHeap := mkRefHeap 1 (2 ^ 30) ∅.
Definition ref_world : world := mkWorld (N := RefNvmm) ref_heap ∅.
