(* ===== verification/RadixTree.v ===== *)
(** The radix tree's operations on keys: [src/radix_tree.cc], except for the
    range scan, which is in [RadixScan].

    The operations are programs over shared memory ([Fam.prog]).  The
    [fam_persist] and [fam_invalidate] calls of the source manage caches and
    leave the contents of memory as they are, and the metrics are observers:
    they have no counterpart here. *)

From S2P Require Import Prelude TagPtr Fam.

Section RadixTree.
Context {N : Nvmm}.

(** [TagGptr::IsValid]. *)
Definition IsValid (t : TagGptr) : bool := ptr_IsValid (gptr_ t).

(** [UpdateFlags]. *)
Inductive UpdateFlags := FIND_OR_CREATE | UPDATE.

Definition update_flag (u : UpdateFlags) : bool :=
  match u with FIND_OR_CREATE => false | UPDATE => true end.

(** ** Allocating a node *)

Definition alloc_retry_cnt : nat := 1000.

(** [while (ptr == 0 && (cnt--) > 0) ptr = heap->Alloc(sizeof(Node));] *)
Fixpoint alloc_retry (cnt : nat) : prog Gptr :=
  match cnt with
  | O => Ret 0
  | S cnt' =>
      p ← call AllocNode;
      if p =? 0 then alloc_retry cnt' else Ret p
  end.

(** Double the heap and allocate again; the program stops if that fails. *)
Definition resize_and_alloc : prog Gptr :=
  size ← call HeapSize;
  ret ← call (HeapResize (u64 (2 * size)));
  assert ret;;
  p ← call AllocNode;
  assert (ptr_IsValid p);;
  Ret p.

Definition alloc_node : prog Gptr :=
  p ← alloc_retry alloc_retry_cnt;
  if ptr_IsValid p then Ret p else resize_and_alloc.

(** ** Creating or opening a tree *)

Definition init_root (n : Node) : Node :=
  with_value TagGptr_null
    (mkNode (n_key n) 0 no_children (n_value n)).

(** The constructor; the result is what [get_root] returns. *)
Definition RadixTree_new (Root : Gptr) : prog Gptr :=
  if Root =? 0 then
    p ← call AllocNode;
    root ← (if ptr_IsValid p then Ret p else resize_and_alloc);
    call (StoreNode root init_root);;
    Ret root
  else Ret Root.

(** ** Looking for a key *)

(** A [Gptr *]: the child slot of a node.  [NULL] is the slot of no node. *)
Definition slot : Type := Gptr * nat.
Definition NULL : slot := (0, 0%nat).

Definition child_index (b : Z) : nat := Z.to_nat b.

(** [for (i = 0; i < max_i; i++) if (key[i] != n->key[i]) break;] *)
Fixpoint match_len (max_i : nat) (key nkey : bytes) : nat :=
  match max_i, key, nkey with
  | S m, x :: key', y :: nkey' => if x =? y then S (match_len m key' nkey') else 0
  | _, _, _ => 0
  end.

(** Where [put] and [putC] leave the inner loop. *)
Inductive point :=
  | PtMatch (q : Gptr)          (* [q]'s prefix is the key *)
  | PtEmpty (p : slot)          (* [*p] was null: case 1 *)
  | PtSplit (p : slot) (q : Gptr) (prefix_size : nat) (existing : Z). (* case 2 *)

(** [while (q != 0)]: find the current insertion point, from the slot [p] that
    was seen to hold [q]. *)
Fixpoint find_point (fuel : nat) (check : bool) (key : bytes) (p : slot) (q : Gptr)
    : prog point :=
  match fuel with
  | O => OutOfFuel
  | S fuel' =>
      if q =? 0 then Ret (PtEmpty p) else
      '(nkey, nprefix) ← call (LoadHdr q);
      let key_size := length key in
      let max_i := Nat.min key_size nprefix in
      let i := match_len max_i key nkey in
      if (i <? nprefix)%nat then Ret (PtSplit p q i (nth i nkey 0))
      else
        assert (negb check || (i =? nprefix)%nat);;
        if (key_size =? i)%nat then Ret (PtMatch q)
        else
          let idx := child_index (nth i key 0) in
          q' ← call (LoadChild q idx);
          find_point fuel' check key (q, idx) q'
  end.

(** [for (;;)]: swing the value pointer of [q] to [value], with the next tag;
    the result is the value replaced and the new one. *)
Fixpoint cas_loop (fuel : nat) (q : Gptr) (value : Gptr) (tq : TagGptr)
    : prog (TagGptr * TagGptr) :=
  match fuel with
  | O => OutOfFuel
  | S fuel' =>
      let new_value := TagGptr_make value (tag_succ tq) in
      seen_tq ← call (CasValue q tq new_value);
      if TagGptr_eqb seen_tq tq then Ret (tq, new_value)
      else cas_loop fuel' q value seen_tq
  end.

Definition free_if (p : Gptr) : prog unit :=
  if p =? 0 then Ret tt else call (FreeBlk p).

(** ** put *)

Definition init_leaf (key : bytes) (value : Gptr) (n : Node) : Node :=
  with_value (TagGptr_make value 0) (with_prefix (length key) (with_key key n)).

(** [if (new_leaf_ptr == 0) { ... }] *)
Definition make_leaf (key : bytes) (value : Gptr) (new_leaf_ptr : Gptr) : prog Gptr :=
  if new_leaf_ptr =? 0 then
    l ← alloc_node;
    call (StoreNode l (init_leaf key value));;
    Ret l
  else Ret new_leaf_ptr.

Definition init_intermediate (key : bytes) (n : Node) : Node :=
  let n' := with_key key n in
  mkNode (n_key n') (n_prefix n') no_children (n_value n').

(** [if (intermediate_node_ptr == 0) { ... }] *)
Definition make_intermediate (key : bytes) (intermediate_node_ptr : Gptr) : prog Gptr :=
  if intermediate_node_ptr =? 0 then
    m ← alloc_node;
    call (StoreNode m (init_intermediate key));;
    Ret m
  else Ret intermediate_node_ptr.

(** The intermediate node that holds the value itself ([prefix_size == key_size]). *)
Definition link_value (value : Gptr) (prefix_size : nat) (existing : Z) (q : Gptr)
    (n : Node) : Node :=
  with_child (child_index existing) q
    (with_prefix prefix_size (with_value (TagGptr_make value 0) n)).

(** The intermediate node above a new leaf. *)
Definition link_leaf (b : Z) (new_leaf_ptr : Gptr) (prefix_size : nat) (existing : Z)
    (q : Gptr) (n : Node) : Node :=
  with_child (child_index existing) q
    (with_prefix prefix_size (with_child (child_index b) new_leaf_ptr n)).

(** The key's node exists: update its value, or return it. *)
Definition put_match (fuel : nat) (update : UpdateFlags) (value : Gptr)
    (q new_leaf_ptr intermediate_node_ptr : Gptr) : prog TagGptr :=
  free_if intermediate_node_ptr;;
  free_if new_leaf_ptr;;
  tq ← call (LoadValue q);
  if update_flag update then
    r ← cas_loop fuel q value tq; Ret (fst r)
  else if IsValid tq then Ret tq
  else r ← cas_loop fuel q value tq; Ret (fst r).

(** Case 1 up to the pointer swing: link a new leaf; the result is what the
    slot held, and the leaf. *)
Definition put_insert (key : bytes) (value : Gptr) (p : slot) (new_leaf_ptr : Gptr)
    : prog (Gptr * Gptr) :=
  l ← make_leaf key value new_leaf_ptr;
  seen_q ← call (CasChild p.1 p.2 0 l);
  Ret (seen_q, l).

(** Case 2 up to the pointer swing: split [q]'s prefix; the result is what the
    slot held, the leaf and the intermediate node. *)
Definition put_split (key : bytes) (value : Gptr) (p : slot) (q : Gptr)
    (prefix_size : nat) (existing : Z) (new_leaf_ptr intermediate_node_ptr : Gptr)
    : prog (Gptr * Gptr * Gptr) :=
  m ← make_intermediate key intermediate_node_ptr;
  if (prefix_size =? length key)%nat then
    call (StoreNode m (link_value value prefix_size existing q));;
    seen_q ← call (CasChild p.1 p.2 q m);
    Ret (seen_q, new_leaf_ptr, m)
  else
    l ← make_leaf key value new_leaf_ptr;
    call (StoreNode m (link_leaf (nth prefix_size key 0) l prefix_size existing q));;
    seen_q ← call (CasChild p.1 p.2 q m);
    Ret (seen_q, l, m).

(** [for (;;)] *)
Fixpoint put_loop (fuel : nat) (key : bytes) (value : Gptr) (update : UpdateFlags)
    (p : slot) (q new_leaf_ptr intermediate_node_ptr : Gptr) : prog TagGptr :=
  match fuel with
  | O => OutOfFuel
  | S fuel' =>
      pt ← find_point fuel (negb (update_flag update)) key p q;
      match pt with
      | PtMatch q => put_match fuel update value q new_leaf_ptr intermediate_node_ptr
      | PtEmpty p =>
          '(seen_q, l) ← put_insert key value p new_leaf_ptr;
          if seen_q =? 0 then free_if intermediate_node_ptr;; Ret TagGptr_null
          else put_loop fuel' key value update p seen_q l intermediate_node_ptr
      | PtSplit p q prefix_size existing =>
          '(seen_q, l, m) ← put_split key value p q prefix_size existing
                              new_leaf_ptr intermediate_node_ptr;
          if seen_q =? q then
            (if (prefix_size =? length key)%nat then free_if l else Ret tt);;
            Ret TagGptr_null
          else put_loop fuel' key value update p seen_q l m
      end
  end.

Definition key_ok (key : bytes) : bool :=
  (0 <? length key)%nat && (length key <=? MAX_KEY_LEN)%nat.

Definition put (fuel : nat) (root : Gptr) (key : bytes) (value : Gptr)
    (update : UpdateFlags) : prog TagGptr :=
  assert (key_ok key);;
  put_loop fuel key value update NULL root 0 0.

(** ** get and destroy *)

(** [fam_memcmp(key, n->key, std::min(n->prefix_size, key_size))] *)
Definition cmp_prefix (key nkey : bytes) (nprefix : nat) : Z :=
  let m := Nat.min nprefix (length key) in
  fam_memcmp (take m key) (take m nkey).

Fixpoint get_loop (fuel : nat) (key : bytes) (q : Gptr) : prog TagGptr :=
  match fuel with
  | O => OutOfFuel
  | S fuel' =>
      if q =? 0 then Ret TagGptr_null else
      '(nkey, nprefix) ← call (LoadHdr q);
      if negb (cmp_prefix key nkey nprefix =? 0) then Ret TagGptr_null
      else if (nprefix =? length key)%nat then call (LoadValue q)
      else if (length key <? nprefix)%nat then Ret TagGptr_null
      else
        q' ← call (LoadChild q (child_index (nth nprefix key 0)));
        get_loop fuel' key q'
  end.

(** A descent follows at most one node per length of a prefix. *)
Definition descent_fuel : nat := S (S MAX_KEY_LEN).

Definition get (root : Gptr) (key : bytes) : prog TagGptr :=
  assert (key_ok key);;
  get_loop descent_fuel key root.

Fixpoint destroy_loop (fuel cas_fuel : nat) (key : bytes) (q : Gptr) : prog TagGptr :=
  match fuel with
  | O => OutOfFuel
  | S fuel' =>
      if q =? 0 then Ret TagGptr_null else
      '(nkey, nprefix) ← call (LoadHdr q);
      if negb (cmp_prefix key nkey nprefix =? 0) then Ret TagGptr_null
      else if (nprefix =? length key)%nat then
        tq ← call (LoadValue q);
        r ← cas_loop cas_fuel q 0 tq;
        Ret (fst r)
      else if (length key <? nprefix)%nat then Ret TagGptr_null
      else
        q' ← call (LoadChild q (child_index (nth nprefix key 0)));
        destroy_loop fuel' cas_fuel key q'
  end.

Definition destroy (cas_fuel : nat) (root : Gptr) (key : bytes) : prog TagGptr :=
  assert (key_ok key);;
  destroy_loop descent_fuel cas_fuel key root.

(** ** Operations for consistent DRAM caching

    They also return the node of the key, so that later operations can go
    straight to it.  [old] is the caller's [old_value] on entry: a call that
    does not assign it leaves it as it was. *)

Record ptrs := mkPtrs { key_ptr : Gptr; val_ptr : TagGptr; old_value : TagGptr }.

Fixpoint putC_loop (fuel : nat) (key : bytes) (value : Gptr)
    (p : slot) (q new_leaf_ptr intermediate_node_ptr : Gptr) : prog ptrs :=
  match fuel with
  | O => OutOfFuel
  | S fuel' =>
      pt ← find_point fuel false key p q;
      match pt with
      | PtMatch q =>
          free_if intermediate_node_ptr;;
          free_if new_leaf_ptr;;
          tq ← call (LoadValue q);
          '(old_value, new_value) ← cas_loop fuel q value tq;
          Ret (mkPtrs q new_value old_value)
      | PtEmpty p =>
          '(seen_q, l) ← put_insert key value p new_leaf_ptr;
          if seen_q =? 0 then
            free_if intermediate_node_ptr;;
            Ret (mkPtrs l (TagGptr_make value 0) TagGptr_null)
          else putC_loop fuel' key value p seen_q l intermediate_node_ptr
      | PtSplit p q prefix_size existing =>
          '(seen_q, l, m) ← put_split key value p q prefix_size existing
                              new_leaf_ptr intermediate_node_ptr;
          if seen_q =? q then
            if (prefix_size =? length key)%nat then
              free_if l;;
              Ret (mkPtrs m (TagGptr_make value 0) TagGptr_null)
            else Ret (mkPtrs l (TagGptr_make value 0) TagGptr_null)
          else putC_loop fuel' key value p seen_q l m
      end
  end.

Definition putC (fuel : nat) (root : Gptr) (key : bytes) (value : Gptr) : prog ptrs :=
  assert (key_ok key);;
  putC_loop fuel key value NULL root 0 0.

(** [putC(key_ptr, value, old_value)]: the new and the old value. *)
Definition putC_ptr (fuel : nat) (key_ptr value : Gptr) : prog (TagGptr * TagGptr) :=
  assert (negb (key_ptr =? 0));;
  tq ← call (LoadValue key_ptr);
  '(old_value, new_value) ← cas_loop fuel key_ptr value tq;
  Ret (new_value, old_value).

(** [getC] does not stop at a prefix longer than the key: it then reads
    [key[key_size]], one byte past the key.  [past] is what that byte holds. *)
Fixpoint getC_loop (fuel : nat) (past : Z) (key : bytes) (q : Gptr)
    : prog (Gptr * TagGptr) :=
  match fuel with
  | O => OutOfFuel
  | S fuel' =>
      if q =? 0 then Ret (0, TagGptr_null) else
      '(nkey, nprefix) ← call (LoadHdr q);
      if negb (cmp_prefix key nkey nprefix =? 0) then Ret (0, TagGptr_null)
      else if (nprefix =? length key)%nat then
        tq ← call (LoadValue q); Ret (q, tq)
      else
        q' ← call (LoadChild q (child_index (nth (Nat.min nprefix (length key)) key past)));
        getC_loop fuel' past key q'
  end.

Definition getC (past : Z) (root : Gptr) (key : bytes) : prog (Gptr * TagGptr) :=
  assert (key_ok key);;
  getC_loop descent_fuel past key root.

Definition getC_ptr (key_ptr : Gptr) : prog TagGptr :=
  assert (negb (key_ptr =? 0));;
  call (LoadValue key_ptr).

Fixpoint destroyC_loop (fuel cas_fuel : nat) (past : Z) (key : bytes) (old : TagGptr)
    (q : Gptr) : prog ptrs :=
  match fuel with
  | O => OutOfFuel
  | S fuel' =>
      if q =? 0 then Ret (mkPtrs 0 TagGptr_null old) else
      '(nkey, nprefix) ← call (LoadHdr q);
      if negb (cmp_prefix key nkey nprefix =? 0) then Ret (mkPtrs 0 TagGptr_null old)
      else if (nprefix =? length key)%nat then
        tq ← call (LoadValue q);
        '(old_value, new_value) ← cas_loop cas_fuel q 0 tq;
        Ret (mkPtrs q new_value old_value)
      else
        q' ← call (LoadChild q (child_index (nth (Nat.min nprefix (length key)) key past)));
        destroyC_loop fuel' cas_fuel past key old q'
  end.

Definition destroyC (cas_fuel : nat) (past : Z) (root : Gptr) (key : bytes)
    (old : TagGptr) : prog ptrs :=
  assert (key_ok key);;
  destroyC_loop descent_fuel cas_fuel past key old root.

Definition destroyC_ptr (fuel : nat) (key_ptr : Gptr) : prog (TagGptr * TagGptr) :=
  assert (negb (key_ptr =? 0));;
  tq ← call (LoadValue key_ptr);
  '(old_value, new_value) ← cas_loop fuel key_ptr 0 tq;
  Ret (new_value, old_value).

End RadixTree.
