(* ===== verification/RadixInv.v ===== *)
(** The radix tree as a data structure: reachability, the well-formedness
    invariant, and the abstract versioned map a tree represents.

    A node stands for the key [nkey], its first [n_prefix] bytes.  The tree is
    well formed when the root stands for the empty key and the child at index
    [i] of a node for [k] stands for a key that starts with [k ++ [i]].  The
    represented map has an entry for every reachable node, null values
    included: a deleted key and a prefix made by a split keep their node. *)

From S2P Require Import Prelude TagPtr Fam RadixTree.

Definition nkey (n : Node) : bytes := take (n_prefix n) (n_key n).

Definition node_shape (n : Node) : Prop :=
  length (n_key n) = MAX_KEY_LEN ∧ (n_prefix n ≤ MAX_KEY_LEN)%nat ∧
  length (n_child n) = 256%nat ∧ byte_key (nkey n).

(** [sub m a b]: [b] is reached from [a] by following child pointers. *)
Inductive sub (m : gmap Gptr block) (a : Gptr) : Gptr → Prop :=
  | sub_refl : sub m a a
  | sub_step p n i c :
      sub m a p → m !! p = Some (BlkNode n) → n_child n !! i = Some c → c ≠ 0 →
      sub m a c.

(** What a reachable node at [p] must be. *)
Definition node_ok (m : gmap Gptr block) (p : Gptr) : Prop :=
  ∃ n, m !! p = Some (BlkNode n) ∧ node_shape n ∧
    ∀ i c, n_child n !! i = Some c → c ≠ 0 →
      ∃ nc, m !! c = Some (BlkNode nc) ∧ nkey n ++ [Z.of_nat i] `prefix_of` nkey nc.

Record tree_wf (m : gmap Gptr block) (root : Gptr) : Prop := {
  wf_root : ∃ n, m !! root = Some (BlkNode n) ∧ n_prefix n = 0%nat;
  wf_null : m !! 0 = None;
  wf_nodes p : sub m root p → node_ok m p
}.

(** A node for [k] with value [t] is in the tree. *)
Definition has (m : gmap Gptr block) (root : Gptr) (k : bytes) (t : TagGptr) : Prop :=
  ∃ p n, sub m root p ∧ m !! p = Some (BlkNode n) ∧ nkey n = k ∧ n_value n = t.

Record repr (m : gmap Gptr block) (root : Gptr) (M : gmap bytes TagGptr) : Prop := {
  repr_wf : tree_wf m root;
  repr_has k t : M !! k = Some t ↔ has m root k t
}.

#[export] Hint Constructors sub : radix.

(** ** Reachability *)

Lemma nkey_length n : node_shape n → length (nkey n) = n_prefix n.
Proof. intros (Hk & Hp & _). unfold nkey. rewrite length_take. lia. Qed.

Lemma sub_trans m a b c : sub m a b → sub m b c → sub m a c.
Proof. intros Hab. induction 1; eauto with radix. Qed.

Lemma sub_split m a b :
  sub m a b → a = b ∨ ∃ n i c, m !! a = Some (BlkNode n) ∧
    n_child n !! i = Some c ∧ c ≠ 0 ∧ sub m c b.
Proof.
  induction 1 as [|p n i c Hs [<-|(n' & j & d & ?&?&?&?)] Hp Hc H0]; [by left|..]; right.
  - exists n, i, c. eauto with radix.
  - exists n', j, d. eauto 10 with radix.
Qed.

Section Tree.
Context (m : gmap Gptr block) (root : Gptr) (Hwf : tree_wf m root).
Implicit Types (p q : Gptr) (n : Node) (k : bytes).

Notation reach := (sub m root).

Lemma reach_shape p n : reach p → m !! p = Some (BlkNode n) → node_shape n.
Proof. intros (n' & Hn & Hs & _)%(wf_nodes _ _ Hwf) ?. by simplify_eq. Qed.

Lemma reach_node p : reach p → ∃ n, m !! p = Some (BlkNode n).
Proof. intros (n' & Hn & _)%(wf_nodes _ _ Hwf). eauto. Qed.

Lemma reach_nonnull p : reach p → p ≠ 0.
Proof. intros [n Hn]%reach_node ->. by rewrite (wf_null _ _ Hwf) in Hn. Qed.

Lemma reach_child p n i c :
  reach p → m !! p = Some (BlkNode n) → n_child n !! i = Some c → c ≠ 0 →
  reach c ∧ ∃ nc, m !! c = Some (BlkNode nc) ∧ nkey n ++ [Z.of_nat i] `prefix_of` nkey nc.
Proof.
  intros Hr Hn Hi Hc. split; [eauto with radix|].
  destruct (wf_nodes _ _ Hwf p Hr) as (n' & Hn' & _ & Hch). simplify_eq. eauto.
Qed.

(** Going down, keys grow. *)
Lemma sub_prefix p q np nq :
  reach p → sub m p q → m !! p = Some (BlkNode np) → m !! q = Some (BlkNode nq) →
  nkey np `prefix_of` nkey nq.
Proof.
  intros Hr Hs Hp. revert nq. induction Hs as [|q n i c Hs IH Hq Hi Hc]; intros nc Hnc.
  - by simplify_eq.
  - destruct (reach_child q n i c) as (_ & nc' & ? & Hpre); eauto using sub_trans.
    simplify_eq. etrans; [by apply IH|]. etrans; [|exact Hpre]. by eexists.
Qed.

Lemma sub_child p q np nq :
  reach p → sub m p q → p ≠ q → m !! p = Some (BlkNode np) → m !! q = Some (BlkNode nq) →
  ∃ i c, n_child np !! i = Some c ∧ c ≠ 0 ∧ sub m c q ∧
    nkey np ++ [Z.of_nat i] `prefix_of` nkey nq.
Proof.
  intros Hr [->|(n & i & c & Hn & Hi & Hc & Hs)]%sub_split Hne Hp Hq; [done|].
  simplify_eq. exists i, c. split_and!; try done.
  destruct (reach_child p n i c) as (Hrc & nc & Hnc & Hpre); auto.
  etrans; [exact Hpre|]. by eapply sub_prefix.
Qed.

Lemma root_nkey n : m !! root = Some (BlkNode n) → nkey n = [].
Proof.
  destruct (wf_root _ _ Hwf) as (n' & Hn' & H0). intros. simplify_eq.
  unfold nkey. by rewrite H0.
Qed.

(** A reachable node lies below every reachable node whose key its key extends. *)
Lemma sub_of_prefix p q np nq :
  reach p → reach q → m !! p = Some (BlkNode np) → m !! q = Some (BlkNode nq) →
  nkey np `prefix_of` nkey nq → sub m p q.
Proof.
  intros Hp. revert np. induction Hp as [|p n i c Hs IH Hn Hi Hc]; [done|].
  intros nc Hq Hnc Hnq Hpre.
  destruct (reach_child p n i c) as (_ & nc' & ? & Hpc); auto. simplify_eq.
  assert (sub m p q) as Hpq.
  { eapply IH; eauto. etrans; [|exact Hpre]. etrans; [|exact Hpc]. by eexists. }
  destruct (decide (p = q)) as [->|Hne].
  { simplify_eq. exfalso. assert (nkey n ++ [Z.of_nat i] `prefix_of` nkey n) as Hl.
    { by etrans. }
    apply prefix_length in Hl. rewrite length_app in Hl. simpl in Hl. lia. }
  destruct (sub_child p q n nq) as (j & d & Hj & Hd & Hds & Hpj); auto.
  assert (nkey n ++ [Z.of_nat i] `prefix_of` nkey nq) as Hpi by (by etrans).
  apply prefix_snoc_lookup in Hpi as [_ Hpi]. apply prefix_snoc_lookup in Hpj as [_ Hpj].
  assert (i = j) as -> by (simplify_eq; lia). by simplify_eq.
Qed.

Lemma reach_inj p q np nq :
  reach p → reach q → m !! p = Some (BlkNode np) → m !! q = Some (BlkNode nq) →
  nkey np = nkey nq → p = q.
Proof.
  intros Hp Hq Hnp Hnq E. assert (sub m p q) as Hs.
  { eapply sub_of_prefix; eauto. by rewrite E. }
  destruct (decide (p = q)) as [|Hne]; [done|].
  destruct (sub_child p q np nq) as (i & c & _ & _ & _ & Hl); auto.
  apply prefix_length in Hl. rewrite length_app, E in Hl. simpl in Hl. lia.
Qed.

Lemma has_fun k t1 t2 : has m root k t1 → has m root k t2 → t1 = t2.
Proof.
  intros (p & n & Hp & Hn & <- & <-) (q & n' & Hq & Hn' & E & <-).
  assert (p = q) as -> by (by eapply reach_inj). by simplify_eq.
Qed.

End Tree.

(** ** Frames: memory the tree does not use *)

Lemma sub_agree m m' root p :
  (∀ q, sub m root q → m' !! q = m !! q) → sub m' root p ↔ sub m root p.
Proof.
  intros Hag. split; induction 1 as [|q n i c Hs IH Hn Hi Hc]; eauto with radix.
  - rewrite Hag in Hn by done. eauto with radix.
  - eapply sub_step; eauto. by rewrite Hag.
Qed.

Lemma repr_frame m m' root M :
  repr m root M → m' !! 0 = None → (∀ q, sub m root q → m' !! q = m !! q) →
  repr m' root M.
Proof.
  intros [Hwf Hh] H0 Hag. pose proof (λ p, sub_agree m m' root p Hag) as Hsub.
  split; [split|].
  - rewrite Hag by constructor. apply Hwf.
  - done.
  - intros p Hp%Hsub. destruct (wf_nodes _ _ Hwf p Hp) as (n & Hn & Hs & Hc).
    exists n. rewrite Hag by done. split_and!; auto. intros i c Hi Hc0.
    destruct (Hc i c) as (nc & ? & ?); auto. exists nc.
    rewrite Hag; eauto with radix.
  - intros k t. rewrite Hh. unfold has.
    split; intros (p & n & Hp & Hn & ?); exists p, n.
    + rewrite Hsub, Hag; auto.
    + apply Hsub in Hp. rewrite Hag in Hn by done. auto.
Qed.

(** ** A new tree *)

Lemma repr_new m root :
  m !! 0 = None → root ≠ 0 →
  repr (<[root := BlkNode (init_root zero_node)]> m) root {[ [] := TagGptr_null ]}.
Proof.
  intros H0 Hr. set (m' := <[root := _]> m).
  assert (m' !! root = Some (BlkNode (init_root zero_node))) as Hroot by apply lookup_insert_eq.
  assert (∀ i c, n_child (init_root zero_node) !! i = Some c → c = 0) as Hc0.
  { intros i c. simpl. unfold no_children. by intros [-> _]%lookup_replicate. }
  assert (∀ p, sub m' root p → p = root) as Hsub.
  { induction 1 as [|p n i c _ IH Hn Hi Hc]; [done|]. simplify_eq. by apply Hc0 in Hi. }
  split; [split|].
  - by eexists.
  - unfold m'. by rewrite lookup_insert_ne.
  - intros p ->%Hsub. eexists. split; [exact Hroot|]. split.
    + split_and!; [done|apply Nat.le_0_l|done|constructor].
    + by intros i c ?%Hc0.
  - intros k t. rewrite lookup_singleton_Some. split.
    + intros [<- <-]. exists root, (init_root zero_node). by split_and!; [constructor|..].
    + intros (p & n & ->%Hsub & Hn & <- & <-). by simplify_eq.
Qed.

(** ** Updating a value *)

(** Nodes that differ in their values only. *)
Definition skel (n n' : Node) : Prop :=
  n_key n' = n_key n ∧ n_prefix n' = n_prefix n ∧ n_child n' = n_child n.

Definition same_skel (m m' : gmap Gptr block) : Prop :=
  ∀ q n, m !! q = Some (BlkNode n) → ∃ n', m' !! q = Some (BlkNode n') ∧ skel n n'.

Lemma skel_nkey n n' : skel n n' → nkey n' = nkey n.
Proof. unfold skel, nkey. by intros (-> & -> & _). Qed.

Lemma skel_shape n n' : skel n n' → node_shape n → node_shape n'.
Proof.
  intros Hs. pose proof (skel_nkey _ _ Hs) as Hk. destruct Hs as (H1 & H2 & H3).
  unfold node_shape. by rewrite Hk, H1, H2, H3.
Qed.

Lemma sub_skel m m' root q :
  tree_wf m root → same_skel m m' → sub m' root q ↔ sub m root q.
Proof.
  intros Hwf Hsk. split; induction 1 as [|q n i c Hs IH Hn Hi Hc]; eauto with radix.
  - destruct (reach_node _ _ Hwf q IH) as [n0 Hn0].
    destruct (Hsk _ _ Hn0) as (n' & ? & _ & _ & Hch). simplify_eq.
    rewrite Hch in Hi. eauto with radix.
  - destruct (Hsk _ _ Hn) as (n' & ? & _ & _ & Hch). rewrite <-Hch in Hi.
    eauto with radix.
Qed.

Lemma wf_skel m m' root :
  tree_wf m root → same_skel m m' → m' !! 0 = None → tree_wf m' root.
Proof.
  intros Hwf Hsk H0. split; [|done|].
  - destruct (wf_root _ _ Hwf) as (n & Hn & Hz).
    destruct (Hsk _ _ Hn) as (n' & ? & _ & Hp & _). exists n'. by rewrite Hp.
  - intros q Hq%(sub_skel m); [|done..].
    destruct (wf_nodes _ _ Hwf q Hq) as (n & Hn & Hs & Hc).
    destruct (Hsk _ _ Hn) as (n' & Hn' & Hnn). exists n'.
    split_and!; [done|by eapply skel_shape|].
    rewrite (proj2 (proj2 Hnn)). intros i c Hi Hc0.
    destruct (Hc i c) as (nc & Hnc & ?); auto.
    destruct (Hsk _ _ Hnc) as (nc' & ? & Hcc). exists nc'.
    by rewrite (skel_nkey _ _ Hnn), (skel_nkey _ _ Hcc).
Qed.

Lemma same_skel_set_value m p n v :
  m !! p = Some (BlkNode n) → same_skel m (<[p := BlkNode (with_value v n)]> m).
Proof.
  intros Hn q nq Hq. rewrite lookup_insert. case_decide; subst.
  - simplify_eq. by eexists.
  - by exists nq.
Qed.

Lemma repr_set_value m root M p n v :
  repr m root M → sub m root p → m !! p = Some (BlkNode n) →
  repr (<[p := BlkNode (with_value v n)]> m) root (<[nkey n := v]> M).
Proof.
  intros [Hwf Hh] Hp Hn. pose proof (same_skel_set_value m p n v Hn) as Hsk.
  pose proof (reach_nonnull _ _ Hwf p Hp) as Hp0.
  split; [apply (wf_skel m); auto; rewrite lookup_insert_ne by done; apply Hwf|].
  intros k t. rewrite lookup_insert. unfold has.
  setoid_rewrite (λ q, sub_skel m _ root q Hwf Hsk).
  case_decide as Hk; [subst k|rewrite Hh; unfold has]; split.
  - intros [= <-]. exists p, (with_value v n). by rewrite lookup_insert_eq.
  - intros (q & nq & Hq & Hnq & E & <-). rewrite lookup_insert in Hnq.
    case_decide as Hpq; [by simplify_eq/=|].
    destruct Hpq. by eapply reach_inj.
  - intros (q & nq & Hq & Hnq & E & <-). exists q, nq.
    rewrite lookup_insert_ne; [done|]. intros ->. by simplify_eq.
  - intros (q & nq & Hq & Hnq & E & <-). rewrite lookup_insert in Hnq.
    case_decide; [by simplify_eq/=|]. by exists q, nq.
Qed.

(** ** Linking new nodes in place of a child

    [graft]: the child slot [(pp, b)], which held [q], now holds [c], one of
    the nodes [new]; the new nodes point to each other or to [q], and reach all
    of them and [q]. *)

Record graft (m m' : gmap Gptr block) (root pp : Gptr) (np : Node) (b : nat) (q c : Gptr)
    (new : gmap Gptr Node) : Prop := {
  g_parent : sub m root pp;
  g_np : m !! pp = Some (BlkNode np);
  g_slot : n_child np !! b = Some q;
  g_np' : m' !! pp = Some (BlkNode (with_child b c np));
  g_old p : sub m root p → p ≠ pp → m' !! p = m !! p;
  g_new p n : new !! p = Some n → m' !! p = Some (BlkNode n);
  g_fresh p : sub m root p → new !! p = None;
  g_null : m' !! 0 = None;
  g_c : is_Some (new !! c);
  g_key nc : new !! c = Some nc → nkey np ++ [Z.of_nat b] `prefix_of` nkey nc;
  g_shape p n : new !! p = Some n → node_shape n;
  g_edge p n i d : new !! p = Some n → n_child n !! i = Some d → d ≠ 0 →
    (is_Some (new !! d) ∨ d = q) ∧
    ∃ nd, m' !! d = Some (BlkNode nd) ∧ nkey n ++ [Z.of_nat i] `prefix_of` nkey nd;
  g_reach p : is_Some (new !! p) → sub m' c p;
  g_reach_q : q ≠ 0 → sub m' c q
}.

Arguments g_parent {m m' root pp np b q c new} _.
Arguments g_np {m m' root pp np b q c new} _.
Arguments g_slot {m m' root pp np b q c new} _.
Arguments g_np' {m m' root pp np b q c new} _.
Arguments g_old {m m' root pp np b q c new} _.
Arguments g_new {m m' root pp np b q c new} _.
Arguments g_fresh {m m' root pp np b q c new} _.
Arguments g_null {m m' root pp np b q c new} _.
Arguments g_c {m m' root pp np b q c new} _.
Arguments g_key {m m' root pp np b q c new} _.
Arguments g_shape {m m' root pp np b q c new} _.
Arguments g_edge {m m' root pp np b q c new} _.
Arguments g_reach {m m' root pp np b q c new} _.
Arguments g_reach_q {m m' root pp np b q c new} _.

Section Graft.
Context {m m' : gmap Gptr block} {root pp : Gptr} {np : Node} {b : nat} {q c : Gptr}.
Context {new : gmap Gptr Node}.
Context (Hwf : tree_wf m root) (G : graft m m' root pp np b q c new).

Lemma graft_nonnull p : is_Some (new !! p) → p ≠ 0.
Proof. intros [n Hn%(g_new G)] ->. by rewrite (g_null G) in Hn. Qed.

Lemma graft_pp n : m !! pp = Some (BlkNode n) → n = np.
Proof. rewrite (g_np G). congruence. Qed.

Lemma graft_sub_old p : sub m root p → sub m' root p.
Proof.
  induction 1 as [|p n i d Hs IH Hn Hi Hd]; [constructor|].
  destruct (decide (p = pp)) as [->|Hne].
  2: { eapply sub_step; eauto. by rewrite (g_old G). }
  apply graft_pp in Hn as ->. pose proof (g_slot G) as Hb.
  assert (sub m' root c) as Hrc.
  { eapply sub_step; [exact IH|apply G|..].
    - simpl. apply list_lookup_insert_eq. by apply lookup_lt_Some in Hb.
    - apply graft_nonnull, G. }
  destruct (decide (i = b)) as [->|Hib].
  - rewrite Hb in Hi. injection Hi as <-.
    eapply sub_trans; [exact Hrc|]. by apply (g_reach_q G).
  - eapply sub_step; [exact IH|apply G|..]; [|done]. simpl.
    by rewrite list_lookup_insert_ne.
Qed.

Lemma graft_sub p : sub m' root p ↔ sub m root p ∨ is_Some (new !! p).
Proof.
  split.
  - induction 1 as [|p n i d Hs IH Hn Hi Hd]; [left; constructor|].
    destruct IH as [Hp|[np' Hnp]].
    + destruct (decide (p = pp)) as [->|Hne].
      2: { rewrite (g_old G) in Hn by done. left. eauto with radix. }
      rewrite (g_np' G) in Hn. injection Hn as <-. simpl in Hi.
      destruct (decide (i = b)) as [->|Hib].
      * right. apply list_lookup_insert_Some in Hi as [(_ & -> & _)|[? _]]; [apply G|done].
      * rewrite list_lookup_insert_ne in Hi by done. left.
        eapply sub_step; [exact Hp|apply G|done..].
    + rewrite (g_new G _ _ Hnp) in Hn. injection Hn as <-.
      destruct (g_edge G _ _ _ _ Hnp Hi Hd) as [[?| ->] _]; [by right|left].
      eapply sub_step; [apply G|apply G|apply G|done].
  - intros [Hp|Hp]; [by apply graft_sub_old|].
    eapply sub_trans; [|by apply (g_reach G)].
    eapply sub_step; [apply graft_sub_old, G|apply G|..].
    + simpl. apply list_lookup_insert_eq. eapply lookup_lt_Some, G.
    + apply graft_nonnull, G.
Qed.

Lemma graft_nkey p n : sub m root p → m !! p = Some (BlkNode n) →
  ∃ n', m' !! p = Some (BlkNode n') ∧ nkey n' = nkey n ∧ n_value n' = n_value n.
Proof.
  intros Hp Hn. destruct (decide (p = pp)) as [->|Hne].
  - apply graft_pp in Hn as ->. exists (with_child b c np). split; [apply G|done].
  - exists n. by rewrite (g_old G).
Qed.

Lemma graft_node_ok_old p : sub m root p → node_ok m' p.
Proof.
  intros Hp. destruct (wf_nodes _ _ Hwf p Hp) as (n & Hn & Hs & Hc).
  assert (∀ i d, n_child n !! i = Some d → d ≠ 0 → ∃ nd, m' !! d = Some (BlkNode nd) ∧
    nkey n ++ [Z.of_nat i] `prefix_of` nkey nd) as Hc'.
  { intros i d Hi Hd. destruct (Hc i d Hi Hd) as (nd & Hnd & Hpre).
    destruct (graft_nkey d nd) as (nd' & ? & Hk & _); eauto with radix.
    exists nd'. by rewrite Hk. }
  destruct (decide (p = pp)) as [->|Hne].
  2: { exists n. by rewrite (g_old G). }
  apply graft_pp in Hn as ->. exists (with_child b c np). split_and!; [apply G| |].
  - unfold node_shape, nkey in *. simpl. by rewrite length_insert.
  - intros i d Hi Hd. change (nkey (with_child b c np)) with (nkey np).
    apply list_lookup_insert_Some in Hi as [(-> & -> & _)|[? Hi]]; [|by apply Hc'].
    destruct (g_c G) as [nc Hnc]. exists nc.
    split; [by apply G|by apply (g_key G)].
Qed.

Lemma graft_wf : tree_wf m' root.
Proof.
  split; [|apply G|].
  - destruct (wf_root _ _ Hwf) as (n & Hn & Hz).
    destruct (decide (root = pp)) as [E|Hne].
    + rewrite E in Hn. apply graft_pp in Hn as ->. exists (with_child b c np).
      rewrite E at 1. split; [apply G|done].
    + exists n. rewrite (g_old G); [done|constructor|done].
  - intros p [Hp|[n Hn]]%graft_sub; [by apply graft_node_ok_old|].
    exists n. split_and!; [by apply G|by eapply G|].
    intros i d Hi Hd. by eapply (g_edge G).
Qed.

Lemma graft_has k t :
  has m' root k t ↔ has m root k t ∨ ∃ p n, new !! p = Some n ∧ nkey n = k ∧ n_value n = t.
Proof.
  unfold has. split.
  - intros (p & n & [Hp|[n' Hp]]%graft_sub & Hn & Hk & Hv).
    + destruct (reach_node _ _ Hwf p Hp) as [n0 Hn0].
      destruct (graft_nkey p n0) as (n' & ? & Hk' & Hv'); auto. simplify_eq.
      left. by exists p, n0.
    + pose proof (g_new G _ _ Hp). simplify_eq. right. by exists p, n.
  - intros [(p & n & Hp & Hn & Hk & Hv)|(p & n & Hp & Hk & Hv)].
    + destruct (graft_nkey p n) as (n' & ? & Hk' & Hv'); auto. exists p, n'.
      rewrite graft_sub, Hk', Hv'. auto.
    + exists p, n. rewrite graft_sub. split_and!; [by right; eexists|by apply G|done..].
Qed.

End Graft.
