(* ===== verification/RadixSpec.v ===== *)
(** The radix tree refines a versioned map.

    [rt_inv w root M]: in the memory of [w], the tree at [root] represents the
    map [M] from keys to tagged value pointers, and every block is one the heap
    has in use.  Each operation, run alone from such a state, computes the
    abstract operation on [M] and restores the invariant; [put] and [putC] can
    only stop early if the heap refuses the (at most two) nodes they need. *)

From S2P Require Import Prelude TagPtr Fam RadixTree RadixInv.

(** ** The abstract versioned map *)

(** The value pointer of a key: null with tag 0 when the key has no node. *)
Definition ver (M : gmap bytes TagGptr) (k : bytes) : TagGptr := default TagGptr_null (M !! k).

(** An update bumps the tag of an existing node; a new node starts at tag 0.
    Inserting a key may also create a node, without value, for a prefix that it
    shares with another key. *)
Inductive Put_spec (M : gmap bytes TagGptr) (k : bytes) (v : Gptr) : gmap bytes TagGptr → Prop :=
  | put_update t : M !! k = Some t →
      Put_spec M k v (<[k := TagGptr_make v (tag_succ t)]> M)
  | put_fresh : M !! k = None →
      Put_spec M k v (<[k := TagGptr_make v 0]> M)
  | put_fresh_split pre : M !! k = None → M !! pre = None →
      pre `prefix_of` k → pre ≠ k →
      Put_spec M k v (<[k := TagGptr_make v 0]> (<[pre := TagGptr_null]> M)).

(** The value pointer [put] leaves at the key. *)
Definition put_result (M : gmap bytes TagGptr) (k : bytes) (v : Gptr) : TagGptr :=
  match M !! k with
  | Some t => TagGptr_make v (tag_succ t)
  | None => TagGptr_make v 0
  end.

Lemma Put_spec_same M k v M' : Put_spec M k v M' → M' !! k = Some (put_result M k v).
Proof. unfold put_result. intros [t Ht|Hn|pre Hn _ _ _]; rewrite ?Ht, ?Hn; apply lookup_insert_eq. Qed.

(** Other keys keep their value pointers. *)
Lemma Put_spec_other M k v M' k' : Put_spec M k v M' → k ≠ k' → ver M' k' = ver M k'.
Proof.
  unfold ver. intros [t Ht|Hn|pre Hn Hpre _ _] Hne; rewrite lookup_insert_ne by done; [done..|].
  rewrite lookup_insert. case_decide; subst; [by rewrite Hpre|done].
Qed.

Definition Del_spec (M : gmap bytes TagGptr) (k : bytes) : gmap bytes TagGptr :=
  match M !! k with
  | Some t => <[k := TagGptr_make 0 (tag_succ t)]> M
  | None => M
  end.

Section Spec.
Context {N : Nvmm} {L : NvmmLaws N}.
Implicit Types (w : world) (M : gmap bytes TagGptr) (key : bytes).

Record rt_inv w (root : Gptr) M : Prop := {
  inv_repr : repr (mem w) root M;
  inv_live : dom (mem w) ⊆ live (hs w)
}.

(** Value buffers are left alone. *)
Definition same_vals w w' : Prop :=
  ∀ p v, mem w !! p = Some (BlkVal v) → mem w' !! p = Some (BlkVal v).

(** [q] is the node of [key]. *)
Definition key_node (m : gmap Gptr block) (root : Gptr) key (q : Gptr) : Prop :=
  ∃ n, sub m root q ∧ m !! q = Some (BlkNode n) ∧ nkey n = key.

(** What every operation guarantees of the memory it leaves: the tree
    represents [M'], value buffers are as they were, and a node found earlier
    for a key is still the key's node. *)
Record rt_post w w' (root : Gptr) M' : Prop := {
  post_inv : rt_inv w' root M';
  post_vals : same_vals w w';
  post_nodes k q : key_node (mem w) root k q → key_node (mem w') root k q
}.

(** ** Single accesses *)

Lemma exec_LoadHdr w q n :
  mem w !! q = Some (BlkNode n) → exec (LoadHdr q) w = Some ((n_key n, n_prefix n), w).
Proof. intros Hn. simpl. unfold node_at. by rewrite Hn. Qed.

Lemma exec_LoadValue w q n :
  mem w !! q = Some (BlkNode n) → exec (LoadValue q) w = Some (n_value n, w).
Proof. intros Hn. simpl. unfold node_at. by rewrite Hn. Qed.

Lemma exec_LoadChild w q n i c :
  mem w !! q = Some (BlkNode n) → n_child n !! i = Some c →
  exec (LoadChild q i) w = Some (c, w).
Proof. intros Hn Hc. simpl. unfold node_at. by rewrite Hn; simpl; rewrite Hc. Qed.

Lemma exec_StoreNode w q n f :
  mem w !! q = Some (BlkNode n) → exec (StoreNode q f) w = Some (tt, set_node q (f n) w).
Proof. intros Hn. simpl. unfold node_at. by rewrite Hn. Qed.

Lemma exec_CasChild w q n i c new :
  mem w !! q = Some (BlkNode n) → n_child n !! i = Some c →
  exec (CasChild q i c new) w = Some (c, set_node q (with_child i new n) w).
Proof.
  intros Hn Hc. simpl. unfold node_at. rewrite Hn; simpl; rewrite Hc; simpl.
  rewrite cas64_spec, Z.eqb_refl. done.
Qed.

Lemma exec_CasValue w q n new :
  mem w !! q = Some (BlkNode n) →
  exec (CasValue q (n_value n) new) w = Some (n_value n, set_node q (with_value new n) w).
Proof.
  intros Hn. simpl. unfold node_at. rewrite Hn; simpl.
  by rewrite cas128_spec, decide_True by done.
Qed.

Lemma cas_loop_wp ab fuel q v w n :
  mem w !! q = Some (BlkNode n) → (0 < fuel)%nat →
  let new := TagGptr_make v (tag_succ (n_value n)) in
  wp ab (cas_loop fuel q v (n_value n)) w (λ r w',
    r = (n_value n, new) ∧ w' = set_node q (with_value new n) w).
Proof.
  intros Hn Hf. destruct fuel as [|fuel]; [lia|]. cbn [cas_loop].
  wp_step. wp_step; [by apply exec_CasValue|]. rewrite TagGptr_eqb_refl. by wp_step.
Qed.

(** ** Descending *)

Lemma match_len_spec max key nk :
  (max ≤ length key)%nat → (max ≤ length nk)%nat →
  let i := match_len max key nk in
  (i ≤ max)%nat ∧ take i key = take i nk ∧ ((i < max)%nat → key !! i ≠ nk !! i).
Proof.
  revert key nk. induction max as [|max IH]; intros [|x key] [|y nk]; simpl;
    intros Hk Hn; try (split_and!; [lia|done|lia]); try lia.
  destruct (Z.eqb_spec x y) as [->|Hne]; simpl.
  - destruct (IH key nk) as (H1 & H2 & H3); [lia..|].
    split_and!; [lia|by rewrite H2|intros; apply H3; lia].
  - split_and!; [lia|done|]. intros _ [=]. done.
Qed.

Lemma cmp_prefix_zero key n :
  node_shape n →
  let m := Nat.min (n_prefix n) (length key) in
  cmp_prefix key (n_key n) (n_prefix n) = 0 ↔ take m key = take m (nkey n).
Proof.
  intros Hs m. unfold cmp_prefix. fold m.
  assert (take m (nkey n) = take m (n_key n)) as ->.
  { unfold nkey. rewrite take_take. f_equal. lia. }
  pose proof (memcmp_spec (take m key) (take m (n_key n))) as Hm.
  destruct Hs as (Hk & Hp & _). rewrite !length_take in Hm. specialize (Hm ltac:(lia)).
  rewrite <-lex_cmp_eq. destruct (lex_cmp _ _); split; done || lia.
Qed.

(** A node whose key starts the key searched for, and the child to go to. *)
Definition on_path (m : gmap Gptr block) (root : Gptr) key (p : slot) (q : Gptr) : Prop :=
  ∃ np, sub m root p.1 ∧ m !! p.1 = Some (BlkNode np) ∧
    nkey np `prefix_of` key ∧ key !! n_prefix np = Some (Z.of_nat p.2) ∧
    n_child np !! p.2 = Some q.

Section Descent.
Context (m : gmap Gptr block) (root : Gptr) (Hwf : tree_wf m root).

Lemma prefix_cases key n :
  node_shape n →
  let l := Nat.min (n_prefix n) (length key) in
  take l key = take l (nkey n) →
  if (n_prefix n <=? length key)%nat then nkey n `prefix_of` key else key `prefix_of` nkey n.
Proof.
  intros Hs l. pose proof (nkey_length n Hs). destruct (Nat.leb_spec (n_prefix n) (length key)).
  - replace l with (n_prefix n) by lia. rewrite (take_ge (nkey n)) by lia.
    intros <-. apply prefix_take.
  - replace l with (length key) by lia. rewrite (take_ge key) by lia.
    intros ->. apply prefix_take.
Qed.

Lemma child_exists n key :
  node_shape n → byte_key key → (n_prefix n < length key)%nat →
  ∃ b c, key !! n_prefix n = Some b ∧ nth (n_prefix n) key 0 = b ∧
    n_child n !! child_index b = Some c ∧ Z.of_nat (child_index b) = b.
Proof.
  intros (_ & _ & Hc & _) Hb Hlt. destruct (lookup_lt_is_Some_2 key (n_prefix n)) as [b Hk]; [done|].
  assert (is_byte b) as Hbb by (by eapply Forall_lookup_1).
  unfold child_index, is_byte in *.
  destruct (lookup_lt_is_Some_2 (n_child n) (Z.to_nat b)) as [c Hbc]; [lia|].
  exists b, c. split_and!; [done|by apply nth_lookup_Some|done|lia].
Qed.

(** Keys under a node go through the child their next byte selects. *)
Lemma path_has key p q t :
  on_path m root key p q → has m root key t →
  q ≠ 0 ∧ ∃ r n, sub m q r ∧ m !! r = Some (BlkNode n) ∧ nkey n = key ∧ n_value n = t.
Proof.
  intros (np & Hp & Hnp & Hpre & Hb & Hq) (r & n & Hr & Hn & <- & <-).
  assert (sub m p.1 r) as Hs by (by eapply sub_of_prefix).
  pose proof (nkey_length np (reach_shape _ _ Hwf _ _ Hp Hnp)) as Hl.
  destruct (decide (p.1 = r)) as [<-|Hne].
  { simplify_eq. apply lookup_lt_Some in Hb. lia. }
  destruct (sub_child _ _ Hwf p.1 r np n) as (i & c & Hi & Hc & Hcs & Hic); auto.
  apply prefix_snoc_lookup in Hic as [_ Hic]. rewrite Hl in Hic. simplify_eq.
  eauto 10.
Qed.

Lemma on_path_reach key p q :
  on_path m root key p q → q ≠ 0 → sub m root q.
Proof. intros (np & Hp & Hnp & _ & _ & Hq) H0. eauto with radix. Qed.

Lemma on_path_child key q n b c :
  sub m root q → m !! q = Some (BlkNode n) → nkey n `prefix_of` key →
  key !! n_prefix n = Some b → Z.of_nat (child_index b) = b →
  n_child n !! child_index b = Some c → on_path m root key (q, child_index b) c.
Proof. intros Hq Hn Hpre Hk Hb Hc. exists n. simpl. by rewrite Hb. Qed.

Definition absent key : Prop := ∀ t, ¬ has m root key t.

(** The search for [key] has come to [q]: the key's node, if any, is below. *)
Definition search_at key (q : Gptr) : Prop :=
  (q ≠ 0 → sub m root q) ∧
  ∀ r n, sub m root r → m !! r = Some (BlkNode n) → nkey n = key → q ≠ 0 ∧ sub m q r.

Lemma search_root key : search_at key root.
Proof.
  split; [intros; constructor|]. intros r n Hr _ _. split; [|done].
  apply (reach_nonnull _ _ Hwf). constructor.
Qed.

Lemma search_path key p q : on_path m root key p q → search_at key q.
Proof.
  intros Hp. split; [by eapply on_path_reach|]. intros r n Hr Hn Hk.
  destruct (path_has key p q (n_value n) Hp) as (H0 & r' & n' & Hr' & Hn' & Hk' & _).
  { by exists r, n. }
  split; [done|]. assert (r' = r) as <-; [|done].
  eapply reach_inj; eauto; [|congruence].
  eapply sub_trans; [|exact Hr']. by eapply on_path_reach.
Qed.

Lemma search_null key : search_at key 0 → absent key.
Proof. intros [_ Hs] t (r & n & Hr & Hn & Hk & _). by destruct (Hs r n). Qed.

(** What one iteration of a descent finds at a node. *)
Inductive search_case key (q : Gptr) (n : Node) : Prop :=
  | sc_differ : cmp_prefix key (n_key n) (n_prefix n) ≠ 0 → absent key → search_case key q n
  | sc_found : cmp_prefix key (n_key n) (n_prefix n) = 0 → n_prefix n = length key →
      nkey n = key → search_case key q n
  | sc_longer : cmp_prefix key (n_key n) (n_prefix n) = 0 → (length key < n_prefix n)%nat →
      absent key → search_case key q n
  | sc_down b c : cmp_prefix key (n_key n) (n_prefix n) = 0 →
      (n_prefix n < length key)%nat → nth (n_prefix n) key 0 = b →
      n_child n !! child_index b = Some c → on_path m root key (q, child_index b) c →
      (∀ nc, m !! c = Some (BlkNode nc) → c ≠ 0 → (n_prefix n < n_prefix nc)%nat) →
      search_case key q n.

Lemma child_deeper q n i c nc :
  sub m root q → m !! q = Some (BlkNode n) → n_child n !! i = Some c → c ≠ 0 →
  m !! c = Some (BlkNode nc) → (n_prefix n < n_prefix nc)%nat.
Proof.
  intros Hq Hn Hi Hc Hnc.
  destruct (reach_child _ _ Hwf q n i c) as (Hr & nc' & ? & Hl%prefix_length); auto.
  simplify_eq. rewrite length_app in Hl. simpl in Hl.
  pose proof (nkey_length n (reach_shape _ _ Hwf q n Hq Hn)).
  pose proof (nkey_length nc (reach_shape _ _ Hwf c nc Hr Hnc)). lia.
Qed.

Lemma search_cases key q n :
  byte_key key → search_at key q → q ≠ 0 → m !! q = Some (BlkNode n) →
  search_case key q n.
Proof.
  intros Hbk [Hrq Hs] Hq Hn. specialize (Hrq Hq).
  pose proof (reach_shape _ _ Hwf q n Hrq Hn) as Hsh.
  assert (∀ r nr, sub m root r → m !! r = Some (BlkNode nr) → nkey nr = key →
    nkey n `prefix_of` key) as Hpre.
  { intros r nr Hr Hnr <-. destruct (Hs r nr) as [_ Hqr]; auto.
    exact (sub_prefix _ _ Hwf q r n nr Hrq Hqr Hn Hnr). }
  pose proof (cmp_prefix_zero key n Hsh) as Hz. pose proof (prefix_cases key n Hsh) as Hpc.
  pose proof (nkey_length n Hsh) as Hl. simpl in *.
  destruct (decide (cmp_prefix key (n_key n) (n_prefix n) = 0)) as [E|E].
  2: { apply sc_differ; [done|]. intros t (r & nr & Hr & Hnr & Hk & _). apply E, Hz.
       destruct (Hpre r nr) as [k' ->]; auto. rewrite length_app.
       replace (Nat.min _ _) with (length (nkey n)) by lia.
       by rewrite take_app_length, take_ge. }
  specialize (Hpc (proj1 Hz E)). destruct (Nat.leb_spec (n_prefix n) (length key)).
  2: { apply sc_longer; [done..|]. intros t (r & nr & Hr & Hnr & Hk & _).
       destruct (Hpre r nr) as [k' Hk']; auto. apply (f_equal length) in Hk'.
       rewrite length_app in Hk'. lia. }
  destruct (decide (n_prefix n = length key)) as [Hp|Hp].
  - apply sc_found; [done..|]. apply prefix_length_eq_l; [done|lia].
  - destruct (child_exists n key) as (b & c & Hk & Hnth & Hc & Hb); [done..|lia|].
    eapply sc_down; eauto; [lia| |].
    + by apply on_path_child with n.
    + intros nc Hnc Hc0. by eapply child_deeper.
Qed.

End Descent.

(** ** get *)

(** The value pointer [M] gives a key, as [has] tells it. *)
Lemma ver_has m root M key p n :
  repr m root M → sub m root p → m !! p = Some (BlkNode n) → nkey n = key →
  M !! key = Some (n_value n).
Proof. intros HM Hp Hn Hk. apply (repr_has _ _ _ HM). by exists p, n. Qed.

Lemma absent_lookup m root M key : repr m root M → absent m root key → M !! key = None.
Proof.
  intros HM Ha. destruct (M !! key) as [t|] eqn:E; [|done].
  by apply (repr_has _ _ _ HM), Ha in E.
Qed.

(** Enough fuel to follow the prefixes from [q] down. *)
Definition deep_fuel (m : gmap Gptr block) (fuel : nat) (q : Gptr) : Prop :=
  (0 < fuel)%nat ∧
  ∀ n, q ≠ 0 → m !! q = Some (BlkNode n) → (S MAX_KEY_LEN < n_prefix n + fuel)%nat.

Lemma deep_fuel_root m root : tree_wf m root → deep_fuel m descent_fuel root.
Proof. intros _. unfold deep_fuel, descent_fuel. split; intros; lia. Qed.

Lemma deep_fuel_child m root fuel q n i c :
  tree_wf m root → sub m root q → m !! q = Some (BlkNode n) → n_child n !! i = Some c →
  deep_fuel m (S fuel) q → q ≠ 0 → deep_fuel m fuel c.
Proof.
  intros Hwf Hq Hn Hi [_ Hd] Hq0. specialize (Hd n Hq0 Hn).
  pose proof (reach_shape _ _ Hwf q n Hq Hn) as (_ & Hmax & _).
  split; [lia|]. intros nc Hc0 Hnc.
  assert (n_prefix n < n_prefix nc)%nat by (by eapply child_deeper). lia.
Qed.

Lemma get_loop_wp ab fuel key q w root M :
  repr (mem w) root M → byte_key key →
  search_at (mem w) root key q → deep_fuel (mem w) fuel q →
  wp ab (get_loop fuel key q) w (λ r w', r = ver M key ∧ w' = w).
Proof.
  intros HM Hbk. pose proof (repr_wf _ _ _ HM) as Hwf.
  revert q. induction fuel as [|fuel IH]; intros q Hs Hf; [destruct Hf; lia|].
  cbn [get_loop]. unfold ver. destruct (Z.eqb_spec q 0) as [->|Hq].
  { apply search_null in Hs. by rewrite (absent_lookup _ _ _ _ HM Hs). }
  pose proof (proj1 Hs Hq) as Hr. destruct (reach_node _ _ Hwf q Hr) as [n Hn].
  wp_step. wp_step; [by apply exec_LoadHdr|]. cbv beta iota.
  destruct (search_cases _ _ Hwf key q n Hbk Hs Hq Hn) as [E Ha|E Hl Hk|E Hl Ha|b c E Hl Hnth Hc Hp _].
  - rewrite (proj2 (Z.eqb_neq _ _) E). by rewrite (absent_lookup _ _ _ _ HM Ha).
  - rewrite E, Hl, Nat.eqb_refl. cbn [negb Z.eqb]. wp_step; [by apply exec_LoadValue|].
    by rewrite (ver_has _ _ _ _ _ _ HM Hr Hn Hk).
  - rewrite E, (proj2 (Nat.eqb_neq _ _)), (proj2 (Nat.ltb_lt _ _)) by lia. cbn [negb Z.eqb].
    by rewrite (absent_lookup _ _ _ _ HM Ha).
  - rewrite E, (proj2 (Nat.eqb_neq _ _)), (proj2 (Nat.ltb_ge _ _)) by lia. cbn [negb Z.eqb].
    wp_step. wp_step; [apply (exec_LoadChild _ _ _ _ _ Hn); by rewrite Hnth|].
    apply IH; [by eapply search_path|]. by eapply deep_fuel_child.
Qed.

Lemma rt_post_refl w root M : rt_inv w root M → rt_post w w root M.
Proof. intros H. split; [done|by intros ??|done]. Qed.

(** ** Changing the value of a key's node *)

Lemma set_value_post w root M q n v :
  rt_inv w root M → sub (mem w) root q → mem w !! q = Some (BlkNode n) →
  rt_post w (set_node q (with_value v n) w) root (<[nkey n := v]> M).
Proof.
  intros [HM Hl] Hq Hn. split; [split|..]; simpl.
  - by apply repr_set_value.
  - rewrite dom_insert_lookup_L; eauto.
  - intros p b Hp. simpl. rewrite lookup_insert_ne; [done|]. intros ->. by simplify_eq.
  - pose proof (same_skel_set_value (mem w) q n v Hn) as Hsk.
    intros k r (nr & Hr & Hnr & Hk). destruct (Hsk _ _ Hnr) as (nr' & ? & Hs).
    exists nr'. rewrite (sub_skel (mem w)), (skel_nkey _ _ Hs) by (done || apply HM). done.
Qed.

(** Load the value of the key's node and swing it to [v]. *)
Lemma update_wp {A} ab fuel (k : TagGptr * TagGptr → prog A) v q n w root M Q :
  rt_inv w root M → sub (mem w) root q → mem w !! q = Some (BlkNode n) → (0 < fuel)%nat →
  let new := TagGptr_make v (tag_succ (n_value n)) in
  (∀ w', rt_post w w' root (<[nkey n := new]> M) → hs w' = hs w →
    wp ab (k (n_value n, new)) w' Q) →
  wp ab (tq ← call (LoadValue q); r ← cas_loop fuel q v tq; k r) w Q.
Proof.
  intros HI Hq Hn Hf new HQ. wp_step. wp_step; [by apply exec_LoadValue|]. wp_step.
  eapply wp_mono; [by apply cas_loop_wp|]. intros r w' [-> ->].
  apply HQ; [by apply set_value_post|done].
Qed.

(** ** destroy *)

Lemma Del_spec_found M key t :
  M !! key = Some t → Del_spec M key = <[key := TagGptr_make 0 (tag_succ t)]> M.
Proof. unfold Del_spec. by intros ->. Qed.

Lemma destroy_loop_wp ab fuel cas_fuel key q w root M :
  rt_inv w root M → byte_key key → (0 < cas_fuel)%nat →
  search_at (mem w) root key q → deep_fuel (mem w) fuel q →
  wp ab (destroy_loop fuel cas_fuel key q) w (λ r w',
    r = ver M key ∧ rt_post w w' root (Del_spec M key) ∧ hs w' = hs w).
Proof.
  intros HI Hbk Hcf. pose proof (inv_repr _ _ _ HI) as HM.
  pose proof (repr_wf _ _ _ HM) as Hwf.
  assert (absent (mem w) root key →
    TagGptr_null = ver M key ∧ rt_post w w root (Del_spec M key) ∧ hs w = hs w) as Hab.
  { intros Ha%(absent_lookup _ _ _ _ HM). unfold ver, Del_spec. rewrite Ha.
    by auto using rt_post_refl. }
  revert q. induction fuel as [|fuel IH]; intros q Hs Hf; [destruct Hf; lia|].
  cbn [destroy_loop]. destruct (Z.eqb_spec q 0) as [->|Hq].
  { apply search_null in Hs. wp_step. auto. }
  pose proof (proj1 Hs Hq) as Hr. destruct (reach_node _ _ Hwf q Hr) as [n Hn].
  wp_step. wp_step; [by apply exec_LoadHdr|]. cbv beta iota.
  destruct (search_cases _ _ Hwf key q n Hbk Hs Hq Hn) as [E Ha|E Hl Hk|E Hl Ha|b c E Hl Hnth Hc Hp _].
  - rewrite (proj2 (Z.eqb_neq _ _) E). cbn [negb]. wp_step. auto.
  - rewrite E, Hl, Nat.eqb_refl. cbn [negb Z.eqb].
    eapply update_wp; [done..|]. intros w' Hp Hh. wp_step.
    pose proof (ver_has _ _ _ _ _ _ HM Hr Hn Hk) as Hv.
    unfold ver. rewrite (Del_spec_found _ _ _ Hv), Hv. rewrite Hk in Hp. done.
  - rewrite E, (proj2 (Nat.eqb_neq _ _)), (proj2 (Nat.ltb_lt _ _)) by lia.
    cbn [negb Z.eqb]. wp_step. auto.
  - rewrite E, (proj2 (Nat.eqb_neq _ _)), (proj2 (Nat.ltb_ge _ _)) by lia. cbn [negb Z.eqb].
    wp_step. wp_step; [apply (exec_LoadChild _ _ _ _ _ Hn); by rewrite Hnth|].
    apply IH; [by eapply search_path|]. by eapply deep_fuel_child.
Qed.

(** ** The pointer-returning variants *)

(** What [getC] and [destroyC] return as the key pointer. *)
Definition key_ptr_ok (m : gmap Gptr block) (root : Gptr) M key (q : Gptr) : Prop :=
  match M !! key with
  | Some _ => key_node m root key q
  | None => q = 0
  end.

(** Below a prefix longer than the key, the descent of [getC] and [destroyC]
    goes on, over nodes that cannot be the key's. *)
Definition beyond (m : gmap Gptr block) (root : Gptr) key (q : Gptr) : Prop :=
  q ≠ 0 → sub m root q ∧ ∀ n, m !! q = Some (BlkNode n) → (length key < n_prefix n)%nat.

Lemma beyond_child m root key q n i c :
  tree_wf m root → sub m root q → m !! q = Some (BlkNode n) →
  (length key < n_prefix n)%nat → n_child n !! i = Some c → beyond m root key c.
Proof.
  intros Hwf Hq Hn Hl Hi Hc. split; [eauto with radix|]. intros nc Hnc.
  assert (n_prefix n < n_prefix nc)%nat by (by eapply child_deeper). lia.
Qed.

Lemma past_child n past :
  node_shape n → is_byte past → ∃ c, n_child n !! child_index past = Some c.
Proof.
  intros (_ & _ & Hc & _) Hb. apply lookup_lt_is_Some_2.
  unfold child_index, is_byte in *. lia.
Qed.

(** The index the pointer-returning variants read at a node above the key's. *)
Lemma past_index (key : bytes) (k : nat) past :
  (k < length key)%nat → nth (Nat.min k (length key)) key past = nth k key 0.
Proof. intros. rewrite Nat.min_l by lia. by apply nth_indep. Qed.

Lemma getC_beyond_wp ab fuel past key q w root M :
  repr (mem w) root M → is_byte past →
  beyond (mem w) root key q → deep_fuel (mem w) fuel q →
  wp ab (getC_loop fuel past key q) w (λ r w', r = (0, TagGptr_null) ∧ w' = w).
Proof.
  intros HM Hb. pose proof (repr_wf _ _ _ HM) as Hwf.
  revert q. induction fuel as [|fuel IH]; intros q Hs Hf; [destruct Hf; lia|].
  cbn [getC_loop]. destruct (Z.eqb_spec q 0) as [->|Hq]; [by wp_step|].
  destruct (Hs Hq) as [Hr Hl]. destruct (reach_node _ _ Hwf q Hr) as [n Hn].
  specialize (Hl n Hn). wp_step. wp_step; [by apply exec_LoadHdr|]. cbv beta iota.
  destruct (negb _); [by wp_step|]. rewrite (proj2 (Nat.eqb_neq _ _)) by lia.
  destruct (past_child n past) as [c Hc]; [by eapply reach_shape|done|].
  wp_step. rewrite Nat.min_r, nth_overflow by lia.
  wp_step; [by apply (exec_LoadChild _ _ _ _ _ Hn)|].
  apply IH; [by eapply beyond_child|by eapply deep_fuel_child].
Qed.

Lemma getC_loop_wp ab fuel past key q w root M :
  repr (mem w) root M → byte_key key → is_byte past →
  search_at (mem w) root key q → deep_fuel (mem w) fuel q →
  wp ab (getC_loop fuel past key q) w (λ r w',
    r.2 = ver M key ∧ key_ptr_ok (mem w) root M key r.1 ∧ w' = w).
Proof.
  intros HM Hbk Hpb. pose proof (repr_wf _ _ _ HM) as Hwf.
  assert (absent (mem w) root key →
    TagGptr_null = ver M key ∧ key_ptr_ok (mem w) root M key 0 ∧ w = w) as Hab.
  { intros Ha%(absent_lookup _ _ _ _ HM). unfold ver, key_ptr_ok. by rewrite Ha. }
  revert q. induction fuel as [|fuel IH]; intros q Hs Hf; [destruct Hf; lia|].
  cbn [getC_loop]. destruct (Z.eqb_spec q 0) as [->|Hq].
  { apply search_null in Hs. wp_step. simpl. auto. }
  pose proof (proj1 Hs Hq) as Hr. destruct (reach_node _ _ Hwf q Hr) as [n Hn].
  wp_step. wp_step; [by apply exec_LoadHdr|]. cbv beta iota.
  destruct (search_cases _ _ Hwf key q n Hbk Hs Hq Hn) as [E Ha|E Hl Hk|E Hl Ha|b c E Hl Hnth Hc Hp _].
  - rewrite (proj2 (Z.eqb_neq _ _) E). cbn [negb]. wp_step. simpl. auto.
  - rewrite E, Hl, Nat.eqb_refl. cbn [negb Z.eqb]. wp_step.
    wp_step; [by apply exec_LoadValue|]. wp_step. simpl. unfold ver, key_ptr_ok.
    rewrite (ver_has _ _ _ _ _ _ HM Hr Hn Hk). split_and!; [done| |done]. by exists n.
  - rewrite E, (proj2 (Nat.eqb_neq _ _)) by lia. cbn [negb Z.eqb].
    destruct (past_child n past) as [c Hc]; [by eapply reach_shape|done|].
    wp_step. rewrite Nat.min_r, nth_overflow by lia.
    wp_step; [by apply (exec_LoadChild _ _ _ _ _ Hn)|].
    eapply wp_mono; [eapply getC_beyond_wp; eauto using beyond_child, deep_fuel_child|].
    intros r w' [-> ->]. simpl. auto.
  - rewrite E, (proj2 (Nat.eqb_neq _ _)) by lia. cbn [negb Z.eqb]. wp_step.
    rewrite past_index, Hnth by done. wp_step; [by apply (exec_LoadChild _ _ _ _ _ Hn)|].
    apply IH; [by eapply search_path|]. by eapply deep_fuel_child.
Qed.

Lemma destroyC_beyond_wp ab fuel cas_fuel past key old q w root M :
  repr (mem w) root M → is_byte past →
  beyond (mem w) root key q → deep_fuel (mem w) fuel q →
  wp ab (destroyC_loop fuel cas_fuel past key old q) w (λ r w',
    r = mkPtrs 0 TagGptr_null old ∧ w' = w).
Proof.
  intros HM Hb. pose proof (repr_wf _ _ _ HM) as Hwf.
  revert q. induction fuel as [|fuel IH]; intros q Hs Hf; [destruct Hf; lia|].
  cbn [destroyC_loop]. destruct (Z.eqb_spec q 0) as [->|Hq]; [by wp_step|].
  destruct (Hs Hq) as [Hr Hl]. destruct (reach_node _ _ Hwf q Hr) as [n Hn].
  specialize (Hl n Hn). wp_step. wp_step; [by apply exec_LoadHdr|]. cbv beta iota.
  destruct (negb _); [by wp_step|]. rewrite (proj2 (Nat.eqb_neq _ _)) by lia.
  destruct (past_child n past) as [c Hc]; [by eapply reach_shape|done|].
  wp_step. rewrite Nat.min_r, nth_overflow by lia.
  wp_step; [by apply (exec_LoadChild _ _ _ _ _ Hn)|].
  apply IH; [by eapply beyond_child|by eapply deep_fuel_child].
Qed.

(** What [destroyC] returns: the key's node, its new value and its old one. *)
Definition destroyC_ok (m : gmap Gptr block) (root : Gptr) M key (old : TagGptr) (r : ptrs)
    : Prop :=
  key_ptr_ok m root M key (key_ptr r) ∧
  match M !! key with
  | Some t => val_ptr r = TagGptr_make 0 (tag_succ t) ∧ old_value r = t
  | None => val_ptr r = TagGptr_null ∧ old_value r = old
  end.

Lemma destroyC_loop_wp ab fuel cas_fuel past key old q w root M :
  rt_inv w root M → byte_key key → is_byte past → (0 < cas_fuel)%nat →
  search_at (mem w) root key q → deep_fuel (mem w) fuel q →
  wp ab (destroyC_loop fuel cas_fuel past key old q) w (λ r w',
    destroyC_ok (mem w) root M key old r ∧ rt_post w w' root (Del_spec M key) ∧
    hs w' = hs w).
Proof.
  intros HI Hbk Hpb Hcf. pose proof (inv_repr _ _ _ HI) as HM.
  pose proof (repr_wf _ _ _ HM) as Hwf.
  assert (absent (mem w) root key →
    destroyC_ok (mem w) root M key old (mkPtrs 0 TagGptr_null old) ∧
    rt_post w w root (Del_spec M key) ∧ hs w = hs w) as Hab.
  { intros Ha%(absent_lookup _ _ _ _ HM). unfold destroyC_ok, key_ptr_ok, Del_spec.
    rewrite Ha. by auto using rt_post_refl. }
  revert q. induction fuel as [|fuel IH]; intros q Hs Hf; [destruct Hf; lia|].
  cbn [destroyC_loop]. destruct (Z.eqb_spec q 0) as [->|Hq].
  { apply search_null in Hs. wp_step. auto. }
  pose proof (proj1 Hs Hq) as Hr. destruct (reach_node _ _ Hwf q Hr) as [n Hn].
  wp_step. wp_step; [by apply exec_LoadHdr|]. cbv beta iota.
  destruct (search_cases _ _ Hwf key q n Hbk Hs Hq Hn) as [E Ha|E Hl Hk|E Hl Ha|b c E Hl Hnth Hc Hp _].
  - rewrite (proj2 (Z.eqb_neq _ _) E). cbn [negb]. wp_step. auto.
  - rewrite E, Hl, Nat.eqb_refl. cbn [negb Z.eqb].
    eapply update_wp; [done..|]. intros w' Hp Hh. wp_step.
    pose proof (ver_has _ _ _ _ _ _ HM Hr Hn Hk) as Hv.
    rewrite (Del_spec_found _ _ _ Hv). rewrite Hk in Hp. split; [|done].
    unfold destroyC_ok, key_ptr_ok. rewrite Hv. split; [by exists n|done].
  - rewrite E, (proj2 (Nat.eqb_neq _ _)) by lia. cbn [negb Z.eqb].
    destruct (past_child n past) as [c Hc]; [by eapply reach_shape|done|].
    wp_step. rewrite Nat.min_r, nth_overflow by lia.
    wp_step; [by apply (exec_LoadChild _ _ _ _ _ Hn)|].
    eapply wp_mono; [eapply destroyC_beyond_wp; eauto using beyond_child, deep_fuel_child|].
    intros r w' [-> ->]. simpl. auto.
  - rewrite E, (proj2 (Nat.eqb_neq _ _)) by lia. cbn [negb Z.eqb]. wp_step.
    rewrite past_index, Hnth by done. wp_step; [by apply (exec_LoadChild _ _ _ _ _ Hn)|].
    apply IH; [by eapply search_path|]. by eapply deep_fuel_child.
Qed.

End Spec.
