(* ===== verification/RadixPut.v ===== *)
(** Insertion: [put] and [putC] refine the abstract versioned map. *)

From S2P Require Import Prelude TagPtr Fam RadixTree RadixInv RadixSpec.

Section Put.
Context {N : Nvmm} {L : NvmmLaws N}.
Implicit Types (w : world) (M : gmap bytes TagGptr) (key : bytes) (ab : Prop).

(** ** Allocation *)

(** The heap can give [n] more nodes, or the caller expects an abort. *)
Definition room ab (n : nat) w : Prop := ab ∨ heap_gives n (hs w).

Lemma heap_gives_less n h : heap_gives (S n) h → heap_gives n h.
Proof.
  revert h. induction n as [|n IH]; intros h; [done|]. intros H.
  cbn [heap_gives] in *. destruct (heap_Alloc h sizeof_Node) as [p h'].
  destruct H as [Hp H]. split; [done|]. by apply IH.
Qed.

Lemma room_less ab n w : room ab (S n) w → room ab n w.
Proof. intros [|H]; [by left|right]. by apply heap_gives_less. Qed.

Record fresh_block ab (n : nat) w (p : Gptr) w' : Prop := {
  fb_nonnull : p ≠ 0;
  fb_fresh : mem w !! p = None;
  fb_mem : mem w' = <[p := BlkNode zero_node]> (mem w);
  fb_live : dom (mem w') ⊆ live (hs w');
  fb_room : room ab n w'
}.

Lemma alloc_cases w :
  dom (mem w) ⊆ live (hs w) →
  ∃ p w', exec AllocNode w = Some (p, w') ∧
    (p = 0 ∧ mem w' = mem w ∧ live (hs w') = live (hs w) ∨
     ptr_IsValid p = true ∧ p ≠ 0 ∧ mem w !! p = None ∧
     mem w' = <[p := BlkNode zero_node]> (mem w) ∧ dom (mem w') ⊆ live (hs w')) ∧
    (∀ n, heap_gives (S n) (hs w) → p ≠ 0 ∧ heap_gives n (hs w')).
Proof.
  intros Hl. simpl. destruct (heap_Alloc (hs w) sizeof_Node) as [p h'] eqn:E.
  eexists p, _. split; [done|]. destruct (Z.eqb_spec p 0) as [->|Hp]; simpl.
  { split; [left; by eauto using alloc_fail|]. naive_solver. }
  split; [|done]. right.
  destruct (alloc_fresh _ _ _ _ E Hp) as (Hv & _ & Hnl & Hl').
  split_and!; [done..| |by rewrite alloc_zeroed|].
  - apply not_elem_of_dom. set_solver.
  - rewrite dom_insert_L, Hl'. set_solver.
Qed.

Lemma alloc_retry_wp ab cnt n w :
  dom (mem w) ⊆ live (hs w) → ab →
  wp ab (alloc_retry cnt) w (λ p w',
    p = 0 ∧ mem w' = mem w ∧ live (hs w') = live (hs w) ∨
    ptr_IsValid p = true ∧ fresh_block ab n w p w').
Proof.
  intros Hl Hab. revert w Hl. induction cnt as [|cnt IH]; intros w Hl; cbn [alloc_retry].
  { wp_step. by left. }
  destruct (alloc_cases w Hl) as (p & w' & He & Hc & _). wp_step. wp_step; [done|].
  destruct Hc as [(-> & Hm & Hlv)|(Hv & Hp & Hf & Hm & Hd)].
  - simpl. eapply wp_mono; [apply IH; by rewrite Hm, Hlv|]. rewrite Hm, Hlv.
    intros p' w'' [?|[? []]]; [by left|right]. split; [done|]. split; auto; congruence.
  - rewrite (proj2 (Z.eqb_neq _ _) Hp). wp_step. right. split; [done|].
    split; auto. by left.
Qed.

Lemma resize_and_alloc_wp ab n w :
  dom (mem w) ⊆ live (hs w) → ab → wp ab resize_and_alloc w (fresh_block ab n w).
Proof.
  intros Hl Hab. unfold resize_and_alloc. wp_step. wp_step; [done|].
  wp_step. destruct (heap_Resize (hs w) (u64 (2 * heap_Size (hs w)))) as [b h'] eqn:E.
  eapply wp_call; [simpl; by rewrite E|]. destruct b; [|done].
  destruct (alloc_cases (set_heap h' w)) as (p & w' & He & Hc & _).
  { simpl. by rewrite (resize_live _ _ _ _ E). }
  wp_step. wp_step; [done|]. wp_step. wp_step; [done|]. wp_step.
  destruct (ptr_IsValid p) eqn:Ev; [|done]. wp_step; [done|]. wp_step.
  destruct Hc as [(-> & _)|(Hv & Hp & Hf & Hm & Hd)]; [by rewrite null_invalid in Ev|].
  split; auto. by left.
Qed.

Lemma alloc_node_wp ab n w :
  dom (mem w) ⊆ live (hs w) → room ab (S n) w →
  wp ab alloc_node w (fresh_block ab n w).
Proof.
  intros Hl [Hab|Hg]; unfold alloc_node; wp_step.
  - eapply wp_mono; [by apply (alloc_retry_wp ab _ n)|].
    intros p w' [(-> & Hm & Hlv)|[Hv Hf]]; [|by rewrite Hv; wp_step].
    rewrite null_invalid. eapply wp_mono.
    { apply (resize_and_alloc_wp ab n); [by rewrite Hm, Hlv|done]. }
    intros p w'' []. split; auto; congruence.
  - unfold alloc_retry_cnt. cbn [alloc_retry].
    destruct (alloc_cases w Hl) as (p & w' & He & Hc & Hn). wp_step. wp_step; [done|].
    destruct (Hn n Hg) as [Hp Hg']. rewrite (proj2 (Z.eqb_neq _ _) Hp).
    destruct Hc as [(-> & _)|(Hv & _ & Hf & Hm & Hd)]; [done|].
    wp_step. rewrite Hv. wp_step. split; auto. by right.
Qed.

(** ** The nodes an insertion makes *)

Definition leaf_node key (v : Gptr) : Node := init_leaf key v zero_node.

Lemma zero_child_lookup i c : n_child zero_node !! i = Some c → c = 0.
Proof. simpl. unfold no_children. by intros [-> _]%lookup_replicate. Qed.

Lemma nkey_take key (i : nat) :
  (length key ≤ MAX_KEY_LEN)%nat → (i ≤ length key)%nat →
  take i (key ++ drop (length key) no_key) = take i key.
Proof. intros. by rewrite take_app_le. Qed.

Lemma key_array_length key :
  (length key ≤ MAX_KEY_LEN)%nat →
  length (key ++ drop (length key) no_key) = MAX_KEY_LEN.
Proof. intros. unfold no_key. rewrite length_app, length_drop, length_replicate. lia. Qed.

Lemma leaf_nkey key v : (length key ≤ MAX_KEY_LEN)%nat → nkey (leaf_node key v) = key.
Proof. intros. unfold nkey. simpl. by rewrite nkey_take, take_ge by lia. Qed.

Lemma leaf_shape key v :
  (length key ≤ MAX_KEY_LEN)%nat → byte_key key → node_shape (leaf_node key v).
Proof.
  intros Hl Hb. split_and!; [by apply key_array_length|done|done|by rewrite leaf_nkey].
Qed.

Definition split_value_node key (v : Gptr) (i : nat) (ex : Z) (q : Gptr) : Node :=
  link_value v i ex q (init_intermediate key zero_node).

Definition split_leaf_node key (l : Gptr) (i : nat) (ex : Z) (q : Gptr) : Node :=
  link_leaf (nth i key 0) l i ex q (init_intermediate key zero_node).

Lemma split_value_nkey key v i ex q :
  (length key ≤ MAX_KEY_LEN)%nat → (i ≤ length key)%nat →
  nkey (split_value_node key v i ex q) = take i key.
Proof. intros. unfold nkey. simpl. by rewrite nkey_take. Qed.

Lemma split_leaf_nkey key l i ex q :
  (length key ≤ MAX_KEY_LEN)%nat → (i ≤ length key)%nat →
  nkey (split_leaf_node key l i ex q) = take i key.
Proof. intros. unfold nkey. simpl. by rewrite nkey_take. Qed.

Lemma split_shape key n (i : nat) :
  (length key ≤ MAX_KEY_LEN)%nat → (i ≤ length key)%nat → byte_key key →
  n_key n = key ++ drop (length key) no_key →
  n_prefix n = i → nkey n = take i key → length (n_child n) = 256%nat → node_shape n.
Proof.
  intros Hl Hi Hb Hk Hp Hnk Hc. split_and!; [|lia|done|].
  - rewrite Hk. by apply key_array_length.
  - rewrite Hnk. by apply Forall_take.
Qed.

(** The children of a node zeroed but for one or two slots. *)
Lemma one_child i j q c :
  <[j := q]> no_children !! i = Some c → c ≠ 0 → i = j ∧ c = q.
Proof.
  intros Hi Hc. apply list_lookup_insert_Some in Hi as [(-> & -> & _)|[_ Hi]]; [done|].
  unfold no_children in Hi. apply lookup_replicate in Hi as [-> _]. done.
Qed.

Lemma two_children i j q j' q' c :
  <[j := q]> (<[j' := q']> no_children) !! i = Some c → c ≠ 0 →
  i = j ∧ c = q ∨ i ≠ j ∧ i = j' ∧ c = q'.
Proof.
  intros Hi Hc. apply list_lookup_insert_Some in Hi as [(-> & -> & _)|[Hne Hi]]; [by left|].
  right. by destruct (one_child i j' q' c).
Qed.

(** ** Finding the insertion point *)

(** The key leaves [q]'s prefix after [i] bytes, where [q] has byte [ex]. *)
Definition splits (m : gmap Gptr block) key (q : Gptr) (i : nat) (ex : Z) : Prop :=
  ∃ n, m !! q = Some (BlkNode n) ∧ (i < n_prefix n)%nat ∧ (i ≤ length key)%nat ∧
    take i key = take i (nkey n) ∧ nkey n !! i = Some ex ∧
    key !! i ≠ Some ex.

Definition point_ok (m : gmap Gptr block) (root : Gptr) key (pt : point) : Prop :=
  match pt with
  | PtMatch q => key_node m root key q
  | PtEmpty p => on_path m root key p 0
  | PtSplit p q i ex => on_path m root key p q ∧ q ≠ 0 ∧ splits m key q i ex
  end.

(** At a node that the search has come to, the scan of the prefix either covers
    it, and the key goes on from there, or ends inside. *)
Lemma scan_prefix key n :
  node_shape n →
  let i := match_len (Nat.min (length key) (n_prefix n)) key (n_key n) in
  if (i <? n_prefix n)%nat then
    (i ≤ length key)%nat ∧ take i key = take i (nkey n) ∧
    nkey n !! i = Some (nth i (n_key n) 0) ∧ key !! i ≠ Some (nth i (n_key n) 0)
  else i = n_prefix n ∧ nkey n `prefix_of` key.
Proof.
  intros Hs i. destruct Hs as (Hk & Hp & _).
  destruct (match_len_spec (Nat.min (length key) (n_prefix n)) key (n_key n)) as (Hi & Ht & Hne);
    [lia..|]. fold i in Hi, Ht, Hne. destruct (Nat.ltb_spec i (n_prefix n)) as [Hlt|Hge].
  - assert (nkey n !! i = n_key n !! i) as Hnk by (unfold nkey; by apply lookup_take_lt).
    destruct (lookup_lt_is_Some_2 (n_key n) i) as [ex Hex]; [lia|].
    rewrite Hnk, (nth_lookup_Some _ _ 0 _ Hex), Hex. split_and!; [lia| |done|].
    + rewrite Ht. unfold nkey. rewrite take_take. f_equal. lia.
    + intros Hkey. rewrite <-Hex in Hkey.
      destruct (decide (i < Nat.min (length key) (n_prefix n))%nat) as [Hm|]; [by apply Hne|].
      rewrite lookup_ge_None_2 in Hkey by lia. by rewrite Hex in Hkey.
  - split; [lia|]. replace i with (n_prefix n) in Ht by lia. unfold nkey.
    rewrite <-Ht. apply prefix_take.
Qed.

(** The search of [find_point] is at the root or at a child on the key's path. *)
Definition at_point (m : gmap Gptr block) (root : Gptr) key (p : slot) (q : Gptr) : Prop :=
  q = root ∨ on_path m root key p q.

Lemma at_point_reach m root key p q : at_point m root key p q → q ≠ 0 → sub m root q.
Proof. intros [->|Hp] Hq; [constructor|by eapply on_path_reach]. Qed.

(** As [deep_fuel], for a search that stops at the key's length. *)
Definition key_fuel (m : gmap Gptr block) key (fuel : nat) (q : Gptr) : Prop :=
  (0 < fuel)%nat ∧
  ∀ n, q ≠ 0 → m !! q = Some (BlkNode n) → (n_prefix n ≤ length key)%nat →
    (S (length key) < n_prefix n + fuel)%nat.

Lemma key_fuel_child m root key fuel q n i c :
  tree_wf m root → sub m root q → m !! q = Some (BlkNode n) → n_child n !! i = Some c →
  (n_prefix n < length key)%nat → key_fuel m key (S fuel) q → q ≠ 0 → key_fuel m key fuel c.
Proof.
  intros Hwf Hq Hn Hi Hlt [_ Hd] Hq0. specialize (Hd n Hq0 Hn ltac:(lia)).
  split; [lia|]. intros nc Hc0 Hnc Hle.
  assert (n_prefix n < n_prefix nc)%nat by (by eapply child_deeper). lia.
Qed.

Lemma find_point_wp ab fuel check key p q w root :
  tree_wf (mem w) root → byte_key key →
  at_point (mem w) root key p q → key_fuel (mem w) key fuel q →
  wp ab (find_point fuel check key p q) w (λ pt w', point_ok (mem w) root key pt ∧ w' = w).
Proof.
  intros Hwf Hbk. revert p q. induction fuel as [|fuel IH]; intros p q Hat Hf; [destruct Hf; lia|].
  cbn [find_point]. destruct (Z.eqb_spec q 0) as [->|Hq].
  { wp_step. destruct Hat as [<-|Hp]; [|done]. by destruct (reach_nonnull _ _ Hwf 0); constructor. }
  pose proof (at_point_reach _ _ _ _ _ Hat Hq) as Hr.
  destruct (reach_node _ _ Hwf q Hr) as [n Hn]. pose proof (reach_shape _ _ Hwf q n Hr Hn) as Hsh.
  wp_step. wp_step; [by apply exec_LoadHdr|]. cbv beta iota zeta.
  pose proof (scan_prefix key n Hsh) as Hsc. cbv zeta in Hsc.
  set (i := match_len _ _ _) in *. destruct (Nat.ltb_spec i (n_prefix n)) as [Hlt|Hge].
  - destruct Hsc as (H1 & H2 & H3 & H4). wp_step. split; [|done].
    destruct Hat as [->|Hp]; [|split_and!; [done..|by exists n]].
    destruct (wf_root _ _ Hwf) as (n0 & ? & ?). simplify_eq. lia.
  - destruct Hsc as [Hi Hpre]. wp_step. wp_step.
    { rewrite Hi, Nat.eqb_refl. by destruct check. }
    pose proof (prefix_length _ _ Hpre) as Hpl. rewrite nkey_length in Hpl by done.
    destruct (Nat.eqb_spec (length key) i) as [Hl|Hl].
    + wp_step. split; [|done]. exists n. split_and!; [done..|].
      apply prefix_length_eq_l; [done|]. rewrite nkey_length by done. lia.
    + destruct (child_exists n key) as (b & c & Hk & Hnth & Hc & Hb); [done..|lia|].
      rewrite Hi, Hnth. wp_step. wp_step; [by apply (exec_LoadChild _ _ _ _ _ Hn)|].
      apply IH; [right; by apply on_path_child with n|].
      eapply key_fuel_child; eauto. lia.
Qed.

(** ** What an insertion point says about the map *)

(** The split is below the parent's prefix. *)
Lemma split_deeper m root key p q i ex np :
  tree_wf m root → sub m root p.1 → m !! p.1 = Some (BlkNode np) →
  nkey np `prefix_of` key → key !! n_prefix np = Some (Z.of_nat p.2) →
  n_child np !! p.2 = Some q → q ≠ 0 → splits m key q i ex → (n_prefix np < i)%nat.
Proof.
  intros Hwf Hp Hnp Hpre Hb Hq Hq0 (n & Hn & Hi & Hil & Ht & Hex & Hne).
  destruct (reach_child _ _ Hwf p.1 np p.2 q) as (Hr & nq & ? & Hpq); try done.
  assert (nq = n) as -> by congruence.
  pose proof (nkey_length np (reach_shape _ _ Hwf _ _ Hp Hnp)) as Hl.
  apply prefix_snoc_lookup in Hpq as [Hnq Hbq]. rewrite Hl in Hbq.
  apply not_ge. intros Hge. apply Hne. rewrite <-Hex.
  destruct (decide (i = n_prefix np)) as [->|]; [congruence|].
  transitivity (nkey np !! i); [symmetry|]; apply prefix_lookup_lt; auto; lia.
Qed.

Lemma on_path_shorter m root key p q i ex :
  tree_wf m root → on_path m root key p q → q ≠ 0 → splits m key q i ex →
  on_path m root (take i key) p q.
Proof.
  intros Hwf (np & Hp & Hnp & Hpre & Hb & Hq) Hq0 Hs.
  assert (n_prefix np < i)%nat as Hlt by (by eapply split_deeper).
  exists np. split_and!; try done; [|by rewrite lookup_take_lt].
  eapply prefix_comparable; [exact Hpre|apply prefix_take|].
  destruct Hs as (_ & _ & _ & Hil & _). rewrite length_take, nkey_length; [lia|].
  by eapply reach_shape.
Qed.

Lemma empty_absent m root key p :
  tree_wf m root → on_path m root key p 0 → absent m root key.
Proof. intros Hwf Hp. by eapply search_null, search_path. Qed.

(** No node stands for a key that [q]'s prefix goes past or away from. *)
Lemma split_absent m root key p q n k :
  tree_wf m root → on_path m root k p q → q ≠ 0 → m !! q = Some (BlkNode n) →
  ¬ nkey n `prefix_of` k → absent m root k.
Proof.
  intros Hwf Hp Hq Hn Hnp t Hh. apply Hnp.
  destruct (path_has _ _ Hwf k p q t Hp Hh) as (_ & r & nr & Hr & Hnr & <- & _).
  eapply (sub_prefix _ _ Hwf q r); eauto. by eapply on_path_reach.
Qed.

Lemma splits_not_prefix m key q i ex n :
  splits m key q i ex → m !! q = Some (BlkNode n) → ¬ nkey n `prefix_of` key.
Proof.
  intros (n' & Hn' & Hi & Hil & Ht & Hex & Hne) Hn Hpre. simplify_eq.
  apply Hne. by eapply prefix_lookup_Some.
Qed.

Lemma splits_take_not_prefix m key q i ex n :
  node_shape n → splits m key q i ex → m !! q = Some (BlkNode n) →
  ¬ nkey n `prefix_of` take i key.
Proof.
  intros Hsh (n' & Hn' & Hi & Hil & _) Hn Hpre%prefix_length. simplify_eq.
  rewrite length_take, nkey_length in Hpre by done. lia.
Qed.

Lemma split_absent_both m root key p q i ex :
  tree_wf m root → on_path m root key p q → q ≠ 0 → splits m key q i ex →
  absent m root key ∧ absent m root (take i key).
Proof.
  intros Hwf Hp Hq Hs. pose proof (on_path_reach _ _ _ _ _ Hp Hq) as Hr.
  destruct (reach_node _ _ Hwf q Hr) as [n Hn].
  split; eapply split_absent; eauto.
  - by eapply splits_not_prefix.
  - by eapply on_path_shorter.
  - eapply splits_take_not_prefix; eauto. by eapply reach_shape.
Qed.

(** ** Linking the new nodes *)

Lemma graft_rt_post w w' root M M' pp np b q c new :
  rt_inv w root M → graft (mem w) (mem w') root pp np b q c new →
  dom (mem w') ⊆ live (hs w') → same_vals w w' →
  (∀ k t, M' !! k = Some t ↔
    M !! k = Some t ∨ ∃ p n, new !! p = Some n ∧ nkey n = k ∧ n_value n = t) →
  rt_post w w' root M'.
Proof.
  intros [HM _] G Hl Hv HM'. pose proof (repr_wf _ _ _ HM) as Hwf.
  split; [split; [split|]|done|]; [by eapply graft_wf|..|done|].
  - intros k t. by rewrite HM', (repr_has _ _ _ HM), (graft_has Hwf G).
  - intros k r (n & Hr & Hn & Hk). destruct (graft_nkey G r n) as (n' & ? & Hk' & _); auto.
    exists n'. rewrite (graft_sub G), Hk'. auto.
Qed.

(** New blocks are set aside and a child slot is swung to one of them. *)
Record link (m m' : gmap Gptr block) (pp : Gptr) (np : Node) (b : nat) (q c : Gptr)
    (nc : Node) (new : gmap Gptr Node) : Prop := {
  l_mem : m' = <[pp := BlkNode (with_child b c np)]> ((BlkNode <$> new) ∪ m);
  l_fresh x : is_Some (new !! x) → m !! x = None ∧ x ≠ 0;
  l_c : new !! c = Some nc;
  l_key : nkey np ++ [Z.of_nat b] `prefix_of` nkey nc;
  l_shape x n : new !! x = Some n → node_shape n;
  l_edge x n i d : new !! x = Some n → n_child n !! i = Some d → d ≠ 0 →
    ∃ nd, (new !! d = Some nd ∨ d = q ∧ m !! q = Some (BlkNode nd)) ∧
      nkey n ++ [Z.of_nat i] `prefix_of` nkey nd;
  l_reach x : is_Some (new !! x) → x = c ∨ ∃ i, n_child nc !! i = Some x;
  l_reach_q : q ≠ 0 → ∃ i, n_child nc !! i = Some q
}.

Arguments l_mem {m m' pp np b q c nc new} _.
Arguments l_fresh {m m' pp np b q c nc new} _.
Arguments l_c {m m' pp np b q c nc new} _.
Arguments l_key {m m' pp np b q c nc new} _.
Arguments l_shape {m m' pp np b q c nc new} _.
Arguments l_edge {m m' pp np b q c nc new} _.
Arguments l_reach {m m' pp np b q c nc new} _.
Arguments l_reach_q {m m' pp np b q c nc new} _.

Section Link.
Context {m m' : gmap Gptr block} {root pp : Gptr} {np nc : Node} {b : nat} {q c : Gptr}.
Context {new : gmap Gptr Node}.
Context (Hwf : tree_wf m root) (Hpp : sub m root pp) (Hnp : m !! pp = Some (BlkNode np)).
Context (Hq : n_child np !! b = Some q).
Context (K : link m m' pp np b q c nc new).

Lemma link_new x n : new !! x = Some n → m' !! x = Some (BlkNode n).
Proof.
  intros Hx. destruct (l_fresh K x) as [Hm _]; [by eexists|].
  rewrite (l_mem K), lookup_insert_ne by (intros <-; congruence).
  apply lookup_union_Some_l. by rewrite lookup_fmap, Hx.
Qed.

Lemma link_old x : is_Some (m !! x) → x ≠ pp → m' !! x = m !! x.
Proof.
  intros Hx Hne. rewrite (l_mem K), lookup_insert_ne by done.
  apply lookup_union_r. rewrite lookup_fmap. destruct (new !! x) eqn:E; [|done].
  destruct (l_fresh K x) as [Hm _]; [by eexists|].
  rewrite Hm in Hx. by destruct Hx.
Qed.

Lemma link_child_ne : q ≠ 0 → q ≠ pp.
Proof.
  intros H0 ->. assert (n_prefix np < n_prefix np)%nat; [|lia]. by eapply child_deeper.
Qed.

Lemma link_graft : graft m m' root pp np b q c new.
Proof.
  assert (m' !! c = Some (BlkNode nc)) as Hc by (apply link_new, K).
  split; try done.
  - by rewrite (l_mem K), lookup_insert_eq.
  - intros x Hx Hne. apply link_old; [|done]. by destruct (reach_node _ _ Hwf x Hx) as [? ->].
  - apply link_new.
  - intros x Hx. destruct (reach_node _ _ Hwf x Hx) as [nx Hnx].
    destruct (new !! x) eqn:E; [|done].
    destruct (l_fresh K x); [by eexists|congruence].
  - rewrite (l_mem K), lookup_insert_ne.
    2: by apply (reach_nonnull _ _ Hwf).
    rewrite lookup_union_r; [apply Hwf|]. rewrite lookup_fmap.
    destruct (new !! 0) eqn:E; [|done].
    by destruct (l_fresh K 0) as [_ ?]; [by eexists|].
  - exists nc. apply K.
  - intros nc'. rewrite (l_c K). intros [= <-]. apply K.
  - apply K.
  - intros x n i d Hx Hi Hd.
    destruct (l_edge K x n i d) as (nd & [Hn|[-> Hn]] & Hpre); auto.
    + split; [by left; eexists|]. exists nd. split; [by apply link_new|done].
    + split; [by right|]. exists nd. rewrite link_old; [done|by eexists|by apply link_child_ne].
  - intros x Hx. destruct (l_reach K x Hx) as [->|[i Hi]]; [constructor|].
    eapply sub_step; [constructor|done..|]. by destruct (l_fresh K x Hx).
  - intros H0. destruct (l_reach_q K H0) as [i Hi].
    by eapply sub_step; [constructor|..].
Qed.

End Link.

Lemma link_vals w w' pp np b q c nc new :
  mem w !! pp = Some (BlkNode np) → link (mem w) (mem w') pp np b q c nc new →
  same_vals w w'.
Proof.
  intros Hpp K p v Hp. rewrite (link_old K); [done|by eexists|]. intros ->. congruence.
Qed.

Lemma link_post w w' root M M' key p q np c nc new :
  rt_inv w root M → sub (mem w) root p.1 → mem w !! p.1 = Some (BlkNode np) →
  n_child np !! p.2 = Some q → link (mem w) (mem w') p.1 np p.2 q c nc new →
  dom (mem w') ⊆ live (hs w') →
  (∀ k t, M' !! k = Some t ↔
    M !! k = Some t ∨ ∃ x n, new !! x = Some n ∧ nkey n = k ∧ n_value n = t) →
  rt_post w w' root M' ∧
  ∀ x n, new !! x = Some n → nkey n = key → key_node (mem w') root key x.
Proof.
  intros HI Hp Hnp Hq K Hl HM'. pose proof (repr_wf _ _ _ (inv_repr _ _ _ HI)) as Hwf.
  pose proof (link_graft Hwf Hp Hnp Hq K) as G. split.
  - eapply graft_rt_post; eauto. by eapply link_vals.
  - intros x n Hx Hk. exists n. rewrite (graft_sub G).
    split_and!; [right; by eexists|by apply (g_new G)|done].
Qed.

(** ** The three insertions *)

Lemma new_one M k v x n k' t :
  M !! k = None → nkey n = k → n_value n = v →
  <[k := v]> M !! k' = Some t ↔
  M !! k' = Some t ∨ ∃ y n', ({[x := n]} : gmap Gptr Node) !! y = Some n' ∧ nkey n' = k' ∧ n_value n' = t.
Proof.
  intros HM <- <-. rewrite lookup_insert. case_decide; subst; split.
  - intros [= <-]. right. exists x, n. by rewrite lookup_singleton_eq.
  - intros [?|(y & n' & [<- <-]%lookup_singleton_Some & _ & <-)]; [congruence|done].
  - by left.
  - intros [?|(y & n' & [<- <-]%lookup_singleton_Some & ? & _)]; [done|congruence].
Qed.

Lemma two_lookup (a b : Gptr) (na nb : Node) x n :
  (<[a := na]> {[b := nb]} : gmap Gptr Node) !! x = Some n → x = a ∧ n = na ∨ x = b ∧ n = nb.
Proof.
  rewrite lookup_insert. case_decide; [naive_solver|].
  intros [<- <-]%lookup_singleton_Some. by right.
Qed.

(** As [new_one], when a split makes a node without value too. *)
Lemma new_two M k pre t a na b nb k' t' :
  M !! k = None → M !! pre = None → pre ≠ k → a ≠ b →
  nkey na = pre → n_value na = TagGptr_null → nkey nb = k → n_value nb = t →
  <[k := t]> (<[pre := TagGptr_null]> M) !! k' = Some t' ↔
  M !! k' = Some t' ∨ ∃ y n, (<[a := na]> {[b := nb]} : gmap Gptr Node) !! y = Some n ∧
    nkey n = k' ∧ n_value n = t'.
Proof.
  intros Hk Hpre Hne Hab Ha Hav Hb Hbv. rewrite !lookup_insert.
  split.
  - repeat case_decide; subst; intros E; [right; exists b, nb|right; exists a, na|by left].
    + rewrite lookup_insert_ne, lookup_singleton_eq by done. naive_solver.
    + rewrite lookup_insert_eq. split_and!; [done..|congruence].
  - intros [E|(y & n & Hy & <- & <-)].
    + rewrite !decide_False; [done|congruence..].
    + apply two_lookup in Hy as [[-> ->]|[-> ->]]; subst.
      * by rewrite decide_False, decide_True, Hav by done.
      * by rewrite decide_True by done.
Qed.

Lemma slot_key m root np p key k :
  tree_wf m root → sub m root p.1 → m !! p.1 = Some (BlkNode np) →
  nkey np `prefix_of` key → key !! n_prefix np = Some (Z.of_nat p.2) →
  k `prefix_of` key → (n_prefix np < length k)%nat →
  nkey np ++ [Z.of_nat p.2] `prefix_of` k.
Proof.
  intros Hwf Hp Hnp Hpre Hb Hk Hl.
  pose proof (nkey_length np (reach_shape _ _ Hwf _ _ Hp Hnp)) as Hlen.
  apply prefix_snoc_lookup. rewrite Hlen. split.
  - eapply prefix_comparable; eauto. lia.
  - destruct (lookup_lt_is_Some_2 k (n_prefix np)) as [y Hy]; [done|].
    pose proof (prefix_lookup_Some _ _ _ _ Hy Hk). congruence.
Qed.

Lemma splits_child m root key q i ex n :
  tree_wf m root → sub m root q → m !! q = Some (BlkNode n) → splits m key q i ex →
  Z.of_nat (child_index ex) = ex ∧ (child_index ex < 256)%nat ∧
  take i key ++ [ex] `prefix_of` nkey n.
Proof.
  intros Hwf Hr Hn (n' & Hn' & Hi & Hil & Ht & Hex & Hne). simplify_eq.
  assert (is_byte ex) as Hb.
  { eapply Forall_lookup_1; [|exact Hex]. by eapply reach_shape. }
  unfold child_index, is_byte in *. split_and!; [lia..|].
  apply prefix_snoc_lookup. rewrite Ht. split; [apply prefix_take|].
  rewrite length_take, nkey_length by (by eapply reach_shape).
  by rewrite Nat.min_l by lia.
Qed.

Section Inserts.
Context (w : world) (root : Gptr) (M : gmap bytes TagGptr) (key : bytes) (v : Gptr).
Context (HI : rt_inv w root M) (Hlen : (length key ≤ MAX_KEY_LEN)%nat) (Hbk : byte_key key).

Lemma leaf_link p np l w' :
  sub (mem w) root p.1 → mem w !! p.1 = Some (BlkNode np) → nkey np `prefix_of` key →
  key !! n_prefix np = Some (Z.of_nat p.2) → l ≠ 0 → mem w !! l = None →
  mem w' = <[p.1 := BlkNode (with_child p.2 l np)]> (<[l := BlkNode (leaf_node key v)]> (mem w)) →
  link (mem w) (mem w') p.1 np p.2 0 l (leaf_node key v) {[l := leaf_node key v]}.
Proof.
  pose proof (repr_wf _ _ _ (inv_repr _ _ _ HI)) as Hwf.
  intros Hp Hnp Hpre Hb Hl0 Hl Hm. split.
  - by rewrite Hm, map_fmap_singleton, <-insert_union_singleton_l.
  - intros x [n [<- _]%lookup_singleton_Some]. done.
  - apply lookup_singleton_eq.
  - rewrite leaf_nkey by done. eapply (slot_key _ _ np p key); eauto.
    by apply lookup_lt_Some in Hb.
  - intros x n [<- <-]%lookup_singleton_Some. by apply leaf_shape.
  - intros x n i d [<- <-]%lookup_singleton_Some Hi Hd. by apply zero_child_lookup in Hi.
  - intros x [n [<- _]%lookup_singleton_Some]. by left.
  - done.
Qed.

Lemma split_value_link p np q ex I w' :
  sub (mem w) root p.1 → mem w !! p.1 = Some (BlkNode np) → nkey np `prefix_of` key →
  key !! n_prefix np = Some (Z.of_nat p.2) → n_child np !! p.2 = Some q → q ≠ 0 →
  splits (mem w) key q (length key) ex → I ≠ 0 → mem w !! I = None →
  let n := split_value_node key v (length key) ex q in
  mem w' = <[p.1 := BlkNode (with_child p.2 I np)]> (<[I := BlkNode n]> (mem w)) →
  link (mem w) (mem w') p.1 np p.2 q I n {[I := n]}.
Proof.
  pose proof (repr_wf _ _ _ (inv_repr _ _ _ HI)) as Hwf.
  intros Hp Hnp Hpre Hb Hq Hq0 Hs HI0 HIf n Hm.
  destruct (reach_child _ _ Hwf p.1 np p.2 q) as (Hr & nq & Hnq & _); [done..|].
  destruct (splits_child _ _ key q _ ex nq Hwf Hr Hnq Hs) as (Hex & Hex' & Hpx).
  assert (nkey n = key) as Hk by (unfold n; by rewrite split_value_nkey, take_ge).
  split.
  - by rewrite Hm, map_fmap_singleton, <-insert_union_singleton_l.
  - intros x [? [<- _]%lookup_singleton_Some]. done.
  - apply lookup_singleton_eq.
  - rewrite Hk. eapply (slot_key _ _ np p key); eauto.
    by apply lookup_lt_Some in Hb.
  - intros x ? [<- <-]%lookup_singleton_Some.
    apply (split_shape key n (length key)); auto; [by rewrite Hk, take_ge|].
    simpl. by rewrite length_insert.
  - intros x ? i d [<- <-]%lookup_singleton_Some Hi Hd.
    destruct (one_child i (child_index ex) q d) as [-> ->]; [done..|].
    exists nq. split; [by right|]. rewrite Hk, Hex. by rewrite take_ge in Hpx by lia.
  - intros x [? [<- _]%lookup_singleton_Some]. by left.
  - intros _. exists (child_index ex). simpl. apply list_lookup_insert_eq. done.
Qed.

Lemma split_leaf_link p np q i ex I l w' :
  sub (mem w) root p.1 → mem w !! p.1 = Some (BlkNode np) → nkey np `prefix_of` key →
  key !! n_prefix np = Some (Z.of_nat p.2) → n_child np !! p.2 = Some q → q ≠ 0 →
  splits (mem w) key q i ex → (i < length key)%nat →
  I ≠ 0 → mem w !! I = None → l ≠ 0 → mem w !! l = None → I ≠ l →
  let n := split_leaf_node key l i ex q in
  mem w' = <[p.1 := BlkNode (with_child p.2 I np)]>
             (<[I := BlkNode n]> (<[l := BlkNode (leaf_node key v)]> (mem w))) →
  link (mem w) (mem w') p.1 np p.2 q I n (<[I := n]> {[l := leaf_node key v]}).
Proof.
  pose proof (repr_wf _ _ _ (inv_repr _ _ _ HI)) as Hwf.
  intros Hp Hnp Hpre Hb Hq Hq0 Hs Hi HI0 HIf Hl0 Hlf HIl n Hm.
  destruct (reach_child _ _ Hwf p.1 np p.2 q) as (Hr & nq & Hnq & _); [done..|].
  destruct (splits_child _ _ key q i ex nq Hwf Hr Hnq Hs) as (Hex & Hex' & Hpx).
  assert (n_prefix np < i)%nat by (by eapply (split_deeper _ _ key p q); eauto).
  assert (nkey n = take i key) as Hk by (unfold n; rewrite split_leaf_nkey by lia; done).
  destruct (lookup_lt_is_Some_2 key i) as [kb Hkb]; [done|].
  assert (is_byte kb) as Hkbb by (by eapply Forall_lookup_1).
  assert (nth i key 0 = kb) as Hnth by (by apply nth_lookup_Some).
  assert (Z.of_nat (child_index kb) = kb ∧ (child_index kb < 256)%nat) as [Hkb1 Hkb2].
  { unfold child_index, is_byte in *. lia. }
  pose proof (two_lookup I l n (leaf_node key v)) as Hnew.
  split.
  - by rewrite Hm, fmap_insert, map_fmap_singleton, <-insert_union_l, <-insert_union_singleton_l.
  - intros x [? [[-> _]|[-> _]]%Hnew]; done.
  - apply lookup_insert_eq.
  - rewrite Hk. eapply (slot_key _ _ np p key); eauto using prefix_take.
    rewrite length_take. lia.
  - intros x ? [[-> ->]|[-> ->]]%Hnew; [|by apply leaf_shape].
    apply (split_shape key n i); auto; [lia|]. simpl. by rewrite !length_insert.
  - intros x ? j d [[-> ->]|[-> ->]]%Hnew Hj Hd; [|by apply zero_child_lookup in Hj].
    destruct (two_children j (child_index ex) q (child_index (nth i key 0)) l d)
      as [[-> ->]|(_ & -> & ->)]; [done..| |].
    + exists nq. split; [by right|]. by rewrite Hk, Hex.
    + exists (leaf_node key v). rewrite lookup_insert_ne, lookup_singleton_eq by done.
      split; [by left|]. rewrite Hk, leaf_nkey, Hnth, Hkb1 by done.
      apply prefix_snoc_lookup. rewrite length_take, Nat.min_l by lia.
      split; [apply prefix_take|done].
  - intros x [? [[-> _]|[-> _]]%Hnew]; [by left|right].
    exists (child_index kb). simpl. rewrite Hnth, list_lookup_insert_ne.
    + apply list_lookup_insert_eq. done.
    + intros E. destruct Hs as (? & _ & _ & _ & _ & _ & Hne). apply Hne. congruence.
  - intros _. exists (child_index ex). simpl. apply list_lookup_insert_eq.
    by rewrite length_insert.
Qed.

End Inserts.

(** ** The insertions as programs *)

(** A node [nd] of its own was made at [p]. *)
Definition made ab (n : nat) w (nd : Node) (p : Gptr) w' : Prop :=
  p ≠ 0 ∧ mem w !! p = None ∧ mem w' = <[p := BlkNode nd]> (mem w) ∧
  dom (mem w') ⊆ live (hs w') ∧ room ab n w'.

Lemma alloc_store_wp ab n w f :
  dom (mem w) ⊆ live (hs w) → room ab (S n) w →
  wp ab (p ← alloc_node; call (StoreNode p f);; Ret p) w (made ab n w (f zero_node)).
Proof.
  intros Hl Hr. wp_step. eapply wp_mono; [by apply alloc_node_wp|].
  intros p w' [Hp Hf Hm Hl' Hr']. wp_step.
  assert (mem w' !! p = Some (BlkNode zero_node)) as Hz by (by rewrite Hm, lookup_insert_eq).
  wp_step; [by apply exec_StoreNode|]. wp_step. split_and!; try done.
  - simpl. by rewrite Hm, insert_insert_eq.
  - simpl. rewrite dom_insert_lookup_L; eauto.
Qed.

Lemma make_leaf_wp ab n w key v :
  dom (mem w) ⊆ live (hs w) → room ab (S n) w →
  wp ab (make_leaf key v 0) w (made ab n w (leaf_node key v)).
Proof. apply alloc_store_wp. Qed.

Lemma make_intermediate_wp ab n w key :
  dom (mem w) ⊆ live (hs w) → room ab (S n) w →
  wp ab (make_intermediate key 0) w (made ab n w (init_intermediate key zero_node)).
Proof. apply alloc_store_wp. Qed.

(** The key had no node; now [x] is it, and it holds [v]. *)
Definition inserted w w' (root : Gptr) M key (v x : Gptr) : Prop :=
  M !! key = None ∧ ∃ M', Put_spec M key v M' ∧ rt_post w w' root M' ∧
    key_node (mem w') root key x.

Lemma link_inserted w w' root M M' key v p q np c nc new x n :
  rt_inv w root M → sub (mem w) root p.1 → mem w !! p.1 = Some (BlkNode np) →
  n_child np !! p.2 = Some q → link (mem w) (mem w') p.1 np p.2 q c nc new →
  dom (mem w') ⊆ live (hs w') → M !! key = None → Put_spec M key v M' →
  (∀ k t, M' !! k = Some t ↔
    M !! k = Some t ∨ ∃ x n, new !! x = Some n ∧ nkey n = k ∧ n_value n = t) →
  new !! x = Some n → nkey n = key → inserted w w' root M key v x.
Proof.
  intros HI Hp Hnp Hq K Hl Hk HP HM' Hx Hn. split; [done|]. exists M'.
  destruct (link_post w w' root M M' key p q np c nc new) as [? HN]; [done..|].
  split_and!; [done..|by eapply HN].
Qed.

Section Insert_wp.
Context (ab : Prop) (room_left : nat) (w : world) (root : Gptr) (M : gmap bytes TagGptr) (key : bytes) (v : Gptr).
Context (HI : rt_inv w root M) (Hlen : (length key ≤ MAX_KEY_LEN)%nat) (Hbk : byte_key key).

Let Hwf : tree_wf (mem w) root := repr_wf _ _ _ (inv_repr _ _ _ HI).

Lemma put_insert_wp p :
  on_path (mem w) root key p 0 → room ab (S room_left) w →
  wp ab (put_insert key v p 0) w (λ r w',
    r.1 = 0 ∧ inserted w w' root M key v r.2 ∧ room ab room_left w').
Proof.
  intros Hp Hr. pose proof (empty_absent _ _ _ _ Hwf Hp) as Ha.
  apply (absent_lookup _ _ _ _ (inv_repr _ _ _ HI)) in Ha.
  destruct Hp as (np & Hs & Hnp & Hpre & Hb & Hc). unfold put_insert. wp_step.
  eapply wp_mono; [by apply (make_leaf_wp ab room_left); [apply HI|]|].
  intros l w1 (Hl0 & Hlf & Hm & Hl & Hr1). wp_step.
  assert (mem w1 !! p.1 = Some (BlkNode np)) as Hnp1.
  { rewrite Hm, lookup_insert_ne; [done|]. congruence. }
  wp_step; [by apply exec_CasChild|]. wp_step. split_and!; [done| |done].
  eapply link_inserted with (x := l); eauto.
  - apply (leaf_link w root M key v HI Hlen Hbk p np l); [done..|]. simpl. by rewrite Hm.
  - simpl. rewrite dom_insert_lookup_L; eauto.
  - by apply put_fresh.
  - intros k t. apply new_one; [done|by apply leaf_nkey|done].
  - apply lookup_singleton_eq.
  - by apply leaf_nkey.
Qed.

(** The intermediate node is made and not linked yet. *)
Section Split.
Context (p : slot) (q I : Gptr) (np : Node) (i : nat) (ex : Z) (w1 : world).
Context (Hs : sub (mem w) root p.1) (Hnp : mem w !! p.1 = Some (BlkNode np)).
Context (Hpre : nkey np `prefix_of` key) (Hb : key !! n_prefix np = Some (Z.of_nat p.2)).
Context (Hc : n_child np !! p.2 = Some q) (Hq0 : q ≠ 0) (Hsp : splits (mem w) key q i ex).
Context (Hk : M !! key = None) (HI1 : made ab (S room_left) w (init_intermediate key zero_node) I w1).

Lemma split_value_wp :
  i = length key →
  wp ab (call (StoreNode I (link_value v i ex q));; call (CasChild p.1 p.2 q I)) w1
    (λ seen w', seen = q ∧ inserted w w' root M key v I ∧ room ab (S room_left) w').
Proof.
  intros ->. destruct HI1 as (HI0 & HIf & Hm1 & Hl1 & Hr1).
  assert (mem w1 !! p.1 = Some (BlkNode np)) as Hnp1.
  { rewrite Hm1, lookup_insert_ne by congruence. done. }
  wp_step. wp_step; [apply exec_StoreNode; by rewrite Hm1, lookup_insert_eq|].
  wp_step; [apply exec_CasChild; [|done]; simpl; rewrite lookup_insert_ne by congruence; done|].
  split_and!; [done| |done]. eapply link_inserted with (x := I); eauto.
  - apply (split_value_link w root M key v HI Hlen Hbk p np q ex I); [done..|]. simpl.
    by rewrite Hm1, insert_insert_eq.
  - simpl. rewrite !dom_insert_lookup_L; eauto; simpl.
    + rewrite Hm1, lookup_insert_eq. eauto.
    + rewrite lookup_insert_ne by congruence. eauto.
  - by apply put_fresh.
  - intros k t. apply new_one; [done| |done].
    rewrite split_value_nkey by done. by apply take_ge.
  - apply lookup_singleton_eq.
  - rewrite split_value_nkey by done. by apply take_ge.
Qed.

Lemma split_leaf_wp :
  (i < length key)%nat → M !! take i key = None →
  wp ab (l ← make_leaf key v 0;
         call (StoreNode I (link_leaf (nth i key 0) l i ex q));;
         seen ← call (CasChild p.1 p.2 q I);
         Ret (seen, l, I)) w1
    (λ r w', r.1.1 = q ∧ inserted w w' root M key v r.1.2 ∧ room ab room_left w').
Proof.
  intros Hi Hk'. destruct HI1 as (HI0 & HIf & Hm1 & Hl1 & Hr1).
  wp_step. eapply wp_mono; [by apply (make_leaf_wp ab room_left)|].
  intros l w2 (Hl0 & Hlf & Hm2 & Hl2 & Hr2). rewrite Hm1 in Hlf, Hm2.
  apply lookup_insert_None in Hlf as [Hlf HIl].
  assert (mem w2 !! p.1 = Some (BlkNode np)) as Hnp2.
  { rewrite Hm2, !lookup_insert_ne by congruence. done. }
  assert (is_Some (mem w2 !! I)) as HI2.
  { rewrite Hm2, lookup_insert_ne, lookup_insert_eq by congruence. eauto. }
  wp_step. wp_step.
  { apply exec_StoreNode. by rewrite Hm2, lookup_insert_ne, lookup_insert_eq by congruence. }
  wp_step. wp_step.
  { apply exec_CasChild; [|done]. simpl. rewrite lookup_insert_ne by congruence. done. }
  wp_step. split_and!; [done| |done]. simpl. eapply link_inserted with (x := l); eauto.
  - apply (split_leaf_link w root M key v HI Hlen Hbk p np q i ex I l); [done..|].
    simpl. rewrite Hm2. f_equal. rewrite (insert_insert_ne (mem w)) by congruence.
    by rewrite insert_insert_eq.
  - simpl. rewrite !dom_insert_lookup_L; eauto. simpl.
    rewrite lookup_insert_ne by congruence. eauto.
  - eapply put_fresh_split; eauto using prefix_take.
    intros E%(f_equal length). rewrite length_take in E. lia.
  - intros k t. apply new_two; try done; [..|by rewrite split_leaf_nkey by lia|by apply leaf_nkey].
    intros E%(f_equal length). rewrite length_take in E. lia.
  - by rewrite lookup_insert_ne, lookup_singleton_eq by done.
  - by apply leaf_nkey.
Qed.

End Split.

Lemma put_split_wp p q i ex :
  on_path (mem w) root key p q → q ≠ 0 → splits (mem w) key q i ex → room ab (S (S room_left)) w →
  wp ab (put_split key v p q i ex 0 0) w (λ r w', r.1.1 = q ∧ room ab room_left w' ∧
    if (i =? length key)%nat then r.1.2 = 0 ∧ inserted w w' root M key v r.2
    else inserted w w' root M key v r.1.2).
Proof.
  intros Hp Hq0 Hsp Hr.
  destruct (split_absent_both _ _ _ _ _ _ _ Hwf Hp Hq0 Hsp) as [Ha Ha'].
  apply (absent_lookup _ _ _ _ (inv_repr _ _ _ HI)) in Ha, Ha'.
  destruct Hp as (np & Hs & Hnp & Hpre & Hb & Hc). unfold put_split. wp_step.
  eapply wp_mono; [by apply (make_intermediate_wp ab (S room_left)); [apply HI|]|].
  intros I w1 HI1.
  assert (i ≤ length key)%nat as Hil by (destruct Hsp as (? & _ & _ & ? & _); done).
  destruct (Nat.eqb_spec i (length key)) as [Hi|Hi].
  - pose proof (split_value_wp p q I np i ex w1 Hs Hnp Hpre Hb Hc Hq0 Hsp Ha HI1 Hi) as Hw.
    revert Hw. unfold wp. rewrite !run_bind.
    destruct (run _ w1); try done. cbn beta iota. rewrite run_bind.
    destruct (run _ w0); try done. simpl. intros (-> & Hins & Hrm).
    split_and!; auto using room_less.
  - eapply wp_mono; [apply (split_leaf_wp p q I np); auto; lia|]. naive_solver.
Qed.

End Insert_wp.

(** ** put and putC *)

Definition put_done w w' (root : Gptr) M key (v : Gptr) : Prop :=
  ∃ M', Put_spec M key v M' ∧ rt_post w w' root M'.

(** What [put] returns and leaves: [FIND_OR_CREATE] keeps a value that is there. *)
Definition put_post (update : UpdateFlags) w (root : Gptr) M key (v : Gptr)
    (r : TagGptr) w' : Prop :=
  r = ver M key ∧
  if negb (update_flag update) && IsValid (ver M key) then w' = w
  else put_done w w' root M key v.

Lemma update_done w w' root M key v q n :
  rt_inv w root M → sub (mem w) root q → mem w !! q = Some (BlkNode n) → nkey n = key →
  rt_post w w' root (<[nkey n := TagGptr_make v (tag_succ (n_value n))]> M) →
  put_done w w' root M key v.
Proof.
  intros HI Hq Hn Hk HP. eexists. split; [|exact HP]. rewrite Hk.
  apply put_update. by eapply ver_has; eauto; apply HI.
Qed.

Lemma inserted_done update w w' root M key v x :
  inserted w w' root M key v x → put_post update w root M key v TagGptr_null w'.
Proof.
  intros (Hk & M' & HP & HQ & _). unfold put_post, ver. rewrite Hk. simpl. split; [done|].
  unfold IsValid. simpl. rewrite null_invalid, andb_false_r. by exists M'.
Qed.

Section Loops.
Context (ab : Prop) (w : world) (root : Gptr) (M : gmap bytes TagGptr) (key : bytes) (v : Gptr).
Context (HI : rt_inv w root M) (Hlen : (length key ≤ MAX_KEY_LEN)%nat) (Hbk : byte_key key).
Context (fuel : nat) (Hfuel : (S (length key) < fuel)%nat) (room_left : nat).
Context (Hroom : room ab (S (S room_left)) w).

Lemma room_same w' : hs w' = hs w → room ab room_left w'.
Proof. intros Hh. unfold room. rewrite Hh. by do 2 apply room_less. Qed.

Lemma find_root_wp check :
  wp ab (find_point fuel check key NULL root) w (λ pt w',
    point_ok (mem w) root key pt ∧ w' = w).
Proof.
  apply find_point_wp; [apply HI|done|by left|]. split; [lia|]. intros. lia.
Qed.

Lemma put_match_wp update q :
  key_node (mem w) root key q →
  wp ab (put_match fuel update v q 0 0) w (λ r w',
    put_post update w root M key v r w' ∧ room ab room_left w').
Proof.
  intros (n & Hq & Hn & Hk). unfold put_match, free_if. cbn [Z.eqb].
  pose proof (ver_has _ _ _ _ _ _ (inv_repr _ _ _ HI) Hq Hn Hk) as Hv.
  assert (ver M key = n_value n) as Hver by (unfold ver; by rewrite Hv).
  wp_step. wp_step. wp_step. wp_step. unfold put_post. rewrite Hver.
  assert (wp ab (tq ← call (LoadValue q); r ← cas_loop fuel q v tq; Ret (fst r)) w
    (λ r w', (r = n_value n ∧ put_done w w' root M key v) ∧ room ab room_left w')) as Hup.
  { eapply update_wp; [done..|lia|]. intros w' HP Hh. wp_step. split; [|by apply room_same].
    split; [done|]. by eapply update_done. }
  revert Hup. unfold wp. rewrite !run_bind. cbn [run call]. rewrite (exec_LoadValue w q n Hn).
  destruct update; cbn [update_flag negb andb]; [|done].
  destruct (IsValid (n_value n)); [|done]. split; [done|by apply room_same].
Qed.

Lemma put_loop_wp update :
  wp ab (put_loop fuel key v update NULL root 0 0) w (λ r w',
    put_post update w root M key v r w' ∧ room ab room_left w').
Proof.
  destruct (Nat.lt_exists_pred (S (length key)) fuel Hfuel) as (f & Ef & _).
  replace (put_loop fuel) with (put_loop (S f)) by (by rewrite Ef). cbn [put_loop]. rewrite <-Ef.
  wp_step. eapply wp_mono; [apply find_root_wp|]. intros pt w' [Hpt ->].
  destruct pt as [q|p|p q i ex].
  - by apply put_match_wp.
  - wp_step. eapply wp_mono; [apply (put_insert_wp ab room_left w root M); eauto using room_less|].
    intros [seen l] w1 (Hseen & Hins & Hrl). cbn [fst snd] in *. subst seen. cbn [Z.eqb].
    wp_step. split; [by eapply inserted_done|done].
  - destruct Hpt as (Hp & Hq & Hs). wp_step.
    eapply wp_mono; [by apply (put_split_wp ab room_left w root M)|].
    intros [[seen l] m] w1 (Hseen & Hrl & Hins). cbn [fst snd] in *. subst seen.
    rewrite Z.eqb_refl. destruct (i =? length key)%nat.
    + destruct Hins as [-> Hins]. wp_step. split; [by eapply inserted_done|done].
    + wp_step. split; [by eapply inserted_done|done].
Qed.

(** What [putC] returns: the key's node, the new and the old value. *)
Definition putC_post (r : ptrs) w' : Prop :=
  key_node (mem w') root key (key_ptr r) ∧ val_ptr r = put_result M key v ∧
  old_value r = ver M key ∧ put_done w w' root M key v.

Lemma inserted_doneC w' x :
  inserted w w' root M key v x → putC_post (mkPtrs x (TagGptr_make v 0) TagGptr_null) w'.
Proof.
  intros (Hk & M' & HP & HQ & Hx). unfold putC_post, put_result, ver. rewrite Hk.
  split_and!; try done. by exists M'.
Qed.

Lemma putC_loop_wp :
  wp ab (putC_loop fuel key v NULL root 0 0) w (λ r w', putC_post r w' ∧ room ab room_left w').
Proof.
  destruct (Nat.lt_exists_pred (S (length key)) fuel Hfuel) as (f & Ef & _).
  replace (putC_loop fuel) with (putC_loop (S f)) by (by rewrite Ef). cbn [putC_loop]. rewrite <-Ef.
  wp_step. eapply wp_mono; [apply find_root_wp|]. intros pt w' [Hpt ->].
  destruct pt as [q|p|p q i ex].
  - destruct Hpt as (n & Hq & Hn & Hk). unfold free_if. cbn [Z.eqb]. wp_step. wp_step.
    wp_step. wp_step. eapply update_wp; [done..|lia|]. intros w' HP Hh. wp_step.
    split; [|by apply room_same]. pose proof (ver_has _ _ _ _ _ _ (inv_repr _ _ _ HI) Hq Hn Hk) as Hv.
    unfold putC_post, put_result, ver. rewrite Hv. simpl. split_and!; [|done..|].
    + apply HP. by exists n.
    + by eapply update_done.
  - wp_step. eapply wp_mono; [apply (put_insert_wp ab room_left w root M); eauto using room_less|].
    intros [seen l] w1 (Hseen & Hins & Hrl). cbn [fst snd] in *. subst seen. cbn [Z.eqb].
    wp_step. split; [by apply inserted_doneC|done].
  - destruct Hpt as (Hp & Hq & Hs). wp_step.
    eapply wp_mono; [by apply (put_split_wp ab room_left w root M)|].
    intros [[seen l] m] w1 (Hseen & Hrl & Hins). cbn [fst snd] in *. subst seen.
    rewrite Z.eqb_refl. destruct (i =? length key)%nat.
    + destruct Hins as [-> Hins]. wp_step. split; [by apply inserted_doneC|done].
    + wp_step. split; [by apply inserted_doneC|done].
Qed.

End Loops.

End Put.
