(* ===== verification/RadixOps.v ===== *)
(** The radix tree's operations, run alone: each one computes the operation of
    the abstract versioned map, keeps the tree well formed and keeps the nodes
    it has handed out valid; and so does any sequence of them. *)

From S2P Require Import Prelude TagPtr Fam RadixTree RadixInv RadixSpec RadixPut.

(** ** Sequences of operations *)

Inductive rt_op :=
  | OpPut (update : UpdateFlags) (key : bytes) (value : Gptr)
  | OpGet (key : bytes)
  | OpDestroy (key : bytes).

Definition op_key (o : rt_op) : bytes :=
  match o with OpPut _ k _ | OpGet k | OpDestroy k => k end.

Definition op_ok (o : rt_op) : Prop := key_ok (op_key o) = true ∧ byte_key (op_key o).

#[global] Instance op_ok_dec o : Decision (op_ok o).
Proof. unfold op_ok. apply _. Defined.

Section Ops.
Context {N : Nvmm}.

Definition run_op (fuel : nat) (root : Gptr) (o : rt_op) : prog TagGptr :=
  match o with
  | OpPut u k v => put fuel root k v u
  | OpGet k => get root k
  | OpDestroy k => destroy fuel root k
  end.

Fixpoint run_ops (fuel : nat) (root : Gptr) (os : list rt_op) : prog (list TagGptr) :=
  match os with
  | [] => Ret []
  | o :: os' => r ← run_op fuel root o; rs ← run_ops fuel root os'; Ret (r :: rs)
  end.

(** A new tree, and operations on it. *)
Definition new_and_run (fuel : nat) (os : list rt_op) : prog (list TagGptr) :=
  root ← RadixTree_new 0; run_ops fuel root os.

(** What a dictionary of value pointers does: 0 stands for no value. *)
Definition val (A : gmap bytes Gptr) (k : bytes) : Gptr := default 0 (A !! k).

Definition dict_op (A : gmap bytes Gptr) (o : rt_op) : Gptr * gmap bytes Gptr :=
  match o with
  | OpPut UPDATE k v => (val A k, <[k := v]> A)
  | OpPut FIND_OR_CREATE k v =>
      (val A k, if ptr_IsValid (val A k) then A else <[k := v]> A)
  | OpGet k => (val A k, A)
  | OpDestroy k => (val A k, <[k := 0]> A)
  end.

Fixpoint dict_ops (A : gmap bytes Gptr) (os : list rt_op) : list Gptr :=
  match os with
  | [] => []
  | o :: os' => let '(r, A') := dict_op A o in r :: dict_ops A' os'
  end.

(** The dictionary has the values of the versioned map. *)
Definition dict_of (M : gmap bytes TagGptr) (A : gmap bytes Gptr) : Prop :=
  ∀ k, gptr_ (ver M k) = val A k.

(** From [M] to [M'], a key that had a node still has it, and its version has
    gone up by one for each change of its value, at most [n] times. *)
Definition versions (n : nat) (M M' : gmap bytes TagGptr) : Prop :=
  ∀ k t, M !! k = Some t → ∃ t' j, M' !! k = Some t' ∧ (j ≤ n)%nat ∧
    tag t' = (if (j =? 0)%nat then tag t else u64 (tag t + Z.of_nat j)) ∧ (j = 0%nat → t' = t).

Lemma versions_refl n M : versions n M M.
Proof. intros k t Ht. exists t, 0%nat. split_and!; [done|lia|done..]. Qed.

Lemma versions_trans n1 n2 M1 M2 M3 :
  versions n1 M1 M2 → versions n2 M2 M3 → versions (n1 + n2) M1 M3.
Proof.
  intros H1 H2 k t Ht. destruct (H1 k t Ht) as (t2 & j1 & Ht2 & Hj1 & E1 & Z1).
  destruct (H2 k t2 Ht2) as (t3 & j2 & Ht3 & Hj2 & E2 & Z2).
  exists t3, (j1 + j2)%nat. split_and!; [done|lia| |].
  - destruct (Nat.eqb_spec j1 0), (Nat.eqb_spec j2 0), (Nat.eqb_spec (j1 + j2) 0);
      try lia; subst; rewrite E2, ?E1; try (f_equal; lia).
    unfold u64. rewrite Zplus_mod_idemp_l. f_equal. lia.
  - intros. rewrite Z2, Z1 by lia. done.
Qed.

Lemma versions_set M k t v :
  M !! k = Some t → versions 1 M (<[k := TagGptr_make v (tag_succ t)]> M).
Proof.
  intros Hk k' t' Ht'. rewrite lookup_insert. case_decide; subst.
  - simplify_eq. eexists _, 1%nat. split_and!; [done|lia|done..].
  - exists t', 0%nat. split_and!; [done|lia|done..].
Qed.

Lemma versions_fresh n M k t : M !! k = None → versions n M (<[k := t]> M).
Proof.
  intros Hk k' t' Ht'. exists t', 0%nat. rewrite lookup_insert_ne by congruence.
  split_and!; [done|lia|done..].
Qed.

Lemma versions_put M k v M' : Put_spec M k v M' → versions 1 M M'.
Proof.
  intros [t Ht|Hn|pre Hn Hp _ Hne]; [by apply versions_set|by apply versions_fresh|].
  apply (versions_trans 0 1 _ (<[pre := TagGptr_null]> M)); apply versions_fresh; [done|].
  by rewrite lookup_insert_ne.
Qed.

Lemma versions_del M k : versions 1 M (Del_spec M k).
Proof. unfold Del_spec. destruct (M !! k) eqn:E; [by apply versions_set|apply versions_refl]. Qed.

Lemma dict_of_map M : dict_of M (gptr_ <$> M).
Proof. intros k. unfold ver, val. rewrite lookup_fmap. by destruct (M !! k). Qed.

Lemma dict_of_put M k v M' A :
  dict_of M A → Put_spec M k v M' → dict_of M' (<[k := v]> A).
Proof.
  intros HA HP k'. unfold val. rewrite lookup_insert. case_decide; subst.
  - unfold ver. rewrite (Put_spec_same _ _ _ _ HP). unfold put_result. by case_match.
  - rewrite (Put_spec_other _ _ _ _ _ HP) by done. apply HA.
Qed.

Lemma dict_of_del M k A : dict_of M A → dict_of (Del_spec M k) (<[k := 0]> A).
Proof.
  intros HA k'. unfold val, Del_spec. rewrite lookup_insert. case_decide; subst.
  - unfold ver. destruct (M !! k') eqn:E; [by rewrite lookup_insert_eq|by rewrite E].
  - transitivity (gptr_ (ver M k')); [|apply HA]. unfold ver. destruct (M !! k); [by rewrite lookup_insert_ne|done].
Qed.

End Ops.

Section Theorems.
Context {N : Nvmm} {L : NvmmLaws N}.
Implicit Types (w : world) (M : gmap bytes TagGptr) (key : bytes).

(** ** One operation *)

Lemma key_ok_length key : key_ok key = true → (0 < length key ≤ MAX_KEY_LEN)%nat.
Proof. unfold key_ok. intros [?%Nat.ltb_lt ?%Nat.leb_le]%andb_true_iff. lia. Qed.

Lemma get_wp ab w root M key :
  rt_inv w root M → key_ok key = true → byte_key key →
  wp ab (get root key) w (λ r w', r = ver M key ∧ w' = w).
Proof.
  intros HI Hk Hb. pose proof (repr_wf _ _ _ (inv_repr _ _ _ HI)) as Hwf.
  unfold get. wp_step. wp_step; [done|].
  eapply get_loop_wp; [apply HI|done|by apply search_root|by apply deep_fuel_root].
Qed.

Lemma put_wp ab n w root M key v fuel u :
  rt_inv w root M → key_ok key = true → byte_key key → (S (length key) < fuel)%nat →
  room ab (S (S n)) w →
  wp ab (put fuel root key v u) w (λ r w', put_post u w root M key v r w' ∧ room ab n w').
Proof.
  intros HI Hk Hb Hf Hr. unfold put. wp_step. wp_step; [done|].
  apply put_loop_wp; auto. by apply key_ok_length.
Qed.

Lemma destroy_wp ab w root M key fuel :
  rt_inv w root M → key_ok key = true → byte_key key → (0 < fuel)%nat →
  wp ab (destroy fuel root key) w (λ r w',
    r = ver M key ∧ rt_post w w' root (Del_spec M key) ∧ hs w' = hs w).
Proof.
  intros HI Hk Hb Hf. pose proof (repr_wf _ _ _ (inv_repr _ _ _ HI)) as Hwf.
  unfold destroy. wp_step. wp_step; [done|].
  eapply destroy_loop_wp; [done..|by apply search_root|by apply deep_fuel_root].
Qed.

Lemma putC_wp ab n w root M key v fuel :
  rt_inv w root M → key_ok key = true → byte_key key → (S (length key) < fuel)%nat →
  room ab (S (S n)) w →
  wp ab (putC fuel root key v) w (λ r w', putC_post w root M key v r w' ∧ room ab n w').
Proof.
  intros HI Hk Hb Hf Hr. unfold putC. wp_step. wp_step; [done|].
  apply putC_loop_wp; auto. by apply key_ok_length.
Qed.

Lemma null_not_there w : dom (mem w) ⊆ live (hs w) → mem w !! 0 = None.
Proof.
  intros Hl. apply not_elem_of_dom. intros H0%Hl%live_valid. by rewrite null_invalid in H0.
Qed.

Lemma RadixTree_new_wp ab n w :
  dom (mem w) ⊆ live (hs w) → room ab (S n) w →
  wp ab (RadixTree_new 0) w (λ root w',
    rt_inv w' root {[ [] := TagGptr_null ]} ∧ same_vals w w' ∧ room ab n w').
Proof.
  intros Hl Hr. pose proof (null_not_there w Hl) as H0.
  assert (∀ root w', fresh_block ab n w root w' →
    wp ab (call (StoreNode root init_root);; Ret root) w' (λ root w',
      rt_inv w' root {[ [] := TagGptr_null ]} ∧ same_vals w w' ∧ room ab n w')) as Hinit.
  { intros root w' [Hp Hf Hm Hl' Hr']. wp_step.
    assert (mem w' !! root = Some (BlkNode zero_node)) as Hz by (by rewrite Hm, lookup_insert_eq).
    wp_step; [by apply exec_StoreNode|]. wp_step. split_and!; [split|..|done]; simpl.
    - rewrite Hm, insert_insert_eq. by apply repr_new.
    - rewrite dom_insert_lookup_L; eauto.
    - intros p v Hv. simpl. rewrite Hm, insert_insert_eq, lookup_insert_ne; congruence. }
  unfold RadixTree_new. cbn [Z.eqb]. destruct (alloc_cases w Hl) as (p & w' & He & Hc & Hn).
  wp_step. wp_step; [done|]. wp_step.
  destruct Hc as [(-> & Hm & Hlv)|(Hv & Hp & Hf & Hm & Hd)].
  - destruct Hr as [Hab|Hg]; [|by destruct (Hn n Hg)]. rewrite null_invalid.
    eapply wp_mono; [by apply (resize_and_alloc_wp ab n); [rewrite Hm, Hlv|]|].
    intros root w2 []. apply Hinit. split; auto; congruence.
  - rewrite Hv. wp_step. apply Hinit. split; auto.
    destruct Hr as [Hab|Hg]; [by left|right]. by destruct (Hn n Hg).
Qed.

Lemma key_node_value m root M key q :
  repr m root M → key_node m root key q →
  ∃ n, sub m root q ∧ m !! q = Some (BlkNode n) ∧ nkey n = key ∧ M !! key = Some (n_value n).
Proof. intros HM (n & Hq & Hn & Hk). exists n. eauto using ver_has. Qed.

(** The operations by node. *)
Lemma getC_ptr_run w root M key q :
  rt_inv w root M → key_node (mem w) root key q → run (getC_ptr q) w = Done (ver M key) w.
Proof.
  intros HI Hq. pose proof (inv_repr _ _ _ HI) as HM.
  destruct (key_node_value _ _ _ _ _ HM Hq) as (n & Hr & Hn & Hk & Hv).
  unfold getC_ptr. rewrite (proj2 (Z.eqb_neq _ _) (reach_nonnull _ _ (repr_wf _ _ _ HM) q Hr)).
  simpl. unfold node_at, ver. rewrite Hn, Hv. done.
Qed.

Lemma putC_ptr_wp ab fuel w root M key q v :
  rt_inv w root M → key_node (mem w) root key q → (0 < fuel)%nat →
  wp ab (putC_ptr fuel q v) w (λ r w', r = (put_result M key v, ver M key) ∧
    rt_post w w' root (<[key := put_result M key v]> M) ∧ put_done w w' root M key v).
Proof.
  intros HI Hq Hf. pose proof (inv_repr _ _ _ HI) as HM.
  destruct (key_node_value _ _ _ _ _ HM Hq) as (n & Hr & Hn & Hk & Hv).
  unfold putC_ptr. rewrite (proj2 (Z.eqb_neq _ _) (reach_nonnull _ _ (repr_wf _ _ _ HM) q Hr)).
  wp_step. wp_step; [done|]. eapply update_wp; [done..|]. intros w' HP _. wp_step.
  unfold put_result, ver. rewrite Hv. split_and!; [done|by rewrite <-Hk|].
  by eapply update_done.
Qed.

Lemma getC_run past w root M key :
  rt_inv w root M → key_ok key = true → byte_key key → is_byte past →
  ∃ q, run (getC past root key) w = Done (q, ver M key) w ∧
    key_ptr_ok (mem w) root M key q.
Proof.
  intros HI Hk Hb Hp. pose proof (repr_wf _ _ _ (inv_repr _ _ _ HI)) as Hwf.
  destruct (wp_total (getC past root key) w (λ r w',
    r.2 = ver M key ∧ key_ptr_ok (mem w) root M key r.1 ∧ w' = w)) as ([q t] & w' & Hr & Ht & Hq & ->).
  - unfold getC. wp_step. wp_step; [done|].
    eapply getC_loop_wp; [apply HI|done..|by apply search_root|by apply deep_fuel_root].
  - simpl in *. subst t. eauto.
Qed.

Lemma destroyC_wp ab past w root M key old fuel :
  rt_inv w root M → key_ok key = true → byte_key key → is_byte past → (0 < fuel)%nat →
  wp ab (destroyC fuel past root key old) w (λ r w',
    destroyC_ok (mem w) root M key old r ∧ rt_post w w' root (Del_spec M key) ∧ hs w' = hs w).
Proof.
  intros HI Hk Hb Hp Hf. pose proof (repr_wf _ _ _ (inv_repr _ _ _ HI)) as Hwf.
  unfold destroyC. wp_step. wp_step; [done|].
  by eapply destroyC_loop_wp; [done..|apply search_root|apply deep_fuel_root].
Qed.

(** ** Sequences *)

Lemma rt_post_trans w1 w2 w3 root M2 M3 :
  rt_post w1 w2 root M2 → rt_post w2 w3 root M3 → rt_post w1 w3 root M3.
Proof.
  intros [_ V1 N1] [I2 V2 N2]. split; [done| |by auto].
  intros p v Hp. by apply V2, V1.
Qed.

(** One operation against the dictionary. *)
Definition op_post (n : nat) (ab : Prop) w (root : Gptr) M (A : gmap bytes Gptr) (o : rt_op)
    (r : TagGptr) w' : Prop :=
  ∃ M', gptr_ r = (dict_op A o).1 ∧ dict_of M' (dict_op A o).2 ∧ rt_post w w' root M' ∧
    versions 1 M M' ∧ room ab n w'.

Lemma run_op_wp ab n fuel w root M A o :
  rt_inv w root M → dict_of M A → op_ok o → (S MAX_KEY_LEN < fuel)%nat →
  room ab (S (S n)) w →
  wp ab (run_op fuel root o) w (op_post n ab w root M A o).
Proof.
  intros HI HA [Hk Hb] Hf Hr. pose proof (key_ok_length _ Hk) as Hkl.
  destruct o as [u key v|key|key]; simpl in *.
  - eapply wp_mono; [eapply (put_wp ab n); eauto; lia|]. intros r w' [[-> Hp] Hr'].
    destruct (negb (update_flag u) && IsValid (ver M key)) eqn:E.
    + subst w'. exists M. destruct u; [|done]. simpl in *. unfold IsValid in E.
      rewrite HA in E. rewrite E. split_and!; auto using versions_refl, rt_post_refl.
    + destruct Hp as (M' & HP & HQ). exists M'.
      assert ((dict_op A (OpPut u key v)) = (val A key, <[key := v]> A)) as ->.
      { destruct u; [|done]. simpl in *. unfold IsValid in E. rewrite HA in E. by rewrite E. }
      split_and!; eauto using versions_put, dict_of_put.
  - eapply wp_mono; [by apply get_wp|]. intros r w' [-> ->]. exists M.
    split_and!; auto using versions_refl, rt_post_refl. by do 2 apply room_less.
  - eapply wp_mono; [eapply destroy_wp; eauto; lia|]. intros r w' (-> & HP & Hh).
    exists (Del_spec M key). split_and!; [by apply HA|by apply dict_of_del|done|apply versions_del|].
    unfold room. rewrite Hh. by do 2 apply room_less.
Qed.

Lemma run_ops_wp ab n fuel w root M A os :
  rt_inv w root M → dict_of M A → Forall op_ok os → (S MAX_KEY_LEN < fuel)%nat →
  room ab (2 * length os + n) w →
  wp ab (run_ops fuel root os) w (λ rs w', ∃ M',
    gptr_ <$> rs = dict_ops A os ∧ rt_post w w' root M' ∧ versions (length os) M M').
Proof.
  intros HI HA Hos Hf. revert w M A HI HA. induction Hos as [|o os Ho _ IH]; intros w M A HI HA Hr.
  { exists M. auto using versions_refl, rt_post_refl. }
  cbn [run_ops]. wp_step.
  eapply wp_mono; [apply (run_op_wp ab (2 * length os + n)); eauto|].
  { simpl length in Hr. by replace (S (S _)) with (2 * S (length os) + n)%nat by lia. }
  intros r w1 (M1 & Hres & HA1 & HP1 & HV1 & Hr1). wp_step.
  eapply wp_mono; [eapply IH; eauto; apply HP1|].
  intros rs w2 (M2 & Hres2 & HP2 & HV2). wp_step. exists M2. cbn [dict_ops fmap list_fmap].
  destruct (dict_op A o) as [x A'] eqn:E. simpl in *. split_and!.
  - by rewrite Hres, <-Hres2.
  - by eapply rt_post_trans.
  - by eapply (versions_trans 1 (length os)).
Qed.

End Theorems.

(** ** The operations refine the versioned map *)

Section Claims.
Context {N : Nvmm} {L : NvmmLaws N}.
Implicit Types (w : world) (M : gmap bytes TagGptr) (key : bytes).

Lemma room_or n w : room (¬ heap_gives n (hs w)) n w.
Proof. unfold room. destruct (decide (heap_gives n (hs w))); auto. Qed.

(** C1: a new tree, driven by any sequence of [put] (in both modes), [get] and
    [destroy] calls, answers each of them as a dictionary of value pointers
    would; it needs one node for the root and at most two for each call. *)
Theorem tree_history fuel os w :
  dom (mem w) ⊆ live (hs w) → Forall op_ok os →
  (S MAX_KEY_LEN < fuel)%nat → heap_gives (1 + 2 * length os) (hs w) →
  ∃ rs w', run (new_and_run fuel os) w = Done rs w' ∧ gptr_ <$> rs = dict_ops ∅ os.
Proof.
  intros Hl Hos Hf Hg. apply wp_total. unfold new_and_run. wp_step.
  eapply wp_mono; [apply (RadixTree_new_wp False (2 * length os)); auto; by right|].
  intros root w1 (HI & _ & Hr).
  eapply wp_mono; [eapply (run_ops_wp False 0 _ _ _ _ ∅); eauto|by intros rs w2 (M' & ? & _)].
  - intros k. unfold ver, val. rewrite lookup_empty.
    destruct ({[ [] := TagGptr_null ]} !! k) eqn:E; [|done].
    by apply lookup_singleton_Some in E as [_ <-].
  - by rewrite Nat.add_0_r.
Qed.

(** C2: [put], in the mode asked for, returns the value pointer the key had and
    gives the key the new one: with the next version when the key has a node, with
    version 0 on a new node otherwise, splitting a prefix where the key leaves it.
    [FIND_OR_CREATE] leaves a valid value alone.  The other keys keep their
    values.  It stops early only if the heap refuses one of two nodes. *)
Theorem put_refines update w root M key value fuel :
  rt_inv w root M → key_ok key = true → byte_key key → (S (length key) < fuel)%nat →
  (∃ r w', run (put fuel root key value update) w = Done r w' ∧
     put_post update w root M key value r w') ∨
  run (put fuel root key value update) w = Aborted ∧ ¬ heap_gives 2 (hs w).
Proof.
  intros HI Hk Hb Hf. apply wp_done.
  eapply wp_mono; [eapply (put_wp _ 0); eauto using room_or|]. by intros r w' [? _].
Qed.

(** [get] returns the key's value pointer, null when the key has no node,
    and changes nothing. *)
Theorem get_refines w root M key :
  rt_inv w root M → key_ok key = true → byte_key key →
  run (get root key) w = Done (ver M key) w.
Proof. intros HI Hk Hb. by destruct (wp_total _ _ _ (get_wp False w root M key HI Hk Hb))
  as (r & w' & -> & -> & ->). Qed.

(** [destroy] returns the key's value pointer and replaces it by null with
    the next version; a key without node stays without one. *)
Theorem destroy_refines w root M key fuel :
  rt_inv w root M → key_ok key = true → byte_key key → (0 < fuel)%nat →
  ∃ w', run (destroy fuel root key) w = Done (ver M key) w' ∧
    rt_post w w' root (Del_spec M key).
Proof.
  intros HI Hk Hb Hf. destruct (wp_total _ _ _ (destroy_wp False w root M key fuel HI Hk Hb Hf))
    as (r & w' & Hr & -> & HP & _). eauto.
Qed.

(** [putC] also returns the node that holds the key, the value pointer it
    stored and the one it replaced. *)
Theorem putC_refines w root M key value fuel :
  rt_inv w root M → key_ok key = true → byte_key key → (S (length key) < fuel)%nat →
  (∃ r w', run (putC fuel root key value) w = Done r w' ∧
     putC_post w root M key value r w') ∨
  run (putC fuel root key value) w = Aborted ∧ ¬ heap_gives 2 (hs w).
Proof.
  intros HI Hk Hb Hf. apply wp_done.
  eapply wp_mono; [eapply (putC_wp _ 0); eauto using room_or|]. by intros r w' [? _].
Qed.

(** [getC] returns what [get] returns, and the key's node; whatever byte
    follows the key in memory, which it reads at a prefix longer than the key,
    does not show in the result. *)
Theorem getC_refines past w root M key :
  rt_inv w root M → key_ok key = true → byte_key key → is_byte past →
  ∃ q, run (getC past root key) w = Done (q, ver M key) w ∧
    key_ptr_ok (mem w) root M key q.
Proof. apply getC_run. Qed.

(** [destroyC] deletes as [destroy] does and returns the key's node and
    both value pointers; when the key has no node it leaves [old_value] as the
    caller passed it. *)
Theorem destroyC_refines past w root M key old fuel :
  rt_inv w root M → key_ok key = true → byte_key key → is_byte past → (0 < fuel)%nat →
  ∃ r w', run (destroyC fuel past root key old) w = Done r w' ∧
    destroyC_ok (mem w) root M key old r ∧ rt_post w w' root (Del_spec M key).
Proof.
  intros HI Hk Hb Hp Hf. apply wp_total.
  eapply wp_mono; [by apply destroyC_wp|]. by intros r w' (? & ? & _).
Qed.

(** The short-cut variants, given a node that [putC], [getC] or [destroyC]
    returned for the key, do on the key what the variants by key do. *)
Theorem shortcut_refines w root M key q value fuel :
  rt_inv w root M → key_node (mem w) root key q → (0 < fuel)%nat →
  run (getC_ptr q) w = Done (ver M key) w ∧
  (∃ w', run (putC_ptr fuel q value) w = Done (put_result M key value, ver M key) w' ∧
     put_done w w' root M key value) ∧
  (∃ w', run (destroyC_ptr fuel q) w = Done (put_result M key 0, ver M key) w' ∧
     rt_post w w' root (Del_spec M key)).
Proof.
  intros HI Hq Hf. split; [by apply (getC_ptr_run w root)|].
  destruct (key_node_value _ _ _ _ _ (inv_repr _ _ _ HI) Hq) as (n & _ & _ & _ & Hv).
  split; apply wp_first.
  - eapply wp_mono; [by apply (putC_ptr_wp _ fuel w root M key q)|]. by intros r w' (-> & _ & Hd).
  - eapply wp_mono; [by apply (putC_ptr_wp _ fuel w root M key q 0)|].
    intros r w' (-> & HP & _). split; [done|]. rewrite (Del_spec_found _ _ _ Hv).
    unfold put_result in HP. by rewrite Hv in HP.
Qed.

(** Opening a new tree allocates an empty root, whose one key is the
    empty string, without a value. *)
Theorem RadixTree_new_refines w :
  dom (mem w) ⊆ live (hs w) →
  (∃ root w', run (RadixTree_new 0) w = Done root w' ∧
     rt_inv w' root {[ [] := TagGptr_null ]} ∧ same_vals w w') ∨
  run (RadixTree_new 0) w = Aborted ∧ ¬ heap_gives 1 (hs w).
Proof.
  intros Hl. apply wp_done.
  eapply wp_mono; [by apply (RadixTree_new_wp _ 0); auto using room_or|].
  intros root w' (? & ? & _). eauto.
Qed.

Lemma version_same t t' (j : nat) :
  0 <= tag t < two64 → Z.of_nat j < two64 →
  tag t' = (if (j =? 0)%nat then tag t else u64 (tag t + Z.of_nat j)) →
  tag t' = tag t → j = 0%nat.
Proof.
  intros Ht Hj E Heq. destruct (Nat.eqb_spec j 0) as [|Hne]; [done|]. exfalso.
  rewrite Heq in E. unfold u64 in E.
  assert (tag t + Z.of_nat j - tag t = Z.of_nat j) as Hd by lia.
  rewrite <-(Z.mod_small (tag t) two64) in E at 1 by done.
  assert ((Z.of_nat j) mod two64 = 0) as Hz.
  { rewrite <-Hd, Zminus_mod, <-E, Z.sub_diag. done. }
  rewrite Z.mod_small in Hz by lia. lia.
Qed.

(** C10: a client that keeps the node, the version and the value of a key can
    tell from the node alone whether its copy is current: after any sequence of
    operations shorter than 2^64, on any keys, the node is still the key's, and if
    it still has the version, it has the value too. *)
Theorem cached_version_valid fuel os w root M key q t :
  rt_inv w root M → key_node (mem w) root key q → M !! key = Some t →
  0 <= tag t < two64 → Z.of_nat (length os) < two64 →
  Forall op_ok os → (S MAX_KEY_LEN < fuel)%nat → heap_gives (2 * length os) (hs w) →
  ∃ rs w' t', run (run_ops fuel root os) w = Done rs w' ∧
    key_node (mem w') root key q ∧ run (getC_ptr q) w' = Done t' w' ∧
    (tag t' = tag t → t' = t).
Proof.
  intros HI Hq Ht Hw Hlen Hos Hf Hg.
  destruct (wp_total _ _ _ (run_ops_wp False 0 fuel w root M (gptr_ <$> M) os HI
    (dict_of_map M) Hos Hf ltac:(right; by rewrite Nat.add_0_r)))
    as (rs & w' & Hr & M' & _ & HP & HV).
  destruct (HV key t Ht) as (t' & j & Ht' & Hj & Htag & Hsame).
  pose proof (post_nodes _ _ _ _ HP _ _ Hq) as Hq'.
  exists rs, w', t'. split_and!; try done.
  - rewrite (getC_ptr_run w' root M' key q); [|apply HP|done]. unfold ver. by rewrite Ht'.
  - intros E. eapply Hsame, version_same; [done| |done..]. lia.
Qed.

End Claims.

(** ** Witnesses: a tree with one key on the reference heap *)

Definition world_of {A} (o : outcome A) : world :=
  match o with Done _ w => w | _ => ref_world end.

Definition result_of {A} (o : outcome (N := RefNvmm) A) : option A :=
  match o with Done a _ => Some a | _ => None end.

Definition new_world : world := world_of (run (RadixTree_new 0) ref_world).
Definition key_a : bytes := [97].
Definition leaf_world : world := world_of (run (putC 200 16 key_a 4096) new_world).
Definition leaf_map : gmap bytes TagGptr :=
  <[key_a := TagGptr_make 4096 0]> {[ [] := TagGptr_null ]}.

Lemma new_world_inv : rt_inv new_world 16 {[ [] := TagGptr_null ]}.
Proof.
  destruct (wp_total _ _ _ (RadixTree_new_wp False 0 ref_world ltac:(done)
    ltac:(right; vm_compute; by split))) as (root & w' & Hr & HI & _).
  assert (result_of (run (RadixTree_new 0) ref_world) = Some 16) as Hres by (by vm_compute).
  unfold new_world. rewrite Hr in *. injection Hres as ->. done.
Qed.

Lemma leaf_map_only M : Put_spec {[ [] := TagGptr_null ]} key_a 4096 M → M = leaf_map.
Proof.
  intros [t Ht|Hn|pre Hn Hpre [l Hl] Hne]; [done|done|].
  exfalso. destruct pre as [|x [|y pre]]; simpl in Hl; [done| |by destruct l].
  injection Hl as <- _. done.
Qed.

Lemma leaf_world_ok :
  rt_inv leaf_world 16 leaf_map ∧ key_node (mem leaf_world) 16 key_a 2240.
Proof.
  destruct (wp_total _ _ _ (putC_wp False 0 new_world 16 _ key_a 4096 200 new_world_inv
    ltac:(done) ltac:(by_decide) ltac:(simpl; lia) ltac:(right; by_decide)))
    as (r & w' & Hr & (Hk & _ & _ & M' & HP & HQ) & _).
  assert (result_of (run (putC 200 16 key_a 4096) new_world) =
    Some (mkPtrs 2240 (TagGptr_make 4096 0) TagGptr_null)) as Hres by (by vm_compute).
  unfold leaf_world. rewrite Hr in *. injection Hres as ->. split; [|done].
  rewrite <-(leaf_map_only _ HP). apply HQ.
Qed.

Lemma leaf_world_inv : rt_inv leaf_world 16 leaf_map.
Proof. apply leaf_world_ok. Qed.

(** Insert, split a prefix, update, delete, find-or-create. *)
Definition demo_ops : list rt_op :=
  [OpPut UPDATE [97; 98; 99] 4096; OpPut UPDATE [97; 98; 100] 8192; OpGet [97; 98];
   OpPut UPDATE [97; 98] 12288; OpDestroy [97; 98; 99]; OpGet [97; 98; 99];
   OpPut FIND_OR_CREATE [97; 98] 16384; OpPut FIND_OR_CREATE [97; 98; 99] 20480;
   OpGet [97; 98; 99]; OpGet [97; 98]].

Lemma tree_history_witness : ∃ rs w',
  run (new_and_run 200 demo_ops) ref_world = Done rs w' ∧
  gptr_ <$> rs = [0; 0; 0; 0; 4096; 0; 12288; 0; 20480; 12288].
Proof. apply (tree_history 200 demo_ops ref_world); [done|by_decide|by_decide|by_decide]. Defined.

Lemma put_refines_witness :
  (∃ r w', run (put 200 16 [97; 98] 8192 UPDATE) leaf_world = Done r w' ∧
     put_post UPDATE leaf_world 16 leaf_map [97; 98] 8192 r w') ∨
  run (put 200 16 [97; 98] 8192 UPDATE) leaf_world = Aborted ∧ ¬ heap_gives 2 (hs leaf_world).
Proof. apply put_refines; [apply leaf_world_inv|done|by_decide|by_decide]. Defined.

Lemma get_refines_witness :
  run (get 16 key_a) leaf_world = Done (TagGptr_make 4096 0) leaf_world.
Proof. apply (get_refines leaf_world 16 leaf_map); [apply leaf_world_inv|done|by_decide]. Defined.

Lemma destroy_refines_witness : ∃ w',
  run (destroy 1 16 key_a) leaf_world = Done (TagGptr_make 4096 0) w' ∧
  rt_post leaf_world w' 16 (Del_spec leaf_map key_a).
Proof.
  apply (destroy_refines leaf_world 16 leaf_map); [apply leaf_world_inv|done|by_decide|by_decide].
Defined.

Lemma putC_refines_witness :
  (∃ r w', run (putC 200 16 [97; 98] 8192) leaf_world = Done r w' ∧
     putC_post leaf_world 16 leaf_map [97; 98] 8192 r w') ∨
  run (putC 200 16 [97; 98] 8192) leaf_world = Aborted ∧ ¬ heap_gives 2 (hs leaf_world).
Proof. apply putC_refines; [apply leaf_world_inv|done|by_decide|by_decide]. Defined.

Lemma getC_refines_witness : ∃ q,
  run (getC 255 16 key_a) leaf_world = Done (q, TagGptr_make 4096 0) leaf_world ∧
  key_ptr_ok (mem leaf_world) 16 leaf_map key_a q.
Proof.
  apply (getC_refines 255 leaf_world 16 leaf_map);
    [apply leaf_world_inv|done|by_decide|by_decide].
Defined.

Lemma destroyC_refines_witness : ∃ r w',
  run (destroyC 1 255 16 key_a TagGptr_null) leaf_world = Done r w' ∧
  destroyC_ok (mem leaf_world) 16 leaf_map key_a TagGptr_null r ∧
  rt_post leaf_world w' 16 (Del_spec leaf_map key_a).
Proof.
  apply destroyC_refines; [apply leaf_world_inv|done|by_decide|by_decide|by_decide].
Defined.

Lemma shortcut_refines_witness :
  run (getC_ptr 2240) leaf_world = Done (TagGptr_make 4096 0) leaf_world ∧
  (∃ w', run (putC_ptr 1 2240 8192) leaf_world =
     Done (TagGptr_make 8192 1, TagGptr_make 4096 0) w' ∧
     put_done leaf_world w' 16 leaf_map key_a 8192) ∧
  (∃ w', run (destroyC_ptr 1 2240) leaf_world =
     Done (TagGptr_make 0 1, TagGptr_make 4096 0) w' ∧
     rt_post leaf_world w' 16 (Del_spec leaf_map key_a)).
Proof.
  apply (shortcut_refines leaf_world 16 leaf_map key_a 2240 8192 1);
    [apply leaf_world_inv|apply leaf_world_ok|by_decide].
Defined.

Lemma RadixTree_new_refines_witness :
  (∃ root w', run (RadixTree_new 0) ref_world = Done root w' ∧
     rt_inv w' root {[ [] := TagGptr_null ]} ∧ same_vals ref_world w') ∨
  run (RadixTree_new 0) ref_world = Aborted ∧ ¬ heap_gives 1 (hs ref_world).
Proof. by apply RadixTree_new_refines. Defined.

Lemma cached_version_valid_witness : ∃ rs w' t',
  run (run_ops 200 16 demo_ops) leaf_world = Done rs w' ∧
  key_node (mem w') 16 key_a 2240 ∧ run (getC_ptr 2240) w' = Done t' w' ∧
  (tag t' = 0 → t' = TagGptr_make 4096 0).
Proof.
  apply (cached_version_valid 200 demo_ops leaf_world 16 leaf_map key_a 2240 (TagGptr_make 4096 0));
    [apply leaf_world_inv|apply leaf_world_ok|done|by_decide..].
Defined.
