(* ===== verification/RadixScan.v ===== *)
(** Range scans and traversals: [RadixTree::scan], [get_next], [next_value],
    [lower_bound], [list] and [structure] of [src/radix_tree.cc].

    An iterator stands at a position of the tree: a node and the next of its 257
    slots to visit, slot 0 being its value and slot [i + 1] its child [i].  In
    the order of keys that position is a cursor, a byte string that splits the
    keys of the tree into those visited and those to come; [next_value] returns
    the first key at or after it that has a value. *)

From Stdlib Require Import Sorting.Sorted.
From S2P Require Import Prelude TagPtr Fam RadixTree RadixInv RadixSpec RadixPut RadixOps.

Section RadixScan.
Context {N : Nvmm}.

(** [struct RadixTree::Iter]. *)
Record Iter := mkIter {
  begin_key : bytes;
  begin_key_inclusive : bool;
  begin_key_open : bool;
  end_key : bytes;
  end_key_inclusive : bool;
  end_key_open : bool;
  it_node : Gptr;
  next_pos : nat;
  it_key : bytes;
  it_value : TagGptr;
  it_path : list (Gptr * nat)          (* the top of the stack first *)
}.

Definition at_pos (node : Gptr) (pos : nat) (path : list (Gptr * nat)) (it : Iter) : Iter :=
  mkIter (begin_key it) (begin_key_inclusive it) (begin_key_open it)
    (end_key it) (end_key_inclusive it) (end_key_open it)
    node pos (it_key it) (it_value it) path.

Definition with_result (k : bytes) (v : TagGptr) (it : Iter) : Iter :=
  mkIter (begin_key it) (begin_key_inclusive it) (begin_key_open it)
    (end_key it) (end_key_inclusive it) (end_key_open it)
    (it_node it) (next_pos it) k v (it_path it).

Definition move_pos (pos : nat) (it : Iter) : Iter := at_pos (it_node it) pos (it_path it) it.

(** [iter.path.push(make_pair(iter.node, i)); iter.node = q; iter.next_pos = 0;] *)
Definition go_down (i : nat) (q : Gptr) (it : Iter) : Iter :=
  at_pos q 0 ((it_node it, i) :: it_path it) it.

(** [while (iter.next_pos == 257)]: go up; [false] when the path is empty. *)
Fixpoint pop_up (node : Gptr) (pos : nat) (path : list (Gptr * nat)) : bool * (Gptr * nat * list (Gptr * nat)) :=
  if (pos =? 257)%nat then
    match path with
    | [] => (false, (node, pos, path))
    | (parent, i) :: path' => pop_up parent (i + 1 + 1) path'
    end
  else (true, (node, pos, path)).

(** [for (; iter.next_pos <= bound; iter.next_pos++)]: the first child that is
    not null, and its position. *)
Fixpoint child_loop (fuel : nat) (node : Gptr) (bound : Z) (pos : nat) : prog (nat * Gptr) :=
  match fuel with
  | O => OutOfFuel
  | S fuel' =>
      if Z.of_nat pos <=? bound then
        q ← call (LoadChild node (pos - 1));
        if q =? 0 then child_loop fuel' node bound (pos + 1) else Ret (pos, q)
      else Ret (pos, 0)
  end.

(** The node's own value, at position 0: [Some] iterator to return with, if it
    is valid. *)
Definition visit_value (nkey : bytes) (nprefix : nat) (it : Iter) : prog (option Iter * Iter) :=
  if (next_pos it =? 0)%nat then
    let it1 := move_pos 1 it in
    tq ← call (LoadValue (it_node it));
    if IsValid tq then Ret (Some (with_result (take nprefix nkey) tq it1), it1)
    else Ret (None, it1)
  else Ret (None, it).

(** [fam_memcmp] of the end key and the node's prefix; 1 when the end is open. *)
Definition cmp_end (it : Iter) (nkey : bytes) (nprefix : nat) : Z :=
  if end_key_open it then 1 else cmp_prefix (end_key it) nkey nprefix.

(** At the end key's own node: it is the last key, if it is in the range. *)
Definition visit_end (nkey : bytes) (nprefix : nat) (it : Iter) : prog (bool * Iter) :=
  let it' := at_pos 0 (next_pos it) (it_path it) it in
  if end_key_inclusive it then
    tq ← call (LoadValue (it_node it));
    if (next_pos it =? 0)%nat && IsValid tq then
      Ret (true, with_result (take nprefix nkey) tq it')
    else Ret (false, it')
  else Ret (false, it').

Fixpoint next_value (fuel : nat) (it : Iter) : prog (bool * Iter) :=
  match fuel with
  | O => OutOfFuel
  | S fuel' =>
      if it_node it =? 0 then Ret (false, it) else
      let '(up, (node, pos, path)) := pop_up (it_node it) (next_pos it) (it_path it) in
      let it := at_pos node pos path it in
      if negb up then Ret (false, it) else
      '(nkey, nprefix) ← call (LoadHdr node);
      let result := cmp_end it nkey nprefix in
      let key_size := length (end_key it) in
      if result <? 0 then Ret (false, it)
      else if 0 <? result then
        '(found, it) ← visit_value nkey nprefix it;
        match found with
        | Some it => Ret (true, it)
        | None =>
            '(pos, q) ← child_loop 258 node 256 (next_pos it);
            if q =? 0 then next_value fuel' (move_pos pos it)
            else next_value fuel' (go_down (pos - 1) q it)
        end
      else if (nprefix =? key_size)%nat then visit_end nkey nprefix it
      else
        '(found, it) ← visit_value nkey nprefix it;
        match found with
        | Some it => Ret (true, it)
        | None =>
            if (key_size <? nprefix)%nat then Ret (false, it)
            else
              (* (uint64_t)key[...]: the char is sign-extended *)
              let upper_bound := char_to_u64 (nth (Nat.min nprefix key_size) (end_key it) 0) in
              '(pos, q) ← child_loop 258 node (u64 (upper_bound + 1)) (next_pos it);
              let it := if q =? 0 then move_pos pos it else go_down (pos - 1) q it in
              if u64 (upper_bound + 1) <? Z.of_nat (next_pos it) then
                Ret (false, at_pos 0 (next_pos it) (it_path it) it)
              else next_value fuel' it
        end
  end.

(** [lower_bound]: the starting point for [next_value]; [fuel] is for the
    descent, [nfuel] for [next_value]. *)
Fixpoint lower_bound_loop (fuel nfuel : nat) (it : Iter) : prog (bool * Iter) :=
  match fuel with
  | O => OutOfFuel
  | S fuel' =>
      if it_node it =? 0 then Ret (false, at_pos 0 (next_pos it) (it_path it) it) else
      '(nkey, nprefix) ← call (LoadHdr (it_node it));
      let key := begin_key it in
      let key_size := length key in
      let result := if begin_key_open it then -1 else cmp_prefix key nkey nprefix in
      if 0 <? result then next_value nfuel (move_pos 257 it)
      else if result <? 0 then next_value nfuel it
      else if (nprefix =? key_size)%nat then
        if begin_key_inclusive it then next_value nfuel it
        else next_value nfuel (move_pos 1 it)
      else if (key_size <? nprefix)%nat then next_value nfuel it
      else
        let idx := child_index (nth (Nat.min nprefix key_size) key 0) in
        q ← call (LoadChild (it_node it) idx);
        if q =? 0 then next_value nfuel (move_pos (idx + 1) it)
        else lower_bound_loop fuel' nfuel
               (at_pos q (next_pos it) ((it_node it, idx) :: it_path it) it)
  end.

Definition lower_bound (nfuel : nat) (root : Gptr) (it : Iter) : prog (bool * Iter) :=
  assert (match it_key it with [] => true | _ => false end);;
  lower_bound_loop descent_fuel nfuel
    (with_result [] TagGptr_null (at_pos root 0 (it_path it) it)).

Definition OPEN_BOUNDARY_KEY : bytes := [0].

(** What [scan] writes to the iterator; [old] is the iterator it is given,
    whose [end_key_inclusive] it reads before it writes it. *)
Definition scan_iter (old : Iter) (bk : bytes) (binc : bool) (ek : bytes) (einc : bool) : Iter :=
  mkIter bk binc (bool_decide (bk = OPEN_BOUNDARY_KEY) && negb (end_key_inclusive old))
    ek einc (bool_decide (ek = OPEN_BOUNDARY_KEY) && negb einc)
    0 0 [] TagGptr_null [].

(** [scan] and [get_next]: the key and the value, or [None] for -1. *)
Definition scan (nfuel : nat) (root : Gptr) (old : Iter)
    (bk : bytes) (binc : bool) (ek : bytes) (einc : bool)
    : prog (option (bytes * TagGptr) * Iter) :=
  assert (key_ok bk);; assert (key_ok ek);;
  let it := scan_iter old bk binc ek einc in
  if bool_decide (bk = ek) && binc && einc then
    val ← get root bk;
    Ret (if IsValid val then Some (bk, val) else None, it)
  else if begin_key_open it || end_key_open it || lex_ltb bk ek then
    '(found, it) ← lower_bound nfuel root it;
    Ret (if found : bool then Some (it_key it, it_value it) else None, it)
  else Ret (None, it).

Definition get_next (nfuel : nat) (it : Iter) : prog (option (bytes * TagGptr) * Iter) :=
  '(found, it) ← next_value nfuel it;
  Ret (if found : bool then Some (it_key it, it_value it) else None, it).

End RadixScan.

(** ** Cursors *)

(** Two cursors that split the keys of [M] alike. *)
Definition same_rest (M : gmap bytes TagGptr) (c c' : bytes) : Prop :=
  ∀ k, is_Some (M !! k) → lex_le c k ↔ lex_le c' k.

#[global] Instance same_rest_equiv M : Equivalence (same_rest M).
Proof.
  split.
  - intros c k _. done.
  - intros c c' H k Hk. symmetry. by apply H.
  - intros c1 c2 c3 H1 H2 k Hk. etrans; [by apply H1|by apply H2].
Qed.

(** The cursor at position [pos] of a node that stands for [k]. *)
Definition cursor (k : bytes) (pos : nat) : bytes :=
  match pos with O => k | S i => k ++ [Z.of_nat i] end.

(** The iterator's path leads from the root to the node. *)
Fixpoint path_ok (m : gmap Gptr block) (root node : Gptr) (path : list (Gptr * nat)) : Prop :=
  match path with
  | [] => node = root
  | (p, i) :: path' => path_ok m root p path' ∧ node ≠ 0 ∧
      ∃ np, m !! p = Some (BlkNode np) ∧ n_child np !! i = Some node
  end.

Section Cursor.
Context (m : gmap Gptr block) (root : Gptr) (M : gmap bytes TagGptr) (HM : repr m root M).

Let Hwf : tree_wf m root := repr_wf _ _ _ HM.

Lemma path_reach node path : path_ok m root node path → sub m root node.
Proof.
  revert node. induction path as [|[p i] path IH]; intros node; simpl; [intros ->; constructor|].
  intros (Hp & H0 & np & Hnp & Hi). by eapply sub_step; [apply IH|..].
Qed.

Lemma map_key k :
  is_Some (M !! k) → ∃ r nr, sub m root r ∧ m !! r = Some (BlkNode nr) ∧ nkey nr = k.
Proof. intros [t (r & nr & ?&?&?&_)%(repr_has _ _ _ HM)]. eauto. Qed.

Lemma map_byte_key k : is_Some (M !! k) → byte_key k.
Proof. intros (r & nr & Hr & Hn & <-)%map_key. by eapply reach_shape. Qed.

Lemma node_in_map p n :
  sub m root p → m !! p = Some (BlkNode n) → M !! nkey n = Some (n_value n).
Proof. intros. by eapply ver_has. Qed.

(** A key below child [i] is below the node there, and there is one. *)
Lemma key_below p n i c k :
  sub m root p → m !! p = Some (BlkNode n) → n_child n !! i = Some c →
  is_Some (M !! k) → nkey n ++ [Z.of_nat i] `prefix_of` k →
  c ≠ 0 ∧ ∀ nc, m !! c = Some (BlkNode nc) → nkey nc `prefix_of` k.
Proof.
  intros Hp Hn Hi (r & nr & Hr & Hnr & <-)%map_key Hk.
  assert (sub m p r) as Hs.
  { eapply sub_of_prefix; eauto. etrans; [|exact Hk]. by eexists. }
  assert (p ≠ r) as Hne.
  { intros ->. apply prefix_length in Hk. simplify_eq. rewrite length_app in Hk.
    simpl in Hk. lia. }
  destruct (sub_child _ _ Hwf p r n nr) as (j & d & Hj & Hd & Hds & Hpj); auto.
  apply prefix_snoc_lookup in Hk as [_ Hk]. apply prefix_snoc_lookup in Hpj as [_ Hpj].
  assert (i = j) as -> by (simplify_eq; lia). simplify_eq. split; [done|].
  intros nc Hnc. eapply (sub_prefix _ _ Hwf c r); eauto. by eapply (reach_child _ _ Hwf p n).
Qed.

(** Past the node's own key, its first child is next. *)
Lemma rest_first k : lex_lt k (cursor k 1) ∧
  ∀ k', is_Some (M !! k') → lex_le (cursor k 1) k' ↔ lex_lt k k'.
Proof.
  split; [apply lex_lt_prefix|]. intros k' Hk'%map_byte_key. simpl. split.
  - intros H. eapply lex_lt_le_trans; [apply lex_lt_prefix|exact H].
  - intros H. apply lex_le_snoc. destruct (decide (k `prefix_of` k')) as [[l ->]|]; [|by left].
    destruct l as [|y l]; [rewrite app_nil_r in H; by apply lex_lt_irrefl in H|].
    right. exists y, l. split; [done|]. apply Forall_app in Hk' as [_ Hl].
    inversion Hl as [|? ? [Hy _]]. done.
Qed.

Lemma rest_null p n i :
  sub m root p → m !! p = Some (BlkNode n) → n_child n !! i = Some 0 →
  same_rest M (cursor (nkey n) (S i)) (cursor (nkey n) (S (S i))).
Proof.
  intros Hp Hn Hi k Hk. simpl. replace (Z.of_nat (S i)) with (Z.of_nat i + 1) by lia. split.
  - intros H. destruct (decide (lex_le (nkey n ++ [Z.of_nat i + 1]) k)) as [|Hc]; [done|].
    apply lex_not_le in Hc. pose proof (lex_interval _ _ _ H Hc) as Hpre.
    by destruct (key_below p n i 0 k).
  - intros H. eapply lex_le_trans; [|exact H]. apply lex_lt_le, lex_lt_branch. lia.
Qed.

Lemma rest_down p n i c nc :
  sub m root p → m !! p = Some (BlkNode n) → n_child n !! i = Some c → c ≠ 0 →
  m !! c = Some (BlkNode nc) → same_rest M (cursor (nkey n) (S i)) (cursor (nkey nc) 0).
Proof.
  intros Hp Hn Hi Hc Hnc k Hk. simpl.
  destruct (reach_child _ _ Hwf p n i c) as (_ & nc' & ? & [r Hr]); auto. simplify_eq.
  rewrite Hr. split.
  - intros H. destruct (decide (lex_le (nkey n ++ [Z.of_nat i + 1]) k)) as [Hn'|Hn'].
    + eapply lex_le_trans; [|exact Hn']. rewrite <-(assoc_L (++)).
      apply lex_lt_le, lex_lt_branch. lia.
    + apply lex_not_le in Hn'. pose proof (lex_interval _ _ _ H Hn') as Hpre.
      destruct (key_below p n i c k) as [_ Hb]; auto. rewrite <-Hr.
      by apply lex_prefix_le, Hb.
  - intros H. eapply lex_le_trans; [|exact H]. apply lex_prefix_le. by eexists.
Qed.

Lemma rest_above k :
  is_Some (M !! k) → ∀ k', lex_le (cursor k' 257) k → lex_above k' k.
Proof.
  intros Hk%map_byte_key k'. simpl. intros [|(y & l & -> & Hy)]%lex_le_snoc; [done|].
  apply Forall_app in Hk as [_ Hl]. inversion Hl as [|? ? [_ Hy']]. lia.
Qed.

Lemma rest_up p n i c nc :
  sub m root p → m !! p = Some (BlkNode n) → n_child n !! i = Some c → c ≠ 0 →
  m !! c = Some (BlkNode nc) →
  same_rest M (cursor (nkey nc) 257) (cursor (nkey n) (i + 1 + 1)).
Proof.
  intros Hp Hn Hi Hc Hnc k Hk. replace (i + 1 + 1)%nat with (S (S i)) by lia.
  destruct (reach_child _ _ Hwf p n i c) as (_ & nc' & ? & [r Hr]); auto. simplify_eq.
  cbn [cursor]. replace (Z.of_nat (S i)) with (Z.of_nat i + 1) by lia. split.
  - intros Ha%rest_above; [|done].
    destruct (decide (lex_le (nkey n ++ [Z.of_nat i + 1]) k)) as [|Hn']; [done|].
    apply lex_not_le in Hn'.
    assert (nkey n ++ [Z.of_nat i] `prefix_of` k) as Hpre.
    { apply lex_interval; [|done]. eapply lex_le_trans; [|apply lex_lt_le, Ha].
      rewrite Hr. apply lex_prefix_le. by eexists. }
    destruct (key_below p n i c k) as [_ Hb]; auto. by destruct (proj2 Ha (Hb _ Hnc)).
  - intros H. eapply lex_le_trans; [|exact H]. rewrite Hr, <-!(assoc_L (++)).
    apply lex_lt_le, lex_lt_branch. lia.
Qed.

End Cursor.

(** ** Steps of [next_value] *)

Section Next.
Context {N : Nvmm} {L : NvmmLaws N}.
Context (w : world) (root : Gptr) (M : gmap bytes TagGptr) (HM : repr (mem w) root M).
Implicit Types (it : Iter) (k c : bytes) (t : TagGptr).

Let Hwf : tree_wf (mem w) root := repr_wf _ _ _ HM.

(** The iterator is at cursor [c]. *)
Record stands (node : Gptr) (pos : nat) (path : list (Gptr * nat)) c (n : Node) : Prop := {
  st_path : path_ok (mem w) root node path;
  st_pos : (pos ≤ 257)%nat;
  st_node : mem w !! node = Some (BlkNode n);
  st_rest : same_rest M c (cursor (nkey n) pos)
}.

Lemma stands_reach node pos path c n : stands node pos path c n → sub (mem w) root node.
Proof. intros []. by eapply path_reach. Qed.

Lemma stands_shape node pos path c n : stands node pos path c n → node_shape n.
Proof. intros H. eapply (reach_shape _ _ Hwf node); [by eapply stands_reach|apply H]. Qed.

Lemma stands_up node c n p i path :
  stands node 257 ((p, i) :: path) c n → ∃ np, stands p (i + 1 + 1) path c np.
Proof.
  intros [(Hp & H0 & np & Hnp & Hi) _ Hn Hc]. exists np.
  pose proof (path_reach _ _ _ _ Hp) as Hr.
  pose proof (reach_shape _ _ Hwf p np Hr Hnp) as (_ & _ & Hl & _).
  apply lookup_lt_Some in Hi as Hlt. split; [done|lia|done|].
  etrans; [exact Hc|]. by eapply rest_up.
Qed.

Lemma pop_up_spec node pos path c n :
  stands node pos path c n →
  match pop_up node pos path with
  | (true, (node', pos', path')) => (pos' ≤ 256)%nat ∧ (∃ n', stands node' pos' path' c n') ∧
      (if (pos =? 257)%nat then (length path' < length path)%nat
       else node' = node ∧ pos' = pos ∧ path' = path)
  | (false, _) => ∀ k, is_Some (M !! k) → ¬ lex_le c k
  end.
Proof.
  revert node pos n. induction path as [|[p i] path IH]; intros node pos n Hs; simpl.
  - destruct (Nat.eqb_spec pos 257) as [->|Hpos].
    + intros k Hk Hc. apply (st_rest _ _ _ _ _ Hs) in Hc; [|done].
      apply (rest_above _ _ _ HM) in Hc; [|done]. destruct Hs as [-> _ Hn _].
      rewrite (root_nkey _ _ Hwf n Hn) in Hc. destruct Hc as [_ []]. apply prefix_nil.
    + split; [destruct Hs; lia|]. split; [by exists n|done].
  - destruct (Nat.eqb_spec pos 257) as [->|Hpos].
    + destruct (stands_up _ _ _ _ _ _ Hs) as [np Hnp]. specialize (IH _ _ _ Hnp).
      destruct (pop_up p (i + 1 + 1) path) as [[] [[node' pos'] path']]; [|done].
      destruct IH as (? & ? & IH). split_and!; [done..|].
      destruct (i + 1 + 1 =? 257)%nat; [lia|]. destruct IH as (_ & _ & ->). lia.
    + split; [destruct Hs; lia|]. split; [by exists n|done].
Qed.

Lemma child_loop_wp ab fuel node n bound pos :
  sub (mem w) root node → mem w !! node = Some (BlkNode n) →
  (1 ≤ pos ≤ 257)%nat → 0 <= bound <= 256 → (257 < pos + fuel)%nat →
  wp ab (child_loop fuel node bound pos) w (λ r w', w' = w ∧ (pos ≤ r.1 ≤ 257)%nat ∧
    same_rest M (cursor (nkey n) pos) (cursor (nkey n) r.1) ∧
    if r.2 =? 0 then bound < Z.of_nat r.1
    else Z.of_nat r.1 <= bound ∧ n_child n !! (r.1 - 1)%nat = Some r.2).
Proof.
  intros Hr Hn. revert pos. induction fuel as [|fuel IH]; intros pos Hpos Hb Hf; [lia|].
  cbn [child_loop]. destruct (Z.leb_spec (Z.of_nat pos) bound) as [Hle|Hgt].
  2: { wp_step. simpl. split_and!; [done|lia..|done|done]. }
  pose proof (reach_shape _ _ Hwf node n Hr Hn) as (_ & _ & Hl & _).
  destruct (lookup_lt_is_Some_2 (n_child n) (pos - 1)) as [q Hq]; [lia|].
  wp_step. wp_step; [by apply (exec_LoadChild _ _ _ _ _ Hn)|].
  destruct (Z.eqb_spec q 0) as [->|Hq0].
  - eapply wp_mono; [apply IH; lia|]. intros [pos' q'] w' (-> & Hp' & Hs & Hc). simpl in *.
    split_and!; [done|lia..| |done]. etrans; [|exact Hs].
    replace pos with (S (pos - 1)) at 1 by lia. rewrite Nat.add_1_r.
    replace (S pos) with (S (S (pos - 1))) by lia. by eapply rest_null.
  - wp_step. simpl. rewrite (proj2 (Z.eqb_neq _ _) Hq0). split_and!; [done|lia..|done|lia|done].
Qed.

(** ** The range *)

Definition in_end it k : Prop :=
  end_key_open it = true ∨ lex_lt k (end_key it) ∨ end_key_inclusive it = true ∧ k = end_key it.

(** A key beyond the end that starts with it, without being it. *)
Definition overshoot it k : Prop :=
  end_key_open it = false ∧ end_key it `prefix_of` k ∧ end_key it ≠ k.

Definition valid_key k t : Prop := M !! k = Some t ∧ IsValid t = true.

Definition none_left it c : Prop := ∀ k t, valid_key k t → lex_le c k → ¬ in_end it k.

Definition same_range it it' : Prop :=
  end_key it' = end_key it ∧ end_key_inclusive it' = end_key_inclusive it ∧
  end_key_open it' = end_key_open it.

Definition iter_at it c : Prop :=
  it_node it = 0 ∧ none_left it c ∨
  ∃ n, stands (it_node it) (next_pos it) (it_path it) c n.

(** What [next_value] returns at cursor [c]: the first key with a value, which
    is in the range or overshoots it, or [false] when none is left. *)
Definition next_post it c (r : bool * Iter) : Prop :=
  if r.1 then
    let k := it_key r.2 in
    valid_key k (it_value r.2) ∧ lex_le c k ∧
    (∀ k' t', valid_key k' t' → lex_le c k' → lex_le k k') ∧
    (in_end it k ∨ overshoot it k) ∧
    same_range it r.2 ∧ iter_at r.2 (cursor k 1)
  else none_left it c.

Lemma none_left_rest it c c' : same_rest M c c' → none_left it c' → none_left it c.
Proof. intros Hs Hn k t Hk Hc. apply (Hn k t Hk). apply (Hs k); [by eexists; apply Hk|done]. Qed.

(** The sign of the comparison of the end key with a node's prefix. *)
Lemma cmp_end_spec it n :
  node_shape n →
  let e := end_key it in
  let r := cmp_end it (n_key n) (n_prefix n) in
  (r < 0 → end_key_open it = false ∧ lex_lt e (nkey n) ∧ ∀ l, lex_lt e (nkey n ++ l)) ∧
  (0 < r → ∀ l, in_end it (nkey n ++ l)) ∧
  (r = 0 → end_key_open it = false ∧
    if (n_prefix n <=? length e)%nat then nkey n `prefix_of` e else e `prefix_of` nkey n).
Proof.
  intros Hsh e r. subst r. unfold cmp_end. fold e. destruct (end_key_open it) eqn:Eo.
  { split_and!; try lia. intros _ l. by left. }
  pose proof (cmp_prefix_zero e n Hsh) as Hz. pose proof (prefix_cases e n Hsh) as Hpc.
  unfold cmp_prefix in *. set (x := Nat.min (n_prefix n) (length e)) in *.
  assert (take x (n_key n) = take x (nkey n)) as Hx.
  { unfold nkey. rewrite take_take. f_equal. lia. }
  pose proof (nkey_length n Hsh) as Hl.
  assert (length (take x e) = length (take x (nkey n))) as Hlen.
  { rewrite !length_take. lia. }
  assert (∀ l, nkey n ++ l = take x (nkey n) ++ (drop x (nkey n) ++ l)) as Hsplit.
  { intros l. by rewrite (assoc_L (++)), take_drop. }
  rewrite Hx in *. pose proof (memcmp_spec _ _ Hlen) as Hm.
  split_and!; intros Hr.
  - assert (∀ l, lex_lt e (nkey n ++ l)) as Hall.
    { intros l. rewrite Hsplit, <-(take_drop x e) at 1. apply lex_lt_app_both; [done|].
      unfold lex_lt. revert Hm. destruct (lex_cmp _ _); [lia|done|lia]. }
    split_and!; [done| |done]. rewrite <-(app_nil_r (nkey n)). apply Hall.
  - intros l. right. left. fold e. rewrite Hsplit, <-(take_drop x e) at 1.
    apply lex_lt_app_both; [done|]. unfold lex_lt. rewrite lex_cmp_antisym.
    revert Hm. destruct (lex_cmp _ _); [lia|lia|done].
  - split; [done|]. by apply Hpc, Hz.
Qed.

(** ** How long [next_value] runs *)

(** The keys still to come. *)
Definition ahead c : nat := size (filter (λ kt : bytes * TagGptr, lex_le c kt.1) M).

Lemma ahead_rest c c' : same_rest M c c' → ahead c = ahead c'.
Proof.
  intros Hs. unfold ahead. f_equal. apply map_filter_ext. intros k t Hk. simpl.
  apply Hs. by eexists.
Qed.

Lemma ahead_drop k : is_Some (M !! k) → (ahead (cursor k 1) < ahead k)%nat.
Proof.
  intros [t Hk]. unfold ahead. apply map_subset_size, strict_spec. split.
  - apply map_filter_subseteq_ext. intros k' t' _ H. simpl in *.
    eapply lex_le_trans; [|exact H]. apply lex_lt_le, lex_lt_prefix.
  - intros Hsub. eapply (map_subseteq_spec _ _) in Hsub.
    2: apply map_lookup_filter_Some_2; [exact Hk|apply lex_le_refl].
    apply map_lookup_filter_Some in Hsub as [_ Hle]. simpl in Hle.
    destruct (lex_lt_irrefl k). eapply lex_lt_le_trans; [apply lex_lt_prefix|exact Hle].
Qed.

(** Between two keys, an iterator goes up the path and down again. *)
Definition slack (pos : nat) (path : list (Gptr * nat)) : nat :=
  match pos with
  | O => 0
  | _ => if (pos =? 257)%nat then 2 * length path + 1 else 2 * length path + 2
  end.

(** The path is no longer than the prefix. *)
Lemma path_length node path n :
  path_ok (mem w) root node path → mem w !! node = Some (BlkNode n) →
  (length path ≤ n_prefix n)%nat.
Proof.
  revert node n. induction path as [|[p i] path IH]; intros node n; simpl; [lia|].
  intros (Hp & H0 & np & Hnp & Hi) Hn. specialize (IH p np Hp Hnp).
  assert (n_prefix np < n_prefix n)%nat; [|lia].
  eapply (child_deeper _ _ Hwf p); eauto using path_reach.
Qed.

Definition round : nat := 2 * MAX_KEY_LEN + 3.

Definition enough (fuel pos : nat) (path : list (Gptr * nat)) c : Prop :=
  (round * ahead c + slack pos path < fuel)%nat.

Definition same_valid c c' : Prop := ∀ k t, valid_key k t → lex_le c k ↔ lex_le c' k.

Lemma same_rest_valid c c' : same_rest M c c' → same_valid c c'.
Proof. intros H k t [Hk _]. apply H. by eexists. Qed.

Lemma next_post_valid it c c' r : same_valid c c' → next_post it c' r → next_post it c r.
Proof.
  intros Hs. unfold next_post. destruct r.1.
  - intros (Hv & Hc & Hmin & Hrest). split_and!; try apply Hrest; [done|by eapply Hs|].
    intros k' t' Hk' Hc'. eapply Hmin; [done|]. by eapply Hs.
  - intros Hn k t Hk Hc. eapply Hn; [done|]. by eapply Hs.
Qed.

Lemma next_post_range it it' c r : same_range it it' → next_post it' c r → next_post it c r.
Proof.
  intros (E1 & E2 & E3). unfold next_post, none_left, in_end, overshoot, same_range.
  destruct r.1; rewrite E1, E2, E3; done.
Qed.

Lemma stands_ge node pos path c n k t :
  stands node pos path c n → valid_key k t → lex_le c k → lex_le (nkey n) k.
Proof.
  intros Hs [Hk _] Hc. apply (st_rest _ _ _ _ _ Hs) in Hc; [|by eexists].
  destruct pos; [done|]. eapply lex_le_trans; [|exact Hc]. apply lex_prefix_le. by eexists.
Qed.

(** The value of the node the iterator is at. *)
Lemma found_post it node path c n :
  stands node 0 path c n → IsValid (n_value n) = true →
  in_end it (nkey n) ∨ overshoot it (nkey n) →
  next_post it c (true, with_result (nkey n) (n_value n) (at_pos node 1 path it)).
Proof.
  intros Hs Hv Hin. pose proof (stands_reach _ _ _ _ _ Hs) as Hr.
  assert (valid_key (nkey n) (n_value n)) as Hval.
  { split; [|done]. eapply (node_in_map _ _ _ HM); [exact Hr|apply Hs]. }
  unfold next_post. simpl. split_and!; [done| | |done|done|].
  - apply (st_rest _ _ _ _ _ Hs); [eexists; apply Hval|apply lex_le_refl].
  - intros k' t' Hk' Hc'. by eapply stands_ge.
  - right. exists n. simpl. split; [apply Hs|lia|apply Hs|done].
Qed.

(** Past a value that is not valid, the iterator is at the first child. *)
Lemma skip_value node path c n fuel :
  stands node 0 path c n → IsValid (n_value n) = false → enough (S fuel) 0 path c →
  let c' := cursor (nkey n) 1 in
  stands node 1 path c' n ∧ enough (S fuel) 1 path c' ∧ same_valid c c'.
Proof.
  intros Hs Hv He c'. pose proof (stands_reach _ _ _ _ _ Hs) as Hr.
  pose proof (node_in_map _ _ _ HM _ _ Hr (st_node _ _ _ _ _ Hs)) as Hk.
  split_and!.
  - split; [apply Hs|lia|apply Hs|done].
  - pose proof (ahead_drop (nkey n) ltac:(by eexists)) as Hd. unfold enough in *.
    rewrite (ahead_rest _ _ (st_rest _ _ _ _ _ Hs)) in He. cbn [cursor] in He.
    pose proof (path_length _ _ _ (st_path _ _ _ _ _ Hs) (st_node _ _ _ _ _ Hs)) as Hl.
    destruct (stands_shape _ _ _ _ _ Hs) as (_ & Hp & _).
    fold c' in Hd. unfold round in *. change MAX_KEY_LEN with 128%nat in *.
    cbn [slack Nat.eqb] in *. lia.
  - intros k t [Hkt Hvt]. unfold c'.
    rewrite (proj2 (rest_first _ _ _ HM (nkey n)) k ltac:(by eexists)).
    rewrite (st_rest _ _ _ _ _ Hs k ltac:(by eexists)). simpl.
    rewrite lex_le_lt_eq. split; [|by left]. intros [|<-]; [done|congruence].
Qed.

(** [visit_value]: return at the node's value, or go on from [c']. *)
Definition visited it node pos path c n fuel (r : option Iter * Iter) : Prop :=
  match r.1 with
  | Some it' => pos = 0%nat ∧ IsValid (n_value n) = true ∧
      it' = with_result (nkey n) (n_value n) (at_pos node 1 path it)
  | None => ∃ pos' c', r.2 = at_pos node pos' path it ∧ (1 ≤ pos' ≤ 256)%nat ∧
      stands node pos' path c' n ∧ enough (S fuel) pos' path c' ∧ same_valid c c'
  end.

Lemma visit_value_wp ab it node pos path c n fuel :
  stands node pos path c n → (pos ≤ 256)%nat → enough (S fuel) pos path c →
  wp ab (visit_value (n_key n) (n_prefix n) (at_pos node pos path it)) w (λ r w',
    w' = w ∧ visited it node pos path c n fuel r).
Proof.
  intros Hs Hpos He. unfold visit_value. cbn [next_pos it_node at_pos].
  destruct (Nat.eqb_spec pos 0) as [->|Hne].
  - wp_step. wp_step; [apply exec_LoadValue, Hs|].
    destruct (IsValid (n_value n)) eqn:Ev; wp_step; (split; [done|]); [by split_and!|].
    destruct (skip_value _ _ _ _ _ Hs Ev He) as (? & ? & ?).
    exists 1%nat, (cursor (nkey n) 1). split_and!; [done|lia..|done|done|done].
  - wp_step. split; [done|]. exists pos, c. split_and!; [done|lia..|done|done|].
    by apply same_rest_valid.
Qed.

(** From position [pos] on to a child, or to the end of the node. *)
Lemma child_step node pos path c n fuel pos' q :
  stands node pos path c n → (1 ≤ pos ≤ 256)%nat → enough (S fuel) pos path c →
  same_rest M (cursor (nkey n) pos) (cursor (nkey n) pos') →
  (q ≠ 0 → (1 ≤ pos' ≤ 256)%nat → n_child n !! (pos' - 1)%nat = Some q →
    ∃ nq, stands q 0 ((node, (pos' - 1)%nat) :: path) c nq ∧
      enough fuel 0 ((node, (pos' - 1)%nat) :: path) c) ∧
  (pos' = 257%nat → stands node pos' path c n ∧ enough fuel pos' path c).
Proof.
  intros Hs Hpos He Hr. pose proof (stands_reach _ _ _ _ _ Hs) as Hre.
  assert (slack pos path = 2 * length path + 2)%nat as Hsl.
  { unfold slack. destruct pos; [lia|]. by rewrite (proj2 (Nat.eqb_neq _ _)) by lia. }
  assert (same_rest M c (cursor (nkey n) pos')) as Hc by (etrans; [apply Hs|done]).
  unfold enough in *. split.
  - intros Hq Hp' Hi.
    destruct (reach_child _ _ Hwf node n _ q Hre (st_node _ _ _ _ _ Hs) Hi Hq) as (_ & nq & Hnq & _).
    exists nq. split; [|cbn [slack]; lia]. split; [|lia|done|].
    + simpl. split_and!; [apply Hs|done|]. exists n. split; [apply Hs|done].
    + etrans; [exact Hc|]. replace pos' with (S (pos' - 1)) at 1 by lia.
      eapply (rest_down _ _ _ HM node); eauto. apply Hs.
  - intros ->. split; [|cbn [slack Nat.eqb]; lia]. split; [apply Hs|lia|apply Hs|done].
Qed.

(** The keys of the end key's bytes are 7-bit, or the end is open. *)
Definition end_ok it : Prop :=
  end_key_open it = true ∨ Forall (λ b, 0 <= b < 128) (end_key it).

(** ** What the end key excludes *)

Lemma none_past it node pos path c n :
  stands node pos path c n → end_key_open it = false →
  lex_lt (end_key it) (nkey n) → none_left it c.
Proof.
  intros Hs Ho He k t Hk Hc [?|[Hlt|[_ ->]]]; [congruence|..].
  - apply (lex_lt_irrefl k). eapply lex_lt_trans; [exact Hlt|].
    eapply lex_lt_le_trans; [exact He|]. by eapply stands_ge.
  - apply (lex_lt_irrefl (end_key it)). eapply lex_lt_le_trans; [exact He|]. by eapply stands_ge.
Qed.

Lemma proper_prefix_lt (p e : bytes) : p `prefix_of` e → length p ≠ length e → lex_lt p e.
Proof.
  intros [l ->] Hl. destruct l as [|x l]; [rewrite app_nil_r in Hl; lia|apply lex_lt_prefix].
Qed.

(** The end key's byte below a node whose key it extends. *)
Lemma end_byte it n :
  node_shape n → nkey n `prefix_of` end_key it → n_prefix n ≠ length (end_key it) →
  Forall (λ b, 0 <= b < 128) (end_key it) →
  let b := nth (Nat.min (n_prefix n) (length (end_key it))) (end_key it) 0 in
  0 <= b < 128 ∧ u64 (char_to_u64 b + 1) = b + 1 ∧
  ∃ l, end_key it = nkey n ++ b :: l.
Proof.
  intros Hsh [l Hl] Hne Hb b. pose proof (nkey_length n Hsh) as Hk.
  destruct l as [|b' l].
  { rewrite app_nil_r in Hl. rewrite Hl in Hne. lia. }
  assert (b = b') as ->.
  { unfold b. rewrite Hl, length_app, Nat.min_l by lia. rewrite <-Hk. by apply nth_middle. }
  rewrite Hl in Hb. apply Forall_app in Hb as [_ Hb]. inversion Hb as [|? ? Hb']; subst.
  split_and!; [lia..| |by exists l]. unfold char_to_u64. rewrite (proj2 (Z.ltb_lt _ _)) by lia.
  apply u64_small. unfold two64. lia.
Qed.

Lemma none_past_child it node pos path c n b l (pos' : nat) :
  stands node pos path c n → end_key_open it = false → end_key it = nkey n ++ b :: l →
  same_rest M (cursor (nkey n) pos) (cursor (nkey n) pos') →
  0 <= b → b + 1 < Z.of_nat pos' → none_left it c.
Proof.
  intros Hs Ho He Hr Hb0 Hb k t Hk Hc.
  assert (lex_lt (end_key it) k) as Hlt.
  { apply (st_rest _ _ _ _ _ Hs), Hr in Hc; [|by eexists; apply Hk..].
    destruct pos' as [|i]; [lia|]. eapply lex_lt_le_trans; [|exact Hc]. rewrite He.
    apply lex_lt_branch. lia. }
  intros [?|[Hlt'|[_ ->]]]; [congruence| |by apply lex_lt_irrefl in Hlt].
  by destruct (lex_lt_irrefl k); eapply lex_lt_trans.
Qed.

(** The end key's own node. *)
Lemma visit_end_wp ab it node pos path c n :
  stands node pos path c n → end_key_open it = false → nkey n = end_key it →
  wp ab (visit_end (n_key n) (n_prefix n) (at_pos node pos path it)) w (λ r w',
    w' = w ∧ next_post it c r).
Proof.
  intros Hs Ho Hk. unfold visit_end. cbn [end_key_inclusive next_pos it_node it_path at_pos].
  assert (end_key_inclusive it = false ∨ pos ≠ 0%nat ∨ IsValid (n_value n) = false →
    none_left it c) as Hnone.
  { intros Hcase k t Hkt Hc. pose proof (stands_ge _ _ _ _ _ _ _ Hs Hkt Hc) as Hge.
    rewrite Hk in Hge. intros [?|[Hlt|[Hi ->]]]; [congruence|..].
    { by destruct (lex_lt_irrefl k); eapply lex_lt_le_trans. }
    destruct Hcase as [?|[Hp|Hv]]; [congruence|..].
    - apply (st_rest _ _ _ _ _ Hs) in Hc; [|by eexists; apply Hkt].
      destruct pos as [|i]; [done|]. rewrite Hk in Hc.
      destruct (lex_lt_irrefl (end_key it)).
      eapply lex_lt_le_trans; [apply lex_lt_prefix|exact Hc].
    - destruct Hkt as [Hkt Hv']. rewrite <-Hk in Hkt.
      rewrite (node_in_map _ _ _ HM node n) in Hkt; [congruence| |apply Hs].
      by eapply stands_reach. }
  destruct (end_key_inclusive it) eqn:Ei; [|wp_step; split; [done|apply Hnone; auto]].
  wp_step. wp_step; [apply exec_LoadValue, Hs|].
  destruct (Nat.eqb_spec pos 0) as [->|Hp]; [|cbn [andb]; wp_step; split; [done|apply Hnone; auto]].
  destruct (IsValid (n_value n)) eqn:Ev; cbn [andb]; wp_step; (split; [done|]); [|apply Hnone; auto].
  destruct (found_post it node path c n Hs Ev) as (H1 & H2 & H3 & H4 & H5 & _).
  { left. right. right. by rewrite Hk. }
  unfold next_post. cbn [fst snd it_key it_value with_result] in *.
  split; [done|]. split; [done|]. split; [done|]. split; [done|]. split; [done|].
  left. split; [done|].
  intros k t Hkt Hc. simpl in Hc. fold (nkey n) in Hc. rewrite Hk in Hc.
  assert (lex_lt (end_key it) k) as Hlt.
  { eapply lex_lt_le_trans; [apply lex_lt_prefix|exact Hc]. }
  intros [?|[Hlt'|[_ ->]]]; simpl in *; [congruence| |by apply lex_lt_irrefl in Hlt].
  by destruct (lex_lt_irrefl k); eapply lex_lt_trans.
Qed.

(** ** next_value *)

(** The iterator from which the next round goes on. *)
Definition goes_on it c (fuel : nat) it' : Prop :=
  same_range it it' ∧ ∃ c' n, same_valid c c' ∧
    stands (it_node it') (next_pos it') (it_path it') c' n ∧
    enough fuel (next_pos it') (it_path it') c'.

Section Round.
Context (ab : Prop) (K : Iter → prog (bool * Iter)) (it : Iter) (fuel : nat).
Context (node : Gptr) (pos : nat) (path : list (Gptr * nat)) (c : bytes) (n : Node).
Context (Hs : stands node pos path c n) (Hpos : (pos ≤ 256)%nat) (He : enough (S fuel) pos path c).
Context (HK : ∀ it', goes_on it c fuel it' →
  wp ab (K it') w (λ r w', w' = w ∧ next_post it c r)).

Let Hsh : node_shape n := stands_shape _ _ _ _ _ Hs.

Lemma go_on_child pos' c' pos'' q :
  same_valid c c' → stands node pos' path c' n → (1 ≤ pos' ≤ 256)%nat →
  enough (S fuel) pos' path c' →
  same_rest M (cursor (nkey n) pos') (cursor (nkey n) pos'') →
  q ≠ 0 → (1 ≤ pos'' ≤ 256)%nat → n_child n !! (pos'' - 1)%nat = Some q →
  wp ab (K (go_down (pos'' - 1) q (at_pos node pos' path it))) w (λ r w',
    w' = w ∧ next_post it c r).
Proof.
  intros Hv Hs' Hp' He' Hr Hq Hp'' Hi. apply HK. split; [done|].
  destruct (child_step _ _ _ _ _ _ pos'' q Hs' Hp' He' Hr) as [(nq & ? & ?) _]; auto.
  by exists c', nq.
Qed.

(** Everything below the node is before the end. *)
Lemma inside_wp :
  (∀ l, in_end it (nkey n ++ l)) →
  wp ab ('(found, it) ← visit_value (n_key n) (n_prefix n) (at_pos node pos path it);
    match found with
    | Some it => Ret (true, it)
    | None =>
        '(pos, q) ← child_loop 258 node 256 (next_pos it);
        if q =? 0 then K (move_pos pos it) else K (go_down (pos - 1) q it)
    end) w (λ r w', w' = w ∧ next_post it c r).
Proof.
  intros Hin. wp_step. eapply wp_mono; [by apply (visit_value_wp ab it node pos path c n fuel)|].
  intros [[it'|] it1] w' [-> Hv]; unfold visited in Hv; cbn [fst snd] in Hv.
  - destruct Hv as (-> & Hv & ->). wp_step. split; [done|].
    apply found_post; auto. left. rewrite <-(app_nil_r (nkey n)). apply Hin.
  - destruct Hv as (pos' & c' & -> & Hp' & Hs' & He' & Hsv). wp_step. cbn [next_pos at_pos].
    eapply wp_mono; [apply (child_loop_wp ab 258 node n 256 pos'); try lia|].
    { by eapply stands_reach. }
    { apply Hs. }
    intros [pos'' q] w' (-> & Hp'' & Hr & Hq). cbn [fst snd] in *. revert Hq.
    destruct (Z.eqb_spec q 0) as [->|Hq0]; intros Hq.
    + apply HK. split; [done|]. assert (pos'' = 257%nat) as -> by lia.
      destruct (child_step _ _ _ _ _ _ 257%nat 0 Hs' Hp' He' Hr) as [_ Hup].
      exists c', n. split; [done|]. by apply Hup.
    + destruct Hq. apply go_on_child with c'; auto; lia.
Qed.

(** The end key goes through the node, or ends inside its prefix. *)
Lemma through_wp :
  end_ok it → end_key_open it = false → n_prefix n ≠ length (end_key it) →
  (if (n_prefix n <=? length (end_key it))%nat then nkey n `prefix_of` end_key it
   else end_key it `prefix_of` nkey n) →
  let key_size := length (end_key it) in
  wp ab ('(found, it) ← visit_value (n_key n) (n_prefix n) (at_pos node pos path it);
    match found with
    | Some it => Ret (true, it)
    | None =>
        if (key_size <? n_prefix n)%nat then Ret (false, it)
        else
          let upper_bound := char_to_u64 (nth (Nat.min (n_prefix n) key_size) (end_key it) 0) in
          '(pos, q) ← child_loop 258 node (u64 (upper_bound + 1)) (next_pos it);
          let it := if q =? 0 then move_pos pos it else go_down (pos - 1) q it in
          if u64 (upper_bound + 1) <? Z.of_nat (next_pos it) then
            Ret (false, at_pos 0 (next_pos it) (it_path it) it)
          else K it
    end) w (λ r w', w' = w ∧ next_post it c r).
Proof.
  intros Hok Ho Hne Hpre key_size. pose proof (nkey_length n Hsh) as Hl. unfold key_size. wp_step.
  eapply wp_mono; [by apply (visit_value_wp ab it node pos path c n fuel)|].
  intros [[it'|] it1] w' [-> Hv]; unfold visited in Hv; cbn [fst snd] in Hv.
  - destruct Hv as (-> & Hv & ->). wp_step. split; [done|].
    apply found_post; auto. destruct (n_prefix n <=? length (end_key it))%nat.
    + left. right. left. apply proper_prefix_lt; [done|lia].
    + right. split_and!; [done..|]. intros E. rewrite <-Hl, E in Hne. lia.
  - destruct Hv as (pos' & c' & -> & Hp' & Hs' & He' & Hsv). cbn [end_key at_pos].
    destruct (Nat.ltb_spec (length (end_key it)) (n_prefix n)) as [Hlt|Hge].
    { rewrite (proj2 (Nat.leb_gt _ _)) in Hpre by done. wp_step. split; [done|].
      eapply none_past; [exact Hs|done|]. apply proper_prefix_lt; [done|lia]. }
    rewrite (proj2 (Nat.leb_le _ _)) in Hpre by lia.
    destruct Hok as [|Hb]; [congruence|].
    destruct (end_byte it n Hsh Hpre Hne Hb) as (Hb0 & Hub & l & Hel).
    set (b := nth _ (end_key it) 0) in *. cbv zeta. rewrite Hub. wp_step. cbn [next_pos at_pos].
    eapply wp_mono; [apply (child_loop_wp ab 258 node n (b + 1) pos'); try lia|].
    { by eapply stands_reach. }
    { apply Hs. }
    intros [pos'' q] w' (-> & Hp'' & Hr & Hq). cbn [fst snd] in *. revert Hq.
    destruct (Z.eqb_spec q 0) as [->|Hq0]; intros Hq.
    + cbn [next_pos move_pos at_pos]. rewrite (proj2 (Z.ltb_lt _ _)) by done. wp_step.
      split; [done|]. eapply next_post_valid; [exact Hsv|].
      eapply none_past_child; [exact Hs'|done..|lia|done].
    + cbn [next_pos go_down at_pos]. rewrite (proj2 (Z.ltb_ge _ _)) by lia.
      destruct Hq. apply go_on_child with c'; auto; lia.
Qed.

End Round.

Lemma next_value_wp ab fuel it c n :
  end_ok it → stands (it_node it) (next_pos it) (it_path it) c n →
  enough fuel (next_pos it) (it_path it) c →
  wp ab (next_value fuel it) w (λ r w', w' = w ∧ next_post it c r).
Proof.
  revert it c n. induction fuel as [|fuel IH]; intros it c n Hok Hs He.
  { unfold enough in He. lia. }
  cbn [next_value].
  rewrite (proj2 (Z.eqb_neq _ _) (reach_nonnull _ _ Hwf _ (stands_reach _ _ _ _ _ Hs))).
  pose proof (pop_up_spec _ _ _ _ _ Hs) as Hpop.
  destruct (pop_up (it_node it) (next_pos it) (it_path it)) as [[] [[node pos] path]]; cbn [negb].
  2: { wp_step. split; [done|]. intros k t [Hk _] Hc. by destruct (Hpop k ltac:(by eexists)). }
  destruct Hpop as (Hpos & [n' Hs'] & Hmove).
  assert (enough (S fuel) pos path c) as He'.
  { unfold enough in *. destruct (Nat.eqb_spec (next_pos it) 257) as [E|].
    - rewrite E in He. cbn [slack Nat.eqb] in He. unfold slack. repeat case_match; lia.
    - by destruct Hmove as (_ & -> & ->). }
  clear Hs He n Hmove. rename n' into n, Hs' into Hs, He' into He.
  assert (∀ it', goes_on it c fuel it' →
    wp ab (next_value fuel it') w (λ r w', w' = w ∧ next_post it c r)) as Hgo.
  { intros it' (Hsr & c' & n' & Hv & Hs' & He'). eapply wp_mono; [eapply IH; eauto|].
    - destruct Hsr as (E1 & _ & E3). unfold end_ok. by rewrite E1, E3.
    - intros r w' [-> Hp]. split; [done|]. eapply next_post_valid; [done|].
      by eapply next_post_range. }
  wp_step. wp_step; [apply exec_LoadHdr, Hs|]. cbv beta iota zeta.
  destruct (cmp_end_spec it n (stands_shape _ _ _ _ _ Hs)) as (Hlt & Hgt & Heq).
  change (cmp_end (at_pos node pos path it)) with (cmp_end it).
  set (r := cmp_end it (n_key n) (n_prefix n)) in *.
  destruct (Z.ltb_spec r 0) as [Hr|Hr].
  { wp_step. split; [done|]. destruct (Hlt Hr) as (Ho & He1 & _).
    by apply (none_past it node pos path c n). }
  destruct (Z.ltb_spec 0 r) as [Hr'|Hr'].
  { by apply (inside_wp ab (next_value fuel) it fuel); [..|apply Hgt]. }
  destruct Heq as [Ho Hpre]; [lia|].
  destruct (Nat.eqb_spec (n_prefix n) (length (end_key (at_pos node pos path it)))) as [E|E].
  - apply (visit_end_wp ab it node pos path c n); auto. cbn [end_key at_pos] in E.
    rewrite (proj2 (Nat.leb_le _ _)) in Hpre by lia. apply prefix_length_eq_l; [done|].
    rewrite nkey_length; [lia|by eapply stands_shape].
  - by apply (through_wp ab (next_value fuel) it fuel).
Qed.

(** ** Enough fuel for any position *)

Definition scan_fuel (nfuel : nat) : Prop := (round * S (size M) ≤ nfuel)%nat.

Lemma ahead_size c : (ahead c ≤ size M)%nat.
Proof. apply map_subseteq_size, map_filter_subseteq. Qed.

Lemma scan_fuel_enough nfuel node pos path c n :
  scan_fuel nfuel → stands node pos path c n → enough nfuel pos path c.
Proof.
  intros Hf Hs. pose proof (ahead_size c) as Ha. unfold enough, scan_fuel in *.
  pose proof (path_length _ _ _ (st_path _ _ _ _ _ Hs) (st_node _ _ _ _ _ Hs)) as Hl.
  destruct (stands_shape _ _ _ _ _ Hs) as (_ & Hp & _).
  unfold round in *. change MAX_KEY_LEN with 128%nat in *.
  unfold slack. repeat case_match; nia.
Qed.

Lemma next_iter_wp ab nfuel it c :
  end_ok it → scan_fuel nfuel → iter_at it c →
  wp ab (next_value nfuel it) w (λ r w', w' = w ∧ next_post it c r).
Proof.
  intros Hok Hf [[H0 Hn]|[n Hs]].
  - destruct nfuel as [|f]; [unfold scan_fuel, round in Hf; lia|]. cbn [next_value].
    rewrite H0. cbn [Z.eqb]. by wp_step.
  - by eapply next_value_wp, scan_fuel_enough.
Qed.

(** ** lower_bound *)

(** Where the range begins. *)
Definition begin_cursor it : bytes :=
  if begin_key_open it then [] else
  if begin_key_inclusive it then begin_key it else cursor (begin_key it) 1.

(** [pre] starts both keys, and every key of the tree it starts is below [n]. *)
Definition covers (pre bk : bytes) (n : Node) : Prop :=
  pre `prefix_of` bk ∧ pre `prefix_of` nkey n ∧
  ∀ k, is_Some (M !! k) → pre `prefix_of` k → nkey n `prefix_of` k.

Lemma outside pre a k : pre `prefix_of` a → ¬ pre `prefix_of` k → lex_le a k ↔ lex_above pre k.
Proof.
  intros [l ->] Hk. split.
  - intros H. split; [|done]. assert (lex_le pre k) as [|E]%lex_le_lt_eq; [|done|].
    + eapply lex_le_trans; [|exact H]. apply lex_prefix_le. by eexists.
    + by rewrite E in Hk.
  - intros H. by apply lex_lt_le, lex_above_app.
Qed.

(** Compare cursors inside the subtree only. *)
Lemma covers_rest pre bk n c :
  covers pre bk n → pre `prefix_of` c →
  (∀ k, is_Some (M !! k) → nkey n `prefix_of` k → lex_le bk k ↔ lex_le c k) →
  same_rest M bk c.
Proof.
  intros (H1 & H2 & H3) Hc Hin k Hk. destruct (decide (pre `prefix_of` k)) as [Hp|Hp].
  - by apply Hin, H3.
  - by rewrite !(outside pre).
Qed.

Lemma covers_absent pre bk n :
  covers pre bk n → ¬ nkey n `prefix_of` bk → M !! bk = None.
Proof.
  intros (H1 & _ & H3) Hn. destruct (M !! bk) eqn:E; [|done]. destruct Hn.
  apply H3; [by eexists|done].
Qed.

Lemma begin_cursor_absent it c :
  begin_key_open it = false → M !! begin_key it = None →
  same_rest M (begin_key it) c → same_rest M (begin_cursor it) c.
Proof.
  intros Ho Hn Hs. unfold begin_cursor. rewrite Ho. destruct (begin_key_inclusive it); [done|].
  etrans; [|exact Hs]. intros k Hk. rewrite (proj2 (rest_first _ _ _ HM _) k Hk).
  rewrite lex_le_lt_eq. split; [by left|]. intros [|<-]; [done|]. by rewrite Hn in Hk; destruct Hk.
Qed.

(** The comparison of the begin key with a node's prefix. *)
Lemma cmp_begin_spec (bk : bytes) n :
  node_shape n →
  let r := cmp_prefix bk (n_key n) (n_prefix n) in
  (r < 0 → ¬ nkey n `prefix_of` bk ∧ ∀ l, lex_lt bk (nkey n ++ l)) ∧
  (0 < r → ¬ nkey n `prefix_of` bk ∧ ∀ l, lex_lt (nkey n ++ l) bk).
Proof.
  intros Hsh r. set (it := mkIter [] false false bk false false 0 0 [] TagGptr_null []).
  destruct (cmp_end_spec it n Hsh) as (Hlt & Hgt & _).
  unfold cmp_end in *. simpl in *. fold r in Hlt, Hgt. split.
  - intros Hr. destruct (Hlt Hr) as (_ & H & Hall). split; [|done].
    intros Hp%lex_prefix_le. by destruct (lex_lt_irrefl bk); eapply lex_lt_le_trans.
  - intros Hr. assert (∀ l, lex_lt (nkey n ++ l) bk) as Hall.
    { intros l. destruct (Hgt Hr l) as [|[|[? _]]]; done. }
    split; [|done]. intros [l Hl]. specialize (Hall l). rewrite <-Hl in Hall.
    by apply lex_lt_irrefl in Hall.
Qed.

Section Lower.
Context (ab : Prop) (nfuel : nat) (Hf : scan_fuel nfuel).

Lemma start_wp it pos path n :
  end_ok it → path_ok (mem w) root (it_node it) (it_path it) →
  mem w !! it_node it = Some (BlkNode n) → (pos ≤ 257)%nat →
  same_rest M (begin_cursor it) (cursor (nkey n) pos) →
  path = it_path it →
  wp ab (next_value nfuel (at_pos (it_node it) pos path it)) w (λ r w',
    w' = w ∧ next_post it (begin_cursor it) r).
Proof.
  intros Hok Hp Hn Hpos Hs ->.
  apply (next_iter_wp ab nfuel (move_pos pos it) (begin_cursor it)); [done..|].
  right. exists n. by split.
Qed.

(** A begin key that leaves the node's prefix, or ends inside it. *)
Lemma leave_wp it pre n :
  end_ok it → begin_key_open it = false → path_ok (mem w) root (it_node it) (it_path it) →
  mem w !! it_node it = Some (BlkNode n) → covers pre (begin_key it) n →
  ¬ nkey n `prefix_of` begin_key it →
  ((∀ l, lex_lt (nkey n ++ l) (begin_key it)) →
    wp ab (next_value nfuel (move_pos 257 it)) w (λ r w',
      w' = w ∧ next_post it (begin_cursor it) r)) ∧
  ((∀ l, lex_lt (begin_key it) (nkey n ++ l)) →
    wp ab (next_value nfuel (at_pos (it_node it) 0 (it_path it) it)) w (λ r w',
      w' = w ∧ next_post it (begin_cursor it) r)).
Proof.
  intros Hok Ho Hp Hn Hcov Hnp. pose proof (covers_absent _ _ _ Hcov Hnp) as Habs.
  pose proof Hcov as (Hc1 & Hc2 & _).
  split; intros Hall; apply (start_wp it _ _ n); try done; try lia;
    apply begin_cursor_absent; try done;
    eapply covers_rest; try done.
  - cbn [cursor]. etrans; [exact Hc2|]. by eexists.
  - intros k Hk Hpk. split; intros H.
    + destruct Hpk as [l ->]. destruct (lex_lt_irrefl (begin_key it)).
      by eapply lex_le_lt_trans.
    + apply (rest_above _ _ _ HM) in H; [|done]. by destruct (proj2 H).
  - intros k Hk [l ->]. cbn [cursor]. split; intros _; [apply lex_prefix_le; by eexists|].
    by apply lex_lt_le.
Qed.

(** The child on the begin key's path. *)
Lemma down_covers it n i (q : Gptr) nc pre b l :
  sub (mem w) root (it_node it) → mem w !! it_node it = Some (BlkNode n) →
  covers pre (begin_key it) n → begin_key it = nkey n ++ b :: l → Z.of_nat i = b →
  n_child n !! i = Some q → q ≠ 0 → mem w !! q = Some (BlkNode nc) →
  covers (nkey n ++ [b]) (begin_key it) nc.
Proof.
  intros Hr Hn Hcov Hbk <- Hi Hq Hnc.
  destruct (reach_child _ _ Hwf _ _ _ _ Hr Hn Hi Hq) as (_ & nc' & ? & Hpre). simplify_eq.
  split_and!; [rewrite Hbk; exists l; by rewrite <-(assoc_L (++))|done|].
  intros k Hk Hpk. by eapply (key_below _ _ _ HM).
Qed.

Lemma null_child_rest n node i b l :
  sub (mem w) root node → mem w !! node = Some (BlkNode n) → n_child n !! i = Some 0 →
  Z.of_nat i = b → same_rest M (nkey n ++ b :: l) (cursor (nkey n) (i + 1)) ∧
  M !! (nkey n ++ b :: l) = None.
Proof.
  intros Hr Hn Hi <-. rewrite Nat.add_1_r. cbn [cursor].
  assert (∀ k, is_Some (M !! k) → ¬ nkey n ++ [Z.of_nat i] `prefix_of` k) as Hno.
  { intros k Hk Hp. by destruct (key_below _ _ _ HM node n i 0 k). }
  assert (nkey n ++ [Z.of_nat i] `prefix_of` nkey n ++ Z.of_nat i :: l) as Hp.
  { exists l. by rewrite <-(assoc_L (++)). }
  split.
  - intros k Hk. by rewrite !(outside (nkey n ++ [Z.of_nat i])) by auto.
  - destruct (M !! _) eqn:E; [|done]. by destruct (Hno (nkey n ++ Z.of_nat i :: l)).
Qed.

Lemma lower_bound_loop_wp fuel it pre n :
  end_ok it → byte_key (begin_key it) → next_pos it = 0%nat →
  path_ok (mem w) root (it_node it) (it_path it) → mem w !! it_node it = Some (BlkNode n) →
  covers pre (begin_key it) n → (begin_key_open it = true → it_node it = root) →
  deep_fuel (mem w) fuel (it_node it) →
  wp ab (lower_bound_loop fuel nfuel it) w (λ r w',
    w' = w ∧ next_post it (begin_cursor it) r).
Proof.
  revert it pre n. induction fuel as [|fuel IH]; intros it pre n Hok Hbk H0 Hp Hn Hcov Hopen Hdf;
    [destruct Hdf; lia|].
  pose proof (path_reach _ _ _ _ Hp) as Hr. pose proof (reach_nonnull _ _ Hwf _ Hr) as Hnn.
  pose proof (reach_shape _ _ Hwf _ _ Hr Hn) as Hsh. pose proof (nkey_length n Hsh) as Hl.
  cbn [lower_bound_loop]. rewrite (proj2 (Z.eqb_neq _ _) Hnn).
  wp_step. wp_step; [by apply exec_LoadHdr|]. cbv beta iota zeta.
  assert (it = at_pos (it_node it) 0 (it_path it) it) as Eit by (destruct it; simpl in *; by subst).
  destruct (begin_key_open it) eqn:Ho; cbn [Z.ltb Z.compare].
  { rewrite Eit at 1. apply (start_wp it _ _ n); auto; [lia|].
    rewrite Hopen in Hn by done. rewrite (root_nkey _ _ Hwf n Hn).
    unfold begin_cursor. by rewrite Ho. }
  destruct (cmp_begin_spec (begin_key it) n Hsh) as [Hlt Hgt].
  pose proof (cmp_prefix_zero (begin_key it) n Hsh) as Hz.
  pose proof (prefix_cases (begin_key it) n Hsh) as Hpc. cbv zeta in Hz, Hpc.
  set (r := cmp_prefix _ _ _) in *.
  destruct (Z.ltb_spec 0 r) as [Hr1|Hr1].
  { destruct (Hgt Hr1) as [Hnp Hall]. by apply (leave_wp it pre n). }
  destruct (Z.ltb_spec r 0) as [Hr2|Hr2].
  { destruct (Hlt Hr2) as [Hnp Hall]. rewrite Eit at 1. by apply (leave_wp it pre n). }
  assert (r = 0) as Hr0 by lia. specialize (Hpc (proj1 Hz Hr0)).
  destruct (Nat.eqb_spec (n_prefix n) (length (begin_key it))) as [E|E].
  { rewrite (proj2 (Nat.leb_le _ _)) in Hpc by lia.
    assert (nkey n = begin_key it) as Ek by (apply prefix_length_eq_l; [done|lia]).
    destruct (begin_key_inclusive it) eqn:Ei; [rewrite Eit at 1|];
      apply (start_wp it _ _ n); auto; try lia;
      unfold begin_cursor; by rewrite Ho, Ei, Ek. }
  destruct (Nat.ltb_spec (length (begin_key it)) (n_prefix n)) as [Hs|Hs].
  { rewrite (proj2 (Nat.leb_gt _ _)) in Hpc by lia. rewrite Eit at 1.
    apply (leave_wp it pre n); auto.
    - intros Hc%prefix_length. lia.
    - intros l. eapply lex_lt_le_trans; [apply proper_prefix_lt; [exact Hpc|lia]|].
      apply lex_prefix_le. by eexists. }
  rewrite (proj2 (Nat.leb_le _ _)) in Hpc by lia.
  destruct (child_exists n (begin_key it)) as (b & c & Hb & Hnth & Hc & Hbi); [done..|lia|].
  rewrite Nat.min_l, Hnth by lia.
  assert (∃ l, begin_key it = nkey n ++ b :: l) as [l Hbkl].
  { destruct Hpc as [l Hpc]. rewrite Hpc, lookup_app_r, Hl, Nat.sub_diag in Hb by lia.
    destruct l as [|b' l]; [done|]. injection Hb as ->. by exists l. }
  wp_step. wp_step; [by apply (exec_LoadChild _ _ _ _ _ Hn)|].
  destruct (Z.eqb_spec c 0) as [->|Hc0].
  - destruct (null_child_rest n (it_node it) (child_index b) b l) as [Hsr Habs]; auto.
    rewrite <-Hbkl in Hsr, Habs. apply lookup_lt_Some in Hc as Hclt.
    destruct Hsh as (_ & _ & Hcl & _).
    apply (start_wp it _ _ n); auto; [lia|]. by apply begin_cursor_absent.
  - destruct (reach_child _ _ Hwf _ _ _ _ Hr Hn Hc Hc0) as (_ & nc & Hnc & _).
    apply (IH (at_pos c (next_pos it) ((it_node it, child_index b) :: it_path it) it)
      (nkey n ++ [b]) nc); auto.
    + simpl. split_and!; [done..|]. by exists n.
    + eapply (down_covers it n (child_index b) c nc pre b l); eauto.
    + simpl. by rewrite Ho.
    + by eapply deep_fuel_child.
Qed.

End Lower.

Lemma root_covers bk n : mem w !! root = Some (BlkNode n) → covers [] bk n.
Proof.
  intros Hn. unfold covers. rewrite (root_nkey _ _ Hwf n Hn).
  split_and!; [apply prefix_nil|done|done].
Qed.

Lemma lower_bound_wp ab nfuel it :
  scan_fuel nfuel → end_ok it → byte_key (begin_key it) → it_key it = [] → it_path it = [] →
  wp ab (lower_bound nfuel root it) w (λ r w',
    w' = w ∧ next_post it (begin_cursor it) r).
Proof.
  intros Hf Hok Hb Hk Hp. destruct (wf_root _ _ Hwf) as (n & Hn & _). unfold lower_bound.
  wp_step. wp_step; [by rewrite Hk|]. rewrite Hp.
  apply (lower_bound_loop_wp ab nfuel Hf descent_fuel
    (with_result [] TagGptr_null (at_pos root 0 [] it)) [] n); auto.
  - done.
  - by apply root_covers.
  - by apply deep_fuel_root.
Qed.

(** ** scan *)

(** What [scan] and [get_next] return at cursor [c], for the range of [it]. *)
Definition scan_post it c (r : option (bytes * TagGptr) * Iter) : Prop :=
  match r.1 with
  | Some (k, t) => valid_key k t ∧ lex_le c k ∧
      (∀ k' t', valid_key k' t' → lex_le c k' → lex_le k k') ∧
      (in_end it k ∨ overshoot it k) ∧
      same_range it r.2 ∧ iter_at r.2 (cursor k 1)
  | None => none_left it c
  end.

Lemma next_scan_wp ab (m : prog (bool * Iter)) it c :
  wp ab m w (λ r w', w' = w ∧ next_post it c r) →
  wp ab ('(found, it) ← m;
         Ret (if found : bool then Some (it_key it, it_value it) else None, it)) w
    (λ r w', w' = w ∧ scan_post it c r).
Proof.
  intros H. wp_step. eapply wp_mono; [exact H|]. intros [[] it'] w' [-> Hp]; by wp_step.
Qed.

Lemma none_after it (k : bytes) :
  end_key_open it = false → lex_le (end_key it) k → (end_key_inclusive it = true → lex_lt (end_key it) k) →
  none_left it k.
Proof.
  intros Ho Hle Hi k' t Hk' Hc [?|[Hlt|[Hinc ->]]]; [congruence|..].
  - destruct (lex_lt_irrefl k'). eapply lex_lt_le_trans; [exact Hlt|]. by eapply lex_le_trans.
  - destruct (lex_lt_irrefl (end_key it)). eapply lex_lt_le_trans; [by apply Hi|done].
Qed.

(** Where the scan starts: a point query starts at its key. *)
Definition scan_begin (bk : bytes) (binc : bool) (ek : bytes) (einc : bool) it : bytes :=
  if bool_decide (bk = ek) && binc && einc then bk else begin_cursor it.

Lemma point_none it bk :
  end_key_open it = false → end_key it = bk → (∀ t, ¬ valid_key bk t) → none_left it bk.
Proof.
  intros Ho He Hn k t Hk Hc [?|[Hlt|[_ ->]]]; [congruence|..]; rewrite He in *.
  - by destruct (lex_lt_irrefl k); eapply lex_lt_le_trans.
  - by destruct (Hn t).
Qed.

Lemma point_post old bk :
  let it := scan_iter old bk true bk true in
  scan_post it bk (if IsValid (ver M bk) then Some (bk, ver M bk) else None, it).
Proof.
  intros it. assert (end_key_open it = false) as Ho by (simpl; apply andb_false_r).
  unfold ver, scan_post. destruct (M !! bk) as [t|] eqn:E; cbn [default from_option id fst snd].
  - destruct (IsValid t) eqn:Ev.
    + split; [done|]. split; [apply lex_le_refl|]. split; [done|].
      split; [by left; right; right|]. split; [done|]. left. split; [done|].
      apply none_after; [done|apply lex_lt_le, lex_lt_prefix|intros _; apply lex_lt_prefix].
    + apply point_none; [done..|]. intros t' [? ?]. congruence.
  - unfold IsValid. cbn [gptr_ TagGptr_null]. rewrite null_invalid.
    apply point_none; [done..|]. intros t' [? ?]. congruence.
Qed.

Lemma empty_range_post old bk binc ek einc :
  let it := scan_iter old bk binc ek einc in
  bool_decide (bk = ek) && binc && einc = false →
  begin_key_open it || end_key_open it || lex_ltb bk ek = false →
  none_left it (begin_cursor it).
Proof.
  intros it Hne [[Hbo Heo]%orb_false_iff Hlt]%orb_false_iff.
  assert (lex_le ek bk) as Hle.
  { destruct (decide (lex_le ek bk)) as [|Hn%lex_not_le]; [done|].
    unfold lex_lt in Hn. unfold lex_ltb in Hlt. by rewrite Hn in Hlt. }
  apply none_after; [done|..]; unfold begin_cursor; rewrite Hbo;
    cbn [begin_key_inclusive begin_key end_key end_key_inclusive it scan_iter].
  - destruct binc; [done|]. eapply lex_le_trans; [exact Hle|]. apply lex_lt_le, lex_lt_prefix.
  - intros ->. destruct binc; [|eapply lex_le_lt_trans; [exact Hle|apply lex_lt_prefix]].
    apply lex_le_lt_eq in Hle as [|<-]; [done|]. by rewrite bool_decide_eq_true_2 in Hne.
Qed.

Lemma scan_wp ab nfuel old bk binc ek einc :
  let it := scan_iter old bk binc ek einc in
  dom (mem w) ⊆ live (hs w) → scan_fuel nfuel → key_ok bk = true → key_ok ek = true →
  byte_key bk → end_ok it →
  wp ab (scan nfuel root old bk binc ek einc) w (λ r w',
    w' = w ∧ scan_post it (scan_begin bk binc ek einc it) r).
Proof.
  intros it Hl Hf Hbk Hek Hb Hok. unfold scan, scan_begin. fold it. wp_step. wp_step; [done|].
  wp_step. wp_step; [done|].
  destruct (bool_decide (bk = ek) && binc && einc) eqn:Epoint.
  - apply andb_true_iff in Epoint as [[<-%bool_decide_eq_true ->]%andb_true_iff ->].
    wp_step. eapply wp_mono; [by apply (get_wp ab w root M bk)|]. intros val w' [-> ->].
    wp_step. split; [done|]. apply point_post.
  - destruct (begin_key_open it || end_key_open it || lex_ltb bk ek) eqn:Er.
    + apply next_scan_wp. by apply lower_bound_wp.
    + wp_step. split; [done|]. by apply empty_range_post.
Qed.

Lemma get_next_wp ab nfuel it c :
  end_ok it → scan_fuel nfuel → iter_at it c →
  wp ab (get_next nfuel it) w (λ r w', w' = w ∧ scan_post it c r).
Proof. intros. by apply next_scan_wp, next_iter_wp. Qed.

(** ** A whole scan *)

(** [l] lists the keys with a value from [c] on, in order: every one that the
    range includes, and none that it does not, but for keys that start with
    the end key. *)
Definition enumerates it c (l : list (bytes * TagGptr)) : Prop :=
  StronglySorted (λ a b, lex_lt a.1 b.1) l ∧
  (∀ k t, (k, t) ∈ l → valid_key k t ∧ lex_le c k ∧ (in_end it k ∨ overshoot it k)) ∧
  (∀ k t, valid_key k t → lex_le c k → in_end it k → (k, t) ∈ l).

Lemma enumerates_nil it c : none_left it c → enumerates it c [].
Proof.
  intros Hn. split_and!; [constructor|by intros ?? ?%elem_of_nil|].
  intros k t Hk Hc Hi. by destruct (Hn k t).
Qed.

Lemma enumerates_cons it c k t it' l :
  scan_post it c (Some (k, t), it') → enumerates it (cursor k 1) l →
  enumerates it c ((k, t) :: l).
Proof.
  intros (Hk & Hc & Hmin & Hin & _) (Hsort & Hsound & Hcompl). simpl in *.
  assert (∀ k' t', (k', t') ∈ l → lex_lt k k') as Hafter.
  { intros k' t' ([? _] & Hle & _)%Hsound. by apply (rest_first _ _ _ HM) in Hle; [|eexists]. }
  split_and!.
  - constructor; [done|]. apply list.Forall_forall. intros [k' t']. apply Hafter.
  - intros k' t' [[= -> ->]|Hel]%elem_of_cons; [done|].
    destruct (Hsound _ _ Hel) as (? & ? & ?). split_and!; [done| |done].
    eapply lex_le_trans; [exact Hc|]. by eapply lex_lt_le, Hafter.
  - intros k' t' Hk' Hc' Hi'. apply elem_of_cons.
    destruct (decide (k = k')) as [<-|Hne].
    { left. destruct Hk, Hk'. congruence. }
    right. apply Hcompl; [done| |done].
    apply (rest_first _ _ _ HM); [destruct Hk'; by eexists|].
    by destruct (proj1 (lex_le_lt_eq k k') (Hmin _ _ Hk' Hc')).
Qed.

Lemma ahead_mono c c' : lex_le c c' → (ahead c' ≤ ahead c)%nat.
Proof.
  intros Hc. apply map_subseteq_size, map_filter_subseteq_ext.
  intros k t _ H. simpl in *. by eapply lex_le_trans.
Qed.

Lemma end_ok_range it it' : same_range it it' → end_ok it → end_ok it'.
Proof. intros (E1 & _ & E3). unfold end_ok. by rewrite E1, E3. Qed.

Lemma enumerates_range it it' c l : same_range it it' → enumerates it' c l → enumerates it c l.
Proof. intros (E1 & E2 & E3). unfold enumerates, in_end, overshoot. by rewrite E1, E2, E3. Qed.

End Next.

Section All.
Context {N : Nvmm} {L : NvmmLaws N}.

(** [get_next] until it finds no more keys. *)
Fixpoint get_rest (fuel nfuel : nat) (it : Iter) : prog (list (bytes * TagGptr)) :=
  match fuel with
  | O => OutOfFuel
  | S fuel' =>
      '(r, it) ← get_next nfuel it;
      match r with
      | None => Ret []
      | Some x => l ← get_rest fuel' nfuel it; Ret (x :: l)
      end
  end.

Definition scan_all (fuel nfuel : nat) (root : Gptr) (old : Iter)
    (bk : bytes) (binc : bool) (ek : bytes) (einc : bool) : prog (list (bytes * TagGptr)) :=
  '(r, it) ← scan nfuel root old bk binc ek einc;
  match r with
  | None => Ret []
  | Some x => l ← get_rest fuel nfuel it; Ret (x :: l)
  end.

Lemma get_rest_wp ab fuel nfuel it c w root M (HM : repr (mem w) root M) :
  end_ok it → scan_fuel M nfuel → iter_at w root M it c → (ahead M c < fuel)%nat →
  wp ab (get_rest fuel nfuel it) w (λ l w', w' = w ∧ enumerates M it c l).
Proof.
  intros Hok Hf. revert it c Hok. induction fuel as [|fuel IH]; intros it c Hok Hat Hl; [lia|].
  cbn [get_rest]. wp_step. eapply wp_mono; [by apply (get_next_wp w root M HM)|].
  intros [[[k t]|] it'] w' [-> Hp]; wp_step.
  2: { split; [done|]. by apply enumerates_nil. }
  pose proof Hp as (Hk & Hc & _ & _ & Hsr & Hat'). cbn [fst snd] in *.
  eapply wp_mono; [apply (IH it' (cursor k 1)); [by eapply end_ok_range|done|]|].
  - assert (ahead M (cursor k 1) < ahead M k)%nat; [|pose proof (ahead_mono M c k Hc); lia].
    apply ahead_drop. destruct Hk. by eexists.
  - intros l w' [-> Hen]. wp_step. split; [done|].
    eapply enumerates_cons; [done..|]. by eapply enumerates_range.
Qed.


End All.

(** ** Witnesses, and what the end keys do that the scans get wrong *)

(** An iterator as [Iter()] leaves it, for a given leftover of its
    uninitialised [end_key_inclusive]. *)
Definition fresh_iter (stale : bool) : Iter :=
  mkIter [] false false [] stale false 0 0 [] TagGptr_null [].


Definition tree_of (os : list rt_op) : world := world_of (run (run_ops 200 16 os) new_world).

Definition scan_keys (w : world) (old : Iter) bk binc ek einc : option (list bytes) :=
  map fst <$> result_of (run (scan_all 20 4000 16 old bk binc ek einc) w).

Definition scan_tree : world :=
  tree_of [OpPut UPDATE [97; 98] 4096; OpPut UPDATE [97; 99] 8192; OpPut UPDATE [104] 12288;
           OpPut UPDATE [97; 98; 1] 4096; OpDestroy [97; 99]; OpPut UPDATE [200] 4096].

(** A scan in the middle of a tree with split prefixes and a deleted key. *)
Example scan_tree_keys :
  scan_keys scan_tree (fresh_iter false) [65] true [122] true =
    Some [[97; 98]; [97; 98; 1]; [104]].
Proof. vm_compute. reflexivity. Qed.

(** When the tree has no node for the end key, a scan up to it also
    returns the first key that extends it, which is beyond the end: the value is
    checked before the lengths are compared. *)
Theorem scan_overshoots :
  scan_keys (tree_of [OpPut UPDATE [97; 98] 4096]) (fresh_iter false) [65] true [97] true =
    Some [[97; 98]] ∧
  lex_lt [97] [97; 98].
Proof. split; vm_compute; reflexivity. Qed.

(** An end key with a byte over 127 breaks the scan, since the byte is
    sign-extended: up to [0xff] it finds nothing, although the tree has a key in
    the range; up to [0xfe] it reads past the child array. *)
Theorem scan_misses_high_end :
  scan_keys (tree_of [OpPut UPDATE [97] 4096]) (fresh_iter false) [65] true [255] true = Some [] ∧
  run (scan_all 20 4000 16 (fresh_iter false) [65] true [254] true)
    (tree_of [OpPut UPDATE [97] 4096]) = Fault ∧
  lex_lt [65] [97] ∧ lex_lt [97] [254].
Proof. repeat split; vm_compute; reflexivity. Qed.

(** Whether a scan with an open beginning, ("\0", ...), includes the key
    "\0" depends on what the iterator was used for before: [scan] tests the old
    [end_key_inclusive] where [begin_key_inclusive] is meant. *)
Theorem scan_reads_stale_iterator :
  let w := tree_of [OpPut UPDATE [0] 4096; OpPut UPDATE [97] 8192] in
  scan_keys w (fresh_iter false) [0] false [0] false = Some [[0]; [97]] ∧
  scan_keys w (fresh_iter true) [0] false [0] false = Some [[97]].
Proof. split; vm_compute; reflexivity. Qed.
