(* ===== verification/KvsRadixTree.v ===== *)
(** The key-value store on the radix tree: [src/kvs_radix_tree.cc].

    A value is a [ValBuf] of its own in the heap; the tree maps the key to its
    tagged pointer.  Replaced and deleted values are handed to the epoch-based
    [Heap::Free(op, p)], which keeps their contents until no operation can be
    reading them. *)

From S2P Require Import Prelude TagPtr Fam RadixTree RadixInv RadixSpec RadixPut RadixOps RadixScan.

Definition kMaxKeyLen : nat := MAX_KEY_LEN.
Definition kMaxValLen : Z := two64 - 1.

Section KVSRadixTree.
Context {N : Nvmm}.

(** The fuel of a whole operation: of the loops over the tree, and of the
    retries when another thread got in between. *)
Context (fuel : nat).

(** Copy a value into a buffer of its own. *)
Definition buf (val : bytes) : ValBuf := mkValBuf (Z.of_nat (length val)) val.

(** [heap_->Alloc(op, val_len + sizeof(ValBuf))], after a resize if need be. *)
Definition alloc_val (val_len : Z) : prog (option Gptr) :=
  val_gptr ← call (AllocVal val_len);
  if ptr_IsValid val_gptr then Ret (Some val_gptr)
  else
    size ← call HeapSize;
    ret ← call (HeapResize (u64 (2 * size)));
    if ret : bool then
      val_gptr ← call (AllocVal val_len);
      Ret (if ptr_IsValid val_gptr then Some val_gptr else None)
    else Ret None.

Definition make_val (val : bytes) : prog (option Gptr) :=
  p ← alloc_val (Z.of_nat (length val));
  match p with
  | None => Ret None
  | Some val_gptr => call (StoreVal val_gptr (buf val));; Ret (Some val_gptr)
  end.

Definition too_long (key : bytes) : bool := (kMaxKeyLen <? length key)%nat.
Definition val_too_long (val : bytes) : bool := kMaxValLen <? Z.of_nat (length val).

(** [if (old_value.IsValid()) heap_->Free(op, old_value.gptr());] *)
Definition free_old (old_value : TagGptr) : prog unit :=
  if IsValid old_value then call (FreeOp (gptr old_value)) else Ret tt.

Definition Put (root : Gptr) (key val : bytes) : prog Z :=
  if too_long key then Ret (-1) else
  if val_too_long val then Ret (-1) else
  p ← make_val val;
  match p with
  | None => Ret (-1)
  | Some val_gptr =>
      old_value ← put fuel root key val_gptr UPDATE;
      free_old old_value;;
      Ret 0
  end.

(** What a call that fetches a value does to its output parameters: the code it
    returns, [val_len] and the bytes copied to [val], if any. *)
Record fetched := mkFetched { f_ret : Z; f_len : Z; f_val : option bytes }.

(** Copy the value at [val_ptr] into a buffer of [val_len] bytes. *)
Definition copy_val (val_ptr : Gptr) (val_len : Z) (ok : Z) : prog fetched :=
  val_p ← call (LoadVal val_ptr);
  let val_size := vb_size val_p in
  if val_len <? val_size then Ret (mkFetched (-1) val_size None)
  else Ret (mkFetched ok val_size (Some (take (Z.to_nat val_size) (vb_val val_p)))).

Definition Get (root : Gptr) (key : bytes) (val_len : Z) : prog fetched :=
  if too_long key then Ret (mkFetched (-1) val_len None) else
  val_ptr ← get root key;
  if negb (IsValid val_ptr) then Ret (mkFetched (-2) val_len None)
  else copy_val (gptr val_ptr) val_len 0.

Definition Del (root : Gptr) (key : bytes) : prog Z :=
  if too_long key then Ret (-1) else
  val_gptr ← destroy fuel root key;
  if IsValid val_gptr then call (FreeOp (gptr val_gptr));; Ret 0 else Ret (-2).

Definition FindOrCreate (root : Gptr) (key val : bytes) (ret_len : Z) : prog fetched :=
  if too_long key then Ret (mkFetched (-1) ret_len None) else
  if val_too_long val then Ret (mkFetched (-1) ret_len None) else
  p ← make_val val;
  match p with
  | None => Ret (mkFetched (-1) ret_len None)
  | Some val_gptr =>
      old_value ← put fuel root key val_gptr FIND_OR_CREATE;
      if IsValid old_value then
        call (FreeOp val_gptr);;
        copy_val (gptr old_value) ret_len (-3)
      else Ret (mkFetched 0 ret_len None)
  end.

(** ** Scans: an iterator per scan, kept in [iters_] *)

Record scanned := mkScanned { s_fetched : fetched; s_key : option bytes; s_iter : Z }.

Definition Scan (nfuel : nat) (root : Gptr) (iters_ : list Iter) (fresh : Iter) (handle : Z)
    (key_len val_len : Z) (bk : bytes) (binc : bool) (ek : bytes) (einc : bool)
    : prog (scanned * list Iter) :=
  let fail ret len key := Ret (mkScanned (mkFetched ret len None) key handle, iters_) in
  if too_long bk || too_long ek then fail (-1) val_len None else
  if Z.of_nat kMaxKeyLen <? key_len then fail (-1) val_len None else
  if kMaxValLen <? val_len then fail (-1) val_len None else
  '(r, iter) ← scan nfuel root fresh bk binc ek einc;
  match r with
  | None => fail (-2) val_len None
  | Some (key, val_gptr) =>
      f ← copy_val (gptr val_gptr) val_len 0;
      (* the iterator is kept, and its handle assigned, only if the value fits *)
      let ok := f_ret f =? 0 in
      Ret (mkScanned f (Some key) (if ok then Z.of_nat (length (iters_ ++ [iter])) - 1 else handle),
           if ok then iters_ ++ [iter] else iters_)
  end.

Definition GetNext (nfuel : nat) (iters_ : list Iter) (iter_handle : Z) (key_len val_len : Z)
    : prog (scanned * list Iter) :=
  let fail ret := Ret (mkScanned (mkFetched ret val_len None) None iter_handle, iters_) in
  if Z.of_nat kMaxKeyLen <? key_len then fail (-1) else
  if kMaxValLen <? val_len then fail (-1) else
  if (iter_handle <? 0) || (Z.of_nat (length iters_) <=? iter_handle) then fail (-1) else
  match iters_ !! Z.to_nat iter_handle with
  | None => fail (-1)
  | Some iter =>
      '(r, iter) ← get_next nfuel iter;
      (* the iterator is shared: the call leaves it where it got to *)
      let iters_ := <[Z.to_nat iter_handle := iter]> iters_ in
      match r with
      | None => Ret (mkScanned (mkFetched (-2) val_len None) None iter_handle, iters_)
      | Some (key, val_gptr) =>
          f ← copy_val (gptr val_gptr) val_len 0;
          Ret (mkScanned f (Some key) iter_handle, iters_)
      end
  end.

(** ** For consistent DRAM caching *)

Record pointers := mkPointers { p_ret : Z; p_key : Gptr; p_val : TagGptr }.

(** The pointers are the caller's on entry, for a call that leaves them alone. *)
Definition PutC (root : Gptr) (key val : bytes) (key_ptr : Gptr) (val_ptr : TagGptr)
    : prog pointers :=
  if too_long key then Ret (mkPointers (-1) key_ptr val_ptr) else
  if val_too_long val then Ret (mkPointers (-1) key_ptr val_ptr) else
  p ← make_val val;
  match p with
  | None => Ret (mkPointers (-1) key_ptr val_ptr)
  | Some val_gptr =>
      kv ← putC fuel root key val_gptr;
      assert (ptr_IsValid (RadixTree.key_ptr kv));;
      free_old (old_value kv);;
      Ret (mkPointers 0 (RadixTree.key_ptr kv) (RadixTree.val_ptr kv))
  end.

Definition PutC_ptr (key_ptr : Gptr) (val_ptr : TagGptr) (val : bytes) : prog pointers :=
  if val_too_long val then Ret (mkPointers (-1) key_ptr val_ptr) else
  p ← make_val val;
  match p with
  | None => Ret (mkPointers (-1) key_ptr val_ptr)
  | Some val_gptr =>
      '(new, old) ← putC_ptr fuel key_ptr val_gptr;
      free_old old;;
      Ret (mkPointers 0 key_ptr new)
  end.

Definition GetC (past : Z) (root : Gptr) (key : bytes) (val_len : Z)
    (key_ptr : Gptr) (val_ptr : TagGptr) : prog (fetched * Gptr * TagGptr) :=
  if too_long key then Ret (mkFetched (-1) val_len None, key_ptr, val_ptr) else
  '(kp, vp) ← getC past root key;
  if negb (ptr_IsValid kp) then Ret (mkFetched 0 val_len None, kp, vp)
  else if IsValid vp then
    f ← copy_val (gptr vp) val_len 0; Ret (f, kp, vp)
  else Ret (mkFetched 0 val_len None, kp, vp).

Definition GetC_ptr (key_ptr : Gptr) (val_ptr : TagGptr) (val_len : Z) (get_value : bool)
    : prog (fetched * TagGptr) :=
  if kMaxValLen <? val_len then Ret (mkFetched (-1) val_len None, val_ptr) else
  cur ← getC_ptr key_ptr;
  if TagGptr_eqb cur val_ptr && negb get_value then Ret (mkFetched 0 val_len None, val_ptr)
  else if IsValid cur then
    f ← copy_val (gptr cur) val_len 0;
    Ret (f, if f_ret f =? 0 then cur else val_ptr)
  else Ret (mkFetched 0 val_len None, cur).

Definition DelC (past : Z) (root : Gptr) (key : bytes) (key_ptr : Gptr) (val_ptr : TagGptr)
    : prog pointers :=
  if too_long key then Ret (mkPointers (-1) key_ptr val_ptr) else
  kv ← destroyC fuel past root key TagGptr_null;
  if negb (ptr_IsValid (RadixTree.key_ptr kv)) then
    Ret (mkPointers 0 (RadixTree.key_ptr kv) (RadixTree.val_ptr kv))
  else
    free_old (old_value kv);;
    Ret (mkPointers 0 (RadixTree.key_ptr kv) (RadixTree.val_ptr kv)).

Definition DelC_ptr (key_ptr : Gptr) : prog pointers :=
  '(new, old) ← destroyC_ptr fuel key_ptr;
  free_old old;;
  Ret (mkPointers 0 key_ptr new).

End KVSRadixTree.

(** ** The store as a map from keys to byte strings *)

Section KvsSpec.
Context {N : Nvmm} {L : NvmmLaws N}.
Implicit Types (w : world) (M : gmap bytes TagGptr) (K : gmap bytes bytes) (key val : bytes).

(** The value a tagged pointer leads to. *)
Definition val_of w (t : TagGptr) : option bytes :=
  if IsValid t then
    match mem w !! gptr t with Some (BlkVal vb) => Some (vb_val vb) | _ => None end
  else None.

Record kv_inv w (root : Gptr) M K : Prop := {
  kv_rt : rt_inv w root M;
  kv_buf k : IsValid (ver M k) = true → ∃ v, mem w !! gptr (ver M k) = Some (BlkVal (buf v));
  kv_val k : K !! k = val_of w (ver M k)
}.

Lemma kv_lookup w root M K k :
  kv_inv w root M K →
  match K !! k with
  | Some v => IsValid (ver M k) = true ∧ mem w !! gptr (ver M k) = Some (BlkVal (buf v))
  | None => IsValid (ver M k) = false
  end.
Proof.
  intros [_ Hb Hv]. rewrite Hv. unfold val_of. specialize (Hb k).
  destruct (IsValid (ver M k)); [|done]. destruct Hb as [v Hv']; [done|]. by rewrite Hv'.
Qed.

(** Only the tree has changed, and not the value pointers. *)
Lemma kv_same w w' root M K :
  kv_inv w root M K → rt_inv w' root M → same_vals w w' → kv_inv w' root M K.
Proof.
  intros HK HR Hs. split; [done|..].
  - intros k Hk. destruct (kv_buf _ _ _ _ HK k Hk) as [v Hv]. exists v. by apply Hs.
  - intros k. pose proof (kv_lookup _ _ _ _ k HK) as Hl. unfold val_of.
    destruct (K !! k) as [v|]; [|by rewrite Hl]. destruct Hl as [-> Hv]. by rewrite (Hs _ _ Hv).
Qed.

Lemma gptr_aligned p t : wf_ptr p → p mod 16 = 0 → gptr (TagGptr_make p t) = p.
Proof.
  intros Hw Hm. unfold gptr. simpl. rewrite gptr_mask_even by done.
  rewrite (Z.div_mod p 16), Hm by lia. rewrite Z.add_0_r.
  replace (16 * (p / 16)) with (p / 16 * 8 * 2) by lia. rewrite Z_mod_mult. lia.
Qed.

(** The key has been given the buffer at [p]. *)
Lemma kv_put w w1 w' root M M' K key val p :
  kv_inv w root M K → same_vals w w1 → mem w1 !! p = Some (BlkVal (buf val)) →
  ptr_IsValid p = true → wf_ptr p → p mod 16 = 0 →
  Put_spec M key p M' → rt_post w1 w' root M' → kv_inv w' root M' (<[key := val]> K).
Proof.
  intros HK Hs1 Hp Hpv Hpw Hpa HP [HI Hs2 _].
  assert (∀ q v, mem w !! q = Some (BlkVal v) → mem w' !! q = Some (BlkVal v)) as Hs.
  { intros q v Hq. by apply Hs2, Hs1. }
  assert (IsValid (ver M' key) = true ∧ gptr (ver M' key) = p) as [Hkv Hkg].
  { unfold ver. rewrite (Put_spec_same _ _ _ _ HP). cbn [default from_option id].
    unfold put_result. destruct (M !! key); by rewrite gptr_aligned. }
  assert (mem w' !! p = Some (BlkVal (buf val))) as Hp' by (by apply Hs2).
  split; [done|..]; intros k; destruct (decide (key = k)) as [<-|Hne].
  - intros _. exists val. by rewrite Hkg.
  - rewrite (Put_spec_other _ _ _ _ _ HP) by done. intros Hk.
    destruct (kv_buf _ _ _ _ HK k Hk) as [v Hv]. exists v. by apply Hs.
  - rewrite lookup_insert_eq. unfold val_of. by rewrite Hkv, Hkg, Hp'.
  - rewrite lookup_insert_ne, (Put_spec_other _ _ _ _ _ HP) by done.
    pose proof (kv_lookup _ _ _ _ k HK) as Hl. unfold val_of.
    destruct (K !! k) as [v|]; [|by rewrite Hl]. destruct Hl as [-> Hv]. by rewrite (Hs _ _ Hv).
Qed.

Lemma kv_del w w' root M K key :
  kv_inv w root M K → rt_post w w' root (Del_spec M key) →
  kv_inv w' root (Del_spec M key) (delete key K).
Proof.
  intros HK [HI Hs _].
  assert (IsValid (ver (Del_spec M key) key) = false) as Hn.
  { unfold ver, Del_spec, IsValid. destruct (M !! key) eqn:E.
    - rewrite lookup_insert_eq. apply null_invalid.
    - rewrite E. apply null_invalid. }
  assert (∀ k, key ≠ k → ver (Del_spec M key) k = ver M k) as Hother.
  { intros k Hne. unfold ver, Del_spec. destruct (M !! key); [by rewrite lookup_insert_ne|done]. }
  split; [done|..]; intros k; destruct (decide (key = k)) as [<-|Hne].
  - congruence.
  - rewrite Hother by done. intros Hk. destruct (kv_buf _ _ _ _ HK k Hk) as [v Hv].
    exists v. by apply Hs.
  - rewrite lookup_delete_eq. unfold val_of. by rewrite Hn.
  - rewrite lookup_delete_ne, Hother by done.
    pose proof (kv_lookup _ _ _ _ k HK) as Hl. unfold val_of.
    destruct (K !! k) as [v|]; [|by rewrite Hl]. destruct Hl as [-> Hv]. by rewrite (Hs _ _ Hv).
Qed.

(** ** Allocating a value *)

(** The heap gives a buffer of [len] bytes and then [n] nodes. *)
Definition val_room (len : Z) (n : nat) (h : HeapSt) : Prop :=
  let '(p, h') := heap_Alloc h (u64 (len + sizeof_ValBuf)) in p ≠ 0 ∧ heap_gives n h'.

#[global] Instance val_room_dec len n h : Decision (val_room len n h).
Proof. unfold val_room. destruct (heap_Alloc _ _). apply _. Defined.

Lemma alloc_val_cases w len :
  dom (mem w) ⊆ live (hs w) →
  ∃ p w', exec (AllocVal len) w = Some (p, w') ∧
    (ptr_IsValid p = false ∧ p = 0 ∧ mem w' = mem w ∧ live (hs w') = live (hs w) ∧
       (∀ n, ¬ val_room len n (hs w)) ∨
     ptr_IsValid p = true ∧ wf_ptr p ∧ p mod 16 = 0 ∧ mem w !! p = None ∧
       (∃ vb, mem w' = <[p := BlkVal vb]> (mem w)) ∧ dom (mem w') ⊆ live (hs w') ∧
       (∀ n, val_room len n (hs w) → heap_gives n (hs w'))).
Proof.
  intros Hl. simpl. unfold val_room.
  destruct (heap_Alloc (hs w) (u64 (len + sizeof_ValBuf))) as [p h'] eqn:E.
  eexists p, _. split; [done|]. destruct (Z.eqb_spec p 0) as [->|Hp]; simpl.
  - left. split_and!; [apply null_invalid|done|done|by eapply alloc_fail|naive_solver].
  - right. destruct (alloc_fresh _ _ _ _ E Hp) as (Hv & Hw & Hnl & Hl').
    split_and!; [done..| | |by eexists| |naive_solver].
    + pose proof (alloc_aligned (hs w) (u64 (len + sizeof_ValBuf))) as Ha. by rewrite E in Ha.
    + apply not_elem_of_dom. set_solver.
    + rewrite dom_insert_L, Hl'. set_solver.
Qed.

Lemma exec_StoreVal w p v0 v :
  mem w !! p = Some (BlkVal v0) →
  exec (StoreVal p v) w = Some (tt, mkWorld (hs w) (<[p := BlkVal v]> (mem w))).
Proof. intros Hp. simpl. by rewrite Hp. Qed.

Lemma exec_LoadVal w p v : mem w !! p = Some (BlkVal v) → exec (LoadVal p) w = Some (v, w).
Proof. intros Hp. simpl. by rewrite Hp. Qed.

(** What [make_val] leaves: a new buffer, or things as they were. *)
Definition made_val w val (r : option Gptr) w' : Prop :=
  dom (mem w') ⊆ live (hs w') ∧
  match r with
  | Some p => ptr_IsValid p = true ∧ wf_ptr p ∧ p mod 16 = 0 ∧ mem w !! p = None ∧
      mem w' = <[p := BlkVal (buf val)]> (mem w) ∧
      (∀ n, val_room (Z.of_nat (length val)) n (hs w) → heap_gives n (hs w'))
  | None => mem w' = mem w ∧ ∀ n, ¬ val_room (Z.of_nat (length val)) n (hs w)
  end.

Lemma store_val_wp ab w w1 val p :
  ptr_IsValid p = true → wf_ptr p → p mod 16 = 0 → mem w !! p = None →
  (∃ vb, mem w1 = <[p := BlkVal vb]> (mem w)) → dom (mem w1) ⊆ live (hs w1) →
  (∀ n, val_room (Z.of_nat (length val)) n (hs w) → heap_gives n (hs w1)) →
  wp ab (call (StoreVal p (buf val));; Ret (Some p)) w1 (made_val w val).
Proof.
  intros Hv Hw Ha Hf [vb Hm] Hl Hn. wp_step.
  wp_step; [eapply exec_StoreVal; by rewrite Hm, lookup_insert_eq|]. wp_step.
  split; simpl.
  - rewrite dom_insert_lookup_L; [done|]. rewrite Hm, lookup_insert_eq. eauto.
  - split_and!; try done. by rewrite Hm, insert_insert_eq.
Qed.

Lemma make_val_wp ab w val :
  dom (mem w) ⊆ live (hs w) → wp ab (make_val val) w (made_val w val).
Proof.
  intros Hl. unfold make_val, alloc_val. wp_step. wp_step.
  destruct (alloc_val_cases w (Z.of_nat (length val)) Hl) as (p & w1 & He & Hc).
  wp_step; [done|]. destruct Hc as [(-> & _ & Hm & Hlv & Hno)|(Hv & Hw & Ha & Hf & Hm & Hd & Hn)].
  2: { rewrite Hv. wp_step. by apply store_val_wp. }
  wp_step. wp_step; [done|]. wp_step.
  destruct (heap_Resize (hs w1) (u64 (2 * heap_Size (hs w1)))) as [b h'] eqn:E.
  eapply wp_call; [simpl; by rewrite E|]. pose proof (resize_live _ _ _ _ E) as Hlr.
  destruct b; [|wp_step; wp_step; split; [simpl; by rewrite Hlr, Hm, Hlv|done]].
  destruct (alloc_val_cases (set_heap h' w1) (Z.of_nat (length val))) as (p' & w2 & He' & Hc').
  { simpl. by rewrite Hlr, Hm, Hlv. }
  wp_step. wp_step; [done|]. wp_step. simpl in Hc'. rewrite Hm, Hlr in Hc'.
  destruct Hc' as [(-> & _ & Hm' & Hlv' & _)|(Hv & Hw & Ha & Hf & Hm' & Hd & _)].
  - wp_step. split; [|done]. by rewrite Hm', Hlv', Hlv.
  - rewrite Hv. apply store_val_wp; [done..|]. intros n Hn. by destruct (Hno n).
Qed.

Lemma made_val_rt w val p w' root M :
  rt_inv w root M → made_val w val (Some p) w' →
  rt_inv w' root M ∧ same_vals w w' ∧ mem w' !! p = Some (BlkVal (buf val)).
Proof.
  intros [HM Hl] (Hl' & Hv & Hw & Ha & Hf & Hm & _). split_and!.
  - split; [|done]. eapply repr_frame; [done| |].
    + rewrite Hm, lookup_insert_ne; [apply HM|]. intros ->. by rewrite null_invalid in Hv.
    + intros q Hq. rewrite Hm, lookup_insert_ne; [done|]. intros ->.
      destruct (reach_node _ _ (repr_wf _ _ _ HM) q Hq). congruence.
  - intros q v Hq. rewrite Hm, lookup_insert_ne; [done|]. congruence.
  - by rewrite Hm, lookup_insert_eq.
Qed.

Lemma made_none_rt w val w' root M K :
  kv_inv w root M K → made_val w val None w' → kv_inv w' root M K.
Proof.
  intros HK (Hl & Hm & _). destruct (kv_rt _ _ _ _ HK) as [HM _].
  apply (kv_same w); [done|split; [by rewrite Hm|done]|]. intros q v. by rewrite Hm.
Qed.

(** Value buffers are as they were, and a node found earlier is still the key's. *)
Definition kept (root : Gptr) w w' : Prop :=
  same_vals w w' ∧ ∀ k q, key_node (mem w) root k q → key_node (mem w') root k q.

Lemma kept_trans root w w1 w' : kept root w w1 → kept root w1 w' → kept root w w'.
Proof. intros [H1 H2] [H3 H4]. split; [intros p v ?; auto|auto]. Qed.

Lemma kept_mem root w w' : mem w' = mem w → kept root w w'.
Proof. intros Hm. unfold kept, same_vals. by rewrite Hm. Qed.

Lemma kept_post root w w' M : rt_post w w' root M → kept root w w'.
Proof. by intros [_ H1 H2]. Qed.

Lemma made_kept w val r w' root M : rt_inv w root M → made_val w val r w' → kept root w w'.
Proof.
  intros HI Hm. destruct r as [p|]; [|destruct Hm as (_ & Hm & _); by apply kept_mem].
  split; [by apply (made_val_rt _ _ _ _ _ _ HI Hm)|]. intros k q (n & Hs & Hn & Hnk).
  destruct Hm as (_ & _ & _ & _ & Hf' & Hmem & _).
  exists n. split_and!; [|rewrite Hmem, lookup_insert_ne; [done|congruence]|done].
  apply (sub_agree (mem w)); [|done]. intros q' Hq'.
  destruct (reach_node _ _ (repr_wf _ _ _ (inv_repr _ _ _ HI)) q' Hq').
  rewrite Hmem, lookup_insert_ne; [done|congruence].
Qed.

(** ** The operations *)

Lemma free_old_wp ab t w root M K :
  kv_inv w root M K →
  wp ab (free_old t) w (λ _ w', kv_inv w' root M K ∧ mem w' = mem w).
Proof.
  intros HK. unfold free_old. destruct (IsValid t); [|by wp_step].
  wp_step; [done|]. split; [|done]. destruct (kv_rt _ _ _ _ HK) as [HM Hl].
  apply (kv_same w); [done| |by intros q v]. split; [done|]. simpl. by rewrite free_op_live.
Qed.

Lemma copy_val_wp ab w p v val_len ok :
  mem w !! p = Some (BlkVal (buf v)) →
  let size := Z.of_nat (length v) in
  wp ab (copy_val p val_len ok) w (λ r w', w' = w ∧
    r = if val_len <? size then mkFetched (-1) size None else mkFetched ok size (Some v)).
Proof.
  intros Hp size. unfold copy_val. wp_step. wp_step; [by apply exec_LoadVal|].
  cbn [buf vb_size vb_val]. fold size. destruct (val_len <? size); wp_step; [done|].
  unfold size. by rewrite Nat2Z.id, take_ge by lia.
Qed.

Section Operations.
Context (fuel : nat) (root : Gptr) (key : bytes).
Context (Hk : key_ok key = true) (Hb : byte_key key) (Hf : (S (length key) < fuel)%nat).

Lemma key_not_long : too_long key = false.
Proof. apply Nat.ltb_ge. destruct (key_ok_length _ Hk). done. Qed.

(** [make_val], then go on in either case. *)
Lemma with_val_wp {A} ab w M K val (m : option Gptr → prog A) Q :
  kv_inv w root M K → Z.of_nat (length val) <= kMaxValLen →
  (∀ w', kv_inv w' root M K ∧ kept root w w' ∧ ¬ val_room (Z.of_nat (length val)) 2 (hs w) →
    wp ab (m None) w' Q) →
  (∀ p w', kv_inv w' root M K → made_val w val (Some p) w' →
    room (¬ val_room (Z.of_nat (length val)) 2 (hs w)) 2 w' → wp ab (m (Some p)) w' Q) →
  wp ab (if val_too_long val then m None else p ← make_val val; m p) w Q.
Proof.
  intros HK Hl Hnone Hsome. unfold val_too_long. rewrite (proj2 (Z.ltb_ge _ _)) by done.
  wp_step. eapply wp_mono; [apply make_val_wp; apply HK|]. intros [p|] w' Hm.
  - destruct (made_val_rt _ _ _ _ root M (kv_rt _ _ _ _ HK) Hm) as (HI & Hs & _).
    apply Hsome; [by eapply kv_same|done|]. destruct Hm as (_ & _ & _ & _ & _ & _ & Hn).
    unfold room. destruct (decide (val_room (Z.of_nat (length val)) 2 (hs w))); auto.
  - apply Hnone. split; [by eapply made_none_rt|]. split; [by eapply made_kept; [apply HK|]|].
    destruct Hm as (_ & _ & Hn). apply Hn.
Qed.

(** The key has a new version, which leads to a new buffer with the value. *)
Definition kv_updated w M K val w' M' : Prop :=
  kv_inv w' root M' (<[key := val]> K) ∧ kept root w w' ∧
  ∃ p, ptr_IsValid p = true ∧ wf_ptr p ∧ p mod 16 = 0 ∧ Put_spec M key p M'.

(** The store after an update, or as it was when the heap has no room. *)
Definition put_outcome w M K val (r : Z) w' : Prop :=
  r = 0 ∧ (∃ M', kv_updated w M K val w' M') ∨
  r = -1 ∧ kv_inv w' root M K ∧ kept root w w' ∧ ¬ val_room (Z.of_nat (length val)) 2 (hs w).

Lemma put_kv w w1 w' M K val p :
  kv_inv w root M K → made_val w val (Some p) w1 →
  put_done w1 w' root M key p → ∃ M', kv_updated w M K val w' M' ∧ put_result M key p = ver M' key.
Proof.
  intros HK Hm (M' & HP & HQ). exists M'.
  destruct (made_val_rt _ _ _ _ root M (kv_rt _ _ _ _ HK) Hm) as (_ & Hs & Hp).
  pose proof (made_kept _ _ _ _ _ _ (kv_rt _ _ _ _ HK) Hm) as Hkept.
  destruct Hm as (_ & Hv & Hw & Ha & _). split; [|unfold ver; by rewrite (Put_spec_same _ _ _ _ HP)].
  split; [by eapply kv_put|]. split; [by eapply kept_trans, kept_post|eauto].
Qed.

Lemma updated_free w M K val w' M' w'' :
  kv_updated w M K val w' M' → kv_inv w'' root M' (<[key := val]> K) ∧ mem w'' = mem w' →
  kv_updated w M K val w'' M'.
Proof.
  intros (_ & Hk' & Hp) [HK Hm]. split; [done|]. split; [|done]. by eapply kept_trans, kept_mem.
Qed.

Lemma Put_wp w M K val :
  kv_inv w root M K → Z.of_nat (length val) <= kMaxValLen →
  wp (¬ val_room (Z.of_nat (length val)) 2 (hs w)) (Put fuel root key val) w
    (put_outcome w M K val).
Proof.
  intros HK Hl. unfold Put. rewrite key_not_long.
  apply (with_val_wp _ w M K val (λ p, match p with None => Ret (-1) | Some val_gptr =>
    old_value ← put fuel root key val_gptr UPDATE; free_old old_value;; Ret 0 end)); [done..| |].
  - intros w' Hno. wp_step. right. by split.
  - intros p w1 HK1 Hm Hr. wp_step. eapply wp_mono; [eapply (put_wp _ 0); eauto; apply HK1|].
    intros r w2 [[-> Hp] _]. cbn [update_flag negb andb] in Hp.
    destruct (put_kv w w1 w2 M K val p HK Hm Hp) as (M' & HU & _).
    wp_step. eapply wp_mono; [by apply free_old_wp, HU|]. intros [] w3 Hfree. wp_step.
    left. split; [done|]. exists M'. by eapply updated_free.
Qed.

Lemma Get_wp ab w M K val_len :
  kv_inv w root M K →
  wp ab (Get root key val_len) w (λ r w', w' = w ∧
    r = match K !! key with
        | None => mkFetched (-2) val_len None
        | Some v => let size := Z.of_nat (length v) in
            if val_len <? size then mkFetched (-1) size None else mkFetched 0 size (Some v)
        end).
Proof.
  intros HK. unfold Get. rewrite key_not_long. wp_step.
  eapply wp_mono; [eapply get_wp; eauto; apply HK|]. intros r w' [-> ->].
  pose proof (kv_lookup _ _ _ _ key HK) as Hlk. destruct (K !! key) as [v|].
  - destruct Hlk as [-> Hv]. cbn [negb]. by apply copy_val_wp.
  - rewrite Hlk. cbn [negb]. by wp_step.
Qed.

Lemma Del_wp ab w M K :
  kv_inv w root M K →
  wp ab (Del fuel root key) w (λ r w',
    r = (match K !! key with Some _ => 0 | None => -2 end) ∧
    kv_inv w' root (Del_spec M key) (delete key K) ∧ kept root w w').
Proof.
  intros HK. unfold Del. rewrite key_not_long. wp_step.
  eapply wp_mono; [eapply destroy_wp; eauto; [apply HK|lia]|]. intros r w' (-> & HP & _).
  pose proof (kv_del _ _ _ _ _ _ HK HP) as HK'.
  pose proof (kv_lookup _ _ _ _ key HK) as Hlk. destruct (K !! key) as [v|].
  - pose proof (free_old_wp ab (ver M key) w' root _ _ HK') as Hfree. unfold free_old in Hfree.
    destruct Hlk as [Hv _]. rewrite Hv in *. wp_step. eapply wp_mono; [exact Hfree|]. intros [] w2 [HK2 Hmem].
    wp_step. do 2 (split; [done|]). by eapply kept_trans, kept_mem; [eapply kept_post|].
  - rewrite Hlk. wp_step. do 2 (split; [done|]). by eapply kept_post.
Qed.

(** Find-or-create: the value found, or the new one stored. *)
Definition create_outcome w M K val (ret_len : Z) (r : fetched) w' : Prop :=
  match K !! key with
  | Some v => kv_inv w' root M K ∧
      r = let size := Z.of_nat (length v) in
          if ret_len <? size then mkFetched (-1) size None else mkFetched (-3) size (Some v)
  | None => r = mkFetched 0 ret_len None ∧ ∃ M', kv_updated w M K val w' M'
  end ∨
  r = mkFetched (-1) ret_len None ∧ kv_inv w' root M K ∧ kept root w w' ∧
  ¬ val_room (Z.of_nat (length val)) 2 (hs w).

Lemma FindOrCreate_wp w M K val ret_len :
  kv_inv w root M K → Z.of_nat (length val) <= kMaxValLen →
  wp (¬ val_room (Z.of_nat (length val)) 2 (hs w)) (FindOrCreate fuel root key val ret_len) w
    (create_outcome w M K val ret_len).
Proof.
  intros HK Hl. unfold FindOrCreate. rewrite key_not_long.
  apply (with_val_wp _ w M K val (λ p, match p with
    | None => Ret (mkFetched (-1) ret_len None)
    | Some val_gptr =>
        old_value ← put fuel root key val_gptr FIND_OR_CREATE;
        if IsValid old_value then
          call (FreeOp val_gptr);; copy_val (gptr old_value) ret_len (-3)
        else Ret (mkFetched 0 ret_len None)
    end)); [done..| |].
  - intros w' Hno. wp_step. right. by split.
  - intros p w1 HK1 Hm Hr. wp_step. eapply wp_mono; [eapply (put_wp _ 0); eauto; apply HK1|].
    intros r w2 [[-> Hp] _]. unfold create_outcome.
    pose proof (kv_lookup _ _ _ _ key HK1) as Hlk. destruct (K !! key) as [v|] eqn:EK.
    + destruct Hlk as [Hv Hbuf]. rewrite Hv in *. cbn [update_flag negb andb] in Hp. subst w2.
      wp_step. wp_step; [done|]. eapply wp_mono; [by apply copy_val_wp|].
      intros r w3 [-> ->]. left. split; [|done].
      apply (kv_same w1); [done| |by intros q v']. destruct (kv_rt _ _ _ _ HK1) as [HM Hd].
      split; [done|]. simpl. by rewrite free_op_live.
    + rewrite Hlk in *. cbn [update_flag negb andb] in Hp. wp_step. left. split; [done|].
      destruct (put_kv w w1 w2 M K val p HK Hm Hp) as (M' & HU & _). by exists M'.
Qed.

(** The operations for caching: they also hand out the key's node. *)
Definition putC_outcome w M K val (kp0 : Gptr) (vp0 : TagGptr) (r : pointers) w' : Prop :=
  p_ret r = 0 ∧ key_node (mem w') root key (p_key r) ∧
    (∃ M', kv_updated w M K val w' M' ∧ p_val r = ver M' key) ∨
  r = mkPointers (-1) kp0 vp0 ∧ kv_inv w' root M K ∧ kept root w w' ∧
    ¬ val_room (Z.of_nat (length val)) 2 (hs w).

Lemma key_node_valid w M q : rt_inv w root M → key_node (mem w) root key q → ptr_IsValid q = true.
Proof.
  intros [HM Hl] (n & _ & Hn & _). eapply live_valid, Hl. apply elem_of_dom. by eexists.
Qed.

Lemma PutC_wp w M K val kp0 vp0 :
  kv_inv w root M K → Z.of_nat (length val) <= kMaxValLen →
  wp (¬ val_room (Z.of_nat (length val)) 2 (hs w)) (PutC fuel root key val kp0 vp0) w
    (putC_outcome w M K val kp0 vp0).
Proof.
  intros HK Hl. unfold PutC. rewrite key_not_long.
  apply (with_val_wp _ w M K val (λ p, match p with
    | None => Ret (mkPointers (-1) kp0 vp0)
    | Some val_gptr =>
        kv ← putC fuel root key val_gptr;
        assert (ptr_IsValid (RadixTree.key_ptr kv));;
        free_old (old_value kv);;
        Ret (mkPointers 0 (RadixTree.key_ptr kv) (RadixTree.val_ptr kv))
    end)); [done..| |].
  - intros w' Hno. wp_step. right. by split.
  - intros p w1 HK1 Hm Hr. wp_step. eapply wp_mono; [eapply (putC_wp _ 0); eauto; apply HK1|].
    intros r w2 [(Hkn & Hvp & _ & Hd) _].
    destruct (put_kv w w1 w2 M K val p HK Hm Hd) as (M' & HU & Hver).
    wp_step. wp_step; [by eapply key_node_valid; [apply HU|]|].
    wp_step. eapply wp_mono; [by apply free_old_wp, HU|]. intros [] w3 Hfree. wp_step.
    left. split; [done|]. split; [by rewrite (proj2 Hfree)|].
    exists M'. split; [by eapply updated_free|]. by rewrite <- Hver.
Qed.

Lemma PutC_ptr_wp w M K val q vp0 :
  kv_inv w root M K → key_node (mem w) root key q → Z.of_nat (length val) <= kMaxValLen →
  wp (¬ val_room (Z.of_nat (length val)) 2 (hs w)) (PutC_ptr fuel q vp0 val) w
    (λ r w', p_key r = q ∧ putC_outcome w M K val q vp0 r w').
Proof.
  intros HK Hq Hl. unfold PutC_ptr.
  apply (with_val_wp _ w M K val (λ p, match p with
    | None => Ret (mkPointers (-1) q vp0)
    | Some val_gptr =>
        '(new, old) ← putC_ptr fuel q val_gptr; free_old old;; Ret (mkPointers 0 q new)
    end)); [done..| |].
  - intros w' Hno. wp_step. split; [done|]. right. by split.
  - intros p w1 HK1 Hm Hr. wp_step.
    assert (key_node (mem w1) root key q) as Hq1 by (by eapply (made_kept w); [apply HK|..]).
    eapply wp_mono; [eapply (putC_ptr_wp _ fuel w1 root M key q p); eauto; [apply HK1|lia]|].
    intros r w2 (-> & HP & Hd). cbv beta iota.
    destruct (put_kv w w1 w2 M K val p HK Hm Hd) as (M' & HU & Hver).
    wp_step. eapply wp_mono; [by apply free_old_wp, HU|]. intros [] w3 Hfree. wp_step.
    split; [done|]. left. split; [done|]. split; [rewrite (proj2 Hfree); by apply HP|].
    exists M'. by split; [eapply updated_free|].
Qed.

(** What a fetch of the key's value returns. *)
Definition fetch_result K (val_len : Z) : fetched :=
  match K !! key with
  | None => mkFetched 0 val_len None
  | Some v => let size := Z.of_nat (length v) in
      if val_len <? size then mkFetched (-1) size None else mkFetched 0 size (Some v)
  end.

Lemma fetch_wp ab w M K val_len :
  kv_inv w root M K →
  wp ab (if IsValid (ver M key) then copy_val (gptr (ver M key)) val_len 0
         else Ret (mkFetched 0 val_len None)) w
    (λ r w', w' = w ∧ r = fetch_result K val_len).
Proof.
  intros HK. unfold fetch_result. pose proof (kv_lookup _ _ _ _ key HK) as Hlk.
  destruct (K !! key) as [v|]; [|rewrite Hlk; by wp_step].
  destruct Hlk as [-> Hv]. by apply copy_val_wp.
Qed.

Lemma GetC_wp ab past w M K val_len kp0 vp0 :
  kv_inv w root M K → is_byte past →
  wp ab (GetC past root key val_len kp0 vp0) w (λ r w', w' = w ∧
    ∃ q, r = (fetch_result K val_len, q, ver M key) ∧ key_ptr_ok (mem w) root M key q).
Proof.
  intros HK Hp. unfold GetC. rewrite key_not_long. wp_step.
  destruct (getC_run past w root M key (kv_rt _ _ _ _ HK) Hk Hb Hp) as (q & Hr & Hq).
  eapply wp_run; [exact Hr|]. cbv beta iota.
  pose proof (fetch_wp ab w M K val_len HK) as Hfetch.
  destruct (ptr_IsValid q) eqn:Eq; cbn [negb].
  - destruct (IsValid (ver M key)).
    + wp_step. eapply wp_mono; [exact Hfetch|]. intros r w' [-> ->]. wp_step. eauto.
    + wp_step. split; [done|]. exists q. by destruct Hfetch as [_ <-].
  - wp_step. split; [done|]. exists q. split; [|done]. repeat f_equal. unfold key_ptr_ok in Hq.
    unfold ver in Hfetch. destruct (M !! key) eqn:EM.
    + by rewrite (key_node_valid _ _ _ (kv_rt _ _ _ _ HK) Hq) in Eq.
    + pose proof (kv_val _ _ _ _ HK key) as HKv. unfold fetch_result. rewrite HKv.
      unfold val_of, ver, IsValid. rewrite EM. simpl. by rewrite null_invalid.
Qed.

Lemma GetC_ptr_wp ab w M K q vp val_len get_value :
  kv_inv w root M K → key_node (mem w) root key q → val_len <= kMaxValLen →
  wp ab (GetC_ptr q vp val_len get_value) w (λ r w', w' = w ∧
    r = if TagGptr_eqb (ver M key) vp && negb get_value then (mkFetched 0 val_len None, vp)
        else let f := fetch_result K val_len in
             (f, if f_ret f =? 0 then ver M key else vp)).
Proof.
  intros HK Hq Hl. unfold GetC_ptr. rewrite (proj2 (Z.ltb_ge _ _)) by done. wp_step.
  eapply wp_run; [by apply (getC_ptr_run w root M key q); [apply HK|]|].
  destruct (TagGptr_eqb (ver M key) vp && negb get_value); [by wp_step|].
  pose proof (fetch_wp ab w M K val_len HK) as Hfetch.
  destruct (IsValid (ver M key)).
  - wp_step. eapply wp_mono; [exact Hfetch|]. intros r w' [-> ->]. by wp_step.
  - wp_step. split; [done|]. by destruct Hfetch as [_ <-].
Qed.

(** Deletion for caching: the key's node, if it has one, and the null value. *)
Definition delC_outcome w M K (r : pointers) w' : Prop :=
  p_ret r = 0 ∧ key_ptr_ok (mem w) root M key (p_key r) ∧
  p_val r = ver (Del_spec M key) key ∧ kv_inv w' root (Del_spec M key) (delete key K) ∧ kept root w w'.

Lemma ver_del M : ver (Del_spec M key) key =
  match M !! key with Some t => TagGptr_make 0 (tag_succ t) | None => TagGptr_null end.
Proof.
  unfold ver, Del_spec. destruct (M !! key) eqn:E; [by rewrite lookup_insert_eq|by rewrite E].
Qed.

Lemma DelC_wp ab past w M K kp0 vp0 :
  kv_inv w root M K → is_byte past →
  wp ab (DelC fuel past root key kp0 vp0) w (delC_outcome w M K).
Proof.
  intros HK Hp. unfold DelC. rewrite key_not_long. wp_step.
  eapply wp_mono; [eapply destroyC_wp; eauto; [apply HK|lia]|].
  intros r w' ([Hkp Hvals] & HP & _). pose proof (kv_del _ _ _ _ _ _ HK HP) as HK'.
  assert (RadixTree.val_ptr r = ver (Del_spec M key) key) as Hvp.
  { rewrite ver_del. by destruct (M !! key); destruct Hvals. }
  destruct (ptr_IsValid (RadixTree.key_ptr r)) eqn:Eq; cbn [negb].
  - wp_step. eapply wp_mono; [by apply free_old_wp|]. intros [] w2 [HK2 Hmem]. wp_step. split_and!; try done.
    by eapply kept_trans, kept_mem; [eapply kept_post|].
  - wp_step. split_and!; try done. by eapply kept_post.
Qed.

Lemma DelC_ptr_wp ab w M K q :
  kv_inv w root M K → key_node (mem w) root key q →
  wp ab (DelC_ptr fuel q) w (delC_outcome w M K).
Proof.
  intros HK Hq. unfold DelC_ptr. wp_step.
  destruct (key_node_value _ _ _ _ _ (inv_repr _ _ _ (kv_rt _ _ _ _ HK)) Hq) as (n & _ & _ & _ & Hv).
  eapply wp_mono; [apply (putC_ptr_wp _ fuel w root M key q 0); [apply HK|done|lia]|].
  intros r w' (-> & HP & _). unfold put_result in HP. rewrite Hv in HP.
  rewrite <-(Del_spec_found _ _ _ Hv) in HP. pose proof (kv_del _ _ _ _ _ _ HK HP) as HK'.
  wp_step. eapply wp_mono; [by apply free_old_wp|]. intros [] w2 [HK2 Hmem]. wp_step.
  split_and!; [done| | |done|by eapply kept_trans, kept_mem; [eapply kept_post|]].
  - simpl. unfold key_ptr_ok. by rewrite Hv.
  - simpl. rewrite ver_del. unfold put_result. by rewrite Hv.
Qed.

End Operations.

(** ** Scans *)

Lemma valid_key_kv w root M K k t :
  kv_inv w root M K → valid_key M k t →
  ∃ v, K !! k = Some v ∧ mem w !! gptr t = Some (BlkVal (buf v)).
Proof.
  intros HK [Hk Hv]. pose proof (kv_lookup _ _ _ _ k HK) as Hl. unfold ver in Hl.
  rewrite Hk in Hl. cbn [default from_option id] in Hl. destruct (K !! k) as [v|]; [|congruence].
  exists v. by destruct Hl.
Qed.

Lemma kv_valid_key w root M K k v :
  kv_inv w root M K → K !! k = Some v → ∃ t, valid_key M k t.
Proof.
  intros HK Hv. pose proof (kv_lookup _ _ _ _ k HK) as Hl. rewrite Hv in Hl. destruct Hl as [Hl _].
  unfold ver in Hl. destruct (M !! k) as [t|] eqn:E; [by exists t|].
  unfold IsValid in Hl. simpl in Hl. by rewrite null_invalid in Hl.
Qed.

(** The next key of a scan at cursor [c] and its value, in terms of the store;
    [it'] is the iterator after the call. *)
Definition next_key w (root : Gptr) M K (it : Iter) c (val_len : Z) (r : scanned) (it' : Iter) : Prop :=
  ∃ k v, s_key r = Some k ∧ K !! k = Some v ∧ lex_le c k ∧
    (∀ k' v', K !! k' = Some v' → lex_le c k' → lex_le k k') ∧
    (in_end it k ∨ overshoot it k) ∧
    s_fetched r = (let size := Z.of_nat (length v) in
      if val_len <? size then mkFetched (-1) size None else mkFetched 0 size (Some v)) ∧
    same_range it it' ∧ iter_at w root M it' (cursor k 1).

Definition no_key_left K (it : Iter) c : Prop :=
  ∀ k v, K !! k = Some v → lex_le c k → ¬ in_end it k.

Lemma none_left_kv w root M K it c :
  kv_inv w root M K → none_left M it c → no_key_left K it c.
Proof.
  intros HK Hn k v Hk Hc. destruct (kv_valid_key _ _ _ _ _ _ HK Hk) as [t Ht]. by eapply Hn.
Qed.

(** Fetch the value of a key that a scan has found. *)
Lemma next_key_wp ab w root M K it c val_len k t it' (h : fetched → Z) {A} (g : scanned → A) (Q : A → world → Prop) :
  kv_inv w root M K → scan_post w root M it c (Some (k, t), it') →
  (∀ f, let r := mkScanned f (Some k) (h f) in
    next_key w root M K it c val_len r it' → Q (g r) w) →
  wp ab (f ← copy_val (gptr t) val_len 0; Ret (g (mkScanned f (Some k) (h f)))) w Q.
Proof.
  intros HK (Hk & Hc & Hmin & Hin & Hsr & Hat) HQ.
  destruct (valid_key_kv _ _ _ _ _ _ HK Hk) as (v & Hv & Hbuf).
  wp_step. eapply wp_mono; [by apply copy_val_wp|]. intros f w' [-> ->]. wp_step.
  apply HQ. exists k, v. split_and!; try done; [|by destruct Hsr as (? & ? & ?)..].
  intros k' v' Hk' Hc'. destruct (kv_valid_key _ _ _ _ _ _ HK Hk') as [t' Ht']. by eapply Hmin.
Qed.

Lemma Scan_wp ab nfuel w root M K iters_ fresh handle key_len val_len bk binc ek einc :
  let it := scan_iter fresh bk binc ek einc in
  let c := scan_begin bk binc ek einc it in
  kv_inv w root M K → key_ok bk = true → key_ok ek = true → byte_key bk → end_ok it →
  scan_fuel M nfuel → key_len <= Z.of_nat kMaxKeyLen → val_len <= kMaxValLen →
  wp ab (Scan nfuel root iters_ fresh handle key_len val_len bk binc ek einc) w (λ r w', w' = w ∧
    (r = (mkScanned (mkFetched (-2) val_len None) None handle, iters_) ∧ no_key_left K it c ∨
     ∃ it', next_key w root M K it c val_len r.1 it' ∧
       if f_ret (s_fetched r.1) =? 0
       then r.2 = iters_ ++ [it'] ∧ s_iter r.1 = Z.of_nat (length iters_)
       else r.2 = iters_)).
Proof.
  intros it c HK Hbk Hek Hb Hok Hf Hkl Hvl. unfold Scan.
  rewrite (key_not_long bk Hbk), (key_not_long ek Hek). cbn [orb].
  rewrite !(proj2 (Z.ltb_ge _ _)) by done. wp_step.
  eapply wp_mono; [apply (scan_wp w root M); try done; apply HK|]. fold it c.
  intros [[[k t]|] it'] w' [-> Hp].
  - eapply (next_key_wp ab w root M K it c val_len k t it'
      (λ f, if f_ret f =? 0 then Z.of_nat (length (iters_ ++ [it'])) - 1 else handle)
      (λ r, (r, if f_ret (s_fetched r) =? 0 then iters_ ++ [it'] else iters_))); [done..|].
    intros f r Hn. split; [done|]. right. exists it'. split; [done|]. subst r. cbn [fst snd s_fetched s_iter].
    destruct (f_ret f =? 0); [|done]. split; [done|]. rewrite length_app. simpl length. lia.
  - wp_step. split; [done|]. left. split; [done|]. by eapply none_left_kv.
Qed.

Lemma GetNext_wp ab nfuel w root M K iters_ handle key_len val_len it c :
  kv_inv w root M K → scan_fuel M nfuel → key_len <= Z.of_nat kMaxKeyLen → val_len <= kMaxValLen →
  0 <= handle → iters_ !! Z.to_nat handle = Some it → end_ok it → iter_at w root M it c →
  wp ab (GetNext nfuel iters_ handle key_len val_len) w (λ r w', w' = w ∧
    (r.1 = mkScanned (mkFetched (-2) val_len None) None handle ∧ no_key_left K it c ∨
     ∃ it', next_key w root M K it c val_len r.1 it' ∧ r.2 = <[Z.to_nat handle := it']> iters_)).
Proof.
  intros HK Hf Hkl Hvl Hh Hit Hok Hat. unfold GetNext.
  apply lookup_lt_Some in Hit as Hlt.
  rewrite !(proj2 (Z.ltb_ge _ _)), (proj2 (Z.leb_gt _ _)) by lia. cbn [orb]. rewrite Hit. wp_step.
  eapply wp_mono; [by apply (get_next_wp w root M); [apply HK|..]|].
  intros [[[k t]|] it'] w' [-> Hp].
  - eapply (next_key_wp ab w root M K it c val_len k t it' (λ _, handle)
      (λ r, (r, <[Z.to_nat handle := it']> iters_))); [done..|].
    intros f r Hn. split; [done|]. right. by exists it'.
  - wp_step. split; [done|]. left. split; [done|]. by eapply none_left_kv.
Qed.

End KvsSpec.

(** ** The store refines a map *)

Section KvsClaims.
Context {N : Nvmm} {L : NvmmLaws N}.
Context (fuel : nat) (w : world) (root : Gptr) (M : gmap bytes TagGptr) (K : gmap bytes bytes).
Context (HK : kv_inv w root M K).
Context (key : bytes) (Hk : key_ok key = true) (Hb : byte_key key).
Context (Hf : (S (length key) < fuel)%nat).


(** [Get] fetches the value: -2 when the key has none, -1 with the size
    when the buffer is too small, 0 with the value and its size otherwise; it
    changes nothing. *)
Theorem Get_refines val_len :
  run (Get root key val_len) w = Done (match K !! key with
    | None => mkFetched (-2) val_len None
    | Some v => let size := Z.of_nat (length v) in
        if val_len <? size then mkFetched (-1) size None else mkFetched 0 size (Some v)
    end) w.
Proof.
  by destruct (wp_total _ _ _ (Get_wp root key Hk Hb False w M K val_len HK))
    as (r & w' & -> & -> & ->).
Qed.

(** [Del] removes the key and says whether it was there. *)
Theorem Del_refines :
  ∃ w' M', run (Del fuel root key) w =
      Done (match K !! key with Some _ => 0 | None => -2 end) w' ∧
    kv_inv w' root M' (delete key K).
Proof.
  destruct (wp_total _ _ _ (Del_wp fuel root key Hk Hb Hf False w M K HK))
    as (r & w' & Hr & -> & HK' & _). eauto.
Qed.

(** [FindOrCreate] returns -3 with the value of a key that has one, and
    leaves the store alone; otherwise it stores the new value and returns 0. *)
Theorem FindOrCreate_refines val ret_len :
  Z.of_nat (length val) <= kMaxValLen →
  (∃ r w', run (FindOrCreate fuel root key val ret_len) w = Done r w' ∧
     create_outcome root key w M K val ret_len r w') ∨
  run (FindOrCreate fuel root key val ret_len) w = Aborted ∧
    ¬ val_room (Z.of_nat (length val)) 2 (hs w).
Proof. intros Hl. by apply wp_done, FindOrCreate_wp. Qed.


(** The [Get]s of the caching interface return the value and the pointers
    of the key; the one by node fetches the value only if the caller's pointer is
    not the current one, or the caller insists. *)
Theorem cached_gets_refine val_len kp vp q past get_value :
  val_len <= kMaxValLen → is_byte past → key_node (mem w) root key q →
  (∃ q', run (GetC past root key val_len kp vp) w =
     Done (fetch_result key K val_len, q', ver M key) w ∧ key_ptr_ok (mem w) root M key q') ∧
  run (GetC_ptr q vp val_len get_value) w =
    Done (if TagGptr_eqb (ver M key) vp && negb get_value then (mkFetched 0 val_len None, vp)
          else let f := fetch_result key K val_len in
               (f, if f_ret f =? 0 then ver M key else vp)) w.
Proof.
  intros Hl Hp Hq. split.
  - destruct (wp_total _ _ _ (GetC_wp root key Hk Hb False past w M K val_len kp vp HK Hp))
      as (r & w' & Hr & -> & q' & -> & Hq'). eauto.
  - by destruct (wp_total _ _ _ (GetC_ptr_wp root key False w M K q vp val_len get_value HK Hq Hl))
      as (r & w' & -> & -> & ->).
Qed.

(** Cache hits are right.  A client kept the value pointer [t] that the
    key had in an earlier state of the store; no value buffer of then has been
    overwritten since, which is what the epochs are for.  If the cached [Get] now
    says that [t] is current, then the key has the value it had. *)
Theorem cache_hit_current w0 M0 K0 q t val_len :
  kv_inv w0 root M0 K0 → same_vals w0 w → ver M0 key = t → key_node (mem w) root key q →
  val_len <= kMaxValLen → wf_ptr (gptr_ t) → wf_ptr (gptr_ (ver M key)) →
  run (GetC_ptr q t val_len false) w = Done (mkFetched 0 val_len None, t) w →
  K !! key = K0 !! key.
Proof.
  intros HK0 Hs Ht Hq Hl Hwt Hwv Hrun.
  destruct (wp_total _ _ _ (GetC_ptr_wp root key False w M K q t val_len false HK Hq Hl))
    as (r & w' & Hr & -> & Hres). rewrite Hrun in Hr. injection Hr as <-.
  assert (ver M key = t) as Hver.
  { destruct (TagGptr_eqb (ver M key) t) eqn:E; [by apply TagGptr_eqb_spec in E|].
    cbn [andb] in Hres. revert Hres. unfold fetch_result. cbv zeta.
    destruct (K !! key); [destruct (val_len <? _)|]; by intros [=]. }
  pose proof (kv_lookup _ _ _ _ key HK) as Hlk. pose proof (kv_lookup _ _ _ _ key HK0) as Hlk0.
  rewrite Ht in Hlk0. rewrite Hver in Hlk.
  destruct (K !! key) as [v|], (K0 !! key) as [v0|]; try done; [|destruct Hlk; congruence|destruct Hlk0; congruence].
  destruct Hlk as [_ Hb1], Hlk0 as [_ Hb0]. apply Hs in Hb0. rewrite Hb1 in Hb0.
  injection Hb0 as _ ->. done.
Qed.

(** A [Scan] returns the first key of the range with its value and a
    handle, -2 if there is none; [GetNext] goes on from there.  Both stop at the
    end key, but for keys that extend it. *)
Theorem Scan_refines nfuel iters_ fresh handle key_len val_len bk binc ek einc :
  let it := scan_iter fresh bk binc ek einc in
  let c := scan_begin bk binc ek einc it in
  key_ok bk = true → key_ok ek = true → byte_key bk → end_ok it →
  scan_fuel M nfuel → key_len <= Z.of_nat kMaxKeyLen → val_len <= kMaxValLen →
  ∃ r, run (Scan nfuel root iters_ fresh handle key_len val_len bk binc ek einc) w = Done r w ∧
    (r = (mkScanned (mkFetched (-2) val_len None) None handle, iters_) ∧ no_key_left K it c ∨
     ∃ it', next_key w root M K it c val_len r.1 it' ∧
       if f_ret (s_fetched r.1) =? 0
       then ∃ r', run (GetNext nfuel r.2 (s_iter r.1) key_len val_len) w = Done r' w ∧
         let c' := cursor (default [] (s_key r.1)) 1 in
         (r'.1 = mkScanned (mkFetched (-2) val_len None) None (s_iter r.1) ∧
            no_key_left K it' c' ∨
          ∃ it'', next_key w root M K it' c' val_len r'.1 it'')
       else r.2 = iters_).
Proof.
  clear Hf. intros it c Hbk Hek Hbb Hok Hnf Hkl Hvl.
  destruct (wp_total _ _ _ (Scan_wp False nfuel w root M K iters_ fresh handle key_len val_len
    bk binc ek einc HK Hbk Hek Hbb Hok Hnf Hkl Hvl)) as (r & w' & Hr & -> & Hpost).
  exists r. split; [done|]. destruct Hpost as [|(it' & Hnk & Hiters)]; [by left|right].
  exists it'. split; [done|]. destruct (f_ret (s_fetched r.1) =? 0); [|done].
  destruct Hiters as [Hit Hh]. destruct Hnk as (k & v & Hkey & _ & _ & _ & _ & _ & Hsr & Hat).
  assert (r.2 !! Z.to_nat (s_iter r.1) = Some it') as Hlk.
  { by rewrite Hit, Hh, Nat2Z.id, lookup_app_r, Nat.sub_diag by lia. }
  destruct (wp_total _ _ _ (GetNext_wp False nfuel w root M K r.2 (s_iter r.1) key_len val_len it'
    (cursor k 1) HK Hnf Hkl Hvl ltac:(lia) Hlk (end_ok_range _ _ Hsr Hok) Hat))
    as (r' & w' & Hr' & -> & Hp).
  exists r'. split; [done|]. rewrite Hkey. cbn [default from_option id].
  destruct Hp as [|(it'' & ? & _)]; [by left|right; eauto].
Qed.

End KvsClaims.

(** ** Witnesses: a store with one key on the reference heap *)

Lemma new_store : kv_inv new_world 16 {[ [] := TagGptr_null ]} ∅.
Proof.
  assert (∀ k, ver {[ [] := TagGptr_null ]} k = TagGptr_null) as Hv.
  { intros k. unfold ver. destruct ({[ [] := TagGptr_null ]} !! k) eqn:E; [|done].
    by apply lookup_singleton_Some in E as [_ <-]. }
  split; [apply new_world_inv|..]; intros k; rewrite Hv; [done|]. by rewrite lookup_empty.
Qed.

Definition val_hi : bytes := [104; 105].

Definition store_world : world := world_of (run (PutC 200 16 key_a val_hi 0 TagGptr_null) new_world).
Definition store_map : gmap bytes bytes := {[ key_a := val_hi ]}.

Lemma store_ok : ∃ M, kv_inv store_world 16 M store_map ∧
  key_node (mem store_world) 16 key_a 2256 ∧ ver M key_a = TagGptr_make 2240 0.
Proof.
  pose proof (PutC_wp 200 16 key_a eq_refl ltac:(by_decide) ltac:(simpl; lia) new_world _ ∅ val_hi 0
    TagGptr_null new_store ltac:(by_decide)) as Hw.
  assert (result_of (run (PutC 200 16 key_a val_hi 0 TagGptr_null) new_world) =
    Some (mkPointers 0 2256 (TagGptr_make 2240 0))) as Hres by (by vm_compute).
  unfold store_world. unfold wp in Hw. destruct (run _ new_world) as [r w'| | |]; try done.
  injection Hres as ->.
  destruct Hw as [(_ & Hq & M & (HK & _) & Hv)|[? _]]; [|done]. exists M. split_and!; [done..|by rewrite <-Hv].
Qed.


Lemma Get_refines_witness :
  run (Get 16 key_a 10) store_world = Done (mkFetched 0 2 (Some val_hi)) store_world ∧
  run (Get 16 key_a 1) store_world = Done (mkFetched (-1) 2 None) store_world.
Proof.
  destruct store_ok as (M & HK & _).
  split; apply (Get_refines store_world 16 M store_map HK key_a); done || by_decide.
Defined.

Lemma Del_refines_witness : ∃ w' M',
  run (Del 200 16 key_a) store_world = Done 0 w' ∧ kv_inv w' 16 M' (delete key_a store_map).
Proof.
  destruct store_ok as (M & HK & _).
  apply (Del_refines 200 store_world 16 M store_map HK key_a); [done|by_decide|by_decide].
Defined.

Lemma FindOrCreate_refines_witness : ∃ M,
  (∃ r w', run (FindOrCreate 200 16 key_a [1] 10) store_world = Done r w' ∧
     create_outcome 16 key_a store_world M store_map [1] 10 r w') ∨
  run (FindOrCreate 200 16 key_a [1] 10) store_world = Aborted ∧
    ¬ val_room (Z.of_nat (length [1])) 2 (hs store_world).
Proof.
  destruct store_ok as (M & HK & _). exists M.
  apply (FindOrCreate_refines 200 store_world 16 M store_map HK key_a);
    [done|by_decide|by_decide|by_decide].
Defined.


Lemma cached_gets_refine_witness :
  run (GetC_ptr 2256 (TagGptr_make 2240 0) 10 false) store_world =
    Done (mkFetched 0 10 None, TagGptr_make 2240 0) store_world ∧
  run (GetC_ptr 2256 TagGptr_null 10 false) store_world =
    Done (mkFetched 0 2 (Some val_hi), TagGptr_make 2240 0) store_world.
Proof.
  destruct store_ok as (M & HK & Hq & Hv). rewrite <-Hv.
  pose proof (λ vp, proj2 (cached_gets_refine store_world 16 M store_map HK key_a eq_refl
    ltac:(by_decide) 10 0 vp 2256 0 false ltac:(by_decide) ltac:(by_decide) Hq)) as H.
  split; rewrite H; by rewrite Hv.
Defined.

Lemma store_hit :
  run (GetC_ptr 2256 (TagGptr_make 2240 0) 10 false) store_world =
    Done (mkFetched 0 10 None, TagGptr_make 2240 0) store_world.
Proof.
  destruct store_ok as (M & HK & Hq & Hv).
  destruct (wp_total _ _ _ (GetC_ptr_wp 16 key_a False store_world M store_map 2256
    (TagGptr_make 2240 0) 10 false HK Hq ltac:(by_decide))) as (r & w' & -> & -> & ->).
  by rewrite Hv.
Qed.

Lemma cache_hit_current_witness : store_map !! key_a = store_map !! key_a.
Proof.
  destruct store_ok as (M & HK & Hq & Hv).
  apply (cache_hit_current store_world 16 M store_map HK key_a store_world M store_map 2256
    (TagGptr_make 2240 0) 10 HK ltac:(by intros p v) Hv Hq);
    [by_decide|by_decide|rewrite Hv; by_decide|apply store_hit].
Defined.

Lemma Scan_refines_witness : ∃ M r,
  let it := scan_iter (fresh_iter false) [65] true [98] true in
  run (Scan (round * S (size M)) 16 [] (fresh_iter false) 7 10 10 [65] true [98] true) store_world =
    Done r store_world ∧
  (r = (mkScanned (mkFetched (-2) 10 None) None 7, []) ∧ no_key_left store_map it [65] ∨
   ∃ it', next_key store_world 16 M store_map it [65] 10 r.1 it' ∧
     if f_ret (s_fetched r.1) =? 0
     then ∃ r', run (GetNext (round * S (size M)) r.2 (s_iter r.1) 10 10) store_world =
         Done r' store_world ∧
       let c' := cursor (default [] (s_key r.1)) 1 in
       (r'.1 = mkScanned (mkFetched (-2) 10 None) None (s_iter r.1) ∧
          no_key_left store_map it' c' ∨
        ∃ it'', next_key store_world 16 M store_map it' c' 10 r'.1 it'')
     else r.2 = []).
Proof.
  destruct store_ok as (M & HK & _ & _). exists M.
  apply (Scan_refines store_world 16 M store_map HK (round * S (size M)) [] (fresh_iter false) 7
    10 10 [65] true [98] true); [done|done|by_decide|right; by_decide|apply le_n|by_decide|by_decide].
Defined.

(** ** A small buffer costs a key *)

Definition three_keys : prog (list Z) :=
  r1 ← Put 200 16 [97] [1; 2]; r2 ← Put 200 16 [98] [3; 4]; r3 ← Put 200 16 [99] [5; 6];
  '(s, its) ← Scan 5000 16 [] (fresh_iter false) 0 10 10 [65] true [122] true;
  '(n1, its) ← GetNext 5000 its (s_iter s) 10 1;
  '(n2, its) ← GetNext 5000 its (s_iter s) 10 10;
  Ret (default [] (s_key s) ++ [f_ret (s_fetched n1); f_len (s_fetched n1)] ++
       default [] (s_key n2)).

(** A [GetNext] that fails because the buffer is too small has already
    moved the iterator: when the caller comes back with a buffer of the size
    it was told, it gets the key after. *)
Theorem GetNext_small_buffer_skips :
  result_of (run three_keys new_world) = Some [97; -1; 2; 99].
Proof. vm_compute. reflexivity. Qed.
