(* ===== verification/Bipbuffer.v ===== *)
(** The bip buffer of the cache's logger: [extra/KVS-DRAM-Cache/bipbuffer.c].

    A queue of bytes in a fixed array: region A is [data[a_start .. a_end)];
    when the space after it runs low, region B grows from the start of the
    array, and takes over when A is empty. *)

From S2P Require Import Prelude.

(** [bipbuf_t]; [size] is an [unsigned long], the cursors are [unsigned int]. *)
Record bipbuf := mkBip {
  size_ : Z;
  a_start : Z;
  a_end : Z;
  b_end : Z;
  b_inuse : Z;
  data : bytes
}.

(** Conversion of an [unsigned] value to [int], two's complement. *)
Definition to_int (z : Z) : Z := let x := u32 z in if x <? 2 ^ 31 then x else x - two32.

Definition bipbuf_unused (me : bipbuf) : Z :=
  if b_inuse me =? 1 then to_int (u32 (a_start me - b_end me))
  else to_int (u64 (size_ me - a_end me)).

Definition bipbuf_size (me : bipbuf) : Z := to_int (size_ me).

Definition bipbuf_used (me : bipbuf) : Z :=
  to_int (u32 (u32 (a_end me - a_start me) + b_end me)).

Definition bipbuf_init (me : bipbuf) (size : Z) : bipbuf := mkBip size 0 0 0 0 (data me).

(** [malloc] leaves [garbage] in the array, or fails. *)
Definition bipbuf_new (garbage : option bytes) (size : Z) : option bipbuf :=
  match garbage with
  | None => None
  | Some g => Some (bipbuf_init (mkBip 0 0 0 0 0 g) size)
  end.

Definition bipbuf_is_empty (me : bipbuf) : bool := a_start me =? a_end me.

Definition with_inuse (b : Z) (me : bipbuf) : bipbuf :=
  mkBip (size_ me) (a_start me) (a_end me) (b_end me) b (data me).

(** [__check_for_switch_to_b]. *)
Definition check_for_switch_to_b (me : bipbuf) : bipbuf :=
  if u64 (size_ me - a_end me) <? u32 (a_start me - b_end me) then with_inuse 1 me else me.

(** The offset into [data] to write at, or null. *)
Definition bipbuf_request (me : bipbuf) (size : Z) : option Z :=
  if bipbuf_unused me <? size then None
  else if b_inuse me =? 1 then Some (b_end me) else Some (a_end me).

Definition grow (me : bipbuf) (size : Z) : bipbuf :=
  if b_inuse me =? 1
  then mkBip (size_ me) (a_start me) (a_end me) (u32 (b_end me + size)) (b_inuse me) (data me)
  else mkBip (size_ me) (a_start me) (u32 (a_end me + size)) (b_end me) (b_inuse me) (data me).

Definition bipbuf_push (me : bipbuf) (size : Z) : Z * bipbuf :=
  if bipbuf_unused me <? size then (0, me)
  else (size, check_for_switch_to_b (grow me size)).

(** [memcpy(me->data + off, d, size)]. *)
Definition write_at (off : Z) (d buf : bytes) : bytes :=
  take (Z.to_nat off) buf ++ d ++ drop (Z.to_nat off + length d) buf.

Definition with_data (d : bytes) (me : bipbuf) : bipbuf :=
  mkBip (size_ me) (a_start me) (a_end me) (b_end me) (b_inuse me) d.

Definition bipbuf_offer (me : bipbuf) (d : bytes) : Z * bipbuf :=
  let size := Z.of_nat (length d) in
  if bipbuf_unused me <? size then (0, me)
  else
    let off := if b_inuse me =? 1 then b_end me else a_end me in
    (size, check_for_switch_to_b (grow (with_data (write_at off d (data me)) me) size)).

(** The offset of the data, or null. *)
Definition bipbuf_peek (me : bipbuf) (size : Z) : option Z :=
  if size_ me <? u32 (a_start me + size) then None
  else if bipbuf_is_empty me then None
  else Some (a_start me).

Definition bipbuf_peek_all (me : bipbuf) : option (Z * Z) :=
  if bipbuf_is_empty me then None else Some (a_start me, u32 (a_end me - a_start me)).

Definition bipbuf_poll (me : bipbuf) (size : Z) : option Z * bipbuf :=
  if bipbuf_is_empty me then (None, me)
  else if size_ me <? u32 (a_start me + size) then (None, me)
  else
    let end_ := a_start me in
    let me := mkBip (size_ me) (u32 (a_start me + size)) (a_end me) (b_end me) (b_inuse me) (data me) in
    let me :=
      if a_start me =? a_end me then
        if b_inuse me =? 1 then mkBip (size_ me) 0 (b_end me) 0 0 (data me)
        else mkBip (size_ me) 0 0 (b_end me) (b_inuse me) (data me)
      else me in
    (Some end_, check_for_switch_to_b me).

(** ** The queue *)

(** The bytes [data[from .. to)]. *)
Definition slice (from to : Z) (d : bytes) : bytes :=
  take (Z.to_nat (to - from)) (drop (Z.to_nat from) d).

(** What the buffer holds, oldest byte first. *)
Definition contents (me : bipbuf) : bytes :=
  slice (a_start me) (a_end me) (data me) ++ slice 0 (b_end me) (data me).

Record bip_ok (me : bipbuf) : Prop := {
  ok_size : 0 <= size_ me < 2 ^ 31;
  ok_data : Z.of_nat (length (data me)) = size_ me;
  ok_a : 0 <= a_start me <= a_end me;
  ok_end : a_end me <= size_ me;
  ok_b : 0 <= b_end me <= a_start me;
  ok_inuse : b_inuse me = 1 ∨ b_inuse me = 0 ∧ b_end me = 0;
  ok_empty : a_start me = a_end me → a_start me = 0
}.

Lemma to_int_small z : 0 <= z < 2 ^ 31 → to_int z = z.
Proof.
  intros H. unfold to_int, u32, two32. rewrite Z.mod_small by lia.
  by rewrite (proj2 (Z.ltb_lt _ _)) by lia.
Qed.

Lemma u32_small z : 0 <= z < two32 → u32 z = z.
Proof. intros. unfold u32. by apply Z.mod_small. Qed.

(** Arithmetic on cursors does not wrap around. *)
Ltac bip_arith :=
  repeat first
    [ rewrite u32_small by (unfold two32 in *; lia)
    | rewrite u64_small by (unfold two64 in *; lia)
    | rewrite to_int_small by lia ].

(** The free space of the region that grows. *)
Lemma unused_spec me :
  bip_ok me →
  bipbuf_unused me = if b_inuse me =? 1 then a_start me - b_end me else size_ me - a_end me.
Proof. intros []. unfold bipbuf_unused. destruct (b_inuse me =? 1); by bip_arith. Qed.

Lemma switch_ok me : bip_ok me → bip_ok (check_for_switch_to_b me).
Proof.
  intros []. unfold check_for_switch_to_b. destruct (_ <? _); [|done].
  split; simpl; auto; lia.
Qed.

Lemma switch_contents me : contents (check_for_switch_to_b me) = contents me.
Proof. unfold check_for_switch_to_b. by destruct (_ <? _). Qed.

Lemma contents_length me :
  bip_ok me → Z.of_nat (length (contents me)) = (a_end me - a_start me) + b_end me.
Proof.
  intros []. unfold contents, slice. rewrite length_app, !length_take, !length_drop. lia.
Qed.

(** ** Writing into the array *)

Lemma write_at_length off d buf :
  (Z.to_nat off + length d ≤ length buf)%nat → length (write_at off d buf) = length buf.
Proof. intros. unfold write_at. rewrite !length_app, length_take, length_drop. lia. Qed.

Lemma slice_write_at from off d buf :
  0 <= from <= off → (Z.to_nat off + length d ≤ length buf)%nat →
  slice from (off + Z.of_nat (length d)) (write_at off d buf) = slice from off buf ++ d.
Proof.
  intros Hf Hl. unfold slice, write_at.
  rewrite drop_app_le by (rewrite length_take; lia).
  rewrite take_app_ge by (rewrite length_drop, length_take; lia).
  rewrite length_drop, length_take, Nat.min_l by lia.
  replace (Z.to_nat (off + Z.of_nat (length d) - from) - (Z.to_nat off - Z.to_nat from))%nat
    with (length d) by lia.
  rewrite take_app_length. f_equal.
  rewrite take_drop_commute. do 2 f_equal. lia.
Qed.

(** A write elsewhere does not show. *)
Lemma slice_write_before from to off d buf :
  0 <= from → to <= off → 0 <= off → (Z.to_nat off + length d ≤ length buf)%nat →
  slice from to (write_at off d buf) = slice from to buf.
Proof.
  intros Hf Hto Ho Hl. unfold slice, write_at.
  destruct (decide (from <= off)).
  - rewrite drop_app_le by (rewrite length_take; lia).
    rewrite take_app_le by (rewrite length_drop, length_take; lia).
    rewrite !take_drop_commute, take_take. do 2 f_equal. lia.
  - by replace (Z.to_nat (to - from)) with 0%nat by lia.
Qed.

Lemma slice_write_after from to off d buf :
  off + Z.of_nat (length d) <= from → 0 <= off → (Z.to_nat off + length d ≤ length buf)%nat →
  slice from to (write_at off d buf) = slice from to buf.
Proof.
  intros Hf Ho Hl. unfold slice, write_at. f_equal. rewrite (assoc_L (++)).
  rewrite drop_app_ge by (rewrite length_app, length_take; lia).
  rewrite length_app, length_take, Nat.min_l, drop_drop by lia. f_equal. lia.
Qed.

(** ** The operations are those of a queue *)

Lemma bipbuf_init_ok me size :
  0 <= size < 2 ^ 31 → Z.of_nat (length (data me)) = size →
  bip_ok (bipbuf_init me size) ∧ contents (bipbuf_init me size) = [].
Proof. intros Hs Hd. split; [split; simpl; auto; lia|done]. Qed.

(** [bipbuf_offer] appends its bytes to the queue, or, when the region
    that grows has too little space, returns 0 and changes nothing. *)
Theorem bipbuf_offer_appends me d :
  bip_ok me →
  if bipbuf_unused me <? Z.of_nat (length d) then bipbuf_offer me d = (0, me)
  else ∃ me', bipbuf_offer me d = (Z.of_nat (length d), me') ∧
    bip_ok me' ∧ contents me' = contents me ++ d.
Proof.
  intros Hok. pose proof (unused_spec me Hok) as Hu. unfold bipbuf_offer.
  destruct (Z.ltb_spec (bipbuf_unused me) (Z.of_nat (length d))) as [|Hfit]; [done|].
  rewrite Hu in Hfit. eexists. split; [done|]. rewrite switch_contents. pose proof Hok as [].
  unfold grow. cbn [b_inuse with_data]. destruct (Z.eqb_spec (b_inuse me) 1) as [Hi|Hi].
  - split; [apply switch_ok; split; simpl; bip_arith; rewrite ?write_at_length; auto; lia|].
    unfold contents. cbn [data a_start a_end b_end with_data]. bip_arith.
    rewrite slice_write_after, slice_write_at by lia. by rewrite (assoc_L (++)).
  - destruct ok_inuse0 as [|[Hi0 Hb]]; [done|].
    split; [apply switch_ok; split; simpl; bip_arith; rewrite ?write_at_length; auto; lia|].
    unfold contents. cbn [data a_start a_end b_end with_data]. bip_arith.
    rewrite slice_write_at by lia. rewrite Hb. unfold slice. by rewrite !app_nil_r.
Qed.

(** Writing at the offset [bipbuf_request] gives and then pushing is offering. *)
Lemma request_push me d off :
  bipbuf_request me (Z.of_nat (length d)) = Some off →
  bipbuf_push (with_data (write_at off d (data me)) me) (Z.of_nat (length d)) =
  bipbuf_offer me d.
Proof.
  unfold bipbuf_request, bipbuf_push, bipbuf_offer.
  change (bipbuf_unused (with_data _ me)) with (bipbuf_unused me).
  destruct (bipbuf_unused me <? _); [done|]. destruct (b_inuse me =? 1); by intros [= ->].
Qed.

Lemma slice_split from mid to d :
  0 <= from <= mid → mid <= to → slice from to d = slice from mid d ++ slice mid to d.
Proof.
  intros H1 H2. unfold slice.
  replace (Z.to_nat (to - from)) with (Z.to_nat (mid - from) + Z.to_nat (to - mid))%nat by lia.
  rewrite <-take_take_drop. do 2 f_equal. rewrite drop_drop. f_equal. lia.
Qed.

Lemma slice_length from to d :
  0 <= from <= to → to <= Z.of_nat (length d) → Z.of_nat (length (slice from to d)) = to - from.
Proof. intros. unfold slice. rewrite length_take, length_drop. lia. Qed.

Lemma slice_empty from d : slice from from d = [].
Proof. unfold slice. by rewrite Z.sub_diag. Qed.

Lemma empty_spec me : bip_ok me → bipbuf_is_empty me = true ↔ contents me = [].
Proof.
  intros Hok. pose proof (contents_length me Hok) as Hl. destruct Hok.
  unfold bipbuf_is_empty. rewrite Z.eqb_eq, <-length_zero_iff_nil. split; [|lia].
  intros E. specialize (ok_empty0 E). lia.
Qed.

(** Polling at most what [bipbuf_peek_all] shows takes the oldest bytes
    off the queue: the offset returned is where they are in the array.  An empty queue
    gives null. *)
Theorem bipbuf_poll_takes me size :
  bip_ok me → 0 <= size <= a_end me - a_start me →
  if bipbuf_is_empty me then bipbuf_poll me size = (None, me) ∧ contents me = []
  else ∃ me', bipbuf_poll me size = (Some (a_start me), me') ∧ bip_ok me' ∧
    slice (a_start me) (a_start me + size) (data me) = take (Z.to_nat size) (contents me) ∧
    contents me' = drop (Z.to_nat size) (contents me).
Proof.
  intros Hok Hs. unfold bipbuf_poll. destruct (bipbuf_is_empty me) eqn:He.
  { split; [done|]. by apply empty_spec. }
  pose proof Hok as []. apply Z.eqb_neq in He. bip_arith.
  rewrite (proj2 (Z.ltb_ge _ _)) by lia. eexists. split; [done|].
  assert (contents me = slice (a_start me) (a_start me + size) (data me) ++
    (slice (a_start me + size) (a_end me) (data me) ++ slice 0 (b_end me) (data me))) as Hc.
  { unfold contents. by rewrite (slice_split (a_start me) (a_start me + size)), (assoc_L (++)) by lia. }
  pose proof (slice_length (a_start me) (a_start me + size) (data me) ltac:(lia) ltac:(lia)) as Hl.
  assert (Z.to_nat size = length (slice (a_start me) (a_start me + size) (data me))) as Hsz by lia.
  rewrite switch_contents, Hc, Hsz, take_app_length, drop_app_length.
  cbn [a_start a_end b_inuse size_ b_end data].
  destruct (Z.eqb_spec (a_start me + size) (a_end me)) as [Ee|Ee].
  - rewrite Ee, slice_empty. destruct (Z.eqb_spec (b_inuse me) 1) as [Hi|Hi].
    + split; [apply switch_ok; split; simpl; auto; lia|]. split; [done|].
      unfold contents. simpl. by rewrite slice_empty, app_nil_r.
    + destruct ok_inuse0 as [|[Hi0 Hb]]; [done|].
      split; [apply switch_ok; split; simpl; auto; lia|]. split; [done|].
      unfold contents. simpl. by rewrite Hb, !slice_empty.
  - split; [apply switch_ok; split; simpl; auto; lia|]. done.
Qed.

(** [bipbuf_poll] checks the size against the end of the array and not of
    the queue: polling three bytes when two are queued moves the start past the
    end, and the used size becomes negative. *)
Theorem bipbuf_poll_overruns :
  let me := snd (bipbuf_offer (bipbuf_init (mkBip 0 0 0 0 0 (replicate 8 0)) 8) [1; 2]) in
  bipbuf_used me = 2 ∧
  (let '(r, me') := bipbuf_poll me 3 in r = Some 0 ∧ bipbuf_used me' = -1).
Proof. vm_compute. done. Qed.

(** A buffer that has wrapped around: "cdef" in A, "gh" in B. *)
Definition demo_bip : bipbuf := mkBip 8 4 8 2 1 [7; 8; 0; 0; 3; 4; 5; 6].

Lemma demo_bip_ok : bip_ok demo_bip.
Proof. split; simpl; auto; lia. Qed.

Lemma bipbuf_offer_appends_witness : ∃ me',
  bipbuf_offer demo_bip [9] = (1, me') ∧ bip_ok me' ∧ contents me' = [3; 4; 5; 6; 7; 8; 9].
Proof. apply (bipbuf_offer_appends demo_bip [9] demo_bip_ok). Defined.

Lemma bipbuf_poll_takes_witness : ∃ me',
  bipbuf_poll demo_bip 4 = (Some 4, me') ∧ bip_ok me' ∧
  slice 4 8 (data demo_bip) = [3; 4; 5; 6] ∧ contents me' = [7; 8].
Proof. apply (bipbuf_poll_takes demo_bip 4 demo_bip_ok). by split. Defined.
