(* ===== verification/ObjCache.v ===== *)
(** The pool of equal-sized objects: [extra/KVS-DRAM-Cache/cache.c].

    Objects that are given back are kept on a stack for the next allocation.  In a debug
    build every object lies between two words with a fixed pattern, the red zones, and an
    object whose red zones were overwritten is refused when it is given back. *)

From S2P Require Import Prelude.

Definition initial_pool_size : nat := 64.

(** [redzone_pattern], [0xdeadbeefcafebabe], as it lies in memory on a little-endian
    machine. *)
Definition redzone_pattern : bytes := [0xbe; 0xba; 0xfe; 0xca; 0xef; 0xbe; 0xad; 0xde].

(** [cache_t] without the mutex and the name.  [ptr] is the array of [freetotal] entries.
    A constructor reads and writes the object, and answers a code; a destructor is an
    observable call. *)
Record cache_t := mkCache {
  ptr : list Z;
  bufsize : nat;
  freetotal : nat;
  freecurr : nat;
  constructor : option (bytes → Z * bytes);
  destructor : bool
}.

(** The blocks of [malloc] that are not freed, by address; the arguments of the calls of
    the destructor; [cache_error]; and how often [SIGABRT] was raised. *)
Record memory := mkMemory {
  blocks : gmap Z bytes;
  destroyed : list Z;
  cache_error : Z;
  aborts : nat
}.

Definition set_block (p : Z) (b : bytes) (m : memory) : memory :=
  mkMemory (<[p := b]> (blocks m)) (destroyed m) (cache_error m) (aborts m).

Definition free_block (p : Z) (m : memory) : memory :=
  mkMemory (delete p (blocks m)) (destroyed m) (cache_error m) (aborts m).

Definition call_destructor (p : Z) (m : memory) : memory :=
  mkMemory (blocks m) (destroyed m ++ [p]) (cache_error m) (aborts m).

Definition raise_abort (e : Z) (m : memory) : memory :=
  mkMemory (blocks m) (destroyed m) e (S (aborts m)).

(** [memcpy] into a block. *)
Definition write_block (off : nat) (d b : bytes) : bytes :=
  take off b ++ d ++ drop (off + length d) b.

Definition read_block (off len : nat) (b : bytes) : bytes := take len (drop off b).

Section Pool.
(** Whether [NDEBUG] is not defined. *)
Context (debug : bool).

Definition rz : nat := if debug then 8 else 0.

(** [allocated] says which of the three allocations, and the initialization of the mutex,
    succeed. *)
Definition cache_create (allocated : bool) (size : nat) (ctor : option (bytes → Z * bytes)) (dtor : bool) : option cache_t :=
  if allocated
  then Some (mkCache (replicate initial_pool_size 0) (size + 2 * rz) initial_pool_size 0 ctor dtor)
  else None.

Definition get_object (p : Z) : Z := p + Z.of_nat rz.

Definition set_free (l : list Z) (n : nat) (c : cache_t) : cache_t :=
  mkCache l (bufsize c) (freetotal c) n (constructor c) (destructor c).

(** The loop of [cache_destroy]. *)
Fixpoint destroy_loop (n : nat) (c : cache_t) (m : memory) : memory :=
  match n with
  | O => m
  | S n =>
      let p := nth n (ptr c) 0 in
      let m := if destructor c then call_destructor (get_object p) m else m in
      destroy_loop n c (free_block p m)
  end.

Definition cache_destroy (c : cache_t) (m : memory) : memory := destroy_loop (freecurr c) c m.

(** The red zones around the object of the block at [ret]. *)
Definition paint (ret : Z) (c : cache_t) (m : memory) : memory :=
  if debug then
    let b := default [] (blocks m !! ret) in
    set_block ret (write_block (8 + bufsize c - 16) redzone_pattern (write_block 0 redzone_pattern b)) m
  else m.

(** The constructor runs on the object inside a new block. *)
Definition construct (c : cache_t) (b : bytes) : Z * bytes :=
  match constructor c with
  | None => (0, b)
  | Some f =>
      let '(r, o) := f (read_block rz (bufsize c - 2 * rz) b) in (r, write_block rz o b)
  end.

(** [malloced] is what [malloc] returns if it is called: null, or the address of a block and
    what the block contains. *)
Definition do_cache_alloc (malloced : option (Z * bytes)) (c : cache_t) (m : memory) : option Z * cache_t * memory :=
  match freecurr c with
  | S n =>
      let ret := nth n (ptr c) 0 in
      (Some (get_object ret), set_free (ptr c) n c, paint ret c m)
  | O =>
      match malloced with
      | None => (None, c, m)
      | Some (ret, garbage) =>
          let '(code, b) := construct c garbage in
          if code =? 0 then (Some (get_object ret), c, paint ret c (set_block ret b m))
          else (None, c, m)
      end
  end.

(** [realloced] is what [realloc] returns if it is called: null, or what the new half of the
    array contains. *)
Definition push_object (realloced : option (list Z)) (p : Z) (c : cache_t) (m : memory) : cache_t * memory :=
  if (freecurr c <? freetotal c)%nat then (set_free (<[freecurr c := p]> (ptr c)) (S (freecurr c)) c, m)
  else
    match realloced with
    | Some g =>
        (mkCache (<[freecurr c := p]> (ptr c ++ g)) (bufsize c) (freetotal c * 2) (S (freecurr c))
           (constructor c) (destructor c), m)
    | None => (c, free_block p (if destructor c then call_destructor p m else m))
    end.

(** The two tests of the red zones, and the block of the object. *)
Definition do_cache_free (realloced : option (list Z)) (o : Z) (c : cache_t) (m : memory) : cache_t * memory :=
  let p := o - Z.of_nat rz in
  if debug then
    let b := default [] (blocks m !! p) in
    if decide (read_block (8 + bufsize c - 16) 8 b ≠ redzone_pattern) then (c, raise_abort 1 m)
    else if decide (read_block 0 8 b ≠ redzone_pattern) then (c, raise_abort (-1) m)
    else push_object realloced p c m
  else push_object realloced p c m.

(** [cache_alloc] and [cache_free] hold the mutex around these. *)
Definition cache_alloc := do_cache_alloc.
Definition cache_free := do_cache_free.

(** ** The pool against an allocator *)

(** A client's calls; [Store] is a write of the client to its object, which may run over. *)
Inductive pool_op :=
| Alloc (malloced : option (Z * bytes))
| Free (o : Z) (realloced : option (list Z))
| Store (o : Z) (off : nat) (d : bytes).

(** The client's store goes to the block of the object. *)
Definition client_store (o : Z) (off : nat) (d : bytes) (m : memory) : memory :=
  let p := o - Z.of_nat rz in
  match blocks m !! p with
  | Some b => set_block p (write_block (rz + off) d b) m
  | None => m
  end.

Definition pool_step (op : pool_op) (s : cache_t * memory) : option Z * (cache_t * memory) :=
  let '(c, m) := s in
  match op with
  | Alloc ma => let '(r, c, m) := cache_alloc ma c m in (r, (c, m))
  | Free o re => (None, cache_free re o c m)
  | Store o off d => (None, (c, client_store o off d m))
  end.

Fixpoint pool_run (ops : list pool_op) (s : cache_t * memory) : list (option Z) * (cache_t * memory) :=
  match ops with
  | [] => ([], s)
  | op :: ops =>
      let '(r, s) := pool_step op s in
      let '(rs, s) := pool_run ops s in (r :: rs, s)
  end.

(** The objects in use, with their contents. *)
Abbreviation objects := (gmap Z bytes).

(** What a call does to the objects in use, given what an allocation answers and what the
    object holds then. *)
Definition spec_step (op : pool_op) (r : option Z) (fill : bytes) (a : objects) : objects :=
  match op with
  | Alloc _ => match r with Some o => <[o := fill]> a | None => a end
  | Free o _ => delete o a
  | Store o off d => match a !! o with Some b => <[o := write_block off d b]> a | None => a end
  end.

(** A block of [malloc] is as long as asked for, and is not one that the program has;
    [realloc] doubles the array; the client gives back what it has, once, and stays inside its
    object. *)
Definition op_ok (size : nat) (op : pool_op) (s : cache_t * memory) (a : objects) : Prop :=
  match op with
  | Alloc (Some (p, g)) => blocks s.2 !! p = None ∧ length g = (size + 2 * rz)%nat
  | Alloc None => True
  | Free o re => is_Some (a !! o) ∧ match re with Some g => length g = freetotal s.1 | None => True end
  | Store o off d => is_Some (a !! o) ∧ (off + length d ≤ size)%nat
  end.

#[global] Instance op_ok_dec size op s a : Decision (op_ok size op s a).
Proof. destruct op as [[[p g]|]|o [g|]|o off d]; simpl; apply _. Defined.

(** A constructor keeps the length of the object. *)
Definition ctor_ok (ctor : option (bytes → Z * bytes)) : Prop :=
  match ctor with None => True | Some f => ∀ b, length (f b).2 = length b end.

(** What the object at [o] holds. *)
Definition object_at (size : nat) (o : option Z) (m : memory) : bytes :=
  match o with
  | Some o => read_block rz size (default [] (blocks m !! (o - Z.of_nat rz)))
  | None => []
  end.

(** The objects in use after a call. *)
Definition in_use (size : nat) (op : pool_op) (r : option Z) (m : memory) (a : objects) : objects :=
  spec_step op r (object_at size r m) a.

(** The calls keep to the contract of the pool and of the system's allocator. *)
Fixpoint ops_ok (size : nat) (ops : list pool_op) (s : cache_t * memory) (a : objects) : Prop :=
  match ops with
  | [] => True
  | op :: ops =>
      let '(r, s') := pool_step op s in
      op_ok size op s a ∧ ops_ok size ops s' (in_use size op r s'.2 a)
  end.

#[global] Instance ops_ok_dec size ops s a : Decision (ops_ok size ops s a).
Proof.
  revert s a. induction ops as [|op ops IH]; intros s a; cbn [ops_ok]; [apply _|].
  destruct (pool_step op s) as [r s']. apply _.
Defined.

(** What the pool promises of a sequence of calls: an allocation answers an object that is not
    in use, the objects in use hold what their users stored, no alarm is raised, and when
    all objects are back the destruction of the pool leaves no block behind. *)
Fixpoint pool_keeps (size : nat) (ops : list pool_op) (s : cache_t * memory) (a : objects) : Prop :=
  (∀ o b, a !! o = Some b → object_at size (Some o) s.2 = b) ∧ aborts s.2 = 0%nat ∧
  (a = ∅ → blocks (cache_destroy s.1 s.2) = ∅) ∧
  match ops with
  | [] => True
  | op :: ops =>
      let '(r, s') := pool_step op s in
      (∀ o, r = Some o → a !! o = None) ∧ pool_keeps size ops s' (in_use size op r s'.2 a)
  end.

Definition zones : bytes := if debug then redzone_pattern else [].

Record pool_ok (size : nat) (c : cache_t) (m : memory) (a : objects) : Prop := {
  po_bufsize : bufsize c = (size + 2 * rz)%nat;
  po_ptr : length (ptr c) = freetotal c;
  po_free : (freecurr c ≤ freetotal c)%nat;
  po_pos : (0 < freetotal c)%nat;
  po_nodup : NoDup (take (freecurr c) (ptr c));
  po_pooled : ∀ p, p ∈ take (freecurr c) (ptr c) →
    a !! get_object p = None ∧ ∃ b, blocks m !! p = Some b ∧ length b = bufsize c;
  po_used : ∀ o b, a !! o = Some b →
    length b = size ∧ blocks m !! (o - Z.of_nat rz) = Some (zones ++ b ++ zones);
  po_blocks : ∀ p, is_Some (blocks m !! p) →
    p ∈ take (freecurr c) (ptr c) ∨ is_Some (a !! get_object p);
  po_ctor : ctor_ok (constructor c);
  po_clean : cache_error m = 0 ∧ aborts m = 0%nat
}.

(** *** Blocks and zones *)

Lemma zones_length : length zones = rz.
Proof. unfold zones, rz. by destruct debug. Qed.

Lemma write_length off d b :
  (off + length d ≤ length b)%nat → length (write_block off d b) = length b.
Proof. intros. unfold write_block. rewrite !length_app, length_take, length_drop. lia. Qed.

Lemma write_app off d x b y :
  (off + length d ≤ length b)%nat →
  write_block (length x + off) d (x ++ b ++ y) = x ++ write_block off d b ++ y.
Proof.
  intros H. unfold write_block. rewrite take_app_add, <-Nat.add_assoc, drop_app_add.
  rewrite take_app_le, drop_app_le by lia. by rewrite <-!(assoc_L (++)).
Qed.

Lemma read_app x b y size :
  length b = size → read_block (length x) size (x ++ b ++ y) = b.
Proof. intros <-. unfold read_block. by rewrite drop_app_length, take_app_length. Qed.

Lemma write_over n x d y z :
  n = length x → length d = length y → write_block n d (x ++ y ++ z) = x ++ d ++ z.
Proof.
  intros -> H. unfold write_block.
  by rewrite take_app_length, drop_app_add, H, drop_app_length.
Qed.

(** What the tests of the red zones read. *)
Lemma read_zones size lo b hi :
  length b = size → length lo = 8%nat → length hi = 8%nat →
  read_block (8 + (size + 2 * 8) - 16) 8 (lo ++ b ++ hi) = hi ∧ read_block 0 8 (lo ++ b ++ hi) = lo.
Proof.
  intros Hb Hlo Hhi. split; [|by apply (read_app [] lo)].
  rewrite (assoc_L (++)), <-(app_nil_r hi) at 1.
  replace (8 + (size + 2 * 8) - 16)%nat with (length (lo ++ b)) by (rewrite length_app; lia).
  by apply read_app.
Qed.

(** A block is its two zones and the object between them. *)
Lemma block_split size b :
  length b = (size + 2 * rz)%nat →
  ∃ x y, b = x ++ read_block rz size b ++ y ∧ length x = rz ∧ length y = rz ∧
    length (read_block rz size b) = size.
Proof.
  intros H. exists (take rz b), (drop size (drop rz b)). unfold read_block.
  rewrite !take_drop, !length_take, !length_drop. split_and!; [done|lia..].
Qed.

Lemma paint_block size ret c m b :
  bufsize c = (size + 2 * rz)%nat → blocks m !! ret = Some b → length b = bufsize c →
  paint ret c m = set_block ret (zones ++ read_block rz size b ++ zones) m.
Proof.
  intros Hs Hb Hl. rewrite Hs in Hl. destruct (block_split _ _ Hl) as (x & y & E & Hx & Hy & Ho).
  set (o := read_block rz size b) in *. unfold paint, zones, rz in *. clearbody o.
  destruct debug.
  - rewrite Hb. cbn [default]. f_equal. rewrite E, Hs.
    replace (8 + (size + 2 * 8) - 16)%nat with (length (redzone_pattern ++ o))
      by (rewrite length_app, Ho; simpl; lia).
    transitivity (write_block (length (redzone_pattern ++ o)) redzone_pattern ((redzone_pattern ++ o) ++ y ++ [])).
    + f_equal. rewrite app_nil_r, <-(assoc_L (++)). by apply (write_over 0 [] redzone_pattern x (o ++ y)).
    + rewrite write_over by done. by rewrite app_nil_r, <-(assoc_L (++)).
  - destruct x, y; try done. rewrite E in Hb. unfold set_block. rewrite insert_id by done. by destruct m.
Qed.

Lemma set_block_twice p x y m : set_block p x (set_block p y m) = set_block p x m.
Proof. unfold set_block. simpl. by rewrite insert_insert_eq. Qed.

Lemma object_base p : get_object p - Z.of_nat rz = p.
Proof. unfold get_object. lia. Qed.

Lemma base_object o : get_object (o - Z.of_nat rz) = o.
Proof. unfold get_object. lia. Qed.

(** *** The operations keep the invariant *)

Lemma take_S_nth n (l : list Z) : (n < length l)%nat → take (S n) l = take n l ++ [nth n l 0].
Proof.
  intros H. destruct (lookup_lt_is_Some_2 l n H) as [x E].
  rewrite (take_S_r _ _ _ E). by rewrite (nth_lookup_Some _ _ _ _ E).
Qed.

(** The destruction of the pool frees the blocks it holds. *)
Lemma destroy_loop_blocks c n m0 :
  (n ≤ length (ptr c))%nat →
  blocks (destroy_loop n c m0) = filter (λ '(p, _), p ∉ take n (ptr c)) (blocks m0).
Proof.
  revert m0. induction n as [|n IH]; intros m0 Hn.
  - simpl. symmetry. apply map_filter_id. intros; set_solver.
  - cbn [destroy_loop]. rewrite IH by lia. rewrite take_S_nth by lia.
    transitivity (filter (λ '(p, _), p ∉ take n (ptr c)) (delete (nth n (ptr c) 0) (blocks m0)));
      [by destruct (destructor c)|].
    apply map_eq. intros p. apply option_eq. intros b.
    rewrite !map_lookup_filter_Some, lookup_delete_Some. set_solver.
Qed.

Section Steps.
Context (size : nat) (c : cache_t) (m : memory) (a : objects) (OK : pool_ok size c m a).

(** A block that is neither pooled nor in use becomes an object in use. *)
Lemma hand_out p b c' m' :
  bufsize c' = bufsize c → length (ptr c') = freetotal c' → (0 < freetotal c')%nat →
  constructor c' = constructor c → (freecurr c' ≤ freetotal c')%nat →
  take (freecurr c) (ptr c) = take (freecurr c') (ptr c') ∨
  take (freecurr c) (ptr c) = take (freecurr c') (ptr c') ++ [p] →
  a !! get_object p = None → p ∉ take (freecurr c') (ptr c') →
  length b = size →
  m' = set_block p (zones ++ b ++ zones) m →
  pool_ok size c' m' (<[get_object p := b]> a) ∧ object_at size (Some (get_object p)) m' = b.
Proof.
  destruct OK as [B L F Z N P U K T C]. intros EB EL EZ ET EF EP Ha Hp Hb ->.
  assert (Hsub : take (freecurr c') (ptr c') ⊆ take (freecurr c) (ptr c)).
  { destruct EP as [->| ->]; set_solver. }
  split.
  - split; try done; try congruence.
    + destruct EP as [E|E]; rewrite E in N; [done|]. by apply list.NoDup_app in N as (? & _).
    + intros q Hq. assert (q ≠ p) by set_solver. rewrite lookup_insert_ne by (unfold get_object; lia).
      simpl. rewrite lookup_insert_ne by done. rewrite EB. apply P, Hsub, Hq.
    + intros o b' [[<- <-]|[Hn Ho]]%lookup_insert_Some; simpl.
      * rewrite object_base, lookup_insert_eq. done.
      * rewrite lookup_insert_ne by (unfold get_object in Hn; lia). by apply U.
    + simpl. intros q. rewrite lookup_insert_is_Some'. intros [->|Hq].
      * right. rewrite lookup_insert_eq. by eexists.
      * destruct (decide (q = p)) as [->|Hn]; [right; rewrite lookup_insert_eq; by eexists|].
        destruct (K q Hq) as [Hq'|Hq'].
        -- left. destruct EP as [E|E]; rewrite E in Hq'; [done|].
           apply elem_of_app in Hq' as [?|?%list_elem_of_singleton]; done.
        -- right. rewrite lookup_insert_ne by (unfold get_object; lia). done.
  - unfold object_at. rewrite object_base. simpl. rewrite lookup_insert_eq. simpl.
    rewrite <-zones_length. by apply read_app.
Qed.

Lemma construct_ok garbage code b :
  length garbage = bufsize c → construct c garbage = (code, b) → length b = bufsize c.
Proof.
  intros Hg. unfold construct. pose proof (po_ctor _ _ _ _ OK) as T. destruct (constructor c) as [f|]; [|congruence].
  destruct (f _) as [r o] eqn:E. intros [= <- <-]. pose proof (T (read_block rz (bufsize c - 2 * rz) garbage)) as T'.
  rewrite E in T'. cbn [snd] in T'. rewrite (po_bufsize _ _ _ _ OK) in *.
  rewrite write_length; [done|]. rewrite T'. unfold read_block. rewrite length_take, length_drop. lia.
Qed.

Lemma alloc_ok ma r c' m' :
  op_ok size (Alloc ma) (c, m) a → do_cache_alloc ma c m = (r, c', m') →
  (∀ o, r = Some o → a !! o = None) ∧ pool_ok size c' m' (in_use size (Alloc ma) r m' a).
Proof.
  pose proof OK as [B L F Z N P U K T C]. intros Ho. unfold do_cache_alloc.
  destruct (freecurr c) as [|n] eqn:En.
  - destruct ma as [[p g]|]; [|intros [= <- <- <-]; done]. destruct Ho as [Hp Hg].
    destruct (construct c g) as [code b] eqn:Ec. rewrite <-B in Hg.
    pose proof (construct_ok _ _ _ Hg Ec) as Hb. destruct (code =? 0); [|intros [= <- <- <-]; done].
    intros [= <- <- <-]. erewrite (paint_block size); [|done|apply lookup_insert_eq|done].
    destruct (block_split size b) as (_ & _ & _ & _ & _ & Hl); [congruence|].
    assert (a !! get_object p = None) as Ha.
    { destruct (a !! get_object p) eqn:E; [|done]. destruct (U _ _ E) as [_ E'].
      rewrite object_base in E'. simpl in Hp. congruence. }
    destruct (hand_out p (read_block rz size b) c (set_block p (zones ++ read_block rz size b ++ zones) m))
      as [H1 H2]; try done; [lia|by left|rewrite En; simpl; set_solver|].
    rewrite set_block_twice.
    split; [naive_solver|]. unfold in_use, spec_step. by rewrite H2.
  - intros [= <- <- <-]. set (p := nth n (ptr c) 0) in *.
    assert (ET : take (S n) (ptr c) = take n (ptr c) ++ [p]) by (apply take_S_nth; lia). clearbody p.
    rewrite ET in *. destruct (P p) as [Ha (b & Hb & Hl)]; [set_solver|].
    rewrite (paint_block size _ _ _ b) by done.
    destruct (block_split size b) as (_ & _ & _ & _ & _ & Hl'); [congruence|].
    destruct (hand_out p (read_block rz size b) (set_free (ptr c) n c)
      (set_block p (zones ++ read_block rz size b ++ zones) m)) as [H1 H2]; try done; try (simpl; lia).
    + right. simpl. by rewrite En.
    + simpl. apply list.NoDup_app in N as (_ & N & _). intros Hi. apply (N p Hi). set_solver.
    + split; [naive_solver|]. unfold in_use, spec_step. by rewrite H2.
Qed.

(** A block of an object goes to the pool. *)
Lemma take_back p c' o b :
  p = o - Z.of_nat rz → a !! o = Some b →
  bufsize c' = bufsize c → length (ptr c') = freetotal c' → (0 < freetotal c')%nat →
  constructor c' = constructor c → (freecurr c' ≤ freetotal c')%nat →
  take (freecurr c') (ptr c') = take (freecurr c) (ptr c) ++ [p] →
  pool_ok size c' m (delete o a).
Proof.
  destruct OK as [B L F Z N P U K T C]. intros -> Ho EB EL EZ ET EF EP.
  destruct (U _ _ Ho) as [Hl Hb].
  split; try done; try congruence; rewrite ?EP.
  - apply list.NoDup_app. split_and!; [done| |by apply NoDup_singleton].
    intros x Hx ->%list_elem_of_singleton. destruct (P _ Hx) as [Hn _]. rewrite base_object in Hn. congruence.
  - intros p [Hp| ->%list_elem_of_singleton]%elem_of_app.
    + destruct (P p Hp) as [Hn Hb']. rewrite EB. split; [|done].
      apply lookup_delete_None. by right.
    + rewrite base_object, lookup_delete_eq. split; [done|]. eexists. split; [done|].
      rewrite !length_app, zones_length. lia.
  - intros o' b' [_ H]%lookup_delete_Some. by apply U.
  - intros p Hp. rewrite elem_of_app, list_elem_of_singleton.
    destruct (decide (p = o - Z.of_nat rz)) as [->|Hn]; [by left; right|].
    destruct (K p Hp) as [?|?]; [by left; left|]. right.
    rewrite lookup_delete_ne; [done|]. intros ->. by rewrite object_base in Hn.
Qed.

Lemma take_insert_snoc n (p : Z) (l l' : list Z) :
  length l = n ∨ (n < length l)%nat → (n < length (l ++ l'))%nat → take (S n) (<[n := p]> (l ++ l')) = take n l ++ [p].
Proof.
  intros H H'. erewrite take_S_r; [|by apply list_lookup_insert_eq].
  rewrite take_insert_ge by lia. rewrite take_app_le by lia. done.
Qed.

Lemma push_ok re o b c' m' :
  a !! o = Some b → match re with Some g => length g = freetotal c | None => True end →
  push_object re (o - Z.of_nat rz) c m = (c', m') →
  pool_ok size c' m' (delete o a).
Proof.
  pose proof OK as [B L F Z N P U K T C]. intros Ho Hre. unfold push_object.
  destruct (freecurr c <? freetotal c)%nat eqn:Hc;
    [apply Nat.ltb_lt in Hc|apply Nat.ltb_ge in Hc; destruct re as [g|]]; intros [= <- <-].
  - eapply take_back; try done; simpl; [by rewrite length_insert|].
    pose proof (take_insert_snoc (freecurr c) (o - Z.of_nat rz) (ptr c) []) as E.
    rewrite app_nil_r in E. apply E; [right|]; lia.
  - eapply take_back; try done; simpl; [rewrite length_insert, length_app; lia|lia..|].
    apply take_insert_snoc; [left|rewrite length_app]; lia.
  - set (m' := if destructor c then _ else m).
    assert (blocks m' = blocks m ∧ cache_error m' = 0 ∧ aborts m' = 0%nat) as (Em & ?).
    { unfold m'. by destruct (destructor c). }
    split; try done; simpl; rewrite ?Em.
    + intros p Hp. destruct (P p Hp) as [Hn Hb]. split; [apply lookup_delete_None; by right|].
      rewrite lookup_delete_ne; [done|]. intros <-. rewrite base_object in Hn. congruence.
    + intros o' b' [Hn H']%lookup_delete_Some. rewrite lookup_delete_ne by lia. by apply U.
    + intros p [Hn Hp]%lookup_delete_is_Some. destruct (K p Hp) as [?|?]; [by left|right].
      apply lookup_delete_is_Some. split; [|done]. intros ->. by rewrite object_base in Hn.
Qed.

(** The tests of the red zones pass for an object whose zones are whole. *)
Lemma zones_pass o b re :
  a !! o = Some b → do_cache_free re o c m = push_object re (o - Z.of_nat rz) c m.
Proof.
  intros Ho. destruct (po_used _ _ _ _ OK _ _ Ho) as [Hl Hb].
  unfold do_cache_free. rewrite Hb, (po_bufsize _ _ _ _ OK). unfold zones, rz in *. destruct debug; [|done].
  cbn [default]. rewrite !decide_False; [done| |].
  - intros []. by apply (read_zones size).
  - intros []. by apply (read_zones size).
Qed.

Lemma client_store_ok o off d :
  op_ok size (Store o off d) (c, m) a →
  pool_ok size c (client_store o off d m) (in_use size (Store o off d) None (client_store o off d m) a).
Proof.
  intros [[b Ho] Hd]. pose proof OK as [B L F Z N P U K T C]. destruct (U _ _ Ho) as [Hl Hb].
  unfold in_use, spec_step, client_store. rewrite Hb, Ho.
  rewrite <-zones_length, write_app, zones_length by lia.
  split; try done; simpl.
  - intros p Hp. destruct (P p Hp) as [Hn (b' & Hb' & Hl')].
    assert (get_object p ≠ o) by congruence.
    rewrite lookup_insert_ne by done. split; [done|].
    exists b'. rewrite lookup_insert_ne; [done|]. intros <-. by rewrite base_object in *.
  - intros o' b' [[<- <-]|[Hn Ho']]%lookup_insert_Some.
    + rewrite lookup_insert_eq, write_length by lia. done.
    + rewrite lookup_insert_ne by lia. by apply U.
  - intros p [<-|Hp]%lookup_insert_is_Some'.
    + right. rewrite base_object, lookup_insert_eq. by eexists.
    + destruct (K p Hp) as [?|?]; [by left|right]. apply lookup_insert_is_Some'. by right.
Qed.

Lemma step_ok op r s' :
  op_ok size op (c, m) a → pool_step op (c, m) = (r, s') →
  (∀ o, r = Some o → a !! o = None) ∧ pool_ok size s'.1 s'.2 (in_use size op r s'.2 a).
Proof.
  intros Ho. destruct op as [ma|o re|o off d]; cbn [pool_step].
  - unfold cache_alloc. destruct (do_cache_alloc ma c m) as [[r' c'] m'] eqn:E. intros [= <- <-].
    by eapply alloc_ok.
  - destruct Ho as [[b Hb] Hre]. unfold cache_free. rewrite (zones_pass _ _ _ Hb). intros [= <- <-].
    destruct (push_object _ _ _ _) as [c' m'] eqn:E. split; [done|]. by eapply push_ok.
  - intros [= <- <-]. split; [done|]. by apply client_store_ok.
Qed.

Lemma destroy_empty : a = ∅ → blocks (cache_destroy c m) = ∅.
Proof.
  intros Ea. destruct OK as [B L F Z N P U K T C]. unfold cache_destroy.
  rewrite destroy_loop_blocks by lia. apply map_empty. intros p.
  apply eq_None_not_Some. intros [b [Hb Hn]%map_lookup_filter_Some].
  destruct (K p) as [?|[? H]]; [by eexists|done|]. by rewrite Ea, lookup_empty in H.
Qed.
End Steps.

Lemma pool_keeps_ok size ops s a :
  pool_ok size s.1 s.2 a → ops_ok size ops s a → pool_keeps size ops s a.
Proof.
  revert s a. induction ops as [|op ops IH]; intros [c m] a OK Hops;
    (split_and!; [|by apply OK|by eapply destroy_empty|]).
  1, 3: intros o b Ho; destruct (po_used _ _ _ _ OK _ _ Ho) as [Hl Hb]; unfold object_at; simpl in Hb |- *;
    rewrite Hb; simpl; rewrite <-zones_length; by apply read_app.
  - done.
  - cbn [ops_ok] in Hops. destruct (pool_step op (c, m)) as [r s'] eqn:E. destruct Hops as [H1 H2].
    destruct (step_ok _ _ _ _ OK _ _ _ H1 E) as [H3 H4]. by eauto.
Qed.

Lemma created_ok size ctor dtor c :
  ctor_ok ctor → cache_create true size ctor dtor = Some c → pool_ok size c (mkMemory ∅ [] 0 0) ∅.
Proof.
  intros Hc [= <-]. split; simpl; try done; try lia; try set_solver.
  - unfold initial_pool_size. lia.
  - apply NoDup_nil_2.
Qed.

(** C32: a pool that was created, used by any sequence of allocations, returns and stores in the
    objects, with [malloc], [realloc] and the constructor failing whenever they like, hands out
    only objects that are not in use, in a debug build without a false alarm; an object in use
    keeps what its user stored, and when all objects are back, destroying the pool leaves no
    block of memory behind. *)
Theorem pool_history size ctor dtor c ops :
  ctor_ok ctor → cache_create true size ctor dtor = Some c →
  ops_ok size ops (c, mkMemory ∅ [] 0 0) ∅ →
  pool_keeps size ops (c, mkMemory ∅ [] 0 0) ∅.
Proof. intros Hc E. by eapply pool_keeps_ok, created_ok. Qed.

(** *** Overruns *)

(** In a debug build an object whose user wrote over its ends, so that the zones hold [lo] and
    [hi], is refused when it comes back: the alarm is raised, with the code for the end that was
    found first, and the pool and the block stay as they are. *)
Theorem overrun_refused size c m a o b lo hi re :
  debug = true → pool_ok size c m a → a !! o = Some b →
  length lo = rz → length hi = rz → (lo, hi) ≠ (zones, zones) →
  let m' := set_block (o - Z.of_nat rz) (lo ++ b ++ hi) m in
  do_cache_free re o c m' = (c, raise_abort (if decide (hi = zones) then -1 else 1) m').
Proof.
  intros Hd OK Ho Hlo Hhi Hn m'. destruct (po_used _ _ _ _ OK _ _ Ho) as [Hl _].
  unfold do_cache_free, m', zones, rz in *. rewrite Hd in *. simpl blocks. rewrite lookup_insert_eq.
  cbn [default]. rewrite (po_bufsize _ _ _ _ OK). unfold rz. rewrite Hd.
  unfold id. destruct (read_zones size lo b hi) as [-> ->]; [done..|].
  destruct (decide (hi = redzone_pattern)) as [->|].
  - rewrite decide_False by naive_solver. rewrite decide_True; [done|]. intros ->. done.
  - by rewrite decide_True.
Qed.
End Pool.

(** *** The theorems at concrete inputs *)

Abbreviation no_memory := (mkMemory ∅ [] 0 0).
Abbreviation small_pool := (mkCache (replicate 64 0) 20 64 0 None true).
Abbreviation small_ops :=
  [Alloc (Some (1000, replicate 20%nat 7)); Store 1008 1 [1; 2]; Alloc (Some (2000, replicate 20%nat 9));
   Free 1008 None; Alloc None; Free 2008 None; Free 1008 None; Alloc None].

(** The last object given back is the next one handed out. *)
Lemma small_run :
  (pool_run true small_ops (small_pool, no_memory)).1
  = [Some 1008; None; Some 2008; None; Some 1008; None; None; Some 1008].
Proof. reflexivity. Qed.

Lemma pool_history_witness :
  cache_create true true 4 None true = Some small_pool ∧
  pool_keeps true 4 small_ops (small_pool, no_memory) ∅.
Proof.
  split; [reflexivity|]. apply (pool_history true 4 None true); [exact I|reflexivity|by_decide].
Defined.

Lemma overrun_refused_witness :
  let m := mkMemory {[1000 := redzone_pattern ++ [1; 2; 3; 4] ++ redzone_pattern]} [] 0 0 in
  let m' := set_block 1000 (redzone_pattern ++ [1; 2; 3; 4] ++ replicate 8%nat 0) m in
  do_cache_free true None 1008 small_pool m' = (small_pool, raise_abort 1 m').
Proof.
  apply (overrun_refused true 4 small_pool _ {[1008 := [1; 2; 3; 4]]} 1008 [1; 2; 3; 4]
           redzone_pattern (replicate 8%nat 0) None); [reflexivity| |reflexivity..|].
  - split; simpl; try done; try lia; try apply NoDup_nil_2; try set_solver.
    + intros o b [<- <-]%lookup_singleton_Some. done.
    + intros p [? [<- _]%lookup_singleton_Some]. right. by eexists.
  - done.
Defined.

(** In a debug build an object that does not fit the pool is destroyed, but its destructor gets
    the address of the block, which is not that of the object. *)
Lemma destructor_gets_block :
  let full := mkCache (replicate 64%nat 5) 20 64 64 None true in
  let m := mkMemory {[1000 := redzone_pattern ++ [1; 2; 3; 4] ++ redzone_pattern]} [] 0 0 in
  destroyed (do_cache_free true None (get_object true 1000) full m).2 = [1000] ∧
  destroyed (cache_destroy true (mkCache [1000] 20 1 1 None true) m) = [get_object true 1000].
Proof. vm_compute. done. Qed.
