(* ===== verification/Assoc.v ===== *)
(** The cache's hash table: [extra/KVS-DRAM-Cache/assoc.c].

    An array of chains, indexed by the low bits of a key's hash.  When it is too
    full it grows to twice the size, one old bucket at a time: until a bucket
    has been moved, its keys are looked up, inserted and deleted in the old
    array. *)

From S2P Require Import Prelude.

(** An item: its key, and what else identifies it. *)
Record item := mkItem { it_key : bytes; it_id : Z }.

#[global] Instance item_eq_dec : EqDecision item.
Proof. solve_decision. Defined.

(** The table; a chain is listed in the order of its [h_next] pointers. *)
Record assoc := mkAssoc {
  hashpower : nat;
  primary_hashtable : list (list item);
  old_hashtable : list (list item);
  hash_items : Z;
  expanding : bool;
  started_expanding : bool;
  expand_bucket : nat
}.

Definition hashsize (n : nat) : Z := 2 ^ Z.of_nat n.
Definition hashmask (n : nat) : Z := hashsize n - 1.

(** [hv & hashmask(n)]. *)
Definition bucket (hv : Z) (n : nat) : nat := Z.to_nat (Z.land hv (hashmask n)).

Definition empty_table (n : nat) : list (list item) := replicate (Z.to_nat (hashsize n)) [].

(** [calloc] fails: the program exits. *)
Definition assoc_init (hashpower_default hashtable_init : nat) (calloc_ok : bool) : option assoc :=
  let hp := if (hashtable_init =? 0)%nat then hashpower_default else hashtable_init in
  if calloc_ok then Some (mkAssoc hp (empty_table hp) [] 0 false false 0) else None.

(** Is the key's bucket still in the old table? *)
Definition in_old (s : assoc) (hv : Z) : bool :=
  expanding s && (expand_bucket s <=? bucket hv (hashpower s - 1))%nat.

Definition chain_of (s : assoc) (hv : Z) : list item :=
  if in_old s hv then default [] (old_hashtable s !! bucket hv (hashpower s - 1))
  else default [] (primary_hashtable s !! bucket hv (hashpower s)).

Definition set_chain (s : assoc) (hv : Z) (c : list item) : assoc :=
  if in_old s hv then
    mkAssoc (hashpower s) (primary_hashtable s)
      (<[bucket hv (hashpower s - 1) := c]> (old_hashtable s))
      (hash_items s) (expanding s) (started_expanding s) (expand_bucket s)
  else
    mkAssoc (hashpower s) (<[bucket hv (hashpower s) := c]> (primary_hashtable s))
      (old_hashtable s) (hash_items s) (expanding s) (started_expanding s) (expand_bucket s).

(** [nkey == it->nkey && memcmp(key, ITEM_key(it), nkey) == 0] *)
Definition same_key (key : bytes) (it : item) : bool := bool_decide (it_key it = key).

Fixpoint chain_find (key : bytes) (c : list item) : option item :=
  match c with
  | [] => None
  | it :: c' => if same_key key it then Some it else chain_find key c'
  end.

Definition assoc_find (s : assoc) (key : bytes) (hv : Z) : option item :=
  chain_find key (chain_of s hv).

(** [_hashitem_before]: the chain up to the key's item, and from it on. *)
Fixpoint hashitem_before (key : bytes) (c : list item) : list item * list item :=
  match c with
  | [] => ([], [])
  | it :: c' =>
      if same_key key it then ([], c)
      else let '(pre, post) := hashitem_before key c' in (it :: pre, post)
  end.

Definition with_items (n : Z) (s : assoc) : assoc :=
  mkAssoc (hashpower s) (primary_hashtable s) (old_hashtable s) n
    (expanding s) (started_expanding s) (expand_bucket s).

Definition with_started (b : bool) (s : assoc) : assoc :=
  mkAssoc (hashpower s) (primary_hashtable s) (old_hashtable s) (hash_items s)
    (expanding s) b (expand_bucket s).

(** Wake up the maintenance thread. *)
Definition assoc_start_expand (s : assoc) : assoc :=
  if started_expanding s then s else with_started true s.

Definition assoc_insert (s : assoc) (it : item) (hv : Z) : assoc :=
  let s := set_chain s hv (it :: chain_of s hv) in
  let s := with_items (u32 (hash_items s + 1)) s in
  if negb (expanding s) && (hashsize (hashpower s) * 3 / 2 <? hash_items s)
  then assoc_start_expand s else s.

(** The callers delete only what they have found: otherwise the assertion fails. *)
Definition assoc_delete (s : assoc) (key : bytes) (hv : Z) : option assoc :=
  match hashitem_before key (chain_of s hv) with
  | (pre, _ :: nxt) => Some (set_chain (with_items (u32 (hash_items s - 1)) s) hv (pre ++ nxt))
  | (_, []) => None
  end.

(** [assoc_expand]: double the table; when [calloc] fails it stays as it is. *)
Definition assoc_expand (s : assoc) (calloc_ok : bool) : assoc :=
  if calloc_ok then
    mkAssoc (S (hashpower s)) (empty_table (S (hashpower s))) (primary_hashtable s)
      (hash_items s) true (started_expanding s) 0
  else
    mkAssoc (hashpower s) (primary_hashtable s) (primary_hashtable s)
      (hash_items s) (expanding s) (started_expanding s) (expand_bucket s).

Section Assoc.
(** [hash], the function the program was started with. *)
Context (hash : bytes → Z).

(** Move one item to the primary table. *)
Definition move_item (hp : nat) (t : list (list item)) (it : item) : list (list item) :=
  let b := bucket (hash (it_key it)) hp in
  <[b := it :: default [] (t !! b)]> t.

(** One round of the maintenance thread's inner loop, with the bucket's lock. *)
Definition move_bucket (s : assoc) : assoc :=
  let t := foldl (move_item (hashpower s)) (primary_hashtable s)
             (default [] (old_hashtable s !! expand_bucket s)) in
  let eb := S (expand_bucket s) in
  let done := Z.of_nat eb =? hashsize (hashpower s - 1) in
  mkAssoc (hashpower s) t (if done then [] else <[expand_bucket s := []]> (old_hashtable s))
    (hash_items s) (negb done) (started_expanding s) eb.

(** [for (ii = 0; ii < hash_bulk_move && expanding; ++ii)]; [locks] says
    whether [item_trylock] succeeds. *)
Fixpoint bulk_move (locks : list bool) (s : assoc) : assoc :=
  match locks with
  | [] => s
  | l :: locks' =>
      if expanding s then bulk_move locks' (if l then move_bucket s else s) else s
  end.

(** One round of the maintenance thread: move buckets; when there is nothing to
    move, wait for the signal and then grow the table. *)
Definition maintenance_round (locks : list bool) (calloc_ok : bool) (s : assoc) : assoc :=
  let s := bulk_move locks s in
  if expanding s then s else assoc_expand (with_started false s) calloc_ok.

(** ** The table is a map *)

Definition items (s : assoc) : list item :=
  concat (primary_hashtable s) ++ if expanding s then concat (old_hashtable s) else [].

(** Every item is in the chain where it will be looked for. *)
Record in_place (s : assoc) : Prop := {
  as_len : length (primary_hashtable s) = Z.to_nat (hashsize (hashpower s));
  as_old : expanding s = true →
    (0 < hashpower s)%nat ∧ length (old_hashtable s) = Z.to_nat (hashsize (hashpower s - 1)) ∧
    (expand_bucket s < length (old_hashtable s))%nat;
  as_primary i c it : primary_hashtable s !! i = Some c → it ∈ c →
    bucket (hash (it_key it)) (hashpower s) = i ∧
    (expanding s = true → (bucket (hash (it_key it)) (hashpower s - 1) < expand_bucket s)%nat);
  as_in_old i c it : expanding s = true → old_hashtable s !! i = Some c → it ∈ c →
    bucket (hash (it_key it)) (hashpower s - 1) = i ∧ (expand_bucket s ≤ i)%nat
}.

Record assoc_ok (s : assoc) : Prop := {
  as_place : in_place s;
  as_once : NoDup (it_key <$> items s);
  as_count : hash_items s = u32 (Z.of_nat (length (items s)))
}.

Definition amap (s : assoc) : gmap bytes item :=
  list_to_map ((λ it, (it_key it, it)) <$> items s).

Lemma hashsize_pos n : 0 < hashsize n.
Proof. unfold hashsize. apply Z.pow_pos_nonneg; lia. Qed.

Lemma bucket_mod hv n : bucket hv n = Z.to_nat (hv mod hashsize n).
Proof.
  unfold bucket, hashmask, hashsize. f_equal. rewrite <-Z.land_ones by lia.
  f_equal. by rewrite Z.ones_equiv.
Qed.

Lemma bucket_lt hv n : (bucket hv n < Z.to_nat (hashsize n))%nat.
Proof.
  rewrite bucket_mod. pose proof (hashsize_pos n).
  pose proof (Z.mod_pos_bound hv (hashsize n)). lia.
Qed.

Lemma amap_lookup s key it :
  assoc_ok s → amap s !! key = Some it ↔ it ∈ items s ∧ it_key it = key.
Proof.
  intros Hok. unfold amap. rewrite <-elem_of_list_to_map.
  - rewrite list_elem_of_fmap. naive_solver.
  - rewrite <-list_fmap_compose. apply Hok.
Qed.

Lemma amap_perm s s' : NoDup (it_key <$> items s) → items s' ≡ₚ items s → amap s' = amap s.
Proof.
  intros Hnd Hp. unfold amap. apply list_to_map_proper; [|by rewrite Hp].
  rewrite <-list_fmap_compose. by rewrite Hp.
Qed.

(** ** Chains *)

Lemma concat_split (t : list (list item)) i c :
  t !! i = Some c →
  ∃ rest, concat t ≡ₚ c ++ rest ∧ ∀ c', concat (<[i := c']> t) ≡ₚ c' ++ rest.
Proof.
  revert i. induction t as [|d t IH]; intros [|i] Hi; simplify_eq/=; [by eauto|].
  destruct (IH i Hi) as (rest & Hr & Hr'). exists (d ++ rest). split; [|intros c'].
  - rewrite Hr. apply Permutation_app_swap_app.
  - rewrite Hr'. apply Permutation_app_swap_app.
Qed.

Lemma elem_of_concat (t : list (list item)) it :
  it ∈ concat t ↔ ∃ i c, t !! i = Some c ∧ it ∈ c.
Proof.
  rewrite list_elem_of_In, in_concat. split.
  - intros (c & Hc & Hit). apply list_elem_of_In, list_elem_of_lookup in Hc as [i Hi].
    exists i, c. split; [done|by apply list_elem_of_In].
  - intros (i & c & Hc & Hit). exists c. split; apply list_elem_of_In; [|done].
    by eapply list_elem_of_lookup_2.
Qed.

Lemma elem_of_items s it :
  it ∈ items s ↔ (∃ i c, primary_hashtable s !! i = Some c ∧ it ∈ c) ∨
    expanding s = true ∧ ∃ i c, old_hashtable s !! i = Some c ∧ it ∈ c.
Proof.
  unfold items. rewrite elem_of_app, elem_of_concat. destruct (expanding s).
  - rewrite elem_of_concat. naive_solver.
  - rewrite elem_of_nil. naive_solver.
Qed.

Lemma in_old_true s hv :
  in_old s hv = true ↔ expanding s = true ∧ (expand_bucket s ≤ bucket hv (hashpower s - 1))%nat.
Proof. unfold in_old. by rewrite andb_true_iff, Nat.leb_le. Qed.

Lemma chain_lookup s hv :
  in_place s →
  if in_old s hv then old_hashtable s !! bucket hv (hashpower s - 1) = Some (chain_of s hv)
  else primary_hashtable s !! bucket hv (hashpower s) = Some (chain_of s hv).
Proof.
  intros H. unfold chain_of. destruct (in_old s hv) eqn:E.
  - apply in_old_true in E as [E _]. destruct (as_old _ H E) as (_ & Hl & _).
    destruct (lookup_lt_is_Some_2 (old_hashtable s) (bucket hv (hashpower s - 1))) as [c Hc].
    { rewrite Hl. apply bucket_lt. } by rewrite Hc.
  - destruct (lookup_lt_is_Some_2 (primary_hashtable s) (bucket hv (hashpower s))) as [c Hc].
    { rewrite (as_len _ H). apply bucket_lt. } by rewrite Hc.
Qed.

Lemma chain_items s hv it : in_place s → it ∈ chain_of s hv → it ∈ items s.
Proof.
  intros H Hit. pose proof (chain_lookup s hv H) as Hc. apply elem_of_items.
  destruct (in_old s hv) eqn:E; [right|left; eauto].
  apply in_old_true in E as [E _]. eauto.
Qed.

Lemma items_chain s it : in_place s → it ∈ items s → it ∈ chain_of s (hash (it_key it)).
Proof.
  intros H Hit. pose proof (chain_lookup s (hash (it_key it)) H) as Hc.
  apply elem_of_items in Hit as [(i & c & Hi & Hit)|(He & i & c & Hi & Hit)].
  - destruct (as_primary _ H i c it Hi Hit) as [Hb Hlt].
    destruct (in_old s (hash (it_key it))) eqn:E.
    + apply in_old_true in E as [E Hge]. specialize (Hlt E). lia.
    + rewrite Hb in Hc. congruence.
  - destruct (as_in_old _ H i c it He Hi Hit) as [Hb Hge].
    rewrite (proj2 (in_old_true _ _)), Hb in Hc by (split; [done|lia]). congruence.
Qed.

Lemma chain_find_some key c it : chain_find key c = Some it → it ∈ c ∧ it_key it = key.
Proof.
  induction c as [|it' c IH]; simpl; [done|]. unfold same_key. case_bool_decide.
  - intros [= <-]. split; [by left|done].
  - intros [? ?]%IH. split; [by right|done].
Qed.

Lemma chain_find_none key c it : chain_find key c = None → it ∈ c → it_key it ≠ key.
Proof.
  induction c as [|it' c IH]; simpl; [by intros _ ?%elem_of_nil|]. unfold same_key.
  case_bool_decide; [done|]. intros Hn [->|Hit]%elem_of_cons; [done|by apply IH].
Qed.

Lemma find_amap s key : assoc_ok s → assoc_find s key (hash key) = amap s !! key.
Proof.
  intros Hok. pose proof (as_place _ Hok) as H. unfold assoc_find.
  destruct (chain_find key (chain_of s (hash key))) as [it|] eqn:E; symmetry.
  - apply chain_find_some in E as [Hit <-]. apply amap_lookup; [done|].
    split; [by eapply chain_items|done].
  - destruct (amap s !! key) as [it|] eqn:Em; [|done].
    apply amap_lookup in Em as [Hit <-]; [|done].
    apply (items_chain _ _ H) in Hit. by destruct (chain_find_none _ _ _ E Hit).
Qed.

(** ** Changing a chain *)

Lemma set_chain_items s hv :
  in_place s →
  ∃ rest, items s ≡ₚ chain_of s hv ++ rest ∧ ∀ c', items (set_chain s hv c') ≡ₚ c' ++ rest.
Proof.
  intros H. pose proof (chain_lookup s hv H) as Hc. unfold set_chain, items.
  destruct (in_old s hv) eqn:E; simpl; destruct (concat_split _ _ _ Hc) as (rest & Hr & Hr').
  - apply in_old_true in E as [-> _]. exists (concat (primary_hashtable s) ++ rest).
    split; [rewrite Hr|intros c'; rewrite Hr']; apply Permutation_app_swap_app.
  - eexists. split; [rewrite Hr|intros c'; rewrite Hr']; by rewrite <-(assoc_L (++)).
Qed.

(** The new chain holds only items of the bucket. *)
Lemma set_chain_place s hv c' :
  in_place s → (∀ it, it ∈ c' → it ∈ chain_of s hv ∨ hash (it_key it) = hv) →
  in_place (set_chain s hv c').
Proof.
  intros H Hc'. pose proof (chain_lookup s hv H) as Hc. unfold set_chain.
  destruct (in_old s hv) eqn:E; split; simpl; try apply H.
  - intros He. rewrite length_insert. by apply H.
  - intros i c it He Hi Hit. rewrite list_lookup_insert in Hi.
    case_decide as Hd; [|by eapply as_in_old]. destruct Hd as [<- _]. simplify_eq.
    destruct (Hc' it Hit) as [Hin|<-]; [by eapply as_in_old|].
    apply in_old_true in E as [_ ?]. done.
  - rewrite length_insert. apply H.
  - intros i c it Hi Hit. rewrite list_lookup_insert in Hi.
    case_decide as Hd; [|by eapply as_primary]. destruct Hd as [<- _]. simplify_eq.
    destruct (Hc' it Hit) as [Hin|<-]; [by eapply as_primary|].
    split; [done|]. intros He. apply not_ge. intros Hge.
    by rewrite (proj2 (in_old_true _ _)) in E.
Qed.

(** ** Insertion and deletion *)

Lemma with_items_place n s : in_place s → in_place (with_items n s).
Proof. intros H. split; apply H. Qed.

Lemma with_started_place b s : in_place s → in_place (with_started b s).
Proof. intros H. split; apply H. Qed.

Lemma u32_idem z k : u32 (u32 z + k) = u32 (z + k).
Proof. unfold u32. by apply Z.add_mod_idemp_l. Qed.

(** An insertion of an absent key, without the wake-up call. *)
Lemma insert_items s it :
  in_place s →
  let s' := set_chain s (hash (it_key it)) (it :: chain_of s (hash (it_key it))) in
  in_place s' ∧ items s' ≡ₚ it :: items s.
Proof.
  intros H. split.
  - apply set_chain_place; [done|]. intros it' [->|?]%elem_of_cons; auto.
  - destruct (set_chain_items s (hash (it_key it)) H) as (rest & Hr & Hset).
    by rewrite Hset, Hr.
Qed.

Lemma set_chain_count s hv c : hash_items (set_chain s hv c) = hash_items s.
Proof. unfold set_chain. by destruct (in_old s hv). Qed.

Lemma insert_ok s it :
  assoc_ok s → amap s !! it_key it = None →
  assoc_ok (assoc_insert s it (hash (it_key it))) ∧
  amap (assoc_insert s it (hash (it_key it))) = <[it_key it := it]> (amap s).
Proof.
  intros Hok Hnone. destruct (insert_items s it (as_place _ Hok)) as [Hp Hi].
  set (s' := set_chain _ _ _) in *.
  assert (∃ b, assoc_insert s it (hash (it_key it))
    = with_started b (with_items (u32 (hash_items s + 1)) s')) as [b ->].
  { rewrite <-(set_chain_count s (hash (it_key it)) (it :: chain_of s (hash (it_key it)))).
    unfold assoc_insert. fold s'. case_match; [|by exists (started_expanding s')].
    unfold assoc_start_expand. case_match; [by exists (started_expanding s')|by exists true]. }
  assert (Hnd : NoDup (it_key <$> it :: items s)).
  { rewrite fmap_cons. constructor; [|apply Hok]. intros (it' & Hk & Hin)%list_elem_of_fmap.
    assert (amap s !! it_key it = Some it') by (by apply amap_lookup). congruence. }
  split.
  - split; [by apply with_started_place, with_items_place| |].
    + change (items _) with (items s'). by rewrite Hi.
    + change (items _) with (items s'). simpl. rewrite Hi, (as_count _ Hok), u32_idem.
      f_equal. simpl. lia.
  - trans (amap s'); [done|]. unfold amap.
    rewrite (list_to_map_proper _ ((λ it, (it_key it, it)) <$> it :: items s)); [done| |].
    + rewrite <-list_fmap_compose. by rewrite Hi.
    + by rewrite Hi.
Qed.

Lemma hashitem_before_spec key c it :
  it ∈ c → it_key it = key → NoDup (it_key <$> c) →
  ∃ pre nxt, hashitem_before key c = (pre, it :: nxt) ∧ c = pre ++ it :: nxt.
Proof.
  induction c as [|it' c IH]; [by intros ?%elem_of_nil|].
  intros Hin Hk. rewrite fmap_cons, list.NoDup_cons. intros [Hnin Hnd]. simpl. unfold same_key. case_bool_decide as Hk'.
  - exists [], c. apply elem_of_cons in Hin as [->|Hin]; [done|].
    destruct Hnin. rewrite Hk', <-Hk. by apply list_elem_of_fmap_2.
  - apply elem_of_cons in Hin as [->|Hin]; [done|].
    destruct (IH Hin Hk Hnd) as (pre & nxt & -> & ->). by exists (it' :: pre), nxt.
Qed.

Lemma hashitem_before_none key c :
  chain_find key c = None → (hashitem_before key c).2 = [].
Proof.
  induction c as [|it c IH]; simpl; [done|]. destruct (same_key key it); [done|].
  intros ?%IH. by destruct (hashitem_before key c).
Qed.

Lemma delete_ok s it :
  assoc_ok s → it ∈ items s →
  ∃ s', assoc_delete s (it_key it) (hash (it_key it)) = Some s' ∧ assoc_ok s' ∧
    amap s' = delete (it_key it) (amap s).
Proof.
  intros Hok Hit. pose proof (as_place _ Hok) as H. set (hv := hash (it_key it)).
  destruct (set_chain_items s hv H) as (rest & Hr & Hset).
  assert (Hnd := as_once _ Hok). rewrite Hr, fmap_app in Hnd.
  destruct (hashitem_before_spec (it_key it) (chain_of s hv) it) as (pre & nxt & Hb & Hc);
    [by apply items_chain|done|by apply list.NoDup_app in Hnd as (? & _)|].
  unfold assoc_delete. rewrite Hb. eexists. split; [done|].
  set (s' := set_chain s hv (pre ++ nxt)).
  change (set_chain (with_items ?n s) hv (pre ++ nxt)) with (set_chain (with_items n s) hv (pre ++ nxt)).
  assert (Hs : set_chain (with_items (u32 (hash_items s - 1)) s) hv (pre ++ nxt)
    = with_items (u32 (hash_items s - 1)) s').
  { unfold s', set_chain. change (in_old (with_items _ s) hv) with (in_old s hv).
    by destruct (in_old s hv). }
  rewrite Hs. clear Hs. specialize (Hset (pre ++ nxt)). fold s' in Hset.
  assert (Hi : items s ≡ₚ it :: items s').
  { rewrite Hr, Hc, Hset. by rewrite <-Permutation_middle. }
  assert (Hnd' := as_once _ Hok). rewrite Hi in Hnd'. simpl in Hnd'.
  split; [split|].
  - apply with_items_place, set_chain_place; [done|]. intros it' Hin. left.
    rewrite Hc. set_solver.
  - change (items _) with (items s'). by apply list.NoDup_cons in Hnd' as [_ ?].
  - change (items (with_items _ s')) with (items s'). cbn [hash_items with_items].
    rewrite (as_count _ Hok), Hi. rewrite <-Z.add_opp_r, u32_idem. f_equal. simpl. lia.
  - trans (amap s'); [done|]. assert (Ham : amap s = <[it_key it := it]> (amap s')).
    { unfold amap. rewrite (list_to_map_proper _ ((λ it, (it_key it, it)) <$> it :: items s')); [done| |].
      - rewrite <-list_fmap_compose. apply Hok.
      - by rewrite Hi. }
    rewrite Ham, delete_insert_id; [done|]. apply not_elem_of_list_to_map_1.
    rewrite <-list_fmap_compose. by apply list.NoDup_cons in Hnd' as [? _].
Qed.

Lemma delete_absent s key :
  assoc_ok s → amap s !! key = None → assoc_delete s key (hash key) = None.
Proof.
  intros Hok Hn. rewrite <-find_amap in Hn by done. apply hashitem_before_none in Hn.
  unfold assoc_delete. destruct (hashitem_before _ _) as [pre nxt]. simpl in Hn. by subst.
Qed.

(** ** Growing *)

Lemma concat_empty n : concat (empty_table n) = [].
Proof. unfold empty_table. by induction (Z.to_nat _) as [|k IH]. Qed.

(** Nothing about the table but the order of its items has changed. *)
Definition same_items (s s' : assoc) : Prop :=
  in_place s' ∧ items s' ≡ₚ items s ∧ hash_items s' = hash_items s.

Lemma same_items_ok s s' : assoc_ok s → same_items s s' → assoc_ok s' ∧ amap s' = amap s.
Proof.
  intros Hok (Hp & Hi & Hc). split; [split|].
  - done.
  - rewrite Hi. apply Hok.
  - rewrite Hc, Hi. apply Hok.
  - by apply amap_perm; [apply Hok|].
Qed.

Lemma same_items_trans s1 s2 s3 : same_items s1 s2 → same_items s2 s3 → same_items s1 s3.
Proof. intros (_ & H1 & H2) (? & H3 & H4). split_and!; [done|by trans (items s2)|congruence]. Qed.

Lemma same_items_refl s : in_place s → same_items s s.
Proof. by intros. Qed.

Lemma expand_same s ok : in_place s → expanding s = false → same_items s (assoc_expand s ok).
Proof.
  intros H He. unfold same_items, items. destruct ok; simpl; rewrite He.
  - split; [split; simpl|].
    + apply length_replicate.
    + intros _. rewrite Nat.sub_0_r. pose proof (hashsize_pos (hashpower s)).
      rewrite (as_len _ H). lia.
    + intros i c it [-> _]%lookup_replicate Hit. by apply elem_of_nil in Hit.
    + intros i c it _ Hi Hit. rewrite Nat.sub_0_r. split; [|lia]. by eapply as_primary.
    + rewrite concat_empty, app_nil_r. done.
  - split; [|done]. rewrite <-He. split; simpl; [apply H|congruence|apply H|congruence].
Qed.

Lemma move_item_spec hp t it :
  length t = Z.to_nat (hashsize hp) →
  length (move_item hp t it) = length t ∧
  concat (move_item hp t it) ≡ₚ it :: concat t ∧
  ∀ i c it', move_item hp t it !! i = Some c → it' ∈ c →
    (it' = it ∧ bucket (hash (it_key it)) hp = i) ∨ ∃ c', t !! i = Some c' ∧ it' ∈ c'.
Proof.
  intros Hl. unfold move_item. set (b := bucket _ _).
  destruct (lookup_lt_is_Some_2 t b) as [d Hd]; [rewrite Hl; apply bucket_lt|].
  rewrite Hd. split_and!; [apply length_insert| |].
  - destruct (concat_split _ _ _ Hd) as (rest & Hr & Hset). by rewrite Hset, Hr.
  - intros i c it' Hi Hin. rewrite list_lookup_insert in Hi. case_decide as Hdec; [|eauto].
    destruct Hdec as [<- _]. simplify_eq/=. apply elem_of_cons in Hin as [->|Hin]; eauto.
Qed.

Lemma move_chain_spec hp c t :
  length t = Z.to_nat (hashsize hp) →
  let t' := foldl (move_item hp) t c in
  length t' = length t ∧ concat t' ≡ₚ c ++ concat t ∧
  ∀ i d it, t' !! i = Some d → it ∈ d →
    (it ∈ c ∧ bucket (hash (it_key it)) hp = i) ∨ ∃ d', t !! i = Some d' ∧ it ∈ d'.
Proof.
  revert t. induction c as [|it c IH]; intros t Hl; simpl; [by eauto 10|].
  destruct (move_item_spec hp t it Hl) as (Hl1 & Hc1 & Hin1).
  destruct (IH (move_item hp t it)) as (Hl2 & Hc2 & Hin2); [congruence|].
  split_and!; [congruence| |].
  - rewrite Hc2, Hc1. by rewrite Permutation_middle.
  - intros i d it' Hi Hit. destruct (Hin2 i d it' Hi Hit) as [[? ?]|(d' & Hd' & Hin)].
    + left. split; [by right|done].
    + destruct (Hin1 i d' it' Hd' Hin) as [[-> ?]|?]; [left; split; [by left|done]|by right].
Qed.

(** In the last round only the bucket that is moved has items. *)
Lemma last_bucket s c :
  in_place s → expanding s = true → old_hashtable s !! expand_bucket s = Some c →
  S (expand_bucket s) = length (old_hashtable s) → concat (old_hashtable s) ≡ₚ c.
Proof.
  intros H He Hc Hlast. destruct (concat_split _ _ _ Hc) as (rest & -> & Hset).
  specialize (Hset []). simpl in Hset.
  assert (rest = []) as ->; [|by rewrite app_nil_r]. apply elem_of_nil_inv. intros it Hin.
  rewrite <-Hset in Hin. apply elem_of_concat in Hin as (i & d & Hi & Hit).
  rewrite list_lookup_insert in Hi. case_decide as Hd; [by simplify_eq; apply elem_of_nil in Hit|].
  destruct (as_in_old _ H i d it He Hi Hit) as [_ Hge]. apply lookup_lt_Some in Hi. lia.
Qed.

Lemma move_bucket_same s :
  in_place s → expanding s = true → same_items s (move_bucket s).
Proof.
  intros H He. destruct (as_old _ H He) as (Hp0 & Hlo & Heb).
  destruct (lookup_lt_is_Some_2 _ _ Heb) as [c Hc]. unfold move_bucket. rewrite Hc. cbn [default].
  destruct (move_chain_spec (hashpower s) c (primary_hashtable s) (as_len _ H)) as (Hl & Hi & Hin).
  set (t := foldl _ _ _) in *. pose proof (hashsize_pos (hashpower s - 1)).
  assert (Hpl : ∀ i d it, t !! i = Some d → it ∈ d → bucket (hash (it_key it)) (hashpower s) = i
    ∧ (bucket (hash (it_key it)) (hashpower s - 1) < S (expand_bucket s))%nat).
  { intros i d it Hd Hit. destruct (Hin i d it Hd Hit) as [[Hinc Hb]|(d' & Hd' & Hin')].
    - destruct (as_in_old _ H _ _ _ He Hc Hinc). split; [done|lia].
    - destruct (as_primary _ H _ _ _ Hd' Hin') as [? Hlt]. specialize (Hlt He). split; [done|lia]. }
  case_match eqn:Hd; [apply Z.eqb_eq in Hd|apply Z.eqb_neq in Hd].
  - split_and!; [split; simpl; try done|unfold items; simpl|done].
    + rewrite Hl. apply H.
    + intros i d it Hi' Hit. split; [by eapply Hpl|done].
    + rewrite He, app_nil_r, Hi, (last_bucket s c) by (done || lia). apply Permutation_app_comm.
  - split_and!; [split; simpl|unfold items; simpl|done].
    + rewrite Hl. apply H.
    + rewrite length_insert. lia.
    + intros i d it Hi' Hit. destruct (Hpl i d it Hi' Hit). eauto.
    + intros i d it _ Hi' Hit. rewrite list_lookup_insert in Hi'.
      case_decide as Hdec; [by simplify_eq; apply elem_of_nil in Hit|].
      destruct (as_in_old _ H _ _ _ He Hi' Hit) as [? ?]. split; [done|].
      apply lookup_lt_Some in Hi' as Hlt. assert (expand_bucket s ≠ i) by naive_solver. lia.
    + rewrite He. destruct (concat_split _ _ _ Hc) as (rest & -> & Hset).
      rewrite Hset, Hi, <-(assoc_L (++)). simpl.
      apply Permutation_app_swap_app.
Qed.

Lemma bulk_move_same locks s : in_place s → same_items s (bulk_move locks s).
Proof.
  revert s. induction locks as [|l locks IH]; intros s H; simpl; [by apply same_items_refl|].
  destruct (expanding s) eqn:He; [|by apply same_items_refl].
  destruct l; [|by apply IH]. pose proof (move_bucket_same s H He) as Hm.
  eapply same_items_trans; [done|]. apply IH, Hm.
Qed.

Lemma maintenance_same locks ok s : in_place s → same_items s (maintenance_round locks ok s).
Proof.
  intros H. pose proof (bulk_move_same locks s H) as Hb. unfold maintenance_round.
  destruct (expanding (bulk_move locks s)) eqn:He; [done|].
  eapply same_items_trans; [|by apply expand_same; [apply with_started_place, Hb|]].
  split_and!; [apply with_started_place, Hb|apply Hb..].
Qed.

(** ** The table at work

    Worker threads insert absent keys and delete present ones, each under the
    lock of its bucket; in between, the maintenance thread moves a bucket, goes
    to sleep, or grows the table. *)
Inductive reached : assoc → gmap bytes item → Prop :=
  | reached_init dflt init s :
      assoc_init dflt init true = Some s → reached s ∅
  | reached_insert s m it :
      reached s m → m !! it_key it = None →
      reached (assoc_insert s it (hash (it_key it))) (<[it_key it := it]> m)
  | reached_delete s m key s' :
      reached s m → assoc_delete s key (hash key) = Some s' → reached s' (delete key m)
  | reached_move s m : reached s m → expanding s = true → reached (move_bucket s) m
  | reached_sleep s m : reached s m → expanding s = false → reached (with_started false s) m
  | reached_expand s m ok : reached s m → expanding s = false → reached (assoc_expand s ok) m.

Lemma assoc_init_ok dflt init s :
  assoc_init dflt init true = Some s → assoc_ok s ∧ amap s = ∅.
Proof.
  intros [= <-]. split; [split; [split|..]|]; simpl; try done.
  - apply length_replicate.
  - intros i c it [-> _]%lookup_replicate Hit. by apply elem_of_nil in Hit.
  - unfold items. simpl. rewrite concat_empty. constructor.
  - unfold items. simpl. by rewrite concat_empty.
  - unfold amap, items. simpl. by rewrite concat_empty.
Qed.

Lemma reached_ok s m : reached s m → assoc_ok s ∧ amap s = m.
Proof.
  induction 1 as [dflt init s Hs|s m it Hr [Hok <-] Hn|s m key s' Hr [Hok <-] Hd
    |s m Hr [Hok <-] He|s m Hr [Hok <-] He|s m ok Hr [Hok <-] He].
  - by eapply assoc_init_ok.
  - by apply insert_ok.
  - destruct (amap s !! key) as [it|] eqn:Hk; [|by rewrite delete_absent in Hd].
    apply amap_lookup in Hk as [Hit <-]; [|done].
    destruct (delete_ok s it Hok Hit) as (s1 & Hd1 & Hok1 & Hm1). by simplify_eq.
  - apply same_items_ok; [done|]. by apply move_bucket_same; [apply Hok|].
  - apply same_items_ok; [done|]. split; [by apply with_started_place, Hok|done].
  - apply same_items_ok; [done|]. by apply expand_same; [apply Hok|].
Qed.

Lemma amap_size s : assoc_ok s → length (items s) = size (amap s).
Proof.
  intros Hok. unfold amap. rewrite map_size_list_to_map.
  - by rewrite length_fmap.
  - rewrite <-list_fmap_compose. apply Hok.
Qed.

(** C33: under every interleaving of insertions, deletions and growth, the table
    is a map: a lookup returns the item last inserted under the key and not
    deleted since, wherever its bucket is at that moment; the item counter is
    the number of keys (at its 32-bit width); and a deletion fails its assertion
    exactly when the key is absent. *)
Theorem assoc_history s m :
  reached s m →
  (∀ key, assoc_find s key (hash key) = m !! key) ∧
  hash_items s = u32 (Z.of_nat (size m)) ∧
  (∀ key, assoc_delete s key (hash key) = None ↔ m !! key = None).
Proof.
  intros [Hok <-]%reached_ok. split_and!.
  - intros key. by apply find_amap.
  - rewrite <-amap_size by done. apply Hok.
  - intros key. split; [|by apply delete_absent]. intros Hd.
    destruct (amap s !! key) as [it|] eqn:Hk; [|done].
    apply amap_lookup in Hk as [Hit <-]; [|done].
    destruct (delete_ok s it Hok Hit) as (s1 & Hd1 & _). congruence.
Qed.

(** The maintenance thread's round is made of such steps. *)
Lemma round_reached locks ok s m : reached s m → reached (maintenance_round locks ok s) m.
Proof.
  intros Hr. unfold maintenance_round. assert (reached (bulk_move locks s) m).
  { revert s Hr. induction locks as [|[] locks IH]; intros s Hr; simpl; [done|..];
      destruct (expanding s) eqn:He; eauto using reached. }
  destruct (expanding _) eqn:He; [done|]. by apply reached_expand; [apply reached_sleep|].
Qed.

(** How many buckets there are left to move. *)
Definition buckets_left (s : assoc) : nat := length (old_hashtable s) - expand_bucket s.

Lemma move_bucket_left s :
  in_place s → expanding s = true →
  if expanding (move_bucket s) then S (buckets_left (move_bucket s)) = buckets_left s
  else buckets_left s = 1%nat.
Proof.
  intros H He. destruct (as_old _ H He) as (Hp0 & Hlo & Heb).
  pose proof (hashsize_pos (hashpower s - 1)). unfold buckets_left, move_bucket.
  cbn [expanding old_hashtable expand_bucket].
  destruct (Z.eqb _ _) eqn:Hd; cbn [negb]; rewrite ?length_insert; [apply Z.eqb_eq in Hd|]; lia.
Qed.

Lemma move_bucket_done s : expanding (move_bucket s) = false → old_hashtable (move_bucket s) = [].
Proof. unfold move_bucket. cbn [expanding old_hashtable]. by destruct (Z.eqb _ _). Qed.

(** C35: growth terminates: once the maintenance thread has got the locks of the
    buckets left to move, however often it failed to get one in between, the old
    table is gone, and the table holds the same items. *)
Theorem expansion_finishes s m locks :
  reached s m → expanding s = true →
  (buckets_left s ≤ length (filter Is_true locks))%nat →
  expanding (bulk_move locks s) = false ∧ old_hashtable (bulk_move locks s) = [] ∧
  ∀ key, assoc_find (bulk_move locks s) key (hash key) = m !! key.
Proof.
  intros [Hok <-]%reached_ok He Hn.
  assert (Hf : ∀ key, assoc_find (bulk_move locks s) key (hash key) = amap s !! key).
  { intros key. destruct (same_items_ok s (bulk_move locks s)) as [? <-];
      [done|by apply bulk_move_same, Hok|by apply find_amap]. }
  cut (expanding (bulk_move locks s) = false ∧ old_hashtable (bulk_move locks s) = []);
    [tauto|].
  pose proof (as_place _ Hok) as H. clear Hok Hf. revert s H He Hn.
  induction locks as [|l locks IH]; intros s H He Hn.
  { destruct (as_old _ H He) as (_ & _ & ?). unfold buckets_left in Hn. simpl in Hn. lia. }
  simpl. rewrite He. destruct l; [|by apply IH].
  pose proof (move_bucket_left s H He) as Hl.
  destruct (expanding (move_bucket s)) eqn:He'.
  - apply IH; [by apply move_bucket_same|done|]. simpl in Hn. lia.
  - apply move_bucket_done in He' as Ho. destruct locks; cbn [bulk_move]; rewrite ?He'; auto.
Qed.

End Assoc.

(** ** Witnesses: keys hashed to their first byte *)

Definition hash0 (key : bytes) : Z := default 0 (head key).
Definition small : assoc := mkAssoc 1 (empty_table 1) [] 0 false false 0.
Definition four : list item := (λ z, mkItem [z] z) <$> [1; 2; 3; 5].
Definition fill (s : assoc) : assoc := foldl (λ s it, assoc_insert s it (hash0 (it_key it))) s four.

(** Four keys in two buckets; the table has been told to grow, has moved the even
    keys and still has the odd ones in the old table. *)
Definition growing : assoc := maintenance_round hash0 [true] true (maintenance_round hash0 [] true (fill small)).

Lemma growing_reached :
  reached hash0 growing (foldl (λ m it, <[it_key it := it]> m) ∅ four).
Proof.
  do 2 apply round_reached. simpl. repeat (apply reached_insert; [|by vm_compute]).
  apply (reached_init _ 16 1). done.
Qed.

Lemma assoc_history_witness :
  assoc_find growing [3] (hash0 [3]) = Some (mkItem [3] 3) ∧ hash_items growing = 4 ∧
  expanding growing = true ∧ expand_bucket growing = 1%nat.
Proof.
  destruct (assoc_history hash0 growing _ growing_reached) as (Hf & Hc & _).
  split; [|split]; [rewrite Hf|rewrite Hc|]; by vm_compute.
Defined.

Lemma expansion_finishes_witness :
  expanding (bulk_move hash0 [false; true] growing) = false ∧
  assoc_find (bulk_move hash0 [false; true] growing) [5] (hash0 [5]) = Some (mkItem [5] 5).
Proof.
  destruct (expansion_finishes hash0 growing _ [false; true] growing_reached) as (He & _ & Hf);
    [by vm_compute|vm_compute; lia|]. split; [done|]. rewrite Hf. by vm_compute.
Defined.
