(* ===== verification/Hash.v ===== *)
(** The cache's hash functions: [jenkins_hash.c] and [murmur3_hash.c] of
    [extra/KVS-DRAM-Cache].

    Jenkins' function reads the key in words of 32 or 16 bits when its address
    allows it, up to three bytes beyond its end; it must return the same hash for
    the same key wherever the key is stored, or the hash table would lose it. *)

From S2P Require Import Prelude.

(** ** 32-bit arithmetic *)

Definition is_u32 (z : Z) : Prop := 0 ≤ z < two32.

Definition add32 (x y : Z) : Z := u32 (x + y).
Definition sub32 (x y : Z) : Z := u32 (x - y).
Definition mul32 (x y : Z) : Z := u32 (x * y).
Definition shl32 (x : Z) (k : Z) : Z := u32 (Z.shiftl x k).

(** [#define rot(x,k)] *)
Definition rot (x k : Z) : Z := Z.lxor (shl32 x k) (Z.shiftr x (32 - k)).

Definition abc : Type := Z * Z * Z.

(** [#define mix(a,b,c)] *)
Definition mix (s : abc) : abc :=
  let '(a, b, c) := s in
  let a := sub32 a c in let a := Z.lxor a (rot c 4) in let c := add32 c b in
  let b := sub32 b a in let b := Z.lxor b (rot a 6) in let a := add32 a c in
  let c := sub32 c b in let c := Z.lxor c (rot b 8) in let b := add32 b a in
  let a := sub32 a c in let a := Z.lxor a (rot c 16) in let c := add32 c b in
  let b := sub32 b a in let b := Z.lxor b (rot a 19) in let a := add32 a c in
  let c := sub32 c b in let c := Z.lxor c (rot b 4) in let b := add32 b a in
  (a, b, c).

(** [#define final(a,b,c)], and the [c] it leaves *)
Definition final (s : abc) : Z :=
  let '(a, b, c) := s in
  let c := Z.lxor c b in let c := sub32 c (rot b 14) in
  let a := Z.lxor a c in let a := sub32 a (rot c 11) in
  let b := Z.lxor b a in let b := sub32 b (rot a 25) in
  let c := Z.lxor c b in let c := sub32 c (rot b 16) in
  let a := Z.lxor a c in let a := sub32 a (rot c 4) in
  let b := Z.lxor b a in let b := sub32 b (rot a 14) in
  let c := Z.lxor c b in sub32 c (rot b 24).

(** ** Reading the key

    [k] is the memory from the key's address on: [k i] is the byte at [key + i],
    whether it belongs to the key or not. *)
Definition mem : Type := nat → Z.

Definition from (k : mem) (n : nat) : mem := λ i, k (n + i)%nat.

(** [k[i]] for [k] of type [uint16_t*] and [uint32_t*], little-endian. *)
Definition le16 (k : mem) (i : nat) : Z := k (2 * i)%nat + 2 ^ 8 * k (2 * i + 1)%nat.
Definition le32 (k : mem) (i : nat) : Z :=
  k (4 * i)%nat + 2 ^ 8 * k (4 * i + 1)%nat + 2 ^ 16 * k (4 * i + 2)%nat + 2 ^ 24 * k (4 * i + 3)%nat.

(** [while (length > 12) { ...; mix(a,b,c); length -= 12; k += 12 bytes; }]: the
    state, the rest of the length and of the memory.  Every round uses up 12
    bytes, so [length] rounds are enough. *)
Fixpoint mix_blocks (add : mem → abc → abc) (fuel : nat) (s : abc) (len : nat) (k : mem)
  : abc * nat * mem :=
  match fuel with
  | O => (s, len, k)
  | S fuel' =>
      if (12 <? len)%nat then mix_blocks add fuel' (mix (add k s)) (len - 12) (from k 12)
      else (s, len, k)
  end.

(** ** 32-bit chunks *)

Definition add_block32 (k : mem) (s : abc) : abc :=
  let '(a, b, c) := s in
  (add32 a (le32 k 0), add32 b (le32 k 1), add32 c (le32 k 2)).

(** The last, probably partial block; the words are read whole and masked. *)
Definition tail32 (k : mem) (len : nat) (s : abc) : Z :=
  let '(a, b, c) := s in
  let k0 := le32 k 0 in let k1 := le32 k 1 in let k2 := le32 k 2 in
  match len with
  | 12%nat => final (add32 a k0, add32 b k1, add32 c k2)
  | 11%nat => final (add32 a k0, add32 b k1, add32 c (Z.land k2 0xffffff))
  | 10%nat => final (add32 a k0, add32 b k1, add32 c (Z.land k2 0xffff))
  | 9%nat => final (add32 a k0, add32 b k1, add32 c (Z.land k2 0xff))
  | 8%nat => final (add32 a k0, add32 b k1, c)
  | 7%nat => final (add32 a k0, add32 b (Z.land k1 0xffffff), c)
  | 6%nat => final (add32 a k0, add32 b (Z.land k1 0xffff), c)
  | 5%nat => final (add32 a k0, add32 b (Z.land k1 0xff), c)
  | 4%nat => final (add32 a k0, b, c)
  | 3%nat => final (add32 a (Z.land k0 0xffffff), b, c)
  | 2%nat => final (add32 a (Z.land k0 0xffff), b, c)
  | 1%nat => final (add32 a (Z.land k0 0xff), b, c)
  | 0%nat => c
  | _ => final (a, b, c)
  end.

(** ** 16-bit chunks *)

(** [k[i] + (((uint32_t)k[i+1])<<16)] *)
Definition word16 (k : mem) (i : nat) : Z := add32 (le16 k i) (shl32 (le16 k (i + 1)) 16).

Definition add_block16 (k : mem) (s : abc) : abc :=
  let '(a, b, c) := s in
  (add32 a (word16 k 0), add32 b (word16 k 2), add32 c (word16 k 4)).

Definition tail16 (k : mem) (len : nat) (s : abc) : Z :=
  let '(a, b, c) := s in
  let a4 := add32 a (word16 k 0) in
  let b4 := add32 b (word16 k 2) in
  match len with
  | 12%nat => final (a4, b4, add32 c (word16 k 4))
  | 11%nat => final (a4, b4, add32 (add32 c (shl32 (k 10%nat) 16)) (le16 k 4))
  | 10%nat => final (a4, b4, add32 c (le16 k 4))
  | 9%nat => final (a4, b4, add32 c (k 8%nat))
  | 8%nat => final (a4, b4, c)
  | 7%nat => final (a4, add32 (add32 b (shl32 (k 6%nat) 16)) (le16 k 2), c)
  | 6%nat => final (a4, add32 b (le16 k 2), c)
  | 5%nat => final (a4, add32 b (k 4%nat), c)
  | 4%nat => final (a4, b, c)
  | 3%nat => final (add32 (add32 a (shl32 (k 2%nat) 16)) (le16 k 0), b, c)
  | 2%nat => final (add32 a (le16 k 0), b, c)
  | 1%nat => final (add32 a (k 0%nat), b, c)
  | 0%nat => c
  | _ => final (a, b, c)
  end.

(** ** One byte at a time *)

(** [x += k[i]; x += k[i+1]<<8; x += k[i+2]<<16; x += k[i+3]<<24;] *)
Definition add_bytes (x : Z) (k : mem) (i : nat) : Z :=
  let x := add32 x (k i) in
  let x := add32 x (shl32 (k (i + 1)%nat) 8) in
  let x := add32 x (shl32 (k (i + 2)%nat) 16) in
  add32 x (shl32 (k (i + 3)%nat) 24).

Definition add_block8 (k : mem) (s : abc) : abc :=
  let '(a, b, c) := s in (add_bytes a k 0, add_bytes b k 4, add_bytes c k 8).

(** The cases of the switch fall through: byte [i] is added when it is in the
    key, the last ones first. *)
Definition add_if (len i : nat) (sh x : Z) (k : mem) : Z :=
  if (i <? len)%nat then add32 x (shl32 (k i) sh) else x.

Definition fall_through (len i : nat) (x : Z) (k : mem) : Z :=
  let x := add_if len (i + 3) 24 x k in
  let x := add_if len (i + 2) 16 x k in
  let x := add_if len (i + 1) 8 x k in
  add_if len i 0 x k.

Definition tail8 (k : mem) (len : nat) (s : abc) : Z :=
  let '(a, b, c) := s in
  if (len =? 0)%nat then c
  else let c := fall_through len 8 c k in
       let b := fall_through len 4 b k in
       let a := fall_through len 0 a k in
       final (a, b, c).

(** [jenkins_hash] of the [length] bytes at address [key]. *)
Definition jenkins_hash (key : Z) (k : mem) (length : nat) : Z :=
  let s := add32 0xdeadbeef (u32 (Z.of_nat length)) in
  let s := (s, s, s) in
  if Z.land key 3 =? 0 then
    let '(s, len, k) := mix_blocks add_block32 length s length k in tail32 k len s
  else if Z.land key 1 =? 0 then
    let '(s, len, k) := mix_blocks add_block16 length s length k in tail16 k len s
  else
    let '(s, len, k) := mix_blocks add_block8 length s length k in tail8 k len s.

(** ** MurmurHash3 *)

Definition rotl32 (x r : Z) : Z := Z.lor (shl32 x r) (Z.shiftr x (32 - r)).

Definition fmix32 (h : Z) : Z :=
  let h := Z.lxor h (Z.shiftr h 16) in
  let h := mul32 h 0x85ebca6b in
  let h := Z.lxor h (Z.shiftr h 13) in
  let h := mul32 h 0xc2b2ae35 in
  Z.lxor h (Z.shiftr h 16).

Definition mur_c1 : Z := 0xcc9e2d51.
Definition mur_c2 : Z := 0x1b873593.

(** [k1 *= c1; k1 = ROTL32(k1,15); k1 *= c2;] *)
Definition mur_k (k1 : Z) : Z := mul32 (rotl32 (mul32 k1 mur_c1) 15) mur_c2.

Definition mur_block (h1 k1 : Z) : Z :=
  let h1 := Z.lxor h1 (mur_k k1) in
  let h1 := rotl32 h1 13 in
  add32 (mul32 h1 5) 0xe6546b64.

(** [for(int i = -nblocks; i; i++)]: the words of the key from the first on *)
Fixpoint mur_blocks (n : nat) (i : nat) (h1 : Z) (k : mem) : Z :=
  match n with
  | O => h1
  | S n' => mur_blocks n' (S i) (mur_block h1 (le32 k i)) k
  end.

Definition mur_tail (tail : mem) (rest : nat) (h1 : Z) : Z :=
  match rest with
  | 3%nat => Z.lxor h1 (mur_k (Z.lxor (Z.lxor (Z.lxor 0 (shl32 (tail 2%nat) 16)) (shl32 (tail 1%nat) 8)) (tail 0%nat)))
  | 2%nat => Z.lxor h1 (mur_k (Z.lxor (Z.lxor 0 (shl32 (tail 1%nat) 8)) (tail 0%nat)))
  | 1%nat => Z.lxor h1 (mur_k (Z.lxor 0 (tail 0%nat)))
  | _ => h1
  end.

Definition MurmurHash3_x86_32 (k : mem) (length : nat) : Z :=
  let nblocks := (length / 4)%nat in
  let h1 := mur_blocks nblocks 0 0 k in
  let h1 := mur_tail (from k (nblocks * 4)) (length mod 4) h1 in
  fmix32 (Z.lxor h1 (u32 (Z.of_nat length))).

(** [hash_init]: the function used from then on; an unknown type is an error. *)
Definition hash_init (type : Z) : option (Z → mem → nat → Z) :=
  if type =? 0 then Some jenkins_hash
  else if type =? 1 then Some (λ _, MurmurHash3_x86_32)
  else None.

(** ** Arithmetic lemmas *)

Lemma u32_add_l x y : u32 (u32 x + y) = u32 (x + y).
Proof. unfold u32. by apply Z.add_mod_idemp_l. Qed.

Lemma u32_sub_l x y : u32 (u32 x - y) = u32 (x - y).
Proof. unfold u32. by rewrite Zminus_mod_idemp_l. Qed.

Lemma u32_range x : is_u32 (u32 x).
Proof. unfold is_u32, u32. by apply Z.mod_pos_bound. Qed.

Lemma u32_id x : is_u32 x → u32 x = x.
Proof. apply Z.mod_small. Qed.

Lemma add32_assoc x y z : add32 (add32 x y) z = add32 x (y + z).
Proof. unfold add32. rewrite u32_add_l. f_equal. lia. Qed.

Lemma shl32_mul x k : 0 ≤ k → 0 ≤ x → x * 2 ^ k < two32 → shl32 x k = 2 ^ k * x.
Proof.
  intros Hk H0 Hx. unfold shl32. rewrite Z.shiftl_mul_pow2 by done.
  rewrite u32_id by (split; [|done]; apply Z.mul_nonneg_nonneg; [done|lia]). lia.
Qed.

(** Masking a little-endian word keeps its first bytes. *)
Lemma mask_low x y n : 0 ≤ n → 0 ≤ x < 2 ^ n → Z.land (x + 2 ^ n * y) (2 ^ n - 1) = x.
Proof.
  intros Hn Hx.
  replace (2 ^ n - 1) with (Z.ones n) by (rewrite Z.ones_equiv; lia).
  rewrite Z.land_ones by done. rewrite Z.mul_comm, Z.mod_add by lia. by apply Z.mod_small.
Qed.

(** ** Where the key is stored does not matter *)

Section Jenkins.
Context (k : mem) (Hk : ∀ i, is_byte (k i)).

Ltac bytes := repeat match goal with
  | |- context [k ?i] => lazymatch goal with
      | _ : is_byte (k i) |- _ => fail
      | _ => pose proof (Hk i) end
  end; unfold is_byte, is_u32, two32 in *.

Lemma shl_byte i n : 0 ≤ n ≤ 24 → shl32 (k i) n = 2 ^ n * k i.
Proof.
  intros Hn. bytes. pose proof (Z.pow_le_mono_r 2 n 24). pose proof (Z.pow_pos_nonneg 2 n).
  apply shl32_mul; unfold two32; nia.
Qed.

Lemma add_bytes_le32 x i : add_bytes x k (4 * i) = add32 x (le32 k i).
Proof.
  unfold add_bytes, le32. rewrite !shl_byte by lia. rewrite !add32_assoc. f_equal. lia.
Qed.

Lemma word16_le32 i : word16 k (2 * i) = le32 k i.
Proof.
  unfold word16, add32, le16, le32.
  replace (2 * (2 * i))%nat with (4 * i)%nat by lia.
  replace (2 * (2 * i + 1))%nat with (4 * i + 2)%nat by lia.
  replace (4 * i + 2 + 1)%nat with (4 * i + 3)%nat by lia.
  bytes. rewrite shl32_mul by (unfold two32; lia). rewrite u32_id; unfold is_u32, two32; lia.
Qed.

Lemma le32_split i x y n m :
  le32 k i = x + 2 ^ n * y → m = 2 ^ n - 1 → 0 ≤ n → 0 ≤ x < 2 ^ n → Z.land (le32 k i) m = x.
Proof. intros -> -> ??. by apply mask_low. Qed.

Lemma mask8 i : Z.land (le32 k i) 0xff = k (4 * i)%nat.
Proof.
  apply (le32_split i _ (k (4 * i + 1)%nat + 2 ^ 8 * k (4 * i + 2)%nat + 2 ^ 16 * k (4 * i + 3)%nat) 8);
    unfold le32; bytes; lia.
Qed.

Lemma mask16 i : Z.land (le32 k i) 0xffff = k (4 * i)%nat + 2 ^ 8 * k (4 * i + 1)%nat.
Proof.
  apply (le32_split i _ (k (4 * i + 2)%nat + 2 ^ 8 * k (4 * i + 3)%nat) 16); unfold le32; bytes; lia.
Qed.

Lemma mask24 i : Z.land (le32 k i) 0xffffff
  = k (4 * i)%nat + 2 ^ 8 * k (4 * i + 1)%nat + 2 ^ 16 * k (4 * i + 2)%nat.
Proof. apply (le32_split i _ (k (4 * i + 3)%nat) 24); unfold le32; bytes; lia. Qed.

Lemma final_congr a b c a' b' c' : a = a' → b = b' → c = c' → final (a, b, c) = final (a', b', c').
Proof. by intros -> -> ->. Qed.

Lemma upto12 (len : nat) : (len ≤ 12)%nat → len ∈ seq 0 13.
Proof. intros ?. apply elem_of_seq. lia. Qed.

(** Both sides add the same number to each of [a], [b] and [c]. *)
Ltac tails := intros Hlen%upto12; unfold tail32, tail16, tail8, fall_through, add_if;
  change (word16 k 0) with (word16 k (2 * 0)); change (word16 k 2) with (word16 k (2 * 1));
  change (word16 k 4) with (word16 k (2 * 2)); rewrite ?word16_le32;
  cbn [seq] in Hlen; repeat (apply elem_of_cons in Hlen as [->|Hlen];
    [cbn -[final add32 shl32 le32 le16 Z.land Z.mul Z.pow];
     rewrite ?mask8, ?mask16, ?mask24, ?shl_byte by lia; rewrite ?add32_assoc;
     try done; apply final_congr; try done; apply f_equal; unfold le32, le16; simpl; lia|]); by apply elem_of_nil in Hlen.

Lemma tail32_8 len s : (len ≤ 12)%nat → tail32 k len s = tail8 k len s.
Proof. destruct s as [[a b] c]. tails. Qed.

Lemma tail16_8 len s : (len ≤ 12)%nat → tail16 k len s = tail8 k len s.
Proof. destruct s as [[a b] c]. tails. Qed.

End Jenkins.

Definition all_bytes (k : mem) : Prop := ∀ i, is_byte (k i).

(** The two memories hold the same [len] bytes. *)
Definition same_bytes (len : nat) (k k' : mem) : Prop := ∀ i, (i < len)%nat → k i = k' i.

Lemma add_block32_8 k s : all_bytes k → add_block32 k s = add_block8 k s.
Proof.
  intros Hk. destruct s as [[a b] c]. unfold add_block32, add_block8.
  by rewrite <-!(add_bytes_le32 k Hk).
Qed.

Lemma add_block16_8 k s : all_bytes k → add_block16 k s = add_block8 k s.
Proof.
  intros Hk. rewrite <-add_block32_8 by done. destruct s as [[a b] c].
  unfold add_block16, add_block32. by rewrite <-!(word16_le32 k Hk).
Qed.

Lemma mix_blocks_ext add add' fuel s len k :
  (∀ k s, all_bytes k → add k s = add' k s) → all_bytes k →
  mix_blocks add fuel s len k = mix_blocks add' fuel s len k.
Proof.
  intros Hadd. revert s len k. induction fuel as [|fuel IH]; intros s len k Hk; simpl; [done|].
  rewrite Hadd by done. case_match; [|done]. apply IH. intros i. apply Hk.
Qed.

(** [length] rounds are enough, and reach the last block. *)
Lemma mix_blocks_end add fuel s len k :
  (len ≤ fuel)%nat → all_bytes k →
  let '(_, len', k') := mix_blocks add fuel s len k in (len' ≤ 12)%nat ∧ all_bytes k'.
Proof.
  revert s len k. induction fuel as [|fuel IH]; intros s len k Hf Hk; simpl.
  - split; [lia|done].
  - destruct (Nat.ltb_spec 12 len); [|done]. apply IH; [lia|]. intros i. apply Hk.
Qed.

(** The byte-wise path reads only the key. *)
Lemma mix_blocks_same fuel s len k k' :
  same_bytes len k k' →
  let '(s1, len1, k1) := mix_blocks add_block8 fuel s len k in
  let '(s2, len2, k2) := mix_blocks add_block8 fuel s len k' in
  s1 = s2 ∧ len1 = len2 ∧ same_bytes len1 k1 k2.
Proof.
  revert s len k k'. induction fuel as [|fuel IH]; intros s len k k' Hs; simpl; [done|].
  destruct (Nat.ltb_spec 12 len); [|done].
  assert (Hb : add_block8 k s = add_block8 k' s).
  { destruct s as [[a b] c]. unfold add_block8, add_bytes. by rewrite !Hs by lia. }
  rewrite Hb. apply IH. intros i Hi. apply Hs. lia.
Qed.

Lemma add_if_same len i sh x k k' :
  same_bytes len k k' → add_if len i sh x k = add_if len i sh x k'.
Proof. intros Hs. unfold add_if. destruct (Nat.ltb_spec i len); [by rewrite Hs|done]. Qed.

Lemma tail8_same k k' len s : same_bytes len k k' → tail8 k len s = tail8 k' len s.
Proof.
  intros Hs. destruct s as [[a b] c]. unfold tail8, fall_through.
  by rewrite !(add_if_same _ _ _ _ _ _ Hs).
Qed.

(** The hash, one byte at a time. *)
Definition jenkins_bytes (k : mem) (length : nat) : Z :=
  let s := add32 0xdeadbeef (u32 (Z.of_nat length)) in
  let '(s, len, k) := mix_blocks add_block8 length (s, s, s) length k in tail8 k len s.

Lemma jenkins_hash_bytes key k len : all_bytes k → jenkins_hash key k len = jenkins_bytes k len.
Proof.
  intros Hk. unfold jenkins_hash, jenkins_bytes. set (s0 := (_, _, _)).
  rewrite (mix_blocks_ext add_block32 add_block8) by (done || apply add_block32_8).
  rewrite (mix_blocks_ext add_block16 add_block8) by (done || apply add_block16_8).
  pose proof (mix_blocks_end add_block8 len s0 len k) as He.
  destruct (mix_blocks _ _ _ _ _) as [[s len'] k']. destruct He as [Hl Hk']; [lia|done|].
  rewrite tail32_8, tail16_8 by done. by repeat case_match.
Qed.

Lemma jenkins_bytes_same k k' len : same_bytes len k k' → jenkins_bytes k len = jenkins_bytes k' len.
Proof.
  intros Hs. unfold jenkins_bytes. set (s0 := (_, _, _)).
  pose proof (mix_blocks_same len s0 len k k' Hs) as Hm.
  destruct (mix_blocks _ _ _ _ k) as [[s1 l1] k1], (mix_blocks _ _ _ _ k') as [[s2 l2] k2].
  destruct Hm as (-> & -> & Hs'). by apply tail8_same.
Qed.

(** C36: Jenkins' hash is a function of the key's bytes: it does not depend on
    the address of the key, which chooses between 32-bit, 16-bit and 8-bit reads,
    nor on the memory after the key, into which the 32-bit reads extend. *)
Theorem jenkins_hash_of_key key key' k k' len :
  all_bytes k → all_bytes k' → same_bytes len k k' →
  jenkins_hash key k len = jenkins_hash key' k' len.
Proof. intros Hk Hk' Hs. rewrite !jenkins_hash_bytes by done. by apply jenkins_bytes_same. Qed.

(** ** Mixing is reversible *)

Lemma is_u32_bits x : is_u32 x ↔ 0 ≤ x ∧ Z.shiftr x 32 = 0.
Proof.
  unfold is_u32, two32. rewrite Z.shiftr_div_pow2 by lia. split.
  - intros [? ?]. split; [done|]. by apply Z.div_small.
  - intros [? Hd]. split; [done|]. apply Z.div_small_iff in Hd; [|done]. lia.
Qed.

Lemma lxor_u32 x y : is_u32 x → is_u32 y → is_u32 (Z.lxor x y).
Proof.
  rewrite !is_u32_bits. intros [??] [??]. rewrite Z.shiftr_lxor. split; [by apply Z.lxor_nonneg|].
  by replace (Z.shiftr x 32) with 0; replace (Z.shiftr y 32) with 0.
Qed.

Lemma shiftr_u32 x n : 0 ≤ n → is_u32 x → is_u32 (Z.shiftr x n).
Proof.
  intros Hn. rewrite !is_u32_bits. intros [? Hx]. split; [by apply Z.shiftr_nonneg|].
  rewrite Z.shiftr_shiftr, Z.add_comm, <-Z.shiftr_shiftr, Hx by lia. apply Z.shiftr_0_l.
Qed.

Lemma rot_u32 x k : 0 ≤ k ≤ 32 → is_u32 x → is_u32 (rot x k).
Proof. intros ??. apply lxor_u32; [apply u32_range|]. apply shiftr_u32; [lia|done]. Qed.

Lemma lxor_cancel x y : Z.lxor (Z.lxor x y) y = x.
Proof. by rewrite Z.lxor_assoc, Z.lxor_nilpotent, Z.lxor_0_r. Qed.

Lemma sub_add32 x y : is_u32 x → add32 (sub32 x y) y = x.
Proof.
  intros ?. unfold add32, sub32. rewrite u32_add_l.
  replace (x - y + y) with x by lia. by apply u32_id.
Qed.

Lemma add_sub32 x y : is_u32 x → sub32 (add32 x y) y = x.
Proof.
  intros ?. unfold add32, sub32. rewrite u32_sub_l.
  replace (x + y - y) with x by lia. by apply u32_id.
Qed.

(** One line of [mix], with the variables turned for the next line. *)
Definition mix_line (s : abc) (k : Z) : abc :=
  let '(a, b, c) := s in (b, add32 c b, Z.lxor (sub32 a c) (rot c k)).

Definition unmix_line (s : abc) (k : Z) : abc :=
  let '(b, c, a) := s in
  let c := sub32 c b in (add32 (Z.lxor a (rot c k)) c, b, c).

Definition mix_lines : list Z := [4; 6; 8; 16; 19; 4].

(** The reverse of [mix]. *)
Definition unmix (s : abc) : abc := foldl unmix_line s (reverse mix_lines).

Lemma mix_by_lines s : mix s = foldl mix_line s mix_lines.
Proof. by destruct s as [[a b] c]. Qed.

Definition abc_u32 (s : abc) : Prop := let '(a, b, c) := s in is_u32 a ∧ is_u32 b ∧ is_u32 c.

Lemma mix_line_rev s k :
  0 ≤ k ≤ 32 → abc_u32 s → abc_u32 (mix_line s k) ∧ unmix_line (mix_line s k) k = s.
Proof.
  destruct s as [[a b] c]. intros Hk (Ha & Hb & Hc). simpl. split.
  - split_and!; [done|apply u32_range|]. apply lxor_u32; [apply u32_range|by apply rot_u32].
  - by rewrite add_sub32, lxor_cancel, sub_add32.
Qed.

Lemma mix_lines_rev ks s :
  Forall (λ k, 0 ≤ k ≤ 32) ks → abc_u32 s →
  abc_u32 (foldl mix_line s ks) ∧ foldl unmix_line (foldl mix_line s ks) (reverse ks) = s.
Proof.
  intros Hks. revert s. induction Hks as [|k ks Hk Hks IH]; intros s Hs; simpl; [done|].
  destruct (mix_line_rev s k Hk Hs) as [Hs' Hr]. destruct (IH _ Hs') as [? Hr'].
  split; [done|]. by rewrite reverse_cons, foldl_snoc, Hr', Hr.
Qed.

(** [mix] is reversible, as its comment says: no information in [(a, b, c)]
    is lost in it. *)
Theorem mix_reversible s : abc_u32 s → abc_u32 (mix s) ∧ unmix (mix s) = s.
Proof. rewrite mix_by_lines. apply mix_lines_rev. by repeat (constructor; [lia|]). Qed.

(** The reverse of [fmix32]; the constants are the inverses modulo [2^32]. *)
Definition unfmix32 (h : Z) : Z :=
  let h := Z.lxor h (Z.shiftr h 16) in
  let h := mul32 h 0x7ed1b41d in
  let h := Z.lxor (Z.lxor h (Z.shiftr h 13)) (Z.shiftr h 26) in
  let h := mul32 h 0xa5cb9243 in
  Z.lxor h (Z.shiftr h 16).

Lemma mul32_inv h m m' : u32 (m * m') = 1 → is_u32 h → mul32 (mul32 h m) m' = h.
Proof.
  intros Hm Hh. unfold mul32, u32 in *. rewrite Z.mul_mod_idemp_l, <-Z.mul_assoc by done.
  rewrite <-Z.mul_mod_idemp_r, Hm, Z.mul_1_r by done. by apply Z.mod_small.
Qed.

Lemma shiftr_all h n : 32 ≤ n → is_u32 h → Z.shiftr h n = 0.
Proof.
  intros Hn [_ Hh]%is_u32_bits. replace n with (32 + (n - 32)) by lia.
  rewrite <-Z.shiftr_shiftr, Hh by lia. apply Z.shiftr_0_l.
Qed.

Lemma xorshift16_rev h : is_u32 h → let h' := Z.lxor h (Z.shiftr h 16) in Z.lxor h' (Z.shiftr h' 16) = h.
Proof.
  intros Hh. simpl. rewrite Z.shiftr_lxor, Z.shiftr_shiftr by lia.
  rewrite (shiftr_all h (16 + 16)), Z.lxor_0_r by (done || lia). apply lxor_cancel.
Qed.

Lemma xorshift13_rev h : is_u32 h →
  let h' := Z.lxor h (Z.shiftr h 13) in Z.lxor (Z.lxor h' (Z.shiftr h' 13)) (Z.shiftr h' 26) = h.
Proof.
  intros Hh. simpl. rewrite !Z.shiftr_lxor, !Z.shiftr_shiftr by lia.
  rewrite (shiftr_all h (13 + 26)), Z.lxor_0_r by (done || lia).
  change (13 + 13) with 26. rewrite <-(Z.lxor_assoc (Z.lxor h _)), lxor_cancel. apply lxor_cancel.
Qed.

Lemma xorshift_u32 h n : 0 ≤ n → is_u32 h → is_u32 (Z.lxor h (Z.shiftr h n)).
Proof. intros ??. apply lxor_u32; [done|by apply shiftr_u32]. Qed.

(** MurmurHash3's finalisation [fmix32] is a bijection of the 32-bit words:
    it makes no two hashes equal that were different. *)
Theorem fmix32_reversible h : is_u32 h → is_u32 (fmix32 h) ∧ unfmix32 (fmix32 h) = h.
Proof.
  intros Hh. unfold fmix32. assert (H1 := xorshift_u32 h 16 ltac:(lia) Hh).
  assert (H2 := u32_range (Z.lxor h (Z.shiftr h 16) * 0x85ebca6b)).
  set (h2 := u32 _) in H2. assert (H3 := xorshift_u32 h2 13 ltac:(lia) H2).
  assert (H4 := u32_range (Z.lxor h2 (Z.shiftr h2 13) * 0xc2b2ae35)).
  split; [by apply xorshift_u32|]. unfold unfmix32.
  rewrite xorshift16_rev by done. rewrite mul32_inv by done.
  rewrite xorshift13_rev by done. rewrite mul32_inv by done. by apply xorshift16_rev.
Qed.

(** ** Witnesses *)

(** The key "memcached!" at an aligned and at an odd address, followed by other
    bytes. *)
Definition mem_of (l : list Z) : mem := λ i, nth i l 0.

Lemma mem_of_bytes l : Forall is_byte l → all_bytes (mem_of l).
Proof.
  intros Hl i. unfold mem_of. destruct (nth_in_or_default i l 0) as [Hin| ->]; [|by split].
  by apply (proj1 (List.Forall_forall _ _) Hl).
Qed.

Definition key_m : list Z := [109; 101; 109; 99; 97; 99; 104; 101; 100; 33].

Lemma jenkins_hash_of_key_witness :
  jenkins_hash 4096 (mem_of (key_m ++ [7; 255])) 10 = jenkins_hash 4099 (mem_of (key_m ++ [32])) 10.
Proof.
  apply (jenkins_hash_of_key 4096 4099); [apply mem_of_bytes; by_decide..|].
  intros i Hi. unfold mem_of. rewrite !app_nth1 by (simpl; lia). done.
Defined.

Lemma mix_reversible_witness : unmix (mix (1, 2, two32 - 1)) = (1, 2, two32 - 1).
Proof. apply (mix_reversible (1, 2, two32 - 1)). by vm_compute. Defined.

Lemma fmix32_reversible_witness : unfmix32 (fmix32 0xdeadbeef) = 0xdeadbeef.
Proof. apply (fmix32_reversible 0xdeadbeef). by vm_compute. Defined.
