(* ===== verification/Item.v ===== *)
(** Items of the DRAM cache and the doubly linked lists they are chained in:
    [memcached.h] of [extra/KVS-DRAM-Cache].

    The free lists of the slab allocator and the LRU queues are both made of the
    [next] and [prev] pointers of the item headers. *)

From S2P Require Import Prelude.

(** [struct _stritem], as compiled without the short-cut fields ([CACHE_MODE] 0).
    [struct _strchunk] has the same layout: [head], [size], [used] and
    [orig_clsid] of a chunk are where [h_next], [time], [exptime] and [nsuffix]
    of an item are.  [it_key] and [cas] are the parts of [data] the code uses. *)
Record stritem := mkStritem {
  next : Z;
  prev : Z;
  h_next : Z;
  time : Z;
  exptime : Z;
  nbytes : Z;
  refcount : Z;
  nsuffix : Z;
  it_flags : Z;
  slabs_clsid : Z;
  nkey : Z;
  cas : Z;
  key : bytes
}.

Definition zero_item : stritem := mkStritem 0 0 0 0 0 0 0 0 0 0 0 0 [].

#[global] Instance stritem_inhabited : Inhabited stritem := populate zero_item.
#[global] Instance stritem_eq_dec : EqDecision stritem.
Proof. solve_decision. Defined.

Definition set_next (v : Z) (i : stritem) := mkStritem v (prev i) (h_next i) (time i) (exptime i) (nbytes i) (refcount i) (nsuffix i) (it_flags i) (slabs_clsid i) (nkey i) (cas i) (key i).
Definition set_prev (v : Z) (i : stritem) := mkStritem (next i) v (h_next i) (time i) (exptime i) (nbytes i) (refcount i) (nsuffix i) (it_flags i) (slabs_clsid i) (nkey i) (cas i) (key i).
Definition set_h_next (v : Z) (i : stritem) := mkStritem (next i) (prev i) v (time i) (exptime i) (nbytes i) (refcount i) (nsuffix i) (it_flags i) (slabs_clsid i) (nkey i) (cas i) (key i).
Definition set_time (v : Z) (i : stritem) := mkStritem (next i) (prev i) (h_next i) v (exptime i) (nbytes i) (refcount i) (nsuffix i) (it_flags i) (slabs_clsid i) (nkey i) (cas i) (key i).
Definition set_exptime (v : Z) (i : stritem) := mkStritem (next i) (prev i) (h_next i) (time i) v (nbytes i) (refcount i) (nsuffix i) (it_flags i) (slabs_clsid i) (nkey i) (cas i) (key i).
Definition set_refcount (v : Z) (i : stritem) := mkStritem (next i) (prev i) (h_next i) (time i) (exptime i) (nbytes i) v (nsuffix i) (it_flags i) (slabs_clsid i) (nkey i) (cas i) (key i).
Definition set_it_flags (v : Z) (i : stritem) := mkStritem (next i) (prev i) (h_next i) (time i) (exptime i) (nbytes i) (refcount i) (nsuffix i) v (slabs_clsid i) (nkey i) (cas i) (key i).
Definition set_slabs_clsid (v : Z) (i : stritem) := mkStritem (next i) (prev i) (h_next i) (time i) (exptime i) (nbytes i) (refcount i) (nsuffix i) (it_flags i) v (nkey i) (cas i) (key i).
Definition set_cas (v : Z) (i : stritem) := mkStritem (next i) (prev i) (h_next i) (time i) (exptime i) (nbytes i) (refcount i) (nsuffix i) (it_flags i) (slabs_clsid i) (nkey i) v (key i).

Definition ITEM_LINKED : Z := 1.
Definition ITEM_CAS : Z := 2.
Definition ITEM_SLABBED : Z := 4.
Definition ITEM_FETCHED : Z := 8.
Definition ITEM_ACTIVE : Z := 16.
Definition ITEM_CHUNKED : Z := 32.
Definition ITEM_CHUNK : Z := 64.

(** [it->it_flags & f] *)
Definition has_flag (i : stritem) (f : Z) : bool := negb (Z.land (it_flags i) f =? 0).
(** [it->it_flags |= f] and [it->it_flags &= ~f] *)
Definition add_flag (f : Z) (i : stritem) : stritem := set_it_flags (Z.lor (it_flags i) f) i.
Definition clear_flag (f : Z) (i : stritem) : stritem := set_it_flags (Z.ldiff (it_flags i) f) i.

Definition sizeof_item : Z := 48.
Definition sizeof_item_chunk : Z := 48.

Definition cas_size (i : stritem) : Z := if has_flag i ITEM_CAS then 8 else 0.
Definition ITEM_ntotal (i : stritem) : Z :=
  sizeof_item + nkey i + 1 + nsuffix i + nbytes i + cas_size i.
(** [ITEM_data(it)] of the item at address [a] *)
Definition ITEM_data (a : Z) (i : stritem) : Z :=
  a + sizeof_item + nkey i + 1 + nsuffix i + cas_size i.
Definition ITEM_clsid (i : stritem) : Z := Z.ldiff (slabs_clsid i) 192.
Definition ITEM_lruid (i : stritem) : Z := Z.land (slabs_clsid i) 192.
Definition ITEM_get_cas (i : stritem) : Z := if has_flag i ITEM_CAS then cas i else 0.
Definition ITEM_set_cas (v : Z) (i : stritem) : stritem := if has_flag i ITEM_CAS then set_cas v i else i.

Lemma has_flag_add_other f g i : Z.land f g = 0 → has_flag (add_flag f i) g = has_flag i g.
Proof. intros H. unfold has_flag. simpl. by rewrite Z.land_lor_distr_l, H, Z.lor_0_r. Qed.

Lemma has_flag_clear_other f g i : Z.land f g = 0 → has_flag (clear_flag f i) g = has_flag i g.
Proof.
  intros H. unfold has_flag. simpl. do 2 f_equal. apply Z.bits_inj'. intros n Hn.
  apply (f_equal (λ z, Z.testbit z n)) in H. rewrite Z.land_spec, Z.bits_0 in H.
  rewrite !Z.land_spec, Z.ldiff_spec.
  destruct (Z.testbit (it_flags i) n), (Z.testbit f n), (Z.testbit g n); done.
Qed.

Lemma has_flag_add_same f i : f ≠ 0 → has_flag (add_flag f i) f = true.
Proof.
  intros Hf. unfold has_flag. simpl. rewrite Z.land_comm, Z.lor_comm.
  assert (Z.land f (Z.lor f (it_flags i)) = f) as ->; [|by apply negb_true_iff, Z.eqb_neq].
  apply Z.bits_inj'. intros n Hn. rewrite Z.land_spec, Z.lor_spec. by destruct (Z.testbit f n).
Qed.

Lemma has_flag_clear_same f i : has_flag (clear_flag f i) f = false.
Proof.
  unfold has_flag. simpl. assert (Z.land (Z.ldiff (it_flags i) f) f = 0) as ->; [|done].
  apply Z.bits_inj'. intros n Hn. rewrite Z.land_spec, Z.ldiff_spec, Z.bits_0.
  by destruct (Z.testbit f n), (Z.testbit (it_flags i) n).
Qed.

(** ** The memory the headers are in *)

Notation heap := (gmap Z stritem).

Definition hdr (h : heap) (a : Z) : stritem := default zero_item (h !! a).
Definition upd (a : Z) (f : stritem → stritem) (h : heap) : heap := <[a := f (hdr h a)]> h.

(** [memset(p, 0, n)] *)
Definition zero_range (p n : Z) (h : heap) : heap :=
  filter (λ kv : Z * stritem, ¬ (p ≤ kv.1 < p + n)) h.

Lemma hdr_upd_eq a f h : hdr (upd a f h) a = f (hdr h a).
Proof. unfold hdr, upd. by rewrite lookup_insert_eq. Qed.

Lemma hdr_upd_ne a b f h : a ≠ b → hdr (upd a f h) b = hdr h b.
Proof. intros ?. unfold hdr, upd. by rewrite lookup_insert_ne. Qed.

Lemma hdr_zero_in p n h a : p ≤ a < p + n → hdr (zero_range p n h) a = zero_item.
Proof.
  intros Ha. unfold hdr, zero_range. rewrite (proj2 (map_lookup_filter_None _ _ _)); [done|].
  right. intros x _ []. done.
Qed.

Lemma hdr_zero_out p n h a : ¬ (p ≤ a < p + n) → hdr (zero_range p n h) a = hdr h a.
Proof.
  intros Ha. unfold hdr, zero_range. rewrite map_lookup_filter. destruct (h !! a); simpl; [|done].
  by rewrite option_guard_True.
Qed.

(** ** Doubly linked lists

    [dll h pv p l]: from [p] on, the [next] pointers go through the headers at
    the addresses [l] and end in null; the [prev] pointers go back, the first
    one to [pv]. *)
Fixpoint dll (h : heap) (pv p : Z) (l : list Z) : Prop :=
  match l with
  | [] => p = 0
  | a :: l' => p = a ∧ a ≠ 0 ∧ prev (hdr h a) = pv ∧ dll h a (next (hdr h a)) l'
  end.

(** The list from [p] on, at most [n] long. *)
Fixpoint walk (h : heap) (p : Z) (n : nat) : list Z :=
  match n with
  | O => []
  | S n' => if p =? 0 then [] else p :: walk h (next (hdr h p)) n'
  end.

(** [it->prev = 0; it->next = *head; if (it->next) it->next->prev = it; *head = it;] *)
Definition push (a head : Z) (h : heap) : heap :=
  let h := upd a (set_prev 0) h in
  let h := upd a (set_next head) h in
  if head =? 0 then h else upd head (set_prev a) h.

(** [if (it->next) it->next->prev = it->prev; if (it->prev) it->prev->next = it->next;] *)
Definition cut (a : Z) (h : heap) : heap :=
  let nx := next (hdr h a) in
  let h := if nx =? 0 then h else upd nx (set_prev (prev (hdr h a))) h in
  let pv := prev (hdr h a) in
  if pv =? 0 then h else upd pv (set_next (next (hdr h a))) h.

(** The part of a header that is not a list pointer. *)
Definition payload (i : stritem) : stritem := set_next 0 (set_prev 0 i).

Lemma dll_frame h h' pv p l :
  (∀ a, a ∈ l → next (hdr h' a) = next (hdr h a) ∧ prev (hdr h' a) = prev (hdr h a)) →
  dll h pv p l → dll h' pv p l.
Proof.
  revert pv p. induction l as [|a l IH]; intros pv p Hh; simpl; [done|].
  intros (-> & Ha & Hp & Hl). destruct (Hh a) as [Hn' Hp']; [by left|].
  rewrite Hn', Hp'. split_and!; try done. apply IH; [|done]. intros b Hb. apply Hh. by right.
Qed.

Lemma dll_head h pv p l : dll h pv p l → p = default 0 (head l).
Proof. destruct l; simpl; [done|]. by intros [-> _]. Qed.

Lemma dll_nonzero h pv p l a : dll h pv p l → a ∈ l → a ≠ 0.
Proof.
  revert pv p. induction l as [|b l IH]; intros pv p; [by intros _ ?%elem_of_nil|].
  simpl. intros (-> & Hb & _ & Hl) [->|Ha]%elem_of_cons; [done|by eapply IH].
Qed.

Lemma walk_dll h pv p l : dll h pv p l → walk h p (length l) = l.
Proof.
  revert pv p. induction l as [|a l IH]; intros pv p; simpl; [done|].
  intros (-> & Ha & _ & Hl). rewrite (proj2 (Z.eqb_neq _ _) Ha). f_equal. by eapply IH.
Qed.

Lemma walk_frame h h' p n :
  (∀ a, a ∈ walk h p n → next (hdr h' a) = next (hdr h a)) → walk h' p n = walk h p n.
Proof.
  revert p. induction n as [|n IH]; intros p Hh; simpl in *; [done|].
  destruct (p =? 0); [done|]. rewrite Hh by by left. f_equal. apply IH.
  intros a Ha. apply Hh. by right.
Qed.

(** Only [prev] of the first element depends on what comes before. *)
Lemma dll_set_pv h pv pv' p l :
  NoDup l → dll h pv p l →
  dll (if p =? 0 then h else upd p (set_prev pv') h) pv' p l.
Proof.
  destruct l as [|a l]; simpl; [done|]. intros [Hna _]%list.NoDup_cons (-> & Ha & _ & Hl).
  rewrite (proj2 (Z.eqb_neq _ _) Ha), hdr_upd_eq. split_and!; try done.
  eapply dll_frame; [|done]. intros b Hb. rewrite hdr_upd_ne; [done|]. by intros ->.
Qed.

(** Pushing an element. *)
Lemma push_dll a hd h l :
  a ≠ 0 → a ∉ l → NoDup l → dll h 0 hd l → dll (push a hd h) 0 a (a :: l).
Proof.
  intros Ha Hal Hnd Hl. unfold push. set (h1 := upd a (set_next hd) (upd a (set_prev 0) h)).
  assert (Hl1 : dll h1 0 hd l).
  { eapply dll_frame; [|done]. intros b Hb. unfold h1. by rewrite !hdr_upd_ne by set_solver. }
  apply (dll_set_pv _ _ a) in Hl1; [|done].
  assert (Hh : hdr (if hd =? 0 then h1 else upd hd (set_prev a) h1) a
    = set_next hd (set_prev 0 (hdr h a))).
  { pose proof (dll_head _ _ _ _ Hl) as Hhd.
    destruct (Z.eqb_spec hd 0) as [_|Hhd0]; [|rewrite hdr_upd_ne].
    1,2: unfold h1; by rewrite !hdr_upd_eq.
    destruct l; simpl in Hhd; [done|]. set_solver. }
  simpl. rewrite Hh. by split_and!.
Qed.

Lemma push_payload a hd h b : payload (hdr (push a hd h) b) = payload (hdr h b).
Proof.
  assert (Hs : ∀ c v h, payload (hdr (upd c (set_prev v) h) b) = payload (hdr h b)).
  { intros c v h'. destruct (decide (c = b)) as [->|]; [by rewrite hdr_upd_eq|by rewrite hdr_upd_ne]. }
  assert (Hn : ∀ c v h, payload (hdr (upd c (set_next v) h) b) = payload (hdr h b)).
  { intros c v h'. destruct (decide (c = b)) as [->|]; [by rewrite hdr_upd_eq|by rewrite hdr_upd_ne]. }
  unfold push. case_match; by rewrite ?Hs, ?Hn, ?Hs.
Qed.

Lemma push_other a hd h b : b ≠ a → (hd ≠ 0 → b ≠ hd) → hdr (push a hd h) b = hdr h b.
Proof.
  intros ? Hb. unfold push. destruct (Z.eqb_spec hd 0); [by rewrite !hdr_upd_ne|].
  rewrite !hdr_upd_ne; try done. apply not_eq_sym. auto.
Qed.

(** Popping the first element, as an allocation does. *)
Lemma pop_dll a h l :
  NoDup (a :: l) → dll h 0 a (a :: l) →
  let nx := next (hdr h a) in
  dll (if nx =? 0 then h else upd nx (set_prev 0) h) 0 nx l.
Proof. intros [_ Hnd]%list.NoDup_cons (_ & _ & _ & Hl). by apply (dll_set_pv _ a). Qed.

(** Cutting an element out. *)
Lemma cut_hdr a h b :
  next (hdr h a) ≠ a → prev (hdr h a) ≠ a →
  next (hdr (cut a h) b)
    = (if bool_decide (b = prev (hdr h a) ∧ b ≠ 0) then next (hdr h a) else next (hdr h b)) ∧
  prev (hdr (cut a h) b)
    = (if bool_decide (b = next (hdr h a) ∧ b ≠ 0) then prev (hdr h a) else prev (hdr h b)) ∧
  payload (hdr (cut a h) b) = payload (hdr h b).
Proof.
  intros Hn Hp. unfold cut. set (nx := next (hdr h a)) in *. set (pv := prev (hdr h a)) in *.
  set (h1 := if nx =? 0 then h else upd nx (set_prev pv) h).
  assert (H1 : hdr h1 a = hdr h a) by (unfold h1; case_match; [done|by rewrite hdr_upd_ne]).
  rewrite H1. fold nx pv.
  assert (Hb1 : hdr h1 b = if bool_decide (b = nx ∧ b ≠ 0) then set_prev pv (hdr h b) else hdr h b).
  { unfold h1. destruct (Z.eqb_spec nx 0) as [Hz|Hz].
    - rewrite bool_decide_false; [done|]. intros [-> ?]. done.
    - destruct (decide (nx = b)) as [->|]; [|rewrite hdr_upd_ne, bool_decide_false; naive_solver].
      by rewrite hdr_upd_eq, bool_decide_true. }
  destruct (Z.eqb_spec pv 0) as [Hz|Hz].
  - rewrite Hb1. rewrite (bool_decide_false (b = pv ∧ b ≠ 0)); [by case_bool_decide|].
    intros [-> ?]. done.
  - destruct (decide (pv = b)) as [->|].
    + rewrite hdr_upd_eq, Hb1. rewrite (bool_decide_true (b = b ∧ b ≠ 0)) by done.
      by case_bool_decide.
    + rewrite hdr_upd_ne, Hb1 by done. rewrite (bool_decide_false (b = pv ∧ b ≠ 0)) by naive_solver.
      by case_bool_decide.
Qed.

(** Where the list goes on after [a] has been cut out of [l1 ++ a :: l2]. *)
Definition after_cut (p a nx : Z) : Z := if p =? a then nx else p.

Lemma dll_neighbours h pv p l1 a l2 :
  dll h pv p (l1 ++ a :: l2) →
  prev (hdr h a) = default pv (list.last l1) ∧ next (hdr h a) = default 0 (head l2).
Proof.
  revert pv p. induction l1 as [|b l1 IH]; intros pv p; simpl.
  - intros (-> & _ & Hp & Hl). split; [done|]. by apply dll_head in Hl.
  - intros (-> & _ & _ & Hl). destruct (IH _ _ Hl) as [-> ->]. rewrite last_cons.
    by destruct (list.last l1).
Qed.

Lemma dll_not_self h pv p l1 a l2 :
  NoDup (l1 ++ a :: l2) → pv ∉ l1 ++ a :: l2 → dll h pv p (l1 ++ a :: l2) →
  next (hdr h a) ≠ a ∧ prev (hdr h a) ≠ a.
Proof.
  intros Hnd Hpv Hl. destruct (dll_neighbours _ _ _ _ _ _ Hl) as [-> ->].
  apply list.NoDup_app in Hnd as (_ & Hd & [Hna _]%list.NoDup_cons). split.
  - destruct l2 as [|b l2]; simpl; [|set_solver].
    intros <-. apply (dll_nonzero _ _ _ _ 0 Hl); [set_solver|done].
  - destruct l1 as [|b l1 _] using rev_ind; simpl; [set_solver|].
    rewrite last_snoc. simpl. intros ->. apply (Hd a); set_solver.
Qed.

Lemma cut_dll_at h pv p l1 a l2 :
  NoDup (l1 ++ a :: l2) → pv ∉ l1 ++ a :: l2 → dll h pv p (l1 ++ a :: l2) →
  dll (cut a h) pv (after_cut p a (next (hdr h a))) (l1 ++ l2).
Proof.
  intros Hnd Hpv Hl. destruct (dll_neighbours _ _ _ _ _ _ Hl) as [Hap Han].
  destruct (dll_not_self _ _ _ _ _ _ Hnd Hpv Hl) as [Hna Hpa].
  pose proof (λ b, cut_hdr a h b Hna Hpa) as Hcut.
  revert pv p Hnd Hpv Hl Hap. induction l1 as [|b l1 IH]; intros pv p Hnd Hpv Hl Hap.
  - simpl in *. destruct Hl as (-> & Ha & Hp & Hl). unfold after_cut. rewrite Z.eqb_refl.
    apply list.NoDup_cons in Hnd as [Hal Hnd]. destruct l2 as [|c l2]; simpl in *; [done|].
    destruct Hl as (Hc & Hc0 & _ & Hl). split_and!; [done|done| |].
    + destruct (Hcut c) as (_ & -> & _). by rewrite bool_decide_true.
    + destruct (Hcut c) as (-> & _ & _). rewrite bool_decide_false by set_solver.
      apply list.NoDup_cons in Hnd as [Hcl _]. eapply dll_frame; [|done].
      intros d Hd. destruct (Hcut d) as (-> & -> & _).
      by rewrite !bool_decide_false by set_solver.
  - cbn [app dll] in *. destruct Hl as (-> & Hb & Hp & Hl).
    apply list.NoDup_cons in Hnd as [Hbl Hnd]. unfold after_cut.
    rewrite (proj2 (Z.eqb_neq b a)) by set_solver.
    destruct (Hcut b) as (Hbn & Hbp & _). split_and!; [done|done| |].
    + rewrite Hbp, bool_decide_false; [done|]. intros [-> Hb']. rewrite Han in Hbl.
      destruct l2; simpl in *; [done|set_solver].
    + specialize (IH b (next (hdr h b)) Hnd Hbl Hl).
      destruct l1 as [|c l1]; simpl in Hl, Hap.
      * simpl in *. assert (next (hdr h b) = a) as Hba by apply Hl.
        rewrite Hbn, bool_decide_true by done. rewrite Hba in IH. unfold after_cut in IH.
        rewrite Z.eqb_refl in IH. apply IH. apply Hl.
      * assert (next (hdr h b) = c) as Hbc by apply Hl.
        rewrite Hbn, bool_decide_false.
        -- rewrite Hbc in *. unfold after_cut in IH. rewrite (proj2 (Z.eqb_neq c a)) in IH.
           ++ apply IH. rewrite Hap, !last_cons. by destruct (list.last l1).
           ++ apply list.NoDup_cons in Hnd as [Hc _]. set_solver.
        -- intros [Hb' _]. rewrite Hap in Hb'. apply Hbl. rewrite Hb'.
           rewrite !last_cons. destruct (list.last l1) as [d|] eqn:Hd; simpl; [|set_solver].
           apply last_Some_elem_of in Hd. set_solver.
Qed.

Lemma cut_payload a h b :
  next (hdr h a) ≠ a → prev (hdr h a) ≠ a → payload (hdr (cut a h) b) = payload (hdr h b).
Proof. intros ??. by apply cut_hdr. Qed.

(** Cutting changes no header outside of the list. *)
Lemma cut_other h p l1 a l2 b :
  NoDup (l1 ++ a :: l2) → dll h 0 p (l1 ++ a :: l2) → b ∉ l1 ++ a :: l2 → hdr (cut a h) b = hdr h b.
Proof.
  intros Hnd Hl Hb. assert (H0 : 0 ∉ l1 ++ a :: l2) by (intros H0; by apply (dll_nonzero _ _ _ _ 0 Hl)).
  destruct (dll_not_self _ _ _ _ _ _ Hnd H0 Hl) as [Hna Hpa].
  destruct (dll_neighbours _ _ _ _ _ _ Hl) as [Hpv Hnx].
  destruct (cut_hdr a h b Hna Hpa) as (Hn & Hp & Hpl). rewrite bool_decide_false in Hn, Hp.
  - destruct (hdr (cut a h) b), (hdr h b). simpl in *. injection Hpl. by intros; subst.
  - intros [-> Hb0]. rewrite Hnx in Hb, Hb0. destruct l2; simpl in *; [done|].
    apply Hb. rewrite elem_of_app, !elem_of_cons. auto.
  - intros [-> Hb0]. rewrite Hpv in Hb, Hb0. destruct (list.last l1) as [z|] eqn:Hz; simpl in *; [|done].
    apply last_Some_elem_of in Hz. apply Hb. rewrite elem_of_app. auto.
Qed.

(** The ends of a list [l1 ++ a :: l2]. *)
Lemma dll_ends h p l1 a l2 :
  NoDup (l1 ++ a :: l2) → dll h 0 p (l1 ++ a :: l2) →
  (p = a ↔ l1 = []) ∧ (default 0 (list.last (l1 ++ a :: l2)) = a ↔ l2 = []).
Proof.
  intros Hnd Hl. pose proof Hnd as (_ & Hndd & [Hal2 _]%list.NoDup_cons)%list.NoDup_app. split.
  - apply dll_head in Hl. rewrite Hl. destruct l1 as [|b l1]; simpl; [done|].
    split; [|done]. intros ->. exfalso. apply (Hndd a); by left.
  - destruct l2 as [|b l2 _] using rev_ind; [by rewrite last_snoc|].
    rewrite app_comm_cons, (assoc_L (++)), last_snoc. simpl. split; [|by destruct l2].
    intros ->. exfalso. apply Hal2, elem_of_app. right. by left.
Qed.
