(* ===== verification/Slabs.v ===== *)
(** The cache's slab allocator: [extra/KVS-DRAM-Cache/slabs.c].

    Memory comes in pages; a page is given to a size class and split into chunks
    of the class's size, which are kept on the class's free list.  A whole page can
    go back to a global pool, class 0. *)

From S2P Require Import Prelude Item.

Record slabclass_t := mkClass {
  size : Z;
  perslab : Z;
  slots : Z;
  sl_curr : Z;
  slabs : Z;
  slab_list : list Z;  (* [list_size] entries *)
  list_size : Z;
  requested : Z
}.

Definition zero_class : slabclass_t := mkClass 0 0 0 0 0 [] 0 0.
#[global] Instance slabclass_inhabited : Inhabited slabclass_t := populate zero_class.

Record settings := mkSettings {
  item_size_max : Z;
  slab_chunk_size_max : Z;
  slab_page_size : Z;
  chunk_size : Z;
  slab_reassign : bool;
  use_cas : bool
}.

(** The allocator's globals, and the memory of the chunks. *)
Record slab_state := mkSlabs {
  slabclass : list slabclass_t;
  mem_limit : Z;
  mem_malloced : Z;
  mem_limit_reached : bool;
  power_largest : nat;
  mem_base : Z;
  mem_current : Z;
  mem_avail : Z;
  chunks_mem : heap
}.

Definition POWER_SMALLEST : nat := 1.
Definition SLAB_GLOBAL_PAGE_POOL : nat := 0.
Definition MAX_NUMBER_OF_SLAB_CLASSES : nat := 64.
Definition CHUNK_ALIGN_BYTES : Z := 8.

(** What the C library answers while a page is allocated: whether [realloc]
    succeeds, and what [malloc] returns. *)
Record os := mkOs { realloc_ok : bool; malloc_ret : Z }.

Definition with_class (s : slab_state) (id : nat) (c : slabclass_t) : slab_state :=
  mkSlabs (<[id := c]> (slabclass s)) (mem_limit s) (mem_malloced s) (mem_limit_reached s)
    (power_largest s) (mem_base s) (mem_current s) (mem_avail s) (chunks_mem s).

Definition with_mem (s : slab_state) (h : heap) : slab_state :=
  mkSlabs (slabclass s) (mem_limit s) (mem_malloced s) (mem_limit_reached s)
    (power_largest s) (mem_base s) (mem_current s) (mem_avail s) h.

Definition with_limit_reached (s : slab_state) (b : bool) : slab_state :=
  mkSlabs (slabclass s) (mem_limit s) (mem_malloced s) b
    (power_largest s) (mem_base s) (mem_current s) (mem_avail s) (chunks_mem s).

Definition with_arena (s : slab_state) (malloced base cur avail : Z) : slab_state :=
  mkSlabs (slabclass s) (mem_limit s) malloced (mem_limit_reached s)
    (power_largest s) base cur avail (chunks_mem s).

Section Slabs.
Context (st : settings).

(** ** Size classes *)

Fixpoint clsid_loop (fuel : nat) (s : slab_state) (sz : Z) (res : nat) : nat :=
  match fuel with
  | O => res
  | S fuel' =>
      if size (slabclass s !!! res) <? sz then
        if (res =? power_largest s)%nat then power_largest s
        else clsid_loop fuel' s sz (S res)
      else res
  end.

(** [res] goes up to [power_largest] at most. *)
Definition slabs_clsid (s : slab_state) (sz : Z) : nat :=
  if (sz =? 0) || (item_size_max st <? sz) then 0%nat
  else clsid_loop (S (power_largest s)) s sz POWER_SMALLEST.

(** ** Pages *)

Definition grow_slab_list (s : slab_state) (id : nat) (ok : bool) : slab_state * bool :=
  let p := slabclass s !!! id in
  if slabs p =? list_size p then
    let new_size := if negb (list_size p =? 0) then list_size p * 2 else 16 in
    if negb ok then (s, false)
    else (with_class s id (mkClass (size p) (perslab p) (slots p) (sl_curr p) (slabs p)
            (slab_list p ++ replicate (Z.to_nat (new_size - list_size p)) 0) (u32 new_size)
            (requested p)), true)
  else (s, true).

(** Put a chunk on its class's free list; the chunk's flags and class are reset. *)
Definition push_free (s : slab_state) (id : nat) (it : Z) (sz : Z) : slab_state :=
  let p := slabclass s !!! id in
  let h := upd it (λ i, set_slabs_clsid 0 (set_it_flags ITEM_SLABBED i)) (chunks_mem s) in
  let h := push it (slots p) h in
  with_mem (with_class s id (mkClass (size p) (perslab p) it (u32 (sl_curr p + 1)) (slabs p)
    (slab_list p) (list_size p) (u64 (requested p - sz)))) h.

(** The loop of [do_slabs_free_chunked]: the chunks of a large item go back to
    their own classes.  [assert(chunk->it_flags == ITEM_CHUNK)]. *)
Fixpoint free_chunks (fuel : nat) (s : slab_state) (chunk : Z) : option slab_state :=
  match fuel with
  | O => None
  | S fuel' =>
      if chunk =? 0 then Some s
      else let c := hdr (chunks_mem s) chunk in
           if negb (it_flags c =? ITEM_CHUNK) then None
           else free_chunks fuel'
                  (push_free s (Z.to_nat (Item.slabs_clsid c)) chunk (time c + sizeof_item_chunk))
                  (next c)
  end.

Definition do_slabs_free_chunked (s : slab_state) (it : Z) : option slab_state :=
  let i := hdr (chunks_mem s) it in
  let chunk := ITEM_data it i in
  let c := hdr (chunks_mem s) chunk in
  let id := Z.to_nat (nsuffix c) in    (* [chunk->orig_clsid] *)
  let h := if next c =? 0 then chunks_mem s else upd (next c) (set_prev 0) (chunks_mem s) in
  let sz := nkey i + 1 + nsuffix i + sizeof_item + sizeof_item_chunk in
  let sz := if use_cas st then sz + 8 else sz in
  let s := push_free (with_mem s h) id it sz in
  free_chunks (S (base.size (chunks_mem s))) s (next c).

(** [None]: an assertion fails. *)
Definition do_slabs_free (s : slab_state) (ptr : Z) (sz : Z) (id : nat) : option slab_state :=
  if (id <? POWER_SMALLEST)%nat || (power_largest s <? id)%nat then None
  else if has_flag (hdr (chunks_mem s) ptr) ITEM_CHUNKED then do_slabs_free_chunked s ptr
  else Some (push_free s id ptr sz).

(** [n] chunks of the class's size, from [ptr] on. *)
Fixpoint split_loop (n : nat) (s : slab_state) (ptr : Z) (id : nat) : option slab_state :=
  match n with
  | O => Some s
  | S n' => s ← do_slabs_free s ptr 0 id; split_loop n' s (ptr + size (slabclass s !!! id)) id
  end.

Definition split_slab_page_into_freelist (s : slab_state) (ptr : Z) (id : nat) : option slab_state :=
  split_loop (Z.to_nat (perslab (slabclass s !!! id))) s ptr id.

(** Null when the pool is empty. *)
Definition get_page_from_global_pool (s : slab_state) : slab_state * Z :=
  let p := slabclass s !!! SLAB_GLOBAL_PAGE_POOL in
  if slabs p <? 1 then (s, 0)
  else (with_class s SLAB_GLOBAL_PAGE_POOL (mkClass (size p) (perslab p) (slots p) (sl_curr p)
          (slabs p - 1) (slab_list p) (list_size p) (requested p)),
        slab_list p !!! Z.to_nat (slabs p - 1)).

Definition align8 (sz : Z) : Z :=
  if negb (sz mod CHUNK_ALIGN_BYTES =? 0) then sz + (CHUNK_ALIGN_BYTES - sz mod CHUNK_ALIGN_BYTES) else sz.

(** From [malloc], or from the arena allocated at start-up. *)
Definition memory_allocate (s : slab_state) (sz : Z) (malloc_ret : Z) : slab_state * Z :=
  if mem_base s =? 0 then
    (with_arena s (u64 (mem_malloced s + sz)) (mem_base s) (mem_current s) (mem_avail s), malloc_ret)
  else if mem_avail s <? sz then (s, 0)
  else
    let sz' := align8 sz in
    (with_arena s (u64 (mem_malloced s + sz')) (mem_base s) (mem_current s + sz')
       (if sz' <? mem_avail s then mem_avail s - sz' else 0), mem_current s).

(** How much of a page a class uses. *)
Definition page_len (s : slab_state) (id : nat) : Z :=
  let p := slabclass s !!! id in
  if slab_reassign st || negb (slab_chunk_size_max st =? slab_page_size st)
  then slab_page_size st else size p * perslab p.

(** A page from the pool or, failing that, from memory; null when there is none. *)
Definition new_page (s : slab_state) (len : Z) (o : os) : slab_state * Z :=
  let '(s, ptr) := get_page_from_global_pool s in
  if negb (ptr =? 0) then (s, ptr) else memory_allocate s len (malloc_ret o).

(** [p->slab_list[p->slabs++] = ptr;] *)
Definition add_page (s : slab_state) (id : nat) (ptr : Z) : slab_state :=
  let p := slabclass s !!! id in
  with_class s id (mkClass (size p) (perslab p) (slots p) (sl_curr p) (u32 (slabs p + 1))
    (<[Z.to_nat (slabs p) := ptr]> (slab_list p)) (list_size p) (requested p)).

Definition do_slabs_newslab (s : slab_state) (id : nat) (o : os) : option (slab_state * bool) :=
  let p := slabclass s !!! id in
  let g := slabclass s !!! SLAB_GLOBAL_PAGE_POOL in
  let len := page_len s id in
  if negb (mem_limit s =? 0) && (mem_limit s <? u64 (mem_malloced s + len)) && (0 <? slabs p) && (slabs g =? 0)
  then Some (with_limit_reached s true, false)
  else
    let '(s, ok) := grow_slab_list s id (realloc_ok o) in
    if negb ok then Some (s, false)
    else
      let '(s, ptr) := new_page s len o in
      if ptr =? 0 then Some (s, false)
      else
        let s := with_mem s (zero_range ptr len (chunks_mem s)) in
        s ← split_slab_page_into_freelist s ptr id;
        Some (add_page s id ptr, true).

(** ** Allocating and freeing chunks *)

(** Take the first chunk off the free list; null when it is empty. *)
Definition pop_free (s : slab_state) (id : nat) (sz : Z) : slab_state * Z :=
  let p := slabclass s !!! id in
  if negb (sl_curr p =? 0) then
    let it := slots p in
    let nx := next (hdr (chunks_mem s) it) in
    let h := if nx =? 0 then chunks_mem s else upd nx (set_prev 0) (chunks_mem s) in
    let h := upd it (λ i, set_refcount 1 (clear_flag ITEM_SLABBED i)) h in
    (with_mem (with_class s id (mkClass (size p) (perslab p) nx (u32 (sl_curr p - 1)) (slabs p)
       (slab_list p) (list_size p) (u64 (requested p + sz)))) h, it)
  else (s, 0).

(** The state, the chunk or null, and the class's [requested] at the call;
    [no_newpage] is [flags == SLABS_ALLOC_NO_NEWPAGE]. *)
Definition do_slabs_alloc (s : slab_state) (sz : Z) (id : nat) (no_newpage : bool) (o : os)
  : option (slab_state * Z * Z) :=
  if (id <? POWER_SMALLEST)%nat || (power_largest s <? id)%nat then Some (s, 0, 0)
  else
    let p := slabclass s !!! id in
    if negb ((sl_curr p =? 0) || (Item.slabs_clsid (hdr (chunks_mem s) (slots p)) =? 0)) then None
    else if size p <? sz then None
    else
      s ← (if (sl_curr p =? 0) && negb no_newpage then fst <$> do_slabs_newslab s id o else Some s);
      let '(s, ret) := pop_free s id sz in
      Some (s, ret, requested p).

(** ** Limits and statistics *)

(** Give pages of the pool back to the system while there is too much memory;
    the pool has [slabs] pages, so as many rounds are enough. *)
Fixpoint release_loop (fuel : nat) (s : slab_state) : slab_state :=
  match fuel with
  | O => s
  | S fuel' =>
      if mem_limit s <? mem_malloced s then
        let '(s, p) := get_page_from_global_pool s in
        if p =? 0 then s
        else release_loop fuel' (with_arena s (u64 (mem_malloced s - slab_page_size st))
               (mem_base s) (mem_current s) (mem_avail s))
      else s
  end.

Definition memory_release (s : slab_state) : slab_state :=
  if negb (mem_base s =? 0) then s
  else if negb (slab_reassign st) then s
  else release_loop (S (Z.to_nat (slabs (slabclass s !!! SLAB_GLOBAL_PAGE_POOL)))) s.

Definition do_slabs_adjust_mem_limit (s : slab_state) (new_limit : Z) : slab_state * bool :=
  if negb (mem_base s =? 0) then (s, false)
  else
    let s := mkSlabs (slabclass s) new_limit (mem_malloced s) false (power_largest s)
               (mem_base s) (mem_current s) (mem_avail s) (chunks_mem s) in
    (memory_release s, true).

(** [None]: the program aborts. *)
Definition slabs_adjust_mem_requested (s : slab_state) (id : nat) (old ntotal : Z) : option slab_state :=
  if (id <? POWER_SMALLEST)%nat || (power_largest s <? id)%nat then None
  else
    let p := slabclass s !!! id in
    Some (with_class s id (mkClass (size p) (perslab p) (slots p) (sl_curr p) (slabs p)
      (slab_list p) (list_size p) (u64 (requested p - old + ntotal)))).

(** Free chunks, whether the memory limit was reached, requested bytes, chunks per page *)
Definition slabs_available_chunks (s : slab_state) (id : nat) : Z * bool * Z * Z :=
  let p := slabclass s !!! id in (sl_curr p, mem_limit_reached s, requested p, perslab p).

(** ** Start-up

    The chunk sizes grow by a floating-point [factor]: [too_big size] stands for
    [size >= settings.slab_chunk_size_max / factor] and [times_factor size] for
    [size *= factor]. *)
Section Init.
Context (too_big : Z → bool) (times_factor : Z → Z).

(** The next chunk size, unless this is the last class. *)
Definition next_size (slab_sizes : option (list Z)) (i : nat) (sz : Z) : option Z :=
  match slab_sizes with
  | Some l => if l !!! (i - 1)%nat =? 0 then None else Some (l !!! (i - 1)%nat)
  | None => if too_big sz then None else Some sz
  end.

Fixpoint init_loop (fuel : nat) (slab_sizes : option (list Z)) (i : nat) (sz : Z)
    (cs : list slabclass_t) : nat * list slabclass_t :=
  match fuel with
  | O => (i, cs)
  | S fuel' =>
      let i := S i in
      if (i <? MAX_NUMBER_OF_SLAB_CLASSES - 1)%nat then
        match next_size slab_sizes i sz with
        | None => (i, cs)
        | Some sz =>
            let sz := u32 (align8 sz) in
            let cs := <[i := mkClass sz (slab_page_size st / sz) 0 0 0 [] 0 0]> cs in
            init_loop fuel' slab_sizes i
              (match slab_sizes with None => times_factor sz | Some _ => sz end) cs
        end
      else (i, cs)
  end.

(** [i] is at least 1 and at most 63 at the end: 63 rounds are enough. *)
Definition slabs_init_classes (slab_sizes : option (list Z)) : nat * list slabclass_t :=
  let '(pl, cs) := init_loop MAX_NUMBER_OF_SLAB_CLASSES slab_sizes (POWER_SMALLEST - 1)
    (u32 (sizeof_item + chunk_size st)) (replicate MAX_NUMBER_OF_SLAB_CLASSES zero_class) in
  (pl, <[pl := mkClass (slab_chunk_size_max st) (slab_page_size st / slab_chunk_size_max st)
          0 0 0 [] 0 0]> cs).

(** One page for every class; [None]: the program exits.  [k] classes are left. *)
Fixpoint slabs_preallocate (k : nat) (i : nat) (o : nat → os) (s : slab_state) : option slab_state :=
  match k with
  | O => Some s
  | S k' =>
      '(s, ok) ← do_slabs_newslab s i (o i);
      if ok : bool then slabs_preallocate k' (S i) o s else None
  end.

(** [arena] is what [malloc(mem_limit)] returns, [malloced] what the environment
    says has been allocated already. *)
Definition slabs_init (limit : Z) (prealloc : bool) (slab_sizes : option (list Z))
    (arena malloced : Z) (o : nat → os) : option slab_state :=
  let '(pl, cs) := slabs_init_classes slab_sizes in
  let use := prealloc && negb (arena =? 0) in
  let s := mkSlabs cs limit malloced false pl (if use then arena else 0) (if use then arena else 0)
             (if use then limit else 0) ∅ in
  if prealloc then
    slabs_preallocate (Nat.min pl (MAX_NUMBER_OF_SLAB_CLASSES - 1)) POWER_SMALLEST o s
  else Some s.

End Init.

(** ** What the lists and pages are *)

Definition cls (s : slab_state) (id : nat) : slabclass_t := slabclass s !!! id.

Definition valid (s : slab_state) (id : nat) : Prop := (1 ≤ id ≤ power_largest s)%nat.

(** The chunks on a class's free list. *)
Definition free_list (s : slab_state) (id : nat) : list Z :=
  walk (chunks_mem s) (slots (cls s id)) (Z.to_nat (sl_curr (cls s id))).

(** [p] is page [k] of class [id]. *)
Definition page (s : slab_state) (id k : nat) (p : Z) : Prop :=
  slab_list (cls s id) !! k = Some p ∧ Z.of_nat k < slabs (cls s id).

(** A chunk of class [id]. *)
Definition chunk (s : slab_state) (id : nat) (a : Z) : Prop :=
  ∃ k p i, page s id k p ∧ 0 ≤ i < perslab (cls s id) ∧ a = p + i * size (cls s id).

(** A chunk that has been handed out. *)
Definition held (s : slab_state) (id : nat) (a : Z) : Prop := chunk s id a ∧ a ∉ free_list s id.

(** The pages of the pool are whole. *)
Definition plen (s : slab_state) (id : nat) : Z :=
  if (id =? 0)%nat then slab_page_size st else page_len s id.

Definition fresh (s : slab_state) (p n : Z) : Prop :=
  0 < p ∧ ∀ id k q, page s id k q → p + n ≤ q ∨ q + plen s id ≤ p.

Record class_ok (s : slab_state) (id : nat) (l : list Z) : Prop := {
  c_dll : dll (chunks_mem s) 0 (slots (cls s id)) l;
  c_count : sl_curr (cls s id) = Z.of_nat (length l);
  c_width : Z.of_nat (length l) < two32;
  c_nodup : NoDup l;
  c_slabbed a : a ∈ l →
    it_flags (hdr (chunks_mem s) a) = ITEM_SLABBED ∧ Item.slabs_clsid (hdr (chunks_mem s) a) = 0
}.

(** The free lists are well-formed and apart. *)
Record lists_ok (s : slab_state) (F : nat → list Z) : Prop := {
  l_class id : valid s id → class_ok s id (F id);
  l_apart id id' a : valid s id → valid s id' → id ≠ id' → a ∈ F id → a ∉ F id'
}.

Record pages_ok (s : slab_state) : Prop := {
  p_count : length (slabclass s) = MAX_NUMBER_OF_SLAB_CLASSES;
  p_largest : (1 ≤ power_largest s < MAX_NUMBER_OF_SLAB_CLASSES)%nat;
  p_size id : valid s id → 0 < size (cls s id) ∧ 1 ≤ perslab (cls s id) ∧
    size (cls s id) * perslab (cls s id) ≤ slab_page_size st;
  p_list id : 0 ≤ slabs (cls s id) ≤ list_size (cls s id) ∧
    length (slab_list (cls s id)) = Z.to_nat (list_size (cls s id));
  p_pos id k p : page s id k p → 0 < p;
  p_pool id k p : page s id k p → id = 0%nat ∨ valid s id;
  p_apart id k p id' k' q :
    page s id k p → page s id' k' q → (id, k) ≠ (id', k') →
    p + plen s id ≤ q ∨ q + plen s id' ≤ p;
  p_arena : mem_base s ≠ 0 →
    0 < mem_base s ≤ mem_current s ∧ 0 ≤ mem_avail s ∧
    (mem_avail s = 0 ∨ mem_current s + mem_avail s ≤ mem_base s + mem_limit s) ∧
    ∀ id k p, page s id k p →
      mem_base s ≤ p ∧ p + plen s id ≤ mem_current s ∧ p + plen s id ≤ mem_base s + mem_limit s
}.

Record slabs_ok (s : slab_state) : Prop := {
  s_lists : lists_ok s (free_list s);
  s_pages : pages_ok s;
  s_chunks id a : valid s id → a ∈ free_list s id → chunk s id a
}.

(** ** The free lists *)

Definition set_list (F : nat → list Z) (id : nat) (l : list Z) : nat → list Z :=
  λ j, if decide (j = id) then l else F j.

Lemma cls_set_eq s id c :
  (id < length (slabclass s))%nat → cls (with_class s id c) id = c.
Proof. intros ?. unfold cls. simpl. by rewrite list_lookup_total_insert_eq. Qed.

Lemma cls_set_ne s id id' c : id ≠ id' → cls (with_class s id c) id' = cls s id'.
Proof. intros ?. unfold cls. simpl. by rewrite list_lookup_total_insert_ne. Qed.

Lemma valid_lt s id : pages_ok s → valid s id → (id < length (slabclass s))%nat.
Proof. intros Hp Hid. rewrite (p_count _ Hp). pose proof (p_largest _ Hp). unfold valid in Hid. lia. Qed.

Lemma class_ok_free s id l : class_ok s id l → free_list s id = l.
Proof.
  intros H. unfold free_list. rewrite (c_count _ _ _ H), Nat2Z.id. eapply walk_dll, H.
Qed.

Lemma lists_ok_free s F : lists_ok s F → lists_ok s (free_list s).
Proof.
  intros H. assert (Hf : ∀ id, valid s id → free_list s id = F id).
  { intros id Hid. by apply class_ok_free, H. }
  split.
  - intros id Hid. rewrite Hf by done. by apply H.
  - intros id id' a Hid Hid'. rewrite !Hf by done. by apply H.
Qed.

(** A class whose record and chunks have not changed. *)
Lemma class_ok_frame s s' id l :
  cls s' id = cls s id → (∀ a, a ∈ l → hdr (chunks_mem s') a = hdr (chunks_mem s) a) →
  class_ok s id l → class_ok s' id l.
Proof.
  intros Hc Hh [Hd Hn Hw Hnd Hs]. split; rewrite ?Hc; try done.
  - eapply dll_frame; [|done]. intros a Ha. by rewrite Hh.
  - intros a Ha. rewrite Hh by done. by apply Hs.
Qed.

Lemma lists_ok_frame s s' F :
  power_largest s' = power_largest s → (∀ id, valid s id → class_ok s id (F id) → class_ok s' id (F id)) →
  lists_ok s F → lists_ok s' F.
Proof.
  intros Hpl Hc [Hl Ha]. unfold valid in *. split; unfold valid; rewrite Hpl; eauto.
Qed.

Lemma slots_in s id l a : class_ok s id l → a ∉ l → a ≠ 0 → a ≠ slots (cls s id).
Proof.
  intros [Hd _ _ _ _] Ha Ha0 ->. apply dll_head in Hd. destruct l; simpl in Hd; [done|].
  rewrite Hd in Ha. set_solver.
Qed.

Definition free_mark (i : stritem) : stritem := set_slabs_clsid 0 (set_it_flags ITEM_SLABBED i).

Lemma payload_flags i j :
  payload i = payload j → it_flags i = it_flags j ∧ Item.slabs_clsid i = Item.slabs_clsid j.
Proof. destruct i, j. by intros [=]. Qed.

Lemma push_free_class s id l a sz :
  (id < length (slabclass s))%nat → class_ok s id l → a ≠ 0 → a ∉ l →
  Z.of_nat (length l) + 1 < two32 →
  class_ok (push_free s id a sz) id (a :: l).
Proof.
  intros Hlt H Ha Hal Hn. pose proof (c_nodup _ _ _ H) as Hnd.
  set (h1 := upd a free_mark (chunks_mem s)).
  assert (Hd1 : dll h1 0 (slots (cls s id)) l).
  { eapply dll_frame; [|apply H]. intros b Hb. unfold h1. by rewrite hdr_upd_ne by set_solver. }
  assert (Hc : cls (push_free s id a sz) id = mkClass (size (cls s id)) (perslab (cls s id)) a
    (u32 (sl_curr (cls s id) + 1)) (slabs (cls s id)) (slab_list (cls s id)) (list_size (cls s id))
    (u64 (requested (cls s id) - sz))) by (apply cls_set_eq; done).
  split; rewrite ?Hc; cbn [slots sl_curr].
  - by apply push_dll.
  - rewrite (c_count _ _ _ H). unfold u32. rewrite Z.mod_small; simpl; lia.
  - simpl length. lia.
  - by constructor.
  - intros b Hb. change (chunks_mem (push_free s id a sz)) with (push a (slots (cls s id)) h1).
    destruct (payload_flags _ _ (push_payload a (slots (cls s id)) h1 b)) as [-> ->].
    unfold h1. destruct (decide (a = b)) as [->|Hab]; [by rewrite hdr_upd_eq|].
    rewrite hdr_upd_ne by done. apply H. set_solver.
Qed.

Lemma push_free_lists s F id a sz :
  (id < length (slabclass s))%nat → lists_ok s F → valid s id → a ≠ 0 →
  (∀ id', valid s id' → a ∉ F id') → Z.of_nat (length (F id)) + 1 < two32 →
  lists_ok (push_free s id a sz) (set_list F id (a :: F id)).
Proof.
  intros Hlt [Hl Hap] Hid Ha Hfr Hn. split.
  - intros id' Hid'. unfold set_list. case_decide as Hd; [subst id'; apply push_free_class; auto|].
    eapply class_ok_frame; [| |by apply Hl].
    + unfold push_free. by apply cls_set_ne.
    + intros b Hb. assert (b ≠ a) by (intros ->; by apply (Hfr id')).
      assert (b ≠ slots (cls s id)).
      { eapply slots_in; [by apply Hl|by eapply Hap|]. eapply dll_nonzero; [|done]. by apply Hl. }
      change (chunks_mem (push_free s id a sz)) with (push a (slots (cls s id)) (upd a free_mark (chunks_mem s))).
      by rewrite push_other, hdr_upd_ne.
  - intros id1 id2 b Hid1 Hid2 Hne. unfold set_list.
    change (valid s id1) in Hid1. change (valid s id2) in Hid2.
    repeat case_decide; subst; try done.
    + intros [->|Hb]%elem_of_cons; [by apply Hfr|eauto].
    + intros Hb [->|Hb']%elem_of_cons; [by apply (Hfr id1)|by eapply (Hap id1)].
    + by apply Hap.
Qed.

(** ** What does not change the pages *)

Definition list_ok (s : slab_state) (id : nat) : Prop :=
  0 ≤ slabs (cls s id) ≤ list_size (cls s id) ∧
  length (slab_list (cls s id)) = Z.to_nat (list_size (cls s id)).

Record same_view (s s' : slab_state) : Prop := {
  sv_largest : power_largest s' = power_largest s;
  sv_length : length (slabclass s') = length (slabclass s);
  sv_base : mem_base s' = mem_base s;
  sv_current : mem_current s' = mem_current s;
  sv_avail : mem_avail s' = mem_avail s;
  sv_limit : mem_limit s' = mem_limit s;
  sv_class id : size (cls s' id) = size (cls s id) ∧ perslab (cls s' id) = perslab (cls s id) ∧
    slabs (cls s' id) = slabs (cls s id);
  sv_page id k p : page s' id k p ↔ page s id k p
}.

Section SameView.
Context {s s' : slab_state} (H : same_view s s').

Lemma same_valid id : valid s' id ↔ valid s id.
Proof. unfold valid. by rewrite (sv_largest _ _ H). Qed.

Lemma same_chunk id a : chunk s' id a ↔ chunk s id a.
Proof.
  unfold chunk. destruct (sv_class _ _ H id) as (-> & -> & _).
  split; intros (k & p & i & Hp & Hi); exists k, p, i; (split; [by apply (sv_page _ _ H)|done]).
Qed.

Lemma same_page_len id : page_len s' id = page_len s id.
Proof. unfold page_len. fold (cls s' id) (cls s id). by destruct (sv_class _ _ H id) as (-> & -> & _). Qed.

Lemma same_plen id : plen s' id = plen s id.
Proof. unfold plen. by rewrite same_page_len. Qed.

Lemma same_pages_ok : (∀ id, list_ok s' id) → pages_ok s → pages_ok s'.
Proof.
  intros Hlist []. split; try done.
  - by rewrite (sv_length _ _ H).
  - by rewrite (sv_largest _ _ H).
  - intros id Hid%same_valid. destruct (sv_class _ _ H id) as (-> & -> & _). by apply p_size0.
  - intros id k p ?%(sv_page _ _ H). by eapply p_pos0.
  - intros id k p ?%(sv_page _ _ H). rewrite same_valid. by eapply p_pool0.
  - intros id k p id' k' q ?%(sv_page _ _ H) ?%(sv_page _ _ H) ?. rewrite !same_plen. by eapply p_apart0.
  - rewrite (sv_base _ _ H), (sv_current _ _ H), (sv_avail _ _ H), (sv_limit _ _ H).
    intros Hb. destruct (p_arena0 Hb) as (? & ? & ? & Hp). split_and!; try done; try lia.
    intros id k p Hpg%(sv_page _ _ H). rewrite same_plen. by apply (Hp id k).
Qed.
End SameView.

Lemma same_view_trans s1 s2 s3 : same_view s1 s2 → same_view s2 s3 → same_view s1 s3.
Proof.
  intros H1 H2. destruct H1, H2. split; try congruence.
  - intros id. destruct (sv_class0 id) as (?&?&?), (sv_class1 id) as (?&?&?). split_and!; congruence.
  - intros id k p. by rewrite sv_page1.
Qed.

(** The page lists are the same, too. *)
Definition same_pages (s s' : slab_state) : Prop :=
  same_view s s' ∧
  ∀ id, slab_list (cls s' id) = slab_list (cls s id) ∧ list_size (cls s' id) = list_size (cls s id).

Lemma same_pages_refl s : same_pages s s.
Proof. split; [by split|done]. Qed.

Lemma same_pages_trans s1 s2 s3 : same_pages s1 s2 → same_pages s2 s3 → same_pages s1 s3.
Proof.
  intros [V1 L1] [V2 L2]. split; [by eapply same_view_trans|]. intros id.
  destruct (L1 id), (L2 id). split; congruence.
Qed.

Lemma same_pages_with_mem s h : same_pages s (with_mem s h).
Proof. split; [by split|done]. Qed.

Lemma same_pages_with_class s id c :
  (id < length (slabclass s))%nat →
  size c = size (cls s id) → perslab c = perslab (cls s id) → slabs c = slabs (cls s id) →
  slab_list c = slab_list (cls s id) → list_size c = list_size (cls s id) →
  same_pages s (with_class s id c).
Proof.
  intros Hlt H1 H2 H3 H4 H5.
  assert (Hc : ∀ id', size (cls (with_class s id c) id') = size (cls s id') ∧
    perslab (cls (with_class s id c) id') = perslab (cls s id') ∧
    slabs (cls (with_class s id c) id') = slabs (cls s id') ∧
    slab_list (cls (with_class s id c) id') = slab_list (cls s id') ∧
    list_size (cls (with_class s id c) id') = list_size (cls s id')).
  { intros id'. destruct (decide (id = id')) as [<-|]; [by rewrite cls_set_eq|by rewrite cls_set_ne]. }
  split; [split; try done; [apply length_insert| |]|].
  - intros id'. by destruct (Hc id') as (? & ? & ? & _).
  - intros id' k p. unfold page. by destruct (Hc id') as (_ & _ & -> & -> & _).
  - intros id'. by destruct (Hc id') as (_ & _ & _ & ? & ?).
Qed.

Lemma same_pages_list s s' id : same_pages s s' → list_ok s id → list_ok s' id.
Proof.
  intros [V L]. unfold list_ok. destruct (L id) as [-> ->].
  by destruct (sv_class _ _ V id) as (_ & _ & ->).
Qed.

Lemma push_free_same s id a sz : (id < length (slabclass s))%nat → same_pages s (push_free s id a sz).
Proof. intros ?. eapply same_pages_trans; [|apply same_pages_with_mem]. by apply same_pages_with_class. Qed.

(** ** Splitting a page *)

(** The addresses of [n] chunks. *)
Definition chunk_seq (ptr sz : Z) (n : nat) : list Z := (λ j, ptr + Z.of_nat j * sz) <$> seq 0 n.

Lemma elem_of_chunk_seq ptr sz n a :
  a ∈ chunk_seq ptr sz n ↔ ∃ j, 0 ≤ j < Z.of_nat n ∧ a = ptr + j * sz.
Proof.
  unfold chunk_seq. rewrite list_elem_of_fmap. split.
  - intros (j & -> & Hj%elem_of_seq). exists (Z.of_nat j). lia.
  - intros (j & Hj & ->). exists (Z.to_nat j). rewrite elem_of_seq, Z2Nat.id by lia. split; [done|lia].
Qed.

Lemma chunk_seq_S ptr sz n : chunk_seq ptr sz (S n) = ptr :: chunk_seq (ptr + sz) sz n.
Proof.
  unfold chunk_seq. simpl. f_equal; [lia|]. rewrite <-fmap_S_seq, <-list_fmap_compose.
  apply list_fmap_ext. intros i x _. simpl. lia.
Qed.

Lemma push_free_flags s id a sz b :
  a ≠ b → it_flags (hdr (chunks_mem (push_free s id a sz)) b) = it_flags (hdr (chunks_mem s) b).
Proof.
  intros Hab. change (chunks_mem (push_free s id a sz)) with (push a (slots (cls s id)) (upd a free_mark (chunks_mem s))).
  destruct (payload_flags _ _ (push_payload a (slots (cls s id)) (upd a free_mark (chunks_mem s)) b)) as [-> _].
  by rewrite hdr_upd_ne.
Qed.

Lemma push_free_other s id l a sz b :
  class_ok s id l → b ≠ a → b ∉ l → hdr (chunks_mem (push_free s id a sz)) b = hdr (chunks_mem s) b.
Proof.
  intros Hc Hb Hbl. change (chunks_mem (push_free s id a sz))
    with (push a (slots (cls s id)) (upd a free_mark (chunks_mem s))).
  rewrite push_other; [by rewrite hdr_upd_ne|done|]. intros Hz ->. by apply (slots_in s id l _ Hc Hbl Hz).
Qed.

Lemma split_ok n s F id ptr :
  (id < length (slabclass s))%nat → lists_ok s F → valid s id → 0 < ptr → 0 < size (cls s id) →
  (∀ a, a ∈ chunk_seq ptr (size (cls s id)) n →
     it_flags (hdr (chunks_mem s) a) = 0 ∧ ∀ id', valid s id' → a ∉ F id') →
  Z.of_nat (length (F id)) + Z.of_nat n < two32 →
  ∃ s' F', split_loop n s ptr id = Some s' ∧ same_pages s s' ∧ lists_ok s' F' ∧
    (∀ id', id' ≠ id → F' id' = F id') ∧
    F' id = reverse (chunk_seq ptr (size (cls s id)) n) ++ F id ∧
    ∀ b, b ∉ chunk_seq ptr (size (cls s id)) n → b ∉ F id → hdr (chunks_mem s') b = hdr (chunks_mem s) b.
Proof.
  revert s F ptr. induction n as [|n IH]; intros s F ptr Hlt HF Hid Hptr Hsz Hnew Hn.
  { by exists s, F. }
  cbn [split_loop]. unfold do_slabs_free.
  rewrite chunk_seq_S in Hnew. destruct (Hnew ptr) as [Hfl Hnin]; [by left|].
  rewrite (proj2 (Nat.ltb_ge _ _)) by apply Hid. rewrite (proj2 (Nat.ltb_ge _ _)) by apply Hid. simpl orb.
  unfold has_flag. rewrite Hfl. cbn [Z.land Z.eqb negb mbind option_bind].
  set (s1 := push_free s id ptr 0).
  assert (Hsame : same_pages s s1) by by apply push_free_same.
  assert (H1 : lists_ok s1 (set_list F id (ptr :: F id))) by (apply push_free_lists; auto; lia).
  destruct (sv_class _ _ (proj1 Hsame) id) as (Hs1 & _).
  destruct (IH s1 (set_list F id (ptr :: F id)) (ptr + size (cls s1 id)))
    as (s' & F' & Hs' & Hsame' & HF' & Hne & He & Hh).
  - by rewrite (sv_length _ _ (proj1 Hsame)).
  - done.
  - by apply (same_valid (proj1 Hsame)).
  - lia.
  - lia.
  - rewrite Hs1. intros a Ha. assert (ptr ≠ a).
    { apply elem_of_chunk_seq in Ha as (j & ? & ->). nia. }
    destruct (Hnew a) as [Hfa Hna]; [by right|]. split; [unfold s1; by rewrite push_free_flags|].
    intros id' Hid'. apply (same_valid (proj1 Hsame)) in Hid'. unfold set_list. case_decide; [subst|by apply Hna].
    rewrite not_elem_of_cons. split; [done|by apply Hna].
  - unfold set_list. rewrite decide_True by done. simpl length. lia.
  - exists s', F'. split_and!; try done.
    + by eapply same_pages_trans.
    + intros id' Hne'. rewrite Hne by done. unfold set_list. by rewrite decide_False.
    + rewrite He, Hs1, chunk_seq_S, reverse_cons. unfold set_list. rewrite decide_True by done.
      by rewrite <-(assoc_L (++)).
    + intros b. rewrite chunk_seq_S, not_elem_of_cons. intros [Hb Hbn] HbF.
      rewrite Hh; [by eapply push_free_other; [apply HF|..]|by rewrite Hs1|].
      unfold set_list. rewrite decide_True by done. by rewrite not_elem_of_cons.
Qed.

(** ** Getting a page *)

(** The invariant, with the free lists [F]. *)
Record ok_with (s : slab_state) (F : nat → list Z) : Prop := {
  w_lists : lists_ok s F;
  w_pages : pages_ok s;
  w_chunks id a : valid s id → a ∈ F id → chunk s id a
}.

Lemma ok_with_slabs_ok s F : ok_with s F → slabs_ok s.
Proof.
  intros [Hl Hp Hc]. split; [by eapply lists_ok_free|done|].
  intros id a Hid Ha. apply Hc; [done|]. rewrite <-(class_ok_free s id (F id)); [done|by apply Hl].
Qed.

Lemma slabs_ok_with s : slabs_ok s → ok_with s (free_list s).
Proof. by intros []. Qed.

Lemma page_len_range s id :
  pages_ok s → valid s id →
  size (cls s id) * perslab (cls s id) ≤ page_len s id ≤ slab_page_size st ∧ 0 < page_len s id.
Proof.
  intros Hp Hid. destruct (p_size _ Hp id Hid) as (? & ? & ?). unfold page_len. fold (cls s id).
  case_match; nia.
Qed.

(** A chunk lies within its page. *)
Lemma chunk_in_page s id a :
  pages_ok s → valid s id → chunk s id a →
  ∃ k p, page s id k p ∧ p ≤ a ∧ a + size (cls s id) ≤ p + plen s id.
Proof.
  intros Hp Hid (k & p & i & Hpg & Hi & ->). exists k, p. split; [done|].
  destruct (p_size _ Hp id Hid) as (? & ? & ?). destruct (page_len_range s id Hp Hid) as [[? ?] ?].
  unfold plen. rewrite (proj2 (Nat.eqb_neq id 0)) by (unfold valid in Hid; lia). nia.
Qed.

(** No chunk is in a page that is new. *)
Lemma fresh_chunk s p n id a :
  pages_ok s → fresh s p n → valid s id → chunk s id a → ¬ (p ≤ a < p + n).
Proof.
  intros Hp [_ Hf] Hid (k & q & Hpg & Hqa & Haq)%chunk_in_page; [|done..].
  destruct (p_size _ Hp id Hid) as (? & ? & ?). destruct (Hf id k q Hpg); lia.
Qed.

Lemma grow_ok s F id rok :
  ok_with s F → (id < length (slabclass s))%nat → slabs (cls s id) * 2 + 32 < two32 →
  let '(s1, ok) := grow_slab_list s id rok in
  if ok then ok_with s1 F ∧ same_view s s1 ∧ slabs (cls s1 id) < list_size (cls s1 id) ∧
    chunks_mem s1 = chunks_mem s
  else s1 = s.
Proof.
  intros Hok Hlt Hroom. unfold grow_slab_list. fold (cls s id).
  pose proof (w_pages _ _ Hok) as Hp. destruct (p_list _ Hp id) as [Hs Hll].
  destruct (Z.eqb_spec (slabs (cls s id)) (list_size (cls s id))) as [Hfull|Hfull].
  2: { split_and!; [done|by split|lia|done]. }
  destruct rok; simpl negb; [|done]. set (ns := if negb (list_size (cls s id) =? 0) then _ else 16).
  assert (Hns : list_size (cls s id) < ns < two32).
  { unfold ns, two32 in *. destruct (Z.eqb_spec (list_size (cls s id)) 0); simpl; lia. }
  set (c := mkClass _ _ _ _ _ _ _ _). set (s1 := with_class s id c).
  assert (Hcu : u32 ns = ns) by (apply Z.mod_small; lia).
  assert (Hc : cls s1 id = c) by by apply cls_set_eq.
  assert (Hc' : ∀ id', id ≠ id' → cls s1 id' = cls s id') by (intros; by apply cls_set_ne).
  assert (Hv : same_view s s1).
  { split; try done.
    - apply length_insert.
    - intros id'. destruct (decide (id = id')) as [<-|]; [by rewrite Hc|by rewrite Hc'].
    - intros id' k p. unfold page. destruct (decide (id = id')) as [<-|]; [|by rewrite Hc'].
      rewrite Hc. simpl. split; intros [Hk ?]; (split; [|done]).
      + rewrite lookup_app_l in Hk; [done|lia].
      + rewrite lookup_app_l; [done|lia]. }
  split_and!; [|done|rewrite Hc; simpl; lia|done]. split.
  - apply (lists_ok_frame s); [done| |apply Hok]. intros id' _ [Hd Hn Hwd Hnd Hsl].
    split; try done; (destruct (decide (id = id')) as [<-|]; [by rewrite Hc|by rewrite Hc']).
  - apply (same_pages_ok Hv); [|done]. intros id'. unfold list_ok.
    destruct (decide (id = id')) as [<-|]; [|rewrite Hc' by done; by apply Hp].
    rewrite Hc. simpl. rewrite length_app, length_replicate, Hcu. lia.
  - intros id' a Hid' Ha. apply (same_chunk Hv). apply Hok; [|done]. by apply (same_valid Hv).
Qed.

(** What the C library promises of [malloc]: null, or memory of its own. *)
Definition malloc_ok (s : slab_state) (id : nat) (o : os) : Prop :=
  mem_base s = 0 → malloc_ret o = 0 ∨ fresh s (malloc_ret o) (page_len s id).

(** A page within the arena, if there is one. *)
Definition in_arena (s : slab_state) (p n : Z) : Prop :=
  mem_base s ≠ 0 →
  mem_base s ≤ p ∧ p + n ≤ mem_current s ∧ p + n ≤ mem_base s + mem_limit s.

(** The state after a page has been taken: the classes but the pool are as before. *)
Record took_page (s s' : slab_state) : Prop := {
  tp_largest : power_largest s' = power_largest s;
  tp_length : length (slabclass s') = length (slabclass s);
  tp_mem : chunks_mem s' = chunks_mem s;
  tp_class id : id ≠ 0%nat → cls s' id = cls s id;
  tp_page k p : page s' 0 k p → page s 0 k p
}.

Lemma took_page_lists s s' F :
  took_page s s' → lists_ok s F → lists_ok s' F.
Proof.
  intros H. apply lists_ok_frame; [apply H|]. intros id Hid. apply class_ok_frame.
  - apply H. unfold valid in Hid. lia.
  - intros. by rewrite (tp_mem _ _ H).
Qed.

Lemma took_page_page s s' id k p : took_page s s' → page s' id k p → page s id k p.
Proof.
  intros H. destruct (decide (id = 0%nat)) as [->|]; [apply H|]. unfold page. by rewrite (tp_class _ _ H).
Qed.

Lemma took_page_chunk s s' id a :
  took_page s s' → valid s id → chunk s' id a ↔ chunk s id a.
Proof. intros H Hid. unfold chunk, page. rewrite (tp_class _ _ H); [done|]. unfold valid in Hid. lia. Qed.

Lemma took_page_plen s s' id : took_page s s' → plen s' id = plen s id.
Proof.
  intros H. unfold plen. destruct (Nat.eqb_spec id 0); [done|]. unfold page_len.
  fold (cls s id) (cls s' id). by rewrite (tp_class _ _ H).
Qed.

Lemma took_page_pages s s' :
  took_page s s' → pages_ok s → list_ok s' 0 →
  (mem_base s' ≠ 0 → mem_base s ≠ 0 ∧ mem_base s' = mem_base s ∧ mem_limit s' = mem_limit s ∧
     mem_current s ≤ mem_current s' ∧ 0 ≤ mem_avail s' ∧
     (mem_avail s' = 0 ∨ mem_current s' + mem_avail s' ≤ mem_base s + mem_limit s)) →
  pages_ok s'.
Proof.
  intros H [] Hl Harena.
  assert (Hv : ∀ id, valid s' id ↔ valid s id) by (intros; unfold valid; by rewrite (tp_largest _ _ H)).
  split.
  - by rewrite (tp_length _ _ H).
  - by rewrite (tp_largest _ _ H).
  - intros id Hid%Hv. rewrite (tp_class _ _ H); [by apply p_size0|]. unfold valid in Hid. lia.
  - intros id. destruct (decide (id = 0%nat)) as [->|]; [apply Hl|]. rewrite (tp_class _ _ H) by done. apply p_list0.
  - intros id k p Hp%(took_page_page _ _ _ _ _ H). by eapply p_pos0.
  - intros id k p Hp%(took_page_page _ _ _ _ _ H). rewrite Hv. by eapply p_pool0.
  - intros id k p id' k' q Hp%(took_page_page _ _ _ _ _ H) Hq%(took_page_page _ _ _ _ _ H) Hne.
    rewrite !(took_page_plen _ _ _ H). by eapply p_apart0.
  - intros Hb. destruct (Harena Hb) as (Hb0 & -> & -> & ? & ? & ?).
    destruct (p_arena0 Hb0) as (? & ? & ? & Hp). split_and!; try done; try lia.
    intros id k p Hpg%(took_page_page _ _ _ _ _ H). rewrite (took_page_plen _ _ _ H).
    destruct (Hp id k p Hpg). lia.
Qed.

Lemma pool_page s :
  pages_ok s → 1 ≤ slabs (cls s 0) →
  let '(s', ptr) := get_page_from_global_pool s in
  took_page s s' ∧ pages_ok s' ∧ fresh s' ptr (slab_page_size st) ∧ in_arena s' ptr (slab_page_size st).
Proof.
  intros Hp Hs. unfold get_page_from_global_pool. fold (cls s SLAB_GLOBAL_PAGE_POOL).
  unfold SLAB_GLOBAL_PAGE_POOL. rewrite (proj2 (Z.ltb_ge _ _)) by done.
  destruct (p_list _ Hp 0%nat) as [Hl Hll]. set (n := Z.to_nat (slabs (cls s 0) - 1)).
  destruct (lookup_lt_is_Some_2 (slab_list (cls s 0)) n) as [ptr Hptr]; [lia|].
  rewrite (list_lookup_total_correct _ _ _ Hptr). set (c := mkClass _ _ _ _ _ _ _ _).
  set (s' := with_class s 0 c).
  assert (Hlt : (0 < length (slabclass s))%nat) by (rewrite (p_count _ Hp); unfold MAX_NUMBER_OF_SLAB_CLASSES; lia).
  assert (Hc : cls s' 0 = c) by by apply cls_set_eq.
  assert (Ht : took_page s s').
  { split; try done.
    - apply length_insert.
    - intros id Hid. by apply cls_set_ne.
    - intros k p. unfold page. rewrite Hc. simpl. intros [? ?]. split; [done|lia]. }
  assert (Hpn : page s 0 n ptr) by (split; [done|lia]).
  split_and!; [done| | |].
  - apply (took_page_pages s); try done.
    + unfold list_ok. rewrite Hc. simpl. split; [lia|done].
    + intros Hb. destruct (p_arena _ Hp Hb) as (? & ? & ? & ?). simpl. split_and!; try done; lia.
  - split; [by eapply p_pos|]. intros id k q Hq.
    rewrite (took_page_plen _ _ _ Ht). pose proof (took_page_page _ _ _ _ _ Ht Hq) as Hq'.
    destruct (p_apart _ Hp 0%nat n ptr id k q Hpn Hq') as [|]; [|by left|by right].
    intros [= <- <-]. destruct Hq as [_ Hq]. rewrite Hc in Hq. simpl in Hq. lia.
  - intros Hb. destruct (p_arena _ Hp Hb) as (_ & _ & _ & Ha). apply (Ha 0%nat n ptr Hpn).
Qed.

Lemma align8_ge sz : 0 ≤ sz → sz ≤ align8 sz.
Proof.
  intros ?. unfold align8, CHUNK_ALIGN_BYTES. pose proof (Z.mod_pos_bound sz 8).
  case_match; lia.
Qed.

Lemma memory_page s id o :
  pages_ok s → valid s id → malloc_ok s id o →
  let '(s', ptr) := memory_allocate s (page_len s id) (malloc_ret o) in
  took_page s s' ∧ pages_ok s' ∧
  (ptr ≠ 0 → fresh s' ptr (page_len s id) ∧ in_arena s' ptr (page_len s id)).
Proof.
  intros Hp Hid Hm. destruct (page_len_range s id Hp Hid) as [_ Hlen]. set (len := page_len s id) in *.
  unfold memory_allocate. destruct (Z.eqb_spec (mem_base s) 0) as [Hb|Hb].
  { set (s' := with_arena _ _ _ _ _). assert (Ht : took_page s s') by by split.
    split_and!; [done|by apply (took_page_pages s); [..|apply (p_list _ Hp)|]|].
    intros Hptr. split; [|by intros]. destruct (Hm Hb) as [?|[? Hf]]; [done|]. split; [done|].
    intros id' k q Hq. rewrite (took_page_plen _ _ _ Ht). by apply (Hf id' k). }
  destruct (p_arena _ Hp Hb) as (Hb1 & Hav & Hend & Hpg).
  destruct (Z.ltb_spec (mem_avail s) len) as [Hbig|Hbig].
  { by split_and!. }
  pose proof (align8_ge len ltac:(lia)) as Hal. set (s' := with_arena _ _ _ _ _).
  assert (Ht : took_page s s') by by split. split_and!; [done| |].
  - apply (took_page_pages s); [done|done|apply (p_list _ Hp)|]. intros _. simpl.
    split_and!; try done; try lia; case_match; lia.
  - intros _. split; [split; [lia|]|].
    + intros id' k q Hq. rewrite (took_page_plen _ _ _ Ht). right. by apply (Hpg id' k q).
    + intros _. simpl. lia.
Qed.

Lemma new_page_ok s F id o :
  ok_with s F → valid s id → malloc_ok s id o →
  let '(s', ptr) := new_page s (page_len s id) o in
  ok_with s' F ∧ took_page s s' ∧
  (ptr ≠ 0 → fresh s' ptr (page_len s id) ∧ in_arena s' ptr (page_len s id)).
Proof.
  intros [Hl Hp Hc] Hid Hm.
  assert (Hend : ∀ s', took_page s s' → pages_ok s' → ok_with s' F).
  { intros s' Ht Hp'. split; [by eapply took_page_lists|done|].
    assert (∀ i, valid s' i ↔ valid s i) as Hv by (intros; unfold valid; by rewrite (tp_largest _ _ Ht)).
    intros id' a Hid'%Hv Ha. rewrite (took_page_chunk s s') by done. by apply Hc. }
  unfold new_page. destruct (decide (1 ≤ slabs (cls s 0))) as [Hs|Hs].
  - pose proof (pool_page s Hp Hs) as Hpool.
    destruct (get_page_from_global_pool s) as [s' ptr]. destruct Hpool as (Ht & Hp' & [Hpos Hf] & Ha).
    rewrite (proj2 (Z.eqb_neq _ _)) by lia. simpl. destruct (page_len_range s id Hp Hid) as [[_ ?] _].
    split_and!; [by apply Hend|done|]. intros _. split; [split; [done|]|].
    + intros id' k q Hq. destruct (Hf id' k q Hq); [left; lia|by right].
    + intros Hb. destruct (Ha Hb). lia.
  - unfold get_page_from_global_pool. fold (cls s SLAB_GLOBAL_PAGE_POOL).
    unfold SLAB_GLOBAL_PAGE_POOL. rewrite (proj2 (Z.ltb_lt _ _)) by lia. simpl.
    pose proof (memory_page s id o Hp Hid Hm) as Hmp.
    destruct (memory_allocate _ _ _) as [s' ptr]. destruct Hmp as (? & ? & ?). split_and!; auto.
Qed.

(** ** A new page for a class *)

Lemma plen_valid s id : valid s id → plen s id = page_len s id.
Proof. intros Hid. unfold plen. rewrite (proj2 (Nat.eqb_neq id 0)); [done|]. unfold valid in Hid. lia. Qed.

Lemma zero_lists s F ptr n :
  ok_with s F → fresh s ptr n → lists_ok (with_mem s (zero_range ptr n (chunks_mem s))) F.
Proof.
  intros [Hl Hp Hc] Hf. apply (lists_ok_frame s); [done| |done]. intros id Hid.
  apply class_ok_frame; [done|]. intros a Ha. simpl. apply hdr_zero_out.
  eapply fresh_chunk; eauto.
Qed.

Section AddPage.
Context (s : slab_state) (id : nat) (ptr : Z).
Hypothesis Hp : pages_ok s.
Hypothesis Hid : valid s id.
Hypothesis Hroom : slabs (cls s id) < list_size (cls s id).
Hypothesis Hwidth : slabs (cls s id) + 1 < two32.

Lemma add_page_cls : cls (add_page s id ptr) id = mkClass (size (cls s id)) (perslab (cls s id))
  (slots (cls s id)) (sl_curr (cls s id)) (slabs (cls s id) + 1)
  (<[Z.to_nat (slabs (cls s id)) := ptr]> (slab_list (cls s id))) (list_size (cls s id)) (requested (cls s id)).
Proof.
  unfold add_page. fold (cls s id). rewrite cls_set_eq by by apply valid_lt.
  f_equal. apply Z.mod_small. pose proof (p_list _ Hp id). lia.
Qed.

Lemma add_page_page id' k p :
  page (add_page s id ptr) id' k p ↔
  page s id' k p ∨ (id' = id ∧ k = Z.to_nat (slabs (cls s id)) ∧ p = ptr).
Proof.
  destruct (p_list _ Hp id) as [Hl Hll]. unfold page. destruct (decide (id' = id)) as [->|Hne].
  - rewrite add_page_cls. cbn [slab_list slabs]. rewrite list_lookup_insert. case_decide as Hd.
    + destruct Hd as [<- ?]. split; [intros [[= ->] _]; auto|].
      intros [[? ?]|(_ & _ & ->)]; [lia|]. split; [done|lia].
    + split.
      * intros [Hk ?]. left. split; [done|]. apply lookup_lt_Some in Hk.
        assert (Z.to_nat (slabs (cls s id)) ≠ k) by (intros Heq; apply Hd; split; [done|lia]). lia.
      * intros [[? ?]|(_ & -> & ->)]; [split; [done|lia]|]. destruct Hd. split; [done|lia].
  - unfold add_page. rewrite cls_set_ne by done. naive_solver.
Qed.

Lemma add_page_view id' :
  size (cls (add_page s id ptr) id') = size (cls s id') ∧
  perslab (cls (add_page s id ptr) id') = perslab (cls s id') ∧
  plen (add_page s id ptr) id' = plen s id'.
Proof.
  assert (H : size (cls (add_page s id ptr) id') = size (cls s id') ∧
    perslab (cls (add_page s id ptr) id') = perslab (cls s id')).
  { destruct (decide (id = id')) as [<-|]; [by rewrite add_page_cls|].
    unfold add_page. by rewrite cls_set_ne. }
  unfold plen, page_len. fold (cls s id') (cls (add_page s id ptr) id'). by destruct H as [-> ->].
Qed.

Lemma add_page_chunk id' a :
  chunk (add_page s id ptr) id' a ↔
  chunk s id' a ∨ (id' = id ∧ a ∈ chunk_seq ptr (size (cls s id)) (Z.to_nat (perslab (cls s id)))).
Proof.
  unfold chunk. destruct (add_page_view id') as (-> & -> & _). rewrite elem_of_chunk_seq. split.
  - intros (k & p & i & [Hpg|(-> & -> & ->)]%add_page_page & Hi & ->); [left; eauto 10|].
    right. split; [done|]. exists i. split; [lia|done].
  - intros [(k & p & i & Hpg & Hi)|(-> & j & Hj & ->)].
    + exists k, p, i. rewrite add_page_page. auto.
    + eexists _, ptr, j. rewrite add_page_page. split; [right; eauto|]. split; [lia|done].
Qed.

Lemma add_page_pages :
  fresh s ptr (page_len s id) → in_arena s ptr (page_len s id) → pages_ok (add_page s id ptr).
Proof.
  intros [Hpos Hf] Ha. pose proof Hp as [].
  assert (Hv : ∀ id', plen (add_page s id ptr) id' = plen s id') by (intros; apply add_page_view).
  split; simpl; try done.
  - by rewrite length_insert.
  - intros id' Hid'. destruct (add_page_view id') as (-> & -> & _). by apply p_size0.
  - intros id'. destruct (decide (id = id')) as [<-|].
    + rewrite add_page_cls. simpl. rewrite length_insert. destruct (p_list0 id). lia.
    + unfold add_page. rewrite cls_set_ne by done. apply p_list0.
  - intros id' k p [Hpg|(-> & -> & ->)]%add_page_page; [by eapply p_pos0|done].
  - intros id' k p [Hpg|(-> & -> & ->)]%add_page_page; [by eapply p_pool0|by right].
  - intros id1 k1 p1 id2 k2 p2 H1 H2 Hne. rewrite !Hv.
    apply add_page_page in H1 as [H1|(-> & -> & ->)], H2 as [H2|(-> & -> & ->)].
    + by eapply p_apart0.
    + rewrite (plen_valid s id Hid). destruct (Hf id1 k1 p1 H1); [by right|by left].
    + rewrite (plen_valid s id Hid). by apply (Hf id2 k2).
    + done.
  - intros Hb. destruct (p_arena0 Hb) as (? & ? & ? & Hpg). split_and!; try done; try lia.
    intros id' k p [H'|(-> & -> & ->)]%add_page_page; rewrite Hv; [by apply (Hpg id' k)|].
    rewrite (plen_valid s id Hid). by apply Ha.
Qed.
End AddPage.

(** The class has room for another page within the width of its counters. *)
Definition room (s : slab_state) (id : nat) : Prop :=
  slabs (cls s id) * 2 + 32 < two32 ∧ sl_curr (cls s id) + perslab (cls s id) < two32.

(** The same classes with at most one page more each, and no chunk in use has changed. *)
Record grown (s s' : slab_state) : Prop := {
  g_largest : power_largest s' = power_largest s;
  g_class id : valid s id → size (cls s' id) = size (cls s id) ∧ perslab (cls s' id) = perslab (cls s id) ∧
    slabs (cls s id) ≤ slabs (cls s' id) ≤ slabs (cls s id) + 1;
  g_hdr id a : valid s id → held s id a → hdr (chunks_mem s') a = hdr (chunks_mem s) a
}.

(** The same pages and free chunks. *)
Record same_class (s s' : slab_state) (id : nat) : Prop := {
  sc_free : free_list s' id = free_list s id;
  sc_slabs : slabs (cls s' id) = slabs (cls s id);
  sc_chunk a : chunk s' id a ↔ chunk s id a;
  sc_page k p : page s' id k p ↔ page s id k p
}.

(** And the same chunks in use. *)
Record keeps (s s' : slab_state) : Prop := {
  k_grown : grown s s';
  k_held id a : valid s id → held s' id a ↔ held s id a
}.

Lemma fill_page_ok s F id ptr :
  ok_with s F → valid s id → slabs (cls s id) < list_size (cls s id) → room s id →
  ptr ≠ 0 → fresh s ptr (page_len s id) → in_arena s ptr (page_len s id) →
  ∃ s', split_slab_page_into_freelist
          (with_mem s (zero_range ptr (page_len s id) (chunks_mem s))) ptr id = Some s' ∧
    ∃ F', ok_with (add_page s' id ptr) F' ∧ F' id ≠ [] ∧
      power_largest (add_page s' id ptr) = power_largest s ∧
      (∀ id', size (cls (add_page s' id ptr) id') = size (cls s id') ∧
         perslab (cls (add_page s' id ptr) id') = perslab (cls s id') ∧
         slabs (cls s id') ≤ slabs (cls (add_page s' id ptr) id') ≤ slabs (cls s id') + 1) ∧
      (∀ id' a, valid s id' → chunk s id' a → a ∉ F id →
         hdr (chunks_mem (add_page s' id ptr)) a = hdr (chunks_mem s) a) ∧
      (∀ id', valid s id' → ∀ a,
         (chunk (add_page s' id ptr) id' a ∧ a ∉ F' id') ↔ (chunk s id' a ∧ a ∉ F id')).
Proof.
  intros Hok Hid Hlist [Hw Hn] Hptr Hf Ha. pose proof Hok as [Hl Hp Hc].
  destruct (p_size _ Hp id Hid) as (Hsz & Hps & Hpg). destruct (page_len_range s id Hp Hid) as [[Hlen _] _].
  set (s0 := with_mem _ _). set (new := chunk_seq ptr (size (cls s id)) (Z.to_nat (perslab (cls s id)))).
  assert (Hin : ∀ a, a ∈ new → ptr ≤ a < ptr + page_len s id).
  { intros a (j & ? & ->)%elem_of_chunk_seq. nia. }
  assert (Hnew : ∀ id' a, valid s id' → a ∈ new → ¬ chunk s id' a).
  { intros id' a Hid' Hna Hch. eapply (fresh_chunk s ptr _ id' a Hp Hf Hid' Hch). by apply Hin. }
  destruct (split_ok (Z.to_nat (perslab (cls s id))) s0 F id ptr) as (s1 & F' & Hs1 & Hsame & HF' & Hne & He & Hh).
  - by apply (valid_lt s).
  - by apply zero_lists.
  - done.
  - destruct Hf. lia.
  - done.
  - intros a Hna. split; [simpl; rewrite hdr_zero_in; [done|by apply Hin]|].
    intros id' Hid' HaF. by eapply (Hnew id' a); [..|apply Hc].
  - rewrite <-(c_count _ _ _ (l_class _ _ Hl id Hid)). lia.
  - change (cls s0 id) with (cls s id) in He, Hh. fold new in He, Hh. exists s1. split; [done|]. exists F'.
    apply (same_pages_trans s) in Hsame; [|apply same_pages_with_mem].
    assert (Hp1 : pages_ok s1).
    { apply (same_pages_ok (proj1 Hsame)); [|done]. intros id'.
      apply (same_pages_list s); [done|]. apply (p_list _ Hp). }
    destruct Hsame as [Hv Hpl]. destruct (sv_class _ _ Hv id) as (Hcs & Hcp & Hcn).
    destruct (Hpl id) as [_ Hll].
    assert (Hid1 : ∀ id', valid s1 id' ↔ valid s id') by (intros; by apply (same_valid Hv)).
    destruct (p_list _ Hp id) as [Hls _].
    assert (Hch : ∀ id' a, chunk (add_page s1 id ptr) id' a ↔ chunk s id' a ∨ (id' = id ∧ a ∈ new)).
    { intros id' a. rewrite (add_page_chunk s1 id ptr Hp1 (proj2 (Hid1 id) Hid)) by lia.
      by rewrite (same_chunk Hv), Hcs, Hcp. }
    assert (Hr1 : slabs (cls s1 id) < list_size (cls s1 id)) by lia.
    assert (Hw1 : slabs (cls s1 id) + 1 < two32) by lia.
    pose proof (add_page_view s1 id ptr Hp1 (proj2 (Hid1 id) Hid) Hw1) as Hview.
    split_and!.
    + split.
      * apply (lists_ok_frame s1); [done| |done]. intros id' _. 
        intros [Hd Hcnt Hwd Hnd Hsl]. split; try done;
          (destruct (decide (id = id')) as [<-|]; [rewrite (add_page_cls s1 id ptr Hp1 (proj2 (Hid1 id) Hid)) by lia
            |unfold add_page; rewrite cls_set_ne by done]); done.
      * apply add_page_pages; try done; try lia; [by apply Hid1|..].
        -- rewrite (same_page_len Hv). split; [apply Hf|]. intros id' k q Hq%(sv_page _ _ Hv).
           rewrite (same_plen Hv). by eapply (proj2 Hf).
        -- rewrite (same_page_len Hv). unfold in_arena.
           rewrite (sv_base _ _ Hv), (sv_current _ _ Hv), (sv_limit _ _ Hv). apply Ha.
      * intros id' a Hid'%Hid1 HaF. apply Hch. destruct (decide (id' = id)) as [->|].
        -- rewrite He in HaF. apply elem_of_app in HaF as [HaF|HaF]; [|by left; apply Hc].
           right. split; [done|]. by rewrite elem_of_reverse in HaF.
        -- left. rewrite Hne in HaF by done. by apply Hc.
    + rewrite He. intros Hnil. apply app_eq_nil in Hnil as [Hnil _].
      assert (ptr ∈ reverse new) as Hpn.
      { apply elem_of_reverse, elem_of_chunk_seq. exists 0. lia. }
      rewrite Hnil in Hpn. by apply elem_of_nil in Hpn.
    + apply (sv_largest _ _ Hv).
    + intros id'. destruct (Hview id') as (-> & -> & _), (sv_class _ _ Hv id') as (-> & -> & Hsl). split_and!; try done;
        (destruct (decide (id = id')) as [<-|]; [rewrite (add_page_cls s1 id ptr Hp1 (proj2 (Hid1 id) Hid)) by lia
          |unfold add_page; rewrite cls_set_ne by done]; cbn [slabs]; lia).
    + intros id' a Hid' Hca HaF. change (chunks_mem (add_page s1 id ptr)) with (chunks_mem s1). rewrite Hh.
      * apply hdr_zero_out. by eapply (fresh_chunk s _ _ id').
      * intros Hna. by apply (Hnew id' a).
      * done.
    + intros id' Hid' a. rewrite Hch. destruct (decide (id' = id)) as [->|].
      * rewrite He, elem_of_app, elem_of_reverse. specialize (Hnew id a Hid). tauto.
      * rewrite Hne by done. naive_solver.
Qed.

Lemma keeps_refl s : keeps s s.
Proof. split; [split|]; try done. intros. split_and!; [done..|lia|lia]. Qed.

Lemma keeps_valid s s' id : keeps s s' → valid s' id ↔ valid s id.
Proof. intros H. unfold valid. by rewrite (g_largest _ _ (k_grown _ _ H)). Qed.

(** The same free lists and chunks. *)
Lemma keeps_same s s' F :
  ok_with s F → ok_with s' F → power_largest s' = power_largest s →
  (∀ id, valid s id → size (cls s' id) = size (cls s id) ∧ perslab (cls s' id) = perslab (cls s id) ∧
     slabs (cls s' id) = slabs (cls s id)) → chunks_mem s' = chunks_mem s →
  (∀ id a, valid s id → chunk s' id a ↔ chunk s id a) →
  (∀ id k p, valid s id → page s' id k p ↔ page s id k p) →
  keeps s s' ∧ ∀ id, valid s id → same_class s s' id.
Proof.
  intros [Hl _ _] [Hl' _ _] Hpl Hsz Hmem Hc Hpg.
  assert (Hf : ∀ id, valid s id → free_list s' id = free_list s id).
  { intros id Hid. rewrite (class_ok_free s id (F id)) by by apply Hl.
    apply class_ok_free, Hl'. unfold valid. by rewrite Hpl. }
  split; [|intros id Hid; split; [by apply Hf|by apply Hsz|intros a; by apply Hc|intros k p; by apply Hpg]].
  split; [split; [done|..]|intros id a Hid; unfold held; by rewrite Hf, Hc].
  - intros id Hid. destruct (Hsz id Hid) as (-> & -> & ->). split_and!; [done..|lia|lia].
  - intros. by rewrite Hmem.
Qed.

(** Chunks do not overlap. *)
Lemma chunks_apart s id id' a b :
  pages_ok s → valid s id → valid s id' → chunk s id a → chunk s id' b → (id, a) ≠ (id', b) →
  a + size (cls s id) ≤ b ∨ b + size (cls s id') ≤ a.
Proof.
  intros Hp Hid Hid' (k & p & i & Hpg & Hi & ->) (k' & q & j & Hqg & Hj & ->) Hne.
  destruct (p_size _ Hp id Hid) as (? & ? & ?), (p_size _ Hp id' Hid') as (? & ? & ?).
  destruct (page_len_range s id Hp Hid) as [[? _] _], (page_len_range s id' Hp Hid') as [[? _] _].
  destruct (decide ((id, k) = (id', k'))) as [[= <- <-]|Hk].
  - assert (p = q) as <- by (destruct Hpg, Hqg; congruence).
    assert (i ≠ j) by congruence. nia.
  - destruct (p_apart _ Hp _ _ _ _ _ _ Hpg Hqg Hk) as [Hd|Hd]; rewrite plen_valid in Hd by done; nia.
Qed.

Lemma held_not_free s id i a :
  slabs_ok s → valid s id → valid s i → held s id a → a ∉ free_list s i.
Proof.
  intros Hok Hid Hi [Hch Hnf] Hin. destruct (decide (i = id)) as [->|Hne]; [done|].
  pose proof (s_pages _ Hok) as Hp. apply (s_chunks _ Hok) in Hin; [|done].
  destruct (p_size _ Hp id Hid) as (? & _), (p_size _ Hp i Hi) as (? & _).
  destruct (chunks_apart s i id a a) as [?|?]; try done; [congruence|lia|lia].
Qed.

Lemma newslab_ok s id o :
  slabs_ok s → valid s id → room s id → malloc_ok s id o →
  ∃ s' ok, do_slabs_newslab s id o = Some (s', ok) ∧ slabs_ok s' ∧ keeps s s' ∧
    if ok : bool then free_list s' id ≠ []
    else ∀ id', valid s id' → same_class s s' id'.
Proof.
  intros Hok Hid Hroom Hm. unfold do_slabs_newslab. fold (cls s id) (cls s SLAB_GLOBAL_PAGE_POOL).
  pose proof (slabs_ok_with s Hok) as Hw. set (F := free_list s) in Hw.
  match goal with |- context [if ?b then _ else _] => destruct b end.
  { eexists _, _. split; [done|]. assert (Hw' : ok_with (with_limit_reached s true) F).
    { destruct Hw as [Hl Hp Hc]. split; [|  |done].
      { apply (lists_ok_frame s); [done| |done]. intros i _. by apply class_ok_frame. }
      apply (same_pages_ok (s := s)); [by split|apply Hp|done]. }
    split; [by eapply ok_with_slabs_ok|]. by apply (keeps_same _ _ F). }
  pose proof (grow_ok s F id (realloc_ok o) Hw (valid_lt s id (w_pages _ _ Hw) Hid) (proj1 Hroom)) as Hg.
  destruct (grow_slab_list s id (realloc_ok o)) as [s1 [|]]; simpl negb; cbn [negb];
    [|subst s1; eexists _, _; split_and!; [done..|apply keeps_refl|done]].
  destruct Hg as (Hw1 & Hv & Hlist & Hmem).
  rewrite <-(same_page_len Hv).
  assert (Hid1 : valid s1 id) by by apply (same_valid Hv).
  pose proof (new_page_ok s1 F id o Hw1 Hid1) as Hnp.
  destruct (new_page s1 (page_len s1 id) o) as [s2 ptr]. destruct Hnp as (Hw2 & Ht & Hpage).
  { unfold malloc_ok, fresh. rewrite (sv_base _ _ Hv), (same_page_len Hv). intros Hb.
    destruct (Hm Hb) as [?|[? Hf]]; [by left|right]. split; [done|].
    intros id' k q Hq%(sv_page _ _ Hv). rewrite (same_plen Hv). by apply (Hf id' k). }
  assert (Hid2 : ∀ i, valid s2 i ↔ valid s i).
  { intros i. unfold valid. by rewrite (tp_largest _ _ Ht), (sv_largest _ _ Hv). }
  assert (Hcls : ∀ i, valid s i → cls s2 i = cls s1 i).
  { intros i Hi. apply Ht. unfold valid in Hi. lia. }
  assert (Hpl2 : page_len s1 id = page_len s2 id).
  { unfold page_len. fold (cls s1 id) (cls s2 id). by rewrite Hcls. }
  assert (Hch : ∀ i a, valid s i → chunk s2 i a ↔ chunk s i a).
  { intros i a Hi. rewrite (took_page_chunk _ _ _ _ Ht); [apply (same_chunk Hv)|by apply (same_valid Hv)]. }
  assert (Hsz : ∀ i, valid s i → size (cls s2 i) = size (cls s i) ∧ perslab (cls s2 i) = perslab (cls s i) ∧
    slabs (cls s2 i) = slabs (cls s i)).
  { intros i Hi. rewrite Hcls by done. apply (sv_class _ _ Hv i). }
  assert (Hmem2 : chunks_mem s2 = chunks_mem s) by (rewrite (tp_mem _ _ Ht); done).
  destruct (Z.eqb_spec ptr 0) as [->|Hptr].
  { eexists _, _. split; [done|]. split; [by eapply ok_with_slabs_ok|]. apply (keeps_same _ _ F); try done.
    - by rewrite (tp_largest _ _ Ht), (sv_largest _ _ Hv).
    - intros i k p Hi. rewrite <-(sv_page _ _ Hv). unfold page. by rewrite Hcls. }
  destruct (Hpage Hptr) as [Hfr Har]. rewrite Hpl2 in *.
  destruct (fill_page_ok s2 F id ptr) as (s3 & Hs3 & F' & Hw3 & Hne & Hlg & Hsz3 & Hh3 & Hheld); try done.
  { by apply Hid2. }
  { rewrite Hcls by done. done. }
  { unfold room. rewrite Hcls by done. destruct (sv_class _ _ Hv id) as (_ & -> & ->).
    destruct Hroom as [? ?]. split; [done|].
    rewrite (c_count _ _ _ (l_class _ _ (w_lists _ _ Hw1) id Hid1)).
    by rewrite <-(c_count _ _ _ (l_class _ _ (w_lists _ _ Hw) id Hid)). }
  rewrite Hs3. simpl. eexists _, _. split; [done|]. split; [by eapply ok_with_slabs_ok|].
  assert (Hfree : ∀ i, valid s i → free_list (add_page s3 id ptr) i = F' i).
  { intros i Hi. apply class_ok_free, Hw3. unfold valid. rewrite Hlg. by apply Hid2. }
  split; [|by rewrite Hfree]. split; [split|].
  - by rewrite Hlg, (tp_largest _ _ Ht), (sv_largest _ _ Hv).
  - intros i Hi. destruct (Hsz3 i) as (-> & -> & ?), (Hsz i Hi) as (-> & -> & ?). split_and!; [done..|lia|lia].
  - intros i a Hi Ha. rewrite <-Hmem2. apply (Hh3 i); [by apply Hid2|by apply Hch, Ha|]. by apply (held_not_free s i).
  - intros i a Hi. unfold held. rewrite Hfree by done. rewrite Hheld by by apply Hid2.
    by rewrite Hch.
Qed.

(** ** Allocating *)

Lemma pop_free_ok s F id sz a l :
  ok_with s F → valid s id → F id = a :: l →
  ∃ s', pop_free s id sz = (s', a) ∧ ok_with s' (set_list F id l) ∧ same_pages s s' ∧
    it_flags (hdr (chunks_mem s') a) = 0 ∧ refcount (hdr (chunks_mem s') a) = 1 ∧
    Item.slabs_clsid (hdr (chunks_mem s') a) = 0 ∧
    ∀ b, b ∉ F id → hdr (chunks_mem s') b = hdr (chunks_mem s) b.
Proof.
  intros [Hl Hp Hc] Hid HF. pose proof (l_class _ _ Hl id Hid) as Hcl. rewrite HF in Hcl.
  pose proof (valid_lt s id Hp Hid) as Hlt. pose proof Hcl as [Hd Hn Hwd Hnd Hfl].
  destruct (Hfl a) as [Hfa Hca]; [by left|].
  assert (slots (cls s id) = a) as Hsl by apply Hd. rewrite Hsl in Hd.
  pose proof (pop_dll a _ l Hnd Hd) as Hpop. pose proof Hnd as [Hal Hndl]%list.NoDup_cons.
  unfold pop_free. fold (cls s id). rewrite (proj2 (Z.eqb_neq _ _)) by (rewrite Hn; simpl; lia).
  cbn [negb]. rewrite Hsl. set (nx := next (hdr (chunks_mem s) a)) in *.
  set (h1 := if nx =? 0 then chunks_mem s else upd nx (set_prev 0) (chunks_mem s)) in *.
  assert (Hnx : nx ≠ 0 → nx ∈ l) by (destruct Hd as (_ & _ & _ & Hd'%dll_head); fold nx in Hd';
    destruct l; simpl in Hd'; [done|set_solver]).
  assert (H1a : hdr h1 a = hdr (chunks_mem s) a).
  { unfold h1. destruct (Z.eqb_spec nx 0) as [|Hz]; [done|]. rewrite hdr_upd_ne; [done|].
    intros Heq. apply Hal. rewrite <-Heq. auto. }
  assert (H1o : ∀ b, b ∉ l → hdr h1 b = hdr (chunks_mem s) b).
  { intros b Hb. unfold h1. destruct (Z.eqb_spec nx 0) as [|Hz]; [done|]. rewrite hdr_upd_ne; [done|].
    intros Heq. apply Hb. rewrite <-Heq. auto. }
  assert (H1f : ∀ b, it_flags (hdr h1 b) = it_flags (hdr (chunks_mem s) b) ∧
    Item.slabs_clsid (hdr h1 b) = Item.slabs_clsid (hdr (chunks_mem s) b)).
  { intros b. unfold h1. destruct (Z.eqb_spec nx 0); [done|].
    destruct (decide (nx = b)) as [->|]; [by rewrite hdr_upd_eq|by rewrite hdr_upd_ne]. }
  eexists. split; [done|]. set (c := mkClass _ _ _ _ _ _ _ _).
  set (h2 := upd a _ h1). set (s' := with_mem _ _).
  assert (Hsame : same_pages s s').
  { eapply same_pages_trans; [|apply same_pages_with_mem]. by apply same_pages_with_class. }
  assert (Hcls : cls s' id = c) by by apply (cls_set_eq s).
  split_and!; [|done|simpl; unfold h2; rewrite hdr_upd_eq, H1a; simpl; by rewrite ?Hfa, ?Hca..|].
  2: { rewrite HF. intros b [? ?]%not_elem_of_cons. simpl. unfold h2. by rewrite hdr_upd_ne, H1o. }
  split.
  - split.
    + intros id' Hid'. unfold set_list. case_decide as Hdec.
      * subst id'. split; rewrite ?Hcls; cbn [slots sl_curr c].
        -- eapply dll_frame; [|done]. intros b Hb. simpl. unfold h2. rewrite hdr_upd_ne; [done|]. by intros ->.
        -- rewrite Hn. simpl length. unfold u32. rewrite Z.mod_small; [lia|]. 
           simpl length in Hwd. lia.
        -- simpl length in Hwd. lia.
        -- done.
        -- intros b Hb. simpl. unfold h2. rewrite hdr_upd_ne by (by intros ->).
           destruct (H1f b) as [-> ->]. apply Hfl. by right.
      * apply (class_ok_frame s); [by apply (cls_set_ne s)| |by apply Hl].
        intros b Hb. assert (Hbn : b ∉ a :: l) by (rewrite <-HF; by eapply (l_apart _ _ Hl id')).
        apply not_elem_of_cons in Hbn as [? ?]. simpl. unfold h2. by rewrite hdr_upd_ne, H1o.
    + intros id1 id2 b Hid1 Hid2 Hne. pose proof (l_apart _ _ Hl id1 id2 b Hid1 Hid2 Hne) as Hap.
      unfold set_list. repeat case_decide; subst; try done; rewrite HF in Hap; set_solver.
  - apply (same_pages_ok (proj1 Hsame)); [|done]. intros i. apply (same_pages_list s); [done|apply (p_list _ Hp)].
  - intros id' b Hid' Hb. apply (same_chunk (proj1 Hsame)). apply Hc; [done|].
    unfold set_list in Hb. case_decide; [subst|done]. rewrite HF. by right.
Qed.

Lemma grown_pop s s1 s' :
  keeps s s1 → grown s1 s' → (∀ i, slabs (cls s' i) = slabs (cls s1 i)) → grown s s'.
Proof.
  intros Hk [Hl Hc Hh] Hsl. pose proof (keeps_valid s s1) as Hv. destruct Hk as [[Hl1 Hc1 Hh1] Hk]. split; [congruence|..].
  - intros id Hid. destruct (Hc1 id Hid) as (<- & <- & ?), (Hc id) as (-> & -> & _); [unfold valid in *; by rewrite Hl1|].
    rewrite Hsl. done.
  - intros id a Hid Ha. rewrite (Hh id); [by apply (Hh1 id)|unfold valid in *; by rewrite Hl1|by apply Hk].
Qed.

Lemma alloc_pop s id sz :
  slabs_ok s → valid s id →
  let '(s', ret) := pop_free s id sz in
  slabs_ok s' ∧ grown s s' ∧ (∀ i, slabs (cls s' i) = slabs (cls s i)) ∧
  if ret =? 0 then s' = s ∧ free_list s id = []
  else chunk s id ret ∧ ret ∈ free_list s id ∧
    (∀ i a, valid s i → held s' i a ↔ held s i a ∨ (i = id ∧ a = ret)) ∧
    it_flags (hdr (chunks_mem s') ret) = 0 ∧ refcount (hdr (chunks_mem s') ret) = 1 ∧
    Item.slabs_clsid (hdr (chunks_mem s') ret) = 0.
Proof.
  intros Hok Hid. pose proof (slabs_ok_with s Hok) as Hw.
  pose proof (l_class _ _ (s_lists _ Hok) id Hid) as Hcl.
  destruct (free_list s id) as [|a l] eqn:HF.
  - unfold pop_free. fold (cls s id). rewrite (c_count _ _ _ Hcl). split_and!; try done. apply keeps_refl.
  - destruct (pop_free_ok s (free_list s) id sz a l Hw Hid HF) as (s' & -> & Hw' & [Hv _] & Hfl & Hrc & Hcid & Hoth).
    assert (Ha0 : a ≠ 0) by (eapply dll_nonzero; [apply Hcl|by left]).
    rewrite (proj2 (Z.eqb_neq _ _) Ha0).
    split_and!; [by eapply ok_with_slabs_ok| |intros i; apply (sv_class _ _ Hv i)| | | |done..].
    + split; [apply Hv|..].
      * intros i _. destruct (sv_class _ _ Hv i) as (-> & -> & ->). split_and!; [done..|lia|lia].
      * intros i b Hi Hb. apply Hoth. by apply (held_not_free s i).
    + apply (s_chunks _ Hok); [done|]. rewrite HF. by left.
    + by left.
    + intros i b Hi. unfold held. rewrite (same_chunk Hv).
      rewrite (class_ok_free s' i (set_list (free_list s) id l i)) by (apply Hw'; by apply (same_valid Hv)).
      unfold set_list. case_decide as Hd; [subst i; rewrite HF|naive_solver].
      pose proof (c_nodup _ _ _ Hcl) as [Hal _]%list.NoDup_cons.
      rewrite not_elem_of_cons. split.
      * intros [Hb Hbl]. destruct (decide (b = a)); naive_solver.
      * intros [(Hb & Hba & Hbl)|[_ ->]]; [done|]. split; [|done].
        apply (s_chunks _ Hok); [done|]. rewrite HF. by left.
Qed.

Lemma slabs_alloc_ok s sz id no_newpage o :
  slabs_ok s → valid s id → sz ≤ size (cls s id) → room s id → malloc_ok s id o →
  ∃ s' ret, do_slabs_alloc s sz id no_newpage o = Some (s', ret, requested (cls s id)) ∧
    slabs_ok s' ∧ grown s s' ∧
    if ret =? 0 then keeps s s' ∧ free_list s' id = [] ∧ ∀ i, valid s i → same_class s s' i
    else held s' id ret ∧
      (∀ i a, valid s i → held s i a →
         a + size (cls s i) ≤ ret ∨ ret + size (cls s id) ≤ a) ∧
      (∀ i a, valid s i → held s' i a ↔ held s i a ∨ (i = id ∧ a = ret)) ∧
      it_flags (hdr (chunks_mem s') ret) = 0 ∧ refcount (hdr (chunks_mem s') ret) = 1 ∧
      Item.slabs_clsid (hdr (chunks_mem s') ret) = 0.
Proof.
  intros Hok Hid Hsz Hroom Hm. unfold do_slabs_alloc. fold (cls s id).
  rewrite (proj2 (Nat.ltb_ge _ _)) by apply Hid. rewrite (proj2 (Nat.ltb_ge _ _)) by apply Hid. simpl orb.
  pose proof (l_class _ _ (s_lists _ Hok) id Hid) as Hcl.
  assert (Hassert : (sl_curr (cls s id) =? 0)
    || (Item.slabs_clsid (hdr (chunks_mem s) (slots (cls s id))) =? 0) = true).
  { rewrite (c_count _ _ _ Hcl). destruct (free_list s id) as [|a l] eqn:HF; [done|].
    destruct Hcl as [(-> & _) _ _ _ Hfl]. destruct (Hfl a) as [_ ->]; [by left|]. by rewrite orb_true_r. }
  rewrite Hassert, (proj2 (Z.ltb_ge _ _)) by done. cbn [negb].
  assert (∃ s1, (if (sl_curr (cls s id) =? 0) && negb no_newpage then fst <$> do_slabs_newslab s id o else Some s)
    = Some s1 ∧ slabs_ok s1 ∧ keeps s s1 ∧
      (free_list s1 id = [] → ∀ i, valid s i → same_class s s1 i)) as (s1 & -> & Hok1 & Hk1 & Hsl1).
  { destruct (_ && _); [|exists s; split_and!; [done..|apply keeps_refl|done]].
    destruct (newslab_ok s id o Hok Hid Hroom Hm) as (s1 & ok & -> & ? & ? & Hcase). exists s1. split_and!; try done.
    intros Hnil i Hi. destruct ok; [done|]. by apply Hcase. }
  cbn [mbind option_bind].
  assert (Hid1 : ∀ i, valid s1 i ↔ valid s i) by (intros; by apply keeps_valid).
  pose proof (alloc_pop s1 id sz Hok1 (proj2 (Hid1 id) Hid)) as Hpop.
  destruct (pop_free s1 id sz) as [s' ret]. destruct Hpop as (Hok' & Hg & Hsl & Hret).
  exists s', ret. split; [done|]. split; [done|]. destruct (ret =? 0) eqn:Er.
  { destruct Hret as [-> ?]. split_and!; [apply Hk1|done|done|by apply Hsl1]. }
  split; [by eapply grown_pop|]. destruct Hret as (Hch & Hfree & Hheld & Hfl & Hrc & Hcid). split_and!; try done.
  - apply Hheld; [by apply Hid1|by right].
  - intros i a Hi Ha. apply (k_held _ _ Hk1) in Ha as [Hach Hafr]; [|done].
    destruct (g_class _ _ (k_grown _ _ Hk1) i Hi) as [<- _], (g_class _ _ (k_grown _ _ Hk1) id Hid) as [<- _].
    apply chunks_apart; try done; [apply Hok1|by apply Hid1|by apply Hid1|].
    intros [= -> ->]. done.
  - intros i a Hi. rewrite Hheld by by apply Hid1. by rewrite (k_held _ _ Hk1).
Qed.

(** C24: an allocation hands out a chunk of the right class that nobody holds: it
    overlaps no chunk in use, it is marked as in use and referenced once, and it
    is the only chunk whose state changes.  Null is returned only when the class's
    free list is empty and no page could be had.  The allocator's invariant is kept
    and no assertion fails. *)
Theorem slabs_alloc_fresh s sz id no_newpage o :
  slabs_ok s → valid s id → sz ≤ size (cls s id) → room s id → malloc_ok s id o →
  ∃ s' ret, do_slabs_alloc s sz id no_newpage o = Some (s', ret, requested (cls s id)) ∧
    slabs_ok s' ∧ grown s s' ∧
    if ret =? 0 then keeps s s' ∧ free_list s' id = [] ∧ ∀ i, valid s i → same_class s s' i
    else held s' id ret ∧
      (∀ i a, valid s i → held s i a →
         a + size (cls s i) ≤ ret ∨ ret + size (cls s id) ≤ a) ∧
      (∀ i a, valid s i → held s' i a ↔ held s i a ∨ (i = id ∧ a = ret)) ∧
      it_flags (hdr (chunks_mem s') ret) = 0 ∧ refcount (hdr (chunks_mem s') ret) = 1 ∧
      Item.slabs_clsid (hdr (chunks_mem s') ret) = 0.
Proof. apply slabs_alloc_ok. Qed.

Lemma chunk_nonzero s id a : pages_ok s → valid s id → chunk s id a → a ≠ 0.
Proof.
  intros Hp Hid Hch. destruct (chunk_in_page s id a Hp Hid Hch) as (k & p & Hpg & ? & _).
  apply (p_pos _ Hp) in Hpg. lia.
Qed.

(** Writing to chunks in use. *)
Lemma slabs_frame s h' :
  slabs_ok s → (∀ id b, valid s id → b ∈ free_list s id → hdr h' b = hdr (chunks_mem s) b) →
  slabs_ok (with_mem s h') ∧ ∀ id, valid s id → free_list (with_mem s h') id = free_list s id.
Proof.
  intros Hok Hh. assert (Hl : lists_ok (with_mem s h') (free_list s)).
  { apply (lists_ok_frame s); [done| |apply Hok]. intros id Hid. apply class_ok_frame; [done|].
    intros b Hb. by apply (Hh id). }
  split; [|intros id Hid; by apply class_ok_free, Hl].
  apply (ok_with_slabs_ok _ (free_list s)). split; [done| |intros id b; apply (s_chunks _ Hok)].
  apply (same_pages_ok (proj1 (same_pages_with_mem s h'))); [apply Hok|apply Hok].
Qed.

Lemma free_ok s ptr sz id :
  slabs_ok s → valid s id → held s id ptr →
  has_flag (hdr (chunks_mem s) ptr) ITEM_CHUNKED = false →
  sl_curr (cls s id) + 1 < two32 →
  do_slabs_free s ptr sz id = Some (push_free s id ptr sz) ∧ slabs_ok (push_free s id ptr sz) ∧
  ∀ i, valid s i → free_list (push_free s id ptr sz) i
    = if decide (i = id) then ptr :: free_list s id else free_list s i.
Proof.
  intros Hok Hid [Hch Hnf] Hfl Hn. pose proof (s_pages _ Hok) as Hp. unfold do_slabs_free.
  rewrite (proj2 (Nat.ltb_ge _ _)) by apply Hid. rewrite (proj2 (Nat.ltb_ge _ _)) by apply Hid. simpl orb.
  rewrite Hfl. split; [done|]. set (s' := push_free s id ptr sz).
  pose proof (valid_lt s id Hp Hid) as Hlt. pose proof (push_free_same s id ptr sz Hlt) as Hsame.
  fold s' in Hsame. pose proof Hsame as [Hv _].
  assert (Hother : ∀ i, valid s i → ptr ∉ free_list s i) by (intros i Hi; by apply (held_not_free s id)).
  assert (Hptr : ptr ≠ 0) by by eapply chunk_nonzero.
  assert (HF : lists_ok s' (set_list (free_list s) id (ptr :: free_list s id))).
  { apply push_free_lists; try done; [apply Hok|].
    by rewrite <-(c_count _ _ _ (l_class _ _ (s_lists _ Hok) id Hid)). }
  split; [|intros i Hi; apply (class_ok_free s' i), HF; by apply (same_valid Hv)].
  eapply ok_with_slabs_ok. split; [done| |].
  - apply (same_pages_ok Hv); [|done]. intros i. apply (same_pages_list s); [done|apply (p_list _ Hp)].
  - intros i a Hi Ha. apply (same_chunk Hv). unfold set_list in Ha.
    case_decide; [subst i; apply elem_of_cons in Ha as [->|Ha]; [done|]|]; by apply (s_chunks _ Hok).
Qed.

Lemma free_other s ptr sz id b :
  slabs_ok s → valid s id → b ≠ ptr → b ∉ free_list s id →
  hdr (chunks_mem (push_free s id ptr sz)) b = hdr (chunks_mem s) b.
Proof.
  intros Hok Hid Hb Hbf. eapply push_free_other; [by apply (s_lists _ Hok)|done|done].
Qed.

Lemma free_held s ptr sz id :
  slabs_ok s → valid s id → held s id ptr →
  has_flag (hdr (chunks_mem s) ptr) ITEM_CHUNKED = false →
  sl_curr (cls s id) + 1 < two32 →
  ∀ i a, valid s i → held (push_free s id ptr sz) i a ↔ held s i a ∧ (i, a) ≠ (id, ptr).
Proof.
  intros Hok Hid Hh Hfl Hn i a Hi. destruct (free_ok s ptr sz id Hok Hid Hh Hfl Hn) as (_ & _ & Hfree).
  pose proof (push_free_same s id ptr sz (valid_lt s id (s_pages _ Hok) Hid)) as [Hv _].
  unfold held. rewrite (same_chunk Hv), Hfree by done.
  case_decide; [subst i; rewrite not_elem_of_cons|]; naive_solver.
Qed.

(** Freeing a chunk in use puts exactly this chunk back on its class's free
    list; the allocator's invariant is kept and no assertion fails. *)
Theorem slabs_free_returns s ptr sz id :
  slabs_ok s → valid s id → held s id ptr →
  has_flag (hdr (chunks_mem s) ptr) ITEM_CHUNKED = false →
  sl_curr (cls s id) + 1 < two32 →
  ∃ s', do_slabs_free s ptr sz id = Some s' ∧ slabs_ok s' ∧
    free_list s' id = ptr :: free_list s id ∧
    requested (cls s' id) = u64 (requested (cls s id) - sz) ∧
    ∀ i a, valid s i → held s' i a ↔ held s i a ∧ (i, a) ≠ (id, ptr).
Proof.
  intros Hok Hid Hh Hfl Hn. destruct (free_ok s ptr sz id Hok Hid Hh Hfl Hn) as (Hs & Hok' & Hfree).
  eexists. split_and!; [done|done| | |by apply free_held].
  - rewrite Hfree by done. by rewrite decide_True.
  - unfold push_free. fold (cls s id). change (cls (with_mem ?x _) id) with (cls x id).
    rewrite cls_set_eq; [done|]. by apply valid_lt; [apply Hok|].
Qed.

(** ** Size classes *)

Lemma clsid_loop_spec fuel s sz res :
  (res ≤ power_largest s)%nat → (power_largest s - res < fuel)%nat →
  let id := clsid_loop fuel s sz res in
  (res ≤ id ≤ power_largest s)%nat ∧
  (∀ j, (res ≤ j < id)%nat → size (cls s j) < sz) ∧
  (sz ≤ size (cls s id) ∨ id = power_largest s).
Proof.
  revert res. induction fuel as [|fuel IH]; intros res Hres Hfuel; [lia|]. simpl. fold (cls s res).
  destruct (Z.ltb_spec (size (cls s res)) sz) as [Hlt|Hge]; [|split_and!; [lia|lia|lia|by left]].
  destruct (Nat.eqb_spec res (power_largest s)) as [->|Hne]; [split_and!; [lia|lia|lia|by right]|].
  destruct (IH (S res)) as (Hr & Hj & Hlast); [lia|lia|]. split_and!; [lia|lia| |done].
  intros j Hj'. destruct (decide (j = res)) as [->|]; [done|]. apply Hj. lia.
Qed.

(** [slabs_clsid] returns the first class whose chunks are large enough for
    the object, or the largest class when none is; 0 exactly for an empty object
    and for one over the maximum. *)
Theorem slabs_clsid_fits s sz :
  (1 ≤ power_largest s)%nat →
  let id := slabs_clsid s sz in
  if (sz =? 0) || (item_size_max st <? sz) then id = 0%nat
  else valid s id ∧ (∀ j, (1 ≤ j < id)%nat → size (cls s j) < sz) ∧
       (sz ≤ size (cls s id) ∨ id = power_largest s).
Proof.
  intros Hpl. unfold slabs_clsid. destruct (_ || _); [done|].
  apply clsid_loop_spec; unfold POWER_SMALLEST; lia.
Qed.

(** ** The allocator as it starts *)

Definition new_class (c : slabclass_t) : Prop :=
  slots c = 0 ∧ sl_curr c = 0 ∧ slabs c = 0 ∧ slab_list c = [] ∧ list_size c = 0.

Definition good_size (c : slabclass_t) : Prop :=
  0 < size c ∧ 1 ≤ perslab c ∧ size c * perslab c ≤ slab_page_size st.

Lemma page_div sz : 0 < sz ≤ slab_page_size st → 1 ≤ slab_page_size st / sz ∧ sz * (slab_page_size st / sz) ≤ slab_page_size st.
Proof.
  intros [H0 H1]. split; [|apply Z.mul_div_le; lia].
  replace 1 with (sz / sz) by (apply Z.div_same; lia). by apply Z.div_le_mono.
Qed.

Section InitOk.
Context (too_big : Z → bool) (times_factor : Z → Z) (slab_sizes : option (list Z)).
(** The configuration's chunk sizes fit into a page. *)
Hypothesis Hsizes : ∀ i sz sz', next_size too_big slab_sizes i sz = Some sz' →
  0 < u32 (align8 sz') ≤ slab_page_size st.
Hypothesis Hmax : 0 < slab_chunk_size_max st ≤ slab_page_size st.

Lemma init_loop_ok fuel i sz cs :
  (MAX_NUMBER_OF_SLAB_CLASSES - 1 - i < fuel)%nat → (i < MAX_NUMBER_OF_SLAB_CLASSES - 1)%nat →
  length cs = MAX_NUMBER_OF_SLAB_CLASSES → (∀ j, new_class (cs !!! j)) →
  (∀ j, (1 ≤ j ≤ i)%nat → good_size (cs !!! j)) →
  let '(pl, cs') := init_loop too_big times_factor fuel slab_sizes i sz cs in
  (i < pl < MAX_NUMBER_OF_SLAB_CLASSES)%nat ∧ length cs' = MAX_NUMBER_OF_SLAB_CLASSES ∧
  (∀ j, new_class (cs' !!! j)) ∧ (∀ j, (1 ≤ j < pl)%nat → good_size (cs' !!! j)).
Proof.
  revert i sz cs. induction fuel as [|fuel IH]; intros i sz cs Hf Hi Hlen Hnew Hgood; [lia|].
  cbn [init_loop]. change (MAX_NUMBER_OF_SLAB_CLASSES - 1)%nat with 63%nat in *.
  unfold MAX_NUMBER_OF_SLAB_CLASSES in *.
  destruct (Nat.ltb_spec (S i) 63); [|split_and!; [lia|lia|done..|]; intros; apply Hgood; lia].
  destruct (next_size too_big slab_sizes (S i) sz) as [sz'|] eqn:Hn;
    [|split_and!; [lia|lia|done..|]; intros; apply Hgood; lia].
  set (c := mkClass _ _ _ _ _ _ _ _). set (sz1 := match slab_sizes with Some _ => _ | None => _ end).
  assert (Hc : good_size c). { destruct (Hsizes _ _ _ Hn). split; [done|]. by apply page_div. }
  specialize (IH (S i) sz1 (<[S i := c]> cs)).
  destruct (init_loop _ _ _ _ _ _ _) as [pl cs']. destruct IH as (? & ? & ? & ?); try lia.
  - by rewrite length_insert.
  - intros j. destruct (decide (S i = j)) as [<-|]; [by rewrite list_lookup_total_insert_eq by lia|].
    by rewrite list_lookup_total_insert_ne.
  - intros j Hj. destruct (decide (S i = j)) as [<-|]; [by rewrite list_lookup_total_insert_eq by lia|].
    rewrite list_lookup_total_insert_ne by done. apply Hgood. lia.
  - split_and!; try done; lia.
Qed.

Lemma slabs_init_ok limit malloced o s :
  slabs_init too_big times_factor limit false slab_sizes 0 malloced o = Some s →
  slabs_ok s ∧ ∀ id a, ¬ held s id a.
Proof.
  unfold slabs_init, slabs_init_classes.
  pose proof (init_loop_ok MAX_NUMBER_OF_SLAB_CLASSES 0 (u32 (sizeof_item + chunk_size st))
    (replicate MAX_NUMBER_OF_SLAB_CLASSES zero_class)) as Hinit.
  change (POWER_SMALLEST - 1)%nat with 0%nat. destruct (init_loop _ _ _ _ _ _ _) as [pl cs].
  destruct Hinit as (Hpl & Hlen & Hnew & Hgood);
    [unfold MAX_NUMBER_OF_SLAB_CLASSES; lia|unfold MAX_NUMBER_OF_SLAB_CLASSES; lia|done| |lia|].
  { intros j. destruct (decide (j < MAX_NUMBER_OF_SLAB_CLASSES)%nat) as [Hj|Hj].
    - by rewrite lookup_total_replicate_2.
    - rewrite list_lookup_total_alt, lookup_ge_None_2; [done|]. rewrite length_replicate. lia. }
  simpl. intros [= <-]. set (c := mkClass _ _ _ _ _ _ _ _). set (s := mkSlabs _ _ _ _ _ _ _ _ _).
  assert (Hcls : ∀ id, new_class (cls s id) ∧ (valid s id → good_size (cls s id))).
  { intros id. unfold cls, s, valid. simpl. destruct (decide (pl = id)) as [<-|Hne].
    - rewrite list_lookup_total_insert_eq by lia. split; [done|]. intros _.
      split; [apply Hmax|]. by apply page_div.
    - rewrite list_lookup_total_insert_ne by done. split; [done|]. intros ?. apply Hgood. lia. }
  assert (Hpage : ∀ id k p, ¬ page s id k p).
  { intros id k p [_ Hk]. destruct (Hcls id) as [(_ & _ & Hs & _) _]. lia. }
  split; [|intros id a [(k & p & _ & Hp & _) _]; by apply (Hpage id k p)].
  assert (Hfree : ∀ id, free_list s id = []).
  { intros id. unfold free_list. by destruct (Hcls id) as [(_ & -> & _) _]. }
  split.
  - split; [|intros id id' a _ _ _; by rewrite Hfree, elem_of_nil].
    intros id _. rewrite Hfree. destruct (Hcls id) as [(? & ? & ?) _].
    split; [done|done|by unfold two32|constructor|by intros a ?%elem_of_nil].
  - split; simpl; try done; try (intros; exfalso; by eapply Hpage).
    + by rewrite length_insert.
    + intros id Hid. by apply Hcls.
    + intros id. destruct (Hcls id) as [(_ & _ & -> & -> & ->) _]. done.
  - intros id a _. by rewrite Hfree, elem_of_nil.
Qed.
End InitOk.

End Slabs.

(** ** Witnesses: pages of 1024 bytes, chunks of 96, 192 and 1024 bytes *)

Definition small_settings : settings := mkSettings 1024 1024 1024 48 true false.

Definition never (_ : Z) : bool := false.

Definition started : slab_state :=
  default (mkSlabs [] 0 0 false 0 0 0 0 ∅)
    (slabs_init small_settings never id 8192 false (Some [96; 192; 0]) 0 0 (λ _, mkOs true 0)).

Lemma started_init :
  slabs_init small_settings never id 8192 false (Some [96; 192; 0]) 0 0 (λ _, mkOs true 0) = Some started.
Proof. by vm_compute. Qed.

Lemma started_ok : slabs_ok small_settings started.
Proof.
  eapply slabs_init_ok; [| |apply started_init]; [|by split].
  intros i sz sz'. unfold next_size. destruct i as [|[|[|[|i]]]]; simpl; try (intros [= <-]; by vm_compute).
  all: rewrite ?lookup_total_nil; simpl; intros H; try discriminate.
Qed.

Definition os_4096 : os := mkOs true 4096.

Lemma started_malloc i : valid started i → malloc_ok small_settings started i os_4096.
Proof.
  intros Hi _. right. split; [done|]. intros id k q [_ Hk]. exfalso.
  assert (slabs (cls started id) = 0) as Hz; [|lia].
  unfold cls. destruct (decide (id < 64)%nat) as [Hlt|Hge].
  - assert (Forall (λ c, slabs c = 0) (slabclass started)) as Hall by (vm_compute; repeat constructor).
    rewrite Forall_lookup_total in Hall. apply Hall. by vm_compute (length _).
  - rewrite list_lookup_total_alt, lookup_ge_None_2; [done|]. by apply not_lt.
Qed.

Lemma slabs_alloc_fresh_witness :
  ∃ s', do_slabs_alloc small_settings started 100 2 false os_4096 = Some (s', 4096 + 4 * 192, 0) ∧
    slabs_ok small_settings s' ∧ held s' 2 (4096 + 4 * 192).
Proof.
  destruct (slabs_alloc_fresh small_settings started 100 2 false os_4096)
    as (s' & ret & Hs & Hok & _ & Hret); [apply started_ok|by vm_compute; lia|by vm_compute|by vm_compute
    |by apply started_malloc; vm_compute; lia|].
  assert (Hr : (λ x, x.1.2) <$> do_slabs_alloc small_settings started 100 2 false os_4096
    = Some (4096 + 4 * 192)) by by vm_compute.
  rewrite Hs in Hr. injection Hr as Hr. simpl in Hr. subst ret.
  change (4096 + 4 * 192 =? 0) with false in Hret. destruct Hret as [Hh _].
  exists s'. split; [exact Hs|]. split; [exact Hok|exact Hh].
Defined.

(** The state with the page of class 2, and the first chunk taken. *)
Definition paged : slab_state :=
  match do_slabs_newslab small_settings started 2 os_4096 with Some (s, _) => s | None => started end.
Definition taken : slab_state := (pop_free paged 2 100).1.

Lemma taken_ok : slabs_ok small_settings taken ∧ held taken 2 (4096 + 4 * 192).
Proof.
  destruct (newslab_ok small_settings started 2 os_4096) as (s1 & ok & Hs1 & Hok1 & Hk1 & _);
    [apply started_ok|by vm_compute; lia|by vm_compute|by apply started_malloc; vm_compute; lia|].
  assert (Hp1 : paged = s1) by (unfold paged; rewrite Hs1; reflexivity).
  rewrite <-Hp1 in Hok1. clear Hp1 Hs1 Hk1.
  assert (Hv : valid paged 2) by (vm_compute; lia).
  pose proof (alloc_pop small_settings paged 2 100 Hok1 Hv) as Hp.
  assert (Hr : (pop_free paged 2 100).2 = 4096 + 4 * 192) by by vm_compute.
  unfold taken. destruct (pop_free paged 2 100) as [s' ret]. simpl in Hr. subst ret.
  destruct Hp as (Hok & _ & _ & Hp). change (4096 + 4 * 192 =? 0) with false in Hp.
  destruct Hp as (_ & _ & Hh & _). split; [exact Hok|]. apply Hh; [exact Hv|by right].
Qed.

Lemma slabs_free_returns_witness :
  ∃ s', do_slabs_free small_settings taken (4096 + 4 * 192) 100 2 = Some s' ∧
    slabs_ok small_settings s' ∧ ¬ held s' 2 (4096 + 4 * 192).
Proof.
  destruct taken_ok as [Hok Hh].
  destruct (slabs_free_returns small_settings taken (4096 + 4 * 192) 100 2 Hok)
    as (s' & Hs & Hok' & _ & _ & Hheld); [vm_compute; lia|exact Hh|by vm_compute|by vm_compute|].
  exists s'. split; [exact Hs|]. split; [exact Hok'|]. rewrite Hheld by (vm_compute; lia).
  intros [_ Hne]. by destruct Hne.
Defined.

Lemma slabs_clsid_fits_witness :
  slabs_clsid small_settings started 150 = 2%nat ∧ size (cls started 1) < 150 ≤ size (cls started 2).
Proof.
  destruct (slabs_clsid_fits small_settings started 150) as (_ & Hj & Hs); [vm_compute; lia|].
  assert (He : slabs_clsid small_settings started 150 = 2%nat) by by vm_compute. rewrite He in *.
  split; [done|]. split; [apply Hj; lia|]. destruct Hs as [Hs|Hs]; [exact Hs|by vm_compute in Hs].
Defined.
