(* ===== verification/Items.v ===== *)
(** Items and their LRU queues: [extra/KVS-DRAM-Cache/items.c].

    An item is a chunk of the slab allocator.  While it is linked it is in the hash
    table, under its key, and in the LRU queue of its size class, and holds a
    reference on itself; a worker thread that uses it holds another one.  Its chunk
    is freed with the last reference. *)

From S2P Require Import Prelude Item Slabs Assoc.

Record item_settings := mkItemSettings {
  slab_settings : settings;
  lru_segmented : bool;
  oldest_live : Z;
  oldest_cas : Z
}.

(** The globals of [items.c]; [bumps] are the entries of the worker's bump buffer. *)
Record cache := mkCache {
  table : assoc;
  slab : slab_state;
  heads : list Z;
  tails : list Z;
  sizes : list Z;
  sizes_bytes : list Z;
  curr_bytes : Z;
  curr_items : Z;
  total_items : Z;
  cas_id : Z;
  bumps : list (Z * Z)
}.

Definition HOT_LRU : Z := 0.
Definition WARM_LRU : Z := 64.
Definition COLD_LRU : Z := 128.
Definition TEMP_LRU : Z := 192.
Definition LARGEST_ID : nat := 256.
Definition ITEM_UPDATE_INTERVAL : Z := 60.

Definition u16 (z : Z) : Z := z mod 2 ^ 16.
Definition u8 (z : Z) : Z := z mod 2 ^ 8.

Definition mem_of_cache (c : cache) : heap := chunks_mem (slab c).

(** The header of the item at [a]. *)
Definition ith (c : cache) (a : Z) : stritem := hdr (mem_of_cache c) a.

Definition with_slab (c : cache) (s : slab_state) : cache :=
  mkCache (table c) s (heads c) (tails c) (sizes c) (sizes_bytes c) (curr_bytes c) (curr_items c)
    (total_items c) (cas_id c) (bumps c).

Definition with_table (c : cache) (t : assoc) : cache :=
  mkCache t (slab c) (heads c) (tails c) (sizes c) (sizes_bytes c) (curr_bytes c) (curr_items c)
    (total_items c) (cas_id c) (bumps c).

Definition with_queues (c : cache) (hd tl sz sb : list Z) : cache :=
  mkCache (table c) (slab c) hd tl sz sb (curr_bytes c) (curr_items c) (total_items c) (cas_id c) (bumps c).

Definition with_stats (c : cache) (bytes items total : Z) : cache :=
  mkCache (table c) (slab c) (heads c) (tails c) (sizes c) (sizes_bytes c) bytes items total (cas_id c) (bumps c).

Definition with_cas (c : cache) (v : Z) : cache :=
  mkCache (table c) (slab c) (heads c) (tails c) (sizes c) (sizes_bytes c) (curr_bytes c) (curr_items c)
    (total_items c) v (bumps c).

Definition with_bumps (c : cache) (b : list (Z * Z)) : cache :=
  mkCache (table c) (slab c) (heads c) (tails c) (sizes c) (sizes_bytes c) (curr_bytes c) (curr_items c)
    (total_items c) (cas_id c) b.

Definition with_heap (c : cache) (h : heap) : cache := with_slab c (with_mem (slab c) h).

(** Change the header at [a]. *)
Definition set_item (c : cache) (a : Z) (f : stritem → stritem) : cache :=
  with_heap c (upd a f (mem_of_cache c)).

(** An assertion: the program stops when it fails. *)
Definition assert_ (b : bool) : option unit := if b then Some tt else None.

(** ** LRU queues *)

Definition qid (c : cache) (a : Z) : nat := Z.to_nat (Item.slabs_clsid (ith c a)).

(** The item is the new head. *)
Definition do_item_link_q (c : cache) (a : Z) : option cache :=
  let it := ith c a in
  let id := qid c a in
  let head := heads c !!! id in
  let tail := tails c !!! id in
  assert_ (negb (has_flag it ITEM_SLABBED));;
  assert_ (negb (a =? head));;
  assert_ ((negb (head =? 0) && negb (tail =? 0)) || ((head =? 0) && (tail =? 0)));;
  let c := with_heap c (push a head (mem_of_cache c)) in
  Some (with_queues c (<[id := a]> (heads c))
          (if tail =? 0 then <[id := a]> (tails c) else tails c)
          (<[id := u32 (sizes c !!! id + 1)]> (sizes c))
          (<[id := u64 (sizes_bytes c !!! id + ITEM_ntotal it)]> (sizes_bytes c))).

Definition do_item_unlink_q (c : cache) (a : Z) : option cache :=
  let it := ith c a in
  let id := qid c a in
  let head := heads c !!! id in
  let tail := tails c !!! id in
  assert_ (negb (head =? a) || (prev it =? 0));;
  let hd := if head =? a then <[id := next it]> (heads c) else heads c in
  assert_ (negb (tail =? a) || (next it =? 0));;
  let tl := if tail =? a then <[id := prev it]> (tails c) else tails c in
  assert_ (negb (next it =? a));;
  assert_ (negb (prev it =? a));;
  let c := with_heap c (cut a (mem_of_cache c)) in
  Some (with_queues c hd tl (<[id := u32 (sizes c !!! id - 1)]> (sizes c))
          (<[id := u64 (sizes_bytes c !!! id - ITEM_ntotal it)]> (sizes_bytes c))).

(** ** Linking and references *)

Section Items.
Context (st : item_settings) (hash : bytes → Z).
(** [current_time] *)
Context (now : Z).

Definition get_cas_id (c : cache) : cache * Z :=
  let v := u64 (cas_id c + 1) in (with_cas c v, v).

Definition refcount_incr (c : cache) (a : Z) : cache :=
  set_item c a (λ i, set_refcount (u16 (refcount i + 1)) i).

Definition refcount_decr (c : cache) (a : Z) : cache :=
  set_item c a (λ i, set_refcount (u16 (refcount i - 1)) i).

Definition do_item_link (c : cache) (a hv : Z) : option cache :=
  assert_ (negb (has_flag (ith c a) ITEM_LINKED) && negb (has_flag (ith c a) ITEM_SLABBED));;
  let c := set_item c a (λ i, set_time now (add_flag ITEM_LINKED i)) in
  let c := with_stats c (u64 (curr_bytes c + ITEM_ntotal (ith c a))) (u64 (curr_items c + 1))
             (u64 (total_items c + 1)) in
  let '(c, v) := if use_cas (slab_settings st) then get_cas_id c else (c, 0) in
  let c := set_item c a (ITEM_set_cas v) in
  let c := with_table c (assoc_insert (table c) (mkItem (key (ith c a)) a) hv) in
  c ← do_item_link_q c a;
  Some (refcount_incr c a).

(** The item goes back to its slab class. *)
Definition item_free (c : cache) (a : Z) : option cache :=
  let it := ith c a in
  assert_ (negb (has_flag it ITEM_LINKED));;
  assert_ (negb (a =? heads c !!! qid c a));;
  assert_ (negb (a =? tails c !!! qid c a));;
  assert_ (refcount it =? 0);;
  s ← do_slabs_free (slab_settings st) (slab c) a (ITEM_ntotal it) (Z.to_nat (ITEM_clsid it));
  Some (with_slab c s).

Definition do_item_remove (c : cache) (a : Z) : option cache :=
  assert_ (negb (has_flag (ith c a) ITEM_SLABBED));;
  assert_ (0 <? refcount (ith c a));;
  let c := refcount_decr c a in
  if refcount (ith c a) =? 0 then item_free c a else Some c.

(** Also [do_item_unlink_nolock], whose caller holds the queue's lock. *)
Definition do_item_unlink (c : cache) (a hv : Z) : option cache :=
  if has_flag (ith c a) ITEM_LINKED then
    let c := set_item c a (clear_flag ITEM_LINKED) in
    let c := with_stats c (u64 (curr_bytes c - ITEM_ntotal (ith c a))) (u64 (curr_items c - 1)) (total_items c) in
    t ← assoc_delete (table c) (key (ith c a)) hv;
    let c := with_table c t in
    c ← do_item_unlink_q c a;
    do_item_remove c a
  else Some c.

Definition do_item_replace (c : cache) (a b hv : Z) : option cache :=
  assert_ (negb (has_flag (ith c a) ITEM_SLABBED));;
  c ← do_item_unlink c a hv;
  do_item_link c b hv.

(** [it->time < current_time - ITEM_UPDATE_INTERVAL], in unsigned arithmetic *)
Definition stale (it : stritem) : bool := time it <? u32 (now - ITEM_UPDATE_INTERVAL).

Definition do_item_update_nolock (c : cache) (a : Z) : option cache :=
  if stale (ith c a) then
    assert_ (negb (has_flag (ith c a) ITEM_SLABBED));;
    if has_flag (ith c a) ITEM_LINKED then
      c ← do_item_unlink_q c a;
      do_item_link_q (set_item c a (set_time now)) a
    else Some c
  else Some c.

(** Bump the last access time; a hit in the cold queue moves to the warm one. *)
Definition do_item_update (c : cache) (a : Z) : option cache :=
  if lru_segmented st then
    assert_ (negb (has_flag (ith c a) ITEM_SLABBED));;
    if has_flag (ith c a) ITEM_LINKED then
      if (ITEM_lruid (ith c a) =? COLD_LRU) && has_flag (ith c a) ITEM_ACTIVE then
        let c := set_item c a (set_time now) in
        c ← do_item_unlink_q c a;
        let c := set_item c a (λ i, set_slabs_clsid (ITEM_clsid i) i) in
        let c := set_item c a (λ i, set_slabs_clsid (Z.lor (Item.slabs_clsid i) WARM_LRU) i) in
        let c := set_item c a (clear_flag ITEM_ACTIVE) in
        do_item_link_q c a
      else if stale (ith c a) then Some (set_item c a (set_time now))
      else Some c
    else Some c
  else if stale (ith c a) then
    assert_ (negb (has_flag (ith c a) ITEM_SLABBED));;
    if has_flag (ith c a) ITEM_LINKED then
      c ← do_item_unlink_q (set_item c a (set_time now)) a;
      do_item_link_q c a
    else Some c
  else Some c.

(** ** Looking up *)

Definition item_is_flushed (it : stritem) : bool :=
  if (oldest_live st =? 0) || (now <? oldest_live st) then false
  else (time it <=? oldest_live st) ||
       (negb (oldest_cas st =? 0) && negb (ITEM_get_cas it =? 0) && (ITEM_get_cas it <? oldest_cas st)).

(** The bump buffer takes the entry or not. *)
Definition lru_bump_async (c : cache) (a hv : Z) (space : bool) : cache * bool :=
  let c := refcount_incr c a in
  if space then (with_bumps c (bumps c ++ [(a, hv)]), true)
  else (refcount_decr c a, false).

(** The hit markers of a fetch; [conn] is [None] without a connection, else it says
    whether the worker's bump buffer has space. *)
Definition hit (c : cache) (a hv : Z) (conn : option bool) : option cache :=
  if lru_segmented st then
    if has_flag (ith c a) ITEM_ACTIVE then Some c
    else if negb (has_flag (ith c a) ITEM_FETCHED) then Some (set_item c a (add_flag ITEM_FETCHED))
    else
      let c := set_item c a (add_flag ITEM_ACTIVE) in
      if negb (ITEM_lruid (ith c a) =? COLD_LRU) then do_item_update c a
      else match conn with
           | None => Some c
           | Some space =>
               let '(c, ok) := lru_bump_async c a hv space in
               Some (if ok then c else set_item c a (clear_flag ITEM_ACTIVE))
           end
  else do_item_update (set_item c a (add_flag ITEM_FETCHED)) a.

(** The item, referenced once more; null when there is none, or when it has
    expired or been flushed, in which case it is unlinked. *)
Definition do_item_get (c : cache) (k : bytes) (hv : Z) (conn : option bool) (do_update : bool)
  : option (cache * Z) :=
  match assoc_find (table c) k hv with
  | None => Some (c, 0)
  | Some e =>
      let a := it_id e in
      let c := refcount_incr c a in
      if item_is_flushed (ith c a) || (negb (exptime (ith c a) =? 0) && (exptime (ith c a) <=? now)) then
        c ← do_item_unlink c a hv;
        c ← do_item_remove c a;
        Some (c, 0)
      else if do_update then
        c ← hit c a hv conn;
        Some (c, a)
      else Some (c, a)
  end.

Definition do_item_touch (c : cache) (k : bytes) (ex hv : Z) (conn : option bool) : option (cache * Z) :=
  '(c, a) ← do_item_get c k hv conn true;
  if a =? 0 then Some (c, a) else Some (set_item c a (set_exptime ex), a).

(** The maintainer thread's work on a bump buffer. *)
Fixpoint do_bumps (l : list (Z * Z)) (c : cache) : option cache :=
  match l with
  | [] => Some c
  | (a, _) :: l' => c ← do_item_update c a; c ← do_item_remove c a; do_bumps l' c
  end.

Definition lru_maintainer_bumps (c : cache) : option cache :=
  do_bumps (bumps c) (with_bumps c []).

(** ** The invariant *)

Definition clsid_of (it : stritem) : nat := Z.to_nat (ITEM_clsid it).

(** An item in use, linked or not: a chunk of its class that is not free. *)
Record in_use (s : slab_state) (a : Z) (it : stritem) : Prop := {
  u_valid : valid s (clsid_of it);
  u_held : held s (clsid_of it) a;
  u_slabbed : has_flag it ITEM_SLABBED = false;
  u_chunked : has_flag it ITEM_CHUNKED = false;
  u_clsid : 0 ≤ Item.slabs_clsid it < 256
}.

(** An item in queue [id]. *)
Record queued (s : slab_state) (id : nat) (a : Z) (it : stritem) : Prop := {
  n_use : in_use s a it;
  n_queue : Item.slabs_clsid it = Z.of_nat id
}.

(** An item that is linked: it is in the table, and referenced by its link. *)
Record mapped (M : gmap bytes item) (a : Z) (it : stritem) : Prop := {
  n_linked : has_flag it ITEM_LINKED = true;
  n_ref : 1 ≤ refcount it < 2 ^ 16;
  n_map : M !! key it = Some (mkItem (key it) a)
}.

Record queue_ok (c : cache) (id : nat) (l : list Z) : Prop := {
  q_dll : dll (mem_of_cache c) 0 (heads c !!! id) l;
  q_tail : tails c !!! id = default 0 (list.last l);
  q_nodup : NoDup l;
  q_size : sizes c !!! id = u32 (Z.of_nat (length l));
  q_items a : a ∈ l → queued (slab c) id a (ith c a)
}.

(** [L id] is the LRU queue of class and segment [id].  The items [X] are being
    linked or unlinked: they may be in only one of the queues and the table. *)
Record cache_ok (c : cache) (L : nat → list Z) (X : list Z) : Prop := {
  co_slabs : slabs_ok (slab_settings st) (slab c);
  co_table : assoc_ok hash (table c);
  co_lengths : length (heads c) = LARGEST_ID ∧ length (tails c) = LARGEST_ID ∧
    length (sizes c) = LARGEST_ID;
  co_queue id : (id < LARGEST_ID)%nat → queue_ok c id (L id);
  co_mapped id a : (id < LARGEST_ID)%nat → a ∈ L id → a ∉ X → mapped (amap (table c)) a (ith c a);
  co_map k e : amap (table c) !! k = Some e → it_id e ∉ X →
    ∃ id, (id < LARGEST_ID)%nat ∧ it_id e ∈ L id ∧ key (ith c (it_id e)) = k
}.

(** The item is in no queue. *)
Definition unqueued (L : nat → list Z) (a : Z) : Prop :=
  ∀ id, (id < LARGEST_ID)%nat → a ∉ L id.

(** The same chunks are in use. *)
Definition same_held (s s' : slab_state) : Prop :=
  power_largest s' = power_largest s ∧ slabclass s' = slabclass s ∧
  ∀ id a, valid s id → held s' id a ↔ held s id a.

Lemma in_use_held s s' a it : same_held s s' → in_use s a it → in_use s' a it.
Proof.
  intros (Hl & _ & Hh) []. split; try done.
  - unfold valid. by rewrite Hl.
  - by apply Hh.
Qed.

(** What an item's use of its chunk depends on. *)
Definition same_use (it it' : stritem) : Prop :=
  Item.slabs_clsid it' = Item.slabs_clsid it ∧
  has_flag it' ITEM_SLABBED = has_flag it ITEM_SLABBED ∧
  has_flag it' ITEM_CHUNKED = has_flag it ITEM_CHUNKED.

Lemma in_use_same s a it it' : same_use it it' → in_use s a it → in_use s a it'.
Proof.
  intros (H1 & H2 & H3) []. unfold clsid_of, ITEM_clsid in *.
  split; unfold clsid_of, ITEM_clsid; rewrite ?H1, ?H2, ?H3; done.
Qed.

Lemma payload_use it it' : payload it' = payload it → same_use it it'.
Proof. destruct it, it'. by intros [=]; subst. Qed.

Lemma payload_mapped M a it it' : payload it' = payload it → mapped M a it → mapped M a it'.
Proof. destruct it, it'. intros [=]; subst. by intros []. Qed.

Section WithCache.
Context {c : cache} {L : nat → list Z} {X : list Z} (Hok : cache_ok c L X).

Lemma queue_use id a : (id < LARGEST_ID)%nat → a ∈ L id → queued (slab c) id a (ith c a).
Proof. intros Hid Ha. by apply (co_queue _ _ _ Hok). Qed.

Lemma queue_unique id id' a :
  (id < LARGEST_ID)%nat → (id' < LARGEST_ID)%nat → a ∈ L id → a ∈ L id' → id = id'.
Proof.
  intros Hid Hid' Ha Ha'. pose proof (n_queue _ _ _ _ (queue_use id a Hid Ha)).
  pose proof (n_queue _ _ _ _ (queue_use id' a Hid' Ha')). lia.
Qed.

Lemma use_not_free a i : in_use (slab c) a (ith c a) → valid (slab c) i → a ∉ free_list (slab c) i.
Proof.
  intros [] Hi. apply (held_not_free (slab_settings st) _ (clsid_of (ith c a))); [|done..].
  apply (co_slabs _ _ _ Hok).
Qed.

Lemma use_nonzero a : in_use (slab c) a (ith c a) → a ≠ 0.
Proof.
  intros []. eapply (chunk_nonzero (slab_settings st)); [apply (co_slabs _ _ _ Hok)|done|apply u_held0].
Qed.

(** Only headers of items in use change. *)
Lemma heap_slabs h' :
  (∀ b, ¬ in_use (slab c) b (ith c b) → hdr h' b = ith c b) →
  slabs_ok (slab_settings st) (with_mem (slab c) h') ∧ same_held (slab c) (with_mem (slab c) h').
Proof.
  intros Hh. destruct (slabs_frame (slab_settings st) (slab c) h') as [Hs Hf]; [apply Hok| |].
  { intros id b Hid Hb. apply Hh. intros Hu. by apply (use_not_free b id Hu). }
  split; [done|]. split_and!; [done|done|]. intros id a Hid. unfold held. by rewrite Hf.
Qed.

(** The table and the queues stay; the headers keep what matters. *)
Lemma heap_ok h' :
  (∀ b, ¬ in_use (slab c) b (ith c b) → hdr h' b = ith c b) →
  (∀ b, same_use (ith c b) (hdr h' b) ∧ next (hdr h' b) = next (ith c b) ∧
        prev (hdr h' b) = prev (ith c b) ∧ key (hdr h' b) = key (ith c b)) →
  (∀ b, b ∉ X → ∀ M, mapped M b (ith c b) → mapped M b (hdr h' b)) →
  cache_ok (with_heap c h') L X.
Proof.
  intros Huse Hsame Hmap. destruct (heap_slabs h' Huse) as [Hs Hh]. pose proof Hok as [].
  split; try done.
  - intros id Hid. destruct (co_queue0 id Hid) as [Hd Ht Hnd Hsz Hit]. split; try done.
    + eapply dll_frame; [|done]. intros b _. destruct (Hsame b) as (_ & ? & ? & _). done.
    + intros b Hb. destruct (Hit b Hb) as [Hu Hq]. destruct (Hsame b) as (Hsu & _).
      change (ith (with_heap c h') b) with (hdr h' b).
      split; [by eapply in_use_held, in_use_same|]. by destruct Hsu as [-> _].
  - intros id b Hid Hb HX. apply Hmap; [done|]. by eapply co_mapped0.
  - intros k e Hk HX. destruct (co_map0 k e Hk HX) as (id & Hid & Hin & <-). exists id.
    split_and!; [done|done|]. change (ith (with_heap c h') ?b) with (hdr h' b).
    by destruct (Hsame (it_id e)) as (_ & _ & _ & ->).
Qed.

Lemma set_item_ok a f :
  in_use (slab c) a (ith c a) →
  same_use (ith c a) (f (ith c a)) → next (f (ith c a)) = next (ith c a) →
  prev (f (ith c a)) = prev (ith c a) → key (f (ith c a)) = key (ith c a) →
  (a ∉ X → ∀ M, mapped M a (ith c a) → mapped M a (f (ith c a))) →
  cache_ok (set_item c a f) L X.
Proof.
  intros Hu Hs Hn Hp Hk Hm. apply heap_ok.
  - intros b Hb. rewrite hdr_upd_ne; [done|]. by intros ->.
  - intros b. destruct (decide (a = b)) as [<-|]; [by rewrite hdr_upd_eq|by rewrite hdr_upd_ne].
  - intros b. destruct (decide (a = b)) as [<-|]; [by rewrite hdr_upd_eq|by rewrite hdr_upd_ne].
Qed.

End WithCache.

Lemma ith_set_eq c a f : ith (set_item c a f) a = f (ith c a).
Proof. apply hdr_upd_eq. Qed.

Lemma ith_set_ne c a b f : a ≠ b → ith (set_item c a f) b = ith c b.
Proof. apply hdr_upd_ne. Qed.

(** The statistics, the CAS counter and the bump buffer do not matter. *)
Lemma stats_ok c L X c' :
  table c' = table c → slab c' = slab c → heads c' = heads c → tails c' = tails c → sizes c' = sizes c →
  cache_ok c L X → cache_ok c' L X.
Proof. destruct c, c'. simpl. intros -> -> -> -> -> []. split; try done.
  intros id Hid. destruct (co_queue0 id Hid). by split.
Qed.

(** ** Queue operations *)

Lemma qid_lt c a : in_use (slab c) a (ith c a) → (qid c a < LARGEST_ID)%nat.
Proof. intros []. unfold qid, LARGEST_ID. lia. Qed.

(** The head and the tail pointer of a queue. *)
Lemma queue_ends c id l :
  queue_ok c id l →
  (l = [] ∧ heads c !!! id = 0 ∧ tails c !!! id = 0) ∨
  (heads c !!! id ∈ l ∧ tails c !!! id ∈ l ∧ heads c !!! id ≠ 0 ∧ tails c !!! id ≠ 0).
Proof.
  intros [Hd Ht _ _ _]. pose proof (dll_head _ _ _ _ Hd) as Hh.
  destruct l as [|b l]; [by left|right]. rewrite Hh, Ht.
  assert (Hl : ∃ z, list.last (b :: l) = Some z) by (apply last_is_Some; done).
  destruct Hl as [z Hz]. rewrite Hz. simpl. apply last_Some_elem_of in Hz.
  split_and!; [by left|done|..]; (eapply dll_nonzero; [done|]); [by left|done].
Qed.

Lemma link_q_ok c L X a :
  cache_ok c L X → a ∈ X → unqueued L a → in_use (slab c) a (ith c a) →
  ∃ c', do_item_link_q c a = Some c' ∧
    cache_ok c' (set_list L (qid c a) (a :: L (qid c a))) X ∧ table c' = table c ∧
    same_held (slab c) (slab c') ∧ ∀ b, payload (ith c' b) = payload (ith c b).
Proof.
  intros Hok HX Hun Hu. set (id := qid c a). assert (Hid : (id < LARGEST_ID)%nat) by by apply qid_lt.
  pose proof (use_nonzero Hok a Hu) as Ha0. pose proof (co_queue _ _ _ Hok id Hid) as Hq.
  pose proof (queue_ends c id (L id) Hq) as Hends. pose proof (Hun id Hid) as HaL.
  unfold do_item_link_q. fold id. set (hd := heads c !!! id) in *. set (tl := tails c !!! id) in *.
  rewrite (u_slabbed _ _ _ Hu). cbn [negb assert_ mbind option_bind].
  assert (Hhd : a ≠ hd) by (destruct Hends as [(_ & -> & _)|(Hin & _)]; [done|]; by intros <-).
  rewrite (proj2 (Z.eqb_neq _ _) Hhd). cbn [negb assert_ mbind option_bind].
  assert (Hboth : (negb (hd =? 0) && negb (tl =? 0)) || ((hd =? 0) && (tl =? 0)) = true).
  { destruct Hends as [(_ & -> & ->)|(_ & _ & H1 & H2)]; [done|].
    by rewrite (proj2 (Z.eqb_neq _ _) H1), (proj2 (Z.eqb_neq _ _) H2). }
  rewrite Hboth. cbn [assert_ mbind option_bind]. eexists. split; [done|].
  set (h' := push a hd (mem_of_cache c)).
  assert (Hpay : ∀ b, payload (hdr h' b) = payload (ith c b)) by (intros; apply push_payload).
  assert (Hother : ∀ b, b ≠ a → (hd ≠ 0 → b ≠ hd) → hdr h' b = ith c b) by (intros; by apply push_other).
  assert (Hhq : hd ≠ 0 → hd ∈ L id) by (destruct Hends as [(_ & ? & _)|(? & _)]; done).
  destruct (heap_slabs Hok h') as [Hs Hh].
  { intros b Hb. apply Hother; [by intros ->|]. intros Hz ->. apply Hb.
    by apply (queue_use Hok id), Hhq. }
  assert (Hqd : ∀ b i, queued (slab c) i b (ith c b) → queued (with_mem (slab c) h') i b (hdr h' b)).
  { intros b i [Hub Hqb]. pose proof (payload_use _ _ (Hpay b)) as Hsu.
    split; [by eapply in_use_held, in_use_same|]. by destruct Hsu as [-> _]. }
  pose proof Hok as [_ Htab (Hlh & Hlt & Hls) Hqs Hmp Hcm]. split_and!; [|done|done|done].
  split; simpl; try done; [by rewrite !length_insert; case_match; rewrite ?length_insert| | |].
  - intros i Hi. unfold set_list. case_decide as Hdec.
    + subst i. destruct Hq as [Hd Ht Hnd Hsz Hit]. split; simpl.
      * rewrite list_lookup_total_insert_eq by lia. by apply push_dll.
      * rewrite last_cons. fold tl in Ht. destruct Hends as [(HL & _ & Htl)|(_ & _ & _ & Htl)].
        -- rewrite Htl, HL. simpl. by rewrite list_lookup_total_insert_eq by lia.
        -- rewrite (proj2 (Z.eqb_neq _ _) Htl). fold tl. rewrite Ht.
           destruct (list.last (L id)); [done|]. by rewrite Ht in Htl.
      * by constructor.
      * rewrite list_lookup_total_insert_eq by lia. rewrite Hsz. unfold u32.
        rewrite Z.add_mod_idemp_l by done. f_equal. simpl. lia.
      * intros b [->|Hb]%elem_of_cons; apply Hqd; [|by apply Hit].
        split; [done|]. unfold id, qid. destruct Hu. lia.
    + destruct (Hqs i Hi) as [Hd Ht Hnd Hsz Hit].
      split; simpl; rewrite ?list_lookup_total_insert_ne by done; try done.
      * eapply dll_frame; [|done]. intros b Hb. rewrite Hother; [done|by intros ->; apply (Hun i)|].
        intros Hz ->. apply Hdec. by apply (queue_unique Hok i id hd), Hhq.
      * case_match; by rewrite ?list_lookup_total_insert_ne.
      * intros b Hb. by apply Hqd, Hit.
  - intros i b Hi Hb HbX. eapply payload_mapped; [apply Hpay|]. apply (Hmp i); try done.
    unfold set_list in Hb. case_decide; [subst i|done].
    apply elem_of_cons in Hb as [->|Hb]; done.
  - intros k e Hk HeX. destruct (Hcm k e Hk HeX) as (i & Hi & Hin & Hkey). exists i. split_and!; [done| |].
    + unfold set_list. case_decide; [subst; by right|done].
    + rewrite <-Hkey. pose proof (Hpay (it_id e)) as Hp. by apply (f_equal key) in Hp.
Qed.

Lemma u32_length_pred n : u32 (u32 (Z.of_nat (S n)) - 1) = u32 (Z.of_nat n).
Proof. unfold u32. rewrite Zminus_mod_idemp_l. f_equal. lia. Qed.

(** The queue the item is cut out of. *)
Lemma cut_queue_ok c id l1 a l2 hd tl sz sb s' :
  queue_ok c id (l1 ++ a :: l2) →
  hd !!! id = after_cut (heads c !!! id) a (next (ith c a)) →
  tl !!! id = (if tails c !!! id =? a then prev (ith c a) else tails c !!! id) →
  sz !!! id = u32 (sizes c !!! id - 1) → chunks_mem s' = cut a (mem_of_cache c) →
  (∀ b, b ∈ l1 ++ l2 → queued s' id b (hdr (chunks_mem s') b)) →
  queue_ok (with_queues (with_slab c s') hd tl sz sb) id (l1 ++ l2).
Proof.
  intros [Hd Ht Hnd Hsz Hit] Hhd Htl Hszs Hmem Hqd.
  assert (H0 : 0 ∉ l1 ++ a :: l2) by (intros H0; by apply (dll_nonzero _ _ _ _ 0 Hd)).
  destruct (dll_ends _ _ _ _ _ Hnd Hd) as [_ Hlast]. rewrite <-Ht in Hlast.
  destruct (dll_neighbours _ _ _ _ _ _ Hd) as [Hpv _]. fold (ith c a) in Hpv.
  split; unfold mem_of_cache; simpl.
  - rewrite Hhd, Hmem. by apply cut_dll_at.
  - rewrite Htl. destruct (Z.eqb_spec (tails c !!! id) a) as [Hta|Hta].
    + rewrite (proj1 Hlast Hta), app_nil_r. done.
    + rewrite Ht. destruct l2 as [|b l2 _] using rev_ind; [by destruct Hta; apply Hlast|].
      by rewrite app_comm_cons, !(assoc_L (++)), !last_snoc.
  - apply list.NoDup_app in Hnd as (? & Hdj & [_ ?]%list.NoDup_cons). apply list.NoDup_app.
    split_and!; [done| |done]. intros b Hb Hb2. apply (Hdj b Hb). by right.
  - rewrite Hszs, Hsz. replace (length (l1 ++ a :: l2)) with (S (length (l1 ++ l2)))
      by (rewrite !length_app; simpl; lia). apply u32_length_pred.
  - done.
Qed.

Lemma unlink_q_ok c L X a id l1 l2 :
  cache_ok c L X → (id < LARGEST_ID)%nat → L id = l1 ++ a :: l2 →
  ∃ c', do_item_unlink_q c a = Some c' ∧ cache_ok c' (set_list L id (l1 ++ l2)) (a :: X) ∧
    table c' = table c ∧ same_held (slab c) (slab c') ∧ ∀ b, payload (ith c' b) = payload (ith c b).
Proof.
  intros Hok Hid HL. pose proof (co_queue _ _ _ Hok id Hid) as Hq. rewrite HL in Hq.
  assert (Ha : a ∈ L id) by (rewrite HL, elem_of_app, elem_of_cons; auto).
  pose proof (queue_use Hok id a Hid Ha) as [Hu Hqa].
  assert (Hqid : qid c a = id) by (unfold qid; rewrite Hqa; lia).
  pose proof Hq as [Hd Ht Hnd _ _]. destruct (dll_ends _ _ _ _ _ Hnd Hd) as [Hhd Htl]. rewrite <-Ht in Htl.
  assert (H0 : 0 ∉ l1 ++ a :: l2) by (intros H0; by apply (dll_nonzero _ _ _ _ 0 Hd)).
  destruct (dll_neighbours _ _ _ _ _ _ Hd) as [Hpv Hnx]. fold (ith c a) in Hpv, Hnx.
  destruct (dll_not_self _ _ _ _ _ _ Hnd H0 Hd) as [Hna Hpa]. fold (ith c a) in Hna, Hpa.
  unfold do_item_unlink_q. rewrite Hqid.
  assert (negb (heads c !!! id =? a) || (prev (ith c a) =? 0) = true) as ->.
  { destruct (Z.eqb_spec (heads c !!! id) a) as [Hha|]; [|done]. by rewrite Hpv, (proj1 Hhd Hha). }
  assert (negb (tails c !!! id =? a) || (next (ith c a) =? 0) = true) as ->.
  { destruct (Z.eqb_spec (tails c !!! id) a) as [Hta|]; [|done]. by rewrite Hnx, (proj1 Htl Hta). }
  rewrite (proj2 (Z.eqb_neq _ _) Hna), (proj2 (Z.eqb_neq _ _) Hpa).
  cbn [negb assert_ mbind option_bind]. eexists. split; [done|].
  set (h' := cut a (mem_of_cache c)).
  assert (Hpay : ∀ b, payload (hdr h' b) = payload (ith c b)) by (intros; by apply cut_payload).
  assert (Hother : ∀ b, b ∉ L id → hdr h' b = ith c b).
  { intros b Hb. rewrite HL in Hb. by eapply cut_other. }
  destruct (heap_slabs Hok h') as [Hs Hh].
  { intros b Hb. apply Hother. intros Hin. apply Hb. by apply (queue_use Hok id). }
  assert (Hqd : ∀ b i, queued (slab c) i b (ith c b) → queued (with_mem (slab c) h') i b (hdr h' b)).
  { intros b i [Hub Hqb]. pose proof (payload_use _ _ (Hpay b)) as Hsu.
    split; [by eapply in_use_held, in_use_same|]. by destruct Hsu as [-> _]. }
  pose proof Hok as [_ Htab (Hlh & Hlt & Hls) Hqs Hmp Hcm]. split_and!; [|done|done|done].
  assert (Hsub : ∀ i b, b ∈ set_list L id (l1 ++ l2) i → b ∈ L i).
  { intros i b. unfold set_list. case_decide; [subst i; rewrite HL|done].
    rewrite !elem_of_app, elem_of_cons. tauto. }
  split; simpl; try done; [by repeat case_match; rewrite ?length_insert| | |].
  - intros i Hi. unfold set_list. case_decide as Hdec.
    + subst i. apply (cut_queue_ok c id l1 a l2 _ _ _ _ (with_mem (slab c) h')); try done.
      * unfold after_cut. case_match; [by rewrite list_lookup_total_insert_eq by lia|done].
      * case_match; [by rewrite list_lookup_total_insert_eq by lia|done].
      * by rewrite list_lookup_total_insert_eq by lia.
      * intros b Hb. apply Hqd, Hq. rewrite !elem_of_app in *. rewrite elem_of_cons. tauto.
    + destruct (Hqs i Hi) as [Hdi Hti Hndi Hszi Hiti].
      split; simpl; rewrite ?list_lookup_total_insert_ne by done; try done.
      * assert (Hh2 : (if heads c !!! id =? a then <[id:=next (ith c a)]> (heads c) else heads c) !!! i
          = heads c !!! i) by (case_match; by rewrite ?list_lookup_total_insert_ne).
        rewrite Hh2. eapply dll_frame; [|done]. intros b Hb. rewrite Hother; [done|].
        intros Hbid. apply Hdec. by apply (queue_unique Hok i id b).
      * case_match; by rewrite ?list_lookup_total_insert_ne.
      * intros b Hb. by apply Hqd, Hiti.
  - intros i b Hi Hb HbX. eapply payload_mapped; [apply Hpay|]. apply (Hmp i); try done; [by apply Hsub|set_solver].
  - intros k e Hk HeX. apply not_elem_of_cons in HeX as [Hea HeX].
    destruct (Hcm k e Hk HeX) as (i & Hi & Hin & Hkey). exists i. split_and!; [done| |].
    + unfold set_list. case_decide; [subst i|done]. rewrite HL, elem_of_app, elem_of_cons in Hin.
      rewrite elem_of_app. naive_solver.
    + rewrite <-Hkey. pose proof (Hpay (it_id e)) as Hp. by apply (f_equal key) in Hp.
Qed.

(** ** Linking *)

Lemma cache_ok_weaken c L X a : cache_ok c L X → cache_ok c L (a :: X).
Proof.
  intros []. split; try done.
  - intros id b Hid Hb HX. apply not_elem_of_cons in HX as [_ HX]. by eapply co_mapped0.
  - intros k e Hk HX. apply not_elem_of_cons in HX as [_ HX]. by apply co_map0.
Qed.

(** The item [a] is in both the queues and the table, or in neither. *)
Lemma cache_ok_close c L X a :
  cache_ok c L (a :: X) →
  (∀ id, (id < LARGEST_ID)%nat → a ∈ L id → a ∉ X → mapped (amap (table c)) a (ith c a)) →
  (∀ k, amap (table c) !! k = Some (mkItem k a) → a ∉ X →
     ∃ id, (id < LARGEST_ID)%nat ∧ a ∈ L id ∧ key (ith c a) = k) →
  cache_ok c L X.
Proof.
  intros [] Hq Hm. split; try done.
  - intros id b Hid Hb HX. destruct (decide (b = a)) as [->|]; [by apply (Hq id)|].
    apply (co_mapped0 id); try done. by apply not_elem_of_cons.
  - intros k e Hk HX. pose proof Hk as [Hin Hke]%(amap_lookup hash); [|done].
    destruct (decide (it_id e = a)) as [<-|].
    + apply Hm; [|done]. rewrite Hk. by destruct e; simpl in *; subst.
    + apply co_map0; [done|]. by apply not_elem_of_cons.
Qed.

Lemma linked_queued c L a id :
  cache_ok c L [] → (id < LARGEST_ID)%nat → a ∈ L id → mapped (amap (table c)) a (ith c a).
Proof. intros Hok Hid Ha. apply (co_mapped _ _ _ Hok id); try done. apply not_elem_of_nil. Qed.

Lemma unlinked_unqueued c L a :
  cache_ok c L [] → has_flag (ith c a) ITEM_LINKED = false → unqueued L a.
Proof.
  intros Hok Hf id Hid Ha. pose proof (n_linked _ _ _ (linked_queued c L a id Hok Hid Ha)). congruence.
Qed.

Lemma table_insert_ok c L X a :
  cache_ok c L (a :: X) → unqueued L a → amap (table c) !! key (ith c a) = None →
  let t := assoc_insert (table c) (mkItem (key (ith c a)) a) (hash (key (ith c a))) in
  cache_ok (with_table c t) L (a :: X) ∧
  amap t = <[key (ith c a) := mkItem (key (ith c a)) a]> (amap (table c)).
Proof.
  intros Hok Hun Hn. set (e := mkItem (key (ith c a)) a).
  destruct (insert_ok hash (table c) e (co_table _ _ _ Hok) Hn) as [Ht Hm]. simpl it_key in *.
  split; [|done]. pose proof Hok as []. split; simpl; try done.
  - intros id Hid. destruct (co_queue0 id Hid). by split.
  - intros id b Hid Hb HX. destruct (co_mapped0 id b Hid Hb HX) as [Hl Hr Hmap].
    split; [done|done|]. rewrite Hm. change (ith (with_table c _) b) with (ith c b).
    rewrite lookup_insert_ne; [done|]. intros Heq. rewrite <-Heq in Hmap. congruence.
  - intros k e' Hk HX. rewrite Hm in Hk. apply lookup_insert_Some in Hk as [[<- <-]|[_ Hk]].
    + by destruct HX; left.
    + by apply co_map0.
Qed.

Lemma set_cas_same v it :
  same_use it (ITEM_set_cas v it) ∧ next (ITEM_set_cas v it) = next it ∧
  prev (ITEM_set_cas v it) = prev it ∧ key (ITEM_set_cas v it) = key it ∧
  refcount (ITEM_set_cas v it) = refcount it ∧ it_flags (ITEM_set_cas v it) = it_flags it.
Proof. unfold ITEM_set_cas. by destruct (has_flag it ITEM_CAS). Qed.

Lemma set_item_held c L X a f :
  cache_ok c L X → in_use (slab c) a (ith c a) → same_held (slab c) (slab (set_item c a f)).
Proof.
  intros Hok Hu. apply (heap_slabs Hok). intros b Hb. rewrite hdr_upd_ne; [done|]. by intros ->.
Qed.

(** The header changes of an item that is being linked or unlinked. *)
Lemma header_ok c L X a f :
  cache_ok c L (a :: X) → in_use (slab c) a (ith c a) → same_use (ith c a) (f (ith c a)) →
  next (f (ith c a)) = next (ith c a) → prev (f (ith c a)) = prev (ith c a) →
  key (f (ith c a)) = key (ith c a) →
  cache_ok (set_item c a f) L (a :: X) ∧
  in_use (slab (set_item c a f)) a (f (ith c a)) ∧ same_held (slab c) (slab (set_item c a f)).
Proof.
  intros Hok Hu Hs Hn Hp Hk. pose proof (set_item_held c L _ a f Hok Hu) as Hh. split_and!; [|..|done].
  - apply (set_item_ok Hok); try done. intros []. by left.
  - eapply in_use_held; [done|]. by eapply in_use_same.
Qed.

Lemma same_held_trans s1 s2 s3 : same_held s1 s2 → same_held s2 s3 → same_held s1 s3.
Proof.
  intros (H1 & H1' & H2) (H3 & H3' & H4). split_and!; [congruence|congruence|]. intros id a Hid.
  rewrite H4; [by apply H2|].
  unfold valid. by rewrite H1.
Qed.

Lemma add_linked_use it : same_use it (set_time now (add_flag ITEM_LINKED it)).
Proof. split_and!; [done|..]; by apply (has_flag_add_other ITEM_LINKED _ it). Qed.

(** Everything [do_item_link] does before the queue: flag, time, statistics, CAS id
    and table. *)
Lemma link_prefix_ok c L a :
  cache_ok c L [a] → unqueued L a → in_use (slab c) a (ith c a) →
  amap (table c) !! key (ith c a) = None → ∀ n m p w v,
  let c1 := set_item c a (λ i, set_time now (add_flag ITEM_LINKED i)) in
  let c2 := with_cas (with_stats c1 n m p) w in
  let c3 := set_item c2 a (ITEM_set_cas v) in
  let t := assoc_insert (table c3) (mkItem (key (ith c3 a)) a) (hash (key (ith c a))) in
  cache_ok (with_table c3 t) L [a] ∧ in_use (slab c3) a (ith c3 a) ∧
  amap t = <[key (ith c a) := mkItem (key (ith c a)) a]> (amap (table c)) ∧
  same_held (slab c) (slab c3) ∧ key (ith c3 a) = key (ith c a) ∧
  refcount (ith c3 a) = refcount (ith c a) ∧ has_flag (ith c3 a) ITEM_LINKED = true ∧
  qid c3 a = qid c a.
Proof.
  intros Hok Hun Hu Hn n m p w v c1 c2 c3 t.
  destruct (header_ok c L [] a (λ i, set_time now (add_flag ITEM_LINKED i)) Hok Hu (add_linked_use _)) as (Hok1 & Hu1 & Hh1); try done. fold c1 in Hok1, Hu1, Hh1.
  assert (Hok2 : cache_ok c2 L [a]) by by apply (stats_ok c1).
  assert (Hi2 : ith c2 a = set_time now (add_flag ITEM_LINKED (ith c a))) by apply ith_set_eq.
  destruct (set_cas_same v (ith c2 a)) as (Hs & Hnx & Hpv & Hk & Hrf & Hfl).
  destruct (header_ok c2 L [] a (ITEM_set_cas v) Hok2) as (Hok3 & Hu3 & Hh3); try done.
  { by rewrite Hi2. }
  fold c3 in Hok3, Hu3, Hh3.
  assert (Hi3 : ith c3 a = ITEM_set_cas v (ith c2 a)) by apply ith_set_eq.
  assert (Hk3 : key (ith c3 a) = key (ith c a)) by by rewrite Hi3, Hk, Hi2.
  destruct (table_insert_ok c3 L [] a Hok3 Hun) as [Hok4 Hm]; [by rewrite Hk3|].
  rewrite Hk3 in Hok4, Hm. unfold t. rewrite Hk3. split_and!; try done.
  - by rewrite Hi3.
  - by eapply same_held_trans; [|apply Hh3].
  - by rewrite Hi3, Hrf, Hi2.
  - unfold has_flag. rewrite Hi3, Hfl, Hi2. by apply (has_flag_add_same ITEM_LINKED (ith c a)).
  - unfold qid. rewrite Hi3. destruct Hs as [-> _]. by rewrite Hi2.
Qed.

Lemma payload_fields it it' :
  payload it' = payload it →
  key it' = key it ∧ refcount it' = refcount it ∧ it_flags it' = it_flags it ∧
  Item.slabs_clsid it' = Item.slabs_clsid it ∧ ITEM_ntotal it' = ITEM_ntotal it.
Proof. destruct it, it'. by intros [=]; subst. Qed.

(** Linking an item that is in use, whose key is not in the cache, puts it at
    the head of the LRU queue of its class and into the hash table under its key,
    adds the link's reference, and changes nothing else; no assertion fails. *)
Lemma do_item_link_ok c L a :
  cache_ok c L [] → in_use (slab c) a (ith c a) → has_flag (ith c a) ITEM_LINKED = false →
  0 ≤ refcount (ith c a) < 2 ^ 16 - 1 → amap (table c) !! key (ith c a) = None →
  ∃ c', do_item_link c a (hash (key (ith c a))) = Some c' ∧
    cache_ok c' (set_list L (qid c a) (a :: L (qid c a))) [] ∧
    amap (table c') = <[key (ith c a) := mkItem (key (ith c a)) a]> (amap (table c)) ∧
    refcount (ith c' a) = refcount (ith c a) + 1 ∧ same_held (slab c) (slab c').
Proof.
  intros Hok Hu Hfl Href Hn. pose proof (unlinked_unqueued c L a Hok Hfl) as Hun.
  assert (Hnone : ∀ k, amap (table c) !! k ≠ Some (mkItem k a)).
  { intros k Hk. destruct (co_map _ _ _ Hok k _ Hk) as (i & Hi & Hin & _); [apply not_elem_of_nil|].
    by apply (Hun i). }
  apply (cache_ok_weaken _ _ _ a) in Hok. pose proof (link_prefix_ok c L a Hok Hun Hu Hn) as Hpre.
  unfold do_item_link. rewrite Hfl, (u_slabbed _ _ _ Hu). cbn [negb andb assert_ mbind option_bind].
  match goal with |- context [with_stats ?x ?y ?z ?w] =>
    specialize (Hpre y z w); set (c2 := with_stats x y z w) in * end.
  assert (Hcas : ∃ w v, (if use_cas (slab_settings st) then get_cas_id c2 else (c2, 0)) = (with_cas c2 w, v)).
  { destruct (use_cas _); [by eexists _, _|]. by exists (cas_id c2), 0. }
  destruct Hcas as (w & v & ->). cbv beta iota zeta.
  destruct (Hpre w v) as (Hok3 & Hu3 & Hm & Hh3 & Hk3 & Hr3 & Hl3 & Hq3). clear Hpre.
  set (c3 := set_item (with_cas c2 w) a (ITEM_set_cas v)).
  set (t := assoc_insert (table c3) _ _).
  change (cache_ok (with_table c3 t) L [a]) in Hok3. change (in_use (slab c3) a (ith c3 a)) in Hu3.
  change (amap t = <[key (ith c a) := mkItem (key (ith c a)) a]> (amap (table c))) in Hm.
  change (same_held (slab c) (slab c3)) in Hh3. change (key (ith c3 a) = key (ith c a)) in Hk3.
  change (refcount (ith c3 a) = refcount (ith c a)) in Hr3. change (qid c3 a = qid c a) in Hq3.
  change (has_flag (ith c3 a) ITEM_LINKED = true) in Hl3.
  destruct (link_q_ok (with_table c3 t) L [a] a) as (c4 & -> & Hok4 & Ht4 & Hh4 & Hp4); try done; [by left|].
  cbn [mbind option_bind]. change (qid (with_table c3 t) a) with (qid c3 a) in Hok4. rewrite Hq3 in Hok4.
  destruct (payload_fields _ _ (Hp4 a)) as (Hk4 & Hr4 & Hf4 & Hc4 & _).
  change (ith (with_table c3 t) a) with (ith c3 a) in *.
  assert (Hu4 : in_use (slab c4) a (ith c4 a)).
  { eapply in_use_held; [done|]. eapply in_use_same; [|done]. by apply payload_use, Hp4. }
  eexists. split; [done|]. unfold refcount_incr. set (f := λ i, set_refcount (u16 (refcount i + 1)) i).
  destruct (header_ok c4 _ [] a f Hok4 Hu4) as (Hok5 & Hu5 & Hh5); try done.
  assert (Href5 : refcount (ith (set_item c4 a f) a) = refcount (ith c a) + 1).
  { rewrite ith_set_eq. simpl. rewrite Hr4, Hr3. apply Z.mod_small. lia. }
  assert (Hm5 : amap (table (set_item c4 a f)) = <[key (ith c a) := mkItem (key (ith c a)) a]> (amap (table c))).
  { simpl. by rewrite Ht4. }
  split_and!; try done.
  - apply (cache_ok_close _ _ _ a Hok5).
    + intros id Hid Ha _. split.
      * rewrite ith_set_eq. unfold has_flag in *. simpl. by rewrite Hf4.
      * rewrite Href5. lia.
      * rewrite Hm5, ith_set_eq. simpl. rewrite Hk4, Hk3. by rewrite lookup_insert_eq.
    + intros k Hk _. exists (qid c a). rewrite ith_set_eq. simpl. rewrite Hk4, Hk3.
      split_and!; [by apply qid_lt|unfold set_list; rewrite decide_True by done; by left|].
      rewrite Hm5 in Hk. apply lookup_insert_Some in Hk as [[-> _]|[_ Hk]]; [done|]. by destruct (Hnone k).
  - eapply same_held_trans; [apply Hh3|]. eapply same_held_trans; [apply Hh4|done].
Qed.

(** ** References *)

(** Room for one more free chunk in the item's class. *)
Definition free_room (c : cache) (a : Z) : Prop :=
  sl_curr (cls (slab c) (clsid_of (ith c a))) + 1 < two32.

(** The item's chunk has been freed; all others are in use as before. *)
Definition freed (s s' : slab_state) (id : nat) (a : Z) : Prop :=
  power_largest s' = power_largest s ∧
  ∀ i b, valid s i → held s' i b ↔ held s i b ∧ (i, b) ≠ (id, a).

Lemma in_use_freed s s' id a b it : freed s s' id a → b ≠ a → in_use s b it → in_use s' b it.
Proof.
  intros [Hl Hh] Hne []. split; try done.
  - unfold valid. by rewrite Hl.
  - apply Hh; [done|]. split; [done|congruence].
Qed.

(** The other items in use keep everything but their queue pointers. *)
Definition others (c c' : cache) (a : Z) : Prop :=
  ∀ b, b ≠ a → in_use (slab c) b (ith c b) →
  payload (ith c' b) = payload (ith c b) ∧ in_use (slab c') b (ith c' b).

Lemma others_trans c1 c2 c3 a : others c1 c2 a → others c2 c3 a → others c1 c3 a.
Proof.
  intros H1 H2 b Hb Hu. destruct (H1 b Hb Hu) as [Hp1 Hu1]. destruct (H2 b Hb Hu1) as [Hp2 Hu2].
  split; [congruence|done].
Qed.

Lemma others_held c c' a :
  same_held (slab c) (slab c') → (∀ b, b ≠ a → payload (ith c' b) = payload (ith c b)) → others c c' a.
Proof.
  intros Hh Hp b Hb Hu. split; [by apply Hp|]. eapply in_use_held; [done|].
  eapply in_use_same; [|exact Hu]. by apply payload_use, Hp.
Qed.

Lemma end_not c L X a id :
  cache_ok c L X → (id < LARGEST_ID)%nat → unqueued L a → a ≠ 0 →
  a ≠ heads c !!! id ∧ a ≠ tails c !!! id.
Proof.
  intros Hok Hid Hun Ha. pose proof (Hun id Hid).
  destruct (queue_ends c id (L id) (co_queue _ _ _ Hok id Hid)) as [(_ & -> & ->)|(? & ? & _)]; [done|].
  split; congruence.
Qed.

(** The chunk of an item that is in no queue goes back to its class. *)
Lemma free_chunk_ok c L X a sz :
  cache_ok c L X → in_use (slab c) a (ith c a) → unqueued L a → free_room c a →
  ∃ s', do_slabs_free (slab_settings st) (slab c) a sz (clsid_of (ith c a)) = Some s' ∧
    cache_ok (with_slab c s') L X ∧ freed (slab c) s' (clsid_of (ith c a)) a ∧ others c (with_slab c s') a.
Proof.
  intros Hok Hu Hun Hroom. set (id := clsid_of (ith c a)) in *.
  pose proof Hu as [Hid Hheld _ Hck _]. fold id in Hid, Hheld.
  destruct (free_ok (slab_settings st) (slab c) a sz id) as (-> & Hok' & Hfree);
    [apply (co_slabs _ _ _ Hok)|done..|].
  eexists. split; [done|]. set (s' := push_free (slab c) id a sz) in *.
  assert (Hfr : freed (slab c) s' id a).
  { split; [done|]. by apply (free_held (slab_settings st)); [apply (co_slabs _ _ _ Hok)|..]. }
  assert (Hsame : ∀ b, b ≠ a → in_use (slab c) b (ith c b) → hdr (chunks_mem s') b = ith c b).
  { intros b Hb Hub. apply (free_other (slab_settings st)); [apply (co_slabs _ _ _ Hok)|done|done|].
    by apply (use_not_free Hok). }
  assert (Hq : ∀ i b, (i < LARGEST_ID)%nat → b ∈ L i → b ≠ a ∧ hdr (chunks_mem s') b = ith c b).
  { intros i b Hi Hb. assert (b ≠ a) by (intros ->; by apply (Hun i)).
    split; [done|]. apply Hsame; [done|]. by apply (queue_use Hok i). }
  split_and!; [|done|].
  2: { intros b Hb Hub. change (ith (with_slab c s') b) with (hdr (chunks_mem s') b).
       rewrite (Hsame b Hb Hub). split; [done|]. by eapply in_use_freed. }
  pose proof Hok as []. split; simpl; try done.
  - intros i Hi. destruct (co_queue0 i Hi) as [Hd Htl Hnd Hsz Hit].
    assert (Hi' : ∀ b, b ∈ L i → ith (with_slab c s') b = ith c b) by (intros b Hb; by apply (Hq i)).
    split; try done.
    + eapply dll_frame; [|done]. intros b Hb. specialize (Hi' b Hb). unfold ith in Hi'. by rewrite Hi'.
    + intros b Hb. rewrite (Hi' b Hb). destruct (Hit b Hb) as [Hub Hqb]. split; [|done].
      eapply in_use_freed; [done| |done]. by apply (Hq i).
  - intros i b Hi Hb HX. destruct (Hq i b Hi Hb) as [_ He].
    change (ith (with_slab c s') b) with (hdr (chunks_mem s') b). rewrite He. by apply (co_mapped0 i).
  - intros k e Hk HX. destruct (co_map0 k e Hk HX) as (i & Hi & Hin & Hke). exists i. split_and!; try done.
    change (ith (with_slab c s') (it_id e)) with (hdr (chunks_mem s') (it_id e)).
    by destruct (Hq i _ Hi Hin) as [_ ->].
Qed.

Lemma item_free_ok c L X a :
  cache_ok c L X → in_use (slab c) a (ith c a) → unqueued L a →
  has_flag (ith c a) ITEM_LINKED = false → refcount (ith c a) = 0 → free_room c a →
  ∃ c', item_free c a = Some c' ∧ cache_ok c' L X ∧ table c' = table c ∧
    freed (slab c) (slab c') (clsid_of (ith c a)) a ∧ others c c' a.
Proof.
  intros Hok Hu Hun Hfl Hrc Hroom. destruct (end_not c L X a (qid c a)) as [Hh Ht];
    [done|by apply qid_lt|done|by apply (use_nonzero Hok)|].
  unfold item_free. rewrite Hfl, (proj2 (Z.eqb_neq _ _) Hh), (proj2 (Z.eqb_neq _ _) Ht), Hrc.
  cbn [negb assert_ mbind option_bind Z.eqb]. fold (clsid_of (ith c a)).
  destruct (free_chunk_ok c L X a (ITEM_ntotal (ith c a)) Hok Hu Hun Hroom) as (s' & -> & Hok' & Hfr & Hot).
  by exists (with_slab c s').
Qed.

(** Dropping a reference: the chunk is freed with the last one. *)
Lemma do_item_remove_ok c L a :
  cache_ok c L [] → in_use (slab c) a (ith c a) → 1 ≤ refcount (ith c a) < 2 ^ 16 →
  (refcount (ith c a) = 1 → has_flag (ith c a) ITEM_LINKED = false ∧ free_room c a) →
  ∃ c', do_item_remove c a = Some c' ∧ cache_ok c' L [] ∧ table c' = table c ∧ others c c' a ∧
    if refcount (ith c a) =? 1 then freed (slab c) (slab c') (clsid_of (ith c a)) a
    else same_held (slab c) (slab c') ∧ ith c' a = set_refcount (refcount (ith c a) - 1) (ith c a).
Proof.
  intros Hok Hu Hr Hlast. unfold do_item_remove. rewrite (u_slabbed _ _ _ Hu).
  rewrite (proj2 (Z.ltb_lt 0 _)) by lia. cbn [negb assert_ mbind option_bind].
  unfold refcount_decr. set (f := λ i, set_refcount (u16 (refcount i - 1)) i).
  assert (Hf : f (ith c a) = set_refcount (refcount (ith c a) - 1) (ith c a)).
  { unfold f. f_equal. apply Z.mod_small. lia. }
  rewrite ith_set_eq, Hf. cbn [refcount set_refcount].
  pose proof (cache_ok_weaken _ _ _ a Hok) as HokX.
  destruct (header_ok c L [] a f HokX Hu) as (Hok1 & Hu1 & Hh1); try done.
  assert (Hi1 : ith (set_item c a f) a = set_refcount (refcount (ith c a) - 1) (ith c a)) by by rewrite ith_set_eq.
  assert (Hot1 : others c (set_item c a f) a).
  { apply others_held; [done|]. intros b Hb. by rewrite ith_set_ne. }
  destruct (Z.eqb_spec (refcount (ith c a)) 1) as [H1|H1].
  - destruct (Hlast H1) as [Hfl Hroom]. rewrite (proj2 (Z.eqb_eq _ _)) by lia.
    pose proof (unlinked_unqueued c L a Hok Hfl) as Hun.
    assert (Hokc : cache_ok (set_item c a f) L []).
    { apply (cache_ok_close _ _ _ a Hok1).
      - intros id Hid Ha. by destruct (Hun id Hid).
      - intros k Hk _. destruct (co_map _ _ _ Hok k _ Hk) as (i & Hi & Hin & _); [apply not_elem_of_nil|].
        by destruct (Hun i Hi). }
    destruct (item_free_ok (set_item c a f) L [] a) as (c' & -> & Hok' & Ht & Hfr & Hot); try done;
      rewrite ?Hi1; try done; [by rewrite <-Hf|simpl; lia|unfold free_room; by rewrite Hi1|].
    exists c'. split_and!; [done|done|done|by eapply others_trans|].
    rewrite Hi1 in Hfr. destruct Hfr as [Hpl Hheld]. split; [done|].
    intros i b Hi. rewrite Hheld by done. by destruct Hh1 as (_ & _ & ->).
  - rewrite (proj2 (Z.eqb_neq _ _)) by lia. eexists. split_and!; [done| |done|done|done|done].
    apply (cache_ok_close _ _ _ a Hok1).
    + intros id Hid Ha _. rewrite Hi1. destruct (linked_queued c L a id Hok Hid Ha) as [Hl _ Hm].
      split; [done|simpl; lia|done].
    + intros k Hk _. rewrite Hi1. simpl. apply (co_map _ _ _ Hok k _ Hk), not_elem_of_nil.
Qed.

(** ** Unlinking *)

Lemma table_delete_ok c L X a :
  cache_ok c L (a :: X) → amap (table c) !! key (ith c a) = Some (mkItem (key (ith c a)) a) →
  ∃ t, assoc_delete (table c) (key (ith c a)) (hash (key (ith c a))) = Some t ∧
    cache_ok (with_table c t) L (a :: X) ∧ amap t = delete (key (ith c a)) (amap (table c)).
Proof.
  intros Hok Hm. pose proof (co_table _ _ _ Hok) as Ht. pose proof Hm as [Hin _]%(amap_lookup hash); [|done].
  destruct (delete_ok hash (table c) _ Ht Hin) as (t & Hd & Ht' & Hm'). simpl it_key in *.
  exists t. split_and!; try done. pose proof Hok as []. split; simpl; try done.
  - intros id Hid. destruct (co_queue0 id Hid). by split.
  - intros id b Hid Hb HX. destruct (co_mapped0 id b Hid Hb HX) as [Hl Hr Hmap].
    split; [done|done|]. rewrite Hm'. change (ith (with_table c _) b) with (ith c b).
    rewrite lookup_delete_ne; [done|]. intros Heq. rewrite <-Heq, Hm in Hmap.
    injection Hmap as ->. by destruct HX; left.
  - intros k e Hk HX. rewrite Hm' in Hk. apply lookup_delete_Some in Hk as [_ Hk]. by apply co_map0.
Qed.

Lemma clear_linked_use it : same_use it (clear_flag ITEM_LINKED it).
Proof. split_and!; [done|..]; by apply has_flag_clear_other. Qed.

(** Up to the reference the link held. *)
Lemma unlink_prefix_ok c L a id l1 l2 :
  cache_ok c L [] → (id < LARGEST_ID)%nat → L id = l1 ++ a :: l2 → ∀ n m p,
  let c1 := with_stats (set_item c a (clear_flag ITEM_LINKED)) n m p in
  ∃ t c2, assoc_delete (table c1) (key (ith c1 a)) (hash (key (ith c a))) = Some t ∧
    do_item_unlink_q (with_table c1 t) a = Some c2 ∧
    cache_ok c2 (set_list L id (l1 ++ l2)) [] ∧
    amap (table c2) = delete (key (ith c a)) (amap (table c)) ∧ same_held (slab c) (slab c2) ∧
    payload (ith c2 a) = payload (clear_flag ITEM_LINKED (ith c a)) ∧ others c c2 a.
Proof.
  intros Hok Hid HL n m p c1. assert (Ha : a ∈ L id) by (rewrite HL, elem_of_app, elem_of_cons; auto).
  destruct (queue_use Hok id a Hid Ha) as [Hu Hqa]. destruct (linked_queued c L a id Hok Hid Ha) as [Hl Hr Hm].
  destruct (header_ok c L [] a (clear_flag ITEM_LINKED) (cache_ok_weaken _ _ _ a Hok) Hu (clear_linked_use _))
    as (Hok1 & Hu1 & Hh1); try done.
  assert (Hi1 : ith c1 a = clear_flag ITEM_LINKED (ith c a)) by apply ith_set_eq.
  assert (Hk1 : key (ith c1 a) = key (ith c a)) by by rewrite Hi1.
  assert (Hokc1 : cache_ok c1 L [a]) by (eapply stats_ok; [..|apply Hok1]; done).
  destruct (table_delete_ok c1 L [] a Hokc1) as (t & Hd & Hok2 & Hmt); [by rewrite Hk1|].
  rewrite Hk1 in Hd, Hmt. exists t.
  destruct (unlink_q_ok (with_table c1 t) L [a] a id l1 l2 Hok2 Hid HL) as (c2 & Hc2 & Hok3 & Ht3 & Hh3 & Hp3).
  exists c2. rewrite Hk1. rewrite Ht3. split_and!; try done.
  - assert (Hun : unqueued (set_list L id (l1 ++ l2)) a).
    { intros i Hi Hin. unfold set_list in Hin. case_decide as Hdec.
      - pose proof (q_nodup _ _ _ (co_queue _ _ _ Hok id Hid)) as Hnd. rewrite HL in Hnd.
        apply list.NoDup_app in Hnd as (_ & Hdj & [Hn2 _]%list.NoDup_cons).
        apply elem_of_app in Hin as [Hin|Hin]; [|done]. apply (Hdj a Hin). by left.
      - apply Hdec. by apply (queue_unique Hok i id a). }
    assert (Hnt : ∀ k, amap (table c2) !! k ≠ Some (mkItem k a)).
    { intros k Hk. rewrite Ht3 in Hk. simpl in Hk. rewrite Hmt in Hk. apply lookup_delete_Some in Hk as [Hne Hk].
      destruct (co_map _ _ _ Hok k _ Hk) as (i & _ & _ & Hke); [apply not_elem_of_nil|]. done. }
    apply (cache_ok_close _ _ _ a); [apply (cache_ok_close _ _ _ a Hok3)| |].
    + intros i Hi Hin. by destruct (Hun i Hi).
    + intros k Hk. by destruct (Hnt k).
    + intros i Hi Hin. by destruct (Hun i Hi).
    + intros k Hk. by destruct (Hnt k).
  - eapply same_held_trans; [apply Hh1|apply Hh3].
  - rewrite Hp3. change (ith (with_table c1 t) a) with (ith c1 a). by rewrite Hi1.
  - apply others_held; [eapply same_held_trans; [apply Hh1|apply Hh3]|]. intros b Hb. rewrite Hp3.
    unfold c1. change (ith (with_table _ t) b) with (ith (set_item c a (clear_flag ITEM_LINKED)) b).
    by rewrite ith_set_ne.
Qed.

(** Unlinking a linked item takes it out of its LRU queue, leaving the others
    in their order, and out of the hash table, and drops the link's reference: the
    item's chunk is freed exactly when nobody else holds one.  No assertion fails. *)
Lemma do_item_unlink_ok c L a id l1 l2 :
  cache_ok c L [] → (id < LARGEST_ID)%nat → L id = l1 ++ a :: l2 → free_room c a →
  ∃ c', do_item_unlink c a (hash (key (ith c a))) = Some c' ∧
    cache_ok c' (set_list L id (l1 ++ l2)) [] ∧
    amap (table c') = delete (key (ith c a)) (amap (table c)) ∧ others c c' a ∧
    if refcount (ith c a) =? 1 then freed (slab c) (slab c') (clsid_of (ith c a)) a
    else same_held (slab c) (slab c') ∧ refcount (ith c' a) = refcount (ith c a) - 1 ∧
      in_use (slab c') a (ith c' a) ∧ has_flag (ith c' a) ITEM_LINKED = false ∧
      clsid_of (ith c' a) = clsid_of (ith c a).
Proof.
  intros Hok Hid HL Hroom. assert (Ha : a ∈ L id) by (rewrite HL, elem_of_app, elem_of_cons; auto).
  destruct (queue_use Hok id a Hid Ha) as [Hu Hqa]. destruct (linked_queued c L a id Hok Hid Ha) as [Hl Hr Hm].
  unfold do_item_unlink. rewrite Hl. pose proof (unlink_prefix_ok c L a id l1 l2 Hok Hid HL) as Hpre.
  match goal with |- context [with_stats _ ?y ?z ?w] => specialize (Hpre y z w) end.
  destruct Hpre as (t & c2 & -> & Hc2 & Hok2 & Hm2 & Hh2 & Hp2 & Hot2). cbn [mbind option_bind]. rewrite Hc2.
  cbn [mbind option_bind]. destruct (payload_fields _ _ Hp2) as (_ & Hr2 & Hf2 & Hc & _). cbn in Hr2, Hc.
  assert (Hu2 : in_use (slab c2) a (ith c2 a)).
  { eapply in_use_held; [done|]. eapply in_use_same; [|done]. 
    destruct (payload_use _ _ Hp2) as (H1 & H2 & H3), (clear_linked_use (ith c a)) as (H4 & H5 & H6).
    split_and!; congruence. }
  assert (Hcls : clsid_of (ith c2 a) = clsid_of (ith c a)) by (unfold clsid_of, ITEM_clsid; by rewrite Hc).
  assert (Hl2 : has_flag (ith c2 a) ITEM_LINKED = false).
  { unfold has_flag. rewrite Hf2. apply (has_flag_clear_same ITEM_LINKED). }
  destruct (do_item_remove_ok c2 _ a Hok2 Hu2) as (c' & -> & Hok' & Ht' & Hot' & Hfr); [by rewrite Hr2| |].
  { intros _. split; [done|].
    unfold free_room in *. rewrite Hcls. unfold cls. by destruct Hh2 as (_ & -> & _). }
  exists c'. rewrite Ht'. split_and!; [done|done|done|by eapply others_trans|]. rewrite Hr2, Hcls in Hfr.
  destruct (refcount (ith c a) =? 1).
  - destruct Hfr as [Hpl Hfr]. destruct Hh2 as (Hpl2 & _ & Hh2). split; [congruence|]. intros i b Hi.
    rewrite Hfr; [by rewrite Hh2|]. unfold valid. by rewrite Hpl2.
  - destruct Hfr as [Hh' Hi']. rewrite Hi'. split_and!; [by eapply same_held_trans|done| |done|done].
    eapply in_use_held; [done|]. by eapply in_use_same; [|exact Hu2].
Qed.

(** ** Moving an item *)

(** Any change of the header of an item that is in no queue. *)
Lemma free_header_ok c L X a f :
  cache_ok c L (a :: X) → unqueued L a → in_use (slab c) a (ith c a) →
  in_use (slab c) a (f (ith c a)) →
  cache_ok (set_item c a f) L (a :: X) ∧
  in_use (slab (set_item c a f)) a (f (ith c a)) ∧ same_held (slab c) (slab (set_item c a f)).
Proof.
  intros Hok Hun Hu Hu'. pose proof (set_item_held c L _ a f Hok Hu) as Hh.
  split_and!; [|by eapply in_use_held|done].
  assert (Hq : ∀ i b, (i < LARGEST_ID)%nat → b ∈ L i → ith (set_item c a f) b = ith c b).
  { intros i b Hi Hb. apply ith_set_ne. intros <-. by apply (Hun i). }
  pose proof Hok as []. split; simpl; try done.
  - apply (heap_slabs Hok). intros b Hb. rewrite hdr_upd_ne; [done|]. by intros ->.
  - intros i Hi. destruct (co_queue0 i Hi) as [Hd Ht Hnd Hsz Hit]. split; try done.
    + eapply dll_frame; [|done]. intros b Hb. specialize (Hq i b Hi Hb). unfold ith in Hq. by rewrite Hq.
    + intros b Hb. rewrite (Hq i b Hi Hb). destruct (Hit b Hb). split; [by eapply in_use_held|done].
  - intros i b Hi Hb HX. rewrite (Hq i b Hi Hb). by apply (co_mapped0 i).
  - intros k e Hk HX. destruct (co_map0 k e Hk HX) as (i & Hi & Hin & Hke). exists i.
    by rewrite (Hq i _ Hi Hin).
Qed.

Lemma set_item_twice c a f g : set_item (set_item c a f) a g = set_item c a (λ i, g (f i)).
Proof.
  unfold set_item, with_heap, with_slab, with_mem, mem_of_cache. simpl. do 2 f_equal.
  unfold upd. rewrite insert_insert_eq. f_equal. f_equal. apply hdr_upd_eq.
Qed.

(** The same items are linked. *)
Definition same_members (L L' : nat → list Z) : Prop :=
  ∀ b, (∃ i, (i < LARGEST_ID)%nat ∧ b ∈ L' i) ↔ (∃ i, (i < LARGEST_ID)%nat ∧ b ∈ L i).

Lemma cut_unqueued c L X a id l1 l2 :
  cache_ok c L X → (id < LARGEST_ID)%nat → L id = l1 ++ a :: l2 → unqueued (set_list L id (l1 ++ l2)) a.
Proof.
  intros Hok Hid HL i Hi Hin. unfold set_list in Hin. case_decide as Hdec.
  - pose proof (q_nodup _ _ _ (co_queue _ _ _ Hok id Hid)) as Hnd. rewrite HL in Hnd.
    apply list.NoDup_app in Hnd as (_ & Hdj & [Hn2 _]%list.NoDup_cons).
    apply elem_of_app in Hin as [Hin|Hin]; [|done]. apply (Hdj a Hin). by left.
  - apply Hdec. apply (queue_unique Hok i id a); try done. rewrite HL, elem_of_app, elem_of_cons. auto.
Qed.

(** The header is changed on the way, or not. *)
Definition change_item (c : cache) (a : Z) (f : option (stritem → stritem)) : cache :=
  match f with None => c | Some f => set_item c a f end.
Definition change_header (f : option (stritem → stritem)) (it : stritem) : stritem :=
  match f with None => it | Some f => f it end.

(** Out of its queue and to the head of the one its header then names. *)
Lemma relink_ok c L a id l1 l2 fo :
  cache_ok c L [] → (id < LARGEST_ID)%nat → L id = l1 ++ a :: l2 →
  let f := change_header fo in
  (∀ it, payload it = payload (ith c a) → in_use (slab c) a (f it) ∧
     has_flag (f it) ITEM_LINKED = has_flag it ITEM_LINKED ∧ refcount (f it) = refcount it ∧ key (f it) = key it) →
  ∃ c2 c' L', do_item_unlink_q c a = Some c2 ∧ do_item_link_q (change_item c2 a fo) a = Some c' ∧
    cache_ok c' L' [] ∧ same_members L L' ∧ table c' = table c ∧ same_held (slab c) (slab c') ∧
    refcount (ith c' a) = refcount (ith c a) ∧ key (ith c' a) = key (ith c a) ∧
    (∀ b i, b ≠ a → b ∈ L i → b ∈ L' i) ∧ (L' id = l1 ++ l2 ∨ L' id = a :: l1 ++ l2).
Proof.
  intros Hok Hid HL f Hf. assert (Ha : a ∈ L id) by (rewrite HL, elem_of_app, elem_of_cons; auto).
  destruct (queue_use Hok id a Hid Ha) as [Hu Hqa]. destruct (linked_queued c L a id Hok Hid Ha) as [Hl Hr Hm].
  pose proof (cut_unqueued c L [] a id l1 l2 Hok Hid HL) as Hun.
  destruct (unlink_q_ok c L [] a id l1 l2 Hok Hid HL) as (c2 & Hc2 & Hok2 & Ht2 & Hh2 & Hp2).
  destruct (Hf _ (Hp2 a)) as (Huf & Hlf & Hrf & Hkf). set (L1 := set_list L id (l1 ++ l2)) in *.
  assert (Hu2 : in_use (slab c2) a (ith c2 a)).
  { eapply in_use_held; [exact Hh2|]. eapply in_use_same; [|exact Hu]. by apply payload_use, Hp2. }
  set (c3 := change_item c2 a fo).
  assert (H3 : cache_ok c3 L1 [a] ∧ same_held (slab c2) (slab c3) ∧ ith c3 a = f (ith c2 a) ∧ table c3 = table c2).
  { unfold c3, change_item, f. destruct fo as [g|]; simpl; [|by split_and!].
    destruct (free_header_ok c2 L1 [] a g Hok2 Hun Hu2) as (? & _ & ?); [by eapply in_use_held|].
    by rewrite ith_set_eq. }
  destruct H3 as (Hok3 & Hh3 & Hi3 & Ht3). assert (Hu3 : in_use (slab c3) a (ith c3 a)).
  { rewrite Hi3. eapply in_use_held; [exact Hh3|]. by eapply in_use_held; [exact Hh2|]. }
  destruct (link_q_ok c3 L1 [a] a) as (c' & Hc' & Hok4 & Ht4 & Hh4 & Hp4); try done; [by left|].
  destruct (payload_fields _ _ (Hp2 a)) as (Hk2 & Hr2 & Hf2 & _), (payload_fields _ _ (Hp4 a)) as (Hk4 & Hr4 & Hf4 & _).
  rewrite Hi3 in Hk4, Hr4, Hf4. set (q := qid c3 a) in *.
  assert (Hq : (q < LARGEST_ID)%nat) by by apply qid_lt.
  assert (Htab : table c' = table c) by congruence.
  assert (Hmem : ∀ b i, b ≠ a → b ∈ L i → b ∈ set_list L1 q (a :: L1 q) i).
  { intros b i Hne Hb. assert (Hb1 : b ∈ L1 i).
    { unfold L1, set_list. case_decide; [subst i|done]. rewrite HL in Hb.
      rewrite elem_of_app in *. rewrite elem_of_cons in Hb. naive_solver. }
    unfold set_list. case_decide; [subst i; by right|done]. }
  eexists c2, c', _. assert (Hid' : set_list L1 q (a :: L1 q) id = l1 ++ l2 ∨ set_list L1 q (a :: L1 q) id = a :: l1 ++ l2).
  { assert (L1 id = l1 ++ l2) as HL1 by (unfold L1, set_list; by rewrite decide_True).
    unfold set_list. case_decide as Hq'; [right; by rewrite <- Hq', HL1|by left]. }
  split_and!; [done|done| | |done| | | |exact Hmem|exact Hid']; [|..|congruence|congruence].
  - apply (cache_ok_close _ _ _ a Hok4).
    + intros _ _ _ _. split; [|rewrite Hr4, Hrf, Hr2; done|rewrite Htab, Hk4, Hkf, Hk2; done].
      unfold has_flag in *. rewrite Hf4, Hlf. by rewrite Hf2.
    + intros k Hk _. rewrite Htab in Hk. exists q. unfold set_list at 1. rewrite decide_True by done.
      split_and!; [done|by left|]. rewrite Hk4, Hkf, Hk2.
      by destruct (co_map _ _ _ Hok k _ Hk) as (i & _ & _ & ?); [apply not_elem_of_nil|].
  - intros b. split; intros (i & Hi & Hb).
    + unfold set_list at 1 in Hb. case_decide; [subst i; apply elem_of_cons in Hb as [->|Hb]; [by eauto|]|].
      all: unfold L1, set_list in Hb; case_decide; [subst id|by eauto].
      all: eexists; split; [done|]; rewrite HL; rewrite elem_of_app in *; rewrite elem_of_cons; naive_solver.
    + destruct (decide (b = a)) as [->|Hne].
      { exists q. split; [done|]. unfold set_list at 1. rewrite decide_True by done. by left. }
      exists i. split; [done|by apply Hmem].
  - eapply same_held_trans; [apply Hh2|]. eapply same_held_trans; [apply Hh3|done].
Qed.

(** What a fetch leaves as it was. *)
Record touched (c c' : cache) (L L' : nat → list Z) (a : Z) : Prop := {
  t_members : same_members L L';
  t_table : table c' = table c;
  t_held : same_held (slab c) (slab c');
  t_key : key (ith c' a) = key (ith c a)
}.

Lemma same_members_refl L : same_members L L.
Proof. done. Qed.

(** A header change of a linked item that keeps its place. *)
Lemma mark_ok c L a id f :
  cache_ok c L [] → (id < LARGEST_ID)%nat → a ∈ L id →
  (∀ it, same_use it (f it) ∧ next (f it) = next it ∧ prev (f it) = prev it ∧ key (f it) = key it) →
  has_flag (f (ith c a)) ITEM_LINKED = has_flag (ith c a) ITEM_LINKED →
  1 ≤ refcount (f (ith c a)) < 2 ^ 16 →
  cache_ok (set_item c a f) L [] ∧ touched c (set_item c a f) L L a ∧ ith (set_item c a f) a = f (ith c a).
Proof.
  intros Hok Hid Ha Hf Hfl Hr. destruct (queue_use Hok id a Hid Ha) as [Hu _].
  destruct (Hf (ith c a)) as (Hs & Hn & Hp & Hk). pose proof (ith_set_eq c a f) as Hi. split_and!; [|split|done].
  - apply (set_item_ok Hok); try done. intros _ M []. split; [congruence|done|by rewrite Hk].
  - apply same_members_refl.
  - done.
  - by eapply set_item_held.
  - by rewrite Hi.
Qed.

Lemma touched_trans c1 c2 c3 L1 L2 L3 a :
  touched c1 c2 L1 L2 a → touched c2 c3 L2 L3 a → touched c1 c3 L1 L3 a.
Proof.
  intros [M1 T1 H1 K1] [M2 T2 H2 K2]. split; [|congruence|by eapply same_held_trans|congruence].
  intros b. by rewrite (M2 b), (M1 b).
Qed.

Lemma members_in L L' a id :
  same_members L L' → (id < LARGEST_ID)%nat → a ∈ L id → ∃ id', (id' < LARGEST_ID)%nat ∧ a ∈ L' id'.
Proof. intros Hm Hid Ha. apply Hm. eauto. Qed.

Lemma set_time_keeps v it :
  same_use it (set_time v it) ∧ next (set_time v it) = next it ∧ prev (set_time v it) = prev it ∧
  key (set_time v it) = key it.
Proof. done. Qed.

(** The class of an item that moves to the warm segment. *)
Lemma warm_id x :
  0 ≤ x < 256 → 0 ≤ Z.lor (Z.ldiff x 192) WARM_LRU < 256 ∧
  Z.ldiff (Z.lor (Z.ldiff x 192) WARM_LRU) 192 = Z.ldiff x 192.
Proof.
  intros Hx. assert (Hall : Forall (λ x, 0 ≤ Z.lor (Z.ldiff x 192) WARM_LRU < 256 ∧
    Z.ldiff (Z.lor (Z.ldiff x 192) WARM_LRU) 192 = Z.ldiff x 192) (seqZ 0 256)) by by_decide.
  rewrite list.Forall_forall in Hall. apply Hall, elem_of_seqZ. lia.
Qed.

Definition to_warm (it : stritem) : stritem :=
  clear_flag ITEM_ACTIVE (set_slabs_clsid (Z.lor (ITEM_clsid it) WARM_LRU) it).

Lemma to_warm_use s a it : in_use s a it → in_use s a (to_warm it).
Proof.
  intros [Hv Hh Hs Hc Hid]. destruct (warm_id _ Hid) as [Hr He].
  assert (Hcl : clsid_of (to_warm it) = clsid_of it).
  { unfold clsid_of. f_equal. exact He. }
  split; rewrite ?Hcl; try done.
  - unfold to_warm. by rewrite has_flag_clear_other.
  - unfold to_warm. by rewrite has_flag_clear_other.
Qed.

Lemma payload_in_use s a it it' : payload it' = payload it → in_use s a it → in_use s a it'.
Proof. intros Hp. by apply in_use_same, payload_use. Qed.

(** [do_item_update] moves the item at most to the head of a queue of its class. *)
Lemma do_item_update_ok c L a id :
  cache_ok c L [] → (id < LARGEST_ID)%nat → a ∈ L id →
  ∃ c' L', do_item_update c a = Some c' ∧ cache_ok c' L' [] ∧ touched c c' L L' a ∧
    refcount (ith c' a) = refcount (ith c a).
Proof.
  intros Hok Hid Ha. destruct (queue_use Hok id a Hid Ha) as [Hu _].
  pose proof (linked_queued c L a id Hok Hid Ha) as [Hl Hr _].
  destruct (mark_ok c L a id (set_time now) Hok Hid Ha) as (Hok1 & Ht1 & Hi1); try done.
  set (c1 := set_item c a (set_time now)) in *.
  assert (Hrefl : touched c c L L a) by (split; [apply same_members_refl|done|by split_and!|done]).
  apply list_elem_of_split in Ha as (l1 & l2 & HL).
  assert (Hr1 : refcount (ith c1 a) = refcount (ith c a)) by by rewrite Hi1.
  assert (Hu1 : in_use (slab c1) a (ith c1 a)).
  { eapply in_use_held; [apply Ht1|]. rewrite Hi1. by eapply in_use_same; [|exact Hu]. }
  assert (Hre : ∀ fo, let f := change_header fo in (∀ it, payload it = payload (ith c1 a) → in_use (slab c1) a (f it) ∧
       has_flag (f it) ITEM_LINKED = has_flag it ITEM_LINKED ∧ refcount (f it) = refcount it ∧ key (f it) = key it) →
    ∃ c2 c' L', do_item_unlink_q c1 a = Some c2 ∧ do_item_link_q (change_item c2 a fo) a = Some c' ∧
      cache_ok c' L' [] ∧ touched c c' L L' a ∧ refcount (ith c' a) = refcount (ith c a)).
  { intros fo f Hf. destruct (relink_ok c1 L a id l1 l2 fo Hok1 Hid HL Hf) as (c2 & c' & L' & H2 & H' & Hok' & ? & ? & ? & ? & ? & _ & _).
    exists c2, c', L'. split_and!; try done; [|congruence]. by eapply touched_trans; [exact Ht1|]. }
  unfold do_item_update. fold c1. destruct (lru_segmented st).
  - rewrite (u_slabbed _ _ _ Hu), Hl. cbn [negb assert_ mbind option_bind].
    destruct (_ && _).
    + destruct (Hre (Some to_warm)) as (c2 & c' & L' & -> & Hc' & Hrest).
      { intros it Hit. split_and!; [|simpl; unfold to_warm; by rewrite has_flag_clear_other|done..].
        apply to_warm_use. by eapply payload_in_use. }
      cbn [mbind option_bind]. rewrite !set_item_twice. eexists c', L'. split; [|done]. done.
    + destruct (stale _); [exists c1, L|exists c, L]; by split_and!.
  - destruct (stale _); [|exists c, L; by split_and!].
    rewrite (u_slabbed _ _ _ Hu), Hl. cbn [negb assert_ mbind option_bind].
    destruct (Hre None) as (c2 & c' & L' & -> & Hc' & Hrest).
    { intros it Hit. split_and!; [|done..]. by eapply payload_in_use. }
    cbn [mbind option_bind]. by exists c', L'.
Qed.

(** Only a fetch fills the bump buffer. *)
Lemma link_q_bumps c a c' : do_item_link_q c a = Some c' → bumps c' = bumps c.
Proof.
  unfold do_item_link_q, assert_. intros H.
  repeat (case_match; simplify_eq/=); done.
Qed.

Lemma unlink_q_bumps c a c' : do_item_unlink_q c a = Some c' → bumps c' = bumps c.
Proof.
  unfold do_item_unlink_q, assert_. intros H. repeat (case_match; simplify_eq/=); done.
Qed.

Lemma do_item_update_bumps c a c' : do_item_update c a = Some c' → bumps c' = bumps c.
Proof.
  unfold do_item_update. destruct (lru_segmented st).
  - destruct (assert_ _); cbn [mbind option_bind]; [|intros [=]]. destruct (has_flag _ ITEM_LINKED); [|by intros [= <-]].
    destruct (_ && _); [|destruct (stale _); by intros [= <-]].
    destruct (do_item_unlink_q _ a) as [c2|] eqn:H2; cbn [mbind option_bind]; [|intros [=]].
    intros ->%link_q_bumps. simpl. by apply unlink_q_bumps in H2.
  - destruct (stale _); [|by intros [= <-]]. destruct (assert_ _); cbn [mbind option_bind]; [|intros [=]].
    destruct (has_flag _ ITEM_LINKED); [|by intros [= <-]].
    destruct (do_item_unlink_q _ a) as [c2|] eqn:H2; cbn [mbind option_bind]; [|intros [=]].
    intros ->%link_q_bumps. by apply unlink_q_bumps in H2.
Qed.

Lemma add_flag_keeps f it :
  Z.land f ITEM_SLABBED = 0 → Z.land f ITEM_CHUNKED = 0 →
  same_use it (add_flag f it) ∧ next (add_flag f it) = next it ∧ prev (add_flag f it) = prev it ∧
  key (add_flag f it) = key it.
Proof. intros ??. split; [|done]. split_and!; [done|..]; by apply has_flag_add_other. Qed.

Lemma clear_flag_keeps f it :
  Z.land f ITEM_SLABBED = 0 → Z.land f ITEM_CHUNKED = 0 →
  same_use it (clear_flag f it) ∧ next (clear_flag f it) = next it ∧ prev (clear_flag f it) = prev it ∧
  key (clear_flag f it) = key it.
Proof. intros ??. split; [|done]. split_and!; [done|..]; by apply has_flag_clear_other. Qed.

(** References the bump buffer has gained. *)
Definition new_bumps (c c' : cache) : Z := Z.of_nat (length (bumps c')) - Z.of_nat (length (bumps c)).

Lemma bump_ok c L a id hv space :
  cache_ok c L [] → (id < LARGEST_ID)%nat → a ∈ L id → refcount (ith c a) + 1 < 2 ^ 16 →
  let '(c', ok) := lru_bump_async c a hv space in
  cache_ok c' L [] ∧ touched c c' L L a ∧ refcount (ith c' a) = refcount (ith c a) + new_bumps c c'.
Proof.
  intros Hok Hid Ha Hr. pose proof (linked_queued c L a id Hok Hid Ha) as [Hl Hr1 _].
  unfold lru_bump_async, refcount_incr, refcount_decr.
  set (f := λ i, set_refcount (u16 (refcount i + 1)) i). set (g := λ i, set_refcount (u16 (refcount i - 1)) i).
  assert (Hrf : refcount (f (ith c a)) = refcount (ith c a) + 1) by (apply Z.mod_small; lia).
  assert (Hrg : refcount (g (f (ith c a))) = refcount (ith c a)).
  { unfold g. cbn [refcount set_refcount]. rewrite Hrf. unfold u16. rewrite Z.mod_small; lia. }
  destruct (mark_ok c L a id f Hok Hid Ha) as (Hok1 & Ht1 & Hi1); try done; [lia|].
  destruct space.
  - split_and!; [by apply (stats_ok (set_item c a f))|by destruct Ht1|].
    change (ith (with_bumps _ _) a) with (ith (set_item c a f) a). rewrite Hi1, Hrf.
    unfold new_bumps. simpl. rewrite length_app. simpl. lia.
  - destruct (mark_ok (set_item c a f) L a id g Hok1 Hid Ha) as (Hok2 & Ht2 & Hi2); try done;
      [rewrite Hi1; lia|].
    split_and!; [done|by eapply touched_trans|]. rewrite Hi2, Hi1, Hrg. unfold new_bumps. simpl. lia.
Qed.

Lemma hit_ok c L a id hv conn :
  cache_ok c L [] → (id < LARGEST_ID)%nat → a ∈ L id → refcount (ith c a) + 1 < 2 ^ 16 →
  ∃ c' L', hit c a hv conn = Some c' ∧ cache_ok c' L' [] ∧ touched c c' L L' a ∧
    refcount (ith c' a) = refcount (ith c a) + new_bumps c c'.
Proof.
  intros Hok Hid Ha Hr. pose proof (linked_queued c L a id Hok Hid Ha) as [Hl Hr1 _].
  assert (Hmark : ∀ f, Z.land f ITEM_SLABBED = 0 → Z.land f ITEM_CHUNKED = 0 → Z.land f ITEM_LINKED = 0 →
    let c1 := set_item c a (add_flag f) in
    cache_ok c1 L [] ∧ touched c c1 L L a ∧ refcount (ith c1 a) = refcount (ith c a)).
  { intros f H1 H2 H3. destruct (mark_ok c L a id (add_flag f) Hok Hid Ha) as (? & ? & Hi); try done.
    - intros it. by apply add_flag_keeps.
    - by apply has_flag_add_other.
    - split_and!; [done..|]. by rewrite Hi. }
  assert (Hupd : ∀ c1, cache_ok c1 L [] → touched c c1 L L a → refcount (ith c1 a) = refcount (ith c a) →
    bumps c1 = bumps c →
    ∃ c' L', do_item_update c1 a = Some c' ∧ cache_ok c' L' [] ∧ touched c c' L L' a ∧
      refcount (ith c' a) = refcount (ith c a) + new_bumps c c').
  { intros c1 Hok1 Ht1 Hrc1 Hb1. destruct (do_item_update_ok c1 L a id Hok1 Hid Ha) as (c' & L' & Hc' & Hok' & Ht' & Hr').
    exists c', L'. split_and!; try done; [by eapply touched_trans|]. apply do_item_update_bumps in Hc'.
    unfold new_bumps. rewrite Hc', Hb1. lia. }
  assert (Hnb : ∀ c1, bumps c1 = bumps c → new_bumps c c1 = 0) by (intros ? Hb; unfold new_bumps; rewrite Hb; lia).
  unfold hit. destruct (lru_segmented st).
  - destruct (has_flag (ith c a) ITEM_ACTIVE).
    { exists c, L. split_and!; [done|done|split; [done|done|by split_and!|done]|rewrite Hnb by done; lia]. }
    destruct (has_flag (ith c a) ITEM_FETCHED); cbn [negb].
    2: { destruct (Hmark ITEM_FETCHED) as (? & ? & ?); try done. eexists _, L.
         split_and!; [done..|]. rewrite Hnb by done. lia. }
    destruct (Hmark ITEM_ACTIVE) as (Hok1 & Ht1 & Hrc1); try done.
    set (c1 := set_item c a (add_flag ITEM_ACTIVE)) in *.
    destruct (ITEM_lruid (ith c1 a) =? COLD_LRU); cbn [negb]; [|by apply Hupd].
    destruct conn as [space|]; [|exists c1, L; split_and!; try done; rewrite Hnb by done; lia].
    pose proof (bump_ok c1 L a id hv space Hok1 Hid Ha) as Hb.
    destruct (lru_bump_async c1 a hv space) as [c2 ok].
    destruct Hb as (Hok2 & Ht2 & Hr2); [lia|]. rewrite Hrc1 in Hr2.
    assert (Ht12 : touched c c2 L L a) by by eapply touched_trans.
    change (new_bumps c1 c2) with (new_bumps c c2) in Hr2.
    destruct ok; [exists c2, L; by split_and!|].
    pose proof (linked_queued c2 L a id Hok2 Hid Ha) as [Hl2 Hr2' _].
    destruct (mark_ok c2 L a id (clear_flag ITEM_ACTIVE) Hok2 Hid Ha) as (Hok3 & Ht3 & Hi3); try done.
    { intros it. by apply clear_flag_keeps. }
    { by apply has_flag_clear_other. }
    eexists _, L. split_and!; [done|done|by eapply touched_trans|]. rewrite Hi3. done.
  - destruct (Hmark ITEM_FETCHED) as (? & ? & ?); try done. by apply Hupd.
Qed.

(** An item that is not to be found any more. *)
Definition gone (it : stritem) : bool :=
  item_is_flushed it || (negb (exptime it =? 0) && (exptime it <=? now)).

(** The table and the queues say the same. *)
Lemma find_linked c L k :
  cache_ok c L [] →
  match assoc_find (table c) k (hash k) with
  | None => amap (table c) !! k = None
  | Some e => amap (table c) !! k = Some e ∧ ∃ id, (id < LARGEST_ID)%nat ∧ it_id e ∈ L id ∧ key (ith c (it_id e)) = k
  end.
Proof.
  intros Hok. rewrite (find_amap hash) by apply (co_table _ _ _ Hok).
  destruct (amap (table c) !! k) as [e|] eqn:Hk; [|done]. split; [done|].
  apply (co_map _ _ _ Hok k e Hk), not_elem_of_nil.
Qed.

(** C21: [do_item_get] is a lookup in the cache's map with lazy expiry.  A key that
    is not in the cache is not found, and nothing changes.  An item that has expired
    or been flushed is removed from the cache and not found.  Any other item is
    returned with one more reference, which keeps its chunk from being freed, and
    whatever the fetch does to the LRU queues, the same items stay linked, in a
    well-formed cache, and every entry added to the bump buffer has a reference of
    its own.  No assertion fails. *)
Theorem do_item_get_ok c L k conn do_update :
  cache_ok c L [] →
  match amap (table c) !! k with
  | None => do_item_get c k (hash k) conn do_update = Some (c, 0)
  | Some e =>
      let a := it_id e in
      refcount (ith c a) + 2 < 2 ^ 16 → free_room c a →
      ∃ c' r L', do_item_get c k (hash k) conn do_update = Some (c', r) ∧ cache_ok c' L' [] ∧
        if gone (ith c a) then r = 0 ∧ amap (table c') = delete k (amap (table c))
        else r = a ∧ a ≠ 0 ∧ touched c c' L L' a ∧ in_use (slab c') a (ith c' a) ∧
          refcount (ith c' a) = refcount (ith c a) + 1 + new_bumps c c'
  end.
Proof.
  intros Hok. unfold do_item_get. pose proof (find_linked c L k Hok) as Hf.
  destruct (assoc_find (table c) k (hash k)) as [e|]; [|by rewrite Hf].
  destruct Hf as (Hk & id & Hid & Ha & Hkey). rewrite Hk. set (a := it_id e) in *. cbv zeta. intros Hr Hroom.
  destruct (queue_use Hok id a Hid Ha) as [Hu _]. pose proof (linked_queued c L a id Hok Hid Ha) as [Hl Hr1 _].
  unfold refcount_incr. set (f := λ i, set_refcount (u16 (refcount i + 1)) i).
  assert (Hrf : refcount (f (ith c a)) = refcount (ith c a) + 1) by (apply Z.mod_small; lia).
  destruct (mark_ok c L a id f Hok Hid Ha) as (Hok1 & Ht1 & Hi1); try done; [lia|].
  set (c1 := set_item c a f) in *. rewrite Hi1. change (item_is_flushed (f (ith c a))) with (item_is_flushed (ith c a)).
  change (exptime (f (ith c a))) with (exptime (ith c a)). fold (gone (ith c a)).
  destruct (gone (ith c a)).
  - pose proof Ha as (l1 & l2 & HL)%list_elem_of_split.
    assert (Hk1 : key (ith c1 a) = k) by by rewrite Hi1.
    destruct (do_item_unlink_ok c1 L a id l1 l2 Hok1 Hid HL) as (c2 & Hc2 & Hok2 & Hm2 & _ & Hst).
    { unfold free_room in *. rewrite Hi1. done. }
    rewrite Hk1 in Hc2, Hm2. rewrite Hc2. cbn [mbind option_bind].
    rewrite Hi1, Hrf, (proj2 (Z.eqb_neq _ _)) in Hst by lia. destruct Hst as (Hh2 & Hr2 & Hu2 & Hl2 & Hcl2).
    destruct (do_item_remove_ok c2 _ a Hok2 Hu2) as (c3 & -> & Hok3 & Ht3 & _ & _); [lia| |].
    { intros _. split; [done|]. unfold free_room, cls in *. rewrite Hcl2.
      by destruct Hh2 as (_ & -> & _). }
    cbn [mbind option_bind]. eexists c3, 0, _. split_and!; [done|done|done|]. by rewrite Ht3.
  - destruct do_update.
    + destruct (hit_ok c1 L a id (hash k) conn Hok1 Hid Ha) as (c2 & L2 & -> & Hok2 & Ht2 & Hr2); [rewrite Hi1; lia|].
      cbn [mbind option_bind]. exists c2, a, L2. rewrite Hi1, Hrf in Hr2.
      destruct (members_in L L2 a id (t_members _ _ _ _ _ Ht2) Hid Ha) as (i2 & Hi2 & Ha2).
      split_and!; try done; [by apply (use_nonzero Hok)|by eapply touched_trans|by apply (queue_use Hok2 i2)].
    + exists c1, a, L. split_and!; try done; [by apply (use_nonzero Hok)|by apply (queue_use Hok1 id)|].
      rewrite Hi1, Hrf. unfold new_bumps. simpl. lia.
Qed.

(** Replacing a linked item by a new one of the same key leaves the key in the
    cache, with the new item, at the head of its class's LRU queue and referenced by
    its link; the old item leaves its queue, and its chunk is freed exactly when the
    link was its last reference.  No assertion fails. *)
Theorem do_item_replace_ok c L a b id l1 l2 :
  cache_ok c L [] → (id < LARGEST_ID)%nat → L id = l1 ++ a :: l2 → free_room c a →
  in_use (slab c) b (ith c b) → has_flag (ith c b) ITEM_LINKED = false →
  0 ≤ refcount (ith c b) < 2 ^ 16 - 1 → key (ith c b) = key (ith c a) →
  let L1 := set_list L id (l1 ++ l2) in
  ∃ c', do_item_replace c a b (hash (key (ith c a))) = Some c' ∧
    cache_ok c' (set_list L1 (qid c b) (b :: L1 (qid c b))) [] ∧
    amap (table c') = <[key (ith c a) := mkItem (key (ith c a)) b]> (amap (table c)) ∧
    refcount (ith c' b) = refcount (ith c b) + 1 ∧
    (held (slab c') (clsid_of (ith c a)) a ↔ refcount (ith c a) ≠ 1).
Proof.
  intros Hok Hid HL Hroom Hub Hlb Hrb Hkb L1.
  assert (Ha : a ∈ L id) by (rewrite HL, elem_of_app, elem_of_cons; auto).
  destruct (queue_use Hok id a Hid Ha) as [Hu _]. pose proof (linked_queued c L a id Hok Hid Ha) as [Hla _ _].
  assert (Hne : b ≠ a) by (intros ->; congruence).
  unfold do_item_replace. rewrite (u_slabbed _ _ _ Hu). cbn [negb assert_ mbind option_bind].
  destruct (do_item_unlink_ok c L a id l1 l2 Hok Hid HL Hroom) as (c2 & -> & Hok2 & Hm2 & Hot2 & Hst).
  cbn [mbind option_bind]. destruct (Hot2 b Hne Hub) as [Hp2 Hu2].
  destruct (payload_fields _ _ Hp2) as (Hk2 & Hr2 & Hf2 & Hc2 & _).
  destruct (do_item_link_ok c2 L1 b) as (c' & Hc' & Hok' & Hm' & Hr' & Hh'); try done.
  { unfold has_flag in *. by rewrite Hf2. }
  { by rewrite Hr2. }
  { rewrite Hk2, Hkb, Hm2. apply lookup_delete_eq. }
  rewrite Hk2, Hkb in Hc', Hm'. exists c'. rewrite Hc'.
  assert (Hq : qid c2 b = qid c b) by (unfold qid; by rewrite Hc2). rewrite Hq in Hok'.
  split_and!; try done.
  - rewrite Hm', Hm2. apply insert_delete_eq.
  - by rewrite Hr', Hr2.
  - pose proof Hu as [Hv Hh _ _ _]. destruct (Z.eqb_spec (refcount (ith c a)) 1) as [H1|H1].
    + destruct Hst as [Hpl Hst]. destruct Hh' as (_ & _ & Hh'). rewrite Hh'; [|unfold valid; by rewrite Hpl].
      rewrite Hst by done. naive_solver.
    + destruct Hst as (Hh2 & _). destruct (same_held_trans _ _ _ Hh2 Hh') as (_ & _ & Hh3).
      rewrite Hh3 by done. naive_solver.
Qed.

End Items.

(** ** Witnesses: two items of the same key, one of them linked *)

Definition item_a : Z := 4096 + 4 * 192.
Definition item_b : Z := 4096 + 3 * 192.
Definition taken2 : slab_state := (pop_free taken 2 100).1.

Definition some_item (i : stritem) : stritem :=
  mkStritem 0 0 0 5 0 30 1 0 0 (2 + COLD_LRU) 1 0 [1].

Definition two_items : slab_state :=
  with_mem taken2 (upd item_b some_item (upd item_a some_item (chunks_mem taken2))).

Definition test_settings : item_settings := mkItemSettings small_settings true 0 0.

Definition empty_cache (s : slab_state) : cache :=
  let z := replicate 256 0 in mkCache small s z z z z 0 0 0 0 [].

Lemma empty_cache_ok st hash s :
  slabs_ok (slab_settings st) s → cache_ok st hash (empty_cache s) (λ _, []) [].
Proof.
  intros Hs. destruct (assoc_init_ok hash 1 1 small eq_refl) as [Ht Hm]. split; try done.
  - intros id Hid. unfold LARGEST_ID in Hid.
    assert (Hz : replicate 256 0 !!! id = 0) by by apply lookup_total_replicate_2.
    split; [exact Hz|exact Hz|constructor|exact Hz|by intros a ?%elem_of_nil].
Qed.

Lemma taken2_ok : slabs_ok small_settings taken2 ∧ held taken2 2 item_a ∧ held taken2 2 item_b.
Proof.
  destruct taken_ok as [Hok Hh]. assert (Hv : valid taken 2) by (vm_compute; lia).
  pose proof (alloc_pop small_settings taken 2 100 Hok Hv) as Hp.
  assert (Hr : (pop_free taken 2 100).2 = item_b) by by vm_compute.
  unfold taken2. destruct (pop_free taken 2 100) as [s' ret]. simpl in Hr. subst ret.
  destruct Hp as (Hok' & _ & _ & Hp). change (item_b =? 0) with false in Hp.
  destruct Hp as (_ & _ & Hheld & _). split; [exact Hok'|].
  split; apply Hheld; try exact Hv; [by left|by right].
Qed.

Lemma fill_chunks st s id a b f :
  slabs_ok st s → valid s id → held s id a → held s id b →
  let s' := with_mem s (upd b f (upd a f (chunks_mem s))) in
  slabs_ok st s' ∧ held s' id a ∧ held s' id b.
Proof.
  intros Hok Hv Ha Hb. destruct (slabs_frame st s (upd b f (upd a f (chunks_mem s)))) as [Hok' Hf]; [done| |].
  { intros i x Hi Hx. rewrite !hdr_upd_ne; [done|..]; intros <-.
    - by apply (held_not_free st s id i a).
    - by apply (held_not_free st s id i b). }
  split; [done|]. unfold held. by rewrite Hf.
Qed.

Lemma two_items_ok :
  slabs_ok small_settings two_items ∧ held two_items 2 item_a ∧ held two_items 2 item_b.
Proof.
  destruct taken2_ok as (Hok & Ha & Hb).
  apply (fill_chunks small_settings taken2 2 item_a item_b some_item Hok); [vm_compute; lia|exact Ha|exact Hb].
Qed.

Definition start_cache : cache := empty_cache two_items.

Lemma start_use a : a = item_a ∨ a = item_b → in_use (slab start_cache) a (ith start_cache a).
Proof.
  destruct two_items_ok as (_ & Ha & Hb).
  intros [->| ->]; split; try (by vm_compute); try exact Ha; try exact Hb; vm_compute; lia.
Qed.

Definition linked_cache : cache :=
  default start_cache (do_item_link test_settings 9 start_cache item_a (hash0 [1])).

Lemma linked_cache_ok :
  cache_ok test_settings hash0 linked_cache (set_list (λ _, []) 130 [item_a]) [] ∧
  amap (table linked_cache) = {[ [1] := mkItem [1] item_a ]} ∧
  same_held (slab start_cache) (slab linked_cache).
Proof.
  destruct (assoc_init_ok hash0 1 1 small eq_refl) as [_ Hm].
  destruct (do_item_link_ok test_settings hash0 9 start_cache (λ _, []) item_a) as (c' & Hc' & Hok & Hm' & _ & Hh).
  - apply empty_cache_ok, two_items_ok.
  - apply start_use. by left.
  - by vm_compute.
  - by vm_compute.
  - change (table start_cache) with small. by rewrite Hm.
  - assert (Hk : key (ith start_cache item_a) = [1]) by by vm_compute.
    assert (Hq : qid start_cache item_a = 130%nat) by by vm_compute.
    rewrite Hk in Hc', Hm'. rewrite Hq in Hok. unfold linked_cache. rewrite Hc'.
    change (default start_cache (Some c')) with c'.
    split; [exact Hok|]. split; [|exact Hh]. rewrite Hm'. change (table start_cache) with small. by rewrite Hm.
Qed.

Lemma do_item_get_ok_witness :
  ∃ c', do_item_get test_settings 9 linked_cache [1] (hash0 [1]) None false = Some (c', item_a) ∧
    refcount (ith c' item_a) = 3.
Proof.
  destruct linked_cache_ok as (Hok & Hm & _).
  pose proof (do_item_get_ok test_settings hash0 9 linked_cache _ [1] None false Hok) as Hget.
  rewrite Hm, lookup_singleton_eq in Hget. cbv zeta in Hget. simpl it_id in Hget.
  destruct Hget as (c' & r & L' & Hg & _ & Hr); [by vm_compute|by vm_compute|].
  assert (Hgone : gone test_settings 9 (ith linked_cache item_a) = false) by (vm_compute; reflexivity).
  rewrite Hgone in Hr. destruct Hr as (-> & _ & _ & _ & _). exists c'. split; [exact Hg|].
  assert (Hc : (λ x, refcount (ith x.1 item_a)) <$>
    do_item_get test_settings 9 linked_cache [1] (hash0 [1]) None false = Some 3) by (vm_compute; reflexivity).
  rewrite Hg in Hc. injection Hc as Hc. exact Hc.
Defined.

Lemma do_item_replace_ok_witness :
  ∃ c', do_item_replace test_settings 9 linked_cache item_a item_b (hash0 [1]) = Some c' ∧
    amap (table c') !! [1] = Some (mkItem [1] item_b).
Proof.
  destruct linked_cache_ok as (Hok & Hm & Hh).
  assert (Hka : key (ith linked_cache item_a) = [1]) by (vm_compute; reflexivity).
  assert (Hkb : key (ith linked_cache item_b) = [1]) by (vm_compute; reflexivity).
  assert (Hub : in_use (slab linked_cache) item_b (ith linked_cache item_b)).
  { eapply in_use_held; [exact Hh|]. apply (in_use_same _ _ (ith start_cache item_b));
      [|apply (start_use item_b); by right].
    split; [vm_compute; reflexivity|]. split; vm_compute; reflexivity. }
  assert (Hroom : free_room linked_cache item_a) by (vm_compute; reflexivity).
  assert (Hfl : has_flag (ith linked_cache item_b) ITEM_LINKED = false) by (vm_compute; reflexivity).
  assert (Hrc : refcount (ith linked_cache item_b) = 1) by (vm_compute; reflexivity).
  pose proof (do_item_replace_ok test_settings hash0 9 linked_cache _ item_a item_b 130 [] [] Hok) as H.
  destruct H as (c' & Hc' & _ & Hm' & _); [unfold LARGEST_ID; lia|reflexivity|exact Hroom|exact Hub|exact Hfl
    |rewrite Hrc; lia|by rewrite Hka, Hkb|].
  rewrite Hka in Hc', Hm'. exists c'. split; [exact Hc'|]. rewrite Hm'. apply lookup_insert_eq.
Defined.
