(* ===== verification/SlabAutomove.v ===== *)
(** Which page to move: [extra/KVS-DRAM-Cache/slab_automove.c], with the functions of items.c
    and slabs.c that fill in the statistics it works on.

    The automover runs once a second.  It keeps, for every slab class, a window of the last
    samples of the class: the age of the oldest cold item, and whether the class evicted or
    grew.  It answers the class to take a page from and the class to give it to. *)

From S2P Require Import Prelude Item Slabs Assoc Items.

(** [struct window_data]: three [uint64_t]. *)
Record window_data := mkWindow { age : Z; dirty : Z; evicted : Z }.

Definition no_data : window_data := mkWindow 0 0 0.
#[global] Instance window_inhabited : Inhabited window_data := populate no_data.
#[global] Instance window_eq_dec : EqDecision window_data.
Proof. solve_decision. Defined.

Record item_stats_automove := mkItemStats { i_evicted : Z; outofmemory : Z; i_age : Z }.
Record slab_stats_automove := mkSlabStats { chunks_per_page : Z; free_chunks : Z; total_pages : Z }.

#[global] Instance item_stats_inhabited : Inhabited item_stats_automove := populate (mkItemStats 0 0 0).
#[global] Instance slab_stats_inhabited : Inhabited slab_stats_automove := populate (mkSlabStats 0 0 0).

(** [itemstats[i].evicted] and [itemstats[i].outofmemory], counters that nothing in the model of
    the items depends on, are arguments. *)
Definition fill_item_stats_automove (now : Z) (c : cache) (evictions oom : nat → Z) : list item_stats_automove :=
  (λ n,
     let hot := (n + Z.to_nat HOT_LRU)%nat in
     let cold := (n + Z.to_nat COLD_LRU)%nat in
     let t := tails c !!! cold in
     mkItemStats (evictions cold) (oom hot) (if t =? 0 then 0 else u32 (now - time (ith c t))))
  <$> seq 0 MAX_NUMBER_OF_SLAB_CLASSES.

Definition fill_slab_stats_automove (s : slab_state) : list slab_stats_automove :=
  (λ n, let p := slabclass s !!! n in mkSlabStats (perslab p) (sl_curr p) (slabs p))
  <$> seq 0 MAX_NUMBER_OF_SLAB_CLASSES.

(** [slab_automove]; the arrays [iam_after] and [sam_after] are filled at the start of every run
    and are arguments of it. *)
Record slab_automove := mkAutomove {
  windows : list window_data;
  window_size : Z;
  window_cur : Z;
  iam_before : list item_stats_automove;
  sam_before : list slab_stats_automove
}.

Definition MIN_PAGES_FOR_SOURCE : Z := 2.

(** [allocated]: whether the two allocations succeed.  *)
Definition slab_automove_init (allocated : bool) (wsize : Z) (iam : list item_stats_automove)
    (sam : list slab_stats_automove) : option slab_automove :=
  if allocated
  then Some (mkAutomove (replicate (Z.to_nat (u32 (wsize * 64))) no_data) wsize 0 iam sam)
  else None.

Definition window_sum (wd : list window_data) (w : window_data) : window_data :=
  foldl (λ w d, mkWindow (u64 (age w + age d)) (u64 (dirty w + dirty d)) (u64 (evicted w + evicted d))) w wd.

(** The variables of the loop over the classes. *)
Record pass_state := mkScan {
  wins : list window_data;
  oldest : Z;
  oldest_age : Z;
  youngest : Z;
  youngest_age : Z;
  youngest_evicting : bool
}.

Section Automove.
(** [CACHE_MODE == 3]: the class of the short-cuts is left alone. *)
Context (mode3 : bool).

(** The floating-point comparison of the youngest age with the oldest age times the ratio. *)
Context (outside : Z → Z → bool).

Definition first_class : nat := if mode3 then S POWER_SMALLEST else POWER_SMALLEST.

Section Run.
Context (a : slab_automove) (iam : list item_stats_automove) (sam : list slab_stats_automove).

(** [a->window_cur], after its increment. *)
Definition cur : Z := u32 (window_cur a + 1).

(** The index of [wd] in the array. *)
Definition cell (n : nat) : nat := Z.to_nat (Z.of_nat n * window_size a + cur mod window_size a).

(** The window of a class. *)
Definition segment (n : nat) (l : list window_data) : list window_data :=
  take (Z.to_nat (window_size a)) (drop (Z.to_nat (Z.of_nat n * window_size a)) l).

(** The sample of a class in this run. *)
Definition sample (n : nat) : window_data :=
  let w := no_data in
  let w :=
    if (0 <? i_evicted (iam !!! n) - i_evicted (iam_before a !!! n)) ||
       (0 <? outofmemory (iam !!! n) - outofmemory (iam_before a !!! n))
    then mkWindow (age w) 1 1 else w in
  let w :=
    if 0 <? total_pages (sam !!! n) - total_pages (sam_before a !!! n)
    then mkWindow (age w) 1 (evicted w) else w in
  mkWindow (i_age (iam !!! n)) (dirty w) (evicted w).

(** More than two and a half pages of free chunks; the comparison is in floating point, and
    exact on these numbers. *)
Definition can_reclaim (n : nat) : bool :=
  5 * chunks_per_page (sam !!! n) <? 2 * free_chunks (sam !!! n).

(** One round of the loop; [true] when it breaks. *)
Definition visit (n : nat) (s : pass_state) : pass_state * bool :=
  let l := <[cell n := no_data]> (wins s) in
  let w_sum := window_sum (segment n l) no_data in
  let l := <[cell n := sample n]> l in
  let s := mkScan l (oldest s) (oldest_age s) (youngest s) (youngest_age s) (youngest_evicting s) in
  let ag := age w_sum / window_size a in
  if can_reclaim n && (dirty w_sum =? 0) then (s, true)
  else
    let s :=
      if (oldest_age s <? ag) && (MIN_PAGES_FOR_SOURCE <? total_pages (sam !!! n))
      then mkScan l (Z.of_nat n) ag (youngest s) (youngest_age s) (youngest_evicting s) else s in
    let s :=
      if (ag <? youngest_age s) && (window_size a / 2 <? evicted w_sum)
      then mkScan l (oldest s) (oldest_age s) (Z.of_nat n) ag (negb (evicted (sample n) =? 0)) else s in
    (s, false).

(** The classes [n], ..., [n + k - 1]; the class at which the loop breaks. *)
Fixpoint classes_loop (k n : nat) (s : pass_state) : pass_state * option nat :=
  match k with
  | O => (s, None)
  | S k =>
      let '(s, stop) := visit n s in
      if stop then (s, Some n) else classes_loop k (S n) s
  end.

Definition start_scan : pass_state := mkScan (windows a) (-1) 0 (-1) (two64 - 1) false.

Definition slab_automove_run : slab_automove * Z * Z :=
  let '(s, stop) := classes_loop (MAX_NUMBER_OF_SLAB_CLASSES - first_class) first_class start_scan in
  let '(src, dst) := match stop with Some n => (Z.of_nat n, 0) | None => (-1, -1) end in
  let a' := mkAutomove (wins s) (window_size a) cur iam sam in
  if negb (youngest s =? -1) && negb (oldest s =? -1) && (window_size a <? cur) then
    if outside (youngest_age s) (oldest_age s) && youngest_evicting s
    then (a', oldest s, youngest s) else (a', src, dst)
  else (a', src, dst).

(** ** What a run decides *)

(** The window of a class without the oldest sample, and the numbers the decision rests on. *)
Definition past (n : nat) : window_data := window_sum (segment n (<[cell n := no_data]> (windows a))) no_data.
Definition mean_age (n : nat) : Z := age (past n) / window_size a.
Definition reclaimable (n : nat) : bool := can_reclaim n && (dirty (past n) =? 0).
Definition source (n : nat) : Prop := MIN_PAGES_FOR_SOURCE < total_pages (sam !!! n).
Definition evicting (n : nat) : Prop := window_size a / 2 < evicted (past n).

(** The scanned classes below [lim]. *)
Definition scanned (lim n : nat) : Prop := (first_class ≤ n < lim)%nat.

(** The first class with the largest mean age, of those that have pages to give. *)
Record is_oldest (lim o : nat) : Prop := {
  io_scanned : scanned lim o;
  io_source : source o;
  io_pos : 0 < mean_age o;
  io_max : ∀ n, scanned lim n → source n → mean_age n <= mean_age o;
  io_first : ∀ n, scanned lim n → source n → mean_age n = mean_age o → (o ≤ n)%nat
}.

(** The first class with the smallest mean age, of those that evict. *)
Record is_youngest (lim y : nat) : Prop := {
  iy_scanned : scanned lim y;
  iy_evicting : evicting y;
  iy_min : ∀ n, scanned lim n → evicting n → mean_age y <= mean_age n;
  iy_first : ∀ n, scanned lim n → evicting n → mean_age n = mean_age y → (y ≤ n)%nat
}.

(** A page of [o] should go to [y]. *)
Definition rebalance (lim o y : nat) : Prop :=
  is_oldest lim o ∧ is_youngest lim y ∧ window_size a < cur ∧
  outside (mean_age y) (mean_age o) = true ∧ evicted (sample y) ≠ 0.

(** The windows of the scanned classes get the sample; the others stay. *)
Definition sampled (lim : nat) (l l' : list window_data) : Prop :=
  length l' = length l ∧
  ∀ n, segment n l' = if decide (scanned lim n)
                      then <[Z.to_nat (cur mod window_size a) := sample n]> (segment n l)
                      else segment n l.

(** The array has a window for every class; the options ask for a window of three or more. *)
Record automove_ok : Prop := {
  am_size : 3 <= window_size a < two32;
  am_windows : length (windows a) = (MAX_NUMBER_OF_SLAB_CLASSES * Z.to_nat (window_size a))%nat
}.

(** *** The loop over the classes *)

Context (OK : automove_ok).

Lemma slot_range : (Z.to_nat (cur mod window_size a) < Z.to_nat (window_size a))%nat.
Proof. destruct OK. pose proof (Z.mod_pos_bound cur (window_size a)). lia. Qed.

Lemma cell_split n :
  cell n = (n * Z.to_nat (window_size a) + Z.to_nat (cur mod window_size a))%nat.
Proof.
  destruct OK. unfold cell. pose proof (Z.mod_pos_bound cur (window_size a)).
  rewrite Z2Nat.inj_add, Z2Nat.inj_mul by lia. lia.
Qed.

Lemma segment_at n l i :
  segment n l !! i =
    if decide (i < Z.to_nat (window_size a))%nat then l !! (n * Z.to_nat (window_size a) + i)%nat else None.
Proof.
  destruct OK. unfold segment. rewrite Z2Nat.inj_mul, Nat2Z.id by lia.
  case_decide; [rewrite lookup_take_lt, lookup_drop by lia; done|by rewrite lookup_take_ge by lia].
Qed.

Lemma segment_insert n m x l :
  (cell n < length l)%nat →
  segment m (<[cell n := x]> l) =
    if decide (m = n) then <[Z.to_nat (cur mod window_size a) := x]> (segment m l) else segment m l.
Proof.
  intros Hc. pose proof slot_range as Hr. rewrite cell_split in *. apply list_eq. intros i.
  case_decide as Hm.
  - subst m. rewrite segment_at. destruct (decide (i = Z.to_nat (cur mod window_size a))) as [->|Hi].
    + rewrite list_lookup_insert_eq by done. rewrite list_lookup_insert_eq.
      * by rewrite decide_True by lia.
      * apply lookup_lt_is_Some. rewrite segment_at, decide_True by lia. by apply lookup_lt_is_Some_2.
    + rewrite !list_lookup_insert_ne by lia. by rewrite segment_at.
  - rewrite !segment_at. case_decide; [|done]. rewrite list_lookup_insert_ne; [done|].
    intros E. apply Hm. nia.
Qed.

Definition oldest_is (lim : nat) (o ag : Z) : Prop :=
  o = -1 ∧ ag = 0 ∧ (∀ n, scanned lim n → source n → mean_age n <= 0) ∨
  ∃ n, o = Z.of_nat n ∧ ag = mean_age n ∧ is_oldest lim n.

Definition youngest_is (lim : nat) (y ag : Z) (ev : bool) : Prop :=
  y = -1 ∧ ag = two64 - 1 ∧ (∀ n, scanned lim n → ¬ evicting n) ∨
  ∃ n, y = Z.of_nat n ∧ ag = mean_age n ∧ is_youngest lim n ∧ ev = negb (evicted (sample n) =? 0).

Record scan_at (lim : nat) (s : pass_state) : Prop := {
  sa_wins : sampled lim (windows a) (wins s);
  sa_none : ∀ n, scanned lim n → reclaimable n = false;
  sa_oldest : oldest_is lim (oldest s) (oldest_age s);
  sa_youngest : youngest_is lim (youngest s) (youngest_age s) (youngest_evicting s)
}.

Lemma past_range n : 0 <= age (past n) < two64.
Proof.
  unfold past, window_sum. generalize (segment n (<[cell n:=no_data]> (windows a))). intros l.
  induction l as [|x l _] using rev_ind; [done|]. rewrite foldl_app. simpl. apply u64_range.
Qed.

Lemma mean_range n : 0 <= mean_age n < two64 - 1.
Proof.
  destruct OK. pose proof (past_range n). unfold mean_age. split; [apply Z.div_pos; lia|].
  apply Z.div_lt_upper_bound; [lia|]. unfold two64 in *. nia.
Qed.

Lemma visit_sum n s :
  scan_at n s → (first_class ≤ n < 64)%nat →
  window_sum (segment n (<[cell n := no_data]> (wins s))) no_data = past n.
Proof.
  intros [[Hl Hs] _ _ _] Hn. pose proof slot_range. destruct OK as [_ HL]. unfold MAX_NUMBER_OF_SLAB_CLASSES in HL.
  assert (cell n < length (windows a))%nat by (rewrite cell_split, HL; nia).
  unfold past. rewrite !segment_insert, Hs by (rewrite ?Hl; done).
  rewrite !(decide_True (P := n = n)), decide_False by (unfold scanned; lia || done). done.
Qed.

Lemma scanned_S lim n : scanned (S lim) n → scanned lim n ∨ n = lim.
Proof. unfold scanned. lia. Qed.

Lemma scanned_mono lim n : scanned lim n → scanned (S lim) n ∧ (n < lim)%nat.
Proof. unfold scanned. lia. Qed.

Lemma oldest_step n o ag :
  (first_class ≤ n)%nat → oldest_is n o ag →
  if (ag <? mean_age n) && (MIN_PAGES_FOR_SOURCE <? total_pages (sam !!! n))
  then oldest_is (S n) (Z.of_nat n) (mean_age n) else oldest_is (S n) o ag.
Proof.
  intros Hn H. destruct (_ && _) eqn:E.
  - apply andb_true_iff in E as [E1%Z.ltb_lt E2%Z.ltb_lt]. right. exists n.
    assert (∀ m, scanned n m → source m → mean_age m < mean_age n) as Hlt.
    { intros m Hm Hs. destruct H as [(_ & -> & H)|(o' & _ & -> & H)].
      - specialize (H m Hm Hs). lia.
      - pose proof (io_max _ _ H m Hm Hs). lia. }
    split_and!; [done..|]. split; [unfold scanned; lia|done| | |].
    + destruct H as [(_ & -> & _)|(o' & _ & -> & H)]; [done|]. pose proof (io_pos _ _ H). lia.
    + intros m [Hm| ->]%scanned_S Hs; [|lia]. specialize (Hlt m Hm Hs). lia.
    + intros m [Hm| ->]%scanned_S Hs E; [|lia]. specialize (Hlt m Hm Hs). lia.
  - assert (source n → mean_age n <= ag) as Hle.
    { intros Hs%Z.ltb_lt. rewrite Hs, andb_true_r in E. by apply Z.ltb_ge in E. }
    destruct H as [(-> & -> & H)|(o' & -> & -> & [H1 H2 H3 H4 H5])].
    + left. split_and!; [done..|]. intros m [Hm| ->]%scanned_S Hs; auto.
    + right. exists o'. apply scanned_mono in H1 as [H1 H1']. split_and!; [done..|]. split; [done..| |].
      * intros m [Hm| ->]%scanned_S Hs; auto.
      * intros m [Hm| ->]%scanned_S Hs E'; [auto|lia].
Qed.

Lemma youngest_step n y ag ev :
  (first_class ≤ n)%nat → youngest_is n y ag ev →
  if (mean_age n <? ag) && (window_size a / 2 <? evicted (past n))
  then youngest_is (S n) (Z.of_nat n) (mean_age n) (negb (evicted (sample n) =? 0))
  else youngest_is (S n) y ag ev.
Proof.
  intros Hn H. destruct (_ && _) eqn:E.
  - apply andb_true_iff in E as [E1%Z.ltb_lt E2%Z.ltb_lt]. right. exists n.
    assert (∀ m, scanned n m → evicting m → mean_age n < mean_age m) as Hlt.
    { intros m Hm Hs. destruct H as [(_ & -> & H)|(o' & _ & -> & H & _)].
      - by destruct (H m Hm).
      - pose proof (iy_min _ _ H m Hm Hs). lia. }
    split_and!; [done..| |done]. split; [unfold scanned; lia|done| |].
    + intros m [Hm| ->]%scanned_S Hs; [|lia]. specialize (Hlt m Hm Hs). lia.
    + intros m [Hm| ->]%scanned_S Hs E; [|lia]. specialize (Hlt m Hm Hs). lia.
  - assert (evicting n → ag <= mean_age n) as Hle.
    { intros Hs%Z.ltb_lt. rewrite Hs, andb_true_r in E. by apply Z.ltb_ge in E. }
    pose proof (mean_range n).
    destruct H as [(-> & -> & H')|(o' & -> & -> & [H1 H2 H3 H4] & ->)].
    + left. split_and!; [done..|]. intros m [Hm| ->]%scanned_S Hs; [by eapply H'|]. specialize (Hle Hs). lia.
    + right. exists o'. apply scanned_mono in H1 as [H1 H1']. split_and!; [done..| |done]. split; [done..| |].
      * intros m [Hm| ->]%scanned_S Hs; auto.
      * intros m [Hm| ->]%scanned_S Hs E'; [auto|lia].
Qed.

Lemma sampled_step n l :
  (first_class ≤ n < 64)%nat → sampled n (windows a) l →
  sampled (S n) (windows a) (<[cell n := sample n]> (<[cell n := no_data]> l)).
Proof.
  intros Hn [Hl Hs]. pose proof slot_range. destruct OK as [_ HL]. unfold MAX_NUMBER_OF_SLAB_CLASSES in HL.
  assert (cell n < length l)%nat by (rewrite Hl, cell_split, HL; nia).
  rewrite list_insert_insert_eq. split; [by rewrite length_insert|]. intros m.
  rewrite segment_insert, Hs by done. repeat case_decide; unfold scanned in *; subst; try lia; done.
Qed.

Lemma visit_ok n s s' stop :
  scan_at n s → (first_class ≤ n < 64)%nat → visit n s = (s', stop) →
  sampled (S n) (windows a) (wins s') ∧ reclaimable n = stop ∧
  if stop then oldest_is n (oldest s') (oldest_age s') ∧
               youngest_is n (youngest s') (youngest_age s') (youngest_evicting s')
  else scan_at (S n) s'.
Proof.
  intros Hs Hn. unfold visit. rewrite (visit_sum _ _ Hs Hn). fold (mean_age n). fold (reclaimable n).
  destruct Hs as [Hw Hr Ho Hy]. pose proof (sampled_step n _ Hn Hw) as Hw'.
  pose proof (oldest_step n _ _ (proj1 Hn) Ho) as Ho'. pose proof (youngest_step n _ _ _ (proj1 Hn) Hy) as Hy'.
  unfold reclaimable at 1. fold (reclaimable n).
  destruct (reclaimable n) eqn:Er.
  - intros [= <- <-]. done.
  - assert (∀ m, scanned (S n) m → reclaimable m = false) as Hr' by (intros m [?| ->]%scanned_S; auto).
    cbn [oldest_age]. destruct ((oldest_age s <? mean_age n) && _); cbn [youngest_age];
      destruct ((mean_age n <? youngest_age s) && _); intros [= <- <-]; done.
Qed.

(** The class at which the scan stops, or 64. *)
Record stops_at (lim : nat) : Prop := {
  st_range : (first_class ≤ lim ≤ 64)%nat;
  st_none : ∀ n, scanned lim n → reclaimable n = false;
  st_stop : (lim < 64)%nat → reclaimable lim = true
}.

Definition limit (stop : option nat) : nat := default 64%nat stop.

Lemma classes_loop_ok k n s s' stop :
  scan_at n s → (n + k = 64)%nat → (first_class ≤ n)%nat → classes_loop k n s = (s', stop) →
  stops_at (limit stop) ∧ match stop with Some r => (r < 64)%nat | None => True end ∧
  sampled (Nat.min 64 (S (limit stop))) (windows a) (wins s') ∧
  oldest_is (limit stop) (oldest s') (oldest_age s') ∧
  youngest_is (limit stop) (youngest s') (youngest_age s') (youngest_evicting s').
Proof.
  revert n s. induction k as [|k IH]; intros n s Hs Hk Hn; cbn [classes_loop].
  - intros [= <- <-]. assert (n = 64)%nat as -> by lia. destruct Hs as [Hw Hr Ho Hy].
    split_and!; try done. split; simpl; [lia|done|lia].
  - destruct (visit n s) as [s1 st] eqn:E.
    destruct (visit_ok _ _ _ _ Hs ltac:(lia) E) as (Hw & Hr & H). destruct st.
    + intros [= <- <-]. simpl limit. rewrite Nat.min_r by lia. split_and!; try apply H; try done; try lia.
      split; [lia|apply Hs|done].
    + intros E'. by apply (IH (S n) s1); [..|lia|lia|].
Qed.

Lemma scan_start_ok : scan_at first_class start_scan.
Proof.
  assert (∀ n, ¬ scanned first_class n) as H by (unfold scanned; lia).
  split; simpl; [|intros n []%H| |].
  - split; [done|]. intros n. by rewrite decide_False by apply H.
  - left. split_and!; [done..|]. intros n []%H.
  - left. split_and!; [done..|]. intros n []%H.
Qed.

Lemma oldest_unique lim o o' : is_oldest lim o → is_oldest lim o' → o = o'.
Proof.
  intros [A1 A2 A3 A4 A5] [B1 B2 B3 B4 B5]. specialize (A4 o' B1 B2). specialize (B4 o A1 A2).
  specialize (A5 o' B1 B2). specialize (B5 o A1 A2). lia.
Qed.

Lemma youngest_unique lim y y' : is_youngest lim y → is_youngest lim y' → y = y'.
Proof.
  intros [A1 A2 A3 A4] [B1 B2 B3 B4]. specialize (A3 y' B1 B2). specialize (B3 y A1 A2).
  specialize (A4 y' B1 B2). specialize (B4 y A1 A2). lia.
Qed.

(** The test after the loop, and what it looks for. *)
Lemma rebalance_test lim s :
  oldest_is lim (oldest s) (oldest_age s) →
  youngest_is lim (youngest s) (youngest_age s) (youngest_evicting s) →
  if negb (youngest s =? -1) && negb (oldest s =? -1) && (window_size a <? cur) &&
     (outside (youngest_age s) (oldest_age s) && youngest_evicting s)
  then ∃ o y, oldest s = Z.of_nat o ∧ youngest s = Z.of_nat y ∧ rebalance lim o y
  else ∀ o y, ¬ rebalance lim o y.
Proof.
  intros [(-> & -> & Ho)|(o & -> & -> & Ho)] Hy.
  { rewrite Z.eqb_refl, andb_false_r. simpl. intros o y (H & _). destruct H.
    assert (mean_age o <= 0) by auto. lia. }
  destruct Hy as [(-> & -> & Hy)|(y & -> & -> & Hy & ->)].
  { rewrite Z.eqb_refl. simpl. intros o' y (_ & [H1 H2 _ _] & _). by apply (Hy y). }
  rewrite !(proj2 (Z.eqb_neq _ _)) by lia. cbn [negb andb].
  destruct (window_size a <? cur) eqn:E1; cbn [andb].
  2: { apply Z.ltb_ge in E1. intros o' y' (_ & _ & H & _). lia. }
  destruct (outside _ _) eqn:E2; cbn [andb].
  2: { intros o' y' (H1 & H2 & _ & H3 & _). rewrite (oldest_unique _ _ _ H1 Ho), (youngest_unique _ _ _ H2 Hy) in H3.
       congruence. }
  destruct (evicted (sample y) =? 0) eqn:E3; cbn [negb].
  - apply Z.eqb_eq in E3. intros o' y' (_ & H2 & _ & _ & H3). by rewrite (youngest_unique _ _ _ H2 Hy) in H3.
  - apply Z.eqb_neq in E3. exists o, y. apply Z.ltb_lt in E1. done.
Qed.

Lemma run_spec a' src dst :
  slab_automove_run = (a', src, dst) →
  ∃ lim, stops_at lim ∧
    ((∃ o y, rebalance lim o y ∧ src = Z.of_nat o ∧ dst = Z.of_nat y) ∨
     (∀ o y, ¬ rebalance lim o y) ∧
     (src, dst) = if decide (lim = 64)%nat then (-1, -1) else (Z.of_nat lim, 0)) ∧
    sampled (Nat.min 64 (S lim)) (windows a) (windows a') ∧
    a' = mkAutomove (windows a') (window_size a) cur iam sam.
Proof.
  unfold slab_automove_run.
  destruct (classes_loop _ _ _) as [s stop] eqn:E.
  assert (first_class + (MAX_NUMBER_OF_SLAB_CLASSES - first_class) = 64)%nat as Hf
    by (unfold MAX_NUMBER_OF_SLAB_CLASSES, first_class, POWER_SMALLEST; destruct mode3; lia).
  destruct (classes_loop_ok _ _ _ _ _ scan_start_ok Hf (Nat.le_refl _) E) as (Hst & Hr & Hw & Ho & Hy).
  pose proof (rebalance_test _ _ Ho Hy) as Ht.
  set (p := match stop with Some n => (Z.of_nat n, 0) | None => (-1, -1) end).
  assert (p = if decide (limit stop = 64)%nat then (-1, -1) else (Z.of_nat (limit stop), 0)) as Hp.
  { unfold p. destruct stop as [r|]; simpl; [|done]. by rewrite decide_False by lia. }
  destruct p as [src' dst'].
  destruct (negb (youngest s =? -1) && negb (oldest s =? -1) && (window_size a <? cur)); cbn [andb] in Ht;
    [destruct (outside _ _ && youngest_evicting s)|]; intros [= <- <- <-]; exists (limit stop);
    (split_and!; [done| |done|done]).
  - left. destruct Ht as (o & y & -> & -> & ?). eauto.
  - right. by rewrite <-Hp.
  - right. by rewrite <-Hp.
Qed.
End Run.
End Automove.

Lemma triple_eta {A B C} (p : A * B * C) : p = (p.1.1, p.1.2, p.2).
Proof. by destruct p as [[]]. Qed.

(** A new automover is well formed, and a run keeps it so. *)
Lemma automove_init_ok wsize iam sam a :
  3 <= wsize → wsize * 64 < two32 → slab_automove_init true wsize iam sam = Some a → automove_ok a.
Proof.
  intros H1 H2 [= <-]. split; simpl; [lia|]. rewrite length_replicate. unfold u32.
  rewrite Z.mod_small by lia. unfold MAX_NUMBER_OF_SLAB_CLASSES. lia.
Qed.

Lemma run_ok mode3 outside a iam sam :
  automove_ok a → automove_ok (slab_automove_run mode3 outside a iam sam).1.1.
Proof.
  intros OK. destruct (slab_automove_run mode3 outside a iam sam) as [[a' src] dst] eqn:E.
  destruct (run_spec _ _ _ _ _ OK _ _ _ E) as (lim & _ & _ & [Hl _] & E'). destruct OK as [O1 O2].
  rewrite E'. split; simpl; [done|]. by rewrite Hl.
Qed.


(** *** At concrete inputs *)

(** Four samples in, class 1 is old, class 2 is young and evicts; the ratio is 0.8. *)
Abbreviation ratio_08 := (λ y o : Z, 5 * y <? 4 * o).
Abbreviation busy_stats := ([mkItemStats 0 0 0; mkItemStats 0 0 100; mkItemStats 7 0 10] ++ replicate 61%nat (mkItemStats 0 0 0)).
Abbreviation busy_slabs := (replicate 64%nat (mkSlabStats 10 0 5)).
Abbreviation busy_windows :=
  (replicate 3%nat no_data ++ replicate 3%nat (mkWindow 100 0 0) ++ replicate 3%nat (mkWindow 10 1 1) ++
   replicate 183%nat no_data).
Abbreviation busy :=
  (mkAutomove busy_windows 3 3 (replicate 64%nat (mkItemStats 0 0 0)) busy_slabs).


(** The evictions of a class are lost in a run that finds a page to reclaim in a class before it:
    its window does not become dirty, and the counters of the next run start after them. *)
Lemma reclaim_forgets_evictions :
  let idle := mkAutomove (replicate 192%nat no_data) 3 0 (replicate 64%nat (mkItemStats 0 0 0)) busy_slabs in
  let full := [mkSlabStats 10 0 5; mkSlabStats 10 30 5] ++ replicate 62%nat (mkSlabStats 10 0 5) in
  let '(a1, src, dst) := slab_automove_run false ratio_08 idle busy_stats full in
  let '(a2, _, _) := slab_automove_run false ratio_08 a1 busy_stats busy_slabs in
  src = 1 ∧ dst = 0 ∧ segment a2 2 (windows a2) = [no_data; no_data; mkWindow 10 0 0].
Proof. vm_compute. done. Qed.
