(* ===== verification/Itoa.v ===== *)
(** Decimal printing: [extra/KVS-DRAM-Cache/itoa_ljust.c].

    The functions write two digits at a time from a table, into a buffer the
    caller provides.  A buffer is the bytes of the array; [p] is an index into it;
    a write outside the array is [None]. *)

From stdpp Require Import strings.
From S2P Require Import Prelude.

(** The characters of a C string literal. *)
Definition chars (s : string) : bytes :=
  (λ c, Z.of_N (Ascii.N_of_ascii c)) <$> String.list_ascii_of_string s.

(** ** Writing into a buffer *)

(** The array and the position of the next write. *)
Definition out : Type := bytes * nat.

Definition out1 (c : Z) (o : out) : option out :=
  let '(b, p) := o in if (p <? length b)%nat then Some (<[p := c]> b, S p) else None.

(** [*p = c], which leaves [p] where it is. *)
Definition put_char (c : Z) (o : out) : option out :=
  let '(b, p) := o in if (p <? length b)%nat then Some (<[p := c]> b, p) else None.

(** ** The functions *)

Definition lut : bytes := chars (
    "0001020304050607080910111213141516171819" +:+
    "2021222324252627282930313233343536373839" +:+
    "4041424344454647484950515253545556575859" +:+
    "6061626364656667686970717273747576777879" +:+
    "8081828384858687888990919293949596979899").

Definition out2 (d : Z) (o : out) : option out :=
  o ← out1 (nth (2 * Z.to_nat d) lut 0) o;
  out1 (nth (2 * Z.to_nat d + 1) lut 0) o.

Definition digit (d : Z) : Z := 48 + d.

(** [digits]: an odd number of digits starts with a single one. *)
Definition digits (u k d : Z) (o : out) (n : nat) : option (Z * out * nat) :=
  if u <? u32 (k * 10) then
    let d := u / k in
    o ← out1 (digit d) o; Some (d, o, (n - 1)%nat)
  else Some (d, o, n).

(** [u -= d * k], with the product at the width of the unsigned result. *)
Definition drop_digits (u d k : Z) : Z := u32 (u - u32 (d * k)).

(** [switch (n)], from the cases 1, 2, 3, ... of its fall-through upwards. *)
Definition itoa1 (o : out) : option out := put_char 0 o.
Definition itoa2 (u : Z) (o : out) : option out := o ← out2 (u / 1) o; itoa1 o.
Definition itoa3 (u d : Z) (o : out) : option out := itoa2 (drop_digits u d 100) o.
Definition itoa4 (u : Z) (o : out) : option out :=
  let d := u / 100 in o ← out2 d o; itoa3 u d o.
Definition itoa5 (u d : Z) (o : out) : option out := itoa4 (drop_digits u d 10000) o.
Definition itoa6 (u : Z) (o : out) : option out :=
  let d := u / 10000 in o ← out2 d o; itoa5 u d o.
Definition itoa7 (u d : Z) (o : out) : option out := itoa6 (drop_digits u d 1000000) o.
Definition itoa8 (u : Z) (o : out) : option out :=
  let d := u / 1000000 in o ← out2 d o; itoa7 u d o.
Definition itoa9 (u d : Z) (o : out) : option out := itoa8 (drop_digits u d 100000000) o.
Definition itoa10 (u : Z) (o : out) : option out :=
  let d := u / 100000000 in o ← out2 d o; itoa9 u d o.

Definition itoa (u : Z) (o : out) (d : Z) (n : nat) : option out :=
  match n with
  | 10 => itoa10 u o
  | 9 => itoa9 u d o
  | 8 => itoa8 u o
  | 7 => itoa7 u d o
  | 6 => itoa6 u o
  | 5 => itoa5 u d o
  | 4 => itoa4 u o
  | 3 => itoa3 u d o
  | 2 => itoa2 u o
  | _ => itoa1 o
  end%nat.

Definition itoa_u32 (u : Z) (o : out) : option out :=
  '(d, o, n) ←
    (if 100000000 <=? u then digits u 100000000 0 o 10
     else if u <? 100 then digits u 1 0 o 2
     else if u <? 10000 then digits u 100 0 o 4
     else if u <? 1000000 then digits u 10000 0 o 6
     else digits u 1000000 0 o 8);
  itoa u o d n.

Definition itoa_32 (i : Z) (o : out) : option out :=
  let u := u32 i in
  if i <? 0 then o ← out1 45 o; itoa_u32 (u32 (- u)) o
  else itoa_u32 u o.

(** [itoa_u64] calls itself on the number without its last nine digits; three
    levels are enough for 64 bits. *)
Fixpoint itoa_u64_rec (fuel : nat) (u : Z) (o : out) : option out :=
  let lower := u32 u in
  if lower =? u then itoa_u32 lower o else
  match fuel with
  | O => None
  | S fuel' =>
      let upper := u / 1000000000 in
      o ← itoa_u64_rec fuel' upper o;
      let lower := u32 (u - upper * 1000000000) in
      let d := lower / 100000000 in
      o ← out1 (digit d) o;
      itoa lower o d 9
  end.

Definition itoa_u64 : Z → out → option out := itoa_u64_rec 2.

Definition itoa_64 (i : Z) (o : out) : option out :=
  let u := u64 i in
  if i <? 0 then o ← out1 45 o; itoa_u64 (u64 (- u)) o
  else itoa_u64 u o.

(** ** Decimal numbers *)

(** The [k] last decimal digits of [u]. *)
Fixpoint digs (k : nat) (u : Z) : bytes :=
  match k with O => [] | S k' => digs k' (u / 10) ++ [digit (u mod 10)] end.

Fixpoint dec_len (fuel : nat) (u : Z) : nat :=
  match fuel with
  | O => 1
  | S fuel' => if u <? 10 then 1 else S (dec_len fuel' (u / 10))
  end.

(** The decimal representation of [u], without leading zeros. *)
Definition dec (u : Z) : bytes := digs (dec_len (Z.to_nat u) u) u.

(** The number a digit string denotes. *)
Definition dec_value (l : bytes) : Z := foldl (λ acc c, acc * 10 + (c - 48)) 0 l.

Definition is_digit (c : Z) : Prop := 48 ≤ c ≤ 57.

Lemma length_digs k u : length (digs k u) = k.
Proof. revert u. induction k as [|k IH]; intros u; [done|]. simpl. rewrite length_app, IH. simpl. lia. Qed.

Lemma pow10_pos k : 0 < 10 ^ Z.of_nat k.
Proof. apply Z.pow_pos_nonneg; lia. Qed.

Lemma pow10_S k : 10 ^ Z.of_nat (S k) = 10 * 10 ^ Z.of_nat k.
Proof. rewrite Nat2Z.inj_succ, Z.pow_succ_r by lia. done. Qed.

Lemma digs_app j k u : digs (j + k) u = digs j (u / 10 ^ Z.of_nat k) ++ digs k u.
Proof.
  revert u. induction k as [|k IH]; intros u.
  - by rewrite Nat.add_0_r, app_nil_r, Z.div_1_r.
  - rewrite Nat.add_succ_r. cbn [digs]. rewrite IH, app_assoc, pow10_S.
    rewrite Z.div_div by (pose proof (pow10_pos k); lia). done.
Qed.

Lemma digs_mod k u : digs k (u mod 10 ^ Z.of_nat k) = digs k u.
Proof.
  revert u. induction k as [|k IH]; intros u; [done|]. cbn [digs]. rewrite pow10_S.
  pose proof (pow10_pos k). rewrite Z.rem_mul_r by lia.
  f_equal.
  - rewrite <- (IH (u / 10)). f_equal.
    rewrite (Z.add_comm (u mod 10)), Z.mul_comm, Z.div_add_l by lia.
    rewrite (Z.div_small (u mod 10)); [lia|]. apply Z.mod_pos_bound. lia.
  - do 2 f_equal. rewrite (Z.mul_comm 10), Z.mod_add by lia. by apply Z.mod_mod.
Qed.

Lemma digs_digits k u : Forall is_digit (digs k u).
Proof.
  revert u. induction k as [|k IH]; intros u; cbn [digs]; [constructor|].
  apply Forall_app. split; [done|]. repeat constructor; unfold digit;
    pose proof (Z.mod_pos_bound u 10 ltac:(lia)); lia.
Qed.

Lemma dec_value_digs k u : dec_value (digs k u) = u mod 10 ^ Z.of_nat k.
Proof.
  revert u. induction k as [|k IH]; intros u; [by rewrite Z.mod_1_r|].
  cbn [digs]. unfold dec_value in *. rewrite foldl_app, IH. cbn [foldl]. unfold digit.
  rewrite pow10_S. pose proof (pow10_pos k). rewrite (Z.rem_mul_r u) by lia. lia.
Qed.

Lemma dec_len_spec fuel u :
  0 ≤ u < 10 ^ (Z.of_nat fuel + 1) →
  let k := dec_len fuel u in
  (1 ≤ k)%nat ∧ u < 10 ^ Z.of_nat k ∧ (k = 1%nat ∨ 10 ^ (Z.of_nat k - 1) ≤ u).
Proof.
  revert u. induction fuel as [|f IH]; intros u Hu; cbv zeta; cbn [dec_len].
  { simpl in *. split_and!; [lia..|by left]. }
  destruct (u <? 10) eqn:E; [apply Z.ltb_lt in E; simpl; split_and!; [lia..|by left]|].
  apply Z.ltb_ge in E. destruct (IH (u / 10)) as (H1 & H2 & H3).
  { split; [apply Z.div_pos; lia|]. apply Z.div_lt_upper_bound; [lia|].
    rewrite <- Z.pow_succ_r by lia. replace (Z.succ _) with (Z.of_nat (S f) + 1) by lia. lia. }
  set (k := dec_len f (u / 10)) in *. pose proof (Z.div_mod u 10 ltac:(lia)).
  pose proof (Z.mod_pos_bound u 10 ltac:(lia)). rewrite pow10_S. split_and!; [lia..|right].
  replace (Z.of_nat (S k) - 1) with (Z.succ (Z.of_nat k - 1)) by lia.
  rewrite Z.pow_succ_r by lia. destruct H3 as [H3|H3]; [|lia].
  rewrite H3. simpl. lia.
Qed.

Lemma pow10_gt u : 0 ≤ u → u < 10 ^ (Z.of_nat (Z.to_nat u) + 1).
Proof. intros. rewrite Z2Nat.id by lia. transitivity (10 ^ u); [apply Z.pow_gt_lin_r; lia|apply Z.pow_lt_mono_r; lia]. Qed.

(** The number of digits is unique. *)
Lemma dec_unique k u :
  (1 ≤ k)%nat → 0 ≤ u < 10 ^ Z.of_nat k → (k = 1%nat ∨ 10 ^ (Z.of_nat k - 1) ≤ u) →
  dec u = digs k u.
Proof.
  intros Hk Hu Hl. unfold dec. f_equal.
  destruct (dec_len_spec (Z.to_nat u) u) as (H1 & H2 & H3); [split; [lia|apply pow10_gt; lia]|].
  set (j := dec_len _ _) in *.
  assert (∀ a b : nat, (1 ≤ a < b)%nat → u < 10 ^ Z.of_nat a →
    (b = 1%nat ∨ 10 ^ (Z.of_nat b - 1) ≤ u) → False) as Hlt.
  { intros a b Hab Ha [?|Hb]; [lia|].
    assert (10 ^ Z.of_nat a ≤ 10 ^ (Z.of_nat b - 1)) by (apply Z.pow_le_mono_r; lia). lia. }
  destruct (lt_eq_lt_dec j k) as [[|]|]; [exfalso; eapply (Hlt j k)|done|exfalso; eapply (Hlt k j)]; eauto; lia.
Qed.

(** [dec] is the decimal representation. *)
Lemma dec_spec u : 0 ≤ u →
  dec_value (dec u) = u ∧ Forall is_digit (dec u) ∧ dec u ≠ [] ∧
  (u < 10 ∧ dec u = [digit u] ∨ ∃ c l, dec u = c :: l ∧ c ≠ 48).
Proof.
  intros Hu. destruct (dec_len_spec (Z.to_nat u) u) as (H1 & H2 & H3); [split; [lia|apply pow10_gt; lia]|].
  unfold dec. set (k := dec_len _ _) in *. rewrite dec_value_digs, Z.mod_small by lia.
  split; [done|]. split; [apply digs_digits|]. split.
  { intros E. apply (f_equal length) in E. rewrite length_digs in E. simpl in E. lia. }
  destruct H3 as [H3|H3].
  - left. rewrite H3 in *. simpl in *. rewrite Z.mod_small by lia. split; [lia|done].
  - destruct (decide (k = 1%nat)) as [H4|H4].
    { left. rewrite H4 in *. simpl in *. rewrite Z.mod_small by lia. split; [lia|done]. }
    right. replace k with (1 + (k - 1))%nat by lia. rewrite digs_app.
    eexists _, _. split; [reflexivity|]. unfold digit.
    pose proof (pow10_pos (k - 1)).
    assert (0 < u / 10 ^ Z.of_nat (k - 1) < 10) as Hq.
    { replace (Z.of_nat k - 1) with (Z.of_nat (k - 1)) in H3 by lia. split.
      - apply Z.div_str_pos. lia.
      - apply Z.div_lt_upper_bound; [lia|]. rewrite Z.mul_comm, <- pow10_S.
        by replace (S (k - 1)) with k by lia. }
    rewrite Z.mod_small; lia.
Qed.

(** ** What the functions write *)

(** [b] with the bytes [l] from position [p] on. *)
Definition splice (b : bytes) (p : nat) (l : bytes) : bytes :=
  take p b ++ l ++ drop (p + length l) b.

(** [f] writes [l] and stops after it. *)
Definition emits (f : out → option out) (l : bytes) : Prop :=
  ∀ b p, (p + length l ≤ length b)%nat → f (b, p) = Some (splice b p l, (p + length l)%nat).

(** [f] writes [l] and a terminating null byte, on which it stops. *)
Definition prints (f : out → option out) (l : bytes) : Prop :=
  ∀ b p, (p + length l < length b)%nat → f (b, p) = Some (splice b p (l ++ [0]), (p + length l)%nat).

Lemma length_splice b p l : (p + length l ≤ length b)%nat → length (splice b p l) = length b.
Proof. intros. unfold splice. rewrite !length_app, length_take, length_drop. lia. Qed.

(** A second write starts inside the first one and covers its rest. *)
Lemma splice_splice b p l m l' :
  (p + length l + length l' ≤ length b)%nat → (length m ≤ length l')%nat →
  splice (splice b p (l ++ m)) (p + length l) l' = splice b p (l ++ l').
Proof.
  intros Hb Hm. rewrite <- (take_drop p b). set (b1 := take p b). set (b2 := drop p b).
  assert (length b1 = p) as Hp by (unfold b1; rewrite length_take; lia). unfold splice.
  rewrite <- Hp. rewrite !take_app_length, !drop_app_add, !length_app, <- !app_assoc.
  assert (∀ (x y z : bytes), take (length x + length y) (x ++ y ++ z) = x ++ y) as Ht.
  { intros. rewrite app_assoc, <- length_app. apply take_app_length. }
  rewrite Ht, <- !app_assoc. do 3 f_equal. rewrite <- Nat.add_assoc, !drop_app_add.
  rewrite drop_app_ge by done. rewrite drop_drop. f_equal. lia.
Qed.

Lemma emits_out1 c : emits (out1 c) [c].
Proof.
  intros b p H. simpl in *. rewrite (proj2 (Nat.ltb_lt _ _)) by lia. repeat f_equal; [|lia].
  unfold splice. simpl. rewrite Nat.add_1_r. apply insert_take_drop. lia.
Qed.

Lemma emits_bind f g l l' :
  emits f l → emits g l' → emits (λ o, o ← f o; g o) (l ++ l').
Proof.
  intros Hf Hg b p H. rewrite length_app in H. rewrite Hf by lia. cbn [mbind option_bind].
  rewrite Hg by (rewrite length_splice; lia). rewrite <- (app_nil_r l) at 1.
  rewrite splice_splice by (simpl; lia). by rewrite length_app, Nat.add_assoc.
Qed.

Lemma prints_bind f g l l' :
  emits f l → prints g l' → prints (λ o, o ← f o; g o) (l ++ l').
Proof.
  intros Hf Hg b p H. rewrite length_app in H. rewrite Hf by lia. cbn [mbind option_bind].
  rewrite Hg by (rewrite length_splice; lia). rewrite <- (app_nil_r l) at 1.
  rewrite splice_splice by (rewrite ?length_app; simpl; lia). by rewrite length_app, Nat.add_assoc, <- app_assoc.
Qed.

(** The null byte of a first number is overwritten by a second one. *)
Lemma prints_prints f g l l' :
  prints f l → prints g l' → prints (λ o, o ← f o; g o) (l ++ l').
Proof.
  intros Hf Hg b p H. rewrite length_app in H. rewrite Hf by lia. cbn [mbind option_bind].
  rewrite Hg by (rewrite length_splice; rewrite ?length_app; simpl; lia).
  rewrite splice_splice by (rewrite ?length_app; simpl; lia). by rewrite length_app, Nat.add_assoc, <- app_assoc.
Qed.

Lemma prints_ext f g l : (∀ o, f o = g o) → prints g l → prints f l.
Proof. intros E H b p Hp. rewrite E. by apply H. Qed.

Lemma prints_nil : prints itoa1 [].
Proof.
  intros b p H. unfold itoa1, put_char. simpl in *. rewrite (proj2 (Nat.ltb_lt _ _)) by lia.
  repeat f_equal; [|lia]. unfold splice. simpl. rewrite Nat.add_1_r. apply insert_take_drop. lia.
Qed.

Lemma lut_spec (d : nat) : (d < 100)%nat →
  [nth (2 * d) lut 0; nth (2 * d + 1) lut 0] = digs 2 (Z.of_nat d).
Proof.
  intros Hd. assert (forallb (λ d, bool_decide
    ([nth (2 * d) lut 0; nth (2 * d + 1) lut 0] = digs 2 (Z.of_nat d))) (seq 0 100) = true) as H
    by (vm_compute; reflexivity).
  rewrite forallb_forall in H. specialize (H d). apply bool_decide_eq_true in H; [done|].
  apply in_seq. lia.
Qed.

Lemma emits_out2 d : 0 ≤ d < 100 → emits (out2 d) (digs 2 d).
Proof.
  intros Hd. rewrite <- (Z2Nat.id d) at 2 by lia. rewrite <- lut_spec by lia.
  apply (emits_bind _ _ [_] [_]); apply emits_out1.
Qed.

Lemma drop_digits_mod u k : 0 ≤ u < two32 → 0 < k → drop_digits u (u / k) k = u mod k.
Proof.
  intros Hu Hk. unfold drop_digits, u32. rewrite Zminus_mod_idemp_r.
  replace (u mod k) with (u - u / k * k) by (rewrite (Z.mod_eq u k); lia).
  pose proof (Z.mul_div_le u k Hk). pose proof (Z.div_pos u k). apply Z.mod_small. nia.
Qed.

(** Two digits, then the rest. *)
Lemma two_then (k : nat) (g : Z → out → option out) u :
  0 ≤ u < 10 ^ Z.of_nat (2 + k) → 10 ^ Z.of_nat (2 + k) ≤ 10 ^ 10 → u < two32 →
  (∀ v, 0 ≤ v < 10 ^ Z.of_nat k → v < two32 → prints (g v) (digs k v)) →
  let d := u / 10 ^ Z.of_nat k in
  prints (λ o, o ← out2 d o; g (drop_digits u d (10 ^ Z.of_nat k)) o) (digs (2 + k) u).
Proof.
  intros Hu Hk H32 Hg d. rewrite digs_app. pose proof (pow10_pos k).
  change (2 + k)%nat with (S (S k)) in Hu, Hk. rewrite !pow10_S in Hu, Hk.
  apply prints_bind.
  - apply emits_out2. unfold d. split; [apply Z.div_pos; lia|apply Z.div_lt_upper_bound; lia].
  - unfold d. rewrite drop_digits_mod by lia. rewrite <- (digs_mod k u). pose proof (Z.mod_pos_bound u (10 ^ Z.of_nat k)).
    pose proof (Z.mod_le u (10 ^ Z.of_nat k)). apply Hg; lia.
Qed.

Lemma itoa2_prints u : 0 ≤ u < 100 → prints (itoa2 u) (digs 2 u).
Proof.
  intros. unfold itoa2. rewrite Z.div_1_r. rewrite <- (app_nil_r (digs 2 u)).
  apply prints_bind; [by apply emits_out2|apply prints_nil].
Qed.

Lemma itoa4_prints u : 0 ≤ u < 10000 → prints (itoa4 u) (digs 4 u).
Proof.
  intros. apply (two_then 2 itoa2); [simpl; lia..|unfold two32; lia|]. intros v Hv _. by apply itoa2_prints.
Qed.

Lemma itoa6_prints u : 0 ≤ u < 1000000 → prints (itoa6 u) (digs 6 u).
Proof.
  intros. apply (two_then 4 itoa4); [simpl; lia..|unfold two32; lia|]. intros v Hv _. by apply itoa4_prints.
Qed.

Lemma itoa8_prints u : 0 ≤ u < 100000000 → prints (itoa8 u) (digs 8 u).
Proof.
  intros. apply (two_then 6 itoa6); [simpl; lia..|unfold two32; lia|]. intros v Hv _. by apply itoa6_prints.
Qed.

Lemma itoa10_prints u : 0 ≤ u < two32 → prints (itoa10 u) (digs 10 u).
Proof.
  intros. apply (two_then 8 itoa8); [simpl; unfold two32 in *; lia..|].
  intros v Hv _. by apply itoa8_prints.
Qed.

(** One digit, then the rest. *)
Lemma one_then (k : nat) (g : Z → out → option out) u :
  0 ≤ u < 10 ^ Z.of_nat (S k) → u < two32 →
  (∀ v, 0 ≤ v < 10 ^ Z.of_nat k → prints (g v) (digs k v)) →
  let d := u / 10 ^ Z.of_nat k in
  prints (λ o, o ← out1 (digit d) o; g (drop_digits u d (10 ^ Z.of_nat k)) o) (digs (S k) u).
Proof.
  intros Hu H32 Hg d. change (S k) with (1 + k)%nat. rewrite digs_app. pose proof (pow10_pos k).
  rewrite !pow10_S in Hu. apply prints_bind.
  - simpl. rewrite Z.mod_small; [apply emits_out1|].
    split; [apply Z.div_pos; lia|apply Z.div_lt_upper_bound; lia].
  - unfold d. rewrite drop_digits_mod by lia. rewrite <- (digs_mod k u).
    pose proof (Z.mod_pos_bound u (10 ^ Z.of_nat k)). apply Hg. lia.
Qed.

(** [digits] makes the number of digits left even. *)
Lemma digits_then (k : nat) (g : Z → out → option out) u :
  (k = O ∨ 10 ^ Z.of_nat k ≤ u) → 0 ≤ u < 10 ^ Z.of_nat (2 + k) → u < two32 → (k ≤ 8)%nat →
  (∀ d o, itoa u o d (S k) = g (drop_digits u d (10 ^ Z.of_nat k)) o) →
  (∀ v, 0 ≤ v < 10 ^ Z.of_nat k → prints (g v) (digs k v)) →
  prints (λ o, itoa u o 0 (2 + k)) (digs (2 + k) u) →
  prints (λ o, '(d, o, n) ← digits u (10 ^ Z.of_nat k) 0 o (2 + k); itoa u o d n) (dec u).
Proof.
  intros Hl Hu H32 Hk Hodd Hg Heven. unfold digits.
  replace (u32 (10 ^ Z.of_nat k * 10)) with (10 ^ Z.of_nat (S k)).
  2:{ rewrite pow10_S, (Z.mul_comm 10). symmetry. apply Z.mod_small. pose proof (pow10_pos k).
      assert (10 ^ Z.of_nat k ≤ 10 ^ 8) by (apply Z.pow_le_mono_r; lia). unfold two32. lia. }
  destruct (u <? 10 ^ Z.of_nat (S k)) eqn:E; [apply Z.ltb_lt in E|apply Z.ltb_ge in E].
  - rewrite (dec_unique (S k)); [|lia..|].
    + eapply prints_ext; [|apply (one_then k g); [lia..|done]]. intros o. cbn [mbind option_bind].
      destruct (out1 _ o) as [o'|]; [|done]. cbn [mbind option_bind].
      replace (2 + k - 1)%nat with (S k) by lia. apply Hodd.
    + destruct Hl as [->|Hl]; [by left|right]. by replace (Z.of_nat (S k) - 1) with (Z.of_nat k) by lia.
  - rewrite (dec_unique (2 + k)); [done|lia|lia|right].
    by replace (Z.of_nat (2 + k) - 1) with (Z.of_nat (S k)) by lia.
Qed.

Lemma itoa_u32_prints u : 0 ≤ u < two32 → prints (itoa_u32 u) (dec u).
Proof.
  intros Hu. unfold itoa_u32.
  destruct (100000000 <=? u) eqn:E8; [apply Z.leb_le in E8|apply Z.leb_gt in E8].
  { apply (digits_then 8 itoa8); [right; simpl; lia|unfold two32 in *; simpl; lia|lia..|done| |].
    - intros v Hv. by apply itoa8_prints.
    - by apply itoa10_prints. }
  destruct (u <? 100) eqn:E0; [apply Z.ltb_lt in E0|apply Z.ltb_ge in E0].
  { apply (digits_then 0 (λ _, itoa1)); [by left|simpl; lia|lia..|done| |].
    - intros v Hv. apply prints_nil.
    - apply itoa2_prints. lia. }
  destruct (u <? 10000) eqn:E2; [apply Z.ltb_lt in E2|apply Z.ltb_ge in E2].
  { apply (digits_then 2 itoa2); [right; simpl; lia|simpl; lia|lia..|done| |].
    - intros v Hv. by apply itoa2_prints.
    - apply itoa4_prints. lia. }
  destruct (u <? 1000000) eqn:E4; [apply Z.ltb_lt in E4|apply Z.ltb_ge in E4].
  { apply (digits_then 4 itoa4); [right; simpl; lia|simpl; lia|lia..|done| |].
    - intros v Hv. by apply itoa4_prints.
    - apply itoa6_prints. lia. }
  apply (digits_then 6 itoa6); [right; simpl; lia|simpl; lia|lia..|done| |].
  - intros v Hv. by apply itoa6_prints.
  - apply itoa8_prints. lia.
Qed.

Lemma dec_app k u : 10 ^ Z.of_nat k ≤ u → dec u = dec (u / 10 ^ Z.of_nat k) ++ digs k u.
Proof.
  intros Hk. pose proof (pow10_pos k) as Hp. set (q := u / 10 ^ Z.of_nat k).
  assert (0 < q) by (apply Z.div_str_pos; lia).
  destruct (dec_len_spec (Z.to_nat q) q) as (H1 & H2 & H3); [split; [lia|apply pow10_gt; lia]|].
  unfold dec at 2. set (j := dec_len _ _) in *. unfold q. rewrite <- digs_app.
  pose proof (Z.div_mod u (10 ^ Z.of_nat k) ltac:(lia)) as Hm. fold q in Hm.
  pose proof (Z.mod_pos_bound u (10 ^ Z.of_nat k) Hp).
  apply dec_unique; [lia| |right].
  - rewrite Nat2Z.inj_add, Z.pow_add_r by lia. nia.
  - replace (Z.of_nat (j + k) - 1) with (Z.of_nat j - 1 + Z.of_nat k) by lia.
    rewrite Z.pow_add_r by lia. destruct H3 as [H3|H3]; [|nia].
    rewrite H3. replace (Z.of_nat 1 - 1) with 0 by lia. simpl. nia.
Qed.

Lemma itoa_u64_rec_prints fuel u :
  0 ≤ u < two32 * 1000000000 ^ Z.of_nat fuel → prints (itoa_u64_rec fuel u) (dec u).
Proof.
  revert u. induction fuel as [|f IH]; intros u Hu.
  - unfold itoa_u64_rec. simpl in Hu. unfold u32. rewrite Z.mod_small, Z.eqb_refl by lia.
    apply itoa_u32_prints. lia.
  - cbn [itoa_u64_rec]. destruct (Z.eqb_spec (u32 u) u) as [E|E].
    { rewrite E. apply itoa_u32_prints. rewrite <- E. apply Z.mod_pos_bound. done. }
    assert (two32 ≤ u) as H32.
    { destruct (Z.lt_ge_cases u two32); [|done]. destruct E. apply Z.mod_small. lia. }
    rewrite (dec_app 9) by (unfold two32 in *; simpl; lia).
    change (10 ^ Z.of_nat 9) with 1000000000.
    assert (u32 (u - u / 1000000000 * 1000000000) = u mod 1000000000) as El.
    { pose proof (Z.mod_pos_bound u 1000000000 ltac:(lia)). rewrite (Z.mod_eq u 1000000000) in * by lia.
      unfold u32. rewrite Z.mod_small; unfold two32; lia. }
    apply prints_prints.
    + apply IH. rewrite Nat2Z.inj_succ, Z.pow_succ_r in Hu by lia.
      split; [apply Z.div_pos; lia|apply Z.div_lt_upper_bound; lia].
    + rewrite El. rewrite <- (digs_mod 9 u). change (10 ^ Z.of_nat 9) with 1000000000.
      pose proof (Z.mod_pos_bound u 1000000000 ltac:(lia)).
      apply (one_then 8 itoa8); [simpl; lia|unfold two32; lia|]. intros v Hv. by apply itoa8_prints.
Qed.

Lemma itoa_u64_prints u : 0 ≤ u < two64 → prints (itoa_u64 u) (dec u).
Proof.
  intros. apply itoa_u64_rec_prints. simpl. unfold two64, two32 in *. simpl in *. lia.
Qed.

(** A signed number in decimal. *)
Definition sdec (i : Z) : bytes := if i <? 0 then 45 :: dec (- i) else dec i.

Lemma signed_prints (f : Z → out → option out) w i :
  (∀ u, 0 ≤ u < w → prints (f u) (dec u)) → 0 < w → - (w / 2) ≤ i < w / 2 →
  prints (λ o, if i <? 0 then o ← out1 45 o; f ((- (i mod w)) mod w) o else f (i mod w) o) (sdec i).
Proof.
  intros Hf Hw Hi. pose proof (Z.mul_div_le w 2 ltac:(lia)). unfold sdec.
  destruct (Z.ltb_spec i 0) as [H0|H0].
  - replace ((- (i mod w)) mod w) with (- i).
    + apply (prints_bind _ _ [45]); [apply emits_out1|]. apply Hf. lia.
    + rewrite <- (Z.sub_0_l (i mod w)), Zminus_mod_idemp_r, Z.mod_small; lia.
  - rewrite Z.mod_small by lia. apply Hf. lia.
Qed.

Lemma itoa_64_prints i : - 2 ^ 63 ≤ i < 2 ^ 63 → prints (itoa_64 i) (sdec i).
Proof. intros. by apply (signed_prints itoa_u64 two64); [apply itoa_u64_prints|..]. Qed.

Lemma length_dec u k : 0 ≤ u < 10 ^ Z.of_nat k → (1 ≤ k)%nat → (length (dec u) ≤ k)%nat.
Proof.
  intros Hu Hk. unfold dec. rewrite length_digs.
  destruct (dec_len_spec (Z.to_nat u) u) as (H1 & H2 & H3); [split; [lia|apply pow10_gt; lia]|].
  set (j := dec_len _ _) in *. destruct H3 as [->|H3]; [done|].
  destruct (decide (j ≤ k)%nat) as [|Hj]; [done|].
  assert (10 ^ Z.of_nat k ≤ 10 ^ (Z.of_nat j - 1)) by (apply Z.pow_le_mono_r; lia). lia.
Qed.

(** The printing functions write the decimal representation of their argument,
    with a sign if it is negative and a terminating null byte, at [p], return the
    position of that byte, and leave the rest of the buffer alone.  Eleven
    characters are enough for 32 bits and twenty for 64. *)
Theorem itoa_decimal b p i u v w :
  let fits l := (p + length l < length b)%nat in
  let printed l := Some (splice b p (l ++ [0]), (p + length l)%nat) in
  - 2 ^ 31 ≤ i < 2 ^ 31 → 0 ≤ u < two32 → 0 ≤ v < two64 → - 2 ^ 63 ≤ w < 2 ^ 63 →
  (fits (dec u) → itoa_u32 u (b, p) = printed (dec u)) ∧
  (fits (sdec i) → itoa_32 i (b, p) = printed (sdec i)) ∧
  (fits (dec v) → itoa_u64 v (b, p) = printed (dec v)) ∧
  (fits (sdec w) → itoa_64 w (b, p) = printed (sdec w)) ∧
  (length (dec u) ≤ 10)%nat ∧ (length (sdec i) ≤ 11)%nat ∧
  (length (dec v) ≤ 20)%nat ∧ (length (sdec w) ≤ 20)%nat.
Proof.
  intros fits printed Hi Hu Hv Hw.
  split; [apply itoa_u32_prints; lia|].
  split; [apply (signed_prints itoa_u32 two32); [apply itoa_u32_prints|done|done]|].
  split; [apply itoa_u64_prints; lia|].
  split; [by apply itoa_64_prints|].
  unfold sdec, two32, two64 in *.
  split; [apply length_dec; simpl; lia|].
  split; [case_match; simpl; [apply le_n_S, length_dec; simpl; lia|etrans; [apply (length_dec _ 10); simpl; lia|lia]]|].
  split; [apply length_dec; simpl; lia|].
  case_match; simpl; [apply le_n_S, length_dec; simpl; lia|etrans; [apply (length_dec _ 19); simpl; lia|lia]].
Qed.

Lemma itoa_decimal_witness :
  let b := replicate 24 7 in
  itoa_64 (-907) (b, 1%nat) = Some (splice b 1 (sdec (-907) ++ [0]), 5%nat).
Proof.
  intros b. destruct (itoa_decimal b 1 (-5) 5 5 (-907)) as (_ & _ & _ & H & _);
    [unfold two32, two64; lia..|]. apply H. vm_compute. lia.
Defined.
