(* ===== verification/ItemFrame.v ===== *)
(** What the operations on one item leave alone: the headers of all others but for their
    queue pointers, the key and the size of the item itself, and the shape of the slab
    classes.  Then: how many chunks a class can have. *)

From S2P Require Import Prelude Item Slabs Assoc Items.

(** ** The shape of the classes *)

Definition shape (s : slab_state) (id : nat) : Z * Z * Z :=
  (size (cls s id), perslab (cls s id), slabs (cls s id)).

Record same_shape (s s' : slab_state) : Prop := {
  sh_largest : power_largest s' = power_largest s;
  sh_class id : valid s id → shape s' id = shape s id;
  sh_chunk id a : valid s id → chunk s' id a ↔ chunk s id a;
  sh_page id k p : valid s id → page s' id k p ↔ page s id k p
}.

Lemma same_shape_refl s : same_shape s s.
Proof. done. Qed.

Lemma same_shape_trans s1 s2 s3 : same_shape s1 s2 → same_shape s2 s3 → same_shape s1 s3.
Proof.
  intros [H1 H2 H3 P1] [H4 H5 H6 P2]. assert (∀ id, valid s1 id → valid s2 id) as Hv by (intros id; unfold valid; by rewrite H1).
  split; [congruence|..].
  - intros id Hid. rewrite H5, H2; auto.
  - intros id a Hid. rewrite H6, H3; auto.
  - intros id k p Hid. rewrite P2, P1; auto.
Qed.

Lemma same_shape_class s id p :
  size p = size (cls s id) → perslab p = perslab (cls s id) → slabs p = slabs (cls s id) →
  slab_list p = slab_list (cls s id) → same_shape s (with_class s id p).
Proof.
  intros H1 H2 H3 H4. assert (∀ i, shape (with_class s id p) i = shape s i ∧
    slab_list (cls (with_class s id p) i) = slab_list (cls s i)) as H.
  { intros i. unfold shape. destruct (decide (id < length (slabclass s))%nat) as [Hlt|Hge].
    - destruct (decide (id = i)) as [<-|]; [rewrite cls_set_eq by done; split; congruence|by rewrite cls_set_ne].
    - unfold cls, with_class. cbn [slabclass]. rewrite list_insert_ge by lia. done. }
  split; [done|intros i _; apply H|..]; intros i; destruct (H i) as [[= E1 E2 E3] E4];
    unfold chunk, page; by rewrite ?E1, ?E2, E3, E4.
Qed.

Lemma push_free_shape s id a sz : same_shape s (push_free s id a sz).
Proof.
  unfold push_free. set (p := mkClass _ _ _ _ _ _ _ _). by destruct (same_shape_class s id p) as [H1 H2 H3 H4]; split.
Qed.

(** ** The frame of an operation on [a] *)

Record frame (c c' : cache) (a : Z) : Prop := {
  fr_payload b : b ≠ a → payload (ith c' b) = payload (ith c b);
  fr_key : key (ith c' a) = key (ith c a);
  fr_nbytes : nbytes (ith c' a) = nbytes (ith c a);
  fr_shape : same_shape (slab c) (slab c')
}.

Lemma frame_refl c a : frame c c a.
Proof. by split. Qed.

Lemma frame_trans c1 c2 c3 a : frame c1 c2 a → frame c2 c3 a → frame c1 c3 a.
Proof.
  intros [A1 A2 A3 A4] [B1 B2 B3 B4]. split; [|congruence|congruence|by eapply same_shape_trans].
  intros b Hb. rewrite B1, A1; done.
Qed.

Lemma frame_set_item c a f :
  (∀ i, key (f i) = key i ∧ nbytes (f i) = nbytes i) → frame c (set_item c a f) a.
Proof.
  intros Hf. destruct (Hf (ith c a)) as [Hk Hn]. split; [|by rewrite ith_set_eq..|done].
  intros b Hb. by rewrite ith_set_ne.
Qed.

Lemma frame_payload c c' a :
  (∀ b, payload (ith c' b) = payload (ith c b)) → same_shape (slab c) (slab c') → frame c c' a.
Proof.
  intros Hp Hs. split; [by intros b _|..|done].
  - apply (f_equal key (Hp a)).
  - apply (f_equal nbytes (Hp a)).
Qed.

Lemma assert_some b {A} (m : option A) x : (assert_ b;; m) = Some x → b = true ∧ m = Some x.
Proof. destruct b; [done|]. by intros [=]. Qed.

Lemma link_q_payload c a c' :
  do_item_link_q c a = Some c' → (∀ b, payload (ith c' b) = payload (ith c b)) ∧ same_shape (slab c) (slab c').
Proof.
  unfold do_item_link_q. intros [_ [_ [_ [= <-]]%assert_some]%assert_some]%assert_some.
  split; [|done]. intros b. apply push_payload.
Qed.

Lemma unlink_q_payload c a c' :
  do_item_unlink_q c a = Some c' → (∀ b, payload (ith c' b) = payload (ith c b)) ∧ same_shape (slab c) (slab c').
Proof.
  unfold do_item_unlink_q.
  intros [_ [_ [Hn [Hp [= <-]]%assert_some]%assert_some]%assert_some]%assert_some.
  apply negb_true_iff, Z.eqb_neq in Hn, Hp. split; [|done]. intros b. by apply cut_payload.
Qed.

Lemma link_q_frame c a c' : do_item_link_q c a = Some c' → frame c c' a.
Proof. intros [? ?]%link_q_payload. by apply frame_payload. Qed.

Lemma unlink_q_frame c a c' : do_item_unlink_q c a = Some c' → frame c c' a.
Proof. intros [? ?]%unlink_q_payload. by apply frame_payload. Qed.

Section Frames.
Context (st : item_settings) (now : Z).

Lemma refcount_incr_frame c a : frame c (refcount_incr c a) a.
Proof. by apply frame_set_item. Qed.

Lemma refcount_decr_frame c a : frame c (refcount_decr c a) a.
Proof. by apply frame_set_item. Qed.

Lemma slabs_free_frame c a sz id s' :
  has_flag (ith c a) ITEM_CHUNKED = false → do_slabs_free (slab_settings st) (slab c) a sz id = Some s' →
  frame c (with_slab c s') a.
Proof.
  intros Hc. unfold do_slabs_free. destruct (_ || _); [done|]. change (hdr (chunks_mem (slab c)) a) with (ith c a).
  rewrite Hc. intros [= <-]. set (f := λ i, set_slabs_clsid 0 (set_it_flags ITEM_SLABBED i)).
  apply (frame_trans _ (set_item c a f)); [by apply frame_set_item|]. apply frame_payload.
  - intros b. apply push_payload.
  - destruct (push_free_shape (slab c) id a sz) as [H1 H2 H3 H4]. split; [exact H1|exact H2|exact H3|exact H4].
Qed.

Lemma item_free_frame c a c' :
  has_flag (ith c a) ITEM_CHUNKED = false → item_free st c a = Some c' → frame c c' a.
Proof.
  intros Hc. unfold item_free. intros [_ [_ [_ [_ H]%assert_some]%assert_some]%assert_some]%assert_some.
  destruct (do_slabs_free _ _ _ _ _) as [s'|] eqn:E; [|done]. injection H as <-. by eapply slabs_free_frame.
Qed.

Lemma remove_frame c a c' :
  has_flag (ith c a) ITEM_CHUNKED = false → do_item_remove st c a = Some c' → frame c c' a.
Proof.
  intros Hc. unfold do_item_remove. intros [_ [_ H]%assert_some]%assert_some.
  pose proof (refcount_decr_frame c a) as Hd. destruct (_ =? 0); [|by injection H as <-].
  eapply frame_trans; [exact Hd|]. eapply item_free_frame; [|exact H].
  unfold refcount_decr. by rewrite ith_set_eq.
Qed.

Lemma unlink_frame c a hv c' :
  has_flag (ith c a) ITEM_CHUNKED = false → do_item_unlink st c a hv = Some c' → frame c c' a.
Proof.
  intros Hc. unfold do_item_unlink. destruct (has_flag (ith c a) ITEM_LINKED); [|intros [= ->]; apply frame_refl].
  set (c1 := set_item c a (clear_flag ITEM_LINKED)).
  assert (frame c c1 a) as H1 by by apply frame_set_item.
  destruct (assoc_delete _ _ _) as [t|]; [|done]. cbn [mbind option_bind].
  match goal with |- context [do_item_unlink_q ?x a] => set (c2 := x) end.
  assert (frame c c2 a) as H2 by (destruct H1 as [? ? ? ?]; by split).
  destruct (do_item_unlink_q c2 a) as [c3|] eqn:E3; [|done]. cbn [mbind option_bind]. intros H4.
  destruct (unlink_q_payload _ _ _ E3) as [Hp3 _].
  eapply frame_trans; [exact H2|]. eapply frame_trans; [by eapply unlink_q_frame|]. eapply remove_frame; [|exact H4].
  pose proof (f_equal it_flags (Hp3 a)) as Hfl. unfold payload in Hfl. cbn [it_flags set_next set_prev] in Hfl.
  assert (has_flag (ith c3 a) ITEM_CHUNKED = has_flag (ith c1 a) ITEM_CHUNKED) as -> by (unfold has_flag; by rewrite Hfl).
  unfold c1. by rewrite ith_set_eq, has_flag_clear_other.
Qed.

Lemma link_frame c a hv c' : do_item_link st now c a hv = Some c' → frame c c' a.
Proof.
  unfold do_item_link. intros [_ H]%assert_some.
  set (c1 := set_item c a (λ i, set_time now (add_flag ITEM_LINKED i))) in *.
  assert (frame c c1 a) as H1 by by apply frame_set_item.
  match type of H with context [with_stats ?x ?y ?z ?w] => set (c2 := with_stats x y z w) in * end.
  destruct (if use_cas _ then _ else _) as [c3 v] eqn:E3.
  assert (frame c c3 a) as H3.
  { destruct (use_cas _); injection E3 as <- _; destruct H1 as [? ? ? ?]; by split. }
  match type of H with context [do_item_link_q ?x a] => set (c4 := x) in * end.
  assert (frame c c4 a) as H4.
  { eapply frame_trans; [exact H3|].
    assert (frame c3 (set_item c3 a (ITEM_set_cas v)) a) as [? ? ? ?]; [|by split].
    apply frame_set_item. intros i. unfold ITEM_set_cas. by destruct (has_flag _ _). }
  destruct (do_item_link_q c4 a) as [c5|] eqn:E5; [|done]. cbn [mbind option_bind] in H. injection H as <-.
  eapply frame_trans; [exact H4|]. eapply frame_trans; [by eapply link_q_frame|apply refcount_incr_frame].
Qed.

Lemma update_nolock_frame c a c' : do_item_update_nolock now c a = Some c' → frame c c' a.
Proof.
  unfold do_item_update_nolock. destruct (stale _ _); [|intros [= ->]; apply frame_refl].
  intros [_ H]%assert_some. destruct (has_flag _ _); [|injection H as ->; apply frame_refl].
  destruct (do_item_unlink_q c a) as [c1|] eqn:E; [|done]. cbn [mbind option_bind] in H.
  eapply frame_trans; [by eapply unlink_q_frame|]. eapply frame_trans; [|by eapply link_q_frame].
  by apply frame_set_item.
Qed.

Lemma update_frame c a c' : do_item_update st now c a = Some c' → frame c c' a.
Proof.
  unfold do_item_update. assert (frame c (set_item c a (set_time now)) a) as Ht by by apply frame_set_item.
  destruct (lru_segmented st).
  - intros [_ H]%assert_some. destruct (has_flag _ _); [|injection H as ->; apply frame_refl].
    destruct (_ && _).
    + destruct (do_item_unlink_q _ a) as [c1|] eqn:E; [|done]. cbn [mbind option_bind] in H. rewrite !set_item_twice in H.
      eapply frame_trans; [exact Ht|]. eapply frame_trans; [by eapply unlink_q_frame|].
      eapply frame_trans; [|by eapply link_q_frame]. by apply frame_set_item.
    + destruct (stale _ _); injection H as <-; [done|apply frame_refl].
  - destruct (stale _ _); [|intros [= ->]; apply frame_refl].
    intros [_ H]%assert_some. destruct (has_flag _ _); [|injection H as ->; apply frame_refl].
    destruct (do_item_unlink_q _ a) as [c1|] eqn:E; [|done]. cbn [mbind option_bind] in H.
    eapply frame_trans; [exact Ht|]. eapply frame_trans; [by eapply unlink_q_frame|by eapply link_q_frame].
Qed.

Lemma hit_frame c a hv conn c' : hit st now c a hv conn = Some c' → frame c c' a.
Proof.
  assert (∀ f c, frame c (set_item c a (add_flag f)) a) as Hf by (intros; by apply frame_set_item).
  assert (∀ f c, frame c (set_item c a (clear_flag f)) a) as Hg by (intros; by apply frame_set_item).
  unfold hit. destruct (lru_segmented st).
  - destruct (has_flag _ ITEM_ACTIVE); [intros [= ->]; apply frame_refl|].
    destruct (has_flag _ ITEM_FETCHED); cbn [negb]; [|by intros [= <-]].
    destruct (_ =? COLD_LRU); cbn [negb]; [|intros ?%update_frame; by eapply frame_trans].
    destruct conn as [[]|]; [..|by intros [= <-]]; unfold lru_bump_async; intros [= <-].
    + eapply frame_trans; [apply Hf|]. destruct (refcount_incr_frame (set_item c a (add_flag ITEM_ACTIVE)) a). by split.
    + eapply frame_trans; [apply Hf|]. eapply frame_trans; [apply refcount_incr_frame|].
      eapply frame_trans; [apply refcount_decr_frame|apply Hg].
  - intros ?%update_frame. by eapply frame_trans.
Qed.

End Frames.

(** ** How many chunks there are *)

Definition page_chunks (s : slab_state) (id k : nat) : list Z :=
  match slab_list (cls s id) !! k with
  | Some p => chunk_seq p (size (cls s id)) (Z.to_nat (perslab (cls s id)))
  | None => []
  end.

Definition all_chunks (s : slab_state) (id : nat) : list Z :=
  seq 0 (Z.to_nat (slabs (cls s id))) ≫= page_chunks s id.

Lemma elem_of_all_chunks s id a : a ∈ all_chunks s id ↔ chunk s id a.
Proof.
  unfold all_chunks. rewrite list_elem_of_bind. unfold page_chunks, chunk, page. split.
  - intros (k & Ha & Hk). destruct (slab_list (cls s id) !! k) as [p|] eqn:E; [|by apply not_elem_of_nil in Ha].
    apply elem_of_chunk_seq in Ha as (j & Hj & ->). apply elem_of_seq in Hk. exists k, p, j.
    split_and!; [done|lia|lia|lia|done].
  - intros (k & p & i & [Hp Hk] & Hi & ->). exists k. rewrite Hp. split; [|apply elem_of_seq; lia].
    apply elem_of_chunk_seq. exists i. split; [lia|done].
Qed.

#[global] Instance chunk_dec s id a : Decision (chunk s id a).
Proof.
  destruct (decide (a ∈ all_chunks s id)) as [H|H]; [left|right]; by rewrite <-elem_of_all_chunks.
Defined.

Lemma all_chunks_length s id : Z.of_nat (length (all_chunks s id)) ≤ Z.max 0 (slabs (cls s id)) * Z.max 0 (perslab (cls s id)).
Proof.
  unfold all_chunks. set (n := Z.to_nat (slabs (cls s id))).
  assert (∀ l : list nat, (length (l ≫= page_chunks s id) ≤ length l * Z.to_nat (perslab (cls s id)))%nat) as Hl.
  { induction l as [|k l IH]; [done|]. rewrite bind_cons, length_app. cbn [length].
    assert (length (page_chunks s id k) ≤ Z.to_nat (perslab (cls s id)))%nat; [|lia].
    unfold page_chunks. destruct (_ !! k); [|cbn; lia]. unfold chunk_seq. by rewrite length_fmap, length_seq. }
  specialize (Hl (seq 0 n)). rewrite length_seq in Hl. unfold n in *. lia.
Qed.

(** [n] more pages of any class do not overflow its counters. *)
Definition fits (n : nat) (s : slab_state) : Prop :=
  ∀ id, valid s id → (slabs (cls s id) + Z.of_nat n) * 2 + 32 < two32 ∧
    (slabs (cls s id) + Z.of_nat n + 1) * perslab (cls s id) < two32.

Section Counts.
Context (st : settings).

Lemma fits_less n s : slabs_ok st s → fits (S n) s → fits n s.
Proof.
  intros [_ Hp _] Hf id Hid. destruct (Hf id Hid), (p_size _ _ Hp id Hid) as (? & ? & _), (p_list _ _ Hp id) as [? _]. nia.
Qed.

Lemma fits_shape n s s' : same_shape s s' → fits n s → fits n s'.
Proof.
  intros [Hl Hs _] Hf id Hid. assert (valid s id) as Hid' by (unfold valid in *; by rewrite <-Hl).
  specialize (Hs id Hid'). unfold shape in Hs. injection Hs as _ -> ->. by apply Hf.
Qed.

Lemma NoDup_length_le {A} `{EqDecision A} (l k : list A) : NoDup l → (∀ x, x ∈ l → x ∈ k) → (length l ≤ length k)%nat.
Proof. intros H1 H2. by apply submseteq_length, NoDup_submseteq. Qed.

(** A chunk in use is one that is not free. *)
Lemma free_count s id :
  slabs_ok st s → valid s id → sl_curr (cls s id) ≤ slabs (cls s id) * perslab (cls s id) ∧
  ∀ a, held s id a → sl_curr (cls s id) + 1 ≤ slabs (cls s id) * perslab (cls s id).
Proof.
  intros [Hl Hp Hc] Hid. destruct (l_class _ _ Hl id Hid) as [_ Hn _ Hnd _]. rewrite Hn.
  destruct (p_size _ _ Hp id Hid) as (_ & Hps & _), (p_list _ _ Hp id) as [Hsl _].
  pose proof (all_chunks_length s id) as Hlen. rewrite !Z.max_r in Hlen by lia. split.
  - pose proof (NoDup_length_le (free_list s id) (all_chunks s id) Hnd) as H.
    enough (length (free_list s id) ≤ length (all_chunks s id))%nat by lia.
    apply H. intros x Hx. apply elem_of_all_chunks. by apply Hc.
  - intros a [Ha Hfr]. pose proof (NoDup_length_le (a :: free_list s id) (all_chunks s id)) as H.
    enough (length (a :: free_list s id) ≤ length (all_chunks s id))%nat by (cbn [length] in *; lia).
    apply H; [by apply list.NoDup_cons|]. intros x Hx. apply elem_of_all_chunks.
    apply elem_of_cons in Hx as [->|Hx]; [done|by apply Hc].
Qed.

Lemma fits_room n s id : slabs_ok st s → fits n s → valid s id → room s id.
Proof.
  intros Hok Hf Hid. destruct (free_count s id Hok Hid) as [H _], (Hf id Hid) as [H1 H2].
  destruct Hok as [_ Hp _]. destruct (p_size _ _ Hp id Hid) as (_ & Hps & _). split; [lia|nia].
Qed.

End Counts.

Lemma fits_free_room st hash n c L X a :
  cache_ok st hash c L X → fits n (slab c) → in_use (slab c) a (ith c a) → free_room c a.
Proof.
  intros Hok Hf [Hv Hh _ _ _]. destruct (free_count _ _ _ (co_slabs _ _ _ _ _ Hok) Hv) as [_ H].
  specialize (H a Hh). destruct (Hf _ Hv) as [_ H2]. unfold free_room.
  destruct (co_slabs _ _ _ _ _ Hok) as [_ Hp _]. destruct (p_size _ _ Hp _ Hv) as (_ & Hps & _). nia.
Qed.
