(* ===== verification/ItemInv.v ===== *)
(** The invariant of the items between operations, and what an operation on one item does
    to it.

    An item is in use from the time it is allocated until its last reference goes.  Its
    references are those of the callers, [extra], and the one of its link. *)

From S2P Require Import Prelude Item Slabs Assoc Items ItemFrame.

(** ** Steps on one item *)

Definition used (c : cache) (a : Z) : Prop := in_use (slab c) a (ith c a).
Definition is_linked (c : cache) (a : Z) : bool := has_flag (ith c a) ITEM_LINKED.

(** The references other than the link's. *)
Definition extra (c : cache) (a : Z) : Z := refcount (ith c a) - (if is_linked c a then 1 else 0).

Record step (c c' : cache) (a : Z) : Prop := {
  st_frame : frame c c' a;
  st_held i b : valid (slab c) i → b ≠ a → held (slab c') i b ↔ held (slab c) i b;
  st_back i b : valid (slab c) i → held (slab c') i b → held (slab c) i b
}.

Lemma step_refl c a : step c c a.
Proof. split; [apply frame_refl|done|done]. Qed.

Lemma step_trans c1 c2 c3 a : step c1 c2 a → step c2 c3 a → step c1 c3 a.
Proof.
  intros [F1 H1 B1] [F2 H2 B2]. assert (∀ i, valid (slab c1) i → valid (slab c2) i) as Hv.
  { intros i. unfold valid. by rewrite (sh_largest _ _ (fr_shape _ _ _ F1)). }
  split; [by eapply frame_trans|..]; intros i b Hi; [intros Hb; rewrite H2, H1; auto|auto].
Qed.

Lemma step_same c c' a : frame c c' a → same_held (slab c) (slab c') → step c c' a.
Proof. intros HF (_ & _ & Hh). split; [done|..]; intros i b Hi; [intros _|]; by apply Hh. Qed.

Lemma step_freed c c' a id : frame c c' a → freed (slab c) (slab c') id a → step c c' a.
Proof. intros HF [_ Hh]. split; [done|..]; intros i b Hi; rewrite Hh by done; naive_solver. Qed.

Lemma step_used c c' a b : step c c' a → b ≠ a → used c' b ↔ used c b.
Proof.
  intros [[Hp _ _ Hs] Hh _] Hb. unfold used.
  assert (∀ c1 c2, power_largest (slab c2) = power_largest (slab c1) → payload (ith c2 b) = payload (ith c1 b) →
    (∀ i, valid (slab c1) i → held (slab c1) i b → held (slab c2) i b) →
    in_use (slab c1) b (ith c1 b) → in_use (slab c2) b (ith c2 b)) as Hgen.
  { intros c1 c2 Hl Hpay Hheld Hu. apply (payload_in_use (slab c2) b (ith c1 b)); [done|].
    destruct Hu as [Hv Hh1 H1 H2 H3]. split; [|by apply Hheld|done..]. unfold valid in *. by rewrite Hl. }
  pose proof (sh_largest _ _ Hs) as Hl. split; apply Hgen; try done; try (symmetry; by auto); try by auto.
  - intros i Hi. apply Hh; [|done]. unfold valid in *. by rewrite <-Hl.
  - intros i Hi. by apply Hh.
Qed.

Lemma payload_refcount it it' : payload it' = payload it → refcount it' = refcount it ∧ it_flags it' = it_flags it ∧ nbytes it' = nbytes it ∧ key it' = key it.
Proof. destruct it, it'. by intros [=]; subst. Qed.

Lemma step_fields c c' a b : step c c' a → b ≠ a →
  refcount (ith c' b) = refcount (ith c b) ∧ is_linked c' b = is_linked c b ∧ extra c' b = extra c b.
Proof.
  intros [[Hp _ _ _] _ _] Hb. destruct (payload_refcount _ _ (Hp b Hb)) as (Hr & Hf & _).
  unfold extra, is_linked, has_flag. by rewrite Hr, Hf.
Qed.

Lemma step_key c c' a b : step c c' a → key (ith c' b) = key (ith c b) ∧ nbytes (ith c' b) = nbytes (ith c b).
Proof.
  intros [[Hp Hk Hn _] _ _]. destruct (decide (b = a)) as [->|Hb]; [done|].
  by destruct (payload_refcount _ _ (Hp b Hb)) as (_ & _ & ? & ?).
Qed.

(** ** The invariant *)

(** A chunk belongs to one class. *)
Lemma chunk_class st s i j a : pages_ok st s → valid s i → valid s j → chunk s i a → chunk s j a → i = j.
Proof.
  intros Hp Hi Hj Hci Hcj. destruct (decide (i = j)) as [|Hne]; [done|].
  destruct (p_size _ _ Hp i Hi), (p_size _ _ Hp j Hj).
  destruct (chunks_apart st s i j a a Hp Hi Hj Hci Hcj); [congruence|lia..].
Qed.

Section Inv.
Context (st : item_settings) (hash : bytes → Z) (now : Z).

(** [n] more operations overflow no counter. *)
Record inv (n : nat) (c : cache) (L : nat → list Z) : Prop := {
  v_ok : cache_ok st hash c L [];
  v_fits : fits n (slab c);
  v_low a : used c a → 0 ≤ extra c a;
  v_high a : used c a → refcount (ith c a) + 2 * Z.of_nat n < 2 ^ 16;
  v_flag a : used c a → is_linked c a = true → ∃ id, (id < LARGEST_ID)%nat ∧ a ∈ L id
}.

Lemma inv_less n c L : inv (S n) c L → inv n c L.
Proof.
  intros [H1 H2 H3 H4 H5]. split; try done.
  - eapply fits_less; [apply H1|done].
  - intros a Ha. specialize (H4 a Ha). lia.
Qed.

Lemma inv_queued n c L a id : inv n c L → (id < LARGEST_ID)%nat → a ∈ L id →
  used c a ∧ is_linked c a = true ∧ 1 ≤ refcount (ith c a) < 2 ^ 16 ∧ a ≠ 0 ∧
  amap (table c) !! key (ith c a) = Some (mkItem (key (ith c a)) a).
Proof.
  intros HI Hid Ha. pose proof (v_ok _ _ _ HI) as Hok. destruct (queue_use _ _ Hok id a Hid Ha) as [Hu _].
  destruct (linked_queued _ _ c L a id Hok Hid Ha) as [Hl Hr Hm]. split_and!; try done; [lia..|].
  by eapply use_nonzero.
Qed.

(** The state after a step, from what it did to the item. *)
Lemma inv_members n c L c' L' a :
  inv n c L → cache_ok st hash c' L' [] → step c c' a →
  (∀ b id, b ≠ a → (id < LARGEST_ID)%nat → b ∈ L id → ∃ id', (id' < LARGEST_ID)%nat ∧ b ∈ L' id') →
  (used c' a → 0 ≤ extra c' a ∧ refcount (ith c' a) + 2 * Z.of_nat n < 2 ^ 16 ∧
     (is_linked c' a = true → ∃ id, (id < LARGEST_ID)%nat ∧ a ∈ L' id)) →
  inv n c' L'.
Proof.
  intros [H1 H2 H3 H4 H5] Hok HS HL Ha.
  assert (∀ b, b ≠ a → used c' b → used c b) as Hu by (intros b Hb; by apply (step_used c c' a)).
  split; [done|eapply fits_shape; [apply HS|done]|..]; intros b Hub; destruct (decide (b = a)) as [->|Hne];
    try (by apply Ha); destruct (step_fields c c' a b HS Hne) as (Hr & Hl & He).
  - rewrite He. by apply H3, Hu.
  - rewrite Hr. by apply H4, Hu.
  - rewrite Hl. intros Hlk. destruct (H5 b (Hu b Hne Hub) Hlk) as (id & Hid & Hin). by eapply HL.
Qed.

Lemma inv_step n c L c' L' a :
  inv n c L → cache_ok st hash c' L' [] → step c c' a →
  (∀ b id, b ≠ a → b ∈ L id → b ∈ L' id) →
  (used c' a → 0 ≤ extra c' a ∧ refcount (ith c' a) + 2 * Z.of_nat n < 2 ^ 16 ∧
     (is_linked c' a = true → ∃ id, (id < LARGEST_ID)%nat ∧ a ∈ L' id)) →
  inv n c' L'.
Proof. intros HI Hok HS HL Ha. apply (inv_members n c L c' L' a); eauto. Qed.

(** ** Operations *)

Lemma slabs_freed c a sz id s' :
  has_flag (ith c a) ITEM_CHUNKED = false → do_slabs_free (slab_settings st) (slab c) a sz id = Some s' →
  ¬ used (with_slab c s') a.
Proof.
  intros Hc. unfold do_slabs_free. destruct (_ || _); [done|]. change (hdr (chunks_mem (slab c)) a) with (ith c a).
  rewrite Hc. intros [= <-] [_ _ Hs _ _]. revert Hs.
  unfold ith, mem_of_cache, push_free. cbn [with_slab slab with_mem with_class chunks_mem].
  match goal with |- context [push a ?x ?h] => destruct (payload_refcount _ _ (push_payload a x h a)) as (_ & Hf & _) end.
  unfold has_flag. by rewrite Hf, hdr_upd_eq.
Qed.

Lemma flags_freed c a c' :
  has_flag (ith c a) ITEM_CHUNKED = false → item_free st c a = Some c' → ¬ used c' a.
Proof.
  intros Hc. unfold item_free. intros [_ [_ [_ [_ H]%assert_some]%assert_some]%assert_some]%assert_some.
  destruct (do_slabs_free _ _ _ _ _) as [s'|] eqn:E; [|done]. injection H as <-. by eapply slabs_freed.
Qed.

Lemma remove_inv n c L a :
  inv n c L → used c a → 1 ≤ extra c a →
  ∃ c', do_item_remove st c a = Some c' ∧ inv n c' L ∧ step c c' a ∧ table c' = table c ∧
    if refcount (ith c a) =? 1 then ¬ used c' a ∧ ¬ held (slab c') (clsid_of (ith c a)) a
    else used c' a ∧ refcount (ith c' a) = refcount (ith c a) - 1 ∧ is_linked c' a = is_linked c a.
Proof.
  intros HI Hu He. pose proof HI as [Hok Hf Hlow Hhigh Hflag]. pose proof (Hhigh a Hu) as Hhi.
  assert (1 ≤ refcount (ith c a) < 2 ^ 16) as Hr by (unfold extra in He; destruct (is_linked c a); lia).
  destruct (do_item_remove_ok st hash c L a Hok Hu Hr) as (c' & E & Hok' & Ht & _ & Hcase).
  { intros H1. split; [|by eapply fits_free_room]. unfold extra, is_linked in He. destruct (has_flag _ _); [lia|done]. }
  pose proof (remove_frame st c a c' (u_chunked _ _ _ Hu) E) as HF. exists c'.
  destruct (Z.eqb_spec (refcount (ith c a)) 1) as [H1|H1].
  - assert (¬ used c' a) as Hnu.
    { revert E. unfold do_item_remove. intros [_ [_ E]%assert_some]%assert_some.
      assert (refcount (ith (refcount_decr c a) a) = 0) as H0.
      { unfold refcount_decr. rewrite ith_set_eq. cbn [refcount set_refcount]. rewrite H1. done. }
      rewrite H0, Z.eqb_refl in E. apply flags_freed in E; [done|].
      unfold refcount_decr. rewrite ith_set_eq. apply (u_chunked _ _ _ Hu). }
    assert (step c c' a) as HS by by eapply step_freed. split_and!; try done.
    + eapply inv_step; [exact HI|done|done|done|done].
    + destruct Hcase as [_ Hh]. rewrite Hh by apply Hu. by intros [_ []].
  - destruct Hcase as [Hh Hi]. assert (step c c' a) as HS by by apply step_same.
    assert (is_linked c' a = is_linked c a) as Hl by (unfold is_linked; by rewrite Hi).
    assert (used c' a) as Hu'.
    { unfold used. rewrite Hi. eapply in_use_held; [exact Hh|]. by eapply in_use_same; [|exact Hu]. }
    assert (refcount (ith c' a) = refcount (ith c a) - 1) as Hr' by by rewrite Hi.
    split_and!; try done. eapply inv_step; [exact HI|done|done|done|]. intros _.
    split_and!; [unfold extra in *; rewrite Hl, Hr'; lia|lia|]. rewrite Hl. by apply Hflag.
Qed.

Lemma set_list_remove (L : nat → list Z) id l1 l2 (a : Z) b i :
  L id = l1 ++ a :: l2 → b ≠ a → b ∈ L i → b ∈ set_list L id (l1 ++ l2) i.
Proof.
  intros HL Hb Hin. unfold set_list. case_decide; [subst i|done]. rewrite HL in Hin.
  rewrite elem_of_app in *. rewrite elem_of_cons in Hin. naive_solver.
Qed.

Lemma unlink_inv n c L a id l1 l2 :
  inv n c L → (id < LARGEST_ID)%nat → L id = l1 ++ a :: l2 →
  ∃ c', do_item_unlink st c a (hash (key (ith c a))) = Some c' ∧ inv n c' (set_list L id (l1 ++ l2)) ∧ step c c' a ∧
    amap (table c') = delete (key (ith c a)) (amap (table c)) ∧
    if refcount (ith c a) =? 1 then ¬ used c' a
    else used c' a ∧ refcount (ith c' a) = refcount (ith c a) - 1 ∧ is_linked c' a = false.
Proof.
  intros HI Hid HL. pose proof HI as [Hok Hf Hlow Hhigh Hflag].
  assert (a ∈ L id) as Ha by (rewrite HL, elem_of_app, elem_of_cons; auto).
  destruct (inv_queued n c L a id HI Hid Ha) as (Hu & Hl & Hr & _).
  destruct (do_item_unlink_ok st hash c L a id l1 l2 Hok Hid HL) as (c' & E & Hok' & Hm & _ & Hcase); [by eapply fits_free_room|].
  pose proof (unlink_frame st c a _ c' (u_chunked _ _ _ Hu) E) as HF.
  exists c'.
  assert (∀ b i, b ≠ a → b ∈ L i → b ∈ set_list L id (l1 ++ l2) i) as Hsub.
  { intros b i Hb Hin. by eapply set_list_remove. }
  destruct (Z.eqb_spec (refcount (ith c a)) 1) as [H1|H1].
  - assert (step c c' a) as HS by by eapply step_freed.
    assert (¬ used c' a) as Hnu.
    { intros Hu'. destruct Hcase as [Hpl Hh]. pose proof (u_held _ _ _ Hu') as Hheld. pose proof (u_valid _ _ _ Hu') as Hv.
      assert (valid (slab c) (clsid_of (ith c' a))) as Hv2 by (unfold valid in *; by rewrite <-Hpl).
      apply Hh in Hheld as [[Hch _] Hne]; [|done]. apply Hne. f_equal.
      apply (chunk_class (slab_settings st) (slab c) _ _ a); try done; [apply Hok|apply Hu|].
      apply (u_held _ _ _ Hu). }
    split_and!; try done. eapply inv_step; [exact HI|done|done|done|done].
  - destruct Hcase as (Hh & Hr' & Hu' & Hl' & _). assert (step c c' a) as HS by by apply step_same.
    split_and!; try done. eapply inv_step; [exact HI|done|done|done|]. intros _.
    pose proof (Hlow a Hu) as Hlo. unfold extra in *. rewrite Hl in Hlo. specialize (Hhigh a Hu).
    unfold is_linked. rewrite Hl', Hr'. split_and!; [lia|lia|done].
Qed.

(** A change of the header of a linked item. *)
Lemma mark_inv n c L a id f :
  inv n c L → (id < LARGEST_ID)%nat → a ∈ L id →
  (∀ it, same_use it (f it) ∧ next (f it) = next it ∧ prev (f it) = prev it ∧ key (f it) = key it) →
  (∀ it, nbytes (f it) = nbytes it) → has_flag (f (ith c a)) ITEM_LINKED = has_flag (ith c a) ITEM_LINKED →
  refcount (ith c a) ≤ refcount (f (ith c a)) → refcount (f (ith c a)) + 2 * Z.of_nat n < 2 ^ 16 →
  inv n (set_item c a f) L ∧ step c (set_item c a f) a ∧ used (set_item c a f) a ∧ ith (set_item c a f) a = f (ith c a).
Proof.
  intros HI Hid Ha Hf Hn Hl Hr Hhi. destruct (inv_queued n c L a id HI Hid Ha) as (Hu & Hlk & Hr1 & _).
  destruct (mark_ok st hash c L a id f (v_ok _ _ _ HI) Hid Ha Hf Hl) as (Hok & [_ _ Hh _] & Hi); [lia|].
  assert (step c (set_item c a f) a) as HS.
  { apply step_same; [|done]. apply frame_set_item. intros it. by destruct (Hf it) as (_ & _ & _ & ?). }
  assert (used (set_item c a f) a) as Hu'.
  { unfold used. rewrite Hi. eapply in_use_held; [exact Hh|]. eapply in_use_same; [|exact Hu]. apply Hf. }
  split_and!; try done. eapply inv_step; [exact HI|done|done|done|]. intros _. unfold extra, is_linked in *. rewrite Hi, Hl, Hlk.
  pose proof (v_low _ _ _ HI a Hu) as Hlo. unfold extra, is_linked in Hlo. rewrite Hlk in Hlo. split_and!; [lia|lia|eauto].
Qed.

Lemma incr_inv n c L a id :
  inv (S n) c L → (id < LARGEST_ID)%nat → a ∈ L id →
  let c' := refcount_incr c a in
  inv n c' L ∧ step c c' a ∧ used c' a ∧ refcount (ith c' a) = refcount (ith c a) + 1 ∧ table c' = table c.
Proof.
  intros HI Hid Ha c'. destruct (inv_queued _ c L a id HI Hid Ha) as (Hu & _ & Hr & _).
  pose proof (v_high _ _ _ HI a Hu) as Hhi.
  assert (u16 (refcount (ith c a) + 1) = refcount (ith c a) + 1) as Hm by (apply Z.mod_small; lia).
  destruct (mark_inv n c L a id (λ i, set_refcount (u16 (refcount i + 1)) i) (inv_less _ _ _ HI) Hid Ha) as (HI' & HS & Hu' & Hi);
    try done; [cbn [refcount set_refcount]; lia..|].
  split_and!; try done. unfold c', refcount_incr. rewrite Hi. cbn [refcount set_refcount]. done.
Qed.

(** Out of its queue, and to the head of another of its class. *)
Lemma relink_inv n c L a id l1 l2 fo :
  inv n c L → (id < LARGEST_ID)%nat → L id = l1 ++ a :: l2 →
  let f := change_header fo in
  (∀ it, payload it = payload (ith c a) → in_use (slab c) a (f it) ∧
     has_flag (f it) ITEM_LINKED = has_flag it ITEM_LINKED ∧ refcount (f it) = refcount it ∧ key (f it) = key it ∧
     nbytes (f it) = nbytes it) →
  ∃ c2 c' L', do_item_unlink_q c a = Some c2 ∧ do_item_link_q (change_item c2 a fo) a = Some c' ∧
    inv n c' L' ∧ step c c' a ∧ table c' = table c ∧ used c' a ∧ is_linked c' a = true ∧
    refcount (ith c' a) = refcount (ith c a) ∧ (L' id = l1 ++ l2 ∨ L' id = a :: l1 ++ l2).
Proof.
  intros HI Hid HL f Hf. assert (a ∈ L id) as Ha by (rewrite HL, elem_of_app, elem_of_cons; auto).
  destruct (inv_queued n c L a id HI Hid Ha) as (Hu & Hlk & Hr1 & _).
  destruct (relink_ok st hash c L a id l1 l2 fo (v_ok _ _ _ HI) Hid HL) as (c2 & c' & L' & E2 & E' & Hok' & Hmem & Ht & Hh & Hr & Hk & Hsub & HL').
  { intros it Hit. destruct (Hf it Hit) as (? & ? & ? & ? & _). done. }
  destruct (members_in L L' a id Hmem Hid Ha) as (id' & Hid' & Ha').
  destruct (unlink_q_payload _ _ _ E2) as [Hp2 Hs2]. destruct (link_q_payload _ _ _ E') as [Hp' Hs'].
  assert (frame c c' a) as HF.
  { eapply frame_trans; [by eapply unlink_q_frame|]. eapply frame_trans; [|by eapply link_q_frame].
    destruct fo as [g|]; [|apply frame_refl]. cbn [change_item].
    destruct (Hf _ (Hp2 a)) as (_ & _ & _ & Hkf & Hnf). cbn [change_header] in *. split; [|by rewrite ith_set_eq..|done].
    intros b Hb. by rewrite ith_set_ne. }
  assert (step c c' a) as HS by by apply step_same.
  destruct (queue_use _ _ Hok' id' a Hid' Ha') as [Hu' _]. destruct (linked_queued _ _ c' L' a id' Hok' Hid' Ha') as [Hl' _ _].
  exists c2, c', L'. split_and!; try done. eapply inv_step; [exact HI|done|done|by intros b i; apply Hsub|]. intros _.
  pose proof (v_low _ _ _ HI a Hu) as Hlo. pose proof (v_high _ _ _ HI a Hu) as Hhi. unfold extra, is_linked in *.
  rewrite Hlk in Hlo. rewrite Hl', Hr. split_and!; [lia|lia|eauto].
Qed.

Lemma update_nolock_inv n c L a id l1 l2 :
  inv n c L → (id < LARGEST_ID)%nat → L id = l1 ++ a :: l2 →
  ∃ c' L', do_item_update_nolock now c a = Some c' ∧ inv n c' L' ∧ step c c' a ∧ table c' = table c ∧
    used c' a ∧ is_linked c' a = true ∧ refcount (ith c' a) = refcount (ith c a) ∧
    (L' = L ∨ L' id = l1 ++ l2 ∨ L' id = a :: l1 ++ l2).
Proof.
  intros HI Hid HL. assert (a ∈ L id) as Ha by (rewrite HL, elem_of_app, elem_of_cons; auto).
  destruct (inv_queued n c L a id HI Hid Ha) as (Hu & Hlk & Hr1 & _).
  unfold do_item_update_nolock. unfold is_linked in Hlk. rewrite (u_slabbed _ _ _ Hu), Hlk. cbn [negb assert_ mbind option_bind].
  destruct (stale _ _); [|exists c, L; split_and!; try done; first [apply step_refl|by left]].
  destruct (relink_inv n c L a id l1 l2 (Some (set_time now)) HI Hid HL) as (c2 & c' & L' & E2 & E' & ? & ? & ? & ? & ? & ? & ?).
  { intros it Hit. split_and!; [|done..]. cbn [change_header]. eapply in_use_same; [|exact Hu].
    by apply (payload_use (ith c a) it) in Hit. }
  exists c', L'. rewrite E2. split_and!; try done; by right.
Qed.

End Inv.
