(* ===== verification/ItemAlloc.v ===== *)
(** Allocating items: [extra/KVS-DRAM-Cache/items.c], [do_item_alloc] and what it calls.

    When a size class has no free chunk and gets no page, an item at the tail of the
    class's cold queue is evicted.  An item that is in use keeps its chunk: it is only
    unlinked, and freed with its last reference.

    Compiled without [CACHE_MODE] 3, in which the pointers of evicted items are kept in
    small items.  The counters of [itemstats] are left out, and so is the call of
    [slabs_reassign], which wakes the rebalancer thread up. *)

From S2P Require Import Prelude Item Slabs Assoc Items Itoa.

Record alloc_settings := mkAllocSettings {
  item_st : item_settings;
  temp_lru : bool;
  temporary_ttl : Z;
  hot_lru_pct : Z;
  warm_lru_pct : Z;
  evict_to_free : bool;
  tail_repair_time : Z;
  inline_ascii_response : bool
}.

Definition LRU_PULL_EVICT : Z := 1.
Definition LRU_PULL_CRAWL_BLOCKS : Z := 2.

(** What [lru_pull_tail] has done when its loop ends: how many items it removed or moved,
    and the item it stopped at, if any, with the segment it is to move to. *)
Record pulled := mkPulled { p_cache : cache; p_removed : Z; p_item : Z; p_move : Z }.

Section ItemAlloc.
Context (st : alloc_settings) (hash : bytes → Z).
(** [current_time] *)
Context (now : Z).
(** Whether [item_trylock(hv)] gets the lock. *)
Context (trylock : Z → bool).
(** What the C library answers when a page is allocated. *)
Context (os_of : slab_state → os).

Abbreviation ist := (item_st st).

(** ** Pulling items from the tail of a queue *)

(** [search->nbytes == 0 && search->nkey == 0 && search->it_flags == 1] *)
Definition is_crawler (it : stritem) : bool := (nbytes it =? 0) && (nkey it =? 0) && (it_flags it =? 1).

Definition lru_limit (cur_lru total_bytes : Z) : Z :=
  let limit := if cur_lru =? HOT_LRU then u64 (total_bytes * hot_lru_pct st) / 100 else 0 in
  if limit =? 0 then u64 (total_bytes * warm_lru_pct st) / 100 else limit.

Definition old_enough (it : stritem) : bool :=
  negb (tail_repair_time st =? 0) && (u32 (time it + tail_repair_time st) <? now).

(** An item whose lock has been taken. *)
Definition pull_item (c : cache) (id : nat) (a hv cur_lru total_bytes flags max_age removed : Z) : option pulled :=
  let go_on c removed := Some (mkPulled c removed 0 0) in
  let stop c removed := Some (mkPulled c removed a 0) in
  let move c to := c ← do_item_unlink_q c a; Some (mkPulled c (removed + 1) a to) in
  let c := refcount_incr c a in
  if negb (refcount (ith c a) =? 2) && old_enough (ith c a) then
    c ← do_item_unlink ist (set_item c a (set_refcount 1)) a hv;
    go_on c removed
  else if (negb (exptime (ith c a) =? 0) && (exptime (ith c a) <? now)) || item_is_flushed ist now (ith c a) then
    c ← do_item_unlink ist c a hv;
    c ← do_item_remove ist c a;
    go_on c (removed + 1)
  else if (cur_lru =? HOT_LRU) || (cur_lru =? WARM_LRU) then
    if has_flag (ith c a) ITEM_ACTIVE then
      let c := set_item c a (clear_flag ITEM_ACTIVE) in
      if cur_lru =? WARM_LRU then
        c ← do_item_update_nolock now c a;
        c ← do_item_remove ist c a;
        go_on c (removed + 1)
      else move c WARM_LRU
    else if (lru_limit cur_lru total_bytes <? sizes_bytes c !!! id) || (max_age <? u32 (now - time (ith c a))) then
      move c COLD_LRU
    else stop c removed
  else if cur_lru =? COLD_LRU then
    if negb (Z.land flags LRU_PULL_EVICT =? 0) then
      if negb (evict_to_free st) then stop c removed
      else
        c ← do_item_unlink ist c a hv;
        stop c (removed + 1)
    else if has_flag (ith c a) ITEM_ACTIVE && lru_segmented ist then
      move (set_item c a (clear_flag ITEM_ACTIVE)) WARM_LRU
    else stop c removed
  else stop c removed.

(** [Never] when the fuel is used up: a queue has no more items than its size says, and
    of those that are not crawlers at most five are looked at. *)
Fixpoint pull_loop (fuel : nat) (c : cache) (id : nat) (tries search cur_lru total_bytes flags max_age removed : Z)
    : answer pulled :=
  match fuel with
  | O => Never
  | S fuel' =>
      if (tries <=? 0) || (search =? 0) then Answer (mkPulled c removed 0 0)
      else
        let next_it := prev (ith c search) in
        let continue c tries removed := pull_loop fuel' c id tries next_it cur_lru total_bytes flags max_age removed in
        if is_crawler (ith c search) then
          if negb (Z.land flags LRU_PULL_CRAWL_BLOCKS =? 0) then Answer (mkPulled c 0 0 0)
          else continue c tries removed
        else
          let hv := hash (key (ith c search)) in
          if negb (trylock hv) then continue c (tries - 1) removed
          else
            p ← asserting (pull_item c id search hv cur_lru total_bytes flags max_age removed);
            if p_item p =? 0 then continue (p_cache p) (tries - 1) (p_removed p) else Answer p
  end.

Definition pull_fuel (c : cache) (id : nat) : nat := 6 + Z.to_nat (sizes c !!! id).

(** The item goes to the head of another queue of its class. *)
Definition move_to (c : cache) (a to : Z) : option cache :=
  let c := set_item c a (λ i, set_slabs_clsid (ITEM_clsid i) i) in
  let c := set_item c a (λ i, set_slabs_clsid (Z.lor (Item.slabs_clsid i) to) i) in
  do_item_link_q c a.

Definition lru_pull_tail (c : cache) (orig_id : nat) (cur_lru total_bytes flags max_age : Z) : answer (cache * Z) :=
  if (orig_id =? 0)%nat then Answer (c, 0)
  else
    let id := Z.to_nat (Z.lor (Z.of_nat orig_id) cur_lru) in
    p ← pull_loop (pull_fuel c id) c id 5 (tails c !!! id) cur_lru total_bytes flags max_age 0;
    let a := p_item p in
    if a =? 0 then Answer (p_cache p, p_removed p)
    else
      c ← asserting (if p_move p =? 0 then Some (p_cache p) else move_to (p_cache p) a (p_move p));
      c ← asserting (do_item_remove ist c a);
      Answer (c, p_removed p).

(** ** Allocating *)

Definition temp_lru_size (c : cache) (id : nat) : Z :=
  u32 (sizes_bytes c !!! Z.to_nat (Z.lor (Z.ldiff (Z.of_nat id) 192) TEMP_LRU)).

(** [while (1)]: [Never] when the fuel is used up. *)
Fixpoint do_item_alloc_pull (fuel : nat) (c : cache) (ntotal : Z) (id : nat) : answer (cache * Z) :=
  match fuel with
  | O => Never
  | S fuel' =>
      '(c, _) ← (if lru_segmented ist then Answer (c, 0) else lru_pull_tail c id COLD_LRU 0 0 0);
      '(s, it, total_bytes) ← asserting (do_slabs_alloc (slab_settings ist) (slab c) ntotal id false (os_of (slab c)));
      let c := with_slab c s in
      let total_bytes := if temp_lru st then u64 (total_bytes - temp_lru_size c id) else total_bytes in
      if it =? 0 then
        '(c, n) ← lru_pull_tail c id COLD_LRU total_bytes LRU_PULL_EVICT 0;
        if n <=? 0 then
          if lru_segmented ist then
            '(c, _) ← lru_pull_tail c id HOT_LRU total_bytes 0 0;
            do_item_alloc_pull fuel' c ntotal id
          else Answer (c, 0)
        else do_item_alloc_pull fuel' c ntotal id
      else Answer (c, it)
  end.

(** Another chunk for the large item that [ch] is a chunk of.  A chunk's [size], [used] and
    [orig_clsid] are where an item's [time], [exptime] and [nsuffix] are. *)
Definition do_item_alloc_chunk (fuel : nat) (c : cache) (ch bytes_remain : Z) : answer (cache * Z) :=
  let size := bytes_remain + sizeof_item_chunk in
  let size := if slab_chunk_size_max (slab_settings ist) <? size then slab_chunk_size_max (slab_settings ist) else size in
  let id := Slabs.slabs_clsid (slab_settings ist) (slab c) size in
  '(c, nch) ← do_item_alloc_pull fuel c size id;
  if nch =? 0 then Answer (c, 0)
  else
    let head := h_next (ith c ch) in
    let c := set_item c ch (set_next nch) in
    Answer (set_item c nch (λ i, mkStritem 0 ch head (size - sizeof_item_chunk) 0 (nbytes i) (refcount i) (nsuffix i)
      (Z.lor (it_flags i) ITEM_CHUNK) (Z.of_nat id) (nkey i) (cas i) (key i)), nch).

(** The length of the suffix, and the size of the item. *)
Definition item_make_header (nkey flags nbytes : Z) : Z * Z :=
  let nsuffix := if inline_ascii_response st
                 then u8 (Z.of_nat (length (dec flags) + length (sdec (nbytes - 2))) + 4)
                 else if flags =? 0 then 0 else 4 in
  (nsuffix, sizeof_item + nkey + nsuffix + nbytes).

(** The queue that a new item goes to when it is linked. *)
Definition first_lru (ex : Z) : Z :=
  if temp_lru st && (u32 (ex - now) <=? temporary_ttl st) then TEMP_LRU
  else if lru_segmented ist then HOT_LRU else COLD_LRU.

(** The header of a new item; what the chunk held before is in [i]. *)
Definition init_item (k : bytes) (lru id ex nb nsuf : Z) (i : stritem) : stritem :=
  mkStritem 0 0 0 (time i) ex nb (refcount i) nsuf
    (Z.lor (it_flags i) (if use_cas (slab_settings ist) then ITEM_CAS else 0))
    (Z.lor id lru) (u8 (Z.of_nat (length k))) (cas i) k.

(** The first chunk of a large item, which is where its data is: [next], [prev], [used]
    and [size] are 0, [head] is the item, and [orig_clsid] the class of the header. *)
Definition init_chunk (head orig_clsid : Z) (i : stritem) : stritem :=
  mkStritem 0 0 head 0 0 (nbytes i) (refcount i) orig_clsid (it_flags i) (Item.slabs_clsid i) (nkey i) (cas i) (key i).

Definition do_item_alloc (fuel : nat) (c : cache) (k : bytes) (flags ex nb : Z) : answer (cache * Z) :=
  if nb <? 2 then Answer (c, 0)
  else
    let nkey := Z.of_nat (length k) in
    let cas := if use_cas (slab_settings ist) then 8 else 0 in
    let '(nsuf, ntotal) := item_make_header (u8 (nkey + 1)) flags nb in
    let ntotal := ntotal + cas in
    let id := Slabs.slabs_clsid (slab_settings ist) (slab c) ntotal in
    if (id =? 0)%nat then Answer (c, 0)
    else
      let large := slab_chunk_size_max (slab_settings ist) <? ntotal in
      let htotal := nkey + 1 + nsuf + sizeof_item + sizeof_item_chunk + cas in
      let hdr_id := if large then Slabs.slabs_clsid (slab_settings ist) (slab c) htotal else id in
      '(c, a) ← do_item_alloc_pull fuel c (if large then htotal else ntotal) hdr_id;
      if a =? 0 then Answer (c, 0)
      else
        let c := if large then set_item c a (add_flag ITEM_CHUNKED) else c in
        asserting (assert_ (Item.slabs_clsid (ith c a) =? 0));;
        let c := set_item c a (init_item k (first_lru ex) (Z.of_nat id) ex nb nsuf) in
        Answer (if large then set_item c (ITEM_data a (ith c a)) (init_chunk a (Z.of_nat hdr_id)) else c, a).

End ItemAlloc.
