(* ===== verification/ItemAllocSpec.v ===== *)
(** Eviction leaves alone what is in use: [lru_pull_tail] and [do_item_alloc] of
    [extra/KVS-DRAM-Cache/items.c]. *)

From S2P Require Import Prelude Item Slabs Assoc Items Itoa ItemFrame ItemInv ItemAlloc.

(** ** What eviction may do *)

(** The item is in the hash table. *)
Definition in_table (c : cache) (a : Z) : Prop := ∃ k, amap (table c) !! k = Some (mkItem k a).

(** Items leave the table, unless their key is locked, and those that no caller holds
    may be freed. *)
Record evolving (locked : bytes → Prop) (c c' : cache) : Prop := {
  ev_map : amap (table c') ⊆ amap (table c);
  ev_locked k : locked k → amap (table c') !! k = amap (table c) !! k;
  ev_back b : used c' b → used c b ∧ refcount (ith c' b) ≤ refcount (ith c b);
  ev_keep b : used c b → 1 ≤ extra c b ∨ in_table c' b → used c' b ∧ extra c' b = extra c b;
  ev_key b : used c' b → key (ith c' b) = key (ith c b) ∧ nbytes (ith c' b) = nbytes (ith c b);
  ev_shape : same_shape (slab c) (slab c');
  ev_held i b : valid (slab c) i → held (slab c') i b → held (slab c) i b
}.

Arguments ev_map {locked} c c' _.
Arguments ev_locked {locked} c c' _.
Arguments ev_back {locked} c c' _.
Arguments ev_keep {locked} c c' _.
Arguments ev_key {locked} c c' _.
Arguments ev_shape {locked} c c' _.
Arguments ev_held {locked} c c' _.

Section Evolving.
Context (locked : bytes → Prop).
Abbreviation evolves := (evolving locked).

Lemma evolves_refl c : evolves c c.
Proof. done. Qed.

Lemma evolves_trans c1 c2 c3 : evolves c1 c2 → evolves c2 c3 → evolves c1 c3.
Proof.
  intros [A1 A0 A2 A3 A4 A5 A6] [B1 B0 B2 B3 B4 B5 B6]. split.
  - by etrans.
  - intros k Hk. by rewrite B0, A0.
  - intros b Hb. destruct (B2 b Hb) as [Hu Hr], (A2 b Hu) as [Hu' Hr']. split; [done|lia].
  - intros b Hb Hk. assert (1 ≤ extra c1 b ∨ in_table c2 b) as Hk1.
    { destruct Hk as [|[k Hk]]; [by left|right]. exists k. by eapply lookup_weaken. }
    destruct (A3 b Hb Hk1) as [Hu He]. destruct (B3 b Hu) as [Hu' He']; [rewrite He; naive_solver|]. split; [done|congruence].
  - intros b Hb. destruct (B4 b Hb), (A4 b (proj1 (B2 b Hb))). split; congruence.
  - by eapply same_shape_trans.
  - intros i b Hi Hb. apply A6; [done|]. apply B6; [|done]. unfold valid in *. by rewrite (sh_largest _ _ A5).
Qed.

Lemma evolves_step c c' a :
  step c c' a → amap (table c') ⊆ amap (table c) → (∀ k, locked k → amap (table c') !! k = amap (table c) !! k) →
  (used c' a → used c a ∧ refcount (ith c' a) ≤ refcount (ith c a)) →
  (used c a → 1 ≤ extra c a ∨ in_table c' a → used c' a ∧ extra c' a = extra c a) → evolves c c'.
Proof.
  intros HS Hm Hlk Hb Hk. split; [done|done|..|intros b _; by apply (step_key c c' a)|apply HS|apply HS].
  - intros b. destruct (decide (b = a)) as [->|Hne]; [done|]. rewrite (step_used c c' a b) by done.
    destruct (step_fields c c' a b HS Hne) as (-> & _). done.
  - intros b. destruct (decide (b = a)) as [->|Hne]; [done|]. intros Hu _. rewrite (step_used c c' a b) by done.
    by destruct (step_fields c c' a b HS Hne) as (_ & _ & ->).
Qed.

End Evolving.

Lemma lor_class x to :
  0 ≤ x < 256 → to = WARM_LRU ∨ to = COLD_LRU →
  0 ≤ Z.lor (Z.ldiff x 192) to < 256 ∧ Z.ldiff (Z.lor (Z.ldiff x 192) to) 192 = Z.ldiff x 192.
Proof.
  intros Hx Hto. assert (Hall : Forall (λ x, Forall (λ to, 0 ≤ Z.lor (Z.ldiff x 192) to < 256 ∧
    Z.ldiff (Z.lor (Z.ldiff x 192) to) 192 = Z.ldiff x 192) [WARM_LRU; COLD_LRU]) (seqZ 0 256)) by by_decide.
  rewrite list.Forall_forall in Hall. specialize (Hall x). rewrite list.Forall_forall in Hall.
  apply Hall; [apply elem_of_seqZ; lia|]. set_solver.
Qed.

Definition to_lru (to : Z) (it : stritem) : stritem := set_slabs_clsid (Z.lor (ITEM_clsid it) to) it.

Lemma to_lru_use s a it to : to = WARM_LRU ∨ to = COLD_LRU → in_use s a it → in_use s a (to_lru to it).
Proof.
  intros Hto [Hv Hh Hs Hc Hid]. destruct (lor_class _ to Hid Hto) as [Hr He].
  assert (clsid_of (to_lru to it) = clsid_of it) as Hcl by (unfold clsid_of; f_equal; exact He).
  split; rewrite ?Hcl; done.
Qed.

Section Spec.
Context (st : alloc_settings) (hash : bytes → Z) (now : Z) (trylock : Z → bool) (os_of : slab_state → os).
(** The repair of leaked references is off, as it is by default. *)
Context (Hrep : tail_repair_time st = 0).

Abbreviation inv := (ItemInv.inv (item_st st) hash).
Abbreviation evolves := (evolving (λ k, trylock (hash k) = false)).

Lemma inv_raise n c L c' L' : inv (S n) c L → evolves c c' → inv n c' L' → inv (S n) c' L'.
Proof.
  intros [H1 H2 H3 H4 H5] [_ _ Hb _ _ Hs _] [H1' H2' H3' H4' H5']. split; try done; [by eapply fits_shape|].
  intros a Ha. destruct (Hb a Ha) as [Hu Hr]. specialize (H4 a Hu). lia.
Qed.

Lemma in_table_key n c L a : inv n c L → in_table c a → amap (table c) !! key (ith c a) = Some (mkItem (key (ith c a)) a).
Proof.
  intros HI [k Hk]. destruct (co_map _ _ _ _ _ (v_ok _ _ _ _ _ HI) k _ Hk) as (id & _ & _ & Hkey); [apply not_elem_of_nil|].
  cbn in Hkey. by rewrite Hkey.
Qed.

(** ** The item that the loop looks at

    [c1] is the state after some steps on [a], on which [lru_pull_tail] has a reference. *)

Lemma drop_linked n c L c1 L1 a :
  inv (S n) c L → used c a → is_linked c a = true → inv n c1 L1 → step c c1 a → table c1 = table c →
  used c1 a → is_linked c1 a = true → refcount (ith c1 a) = refcount (ith c a) + 1 →
  ∃ c', do_item_remove (item_st st) c1 a = Some c' ∧ inv (S n) c' L1 ∧ evolves c c'.
Proof.
  intros HI Hu Hl HI1 HS Ht Hu1 Hl1 Hr1. pose proof (v_low _ _ _ _ _ HI a Hu) as Hlo. unfold extra in Hlo. rewrite Hl in Hlo.
  destruct (remove_inv (item_st st) hash n c1 L1 a HI1 Hu1) as (c' & E & HI' & HS' & Ht' & Hcase).
  { unfold extra. rewrite Hl1. lia. }
  rewrite (proj2 (Z.eqb_neq _ _)) in Hcase by lia. destruct Hcase as (Hu' & Hr' & Hl').
  assert (evolves c c') as HE.
  { apply (evolves_step _ c c' a); [by eapply step_trans|by rewrite Ht', Ht|by rewrite Ht', Ht|split; [done|lia]|].
    intros _ _. split; [done|]. unfold extra. rewrite Hl', Hl1, Hl. lia. }
  exists c'. split_and!; [done|by eapply inv_raise|done].
Qed.

Lemma drop_unlinked n c L c1 L1 a :
  inv (S n) c L → used c a → is_linked c a = true → inv n c1 L1 → step c c1 a →
  amap (table c1) = delete (key (ith c a)) (amap (table c)) → trylock (hash (key (ith c a))) = true →
  used c1 a → is_linked c1 a = false → refcount (ith c1 a) = refcount (ith c a) →
  ∃ c', do_item_remove (item_st st) c1 a = Some c' ∧ inv (S n) c' L1 ∧ evolves c c' ∧ amap (table c') = amap (table c1) ∧
    (refcount (ith c a) = 1 → ¬ held (slab c') (clsid_of (ith c1 a)) a).
Proof.
  intros HI Hu Hl HI1 HS Hm Htry Hu1 Hl1 Hr1. pose proof (v_low _ _ _ _ _ HI a Hu) as Hlo. unfold extra in Hlo. rewrite Hl in Hlo.
  destruct (remove_inv (item_st st) hash n c1 L1 a HI1 Hu1) as (c' & E & HI' & HS' & Ht' & Hcase).
  { unfold extra. rewrite Hl1. lia. }
  assert (evolves c c') as HE.
  { apply (evolves_step _ c c' a); [by eapply step_trans|rewrite Ht', Hm; apply delete_subseteq|..].
    - intros k Hk. rewrite Ht', Hm. apply lookup_delete_ne. congruence.
    - intros Hu'. split; [done|]. destruct (Z.eqb_spec (refcount (ith c1 a)) 1) as [|]; [by destruct Hcase|].
      destruct Hcase as (_ & -> & _). lia.
    - intros _ [He|Ht].
      + unfold extra in He. rewrite Hl in He. rewrite (proj2 (Z.eqb_neq _ _)) in Hcase by lia.
        destruct Hcase as (Hu' & Hr' & Hl'). split; [done|]. unfold extra. rewrite Hl', Hl1, Hl. lia.
      + apply (in_table_key _ _ _ _ HI') in Ht. destruct (step_key c c' a a) as [Hk _]; [by eapply step_trans|].
        by rewrite Ht', Hm, Hk, lookup_delete_eq in Ht. }
  exists c'. split_and!; [done|by eapply inv_raise|done|by rewrite Ht'|].
  intros H1. rewrite Hr1, H1, Z.eqb_refl in Hcase. apply Hcase.
Qed.

(** What is left to do with the item that the loop stopped at. *)
Definition finish (p : pulled) : option cache :=
  if p_item p =? 0 then Some (p_cache p)
  else c ← (if p_move p =? 0 then Some (p_cache p) else move_to (p_cache p) (p_item p) (p_move p));
       do_item_remove (item_st st) c (p_item p).

Lemma finish_answer p c' : finish p = Some c' →
  (if p_item p =? 0 then Answer (p_cache p, p_removed p)
   else c ← asserting (if p_move p =? 0 then Some (p_cache p) else move_to (p_cache p) (p_item p) (p_move p));
        c ← asserting (do_item_remove (item_st st) c (p_item p)); Answer (c, p_removed p)) = Answer (c', p_removed p).
Proof.
  unfold finish. intros Hp. destruct (p_item p =? 0); [by injection Hp as ->|].
  destruct (if p_move p =? 0 then _ else _); [|done]. cbn [asserting mbind answer_bind option_bind] in *. by rewrite Hp.
Qed.

Record pull_post (n : nat) (c : cache) (id : nat) (l1 : list Z) (a : Z) (p : pulled) (c' : cache) (L' : nat → list Z) : Prop := {
  pp_finish : finish p = Some c';
  pp_inv : inv (S n) c' L';
  pp_evolves : evolves c c';
  pp_item : p_item p = 0 ∨ p_item p = a;
  pp_rest : p_item p = 0 → c' = p_cache p ∧ ∃ x y, L' id = x ++ l1 ++ y ∧ (length x ≤ 1)%nat
}.

(** The item moves to another segment. *)
Lemma move_post n c L c1 a id l1 l2 removed to :
  inv (S n) c L → (id < LARGEST_ID)%nat → L id = l1 ++ a :: l2 → inv n c1 L → step c c1 a → table c1 = table c →
  refcount (ith c1 a) = refcount (ith c a) + 1 → to = WARM_LRU ∨ to = COLD_LRU →
  ∃ p c' L', (c2 ← do_item_unlink_q c1 a; Some (mkPulled c2 (removed + 1) a to)) = Some p ∧ pull_post n c id l1 a p c' L'.
Proof.
  intros HI Hid HL HI1 HS Ht Hr Hto. assert (a ∈ L id) as Ha by (rewrite HL, elem_of_app, elem_of_cons; auto).
  destruct (inv_queued _ _ _ c L a id HI Hid Ha) as (Hu & Hl & Hr0 & Ha0 & _).
  destruct (inv_queued _ _ _ c1 L a id HI1 Hid Ha) as (Hu1 & _).
  destruct (relink_inv _ hash n c1 L a id l1 l2 (Some (to_lru to)) HI1 Hid HL) as (c2 & c3 & L3 & E2 & E3 & HI3 & HS3 & Ht3 & Hu3 & Hl3 & Hr3 & _).
  { intros it Hit. split_and!; [|done..]. cbn [change_header]. apply to_lru_use; [done|]. by eapply payload_in_use. }
  destruct (drop_linked n c L c3 L3 a HI Hu Hl HI3) as (c' & E' & HI' & HE); [by eapply step_trans|congruence|done|done|congruence|].
  rewrite E2. cbn [mbind option_bind]. eexists _, c', L3. split; [done|]. split; cbn [p_item p_cache p_move]; try done; [|by right].
  unfold finish. cbn [p_item p_cache p_move]. rewrite (proj2 (Z.eqb_neq _ _) Ha0).
  assert (to =? 0 = false) as -> by (destruct Hto as [-> | ->]; done).
  assert (move_to c2 a to = Some c3) as ->; [|done]. unfold move_to. rewrite set_item_twice. exact E3.
Qed.

(** The item stays where it is. *)
Lemma stop_post n c L c1 a id l1 l2 removed :
  inv (S n) c L → (id < LARGEST_ID)%nat → L id = l1 ++ a :: l2 → inv n c1 L → step c c1 a → table c1 = table c →
  refcount (ith c1 a) = refcount (ith c a) + 1 →
  ∃ p c' L', Some (mkPulled c1 removed a 0) = Some p ∧ pull_post n c id l1 a p c' L'.
Proof.
  intros HI Hid HL HI1 HS Ht Hr. assert (a ∈ L id) as Ha by (rewrite HL, elem_of_app, elem_of_cons; auto).
  destruct (inv_queued _ _ _ c L a id HI Hid Ha) as (Hu & Hl & Hr0 & Ha0 & _).
  destruct (inv_queued _ _ _ c1 L a id HI1 Hid Ha) as (Hu1 & Hl1 & _).
  destruct (drop_linked n c L c1 L a HI Hu Hl HI1) as (c' & E' & HI' & HE); try done.
  eexists _, c', L. split; [done|]. split; cbn [p_item p_cache p_move]; try done; [|by right].
  unfold finish. cbn [p_item p_cache p_move]. by rewrite (proj2 (Z.eqb_neq _ _) Ha0).
Qed.

(** The item is unlinked; it stops the loop if it was evicted. *)
Lemma evict_post n c L c1 a id l1 l2 :
  inv (S n) c L → (id < LARGEST_ID)%nat → L id = l1 ++ a :: l2 → inv n c1 L → step c c1 a → table c1 = table c →
  refcount (ith c1 a) = refcount (ith c a) + 1 → trylock (hash (key (ith c a))) = true →
  ∃ c2 c', do_item_unlink (item_st st) c1 a (hash (key (ith c a))) = Some c2 ∧ do_item_remove (item_st st) c2 a = Some c' ∧
    inv (S n) c' (set_list L id (l1 ++ l2)) ∧ evolves c c' ∧ amap (table c') = delete (key (ith c a)) (amap (table c)) ∧
    (refcount (ith c a) = 1 → ∀ i, valid (slab c) i → ¬ held (slab c') i a).
Proof.
  intros HI Hid HL HI1 HS Ht Hr Htry. assert (a ∈ L id) as Ha by (rewrite HL, elem_of_app, elem_of_cons; auto).
  destruct (inv_queued _ _ _ c L a id HI Hid Ha) as (Hu & Hl & Hr0 & Ha0 & _).
  destruct (inv_queued _ _ _ c1 L a id HI1 Hid Ha) as (Hu1 & Hl1 & _).
  destruct (unlink_inv (item_st st) hash n c1 L a id l1 l2 HI1 Hid HL) as (c2 & E2 & HI2 & HS2 & Hm2 & Hcase).
  destruct (step_key c c1 a a HS) as [Hk _]. rewrite Hk in E2, Hm2. rewrite Ht in Hm2.
  rewrite (proj2 (Z.eqb_neq _ _)) in Hcase by lia. destruct Hcase as (Hu2 & Hr2 & Hl2).
  destruct (drop_unlinked n c L c2 _ a HI Hu Hl HI2) as (c' & E' & HI' & HE & Hm' & Hfree); [by eapply step_trans|done|done|done|done|lia|].
  exists c2, c'. rewrite Hm'. split_and!; try done. intros H1 i Hi Hh. apply (Hfree H1).
  assert (i = clsid_of (ith c2 a)) as <-; [|done]. assert (step c c2 a) as HS12 by by eapply step_trans.
  assert (valid (slab c) (clsid_of (ith c2 a))) as Hv.
  { destruct Hu2 as [Hv _ _ _ _]. unfold valid in *. by rewrite <-(sh_largest _ _ (fr_shape _ _ _ (st_frame _ _ _ HS12))). }
  apply (chunk_class (slab_settings (item_st st)) (slab c) _ _ a); [apply (v_ok _ _ _ _ _ HI)|done|done|..].
  - by apply (ev_held _ _ HE) in Hh as [Hc _].
  - apply (st_back _ _ _ HS12 _ a Hv), Hu2.
Qed.

Lemma clear_active_ok n c L a id :
  inv n c L → (id < LARGEST_ID)%nat → a ∈ L id → let c' := set_item c a (clear_flag ITEM_ACTIVE) in
  inv n c' L ∧ step c c' a ∧ refcount (ith c' a) = refcount (ith c a).
Proof.
  intros HI Hid Ha c'. destruct (inv_queued _ _ _ c L a id HI Hid Ha) as (Hu & _).
  destruct (mark_inv _ hash n c L a id (clear_flag ITEM_ACTIVE) HI Hid Ha) as (HI' & HS & _ & Hi); try done.
  - intros it. by apply clear_flag_keeps.
  - by apply has_flag_clear_other.
  - apply (v_high _ _ _ _ _ HI a Hu).
  - unfold c'. by rewrite Hi.
Qed.

Lemma pull_item_ok n c L a id l1 l2 cur_lru total_bytes flags max_age removed :
  inv (S n) c L → (id < LARGEST_ID)%nat → L id = l1 ++ a :: l2 → trylock (hash (key (ith c a))) = true →
  ∃ p c' L', pull_item st now c id a (hash (key (ith c a))) cur_lru total_bytes flags max_age removed = Some p ∧
    pull_post n c id l1 a p c' L'.
Proof.
  intros HI Hid HL Htry. assert (a ∈ L id) as Ha by (rewrite HL, elem_of_app, elem_of_cons; auto).
  destruct (inv_queued _ _ _ c L a id HI Hid Ha) as (Hu & Hl & Hr0 & Ha0 & _).
  destruct (incr_inv _ hash n c L a id HI Hid Ha) as (HI1 & HS1 & Hu1 & Hr1 & Ht1).
  unfold pull_item. set (c1 := refcount_incr c a) in *.
  assert (old_enough st now (ith c1 a) = false) as -> by (unfold old_enough; by rewrite Hrep).
  rewrite andb_false_r. destruct (clear_active_ok n c1 L a id HI1 Hid Ha) as (HI2 & HS2 & Hr2).
  set (c2 := set_item c1 a (clear_flag ITEM_ACTIVE)) in *.
  assert (step c c2 a) as HS12 by by eapply step_trans.
  pose proof (λ r, stop_post n c L c1 a id l1 l2 r HI Hid HL HI1 HS1 Ht1 Hr1) as Hstop.
  pose proof (λ r to, move_post n c L c1 a id l1 l2 r to HI Hid HL HI1 HS1 Ht1 Hr1) as Hmove1.
  pose proof (λ r to, move_post n c L c2 a id l1 l2 r to HI Hid HL HI2 HS12 Ht1 (eq_trans Hr2 Hr1)) as Hmove2.
  destruct (evict_post n c L c1 a id l1 l2 HI Hid HL HI1 HS1 Ht1 Hr1 Htry) as (c3 & c' & E3 & E' & HI' & HE & _).
  destruct (_ || item_is_flushed _ _ _).
  { rewrite E3. cbn [mbind option_bind]. rewrite E'. cbn [mbind option_bind]. eexists _, c', _. split; [done|].
    split; cbn [p_item p_cache]; try done; [by left|]. intros _. split; [done|]. exists [], l2. unfold set_list.
    rewrite decide_True by done. split; [done|cbn; lia]. }
  destruct (_ || (cur_lru =? WARM_LRU)).
  - destruct (has_flag (ith c1 a) ITEM_ACTIVE); [|destruct (_ || _); [by apply Hmove1; auto|by apply Hstop]].
    destruct (cur_lru =? WARM_LRU); [|by apply Hmove2; auto].
    destruct (update_nolock_inv _ hash now n c2 L a id l1 l2 HI2 Hid HL) as (c4 & L4 & E4 & HI4 & HS4 & Ht4 & Hu4 & Hl4 & Hr4 & HL4).
    destruct (drop_linked n c L c4 L4 a HI Hu Hl HI4) as (c5 & E5 & HI5 & HE5);
      [by eapply step_trans|by rewrite Ht4|done|done|congruence|].
    rewrite E4. cbn [mbind option_bind]. rewrite E5. cbn [mbind option_bind]. eexists _, c5, L4. split; [done|].
    split; cbn [p_item p_cache]; try done; [by left|]. intros _. split; [done|].
    destruct HL4 as [->|[HL4|HL4]]; [exists [], (a :: l2)|exists [], l2|exists [a], l2]; (split; [done|cbn; lia]).
  - destruct (cur_lru =? COLD_LRU); [|by apply Hstop]. destruct (negb (_ =? 0)).
    + destruct (evict_to_free st); cbn [negb]; [|by apply Hstop]. rewrite E3. cbn [mbind option_bind].
      eexists _, c', _. split; [done|]. split; cbn [p_item p_cache p_move]; try done; [|by right].
      unfold finish. cbn [p_item p_cache p_move]. by rewrite (proj2 (Z.eqb_neq _ _) Ha0).
    + destruct (_ && _); [by apply Hmove2; auto|by apply Hstop].
Qed.

(** ** The loop *)

(** Where the loop is: past the head of the queue, or at an item with [m] before it. *)
Definition at_item (L : nat → list Z) (id : nat) (search : Z) (m : nat) : Prop :=
  search = 0 ∨ ∃ l1 l2, L id = l1 ++ search :: l2 ∧ (length l1 ≤ m)%nat.

(** The item before the one at the end of [l1] is the last of the rest. *)
Lemma at_before (L : nat → list Z) id x l1 y m :
  L id = x ++ l1 ++ y → (length x + length l1 ≤ S m)%nat → at_item L id (default 0 (list.last l1)) m.
Proof.
  intros HL Hm. destruct l1 as [|b l1 _] using rev_ind; [by left|]. right. rewrite last_snoc. change (default 0 (Some b)) with b.
  exists (x ++ l1), y. rewrite HL, <-!app_assoc. split; [done|]. rewrite !length_app in *. cbn [length] in Hm. lia.
Qed.

Lemma pull_loop_ok fuel n c L id tries search m cur_lru total_bytes flags max_age removed :
  inv (S n) c L → (id < LARGEST_ID)%nat → at_item L id search m → (Z.to_nat tries + m < fuel)%nat →
  ∃ p c' L', pull_loop st hash now trylock fuel c id tries search cur_lru total_bytes flags max_age removed = Answer p ∧
    finish p = Some c' ∧ inv (S n) c' L' ∧ evolves c c'.
Proof using Hrep.
  intros HI Hid. revert c L HI tries search m removed. induction fuel as [|fuel IH]; intros c L HI tries search m removed Hat Hf; [lia|].
  cbn [pull_loop].
  assert (∀ p, finish p = Some (p_cache p) → p_cache p = c → ∃ p' c' L', Answer p = Answer p' ∧ finish p' = Some c' ∧
    inv (S n) c' L' ∧ evolves c c') as Hdone.
  { intros p Hp Hc. exists p, c, L. rewrite Hc in Hp. done. }
  destruct (_ || _) eqn:Estop; [by apply Hdone|].
  apply orb_false_iff in Estop as [Htr%Z.leb_gt Hs0%Z.eqb_neq].
  destruct Hat as [|(l1 & l2 & HL & Hlen)]; [done|].
  pose proof (co_queue _ _ _ _ _ (v_ok _ _ _ _ _ HI) id Hid) as Hq. destruct Hq as [Hd _ _ _ _]. rewrite HL in Hd.
  destruct (dll_neighbours _ _ _ _ _ _ Hd) as [Hpv _]. fold (ith c search) in Hpv. rewrite Hpv.
  assert (∀ k, (length l1 ≤ S k)%nat → at_item L id (default 0 (list.last l1)) k) as Hprev.
  { intros k Hk. eapply (at_before L id [] l1); [exact HL|cbn; lia]. }
  assert (∀ t k r, (length l1 ≤ S k)%nat → (Z.to_nat t + k < fuel)%nat → ∃ p c' L',
    pull_loop st hash now trylock fuel c id t (default 0 (list.last l1)) cur_lru total_bytes flags max_age r = Answer p ∧
    finish p = Some c' ∧ inv (S n) c' L' ∧ evolves c c') as Hgo.
  { intros t k r Hk Hfk. by apply (IH c L HI t _ k r (Hprev k Hk)). }
  destruct (is_crawler _).
  { destruct (negb _); [by apply Hdone|]. destruct m as [|m]; [|apply (Hgo tries m); lia].
    destruct l1; [|cbn in Hlen; lia]. change (default 0 (list.last [])) with 0.
    destruct fuel as [|fuel]; [lia|]. cbn [pull_loop]. rewrite Z.eqb_refl, orb_true_r. by apply Hdone. }
  destruct (trylock _) eqn:Htry; cbn [negb]; [|apply (Hgo (tries - 1) m); lia].
  destruct (pull_item_ok n c L search id l1 l2 cur_lru total_bytes flags max_age removed HI Hid HL Htry) as (p & c' & L' & E & [Hfin HI' HE Hit Hrest]).
  rewrite E. cbn [asserting mbind answer_bind]. destruct (Z.eqb_spec (p_item p) 0) as [H0|H0].
  - destruct (Hrest H0) as (Hc' & x & y & HL' & Hx). rewrite <-Hc'.
    destruct (IH c' L' HI' (tries - 1) (default 0 (list.last l1)) m (p_removed p)) as (p' & c'' & L'' & E'' & Hf'' & HI'' & HE'').
    + eapply at_before; [exact HL'|lia].
    + lia.
    + exists p', c'', L''. split_and!; try done. by eapply evolves_trans.
  - exists p, c', L'. done.
Qed.

(** A queue has no more items than its class has chunks. *)
Lemma queue_length n c L id : inv n c L → (id < LARGEST_ID)%nat → Z.of_nat (length (L id)) < two32.
Proof.
  intros HI Hid. pose proof (v_ok _ _ _ _ _ HI) as Hok. destruct (co_queue _ _ _ _ _ Hok id Hid) as [_ _ Hnd _ Hit].
  destruct (L id) as [|a0 l] eqn:EL; [done|]. rewrite <-EL in *.
  assert (a0 ∈ L id) as Ha0 by (rewrite EL; by left). destruct (Hit a0 Ha0) as [Hu0 Hq0]. set (k := clsid_of (ith c a0)).
  assert (Hk : valid (slab c) k) by apply Hu0.
  assert (length (L id) ≤ length (all_chunks (slab c) k))%nat as Hle.
  { apply NoDup_length_le; [done|]. intros a Ha. apply elem_of_all_chunks. destruct (Hit a Ha) as [Hu Hq].
    assert (clsid_of (ith c a) = k) as <- by (unfold k, clsid_of, ITEM_clsid; by rewrite Hq, Hq0). apply Hu. }
  pose proof (all_chunks_length (slab c) k) as Hl. destruct (v_fits _ _ _ _ _ HI k Hk) as [_ Hf].
  destruct (co_slabs _ _ _ _ _ Hok) as [_ Hp _]. destruct (p_size _ _ Hp k Hk) as (_ & Hps & _), (p_list _ _ Hp k) as [Hsl _].
  rewrite !Z.max_r in Hl by lia. nia.
Qed.

Lemma lru_id orig cur : (orig < 64)%nat → cur ∈ [HOT_LRU; WARM_LRU; COLD_LRU; TEMP_LRU] →
  (Z.to_nat (Z.lor (Z.of_nat orig) cur) < LARGEST_ID)%nat.
Proof.
  intros Ho Hc. assert (Hall : Forall (λ o, Forall (λ cur, (Z.to_nat (Z.lor (Z.of_nat o) cur) < LARGEST_ID)%nat)
    [HOT_LRU; WARM_LRU; COLD_LRU; TEMP_LRU]) (seq 0 64)) by by_decide.
  rewrite list.Forall_forall in Hall. specialize (Hall orig). rewrite list.Forall_forall in Hall. apply Hall; [|done].
  apply elem_of_seq. lia.
Qed.

(** [lru_pull_tail] returns, and items that are held or stay linked are as they were. *)
Lemma lru_pull_tail_ok n c L orig cur total_bytes flags max_age :
  inv (S n) c L → (orig < 64)%nat → cur ∈ [HOT_LRU; WARM_LRU; COLD_LRU; TEMP_LRU] →
  ∃ c' L' r, lru_pull_tail st hash now trylock c orig cur total_bytes flags max_age = Answer (c', r) ∧
    inv (S n) c' L' ∧ evolves c c'.
Proof using Hrep.
  intros HI Ho Hcur. unfold lru_pull_tail. destruct (orig =? 0)%nat; [by exists c, L, 0|].
  set (id := Z.to_nat (Z.lor (Z.of_nat orig) cur)). assert (Hid : (id < LARGEST_ID)%nat) by by apply lru_id.
  destruct (co_queue _ _ _ _ _ (v_ok _ _ _ _ _ HI) id Hid) as [_ Htl _ Hsz _]. pose proof (queue_length _ _ _ _ HI Hid) as Hlen.
  destruct (pull_loop_ok (pull_fuel c id) n c L id 5 (tails c !!! id) (length (L id)) cur total_bytes flags max_age 0 HI Hid)
    as (p & c' & L' & -> & Hfin & HI' & HE).
  - rewrite Htl. apply (at_before L id [] (L id) []); [by rewrite app_nil_r|cbn; lia].
  - unfold pull_fuel. rewrite Hsz. unfold u32. rewrite Z.mod_small by lia. lia.
  - cbn [mbind answer_bind]. exists c', L', (p_removed p). by rewrite (finish_answer p c' Hfin).
Qed.

(** ** An item that nobody holds is evicted *)

Lemma pull_item_removed c id a hv cur tb flags max_age removed p :
  pull_item st now c id a hv cur tb flags max_age removed = Some p → removed ≤ p_removed p.
Proof.
  unfold pull_item. intros H.
  repeat match type of H with
    | context [if ?b then _ else _] => destruct b
    | context [?m ≫= _] => destruct m; cbn [mbind option_bind] in H
    end; try discriminate H; injection H as <-; cbn [p_removed]; lia.
Qed.

Lemma pull_loop_removed fuel c id tries search cur tb max_age removed p :
  pull_loop st hash now trylock fuel c id tries search cur tb LRU_PULL_EVICT max_age removed = Answer p → removed ≤ p_removed p.
Proof.
  revert c tries search removed. induction fuel as [|fuel IH]; intros c tries search removed H; [done|]. cbn [pull_loop] in H.
  destruct (_ || _); [by injection H as <-|]. destruct (is_crawler _); [by apply IH in H|].
  destruct (trylock _); cbn [negb] in H; [|by apply IH in H].
  destruct (pull_item _ _ _ _ _ _ _ _ _ _ _) as [q|] eqn:E; [|done]. apply pull_item_removed in E. cbn [asserting mbind answer_bind] in H.
  destruct (p_item q =? 0); [apply IH in H; lia|by injection H as <-].
Qed.

(** The item at the tail of the cold queue. *)
Lemma pull_item_evicts n c L a id l tb max_age removed :
  inv (S n) c L → (id < LARGEST_ID)%nat → L id = l ++ [a] → trylock (hash (key (ith c a))) = true → evict_to_free st = true → refcount (ith c a) = 1 →
  ∃ p c' L', pull_item st now c id a (hash (key (ith c a))) COLD_LRU tb LRU_PULL_EVICT max_age removed = Some p ∧
    pull_post n c id l a p c' L' ∧ p_removed p = removed + 1 ∧ ∀ i, valid (slab c) i → ¬ held (slab c') i a.
Proof using Hrep.
  intros HI Hid HL Htry Hev H1. assert (a ∈ L id) as Ha by (rewrite HL, elem_of_app, elem_of_cons; auto).
  destruct (inv_queued _ _ _ c L a id HI Hid Ha) as (Hu & _ & _ & Ha0 & _).
  destruct (incr_inv _ hash n c L a id HI Hid Ha) as (HI1 & HS1 & Hu1 & Hr1 & Ht1).
  destruct (pull_item_ok n c L a id l [] COLD_LRU tb LRU_PULL_EVICT max_age removed HI Hid HL Htry) as (p & c' & L' & E & Hp).
  exists p, c', L'. split; [done|]. split; [done|]. revert E. unfold pull_item. set (c1 := refcount_incr c a) in *.
  assert (old_enough st now (ith c1 a) = false) as -> by (unfold old_enough; by rewrite Hrep). rewrite andb_false_r.
  destruct (evict_post n c L c1 a id l [] HI Hid HL HI1 HS1 Ht1 Hr1 Htry) as (c3 & c4 & E3 & E4 & _ & _ & _ & Hfree).
  change ((COLD_LRU =? HOT_LRU) || (COLD_LRU =? WARM_LRU)) with false. change (COLD_LRU =? COLD_LRU) with true.
  change (negb (Z.land LRU_PULL_EVICT LRU_PULL_EVICT =? 0)) with true. rewrite Hev, E3. cbn [negb mbind option_bind].
  pose proof (pp_finish _ _ _ _ _ _ _ _ Hp) as Hfin. unfold finish in Hfin.
  destruct (_ || item_is_flushed _ _ _); cbn [mbind option_bind]; rewrite ?E4; cbn [mbind option_bind]; intros [= <-];
    cbn [p_item p_move p_cache p_removed] in *; split; try done.
  - rewrite Z.eqb_refl in Hfin. injection Hfin as <-. by apply Hfree.
  - rewrite (proj2 (Z.eqb_neq _ _) Ha0) in Hfin. change (0 =? 0) with true in Hfin. cbn [mbind option_bind] in Hfin.
    rewrite E4 in Hfin. injection Hfin as <-. by apply Hfree.
Qed.

Lemma lru_pull_tail_evicts n c L orig tb l a :
  inv (S n) c L → (0 < orig < 64)%nat → let id := Z.to_nat (Z.lor (Z.of_nat orig) COLD_LRU) in
  L id = l ++ [a] → is_crawler (ith c a) = false → trylock (hash (key (ith c a))) = true →
  evict_to_free st = true → refcount (ith c a) = 1 →
  ∃ c' L' r, lru_pull_tail st hash now trylock c orig COLD_LRU tb LRU_PULL_EVICT 0 = Answer (c', r) ∧
    inv (S n) c' L' ∧ evolves c c' ∧ 0 < r ∧ ∀ i, valid (slab c) i → ¬ held (slab c') i a.
Proof using Hrep.
  intros HI Ho id HL Hcr Htry Hev H1. assert (Hid : (id < LARGEST_ID)%nat) by (apply lru_id; [lia|set_solver]).
  destruct (inv_queued _ _ _ c L a id HI Hid) as (_ & _ & _ & Ha0 & _); [rewrite HL, elem_of_app, elem_of_cons; auto|].
  destruct (co_queue _ _ _ _ _ (v_ok _ _ _ _ _ HI) id Hid) as [Hd Htl _ Hsz _]. pose proof (queue_length _ _ _ _ HI Hid) as Hlen.
  unfold lru_pull_tail. rewrite (proj2 (Nat.eqb_neq _ _)) by lia. fold id.
  rewrite Htl, HL, last_snoc. change (default 0 (Some a)) with a.
  destruct (pull_item_evicts n c L a id l tb 0 0 HI Hid HL Htry Hev H1) as (p & c1 & L1 & E & [Hfin HI1 HE1 Hit Hrest] & Hrm & Hfree).
  assert (∃ k, pull_fuel c id = S k ∧ (length l + 5 ≤ k)%nat) as (k & -> & Hk).
  { unfold pull_fuel. exists (5 + Z.to_nat (sizes c !!! id))%nat. split; [done|]. rewrite Hsz. unfold u32.
    rewrite Z.mod_small by lia. rewrite HL, length_app. cbn [length]. lia. }
  cbn [pull_loop]. change (5 <=? 0) with false. rewrite (proj2 (Z.eqb_neq _ _) Ha0). cbn [orb]. rewrite Hcr, Htry. cbn [negb].
  rewrite E. cbn [asserting mbind answer_bind].
  destruct (p_item p =? 0) eqn:E0.
  - apply Z.eqb_eq in E0. destruct (Hrest E0) as (Hc1 & x & y & HL1 & Hx). rewrite <-Hc1.
    pose proof (dll_neighbours _ _ _ _ _ _ (eq_ind _ (λ l', dll _ _ _ l') Hd _ HL)) as [Hpv _]. fold (ith c a) in Hpv. rewrite Hpv.
    destruct (pull_loop_ok k n c1 L1 id 4 (default 0 (list.last l)) (length l) COLD_LRU tb LRU_PULL_EVICT 0 (p_removed p) HI1 Hid)
      as (q & c2 & L2 & E2 & Hf2 & HI2 & HE2); [eapply at_before; [exact HL1|lia]|lia|].
    change (5 - 1) with 4. rewrite E2. apply pull_loop_removed in E2. cbn [mbind answer_bind]. rewrite (finish_answer q c2 Hf2).
    exists c2, L2, (p_removed q). split_and!; [done|done|by eapply evolves_trans|lia|].
    intros i Hi Hh. apply (Hfree i Hi). apply (ev_held _ _ HE2); [|done]. unfold valid in *. by rewrite (sh_largest _ _ (ev_shape _ _ HE1)).
  - cbn [mbind answer_bind]. rewrite (finish_answer p c1 Hfin). exists c1, L1, (p_removed p). split_and!; try done. lia.
Qed.

End Spec.
