(* ===== verification/ItemNew.v ===== *)
(** A new item: [do_item_alloc] of [extra/KVS-DRAM-Cache/items.c] hands out a chunk that
    nobody uses, and leaves alone the items that are held or stay linked. *)

From S2P Require Import Prelude Item Slabs Assoc Items Itoa ItemFrame ItemInv ItemAlloc ItemAllocSpec.

(** ** The slab allocator under the items *)

Section Grow.
Context (st : item_settings) (hash : bytes → Z).

(** The items are as they were after a change of the slabs that leaves their chunks alone. *)
Lemma repage_inv n c L s' :
  inv st hash (S n) c L → slabs_ok (slab_settings st) s' → power_largest s' = power_largest (slab c) →
  (∀ i, valid (slab c) i → perslab (cls s' i) = perslab (cls (slab c) i) ∧ slabs (cls s' i) ≤ slabs (cls (slab c) i) + 1) →
  (∀ b, used c b → held s' (clsid_of (ith c b)) b ∧ hdr (chunks_mem s') b = ith c b) →
  (∀ i a, valid (slab c) i → held s' i a →
     held (slab c) i a ∧ hdr (chunks_mem s') a = ith c a ∨ Item.slabs_clsid (hdr (chunks_mem s') a) = 0) →
  let c' := with_slab c s' in
  inv st hash n c' L ∧ ∀ b, (used c' b ↔ used c b) ∧ (used c b → ith c' b = ith c b).
Proof.
  intros HI Hs Hl Hcl Hup Hdown c'. pose proof HI as [Hok Hf Hlow Hhigh Hflag].
  assert (∀ i, valid s' i ↔ valid (slab c) i) as Hv by (intros i; unfold valid; by rewrite Hl).
  assert (∀ b, used c b → ith c' b = ith c b) as Hi by (intros b Hu; by apply Hup).
  assert (∀ b, used c' b ↔ used c b) as Hu.
  { intros b. split.
    - intros Hub. pose proof Hub as [Hv' Hh' _ _ _]. destruct (Hdown _ b (proj1 (Hv _) Hv') Hh') as [[Hb E]|H0].
      + change (ith c' b = ith c b) in E. destruct Hub as [H1 H2 H3 H4 H5]. rewrite E in *. split; try done. by apply Hv.
      + exfalso. change (hdr (chunks_mem s') b) with (ith c' b) in H0. unfold clsid_of, ITEM_clsid in Hv'.
        rewrite H0 in Hv'. unfold valid in Hv'. cbn in Hv'. lia.
    - intros Hub. unfold used. rewrite (Hi b Hub). destruct (Hup b Hub) as [Hh _], Hub as [H1 H2 H3 H4 H5].
      split; try done. by apply Hv. }
  assert (∀ id b, (id < LARGEST_ID)%nat → b ∈ L id → used c b) as HL.
  { intros id b Hid Hb. by apply (queue_use _ _ Hok id b Hid Hb). }
  assert (cache_ok st hash c' L []) as Hok'.
  { destruct Hok as [O1 O2 O3 O4 O5 O6]. split; try done.
    - intros id Hid. destruct (O4 id Hid) as [Q1 Q2 Q3 Q4 Q5]. split; try done.
      + eapply dll_frame; [|exact Q1]. intros b Hb. pose proof (Hi b (HL id b Hid Hb)) as E. unfold ith in E. by rewrite E.
      + intros b Hb. split; [by apply Hu, (HL id)|]. rewrite Hi by by apply (HL id). apply (Q5 b Hb).
    - intros id b Hid Hb HX. rewrite Hi by by apply (HL id). by apply (O5 id).
    - intros k e Hk He. destruct (O6 k e Hk He) as (id & Hid & Hin & Hkey). exists id. rewrite Hi by by apply (HL id). done. }
  split; [|by split; auto]. split; [done|..].
  - intros id Hid%Hv. destruct (Hf id Hid) as [H1 H2], (Hcl id Hid) as [E Hsl].
    destruct (p_size _ _ (s_pages _ _ (co_slabs _ _ _ _ _ Hok)) id Hid) as (_ & Hps & _).
    change (slab c') with s'. rewrite E. nia.
  - intros b Hb%Hu. unfold extra, is_linked. rewrite Hi by done. by apply Hlow.
  - intros b Hb%Hu. rewrite Hi by done. specialize (Hhigh b Hb). lia.
  - intros b Hb%Hu. unfold is_linked. rewrite Hi by done. by apply Hflag.
Qed.

(** And after an allocation from the slabs. *)
Lemma grow_inv n c L s' :
  inv st hash (S n) c L → slabs_ok (slab_settings st) s' → grown (slab c) s' →
  (∀ i a, valid (slab c) i → held (slab c) i a → held s' i a) →
  (∀ i a, valid (slab c) i → held s' i a → held (slab c) i a ∨ Item.slabs_clsid (hdr (chunks_mem s') a) = 0) →
  let c' := with_slab c s' in
  inv st hash n c' L ∧ ∀ b, (used c' b ↔ used c b) ∧ (used c b → ith c' b = ith c b).
Proof.
  intros HI Hs [Hl Hcl Hh] Hup Hdown. apply repage_inv; try done.
  - intros i Hi. destruct (Hcl i Hi) as (_ & ? & ?). split; [done|lia].
  - intros b Hu. split; [apply Hup; apply Hu|]. apply (Hh (clsid_of (ith c b))); apply Hu.
  - intros i a Hi Ha. destruct (Hdown i a Hi Ha); [left|by right]. split; [done|by apply (Hh i)].
Qed.

End Grow.

(** ** A chunk that becomes an item *)

Lemma new_header_inv st hash n c L a id f :
  inv st hash n c L → valid (slab c) id → held (slab c) id a → ¬ used c a → in_use (slab c) a (f (ith c a)) →
  has_flag (f (ith c a)) ITEM_LINKED = false → 0 ≤ refcount (f (ith c a)) → refcount (f (ith c a)) + 2 * Z.of_nat n < 2 ^ 16 →
  let c' := set_item c a f in
  inv st hash n c' L ∧ used c' a ∧ (∀ i b, valid (slab c) i → held (slab c') i b ↔ held (slab c) i b) ∧
  ∀ b, b ≠ a → (used c' b ↔ used c b) ∧ ith c' b = ith c b.
Proof.
  intros HI Hid Hh Hnu Hu Hl Hr0 Hr c'. pose proof HI as [Hok Hf Hlow Hhigh Hflag].
  assert (∀ b, b ≠ a → ith c' b = ith c b) as Hi by (intros b Hb; unfold c'; by rewrite ith_set_ne).
  assert (∀ i b, (i < LARGEST_ID)%nat → b ∈ L i → used c b ∧ b ≠ a) as HL.
  { intros i b Hi' Hb. destruct (queue_use _ _ Hok i b Hi' Hb) as [Hub _]. split; [done|]. by intros ->. }
  destruct (slabs_frame (slab_settings st) (slab c) (mem_of_cache c')) as [Hs Hfr]; [apply Hok|..].
  { intros i b Hi' Hb. apply hdr_upd_ne. intros <-. by apply (held_not_free _ _ id i a (co_slabs _ _ _ _ _ Hok)) in Hb. }
  assert (∀ i b, valid (slab c) i → held (slab c') i b ↔ held (slab c) i b) as Hheld.
  { intros i b Hi'. change (slab c') with (with_mem (slab c) (mem_of_cache c')). unfold held. by rewrite (Hfr i Hi'). }
  assert (∀ b it, in_use (slab c') b it ↔ in_use (slab c) b it) as Huse.
  { intros b it. split; intros [H1 H2 H3 H4 H5]; (split; [done|by apply (Hheld (clsid_of it) b H1)|done..]). }
  assert (used c' a) as Hua by (apply Huse; unfold c'; by rewrite ith_set_eq).
  assert (∀ b, b ≠ a → (used c' b ↔ used c b) ∧ ith c' b = ith c b) as Hother.
  { intros b Hb. split; [|by apply Hi]. unfold used. by rewrite Huse, (Hi b Hb). }
  split_and!; try done. destruct Hok as [O1 O2 O3 O4 O5 O6]. split; [split; try done|done|..].
  - intros i Hi'. destruct (O4 i Hi') as [Q1 Q2 Q3 Q4 Q5]. split; try done.
    + eapply dll_frame; [|exact Q1]. intros b Hb. destruct (HL i b Hi' Hb) as [_ Hb']. pose proof (Hi b Hb') as E.
      unfold ith in E. by rewrite E.
    + intros b Hb. destruct (HL i b Hi' Hb) as [Hub Hb']. rewrite Hi by done. split; [by apply Huse|apply (Q5 b Hb)].
  - intros i b Hi' Hb HX. destruct (HL i b Hi' Hb) as [_ Hb']. rewrite Hi by done. by apply (O5 i).
  - intros k e Hk He. destruct (O6 k e Hk He) as (i & Hi' & Hin & Hkey). exists i. destruct (HL i _ Hi' Hin) as [_ Hb'].
    by rewrite Hi.
  - intros b Hb. destruct (decide (b = a)) as [->|Hne].
    + unfold extra, is_linked, c'. rewrite ith_set_eq, Hl. lia.
    + destruct (Hother b Hne) as [Hu' E]. unfold extra, is_linked. rewrite E. by apply Hlow, Hu'.
  - intros b Hb. destruct (decide (b = a)) as [->|Hne]; [unfold c'; by rewrite ith_set_eq|].
    destruct (Hother b Hne) as [Hu' E]. rewrite E. by apply Hhigh, Hu'.
  - intros b Hb. destruct (decide (b = a)) as [->|Hne]; [unfold is_linked, c'; by rewrite ith_set_eq, Hl|].
    destruct (Hother b Hne) as [Hu' E]. unfold is_linked. rewrite E. by apply Hflag, Hu'.
Qed.

(** ** A round of the loop *)

(** The classes have chunks of the same sizes. *)
Definition same_sizes (s s' : slab_state) : Prop :=
  power_largest s' = power_largest s ∧ ∀ i, valid s i → size (cls s' i) = size (cls s i).

Lemma same_sizes_trans s1 s2 s3 : same_sizes s1 s2 → same_sizes s2 s3 → same_sizes s1 s3.
Proof.
  intros [H1 H2] [H3 H4]. split; [congruence|]. intros i Hi. rewrite H4, H2; [done|done|]. unfold valid. by rewrite H1.
Qed.

Lemma same_shape_sizes s s' : same_shape s s' → same_sizes s s'.
Proof. intros [H1 H2 _]. split; [done|]. intros i Hi. by injection (H2 i Hi). Qed.

(** A chunk has been taken from the slabs; all else is as it was. *)
Record taken_from (c c' : cache) (id : nat) (a : Z) : Prop := {
  tk_table : table c' = table c;
  tk_sizes : same_sizes (slab c) (slab c');
  tk_held i b : valid (slab c) i → held (slab c') i b ↔ held (slab c) i b ∨ (i = id ∧ b = a);
  tk_apart i b : valid (slab c) i → held (slab c) i b →
    b + size (cls (slab c) i) ≤ a ∨ a + size (cls (slab c) id) ≤ b;
  tk_used b : used c' b ↔ used c b;
  tk_same b : used c b → ith c' b = ith c b;
  tk_header : it_flags (ith c' a) = 0 ∧ refcount (ith c' a) = 1 ∧ Item.slabs_clsid (ith c' a) = 0
}.

Section Alloc.
Context (st : alloc_settings) (hash : bytes → Z) (now : Z) (trylock : Z → bool) (os_of : slab_state → os).
Context (Hrep : tail_repair_time st = 0).
(** The C library: a page is null, or memory of its own. *)
Context (Hmalloc : ∀ s id, slabs_ok (slab_settings (item_st st)) s → valid s id → malloc_ok (slab_settings (item_st st)) s id (os_of s)).

Abbreviation inv := (ItemInv.inv (item_st st) hash).
Abbreviation sst := (slab_settings (item_st st)).
Abbreviation evolves := (evolving (λ k, trylock (hash k) = false)).

Lemma slabs_round n c L ntotal id :
  inv (S n) c L → valid (slab c) id → ntotal ≤ size (cls (slab c) id) →
  ∃ s' a, do_slabs_alloc sst (slab c) ntotal id false (os_of (slab c)) = Some (s', a, requested (cls (slab c) id)) ∧
    let c' := with_slab c s' in
    if a =? 0 then inv (S n) c' L ∧ evolves c c' ∧ free_list (slab c) id = [] ∧ (∀ b, used c b → ith c' b = ith c b)
    else inv n c' L ∧ taken_from c c' id a.
Proof using Hmalloc.
  intros HI Hid Hsz. pose proof (co_slabs _ _ _ _ _ (v_ok _ _ _ _ _ HI)) as Hs.
  destruct (slabs_alloc_ok sst (slab c) ntotal id false (os_of (slab c)) Hs Hid Hsz) as (s' & a & E & Hs' & Hg & Hcase).
  { eapply fits_room; [exact Hs|apply HI|done]. }
  { by apply Hmalloc. }
  exists s', a. split; [done|]. intros c'. destruct (a =? 0).
  - destruct Hcase as (Hk & Hfree & Hsc).
    destruct (grow_inv _ hash n c L s' HI Hs' Hg) as [HI' Hu].
    { intros i b Hi. by apply Hk. }
    { intros i b Hi Hb. left. by apply Hk in Hb. }
    fold c' in HI', Hu.
    assert (evolves c c') as HE.
    { split; [done|done|..].
      - intros b Hb%Hu. split; [done|]. by rewrite (proj2 (Hu b) Hb).
      - intros b Hb _. split; [by apply Hu|]. unfold extra, is_linked. by rewrite (proj2 (Hu b) Hb).
      - intros b Hb%Hu. by rewrite (proj2 (Hu b) Hb).
      - split; [apply Hg|..].
        + intros i Hi. unfold shape. destruct (g_class _ _ Hg i Hi) as (H1 & H2 & _). change (slab c') with s'.
          by rewrite H1, H2, (sc_slabs _ _ _ (Hsc i Hi)).
        + intros i b Hi. apply (sc_chunk _ _ _ (Hsc i Hi)).
        + intros i k p Hi. apply (sc_page _ _ _ (Hsc i Hi)).
      - intros i b Hi. by apply Hk. }
    split_and!; [by eapply inv_raise|done|by rewrite <-(sc_free _ _ _ (Hsc id Hid))|apply Hu].
  - destruct Hcase as (_ & Hap & Hheld & Hf & Hr & Hc).
    destruct (grow_inv _ hash n c L s' HI Hs' Hg) as [HI' Hu].
    { intros i b Hi Hb. apply Hheld; [done|by left]. }
    { intros i b Hi [Hb|[_ ->]]%Hheld; [by left|by right|done]. }
    split; [done|]. split; try done; [|apply Hu..]. split; [apply Hg|]. intros i Hi; by apply (g_class _ _ Hg i Hi).
Qed.

(** ** The loop *)

Definition pull_done (n : nat) (c : cache) (id : nat) (r : cache * Z) : Prop :=
  ∃ L', if r.2 =? 0 then inv (S n) r.1 L' ∧ evolves c r.1 ∧ lru_segmented (item_st st) = false
        else inv n r.1 L' ∧ ∃ c1, evolves c c1 ∧ taken_from c1 r.1 id r.2.

Lemma evolves_valid c c' id ntotal : evolves c c' → valid (slab c) id → ntotal ≤ size (cls (slab c) id) →
  valid (slab c') id ∧ ntotal ≤ size (cls (slab c') id).
Proof.
  intros [_ _ _ _ _ [Hl Hc _] _] Hid Hs. specialize (Hc id Hid). unfold shape in Hc. injection Hc as -> _ _.
  split; [unfold valid; by rewrite Hl|done].
Qed.

Lemma valid_small n c L id : inv n c L → valid (slab c) id → (id < 64)%nat.
Proof.
  intros HI Hid. destruct (p_largest _ _ (s_pages _ _ (co_slabs _ _ _ _ _ (v_ok _ _ _ _ _ HI)))) as [_ H].
  unfold valid, MAX_NUMBER_OF_SLAB_CLASSES in *. lia.
Qed.

Lemma pull_done_trans n c c' id r : evolves c c' → pull_done n c' id r → pull_done n c id r.
Proof.
  intros HE [L' H]. exists L'. destruct (r.2 =? 0).
  - destruct H as (? & ? & ?). split_and!; try done. by eapply evolves_trans.
  - destruct H as (? & c1 & ? & ?). split; [done|]. exists c1. split; [by eapply evolves_trans|done].
Qed.

Lemma alloc_pull_ok fuel n c L ntotal id :
  inv (S n) c L → valid (slab c) id → ntotal ≤ size (cls (slab c) id) →
  ends (do_item_alloc_pull st hash now trylock os_of fuel c ntotal id) (pull_done n c id).
Proof using Hmalloc Hrep.
  revert c L. induction fuel as [|fuel IH]; intros c L HI Hid Hsz; [done|]. cbn [do_item_alloc_pull].
  assert (∀ cur tb fl, cur ∈ [HOT_LRU; WARM_LRU; COLD_LRU; TEMP_LRU] → ∀ c L, inv (S n) c L → valid (slab c) id →
    ends (lru_pull_tail st hash now trylock c id cur tb fl 0) (λ r, ∃ L', inv (S n) r.1 L' ∧ evolves c r.1)) as Hpull.
  { intros cur tb fl Hcur c' L' HI' Hid'. pose proof (valid_small _ _ _ _ HI' Hid') as H64.
    destruct (lru_pull_tail_ok st hash now trylock Hrep n c' L' id cur tb fl 0 HI' H64 Hcur) as (c2 & L2 & r & -> & HI2 & HE).
    by exists L2. }
  apply ends_bind. eapply (ends_mono _ (λ r, ∃ L', inv (S n) r.1 L' ∧ evolves c r.1)).
  { destruct (lru_segmented _); [by exists L|]. eapply Hpull; [set_solver|done|done]. }
  intros [c1 r] (L1 & HI1 & HE1). cbn [fst] in *. destruct (evolves_valid _ _ _ _ HE1 Hid Hsz) as [Hid1 Hsz1].
  destruct (slabs_round n c1 L1 ntotal id HI1 Hid1 Hsz1) as (s' & a & E & Hcase). rewrite E. cbn [asserting mbind answer_bind].
  destruct (a =? 0) eqn:Ea.
  2: { exists L1. cbn [snd fst]. rewrite Ea. destruct Hcase as [HI' Ht]. eauto. }
  destruct Hcase as (HI2 & HE2 & _). set (c2 := with_slab c1 s') in *.
  destruct (evolves_valid _ _ _ _ HE2 Hid1 Hsz1) as [Hid2 Hsz2].
  apply ends_bind. eapply ends_mono; [eapply Hpull; [set_solver|done|done]|].
  intros [c3 k] (L3 & HI3 & HE3). cbn [fst] in *. destruct (evolves_valid _ _ _ _ HE3 Hid2 Hsz2) as [Hid3 Hsz3].
  assert (evolves c c3) as HE by (do 2 (eapply evolves_trans; [eassumption|]); done).
  destruct (k <=? 0); [|eapply ends_mono; [by eapply IH|intros; by eapply pull_done_trans]].
  destruct (lru_segmented _) eqn:Esg; [|by exists L3].
  apply ends_bind. eapply ends_mono; [eapply Hpull; [set_solver|done|done]|].
  intros [c4 k4] (L4 & HI4 & HE4). cbn [fst] in *. destruct (evolves_valid _ _ _ _ HE4 Hid3 Hsz3) as [Hid4 Hsz4].
  eapply ends_mono; [by eapply IH|]. intros x Hx. do 2 (eapply pull_done_trans; [eassumption|]). done.
Qed.

(** ** The new item *)

(** What [do_item_alloc] asks the slabs for. *)
Definition item_total (k : bytes) (flags nb : Z) : Z :=
  (item_make_header st (u8 (Z.of_nat (length k) + 1)) flags nb).2 + (if use_cas sst then 8 else 0).

Record new_item (c c' : cache) (k : bytes) (ex nb a : Z) : Prop := {
  ni_used : used c' a;
  ni_ref : refcount (ith c' a) = 1 ∧ is_linked c' a = false;
  ni_data : key (ith c' a) = k ∧ nbytes (ith c' a) = nb ∧ exptime (ith c' a) = ex;
  ni_size : ITEM_ntotal (ith c' a) ≤ size (cls (slab c') (clsid_of (ith c' a)));
  ni_apart b : used c' b → b ≠ a → b + size (cls (slab c') (clsid_of (ith c' b))) ≤ a ∨
    a + size (cls (slab c') (clsid_of (ith c' a))) ≤ b;
  ni_table : amap (table c') ⊆ amap (table c);
  ni_locked k' : trylock (hash k') = false → amap (table c') !! k' = amap (table c) !! k';
  ni_keep b : used c b → 1 ≤ extra c b ∨ in_table c' b →
    b ≠ a ∧ used c' b ∧ extra c' b = extra c b ∧ key (ith c' b) = key (ith c b) ∧ nbytes (ith c' b) = nbytes (ith c b)
}.

Lemma class_lru id cur : (id < 64)%nat → cur ∈ [HOT_LRU; WARM_LRU; COLD_LRU; TEMP_LRU] →
  0 ≤ Z.lor (Z.of_nat id) cur < 256 ∧ Z.to_nat (Z.ldiff (Z.lor (Z.of_nat id) cur) 192) = id.
Proof.
  intros Hid Hl. assert (Hall : Forall (λ o, Forall (λ cur, 0 ≤ Z.lor (Z.of_nat o) cur < 256 ∧
    Z.to_nat (Z.ldiff (Z.lor (Z.of_nat o) cur) 192) = o) [HOT_LRU; WARM_LRU; COLD_LRU; TEMP_LRU]) (seq 0 64)) by by_decide.
  rewrite list.Forall_forall in Hall. specialize (Hall id). rewrite list.Forall_forall in Hall. apply Hall; [|done].
  apply elem_of_seq. lia.
Qed.

Lemma first_lru_in ex : first_lru st now ex ∈ [HOT_LRU; WARM_LRU; COLD_LRU; TEMP_LRU].
Proof. unfold first_lru. destruct (_ && _); [set_solver|]. destruct (lru_segmented _); set_solver. Qed.

Lemma clsid_valid n c L sz :
  inv n c L → sz ≤ slab_chunk_size_max sst → slab_chunk_size_max sst ≤ size (cls (slab c) (power_largest (slab c))) →
  let id := Slabs.slabs_clsid sst (slab c) sz in id ≠ 0%nat → valid (slab c) id ∧ sz ≤ size (cls (slab c) id).
Proof.
  intros HI Hsz Hmax id. pose proof (p_largest _ _ (s_pages _ _ (co_slabs _ _ _ _ _ (v_ok _ _ _ _ _ HI)))) as [Hpl _].
  subst id. unfold Slabs.slabs_clsid. destruct (_ || _); [done|]. intros _.
  destruct (clsid_loop_spec (S (power_largest (slab c))) (slab c) sz POWER_SMALLEST) as (Hr & _ & Hlast); [unfold POWER_SMALLEST; lia..|].
  split; [exact Hr|]. destruct Hlast as [|E]; [done|]. rewrite E. lia.
Qed.

Lemma taken_fresh c1 c2 id a : taken_from c1 c2 id a → ¬ used c2 a.
Proof.
  intros [_ _ _ _ _ _ (_ & _ & H0)] [Hv _ _ _ _]. unfold clsid_of, ITEM_clsid in Hv. rewrite H0 in Hv.
  unfold valid in Hv. cbn in Hv. lia.
Qed.

Abbreviation init k id ex nb nsuf := (init_item st k (first_lru st now ex) id ex nb nsuf).

Lemma init_use n c1 c2 L id a k ex nb nsuf :
  inv n c2 L → valid (slab c1) id → taken_from c1 c2 id a → let it := init k (Z.of_nat id) ex nb nsuf (ith c2 a) in
  in_use (slab c2) a it ∧ clsid_of it = id ∧ has_flag it ITEM_LINKED = false ∧ cas_size it = (if use_cas sst then 8 else 0).
Proof.
  intros HI Hid Ht it. pose proof Ht as [_ [Hpl _] Hh _ _ _ (Hf & _ & _)].
  assert (valid (slab c2) id) as Hid2 by (unfold valid; by rewrite Hpl).
  destruct (class_lru id _ (valid_small _ _ _ _ HI Hid2) (first_lru_in ex)) as [Hr Hc].
  assert (clsid_of it = id) as Hcl by exact Hc.
  assert (has_flag it ITEM_SLABBED = false ∧ has_flag it ITEM_CHUNKED = false ∧ has_flag it ITEM_LINKED = false ∧
    has_flag it ITEM_CAS = use_cas sst) as (F1 & F2 & F3 & F4).
  { unfold it, has_flag, init_item. cbn [it_flags]. rewrite Hf. by destruct (use_cas sst). }
  split_and!; [|done|done|unfold cas_size; by rewrite F4]. split; try done; rewrite ?Hcl; [done|].
  apply Hh; [done|by right].
Qed.

Lemma init_ok n c c1 c2 L id a k flags ex nb :
  evolves c c1 → inv n c2 L → valid (slab c1) id → taken_from c1 c2 id a → Z.of_nat n < 2 ^ 14 →
  Z.of_nat (length k) ≤ 250 → item_total k flags nb ≤ size (cls (slab c1) id) →
  let nsuf := (item_make_header st (u8 (Z.of_nat (length k) + 1)) flags nb).1 in
  let c3 := set_item c2 a (init k (Z.of_nat id) ex nb nsuf) in inv n c3 L ∧ new_item c c3 k ex nb a.
Proof.
  intros HE HI Hid Ht Hn Hk Hsz nsuf c3. pose proof Ht as [Htab [Hpl Hsize] Hh Hap Hus Hsame (Hf & Hr & _)].
  destruct (init_use n c1 c2 L id a k ex nb nsuf HI Hid Ht) as (Hu & Hcl & Hlk & Hcs).
  destruct (new_header_inv _ hash n c2 L a id (init k (Z.of_nat id) ex nb nsuf) HI) as (HI3 & Hua & Hheld & Hoth); try done.
  { unfold valid. by rewrite Hpl. }
  { apply Hh; [done|by right]. }
  { by eapply taken_fresh. }
  { cbn [refcount init_item]. lia. }
  { cbn [refcount init_item]. lia. }
  fold c3 in HI3, Hua, Hoth. assert (ith c3 a = init k (Z.of_nat id) ex nb nsuf (ith c2 a)) as Ei by apply ith_set_eq.
  assert (∀ i, valid (slab c1) i → size (cls (slab c3) i) = size (cls (slab c1) i)) as Hsz3 by exact Hsize.
  assert (∀ b, used c1 b → b ≠ a) as Hne by (intros b Hb%Hus ->; by eapply taken_fresh).
  assert (∀ b, used c1 b → used c3 b ∧ ith c3 b = ith c1 b) as Hold.
  { intros b Hb. destruct (Hoth b (Hne b Hb)) as [H1 H2]. rewrite H2. split; [by apply H1, Hus|by apply Hsame]. }
  assert (∀ b, used c3 b → b ≠ a → used c1 b) as Hback by (intros b Hb Hb'; by apply Hus, (proj1 (Hoth b Hb'))).
  split; [done|]. split.
  - done.
  - unfold is_linked. by rewrite Ei.
  - by rewrite Ei.
  - rewrite Ei, Hcl, Hsz3 by done. etrans; [|exact Hsz]. unfold ITEM_ntotal, item_total. rewrite Hcs.
    unfold nsuf, item_make_header. cbn [snd fst]. cbn [nbytes nkey nsuffix init_item].
    generalize (if inline_ascii_response st then u8 (Z.of_nat (length (dec flags) + length (sdec (nb - 2))) + 4)
      else if flags =? 0 then 0 else 4). intros x. unfold u8. rewrite !Z.mod_small by lia. lia.
  - intros b Hb Hb'. pose proof (Hback b Hb Hb') as Hb1. rewrite Ei, Hcl, (proj2 (Hold b Hb1)).
    rewrite !Hsz3 by (done || apply Hb1). by apply Hap; apply Hb1.
  - change (table c3) with (table c2). rewrite Htab. apply HE.
  - change (table c3) with (table c2). rewrite Htab. apply HE.
  - intros b Hb Hk'. assert (1 ≤ extra c b ∨ in_table c1 b) as Hk1.
    { unfold in_table in *. change (table c3) with (table c2) in Hk'. by rewrite Htab in Hk'. }
    destruct (ev_keep _ _ HE b Hb Hk1) as [Hu1 He1]. destruct (Hold b Hu1) as [Hu3 E3].
    destruct (ev_key _ _ HE b Hu1) as [K1 K2]. unfold extra, is_linked in *. rewrite E3. by split_and!; [apply Hne|..].
Qed.

Lemma total_pos k flags nb : 2 ≤ nb → 0 < item_total k flags nb.
Proof.
  intros Hnb. unfold item_total, item_make_header, sizeof_item. cbn [snd].
  assert (∀ x, 0 ≤ u8 x) as Hu by (intros x; by apply Z.mod_pos_bound).
  pose proof (Hu (Z.of_nat (length k) + 1)). pose proof (Hu (Z.of_nat (length (dec flags) + length (sdec (nb - 2))) + 4)).
  destruct (inline_ascii_response st), (flags =? 0), (use_cas sst); lia.
Qed.

Lemma clsid_zero s sz : (1 ≤ power_largest s)%nat → 0 < sz → Slabs.slabs_clsid sst s sz = 0%nat → item_size_max sst < sz.
Proof.
  intros Hpl Hpos. unfold Slabs.slabs_clsid. rewrite (proj2 (Z.eqb_neq _ _)) by lia. cbn [orb].
  destruct (Z.ltb_spec (item_size_max sst) sz) as [|_]; [done|].
  destruct (clsid_loop_spec (S (power_largest s)) s sz POWER_SMALLEST) as (Hr & _); [unfold POWER_SMALLEST; lia..|].
  unfold POWER_SMALLEST in *. lia.
Qed.

(** ** Every allocation *)

Definition alloc_post (n : nat) (c : cache) (k : bytes) (flags ex nb : Z) (r : cache * Z) : Prop :=
  same_sizes (slab c) (slab r.1) ∧ ∃ L',
    if r.2 =? 0 then inv (S n) r.1 L' ∧ evolves c r.1 ∧
      (nb < 2 ∨ item_size_max sst < item_total k flags nb ∨ lru_segmented (item_st st) = false)
    else inv n r.1 L' ∧ new_item c r.1 k ex nb r.2.

Lemma item_alloc_ok fuel n c L k flags ex nb :
  inv (S n) c L → Z.of_nat n < 2 ^ 14 →
  (2 ≤ nb → Z.of_nat (length k) ≤ 250 ∧
     item_total k flags nb ≤ slab_chunk_size_max sst ≤ size (cls (slab c) (power_largest (slab c)))) →
  ends (do_item_alloc st hash now trylock os_of fuel c k flags ex nb) (alloc_post n c k flags ex nb).
Proof using Hmalloc Hrep.
  intros HI Hn Hall. unfold do_item_alloc. destruct (Z.ltb_spec nb 2) as [Hnb|Hnb].
  { split; [done|]. exists L. split_and!; [done|done|by left]. }
  destruct (Hall Hnb) as (Hk & Hsz & Hmax).
  pose proof (total_pos k flags nb Hnb) as Hpos.
  pose proof (clsid_valid (S n) c L (item_total k flags nb) HI Hsz Hmax) as Hv.
  pose proof (λ c1 c2 L' id a HE HI' Hid Ht Hs, init_ok n c c1 c2 L' id a k flags ex nb HE HI' Hid Ht Hn Hk Hs) as Hinit.
  unfold item_total in *. destruct (item_make_header st (u8 (Z.of_nat (length k) + 1)) flags nb) as [nsuf tot] eqn:Eh.
  cbn [fst snd] in *. set (total := tot + _) in *.
  destruct (Nat.eqb_spec (Slabs.slabs_clsid sst (slab c) total) 0) as [H0|H0].
  { split; [done|]. exists L. rewrite Z.eqb_refl. cbn [fst snd]. split_and!; [done|done|]. right. left. unfold item_total. rewrite Eh. apply clsid_zero in H0; [done| |done].
    apply (p_largest _ _ (s_pages _ _ (co_slabs _ _ _ _ _ (v_ok _ _ _ _ _ HI)))). }
  destruct (Hv H0) as [Hid Hs]. set (id := Slabs.slabs_clsid sst (slab c) total) in *.
  rewrite (proj2 (Z.ltb_ge _ _)) by done. apply ends_bind. eapply ends_mono; [by eapply alloc_pull_ok|].
  intros [c2 a] [L' H]. cbn [fst snd] in H. destruct (a =? 0) eqn:Ea; rewrite ?Ea.
  { destruct H as (? & HE & ?). split; [apply same_shape_sizes, HE|]. exists L'. rewrite Z.eqb_refl. auto. }
  destruct H as (HI2 & c1 & HE & Ht). destruct (tk_header _ _ _ _ Ht) as (_ & _ & ->).
  destruct (evolves_valid _ _ _ _ HE Hid Hs) as [Hid1 Hs1].
  split; [eapply same_sizes_trans; [apply same_shape_sizes, HE|apply Ht]|]. exists L'. cbn [fst snd]. rewrite Ea. by apply (Hinit c1 c2 L' id a HE HI2 Hid1 Ht Hs1).
Qed.

(** C22: [do_item_alloc] returns null or a new item that is not linked and referenced
    once, by the caller, that has the key, the size and the expiry time asked for, fits
    its chunk, and overlaps no other item.  To make room it may evict: the items that a
    caller holds, and those that are still in the hash table, are left as they were, and
    the item of a key whose lock is taken stays in the table. *)
Theorem do_item_alloc_fresh fuel n c L k flags ex nb :
  inv (S n) c L → Z.of_nat n < 2 ^ 14 → Z.of_nat (length k) ≤ 250 →
  item_total k flags nb ≤ slab_chunk_size_max sst ≤ size (cls (slab c) (power_largest (slab c))) →
  ends (do_item_alloc st hash now trylock os_of fuel c k flags ex nb) (λ '(c', a), ∃ L',
    if a =? 0 then inv (S n) c' L' ∧ evolves c c' ∧
      (nb < 2 ∨ item_size_max sst < item_total k flags nb ∨ lru_segmented (item_st st) = false)
    else inv n c' L' ∧ new_item c c' k ex nb a).
Proof using Hmalloc Hrep.
  intros HI Hn Hk Hsz. eapply ends_mono; [by apply (item_alloc_ok fuel n c L)|]. by intros [c' a] [_ H].
Qed.

(** ** When an allocation succeeds *)

Lemma cold_class n c L id a :
  inv n c L → (id < 64)%nat → let q := Z.to_nat (Z.lor (Z.of_nat id) COLD_LRU) in a ∈ L q → clsid_of (ith c a) = id.
Proof.
  intros HI Hid q Ha. assert (COLD_LRU ∈ [HOT_LRU; WARM_LRU; COLD_LRU; TEMP_LRU]) as Hc by set_solver.
  destruct (queue_use _ _ (v_ok _ _ _ _ _ HI) q a (lru_id id COLD_LRU Hid Hc) Ha) as [_ Hq].
  destruct (class_lru id COLD_LRU Hid Hc) as [Hr Hi]. unfold clsid_of, ITEM_clsid. rewrite Hq. unfold q. by rewrite Z2Nat.id by lia.
Qed.

Lemma alloc_pull_evicts fuel n c L ntotal id l a :
  inv (S n) c L → valid (slab c) id → ntotal ≤ size (cls (slab c) id) →
  lru_segmented (item_st st) = true → evict_to_free st = true →
  L (Z.to_nat (Z.lor (Z.of_nat id) COLD_LRU)) = l ++ [a] → is_crawler (ith c a) = false →
  trylock (hash (key (ith c a))) = true → refcount (ith c a) = 1 →
  ∃ c' b, do_item_alloc_pull st hash now trylock os_of (S (S fuel)) c ntotal id = Answer (c', b) ∧ b ≠ 0.
Proof using Hmalloc Hrep.
  intros HI Hid Hsz Hseg Hev HL Hcr Htry H1. pose proof (valid_small _ _ _ _ HI Hid) as H64.
  set (q := Z.to_nat _) in HL. assert (a ∈ L q) as Ha by (rewrite HL, elem_of_app, elem_of_cons; auto).
  pose proof (cold_class (S n) c L id a HI H64 Ha) as Hcl.
  destruct (queue_use _ _ (v_ok _ _ _ _ _ HI) q a (lru_id id COLD_LRU H64 ltac:(set_solver)) Ha) as [Hu _].
  cbn [do_item_alloc_pull]. rewrite Hseg. cbn [mbind answer_bind].
  destruct (slabs_round n c L ntotal id HI Hid Hsz) as (s' & b & -> & Hcase). cbn [asserting mbind answer_bind].
  destruct (b =? 0) eqn:Eb; [|eexists _, b; split; [done|by apply Z.eqb_neq]].
  destruct Hcase as (HI1 & HE1 & _ & Hsame). set (c1 := with_slab c s') in *. specialize (Hsame a Hu).
  destruct (evolves_valid _ _ _ _ HE1 Hid Hsz) as [Hid1 Hsz1].
  match goal with |- context [lru_pull_tail _ _ _ _ c1 id COLD_LRU ?tb _ _] =>
    destruct (lru_pull_tail_evicts st hash now trylock Hrep n c1 L id tb l a HI1) as (c2 & L2 & r & -> & HI2 & HE2 & Hr & Hfree) end;
    try (rewrite ?Hsame; done); [unfold valid in Hid; lia|].
  cbn [mbind answer_bind]. rewrite (proj2 (Z.leb_gt _ _) Hr).
  destruct (evolves_valid _ _ _ _ HE2 Hid1 Hsz1) as [Hid2 Hsz2].
  destruct (slabs_round n c2 L2 ntotal id HI2 Hid2 Hsz2) as (s2 & b2 & -> & Hcase). cbn [asserting mbind answer_bind].
  destruct (b2 =? 0) eqn:Eb2; [|eexists _, b2; split; [done|by apply Z.eqb_neq]]. exfalso.
  destruct Hcase as (_ & _ & Hnil & _). apply (Hfree id Hid1). split.
  - apply (sh_chunk _ _ (ev_shape _ _ HE2)); [done|]. apply (sh_chunk _ _ (ev_shape _ _ HE1)); [done|].
    destruct Hu as [_ [Hc _] _ _ _]. by rewrite Hcl in Hc.
  - rewrite Hnil. apply not_elem_of_nil.
Qed.

(** C23: an allocation succeeds when the class has an item to evict: the one at the tail
    of its cold queue, if no caller holds it, its lock is free, and evicting is on.  Two
    rounds of the loop are enough. *)
Theorem do_item_alloc_evicts fuel n c L k flags ex nb l a :
  inv (S n) c L → 2 ≤ nb →
  item_total k flags nb ≤ slab_chunk_size_max sst ≤ size (cls (slab c) (power_largest (slab c))) →
  item_total k flags nb ≤ item_size_max sst →
  lru_segmented (item_st st) = true → evict_to_free st = true →
  L (Z.to_nat (Z.lor (Z.of_nat (Slabs.slabs_clsid sst (slab c) (item_total k flags nb))) COLD_LRU)) = l ++ [a] →
  is_crawler (ith c a) = false → trylock (hash (key (ith c a))) = true → refcount (ith c a) = 1 →
  ∃ c' b, do_item_alloc st hash now trylock os_of (S (S fuel)) c k flags ex nb = Answer (c', b) ∧ b ≠ 0.
Proof using Hmalloc Hrep.
  intros HI Hnb [Hsz Hmax] Hmax2 Hseg Hev HL Hcr Htry H1. unfold do_item_alloc. rewrite (proj2 (Z.ltb_ge _ _)) by done.
  pose proof (total_pos k flags nb Hnb) as Hpos. pose proof (clsid_valid (S n) c L (item_total k flags nb) HI Hsz Hmax) as Hv.
  unfold item_total in *. destruct (item_make_header st (u8 (Z.of_nat (length k) + 1)) flags nb) as [nsuf tot] eqn:Eh.
  cbn [fst snd] in *. set (total := tot + _) in *.
  destruct (Nat.eqb_spec (Slabs.slabs_clsid sst (slab c) total) 0) as [H0|H0].
  { apply clsid_zero in H0; [lia| |done]. apply (p_largest _ _ (s_pages _ _ (co_slabs _ _ _ _ _ (v_ok _ _ _ _ _ HI)))). }
  destruct (Hv H0) as [Hid Hs]. set (id := Slabs.slabs_clsid sst (slab c) total) in *. rewrite (proj2 (Z.ltb_ge _ _)) by done.
  destruct (alloc_pull_evicts fuel n c L total id l a) as (c' & b & E & Hb); try done.
  pose proof (alloc_pull_ok (S (S fuel)) n c L total id HI Hid Hs) as Hok. rewrite E in Hok |- *. cbn [ends] in Hok.
  destruct Hok as [L' Hok]. cbn [fst snd] in Hok. apply Z.eqb_neq in Hb as Hb'. rewrite Hb' in Hok.
  destruct Hok as (_ & c1 & _ & Ht). destruct (tk_header _ _ _ _ Ht) as (_ & _ & H00). cbn [mbind answer_bind]. rewrite Hb', H00.
  cbn [asserting assert_ mbind answer_bind]. eexists _, b. split; [done|done].
Qed.

(** ** When it never returns *)

(** There is no page to be had: no arena, no page in the pool, and no memory. *)
Definition no_memory (s : slab_state) : Prop := mem_base s = 0 ∧ slabs (cls s SLAB_GLOBAL_PAGE_POOL) < 1.

Lemma newslab_null s id o :
  malloc_ret o = 0 → no_memory s → id ≠ 0%nat →
  ∃ s', do_slabs_newslab sst s id o = Some (s', false) ∧ no_memory s'.
Proof.
  intros Ho [Hb Hp] Hid. unfold do_slabs_newslab. destruct (_ && _); [by eexists|].
  assert (∃ s1 ok, grow_slab_list s id (realloc_ok o) = (s1, ok) ∧ no_memory s1) as (s1 & ok & -> & Hb1 & Hp1).
  { unfold grow_slab_list. destruct (_ =? _); [|by eexists _, _]. destruct (negb (realloc_ok o)); [by eexists _, _|].
    eexists _, _. split; [done|]. split; [done|]. unfold SLAB_GLOBAL_PAGE_POOL in *. by rewrite cls_set_ne. }
  destruct ok; cbn [negb]; [|by exists s1]. unfold new_page, get_page_from_global_pool. fold (cls s1 SLAB_GLOBAL_PAGE_POOL).
  rewrite (proj2 (Z.ltb_lt _ _) Hp1). cbn [negb Z.eqb]. unfold memory_allocate. rewrite Hb1, Z.eqb_refl, Ho, Z.eqb_refl.
  eexists. split; [done|]. split; [done|exact Hp1].
Qed.

Lemma alloc_exhausted s sz id o s1 :
  slabs_ok sst s → valid s id → sz ≤ size (cls s id) → free_list s id = [] →
  do_slabs_newslab sst s id o = Some (s1, false) → free_list s1 id = [] → slabs_ok sst s1 → valid s1 id →
  do_slabs_alloc sst s sz id false o = Some (s1, 0, requested (cls s id)).
Proof.
  intros Hs Hid Hsz Hnil E Hnil1 Hs1 Hid1. unfold do_slabs_alloc. fold (cls s id).
  rewrite (proj2 (Nat.ltb_ge _ _)) by apply Hid. rewrite (proj2 (Nat.ltb_ge _ _)) by apply Hid.
  rewrite (c_count _ _ _ (l_class _ _ (s_lists _ _ Hs) id Hid)), Hnil, (proj2 (Z.ltb_ge _ _)) by done.
  change (Z.of_nat (length []) =? 0) with true. cbn [orb negb andb]. rewrite E. cbn [fmap option_fmap option_map fst mbind option_bind].
  unfold pop_free. fold (cls s1 id). by rewrite (c_count _ _ _ (l_class _ _ (s_lists _ _ Hs1) id Hid1)), Hnil1.
Qed.

Lemma slabs_null n c L ntotal id :
  (∀ s, malloc_ret (os_of s) = 0) → inv (S n) c L → valid (slab c) id → ntotal ≤ size (cls (slab c) id) →
  no_memory (slab c) → free_list (slab c) id = [] →
  ∃ s' r, do_slabs_alloc sst (slab c) ntotal id false (os_of (slab c)) = Some (s', 0, r) ∧
    inv (S n) (with_slab c s') L ∧ evolves c (with_slab c s') ∧ no_memory s' ∧ free_list s' id = [].
Proof using Hmalloc.
  intros Ho HI Hid Hsz Hnm Hnil. destruct (slabs_round n c L ntotal id HI Hid Hsz) as (s' & a & E & Hcase).
  pose proof (co_slabs _ _ _ _ _ (v_ok _ _ _ _ _ HI)) as Hs.
  destruct (newslab_null (slab c) id (os_of (slab c)) (Ho _) Hnm) as (s1 & E1 & Hnm1); [unfold valid in Hid; lia|].
  destruct (newslab_ok sst (slab c) id (os_of (slab c)) Hs Hid) as (s1' & ok & E1' & Hs1 & Hk1 & Hsc).
  { eapply fits_room; [exact Hs|apply HI|done]. }
  { by apply Hmalloc. }
  rewrite E1' in E1. injection E1 as -> ->. pose proof (sc_free _ _ _ (Hsc id Hid)) as Hf. rewrite Hnil in Hf.
  rewrite (alloc_exhausted (slab c) ntotal id _ s1) in E by (done || by apply (keeps_valid _ _ id Hk1)).
  injection E as <- <-. cbn in Hcase. destruct Hcase as (? & ? & _). exists s1, (requested (cls (slab c) id)).
  split_and!; try done. by apply alloc_exhausted; try done; apply (keeps_valid _ _ id Hk1).
Qed.

(** Nothing to pull from an empty queue. *)
Lemma pull_empty n c L orig cur tb flags :
  inv n c L → (orig < 64)%nat → cur ∈ [HOT_LRU; WARM_LRU; COLD_LRU; TEMP_LRU] →
  L (Z.to_nat (Z.lor (Z.of_nat orig) cur)) = [] → lru_pull_tail st hash now trylock c orig cur tb flags 0 = Answer (c, 0).
Proof.
  intros HI Ho Hc HL. unfold lru_pull_tail. destruct (orig =? 0)%nat; [done|].
  destruct (co_queue _ _ _ _ _ (v_ok _ _ _ _ _ HI) _ (lru_id orig cur Ho Hc)) as [_ Ht _ _ _]. rewrite Ht, HL. done.
Qed.

Lemma alloc_pull_hangs fuel n c L ntotal id :
  (∀ s, malloc_ret (os_of s) = 0) → lru_segmented (item_st st) = true →
  inv (S n) c L → valid (slab c) id → ntotal ≤ size (cls (slab c) id) → no_memory (slab c) → free_list (slab c) id = [] →
  L (Z.to_nat (Z.lor (Z.of_nat id) COLD_LRU)) = [] → L (Z.to_nat (Z.lor (Z.of_nat id) HOT_LRU)) = [] →
  do_item_alloc_pull st hash now trylock os_of fuel c ntotal id = Never.
Proof using Hmalloc.
  intros Ho Hseg HI Hid Hsz Hnm Hnil Hcold Hhot. revert c HI Hid Hsz Hnm Hnil.
  induction fuel as [|fuel IH]; intros c HI Hid Hsz Hnm Hnil; [done|].
  cbn [do_item_alloc_pull]. rewrite Hseg. cbn [mbind answer_bind].
  destruct (slabs_null n c L ntotal id Ho HI Hid Hsz Hnm Hnil) as (s' & r & -> & HI' & HE & Hnm' & Hnil').
  cbn [asserting mbind answer_bind]. change (0 =? 0) with true. destruct (evolves_valid _ _ _ _ HE Hid Hsz) as [Hid' Hsz'].
  pose proof (valid_small _ _ _ _ HI Hid) as H64.
  rewrite (pull_empty (S n) _ L id COLD_LRU) by (done || by_decide). cbn [mbind answer_bind]. change (0 <=? 0) with true.
  rewrite (pull_empty (S n) _ L id HOT_LRU) by (done || by_decide). cbn [mbind answer_bind]. by apply IH.
Qed.

(** An allocation never returns when the class has neither a free chunk nor a linked
    item and there is no memory: the [while (1)] of [do_item_alloc_pull] has no other way
    out, as long as the LRU queues are segmented.  So it is when the callers hold all the
    chunks of a class. *)
Theorem do_item_alloc_hangs fuel n c L k flags ex nb :
  (∀ s, malloc_ret (os_of s) = 0) → lru_segmented (item_st st) = true → inv (S n) c L → 2 ≤ nb →
  item_total k flags nb ≤ slab_chunk_size_max sst ≤ size (cls (slab c) (power_largest (slab c))) →
  item_total k flags nb ≤ item_size_max sst → no_memory (slab c) →
  let id := Slabs.slabs_clsid sst (slab c) (item_total k flags nb) in
  free_list (slab c) id = [] →
  L (Z.to_nat (Z.lor (Z.of_nat id) COLD_LRU)) = [] → L (Z.to_nat (Z.lor (Z.of_nat id) HOT_LRU)) = [] →
  do_item_alloc st hash now trylock os_of fuel c k flags ex nb = Never.
Proof using Hmalloc.
  intros Ho Hseg HI Hnb [Hsz Hmax] Hmax2 Hnm id0 Hnil Hcold Hhot. unfold do_item_alloc. rewrite (proj2 (Z.ltb_ge _ _)) by done.
  pose proof (total_pos k flags nb Hnb) as Hpos. pose proof (clsid_valid (S n) c L (item_total k flags nb) HI Hsz Hmax) as Hv.
  unfold item_total in *. destruct (item_make_header st (u8 (Z.of_nat (length k) + 1)) flags nb) as [nsuf tot] eqn:Eh.
  cbn [fst snd] in *. set (total := tot + _) in *. fold id0 in Hv |- *.
  destruct (Nat.eqb_spec id0 0) as [H0|H0].
  { apply clsid_zero in H0; [lia| |done]. apply (p_largest _ _ (s_pages _ _ (co_slabs _ _ _ _ _ (v_ok _ _ _ _ _ HI)))). }
  destruct (Hv H0) as [Hid Hs]. rewrite (proj2 (Z.ltb_ge _ _)) by done.
  by rewrite (alloc_pull_hangs fuel n c L total id0).
Qed.

End Alloc.

(** ** Witnesses: a class of five chunks, all of them taken *)

(** The invariant of a cache whose heap is known. *)
Definition header_check (n : nat) (q : list Z) (a : Z) (it : stritem) : Prop :=
  clsid_of it = 0%nat ∨
  (0 ≤ refcount it - (if has_flag it ITEM_LINKED then 1 else 0) ∧ refcount it + 2 * Z.of_nat n < 2 ^ 16 ∧
   (has_flag it ITEM_LINKED = true → a ∈ q)).

#[global] Instance header_check_dec n q a it : Decision (header_check n q a it).
Proof. unfold header_check. apply _. Defined.

Definition fits_check (n : nat) (s : slab_state) : bool :=
  forallb (λ id, ((slabs (cls s id) + Z.of_nat n) * 2 + 32 <? two32) &&
    ((slabs (cls s id) + Z.of_nat n + 1) * perslab (cls s id) <? two32)) (seq 1 (power_largest s)).

Lemma fits_check_ok n s : fits_check n s = true → fits n s.
Proof.
  unfold fits_check. rewrite forallb_forall. intros H id Hid. specialize (H id).
  apply andb_true_iff in H as [H1%Z.ltb_lt H2%Z.ltb_lt]; [done|]. apply in_seq. unfold valid in Hid. lia.
Qed.

Lemma inv_check st hash n c L id :
  cache_ok st hash c L [] → fits_check n (slab c) = true → (id < LARGEST_ID)%nat →
  bool_decide (map_Forall (header_check n (L id)) (mem_of_cache c)) = true → inv st hash n c L.
Proof.
  intros Hok Hf Hid Hh%bool_decide_eq_true. assert (∀ a, used c a → header_check n (L id) a (ith c a) ∧ clsid_of (ith c a) ≠ 0%nat) as H.
  { intros a [Hv _ _ _ _]. assert (clsid_of (ith c a) ≠ 0%nat) as H0 by (unfold valid in Hv; lia). split; [|done].
    unfold ith, hdr in H0 |- *. destruct (mem_of_cache c !! a) as [it|] eqn:E; [by apply (Hh a)|]. by destruct H0. }
  split; [done|by apply fits_check_ok|..]; intros a Ha; destruct (H a Ha) as [[|(H1 & H2 & H3)] H0]; try done.
  intros Hl. exists id. split; [done|]. by apply H3.
Qed.

Definition full_settings : alloc_settings := mkAllocSettings test_settings false 0 20 40 true 0 false.
Definition no_os (s : slab_state) : os := mkOs true 0.
Definition every_lock (hv : Z) : bool := true.

Definition drained : slab_state := Nat.iter 5 (λ s, (pop_free s 2 100).1) paged.
Definition drained_cache : cache := empty_cache drained.

Lemma pop_ok st s id sz : slabs_ok st s ∧ valid s id → slabs_ok st (pop_free s id sz).1 ∧ valid (pop_free s id sz).1 id.
Proof.
  intros [Hs Hid]. pose proof (alloc_pop st s id sz Hs Hid) as H. destruct (pop_free s id sz) as [s' r].
  destruct H as (Hs' & Hg & _). split; [exact Hs'|]. unfold valid. cbn [fst]. rewrite (g_largest _ _ Hg). exact Hid.
Qed.

Lemma paged_ok : slabs_ok small_settings paged ∧ valid paged 2.
Proof.
  split; [|vm_compute; lia]. destruct (newslab_ok small_settings started 2 os_4096) as (s1 & ok & Hs1 & Hok1 & _);
    [apply started_ok|by vm_compute; lia|by vm_compute|by apply started_malloc; vm_compute; lia|].
  unfold paged. by rewrite Hs1.
Qed.

Lemma drained_ok : slabs_ok small_settings drained ∧ valid drained 2.
Proof. unfold drained. do 5 apply pop_ok. apply paged_ok. Qed.

Lemma drained_inv : inv test_settings hash0 2 drained_cache (λ _, []).
Proof.
  apply (inv_check _ _ _ _ _ 0); [apply empty_cache_ok, drained_ok|by vm_compute|unfold LARGEST_ID; lia|by vm_compute].
Qed.

Lemma no_os_ok s id : slabs_ok small_settings s → valid s id → malloc_ok small_settings s id (no_os s).
Proof. intros _ _ _. by left. Qed.

Lemma do_item_alloc_hangs_witness :
  do_item_alloc full_settings hash0 9 every_lock no_os 1000 drained_cache [2] 0 0 60 = Never.
Proof.
  apply (do_item_alloc_hangs full_settings hash0 9 every_lock no_os no_os_ok 1000 1 drained_cache (λ _, []));
    [reflexivity|reflexivity|apply drained_inv|lia|split; vm_compute; discriminate|vm_compute; discriminate
    |split; vm_compute; reflexivity|vm_compute; reflexivity|reflexivity|reflexivity].
Defined.

(** One of the five chunks is a linked item that nobody holds. *)
Definition filled_cache : cache := set_item drained_cache item_a some_item.
Definition held_cache : cache := default drained_cache (do_item_link test_settings 9 filled_cache item_a (hash0 [1])).
Definition cold_cache : cache := default drained_cache (do_item_remove test_settings held_cache item_a).
Definition cold_queue : nat → list Z := set_list (λ _, []) 130 [item_a].

Lemma cold_held : held drained 2 item_a.
Proof.
  assert (free_list drained 2 = []) as Hn by by vm_compute. split; [|rewrite Hn; apply not_elem_of_nil].
  apply elem_of_all_chunks. by_decide.
Qed.

Lemma filled_ok : inv test_settings hash0 2 filled_cache (λ _, []) ∧ used filled_cache item_a.
Proof.
  destruct (new_header_inv test_settings hash0 2 drained_cache (λ _, []) item_a 2 some_item drained_inv) as (HI & Hu & _);
    [apply drained_ok|apply cold_held|..|split; [exact HI|exact Hu]]; try by vm_compute.
  - intros [Hv _ _ _ _]. revert Hv. vm_compute. lia.
  - split; [vm_compute; lia|apply cold_held|by vm_compute..].
Qed.

Lemma held_inv : inv test_settings hash0 2 held_cache cold_queue ∧ used held_cache item_a.
Proof.
  destruct filled_ok as [HI Hu]. destruct (assoc_init_ok hash0 1 1 small eq_refl) as [_ Hm].
  destruct (do_item_link_ok test_settings hash0 9 filled_cache (λ _, []) item_a) as (c' & Hc' & Hok & _);
    [apply HI|exact Hu|by vm_compute..|change (table filled_cache) with small; by rewrite Hm|].
  assert (Hk : key (ith filled_cache item_a) = [1]) by by vm_compute.
  assert (Hq : qid filled_cache item_a = 130%nat) by by vm_compute.
  assert (held_cache = c') as Hc by (unfold held_cache; rewrite Hk in Hc'; by rewrite Hc').
  rewrite Hq, <-Hc in Hok.
  split; [apply (inv_check _ _ _ _ _ 130); [exact Hok|by vm_compute|unfold LARGEST_ID; lia|by vm_compute]|].
  apply (queue_use _ _ Hok 130 item_a); [unfold LARGEST_ID; lia|]. unfold set_list. rewrite decide_True by done. by left.
Qed.

Lemma cold_inv : inv test_settings hash0 2 cold_cache cold_queue.
Proof.
  destruct held_inv as [HI Hu]. destruct (remove_inv test_settings hash0 2 held_cache cold_queue item_a HI Hu) as (c' & E & HI' & _);
    [by vm_compute|]. unfold cold_cache. by rewrite E.
Qed.

Abbreviation full_alloc := (do_item_alloc full_settings hash0 9 every_lock no_os 2 cold_cache [2] 0 0 60).

Lemma do_item_alloc_evicts_witness : ∃ c' b, full_alloc = Answer (c', b) ∧ b ≠ 0.
Proof.
  apply (do_item_alloc_evicts full_settings hash0 9 every_lock no_os eq_refl no_os_ok 0 1 cold_cache cold_queue [2] 0 0 60 [] item_a);
    [apply cold_inv|lia|split; vm_compute; discriminate|vm_compute; discriminate|reflexivity|reflexivity|vm_compute; reflexivity
    |vm_compute; reflexivity|reflexivity|vm_compute; reflexivity].
Defined.

Lemma do_item_alloc_fresh_witness : ∃ c', full_alloc = Answer (c', item_a) ∧ new_item hash0 every_lock cold_cache c' [2] 0 60 item_a.
Proof.
  pose proof (do_item_alloc_fresh full_settings hash0 9 every_lock no_os eq_refl no_os_ok 2 1 cold_cache cold_queue [2] 0 0 60 cold_inv) as H.
  assert (match full_alloc with Answer x => x.2 | _ => 0 end = item_a) as Ha by (vm_compute; reflexivity).
  destruct full_alloc as [[c' a]| |]; [|discriminate Ha..].
  cbn [snd] in Ha. subst a. exists c'. split; [reflexivity|].
  destruct H as (L' & H); [lia|vm_compute; discriminate|split; vm_compute; discriminate|].
  change (item_a =? 0) with false in H. exact (proj2 H).
Defined.
