(* ===== verification/LruMaintainer.v ===== *)
(** The LRU maintainer: [extra/KVS-DRAM-Cache/items.c], [lru_maintainer_juggle] and the rounds of
    [lru_maintainer_thread].

    The maintainer moves items between the segments of their class and reclaims what has
    expired.  Unlike an allocation it never evicts: an item that has neither expired nor been
    flushed stays in the cache. *)

From S2P Require Import Prelude Item Slabs Assoc Items Itoa ItemFrame ItemInv ItemAlloc ItemAllocSpec ItemNew.

Definition MIN_LRU_MAINTAINER_SLEEP : Z := 1000.
Definition MAX_LRU_MAINTAINER_SLEEP : Z := 1000000.

Section Maintainer.
Context (st : alloc_settings) (hash : bytes → Z) (now : Z) (trylock : Z → bool).
(** [cold_age * settings.hot_max_factor] and [cold_age * settings.warm_max_factor], products in
    floating point. *)
Context (hot_age_of warm_age_of : Z → Z).

Abbreviation pull := (lru_pull_tail st hash now trylock).

(** ** Juggling a class *)

(** Reclaim from the temporary items. *)
Fixpoint juggle_temp (k : nat) (c : cache) (id : nat) (did_moves : Z) : answer (cache * Z) :=
  match k with
  | O => Answer (c, did_moves)
  | S k =>
      '(c, r) ← pull c id TEMP_LRU 0 0 0;
      if r <=? 0 then Answer (c, did_moves) else juggle_temp k c id (did_moves + 1)
  end.

(** The rounds over the hot, the warm and the cold queue. *)
Fixpoint juggle_loop (k : nat) (c : cache) (id : nat) (total_bytes hot_age warm_age did_moves : Z) : answer (cache * Z) :=
  match k with
  | O => Answer (c, did_moves)
  | S k =>
      '(c, r) ← pull c id HOT_LRU total_bytes LRU_PULL_CRAWL_BLOCKS hot_age;
      '(c, do_more) ← (if negb (r =? 0) then Answer (c, 1)
                       else '(c, r) ← pull c id WARM_LRU total_bytes LRU_PULL_CRAWL_BLOCKS warm_age;
                            Answer (c, if negb (r =? 0) then 1 else 0));
      '(c, do_more) ← (if lru_segmented (item_st st)
                       then '(c, r) ← pull c id COLD_LRU total_bytes LRU_PULL_CRAWL_BLOCKS 0; Answer (c, do_more + r)
                       else Answer (c, do_more));
      if do_more =? 0 then Answer (c, did_moves)
      else juggle_loop k c id total_bytes hot_age warm_age (did_moves + 1)
  end.

Definition lru_maintainer_juggle (c : cache) (id : nat) : answer (cache * Z) :=
  let '(_, _, total_bytes, _) := slabs_available_chunks (slab c) id in
  '(c, did_moves) ← (if temp_lru st then juggle_temp 500 c id 0 else Answer (c, 0));
  let total_bytes := if temp_lru st then u64 (total_bytes - temp_lru_size c id) else total_bytes in
  let t := tails c !!! Z.to_nat (Z.lor (Z.of_nat id) COLD_LRU) in
  let cold_age := if lru_segmented (item_st st) && negb (t =? 0) then u32 (now - time (ith c t)) else 0 in
  let hot_age := if lru_segmented (item_st st) then hot_age_of cold_age else 0 in
  let warm_age := if lru_segmented (item_st st) then warm_age_of cold_age else 0 in
  juggle_loop 500 c id total_bytes hot_age warm_age did_moves.

(** ** A round of the thread *)

(** [next_juggles[i]] and [backoff_juggles[i]], in microseconds. *)
Record pace := mkPace { next_juggle : Z; backoff_juggle : Z }.

(** The new back-off of a class that was juggled. *)
Definition back_off (b did_moves : Z) : Z :=
  if did_moves =? 0 then
    let b := if negb (b =? 0) then u32 (b + b / 8) else MIN_LRU_MAINTAINER_SLEEP in
    if MAX_LRU_MAINTAINER_SLEEP <? b then MAX_LRU_MAINTAINER_SLEEP else b
  else if 0 <? b then
    let b := b / 2 in if b <? MIN_LRU_MAINTAINER_SLEEP then 0 else b
  else b.

(** The classes from [id] on, whose paces are [ps]; [to_sleep] is the shortest wait so far. *)
Fixpoint juggle_classes (last_sleep : Z) (ps : list pace) (id : nat) (c : cache) (to_sleep : Z)
    : answer (cache * list pace * Z) :=
  match ps with
  | [] => Answer (c, [], to_sleep)
  | p :: ps =>
      let n := if last_sleep <? next_juggle p then next_juggle p - last_sleep else 0 in
      let shortest n to_sleep := if n <? to_sleep then n else to_sleep in
      if 0 <? n then
        '(c, ps, to_sleep) ← juggle_classes last_sleep ps (S id) c (shortest n to_sleep);
        Answer (c, mkPace n (backoff_juggle p) :: ps, to_sleep)
      else
        '(c, did_moves) ← lru_maintainer_juggle c id;
        let b := back_off (backoff_juggle p) did_moves in
        '(c, ps, to_sleep) ← juggle_classes last_sleep ps (S id) c (shortest b to_sleep);
        Answer (c, mkPace b b :: ps, to_sleep)
  end.

(** The thread's work on the classes after it slept for [to_sleep], and the next sleep. *)
Definition maintainer_round (to_sleep : Z) (ps : list pace) (c : cache) : answer (cache * list pace * Z) :=
  let last_sleep := if 1000 <? to_sleep then to_sleep else 1000 in
  juggle_classes last_sleep ps POWER_SMALLEST c MAX_LRU_MAINTAINER_SLEEP.

(** ** Items that are alive *)

(** Expired or flushed, as [lru_pull_tail] sees it. *)
Definition dead (it : stritem) : bool :=
  (negb (exptime it =? 0) && (exptime it <? now)) || item_is_flushed (item_st st) now it.

(** The items that are alive stay in the table, and alive. *)
Definition spares (c c' : cache) : Prop :=
  ∀ k e, amap (table c) !! k = Some e → dead (ith c (it_id e)) = false →
    amap (table c') !! k = Some e ∧ dead (ith c' (it_id e)) = false.

Lemma spares_refl c : spares c c.
Proof. done. Qed.

Lemma spares_trans c1 c2 c3 : spares c1 c2 → spares c2 c3 → spares c1 c3.
Proof. intros H1 H2 k e Hk Hd. destruct (H1 k e Hk Hd). auto. Qed.

(** The fields that decide whether the item is dead: the time of the last access may become the
    present time, if it was long ago. *)
Record ages (it it' : stritem) : Prop := {
  ag_exptime : exptime it' = exptime it;
  ag_cas : ITEM_get_cas it' = ITEM_get_cas it;
  ag_chunked : has_flag it' ITEM_CHUNKED = has_flag it ITEM_CHUNKED;
  ag_time : time it' = time it ∨ time it' = now ∧ stale now it = true
}.

Lemma ages_trans it1 it2 it3 : ages it1 it2 → ages it2 it3 → ages it1 it3.
Proof.
  intros [A1 A2 A4' A3] [B1 B2 B4' B3]. split; [congruence..|]. unfold stale in *.
  destruct A3 as [A3|[A3 A4]], B3 as [B3|[B3 B4]]; rewrite ?A3 in *; auto.
Qed.

Lemma ages_alive it it' : 60 <= now < two32 → ages it it' → dead it = false → dead it' = false.
Proof.
  intros Hnow [E1 E2 _ E3] [Hx Hf]%orb_false_iff. unfold dead. rewrite E1, Hx. cbn [orb].
  unfold item_is_flushed in *. destruct (_ || _) eqn:E; [done|].
  apply orb_false_iff in E as [_ El%Z.ltb_ge]. apply orb_false_iff in Hf as [Ht%Z.leb_gt Hc].
  rewrite E2, Hc, orb_false_r. apply Z.leb_gt. destruct E3 as [->|[-> Hs]]; [done|].
  unfold stale, ITEM_UPDATE_INTERVAL, u32 in Hs. apply Z.ltb_lt in Hs. rewrite Z.mod_small in Hs by lia. lia.
Qed.

(** An operation on [a] that keeps it in the table. *)
Record quiet (a : Z) (c c' : cache) : Prop := {
  q_table : table c' = table c;
  q_frame : frame c c' a;
  q_ages : ages (ith c a) (ith c' a)
}.

Lemma quiet_trans a c1 c2 c3 : quiet a c1 c2 → quiet a c2 c3 → quiet a c1 c3.
Proof.
  intros [A1 A2 A3] [B1 B2 B3]. split; [congruence|by eapply frame_trans|by eapply ages_trans].
Qed.

Lemma quiet_payload_ages it it' : payload it' = payload it → ages it it'.
Proof.
  intros H. assert (it_flags it' = it_flags it) as Hf by exact (f_equal it_flags H).
  split; [exact (f_equal exptime H)| |by unfold has_flag; rewrite Hf|left; exact (f_equal time H)].
  unfold ITEM_get_cas, has_flag. assert (cas it' = cas it) as -> by exact (f_equal cas H). by rewrite Hf.
Qed.

Lemma quiet_payload a c c' :
  table c' = table c → (∀ b, payload (ith c' b) = payload (ith c b)) → same_shape (slab c) (slab c') → quiet a c c'.
Proof.
  intros Ht Hp Hs. split; [done|by apply frame_payload|]. by apply quiet_payload_ages.
Qed.

Lemma quiet_set a c f :
  (∀ i, key (f i) = key i ∧ nbytes (f i) = nbytes i) → ages (ith c a) (f (ith c a)) → quiet a c (set_item c a f).
Proof. intros Hk Ha. split; [done|by apply frame_set_item|]. by rewrite ith_set_eq. Qed.

Lemma quiet_unlink_q a c c' : do_item_unlink_q c a = Some c' → quiet a c c'.
Proof.
  intros E. destruct (unlink_q_payload _ _ _ E) as [Hp Hs]. apply quiet_payload; [|done..].
  revert E. unfold do_item_unlink_q.
  by intros [_ [_ [_ [_ [= <-]]%assert_some]%assert_some]%assert_some]%assert_some.
Qed.

Lemma quiet_link_q a c c' : do_item_link_q c a = Some c' → quiet a c c'.
Proof.
  intros E. destruct (link_q_payload _ _ _ E) as [Hp Hs]. apply quiet_payload; [|done..].
  revert E. unfold do_item_link_q. by intros [_ [_ [_ [= <-]]%assert_some]%assert_some]%assert_some.
Qed.

Lemma quiet_move a c c' to : move_to c a to = Some c' → quiet a c c'.
Proof.
  unfold move_to. intros E. eapply quiet_trans; [|by eapply quiet_link_q].
  eapply quiet_trans; apply quiet_set; try done; by split; [done..|left].
Qed.

Lemma has_cas_clear it : ITEM_get_cas (clear_flag ITEM_ACTIVE it) = ITEM_get_cas it.
Proof. unfold ITEM_get_cas. by rewrite has_flag_clear_other. Qed.

Lemma quiet_clear a c : quiet a c (set_item c a (clear_flag ITEM_ACTIVE)).
Proof. apply quiet_set; [done|]. split; [done|apply has_cas_clear|by apply has_flag_clear_other|by left]. Qed.

Lemma quiet_incr a c : quiet a c (refcount_incr c a).
Proof. apply quiet_set; [done|]. by split; [done..|left]. Qed.

Lemma quiet_update a c c' : do_item_update_nolock now c a = Some c' → quiet a c c'.
Proof.
  unfold do_item_update_nolock. destruct (stale now (ith c a)) eqn:Es; [|intros [= <-]; split; [done|apply frame_refl|by split; auto]].
  intros [_ H]%assert_some. destruct (has_flag _ _); [|injection H as <-; split; [done|apply frame_refl|by split; auto]].
  destruct (do_item_unlink_q c a) as [c1|] eqn:E1; [|done]. cbn [mbind option_bind] in H.
  pose proof (quiet_unlink_q _ _ _ E1) as Q1. destruct (unlink_q_payload _ _ _ E1) as [Hp _].
  eapply quiet_trans; [exact Q1|]. eapply quiet_trans; [|by eapply quiet_link_q].
  apply quiet_set; [done|]. split; [done..|]. right. split; [done|]. unfold stale in *.
  assert (time (ith c1 a) = time (ith c a)) as -> by exact (f_equal time (Hp a)). done.
Qed.

Lemma remove_table c a c' : do_item_remove (item_st st) c a = Some c' → table c' = table c.
Proof.
  unfold do_item_remove. intros [_ [_ E]%assert_some]%assert_some. destruct (_ =? 0); [|by injection E as <-].
  revert E. unfold item_free. intros [_ [_ [_ [_ E]%assert_some]%assert_some]%assert_some]%assert_some.
  destruct (do_slabs_free _ _ _ _ _); [|done]. by injection E as <-.
Qed.

Abbreviation inv := (ItemInv.inv (item_st st) hash).
Abbreviation evolves := (evolving (λ k, trylock (hash k) = false)).

(** The reference that the loop took is given back. *)
Lemma quiet_remove a c c1 c' :
  used c a → in_table c a → evolves c c' → quiet a c c1 → do_item_remove (item_st st) c1 a = Some c' → quiet a c c'.
Proof.
  intros Hu Ht HE Q E. eapply quiet_trans; [exact Q|]. pose proof (remove_table _ _ _ E) as Ht'.
  assert (used c' a) as Hu'.
  { apply (ev_keep _ _ HE); [done|]. right. unfold in_table in *. by rewrite Ht', (q_table _ _ _ Q). }
  revert E. unfold do_item_remove. intros [_ [_ E]%assert_some]%assert_some. destruct (_ =? 0).
  - apply flags_freed in E; [done|]. unfold refcount_decr. rewrite ith_set_eq.
    etrans; [exact (ag_chunked _ _ (q_ages _ _ _ Q))|apply (u_chunked _ _ _ Hu)].
  - injection E as <-. apply quiet_set; [done|]. by split; [done..|left].
Qed.

Section Spares.
Context (Hrep : tail_repair_time st = 0) (Hnow : 60 <= now < two32).

Lemma quiet_spares c c' a : quiet a c c' → spares c c'.
Proof.
  intros [Ht Hf Ha] k e Hk Hd. rewrite Ht. split; [done|]. eapply ages_alive; [done| |exact Hd].
  destruct (decide (it_id e = a)) as [->|Hne]; [done|]. apply (quiet_payload_ages _ _ (fr_payload _ _ _ Hf _ Hne)).
Qed.

(** What is done to an item that is alive, when nothing is to be evicted. *)
Lemma pull_item_quiet c id a hv cur tb flags max_age removed p c' :
  a ≠ 0 → dead (ith c a) = false → Z.land flags LRU_PULL_EVICT = 0 →
  pull_item st now c id a hv cur tb flags max_age removed = Some p → finish st p = Some c' →
  ∃ c1, quiet a c c1 ∧ do_item_remove (item_st st) c1 a = Some c'.
Proof.
  intros Ha Hd Hfl. unfold pull_item. set (c1 := refcount_incr c a).
  assert (old_enough st now (ith c1 a) = false) as -> by (unfold old_enough; by rewrite Hrep).
  assert ((negb (exptime (ith c1 a) =? 0) && (exptime (ith c1 a) <? now)) || item_is_flushed (item_st st) now (ith c1 a) = false) as ->.
  { unfold c1, refcount_incr. rewrite ith_set_eq. exact Hd. }
  assert (quiet a c c1) as Q1 by apply quiet_incr.
  rewrite andb_false_r, Hfl, Z.eqb_refl. cbn [negb].
  assert (∀ r, Some (mkPulled c1 r a 0) = Some p → finish st p = Some c' → ∃ c2, quiet a c c2 ∧ do_item_remove (item_st st) c2 a = Some c') as Hstop.
  { intros r [= <-]. unfold finish. cbn [p_item p_cache p_move]. rewrite (proj2 (Z.eqb_neq _ _) Ha). eauto. }
  assert (∀ c2 to, quiet a c c2 → to = WARM_LRU ∨ to = COLD_LRU →
    (c3 ← do_item_unlink_q c2 a; Some (mkPulled c3 (removed + 1) a to)) = Some p → finish st p = Some c' →
    ∃ c4, quiet a c c4 ∧ do_item_remove (item_st st) c4 a = Some c') as Hmove.
  { intros c2 to Q2 Hto E. destruct (do_item_unlink_q c2 a) as [c3|] eqn:E3; [|done]. injection E as <-.
    unfold finish. cbn [p_item p_cache p_move]. rewrite (proj2 (Z.eqb_neq _ _) Ha).
    rewrite (proj2 (Z.eqb_neq to 0)) by (destruct Hto as [-> | ->]; done).
    destruct (move_to c3 a to) as [c4|] eqn:E4; [|done]. cbn [mbind option_bind]. intros E. exists c4. split; [|done].
    eapply quiet_trans; [exact Q2|]. eapply quiet_trans; [by eapply quiet_unlink_q|by eapply quiet_move]. }
  pose proof (quiet_trans _ _ _ _ Q1 (quiet_clear a c1)) as Q2.
  set (c2 := set_item c1 a (clear_flag ITEM_ACTIVE)) in *.
  destruct (_ || (cur =? WARM_LRU)).
  - destruct (has_flag (ith c1 a) ITEM_ACTIVE); [|destruct (_ || _); eauto].
    destruct (cur =? WARM_LRU); [|eauto].
    destruct (do_item_update_nolock now c2 a) as [c3|] eqn:E3; [|done]. cbn [mbind option_bind].
    destruct (do_item_remove (item_st st) c3 a) as [c4|] eqn:E4; [|done]. cbn [mbind option_bind].
    intros [= <-] [= <-]. exists c3. split; [|done]. eapply quiet_trans; [exact Q2|by eapply quiet_update].
  - destruct (cur =? COLD_LRU); [|eauto]. destruct (_ && _); eauto.
Qed.

(** What is done to an item that is dead. *)
Lemma pull_item_dead n c L id a l1 l2 cur tb flags max_age removed p :
  inv (S n) c L → (id < LARGEST_ID)%nat → L id = l1 ++ a :: l2 → dead (ith c a) = true →
  pull_item st now c id a (hash (key (ith c a))) cur tb flags max_age removed = Some p →
  p_item p = 0 ∧ frame c (p_cache p) a ∧ amap (table (p_cache p)) = delete (key (ith c a)) (amap (table c)).
Proof.
  intros HI Hid HL Hd. assert (a ∈ L id) as Ha by (rewrite HL, elem_of_app, elem_of_cons; auto).
  destruct (inv_queued _ _ _ c L a id HI Hid Ha) as (Hu & Hl & Hr & _).
  destruct (incr_inv _ hash n c L a id HI Hid Ha) as (HI1 & HS1 & Hu1 & Hr1 & Ht1).
  unfold pull_item. set (c1 := refcount_incr c a) in *.
  assert (old_enough st now (ith c1 a) = false) as -> by (unfold old_enough; by rewrite Hrep).
  assert ((negb (exptime (ith c1 a) =? 0) && (exptime (ith c1 a) <? now)) || item_is_flushed (item_st st) now (ith c1 a) = true) as ->.
  { unfold c1, refcount_incr. rewrite ith_set_eq. exact Hd. }
  rewrite andb_false_r.
  destruct (unlink_inv (item_st st) hash n c1 L a id l1 l2 HI1 Hid HL) as (c2 & E2 & HI2 & HS2 & Hm2 & Hcase).
  destruct (step_key c c1 a a HS1) as [Hk _]. rewrite Hk in E2, Hm2. rewrite E2. cbn [mbind option_bind].
  rewrite (proj2 (Z.eqb_neq _ _)) in Hcase by lia. destruct Hcase as (Hu2 & _).
  destruct (do_item_remove (item_st st) c2 a) as [c3|] eqn:E3; [|done]. cbn [mbind option_bind]. intros [= <-]. cbn [p_item p_cache].
  split; [done|]. split.
  - eapply frame_trans; [apply HS1|]. eapply frame_trans; [apply HS2|]. eapply remove_frame; [|done]. apply (u_chunked _ _ _ Hu2).
  - by rewrite (remove_table _ _ _ E3), Hm2, Ht1.
Qed.

Lemma pull_item_spares n c L id a l1 l2 cur tb flags max_age removed p c' :
  inv (S n) c L → (id < LARGEST_ID)%nat → L id = l1 ++ a :: l2 → evolves c c' → Z.land flags LRU_PULL_EVICT = 0 →
  pull_item st now c id a (hash (key (ith c a))) cur tb flags max_age removed = Some p → finish st p = Some c' →
  spares c c'.
Proof.
  intros HI Hid HL HE Hfl E Hfin. assert (a ∈ L id) as Ha by (rewrite HL, elem_of_app, elem_of_cons; auto).
  destruct (inv_queued _ _ _ c L a id HI Hid Ha) as (Hu & Hl & Hr & Ha0 & Hm).
  destruct (dead (ith c a)) eqn:Hd.
  - destruct (pull_item_dead _ _ _ _ _ _ _ _ _ _ _ _ _ HI Hid HL Hd E) as (Hp & Hf & Ht).
    unfold finish in Hfin. rewrite Hp in Hfin. injection Hfin as <-.
    intros k e Hk Hd'. assert (it_id e ≠ a) as Hne by congruence.
    rewrite Ht, lookup_delete_ne; [split; [done|]|intros <-; by simplify_eq].
    eapply ages_alive; [done| |exact Hd']. apply quiet_payload_ages. by apply (fr_payload _ _ _ Hf).
  - destruct (pull_item_quiet _ _ _ _ _ _ _ _ _ _ _ Ha0 Hd Hfl E Hfin) as (c1 & Q & E1).
    eapply quiet_spares, quiet_remove; try done. by exists (key (ith c a)).
Qed.

Lemma pull_loop_spares fuel n c L id tries search cur tb flags max_age removed p c' :
  inv (S n) c L → (id < LARGEST_ID)%nat → search = 0 ∨ search ∈ L id → Z.land flags LRU_PULL_EVICT = 0 →
  pull_loop st hash now trylock fuel c id tries search cur tb flags max_age removed = Answer p → finish st p = Some c' →
  spares c c'.
Proof.
  intros HI Hid Hs Hfl. revert c L HI tries search removed Hs. induction fuel as [|fuel IH]; intros c L HI tries search removed Hs E Hfin; [done|].
  cbn [pull_loop] in E. destruct (_ || _) eqn:Estop; [injection E as <-; injection Hfin as <-; apply spares_refl|].
  apply orb_false_iff in Estop as [_ Hs0%Z.eqb_neq]. destruct Hs as [|Hs]; [done|].
  destruct (list_elem_of_split _ _ Hs) as (l1 & l2 & HL).
  destruct (co_queue _ _ _ _ _ (v_ok _ _ _ _ _ HI) id Hid) as [Hd _ _ _ _]. rewrite HL in Hd.
  destruct (dll_neighbours _ _ _ _ _ _ Hd) as [Hpv _]. fold (ith c search) in Hpv. rewrite Hpv in E.
  assert (default 0 (list.last l1) = 0 ∨ default 0 (list.last l1) ∈ l1) as Hlast.
  { destruct l1 as [|b l1 _] using rev_ind; [by left|right]. rewrite last_snoc. set_solver. }
  assert (default 0 (list.last l1) = 0 ∨ default 0 (list.last l1) ∈ L id) as Hlast' by (rewrite HL; set_solver).
  destruct (is_crawler _); [destruct (negb _); [injection E as <-; injection Hfin as <-; apply spares_refl|by eapply IH]|].
  destruct (trylock _) eqn:Htry; cbn [negb] in E; [|by eapply IH].
  destruct (pull_item_ok st hash now trylock Hrep n c L search id l1 l2 cur tb flags max_age removed HI Hid HL Htry)
    as (q & c1 & L1 & E1 & [Hf1 HI1 HE1 _ Hrest]).
  rewrite E1 in E. cbn [asserting mbind answer_bind] in E.
  pose proof (pull_item_spares _ _ _ _ _ _ _ _ _ _ _ _ _ _ HI Hid HL HE1 Hfl E1 Hf1) as Hsp.
  destruct (Z.eqb_spec (p_item q) 0) as [H0|H0].
  - destruct (Hrest H0) as (Hc1 & x & y & HL1 & _). rewrite <-Hc1 in E. eapply spares_trans; [exact Hsp|].
    eapply (IH c1 L1 HI1); [|exact E|exact Hfin]. rewrite HL1. set_solver.
  - injection E as <-. rewrite Hf1 in Hfin. by injection Hfin as <-.
Qed.

Lemma pull_spares n c L orig cur tb flags max_age :
  inv (S n) c L → (orig < 64)%nat → cur ∈ [HOT_LRU; WARM_LRU; COLD_LRU; TEMP_LRU] → Z.land flags LRU_PULL_EVICT = 0 →
  ∃ c' L' r, pull c orig cur tb flags max_age = Answer (c', r) ∧ inv (S n) c' L' ∧ evolves c c' ∧ spares c c'.
Proof.
  intros HI Ho Hc Hfl.
  destruct (lru_pull_tail_ok st hash now trylock Hrep n c L orig cur tb flags max_age HI Ho Hc) as (c' & L' & r & E & HI' & HE).
  exists c', L', r. split_and!; try done. revert E. unfold lru_pull_tail.
  destruct (orig =? 0)%nat; [intros [= <- <-]; apply spares_refl|].
  set (id := Z.to_nat (Z.lor (Z.of_nat orig) cur)). assert (Hid : (id < LARGEST_ID)%nat) by by apply lru_id.
  destruct (co_queue _ _ _ _ _ (v_ok _ _ _ _ _ HI) id Hid) as [_ Htl _ _ _].
  destruct (pull_loop _ _ _ _ _ _ _ _ _ _ _ _ _ _) as [p| |] eqn:Ep; [|done..]. cbn [mbind answer_bind]. intros E.
  assert (finish st p = Some c') as Hfin.
  { unfold finish. destruct (p_item p =? 0); [congruence|].
    destruct (if p_move p =? 0 then _ else _); [|done]. cbn [asserting mbind answer_bind option_bind] in *.
    destruct (do_item_remove _ _ _); [|done]. cbn [asserting answer_bind] in E. by injection E as ->. }
  eapply pull_loop_spares; [exact HI|exact Hid| |done|exact Ep|exact Hfin].
  rewrite Htl. destruct (L id) as [|b l _] using rev_ind; [by left|right]. rewrite last_snoc.
  change (default 0 (Some b)) with b. rewrite elem_of_app, list_elem_of_singleton. by right.
Qed.

(** ** Juggling *)

(** The call returns a cache in which nothing that is alive or held was lost. *)
Definition maintained (n : nat) (c : cache) {A} (r : answer (cache * A)) : Prop :=
  ∃ c' L' x, r = Answer (c', x) ∧ inv (S n) c' L' ∧ evolves c c' ∧ spares c c'.

Lemma maintained_ret n c L {A} (x : A) : inv (S n) c L → maintained n c (Answer (c, x)).
Proof. intros. exists c, L, x. done. Qed.

Lemma maintained_bind n c {A B} (m : answer (cache * A)) (f : cache * A → answer (cache * B)) :
  maintained n c m → (∀ c1 L1 x, inv (S n) c1 L1 → maintained n c1 (f (c1, x))) → maintained n c (m ≫= f).
Proof.
  intros (c1 & L1 & x & -> & HI & HE & HS) Hf. destruct (Hf c1 L1 x HI) as (c2 & L2 & y & E & HI2 & HE2 & HS2).
  exists c2, L2, y. split_and!; [exact E|done|by eapply evolves_trans|by eapply spares_trans].
Qed.

Lemma maintained_pull n c L orig cur tb flags max_age :
  inv (S n) c L → (orig < 64)%nat → cur ∈ [HOT_LRU; WARM_LRU; COLD_LRU; TEMP_LRU] → Z.land flags LRU_PULL_EVICT = 0 →
  maintained n c (pull c orig cur tb flags max_age).
Proof. intros. by eapply pull_spares. Qed.

Ltac maintain :=
  first
    [ eapply maintained_bind; [|let c := fresh "c" in let L := fresh "L" in let r := fresh "r" in
        let H := fresh "HI" in intros c L r H; cbv beta iota]
    | eapply maintained_pull; [eassumption|lia|set_solver|reflexivity]
    | eapply maintained_ret; eassumption
    | case_match ].

Lemma juggle_temp_ok k n c L id did :
  inv (S n) c L → (id < 64)%nat → maintained n c (juggle_temp k c id did).
Proof.
  intros HI Hid. revert c L did HI. induction k as [|k IH]; intros c L did HI; cbn [juggle_temp];
    repeat maintain. by eapply IH.
Qed.

Lemma juggle_loop_ok k n c L id tb hot warm did :
  inv (S n) c L → (id < 64)%nat → maintained n c (juggle_loop k c id tb hot warm did).
Proof.
  intros HI Hid. revert c L did HI. induction k as [|k IH]; intros c L did HI; cbn [juggle_loop];
    repeat maintain. all: by eapply IH.
Qed.

Lemma juggle_ok n c L id :
  inv (S n) c L → (id < 64)%nat → maintained n c (lru_maintainer_juggle c id).
Proof.
  intros HI Hid. unfold lru_maintainer_juggle. destruct (slabs_available_chunks (slab c) id) as [[[x1 x2] x3] x4].
  apply maintained_bind; [destruct (temp_lru st); [by eapply juggle_temp_ok|by eapply maintained_ret]|].
  intros c1 L1 did HI1. by eapply juggle_loop_ok.
Qed.

(** The waits of a class: none, or between a millisecond and a second. *)
Definition pace_ok (p : pace) : Prop :=
  (backoff_juggle p = 0 ∨ MIN_LRU_MAINTAINER_SLEEP <= backoff_juggle p <= MAX_LRU_MAINTAINER_SLEEP) ∧
  0 <= next_juggle p <= backoff_juggle p.

Lemma back_off_ok b did :
  b = 0 ∨ MIN_LRU_MAINTAINER_SLEEP <= b <= MAX_LRU_MAINTAINER_SLEEP →
  back_off b did = 0 ∨ MIN_LRU_MAINTAINER_SLEEP <= back_off b did <= MAX_LRU_MAINTAINER_SLEEP.
Proof.
  unfold back_off, MIN_LRU_MAINTAINER_SLEEP, MAX_LRU_MAINTAINER_SLEEP, u32, two32. intros H.
  assert (b <> 0 → 1 <= b / 8 <= 125000) by (intros; split; [apply Z.div_le_lower_bound|apply Z.div_le_upper_bound]; lia).
  assert (b / 2 <= 1000000) by (apply Z.div_le_upper_bound; lia).
  bool_cases; try lia. all: rewrite Z.mod_small in * by lia; lia.
Qed.

Lemma juggle_classes_ok n last ps id c L to_sleep :
  inv (S n) c L → (id + length ps ≤ 64)%nat → 0 <= last → Forall pace_ok ps → 0 <= to_sleep <= MAX_LRU_MAINTAINER_SLEEP →
  ∃ c' L' ps' s', juggle_classes last ps id c to_sleep = Answer (c', ps', s') ∧
    inv (S n) c' L' ∧ evolves c c' ∧ spares c c' ∧ length ps' = length ps ∧ Forall pace_ok ps' ∧
    0 <= s' <= to_sleep ∧ Forall (λ p, s' <= next_juggle p) ps'.
Proof.
  intros HI Hid Hlast. revert id c L to_sleep HI Hid. induction ps as [|p ps IH]; intros id c L to_sleep HI Hid Hps Hs; cbn [juggle_classes].
  { exists c, L, [], to_sleep. split_and!; try done; lia. }
  apply list.Forall_cons in Hps as [[Hb Hn] Hps]. cbn [length] in Hid.
  assert (∀ c1 L1 n1 b1, inv (S n) c1 L1 → pace_ok (mkPace n1 b1) → evolves c c1 → spares c c1 →
    ∃ c' L' ps' s', ('(c, ps, to_sleep) ← juggle_classes last ps (S id) c1 (if n1 <? to_sleep then n1 else to_sleep);
      Answer (c, mkPace n1 b1 :: ps, to_sleep)) = Answer (c', ps', s') ∧
    inv (S n) c' L' ∧ evolves c c' ∧ spares c c' ∧ length ps' = S (length ps) ∧ Forall pace_ok ps' ∧
    0 <= s' <= to_sleep ∧ Forall (λ p, s' <= next_juggle p) ps') as Hgo.
  { intros c1 L1 n1 b1 HI1 Hp HE HS. pose proof (proj2 Hp) as Hn1. cbn in Hn1.
    destruct (IH (S id) c1 L1 (if n1 <? to_sleep then n1 else to_sleep) HI1) as (c2 & L2 & ps2 & s2 & -> & HI2 & HE2 & HS2 & Hl & Hok & Hs2 & Hle);
      [lia|done|bool_cases; lia|].
    exists c2, L2, (mkPace n1 b1 :: ps2), s2. split_and!; try done; [by eapply evolves_trans|by eapply spares_trans|cbn; lia|by constructor|bool_cases; lia|bool_cases; lia|].
    constructor; [cbn; bool_cases; lia|done]. }
  cbv zeta. set (m := if last <? next_juggle p then next_juggle p - last else 0).
  destruct (0 <? m) eqn:Em.
  - apply (Hgo c L); try done. split; [done|]. cbn. unfold m in *. bool_cases; lia.
  - destruct (juggle_ok n c L id HI) as (c1 & L1 & did & -> & HI1 & HE1 & HS1); [lia|]. cbn [mbind answer_bind].
    apply (Hgo c1 L1); try done. split; cbn; [by apply back_off_ok|].
    destruct (back_off_ok (backoff_juggle p) did Hb) as [->|]; unfold MIN_LRU_MAINTAINER_SLEEP in *; lia.
Qed.
End Spares.
End Maintainer.

(** C28: a round of the LRU maintainer over the slab classes comes back, with the queues, the
    table and the slabs consistent; an item that has neither expired nor been flushed stays in
    the cache, and so does one that a caller holds.  Every class waits for nothing, or for
    between a millisecond and a second, and the thread sleeps no longer than any class waits. *)
Theorem maintainer_round_ok st hash now trylock hot_age_of warm_age_of n c L to_sleep ps :
  tail_repair_time st = 0 → 60 <= now < two32 → ItemInv.inv (item_st st) hash (S n) c L →
  (length ps ≤ 63)%nat → Forall pace_ok ps →
  ∃ c' L' ps' s', maintainer_round st hash now trylock hot_age_of warm_age_of to_sleep ps c = Answer (c', ps', s') ∧
    ItemInv.inv (item_st st) hash (S n) c' L' ∧ evolving (λ k, trylock (hash k) = false) c c' ∧ spares st now c c' ∧
    length ps' = length ps ∧ Forall pace_ok ps' ∧ 0 <= s' <= MAX_LRU_MAINTAINER_SLEEP ∧
    Forall (λ p, s' <= next_juggle p) ps'.
Proof.
  intros Hrep Hnow HI Hl Hps.
  apply (juggle_classes_ok st hash now trylock hot_age_of warm_age_of Hrep Hnow n _ ps POWER_SMALLEST c L);
    [exact HI|unfold POWER_SMALLEST; lia|destruct (1000 <? to_sleep) eqn:E; [apply Z.ltb_lt in E|]; lia|exact Hps|].
  unfold MAX_LRU_MAINTAINER_SLEEP. lia.
Qed.

(** *** A round on a cache with one item *)

Abbreviation witness_round :=
  (maintainer_round full_settings hash0 100 every_lock (λ a, a) (λ a, a) 0 [mkPace 0 0; mkPace 0 0] cold_cache).

Lemma maintainer_round_ok_witness : ∃ c' ps' s', witness_round = Answer (c', ps', s') ∧ spares full_settings 100 cold_cache c'.
Proof.
  destruct (maintainer_round_ok full_settings hash0 100 every_lock (λ a, a) (λ a, a) 1 cold_cache cold_queue 0
    [mkPace 0 0; mkPace 0 0]) as (c' & L' & ps' & s' & E & _ & _ & HS & _); [reflexivity|by_decide|exact cold_inv|simpl; lia| |].
  - repeat constructor; simpl; lia.
  - exists c', ps', s'. exact (conj E HS).
Defined.
