(* ===== verification/ItemOps.v ===== *)
(** The operations of [items.c] that the cache service calls, on the invariant of the
    items: what each does to the item and to its references, and what it leaves alone. *)

From S2P Require Import Prelude Item Slabs Assoc Items ItemFrame ItemInv ItemAlloc ItemAllocSpec.

#[global] Instance valid_dec s id : Decision (valid s id).
Proof. unfold valid. apply _. Defined.

#[global] Instance held_dec s id a : Decision (held s id a).
Proof. unfold held. apply _. Defined.

#[global] Instance used_dec c a : Decision (used c a).
Proof.
  destruct (decide (valid (slab c) (clsid_of (ith c a)) ∧ held (slab c) (clsid_of (ith c a)) a ∧
    has_flag (ith c a) ITEM_SLABBED = false ∧ has_flag (ith c a) ITEM_CHUNKED = false ∧
    0 ≤ Item.slabs_clsid (ith c a) < 256)) as [(H1 & H2 & H3 & H4 & H5)|H]; [left; by split|right].
  intros []. by apply H.
Defined.

(** A fetch adds at most one entry to the bump buffer. *)
Lemma hit_bumps st now c a hv conn c' : hit st now c a hv conn = Some c' → 0 ≤ new_bumps c c' ≤ 1.
Proof.
  assert (∀ c1, bumps c1 = bumps c → 0 ≤ new_bumps c c1 ≤ 1) as Hsame by (intros c1 E; unfold new_bumps; rewrite E; lia).
  unfold hit. destruct (lru_segmented st); [|intros H%do_item_update_bumps; by apply Hsame].
  destruct (has_flag _ ITEM_ACTIVE); [intros [= <-]; by apply Hsame|].
  destruct (negb (has_flag _ ITEM_FETCHED)); [intros [= <-]; by apply Hsame|].
  destruct (negb (_ =? COLD_LRU)); [intros H%do_item_update_bumps; by apply Hsame|].
  destruct conn as [[]|]; [..|intros [= <-]; by apply Hsame]; cbn; intros [= <-]; [|by apply Hsame].
  unfold new_bumps. cbn. rewrite length_app. cbn. lia.
Qed.

Section Ops.
Context (st : item_settings) (hash : bytes → Z) (now : Z).
Abbreviation inv := (ItemInv.inv st hash).

Lemma link_inv n c L a :
  inv (S n) c L → used c a → is_linked c a = false → amap (table c) !! key (ith c a) = None →
  ∃ c' L', do_item_link st now c a (hash (key (ith c a))) = Some c' ∧ inv n c' L' ∧ step c c' a ∧
    amap (table c') = <[key (ith c a) := mkItem (key (ith c a)) a]> (amap (table c)) ∧
    used c' a ∧ extra c' a = extra c a.
Proof.
  intros HI Hu Hl Hn. pose proof (v_low _ _ _ _ _ HI a Hu) as Hlo. pose proof (v_high _ _ _ _ _ HI a Hu) as Hhi.
  unfold extra in Hlo. rewrite Hl in Hlo.
  destruct (do_item_link_ok st hash now c L a) as (c' & E & Hok & Hm & Hr & Hh); try done; [apply HI|lia|].
  set (L' := set_list L _ _) in Hok. pose proof (link_frame _ _ _ _ _ _ E) as HF.
  assert (step c c' a) as HS by by apply step_same.
  assert (a ∈ L' (qid c a)) as Ha by (unfold L', set_list; rewrite decide_True by done; by left).
  assert (qid c a < LARGEST_ID)%nat as Hq by by apply qid_lt.
  destruct (queue_use _ _ Hok _ a Hq Ha) as [Hu' _]. destruct (linked_queued _ _ _ _ _ _ Hok Hq Ha) as [Hl' _ _].
  assert (extra c' a = extra c a) as He by (unfold extra, is_linked in *; rewrite Hl', Hl, Hr; lia).
  exists c', L'. split_and!; try done. eapply inv_step; [apply inv_less, HI|done|done|..].
  - intros b i Hb Hin. unfold L', set_list. case_decide; [subst i; by right|done].
  - intros _. rewrite He, Hr. unfold extra. rewrite Hl. split_and!; [lia|lia|eauto].
Qed.

Lemma decr_inv n c L a id :
  inv n c L → (id < LARGEST_ID)%nat → a ∈ L id → 1 ≤ extra c a →
  let c' := refcount_decr c a in
  inv n c' L ∧ step c c' a ∧ used c' a ∧ extra c' a = extra c a - 1 ∧ table c' = table c.
Proof.
  intros HI Hid Ha He c'. destruct (inv_queued _ _ _ _ _ _ _ HI Hid Ha) as (Hu & Hl & Hr & _).
  unfold extra in He. rewrite Hl in He. destruct (remove_inv st hash n c L a HI Hu) as (c2 & E & HI2 & HS & Ht & Hcase).
  { unfold extra. rewrite Hl. lia. }
  rewrite (proj2 (Z.eqb_neq _ _)) in Hcase by lia. destruct Hcase as (Hu2 & Hr2 & Hl2).
  assert (c2 = c') as ->.
  { unfold do_item_remove in E. apply assert_some in E as [_ [_ E]%assert_some].
    rewrite (proj2 (Z.eqb_neq _ _)) in E; [by injection E|]. unfold refcount_decr. rewrite ith_set_eq. cbn [refcount set_refcount].
    unfold u16. pose proof (v_high _ _ _ _ _ HI a Hu). rewrite Z.mod_small by lia. lia. }
  split_and!; try done. unfold extra. rewrite Hl2, Hl, Hr2. lia.
Qed.

(** The hit markers. *)
Lemma hit_inv n c L a id hv conn :
  inv n c L → (id < LARGEST_ID)%nat → a ∈ L id → refcount (ith c a) + 1 + 2 * Z.of_nat n < 2 ^ 16 →
  ∃ c' L', hit st now c a hv conn = Some c' ∧ inv n c' L' ∧ step c c' a ∧ table c' = table c ∧
    used c' a ∧ extra c a ≤ extra c' a.
Proof.
  intros HI Hid Ha Hhi. destruct (inv_queued _ _ _ _ _ _ _ HI Hid Ha) as (Hu & Hl & Hr & _). pose proof (v_low _ _ _ _ _ HI a Hu) as Hlo.
  destruct (hit_ok st hash now c L a id hv conn) as (c' & L' & E & Hok & [Hmem Ht Hh _] & Hr'); [apply HI|done|done|lia|].
  pose proof (hit_bumps _ _ _ _ _ _ _ E) as Hb. pose proof (hit_frame _ _ _ _ _ _ _ E) as HF.
  assert (step c c' a) as HS by by apply step_same.
  destruct (members_in L L' a id Hmem Hid Ha) as (i & Hi & Ha').
  destruct (queue_use _ _ Hok i a Hi Ha') as [Hu' _]. destruct (linked_queued _ _ _ _ _ _ Hok Hi Ha') as [Hl' _ _].
  unfold extra in *. rewrite Hl in *. assert (is_linked c' a = true) as Hl2 by done.
  exists c', L'. unfold extra. rewrite Hl2, Hr'. split_and!; try done; [|lia].
  eapply inv_members; [exact HI|done|done|..].
  - intros b j _ Hj Hbj. by apply (members_in L L' b j).
  - intros _. unfold extra. rewrite Hl2, Hr'. split_and!; [lia|lia|eauto].
Qed.

(** A lookup: the item is referenced once more; or there is none, or it is gone. *)
Lemma get_inv n c L k conn u :
  inv (S n) c L →
  ∃ c' L' a, do_item_get st now c k (hash k) conn u = Some (c', a) ∧ inv n c' L' ∧
    ((a = 0 ∧ amap (table c') = delete k (amap (table c)) ∧ evolving (λ _, False) c c') ∨
     (a ≠ 0 ∧ amap (table c) !! k = Some (mkItem k a) ∧ table c' = table c ∧ step c c' a ∧ used c a ∧ used c' a ∧
      extra c a + 1 ≤ extra c' a)).
Proof.
  intros HI. unfold do_item_get. pose proof (find_linked st hash c L k (v_ok _ _ _ _ _ HI)) as Hf.
  destruct (assoc_find (table c) k (hash k)) as [e|].
  2: { exists c, L, 0. split_and!; [done|by apply inv_less|]. left. split_and!; [done|by rewrite delete_id|apply evolves_refl]. }
  destruct Hf as (Hk & id & Hid & Ha & Hkey). set (a := it_id e) in *.
  destruct (inv_queued _ _ _ _ _ _ _ HI Hid Ha) as (Hu & Hl & Hr & Ha0 & Hm). rewrite Hkey in Hm.
  destruct (incr_inv _ _ n c L a id HI Hid Ha) as (HI1 & HS1 & Hu1 & Hr1 & Ht1). set (c1 := refcount_incr c a) in *.
  destruct (inv_queued _ _ _ _ _ _ _ HI1 Hid Ha) as (_ & Hl1 & _).
  assert (extra c1 a = extra c a + 1) as He1 by (unfold extra; rewrite Hl1, Hl, Hr1; lia).
  destruct (_ || _).
  - pose proof Ha as (l1 & l2 & HL)%list_elem_of_split.
    destruct (evict_post (mkAllocSettings st false 0 0 0 false 0 false) hash (λ _, true) n c L c1 a id l1 l2 HI Hid HL HI1 HS1 Ht1 Hr1)
      as (c2 & c' & E2 & E' & HI' & HE & Hm' & _); [done|]. rewrite Hkey in E2, Hm'. cbn [item_st] in *.
    rewrite E2. cbn [mbind option_bind]. rewrite E'. cbn [mbind option_bind]. eexists c', _, 0. split_and!; [done|by apply inv_less|].
    left. split_and!; [done|done|]. by destruct HE as [H1 _ H3 H4 H5 H6 H7]; split.
  - destruct u.
    + pose proof (v_high _ _ _ _ _ HI a Hu) as Hhi.
      destruct (hit_inv n c1 L a id (hash k) conn HI1 Hid Ha) as (c' & L' & E & HI' & HS' & Ht' & Hu' & He'); [lia|].
      rewrite E. cbn [mbind option_bind]. exists c', L', a. split_and!; [done|done|]. right.
      split_and!; try done; [by eapply step_trans|lia].
    + exists c1, L, a. split_and!; [done|done|]. right. split_and!; try done. lia.
Qed.

End Ops.
