(* ===== verification/SlabRebalance.v ===== *)
(** The rebalancer: the mover thread of [extra/KVS-DRAM-Cache/slabs.c].

    A page of one class is emptied, chunk by chunk, while the cache goes on working, and is given
    to another class or to the global pool.  A free chunk leaves the free list; an item is copied
    to another chunk of its class, or dropped when there is none; an item that is in use is
    left for the next pass.  A chunk that is done with is marked with the flags [ITEM_SLABBED]
    and [ITEM_FETCHED], which no item and no free chunk has together. *)

From S2P Require Import Prelude Item Slabs Assoc Items Itoa ItemFrame ItemInv ItemAlloc.

(** [slab_rebal]; the addresses of the page, and the counters. *)
Record slab_rebalance := mkRebal {
  slab_start : Z;
  slab_end : Z;
  slab_pos : Z;
  s_clsid : Z;
  d_clsid : Z;
  busy_items : Z;
  rescues : Z;
  evictions_nomem : Z;
  inline_reclaim : Z;
  chunk_rescues : Z;
  busy_deletes : Z;
  busy_loops : Z;
  done_ : Z
}.

Definition no_rebal : slab_rebalance := mkRebal 0 0 0 0 0 0 0 0 0 0 0 0 0.

(** The globals of the mover: the cache, [slab_rebal], [slab_rebalance_signal], and the static
    [cur] of [slabs_reassign_pick_any]. *)
Record mover := mkMover { m_cache : cache; rebal : slab_rebalance; signal : Z; pick_cur : Z }.

Definition with_rebal (m : mover) (r : slab_rebalance) : mover := mkMover (m_cache m) r (signal m) (pick_cur m).

Definition CLEARED : Z := 12. (* [ITEM_SLABBED|ITEM_FETCHED] *)

Definition clear_mark (i : stritem) : stritem := set_it_flags CLEARED (set_refcount 0 i).

Inductive move_status := MOVE_PASS | MOVE_FROM_SLAB | MOVE_FROM_LRU | MOVE_BUSY | MOVE_LOCKED.

Definition SLAB_MOVE_MAX_LOOPS : Z := 1000.

(** What [slabs_reassign] answers. *)
Inductive reassign_result_type :=
  REASSIGN_OK | REASSIGN_RUNNING | REASSIGN_BADCLASS | REASSIGN_NOSPARE | REASSIGN_SRC_DST_SAME.

Definition upd_requested (s : slab_state) (id : nat) (f : Z → Z) : slab_state :=
  let p := slabclass s !!! id in
  with_class s id (mkClass (size p) (perslab p) (slots p) (sl_curr p) (slabs p) (slab_list p) (list_size p)
    (u64 (f (requested p)))).

(** [memcpy] of [n] bytes of slab memory, as far as headers of items and chunks lie in them. *)
Definition copy_range (from to n : Z) (h : heap) : heap :=
  kmap (λ a, a - from + to) (filter (λ '(a, _), from <= a < from + n) h) ∪
  filter (λ '(a, _), ¬ (to <= a < to + n)) h.

Section Rebalance.
Context (st : alloc_settings) (hash : bytes → Z) (now : Z) (trylock : Z → bool).

Abbreviation ist := (item_st st).
Abbreviation sst := (slab_settings (item_st st)).

(** ** Choosing the classes *)

(** [tries] classes from [cur] on. *)
Fixpoint pick_loop (tries : nat) (s : slab_state) (dst cur : Z) : Z * Z :=
  match tries with
  | O => (-1, cur)
  | S tries =>
      let cur := if Z.of_nat (power_largest s) <? cur + 1 then Z.of_nat POWER_SMALLEST else cur + 1 in
      if cur =? dst then pick_loop tries s dst cur
      else if 1 <? slabs (slabclass s !!! Z.to_nat cur) then (cur, cur)
      else pick_loop tries s dst cur
  end.

Definition slabs_reassign_pick_any (s : slab_state) (dst cur : Z) : Z * Z :=
  pick_loop (power_largest s - POWER_SMALLEST + 1) s dst cur.

Definition do_slabs_reassign (m : mover) (src dst : Z) : mover * reassign_result_type :=
  let s := slab (m_cache m) in
  if negb (signal m =? 0) then (m, REASSIGN_RUNNING)
  else if src =? dst then (m, REASSIGN_SRC_DST_SAME)
  else
    let '(src, cur) := if src =? -1 then slabs_reassign_pick_any s dst (pick_cur m) else (src, pick_cur m) in
    let m := mkMover (m_cache m) (rebal m) (signal m) cur in
    if (src <? Z.of_nat POWER_SMALLEST) || (Z.of_nat (power_largest s) <? src) ||
       (dst <? Z.of_nat SLAB_GLOBAL_PAGE_POOL) || (Z.of_nat (power_largest s) <? dst)
    then (m, REASSIGN_BADCLASS)
    else if slabs (slabclass s !!! Z.to_nat src) <? 2 then (m, REASSIGN_NOSPARE)
    else
      let r := rebal m in
      (mkMover (m_cache m)
         (mkRebal (slab_start r) (slab_end r) (slab_pos r) src dst (busy_items r) (rescues r) (evictions_nomem r)
            (inline_reclaim r) (chunk_rescues r) (busy_deletes r) (busy_loops r) (done_ r)) 1 cur, REASSIGN_OK).

(** [locked]: [slabs_rebalance_lock] is taken. *)
Definition slabs_reassign (locked : bool) (m : mover) (src dst : Z) : mover * reassign_result_type :=
  if locked then (m, REASSIGN_RUNNING) else do_slabs_reassign m src dst.

(** ** Starting *)

Definition slab_rebalance_start (realloc_ok : bool) (m : mover) : mover * Z :=
  let c := m_cache m in
  let r := rebal m in
  let s := slab c in
  let no_go :=
    if (s_clsid r <? Z.of_nat POWER_SMALLEST) || (Z.of_nat (power_largest s) <? s_clsid r) ||
       (d_clsid r <? Z.of_nat SLAB_GLOBAL_PAGE_POOL) || (Z.of_nat (power_largest s) <? d_clsid r) ||
       (s_clsid r =? d_clsid r)
    then -2 else 0 in
  let '(s, grown) := grow_slab_list s (Z.to_nat (d_clsid r)) realloc_ok in
  let no_go := if grown then no_go else -1 in
  let s_cls := slabclass s !!! Z.to_nat (s_clsid r) in
  let no_go := if slabs s_cls <? 2 then -3 else no_go in
  let c := with_slab c s in
  if negb (no_go =? 0) then (mkMover c r (signal m) (pick_cur m), no_go)
  else
    let start := slab_list s_cls !!! 0%nat in
    (mkMover c
       (mkRebal start (start + size s_cls * perslab s_cls) start (s_clsid r) (d_clsid r) (busy_items r) (rescues r)
          (evictions_nomem r) (inline_reclaim r) (chunk_rescues r) (busy_deletes r) (busy_loops r) 0)
       2 (pick_cur m), 0).

(** ** Moving *)

(** A free chunk of the class outside the page; those inside it that come up are cleared. *)
Fixpoint alloc_loop (k : nat) (c : cache) (r : slab_rebalance) (sz : Z) (id : nat) : option (cache * slab_rebalance * Z) :=
  match k with
  | O => Some (c, r, 0)
  | S k =>
      '(s, new_it, _) ← do_slabs_alloc sst (slab c) sz id true (mkOs true 0);
      let c := with_slab c s in
      if new_it =? 0 then Some (c, r, 0)
      else if (slab_start r <=? new_it) && (new_it <? slab_end r) then
        let c := with_slab c (upd_requested (slab c) (Z.to_nat (s_clsid r)) (λ q, q - sz)) in
        let c := set_item c new_it clear_mark in
        alloc_loop k c
          (mkRebal (slab_start r) (slab_end r) (slab_pos r) (s_clsid r) (d_clsid r) (busy_items r) (rescues r)
             (evictions_nomem r) (u32 (inline_reclaim r + 1)) (chunk_rescues r) (busy_deletes r) (busy_loops r) (done_ r)) sz id
      else Some (c, r, new_it)
  end.

Definition slab_rebalance_alloc (c : cache) (r : slab_rebalance) (sz : Z) (id : nat) : option (cache * slab_rebalance * Z) :=
  alloc_loop (Z.to_nat (perslab (slabclass (slab c) !!! Z.to_nat (s_clsid r)))) c r sz id.

(** The chunk leaves the free list of the class. *)
Definition slab_rebalance_cut_free (c : cache) (id : nat) (it : Z) : option cache :=
  assert_ (it_flags (ith c it) =? ITEM_SLABBED);;
  let s := slab c in
  let p := slabclass s !!! id in
  let sl := if slots p =? it then next (ith c it) else slots p in
  let s := with_mem s (cut it (chunks_mem s)) in
  Some (with_slab c (with_class s id (mkClass (size p) (perslab p) sl (u32 (sl_curr p - 1)) (slabs p) (slab_list p)
    (list_size p) (requested p)))).

(** What to do with a chunk: the status, and the cache after the look at it. *)
Definition move_decide (c : cache) (r : slab_rebalance) (it : Z) (is_chunk : bool) : option (cache * slab_rebalance * move_status) :=
  let id := Z.to_nat (s_clsid r) in
  if it_flags (ith c it) =? CLEARED then Some (c, r, MOVE_PASS)
  else if has_flag (ith c it) ITEM_SLABBED then
    assert_ (negb is_chunk);;
    c ← slab_rebalance_cut_free c id it;
    Some (c, r, MOVE_FROM_SLAB)
  else if has_flag (ith c it) ITEM_LINKED then
    let hv := hash (key (ith c it)) in
    if negb (trylock hv) then Some (c, r, MOVE_LOCKED)
    else
      let c := refcount_incr c it in
      let refcount_ := refcount (ith c it) in
      if refcount_ =? 2 then Some (c, r, MOVE_FROM_LRU)
      else if (2 <? refcount_) && (SLAB_MOVE_MAX_LOOPS <? busy_loops r) then
        c ← do_item_unlink ist c it hv;
        Some (refcount_decr c it,
          mkRebal (slab_start r) (slab_end r) (slab_pos r) (s_clsid r) (d_clsid r) (busy_items r) (rescues r)
            (evictions_nomem r) (inline_reclaim r) (chunk_rescues r) (u32 (busy_deletes r + 1)) (busy_loops r) (done_ r), MOVE_BUSY)
      else Some (refcount_decr c it, r, MOVE_BUSY)
  else Some (c, r, MOVE_BUSY).

(** The chunks of a large item get their new head. *)
Fixpoint repoint (fuel : nat) (c : cache) (fch head : Z) : option cache :=
  match fuel with
  | O => None
  | S fuel =>
      if fch =? 0 then Some c
      else repoint fuel (set_item c fch (set_h_next head)) (next (ith c fch)) head
  end.

(** The item moves to the chunk [new_it]. *)
Definition rescue_item (c : cache) (it new_it ntotal hv : Z) : option cache :=
  assert_ (negb (has_flag (ith c new_it) ITEM_CHUNKED));;
  let c := with_heap c (copy_range it new_it ntotal (mem_of_cache c)) in
  let c := set_item c new_it (λ i, set_refcount 0 (clear_flag ITEM_LINKED (set_h_next 0 (set_next 0 (set_prev 0 i))))) in
  c ← do_item_replace ist now c it new_it hv;
  c ← (if has_flag (ith c new_it) ITEM_CHUNKED then
         let fch := ITEM_data new_it (ith c new_it) in
         let c := set_item c (next (ith c fch)) (set_prev fch) in
         repoint (S (base.size (mem_of_cache c))) c fch new_it
       else Some c);
  Some (set_item c it clear_mark).

(** The chunk [ch] of a large item [it] moves to [nch]. *)
Definition rescue_chunk (c : cache) (it ch nch : Z) : cache :=
  let c := set_item c (prev (ith c ch)) (set_next nch) in
  let c := if next (ith c ch) =? 0 then c else set_item c (next (ith c ch)) (set_prev nch) in
  let c := with_heap c (copy_range ch nch (exptime (ith c ch) + sizeof_item_chunk) (mem_of_cache c)) in
  let c := set_item c ch clear_mark in
  refcount_decr c it.

(** An item that only the cache and the mover have a reference to. *)
Definition move_item (c : cache) (r : slab_rebalance) (it : Z) (ch : option Z) : option (cache * slab_rebalance * Z) :=
  let id := Z.to_nat (s_clsid r) in
  let hv := hash (key (ith c it)) in
  let head_chunk := match ch with None => has_flag (ith c it) ITEM_CHUNKED | Some _ => false end in
  let ntotal := if head_chunk then size (slabclass (slab c) !!! id) else ITEM_ntotal (ith c it) in
  let expired := (negb (exptime (ith c it) =? 0) && (exptime (ith c it) <? now)) || item_is_flushed ist now (ith c it) in
  let want := match ch with None => ntotal | Some _ => size (slabclass (slab c) !!! id) end in
  '(c, r, new_it) ← (if expired then Some (c, r, 0) else slab_rebalance_alloc c r want id);
  if expired || (new_it =? 0) then
    let nomem := if expired then 0 else 1 in
    c ← do_item_unlink ist c it hv;
    s ← do_slabs_free sst (slab c) it (ITEM_ntotal (ith c it)) id;
    Some (with_slab c s,
      mkRebal (slab_start r) (slab_end r) (slab_pos r) (s_clsid r) (d_clsid r) (u32 (busy_items r + 1)) (rescues r)
        (u32 (evictions_nomem r + nomem)) (inline_reclaim r) (chunk_rescues r) (busy_deletes r) (busy_loops r) (done_ r), 1)
  else
    match ch with
    | None =>
        c ← rescue_item c it new_it ntotal hv;
        Some (with_slab c (upd_requested (slab c) id (λ q, q - ntotal)),
          mkRebal (slab_start r) (slab_end r) (slab_pos r) (s_clsid r) (d_clsid r) (busy_items r) (u32 (rescues r + 1))
            (evictions_nomem r) (inline_reclaim r) (chunk_rescues r) (busy_deletes r) (busy_loops r) (done_ r), 0)
    | Some a =>
        let c := rescue_chunk c it a new_it in
        Some (with_slab c (upd_requested (slab c) id (λ q, q - want)),
          mkRebal (slab_start r) (slab_end r) (slab_pos r) (s_clsid r) (d_clsid r) (busy_items r) (rescues r)
            (evictions_nomem r) (inline_reclaim r) (u32 (chunk_rescues r + 1)) (busy_deletes r) (busy_loops r) (done_ r), 0)
    end.

Definition add_busy (r : slab_rebalance) : slab_rebalance :=
  mkRebal (slab_start r) (slab_end r) (slab_pos r) (s_clsid r) (d_clsid r) (u32 (busy_items r + 1)) (rescues r)
    (evictions_nomem r) (inline_reclaim r) (chunk_rescues r) (busy_deletes r) (busy_loops r) (done_ r).

Definition set_pos (p : Z) (r : slab_rebalance) : slab_rebalance :=
  mkRebal (slab_start r) (slab_end r) p (s_clsid r) (d_clsid r) (busy_items r) (rescues r)
    (evictions_nomem r) (inline_reclaim r) (chunk_rescues r) (busy_deletes r) (busy_loops r) (done_ r).

(** The chunk at [slab_pos]; the third result is what is added to [was_busy]. *)
Definition move_chunk (c : cache) (r : slab_rebalance) : option (cache * slab_rebalance * Z) :=
  let pos := slab_pos r in
  let is_chunk := has_flag (ith c pos) ITEM_CHUNK in
  let it := if is_chunk then h_next (ith c pos) else pos in
  assert_ (negb is_chunk || has_flag (ith c it) ITEM_CHUNKED);;
  '(c, r, status) ← move_decide c r it is_chunk;
  match status with
  | MOVE_FROM_LRU => move_item c r it (if is_chunk then Some pos else None)
  | MOVE_FROM_SLAB => Some (set_item c it clear_mark, r, 0)
  | MOVE_BUSY | MOVE_LOCKED => Some (c, add_busy r, 1)
  | MOVE_PASS => Some (c, r, 0)
  end.

(** [slab_bulk_check] chunks, or up to the end of the page. *)
Fixpoint move_loop (k : nat) (c : cache) (r : slab_rebalance) (was_busy : Z) : option (cache * slab_rebalance * Z) :=
  match k with
  | O => Some (c, r, was_busy)
  | S k =>
      '(c, r, b) ← move_chunk c r;
      let r := set_pos (slab_pos r + size (slabclass (slab c) !!! Z.to_nat (s_clsid r))) r in
      if slab_end r <=? slab_pos r then Some (c, r, was_busy + b) else move_loop k c r (was_busy + b)
  end.

(** At the end of the page: another pass, or done. *)
Definition end_pass (r : slab_rebalance) : slab_rebalance :=
  if slab_end r <=? slab_pos r then
    if negb (busy_items r =? 0) then
      mkRebal (slab_start r) (slab_end r) (slab_start r) (s_clsid r) (d_clsid r) 0 (rescues r)
        (evictions_nomem r) (inline_reclaim r) (chunk_rescues r) (busy_deletes r) (u32 (busy_loops r + 1)) (done_ r)
    else
      mkRebal (slab_start r) (slab_end r) (slab_pos r) (s_clsid r) (d_clsid r) (busy_items r) (rescues r)
        (evictions_nomem r) (inline_reclaim r) (chunk_rescues r) (busy_deletes r) (busy_loops r) (u8 (done_ r + 1))
  else r.

Definition slab_rebalance_move (bulk : nat) (m : mover) : option (mover * Z) :=
  '(c, r, was_busy) ← move_loop bulk (m_cache m) (rebal m) 0;
  Some (mkMover c (end_pass r) (signal m) (pick_cur m), was_busy).

(** ** Finishing *)

(** The first page leaves the class. *)
Definition take_first_page (s : slab_state) (id : nat) : slab_state :=
  let p := slabclass s !!! id in
  let n := Z.to_nat (u32 (slabs p - 1)) in
  with_class s id (mkClass (size p) (perslab p) (slots p) (sl_curr p) (u32 (slabs p - 1))
    (take n (drop 1 (slab_list p)) ++ drop n (slab_list p)) (list_size p) (requested p)).

Definition slab_rebalance_finish (m : mover) : option mover :=
  let c := m_cache m in
  let r := rebal m in
  let d := Z.to_nat (d_clsid r) in
  let s := take_first_page (slab c) (Z.to_nat (s_clsid r)) in
  let s := add_page s d (slab_start r) in
  s ← (if (SLAB_GLOBAL_PAGE_POOL <? d)%nat then
         let s := with_mem s (zero_range (slab_start r) (slab_page_size sst) (chunks_mem s)) in
         split_slab_page_into_freelist sst s (slab_start r) d
       else Some (memory_release sst s));
  Some (mkMover (with_slab c s) (mkRebal 0 0 0 0 0 (busy_items r) 0 0 0 0 0 0 0) 0 (pick_cur m)).

(** ** The thread *)

(** One round of the loop, up to its waits. *)
Definition rebalance_thread_round (realloc_ok : bool) (bulk : nat) (m : mover) : option mover :=
  m ← (if signal m =? 1 then
         let '(m, ret) := slab_rebalance_start realloc_ok m in
         Some (if ret <? 0 then mkMover (m_cache m) (rebal m) 0 (pick_cur m) else m)
       else if negb (signal m =? 0) && negb (slab_start (rebal m) =? 0) then fst <$> slab_rebalance_move bulk m
       else Some m);
  if negb (done_ (rebal m) =? 0) then slab_rebalance_finish m else Some m.
End Rebalance.

(** ** Giving the page away *)

(** The page at [start] leaves the class [id]; what is in use elsewhere stays. *)
Record repaged (id : nat) (start len : Z) (s s' : slab_state) : Prop := {
  rp_largest : power_largest s' = power_largest s;
  rp_class i : valid s i → size (cls s' i) = size (cls s i) ∧ perslab (cls s' i) = perslab (cls s i) ∧
    slabs (cls s' i) ≤ slabs (cls s i) + 1;
  rp_held i a : valid s i → held s' i a ↔ held s i a ∧ (i = id → ¬ (start <= a < start + len));
  rp_hdr i a : valid s i → held s' i a → hdr (chunks_mem s') a = hdr (chunks_mem s) a
}.

Section Finish.
Context (st : settings) (s : slab_state) (F : nat → list Z) (id : nat) (start : Z).
Context (Hok : ok_with st s F) (Hid : valid s id) (Hpage : page s id 0 start).
(** Pages can move between classes: they are all of one size. *)
Context (Hre : slab_reassign st = true).
Context (Hnum : slabs (cls s id) ≤ two32).
(** No chunk of the page is on the free list. *)
Context (Hout : ∀ a, a ∈ F id → ¬ (start <= a < start + slab_page_size st)).

Abbreviation s1 := (take_first_page s id).

Lemma plen_page s0 i : plen st s0 i = slab_page_size st.
Proof using Hre. unfold plen, page_len. rewrite Hre. by destruct (i =? 0)%nat. Qed.

Lemma take_first_cls : cls s1 id = mkClass (size (cls s id)) (perslab (cls s id)) (slots (cls s id)) (sl_curr (cls s id))
  (slabs (cls s id) - 1)
  (take (Z.to_nat (slabs (cls s id) - 1)) (drop 1 (slab_list (cls s id))) ++
   drop (Z.to_nat (slabs (cls s id) - 1)) (slab_list (cls s id)))
  (list_size (cls s id)) (requested (cls s id)).
Proof using Hok Hid Hpage Hnum.
  unfold take_first_page. rewrite cls_set_eq by (eapply valid_lt; [apply Hok|done]). fold (cls s id).
  assert (u32 (slabs (cls s id) - 1) = slabs (cls s id) - 1) as ->; [|done].
  destruct Hpage as [_ Hpos]. apply Z.mod_small. unfold two32 in *. lia.
Qed.

Lemma take_first_other i : i ≠ id → cls s1 i = cls s i.
Proof. intros. unfold take_first_page. by apply cls_set_ne. Qed.

Lemma take_first_page_iff i k p : page s1 i k p ↔ page s i (if decide (i = id) then S k else k) p.
Proof using Hok Hid Hpage Hnum.
  unfold page. case_decide as Hi; [subst i|by rewrite take_first_other]. rewrite take_first_cls. cbn [slab_list slabs].
  destruct (p_list _ _ (w_pages _ _ _ Hok) id) as [Hs Hl].
  split; intros [Hk Hlt]; (split; [|lia]).
  - rewrite lookup_app_l in Hk by (rewrite length_take, length_drop; lia).
    rewrite lookup_take_lt, lookup_drop in Hk by lia. done.
  - rewrite lookup_app_l by (rewrite length_take, length_drop; lia). rewrite lookup_take_lt, lookup_drop by lia. done.
Qed.

Lemma take_first_view i : size (cls s1 i) = size (cls s i) ∧ perslab (cls s1 i) = perslab (cls s i).
Proof using Hok Hid Hpage Hnum. destruct (decide (i = id)) as [->|]; [by rewrite take_first_cls|by rewrite take_first_other]. Qed.

Lemma take_first_pages : pages_ok st s1.
Proof using Hok Hid Hre Hpage Hnum.
  pose proof (w_pages _ _ _ Hok) as Hp. pose proof Hp as [].
  split; simpl; try done.
  - by rewrite length_insert.
  - intros i Hi. destruct (take_first_view i) as [-> ->]. by apply p_size.
  - intros i. destruct (decide (i = id)) as [->|]; [|rewrite take_first_other by done; apply p_list].
    rewrite take_first_cls. cbn [slabs list_size slab_list]. destruct (p_list id) as [? Hl].
    destruct Hpage as [_ Hpos]. rewrite length_app, length_take, !length_drop. split; lia.
  - intros i k p ?%take_first_page_iff. by eapply p_pos.
  - intros i k p ?%take_first_page_iff. by eapply p_pool.
  - intros i k p j k' q Hi%take_first_page_iff Hj%take_first_page_iff Hne. rewrite !plen_page.
    pose proof (p_apart _ _ _ _ _ _ Hi Hj) as H. rewrite !plen_page in H. apply H. intros [= <- E].
    case_decide; [|congruence]. by injection E as <-.
  - intros Hb. destruct (p_arena Hb) as (? & ? & ? & Hpg). split_and!; try done; try lia.
    intros i k p Hi%take_first_page_iff. rewrite plen_page. rewrite <-(plen_page s i). by eapply Hpg.
Qed.

(** A chunk of the class is in the page or in another one. *)
Lemma take_first_chunk i a : valid s i →
  chunk s1 i a ↔ chunk s i a ∧ (i = id → ¬ (start <= a < start + slab_page_size st)).
Proof using Hok Hid Hre Hpage Hnum.
  intros Hi. pose proof (w_pages _ _ _ Hok) as Hp. destruct (take_first_view i) as [Hsz Hps].
  destruct (p_size _ _ Hp i Hi) as (Hs0 & Hp0 & Hfit).
  unfold chunk. rewrite Hsz, Hps. split.
  - intros (k & p & j & Hk%take_first_page_iff & Hj & ->). split; [eauto 10|]. intros ->. case_decide; [|done].
    destruct (p_apart _ _ Hp _ _ _ _ _ _ Hk Hpage) as [Ha|Ha]; [congruence|rewrite plen_page in Ha; nia..].
  - intros [(k & p & j & Hk & Hj & ->) Hnot]. destruct (decide (i = id)) as [->|Hne].
    + destruct k as [|k].
      * destruct Hk as [Hk _], Hpage as [Hs' _]. rewrite Hk in Hs'. injection Hs' as ->. destruct Hnot; [done|]. nia.
      * exists k, p, j. rewrite take_first_page_iff, decide_True by done. done.
    + exists k, p, j. rewrite take_first_page_iff, decide_False by done. done.
Qed.

Lemma take_first_ok : ok_with st s1 F.
Proof.
  pose proof Hok as [Hl Hp Hc]. split; [|apply take_first_pages|].
  - apply (lists_ok_frame s); [done| |done]. intros i _ [Hd Hn Hw Hnd Hsl].
    destruct (decide (i = id)) as [->|Hne]; [|split; by rewrite ?take_first_other].
    split; try done; by rewrite take_first_cls.
  - intros i a Hi Ha. apply take_first_chunk; [done|]. split; [by apply Hc|]. intros ->. by apply Hout.
Qed.

Lemma take_first_fresh : fresh st s1 start (slab_page_size st).
Proof using Hok Hid Hre Hpage Hnum.
  pose proof (w_pages _ _ _ Hok) as Hp. split; [by eapply p_pos|].
  intros i k q Hq%take_first_page_iff. rewrite plen_page.
  destruct (p_apart _ _ Hp _ _ _ _ _ _ Hpage Hq) as [Ha|Ha]; [|rewrite plen_page in Ha; auto..].
  intros [= <- E]. by rewrite decide_True in E.
Qed.

Lemma take_first_arena : in_arena s1 start (slab_page_size st).
Proof using Hok Hid Hre Hpage Hnum.
  intros Hb. pose proof (w_pages _ _ _ Hok) as Hp. destruct (p_arena _ _ Hp Hb) as (_ & _ & _ & Hpg).
  specialize (Hpg _ _ _ Hpage). by rewrite plen_page in Hpg.
Qed.

Context (d : nat) (Hne : d ≠ id) (Hslot : slabs (cls s d) < list_size (cls s d)) (Hwidth : slabs (cls s d) + 1 < two32).

Abbreviation s2 := (add_page s1 d start).

Lemma d_cls : cls s1 d = cls s d.
Proof. by apply take_first_other. Qed.

(** The page goes to a class and is cut into chunks. *)
Lemma give_class_ok :
  valid s d → sl_curr (cls s d) + perslab (cls s d) < two32 →
  ∃ s', split_slab_page_into_freelist st (with_mem s2 (zero_range start (slab_page_size st) (chunks_mem s2))) start d = Some s' ∧
    slabs_ok st s' ∧ page s' d (Z.to_nat (slabs (cls s d))) start ∧ repaged id start (slab_page_size st) s s'.
Proof.
  intros Hd Hn. pose proof take_first_ok as Hok1. pose proof Hok1 as [Hl1 Hp1 Hc1].
  assert (Hd1 : valid s1 d) by done.
  destruct (p_size _ _ Hp1 d Hd1) as (Hsz & Hps & Hfit).
  assert (Hpl : page_len st s1 d = slab_page_size st) by (rewrite <-(plen_valid st s1 d Hd1); apply plen_page).
  set (h := zero_range start (slab_page_size st) (chunks_mem s2)).
  set (new := chunk_seq start (size (cls s1 d)) (Z.to_nat (perslab (cls s1 d)))).
  assert (Hin : ∀ a, a ∈ new → start <= a < start + slab_page_size st).
  { intros a (j & ? & ->)%elem_of_chunk_seq. nia. }
  assert (Hslot1 : slabs (cls s1 d) < list_size (cls s1 d)) by by rewrite d_cls.
  assert (Hw1 : slabs (cls s1 d) + 1 < two32) by by rewrite d_cls.
  pose proof (add_page_view st s1 d start Hp1 Hd1 Hw1) as Hview. pose proof (add_page_chunk st s1 d start Hp1 Hd1 Hslot1 Hw1) as Hch.
  assert (lists_ok (with_mem s2 h) F) as Hl2.
  { apply (lists_ok_frame (with_mem s1 h)); [done| |exact (zero_lists st s1 F start _ Hok1 take_first_fresh)].
    intros i _ [Hdl Hcnt Hwd Hnd Hsl]. split; try done;
      (destruct (decide (i = d)) as [->|];
       [change (cls (with_mem s2 h) d) with (cls s2 d); rewrite (add_page_cls st s1 d start Hp1 Hd1 Hw1)
       |change (cls (with_mem s2 h) i) with (cls s2 i); unfold add_page; rewrite cls_set_ne by done]; done). }
  destruct (Hview d) as (Hs2 & Hps2 & _).
  destruct (split_ok st (Z.to_nat (perslab (cls s2 d))) (with_mem s2 h) F d start) as (s' & F' & E & Hsame & HF' & Hne' & He & Hh).
  - simpl. rewrite !length_insert. eapply valid_lt; [apply Hok|done].
  - done.
  - done.
  - apply take_first_fresh.
  - change (cls (with_mem s2 h) d) with (cls s2 d). lia.
  - change (cls (with_mem s2 h) d) with (cls s2 d). rewrite Hs2, Hps2. fold new. intros a Ha.
    split; [change (chunks_mem (with_mem s2 h)) with h; unfold h; rewrite hdr_zero_in; [done|by apply Hin]|].
    intros i Hi HaF. apply (fresh_chunk st s1 start (slab_page_size st) i a Hp1 take_first_fresh Hi); [by apply Hc1|by apply Hin].
  - rewrite <-(c_count _ _ _ (l_class _ _ Hl1 d Hd1)), d_cls, Hps2, d_cls. rewrite d_cls in Hps. lia.
  - change (cls (with_mem s2 h) d) with (cls s2 d) in He. rewrite Hs2, Hps2 in He. fold new in He.
    exists s'. split; [exact E|]. apply (same_pages_trans s2) in Hsame; [|apply same_pages_with_mem].
    assert (pages_ok st s2) as Hp2 by (apply add_page_pages; try done; rewrite Hpl; [apply take_first_fresh|apply take_first_arena]).
    destruct Hsame as [Hv Hlst].
    assert (pages_ok st s') as Hp'.
    { apply (same_pages_ok st Hv); [|done]. intros i. apply (same_pages_list s2); [done|]. apply (p_list _ _ Hp2). }
    assert (∀ i, valid s' i ↔ valid s i) as Hval by (intros; apply (same_valid Hv)).
    assert (∀ i a, valid s i → chunk s' i a ↔
      chunk s i a ∧ (i = id → ¬ (start <= a < start + slab_page_size st)) ∨ i = d ∧ a ∈ new) as Hchunk.
    { intros i a Hi. rewrite (same_chunk Hv), Hch, take_first_chunk by done. done. }
    assert (∀ i, valid s i → free_list s' i = F' i) as Hfree.
    { intros i Hi. apply class_ok_free, HF'. by apply Hval. }
    split_and!.
    + apply (ok_with_slabs_ok st s' F'). split; [done|done|]. intros i a Hi%Hval Ha. apply Hchunk; [done|].
      destruct (decide (i = d)) as [->|Hid'].
      * rewrite He in Ha. apply elem_of_app in Ha as [Ha|Ha]; [right; by rewrite elem_of_reverse in Ha|left].
        apply take_first_chunk; [done|]. by apply Hc1.
      * rewrite Hne' in Ha by done. left. apply take_first_chunk; [done|]. by apply Hc1.
    + apply (sv_page _ _ Hv), (add_page_page st s1 d start Hp1 Hd1 Hslot1 Hw1). right. by rewrite d_cls.
    + assert (∀ a, a ∈ new → ¬ chunk s d a) as Hnew.
      { intros a Ha Hca. apply (fresh_chunk st s1 start (slab_page_size st) d a Hp1 take_first_fresh Hd1);
          [apply take_first_chunk; [done|split; [done|congruence]]|by apply Hin]. }
      assert (∀ i a, valid s i → held s' i a ↔ held s i a ∧ (i = id → ¬ (start <= a < start + slab_page_size st))) as Hheld.
      { intros i a Hi. unfold held. rewrite Hchunk, Hfree by done.
        rewrite (class_ok_free s i (F i)) by (apply (w_lists _ _ _ Hok); done).
        destruct (decide (i = d)) as [->|Hid'].
        - rewrite He, elem_of_app, elem_of_reverse. specialize (Hnew a). tauto.
        - rewrite Hne' by done. tauto. }
      split; [apply Hv| |done|].
      * intros i Hi. destruct (sv_class _ _ Hv i) as (-> & -> & ->). destruct (Hview i) as (-> & -> & _).
        destruct (take_first_view i) as [-> ->]. split_and!; try done.
        destruct (decide (i = d)) as [->|Hid'].
        -- rewrite (add_page_cls st s1 d start Hp1 Hd1 Hw1). cbn [slabs]. rewrite d_cls. lia.
        -- unfold add_page. rewrite cls_set_ne by done. destruct (decide (i = id)) as [->|]; [rewrite take_first_cls; cbn [slabs]; lia|].
           rewrite take_first_other by done. lia.
      * intros i a Hi Ha. assert (chunk s1 i a) as Hc1a by (apply Hheld in Ha as [[? _] ?]; [|done]; by apply take_first_chunk).
        assert (¬ (start <= a < start + slab_page_size st)) as Hout'.
        { intros Hr. by eapply (fresh_chunk st s1 start (slab_page_size st) i a Hp1 take_first_fresh). }
        etrans; [apply Hh|by apply hdr_zero_out].
        -- change (size (cls (with_mem s2 h) d)) with (size (cls s2 d)). rewrite Hs2, Hps2. intros Hb%Hin. done.
        -- intros Hb. apply Hheld in Ha as [Ha _]; [|done]. eapply (held_not_free st s i d a); try done.
           ++ by apply (ok_with_slabs_ok st s F).
           ++ by rewrite (class_ok_free s d (F d)) by (apply (w_lists _ _ _ Hok); done).
Qed.
End Finish.

(** *** The global pool *)

(** What happens to the pool leaves the classes alone. *)
Record same_classes (s s' : slab_state) : Prop := {
  sc_largest : power_largest s' = power_largest s;
  sc_mem : chunks_mem s' = chunks_mem s;
  sc_cls i : i ≠ 0%nat → cls s' i = cls s i
}.

Lemma same_classes_valid s s' i : same_classes s s' → valid s' i ↔ valid s i.
Proof. intros H. unfold valid. by rewrite (sc_largest _ _ H). Qed.

Lemma same_classes_chunk s s' i a : same_classes s s' → valid s i → chunk s' i a ↔ chunk s i a.
Proof. intros H Hi. unfold chunk, page. rewrite (sc_cls _ _ H); [done|]. unfold valid in Hi. lia. Qed.

Lemma same_classes_free s s' i : same_classes s s' → valid s i → free_list s' i = free_list s i.
Proof. intros H Hi. unfold free_list. rewrite (sc_cls _ _ H), (sc_mem _ _ H); [done|]. unfold valid in Hi. lia. Qed.

Lemma same_classes_ok st s s' F : same_classes s s' → ok_with st s F → pages_ok st s' → ok_with st s' F.
Proof.
  intros H [Hl Hp Hc] Hp'. split; [|done|].
  - apply (lists_ok_frame s); [apply H| |done]. intros i Hi. apply class_ok_frame; [|by rewrite (sc_mem _ _ H)].
    apply H. unfold valid in Hi. lia.
  - intros i a Hi%(same_classes_valid _ _ _ H) Ha. apply (same_classes_chunk _ _ _ _ H Hi). by apply Hc.
Qed.

Lemma same_classes_trans s1 s2 s3 : same_classes s1 s2 → same_classes s2 s3 → same_classes s1 s3.
Proof. intros [A1 A2 A3] [B1 B2 B3]. split; [congruence..|]. intros i Hi. by rewrite B3, A3. Qed.

Lemma release_ok st fuel s F :
  ok_with st s F → ok_with st (release_loop st fuel s) F ∧ same_classes s (release_loop st fuel s).
Proof.
  revert s. induction fuel as [|fuel IH]; intros s Hok; cbn [release_loop]; [done|].
  destruct (mem_limit s <? mem_malloced s); [|done].
  destruct (decide (1 <= slabs (cls s 0))) as [Hs|Hs].
  - pose proof (pool_page st s (w_pages _ _ _ Hok) Hs) as Hpool.
    destruct (get_page_from_global_pool s) as [s1 p]. destruct Hpool as (Ht & Hp1 & [Hpos _] & _).
    rewrite (proj2 (Z.eqb_neq _ _)) by lia.
    set (s2 := with_arena s1 _ _ _ _).
    assert (same_classes s s2) as Hsc by (split; [apply Ht|apply Ht|apply Ht]).
    assert (pages_ok st s2) as Hp2 by (destruct Hp1; by split).
    destruct (IH s2 (same_classes_ok _ _ _ _ Hsc Hok Hp2)) as [H1 H2]. split; [done|]. by eapply same_classes_trans.
  - unfold get_page_from_global_pool. fold (cls s SLAB_GLOBAL_PAGE_POOL). unfold SLAB_GLOBAL_PAGE_POOL.
    by rewrite (proj2 (Z.ltb_lt _ _)) by lia.
Qed.

Lemma memory_release_ok st s F :
  ok_with st s F → ok_with st (memory_release st s) F ∧ same_classes s (memory_release st s).
Proof. intros Hok. unfold memory_release. destruct (negb _); [done|]. destruct (negb _); [done|]. by apply release_ok. Qed.

(** A page goes to the pool. *)
Lemma add_pool_ok st s F p :
  ok_with st s F → slabs (cls s 0) < list_size (cls s 0) → slabs (cls s 0) + 1 < two32 →
  fresh st s p (slab_page_size st) → in_arena s p (slab_page_size st) →
  ok_with st (add_page s 0 p) F ∧ same_classes s (add_page s 0 p).
Proof.
  intros Hok Hs Hw [Hpos Hf] Ha. pose proof (w_pages _ _ _ Hok) as Hp.
  assert (same_classes s (add_page s 0 p)) as Hsc.
  { split; [done|done|]. intros i Hi. unfold add_page. by rewrite cls_set_ne. }
  split; [|done]. apply (same_classes_ok _ _ _ _ Hsc Hok). destruct (p_list _ _ Hp 0%nat) as [Hl Hll].
  assert (cls (add_page s 0 p) 0 = mkClass (size (cls s 0)) (perslab (cls s 0)) (slots (cls s 0)) (sl_curr (cls s 0))
    (slabs (cls s 0) + 1) (<[Z.to_nat (slabs (cls s 0)) := p]> (slab_list (cls s 0))) (list_size (cls s 0)) (requested (cls s 0))) as Hc.
  { unfold add_page. rewrite cls_set_eq by (rewrite (p_count _ _ Hp); unfold MAX_NUMBER_OF_SLAB_CLASSES; lia).
    fold (cls s 0). f_equal. apply Z.mod_small. lia. }
  assert (∀ i k q, page (add_page s 0 p) i k q → page s i k q ∨ i = 0%nat ∧ k = Z.to_nat (slabs (cls s 0)) ∧ q = p) as Hpg.
  { intros i k q. unfold page. destruct (decide (i = 0%nat)) as [->|Hi]; [|rewrite (sc_cls _ _ Hsc) by done; auto].
    rewrite Hc. cbn [slab_list slabs]. intros [Hk Hlt]. rewrite list_lookup_insert in Hk. case_decide as Hd.
    - destruct Hd as [-> _]. injection Hk as <-. auto.
    - left. split; [done|]. assert (k ≠ Z.to_nat (slabs (cls s 0))); [|lia]. intros ->. apply Hd. split; [done|lia]. }
  assert (∀ i, plen st (add_page s 0 p) i = plen st s i) as Hpl.
  { intros i. unfold plen. destruct (Nat.eqb_spec i 0); [done|]. unfold page_len. fold (cls (add_page s 0 p) i) (cls s i).
    by rewrite (sc_cls _ _ Hsc). }
  pose proof Hp as []. split; simpl; try done.
  - by rewrite length_insert.
  - intros i Hi. rewrite (sc_cls _ _ Hsc); [by apply p_size|]. unfold valid in Hi. simpl in Hi. lia.
  - intros i. destruct (decide (i = 0%nat)) as [->|Hi]; [|rewrite (sc_cls _ _ Hsc) by done; apply p_list].
    rewrite Hc. cbn [slabs list_size slab_list]. rewrite length_insert. lia.
  - intros i k q [?|(_ & _ & ->)]%Hpg; [by eapply p_pos|done].
  - intros i k q [?|(-> & _)]%Hpg; [by eapply p_pool|by left].
  - intros i k q j k' q' Hi Hj Hne. rewrite !Hpl.
    destruct (Hpg _ _ _ Hi) as [Hi'|(-> & -> & ->)], (Hpg _ _ _ Hj) as [Hj'|(-> & -> & ->)].
    + by eapply p_apart.
    + destruct (Hf _ _ _ Hi'); [by right|by left].
    + by apply (Hf _ _ _ Hj').
    + done.
  - intros Hb. destruct (p_arena Hb) as (? & ? & ? & Hq). split_and!; try done; try lia.
    intros i k q [Hi|(-> & -> & ->)]%Hpg; rewrite Hpl; [by eapply Hq|]. by apply Ha.
Qed.

(** The page goes to the pool. *)
Lemma give_pool_ok st s F id start :
  ok_with st s F → valid s id → page s id 0 start → slab_reassign st = true → slabs (cls s id) ≤ two32 →
  (∀ a, a ∈ F id → ¬ (start <= a < start + slab_page_size st)) →
  slabs (cls s 0) < list_size (cls s 0) → slabs (cls s 0) + 1 < two32 →
  let s' := memory_release st (add_page (take_first_page s id) 0 start) in
  ok_with st s' F ∧ repaged id start (slab_page_size st) s s'.
Proof.
  intros Hok Hid Hpage Hre Hnum Hout Hs Hw s'. assert (id ≠ 0%nat) as Hne by (unfold valid in Hid; lia).
  set (s1 := take_first_page s id) in *.
  pose proof (take_first_ok st s F id start Hok Hid Hpage Hre Hnum Hout) as Hok1.
  assert (cls s1 0 = cls s 0) as E0 by by apply take_first_other.
  destruct (add_pool_ok st s1 F start Hok1) as [Hok2 Hsc2]; try (by rewrite E0);
    [exact (take_first_fresh st s F id start Hok Hid Hpage Hre Hnum)|exact (take_first_arena st s F id start Hok Hid Hpage Hre Hnum)|].
  destruct (memory_release_ok st _ F Hok2) as [Hok3 Hsc3]. fold s' in Hok3, Hsc3.
  assert (same_classes s1 s') as Hsc by by eapply same_classes_trans. split; [done|].
  assert (∀ i, valid s i → i ≠ 0%nat) as Hn0 by (intros i Hi; unfold valid in Hi; lia).
  split.
  - apply Hsc.
  - intros i Hi. rewrite (sc_cls _ _ Hsc) by auto. unfold s1. destruct (take_first_view st s F id start Hok Hid Hpage Hnum i) as [-> ->]. split_and!; try done.
    destruct (decide (i = id)) as [->|]; [rewrite (take_first_cls st s F id start Hok Hid Hpage Hnum); cbn [slabs]; lia|].
    rewrite take_first_other by done. lia.
  - intros i a Hi. assert (valid s1 i) as Hi1 by done. assert (valid s' i) as Hi' by by apply (same_classes_valid _ _ _ Hsc).
    unfold held. rewrite (same_classes_chunk _ _ _ _ Hsc Hi1). unfold s1. rewrite (take_first_chunk st s F id start Hok Hid Hpage Hre Hnum i a Hi).
    rewrite (class_ok_free s' i (F i)) by (apply (w_lists _ _ _ Hok3); done).
    rewrite (class_ok_free s i (F i)) by (apply (w_lists _ _ _ Hok); done). tauto.
  - intros i a _ _. by rewrite (sc_mem _ _ Hsc).
Qed.
