(* ===== verification/SlabMove.v ===== *)
(** The mover empties its page without losing an item: [slab_rebalance_move] of
    [extra/KVS-DRAM-Cache/slabs.c], on the invariant of the items. *)

From S2P Require Import Prelude Item Slabs Assoc Items Itoa ItemFrame ItemInv ItemAlloc ItemAllocSpec ItemNew ItemOps SlabRebalance.

(** ** Changes of one chunk *)

(** All chunks in use but [a] stay in use, with the same headers up to the pointers of the
    queues; the pages stay. *)
Record moved (a : Z) (c c' : cache) : Prop := {
  mv_held i b : valid (slab c) i → held (slab c) i b → b ≠ a →
    held (slab c') i b ∧ payload (ith c' b) = payload (ith c b);
  mv_shape : same_shape (slab c) (slab c')
}.

Lemma moved_refl a c : moved a c c.
Proof. done. Qed.

Lemma moved_trans a c1 c2 c3 : moved a c1 c2 → moved a c2 c3 → moved a c1 c3.
Proof.
  intros [A1 A2] [B1 B2]. split; [|by eapply same_shape_trans]. intros i b Hi Hb Hne.
  destruct (A1 i b Hi Hb Hne) as [Hb2 Hp2]. destruct (B1 i b) as [Hb3 Hp3]; [|done..|split; [done|congruence]].
  unfold valid in *. by rewrite (sh_largest _ _ A2).
Qed.

Lemma step_moved a c c' : step c c' a → moved a c c'.
Proof. intros [HF Hh _]. split; [|apply HF]. intros i b Hi Hb Hne. split; [by apply Hh|by apply HF]. Qed.

Section Inv.
Context (st : item_settings) (hash : bytes → Z).
Abbreviation inv := (ItemInv.inv st hash).

(** A chunk in use that is in no queue gets another header; other chunks keep theirs. *)
Lemma header_inv n c L a id h' :
  inv n c L → valid (slab c) id → held (slab c) id a → unqueued L a →
  (∀ i b, valid (slab c) i → chunk (slab c) i b → b ≠ a → hdr h' b = ith c b) →
  (in_use (slab c) a (hdr h' a) → has_flag (hdr h' a) ITEM_LINKED = false ∧ 0 <= refcount (hdr h' a) ∧
     refcount (hdr h' a) + 2 * Z.of_nat n < 2 ^ 16) →
  let c' := with_heap c h' in
  inv n c' L ∧ moved a c c' ∧ (∀ i b, valid (slab c) i → held (slab c') i b ↔ held (slab c) i b) ∧
  (used c' a ↔ in_use (slab c) a (hdr h' a)) ∧ ∀ b, b ≠ a → (used c' b ↔ used c b).
Proof.
  intros HI Hid Hh Hun Hsame Ha c'. pose proof HI as [Hok Hf Hlow Hhigh Hflag].
  assert (∀ i b, (i < LARGEST_ID)%nat → b ∈ L i → used c b ∧ b ≠ a) as HL.
  { intros i b Hi' Hb. destruct (queue_use _ _ Hok i b Hi' Hb) as [Hub _]. split; [done|]. intros ->. by apply (Hun i). }
  assert (∀ b, used c b → b ≠ a → ith c' b = ith c b) as Hi.
  { intros b Hub Hne. apply (Hsame (clsid_of (ith c b))); [apply Hub|apply Hub|done]. }
  destruct (slabs_frame (slab_settings st) (slab c) h') as [Hs Hfr]; [apply Hok|..].
  { intros i b Hi' Hb. apply (Hsame i); [done|by apply (s_chunks _ _ (co_slabs _ _ _ _ _ Hok))|]. intros ->.
    by apply (held_not_free _ _ id i a (co_slabs _ _ _ _ _ Hok)) in Hb. }
  assert (∀ i b, valid (slab c) i → held (slab c') i b ↔ held (slab c) i b) as Hheld.
  { intros i b Hi'. change (slab c') with (with_mem (slab c) h'). unfold held. by rewrite (Hfr i Hi'). }
  assert (∀ b it, in_use (slab c') b it ↔ in_use (slab c) b it) as Huse.
  { intros b it. split; intros [H1 H2 H3 H4 H5]; (split; [done|by apply (Hheld (clsid_of it) b H1)|done..]). }
  assert (∀ b, b ≠ a → used c' b ↔ used c b) as Hother.
  { intros b Hb. unfold used. rewrite Huse. split; intros Hu; [|by rewrite Hi].
    assert (ith c' b = ith c b) as <-; [|done]. apply (Hsame (clsid_of (ith c' b))); [apply Hu|apply Hu|done]. }
  assert (moved a c c') as Hmv.
  { split; [|done]. intros i b Hi' Hb Hne. split; [by apply Hheld|]. f_equal. apply (Hsame i); [done|apply Hb|done]. }
  split_and!; try done; [|by unfold used; rewrite Huse]. pose proof Hok as [O1 O2 O3 O4 O5 O6]. split; [split; try done|done|..].
  - intros i Hi'. destruct (O4 i Hi') as [Q1 Q2 Q3 Q4 Q5]. split; try done.
    + eapply dll_frame; [|exact Q1]. intros b Hb. destruct (HL i b Hi' Hb) as [Hub Hb']. pose proof (Hi b Hub Hb') as E.
      unfold ith in E. by rewrite E.
    + intros b Hb. destruct (HL i b Hi' Hb) as [Hub Hb']. rewrite Hi by done. split; [by apply Huse|apply (Q5 b Hb)].
  - intros i b Hi' Hb HX. destruct (HL i b Hi' Hb) as [Hub Hb']. rewrite Hi by done. by apply (O5 i).
  - intros k e Hk He. destruct (O6 k e Hk He) as (i & Hi' & Hin & Hkey). exists i. destruct (HL i _ Hi' Hin) as [Hub Hb'].
    by rewrite Hi.
  - intros b Hb. destruct (decide (b = a)) as [->|Hne].
    + destruct Ha as (Hl & Hr & _); [by apply Huse|]. unfold extra, is_linked. change (ith c' a) with (hdr h' a). rewrite Hl. lia.
    + apply Hother in Hb; [|done]. unfold extra, is_linked. rewrite Hi by done. by apply Hlow.
  - intros b Hb. destruct (decide (b = a)) as [->|Hne]; [by apply Ha, Huse|].
    apply Hother in Hb; [|done]. rewrite Hi by done. by apply Hhigh.
  - intros b Hb. destruct (decide (b = a)) as [->|Hne].
    + destruct Ha as (Hl & _); [by apply Huse|]. unfold is_linked. change (ith c' a) with (hdr h' a). by rewrite Hl.
    + apply Hother in Hb; [|done]. unfold is_linked. rewrite Hi by done. by apply Hflag.
Qed.

Lemma unused_unqueued n c L a : inv n c L → ¬ used c a → unqueued L a.
Proof. intros HI Hu i Hi Ha. apply Hu. by apply (queue_use _ _ (v_ok _ _ _ _ _ HI) i). Qed.

(** A header that no item in use has. *)
Lemma not_use_cleared s a it : it_flags it = CLEARED → ¬ in_use s a it.
Proof. intros Hf [_ _ Hs _ _]. unfold has_flag in Hs. by rewrite Hf in Hs. Qed.

(** A chunk in use that is no item is marked as done with. *)
Lemma clear_inv n c L a id :
  inv n c L → valid (slab c) id → held (slab c) id a → ¬ used c a →
  let c' := set_item c a clear_mark in
  inv n c' L ∧ moved a c c' ∧ (∀ i b, valid (slab c) i → held (slab c') i b ↔ held (slab c) i b) ∧
  it_flags (ith c' a) = CLEARED ∧ ∀ b, used c' b ↔ used c b.
Proof.
  intros HI Hid Hh Hnu c'. assert (it_flags (ith c' a) = CLEARED) as Hcl by (unfold c'; by rewrite ith_set_eq).
  destruct (header_inv n c L a id (mem_of_cache c') HI Hid Hh) as (HI' & Hm & Hh' & Hu & Ho).
  { by eapply unused_unqueued. }
  { intros i b Hi Hb Hne. by apply hdr_upd_ne. }
  { intros Hu. exfalso. eapply not_use_cleared; [|exact Hu]. exact Hcl. }
  split_and!; try done. intros b. destruct (decide (b = a)) as [->|Hne]; [|by apply Ho].
  split; [|done]. intros Hu'. exfalso. by eapply not_use_cleared.
Qed.

(** The count of requested bytes does not matter. *)
Lemma requested_inv n c L id f :
  inv n c L → (id < 64)%nat →
  let c' := with_slab c (upd_requested (slab c) id f) in
  inv n c' L ∧ moved 0 c c' ∧ (∀ i b, held (slab c') i b ↔ held (slab c) i b) ∧ ∀ b, used c' b ↔ used c b.
Proof.
  intros HI Hid c'. pose proof HI as [Hok Hf Hlow Hhigh Hflag]. pose proof (co_slabs _ _ _ _ _ Hok) as Hs.
  assert (id < length (slabclass (slab c)))%nat as Hlt by (rewrite (p_count _ _ (s_pages _ _ Hs)); unfold MAX_NUMBER_OF_SLAB_CLASSES; lia).
  set (s' := upd_requested (slab c) id f).
  assert (same_pages (slab c) s') as Hsp by (apply same_pages_with_class; done).
  assert (∀ i, slots (cls s' i) = slots (cls (slab c) i) ∧ sl_curr (cls s' i) = sl_curr (cls (slab c) i)) as Hsl.
  { intros i. unfold s', upd_requested. destruct (decide (id = i)) as [<-|]; [by rewrite cls_set_eq|by rewrite cls_set_ne]. }
  assert (∀ i, free_list s' i = free_list (slab c) i) as Hfree.
  { intros i. unfold free_list. by destruct (Hsl i) as [-> ->]. }
  assert (∀ i b, chunk s' i b ↔ chunk (slab c) i b) as Hch by (intros; apply (same_chunk (proj1 Hsp))).
  assert (∀ i b, held s' i b ↔ held (slab c) i b) as Hheld by (intros; unfold held; by rewrite Hfree, Hch).
  assert (∀ b it, in_use s' b it ↔ in_use (slab c) b it) as Huse.
  { intros b it. split; intros [H1 H2 H3 H4 H5]; (split; [done|by apply Hheld|done..]). }
  assert (slabs_ok (slab_settings st) s') as Hs'.
  { apply (ok_with_slabs_ok _ s' (free_list (slab c))). destruct Hs as [Hl Hp Hc]. split.
    - apply (lists_ok_frame (slab c)); [done| |done]. intros i _ [D1 D2 D3 D4 D5]. destruct (Hsl i) as [E1 E2].
      split; rewrite ?E1, ?E2; done.
    - apply (same_pages_ok _ (proj1 Hsp)); [|done]. intros i. apply (same_pages_list (slab c)); [done|]. apply (p_list _ _ Hp).
    - intros i b Hi Hb. apply Hch. by apply Hc. }
  assert (same_shape (slab c) s') as Hsh.
  { split; [done|..]; [|intros i b _; apply Hch|intros i k p _; apply (sv_page _ _ (proj1 Hsp))]. intros i _. unfold shape.
    by destruct (sv_class _ _ (proj1 Hsp) i) as (-> & -> & ->). }
  split_and!; [|split; [intros i b _ Hb _; split; [by apply Hheld|done]|done]|done|intros b; apply Huse].
  destruct Hok as [O1 O2 O3 O4 O5 O6]. split; [split; try done|by eapply fits_shape|..].
  - intros i Hi. destruct (O4 i Hi) as [Q1 Q2 Q3 Q4 Q5]. split; try done. intros b Hb. destruct (Q5 b Hb). split; [by apply Huse|done].
  - intros b Hb%Huse. by apply Hlow.
  - intros b Hb%Huse. by apply Hhigh.
  - intros b Hb%Huse. by apply Hflag.
Qed.

Lemma class_shape s id sl n rq h :
  let p := cls s id in
  same_shape s (with_mem (with_class s id (mkClass (size p) (perslab p) sl n (slabs p) (slab_list p) (list_size p) rq)) h).
Proof. intros p. set (q := mkClass _ _ _ _ _ _ _ _). by destruct (same_shape_class s id q) as [H1 H2 H3 H4]; split. Qed.

(** A chunk [a] leaves the free list. *)
Lemma take_inv n c L s' id a :
  inv (S n) c L → slabs_ok (slab_settings st) s' → grown (slab c) s' → same_shape (slab c) s' →
  (∀ i b, valid (slab c) i → held s' i b ↔ held (slab c) i b ∨ (i = id ∧ b = a)) →
  Item.slabs_clsid (hdr (chunks_mem s') a) = 0 →
  let c' := with_slab c s' in
  inv (S n) c' L ∧ moved 0 c c' ∧ ∀ b, (used c' b ↔ used c b) ∧ (used c b → ith c' b = ith c b).
Proof.
  intros HI Hs' Hg Hsh Hheld Hc c'. destruct (grow_inv _ hash n c L s' HI Hs' Hg) as [HI' Hu].
  { intros i b Hi Hb. apply Hheld; [done|by left]. }
  { intros i b Hi [Hb|[_ ->]]%Hheld; [by left|by right|done]. }
  fold c' in HI', Hu. split_and!; [|split; [|done]|done].
  - pose proof HI as [_ Hf _ Hhigh _]. destruct HI' as [Hok' _ Hlow' _ Hflag']. split; try done; [by eapply fits_shape|].
    intros b Hb%Hu. rewrite (proj2 (Hu b) Hb). by apply Hhigh.
  - intros i b Hi Hb _. split; [apply Hheld; [done|by left]|]. f_equal. by apply (g_hdr _ _ Hg i).
Qed.

(** A chunk from the free list, without a new page. *)
Lemma pop_inv n c L sz id :
  inv (S n) c L → valid (slab c) id → sz <= size (cls (slab c) id) →
  ∃ s' a rq, do_slabs_alloc (slab_settings st) (slab c) sz id true (mkOs true 0) = Some (s', a, rq) ∧
    let c' := with_slab c s' in
    if a =? 0 then c' = c ∧ free_list (slab c) id = []
    else inv (S n) c' L ∧ taken_from c c' id a ∧ moved 0 c c' ∧ a ∈ free_list (slab c) id.
Proof.
  intros HI Hid Hsz. pose proof HI as [Hok Hf Hlow Hhigh Hflag]. pose proof (co_slabs _ _ _ _ _ Hok) as Hs.
  destruct (slabs_alloc_ok (slab_settings st) (slab c) sz id true (mkOs true 0) Hs Hid Hsz) as (s' & a & E & Hs' & Hg & Hcase);
    [by eapply fits_room|by left|].
  exists s', a, (requested (cls (slab c) id)). split; [done|]. intros c'.
  assert (same_shape (slab c) s' ∧ (a = 0 → s' = slab c)) as [Hsh H0].
  { revert E. unfold do_slabs_alloc. destruct (_ || _); [by intros [= <- <-]|]. destruct (negb _); [done|].
    destruct (_ <? _); [done|]. rewrite andb_false_r. cbn [mbind option_bind]. unfold pop_free.
    fold (cls (slab c) id). destruct (Z.eqb_spec (sl_curr (cls (slab c) id)) 0) as [H0|H0]; cbn [negb]; [by intros [= <- <-]|].
    intros [= <- <-]. split; [apply class_shape|]. intros Hz. exfalso.
    pose proof (l_class _ _ (s_lists _ _ Hs) id Hid) as [Hd Hc _ _ _].
    destruct (free_list (slab c) id) as [|b l] eqn:EF; [simpl in Hc; lia|].
    apply (dll_nonzero _ _ _ _ 0 Hd); [|done]. apply dll_head in Hd. simpl in Hd. rewrite <-Hz, Hd. by left. }
  destruct (Z.eqb_spec a 0) as [Ha|Ha].
  - destruct Hcase as (_ & Hnil & _). unfold c'. rewrite (H0 Ha) in *. split; [by destruct c|done].
  - destruct Hcase as (_ & Hap & Hheld & Hfl & Hr & Hc).
    destruct (take_inv n c L s' id a HI Hs' Hg Hsh Hheld Hc) as (HI' & Hmv & Hu). fold c' in HI', Hmv, Hu.
    split_and!; [done| |done|].
    + split; try done; [|apply Hu..]. split; [apply Hg|]. intros i Hi; by apply (g_class _ _ Hg i Hi).
    + destruct (decide (a ∈ free_list (slab c) id)) as [|Hn]; [done|exfalso].
      assert (chunk (slab c) id a) as Hca.
      { apply (sh_chunk _ _ Hsh); [done|]. assert (held s' id a) as [? _]; [|done]. apply Hheld; [done|by right]. }
      destruct (p_size _ _ (s_pages _ _ Hs) id Hid) as [? _]. destruct (Hap id a Hid (conj Hca Hn)); lia.
Qed.

(** The chunk of an item that nothing refers to any more is freed. *)
Lemma free_inv n c L a sz :
  inv n c L → used c a → is_linked c a = false →
  ∃ s', do_slabs_free (slab_settings st) (slab c) a sz (clsid_of (ith c a)) = Some s' ∧
    let c' := with_slab c s' in inv n c' L ∧ step c c' a ∧ table c' = table c ∧ ¬ held s' (clsid_of (ith c a)) a.
Proof.
  intros HI Hu Hl. pose proof HI as [Hok Hf Hlow Hhigh Hflag].
  assert (unqueued L a) as Hun by (eapply unlinked_unqueued; [exact Hok|exact Hl]).
  destruct (free_chunk_ok st hash c L [] a sz Hok Hu Hun) as (s' & E & Hok' & Hfr & Hot); [by eapply fits_free_room|].
  exists s'. split; [done|]. intros c'.
  assert (frame c c' a) as HF by (eapply slabs_free_frame; [apply (u_chunked _ _ _ Hu)|exact E]).
  assert (¬ used c' a) as Hnu by (eapply slabs_freed; [apply (u_chunked _ _ _ Hu)|exact E]).
  assert (step c c' a) as HS by by eapply step_freed. split_and!; try done; [eapply inv_step; [exact HI|done|done|done|done]|].
  destruct Hfr as [_ Hh]. rewrite Hh by apply Hu. by intros [_ []].
Qed.

(** A free chunk is cut out of its list. *)
Lemma cut_inv n c L id a :
  inv (S n) c L → valid (slab c) id → a ∈ free_list (slab c) id →
  ∃ c', slab_rebalance_cut_free c id a = Some c' ∧ inv (S n) c' L ∧ moved 0 c c' ∧ table c' = table c ∧
    (∀ i b, valid (slab c) i → held (slab c') i b ↔ held (slab c) i b ∨ (i = id ∧ b = a)) ∧
    payload (ith c' a) = payload (ith c a) ∧ ∀ b, used c' b ↔ used c b.
Proof.
  intros HI Hid Ha. pose proof (co_slabs _ _ _ _ _ (v_ok _ _ _ _ _ HI)) as Hs. pose proof Hs as [Hl Hp Hc].
  pose proof (l_class _ _ Hl id Hid) as Hcl. destruct (list_elem_of_split _ _ Ha) as (l1 & l2 & HL).
  rewrite HL in Hcl. pose proof Hcl as [Hd Hn Hw Hnd Hsl].
  assert (0 ∉ l1 ++ a :: l2) as H0 by (intros Hz; by apply (dll_nonzero _ _ _ _ 0 Hd)).
  destruct (dll_not_self _ _ _ _ _ _ Hnd H0 Hd) as [Hna Hpa].
  destruct (Hsl a) as [Hfa Hca]; [set_solver|].
  unfold slab_rebalance_cut_free. change (ith c a) with (hdr (chunks_mem (slab c)) a). rewrite Hfa, Z.eqb_refl. cbn [assert_ mbind option_bind].
  set (s' := with_class _ _ _). exists (with_slab c s'). split; [done|].
  assert (Hlt : (id < length (slabclass (slab c)))%nat) by by eapply valid_lt.
  assert (Hpay : ∀ b, payload (hdr (chunks_mem s') b) = payload (hdr (chunks_mem (slab c)) b)) by (intros b; by apply cut_payload).
  assert (Hhd : ∀ b, b ∉ l1 ++ a :: l2 → hdr (chunks_mem s') b = hdr (chunks_mem (slab c)) b).
  { intros b Hb. by apply (cut_other _ (slots (cls (slab c) id)) l1 a l2). }
  assert (Hcls : cls s' id = mkClass (size (cls (slab c) id)) (perslab (cls (slab c) id))
    (after_cut (slots (cls (slab c) id)) a (next (hdr (chunks_mem (slab c)) a))) (u32 (sl_curr (cls (slab c) id) - 1))
    (slabs (cls (slab c) id)) (slab_list (cls (slab c) id)) (list_size (cls (slab c) id)) (requested (cls (slab c) id)))
    by (by apply cls_set_eq).
  assert (Hcne : ∀ i, i ≠ id → cls s' i = cls (slab c) i) by (intros i Hi; apply (cls_set_ne (with_mem (slab c) (cut a (chunks_mem (slab c)))) id i); congruence).
  set (F := set_list (free_list (slab c)) id (l1 ++ l2)).
  assert (Hl' : lists_ok s' F).
  { split.
    - intros i Hi. unfold F, set_list. case_decide as Hd'.
      + subst i. assert (∀ b, b ∈ l1 ++ l2 → b ∈ l1 ++ a :: l2) as Hsub by set_solver.
        assert (length (l1 ++ a :: l2) = S (length (l1 ++ l2))) as Elen by (rewrite !length_app; simpl; lia).
        split; rewrite ?Hcls; cbn [slots sl_curr].
        * by apply cut_dll_at.
        * rewrite Hn, Elen. unfold u32. rewrite Z.mod_small; lia.
        * lia.
        * rewrite list.NoDup_app in Hnd |- *. rewrite list.NoDup_cons in Hnd. set_solver.
        * intros b Hb. destruct (payload_flags _ _ (Hpay b)) as [-> ->]. by apply Hsl, Hsub.
      + eapply class_ok_frame; [by apply Hcne| |by apply Hl]. intros b Hb. apply Hhd. rewrite <-HL. by apply (l_apart _ _ Hl i id).
    - intros i j b Hi Hj Hij. unfold F, set_list.
      assert (∀ b, b ∈ l1 ++ l2 → b ∈ free_list (slab c) id) as Hsub by (rewrite HL; set_solver).
      repeat case_decide; subst; try done.
      + intros Hb%Hsub. by apply (l_apart _ _ Hl id j).
      + intros Hb Hb'%Hsub. by apply (l_apart _ _ Hl i id b).
      + by apply (l_apart _ _ Hl i j). }
  assert (same_shape (slab c) s') as Hsh by apply (class_shape (slab c) id).
  assert (same_pages (slab c) s') as Hsp.
  { eapply same_pages_trans; [apply (same_pages_with_mem _ (cut a (chunks_mem (slab c))))|]. by apply same_pages_with_class. }
  assert (Hs' : slabs_ok (slab_settings st) s').
  { apply (ok_with_slabs_ok _ s' F). split; [done|..].
    - apply (same_pages_ok _ (proj1 Hsp)); [|done]. intros i. apply (same_pages_list (slab c)); [done|]. apply (p_list _ _ Hp).
    - intros i b Hi Hb. apply (sh_chunk _ _ Hsh); [done|]. apply Hc; [done|]. revert Hb. unfold F, set_list.
      case_decide; [subst; rewrite HL; set_solver|done]. }
  assert (Hheld : ∀ i b, valid (slab c) i → held s' i b ↔ held (slab c) i b ∨ (i = id ∧ b = a)).
  { intros i b Hi. unfold held. rewrite (sh_chunk _ _ Hsh) by done.
    rewrite (class_ok_free s' i (F i)) by (apply Hl'; done). unfold F, set_list. case_decide as Hi'.
    - subst i. rewrite HL. assert (a ∉ l1 ++ l2) as Han.
      { rewrite list.NoDup_app in Hnd. rewrite list.NoDup_cons in Hnd. set_solver. }
      assert (chunk (slab c) id a) as Hcha by by apply Hc.
      rewrite !elem_of_app, elem_of_cons. rewrite elem_of_app in Han. destruct (decide (b = a)) as [->|]; tauto.
    - naive_solver. }
  assert (grown (slab c) s') as Hg.
  { split; [done|..].
    - intros i Hi. pose proof (sh_class _ _ Hsh i Hi) as E. unfold shape in E. injection E as E1 E2 E3. rewrite E1, E2, E3. split_and!; [done..|lia|lia].
    - intros i b Hi Hb. apply Hhd. rewrite <-HL. by eapply held_not_free. }
  destruct (take_inv n c L s' id a HI Hs' Hg Hsh Hheld) as (HI' & Hmv & Hu).
  { destruct (payload_flags _ _ (Hpay a)) as [_ ->]. done. }
  split_and!; try done; [apply Hpay|apply Hu].
Qed.
End Inv.

(** ** The page *)

Definition sid (r : slab_rebalance) : nat := Z.to_nat (s_clsid r).

(** The first page of the class is being emptied. *)
Record at_page (s : slab_state) (r : slab_rebalance) : Prop := {
  ap_valid : valid s (sid r);
  ap_page : page s (sid r) 0 (slab_start r);
  ap_end : slab_end r = slab_start r + size (cls s (sid r)) * perslab (cls s (sid r))
}.

Definition in_range (r : slab_rebalance) (a : Z) : Prop := slab_start r <= a < slab_end r.

Definition cleared (c : cache) (a : Z) : Prop := it_flags (ith c a) = CLEARED.

(** The counters may change, and the place of the mover. *)
Definition same_page (r r' : slab_rebalance) : Prop :=
  slab_start r' = slab_start r ∧ slab_end r' = slab_end r ∧ s_clsid r' = s_clsid r ∧ d_clsid r' = d_clsid r ∧
  done_ r' = done_ r.

Lemma shape_size s s' i : same_shape s s' → valid s i → size (cls s' i) = size (cls s i) ∧ perslab (cls s' i) = perslab (cls s i).
Proof. intros Hs Hi. pose proof (sh_class _ _ Hs i Hi) as E. unfold shape in E. by injection E. Qed.

Lemma at_page_shape s s' r r' : same_shape s s' → same_page r r' → at_page s r → at_page s' r'.
Proof.
  intros Hs (E1 & E2 & E3 & _) [H1 H2 H3]. assert (sid r' = sid r) as E by (unfold sid; by rewrite E3).
  destruct (shape_size _ _ _ Hs H1) as [Ea Eb].
  split; rewrite E, ?E1, ?E2; [unfold valid; by rewrite (sh_largest _ _ Hs)|by apply (sh_page _ _ Hs)|by rewrite Ea, Eb].
Qed.

Lemma free_or_held s i b : chunk s i b → b ∈ free_list s i ∨ held s i b.
Proof. intros H. destruct (decide (b ∈ free_list s i)); [by left|by right]. Qed.

(** A chunk that was not in use may change. *)
Lemma moved_free a c c1 c2 :
  moved 0 c c1 → moved a c1 c2 → (∀ i, valid (slab c) i → ¬ held (slab c) i a) → moved 0 c c2.
Proof.
  intros [A1 A2] [B1 B2] Hn. split; [|by eapply same_shape_trans]. intros i b Hi Hb H0.
  destruct (A1 i b Hi Hb H0) as [Hb1 Hp1]. destruct (B1 i b) as [Hb2 Hp2]; [|done| |split; [done|congruence]].
  - unfold valid in *. by rewrite (sh_largest _ _ A2).
  - intros ->. by apply (Hn i Hi).
Qed.

Lemma moved_cleared a c c' i b :
  moved a c c' → valid (slab c) i → held (slab c) i b → b ≠ a → cleared c b → cleared c' b.
Proof.
  intros Hm Hi Hb Hne. unfold cleared. intros E. destruct (mv_held _ _ _ Hm i b Hi Hb Hne) as [_ Hp].
  etrans; [exact (f_equal it_flags Hp)|done].
Qed.

Section Move.
Context (st : alloc_settings) (hash : bytes → Z) (now : Z) (trylock : Z → bool).
Abbreviation inv := (ItemInv.inv (item_st st) hash).
Abbreviation sst := (slab_settings (item_st st)).

Lemma held_nonzero n c L i b : inv n c L → valid (slab c) i → held (slab c) i b → b ≠ 0.
Proof. intros HI Hi [Hb _]. eapply chunk_nonzero; [apply (v_ok _ _ _ _ _ HI)|done|done]. Qed.

(** A free chunk that is in the page is still free, or is done with. *)
Definition page_free (r : slab_rebalance) (c c' : cache) : Prop :=
  ∀ b, b ∈ free_list (slab c) (sid r) → in_range r b → b ∈ free_list (slab c') (sid r) ∨ cleared c' b ∧ held (slab c') (sid r) b.

(** What the search for a free chunk outside the page leaves behind. *)
Record searched (k n : nat) (r : slab_rebalance) (c : cache) (L : nat → list Z) (c' : cache) (new : Z) : Prop := {
  sr_inv : inv (S n) c' L;
  sr_moved : moved 0 c c';
  sr_table : table c' = table c;
  sr_used b : (used c' b ↔ used c b) ∧ (used c b → ith c' b = ith c b);
  sr_page : page_free r c c';
  sr_new : new ≠ 0 → held (slab c') (sid r) new ∧ ¬ in_range r new ∧ ¬ used c' new ∧ it_flags (ith c' new) = 0 ∧
    new ∈ free_list (slab c) (sid r);
  sr_none : new = 0 → (∀ b, b ∈ free_list (slab c) (sid r) → in_range r b) ∨
    ∃ P, NoDup P ∧ length P = k ∧ ∀ b, b ∈ P → b ∈ free_list (slab c) (sid r) ∧ in_range r b
}.

Lemma alloc_loop_ok k n r c L sz :
  inv (S n) c L → at_page (slab c) r → sz <= size (cls (slab c) (sid r)) →
  ∃ c' r' new, alloc_loop st k c r sz (sid r) = Some (c', r', new) ∧ searched k n r c L c' new ∧
    same_page r r' ∧ slab_pos r' = slab_pos r ∧ busy_items r' = busy_items r ∧ busy_loops r' = busy_loops r.
Proof.
  revert r c. induction k as [|k IH]; intros r c HI Hp Hsz; cbn [alloc_loop].
  { exists c, r, 0. split_and!; try done. split; try done; [intros b Hb _; by left|]. intros _. right. exists [].
    split_and!; [apply NoDup_nil_2|done|]. intros b Hb. by apply elem_of_nil in Hb. }
  pose proof (ap_valid _ _ Hp) as Hid.
  destruct (pop_inv _ hash n c L sz (sid r) HI Hid Hsz) as (s1 & a & rq & -> & Hcase). cbn [mbind option_bind].
  destruct (Z.eqb_spec a 0) as [Ha|Ha].
  { exists c, r, 0. cbv zeta in Hcase. destruct Hcase as [-> Hnil]. split_and!; try done. split; try done; [intros b Hb _; by left|].
    intros _. left. rewrite Hnil. intros b Hb. by apply elem_of_nil in Hb. }
  set (c1 := with_slab c s1) in *. destruct Hcase as (HI1 & [T1 T2 T3 T4 T5 T6 T7] & Hm1 & Hfr).
  assert (¬ used c a) as Hnu.
  { intros Hu. by apply (use_not_free _ _ (v_ok _ _ _ _ _ HI) a (sid r) Hu Hid). }
  assert (∀ i, valid (slab c) i → ¬ held (slab c) i a) as Hnh.
  { intros i Hi Hh. apply (held_not_free _ _ i (sid r) a (co_slabs _ _ _ _ _ (v_ok _ _ _ _ _ HI)) Hi Hid Hh Hfr). }
  assert (held s1 (sid r) a) as Hh1 by (apply T3; [done|by right]).
  assert (valid s1 (sid r)) as Hid1.
  { pose proof (sh_largest _ _ (mv_shape _ _ _ Hm1)) as E. change (slab c1) with s1 in E. unfold valid in *. by rewrite E. }
  assert (∀ b, b ∈ free_list (slab c) (sid r) → b ≠ a → b ∈ free_list s1 (sid r)) as Hfree1.
  { intros b Hb Hne. destruct (free_or_held s1 (sid r) b) as [|Hhb]; [|done|].
    - apply (sh_chunk _ _ (mv_shape _ _ _ Hm1)); [done|]. by apply (s_chunks _ _ (co_slabs _ _ _ _ _ (v_ok _ _ _ _ _ HI))).
    - apply T3 in Hhb as [[_ Hn]|[_ Hn]]; done. }
  destruct ((slab_start r <=? a) && (a <? slab_end r)) eqn:Er.
  2: { exists c1, r, a. split_and!; try done. split; try done.
       - intros b. split; [apply T5|apply T6].
       - intros b Hb Hr. left. apply Hfree1; [done|]. intros ->. unfold in_range in Hr. lia.
       - intros _. split_and!; try done; [unfold in_range; lia|by rewrite T5|apply T7]. }
  assert (in_range r a) as Hra by (unfold in_range; lia).
  destruct (requested_inv _ hash (S n) c1 L (sid r) (λ q, q - sz) HI1) as (HI2 & Hm2 & Hh2 & Hu2);
    [exact (valid_small st hash (S n) c1 L (sid r) HI1 Hid1)|].
  fold (sid r). set (c2 := with_slab c1 _) in *.
  assert (valid (slab c2) (sid r)) as Hid2 by done.
  assert (held (slab c2) (sid r) a) as Hha2 by by apply Hh2.
  assert (¬ used c2 a) as Hnu2 by (rewrite Hu2, T5; done).
  destruct (clear_inv _ hash (S n) c2 L a (sid r) HI2 Hid2 Hha2 Hnu2) as (HI3 & Hm3 & Hh3 & Hcl & Hu3).
  set (c3 := set_item c2 a clear_mark) in *.
  assert (moved 0 c c3) as Hm13.
  { eapply moved_free; [|exact Hm3|done]. by eapply moved_trans. }
  set (r3 := mkRebal _ _ _ _ _ _ _ _ _ _ _ _ _).
  assert (same_page r r3) as Hsp by done.
  assert (at_page (slab c3) r3) as Hp3 by (by eapply at_page_shape; [apply Hm13|..]).
  destruct (IH r3 c3 HI3 Hp3) as (c' & r' & new & E & [S1 S2 S3 S4 S5 S6 S7] & Hsp' & Hpos & Hbusy & Hloops).
  { change (sid r3) with (sid r). by rewrite (proj1 (shape_size _ _ _ (mv_shape _ _ _ Hm13) Hid)). }
  assert (∀ b, (used c3 b ↔ used c b) ∧ (used c b → ith c3 b = ith c b)) as Hu13.
  { intros b. rewrite Hu3, Hu2, T5. split; [done|]. intros Hu. unfold c3. rewrite ith_set_ne by (intros ->; done).
    change (ith c2 b) with (ith c1 b). by apply T6. }
  assert (∀ b, b ∈ free_list (slab c) (sid r) → b ≠ a → b ∈ free_list (slab c3) (sid r)) as Hfree3.
  { intros b Hb Hne. destruct (free_or_held (slab c3) (sid r) b) as [|Hhb]; [|done|].
    - apply (sh_chunk _ _ (mv_shape _ _ _ Hm13)); [done|]. by apply (s_chunks _ _ (co_slabs _ _ _ _ _ (v_ok _ _ _ _ _ HI))).
    - apply Hh3, Hh2 in Hhb; [|done]. destruct Hhb as [_ Hn]. destruct Hn. by apply Hfree1. }
  assert (∀ b, b ∈ free_list (slab c3) (sid r) → b ∈ free_list (slab c) (sid r) ∧ b ≠ a) as Hback.
  { intros b Hb. assert (held (slab c3) (sid r) a) as Hha3 by by apply Hh3. split; [|intros ->; by apply Hha3].
    assert (chunk (slab c) (sid r) b) as Hcb.
    { apply (sh_chunk _ _ (mv_shape _ _ _ Hm13)); [done|]. by apply (s_chunks _ _ (co_slabs _ _ _ _ _ (v_ok _ _ _ _ _ HI3))). }
    destruct (free_or_held _ _ _ Hcb) as [|Hhb]; [done|exfalso].
    assert (held s1 (sid r) b) as Hb1 by (apply T3; [done|by left]). assert (held (slab c3) (sid r) b) as [_ Hn]; [|done].
    apply Hh3; [done|]. by apply Hh2. }
  exists c', r', new. split_and!; try done. split; try done.
  - by eapply moved_trans.
  - intros b. destruct (S4 b) as [A B], (Hu13 b) as [A' B']. split; [by rewrite A|]. intros Hu.
    rewrite (B (proj2 A' Hu)). by apply B'.
  - intros b Hb Hr. destruct (decide (b = a)) as [->|Hne].
    + right. assert (held (slab c3) (sid r) a) as Hha3 by by apply Hh3. split.
      * eapply (moved_cleared 0 c3 c'); [done| |exact Hha3| |done]; [done|]. by eapply (held_nonzero (S n) c3).
      * apply (mv_held _ _ _ S2); [done|exact Hha3|by eapply (held_nonzero (S n) c3)].
    + apply (S5 b); [|done]. by apply Hfree3.
  - intros Hnew. destruct (S6 Hnew) as (N1 & N2 & N3 & N4 & N5). split_and!; try done.
    destruct (free_or_held (slab c) (sid r) new) as [|Hhn]; [|done|].
    + apply (sh_chunk _ _ (mv_shape _ _ _ Hm13)); [done|]. by apply (s_chunks _ _ (co_slabs _ _ _ _ _ (v_ok _ _ _ _ _ HI3))).
    + exfalso. destruct (mv_held _ _ _ Hm13 (sid r) new Hid Hhn Hnew) as [[_ Hn] _]. done.
  - intros Hnew. destruct (S7 Hnew) as [Hall|(P & Hnd & Hlen & HP)].
    + left. intros b Hb. destruct (decide (b = a)) as [->|Hne]; [done|]. by apply Hall, Hfree3.
    + right. exists (a :: P). split_and!; [constructor; [|done]; intros Ha'; by destruct (Hback a (proj1 (HP a Ha')))|simpl; lia|].
      intros b [->|Hb]%elem_of_cons; [done|]. destruct (HP b Hb) as [Hb1 Hb2]. by split; [apply Hback|].
Qed.

(** ** An item moves *)

Lemma hdr_copy_out from to n h b : ¬ (to <= b < to + n) → hdr (copy_range from to n h) b = hdr h b.
Proof.
  intros Hb. unfold hdr, copy_range. rewrite lookup_union_r.
  - rewrite map_lookup_filter. destruct (h !! b); simpl; [|done]. by rewrite option_guard_True.
  - apply lookup_kmap_None; [intros x y; lia|]. intros i ->. apply map_lookup_filter_None_2. right. intros x _. lia.
Qed.

Lemma hdr_copy_to from to n h : 0 < n → hdr (copy_range from to n h) to = hdr h from.
Proof.
  intros Hn. unfold hdr, copy_range. assert (Inj (=) (=) (λ a, a - from + to)) as Hi by (intros x y; lia).
  destruct (h !! from) as [i|] eqn:E.
  - rewrite (lookup_union_Some_l _ _ to i); [done|]. apply (lookup_kmap_Some _). exists from. split; [lia|].
    apply map_lookup_filter_Some. split; [done|lia].
  - rewrite lookup_union_r; [rewrite (proj2 (map_lookup_filter_None _ _ _)); [done|right; intros x _; lia]|].
    apply (lookup_kmap_None _). intros i Hi'. assert (i = from) as -> by lia. apply map_lookup_filter_None_2. by left.
Qed.

Lemma link_exptime c a hv c' : do_item_link (item_st st) now c a hv = Some c' → exptime (ith c' a) = exptime (ith c a).
Proof.
  unfold do_item_link. intros [_ H]%assert_some. cbv zeta in H.
  destruct (if use_cas _ then _ else _) as [c1 v] eqn:E1.
  assert (exptime (ith c1 a) = exptime (ith c a)) as Ex.
  { destruct (use_cas _); injection E1 as <- _; unfold ith, mem_of_cache; cbn; by rewrite hdr_upd_eq. }
  destruct (do_item_link_q _ a) as [c2|] eqn:E2; [|done]. injection H as <-.
  destruct (link_q_payload _ _ _ E2) as [Hp _]. unfold refcount_incr. rewrite ith_set_eq. cbn [exptime set_refcount].
  etrans; [exact (f_equal exptime (Hp a))|]. rewrite <-Ex. change (ith (with_table ?x _) a) with (ith x a).
  rewrite ith_set_eq. unfold ITEM_set_cas. by destruct (has_flag _ _).
Qed.

(** What the copy of an item has in common with it. *)
Definition same_item (it it' : stritem) : Prop :=
  key it' = key it ∧ nbytes it' = nbytes it ∧ exptime it' = exptime it.

(** The item at [a] has moved to [new]: the key leads there, and the old chunk is done with. *)
Record rescued (id : nat) (a new : Z) (c c' : cache) : Prop := {
  re_held i b : valid (slab c) i → held (slab c) i b → b ≠ a → b ≠ new →
    held (slab c') i b ∧ payload (ith c' b) = payload (ith c b);
  re_shape : same_shape (slab c) (slab c');
  re_cleared : cleared c' a ∧ held (slab c') id a;
  re_map : amap (table c') = <[key (ith c a) := mkItem (key (ith c a)) new]> (amap (table c));
  re_new : used c' new ∧ same_item (ith c a) (ith c' new) ∧ refcount (ith c' new) <= 1;
  re_used b : used c' b → b = new ∨ b ≠ a ∧ used c b;
  re_back i b : valid (slab c) i → held (slab c') i b → held (slab c) i b
}.

Definition copied_header (i : stritem) : stritem :=
  set_refcount 0 (clear_flag ITEM_LINKED (set_h_next 0 (set_next 0 (set_prev 0 i)))).

Lemma copied_use s a b it :
  in_use s a it → held s (clsid_of it) b → in_use s b (copied_header it).
Proof.
  intros [H1 H2 H3 H4 H5] Hb. split; try done.
  - unfold copied_header, has_flag. cbn. change (has_flag (clear_flag ITEM_LINKED it) ITEM_SLABBED = false). by rewrite has_flag_clear_other.
  - change (has_flag (clear_flag ITEM_LINKED it) ITEM_CHUNKED = false). by rewrite has_flag_clear_other.
Qed.

Lemma rescue_ok n c L a id l1 l2 new sz :
  inv (S n) c L → (id < LARGEST_ID)%nat → L id = l1 ++ a :: l2 → refcount (ith c a) = 2 →
  held (slab c) (clsid_of (ith c a)) new → ¬ used c new → it_flags (ith c new) = 0 →
  0 < sz <= size (cls (slab c) (clsid_of (ith c a))) →
  ∃ c' L', rescue_item st now c a new sz (hash (key (ith c a))) = Some c' ∧ inv n c' L' ∧
    rescued (clsid_of (ith c a)) a new c c'.
Proof.
  intros HI Hid HL Hr Hnew Hnu Hnf Hsz. assert (a ∈ L id) as Ha by (rewrite HL, elem_of_app, elem_of_cons; auto).
  destruct (inv_queued _ _ _ c L a id HI Hid Ha) as (Hu & Hl & Hr0 & Ha0 & Hmap).
  set (k := clsid_of (ith c a)) in *. pose proof (u_valid _ _ _ Hu) as Hk. fold k in Hk.
  assert (a ≠ new) as Hne by (intros ->; done).
  pose proof (s_pages _ _ (co_slabs _ _ _ _ _ (v_ok _ _ _ _ _ HI))) as Hpg.
  assert (has_flag (ith c new) ITEM_CHUNKED = false) as Hnc by (unfold has_flag; by rewrite Hnf).
  unfold rescue_item. rewrite Hnc. cbn [negb assert_ mbind option_bind].
  set (h1 := upd new copied_header (copy_range a new sz (mem_of_cache c))).
  assert (∀ i b, valid (slab c) i → chunk (slab c) i b → b ≠ new → hdr h1 b = ith c b) as Hsame.
  { intros i b Hi Hb Hbn. unfold h1. rewrite hdr_upd_ne by done. apply hdr_copy_out.
    destruct (p_size _ _ Hpg i Hi), (p_size _ _ Hpg k Hk).
    destruct (chunks_apart sst (slab c) i k b new Hpg Hi Hk Hb (proj1 Hnew)); [congruence|lia..]. }
  assert (hdr h1 new = copied_header (ith c a)) as Hhn by (unfold h1; rewrite hdr_upd_eq, hdr_copy_to by lia; done).
  assert (in_use (slab c) new (hdr h1 new)) as Hun by (rewrite Hhn; by eapply copied_use).
  destruct (header_inv _ hash (S n) c L new k h1 HI Hk Hnew) as (HI1 & Hm1 & Hh1 & Hu1 & Ho1);
    [by eapply unused_unqueued|done|intros _; rewrite Hhn; split; [apply has_flag_clear_same|cbn; pose proof (v_high _ _ _ _ _ HI a Hu); lia]|].
  change (set_item (with_heap c (copy_range a new sz (mem_of_cache c))) new _) with (with_heap c h1).
  set (c1 := with_heap c h1) in *.
  assert (ith c1 a = ith c a) as Hia by (apply (Hsame k); [done|apply Hu|done]).
  assert (ith c1 new = copied_header (ith c a)) as Hin by exact Hhn.
  assert (used c1 new) as Hun1 by by apply Hu1. assert (used c1 a) as Hua1 by by apply Ho1.
  unfold do_item_replace. rewrite (u_slabbed _ _ _ Hua1). cbn [negb assert_ mbind option_bind].
  destruct (unlink_inv (item_st st) hash (S n) c1 L a id l1 l2 HI1 Hid HL) as (c2 & E2 & HI2 & HS2 & Hmap2 & Hcase).
  rewrite Hia in E2, Hmap2, Hcase. rewrite Hr in Hcase. cbn in Hcase. destruct Hcase as (Hua2 & _ & Hl2).
  rewrite E2. cbn [mbind option_bind].
  assert (used c2 new) as Hun2 by (by apply (step_used _ _ _ _ HS2)).
  destruct (step_fields _ _ _ new HS2) as (_ & Hln2 & _); [done|]. destruct (step_key _ _ _ new HS2) as [Hkn2 Hnb2].
  rewrite Hin in Hkn2, Hnb2. change (key (copied_header (ith c a))) with (key (ith c a)) in Hkn2.
  destruct (link_inv (item_st st) hash now n c2 _ new HI2 Hun2) as (c3 & L3 & E3 & HI3 & HS3 & Hmap3 & Hun3 & Hex3).
  { rewrite Hln2. unfold is_linked. rewrite Hin. apply has_flag_clear_same. }
  { rewrite Hkn2, Hmap2. apply lookup_delete_eq. }
  rewrite Hkn2 in E3, Hmap3. rewrite E3. cbn [mbind option_bind]. rewrite (u_chunked _ _ _ Hun3). cbn [mbind option_bind].
  eexists. assert (used c3 a) as Hua3 by (by apply (step_used _ _ _ _ HS3)).
  assert (same_shape (slab c) (slab c3)) as Hsh3.
  { eapply same_shape_trans; [apply Hm1|]. eapply same_shape_trans; [apply HS2|apply HS3]. }
  assert (∀ i, valid (slab c3) i ↔ valid (slab c) i) as Hv3 by (intros i; unfold valid; by rewrite (sh_largest _ _ Hsh3)).
  assert (unqueued L3 a) as Hun'.
  { eapply unlinked_unqueued; [apply HI3|]. destruct (step_fields _ _ _ a HS3) as (_ & Hla & _); [done|]. unfold is_linked in *. congruence. }
  assert (∀ i b, valid (slab c) i → held (slab c) i b → b ≠ new → held (slab c3) i b ∧ (b ≠ a → payload (ith c3 b) = payload (ith c b))) as Hkeep.
  { intros i b Hi Hb Hbn. assert (valid (slab c1) i) as Hi1 by done.
    assert (valid (slab c2) i) as Hi2 by (unfold valid; by rewrite (sh_largest _ _ (fr_shape _ _ _ (st_frame _ _ _ HS2)))).
    assert (held (slab c2) i b) as Hb2.
    { destruct (decide (b = a)) as [->|Hba]; [|apply (st_held _ _ _ HS2 i b Hi1 Hba), Hh1; done].
      assert (i = clsid_of (ith c2 a)) as ->; [|apply Hua2].
      apply (chunk_class sst (slab c2) _ _ a); [apply (s_pages _ _ (co_slabs _ _ _ _ _ (v_ok _ _ _ _ _ HI2)))|done|apply Hua2| |apply Hua2].
      apply (sh_chunk _ _ (fr_shape _ _ _ (st_frame _ _ _ HS2))); [done|]. apply Hb. }
    split; [by apply (st_held _ _ _ HS3 i b Hi2 Hbn)|]. intros Hba.
    etrans; [by apply (fr_payload _ _ _ (st_frame _ _ _ HS3))|]. etrans; [by apply (fr_payload _ _ _ (st_frame _ _ _ HS2))|].
    f_equal. apply (Hsame i); [done|apply Hb|done]. }
  assert (held (slab c3) k a) as Hha3 by (apply Hkeep; [done|apply Hu|done]).
  destruct (header_inv _ hash n c3 L3 a k (mem_of_cache (set_item c3 a clear_mark)) HI3 (proj2 (Hv3 k) Hk) Hha3 Hun')
    as (HI4 & Hm4 & Hh4 & Hu4 & Ho4).
  { intros i b Hi Hb Hba. by apply hdr_upd_ne. }
  { intros Hu'. exfalso. eapply not_use_cleared; [|exact Hu']. fold (ith (set_item c3 a clear_mark) a). by rewrite ith_set_eq. }
  exists L3. split; [done|]. split; [exact HI4|]. split.
  - intros i b Hi Hb Hba Hbn. destruct (Hkeep i b Hi Hb Hbn) as [Hb3 Hp3].
    destruct (mv_held _ _ _ Hm4 i b) as [Hb4 Hp4]; [by apply Hv3|done|done|]. split; [exact Hb4|]. etrans; [exact Hp4|by apply Hp3].
  - eapply same_shape_trans; [exact Hsh3|apply Hm4].
  - split; [unfold cleared; by rewrite ith_set_eq|]. apply Hh4; [by apply Hv3|done].
  - change (table (set_item c3 a clear_mark)) with (table c3). rewrite Hmap3, Hmap2. by rewrite insert_delete_eq.
  - split; [apply Ho4; done|]. rewrite ith_set_ne by done. destruct (step_key _ _ _ new HS3) as [Hk3 Hn3].
    split; [split_and!; [congruence|rewrite Hn3, Hnb2; done|]|].
    + rewrite (link_exptime _ _ _ _ E3). etrans; [exact (f_equal exptime (fr_payload _ _ _ (st_frame _ _ _ HS2) new (not_eq_sym Hne)))|].
      change (exptime (ith c1 new) = exptime (ith c a)). by rewrite Hin.
    + destruct (step_fields _ _ _ new HS2) as (_ & _ & Hex2); [done|]. rewrite Hex2 in Hex3.
      assert (extra c1 new = 0) as E0.
      { unfold extra, is_linked. rewrite Hin. assert (has_flag (copied_header (ith c a)) ITEM_LINKED = false) as -> by apply has_flag_clear_same. done. }
      rewrite E0 in Hex3. unfold extra in Hex3. destruct (is_linked c3 new); lia.
  - intros b Hb. destruct (decide (b = new)) as [->|Hbn]; [by left|right]. destruct (decide (b = a)) as [->|Hba].
    + apply Hu4 in Hb. exfalso. eapply not_use_cleared; [|exact Hb]. fold (ith (set_item c3 a clear_mark) a). by rewrite ith_set_eq.
    + split; [done|]. apply Ho4 in Hb; [|done]. apply (step_used _ _ _ b HS3 Hbn), (step_used _ _ _ b HS2 Hba) in Hb. by apply Ho1.
  - intros i b Hi Hb. apply Hh4 in Hb; [|by apply Hv3]. apply Hh1; [done|]. apply (st_back _ _ _ HS2); [done|].
    apply (st_back _ _ _ HS3); [unfold valid; by rewrite (sh_largest _ _ (fr_shape _ _ _ (st_frame _ _ _ HS2)))|done].
Qed.
End Move.
