(* ===== verification/SlabMover.v ===== *)
(** The steps of the mover thread of [extra/KVS-DRAM-Cache/slabs.c], one chunk after the other,
    until the page is empty. *)

From S2P Require Import Prelude Item Slabs Assoc Items Itoa ItemFrame ItemInv ItemAlloc ItemAllocSpec ItemNew LruMaintainer ItemOps.
From S2P Require Import SlabRebalance SlabMove.

(** A reference taken and given back. *)
Lemma incr_decr c a :
  used c a → 0 <= refcount (ith c a) < 2 ^ 16 → refcount_decr (refcount_incr c a) a = c.
Proof.
  intros Hu Hr. unfold refcount_decr, refcount_incr. rewrite set_item_twice.
  assert (∃ i, mem_of_cache c !! a = Some i) as [i Hi].
  { destruct (mem_of_cache c !! a) as [i|] eqn:E; [by eexists|exfalso]. pose proof (u_valid _ _ _ Hu) as Hv.
    unfold ith, hdr in Hv. rewrite E in Hv. change (clsid_of (default zero_item None)) with 0%nat in Hv. unfold valid in Hv. lia. }
  assert (ith c a = i) as Ei by (unfold ith, hdr; by rewrite Hi).
  unfold set_item, upd. change (hdr (mem_of_cache c) a) with (ith c a). rewrite insert_id; [by destruct c as [? []]|].
  rewrite Hi, Ei. f_equal. rewrite Ei in Hr. destruct i; cbn in *. unfold set_refcount. cbn. f_equal.
  unfold u16. rewrite Zminus_mod_idemp_l. rewrite Z.mod_small; lia.
Qed.

Section Mover.
Context (st : alloc_settings) (hash : bytes → Z) (now : Z) (trylock : Z → bool).
Abbreviation inv := (ItemInv.inv (item_st st) hash).
Abbreviation sst := (slab_settings (item_st st)).

(** Unlinking leaves the rest of the header. *)
Lemma unlink_header c a hv c' :
  do_item_unlink (item_st st) c a hv = Some c' → used c a → used c' a → has_flag (ith c a) ITEM_LINKED = true →
  payload (set_refcount 0 (ith c' a)) = payload (set_refcount 0 (clear_flag ITEM_LINKED (ith c a))).
Proof.
  unfold do_item_unlink. intros E Hu Hu' Hl. rewrite Hl in E.
  cbv zeta in E. destruct (assoc_delete _ _ _) as [t|]; [|done]. cbn [mbind option_bind] in E.
  destruct (do_item_unlink_q _ a) as [c2|] eqn:E2; [|done]. cbn [mbind option_bind] in E.
  destruct (unlink_q_payload _ _ _ E2) as [Hp _]. specialize (Hp a).
  change (ith (with_table ?x _) a) with (ith x a) in Hp. change (ith (with_stats ?x _ _ _) a) with (ith x a) in Hp.
  rewrite ith_set_eq in Hp.
  revert E. unfold do_item_remove. intros [_ [_ E]%assert_some]%assert_some. destruct (_ =? 0).
  - exfalso. eapply flags_freed; [|exact E|exact Hu']. unfold refcount_decr. rewrite ith_set_eq.
    change (has_flag (payload (ith c2 a)) ITEM_CHUNKED = false). rewrite Hp.
    change (has_flag (clear_flag ITEM_LINKED (ith c a)) ITEM_CHUNKED = false). rewrite has_flag_clear_other by done. apply (u_chunked _ _ _ Hu).
  - injection E as <-. unfold refcount_decr. rewrite ith_set_eq. exact (f_equal (set_refcount 0) Hp).
Qed.

(** An item of which there is nothing but its link and the mover's reference is dropped. *)
Lemma drop_ok n c L a id l1 l2 k :
  inv n c L → (id < LARGEST_ID)%nat → L id = l1 ++ a :: l2 → refcount (ith c a) = 2 → valid (slab c) k → chunk (slab c) k a →
  ∃ c1 s' L', do_item_unlink (item_st st) c a (hash (key (ith c a))) = Some c1 ∧
    do_slabs_free sst (slab c1) a (ITEM_ntotal (ith c1 a)) k = Some s' ∧
    let c' := with_slab c1 s' in inv n c' L' ∧ moved a c c' ∧ a ∈ free_list (slab c') k ∧
    amap (table c') = delete (key (ith c a)) (amap (table c)) ∧
    ∀ i b, valid (slab c) i → held (slab c') i b → held (slab c) i b.
Proof.
  intros HI Hid HL Hr Hk Hch. destruct (unlink_inv (item_st st) hash n c L a id l1 l2 HI Hid HL) as (c1 & E1 & HI1 & HS1 & Hm1 & Hcase).
  rewrite Hr in Hcase. cbn [Z.eqb Pos.eqb] in Hcase. destruct Hcase as (Hu1 & _ & Hl1).
  pose proof (fr_shape _ _ _ (st_frame _ _ _ HS1)) as Hsh1.
  assert (valid (slab c1) k) as Hk1 by (unfold valid in *; by rewrite (sh_largest _ _ Hsh1)).
  assert (clsid_of (ith c1 a) = k) as <-.
  { apply (chunk_class sst (slab c1) _ _ a); [apply (s_pages _ _ (co_slabs _ _ _ _ _ (v_ok _ _ _ _ _ HI1)))|apply Hu1|done|apply Hu1|].
    by apply (sh_chunk _ _ Hsh1). }
  destruct (free_inv _ hash n c1 _ a (ITEM_ntotal (ith c1 a)) HI1 Hu1 Hl1) as (s' & E2 & HI2 & HS2 & Ht2 & Hn2).
  assert (step c (with_slab c1 s') a) as HS by by eapply step_trans.
  eexists c1, s', _. split; [done|]. split; [done|]. cbv zeta. split_and!; [exact HI2|by apply step_moved| | |apply HS].
  - destruct (free_or_held s' (clsid_of (ith c1 a)) a) as [|]; [by apply (sh_chunk _ _ (fr_shape _ _ _ (st_frame _ _ _ HS)))|done|done].
  - by rewrite Ht2.
Qed.

(** ** The state of the page *)

(** An item that is not a part of a larger one, and fits its chunk. *)
Record plain (c : cache) (r : slab_rebalance) (b : Z) : Prop := {
  pl_used : used c b;
  pl_chunk : has_flag (ith c b) ITEM_CHUNK = false;
  pl_size : 0 < ITEM_ntotal (ith c b) <= size (cls (slab c) (sid r))
}.

(** Every chunk of the page is free, is an item, or is done with. *)
Definition settled (c : cache) (r : slab_rebalance) : Prop :=
  ∀ b, chunk (slab c) (sid r) b → in_range r b →
    b ∈ free_list (slab c) (sid r) ∨ plain c r b ∨ cleared c b.

(** What becomes of the key of the item at [a]: it stays, it leads to a copy of the item, or it is gone, because
    the item is dead, was busy for too long, or there is no free chunk for it outside the page. *)
Definition fate (r : slab_rebalance) (a : Z) (c c' : cache) : Prop :=
  (c' = c ∨ ¬ used c a) ∧ table c' = table c ∨
  used c a ∧ is_linked c a = true ∧
  ((∃ new, used c' new ∧ ¬ in_range r new ∧ same_item (ith c a) (ith c' new) ∧
      amap (table c') = <[key (ith c a) := mkItem (key (ith c a)) new]> (amap (table c))) ∨
   amap (table c') = delete (key (ith c a)) (amap (table c)) ∧
   (dead st now (ith c a) = true ∨ SLAB_MOVE_MAX_LOOPS < busy_loops r ∨
    ∀ b, b ∈ free_list (slab c) (sid r) → in_range r b)).

(** What a look at the chunk at [slab_pos] does; [bz] says whether it was busy. *)
Record chunk_step (N : nat) (r : slab_rebalance) (c c' : cache) (r' : slab_rebalance) (bz : Z) : Prop := {
  cs_inv : ∃ L', inv N c' L';
  cs_moved : moved (slab_pos r) c c';
  cs_page : page_free r c c';
  cs_pos : if bz =? 0 then cleared c' (slab_pos r) ∧ held (slab c') (sid r) (slab_pos r)
           else slab_pos r ∈ free_list (slab c') (sid r) ∨ plain c' r (slab_pos r) ∧
             (is_linked c (slab_pos r) = true → refcount (ith c (slab_pos r)) = 1 → trylock (hash (key (ith c (slab_pos r)))) = false);
  cs_why : bz = 0 ∨ used c (slab_pos r);
  cs_fate : fate r (slab_pos r) c c';
  cs_rebal : same_page r r' ∧ slab_pos r' = slab_pos r ∧ busy_items r' = busy_items r + bz ∧ busy_loops r' = busy_loops r ∧
    (bz = 0 ∨ bz = 1)
}.

(** Counters that had room have it still. *)
Lemma inv_again n N c L c' L' :
  inv N c L → inv n c' L' → same_shape (slab c) (slab c') →
  (∀ b, used c' b → refcount (ith c' b) <= 1 ∧ (∃ a, used c a ∧ 1 <= refcount (ith c a)) ∨ used c b ∧ refcount (ith c' b) <= refcount (ith c b)) →
  inv N c' L'.
Proof.
  intros [_ Hf _ Hhigh _] [H1 H2 H3 H4 H5] Hs Hr. split; try done; [by eapply fits_shape|].
  intros b Hb. destruct (Hr b Hb) as [[H (a & Ha & Ha')]|[Hu H]]; [specialize (Hhigh a Ha)|specialize (Hhigh b Hu)]; lia.
Qed.

Lemma page_free_held r c c' :
  valid (slab c) (sid r) → (∀ b, b ∈ free_list (slab c) (sid r) → chunk (slab c) (sid r) b) → same_shape (slab c) (slab c') →
  (∀ b, b ∈ free_list (slab c) (sid r) → held (slab c') (sid r) b → cleared c' b) → page_free r c c'.
Proof.
  intros Hv Hch Hs Hh b Hb _. destruct (free_or_held (slab c') (sid r) b) as [|Hb']; [|by left|right; split; auto].
  apply (sh_chunk _ _ Hs); auto.
Qed.

Lemma page_free_trans r c1 c2 c3 :
  page_free r c1 c2 → page_free r c2 c3 → (∀ b, cleared c2 b → held (slab c2) (sid r) b → cleared c3 b ∧ held (slab c3) (sid r) b) →
  page_free r c1 c3.
Proof. intros H1 H2 H3 b Hb Hr. destruct (H1 b Hb Hr) as [Hb2|[Hc Hh]]; [by apply H2|right; by apply H3]. Qed.

(** The chunks of the page, as the mover counts them. *)
Lemma page_chunk_index s r b :
  pages_ok sst s → at_page s r →
  chunk s (sid r) b ∧ in_range r b ↔
  ∃ i, 0 ≤ i < perslab (cls s (sid r)) ∧ b = slab_start r + i * size (cls s (sid r)).
Proof using.
  intros Hp [Hv Hpg He]. destruct (p_size _ _ Hp _ Hv) as (Hs & Hps & Hle). split.
  - intros [(k & p & i & Hk & Hi & ->) [Hr1 Hr2]]. exists i. split; [lia|].
    destruct (page_len_range sst s (sid r) Hp Hv) as [[Hlen _] _].
    destruct (decide (k = 0%nat)) as [->|Hk0]; [destruct Hk as [Hk _], Hpg as [Hpg _]; congruence|].
    destruct (p_apart _ _ Hp _ _ _ _ _ _ Hk Hpg) as [Hap|Hap]; [congruence|..]; rewrite plen_valid in Hap by done; nia.
  - intros (i & Hi & ->). split; [exists 0%nat, (slab_start r), i; split; [done|split; [lia|done]]|]. unfold in_range. nia.
Qed.

Lemma page_chunks_count s r a P :
  pages_ok sst s → at_page s r → chunk s (sid r) a → in_range r a → a ∉ P → NoDup P →
  (∀ b, b ∈ P → chunk s (sid r) b ∧ in_range r b) → (length P < Z.to_nat (perslab (cls s (sid r))))%nat.
Proof using.
  intros Hp Hpg Ha Hra HaP Hnd HP.
  assert (length (a :: P) ≤ length (chunk_seq (slab_start r) (size (cls s (sid r))) (Z.to_nat (perslab (cls s (sid r))))))%nat as Hl.
  { apply NoDup_length_le; [by constructor|]. intros b Hb. apply elem_of_chunk_seq.
    destruct (proj1 (page_chunk_index s r b Hp Hpg)) as (i & Hi & ->); [|exists i; split; [lia|done]].
    apply elem_of_cons in Hb as [->|Hb]; [done|by apply HP]. }
  unfold chunk_seq in Hl. rewrite length_fmap, length_seq in Hl. simpl in Hl. lia.
Qed.

(** A chunk that keeps its header is used as before. *)
Lemma moved_used n L a c c' b i :
  inv n c L → moved a c c' → valid (slab c) i → held (slab c) i b → b ≠ a → used c' b →
  used c b ∧ refcount (ith c' b) <= refcount (ith c b).
Proof.
  intros HI [Hm Hs] Hi Hb Hne Hu. destruct (Hm i b Hi Hb Hne) as [Hb' Hp].
  destruct (payload_refcount _ _ Hp) as (-> & _). split; [|done].
  apply (payload_in_use (slab c) b (ith c' b)); [done|]. destruct Hu as [H1 H2 H3 H4 H5].
  assert (valid (slab c) (clsid_of (ith c' b))) as Hv by (unfold valid in *; by rewrite <-(sh_largest _ _ Hs)).
  split; try done. assert (clsid_of (ith c' b) = i) as ->; [|done].
  apply (chunk_class sst (slab c) _ _ b); [apply (s_pages _ _ (co_slabs _ _ _ _ _ (v_ok _ _ _ _ _ HI)))|done|done| |apply Hb].
  apply (sh_chunk _ _ Hs), H2. done.
Qed.

(** An operation on an item that stays in use does not touch the free lists. *)
Lemma step_free n m L L' c c' a k b :
  inv n c L → inv m c' L' → step c c' a → used c a → used c' a → valid (slab c) k →
  b ∈ free_list (slab c) k ↔ b ∈ free_list (slab c') k.
Proof using.
  clear now trylock.  intros HI HI' HS Hu Hu' Hk. pose proof (fr_shape _ _ _ (st_frame _ _ _ HS)) as Hs.
  assert (valid (slab c') k) as Hk' by (unfold valid in *; by rewrite (sh_largest _ _ Hs)).
  pose proof (use_not_free _ _ (v_ok _ _ _ _ _ HI) a k Hu Hk) as Hn. pose proof (use_not_free _ _ (v_ok _ _ _ _ _ HI') a k Hu' Hk') as Hn'.
  destruct (decide (b = a)) as [->|Hne]; [tauto|].
  pose proof (s_chunks _ _ (co_slabs _ _ _ _ _ (v_ok _ _ _ _ _ HI)) k b Hk) as Hc.
  pose proof (s_chunks _ _ (co_slabs _ _ _ _ _ (v_ok _ _ _ _ _ HI')) k b Hk') as Hc'.
  pose proof (sh_chunk _ _ Hs k b Hk) as Hch. pose proof (st_held _ _ _ HS k b Hk Hne) as Hh. unfold held in Hh.
  destruct (decide (b ∈ free_list (slab c) k)), (decide (b ∈ free_list (slab c') k)); tauto.
Qed.

Lemma used_held c a : used c a → held (slab c) (clsid_of (ith c a)) a.
Proof. by intros []. Qed.

Lemma moved_any n c L c' a : inv n c L → moved 0 c c' → moved a c c'.
Proof. intros HI [H1 H2]. split; [|done]. intros i b Hi Hb _. apply (H1 i b Hi Hb). by eapply held_nonzero. Qed.

Section Item.
(** The item at [slab_pos], of which only its link has a reference. *)
Context (n : nat) (c0 : cache) (L : nat → list Z) (r : slab_rebalance).
Abbreviation a := (slab_pos r).
Context (HI0 : inv (S (S n)) c0 L) (Hpg : at_page (slab c0) r) (Hch : chunk (slab c0) (sid r) a) (Hra : in_range r a).
Context (Hbi : 0 ≤ busy_items r < two32 - 1).
Context (Hpl : plain c0 r a) (Hlk : is_linked c0 a = true) (Href : refcount (ith c0 a) = 1).

Abbreviation c1 := (refcount_incr c0 a).

Lemma item_queue : ∃ id l1 l2, (id < LARGEST_ID)%nat ∧ L id = l1 ++ a :: l2.
Proof.
  destruct (v_flag _ _ _ _ _ HI0 a (pl_used _ _ _ Hpl) Hlk) as (id & Hid & Ha).
  destruct (list_elem_of_split _ _ Ha) as (l1 & l2 & E). eauto.
Qed.

Lemma item_incr :
  inv (S n) c1 L ∧ step c0 c1 a ∧ used c1 a ∧ refcount (ith c1 a) = 2 ∧ table c1 = table c0 ∧ key (ith c1 a) = key (ith c0 a) ∧
  (∀ k b, valid (slab c0) k → b ∈ free_list (slab c0) k ↔ b ∈ free_list (slab c1) k) ∧ valid (slab c1) (sid r) ∧ at_page (slab c1) r.
Proof.
  destruct item_queue as (id & l1 & l2 & Hid & HL). assert (a ∈ L id) as Ha by (rewrite HL, elem_of_app, elem_of_cons; auto).
  destruct (incr_inv _ hash (S n) c0 L a id HI0 Hid Ha) as (HI1 & HS1 & Hu1 & Hr1 & Ht1).
  destruct (step_key _ _ _ a HS1) as [Hk _].
  assert (at_page (slab c1) r) as Hp1 by (eapply at_page_shape; [apply HS1|done|done]).
  split_and!; try done; [lia| |apply Hp1]. intros k b Hk'. eapply (step_free _ _ _ _ c0 c1); try done. apply Hpl.
Qed.

Lemma dead_incr : dead st now (ith c1 a) = dead st now (ith c0 a).
Proof. unfold refcount_incr. by rewrite ith_set_eq. Qed.

(** The item is dropped, from a state [c2] in which it is as it was. *)
Lemma item_dropped c2 r2 nm :
  inv (S n) c2 L → moved a c1 c2 → table c2 = table c1 → ith c2 a = ith c1 a →
  (∀ b, used c2 b → used c1 b ∧ ith c2 b = ith c1 b) → page_free r c1 c2 →
  same_page r r2 → slab_pos r2 = a → busy_items r2 = busy_items r → busy_loops r2 = busy_loops r →
  (dead st now (ith c0 a) = true ∨ ∀ b, b ∈ free_list (slab c0) (sid r) → in_range r b) →
  ∃ c3 s' , do_item_unlink (item_st st) c2 a (hash (key (ith c1 a))) = Some c3 ∧
    do_slabs_free sst (slab c3) a (ITEM_ntotal (ith c3 a)) (sid r) = Some s' ∧
    chunk_step (S (S n)) r c0 (with_slab c3 s')
      (mkRebal (slab_start r2) (slab_end r2) (slab_pos r2) (s_clsid r2) (d_clsid r2) (u32 (busy_items r2 + 1)) (rescues r2)
        (u32 (evictions_nomem r2 + nm)) (inline_reclaim r2) (chunk_rescues r2) (busy_deletes r2) (busy_loops r2) (done_ r2)) 1.
Proof.
  intros HI2 Hm2 Ht2 Hia Hu2 Hpf Hsp Hpos Hbi2 Hbl Hwhy.
  destruct item_queue as (id & l1 & l2 & Hid & HL). destruct item_incr as (HI1 & HS1 & Hu1 & Hr1 & Ht1 & Hk1 & Hf1 & Hv1 & Hp1).
  pose proof (mv_shape _ _ _ Hm2) as Hs2. pose proof (fr_shape _ _ _ (st_frame _ _ _ HS1)) as Hs1.
  assert (valid (slab c2) (sid r)) as Hv2 by (unfold valid in *; by rewrite (sh_largest _ _ Hs2)).
  assert (chunk (slab c2) (sid r) a) as Hc2 by (apply (sh_chunk _ _ Hs2); [done|]; apply (sh_chunk _ _ Hs1); [apply Hpg|done]).
  destruct (drop_ok (S n) c2 L a id l1 l2 (sid r) HI2 Hid HL) as (c3 & s' & L' & E3 & E4 & HI4 & Hm4 & Hf4 & Hmap4 & Hback); [by rewrite Hia|done|done|].
  rewrite Hia in E3, Hmap4. exists c3, s'. split; [done|]. split; [done|]. set (c4 := with_slab c3 s') in *.
  assert (same_shape (slab c0) (slab c4)) as Hs4 by (eapply same_shape_trans; [exact Hs1|]; eapply same_shape_trans; [exact Hs2|apply Hm4]).
  assert (∀ b, used c4 b → b ≠ a) as Hna.
  { intros b Hu ->. apply (use_not_free _ _ (v_ok _ _ _ _ _ HI4) a (sid r) Hu); [|done].
    unfold valid. rewrite (sh_largest _ _ Hs4). apply Hpg. }
  assert (moved a c0 c4) as Hmv.
  { eapply moved_trans; [by apply step_moved|]. by eapply moved_trans. }
  split.
  - exists L'. eapply (inv_again (S n) (S (S n)) c0 L); [done|done|done|]. intros b Hb. right. pose proof (Hna b Hb) as Hne.
    assert (valid (slab c2) (clsid_of (ith c4 b))) as Hv by (pose proof (u_valid _ _ _ Hb); unfold valid in *; by rewrite <-(sh_largest _ _ (mv_shape _ _ _ Hm4))).
    destruct (moved_used _ L a c2 c4 b (clsid_of (ith c4 b)) HI2 Hm4 Hv) as [Hb2 Hr2]; [apply Hback, Hb; done|done|done|].
    destruct (Hu2 b Hb2) as [Hb1 Hi1]. rewrite Hi1 in Hr2. apply (step_used _ _ _ b HS1 Hne) in Hb1. split; [done|].
    destruct (step_fields _ _ _ b HS1 Hne) as (Hr & _). lia.
  - done.
  - eapply (page_free_trans r c0 c2 c4).
    + intros b Hb Hr. apply Hpf; [|done]. by apply (Hf1 (sid r) b (ap_valid _ _ Hpg)).
    + apply page_free_held; [done|intros b; by apply (s_chunks _ _ (co_slabs _ _ _ _ _ (v_ok _ _ _ _ _ HI2)))|apply Hm4|].
      intros b Hb Hb'. apply Hback in Hb'; [|done]. by destruct Hb' as [_ []].
    + intros b Hcl Hb. assert (b ≠ a) as Hne.
      { intros ->. eapply not_use_cleared; [exact Hcl|]. rewrite Hia. destruct Hu1 as [U1 U2 U3 U4 U5].
        assert (clsid_of (ith c1 a) = sid r) as Ek.
        { apply (chunk_class sst (slab c1) _ _ a); [apply (s_pages _ _ (co_slabs _ _ _ _ _ (v_ok _ _ _ _ _ HI1)))|done|done|apply U2|].
          apply (sh_chunk _ _ Hs1); [apply Hpg|done]. }
        split; try done; rewrite Ek; done. }
      split; [exact (moved_cleared a c2 c4 (sid r) b Hm4 Hv2 Hb Hne Hcl)|]. by apply (mv_held _ _ _ Hm4).
  - by left.
  - right. apply Hpl.
  - right. split; [apply Hpl|]. split; [done|]. right. rewrite Hmap4, Ht2, Ht1, Hk1. split; [done|]. destruct Hwhy; auto.
  - simpl. destruct Hsp as (? & ? & ? & ? & ?). split_and!; try done; [|by right]. rewrite Hbi2. apply Z.mod_small. lia.
Qed.

(** The item has moved, from a state [c2] in which a chunk has been found for it. *)
Lemma item_rescued k c2 r2 new :
  searched st hash k n r c1 L c2 new → new ≠ 0 →
  same_page r r2 → slab_pos r2 = a → busy_items r2 = busy_items r → busy_loops r2 = busy_loops r →
  ∃ c3, rescue_item st now c2 a new (ITEM_ntotal (ith c1 a)) (hash (key (ith c1 a))) = Some c3 ∧
    chunk_step (S (S n)) r c0 (with_slab c3 (upd_requested (slab c3) (sid r) (λ q, q - ITEM_ntotal (ith c1 a))))
      (mkRebal (slab_start r2) (slab_end r2) (slab_pos r2) (s_clsid r2) (d_clsid r2) (busy_items r2) (u32 (rescues r2 + 1))
        (evictions_nomem r2) (inline_reclaim r2) (chunk_rescues r2) (busy_deletes r2) (busy_loops r2) (done_ r2)) 0.
Proof.
  intros [HI2 Hm2 Ht2 Hu2 Hpf Hnew _] Hn0 Hsp Hpos Hbi2 Hbl. destruct (Hnew Hn0) as (Hhn & Hrn & Hnu & Hfn & Hfree).
  destruct item_queue as (id & l1 & l2 & Hid & HL). destruct item_incr as (HI1 & HS1 & Hu1 & Hr1 & Ht1 & Hk1 & Hf1 & Hv1 & Hp1).
  pose proof (mv_shape _ _ _ Hm2) as Hs2. pose proof (fr_shape _ _ _ (st_frame _ _ _ HS1)) as Hs1.
  assert (same_shape (slab c0) (slab c2)) as Hs02 by by eapply same_shape_trans.
  assert (ith c2 a = ith c1 a) as Hia by by apply Hu2.
  assert (clsid_of (ith c1 a) = sid r) as Ek.
  { apply (chunk_class sst (slab c1) _ _ a); [apply (s_pages _ _ (co_slabs _ _ _ _ _ (v_ok _ _ _ _ _ HI1)))|apply Hu1|done|apply Hu1|].
    apply (sh_chunk _ _ Hs1); [apply Hpg|done]. }
  pose proof (pl_size _ _ _ Hpl) as Hsz.
  destruct (rescue_ok st hash now n c2 L a id l1 l2 new (ITEM_ntotal (ith c1 a)) HI2 Hid HL) as (c3 & L3 & E3 & HI3 & HR); rewrite ?Hia, ?Ek; try done.
  { rewrite (proj1 (shape_size _ _ _ Hs02 (ap_valid _ _ Hpg))). unfold refcount_incr. rewrite ith_set_eq. exact Hsz. }
  rewrite Hia in E3. rewrite Hia, Ek in HR. exists c3. split; [exact E3|].
  destruct HR as [R1 R2 R3 R4 R5 R6 R7]. rewrite Hia in R4, R5.
  assert (same_shape (slab c0) (slab c3)) as Hs03 by by eapply same_shape_trans.
  assert (valid (slab c3) (sid r)) as Hv3 by (unfold valid; rewrite (sh_largest _ _ Hs03); apply Hpg).
  destruct (requested_inv _ hash n c3 L3 (sid r) (λ q, q - ITEM_ntotal (ith c1 a)) HI3) as (HI4 & Hm4 & Hh4 & Hu4);
    [by eapply valid_small|].
  set (c4 := with_slab c3 _) in *.
  assert (valid (slab c2) (sid r)) as Hv2 by (unfold valid; rewrite (sh_largest _ _ Hs02); apply Hpg).
  assert (∀ i b, valid (slab c0) i → held (slab c0) i b → b ≠ new) as Hbn.
  { intros i b Hi Hb ->. eapply (held_not_free sst (slab c0) i (sid r) new); [apply (v_ok _ _ _ _ _ HI0)|done|apply Hpg|done|].
    apply Hf1; [apply Hpg|done]. }
  assert (∀ i, valid (slab c2) i ↔ valid (slab c0) i) as Hv02 by (intros i; unfold valid; by rewrite (sh_largest _ _ Hs02)).
  assert (moved a c0 c2) as Hm02 by (eapply moved_trans; [by apply step_moved|by eapply moved_any]).
  split.
  - exists L3. eapply (inv_again n (S (S n)) c0 L); [done|done|by eapply same_shape_trans; [|apply Hm4]|].
    intros b Hb%Hu4. change (ith c4 b) with (ith c3 b). destruct (decide (b = new)) as [->|Hne].
    { left. split; [apply R5|]. exists a. split; [apply Hpl|lia]. }
    right. destruct (R6 b Hb) as [->|[Hba Hb2]]; [done|]. pose proof (proj1 (proj1 (Hu2 b)) Hb2) as Hb1.
    pose proof (proj1 (step_used _ _ _ b HS1 Hba) Hb1) as Hb0. split; [done|].
    destruct (R1 _ b (u_valid _ _ _ Hb2) (used_held _ _ Hb2) Hba Hne) as [_ Hp].
    destruct (payload_refcount _ _ Hp) as (-> & _). rewrite (proj2 (Hu2 b) Hb1).
    destruct (step_fields _ _ _ b HS1 Hba) as (-> & _). done.
  - split; [|by eapply same_shape_trans; [|apply Hm4]]. intros i b Hi Hb Hba. pose proof (Hbn i b Hi Hb) as Hbn'.
    destruct (mv_held _ _ _ Hm02 i b Hi Hb Hba) as [Hb2 Hp2]. destruct (R1 i b) as [Hb3 Hp3]; [by apply Hv02|done..|].
    split; [by apply Hh4|]. change (ith c4 b) with (ith c3 b). congruence.
  - intros b Hb Hr. assert (b ≠ new) as Hne by (intros ->; done).
    assert (b ≠ a) as Hba.
    { intros ->. apply (use_not_free _ _ (v_ok _ _ _ _ _ HI0) a (sid r)); [apply Hpl|apply Hpg|done]. }
    destruct (Hpf b) as [Hb2|[Hc2 Hb2]]; [by apply Hf1; [apply Hpg|]|done|..].
    + left. destruct (free_or_held (slab c4) (sid r) b) as [|Hb4]; [|done|].
      * apply (sh_chunk _ _ (mv_shape _ _ _ Hm4)); [done|]. apply (sh_chunk _ _ R2); [done|].
        by apply (s_chunks _ _ (co_slabs _ _ _ _ _ (v_ok _ _ _ _ _ HI2))).
      * apply Hh4, R7 in Hb4; [|done]. by destruct Hb4 as [_ []].
    + right. destruct (R1 (sid r) b Hv2 Hb2 Hba Hne) as [Hb3 Hp3]. split; [|by apply Hh4].
      unfold cleared. change (ith c4 b) with (ith c3 b). destruct (payload_refcount _ _ Hp3) as (_ & -> & _). done.
  - split; [exact (proj1 R3)|apply Hh4, R3].
  - by left.
  - right. split; [apply Hpl|]. split; [done|]. left. exists new. split; [apply Hu4, R5|]. change (ith c4 new) with (ith c3 new).
    destruct R5 as (_ & (A1 & A2 & A3) & _). split; [done|]. split; [|change (table c4) with (table c3); rewrite R4, Ht2, Ht1, Hk1; done].
    unfold refcount_incr in A1, A2, A3. rewrite ith_set_eq in A1, A2, A3. done.
  - destruct Hsp as (? & ? & ? & ? & ?). simpl. split_and!; try done; [lia|by left].
Qed.

Lemma move_item_ok :
  ∃ c' r' bz, move_item st hash now c1 r a None = Some (c', r', bz) ∧ chunk_step (S (S n)) r c0 c' r' bz.
Proof.
  destruct item_incr as (HI1 & HS1 & Hu1 & Hr1 & Ht1 & Hk1 & Hf1 & Hv1 & Hp1).
  pose proof (fr_shape _ _ _ (st_frame _ _ _ HS1)) as Hs1. pose proof (pl_size _ _ _ Hpl) as Hsz.
  unfold move_item. fold (dead st now (ith c1 a)). rewrite (u_chunked _ _ _ Hu1). fold (sid r).
  destruct (dead st now (ith c1 a)) eqn:Ed; cbn [mbind option_bind orb].
  - destruct (item_dropped c1 r 0 HI1) as (c3 & s' & E3 & E4 & HC); try done; [by intros b Hb _; left|by left; rewrite <-dead_incr|].
    rewrite E3. cbn [mbind option_bind]. rewrite E4. eauto.
  - unfold slab_rebalance_alloc. fold (sid r).
    destruct (alloc_loop_ok st hash (Z.to_nat (perslab (slabclass (slab c1) !!! sid r))) n r c1 L (ITEM_ntotal (ith c1 a)) HI1 Hp1)
      as (c2 & r2 & new & -> & HS & Hsp & Hpos & Hbi2 & Hbl).
    { rewrite (proj1 (shape_size _ _ _ Hs1 (ap_valid _ _ Hpg))). unfold refcount_incr. rewrite ith_set_eq. apply Hsz. }
    cbn [mbind option_bind]. destruct (Z.eqb_spec new 0) as [Hn|Hn].
    + destruct HS as [HI2 Hm2 Ht2 Hu2 Hpf _ Hnone].
      destruct (item_dropped c2 r2 1 HI2) as (c3 & s' & E3 & E4 & HC); try done.
      * by eapply moved_any.
      * by apply Hu2.
      * intros b Hb. assert (used c1 b) by by apply Hu2. split; [done|by apply Hu2].
      * right. intros b Hb%Hf1; [|apply Hpg]. destruct (Hnone Hn) as [Hall|(P & Hnd & Hlen & HP)]; [by apply Hall|exfalso].
        assert (length P < Z.to_nat (perslab (cls (slab c1) (sid r))))%nat as Hlt; [|unfold cls in Hlt; lia].
        apply (page_chunks_count (slab c1) r a P); try done.
        -- apply (s_pages _ _ (co_slabs _ _ _ _ _ (v_ok _ _ _ _ _ HI1))).
        -- intros Ha. destruct (HP a Ha) as [Hfa _]. by apply (use_not_free _ _ (v_ok _ _ _ _ _ HI1) a (sid r) Hu1 Hv1).
        -- intros x Hx. destruct (HP x Hx). split; [|done]. by apply (s_chunks _ _ (co_slabs _ _ _ _ _ (v_ok _ _ _ _ _ HI1))).
      * rewrite E3. cbn [mbind option_bind]. rewrite E4. eauto.
    + destruct (item_rescued _ c2 r2 new HS Hn Hsp Hpos Hbi2 Hbl) as (c3 & E3 & HC).
      rewrite E3. cbn [mbind option_bind]. eauto.
Qed.
End Item.
End Mover.
