(* ===== verification/SlabPass.v ===== *)
(** The passes of the mover over its page: the loop of [slab_rebalance_move] in
    [extra/KVS-DRAM-Cache/slabs.c]. *)

From S2P Require Import Prelude Item Slabs Assoc Items Itoa ItemFrame ItemInv ItemAlloc ItemAllocSpec ItemNew LruMaintainer ItemOps.
From S2P Require Import SlabRebalance SlabMove SlabMover.

Section Pass.
Context (st : alloc_settings) (hash : bytes → Z) (now : Z) (trylock : Z → bool).
Abbreviation inv := (ItemInv.inv (item_st st) hash).
Abbreviation sst := (slab_settings (item_st st)).

(** ** One chunk *)

Section Chunk.
Context (n : nat) (c : cache) (L : nat → list Z) (r : slab_rebalance).
Abbreviation a := (slab_pos r).
Context (HI : inv (S (S n)) c L) (Hpg : at_page (slab c) r) (Hch : chunk (slab c) (sid r) a) (Hra : in_range r a).

Lemma free_chunk_step :
  a ∈ free_list (slab c) (sid r) →
  ∃ c', slab_rebalance_cut_free c (sid r) a = Some c' ∧
    chunk_step st hash now trylock (S (S n)) r c (set_item c' a clear_mark) r 0.
Proof.
  intros Ha. pose proof (ap_valid _ _ Hpg) as Hv.
  destruct (cut_inv _ hash (S n) c L (sid r) a HI Hv Ha) as (c1 & E & HI1 & Hm1 & Ht1 & Hh1 & _ & Hu1).
  exists c1. split; [done|].
  assert (¬ used c a) as Hnu by (intros Hu; by apply (use_not_free _ _ (v_ok _ _ _ _ _ HI) a (sid r) Hu Hv)).
  assert (valid (slab c1) (sid r)) as Hv1 by (unfold valid; by rewrite (sh_largest _ _ (mv_shape _ _ _ Hm1))).
  destruct (clear_inv _ hash (S (S n)) c1 L a (sid r) HI1 Hv1) as (HI2 & Hm2 & Hh2 & Hcl & Hu2);
    [apply Hh1; [done|by right]|by rewrite Hu1|].
  assert (moved a c (set_item c1 a clear_mark)) as Hm by (eapply moved_trans; [by eapply moved_any|done]).
  split; try done.
  - by exists L.
  - intros b Hb Hr. destruct (free_or_held (slab (set_item c1 a clear_mark)) (sid r) b) as [|Hb']; [|by left|].
    + apply (sh_chunk _ _ (mv_shape _ _ _ Hm)); [done|]. by apply (s_chunks _ _ (co_slabs _ _ _ _ _ (v_ok _ _ _ _ _ HI))).
    + right. split; [|done]. apply Hh2, Hh1 in Hb' as [[_ []]|[_ ->]]; done.
  - split; [done|]. apply Hh2; [done|]. apply Hh1; [done|by right].
  - by left.
  - left. split; [by right|done].
  - split_and!; try done; [lia|by left].
Qed.

(** The chunk is left alone. *)
Lemma same_chunk_step bz r' :
  (if bz =? 0 then cleared c a else plain c r a ∧ (is_linked c a = true → refcount (ith c a) = 1 → trylock (hash (key (ith c a))) = false)) → same_page r r' → slab_pos r' = a → busy_items r' = busy_items r + bz →
  busy_loops r' = busy_loops r → (bz = 0 ∨ bz = 1) → chunk_step st hash now trylock (S (S n)) r c c r' bz.
Proof.
  intros Hp Hsp H1 H2 H3 Hbz. split; [by exists L|done|by intros b Hb _; left| | |left; split; [by left|done]|done].
  2: { destruct Hbz as [->| ->]; [by left|right]. apply Hp. }
  destruct Hbz as [->| ->]; cbn [Z.eqb] in *; [|by right]. split; [done|].
  destruct (free_or_held _ _ _ Hch) as [Hf|]; [|done]. exfalso. unfold cleared in Hp. change (ith c a) with (hdr (chunks_mem (slab c)) a) in Hp.
  destruct (c_slabbed _ _ _ (l_class _ _ (s_lists _ _ (co_slabs _ _ _ _ _ (v_ok _ _ _ _ _ HI))) (sid r) (ap_valid _ _ Hpg)) a Hf) as [Hf' _].
  rewrite Hf' in Hp. done.
Qed.

Context (Hpl : plain c r a) (Hlk : is_linked c a = true).

(** An item that has been busy for too long is unlinked. *)
Lemma busy_delete_step :
  2 <= refcount (ith c a) → SLAB_MOVE_MAX_LOOPS < busy_loops r →
  ∃ c', do_item_unlink (item_st st) (refcount_incr c a) a (hash (key (ith c a))) = Some c' ∧ ∀ r',
    same_page r r' → slab_pos r' = a → busy_items r' = busy_items r + 1 → busy_loops r' = busy_loops r →
    chunk_step st hash now trylock (S (S n)) r c (refcount_decr c' a) r' 1.
Proof.
  intros Hr Hloops. pose proof (pl_used _ _ _ Hpl) as Hu. pose proof (v_high _ _ _ _ _ HI a Hu) as Hhigh.
  destruct (v_flag _ _ _ _ _ HI a Hu Hlk) as (id & Hid & Hin). destruct (list_elem_of_split _ _ Hin) as (l1 & l2 & HL).
  destruct (incr_inv _ hash (S n) c L a id HI Hid Hin) as (HI1 & HS1 & Hu1 & Hr1 & Ht1).
  set (c1 := refcount_incr c a) in *. destruct (step_key _ _ _ a HS1) as [Hk1 _].
  destruct (unlink_inv _ hash (S n) c1 L a id l1 l2 HI1 Hid HL) as (c2 & E2 & HI2 & HS2 & Hm2 & Hcase).
  rewrite Hr1 in Hcase. rewrite (proj2 (Z.eqb_neq _ _)) in Hcase by lia. destruct Hcase as (Hu2 & Hr2 & Hl2).
  rewrite Hk1 in E2, Hm2. exists c2. split; [done|].
  destruct (remove_inv _ hash (S n) c2 _ a HI2 Hu2) as (c3 & E3 & HI3 & HS3 & Ht3 & Hcase); [unfold extra; rewrite Hl2; lia|].
  rewrite (proj2 (Z.eqb_neq _ _)) in Hcase by lia. destruct Hcase as (Hu3 & Hr3 & Hl3).
  assert (refcount_decr c2 a = c3) as Hd.
  { revert E3. unfold do_item_remove. intros [_ [_ E3]%assert_some]%assert_some. rewrite (proj2 (Z.eqb_neq _ _)) in E3; [congruence|].
    unfold refcount_decr. rewrite ith_set_eq. cbn [refcount set_refcount]. unfold u16. rewrite Z.mod_small; lia. }
  intros r' Hsp Hpos Hbi Hbl. rewrite Hd.
  assert (step c c3 a) as HS by (eapply step_trans; [exact HS1|]; by eapply step_trans).
  pose proof (fr_shape _ _ _ (st_frame _ _ _ HS)) as Hs.
  assert (payload (set_refcount 0 (ith c3 a)) = payload (set_refcount 0 (clear_flag ITEM_LINKED (ith c a)))) as Hp.
  { assert (has_flag (ith c1 a) ITEM_LINKED = true) as Hlk1 by (unfold c1, refcount_incr; rewrite ith_set_eq; exact Hlk).
    pose proof (unlink_header st c1 a _ c2 E2 Hu1 Hu2 Hlk1) as Hp2. unfold c1, refcount_incr in Hp2. rewrite ith_set_eq in Hp2.
    etrans; [|exact Hp2]. rewrite <-Hd. unfold refcount_decr. by rewrite ith_set_eq. }
  assert (∀ k b, valid (slab c) k → b ∈ free_list (slab c) k ↔ b ∈ free_list (slab c3) k) as Hfree.
  { intros k b Hk. eapply (step_free st hash); [exact HI|exact HI3|exact HS|done..]. }
  split; [|by apply step_moved|intros b Hb _; left; by apply Hfree; [apply Hpg|]| |by right|..].
  - eexists. eapply (inv_again st hash (S n) (S (S n)) c L); [done|exact HI3|done|]. intros b Hb. right.
    destruct (decide (b = a)) as [->|Hne]; [split; [done|lia]|]. split; [by apply (step_used _ _ _ b HS Hne)|].
    destruct (step_fields _ _ _ b HS Hne) as (-> & _). done.
  - right. destruct Hpl as [_ P2 P3]. split; [|intros; lia]. split; [done|..].
    + change (has_flag (payload (set_refcount 0 (ith c3 a))) ITEM_CHUNK = false). rewrite Hp.
      change (has_flag (clear_flag ITEM_LINKED (ith c a)) ITEM_CHUNK = false). by rewrite has_flag_clear_other.
    + rewrite (proj1 (shape_size _ _ _ Hs (ap_valid _ _ Hpg))).
      assert (ITEM_ntotal (ith c3 a) = ITEM_ntotal (ith c a)) as ->; [|done].
      change (ITEM_ntotal (payload (set_refcount 0 (ith c3 a))) = ITEM_ntotal (ith c a)). rewrite Hp.
      change (ITEM_ntotal (clear_flag ITEM_LINKED (ith c a)) = ITEM_ntotal (ith c a)).
      unfold ITEM_ntotal, cas_size. by rewrite has_flag_clear_other.
  - right. split; [done|]. split; [done|]. right. split; [|auto]. rewrite Ht3, Hm2, Ht1. done.
  - split_and!; try done. by right.
Qed.
End Chunk.

Lemma add_busy_num r : 0 ≤ busy_items r < two32 - 1 → busy_items (add_busy r) = busy_items r + 1.
Proof. intros H. apply Z.mod_small. lia. Qed.

(** The look at the chunk at [slab_pos]. *)
Lemma move_chunk_step n c L r :
  inv (S (S n)) c L → at_page (slab c) r → chunk (slab c) (sid r) (slab_pos r) → in_range r (slab_pos r) → settled c r →
  0 ≤ busy_items r < two32 - 1 →
  ∃ c' r' bz, move_chunk st hash now trylock c r = Some (c', r', bz) ∧ chunk_step st hash now trylock (S (S n)) r c c' r' bz.
Proof.
  intros HI Hpg Hch Hra Hset Hbi. unfold move_chunk, move_decide. fold (sid r). set (a := slab_pos r) in *.
  destruct (Hset a Hch Hra) as [Hf|[Hpl|Hcl]].
  - destruct (c_slabbed _ _ _ (l_class _ _ (s_lists _ _ (co_slabs _ _ _ _ _ (v_ok _ _ _ _ _ HI))) (sid r) (ap_valid _ _ Hpg)) a Hf) as [Hfl _].
    change (hdr (chunks_mem (slab c)) a) with (ith c a) in Hfl.
    assert (has_flag (ith c a) ITEM_CHUNK = false ∧ has_flag (ith c a) ITEM_SLABBED = true) as [-> ->] by (unfold has_flag; by rewrite Hfl).
    rewrite Hfl. cbn [orb negb assert_ mbind option_bind Z.eqb ITEM_SLABBED CLEARED Pos.eqb].
    destruct (free_chunk_step n c L r HI Hpg Hf) as (c' & E & HC). fold a in E. rewrite E. eauto.
  - pose proof (pl_used _ _ _ Hpl) as Hu. rewrite (pl_chunk _ _ _ Hpl). cbn [orb negb assert_ mbind option_bind].
    rewrite (proj2 (Z.eqb_neq _ _)) by (intros E; by eapply not_use_cleared). rewrite (u_slabbed _ _ _ Hu).
    destruct (has_flag (ith c a) ITEM_LINKED) eqn:Hlk.
    2: { cbn [mbind option_bind]. do 3 eexists. split; [done|]. eapply (same_chunk_step n c L r); try done; [|by apply add_busy_num|by right].
         split; [done|]. unfold is_linked. fold a. congruence. }
    destruct (trylock _) eqn:Hlock; cbn [negb mbind option_bind].
    2: { do 3 eexists. split; [done|]. eapply (same_chunk_step n c L r); try done; [by apply add_busy_num|by right]. }
    destruct (v_flag _ _ _ _ _ HI a Hu Hlk) as (id & Hid & Hin).
    destruct (inv_queued _ _ _ c L a id HI Hid Hin) as (_ & _ & Hr & _).
    destruct (incr_inv _ hash (S n) c L a id HI Hid Hin) as (_ & HS1 & _ & Hr1 & _). destruct (step_key _ _ _ a HS1) as [Hk1 _].
    rewrite Hr1. destruct (Z.eqb_spec (refcount (ith c a) + 1) 2) as [H2|H2].
    + cbn [mbind option_bind]. apply (move_item_ok st hash now trylock n c L r); try done. fold a. lia.
    + rewrite (proj2 (Z.ltb_lt 2 _)) by lia. cbn [andb]. destruct (Z.ltb_spec SLAB_MOVE_MAX_LOOPS (busy_loops r)) as [Hl|Hl].
      * destruct (busy_delete_step n c L r HI Hpg Hpl Hlk) as (c' & E & HC); [fold a; lia|done|].
        fold a in E. rewrite E. cbn [mbind option_bind]. do 3 eexists. split; [done|]. apply HC; try done. exact (add_busy_num r Hbi).
      * cbn [mbind option_bind]. rewrite incr_decr by (done || lia). do 3 eexists. split; [done|].
        eapply (same_chunk_step n c L r); try done; [|by apply add_busy_num|by right]. split; [done|]. fold a. lia.
  - unfold cleared in Hcl. assert (has_flag (ith c a) ITEM_CHUNK = false) as -> by (unfold has_flag; by rewrite Hcl).
    cbn [orb negb assert_ mbind option_bind]. rewrite Hcl, Z.eqb_refl. cbn [mbind option_bind]. do 3 eexists. split; [done|].
    eapply (same_chunk_step n c L r); try done; [lia|by left].
Qed.

(** ** The state between two looks *)

(** The chunks before [slab_pos] are done with, when none has been busy in this pass. *)
Record passing (N : nat) (c : cache) (r : slab_rebalance) : Prop := {
  ps_inv : ∃ L, inv N c L;
  ps_page : at_page (slab c) r;
  ps_settled : settled c r;
  ps_pos : ∃ j, 0 ≤ j ≤ perslab (cls (slab c) (sid r)) ∧ slab_pos r = slab_start r + j * size (cls (slab c) (sid r)) ∧
    0 ≤ busy_items r ≤ j;
  ps_swept : busy_items r = 0 → ∀ b, chunk (slab c) (sid r) b → in_range r b → b < slab_pos r → cleared c b
}.

(** What a key leads to is the same item; or it was in the page, and is a copy outside of it, or is gone. *)
Definition carried (r : slab_rebalance) (c c' : cache) : Prop :=
  (∀ k, amap (table c) !! k = None → amap (table c') !! k = None) ∧
  ∀ k e, amap (table c) !! k = Some e →
    amap (table c') !! k = Some e ∧ payload (ith c' (it_id e)) = payload (ith c (it_id e)) ∨
    in_range r (it_id e) ∧
    (amap (table c') !! k = None ∨
     ∃ new, ¬ in_range r new ∧ amap (table c') !! k = Some (mkItem k new) ∧ same_item (ith c (it_id e)) (ith c' new)).

Lemma payload_same_item it it' : payload it' = payload it → same_item it it'.
Proof. destruct it, it'. by intros [=]. Qed.

Lemma carried_refl r c : carried r c c.
Proof. split; [done|]. intros k e He. by left. Qed.

Lemma carried_trans r c1 c2 c3 : carried r c1 c2 → carried r c2 c3 → carried r c1 c3.
Proof.
  intros [A1 A2] [B1 B2]. split; [auto|]. intros k e He.
  destruct (A2 k e He) as [[He2 Hp2]|[Hr [Hn|(new & Hnr & He2 & Hs2)]]].
  - destruct (B2 k e He2) as [[He3 Hp3]|[Hr [Hn|(new & Hnr & He3 & Hs3)]]].
    + left. split; [done|congruence].
    + right. auto.
    + right. split; [done|]. right. exists new. split_and!; try done.
      apply payload_same_item in Hp2 as (? & ? & ?). destruct Hs3 as (? & ? & ?). split_and!; congruence.
  - right. auto.
  - right. split; [done|]. right. destruct (B2 k _ He2) as [[He3 Hp3]|[Hr' _]]; [|done]. exists new. split_and!; try done.
    simpl in Hp3. apply payload_same_item in Hp3 as (? & ? & ?). destruct Hs2 as (? & ? & ?). split_and!; congruence.
Qed.

Lemma plain_same c r r' b : s_clsid r' = s_clsid r → plain c r b → plain c r' b.
Proof. intros E [H1 H2 H3]. split; try done. unfold sid. by rewrite E. Qed.

Lemma settled_same c r r' : same_page r r' → settled c r → settled c r'.
Proof.
  intros (E1 & E2 & E3 & _) H b. unfold sid, in_range. rewrite E1, E2, E3. intros Hb Hr.
  destruct (H b Hb Hr) as [|[Hp|]]; auto. right. left. by eapply plain_same.
Qed.

(** The items of the page are at [p] or after it, and only their links refer to them. *)
Definition idle (c : cache) (r : slab_rebalance) (p : Z) : Prop :=
  ∀ b, chunk (slab c) (sid r) b → in_range r b → plain c r b → p ≤ b ∧ is_linked c b = true ∧ refcount (ith c b) = 1.

Lemma idle_same c r r' p : same_page r r' → idle c r p → idle c r' p.
Proof.
  intros (E1 & E2 & E3 & _) H b. unfold sid, in_range. rewrite E1, E2, E3. intros Hb Hr Hp. apply H; [done..|].
  by eapply plain_same.
Qed.

Section Step.
Context (n N : nat) (c c' : cache) (L : nat → list Z) (r r' : slab_rebalance) (bz : Z).
Context (HI : inv n c L) (Hpg : at_page (slab c) r) (Hch : chunk (slab c) (sid r) (slab_pos r)) (Hra : in_range r (slab_pos r)).
Context (Hset : settled c r) (HC : chunk_step st hash now trylock N r c c' r' bz).

Lemma step_shape : same_shape (slab c) (slab c').
Proof using HC. apply (cs_moved _ _ _ _ _ _ _ _ _ _ HC). Qed.

Lemma step_sid : sid r' = sid r ∧ ∀ b, in_range r' b ↔ in_range r b.
Proof using HC.
  destruct (cs_rebal _ _ _ _ _ _ _ _ _ _ HC) as ((E1 & E2 & E3 & _) & _). unfold sid, in_range. by rewrite E1, E2, E3.
Qed.

Lemma step_page : at_page (slab c') r'.
Proof using HC Hpg. eapply at_page_shape; [exact step_shape| |done]. apply (cs_rebal _ _ _ _ _ _ _ _ _ _ HC). Qed.

Lemma plain_held b : plain c r b → chunk (slab c) (sid r) b → held (slab c) (sid r) b.
Proof using HI Hpg.
  intros [Hu _ _] Hb. assert (clsid_of (ith c b) = sid r) as <-; [|by apply used_held].
  apply (chunk_class sst (slab c) _ _ b); [apply (s_pages _ _ (co_slabs _ _ _ _ _ (v_ok _ _ _ _ _ HI)))|apply Hu|apply Hpg|apply Hu|done].
Qed.

Lemma cleared_held b : cleared c b → chunk (slab c) (sid r) b → held (slab c) (sid r) b.
Proof using HI Hpg.
  intros Hcl Hb. destruct (free_or_held _ _ _ Hb) as [Hf|]; [|done]. exfalso. unfold cleared in Hcl.
  change (ith c b) with (hdr (chunks_mem (slab c)) b) in Hcl.
  destruct (c_slabbed _ _ _ (l_class _ _ (s_lists _ _ (co_slabs _ _ _ _ _ (v_ok _ _ _ _ _ HI))) (sid r) (ap_valid _ _ Hpg)) b Hf) as [Hf' _].
  rewrite Hf' in Hcl. done.
Qed.

(** Another item of the page. *)
Lemma step_plain b : plain c r b → chunk (slab c) (sid r) b → b ≠ slab_pos r →
  plain c' r' b ∧ payload (ith c' b) = payload (ith c b).
Proof using HI Hpg HC.
  intros Hpl Hb Hne. destruct (mv_held _ _ _ (cs_moved _ _ _ _ _ _ _ _ _ _ HC) (sid r) b (ap_valid _ _ Hpg) (plain_held b Hpl Hb) Hne) as [Hb' Hp].
  split; [|done]. destruct Hpl as [Hu H1 H2]. destruct step_sid as [Es _]. split.
  - apply (payload_in_use (slab c') b (ith c b)); [done|]. destruct Hu as [U1 U2 U3 U4 U5].
    assert (clsid_of (ith c b) = sid r) as Ek.
    { apply (chunk_class sst (slab c) _ _ b); [apply (s_pages _ _ (co_slabs _ _ _ _ _ (v_ok _ _ _ _ _ HI)))|done|apply Hpg|apply U2|done]. }
    split; try done; rewrite Ek; [|done]. unfold valid. rewrite (sh_largest _ _ step_shape). apply Hpg.
  - change (has_flag (payload (ith c' b)) ITEM_CHUNK = false). by rewrite Hp.
  - rewrite Es, (proj1 (shape_size _ _ _ step_shape (ap_valid _ _ Hpg))).
    change (ITEM_ntotal (ith c' b)) with (ITEM_ntotal (payload (ith c' b))). by rewrite Hp.
Qed.

Lemma step_cleared b : cleared c b → chunk (slab c) (sid r) b → cleared c' b.
Proof using HI Hpg HC Hch.
  intros Hcl Hb. destruct (decide (b = slab_pos r)) as [->|Hne].
  - pose proof (cs_pos _ _ _ _ _ _ _ _ _ _ HC) as Hp. destruct (cs_why _ _ _ _ _ _ _ _ _ _ HC) as [->|Hu]; [by apply Hp|].
    exfalso. by eapply not_use_cleared.
  - eapply (moved_cleared (slab_pos r) c c' (sid r)); [apply (cs_moved _ _ _ _ _ _ _ _ _ _ HC)|apply Hpg| |done|done].
    by apply cleared_held.
Qed.

Lemma step_settled : settled c' r'.
Proof using All.
  intros b Hb Hr. destruct step_sid as [Es Er]. rewrite Es in *. apply Er in Hr.
  apply (sh_chunk _ _ step_shape) in Hb; [|apply Hpg].
  destruct (decide (b = slab_pos r)) as [->|Hne].
  { pose proof (cs_pos _ _ _ _ _ _ _ _ _ _ HC) as Hp. destruct (bz =? 0); [right; right; apply Hp|].
    destruct Hp as [|[[P1 P2 P3] _]]; [by left|]. right. left. split; [done|done|by rewrite Es]. }
  destruct (Hset b Hb Hr) as [Hf|[Hpl|Hcl]].
  - destruct (cs_page _ _ _ _ _ _ _ _ _ _ HC b Hf Hr) as [|[? _]]; auto.
  - right. left. by apply step_plain.
  - right. right. by apply step_cleared.
Qed.

(** The keys after a look at the chunk. *)
Lemma step_carried : carried r c c'.
Proof using HI HC Hra.
  set (a := slab_pos r) in *.
  assert (∀ k e, amap (table c) !! k = Some e → used c (it_id e) ∧ key (ith c (it_id e)) = k ∧ e = mkItem k (it_id e)) as Hmap.
  { intros k e He. destruct (co_map _ _ _ _ _ (v_ok _ _ _ _ _ HI) k e He) as (id & Hid & Hin & Hk); [apply not_elem_of_nil|].
    destruct (inv_queued _ _ _ c L _ id HI Hid Hin) as (Hu & _ & _ & _ & Hm). rewrite Hk in Hm. split_and!; try done. congruence. }
  assert (∀ k e, amap (table c) !! k = Some e → it_id e ≠ a → payload (ith c' (it_id e)) = payload (ith c (it_id e))) as Hpay.
  { intros k e He Hne. destruct (Hmap k e He) as [Hu _].
    by apply (mv_held _ _ _ (cs_moved _ _ _ _ _ _ _ _ _ _ HC) _ (it_id e) (u_valid _ _ _ Hu) (used_held _ _ Hu)). }
  destruct (cs_fate _ _ _ _ _ _ _ _ _ _ HC) as [[Hsame Ht]|(Hu & Hlk & Hcase)].
  { unfold carried. rewrite Ht. split; [done|]. intros k e He. left. split; [done|].
    destruct Hsame as [->|Hn]; [done|]. apply (Hpay k); [done|]. intros E. apply Hn. unfold a in *. rewrite <-E. by eapply Hmap. }
  fold a in Hu, Hlk, Hcase.
  destruct (v_flag _ _ _ _ _ HI a Hu Hlk) as (id & Hid & Hin). destruct (inv_queued _ _ _ c L a id HI Hid Hin) as (_ & _ & _ & _ & Hma).
  assert (∀ k e, amap (table c) !! k = Some e → k ≠ key (ith c a) → it_id e ≠ a) as Hother.
  { intros k e He Hne E. destruct (Hmap k e He) as (_ & Hk & _). rewrite E in Hk. congruence. }
  destruct Hcase as [(new & Hun & Hnr & Hsi & Hm)|[Hm _]]; unfold carried; rewrite Hm.
  - split; [intros k Hk; rewrite lookup_insert_ne; [done|congruence]|]. intros k e He.
    destruct (decide (k = key (ith c a))) as [->|Hne].
    + rewrite He in Hma. injection Hma as ->. right. split; [done|]. right. exists new. rewrite lookup_insert_eq. done.
    + left. rewrite lookup_insert_ne by done. eauto.
  - split; [intros k Hk; by rewrite lookup_delete_None; right|]. intros k e He.
    destruct (decide (k = key (ith c a))) as [->|Hne].
    + rewrite He in Hma. injection Hma as ->. right. split; [done|]. left. apply lookup_delete_eq.
    + left. rewrite lookup_delete_ne by done. eauto.
Qed.

(** The items of the page that have been seen are gone, when nobody else works on the others. *)
Lemma step_idle p :
  (∀ hv, trylock hv = true) → slab_pos r ≤ p → idle c r p → idle c' r' (Z.max p (slab_pos r + size (cls (slab c) (sid r)))).
Proof using All.
  intros Hlock Hp Hidle b Hb Hr Hpl. destruct step_sid as [Es Er]. rewrite Es in *. apply Er in Hr.
  apply (sh_chunk _ _ step_shape) in Hb; [|apply Hpg].
  pose proof (s_pages _ _ (co_slabs _ _ _ _ _ (v_ok _ _ _ _ _ HI))) as Hpgs.
  destruct (cs_inv _ _ _ _ _ _ _ _ _ _ HC) as [L' HI'].
  assert (valid (slab c') (sid r)) as Hv' by (unfold valid; rewrite (sh_largest _ _ step_shape); apply Hpg).
  assert (b ∉ free_list (slab c') (sid r)) as Hnf by (apply (use_not_free _ _ (v_ok _ _ _ _ _ HI')); [apply Hpl|done]).
  assert (¬ cleared c' b) as Hnc by (intros Hc; eapply not_use_cleared; [exact Hc|apply Hpl]).
  assert (∀ b, chunk (slab c) (sid r) b → in_range r b → plain c r b → b ≠ slab_pos r → slab_pos r ≤ b →
    slab_pos r + size (cls (slab c) (sid r)) ≤ b) as Hgrid.
  { intros b' Hb' Hr' _ Hne Hle. destruct (proj1 (page_chunk_index st (slab c) r b' Hpgs Hpg)) as (i & Hi & ->); [done|].
    destruct (proj1 (page_chunk_index st (slab c) r (slab_pos r) Hpgs Hpg)) as (j & Hj & E); [done|]. rewrite E in *.
    destruct (p_size _ _ Hpgs _ (ap_valid _ _ Hpg)) as (Hs & _).
    assert (i ≠ j) by congruence. assert (j < i) by nia. nia. }
  destruct (decide (b = slab_pos r)) as [->|Hne].
  - exfalso. pose proof (cs_pos _ _ _ _ _ _ _ _ _ _ HC) as Hpos. destruct (bz =? 0); [by apply Hnc, Hpos|].
    destruct Hpos as [Hf|[_ Hl]]; [done|]. destruct (Hset _ Hb Hr) as [Hf|[Hpl'|Hcl]].
    + destruct (cs_page _ _ _ _ _ _ _ _ _ _ HC _ Hf Hr) as [|[? _]]; done.
    + destruct (Hidle _ Hb Hr Hpl') as (_ & H1 & H2). specialize (Hl H1 H2). by rewrite Hlock in Hl.
    + by apply Hnc, step_cleared.
  - destruct (Hset b Hb Hr) as [Hf|[Hpl'|Hcl]].
    + destruct (cs_page _ _ _ _ _ _ _ _ _ _ HC _ Hf Hr) as [|[? _]]; done.
    + destruct (Hidle b Hb Hr Hpl') as (H0 & H1 & H2). specialize (Hgrid b Hb Hr Hpl' Hne ltac:(lia)).
      destruct (step_plain b Hpl' Hb Hne) as [_ Hpay]. destruct (payload_refcount _ _ Hpay) as (-> & Hfl & _).
      split; [lia|]. unfold is_linked, has_flag in *. by rewrite Hfl.
    + by destruct Hnc; apply step_cleared.
Qed.

(** The state before the next look. *)
Lemma step_passing :
  passing n c r → passing N c' (set_pos (slab_pos r' + size (cls (slab c') (sid r'))) r').
Proof using All.
  intros [_ _ _ (j & Hj & Ej & Hb) Hsw]. pose proof (s_pages _ _ (co_slabs _ _ _ _ _ (v_ok _ _ _ _ _ HI))) as Hpgs.
  destruct (p_size _ _ Hpgs _ (ap_valid _ _ Hpg)) as (Hsz & _). destruct step_sid as [Es Er].
  destruct (shape_size _ _ _ step_shape (ap_valid _ _ Hpg)) as [E1 E2].
  destruct (cs_rebal _ _ _ _ _ _ _ _ _ _ HC) as ((S1 & S2 & S3 & S4 & S5) & P1 & P2 & P3 & P4).
  pose proof step_page as [Q1 Q2 Q3].
  assert (j < perslab (cls (slab c) (sid r))) as Hjlt.
  { pose proof (ap_end _ _ Hpg) as He. unfold in_range in Hra. nia. }
  split.
  - apply (cs_inv _ _ _ _ _ _ _ _ _ _ HC).
  - by split.
  - by eapply settled_same; [|exact step_settled].
  - exists (j + 1). change (sid (set_pos _ _)) with (sid r'). change (slab_start (set_pos ?x r')) with (slab_start r').
    change (slab_pos (set_pos ?x r')) with x. change (busy_items (set_pos ?x r')) with (busy_items r').
    rewrite Es, E1, E2, S1, P1, Ej. lia.
  - change (busy_items (set_pos ?x r')) with (busy_items r'). change (sid (set_pos _ _)) with (sid r').
    change (slab_pos (set_pos ?x r')) with x. intros H0 b Hcb Hrb Hlt. rewrite Es, E1 in *. rewrite P1 in Hlt.
    assert (in_range r b) as Hrb' by by apply Er. apply (sh_chunk _ _ step_shape) in Hcb; [|apply Hpg].
    destruct (decide (b = slab_pos r)) as [->|Hne].
    + pose proof (cs_pos _ _ _ _ _ _ _ _ _ _ HC) as Hp. assert (bz = 0) as -> by lia. by apply Hp.
    + apply step_cleared; [|done]. apply Hsw; [lia|done|done|].
      destruct (proj1 (page_chunk_index st (slab c) r b Hpgs Hpg)) as (i & Hi & ->); [done|].
      assert (i ≠ j) by congruence. assert (i < j) by nia. nia.
Qed.
End Step.

(** ** The loop *)

Lemma same_page_trans r1 r2 r3 : same_page r1 r2 → same_page r2 r3 → same_page r1 r3.
Proof. unfold same_page. intuition congruence. Qed.

Lemma carried_same r r' c c' : same_page r r' → carried r' c c' → carried r c c'.
Proof. intros (E1 & E2 & _). unfold carried, in_range. by rewrite E1, E2. Qed.

Lemma passing_chunk N c r L :
  passing N c r → inv N c L → slab_pos r < slab_end r → chunk (slab c) (sid r) (slab_pos r) ∧ in_range r (slab_pos r).
Proof.
  intros [_ Hpg _ (j & Hj & E & _) _] HI Hlt. pose proof (s_pages _ _ (co_slabs _ _ _ _ _ (v_ok _ _ _ _ _ HI))) as Hpgs.
  apply (page_chunk_index st (slab c) r _ Hpgs Hpg). exists j. split; [|done].
  destruct (p_size _ _ Hpgs _ (ap_valid _ _ Hpg)) as (Hsz & _). pose proof (ap_end _ _ Hpg). nia.
Qed.

Lemma move_loop_ok k n c r w :
  passing (S (S n)) c r → slab_pos r < slab_end r →
  ∃ c' r' w', move_loop st hash now trylock k c r w = Some (c', r', w') ∧
    passing (S (S n)) c' r' ∧ carried r c c' ∧ same_page r r' ∧ same_shape (slab c) (slab c') ∧
    slab_pos r' = Z.min (slab_end r) (slab_pos r + Z.of_nat k * size (cls (slab c) (sid r))) ∧
    w' - w = busy_items r' - busy_items r ∧ busy_loops r' = busy_loops r ∧ ∀ p, (∀ hv, trylock hv = true) → slab_pos r ≤ p → idle c r p →
      ∃ p', p ≤ p' ∧ slab_pos r' ≤ p' ∧ idle c' r' p' ∧ (slab_end r ≤ p → busy_items r' = busy_items r).
Proof.
  revert c r w. induction k as [|k IH]; intros c r w HP Hlt; cbn [move_loop].
  { exists c, r, w. split_and!; try done; [apply carried_refl|lia|lia|]. intros p _ Hp Hi. by exists p. }
  destruct (ps_inv _ _ _ HP) as [L HI]. destruct (passing_chunk _ c r L HP HI Hlt) as [Hch Hra].
  pose proof (ps_page _ _ _ HP) as Hpg. pose proof (ps_settled _ _ _ HP) as Hset.
  assert (0 ≤ busy_items r < two32 - 1) as Hbusy.
  { destruct (ps_pos _ _ _ HP) as (j & Hj & Ej & Hbj). destruct (v_fits _ _ _ _ _ HI _ (ap_valid _ _ Hpg)) as [_ Hf].
    destruct (p_list _ _ (s_pages _ _ (co_slabs _ _ _ _ _ (v_ok _ _ _ _ _ HI))) (sid r)) as [Hsl _].
    destruct (p_size _ _ (s_pages _ _ (co_slabs _ _ _ _ _ (v_ok _ _ _ _ _ HI))) _ (ap_valid _ _ Hpg)) as (_ & Hps & _).
    set (k' := slabs _ + _ + 1) in Hf. assert (3 ≤ k') by lia. clearbody k'. unfold two32 in *. nia. }
  destruct (move_chunk_step n c L r HI Hpg Hch Hra Hset Hbusy) as (c1 & r1 & bz & -> & HC). cbn [mbind option_bind].
  pose proof (step_passing _ _ c c1 L r r1 bz HI Hpg Hch Hra Hset HC HP) as HP1.
  pose proof (step_shape _ _ _ _ _ _ HC) as Hsh.
  destruct (shape_size _ _ _ Hsh (ap_valid _ _ Hpg)) as [E1 _].
  destruct (cs_rebal _ _ _ _ _ _ _ _ _ _ HC) as (Hsp & P1 & P2 & P3 & P4). destruct (step_sid _ _ _ _ _ _ HC) as [Es _].
  fold (sid r1) in *. change (slabclass (slab c1) !!! sid r1) with (cls (slab c1) (sid r1)).
  set (r2 := set_pos _ r1) in *.
  assert (same_page r r2) as Hsp2 by exact Hsp.
  assert (slab_pos r2 = slab_pos r + size (cls (slab c) (sid r))) as Epos by (unfold r2; cbn; rewrite P1, Es, E1; done).
  assert (slab_end r2 = slab_end r) as Eend by apply Hsp2.
  pose proof (step_carried _ _ c c1 L r r1 bz HI Hra HC) as Hcar.
  pose proof (ap_end _ _ Hpg) as He. destruct (ps_pos _ _ _ HP) as (j & Hj & Ej & Hbj).
  destruct (p_size _ _ (s_pages _ _ (co_slabs _ _ _ _ _ (v_ok _ _ _ _ _ HI))) _ (ap_valid _ _ Hpg)) as (Hsz & _).
  assert (∀ p, (∀ hv, trylock hv = true) → slab_pos r ≤ p → idle c r p →
    ∃ p', p ≤ p' ∧ slab_pos r2 ≤ p' ∧ idle c1 r2 p' ∧ (slab_end r ≤ p → bz = 0)) as Hidle.
  { intros p Hl Hp Hi. exists (Z.max p (slab_pos r + size (cls (slab c) (sid r)))). split_and!; [lia|lia|..].
    - eapply idle_same; [|exact (step_idle _ _ c c1 L r r1 bz HI Hpg Hch Hra Hset HC p Hl Hp Hi)]. done.
    - intros Hge. destruct (cs_why _ _ _ _ _ _ _ _ _ _ HC) as [|Hu]; [done|]. exfalso.
      destruct (Hset _ Hch Hra) as [Hf|[Hpl|Hcl]].
      + by apply (use_not_free _ _ (v_ok _ _ _ _ _ HI) _ (sid r) Hu (ap_valid _ _ Hpg)).
      + destruct (Hi _ Hch Hra Hpl). lia.
      + by eapply not_use_cleared. }
  assert (slab_pos r + size (cls (slab c) (sid r)) ≤ slab_end r) as Hle by (assert (j < perslab (cls (slab c) (sid r))) by nia; nia).
  destruct (Z.leb_spec (slab_end r2) (slab_pos r2)) as [Hend|Hend].
  - exists c1, r2, (w + bz). split_and!; try done; [rewrite Epos; assert (0 ≤ Z.of_nat k * size (cls (slab c) (sid r))) by nia; lia|change (busy_items r2) with (busy_items r1); lia|].
    intros p Hl Hp Hi. destruct (Hidle p Hl Hp Hi) as (p' & ? & ? & ? & Hz). exists p'. split_and!; try done.
    intros Hge. change (busy_items r2) with (busy_items r1). rewrite P2, (Hz Hge). lia.
  - destruct (IH c1 r2 (w + bz) HP1 Hend) as (c' & r' & w' & -> & HP' & Hcar' & Hsp' & Hsh' & Hpos' & Hw' & Hbl' & Hid').
    change (busy_items r2) with (busy_items r1) in *. change (sid r2) with (sid r1) in *.
    exists c', r', w'. split_and!; try done.
    + eapply carried_trans; [exact Hcar|]. by eapply carried_same.
    + by eapply same_page_trans.
    + by eapply same_shape_trans.
    + rewrite Hpos', Epos, Eend, Es, E1. lia.
    + lia.
    + rewrite Hbl'. exact P3.
    + intros p Hl Hp Hi. destruct (Hidle p Hl Hp Hi) as (p1 & H1 & H2 & H3 & Hz).
      destruct (Hid' p1 Hl H2 H3) as (p' & G1 & G2 & G3 & Gz). exists p'. split_and!; [lia|done|done|].
      intros Hge. rewrite Gz by lia. rewrite P2, (Hz Hge). lia.
Qed.
End Pass.
