(* ===== verification/SlabThread.v ===== *)
(** The rebalancer thread of [extra/KVS-DRAM-Cache/slabs.c]: a page is chosen, emptied in passes,
    and given to its new class or to the pool. *)

From S2P Require Import Prelude Item Slabs Assoc Items Itoa ItemFrame ItemInv ItemAlloc ItemAllocSpec ItemNew LruMaintainer ItemOps.
From S2P Require Import SlabRebalance SlabMove SlabMover SlabPass.

Section Thread.
Context (st : alloc_settings) (hash : bytes → Z) (now : Z) (trylock : Z → bool).
Abbreviation inv := (ItemInv.inv (item_st st) hash).
Abbreviation sst := (slab_settings (item_st st)).
Abbreviation passing := (SlabPass.passing st hash).
Abbreviation move := (slab_rebalance_move st hash now trylock).

(** No chunk of the page is on the free list or an item. *)
Definition emptied (c : cache) (r : slab_rebalance) : Prop :=
  ∀ b, chunk (slab c) (sid r) b → in_range r b → cleared c b.

(** The mover is at work on its page. *)
Record moving (N : nat) (m : mover) : Prop := {
  mg_passing : passing N (m_cache m) (rebal m);
  mg_pos : slab_pos (rebal m) < slab_end (rebal m);
  mg_done : done_ (rebal m) = 0
}.

Lemma end_pass_page r : slab_start (end_pass r) = slab_start r ∧ slab_end (end_pass r) = slab_end r ∧
  s_clsid (end_pass r) = s_clsid r ∧ d_clsid (end_pass r) = d_clsid r.
Proof. unfold end_pass. destruct (_ <=? _); [|done]. by destruct (busy_items r =? 0). Qed.

Lemma settled_page c r r' :
  slab_start r' = slab_start r → slab_end r' = slab_end r → s_clsid r' = s_clsid r → settled c r → settled c r'.
Proof.
  intros E1 E2 E3 H b. unfold sid, in_range. rewrite E1, E2, E3. intros Hb Hr.
  destruct (H b Hb Hr) as [|[Hp|]]; auto. right. left. by eapply plain_same.
Qed.

Lemma end_pass_passing N c r :
  passing N c r → done_ r = 0 →
  passing N c (end_pass r) ∧
  if done_ (end_pass r) =? 0 then slab_pos (end_pass r) < slab_end (end_pass r) else done_ (end_pass r) = 1 ∧ emptied c (end_pass r).
Proof.
  intros HP Hd. pose proof HP as [(L & HI) Hpg Hset (j & Hj & Ej & Hb) Hsw]. destruct (end_pass_page r) as (E1 & E2 & E3 & _).
  assert (sid (end_pass r) = sid r) as Es by (unfold sid; by rewrite E3).
  assert (at_page (slab c) (end_pass r)) as Hpg' by (destruct Hpg as [A1 A2 A3]; split; rewrite Es, ?E1, ?E2; done).
  assert (settled c (end_pass r)) as Hset' by by eapply settled_page.
  destruct (p_size _ _ (s_pages _ _ (co_slabs _ _ _ _ _ (v_ok _ _ _ _ _ HI))) _ (ap_valid _ _ Hpg)) as (Hsz & Hps & _).
  pose proof (ap_end _ _ Hpg) as He. revert Hpg' Hset' E1 E2 Es. clear E3.
  unfold end_pass. destruct (Z.leb_spec (slab_end r) (slab_pos r)) as [Hend|Hend]; [|intros; rewrite Hd; done].
  destruct (Z.eqb_spec (busy_items r) 0) as [H0|H0]; cbn [negb]; intros Hpg' Hset' E1 E2 Es.
  - split; [split; try done; [by exists L|by exists j]|]. cbn [done_]. rewrite Hd. cbn [Z.add Z.eqb]. split; [done|].
    intros b Hcb Hrb. apply Hsw; try done. unfold in_range in Hrb. cbn [slab_start slab_end] in Hrb. lia.
  - split; [split; try done; [by exists L| |]|].
    + exists 0. split; [change (0 <= 0 <= perslab (cls (slab c) (sid r))); lia|]. cbn [slab_pos slab_start busy_items]. lia.
    + intros _ b _ Hrb Hlt. unfold in_range in Hrb. cbn [slab_start slab_pos] in *. lia.
    + cbn [done_ slab_pos slab_end]. rewrite Hd. cbn [Z.eqb]. rewrite He. nia.
Qed.

(** ** A call of [slab_rebalance_move] *)

Lemma move_call n bulk m :
  moving (S (S n)) m →
  ∃ m' w, move bulk m = Some (m', w) ∧ passing (S (S n)) (m_cache m') (rebal m') ∧ carried (rebal m) (m_cache m) (m_cache m') ∧
    same_shape (slab (m_cache m)) (slab (m_cache m')) ∧
    (if done_ (rebal m') =? 0 then slab_pos (rebal m') < slab_end (rebal m')
     else done_ (rebal m') = 1 ∧ emptied (m_cache m') (rebal m')) ∧
    ∃ r', rebal m' = end_pass r' ∧ same_page (rebal m) r' ∧
      slab_pos r' = Z.min (slab_end (rebal m)) (slab_pos (rebal m) + Z.of_nat bulk * size (cls (slab (m_cache m)) (sid (rebal m)))) ∧
      w = busy_items r' - busy_items (rebal m) ∧
      ∀ p, (∀ hv, trylock hv = true) → slab_pos (rebal m) ≤ p → idle (m_cache m) (rebal m) p →
        ∃ p', p ≤ p' ∧ slab_pos r' ≤ p' ∧ idle (m_cache m') r' p' ∧ (slab_end (rebal m) ≤ p → w = 0).
Proof.
  intros [HP Hlt Hd]. unfold slab_rebalance_move.
  destruct (move_loop_ok st hash now trylock bulk n _ _ 0 HP Hlt) as (c' & r' & w & -> & HP' & Hcar & Hsp & Hsh & Hpos & Hw & _ & Hidle).
  cbn [mbind option_bind]. do 2 eexists. split; [done|]. cbn [m_cache rebal].
  destruct (end_pass_passing _ c' r' HP') as [HP2 Hdone]; [destruct Hsp as (_ & _ & _ & _ & ->); done|].
  split_and!; try done. exists r'. split_and!; try done; [lia|]. intros p Hl Hp Hi.
  destruct (Hidle p Hl Hp Hi) as (p' & ? & ? & ? & Hz). exists p'. split_and!; try done. intros Hge. specialize (Hz Hge). lia.
Qed.

(** A pass over a page that nobody works on leaves no item in it; the next one finds it empty. *)
Lemma pass_call n bulk m :
  moving (S (S n)) m → slab_pos (rebal m) = slab_start (rebal m) → busy_items (rebal m) = 0 →
  perslab (cls (slab (m_cache m)) (sid (rebal m))) ≤ Z.of_nat bulk →
  (∀ hv, trylock hv = true) → ∀ p, slab_start (rebal m) ≤ p → idle (m_cache m) (rebal m) p →
  ∃ m' w, move bulk m = Some (m', w) ∧
    (done_ (rebal m') = 1 ∨
     p < slab_end (rebal m) ∧ moving (S (S n)) m' ∧ slab_pos (rebal m') = slab_start (rebal m') ∧ busy_items (rebal m') = 0 ∧
     perslab (cls (slab (m_cache m')) (sid (rebal m'))) ≤ Z.of_nat bulk ∧ slab_start (rebal m') ≤ slab_end (rebal m') ∧
     idle (m_cache m') (rebal m') (slab_end (rebal m'))).
Proof.
  intros HM Hpos Hbusy Hbulk Hlock p Hp Hidle. pose proof HM as [HP Hlt Hd].
  destruct (move_call n bulk m HM) as (m' & w & E & HP' & _ & Hsh & Hdone & r' & Er & Hsp & Hpos' & Hw & Hid).
  exists m', w. split; [done|]. pose proof (ps_page _ _ _ _ _ HP) as Hpg. pose proof (ap_end _ _ Hpg) as He.
  destruct (ps_inv _ _ _ _ _ HP) as [L HI].
  destruct (p_size _ _ (s_pages _ _ (co_slabs _ _ _ _ _ (v_ok _ _ _ _ _ HI))) _ (ap_valid _ _ Hpg)) as (Hsz & Hps & _).
  destruct (Hid p Hlock) as (p' & Hp1 & Hp2 & Hi' & Hz); [lia|done|]. pose proof Hsp as (S1 & S2 & S3 & S4 & S5).
  assert (slab_pos r' = slab_end r') as Hend by (rewrite S2; nia).
  destruct (end_pass_page r') as (F1 & F2 & F3 & F4).
  destruct (decide (done_ (rebal m') = 0)) as [H0|H0]; [right|left].
  2: { rewrite (proj2 (Z.eqb_neq _ _) H0) in Hdone. apply Hdone. }
  rewrite H0 in Hdone. cbn [Z.eqb] in Hdone.
  assert (busy_items r' ≠ 0) as Hbz.
  { intros Hb0. rewrite Er in H0. unfold end_pass in H0. rewrite Hend, Z.leb_refl, Hb0 in H0. cbn [negb Z.eqb done_] in H0. rewrite S5, Hd in H0. done. }
  assert (rebal m' = mkRebal (slab_start r') (slab_end r') (slab_start r') (s_clsid r') (d_clsid r') 0 (rescues r')
    (evictions_nomem r') (inline_reclaim r') (chunk_rescues r') (busy_deletes r') (u32 (busy_loops r' + 1)) (done_ r')) as Em.
  { rewrite Er. unfold end_pass. by rewrite Hend, Z.leb_refl, (proj2 (Z.eqb_neq _ _) Hbz). }
  assert (sid (rebal m') = sid (rebal m)) as Es by (unfold sid; rewrite Em; cbn; by rewrite S3).
  split_and!.
  - destruct (Z.lt_ge_cases p (slab_end (rebal m))) as [|Hge]; [done|]. specialize (Hz Hge). lia.
  - by split.
  - by rewrite Em.
  - by rewrite Em.
  - rewrite Es. by rewrite (proj2 (shape_size _ _ _ Hsh (ap_valid _ _ Hpg))).
  - rewrite Em. cbn. rewrite S1, S2. nia.
  - intros b Hcb Hrb Hplb. exfalso. destruct (Hi' b) as [Hb _].
    + unfold sid in *. rewrite Em in Hcb. exact Hcb.
    + unfold in_range in *. rewrite Em in Hrb. exact Hrb.
    + eapply plain_same; [|exact Hplb]. by rewrite Em.
    + unfold in_range in Hrb. rewrite Em in Hrb. cbn in Hrb. lia.
Qed.

(** ** Starting *)

(** The mover takes on the first page of its class. *)
Lemma start_ok n m L :
  inv (S n) (m_cache m) L → let r := rebal m in let s := slab (m_cache m) in
  valid s (sid r) → 0 ≤ s_clsid r → 0 ≤ d_clsid r ≤ Z.of_nat (power_largest s) → s_clsid r ≠ d_clsid r → 2 ≤ slabs (cls s (sid r)) →
  slabs (cls s (Z.to_nat (d_clsid r))) * 2 + 32 < two32 → busy_items r = 0 →
  (∀ p b, page s (sid r) 0 p → p ≤ b < p + size (cls s (sid r)) * perslab (cls s (sid r)) → chunk s (sid r) b →
     b ∈ free_list s (sid r) ∨ plain (m_cache m) r b) →
  ∃ m', slab_rebalance_start true m = (m', 0) ∧ moving n m' ∧ signal m' = 2 ∧
    slab_pos (rebal m') = slab_start (rebal m') ∧ busy_items (rebal m') = 0 ∧ s_clsid (rebal m') = s_clsid r ∧ d_clsid (rebal m') = d_clsid r ∧
    slabs (cls (slab (m_cache m')) (Z.to_nat (d_clsid r))) < list_size (cls (slab (m_cache m')) (Z.to_nat (d_clsid r))) ∧
    ∀ b, (used (m_cache m') b ↔ used (m_cache m) b) ∧ (used (m_cache m) b → ith (m_cache m') b = ith (m_cache m) b).
Proof.
  intros HI r s Hv Hs0 Hd Hne Hsl Hroom Hbusy Hpage. pose proof (co_slabs _ _ _ _ _ (v_ok _ _ _ _ _ HI)) as Hok. fold s in Hok.
  assert (ok_with sst s (free_list s)) as How by (destruct Hok; by split).
  assert (Z.to_nat (d_clsid r) < length (slabclass s))%nat as Hdl.
  { rewrite (p_count _ _ (s_pages _ _ Hok)). pose proof (valid_lt sst s (sid r) (s_pages _ _ Hok) Hv) as H. unfold valid in Hv.
    pose proof (p_largest _ _ (s_pages _ _ Hok)). unfold MAX_NUMBER_OF_SLAB_CLASSES in *. lia. }
  pose proof (grow_ok sst s (free_list s) (Z.to_nat (d_clsid r)) true How Hdl Hroom) as Hgrow.
  unfold slab_rebalance_start. fold r s. rewrite (proj2 (Z.eqb_neq _ _) Hne).
  unfold valid, sid in Hv. unfold POWER_SMALLEST in *. rewrite (proj2 (Z.ltb_ge (s_clsid r) _)) by lia. rewrite (proj2 (Z.ltb_ge _ (s_clsid r))) by lia.
  rewrite (proj2 (Z.ltb_ge (d_clsid r) _)) by (unfold SLAB_GLOBAL_PAGE_POOL; lia). rewrite (proj2 (Z.ltb_ge _ (d_clsid r))) by lia. cbn [orb].
  assert (snd (grow_slab_list s (Z.to_nat (d_clsid r)) true) = true) as Htrue by (unfold grow_slab_list; by destruct (_ =? _)).
  destruct (grow_slab_list s (Z.to_nat (d_clsid r)) true) as [s1 ok]. cbn [snd] in Htrue. subst ok. destruct Hgrow as (How1 & Hview & Hslot & Hmem).
  fold (sid r). change (slabclass s1 !!! sid r) with (cls s1 (sid r)). destruct (sv_class _ _ Hview (sid r)) as (E1 & E2 & E3).
  rewrite (proj2 (Z.ltb_ge _ _)) by lia. cbn [Z.eqb negb].
  assert (valid s (sid r)) as Hvs by (unfold valid, sid; lia).
  assert (∀ i, valid s1 i ↔ valid s i) as Hvi by (intros i; apply (same_valid Hview)).
  assert (∀ i, valid s i → free_list s1 i = free_list s i) as Hfree by (intros i Hi; apply class_ok_free, (w_lists _ _ _ How1); by apply Hvi).
  assert (∀ i a, valid s i → held s1 i a ↔ held s i a) as Hheld by (intros i a Hi; unfold held; by rewrite (same_chunk Hview), Hfree).
  destruct (repage_inv _ hash n (m_cache m) L s1 HI) as [HI1 Hu1]; fold s.
  { by apply (ok_with_slabs_ok sst s1 (free_list s)). }
  { apply Hview. }
  { intros i Hi. destruct (sv_class _ _ Hview i) as (_ & -> & ->). split; [done|lia]. }
  { intros b Hu. rewrite Hmem. split; [|done]. apply Hheld; apply Hu. }
  { intros i b Hi Hb. left. rewrite Hmem. split; [by apply Hheld|done]. }
  set (c1 := with_slab (m_cache m) s1) in *.
  assert (∃ p, page s1 (sid r) 0 p) as [p Hp].
  { destruct (p_list _ _ (w_pages _ _ _ How1) (sid r)) as [Hl Hll]. destruct (slab_list (cls s1 (sid r))) as [|p l] eqn:E; [simpl in Hll; lia|].
    exists p. unfold page. rewrite E. split; [done|lia]. }
  assert (slab_list (cls s1 (sid r)) !!! 0%nat = p) as -> by (apply list_lookup_total_correct, Hp).
  eexists. split; [done|]. cbn [rebal m_cache signal slab_pos slab_start busy_items s_clsid d_clsid].
  destruct (p_size _ _ (w_pages _ _ _ How1) (sid r)) as (Hsz & Hps & _); [by apply Hvi|].
  split; [|split_and!; try done]. split; cbn [rebal m_cache slab_pos slab_end done_]; [|nia|done]. split.
  - by exists L.
  - split; [by apply Hvi|done|done].
  - intros b Hb Hr. apply (same_chunk Hview) in Hb. change (slab c1) with s1. rewrite Hfree by done.
    destruct (Hpage p b) as [Hf|[P1 P2 P3]]; [by apply (sv_page _ _ Hview)| |done|by left|].
    { unfold in_range in Hr. cbn [slab_start slab_end] in Hr. rewrite <-E1, <-E2. exact Hr. }
    right. left. assert (ith c1 b = ith (m_cache m) b) as Ei by by apply Hu1. split; [by apply Hu1|by rewrite Ei|]. rewrite Ei.
    change (sid (mkRebal _ _ _ _ _ _ _ _ _ _ _ _ _)) with (sid r). change (slab c1) with s1. by rewrite E1.
  - exists 0. cbn. change (sid (mkRebal _ _ _ _ _ _ _ _ _ _ _ _ _)) with (sid r). change (slab c1) with s1. lia.
  - intros _ b _ Hr Hlt. unfold in_range in Hr. cbn in Hr, Hlt. lia.
Qed.

(** ** Finishing *)

Lemma page_in_range s r b :
  pages_ok sst s → at_page s r → slab_reassign sst = true → chunk s (sid r) b →
  slab_start r ≤ b < slab_start r + slab_page_size sst → in_range r b.
Proof.
  intros Hp Hpg Hre (k & p & i & Hk & Hi & ->) Hr. pose proof Hpg as [Hv Hpage He].
  destruct (p_size _ _ Hp _ Hv) as (Hs & Hps & Hle). destruct (decide (k = 0%nat)) as [->|Hk0].
  - assert (p = slab_start r) as -> by (destruct Hk as [Hk _], Hpage as [Hpage _]; congruence). unfold in_range. nia.
  - exfalso. destruct (p_apart _ _ Hp _ _ _ _ _ _ Hk Hpage) as [Ha|Ha]; [congruence|..]; rewrite (plen_page sst Hre) in Ha; nia.
Qed.

Lemma finish_inv n c L r s' :
  inv (S n) c L → at_page (slab c) r → emptied c r → slab_reassign sst = true → slabs_ok sst s' →
  repaged (sid r) (slab_start r) (slab_page_size sst) (slab c) s' →
  inv n (with_slab c s') L ∧ ∀ b, (used (with_slab c s') b ↔ used c b) ∧ (used c b → ith (with_slab c s') b = ith c b).
Proof.
  intros HI Hpg Hem Hre Hs' [R1 R2 R3 R4]. pose proof (s_pages _ _ (co_slabs _ _ _ _ _ (v_ok _ _ _ _ _ HI))) as Hp.
  assert (∀ b, used c b → held s' (clsid_of (ith c b)) b) as Hup.
  { intros b Hu. apply R3; [apply Hu|]. split; [apply Hu|]. intros E Hr.
    assert (chunk (slab c) (sid r) b) as Hb by (rewrite <-E; apply Hu).
    eapply not_use_cleared; [|exact Hu]. apply Hem; [done|]. by apply (page_in_range (slab c)). }
  apply (repage_inv _ hash n c L s' HI Hs' R1).
  - intros i Hi. by destruct (R2 i Hi).
  - intros b Hu. split; [by apply Hup|]. apply (R4 (clsid_of (ith c b))); [apply Hu|by apply Hup].
  - intros i a Hi Ha. left. split; [by apply (R3 i)|by apply (R4 i)].
Qed.

Lemma finish_call n m L :
  inv (S n) (m_cache m) L → let r := rebal m in let s := slab (m_cache m) in let d := Z.to_nat (d_clsid r) in
  at_page s r → emptied (m_cache m) r → slab_reassign sst = true → d ≠ sid r → (d = 0%nat ∨ valid s d) →
  slabs (cls s d) < list_size (cls s d) → slabs (cls s d) + 1 < two32 →
  ∃ m', slab_rebalance_finish st m = Some m' ∧ inv n (m_cache m') L ∧ table (m_cache m') = table (m_cache m) ∧
    (∀ b, (used (m_cache m') b ↔ used (m_cache m) b) ∧ (used (m_cache m) b → ith (m_cache m') b = ith (m_cache m) b)) ∧
    repaged (sid r) (slab_start r) (slab_page_size sst) s (slab (m_cache m')) ∧
    (d ≠ 0%nat → page (slab (m_cache m')) d (Z.to_nat (slabs (cls s d))) (slab_start r)) ∧
    signal m' = 0 ∧ slab_start (rebal m') = 0 ∧ done_ (rebal m') = 0.
Proof.
  intros HI r s d Hpg Hem Hre Hne Hd Hslot Hw. pose proof (co_slabs _ _ _ _ _ (v_ok _ _ _ _ _ HI)) as Hok. fold s in Hok.
  assert (ok_with sst s (free_list s)) as How by (destruct Hok; by split).
  assert (∀ a, a ∈ free_list s (sid r) → ¬ (slab_start r <= a < slab_start r + slab_page_size sst)) as Hout.
  { intros a Ha Hr. assert (chunk s (sid r) a) as Hc by (apply (s_chunks _ _ Hok); [apply Hpg|done]).
    pose proof (Hem a Hc (page_in_range s r a (s_pages _ _ Hok) Hpg Hre Hc Hr)) as Hcl. unfold cleared in Hcl.
    change (ith (m_cache m) a) with (hdr (chunks_mem s) a) in Hcl.
    destruct (c_slabbed _ _ _ (l_class _ _ (s_lists _ _ Hok) (sid r) (ap_valid _ _ Hpg)) a Ha) as [Hf _]. rewrite Hf in Hcl. done. }
  assert (slabs (cls s (sid r)) ≤ two32) as Hnum by (destruct (v_fits _ _ _ _ _ HI _ (ap_valid _ _ Hpg)) as [Hf _]; fold s in Hf; unfold two32 in *; lia).
  assert (∃ s', (if (SLAB_GLOBAL_PAGE_POOL <? d)%nat
      then split_slab_page_into_freelist sst (with_mem (add_page (take_first_page s (sid r)) d (slab_start r))
        (zero_range (slab_start r) (slab_page_size sst) (chunks_mem (add_page (take_first_page s (sid r)) d (slab_start r))))) (slab_start r) d
      else Some (memory_release sst (add_page (take_first_page s (sid r)) d (slab_start r)))) = Some s' ∧ slabs_ok sst s' ∧
    repaged (sid r) (slab_start r) (slab_page_size sst) s s' ∧
    (d ≠ 0%nat → page s' d (Z.to_nat (slabs (cls s d))) (slab_start r))) as (s' & E & Hok' & Hrp & Hnew).
  { destruct Hd as [Hd|Hd].
    - rewrite Hd in *. cbn [SLAB_GLOBAL_PAGE_POOL Nat.ltb Nat.leb]. eexists. split; [done|].
      destruct (give_pool_ok sst s (free_list s) (sid r) (slab_start r) How (ap_valid _ _ Hpg) (ap_page _ _ Hpg) Hre Hnum Hout Hslot Hw) as [H1 H2].
      split_and!; try done. by apply (ok_with_slabs_ok sst _ (free_list s)).
    - rewrite (proj2 (Nat.ltb_lt _ _)) by (unfold valid, SLAB_GLOBAL_PAGE_POOL in *; lia).
      destruct (fits_room sst (S n) s d Hok (v_fits _ _ _ _ _ HI) Hd) as [_ Hroom].
      destruct (give_class_ok sst s (free_list s) (sid r) (slab_start r) How (ap_valid _ _ Hpg) (ap_page _ _ Hpg) Hre Hnum Hout d Hne Hslot Hw Hd Hroom)
        as (s' & E & H1 & H2 & H3). exists s'. by split_and!. }
  unfold slab_rebalance_finish. fold r s d. fold (sid r). cbv zeta. rewrite E. cbn [mbind option_bind]. eexists. split; [done|].
  cbn [m_cache signal rebal slab_start done_]. destruct (finish_inv n (m_cache m) L r s' HI Hpg Hem Hre Hok' Hrp) as [HI' Hu].
  split_and!; try done.
Qed.

(** ** Choosing *)

Lemma pick_loop_other tries s dst cur src cur' : pick_loop tries s dst cur = (src, cur') → src = -1 ∨ src ≠ dst.
Proof.
  revert cur. induction tries as [|tries IH]; intros cur; cbn [pick_loop]; [intros [= <- <-]; by left|].
  cbv zeta. set (x := if _ <? _ then _ else _). destruct (Z.eqb_spec x dst) as [|Hne]; [apply IH|].
  destruct (1 <? _); [intros [= <- <-]; by right|apply IH].
Qed.

(** What an accepted request has been checked for. *)
Lemma reassign_accepted m src dst m' :
  do_slabs_reassign m src dst = (m', REASSIGN_OK) →
  m_cache m' = m_cache m ∧ signal m = 0 ∧ signal m' = 1 ∧ busy_items (rebal m') = busy_items (rebal m) ∧
  let r := rebal m' in let s := slab (m_cache m) in
  valid s (sid r) ∧ 0 ≤ s_clsid r ∧ 0 ≤ d_clsid r ≤ Z.of_nat (power_largest s) ∧ d_clsid r = dst ∧ s_clsid r ≠ dst ∧
  (src ≠ -1 → s_clsid r = src) ∧ 2 ≤ slabs (cls s (sid r)).
Proof.
  unfold do_slabs_reassign. destruct (Z.eqb_spec (signal m) 0) as [Hs|Hs]; cbn [negb]; [|by intros [=]].
  destruct (Z.eqb_spec src dst) as [|Hne]; [by intros [=]|].
  destruct (if src =? -1 then _ else _) as [x cur] eqn:E. cbn [m_cache rebal signal pick_cur].
  assert ((x = -1 ∨ x ≠ dst) ∧ (src ≠ -1 → x = src)) as [Hx Hsrc].
  { destruct (Z.eqb_spec src (-1)) as [Hm|Hm]; [split; [by eapply pick_loop_other|done]|]. injection E as <- <-. auto. }
  destruct (_ || _) eqn:Eb; [by intros [=]|]. destruct (Z.ltb_spec (slabs (slabclass (slab (m_cache m)) !!! Z.to_nat x)) 2) as [|Hsl]; [by intros [=]|].
  intros [= <-]. cbn [m_cache rebal signal s_clsid d_clsid busy_items]. unfold POWER_SMALLEST, SLAB_GLOBAL_PAGE_POOL in Eb.
  apply orb_false_iff in Eb as [[[E1 E2]%orb_false_iff E3]%orb_false_iff E4]. apply Z.ltb_ge in E1, E2, E3, E4.
  split_and!; try done; unfold valid, sid; cbn [s_clsid]; try lia.
Qed.
End Thread.

(** ** The properties *)

Section Properties.
Context (st : alloc_settings) (hash : bytes → Z) (now : Z) (trylock : Z → bool).
Abbreviation inv := (ItemInv.inv (item_st st) hash).
Abbreviation sst := (slab_settings (item_st st)).

(** A request to move a page that [slabs_reassign] accepts is one that [slab_rebalance_start]
    can begin: the classes are in range and differ, the source has a page to spare, and when
    every chunk of its first page is free or an item the mover stands at the start of that page, with a slot for it
    in the list of the destination, and no item has changed. *)
Theorem reassign_starts n m L src dst m' :
  inv (S n) (m_cache m) L → busy_items (rebal m) = 0 → do_slabs_reassign m src dst = (m', REASSIGN_OK) →
  let r := rebal m' in let s := slab (m_cache m) in
  slabs (cls s (Z.to_nat dst)) * 2 + 32 < two32 →
  (∀ p b, page s (sid r) 0 p → p ≤ b < p + size (cls s (sid r)) * perslab (cls s (sid r)) → chunk s (sid r) b →
     b ∈ free_list s (sid r) ∨ plain (m_cache m) r b) →
  s_clsid r ≠ dst ∧ (src ≠ -1 → s_clsid r = src) ∧ 2 ≤ slabs (cls s (sid r)) ∧
  ∃ m'', slab_rebalance_start true m' = (m'', 0) ∧ moving st hash n m'' ∧ signal m'' = 2 ∧
    slab_pos (rebal m'') = slab_start (rebal m'') ∧ s_clsid (rebal m'') = s_clsid r ∧ d_clsid (rebal m'') = dst ∧
    slabs (cls (slab (m_cache m'')) (Z.to_nat dst)) < list_size (cls (slab (m_cache m'')) (Z.to_nat dst)) ∧
    ∀ b, (used (m_cache m'') b ↔ used (m_cache m) b) ∧ (used (m_cache m) b → ith (m_cache m'') b = ith (m_cache m) b).
Proof.
  intros HI Hb E r s Hroom Hpage. destruct (reassign_accepted m src dst m' E) as (Ec & _ & Hsig & Eb & Hv & H0 & Hd & Ed & Hne & Hsrc & Hsl).
  fold r s in Hv, H0, Hd, Ed, Hne, Hsrc, Hsl. split_and!; try done.
  destruct (start_ok st hash n m' L) as (m'' & E' & HM & Hs2 & Hpos & _ & Es & Edd & Hslot & Hu); rewrite ?Ec; fold r; try done; [by rewrite Ed..|unfold r; by rewrite Eb|].
  rewrite Ec in Hu. fold r in Es, Edd, Hslot. exists m''. rewrite Ed in *. split_and!; try done.
Qed.

(** C25: a call of [slab_rebalance_move] returns, whatever the items of the page are up to and whichever locks it
    gets.  The cache stays consistent, and every key leads to what it led to before, or to a copy
    of the item outside the page, or to nothing if its item was in the page.  The call says it is
    done only when every chunk of the page is off the free list and no item. *)
Theorem rebalance_move_ok n bulk m :
  moving st hash (S (S n)) m →
  ∃ m' w, slab_rebalance_move st hash now trylock bulk m = Some (m', w) ∧
    SlabPass.passing st hash (S (S n)) (m_cache m') (rebal m') ∧ carried (rebal m) (m_cache m) (m_cache m') ∧
    if done_ (rebal m') =? 0 then moving st hash (S (S n)) m' else emptied (m_cache m') (rebal m').
Proof.
  intros HM. destruct (move_call st hash now trylock n bulk m HM) as (m' & w & E & HP & Hcar & _ & Hd & _).
  exists m', w. split_and!; try done. destruct (Z.eqb_spec (done_ (rebal m')) 0); [by split|apply Hd].
Qed.


End Properties.

(** The slot that the start finds in the list of the destination is not kept for the mover: a page
    that the class gets in the meantime takes it, and the index that [slab_rebalance_finish] writes at is past the end of the array. *)
Lemma slot_taken st s d p :
  pages_ok st s → valid s d → slabs (cls s d) + 1 = list_size (cls s d) → list_size (cls s d) < two32 →
  grow_slab_list s d true = (s, true) ∧
  let s' := add_page s d p in slab_list (cls s' d) !! Z.to_nat (slabs (cls s' d)) = None.
Proof.
  intros Hp Hd Hs Hw. split.
  - unfold grow_slab_list. fold (cls s d). by rewrite (proj2 (Z.eqb_neq _ _)) by lia.
  - cbv zeta. rewrite (add_page_cls st s d p Hp Hd) by lia. cbn [slab_list slabs]. destruct (p_list _ _ Hp d) as [_ Hl].
    apply lookup_ge_None_2. rewrite length_insert. lia.
Qed.

(** ** A page on the move

    Class 2 has two pages of five chunks; the only item is in the first one. *)

Definition os_8192 : os := mkOs true 8192.
Definition twice : slab_state :=
  match do_slabs_newslab small_settings taken 2 os_8192 with Some (s, _) => s | None => taken end.

Lemma taken_malloc : malloc_ok small_settings taken 2 os_8192.
Proof.
  intros _. right. split; [done|]. intros id k q [Hk Hlt]. right. rewrite plen_page by done.
  assert (forallb (λ c, (slabs c =? 0) || (hd 0 (slab_list c) =? 4096) && (slabs c =? 1)) (slabclass taken) = true) as Hall
    by (vm_compute; reflexivity).
  assert (length (slabclass taken) = 64%nat) as Hlen by (vm_compute; reflexivity).
  unfold cls in *. generalize dependent (slabclass taken). intros l Hk Hlt Hall Hlen. destruct (decide (id < 64)%nat) as [Hid|Hid].
  - destruct (lookup_lt_is_Some_2 l id) as [x Hx]; [lia|].
    rewrite (list_lookup_total_correct _ _ _ Hx) in *. assert (In x l) as Hin by (apply list_elem_of_In; by eapply list_elem_of_lookup_2).
    pose proof (proj1 (forallb_forall _ _) Hall x Hin) as Hx'.
    cbv beta in Hx'. apply orb_true_iff in Hx' as [Hx'%Z.eqb_eq|[H4%Z.eqb_eq H1%Z.eqb_eq]%andb_true_iff]; [lia|]. assert (k = 0%nat) as -> by lia.
    destruct (slab_list x) as [|p t]; [done|]. injection Hk as <-. unfold os_8192, small_settings. cbn in *. lia.
  - rewrite list_lookup_total_alt, lookup_ge_None_2 in Hlt by lia. simpl in Hlt. lia.
Qed.

Lemma twice_ok : slabs_ok small_settings twice ∧ held twice 2 item_a.
Proof.
  destruct taken_ok as [Hok Hh]. assert (valid taken 2) as Hv by (vm_compute; lia).
  destruct (newslab_ok small_settings taken 2 os_8192 Hok Hv) as (s1 & ok & Hs1 & Hok1 & Hk1 & _); [by vm_compute|exact taken_malloc|].
  unfold twice. rewrite Hs1. split; [exact Hok1|]. by apply (k_held _ _ Hk1).
Qed.

Definition placed_cache : cache := set_item (empty_cache twice) item_a some_item.
Definition linked_cache : cache := default (empty_cache twice) (do_item_link test_settings 9 placed_cache item_a (hash0 [1])).
Definition two_page_cache : cache := default (empty_cache twice) (do_item_remove test_settings linked_cache item_a).

Lemma twice_inv : ItemInv.inv test_settings hash0 3 (empty_cache twice) (λ _, []).
Proof. apply (inv_check _ _ _ _ _ 0); [apply empty_cache_ok, twice_ok|by vm_compute|unfold LARGEST_ID; lia|by vm_compute]. Qed.

Lemma placed_ok : ItemInv.inv test_settings hash0 3 placed_cache (λ _, []) ∧ used placed_cache item_a.
Proof.
  destruct (new_header_inv test_settings hash0 3 (empty_cache twice) (λ _, []) item_a 2 some_item twice_inv) as (HI & Hu & _);
    [by vm_compute; lia|apply twice_ok|..|split; [exact HI|exact Hu]]; try by vm_compute.
  - intros [Hv _ _ _ _]. revert Hv. vm_compute. lia.
  - split; [vm_compute; lia|apply twice_ok|by vm_compute..].
Qed.

Lemma linked_inv : ItemInv.inv test_settings hash0 3 linked_cache cold_queue ∧ used linked_cache item_a.
Proof.
  destruct placed_ok as [HI Hu]. destruct (assoc_init_ok hash0 1 1 small eq_refl) as [_ Hm].
  destruct (do_item_link_ok test_settings hash0 9 placed_cache (λ _, []) item_a) as (c' & Hc' & Hok & _);
    [apply HI|exact Hu|by vm_compute..|change (table placed_cache) with small; by rewrite Hm|].
  assert (Hk : key (ith placed_cache item_a) = [1]) by by vm_compute.
  assert (Hq : qid placed_cache item_a = 130%nat) by by vm_compute.
  assert (linked_cache = c') as Hc by (unfold linked_cache; rewrite Hk in Hc'; by rewrite Hc').
  rewrite Hq, <-Hc in Hok.
  split; [apply (inv_check _ _ _ _ _ 130); [exact Hok|by vm_compute|unfold LARGEST_ID; lia|by vm_compute]|].
  apply (queue_use _ _ Hok 130 item_a); [unfold LARGEST_ID; lia|]. unfold set_list. rewrite decide_True by done. by left.
Qed.

Lemma two_page_inv : ItemInv.inv test_settings hash0 3 two_page_cache cold_queue ∧ used two_page_cache item_a.
Proof.
  destruct linked_inv as [HI Hu]. destruct (remove_inv test_settings hash0 3 linked_cache cold_queue item_a HI Hu) as (c' & E & HI' & _ & _ & Hcase);
    [by vm_compute|]. assert (refcount (ith linked_cache item_a) =? 1 = false) as H1 by (vm_compute; reflexivity).
  rewrite H1 in Hcase. unfold two_page_cache. rewrite E. split; [exact HI'|apply Hcase].
Qed.

Abbreviation idle_mover := (mkMover two_page_cache no_rebal 0 0).
Abbreviation asked := (do_slabs_reassign idle_mover (-1) 1).1.

(** The chunks of the first page: four are free, one is the item. *)
Lemma two_page_settled r p b :
  s_clsid r = 2 → page (slab two_page_cache) 2 0 p →
  p ≤ b < p + size (cls (slab two_page_cache) 2) * perslab (cls (slab two_page_cache) 2) → chunk (slab two_page_cache) 2 b →
  b ∈ free_list (slab two_page_cache) 2 ∨ plain two_page_cache r b.
Proof.
  intros Hr _ _ Hb%elem_of_all_chunks. assert (bool_decide (Forall (λ b, b ∈ item_a :: free_list (slab two_page_cache) 2) (all_chunks (slab two_page_cache) 2)) = true)
    as Hall%bool_decide_eq_true by (vm_compute; reflexivity).
  apply (proj1 (list.Forall_forall _ _) Hall) in Hb. apply elem_of_cons in Hb as [->|Hb]; [right|by left].
  split; [apply two_page_inv|by vm_compute|]. unfold sid. rewrite Hr. by vm_compute.
Qed.

Lemma reassign_starts_witness :
  (do_slabs_reassign idle_mover (-1) 1).2 = REASSIGN_OK ∧
  ∃ m', slab_rebalance_start true asked = (m', 0) ∧ signal m' = 2 ∧ s_clsid (rebal m') = 2.
Proof.
  assert (do_slabs_reassign idle_mover (-1) 1 = (asked, REASSIGN_OK)) as E by (vm_compute; reflexivity).
  assert (s_clsid (rebal asked) = 2) as Es by (vm_compute; reflexivity).
  destruct (reassign_starts full_settings hash0 2 idle_mover cold_queue (-1) 1 asked (proj1 two_page_inv) eq_refl E) as (_ & _ & _ & m' & Em & _ & Hs & _ & Ec & _).
  - vm_compute. reflexivity.
  - assert (sid (rebal asked) = 2%nat) as -> by (unfold sid; by rewrite Es). intros p b. by apply two_page_settled.
  - split; [by rewrite E|]. exists m'. rewrite Ec, Es. exact (conj Em (conj Hs eq_refl)).
Defined.

Abbreviation started_mover := (slab_rebalance_start true asked).1.
Abbreviation witness_move := (slab_rebalance_move full_settings hash0 100 every_lock 5 started_mover).

Lemma accepted_moving m :
  do_slabs_reassign idle_mover (-1) 1 = (m, REASSIGN_OK) → s_clsid (rebal m) = 2 →
  moving full_settings hash0 2 (slab_rebalance_start true m).1.
Proof.
  intros E Es. destruct (reassign_accepted idle_mover (-1) 1 m E) as (Ec & _ & _ & Eb & Hv & H0 & Hd & Ed & Hne & _ & Hsl).
  cbn [m_cache] in Ec, Hv, Hd, Hsl. pose proof (start_ok full_settings hash0 2 m cold_queue) as HS. cbv zeta in HS. rewrite Ec, Ed, Eb in HS.
  assert (sid (rebal m) = 2%nat) as E2 by (unfold sid; by rewrite Es). rewrite E2 in *. rewrite Ed in Hd.
  destruct HS as (m' & -> & HM & _); [exact (proj1 two_page_inv)|exact Hv|exact H0|exact Hd|exact Hne|exact Hsl|by vm_compute|reflexivity| |exact HM].
  intros p b. by apply two_page_settled.
Qed.

Lemma started_moving : moving full_settings hash0 2 started_mover.
Proof. apply accepted_moving; vm_compute; reflexivity. Qed.

Lemma rebalance_move_ok_witness : ∃ m' w, witness_move = Some (m', w) ∧ carried (rebal started_mover) (m_cache started_mover) (m_cache m').
Proof.
  destruct (rebalance_move_ok full_settings hash0 100 every_lock 0 5 started_mover started_moving) as (m' & w & E & _ & Hc & _).
  exists m', w. exact (conj E Hc).
Defined.

Lemma started_idle : idle (m_cache started_mover) (rebal started_mover) (slab_start (rebal started_mover)).
Proof.
  intros b Hb Hr Hpl.
  assert (bool_decide (Forall (λ b, b = item_a ∨ b < slab_start (rebal started_mover) ∨ slab_end (rebal started_mover) ≤ b ∨
      has_flag (ith (m_cache started_mover) b) ITEM_SLABBED = true)
    (all_chunks (slab (m_cache started_mover)) (sid (rebal started_mover)))) = true) as Hall%bool_decide_eq_true by (vm_compute; reflexivity).
  apply elem_of_all_chunks, (proj1 (list.Forall_forall _ _) Hall) in Hb. destruct Hb as [->|[H|[H|H]]].
  - by_decide.
  - unfold in_range in Hr. lia.
  - unfold in_range in Hr. lia.
  - pose proof (u_slabbed _ _ _ (pl_used _ _ _ Hpl)). congruence.
Qed.


Abbreviation emptied_mover := (match witness_move with Some (m, _) => m | None => started_mover end).

