(* ===== verification/Util.v ===== *)
(** Parsing of numbers, URI encoding and byte order: [extra/KVS-DRAM-Cache/util.c].

    A C string is its characters without the terminating null.  [strtoull] and
    its relatives are those of the C library with base 10, where [long] has 64
    bits. *)

From stdpp Require Import strings.
From S2P Require Import Prelude Itoa.

(** ** The C library *)

Definition isspace (c : Z) : bool := (c =? 32) || (9 <=? c) && (c <=? 13).
Definition isdigit (c : Z) : bool := (48 <=? c) && (c <=? 57).
Definition isalnum (c : Z) : bool :=
  isdigit c || (65 <=? c) && (c <=? 90) || (97 <=? c) && (c <=? 122).

(** The number of leading characters that satisfy [f]. *)
Fixpoint span (f : Z → bool) (l : bytes) : nat :=
  match l with [] => O | c :: l' => if f c then S (span f l') else O end.

(** An optional sign: whether it is a minus, and its length. *)
Definition sign (s : bytes) : bool * nat :=
  match s with
  | c :: _ => if c =? 45 then (true, 1%nat) else if c =? 43 then (false, 1%nat) else (false, O)
  | [] => (false, O)
  end.

(** Spaces, a sign and digits: whether there is a minus, the number the digits
    stand for, and the position after them. *)
Definition scan_int (str : bytes) : option (bool * Z * nat) :=
  let i := span isspace str in
  let '(neg, j) := sign (drop i str) in
  let ds := drop (i + j) str in
  let n := span isdigit ds in
  if (n =? 0)%nat then None else Some (neg, dec_value (take n ds), (i + j + n)%nat).

(** The value, [endptr] as a position, and whether [errno] is [ERANGE]. *)
Definition strtoull (str : bytes) : Z * nat * bool :=
  match scan_int str with
  | None => (0, O, false)
  | Some (neg, v, e) =>
      if two64 <=? v then (two64 - 1, e, true)
      else (if neg then u64 (- v) else v, e, false)
  end.

Definition strtoll (str : bytes) : Z * nat * bool :=
  match scan_int str with
  | None => (0, O, false)
  | Some (neg, v, e) =>
      let x := if neg then - v else v in
      if x <? - 2 ^ 63 then (- 2 ^ 63, e, true)
      else if 2 ^ 63 - 1 <? x then (2 ^ 63 - 1, e, true)
      else (x, e, false)
  end.

(** Two's complement conversions. *)
Definition s64 (z : Z) : Z := let x := u64 z in if x <? 2 ^ 63 then x else x - two64.
Definition s32 (z : Z) : Z := let x := u32 z in if x <? 2 ^ 31 then x else x - two32.

Definition strchr (str : bytes) (c : Z) : bool := existsb (Z.eqb c) str.

(** ** Numbers *)

(** [xisspace( *endptr) || ( *endptr == 0 && endptr != str)] *)
Definition at_end (str : bytes) (e : nat) : bool :=
  isspace (nth e str 0) || (nth e str 0 =? 0) && negb (e =? 0)%nat.

(** The result and [*out]. *)
Definition safe_strtoull (str : bytes) : bool * Z :=
  let '(ull, e, erange) := strtoull str in
  if erange || (e =? 0)%nat then (false, 0)
  else if at_end str e then
    if (s64 ull <? 0) && strchr str 45 then (false, 0) else (true, ull)
  else (false, 0).

Definition safe_strtoll (str : bytes) : bool * Z :=
  let '(ll, e, erange) := strtoll str in
  if erange || (e =? 0)%nat then (false, 0)
  else if at_end str e then (true, ll) else (false, 0).

Definition safe_strtoul (str : bytes) : bool * Z :=
  let '(l, e, erange) := strtoull str in
  if erange || (e =? 0)%nat then (false, 0)
  else if at_end str e then
    if (s64 l <? 0) && strchr str 45 then (false, 0) else (true, u32 l)
  else (false, 0).

Definition safe_strtol (str : bytes) : bool * Z :=
  let '(l, e, erange) := strtoll str in
  if erange || (e =? 0)%nat then (false, 0)
  else if at_end str e then (true, s32 l) else (false, 0).

(** ** URI encoding *)

Definition hex (d : Z) : Z := if d <? 10 then 48 + d else 55 + d.

(** An entry of [uriencode_map]: null for a character that stands for itself,
    else [%XX]. *)
Definition uriencode_map (x : Z) : option bytes :=
  if isalnum x || (x =? 45) || (x =? 46) || (x =? 95) || (x =? 126) then None
  else Some [37; hex (x / 16); hex (x mod 16)].

(** [memcpy(&dst[d], s, n)] *)
Fixpoint copy_out (s : bytes) (o : out) : option out :=
  match s with [] => Some o | c :: s' => o ← out1 c o; copy_out s' o end.

(** The loop; [None] is a write outside [dst], and [Some (false, _)] is [return
    false]. *)
Fixpoint uriencode_loop (src : bytes) (dstlen : Z) (o : out) : option (bool * out) :=
  match src with
  | [] => o ← put_char 0 o; Some (true, o)
  | c :: src' =>
      if dstlen <=? Z.of_nat o.2 + 4 then Some (false, o)
      else
        o ← match uriencode_map c with Some s => copy_out s o | None => out1 c o end;
        uriencode_loop src' dstlen o
  end.

Definition uriencode (src dst : bytes) (dstlen : Z) : option (bool * bytes) :=
  '(r, o) ← uriencode_loop src dstlen (dst, O); Some (r, o.1).

(** ** Byte order *)

Fixpoint swap_loop (n : nat) (rv inp : Z) : Z :=
  match n with
  | O => rv
  | S n' => swap_loop n' (u64 (Z.lor (Z.shiftl rv 8) (Z.land inp 255))) (Z.shiftr inp 8)
  end.

(** [mc_swap64], also [ntohll] and [htonll], on a little-endian machine. *)
Definition mc_swap64 (inp : Z) : Z := swap_loop 8 0 inp.

(** ** What is a number *)

Definition starts (f : Z → bool) (l : bytes) : bool :=
  match l with [] => false | c :: _ => f c end.

(** [str] is spaces, a sign, digits of the value [v], and then nothing or a space. *)
Definition numeral (str : bytes) (neg : bool) (v : Z) : Prop :=
  ∃ ws sg ds rest, str = ws ++ sg ++ ds ++ rest ∧
    Forall (λ c, isspace c = true) ws ∧ Forall (λ c, isdigit c = true) ds ∧ ds ≠ [] ∧
    (sg = [] ∧ neg = false ∨ sg = [43] ∧ neg = false ∨ sg = [45] ∧ neg = true) ∧
    v = dec_value ds ∧ (rest = [] ∨ starts isspace rest = true).

Lemma span_app f l rest :
  Forall (λ c, f c = true) l → starts f rest = false → span f (l ++ rest) = length l.
Proof.
  induction 1 as [|c l Hc _ IH]; simpl; intros H.
  - destruct rest as [|c rest]; simpl in *; [done|]. by rewrite H.
  - rewrite Hc. by rewrite IH.
Qed.

Lemma span_spec f l :
  Forall (λ c, f c = true) (take (span f l) l) ∧ starts f (drop (span f l) l) = false ∧
  (span f l ≤ length l)%nat.
Proof.
  induction l as [|c l (IH1 & IH2 & IH3)]; simpl; [repeat constructor|].
  destruct (f c) eqn:E; simpl; [|split_and!; [constructor|done|lia]].
  split_and!; [by constructor|done|lia].
Qed.

Lemma digit_not_space c : isdigit c = true → isspace c = false.
Proof. unfold isdigit, isspace. lia. Qed.

Lemma space_not_digit c : isspace c = true → isdigit c = false.
Proof. unfold isdigit, isspace. lia. Qed.

Lemma sign_digits ds rest :
  Forall (λ c, isdigit c = true) ds → ds ≠ [] → sign (ds ++ rest) = (false, O).
Proof.
  intros H ?. destruct H as [|c ds Hc _]; [done|]. simpl. unfold isdigit in Hc.
  rewrite (proj2 (Z.eqb_neq c 45)), (proj2 (Z.eqb_neq c 43)) by lia. done.
Qed.

Lemma dec_value_nonneg ds : Forall (λ c, isdigit c = true) ds → 0 ≤ dec_value ds.
Proof.
  unfold dec_value. assert (∀ acc, 0 ≤ acc → Forall (λ c, isdigit c = true) ds →
    0 ≤ foldl (λ acc c, acc * 10 + (c - 48)) acc ds) as H; [|by intros; apply H].
  induction ds as [|c ds IH]; intros acc Ha Hd; [done|]. apply Forall_cons_iff in Hd as [Hc Hd].
  simpl. apply IH; [|done]. unfold isdigit in Hc. lia.
Qed.

Lemma drop_app_sum {A} (x y z : list A) : drop (length x + length y) (x ++ y ++ z) = z.
Proof. rewrite app_assoc, <- length_app. apply drop_app_length. Qed.

(** The scanner finds the parts of a numeral. *)
Lemma scan_numeral ws sg ds rest neg :
  Forall (λ c, isspace c = true) ws → Forall (λ c, isdigit c = true) ds → ds ≠ [] →
  (sg = [] ∧ neg = false ∨ sg = [43] ∧ neg = false ∨ sg = [45] ∧ neg = true) →
  starts isdigit rest = false →
  scan_int (ws ++ sg ++ ds ++ rest) =
    Some (neg, dec_value ds, (length ws + length sg + length ds)%nat).
Proof.
  intros Hws Hds Hne Hsg Hr. unfold scan_int.
  assert (starts isspace (sg ++ ds ++ rest) = false) as Hs.
  { destruct Hsg as [[-> _]|[[-> _]|[-> _]]]; [|done..]. destruct Hds; [done|].
    simpl. by apply digit_not_space. }
  rewrite span_app by done. rewrite drop_app_length.
  assert (sign (sg ++ ds ++ rest) = (neg, length sg)) as Hsign.
  { destruct Hsg as [[-> ->]|[[-> ->]|[-> ->]]]; [|reflexivity..]. simpl. rewrite sign_digits; done. }
  rewrite Hsign, drop_app_sum, (span_app _ _ _ Hds Hr), take_app_length.
  destruct ds; [done|]. done.
Qed.

Lemma scan_int_inv str neg v e :
  scan_int str = Some (neg, v, e) →
  ∃ ws sg ds rest, str = ws ++ sg ++ ds ++ rest ∧
    Forall (λ c, isspace c = true) ws ∧ Forall (λ c, isdigit c = true) ds ∧ ds ≠ [] ∧
    (sg = [] ∧ neg = false ∨ sg = [43] ∧ neg = false ∨ sg = [45] ∧ neg = true) ∧
    v = dec_value ds ∧ starts isdigit rest = false ∧
    e = (length ws + length sg + length ds)%nat.
Proof.
  unfold scan_int. destruct (span_spec isspace str) as (Hws & _ & Hli).
  set (i := span isspace str) in *. set (s := drop i str) in *.
  destruct (sign s) as [neg' j] eqn:Es. rewrite <- drop_drop. fold s.
  destruct (span_spec isdigit (drop j s)) as (Hds & Hrest & Hln).
  set (n := span isdigit _) in *. destruct (n =? 0)%nat eqn:En; [done|]. apply Nat.eqb_neq in En.
  intros [= <- <- <-]. exists (take i str), (take j s), (take n (drop j s)), (drop n (drop j s)).
  assert ((take j s = [] ∧ neg' = false ∨ take j s = [43] ∧ neg' = false ∨
           take j s = [45] ∧ neg' = true) ∧ (j ≤ length s)%nat) as [Hsg Hj].
  { clearbody s. clear -Es. unfold sign in Es. destruct s as [|c s'].
    { injection Es as <- <-. split; [by left|simpl; lia]. }
    destruct (Z.eqb_spec c 45) as [->|]; [injection Es as <- <-; simpl; split; [by right; right|lia]|].
    destruct (Z.eqb_spec c 43) as [->|]; injection Es as <- <-; simpl; split;
      [by right; left|lia|by left|lia]. }
  rewrite !length_take, (Nat.min_l i), (Nat.min_l j), (Nat.min_l n) by lia.
  split_and!; try done; [rewrite !take_drop; unfold s; by rewrite take_drop|].
  intros E. apply (f_equal length) in E. rewrite length_take in E. simpl in E. lia.
Qed.

Lemma nth_app_sum (x y z w : bytes) :
  nth (length x + length y + length z) (x ++ y ++ z ++ w) 0 = nth 0 w 0.
Proof.
  rewrite !app_assoc. rewrite app_nth2; rewrite !length_app; [|lia].
  f_equal. lia.
Qed.

(** The position after the digits is accepted exactly for a numeral. *)
Lemma scan_at_end str neg v :
  Forall (λ c, c ≠ 0) str →
  numeral str neg v ↔ ∃ e, scan_int str = Some (neg, v, e) ∧ at_end str e = true ∧ e ≠ O.
Proof.
  intros Hnz. split.
  - intros (ws & sg & ds & rest & -> & Hws & Hds & Hne & Hsg & -> & Hr).
    exists (length ws + length sg + length ds)%nat.
    assert (starts isdigit rest = false) as Hr'.
    { destruct Hr as [->|Hr]; [done|]. destruct rest; [done|]. simpl in *. by apply space_not_digit. }
    rewrite (scan_numeral ws sg ds rest neg) by done. destruct ds as [|c ds]; [done|].
    split; [done|]. split; [|simpl; lia]. unfold at_end. rewrite nth_app_sum.
    destruct Hr as [->|Hr].
    + simpl. by rewrite Nat.add_succ_r.
    + destruct rest; [done|]. simpl in *. by rewrite Hr.
  - intros (e & Hs & He & He0).
    apply scan_int_inv in Hs as (ws & sg & ds & rest & -> & Hws & Hds & Hne & Hsg & -> & Hr & ->).
    exists ws, sg, ds, rest. split_and!; try done.
    unfold at_end in He. rewrite nth_app_sum in He. destruct rest as [|c rest]; [by left|right].
    simpl in *. destruct (isspace c); [done|]. simpl in He.
    rewrite !Forall_app, Forall_cons_iff in Hnz. destruct Hnz as (_ & _ & _ & Hc & _). lia.
Qed.

Lemma s64_neg z : 0 ≤ z < two64 → (s64 z <? 0) = (2 ^ 63 <=? z).
Proof.
  intros Hz. unfold s64. rewrite u64_small by done. unfold two64 in *.
  destruct (Z.ltb_spec z (2 ^ 63)), (Z.leb_spec (2 ^ 63) z), (Z.ltb_spec z 0), (Z.ltb_spec (z - 2 ^ 64) 0); lia.
Qed.

Lemma numeral_nonneg str neg v : numeral str neg v → 0 ≤ v.
Proof. intros (? & ? & ds & ? & _ & _ & Hd & _ & _ & -> & _). by apply dec_value_nonneg. Qed.

Lemma numeral_unique str neg v neg' v' :
  Forall (λ c, c ≠ 0) str → numeral str neg v → numeral str neg' v' → neg' = neg ∧ v' = v.
Proof.
  intros Hz H H'. apply scan_at_end in H as (e & He & _); [|done].
  apply scan_at_end in H' as (e' & He' & _); [|done]. rewrite He in He'. by injection He'.
Qed.

(** The scanner's result, accepted or not, and nothing is accepted without one. *)
Lemma scan_cases str : Forall (λ c, c ≠ 0) str →
  match scan_int str with
  | None => ∀ neg v, ¬ numeral str neg v
  | Some (neg, v, e) =>
      e ≠ O ∧ 0 ≤ v ∧
      if at_end str e then numeral str neg v else ∀ neg v, ¬ numeral str neg v
  end.
Proof.
  intros Hz. destruct (scan_int str) as [[[neg v] e]|] eqn:Es.
  - destruct (scan_int_inv _ _ _ _ Es) as (ws & sg & ds & rest & _ & _ & Hds & Hne & _ & -> & _ & ->).
    split; [destruct ds; [done|simpl; lia]|]. split; [by apply dec_value_nonneg|].
    destruct (at_end str _) eqn:Ea.
    + apply scan_at_end; [done|]. eexists. split; [done|]. split; [done|].
      destruct ds; [done|simpl; lia].
    + intros n' v' H. apply scan_at_end in H as (e' & He' & Ha & _); [|done]. congruence.
  - intros neg v H. apply scan_at_end in H as (e & He & _); [|done]. congruence.
Qed.

Lemma safe_strtoull_iff str u :
  Forall (λ c, c ≠ 0) str →
  safe_strtoull str = (true, u) ↔ ∃ neg v, numeral str neg v ∧ v < two64 ∧
    u = (if neg then u64 (- v) else v) ∧ (2 ^ 63 ≤ u → strchr str 45 = false).
Proof.
  intros Hz. pose proof (scan_cases str Hz) as Hs.
  unfold safe_strtoull, strtoull. destruct (scan_int str) as [[[neg v] e]|].
  2:{ split; [done|]. intros (neg & v & Hn & _). by destruct (Hs neg v). }
  destruct Hs as (He & Hv & Hs).
  destruct (Z.leb_spec two64 v) as [H64|H64]; cbn [orb].
  { split; [done|]. intros (n' & v' & Hn & ? & _). destruct (at_end str e); [|by destruct (Hs n' v')].
    destruct (numeral_unique _ _ _ _ _ Hz Hs Hn); lia. }
  rewrite (proj2 (Nat.eqb_neq e 0) He). destruct (at_end str e).
  2:{ split; [done|]. intros (n' & v' & Hn & _). by destruct (Hs n' v'). }
  set (x := if neg then u64 (- v) else v).
  assert (0 ≤ x < two64) as Hx by (subst x; case_match; [apply u64_range|lia]).
  rewrite s64_neg by done. split.
  + intros H. exists neg, v. fold x. destruct (Z.leb_spec (2 ^ 63) x), (strchr str 45); simpl in H;
      simplify_eq; split_and!; try done; lia.
  + intros (n' & v' & Hn & _ & -> & Hc). destruct (numeral_unique _ _ _ _ _ Hz Hs Hn) as [-> ->].
    fold x. fold x in Hc. destruct (Z.leb_spec (2 ^ 63) x) as [Hle|]; [|done]. by rewrite (Hc Hle).
Qed.

Lemma safe_strtoll_iff str x :
  Forall (λ c, c ≠ 0) str →
  safe_strtoll str = (true, x) ↔ ∃ neg v, numeral str neg v ∧
    x = (if neg then - v else v) ∧ - 2 ^ 63 ≤ x < 2 ^ 63.
Proof.
  intros Hz. pose proof (scan_cases str Hz) as Hs.
  unfold safe_strtoll, strtoll. destruct (scan_int str) as [[[neg v] e]|].
  2:{ split; [done|]. intros (neg & v & Hn & _). by destruct (Hs neg v). }
  destruct Hs as (He & Hv & Hs). set (y := if neg then - v else v).
  destruct (at_end str e) eqn:Ea.
  + transitivity (x = y ∧ - 2 ^ 63 ≤ y < 2 ^ 63).
    * destruct (Z.ltb_spec y (- 2 ^ 63)); [split; [done|lia]|].
      destruct (Z.ltb_spec (2 ^ 63 - 1) y); [split; [done|lia]|].
      rewrite (proj2 (Nat.eqb_neq e 0) He), Ea. simpl. split; [intros [= <-]; lia|by intros [-> _]].
    * split; [intros [-> ?]; by exists neg, v|]. intros (n' & v' & Hn & -> & Hr).
      by destruct (numeral_unique _ _ _ _ _ Hz Hs Hn) as [-> ->].
  + split; [|intros (n' & v' & Hn & _); by destruct (Hs n' v')].
    destruct (y <? - 2 ^ 63), (2 ^ 63 - 1 <? y), (e =? 0)%nat; simpl; rewrite ?Ea; done.
Qed.

(** [safe_strtoull] accepts exactly the numerals in range, with a minus sign
    only if the wrapped value is under 2^63; [safe_strtoll] accepts exactly the
    numerals of the signed range; and the 32-bit functions return the low 32 bits of
    what these accept. *)
Theorem safe_strto_numerals str :
  Forall (λ c, c ≠ 0) str →
  (∀ u, safe_strtoull str = (true, u) ↔ ∃ neg v, numeral str neg v ∧ v < two64 ∧
     u = (if neg then u64 (- v) else v) ∧ (2 ^ 63 ≤ u → strchr str 45 = false)) ∧
  (∀ x, safe_strtoll str = (true, x) ↔ ∃ neg v, numeral str neg v ∧
     x = (if neg then - v else v) ∧ - 2 ^ 63 ≤ x < 2 ^ 63) ∧
  safe_strtoul str = ((safe_strtoull str).1, u32 (safe_strtoull str).2) ∧
  safe_strtol str = ((safe_strtoll str).1, s32 (safe_strtoll str).2).
Proof.
  intros Hz. split; [by intros; apply safe_strtoull_iff|].
  split; [by intros; apply safe_strtoll_iff|]. split.
  - unfold safe_strtoul, safe_strtoull. destruct (strtoull str) as [[l e] er].
    destruct (er || (e =? 0)%nat), (at_end str e), ((s64 l <? 0) && strchr str 45); done.
  - unfold safe_strtol, safe_strtoll. destruct (strtoll str) as [[l e] er].
    destruct (er || (e =? 0)%nat), (at_end str e); done.
Qed.

Lemma safe_strto_numerals_witness :
  safe_strtoull (chars "12 x") = (true, 12) ∧ numeral (chars "12 x") false 12.
Proof.
  destruct (safe_strto_numerals (chars "12 x")) as [H _]; [repeat constructor; done|].
  assert (safe_strtoull (chars "12 x") = (true, 12)) as E by (vm_compute; reflexivity).
  split; [exact E|]. apply H in E as ([] & v & Hn & _ & Hv & _).
  - exfalso. destruct (scan_at_end (chars "12 x") true v) as [Hs _]; [repeat constructor; done|].
    destruct (Hs Hn) as (e & He & _). vm_compute in He. discriminate He.
  - rewrite Hv. exact Hn.
Defined.

(** ** Round trips *)

(** The C string at position [p] of a buffer. *)
Definition cstr (b : bytes) (p : nat) : bytes :=
  let l := drop p b in take (span (λ c, negb (c =? 0)) l) l.

Lemma cstr_splice b p l :
  (p + length l < length b)%nat → Forall (λ c, c ≠ 0) l → cstr (splice b p (l ++ [0])) p = l.
Proof.
  intros Hp Hl. unfold cstr, splice. cbv zeta.
  rewrite drop_app_ge; rewrite length_take; [|lia]. rewrite Nat.min_l, Nat.sub_diag by lia.
  rewrite !drop_0, <- app_assoc, span_app; [by rewrite take_app_length| |done].
  eapply list.Forall_impl; [eassumption|]. simpl. intros c Hc. by apply negb_true_iff, Z.eqb_neq.
Qed.

Lemma dec_numeral u : 0 ≤ u → numeral (dec u) false u ∧ Forall (λ c, 48 ≤ c ≤ 57) (dec u).
Proof.
  intros Hu. destruct (dec_spec u Hu) as (Hv & Hd & Hne & _). split; [|done].
  exists [], [], (dec u), []. rewrite app_nil_r. split_and!; [done|constructor| |done|by left|done|by left].
  eapply list.Forall_impl; [eassumption|]. unfold is_digit, isdigit. simpl. lia.
Qed.

Lemma sdec_numeral i : numeral (sdec i) (i <? 0) (Z.abs i) ∧ Forall (λ c, c ≠ 0) (sdec i).
Proof.
  unfold sdec. destruct (Z.ltb_spec i 0).
  - destruct (dec_numeral (- i)) as [(ws & sg & ds & rest & E & _) Hd]; [lia|].
    destruct (dec_spec (- i)) as (Hv & Hd' & Hne & _); [lia|]. split.
    + exists [], [45], (dec (- i)), []. rewrite app_nil_r, Z.abs_neq by lia.
      split_and!; [done|constructor| |done|by right; right|done|by left].
      eapply list.Forall_impl; [exact Hd|]. unfold isdigit. simpl. lia.
    + constructor; [done|]. eapply list.Forall_impl; [exact Hd|]. simpl. lia.
  - rewrite Z.abs_eq by done. destruct (dec_numeral i) as [Hn Hd]; [done|]. split; [done|].
    eapply list.Forall_impl; [eassumption|]. simpl. lia.
Qed.

Lemma no_minus l : Forall (λ c, 48 ≤ c ≤ 57) l → strchr l 45 = false.
Proof.
  induction 1 as [|c l Hc _ IH]; [done|]. unfold strchr in *. cbn [existsb]. rewrite IH.
  by rewrite (proj2 (Z.eqb_neq 45 c)) by lia.
Qed.

(** C40: what the printing functions write, the parsing functions read back: for
    every unsigned and every signed 64-bit number. *)
Theorem number_roundtrip b p u x :
  0 ≤ u < two64 → - 2 ^ 63 ≤ x < 2 ^ 63 → (p + 20 < length b)%nat →
  (∃ b' e, itoa_u64 u (b, p) = Some (b', e) ∧ safe_strtoull (cstr b' p) = (true, u)) ∧
  (∃ b' e, itoa_64 x (b, p) = Some (b', e) ∧ safe_strtoll (cstr b' p) = (true, x)).
Proof.
  intros Hu Hx Hp.
  assert (length (dec u) ≤ 20)%nat by (apply length_dec; simpl; unfold two64 in *; lia).
  assert (length (sdec x) ≤ 20)%nat.
  { unfold sdec. case_match; simpl; [apply le_n_S|etrans; [|apply (Nat.le_succ_diag_r 19)]];
      apply length_dec; simpl; lia. }
  destruct (dec_numeral u) as [Hn Hd]; [lia|]. destruct (sdec_numeral x) as [Hn' Hd'].
  assert (Forall (λ c, c ≠ 0) (dec u)) as Hz by (eapply list.Forall_impl; [eassumption|simpl; lia]).
  split; eexists _, _.
  - split; [apply itoa_u64_prints; lia|]. rewrite cstr_splice by (done || lia).
    apply safe_strtoull_iff; [done|]. exists false, u. split_and!; try done; [lia|].
    intros _. by apply no_minus.
  - split; [apply itoa_64_prints; lia|]. rewrite cstr_splice by (done || lia).
    apply safe_strtoll_iff; [done|]. eexists _, _. split; [done|]. split; [|done].
    destruct (Z.ltb_spec x 0); lia.
Qed.

Lemma number_roundtrip_witness :
  ∃ b' e, itoa_64 (-2 ^ 63) (replicate 21 7, O) = Some (b', e) ∧
    safe_strtoll (cstr b' 0) = (true, -2 ^ 63).
Proof.
  destruct (number_roundtrip (replicate 21 7) 0 5 (-2 ^ 63)) as [_ H];
    [unfold two64; lia|lia|simpl; lia|exact H].
Defined.

(** ** URI encoding *)

Definition enc (c : Z) : bytes := default [c] (uriencode_map c).
Definition encoded (src : bytes) : bytes := concat (enc <$> src).

Definition unhex (c : Z) : Z := if c <? 58 then c - 48 else c - 55.

(** The decoder a reader of the logs would use. *)
Fixpoint uridecode (l : bytes) : bytes :=
  match l with
  | [] => []
  | c :: l' =>
      if c =? 37 then
        match l' with
        | x :: y :: l'' => unhex x * 16 + unhex y :: uridecode l''
        | _ => []
        end
      else c :: uridecode l'
  end.

Lemma copy_out_emits s : emits (copy_out s) s.
Proof.
  induction s as [|c s IH]; [|by apply (emits_bind _ _ [c]); [apply emits_out1|]].
  intros b p Hp. simpl. rewrite Nat.add_0_r. unfold splice. simpl. by rewrite Nat.add_0_r, take_drop.
Qed.

Lemma enc_emits c : emits (λ o, match uriencode_map c with Some s => copy_out s o | None => out1 c o end) (enc c).
Proof. unfold enc. destruct (uriencode_map c); [apply copy_out_emits|apply emits_out1]. Qed.

Lemma length_enc c : (1 ≤ length (enc c) ≤ 3)%nat.
Proof. unfold enc, uriencode_map. destruct (_ || _); simpl; lia. Qed.

Lemma splice_app b p l l' :
  (p + length l + length l' ≤ length b)%nat → splice (splice b p l) (p + length l) l' = splice b p (l ++ l').
Proof. intros. rewrite <- (app_nil_r l) at 1. apply splice_splice; simpl; lia. Qed.

(** The loop writes encoded characters from [p] on, below [dstlen]. *)
Lemma uriencode_loop_spec src dstlen b p :
  Z.of_nat p < dstlen → dstlen ≤ Z.of_nat (length b) →
  ∃ r l p', uriencode_loop src dstlen (b, p) = Some (r, (splice b p l, p')) ∧
    Z.of_nat p + Z.of_nat (length l) ≤ dstlen ∧
    if r then l = encoded src ++ [0]
    else dstlen ≤ Z.of_nat (p + length (encoded src)) + 3.
Proof.
  revert b p. induction src as [|c src IH]; intros b p Hp Hb; cbn [uriencode_loop].
  - exists true, [0], (p + 0)%nat. pose proof (prints_nil b p) as H. unfold itoa1 in H.
    rewrite H by (simpl; lia). simpl. split_and!; [done|lia|done].
  - cbn [snd]. destruct (Z.leb_spec dstlen (Z.of_nat p + 4)) as [Hd|Hd].
    { exists false, [], p. split_and!; [|simpl; lia|].
      - unfold splice. simpl. by rewrite Nat.add_0_r, take_drop.
      - unfold encoded. cbn [fmap list_fmap concat]. rewrite length_app. pose proof (length_enc c). lia. }
    pose proof (length_enc c) as Hl. pose proof (enc_emits c b p ltac:(lia)) as He. cbn beta in He.
    rewrite He. cbn [mbind option_bind].
    destruct (IH (splice b p (enc c)) (p + length (enc c))%nat) as (r & l & p' & E & Hlt & Hr);
      [lia|rewrite length_splice; lia|].
    exists r, (enc c ++ l), p'. rewrite splice_app in E by lia. rewrite length_app.
    split_and!; [done|lia|]. change (encoded (c :: src)) with (enc c ++ encoded src).
    destruct r; [by rewrite Hr, app_assoc|]. rewrite length_app. lia.
Qed.

Lemma hex_range d : 0 ≤ d < 16 → (48 ≤ hex d ≤ 57 ∨ 65 ≤ hex d ≤ 70) ∧ unhex (hex d) = d.
Proof. intros Hd. unfold hex. destruct (Z.ltb_spec d 10); unfold unhex; case_match; lia. Qed.

Lemma byte_nibbles c : is_byte c → 0 ≤ c / 16 < 16 ∧ 0 ≤ c mod 16 < 16.
Proof.
  intros [H1 H2]. split; [split; [apply Z.div_pos; lia|apply Z.div_lt_upper_bound; lia]|].
  apply Z.mod_pos_bound. lia.
Qed.

Lemma enc_spec c rest : is_byte c →
  Forall (λ c, c ≠ 0) (enc c) ∧ uridecode (enc c ++ rest) = c :: uridecode rest.
Proof.
  intros Hc. unfold enc, uriencode_map. destruct (_ || _) eqn:E; cbn [default].
  - unfold isalnum, isdigit in E. split; [constructor; [lia|constructor]|]. cbn [app uridecode].
    rewrite (proj2 (Z.eqb_neq c 37)) by lia. done.
  - destruct (byte_nibbles c Hc) as [H1 H2]. destruct (hex_range _ H1), (hex_range _ H2).
    split; [repeat constructor; lia|]. cbn [id app uridecode Z.eqb Pos.eqb]. f_equal.
    pose proof (Z.div_mod c 16 ltac:(lia)). lia.
Qed.

Lemma encoded_spec src : byte_key src →
  Forall (λ c, c ≠ 0) (encoded src) ∧ uridecode (encoded src) = src.
Proof.
  induction 1 as [|c src Hc _ [IH1 IH2]]; [done|].
  change (encoded (c :: src)) with (enc c ++ encoded src).
  destruct (enc_spec c (encoded src) Hc) as [H1 H2]. rewrite H2, IH2. split; [by apply Forall_app|done].
Qed.

(** [uriencode] writes only below [dstlen]; when it succeeds, the destination
    holds a C string that decodes to the source, whatever bytes are in it; and it
    succeeds whenever the encoding leaves room for four more characters. *)
Theorem uriencode_roundtrip src dst dstlen :
  byte_key src → 0 < dstlen ≤ Z.of_nat (length dst) →
  ∃ r dst', uriencode src dst dstlen = Some (r, dst') ∧
    drop (Z.to_nat dstlen) dst' = drop (Z.to_nat dstlen) dst ∧
    (r = true → uridecode (cstr dst' 0) = src) ∧
    (Z.of_nat (length (encoded src)) + 4 ≤ dstlen → r = true).
Proof.
  intros Hs Hd. unfold uriencode.
  destruct (uriencode_loop_spec src dstlen dst 0) as (r & l & p' & -> & Hl & Hr); [lia..|].
  destruct (encoded_spec src Hs) as [Hz Hdec]. cbn [mbind option_bind fst]. eexists _, _. split; [done|]. split_and!.
  - unfold splice. rewrite take_0. cbn [app Nat.add]. rewrite drop_app_ge by lia. rewrite drop_drop. f_equal. lia.
  - intros ->. subst l. rewrite length_app in Hl. simpl in Hl. rewrite cstr_splice by (done || lia). done.
  - intros H. destruct r; [done|]. lia.
Qed.

Lemma uriencode_roundtrip_witness :
  ∃ r dst', uriencode [97; 37; 0; 255] (replicate 20 7) 16 = Some (r, dst') ∧
    r = true ∧ uridecode (cstr dst' 0) = [97; 37; 0; 255].
Proof.
  destruct (uriencode_roundtrip [97; 37; 0; 255] (replicate 20 7) 16) as (r & dst' & E & _ & H1 & H2).
  - repeat constructor; done.
  - rewrite length_replicate. lia.
  - exists r, dst'. assert (r = true) as Hr by (apply H2; vm_compute; discriminate). auto.
Defined.

(** ** Byte order *)

(** The number whose bytes, the least significant first, are [l]. *)
Fixpoint of_le (l : bytes) : Z := match l with [] => 0 | b :: l' => b + 256 * of_le l' end.

Lemma of_le_app l m : of_le (l ++ m) = of_le l + 256 ^ Z.of_nat (length l) * of_le m.
Proof.
  induction l as [|b l IH]; simpl of_le; [simpl; lia|]. rewrite IH.
  cbn [length]. rewrite Nat2Z.inj_succ, Z.pow_succ_r by lia. lia.
Qed.

Lemma of_le_range l : byte_key l → 0 ≤ of_le l < 256 ^ Z.of_nat (length l).
Proof.
  induction 1 as [|b l [H1 H2] _ IH]; [done|]. cbn [of_le length].
  rewrite Nat2Z.inj_succ, Z.pow_succ_r by lia. lia.
Qed.

Lemma lor_shift_byte m b : is_byte b → Z.lor (Z.shiftl m 8) b = m * 256 + b.
Proof.
  intros Hb. change 256 with (2 ^ 8). rewrite <- Z.shiftl_mul_pow2 by lia.
  assert (Z.land (Z.shiftl m 8) b = 0) as H.
  { apply Z.bits_inj'. intros n Hn. rewrite Z.land_spec, Z.bits_0.
    destruct (Z.lt_ge_cases n 8); [by rewrite Z.shiftl_spec_low|].
    rewrite <- (Z.mod_small b (2 ^ 8)) by exact Hb. rewrite Z.mod_pow2_bits_high by lia. apply andb_false_r. }
  by rewrite <- Z.lxor_lor, <- Z.add_nocarry_lxor.
Qed.

Lemma swap_loop_spec l m :
  byte_key l → byte_key m → (length l + length m ≤ 8)%nat →
  swap_loop (length l) (of_le m) (of_le l) = of_le (reverse l ++ m).
Proof.
  intros Hl. revert m. induction Hl as [|b l Hb Hl IH]; intros m Hm Hlen; [done|].
  cbn [length swap_loop of_le]. cbn [length] in Hlen.
  replace (Z.shiftr (b + 256 * of_le l) 8) with (of_le l).
  2:{ rewrite Z.shiftr_div_pow2 by lia. change (2 ^ 8) with 256. destruct Hb.
      rewrite Z.mul_comm, Z.div_add, Z.div_small by lia. done. }
  replace (u64 (Z.lor (Z.shiftl (of_le m) 8) (Z.land (b + 256 * of_le l) 255))) with (of_le (b :: m)).
  - rewrite IH; [by rewrite reverse_cons, <- app_assoc| |simpl; lia]. by constructor.
  - change 255 with (Z.ones 8). rewrite Z.land_ones by lia. change (2 ^ 8) with 256.
    assert ((b + 256 * of_le l) mod 256 = b) as ->.
    { destruct Hb. rewrite Z.mul_comm, Z.mod_add, Z.mod_small by lia. done. }
    rewrite lor_shift_byte by done. cbn [of_le]. symmetry.
    replace (of_le m * 256 + b) with (of_le (b :: m)) by (cbn [of_le]; lia). apply u64_small.
    pose proof (of_le_range (b :: m) ltac:(by constructor)) as Hr. split; [apply Hr|].
    eapply Z.lt_le_trans; [apply Hr|]. change two64 with (256 ^ 8). apply Z.pow_le_mono_r; simpl; lia.
Qed.

(** The conversion between host and network order reverses the eight bytes of
    a word, so that converting twice gives the word back. *)
Theorem swap64_reverses l :
  byte_key l → length l = 8%nat →
  mc_swap64 (of_le l) = of_le (reverse l) ∧ mc_swap64 (mc_swap64 (of_le l)) = of_le l.
Proof.
  intros Hl H8. assert (∀ l, byte_key l → length l = 8%nat → mc_swap64 (of_le l) = of_le (reverse l)) as H.
  { clear. intros l Hl H8. unfold mc_swap64. rewrite <- H8. change 0 with (of_le []).
    rewrite (swap_loop_spec l []); [by rewrite app_nil_r|done|apply Forall_nil_2|simpl; lia]. }
  rewrite (H l) by done. split; [done|].
  rewrite (H (reverse l)); [by rewrite reverse_involutive|by apply Forall_reverse|by rewrite length_reverse].
Qed.

(** A 64-bit value is accepted as a 32-bit number and cut to its low half. *)
Lemma safe_strtoul_truncates : safe_strtoul (chars "4294967297") = (true, 1).
Proof. vm_compute. reflexivity. Qed.

(** A negative number whose value wraps around to less than 2^63 is accepted. *)
Lemma safe_strtoull_negative : safe_strtoull (chars "-18446744073709551615") = (true, 1).
Proof. vm_compute. reflexivity. Qed.

Lemma swap64_reverses_witness :
  mc_swap64 (of_le [1; 2; 3; 4; 5; 6; 7; 255]) = of_le [255; 7; 6; 5; 4; 3; 2; 1].
Proof.
  destruct (swap64_reverses [1; 2; 3; 4; 5; 6; 7; 255]) as [H _]; [repeat constructor; done|done|exact H].
Defined.
