(* ===== verification/Tokenize.v ===== *)
(** The words of a command line: [tokenize_command] of [extra/KVS-DRAM-Cache/memcached.c], and the
    loop of [process_get_command] over the keys of a command.

    A command is a string in a buffer; positions in the buffer stand for the pointers of the
    code, and a position after the buffer holds a null byte. *)

From S2P Require Import Prelude Itoa Util.

(** [token_t]; a null [value] is [None]. *)
Record token_t := mkToken { value : option nat; length_ : nat }.

#[global] Instance token_inhabited : Inhabited token_t := populate (mkToken None 0).

Definition MAX_TOKENS : nat := 8.
Definition space : Z := 32.

Definition at_ (buf : bytes) (p : nat) : Z := nth p buf 0.

(** The loop over the [k] characters that are left: [s] is the start of the token, [e] the
    place in the string. *)
Fixpoint tokenize_loop (k : nat) (buf : bytes) (s e : nat) (tokens : list token_t) (max_tokens : nat) :
    bytes * nat * nat * list token_t :=
  match k with
  | O => (buf, s, e, tokens)
  | S k =>
      if at_ buf e =? space then
        if negb (s =? e)%nat then
          let tokens := tokens ++ [mkToken (Some s) (e - s)] in
          let buf := <[e := 0]> buf in
          if (length tokens =? max_tokens - 1)%nat then (buf, S e, S e, tokens)
          else tokenize_loop k buf (S e) (S e) tokens max_tokens
        else tokenize_loop k buf (S e) (S e) tokens max_tokens
      else tokenize_loop k buf s (S e) tokens max_tokens
  end.

(** The last token, and the terminal one. *)
Definition tokenize_end (x : bytes * nat * nat * list token_t) : bytes * list token_t :=
  let '(buf, s, e, tokens) := x in
  let tokens := if negb (s =? e)%nat then tokens ++ [mkToken (Some s) (e - s)] else tokens in
  (buf, tokens ++ [mkToken (if at_ buf e =? 0 then None else Some e) 0]).

(** The buffer with the ends of the tokens marked, and the tokens. *)
Definition tokenize_command (buf : bytes) (command max_tokens : nat) : bytes * list token_t :=
  tokenize_end (tokenize_loop (length (cstr buf command)) buf command command [] max_tokens).

(** ** Words *)

(** The runs of characters other than spaces; [cur] has been read of the first one. *)
Fixpoint words_from (cur l : bytes) : list bytes :=
  match l with
  | [] => match cur with [] => [] | _ => [cur] end
  | c :: l =>
      if c =? space then match cur with [] => words_from [] l | _ => cur :: words_from [] l end
      else words_from (cur ++ [c]) l
  end.

Definition words (l : bytes) : list bytes := words_from [] l.

Definition no_space (l : bytes) : Prop := Forall (λ c, c ≠ space) l.
Definition no_nul (l : bytes) : Prop := Forall (λ c, c ≠ 0) l.

Lemma words_from_app cur cur' l : no_space cur' → words_from cur (cur' ++ l) = words_from (cur ++ cur') l.
Proof.
  intros H. revert cur. induction H as [|c cur' Hc H IH]; intros cur; [by rewrite app_nil_r|].
  cbn [app words_from]. rewrite (proj2 (Z.eqb_neq _ _) Hc), IH, <-app_assoc. done.
Qed.

(** The token [t] is the word [w]. *)
Definition is_word (buf : bytes) (t : token_t) (w : bytes) : Prop :=
  ∃ o, value t = Some o ∧ length_ t = length w ∧ cstr buf o = w.

Lemma cstr_app pre w post : no_nul w → at_ post 0 = 0 → cstr (pre ++ w ++ post) (length pre) = w.
Proof.
  intros Hw Hp. unfold cstr. cbv zeta. rewrite drop_app_length. destruct post as [|c post].
  - rewrite app_nil_r. rewrite <-(app_nil_r w) at 1. rewrite span_app; [by rewrite take_ge| |done].
    eapply list.Forall_impl; [exact Hw|]. intros c Hc. by apply negb_true_iff, Z.eqb_neq.
  - unfold at_ in Hp. cbn in Hp. subst c. rewrite span_app; [by rewrite take_app_length| |done].
    eapply list.Forall_impl; [exact Hw|]. intros c Hc. by apply negb_true_iff, Z.eqb_neq.
Qed.

Lemma at_app pre l n : at_ (pre ++ l) (length pre + n) = at_ l n.
Proof. unfold at_. rewrite app_nth2_plus. done. Qed.

Lemma at_app_0 pre l : at_ (pre ++ l) (length pre) = at_ l 0.
Proof. rewrite <-(Nat.add_0_r (length pre)). apply at_app. Qed.

(** What the tokens of a string are: its first words, up to [n] of them, and what is left of it. *)
Definition tokens_of (buf : bytes) (n : nat) (line : bytes) (toks : list token_t) : Prop :=
  ∃ new t ws rest, toks = new ++ [t] ∧ words line = ws ++ words rest ∧ (length ws ≤ n)%nat ∧
    (rest ≠ [] → length ws = n ∧ (length rest < length line)%nat) ∧ Forall2 (is_word buf) new ws ∧ length_ t = 0%nat ∧
    match value t with None => rest = [] | Some o => rest ≠ [] ∧ cstr buf o = rest end.

Lemma tokens_of_same buf n l l' toks :
  words l' = words l → (length l ≤ length l')%nat → tokens_of buf n l toks → tokens_of buf n l' toks.
Proof.
  intros Hw Hl (new & t & ws & rest & H1 & H2 & H3 & H4 & H5). exists new, t, ws, rest. rewrite Hw. split_and!; try done; [|apply H5..].
  intros Hr. destruct (H4 Hr). split; [done|lia].
Qed.

Lemma tokenize_ok max l : ∀ pre cur post toks,
  no_nul (cur ++ l) → no_space cur → at_ post 0 = 0 → (length toks < max - 1)%nat →
  ∃ buf' new n, tokenize_end (tokenize_loop (length l) (pre ++ cur ++ l ++ post) (length pre) (length pre + length cur) toks max) =
      (buf', toks ++ new) ∧ (∃ tl, buf' = pre ++ tl) ∧ n = (max - 1 - length toks)%nat ∧ tokens_of buf' n (cur ++ l) new.
Proof.
  induction l as [|c l IH]; intros pre cur post toks Hz Hs Hp Ht; cbn [length tokenize_loop].
  { rewrite app_nil_r in *. cbn [tokenize_end app]. set (buf := pre ++ cur ++ post).
    assert (at_ buf (length pre + length cur) = 0) as E0.
    { unfold buf. rewrite app_assoc, <-length_app, at_app_0. done. }
    rewrite E0. cbn [Z.eqb]. destruct cur as [|c cur].
    - cbn [length]. rewrite Nat.add_0_r, Nat.eqb_refl. cbn [negb]. eexists buf, _, _. split; [done|]. split; [by eexists|]. split; [done|].
      exists [], (mkToken None 0), [], []. split_and!; try done. cbn [length]. lia.
    - rewrite (proj2 (Nat.eqb_neq _ _)) by (cbn [length]; lia). cbn [negb]. eexists buf, _, _. rewrite <-app_assoc. split; [done|].
      split; [by eexists|]. split; [done|]. replace (length pre + length (c :: cur) - length pre)%nat with (length (c :: cur)) by lia.
      exists [mkToken (Some (length pre)) (length (c :: cur))], (mkToken None 0), [c :: cur], []. split_and!; try done.
      + unfold words. rewrite <-(app_nil_r (c :: cur)) at 1. by rewrite words_from_app.
      + cbn [length]. lia.
      + constructor; [|done]. exists (length pre). split_and!; try done. by apply cstr_app. }
  assert (at_ (pre ++ cur ++ (c :: l) ++ post) (length pre + length cur) = c) as ->.
  { rewrite app_assoc, <-length_app, at_app_0. done. }
  apply list.Forall_app in Hz as Hz'. destruct Hz' as [Hzc Hzl]. apply list.Forall_cons in Hzl as [Hc0 Hzl].
  destruct (Z.eqb_spec c space) as [->|Hc].
  - destruct cur as [|c0 cur].
    + cbn [length]. rewrite Nat.add_0_r, Nat.eqb_refl. cbn [negb app].
      destruct (IH (pre ++ [space]) [] post toks) as (buf' & new & n & E & (tl & ->) & Hn & Hok); try done.
      rewrite length_app in E. cbn [length] in E. rewrite Nat.add_0_r in E.
      replace (length pre + 1)%nat with (S (length pre)) in E by lia.
      rewrite <-app_assoc in E. cbn [app] in E. exists (pre ++ space :: tl), new, n. rewrite E. rewrite <-app_assoc in *. split_and!; try done; [by eexists|].
      eapply tokens_of_same; [| |exact Hok]; [done|cbn [length app]; lia].
    + rewrite (proj2 (Nat.eqb_neq _ _)) by (cbn [length]; lia). cbn [negb]. set (w := c0 :: cur) in *.
      replace (length pre + length w - length pre)%nat with (length w) by lia.
      assert (<[(length pre + length w)%nat := 0]> (pre ++ w ++ (space :: l) ++ post) = pre ++ w ++ 0 :: l ++ post) as ->.
      { rewrite app_assoc, <-length_app. cbn [app]. rewrite insert_app_r_alt by lia. rewrite Nat.sub_diag. cbn. by rewrite <-app_assoc. }
      assert (words (w ++ space :: l) = w :: words l) as Hw.
      { unfold words. rewrite words_from_app by done. cbn [app words_from]. by rewrite Z.eqb_refl. }
      rewrite length_app. cbn [length]. destruct (Nat.eqb_spec (length toks + 1) (max - 1)) as [Hm|Hm].
      * cbn [tokenize_end]. rewrite Nat.eqb_refl. cbn [negb].
        eexists (pre ++ w ++ 0 :: l ++ post), _, _. rewrite <-app_assoc. split; [done|]. split; [by eexists|]. split; [done|].
        assert (at_ (pre ++ w ++ 0 :: l ++ post) (S (length pre + length w)) = at_ (l ++ post) 0) as ->.
        { replace (S (length pre + length w)) with (length (pre ++ w ++ [0])) by (rewrite !length_app; cbn [length]; lia).
          rewrite <-at_app_0 with (pre := pre ++ w ++ [0]). by rewrite <-!app_assoc. }
        eexists [_], _, [w], l. split_and!; try done.
        -- cbn [length]. lia.
        -- intros _. rewrite length_app. cbn [length]. lia.
        -- constructor; [|done]. exists (length pre). split_and!; try done. by apply cstr_app.
        -- destruct l as [|c1 l]; cbn [app].
           ++ rewrite Hp. done.
           ++ apply list.Forall_cons in Hzl as Hz1. unfold at_. cbn [nth]. rewrite (proj2 (Z.eqb_neq _ _)) by apply Hz1. split; [done|].
              replace (S (length pre + length w)) with (length (pre ++ w ++ [0])) by (rewrite !length_app; cbn [length]; lia).
              replace (pre ++ w ++ 0 :: c1 :: l ++ post) with ((pre ++ w ++ [0]) ++ (c1 :: l) ++ post) by (rewrite <-!app_assoc; done).
              by apply cstr_app.
      * destruct (IH (pre ++ w ++ [0]) [] post (toks ++ [mkToken (Some (length pre)) (length w)])) as (buf' & new & n & E & (tl & Htl) & Hn & Hok);
          try done; [constructor|rewrite length_app; cbn [length]; lia|].
        rewrite !length_app in E. cbn [length] in E. rewrite Nat.add_0_r in E.
        replace (length pre + (length w + 1))%nat with (S (length pre + length w)) in E by lia.
        rewrite <-!app_assoc in E. cbn [app] in E. exists buf'. eexists _, _. rewrite E. split; [done|].
        split; [subst buf'; rewrite <-app_assoc; by eexists|]. split; [done|].
        destruct Hok as (new' & t & ws & rest & -> & Hws & Hl & Hr & H2 & Ht0 & Hv). rewrite length_app in Hn. cbn [length] in Hn.
        exists (mkToken (Some (length pre)) (length w) :: new'), t, (w :: ws), rest. cbn [app] in Hws. split_and!; try done.
        -- rewrite Hw, Hws. done.
        -- cbn [length]. lia.
        -- intros Hrest. destruct (Hr Hrest). rewrite length_app. cbn [length app] in *. lia.
        -- constructor; [|done]. exists (length pre). split_and!; try done. subst buf'. rewrite <-!app_assoc. by apply cstr_app.
  - destruct (IH pre (cur ++ [c]) post toks) as (buf' & new & n & E & Hpre & Hn & Hok); try done.
    + by rewrite <-app_assoc.
    + apply list.Forall_app. split; [done|]. by constructor.
    + rewrite length_app in E. cbn [length] in E. replace (length pre + (length cur + 1))%nat with (S (length pre + length cur)) in E by lia.
      rewrite <-!app_assoc in E. cbn [app] in E. change ((c :: l) ++ post) with (c :: l ++ post). exists buf', new, n. rewrite E. rewrite <-app_assoc in Hok. done.
Qed.

Lemma tokenize_at buf max pre line post :
  buf = pre ++ line ++ post → no_nul line → at_ post 0 = 0 → (2 ≤ max)%nat →
  ∃ buf' toks, tokenize_command buf (length pre) max = (buf', toks) ∧ tokens_of buf' (max - 1) line toks.
Proof.
  intros -> Hz Hp Hm. unfold tokenize_command. rewrite cstr_app by done.
  destruct (tokenize_ok max line pre [] post []) as (buf' & new & n & E & _ & -> & Hok); try done; [constructor|cbn; lia|].
  cbn [app length] in E. rewrite Nat.add_0_r in E. rewrite E. cbn [length] in Hok. rewrite Nat.sub_0_r in Hok. eauto.
Qed.

Lemma cstr_no_nul buf p : no_nul (cstr buf p).
Proof.
  unfold cstr. cbv zeta. generalize (drop p buf) as l. induction l as [|c l IH]; [constructor|]. cbn [span].
  destruct (Z.eqb_spec c 0) as [->|Hc]; cbn [negb take]; [constructor|]. by constructor.
Qed.

Lemma cstr_split buf p : cstr buf p ≠ [] → ∃ pre post, buf = pre ++ cstr buf p ++ post ∧ length pre = p ∧ at_ post 0 = 0.
Proof.
  intros Hne. assert (p < length buf)%nat as Hlt.
  { apply Nat.lt_nge. intros Hge. apply Hne. unfold cstr. by rewrite drop_ge. }
  set (n := span (λ c, negb (c =? 0)) (drop p buf)).
  exists (take p buf), (drop n (drop p buf)). split; [|split].
  - unfold cstr. fold n. by rewrite take_drop, take_drop.
  - rewrite length_take. lia.
  - unfold n. generalize (drop p buf) as l. induction l as [|c l IH]; [done|]. cbn [span].
    destruct (Z.eqb_spec c 0) as [->|Hc]; cbn [negb]; [done|]. exact IH.
Qed.

(** ** The keys of a get command *)

Definition KEY_MAX_LENGTH : nat := 250.

(** What comes of a key: it is found and its value is added to the answer, it is not found, there
    is no memory for its place in the answer (the loop is left), or none for its suffix (the
    command is given up). *)
Inductive served := SHit | SMiss | SNoMemory | SNoSuffix.

Section Get.
(** [serve k st]: what comes of the key [k], and the state of the program afterwards. *)
Context {St : Type} (serve : bytes → St → answer (served * St)).

(** Where the inner loop ends: at a token, at a key that is too long, or for want of memory. *)
Inductive stopped := At (t : token_t) | TooLong | GivenUp.

(** The inner loop. *)
Fixpoint get_tokens (buf : bytes) (toks : list token_t) (st : St) : answer (stopped * St) :=
  match toks with
  | [] => Answer (At (mkToken None 0), st)
  | t :: toks =>
      if (length_ t =? 0)%nat then Answer (At t, st)
      else
        let key := take (length_ t) (drop (default 0%nat (value t)) buf) in
        if (KEY_MAX_LENGTH <? length_ t)%nat then Answer (TooLong, st)
        else
          '(r, st) ← serve key st;
          match r with
          | SNoMemory => Answer (At t, st)
          | SNoSuffix => Answer (GivenUp, st)
          | _ => get_tokens buf toks st
          end
  end.

(** How the command ends: the answer is complete, the line is refused, the answer is an error, or
    not yet. *)
Inductive get_end := GetDone | GetBadLine | GetNoMemory | GetRunning.

Fixpoint get_loop_ (fuel : nat) (buf : bytes) (toks : list token_t) (st : St) : answer (get_end * St) :=
  match fuel with
  | O => Answer (GetRunning, st)
  | S fuel =>
      '(e, st) ← get_tokens buf toks st;
      match e with
      | TooLong => Answer (GetBadLine, st)
      | GivenUp => Answer (GetNoMemory, st)
      | At t =>
          match value t with
          | None => Answer (GetDone, st)
          | Some p =>
              let '(buf, toks) := tokenize_command buf p MAX_TOKENS in
              match value (toks !!! 0%nat) with
              | None => Answer (GetDone, st)
              | Some _ => get_loop_ fuel buf toks st
              end
          end
      end
  end.

(** The loops of [process_get_command]; [toks] are the tokens of the whole line. *)
Definition get_keys (fuel : nat) (buf : bytes) (toks : list token_t) (st : St) : answer (get_end * St) :=
  get_loop_ fuel buf (drop 1 toks) st.

(** Every key in its turn. *)
Fixpoint serve_all (ws : list bytes) (st : St) : answer St :=
  match ws with [] => Answer st | w :: ws => '(_, st) ← serve w st; serve_all ws st end.

Lemma serve_all_app ws1 ws2 st : serve_all (ws1 ++ ws2) st = (st ← serve_all ws1 st; serve_all ws2 st).
Proof using. revert st. induction ws1 as [|w ws1 IH]; intros st; cbn; [done|]. destruct (serve w st) as [[r st']| |]; cbn; [apply IH|done..]. Qed.

(** There is always memory for the answer. *)
Context (Hserve : ∀ k st r st', serve k st = Answer (r, st') → r = SHit ∨ r = SMiss).

Lemma word_bytes buf t w : is_word buf t w → take (length_ t) (drop (default 0%nat (value t)) buf) = w.
Proof. intros (o & -> & -> & <-). cbn [default]. unfold cstr. cbv zeta. rewrite length_take.
  set (l := drop o buf). destruct (Nat.min_spec (span (λ c, negb (c =? 0)) l) (length l)) as [[? ->]|[? ->]]; [done|by rewrite !take_ge].
Qed.

Lemma get_tokens_ok buf new t ws st :
  Forall2 (is_word buf) new ws → length_ t = 0%nat → Forall (λ w, w ≠ [] ∧ (length w ≤ KEY_MAX_LENGTH)%nat) ws →
  get_tokens buf (new ++ [t]) st = (st' ← serve_all ws st; Answer (At t, st')).
Proof.
  intros H Ht. revert st. induction H as [|t1 w new ws Hw H IH]; intros st Hws; cbn [app get_tokens serve_all].
  { by rewrite Ht. }
  apply list.Forall_cons in Hws as [[Hne Hle] Hws]. rewrite (word_bytes _ _ _ Hw).
  destruct Hw as (o & Ho & Hl & _). rewrite Hl. rewrite (proj2 (Nat.eqb_neq _ _)) by (destruct w; [done|cbn [length]; lia]).
  rewrite (proj2 (Nat.ltb_ge _ _)) by lia. destruct (serve w st) as [[r st']| |] eqn:E; [|done..]. cbn [mbind answer_bind].
  destruct (Hserve _ _ _ _ E) as [-> | ->]; by apply IH.
Qed.

Lemma words_nonempty l : Forall (λ w, w ≠ []) (words l).
Proof.
  unfold words. assert (∀ cur, Forall (λ w, w ≠ []) (words_from cur l)) as H; [|apply H].
  induction l as [|c l IH]; intros cur; cbn [words_from].
  - destruct cur; [by apply list.Forall_nil|by apply list.Forall_singleton].
  - destruct (c =? space); [|apply IH]. destruct cur; [apply IH|]. by constructor.
Qed.

Definition short_keys (ws : list bytes) : Prop := Forall (λ w, (length w ≤ KEY_MAX_LENGTH)%nat) ws.

Lemma get_loop_ok fuel buf new t ws rest st :
  Forall2 (is_word buf) new ws → length_ t = 0%nat →
  match value t with None => rest = [] | Some o => rest ≠ [] ∧ cstr buf o = rest end →
  Forall (λ w, w ≠ []) ws → short_keys (ws ++ words rest) → (length rest < fuel)%nat →
  get_loop_ fuel buf (new ++ [t]) st = (st' ← serve_all (ws ++ words rest) st; Answer (GetDone, st')).
Proof.
  revert buf new t ws rest st. induction fuel as [|fuel IH]; intros buf new t ws rest st H2 Ht Hv Hne Hs Hf; [lia|]. cbn [get_loop_].
  unfold short_keys in Hs. apply list.Forall_app in Hs as [Hs Hs'].
  rewrite (get_tokens_ok buf new t ws st H2 Ht), serve_all_app by by apply list.Forall_and.
  destruct (serve_all ws st) as [st1| |]; [|done..]. cbn [mbind answer_bind].
  destruct (value t) as [o|]; [|by subst rest].
  destruct Hv as [Hrest Hc]. destruct (cstr_split buf o) as (pre & post & E & Hp & Hz); [congruence|].
  rewrite Hc in E. destruct (tokenize_at buf MAX_TOKENS pre rest post E) as (buf' & toks' & Et & Hok'); [rewrite <-Hc; apply cstr_no_nul|done|unfold MAX_TOKENS; lia|].
  rewrite <-Hp, Et. destruct Hok' as (new' & t' & ws' & rest' & -> & Hw' & Hl' & Hr' & H2' & Ht' & Hv').
  pose proof (words_nonempty rest) as Hne'. rewrite Hw' in Hne'. apply list.Forall_app in Hne' as [Hne' _].
  destruct new' as [|t1 new'].
  - inversion H2'; subst ws'. cbn [app lookup_total list_lookup_total].
    assert (rest' = []) as ->.
    { destruct rest' as [|y rest'']; [done|]. destruct Hr' as [H0 _]; [done|]. by cbn in H0. }
    destruct (value t') as [o'|]; [by destruct Hv'|]. by rewrite Hw'.
  - inversion H2' as [|? w1 ? ws1 Hw1]; subst ws'. cbn [app lookup_total list_lookup_total]. destruct Hw1 as (o1 & -> & _).
    rewrite Hw'. apply (IH buf' (t1 :: new') t' (w1 :: ws1) rest' st1); [done|done|done|done|by rewrite <-Hw'|].
    destruct rest' as [|y rest'']; [destruct rest; [done|cbn [length] in *; lia]|]. destruct Hr' as [_ Hlt]; [done|]. lia.
Qed.
End Get.

Lemma get_keys_ok {St} (serve : bytes → St → answer (served * St)) fuel line post cmd keys buf toks st :
  (∀ k st r st', serve k st = Answer (r, st') → r = SHit ∨ r = SMiss) →
  no_nul line → at_ post 0 = 0 → words line = cmd :: keys → short_keys keys →
  tokenize_command (line ++ post) 0 MAX_TOKENS = (buf, toks) → (length line < fuel)%nat →
  get_keys serve fuel buf toks st = (st' ← serve_all serve keys st; Answer (GetDone, st')).
Proof.
  intros Hserve Hz Hp Hw Hs E Hf. destruct (tokenize_at _ MAX_TOKENS [] line post eq_refl Hz Hp) as (buf' & toks' & E' & Hok); [unfold MAX_TOKENS; lia|].
  cbn [app length] in E'. rewrite E in E'. injection E' as <- <-.
  destruct Hok as (new & t & ws & rest & -> & Hw' & Hl & Hr & H2 & Ht & Hv). rewrite Hw in Hw'. unfold get_keys.
  pose proof (words_nonempty line) as Hne. rewrite Hw in Hne. apply list.Forall_cons in Hne as [_ Hne].
  destruct H2 as [|t0 cmd' new ws _ H2].
  { exfalso. destruct rest as [|y rest]; [done|]. destruct Hr as [H0 _]; [done|]. by cbn in H0. }
  injection Hw' as <- ->. apply list.Forall_app in Hne as [Hne _]. cbn [app drop]. rewrite drop_0.
  apply (get_loop_ok serve Hserve); try done. destruct rest as [|y rest]; [cbn; lia|]. destruct Hr; [done|]. lia.
Qed.

(** ** The properties *)

(** C16: [tokenize_command] cuts a command line into its words, at most [max_tokens - 1] of them; each token is a string of
    its own afterwards.  The terminal token is null when the line has been read to its end, and else
    leads to the rest of the line.  It never writes more than [max_tokens] tokens. *)
Theorem tokenize_words pre line post max_tokens :
  no_nul line → at_ post 0 = 0 → (2 ≤ max_tokens)%nat →
  ∃ buf toks, tokenize_command (pre ++ line ++ post) (length pre) max_tokens = (buf, toks) ∧
    tokens_of buf (max_tokens - 1) line toks ∧ (1 ≤ length toks ≤ max_tokens)%nat.
Proof.
  intros Hz Hp Hm. destruct (tokenize_at _ max_tokens pre line post eq_refl Hz Hp Hm) as (buf & toks & E & Hok).
  exists buf, toks. split_and!; try done; destruct Hok as (new & t & ws & rest & -> & _ & Hl & _ & H2 & _).
  - rewrite length_app. cbn [length]. lia.
  - apply Forall2_length in H2. rewrite length_app. cbn [length]. lia.
Qed.

Lemma tokenize_words_witness : ∃ buf toks, tokenize_command [103; 101; 116; 32; 97; 32; 32; 98] 0 8 = (buf, toks) ∧ length toks = 4%nat.
Proof.
  destruct (tokenize_words [] [103; 101; 116; 32; 97; 32; 32; 98] [] 8) as (buf & toks & E & _);
    [repeat constructor; discriminate|reflexivity|lia|].
  exists buf, toks. split; [exact E|]. vm_compute in E. injection E as _ <-. reflexivity.
Defined.


(** The keys that have been asked for, the last one first. *)
Notation trace := (list (bytes * served)).
Definition traced (f : trace → bytes → served) (k : bytes) (tr : trace) : answer (served * trace) :=
  Answer (f tr k, (k, f tr k) :: tr).


(** *** When there is no memory

    The inner loop ends at the key for which there is no memory, and the outer one goes on with
    the string at that token, which is the key alone. *)

Definition abc_line : bytes := [103; 101; 116; 32; 97; 32; 98; 32; 99].

(** One failure at [b]: it is tried again, [c] is dropped, and the answer is complete. *)
Lemma get_drops_keys :
  let '(buf, toks) := tokenize_command abc_line 0 MAX_TOKENS in
  get_keys (traced (λ tr k, if decide (k = [98] ∧ length tr = 1%nat) then SNoMemory else SHit)) 100 buf toks [] =
    Answer (GetDone, [([98], SHit); ([98], SNoMemory); ([97], SHit)]) ∧
  words abc_line = [[103; 101; 116]; [97]; [98]; [99]].
Proof. vm_compute. split; reflexivity. Qed.

(** As long as the memory is short, the command does not end. *)
Lemma get_does_not_end fuel :
  let '(buf, toks) := tokenize_command abc_line 0 MAX_TOKENS in
  ∃ tr, get_keys (traced (λ _ _, SNoMemory)) fuel buf toks [] = Answer (GetRunning, tr).
Proof.
  destruct fuel as [|fuel]; [eexists; reflexivity|]. vm_compute tokenize_command. unfold get_keys. cbn [drop get_loop_].
  vm_compute get_tokens. cbn [mbind answer_bind]. vm_compute tokenize_command. cbv zeta beta iota.
  generalize [([97], SNoMemory)] as tr. induction fuel as [|fuel IH]; intros tr; [eexists; reflexivity|]. cbn [get_loop_].
  cbn -[MAX_TOKENS tokenize_command get_loop_]. vm_compute tokenize_command. apply IH.
Qed.
