(* ===== verification/Stats.v ===== *)
(** Statistics per key prefix: [extra/KVS-DRAM-Cache/stats.c].

    The prefix of a key is what precedes the delimiter.  The counters of a prefix are
    kept in a hash table of fixed size, whose chains only grow at their heads. *)

From stdpp Require Import strings.
From S2P Require Import Prelude Itoa Util.

Record prefix_stats := mkPfs {
  prefix : bytes;
  prefix_len : Z;
  num_gets : Z;
  num_sets : Z;
  num_deletes : Z;
  num_hits : Z
}.

Definition PREFIX_HASH_SIZE : nat := 256.

(** The globals; a chain is listed from its head. *)
Record stats_state := mkStats {
  buckets : list (list prefix_stats);
  num_prefixes : Z;
  total_prefix_size : Z
}.

(** After [stats_prefix_init] or [stats_prefix_clear]. *)
Definition stats_prefix_clear : stats_state := mkStats (replicate PREFIX_HASH_SIZE []) 0 0.

(** [strncmp(prefix, key, n) == 0], for null-terminated strings; reading one ends at
    its null byte. *)
Fixpoint strncmp_eq (s t : bytes) (n : nat) {struct n} : bool :=
  match n with
  | O => true
  | S n' =>
      match s, t with
      | [], [] => true
      | c :: s', d :: t' => (c =? d) && strncmp_eq s' t' n'
      | _, _ => false
      end
  end.

Section Stats.
Context (hash : bytes → Z) (prefix_delimiter : Z).

(** [for (length = 0; ...)]: the length of the prefix, if there is a delimiter. *)
Fixpoint prefix_length (key : bytes) : option nat :=
  match key with
  | [] => None
  | c :: key' =>
      if c =? 0 then None
      else if c =? prefix_delimiter then Some O
      else S <$> prefix_length key'
  end.

Definition hashval (p : bytes) : nat := Z.to_nat (hash p mod Z.of_nat PREFIX_HASH_SIZE).

(** [for (pfs = prefix_stats[hashval]; NULL != pfs; pfs = pfs->next)]: the position
    of the entry in its chain. *)
Fixpoint chain_pos (chain : list prefix_stats) (key : bytes) (n : nat) : option nat :=
  match chain with
  | [] => None
  | pfs :: chain' =>
      if strncmp_eq (prefix pfs) key n then Some O else S <$> chain_pos chain' key n
  end.

Definition chain_at (s : stats_state) (h : nat) : list prefix_stats := default [] (buckets s !! h).

(** The state and the bucket and position of the entry, or null.  [calloc_ok] and
    [malloc_ok] say whether the allocations succeed. *)
Definition stats_prefix_find (s : stats_state) (key : bytes) (calloc_ok malloc_ok : bool)
  : stats_state * option (nat * nat) :=
  match prefix_length key with
  | None => (s, None)
  | Some n =>
      let h := hashval (take n key) in
      match chain_pos (chain_at s h) key n with
      | Some i => (s, Some (h, i))
      | None =>
          if negb calloc_ok then (s, None)
          else if negb malloc_ok then (s, None)
          else
            let pfs := mkPfs (take n key) (Z.of_nat n) 0 0 0 0 in
            (mkStats (<[h := pfs :: chain_at s h]> (buckets s)) (s32 (num_prefixes s + 1))
               (s32 (total_prefix_size s + Z.of_nat n)), Some (h, O))
      end
  end.

Definition update_pfs (f : prefix_stats → prefix_stats) (r : stats_state * option (nat * nat)) : stats_state :=
  match r with
  | (s, None) => s
  | (s, Some (h, i)) => mkStats (alter (alter f i) h (buckets s)) (num_prefixes s) (total_prefix_size s)
  end.

Definition count_get (is_hit : bool) (p : prefix_stats) : prefix_stats :=
  mkPfs (prefix p) (prefix_len p) (u64 (num_gets p + 1)) (num_sets p) (num_deletes p)
    (if is_hit then u64 (num_hits p + 1) else num_hits p).
Definition count_set (p : prefix_stats) : prefix_stats :=
  mkPfs (prefix p) (prefix_len p) (num_gets p) (u64 (num_sets p + 1)) (num_deletes p) (num_hits p).
Definition count_delete (p : prefix_stats) : prefix_stats :=
  mkPfs (prefix p) (prefix_len p) (num_gets p) (num_sets p) (u64 (num_deletes p + 1)) (num_hits p).

Definition stats_prefix_record_get s key is_hit ok1 ok2 : stats_state :=
  update_pfs (count_get is_hit) (stats_prefix_find s key ok1 ok2).
Definition stats_prefix_record_delete s key ok1 ok2 : stats_state :=
  update_pfs count_delete (stats_prefix_find s key ok1 ok2).
Definition stats_prefix_record_set s key ok1 ok2 : stats_state :=
  update_pfs count_set (stats_prefix_find s key ok1 ok2).

(** ** The dump *)

Definition format : string := "PREFIX %s get %llu hit %llu set %llu del %llu".
(** [strlen(format)], with the carriage return and line feed at its end. *)
Definition format_len : Z := Z.of_nat (String.length format) + 2.

(** What [snprintf] makes of the format. *)
Definition line (p : prefix_stats) : bytes :=
  chars "PREFIX " ++ prefix p ++ chars " get " ++ dec (num_gets p) ++ chars " hit " ++
  dec (num_hits p) ++ chars " set " ++ dec (num_sets p) ++ chars " del " ++
  dec (num_deletes p) ++ [13; 10].

(** [snprintf(buf + pos, size - pos, ...)] of the text [l], with truncation; the
    result is the length of the whole text. *)
Definition snprintf (buf : bytes) (pos : nat) (size : Z) (l : bytes) : bytes * Z :=
  (if size <=? 0 then buf else splice buf pos (take (Z.to_nat size - 1) l ++ [0]), Z.of_nat (length l)).

Definition dump_size (s : stats_state) : Z :=
  format_len + total_prefix_size s + num_prefixes s * (format_len - 2 + 4 * (20 - 4)) + 6.

(** The inner loop; [None] is a failed assertion. *)
Fixpoint dump_chain (chain : list prefix_stats) (size : Z) (st : bytes * Z * Z) : option (bytes * Z * Z) :=
  match chain with
  | [] => Some st
  | pfs :: chain' =>
      let '(buf, pos, total_written) := st in
      let '(buf, written) := snprintf buf (Z.to_nat pos) (size - pos) (line pfs) in
      let pos := pos + written in
      let total_written := total_written + written in
      if total_written <? size then dump_chain chain' size (buf, pos, total_written) else None
  end.

Fixpoint dump_buckets (bs : list (list prefix_stats)) (size : Z) (st : bytes * Z * Z)
  : option (bytes * Z * Z) :=
  match bs with
  | [] => Some st
  | c :: bs' => st ← dump_chain c size st; dump_buckets bs' size st
  end.

Definition END : bytes := chars "END" ++ [13; 10].

(** [buf] is what [malloc(size)] returns; the result is the buffer and [*length], or
    null. *)
Definition stats_prefix_dump (s : stats_state) (buf : option bytes) : option (option (bytes * Z)) :=
  match buf with
  | None => Some None
  | Some buf =>
      '(buf, pos, _) ← dump_buckets (buckets s) (dump_size s) (buf, 0, 0);
      o ← copy_out (END ++ [0]) (buf, Z.to_nat pos);
      Some (Some (o.1, pos + 5))
  end.

(** ** The size of the dump *)

Definition entries (s : stats_state) : list prefix_stats := concat (buckets s).

Definition is_u64 (z : Z) : Prop := 0 ≤ z < two64.

Record entry_ok (p : prefix_stats) : Prop := {
  eo_len : prefix_len p = Z.of_nat (length (prefix p));
  eo_gets : is_u64 (num_gets p);
  eo_sets : is_u64 (num_sets p);
  eo_deletes : is_u64 (num_deletes p);
  eo_hits : is_u64 (num_hits p)
}.

Definition sum_len (l : list prefix_stats) : Z := foldr (λ p acc, prefix_len p + acc) 0 l.

(** What the operations preserve: the counters of [int] type wrap around. *)
Record stats_ok (s : stats_state) : Prop := {
  so_buckets : length (buckets s) = PREFIX_HASH_SIZE;
  so_entries : Forall entry_ok (entries s);
  so_num : num_prefixes s = s32 (Z.of_nat (length (entries s)));
  so_total : total_prefix_size s = s32 (sum_len (entries s))
}.

Lemma sum_len_app l m : sum_len (l ++ m) = sum_len l + sum_len m.
Proof. unfold sum_len. induction l as [|p l IH]; simpl; [done|]. rewrite IH. lia. Qed.

Lemma s32_small z : 0 ≤ z < 2 ^ 31 → s32 z = z.
Proof. intros. unfold s32, u32, two32. rewrite Z.mod_small by lia. case_match; lia. Qed.

Lemma s32_add z w : s32 (s32 z + w) = s32 (z + w).
Proof.
  assert (u32 (s32 z + w) = u32 (z + w)) as E.
  { unfold s32, u32. case_match; [by rewrite Zplus_mod_idemp_l|].
    replace (z mod two32 - two32 + w) with (z mod two32 + w + (-1) * two32) by lia.
    rewrite Z.mod_add by done. by rewrite Zplus_mod_idemp_l. }
  unfold s32 at 1 3. by rewrite E.
Qed.

Lemma length_chars s : length (chars s) = String.length s.
Proof. unfold chars. rewrite length_fmap. induction s; simpl; auto. Qed.

Lemma line_length p : entry_ok p →
  0 ≤ Z.of_nat (length (line p)) ≤ prefix_len p + (format_len - 2 + 4 * (20 - 4)).
Proof.
  intros [Hl Hg Hs Hd Hh]. rewrite Hl. unfold is_u64, two64 in *.
  assert (∀ n, 0 ≤ n < 2 ^ 64 → (length (dec n) ≤ 20)%nat) as Hn.
  { intros. apply length_dec; simpl; lia. }
  pose proof (Hn _ Hg). pose proof (Hn _ Hs). pose proof (Hn _ Hd). pose proof (Hn _ Hh).
  unfold line, format_len. rewrite !length_app, !length_chars. simpl. lia.
Qed.

Lemma take_splice b p l : (p + length l ≤ length b)%nat → take (p + length l) (splice b p l) = take p b ++ l.
Proof.
  intros. unfold splice. rewrite app_assoc, take_app_le by (rewrite length_app, length_take; lia).
  apply take_ge. rewrite length_app, length_take. lia.
Qed.

Lemma snprintf_fits buf pos l :
  (pos + length l < length buf)%nat →
  ∃ buf', snprintf buf pos (Z.of_nat (length buf) - Z.of_nat pos) l = (buf', Z.of_nat (length l)) ∧
    length buf' = length buf ∧ take (pos + length l) buf' = take pos buf ++ l.
Proof.
  intros Hp. unfold snprintf. rewrite (proj2 (Z.leb_gt _ _)) by lia.
  rewrite (take_ge l) by lia. eexists. split; [done|].
  split; [apply length_splice; rewrite length_app; simpl; lia|].
  assert (take (pos + length l) (splice buf pos (l ++ [0])) =
    take (pos + length l) (take (pos + length (l ++ [0])) (splice buf pos (l ++ [0])))) as ->.
  { rewrite take_take. f_equal. rewrite length_app. lia. }
  rewrite take_splice by (rewrite length_app; simpl; lia). rewrite app_assoc.
  rewrite take_app_le by (rewrite length_app, length_take; lia).
  apply take_ge. rewrite length_app, length_take. lia.
Qed.

Definition lines (l : list prefix_stats) : bytes := concat (line <$> l).

Lemma lines_app l m : lines (l ++ m) = lines l ++ lines m.
Proof. unfold lines. by rewrite fmap_app, concat_app. Qed.

Lemma lines_length l : Forall entry_ok l →
  0 ≤ Z.of_nat (length (lines l)) ≤ sum_len l + Z.of_nat (length l) * (format_len - 2 + 4 * (20 - 4)).
Proof.
  induction 1 as [|p l Hp _ IH]; [done|]. pose proof (line_length p Hp).
  change (lines (p :: l)) with (line p ++ lines l). rewrite length_app.
  change (sum_len (p :: l)) with (prefix_len p + sum_len l). cbn [length]. lia.
Qed.

(** The text written so far is before [pos]. *)
Definition dumped (buf : bytes) (pos : nat) (text : bytes) (st : bytes * Z * Z) : Prop :=
  ∃ buf', st = (buf', Z.of_nat (pos + length text), Z.of_nat (pos + length text)) ∧
    length buf' = length buf ∧ take (pos + length text) buf' = take pos buf ++ text.

Lemma dump_chain_ok chain buf pos :
  (pos + length (lines chain) < length buf)%nat →
  ∃ st, dump_chain chain (Z.of_nat (length buf)) (buf, Z.of_nat pos, Z.of_nat pos) = Some st ∧
    dumped buf pos (lines chain) st.
Proof.
  revert buf pos. induction chain as [|p chain IH]; intros buf pos Hp; cbn [dump_chain].
  { eexists. split; [done|]. exists buf. simpl. by rewrite Nat.add_0_r, app_nil_r. }
  change (lines (p :: chain)) with (line p ++ lines chain) in *. rewrite length_app in Hp.
  rewrite Nat2Z.id. destruct (snprintf_fits buf pos (line p)) as (buf1 & -> & Hl1 & Ht1); [lia|].
  rewrite (proj2 (Z.ltb_lt _ _)) by lia.
  destruct (IH buf1 (pos + length (line p))%nat) as (st & E & buf2 & -> & Hl2 & Ht2); [lia|].
  rewrite <- Nat2Z.inj_add, <- Hl1, E. eexists. split; [done|]. exists buf2.
  rewrite length_app, Nat.add_assoc. split_and!; [done|lia|]. by rewrite Ht2, Ht1, app_assoc.
Qed.

Lemma dump_buckets_ok bs buf pos :
  (pos + length (lines (concat bs)) < length buf)%nat →
  ∃ st, dump_buckets bs (Z.of_nat (length buf)) (buf, Z.of_nat pos, Z.of_nat pos) = Some st ∧
    dumped buf pos (lines (concat bs)) st.
Proof.
  revert buf pos. induction bs as [|c bs IH]; intros buf pos Hp; cbn [dump_buckets].
  { eexists. split; [done|]. exists buf. simpl. by rewrite Nat.add_0_r, app_nil_r. }
  cbn [concat] in *. rewrite lines_app in *. rewrite length_app in Hp.
  destruct (dump_chain_ok c buf pos) as (st & -> & buf1 & -> & Hl1 & Ht1); [lia|]. cbn [mbind option_bind].
  destruct (IH buf1 (pos + length (lines c))%nat) as (st & E & buf2 & -> & Hl2 & Ht2); [lia|].
  rewrite <- Hl1, E. eexists. split; [done|]. exists buf2.
  rewrite length_app, Nat.add_assoc. split_and!; [done|lia|]. by rewrite Ht2, Ht1, app_assoc.
Qed.

(** The buffer of the dump is large enough, whatever the counters: its assertion
    holds after every line, nothing is truncated or written outside the buffer, and
    the text is one line per prefix and [END], with a null byte after it. *)
Theorem stats_dump_fits s buf :
  stats_ok s → Z.of_nat (length (entries s)) < 2 ^ 31 → sum_len (entries s) < 2 ^ 31 →
  Z.of_nat (length buf) = dump_size s →
  ∃ buf' n, stats_prefix_dump s (Some buf) = Some (Some (buf', Z.of_nat n)) ∧
    length buf' = length buf ∧ take (S n) buf' = lines (entries s) ++ END ++ [0] ∧
    n = length (lines (entries s) ++ END).
Proof.
  intros [_ He Hn Ht] Hn31 Ht31 Hb. pose proof (lines_length _ He) as Hl.
  assert (0 ≤ sum_len (entries s)).
  { clear -He. induction He as [|p l [Hp _ _ _ _] _ IH]; [done|]. unfold sum_len in *. simpl. lia. }
  rewrite s32_small in Hn, Ht by lia. unfold stats_prefix_dump. rewrite <- Hb.
  unfold dump_size in Hb. rewrite Hn, Ht in Hb. assert (47 = format_len) as Hf by done.
  assert (length (END ++ [0]) = 6%nat) as H6 by done.
  destruct (dump_buckets_ok (buckets s) buf 0) as (st & E & buf1 & -> & Hl1 & Ht1).
  { fold (entries s). nia. }
  fold (entries s) in *. rewrite (E : dump_buckets _ _ (_, 0, 0) = _). cbn [mbind option_bind].
  rewrite Nat2Z.id, copy_out_emits by lia. cbn [mbind option_bind fst].
  eexists _, (length (lines (entries s) ++ END)).
  rewrite length_app. split_and!; [by rewrite (Nat2Z.inj_add (length (lines (entries s))))| |..].
  - rewrite length_splice; [done|]. lia.
  - replace (S _) with (0 + length (lines (entries s)) + length (END ++ [0%Z]))%nat by (rewrite length_app; simpl; lia).
    rewrite take_splice by lia. by rewrite Ht1.
  - done.
Qed.

(** ** The counters *)

Definition lookup_pfs (s : stats_state) (q : bytes) : option prefix_stats :=
  snd <$> list_find (λ p, prefix p = q) (chain_at s (hashval q)).

Lemma strncmp_prefix p q rest :
  strncmp_eq p (q ++ rest) (length q) = true ↔ q `prefix_of` p.
Proof.
  revert p. induction q as [|c q IH]; intros p; [split; [intros; apply prefix_nil|done]|].
  cbn [app length strncmp_eq]. destruct p as [|d p].
  - split; [done|]. intros H. by apply prefix_nil_inv in H.
  - rewrite andb_true_iff, Z.eqb_eq, IH. split; [intros [-> H]; by apply prefix_cons|].
    intros H. split; [by apply prefix_cons_inv_1 in H|by apply prefix_cons_inv_2 in H].
Qed.

Lemma prefix_length_take key n : prefix_length key = Some n → (n ≤ length key)%nat.
Proof.
  revert n. induction key as [|c key IH]; intros n; cbn [prefix_length]; [done|].
  case_match; [done|]. case_match; [intros [= <-]; lia|].
  destruct (prefix_length key) as [m|]; [|done]. intros [= <-]. specialize (IH m eq_refl). simpl. lia.
Qed.

(** Where no prefix of the chain properly extends [q], the comparison of the first
    characters finds [q] itself. *)
Lemma chain_pos_find chain key n :
  (n ≤ length key)%nat →
  (∀ p, p ∈ chain → take n key `prefix_of` prefix p → prefix p = take n key) →
  chain_pos chain key n = fst <$> list_find (λ p, prefix p = take n key) chain.
Proof.
  intros Hn. assert (n = length (take n key)) as En by (rewrite length_take; lia).
  induction chain as [|p chain IH]; intros Hc; [done|]. cbn [chain_pos list_find].
  assert (strncmp_eq (prefix p) key n = true ↔ take n key `prefix_of` prefix p) as Hs.
  { rewrite <- (take_drop n key) at 1. rewrite En at 3. apply strncmp_prefix. }
  destruct (decide (prefix p = take n key)) as [E|E].
  - rewrite (proj2 Hs) by (by rewrite E). done.
  - destruct (strncmp_eq (prefix p) key n) eqn:Ec.
    { destruct E. apply Hc; [by left|]. by apply Hs. }
    rewrite IH by (intros; apply Hc; [by right|done]). by destruct (list_find _ chain) as [[]|].
Qed.

Lemma find_alter f chain q i x :
  (∀ p, prefix (f p) = prefix p) → list_find (λ p, prefix p = q) chain = Some (i, x) →
  ∀ q', snd <$> list_find (λ p, prefix p = q') (alter f i chain) =
    (if decide (q' = q) then Some (f x) else snd <$> list_find (λ p, prefix p = q') chain).
Proof.
  intros Hf. revert i. induction chain as [|p chain IH]; intros i Hi q'; [done|]. cbn [list_find] in *.
  destruct (decide (prefix p = q)) as [E|E].
  - injection Hi as <- <-. cbn [alter list_alter list_find]. rewrite Hf.
    destruct (decide (q' = q)) as [->|E']; [by rewrite decide_True|].
    rewrite !decide_False by congruence. by destruct (list_find _ chain) as [[]|].
  - destruct (list_find _ chain) as [[j y]|] eqn:El; [|done]. injection Hi as <- <-.
    cbn [alter list_alter list_find]. specialize (IH j eq_refl q').
    destruct (decide (prefix p = q')) as [E'|E'].
    + rewrite decide_False by congruence. done.
    + transitivity (snd <$> list_find (λ p, prefix p = q') (alter f j chain)).
      { by destruct (list_find _ (alter f j chain)) as [[]|]. }
      rewrite IH. case_decide; [done|]. by destruct (list_find (λ p, prefix p = q') chain) as [[]|].
Qed.

(** The prefixes in use: none properly extends another one of the same bucket. *)
Context (P : list bytes).

Definition separate : Prop := ∀ p q, p ∈ P → q ∈ P → hashval p = hashval q → q `prefix_of` p → p = q.

Definition placed (s : stats_state) : Prop :=
  ∀ h c p, buckets s !! h = Some c → p ∈ c → prefix p ∈ P ∧ hashval (prefix p) = h.

Lemma hashval_lt q : (hashval q < PREFIX_HASH_SIZE)%nat.
Proof.
  unfold hashval, PREFIX_HASH_SIZE. pose proof (Z.mod_pos_bound (hash q) (Z.of_nat 256) ltac:(lia)). lia.
Qed.

Lemma chain_at_lookup s h : length (buckets s) = PREFIX_HASH_SIZE → (h < PREFIX_HASH_SIZE)%nat →
  buckets s !! h = Some (chain_at s h).
Proof.
  intros Hl Hh. unfold chain_at. destruct (lookup_lt_is_Some_2 (buckets s) h) as [c Hc]; [lia|].
  by rewrite Hc.
Qed.

Lemma chain_insert s h c n t h' : length (buckets s) = PREFIX_HASH_SIZE → (h < PREFIX_HASH_SIZE)%nat →
  chain_at (mkStats (<[h := c]> (buckets s)) n t) h' = if decide (h' = h) then c else chain_at s h'.
Proof.
  intros Hl Hh. unfold chain_at. cbn [buckets]. case_decide as E.
  - subst. rewrite list_lookup_insert_eq by lia. done.
  - by rewrite list_lookup_insert_ne by done.
Qed.

Lemma entries_insert s h c c0 n t : buckets s !! h = Some c0 →
  ∃ l1 l2, entries s = l1 ++ c0 ++ l2 ∧ entries (mkStats (<[h := c]> (buckets s)) n t) = l1 ++ c ++ l2.
Proof.
  intros Hh. exists (concat (take h (buckets s))), (concat (drop (S h) (buckets s))).
  unfold entries. cbn [buckets]. split.
  - rewrite <- (take_drop_middle (buckets s) h c0) at 1 by done. by rewrite concat_app.
  - rewrite insert_take_drop by (by eapply lookup_lt_Some). by rewrite concat_app.
Qed.

Definition new_pfs (q : bytes) : prefix_stats := mkPfs q (Z.of_nat (length q)) 0 0 0 0.

(** The state is well formed and holds only prefixes in use. *)
Definition stats_inv (s : stats_state) : Prop := stats_ok s ∧ placed s.

(** A new entry at the head of its chain. *)
Lemma add_pfs_inv s q :
  stats_inv s → q ∈ P →
  let h := hashval q in
  stats_inv (mkStats (<[h := new_pfs q :: chain_at s h]> (buckets s)) (s32 (num_prefixes s + 1))
    (s32 (total_prefix_size s + Z.of_nat (length q)))).
Proof.
  intros [[Hb He Hn Ht] Hp] Hq h. pose proof (hashval_lt q) as Hh.
  pose proof (chain_at_lookup s h Hb Hh) as Hc.
  set (c := new_pfs q :: chain_at s h).
  destruct (entries_insert s h c _ (s32 (num_prefixes s + 1))
    (s32 (total_prefix_size s + Z.of_nat (length q))) Hc) as (l1 & l2 & E & E').
  split; [split|]; cbn [buckets num_prefixes total_prefix_size].
  - by rewrite length_insert.
  - rewrite E'. rewrite E, !Forall_app in He. unfold c. rewrite Forall_app, Forall_app, Forall_cons_iff.
    destruct He as (? & ? & ?). split_and!; try done.
  - rewrite E', Hn, s32_add, E. f_equal. unfold c. rewrite !length_app. cbn [length]. lia.
  - rewrite E', Ht, s32_add, E. f_equal. unfold c. rewrite !sum_len_app.
    change (sum_len (new_pfs q :: chain_at s h)) with (Z.of_nat (length q) + sum_len (chain_at s h)). lia.
  - intros h' c' p Hc' Hin. cbn [buckets] in Hc'. destruct (decide (h' = h)) as [->|E0].
    + rewrite list_lookup_insert_eq in Hc' by (rewrite Hb; done). injection Hc' as <-.
      apply elem_of_cons in Hin as [->|Hin]; [done|]. by eapply Hp.
    + rewrite list_lookup_insert_ne in Hc' by done. by eapply Hp.
Qed.

Lemma find_spec s key n (q := take n key) :
  separate → stats_inv s → prefix_length key = Some n → q ∈ P →
  ∃ s' i x, stats_prefix_find s key true true = (s', Some (hashval q, i)) ∧ stats_inv s' ∧
    list_find (λ p, prefix p = q) (chain_at s' (hashval q)) = Some (i, x) ∧
    x = default (new_pfs q) (lookup_pfs s q) ∧
    ∀ q', q' ≠ q → lookup_pfs s' q' = lookup_pfs s q'.
Proof.
  intros Hsep Hi Hn Hq. pose proof Hi as [[Hb _ _ _] Hp]. pose proof (hashval_lt q) as Hh.
  pose proof (prefix_length_take _ _ Hn) as Hln.
  assert (length q = n) as Hlq by (unfold q; rewrite length_take; lia).
  unfold stats_prefix_find. rewrite Hn. fold q. rewrite chain_pos_find; [|done|].
  2:{ intros p Hin Hpre. destruct (Hp _ _ p (chain_at_lookup s _ Hb Hh) Hin) as [HP Hhp].
      by apply Hsep. }
  fold q. unfold lookup_pfs at 1.
  destruct (list_find _ (chain_at s (hashval q))) as [[i x]|] eqn:Ef; cbn [fmap option_fmap option_map fst snd negb].
  - exists s, i, x. split_and!; done.
  - rewrite <- Hlq. eexists _, O, (new_pfs q). split; [reflexivity|].
    split; [by apply add_pfs_inv|]. rewrite chain_insert by done. rewrite decide_True by done.
    cbn [list_find]. split; [by rewrite decide_True|]. split; [done|]. intros q' Hne.
    unfold lookup_pfs. rewrite chain_insert by done. case_decide as E; [|done].
    cbn [list_find]. rewrite decide_False by (simpl; congruence). rewrite E.
    by destruct (list_find (λ p, prefix p = q') (chain_at s (hashval q))) as [[]|].
Qed.

(** Updates of an entry leave its key and length alone. *)
Record counting (f : prefix_stats → prefix_stats) : Prop := {
  co_prefix : ∀ p, prefix (f p) = prefix p;
  co_len : ∀ p, prefix_len (f p) = prefix_len p;
  co_ok : ∀ p, entry_ok p → entry_ok (f p)
}.

Lemma count_get_ok hit : counting (count_get hit).
Proof. split; try done. intros p []. split; try done; simpl; [apply u64_range|]. destruct hit; [apply u64_range|done]. Qed.
Lemma count_set_ok : counting count_set.
Proof. split; try done. intros p []. split; try done. apply u64_range. Qed.
Lemma count_delete_ok : counting count_delete.
Proof. split; try done. intros p []. split; try done. apply u64_range. Qed.

Lemma alter_insert_bucket (bs : list (list prefix_stats)) f i h c :
  bs !! h = Some c → alter (alter f i) h bs = <[h := alter f i c]> bs.
Proof.
  revert h. induction bs as [|b bs IH]; intros [|h] Hc; simplify_eq/=; try done. f_equal. by apply IH.
Qed.

Lemma alter_entry f i (c : list prefix_stats) x : c !! i = Some x → alter f i c = take i c ++ f x :: drop (S i) c.
Proof.
  revert i. induction c as [|p c IH]; intros [|i] H; simplify_eq/=; [done|]. f_equal. by apply IH.
Qed.

Lemma update_spec f s q i x :
  counting f → stats_inv s → list_find (λ p, prefix p = q) (chain_at s (hashval q)) = Some (i, x) →
  let s' := update_pfs f (s, Some (hashval q, i)) in
  stats_inv s' ∧ ∀ q', lookup_pfs s' q' = if decide (q' = q) then Some (f x) else lookup_pfs s q'.
Proof.
  intros [Hf Hl Hok] [[Hb He Hn Ht] Hp] Hx s'. pose proof (hashval_lt q) as Hh.
  set (h := hashval q) in *. pose proof (chain_at_lookup s h Hb Hh) as Hc.
  destruct (list_find_Some (λ p, prefix p = q) (chain_at s h) i x) as [[Hix _] _]; [done|].
  assert (s' = mkStats (<[h := alter f i (chain_at s h)]> (buckets s)) (num_prefixes s) (total_prefix_size s)) as ->.
  { unfold s'. cbn [update_pfs]. by rewrite (alter_insert_bucket _ f i h _ Hc). }
  rewrite (alter_entry f i _ x Hix). set (c := take i (chain_at s h) ++ f x :: drop (S i) (chain_at s h)).
  destruct (entries_insert s h c _ (num_prefixes s) (total_prefix_size s) Hc) as (l1 & l2 & E & E').
  pose proof (take_drop_middle (chain_at s h) i x Hix) as Em.
  split; [split; [split|]|]; cbn [buckets num_prefixes total_prefix_size].
  - by rewrite length_insert.
  - rewrite E'. rewrite E, <- Em, !Forall_app, Forall_cons_iff in He. unfold c.
    rewrite !Forall_app, Forall_cons_iff. naive_solver.
  - rewrite E', Hn, E. do 2 f_equal. rewrite !length_app. rewrite <- Em at 1. unfold c. by rewrite !length_app.
  - rewrite E', Ht, E. f_equal. rewrite !sum_len_app. rewrite <- Em at 1. unfold c. rewrite !sum_len_app.
    unfold sum_len. simpl. by rewrite Hl.
  - intros h' c' p Hc' Hin. cbn [buckets] in Hc'. destruct (decide (h' = h)) as [->|E0].
    + rewrite list_lookup_insert_eq in Hc' by (rewrite Hb; done). injection Hc' as <-.
      assert (∃ p', p' ∈ chain_at s h ∧ prefix p = prefix p') as (p' & Hin' & ->); [|by eapply Hp].
      rewrite <- Em. unfold c in Hin. rewrite elem_of_app, elem_of_cons in Hin.
      setoid_rewrite elem_of_app. setoid_rewrite elem_of_cons. destruct Hin as [|[->|]]; [eauto| |eauto].
      exists x. eauto.
    + rewrite list_lookup_insert_ne in Hc' by done. by eapply Hp.
  - intros q'. unfold lookup_pfs. rewrite chain_insert by done. unfold c. rewrite <- (alter_entry f i _ x Hix).
    case_decide as E0; [|by rewrite decide_False by (intros ->; done)]. rewrite E0.
    apply (find_alter f _ q); done.
Qed.

(** ** Histories *)

Inductive stats_op :=
  | RecordGet (key : bytes) (is_hit : bool)
  | RecordSet (key : bytes)
  | RecordDelete (key : bytes)
  | Clear.

Definition run_op (s : stats_state) (o : stats_op) : stats_state :=
  match o with
  | RecordGet key is_hit => stats_prefix_record_get s key is_hit true true
  | RecordSet key => stats_prefix_record_set s key true true
  | RecordDelete key => stats_prefix_record_delete s key true true
  | Clear => stats_prefix_clear
  end.

Definition key_prefix (key : bytes) : option bytes := (λ n, take n key) <$> prefix_length key.

(** What a record should do: count under the prefix of the key. *)
Definition count (m : gmap bytes prefix_stats) (key : bytes) (f : prefix_stats → prefix_stats)
  : gmap bytes prefix_stats :=
  match key_prefix key with
  | None => m
  | Some q => <[q := f (default (new_pfs q) (m !! q))]> m
  end.

Definition spec_op (m : gmap bytes prefix_stats) (o : stats_op) : gmap bytes prefix_stats :=
  match o with
  | RecordGet key is_hit => count m key (count_get is_hit)
  | RecordSet key => count m key count_set
  | RecordDelete key => count m key count_delete
  | Clear => ∅
  end.

Definition key_in (key : bytes) : Prop := ∀ q, key_prefix key = Some q → q ∈ P.
Definition in_use_op (o : stats_op) : Prop :=
  match o with RecordGet key _ | RecordSet key | RecordDelete key => key_in key | Clear => True end.

Definition counts (s : stats_state) (m : gmap bytes prefix_stats) : Prop :=
  stats_inv s ∧ ∀ q, lookup_pfs s q = m !! q.

Lemma record_counts s m key f :
  separate → counting f → key_in key → counts s m →
  counts (update_pfs f (stats_prefix_find s key true true)) (count m key f).
Proof.
  intros Hsep Hf Hk [Hi Hm]. unfold count, key_in, key_prefix in *.
  destruct (prefix_length key) as [n|] eqn:En; cbn [fmap option_fmap option_map] in *.
  2:{ unfold stats_prefix_find. rewrite En. done. }
  destruct (find_spec s key n Hsep Hi En (Hk _ eq_refl)) as (s' & i & x & -> & Hi' & Hx & -> & Ho).
  destruct (update_spec f s' _ i _ Hf Hi' Hx) as [Hu Hl]. split; [done|]. intros q. rewrite Hl.
  rewrite Hm in Hl. case_decide as E; [subst q|rewrite Ho, lookup_insert_ne by done; apply Hm].
  by rewrite lookup_insert_eq, Hm.
Qed.

Lemma clear_counts : counts stats_prefix_clear ∅.
Proof.
  assert (entries stats_prefix_clear = []) as Hc by (vm_compute; reflexivity).
  split; [split; [split|]|].
  - apply length_replicate.
  - by rewrite Hc.
  - by rewrite Hc.
  - by rewrite Hc.
  - intros h c p Hc' Hin. apply lookup_replicate in Hc' as [-> _]. by apply elem_of_nil in Hin.
  - intros q. unfold lookup_pfs, chain_at. rewrite lookup_empty.
    pose proof (hashval_lt q). unfold stats_prefix_clear, buckets. by rewrite lookup_replicate_2.
Qed.

(** After any sequence of records, the counters of every prefix are those of a
    map that counts under the prefix of each key, provided that no prefix properly
    extends another one of the same bucket; the number of prefixes and their total
    length, on which the size of the dump depends, are kept up to date. *)
Theorem stats_history ops :
  separate → Forall in_use_op ops →
  let s := foldl run_op stats_prefix_clear ops in
  stats_ok s ∧ ∀ q, lookup_pfs s q = foldl spec_op ∅ ops !! q.
Proof.
  intros Hsep Ho s. enough (counts s (foldl spec_op ∅ ops)) as [[? _] ?] by done.
  unfold s. generalize clear_counts. generalize stats_prefix_clear, (∅ : gmap bytes prefix_stats).
  induction Ho as [|o ops Ho _ IH]; intros s0 m0 H0; [done|]. cbn [foldl]. apply IH.
  destruct o; simpl in *; [by apply record_counts; [|apply count_get_ok|..]
    |by apply record_counts; [|apply count_set_ok|..]
    |by apply record_counts; [|apply count_delete_ok|..]|apply clear_counts].
Qed.

End Stats.

(** With a hash that puts everything into one bucket, the statistics of [ab] are
    counted under [abc], recorded first. *)
Lemma stats_prefix_confused :
  let hash _ := 0 in
  let s := foldl (run_op hash 58) stats_prefix_clear
             [RecordSet (chars "abc:1"); RecordSet (chars "ab:1")] in
  (λ p, (prefix p, num_sets p)) <$> entries s = [(chars "abc", 2)].
Proof. vm_compute. reflexivity. Qed.

Definition demo_ops : list stats_op := [RecordSet (chars "ab:1"); RecordGet (chars "cd:1") true].

Lemma stats_history_witness :
  let s := foldl (run_op (λ _, 0) 58) stats_prefix_clear demo_ops in
  stats_ok s ∧ lookup_pfs (λ _, 0) s (chars "cd") = Some (mkPfs (chars "cd") 2 1 0 0 1).
Proof.
  destruct (stats_history (λ _, 0) 58 [chars "ab"; chars "cd"] demo_ops) as [H1 H2].
  - intros p q Hp Hq _ Hpre. assert (p = chars "ab" ∨ p = chars "cd") as [->| ->] by set_solver;
      assert (q = chars "ab" ∨ q = chars "cd") as [->| ->] by set_solver; try reflexivity;
      exfalso; destruct Hpre as [k Hk]; vm_compute in Hk; discriminate Hk.
  - apply Forall_cons_2; [|apply Forall_cons_2; [|apply Forall_nil_2]];
      intros q Hq; vm_compute in Hq; injection Hq as <-; vm_compute; [left|right; left].
  - split; [exact H1|]. rewrite H2. vm_compute. reflexivity.
Defined.

Definition demo_stats : stats_state := mkStats (<[7%nat := [mkPfs (chars "ab") 2 1 0 0 1]]> (replicate 256 [])) 1 2.

Lemma stats_dump_fits_witness :
  ∃ buf' n, stats_prefix_dump demo_stats (Some (replicate 164 7)) = Some (Some (buf', Z.of_nat n)) ∧
    take (S n) buf' = lines (entries demo_stats) ++ END ++ [0].
Proof.
  destruct (stats_dump_fits demo_stats (replicate 164 7)) as (buf' & n & H1 & _ & H2 & _).
  - split; try (vm_compute; reflexivity). vm_compute. repeat constructor; discriminate.
  - vm_compute. reflexivity.
  - vm_compute. reflexivity.
  - vm_compute. reflexivity.
  - exists buf', n. auto.
Defined.
