(* ===== verification/KvsTiny.v ===== *)
(** The key-value store with 8-byte values: [src/kvs_radix_tree_tiny.cc].

    The value is kept in the value pointer of the key's node: no buffer is
    allocated.  A word that is not a valid global pointer therefore means that the
    key has no value. *)

From S2P Require Import Prelude TagPtr Fam RadixTree RadixInv RadixSpec RadixPut RadixOps RadixScan Util KvsRadixTree.

Definition kMaxValLen : Z := 8.

(** [CHAR2UINT64(val)] of the memory at [val], on a little-endian machine: eight
    bytes, whatever the length the caller gives. *)
Definition CHAR2UINT64 (val : bytes) : Z := of_le (take 8 val).

(** The bytes that a store to [CHAR2UINT64(val)] leaves there. *)
Fixpoint to_le (n : nat) (x : Z) : bytes :=
  match n with O => [] | S n' => x mod 256 :: to_le n' (x / 256) end.

Definition word_bytes (x : Z) : bytes := to_le 8 x.

Section KVSRadixTreeTiny.
Context {N : Nvmm}.
Context (fuel : nat).

Definition Put (root : Gptr) (key val : bytes) (val_len : Z) : prog Z :=
  if too_long key then Ret (-1) else
  if kMaxValLen <? val_len then Ret (-1) else
  put fuel root key (CHAR2UINT64 val) UPDATE;;
  Ret 0.

Definition Get (root : Gptr) (key : bytes) (val_len : Z) : prog fetched :=
  if too_long key then Ret (mkFetched (-1) val_len None) else
  val_ptr ← get root key;
  let val := Some (word_bytes (gptr_nomark val_ptr)) in
  if negb (IsValid val_ptr) then Ret (mkFetched (-2) kMaxValLen val)
  else Ret (mkFetched 0 kMaxValLen val).

Definition Del (root : Gptr) (key : bytes) : prog Z :=
  if too_long key then Ret (-1) else
  val_ptr ← destroy fuel root key;
  if negb (IsValid val_ptr) then Ret (-2) else Ret 0.

Definition Scan (nfuel : nat) (root : Gptr) (iters_ : list Iter) (fresh : Iter) (handle : Z)
    (key_len val_len : Z) (bk : bytes) (binc : bool) (ek : bytes) (einc : bool)
    : prog (scanned * list Iter) :=
  let fail ret := Ret (mkScanned (mkFetched ret val_len None) None handle, iters_) in
  if too_long bk || too_long ek then fail (-1) else
  if Z.of_nat kMaxKeyLen <? key_len then fail (-1) else
  if kMaxValLen <? val_len then fail (-1) else
  '(r, iter) ← scan nfuel root fresh bk binc ek einc;
  match r with
  | None => fail (-2)
  | Some (key, val_gptr) =>
      let iters_ := iters_ ++ [iter] in
      Ret (mkScanned (mkFetched 0 kMaxValLen (Some (word_bytes (gptr_nomark val_gptr)))) (Some key)
             (Z.of_nat (length iters_) - 1), iters_)
  end.

Definition GetNext (nfuel : nat) (iters_ : list Iter) (iter_handle : Z) (key_len val_len : Z)
    : prog (scanned * list Iter) :=
  let fail ret := Ret (mkScanned (mkFetched ret val_len None) None iter_handle, iters_) in
  if Z.of_nat kMaxKeyLen <? key_len then fail (-1) else
  if kMaxValLen <? val_len then fail (-1) else
  if (iter_handle <? 0) || (Z.of_nat (length iters_) <=? iter_handle) then fail (-1) else
  match iters_ !! Z.to_nat iter_handle with
  | None => fail (-1)
  | Some iter =>
      '(r, iter) ← get_next nfuel iter;
      let iters_ := <[Z.to_nat iter_handle := iter]> iters_ in
      match r with
      | None => Ret (mkScanned (mkFetched (-2) val_len None) None iter_handle, iters_)
      | Some (key, val_gptr) =>
          Ret (mkScanned (mkFetched 0 kMaxValLen (Some (word_bytes (gptr_nomark val_gptr))))
                 (Some key) iter_handle, iters_)
      end
  end.

(** ** For consistent DRAM caching *)

Definition PutC (root : Gptr) (key val : bytes) (val_len : Z) (key_ptr : Gptr) (val_ptr : TagGptr)
    : prog pointers :=
  if too_long key then Ret (mkPointers (-1) key_ptr val_ptr) else
  if kMaxValLen <? val_len then Ret (mkPointers (-1) key_ptr val_ptr) else
  kv ← putC fuel root key (CHAR2UINT64 val);
  Ret (mkPointers 0 (RadixTree.key_ptr kv) (RadixTree.val_ptr kv)).

Definition PutC_ptr (key_ptr : Gptr) (val_ptr : TagGptr) (val : bytes) (val_len : Z) : prog pointers :=
  if kMaxValLen <? val_len then Ret (mkPointers (-1) key_ptr val_ptr) else
  '(new, old) ← putC_ptr fuel key_ptr (CHAR2UINT64 val);
  Ret (mkPointers 0 key_ptr new).

Definition GetC (past : Z) (root : Gptr) (key : bytes) (val_len : Z)
    (key_ptr : Gptr) (val_ptr : TagGptr) : prog (fetched * Gptr * TagGptr) :=
  if too_long key then Ret (mkFetched (-1) val_len None, key_ptr, val_ptr) else
  '(kp, vp) ← getC past root key;
  if negb (ptr_IsValid kp) then Ret (mkFetched 0 val_len None, kp, vp)
  else if IsValid vp then
    Ret (mkFetched 0 kMaxValLen (Some (word_bytes (gptr_nomark vp))), kp, vp)
  else Ret (mkFetched 0 val_len None, kp, vp).

Definition GetC_ptr (key_ptr : Gptr) (val_ptr : TagGptr) (val_len : Z) (get_value : bool)
    : prog (fetched * TagGptr) :=
  cur ← getC_ptr key_ptr;
  if TagGptr_eqb cur val_ptr && negb get_value then Ret (mkFetched 0 val_len None, val_ptr)
  else Ret (mkFetched 0 kMaxValLen (Some (word_bytes (gptr_nomark cur))), cur).

Definition DelC (past : Z) (root : Gptr) (key : bytes) (key_ptr : Gptr) (val_ptr : TagGptr)
    : prog pointers :=
  if too_long key then Ret (mkPointers (-1) key_ptr val_ptr) else
  kv ← destroyC fuel past root key TagGptr_null;
  Ret (mkPointers 0 (RadixTree.key_ptr kv) (RadixTree.val_ptr kv)).

Definition DelC_ptr (key_ptr : Gptr) : prog pointers :=
  '(new, old) ← destroyC_ptr fuel key_ptr;
  Ret (mkPointers 0 key_ptr new).

(** A stub in the source. *)
Definition FindOrCreate (ret_len : Z) : prog fetched := Ret (mkFetched 0 ret_len None).

End KVSRadixTreeTiny.

(** ** The store as a map from keys to words *)

Lemma of_to_le n x : 0 ≤ x < 256 ^ Z.of_nat n → of_le (to_le n x) = x.
Proof.
  revert x. induction n as [|n IH]; intros x Hx; cbn [to_le of_le].
  - simpl in Hx. lia.
  - rewrite Nat2Z.inj_succ, Z.pow_succ_r in Hx by lia. rewrite IH.
    + pose proof (Z.div_mod x 256). lia.
    + split; [apply Z.div_pos; lia|apply Z.div_lt_upper_bound; lia].
Qed.

Lemma to_of_le l : byte_key l → to_le (length l) (of_le l) = l.
Proof.
  induction 1 as [|b l [H1 H2] _ IH]; cbn [length to_le of_le]; [done|]. f_equal.
  - rewrite Z.mul_comm, Z.mod_add, Z.mod_small by lia. done.
  - rewrite Z.mul_comm, Z.div_add, Z.div_small by lia. done.
Qed.

Section TinySpec.
Context {N : Nvmm} {L : NvmmLaws N}.
Implicit Types (w : world) (M : gmap bytes TagGptr) (K : gmap bytes Z) (key val : bytes).

(** The value of a key: the word in its value pointer, if that is a valid pointer. *)
Definition word_of (t : TagGptr) : option Z := if IsValid t then Some (gptr_nomark t) else None.

Definition tiny_inv w (root : Gptr) M K : Prop := rt_inv w root M ∧ ∀ k, K !! k = word_of (ver M k).

(** Storing a word: one that is no valid pointer deletes the key. *)
Definition store K (key : bytes) (x : Z) : gmap bytes Z :=
  if ptr_IsValid x then <[key := x]> K else delete key K.

Lemma store_ver M M' K key x :
  (∀ k, K !! k = word_of (ver M k)) → (∀ k, key ≠ k → ver M' k = ver M k) → gptr_ (ver M' key) = x →
  ∀ k, store K key x !! k = word_of (ver M' k).
Proof.
  intros HK Ho Hx k. unfold store. destruct (decide (key = k)) as [<-|Hne].
  - unfold word_of, IsValid, gptr_nomark. rewrite Hx.
    destruct (ptr_IsValid x); [apply lookup_insert_eq|apply lookup_delete_eq].
  - rewrite Ho, <- HK by done. destruct (ptr_IsValid x); [by apply lookup_insert_ne|by apply lookup_delete_ne].
Qed.

Lemma tiny_put w w' root M K key x :
  tiny_inv w root M K → put_done w w' root M key x → ∃ M', tiny_inv w' root M' (store K key x) ∧
    ver M' key = put_result M key x.
Proof.
  intros [_ HK] (M' & HP & [HI _ _]). exists M'.
  assert (ver M' key = put_result M key x) as Hv by (unfold ver; by rewrite (Put_spec_same _ _ _ _ HP)).
  split; [split; [done|]|done]. apply (store_ver M); [done| |].
  - intros k Hne. by apply (Put_spec_other _ _ _ _ _ HP).
  - rewrite Hv. unfold put_result. by destruct (M !! key).
Qed.

Lemma tiny_del w w' root M K key :
  tiny_inv w root M K → rt_post w w' root (Del_spec M key) → tiny_inv w' root (Del_spec M key) (delete key K).
Proof.
  intros [_ HK] [HI _ _]. split; [done|].
  assert (delete key K = store K key 0) as -> by (unfold store; by rewrite null_invalid).
  apply (store_ver M); [done|..].
  - intros k Hne. unfold ver, Del_spec. destruct (M !! key); [by rewrite lookup_insert_ne|done].
  - unfold ver, Del_spec. destruct (M !! key) eqn:E; [by rewrite lookup_insert_eq|by rewrite E].
Qed.

Section Operations.
Context (fuel : nat) (w : world) (root : Gptr) (M : gmap bytes TagGptr) (K : gmap bytes Z).
Context (HK : tiny_inv w root M K).
Context (key : bytes) (Hk : key_ok key = true) (Hb : byte_key key).
Context (Hf : (S (length key) < fuel)%nat).

Lemma tiny_room : room (¬ heap_gives 2 (hs w)) 2 w.
Proof. apply room_or. Qed.

(** The plain operations implement a map from keys to 64-bit words.  [Put] stores
    the eight bytes at [val]; [Get] returns them, and -2 for a key without value;
    [Del] says whether there was one.  A word that is no valid global pointer cannot
    be stored: [Put] then deletes the key. *)
Theorem tiny_refines val val_len out_len :
  val_len ≤ kMaxValLen →
  ((∃ w' M', run (Put fuel root key val val_len) w = Done 0 w' ∧
      tiny_inv w' root M' (store K key (CHAR2UINT64 val))) ∨
   run (Put fuel root key val val_len) w = Aborted ∧ ¬ heap_gives 2 (hs w)) ∧
  (run (Get root key out_len) w = Done (match K !! key with
     | Some x => mkFetched 0 8 (Some (word_bytes x))
     | None => mkFetched (-2) 8 (Some (word_bytes (gptr_nomark (ver M key))))
     end) w) ∧
  (∃ w', run (Del fuel root key) w = Done (match K !! key with Some _ => 0 | None => -2 end) w' ∧
     tiny_inv w' root (Del_spec M key) (delete key K)).
Proof using L HK Hk Hb Hf.
  intros Hvl. split; [|split].
  - apply Z.ltb_ge in Hvl.
    assert (wp (¬ heap_gives 2 (hs w)) (Put fuel root key val val_len) w (λ r w', r = 0 ∧
      ∃ M', tiny_inv w' root M' (store K key (CHAR2UINT64 val)))) as Hw.
    { unfold Put. rewrite key_not_long, Hvl by done. wp_step.
      eapply wp_mono; [eapply (put_wp _ 0); [apply HK|done..|apply tiny_room]|].
      intros r w' [[_ HP] _]. wp_step. split; [done|].
      destruct (tiny_put w w' root M K key (CHAR2UINT64 val) HK HP) as (M' & HI & _). eauto. }
    apply wp_done in Hw as [(r & w' & Hr & -> & M' & HI)|[Hr Hn]]; [left|by right]. eauto.
  - destruct (wp_total _ _ _ (get_wp False w root M key (proj1 HK) Hk Hb)) as (r & w' & Hr & -> & ->).
    unfold Get. rewrite key_not_long by done. rewrite run_bind, Hr.
    rewrite (proj2 HK key). unfold word_of. by destruct (IsValid (ver M key)).
  - apply wp_first. unfold Del. rewrite key_not_long by done. wp_step.
    eapply wp_mono; [eapply destroy_wp; [apply HK|done..|lia]|]. intros r w' (-> & HP & _).
    rewrite (proj2 HK key). unfold word_of. destruct (IsValid (ver M key)); cbn [negb]; wp_step; split; try done; by apply (tiny_del w).
Qed.

Lemma tiny_PutC_wp val val_len kp vp :
  val_len ≤ kMaxValLen →
  wp (¬ heap_gives 2 (hs w)) (PutC fuel root key val val_len kp vp) w (λ r w',
    ∃ q' M', r = mkPointers 0 q' (ver M' key) ∧ key_node (mem w') root key q' ∧
      tiny_inv w' root M' (store K key (CHAR2UINT64 val))).
Proof using L HK Hk Hb Hf.
  intros Hvl%Z.ltb_ge. unfold PutC. rewrite key_not_long, Hvl by done. wp_step.
  eapply wp_mono; [eapply (putC_wp _ 0); [apply HK|done..|apply tiny_room]|].
  intros r w' [(Hn & Hvp & _ & HP) _]. wp_step.
  destruct (tiny_put w w' root M K key _ HK HP) as (M' & HI & Hver). rewrite Hvp, <- Hver. eauto 6.
Qed.

Lemma tiny_DelC_wp past kp vp :
  is_byte past →
  wp False (DelC fuel past root key kp vp) w (λ r w', ∃ q',
    r = mkPointers 0 q' (ver (Del_spec M key) key) ∧ tiny_inv w' root (Del_spec M key) (delete key K)).
Proof using L HK Hk Hb Hf.
  intros Hpast. unfold DelC. rewrite key_not_long by done. wp_step.
  eapply wp_mono; [eapply destroyC_wp; [apply HK|done..|lia]|]. intros r w' ([_ Hvals] & HP & _). wp_step.
  exists (RadixTree.key_ptr r). split; [|by apply (tiny_del w)]. f_equal.
  rewrite ver_del. by destruct (M !! key); destruct Hvals.
Qed.

(** Updates through the key's node. *)
Lemma tiny_by_node val val_len q vp :
  val_len ≤ kMaxValLen → key_node (mem w) root key q →
  (∃ w' M', run (PutC_ptr fuel q vp val val_len) w = Done (mkPointers 0 q (ver M' key)) w' ∧
     tiny_inv w' root M' (store K key (CHAR2UINT64 val))) ∧
  (∃ w', run (DelC_ptr fuel q) w = Done (mkPointers 0 q (ver (Del_spec M key) key)) w' ∧
     tiny_inv w' root (Del_spec M key) (delete key K)).
Proof using L HK Hf.
  intros Hvl%Z.ltb_ge Hq.
  destruct (key_node_value _ _ _ _ _ (inv_repr _ _ _ (proj1 HK)) Hq) as (n & _ & _ & _ & Hv). split.
  - destruct (wp_total _ _ _ (putC_ptr_wp False fuel w root M key q (CHAR2UINT64 val) (proj1 HK) Hq ltac:(lia)))
      as (r & w' & Hr & -> & _ & HP).
    destruct (tiny_put w w' root M K key _ HK HP) as (M' & HI & Hver). exists w', M'. split; [|done].
    unfold PutC_ptr. rewrite Hvl, run_bind, Hr. cbn. by rewrite Hver.
  - destruct (wp_total _ _ _ (putC_ptr_wp False fuel w root M key q 0 (proj1 HK) Hq ltac:(lia)))
      as (r & w' & Hr & -> & HP & _).
    unfold put_result in HP. rewrite Hv, <- (Del_spec_found _ _ _ Hv) in HP.
    exists w'. split; [|by apply (tiny_del w)].
    unfold DelC_ptr. change (destroyC_ptr fuel q) with (putC_ptr fuel q 0). rewrite run_bind, Hr.
    cbn. rewrite ver_del. unfold put_result. by rewrite Hv.
Qed.

Lemma tiny_gets val_len kp vp q past get_value :
  is_byte past → key_node (mem w) root key q →
  (∃ q', run (GetC past root key val_len kp vp) w =
     Done (match K !! key with
           | Some x => mkFetched 0 8 (Some (word_bytes x))
           | None => mkFetched 0 val_len None
           end, q', ver M key) w) ∧
  run (GetC_ptr q vp val_len get_value) w =
    Done (if TagGptr_eqb (ver M key) vp && negb get_value then (mkFetched 0 val_len None, vp)
          else (mkFetched 0 8 (Some (word_bytes (gptr_nomark (ver M key)))), ver M key)) w.
Proof using L HK Hk Hb.
  intros Hpast Hq.
  destruct (key_node_value _ _ _ _ _ (inv_repr _ _ _ (proj1 HK)) Hq) as (n & _ & _ & _ & Hv). split.
  - destruct (getC_run past w root M key (proj1 HK) Hk Hb Hpast) as (q' & Hr & Hkp). exists q'.
    unfold GetC. rewrite key_not_long, run_bind, Hr by done. cbn [fst snd].
    rewrite (proj2 HK key). unfold word_of. unfold key_ptr_ok in Hkp. rewrite Hv in Hkp.
    destruct (ptr_IsValid q') eqn:Ev; cbn [negb]; [by destruct (IsValid (ver M key))|].
    erewrite key_node_valid in Ev; [done|apply HK|done].
  - unfold GetC_ptr. rewrite run_bind, (getC_ptr_run w root M key q (proj1 HK) Hq).
    by destruct (TagGptr_eqb (ver M key) vp && negb get_value).
Qed.

(** The caching variants do on the word what they do on the key: they return the
    key's node and the value pointer that is now in it, a [Get] by node with the
    current pointer skips the copy, and any other [Get] copies the word. *)
Theorem tiny_cached_refines val val_len kp vp q past get_value :
  val_len ≤ kMaxValLen → is_byte past → key_node (mem w) root key q →
  ((∃ q' w' M', run (PutC fuel root key val val_len kp vp) w =
       Done (mkPointers 0 q' (ver M' key)) w' ∧ key_node (mem w') root key q' ∧
       tiny_inv w' root M' (store K key (CHAR2UINT64 val))) ∨
   run (PutC fuel root key val val_len kp vp) w = Aborted ∧ ¬ heap_gives 2 (hs w)) ∧
  (∃ w' M', run (PutC_ptr fuel q vp val val_len) w = Done (mkPointers 0 q (ver M' key)) w' ∧
     tiny_inv w' root M' (store K key (CHAR2UINT64 val))) ∧
  (∃ q', run (GetC past root key val_len kp vp) w =
     Done (match K !! key with
           | Some x => mkFetched 0 8 (Some (word_bytes x))
           | None => mkFetched 0 val_len None
           end, q', ver M key) w) ∧
  run (GetC_ptr q vp val_len get_value) w =
    Done (if TagGptr_eqb (ver M key) vp && negb get_value then (mkFetched 0 val_len None, vp)
          else (mkFetched 0 8 (Some (word_bytes (gptr_nomark (ver M key)))), ver M key)) w ∧
  (∃ w' q', run (DelC fuel past root key kp vp) w =
     Done (mkPointers 0 q' (ver (Del_spec M key) key)) w' ∧
     tiny_inv w' root (Del_spec M key) (delete key K)) ∧
  (∃ w', run (DelC_ptr fuel q) w = Done (mkPointers 0 q (ver (Del_spec M key) key)) w' ∧
     tiny_inv w' root (Del_spec M key) (delete key K)).
Proof using L HK Hk Hb Hf.
  intros Hvl Hpast Hq. destruct (tiny_by_node val val_len q vp Hvl Hq) as [Hp Hd].
  destruct (tiny_gets val_len kp vp q past get_value Hpast Hq) as [Hg Hg'].
  split_and!; [|done..| |done].
  - destruct (wp_done _ _ _ _ (tiny_PutC_wp val val_len kp vp Hvl))
      as [(r & w' & Hr & q' & M' & -> & Hn & HI)|[Hr Hn]]; [left; eauto 8|by right].
  - destruct (wp_total _ _ _ (tiny_DelC_wp past kp vp Hpast)) as (r & w' & Hr & q' & -> & HI). eauto.
Qed.

End Operations.

(** The next key of a scan and its word. *)
Definition next_word w (root : Gptr) M K (it : Iter) c (r : scanned) (it' : Iter) : Prop :=
  ∃ k x, s_key r = Some k ∧ K !! k = Some x ∧ lex_le c k ∧
    (∀ k' x', K !! k' = Some x' → lex_le c k' → lex_le k k') ∧
    (in_end it k ∨ overshoot it k) ∧
    s_fetched r = mkFetched 0 8 (Some (word_bytes x)) ∧
    same_range it it' ∧ iter_at w root M it' (cursor k 1).

Definition no_word_left K (it : Iter) c : Prop := ∀ k x, K !! k = Some x → lex_le c k → ¬ in_end it k.

Lemma word_valid_key w root M K k x :
  tiny_inv w root M K → K !! k = Some x → ∃ t, valid_key M k t ∧ gptr_nomark t = x.
Proof.
  intros [_ HK] Hx. rewrite HK in Hx. unfold word_of in Hx. destruct (IsValid (ver M k)) eqn:Ev; [|done].
  injection Hx as <-. unfold ver in *. destruct (M !! k) as [t|] eqn:E; cbn [default from_option id] in *.
  - exists t. split; [|done]. split; [done|exact Ev].
  - unfold IsValid in Ev. simpl in Ev. by rewrite null_invalid in Ev.
Qed.

Lemma scan_post_word w root M K it c k t it' handle :
  tiny_inv w root M K → scan_post w root M it c (Some (k, t), it') →
  next_word w root M K it c (mkScanned (mkFetched 0 8 (Some (word_bytes (gptr_nomark t)))) (Some k) handle) it'.
Proof.
  intros HK ((Ht & Hv) & Hc & Hmin & Hin & Hsame & Hat). exists k, (gptr_nomark t). split_and!; try done.
  - rewrite (proj2 HK k). unfold word_of, ver. rewrite Ht. cbn [default from_option id]. by rewrite Hv.
  - intros k' x' Hx' Hc'. destruct (word_valid_key w root M K k' x' HK Hx') as (t' & Ht' & _). by eapply Hmin.
Qed.

Lemma none_left_word w root M K it c :
  tiny_inv w root M K → none_left M it c → no_word_left K it c.
Proof.
  intros HK Hn k x Hx Hc. destruct (word_valid_key w root M K k x HK Hx) as (t & Ht & _). by eapply Hn.
Qed.

Lemma tiny_GetNext nfuel w root M K iters_ handle key_len val_len it c :
  tiny_inv w root M K → scan_fuel M nfuel → key_len ≤ Z.of_nat kMaxKeyLen → val_len ≤ kMaxValLen →
  iters_ !! handle = Some it → end_ok it → iter_at w root M it c →
  ∃ r, run (GetNext nfuel iters_ (Z.of_nat handle) key_len val_len) w = Done r w ∧
    (r.1 = mkScanned (mkFetched (-2) val_len None) None (Z.of_nat handle) ∧ no_word_left K it c ∨
     ∃ it', next_word w root M K it c r.1 it').
Proof.
  intros HK Hf Hkl%Z.ltb_ge Hvl%Z.ltb_ge Hit Hok Hat. apply lookup_lt_Some in Hit as Hlt.
  destruct (wp_total _ _ _ (get_next_wp w root M (inv_repr _ _ _ (proj1 HK)) False nfuel it c Hok Hf Hat))
    as ([o it'] & w' & Hr & -> & Hp).
  unfold GetNext. rewrite Hkl, Hvl, (proj2 (Z.ltb_ge (Z.of_nat handle) 0)) by lia.
  rewrite (proj2 (Z.leb_gt (Z.of_nat (length iters_)) _)) by lia.
  cbn [orb]. rewrite Nat2Z.id, Hit, run_bind, Hr.
  destruct o as [[k t]|]; eexists; (split; [done|]).
  - right. exists it'. by apply scan_post_word.
  - left. split; [done|]. by eapply none_left_word.
Qed.

(** [Scan] and [GetNext] of the tiny store return the next key of the range with
    its word, in order. *)
Theorem tiny_scan_refines nfuel w root M K iters_ fresh handle key_len val_len bk binc ek einc :
  let it := scan_iter fresh bk binc ek einc in
  let c := scan_begin bk binc ek einc it in
  tiny_inv w root M K → key_ok bk = true → key_ok ek = true → byte_key bk → end_ok it →
  scan_fuel M nfuel → key_len ≤ Z.of_nat kMaxKeyLen → val_len ≤ kMaxValLen →
  ∃ r, run (Scan nfuel root iters_ fresh handle key_len val_len bk binc ek einc) w = Done r w ∧
    (r = (mkScanned (mkFetched (-2) val_len None) None handle, iters_) ∧ no_word_left K it c ∨
     ∃ it', next_word w root M K it c r.1 it' ∧
       ∃ r', run (GetNext nfuel r.2 (s_iter r.1) key_len val_len) w = Done r' w ∧
         let c' := cursor (default [] (s_key r.1)) 1 in
         (r'.1 = mkScanned (mkFetched (-2) val_len None) None (s_iter r.1) ∧ no_word_left K it' c' ∨
          ∃ it'', next_word w root M K it' c' r'.1 it'')).
Proof.
  intros it c HK Hbk Hek Hb Hok Hf Hkl Hvl.
  destruct (wp_total _ _ _ (scan_wp w root M (inv_repr _ _ _ (proj1 HK)) False nfuel fresh bk binc ek einc
    (inv_live _ _ _ (proj1 HK)) Hf Hbk Hek Hb Hok)) as ([o it'] & w' & Hr & -> & Hp).
  unfold Scan. rewrite !key_not_long, (proj2 (Z.ltb_ge (Z.of_nat kMaxKeyLen) _) Hkl),
    (proj2 (Z.ltb_ge kMaxValLen _) Hvl) by done.
  cbn [orb]. rewrite run_bind, Hr. destruct o as [[k t]|]; eexists; (split; [done|]).
  - right. exists it'. cbn [fst snd s_iter s_key]. split; [by apply scan_post_word|].
    destruct Hp as (_ & _ & _ & _ & Hsame & Hat). cbn [snd] in *.
    assert (Z.of_nat (length (iters_ ++ [it'])) - 1 = Z.of_nat (length iters_)) as ->.
    { rewrite length_app. simpl. lia. }
    apply (tiny_GetNext nfuel w root M); try done.
    + by rewrite lookup_app_r, Nat.sub_diag by lia.
    + by eapply end_ok_range.
  - left. split; [done|]. by eapply none_left_word.
Qed.

End TinySpec.

(** ** Witnesses on the reference heap *)

Definition word : bytes := word_bytes 4096.

Lemma new_tiny : tiny_inv new_world 16 {[ [] := TagGptr_null ]} ∅.
Proof.
  split; [apply new_world_inv|]. intros k. rewrite lookup_empty. unfold word_of, ver.
  destruct ({[ [] := TagGptr_null ]} !! k) eqn:E; [|done]. by apply lookup_singleton_Some in E as [_ <-].
Qed.

Lemma leaf_tiny : tiny_inv leaf_world 16 leaf_map {[ key_a := 4096 ]}.
Proof.
  split; [apply leaf_world_inv|]. intros k. unfold word_of, ver, leaf_map.
  destruct (decide (k = key_a)) as [->|Hne]; [by rewrite lookup_singleton_eq|].
  rewrite lookup_singleton_ne by done. rewrite lookup_insert_ne by done.
  destruct ({[ [] := TagGptr_null ]} !! k) eqn:E; [|done]. by apply lookup_singleton_Some in E as [_ <-].
Qed.

Lemma tiny_refines_witness :
  run (Get 16 key_a 8) leaf_world = Done (mkFetched 0 8 (Some word)) leaf_world.
Proof.
  destruct (tiny_refines 200 leaf_world 16 leaf_map {[ key_a := 4096 ]} leaf_tiny key_a
    eq_refl ltac:(by_decide) ltac:(simpl; lia) word 8 8 ltac:(done)) as (_ & H & _). exact H.
Defined.

Lemma tiny_cached_refines_witness :
  run (GetC_ptr 2240 (TagGptr_make 4096 0) 8 false) leaf_world =
    Done (mkFetched 0 8 None, TagGptr_make 4096 0) leaf_world ∧
  run (GetC_ptr 2240 TagGptr_null 8 false) leaf_world =
    Done (mkFetched 0 8 (Some word), TagGptr_make 4096 0) leaf_world.
Proof.
  assert (∀ vp, run (GetC_ptr 2240 vp 8 false) leaf_world =
    Done (if TagGptr_eqb (ver leaf_map key_a) vp && negb false then (mkFetched 0 8 None, vp)
          else (mkFetched 0 8 (Some (word_bytes (gptr_nomark (ver leaf_map key_a)))), ver leaf_map key_a))
      leaf_world) as H.
  { intros vp. destruct (tiny_cached_refines 200 leaf_world 16 leaf_map {[ key_a := 4096 ]} leaf_tiny key_a
      eq_refl ltac:(by_decide) ltac:(simpl; lia) word 8 0 vp 2240 0 false ltac:(done) ltac:(by_decide)
      (proj2 leaf_world_ok)) as (_ & _ & _ & Hg & _). exact Hg. }
  split; rewrite H; reflexivity.
Defined.

Lemma tiny_scan_refines_witness : ∃ r,
  let it := scan_iter (fresh_iter false) [65] true [98] true in
  run (Scan (round * S (size leaf_map)) 16 [] (fresh_iter false) 7 10 8 [65] true [98] true) leaf_world =
    Done r leaf_world ∧
  (r = (mkScanned (mkFetched (-2) 8 None) None 7, []) ∧ no_word_left {[ key_a := 4096 ]} it [65] ∨
   ∃ it', next_word leaf_world 16 leaf_map {[ key_a := 4096 ]} it [65] r.1 it').
Proof.
  destruct (tiny_scan_refines (round * S (size leaf_map)) leaf_world 16 leaf_map {[ key_a := 4096 ]} []
    (fresh_iter false) 7 10 8 [65] true [98] true leaf_tiny) as (r & Hr & Hp);
    [done|done|by_decide|right; by_decide|apply le_n|by_decide|by_decide|].
  exists r. split; [exact Hr|]. destruct Hp as [H|(it' & H & _)]; [left; exact H|right; exists it'; exact H].
Defined.

(** A word that is no valid pointer, such as 0, is not stored: the key is deleted. *)
Lemma tiny_zero_deletes :
  result_of (run (r ← Put 200 16 key_a (word_bytes 0) 8; f ← Get 16 key_a 8; Ret (r, f_ret f)) leaf_world) =
    Some (0, -2).
Proof. vm_compute. reflexivity. Qed.
