(* ===== verification/Reverse.v ===== *)
(** Split-ordered keys: the bit tricks of [src/split_ordered.cc].

    The list is ordered by the bit-reversed hash.  A bucket's dummy node has the
    reversed bucket number, a regular node the reversed hash with the most
    significant bit set, so that it is odd after reversal. *)

From S2P Require Import Prelude.

Definition MSB : Z := Z.shiftl 1 63.

(** [REVERSE_BYTE(x)] of a byte; the products fit in 64 bits. *)
Definition REVERSE_BYTE (x : Z) : Z :=
  Z.land (Z.shiftr (u64 (Z.lor (Z.land (u64 (x * 2050)) 139536) (Z.land (u64 (x * 32800)) 558144) * 65793)) 16) 255.

(** A byte of the argument, reversed, in its new place. *)
Definition reversed_byte (x from to : Z) : Z :=
  Z.shiftl (REVERSE_BYTE (Z.land (Z.shiftr x from) 255)) to.

Definition REVERSE (x : Z) : Z :=
  Z.lor (reversed_byte x 0 56) (Z.lor (reversed_byte x 8 48) (Z.lor (reversed_byte x 16 40)
  (Z.lor (reversed_byte x 24 32) (Z.lor (reversed_byte x 32 24) (Z.lor (reversed_byte x 40 16)
  (Z.lor (reversed_byte x 48 8) (reversed_byte x 56 0))))))).

Definition so_regularkey (lkey : Z) : Z := REVERSE (Z.lor lkey MSB).
Definition so_dummykey (lkey : Z) : Z := REVERSE lkey.

(** [t |= t >> k] *)
Definition smear (k t : Z) : Z := Z.lor t (Z.shiftr t k).

Definition get_parent (bucket : Z) : Z :=
  let t := smear 32 (smear 16 (smear 8 (smear 4 (smear 2 (smear 1 bucket))))) in
  Z.land bucket (Z.shiftr t 1).

(** ** Reversal of bits *)

Lemma testbit_above x n i : 0 ≤ x < 2 ^ n → 0 ≤ n ≤ i → Z.testbit x i = false.
Proof. intros Hx Hi. rewrite <- (Z.mod_small x (2 ^ n)) by done. apply Z.mod_pow2_bits_high. lia. Qed.

Lemma REVERSE_BYTE_spec y j :
  0 ≤ y < 256 → 0 ≤ j →
  Z.testbit (REVERSE_BYTE y) j = if j <? 8 then Z.testbit y (7 - j) else false.
Proof.
  intros Hy Hj.
  assert (forallb (λ y, forallb (λ j, Bool.eqb (Z.testbit (REVERSE_BYTE (Z.of_nat y)) (Z.of_nat j))
    (Z.testbit (Z.of_nat y) (7 - Z.of_nat j))) (seq 0 8)) (seq 0 256) = true) as H
    by (vm_compute; reflexivity).
  rewrite forallb_forall in H. specialize (H (Z.to_nat y) ltac:(apply in_seq; lia)).
  rewrite forallb_forall in H. destruct (Z.ltb_spec j 8).
  - specialize (H (Z.to_nat j) ltac:(apply in_seq; lia)). apply Bool.eqb_prop in H.
    by rewrite !Z2Nat.id in H by lia.
  - apply (testbit_above _ 8); [|lia]. unfold REVERSE_BYTE. change 255 with (Z.ones 8).
    rewrite Z.land_ones by lia. by apply Z.mod_pos_bound.
Qed.

Lemma reversed_byte_spec x from i :
  0 ≤ from ≤ 56 → 0 ≤ i →
  Z.testbit (reversed_byte x from (56 - from)) i =
    (56 - from <=? i) && (i <? 64 - from) && Z.testbit x (63 - i).
Proof.
  intros Hf Hi. unfold reversed_byte. destruct (Z.leb_spec (56 - from) i) as [Hl|Hl].
  2:{ by rewrite Z.shiftl_spec_low. }
  rewrite Z.shiftl_spec by lia. rewrite REVERSE_BYTE_spec; [|change 255 with (Z.ones 8); rewrite Z.land_ones by lia; by apply Z.mod_pos_bound|lia].
  destruct (Z.ltb_spec (i - (56 - from)) 8), (Z.ltb_spec i (64 - from)); try (exfalso; lia); [|done].
  rewrite Z.land_spec, Z.shiftr_spec by lia. change 255 with (Z.ones 8). rewrite Z.ones_spec_low by lia.
  rewrite andb_true_r. cbn [andb]. f_equal. lia.
Qed.

(** [REVERSE] reverses the 64 bits. *)
Lemma REVERSE_spec x i : 0 ≤ i → Z.testbit (REVERSE x) i = (i <? 64) && Z.testbit x (63 - i).
Proof.
  intros Hi. unfold REVERSE. rewrite !Z.lor_spec.
  change 48 with (56 - 8) at 1. change 40 with (56 - 16) at 1. change 32 with (56 - 24) at 1.
  change (reversed_byte x 32 24) with (reversed_byte x 32 (56 - 32)).
  change (reversed_byte x 40 16) with (reversed_byte x 40 (56 - 40)).
  change (reversed_byte x 48 8) with (reversed_byte x 48 (56 - 48)).
  change (reversed_byte x 56 0) with (reversed_byte x 56 (56 - 56)).
  change (reversed_byte x 0 56) with (reversed_byte x 0 (56 - 0)).
  rewrite !reversed_byte_spec by lia. destruct (Z.testbit x (63 - i)).
  - rewrite !andb_true_r. lia.
  - by rewrite !andb_false_r.
Qed.

Lemma REVERSE_nonneg x : 0 ≤ REVERSE x.
Proof.
  unfold REVERSE. rewrite !Z.lor_nonneg. unfold reversed_byte. rewrite !Z.shiftl_nonneg.
  assert (∀ y, 0 ≤ REVERSE_BYTE y) as H.
  { intros y. unfold REVERSE_BYTE. apply Z.land_nonneg. right. lia. }
  split_and!; apply H.
Qed.

(** [x]'s bits are among [y]'s. *)
Definition subset (x y : Z) : Prop := ∀ i, 0 ≤ i → Z.testbit x i = true → Z.testbit y i = true.

Lemma subset_le x y : 0 ≤ x → 0 ≤ y → subset x y → x ≤ y.
Proof.
  intros Hx Hy Hs. assert (Z.land x y = x) as E.
  { apply Z.bits_inj'. intros i Hi. rewrite Z.land_spec. specialize (Hs i Hi).
    destruct (Z.testbit x i); [by rewrite Hs|done]. }
  pose proof (Z.lor_ldiff_and y x) as Hl.
  assert (Z.land (Z.ldiff y x) (Z.land y x) = 0) as H0.
  { rewrite (Z.land_comm y x), Z.land_assoc, Z.land_ldiff. apply Z.land_0_l. }
  rewrite <- Z.lxor_lor, <- Z.add_nocarry_lxor in Hl by done.
  assert (0 ≤ Z.ldiff y x) by (apply Z.ldiff_nonneg; by left).
  rewrite (Z.land_comm y x), E in Hl. lia.
Qed.

Lemma subset_reverse x y : 0 ≤ x → 0 ≤ y → subset x y → REVERSE x ≤ REVERSE y.
Proof.
  intros Hx Hy Hs. apply subset_le; [apply REVERSE_nonneg..|]. intros i Hi.
  rewrite !REVERSE_spec by done. rewrite !andb_true_iff. intros [H1 H2]. split; [done|].
  apply Hs; [lia|done].
Qed.

(** Different words have different reversals. *)
Lemma REVERSE_inj x y : 0 ≤ x < two64 → 0 ≤ y < two64 → REVERSE x = REVERSE y → x = y.
Proof.
  intros Hx Hy E. apply Z.bits_inj'. intros i Hi. destruct (Z.lt_ge_cases i 64).
  - pose proof (REVERSE_spec x (63 - i) ltac:(lia)) as Ex. pose proof (REVERSE_spec y (63 - i) ltac:(lia)) as Ey.
    rewrite E, Ey in Ex. rewrite (proj2 (Z.ltb_lt (63 - i) 64)) in Ex by lia. cbn [andb] in Ex.
    by replace (63 - (63 - i)) with i in Ex by lia.
  - rewrite !(testbit_above _ 64) by (unfold two64 in *; lia). done.
Qed.

(** ** Regular and dummy keys *)

Lemma MSB_spec i : 0 ≤ i → Z.testbit MSB i = (i =? 63).
Proof.
  intros Hi. unfold MSB. rewrite Z.shiftl_1_l. destruct (Z.eqb_spec i 63) as [->|Hn]; [done|].
  by apply Z.pow2_bits_false.
Qed.

Lemma regular_range lkey : 0 ≤ lkey < 2 ^ 63 → 0 ≤ Z.lor lkey MSB < two64.
Proof.
  intros Hl. assert (0 ≤ Z.lor lkey MSB) by (apply Z.lor_nonneg; split; [lia|done]).
  split; [done|]. destruct (Z.lt_ge_cases (Z.lor lkey MSB) two64) as [|Hge]; [done|].
  assert (Z.lor lkey MSB = lkey + MSB) as E.
  { rewrite <- Z.lxor_lor, <- Z.add_nocarry_lxor; [done|..].
    all: apply Z.bits_inj'; intros i Hi; rewrite Z.land_spec, MSB_spec, Z.bits_0 by done;
      destruct (Z.eqb_spec i 63) as [->|]; [|apply andb_false_r];
      rewrite (testbit_above _ 63) by lia; done. }
  rewrite E in Hge. change MSB with (2 ^ 63) in Hge. unfold two64 in *. lia.
Qed.

(** A regular key is odd, a dummy key even. *)
Lemma regular_odd lkey : Z.testbit (so_regularkey lkey) 0 = true.
Proof.
  unfold so_regularkey. rewrite REVERSE_spec by lia. change (63 - 0) with 63.
  rewrite Z.lor_spec, MSB_spec by lia. by rewrite orb_true_r.
Qed.

Lemma dummy_even b : 0 ≤ b < 2 ^ 63 → Z.testbit (so_dummykey b) 0 = false.
Proof.
  intros Hb. unfold so_dummykey. rewrite REVERSE_spec by lia. change (63 - 0) with 63.
  by rewrite (testbit_above b 63) by lia.
Qed.

Lemma regular_inj l l' : 0 ≤ l < 2 ^ 63 → 0 ≤ l' < 2 ^ 63 → so_regularkey l = so_regularkey l' → l = l'.
Proof.
  intros Hl Hl' E. unfold so_regularkey in E. apply REVERSE_inj in E; [|by apply regular_range..].
  apply Z.bits_inj'. intros i Hi. apply (f_equal (λ z, Z.testbit z i)) in E.
  rewrite !Z.lor_spec, MSB_spec in E by done. destruct (Z.eqb_spec i 63) as [Ei|].
  - rewrite Ei,  !(testbit_above _ 63) by lia. done.
  - by rewrite !orb_false_r in E.
Qed.

(** The dummy of a key's bucket comes before the key. *)
Lemma bucket_before lkey k :
  0 ≤ lkey < 2 ^ 63 → 0 ≤ k ≤ 63 → so_dummykey (lkey mod 2 ^ k) < so_regularkey lkey.
Proof.
  intros Hl Hk. pose proof (Z.mod_pos_bound lkey (2 ^ k) ltac:(apply Z.pow_pos_nonneg; lia)) as Hm.
  assert (2 ^ k ≤ 2 ^ 63) by (apply Z.pow_le_mono_r; lia).
  assert (so_dummykey (lkey mod 2 ^ k) ≤ so_regularkey lkey) as Hle.
  { apply subset_reverse; [lia|apply regular_range; lia|]. intros i Hi Hb. rewrite Z.lor_spec.
    destruct (Z.lt_ge_cases i k); [|by rewrite Z.mod_pow2_bits_high in Hb by lia].
    rewrite Z.mod_pow2_bits_low in Hb by lia. by rewrite Hb. }
  assert (so_dummykey (lkey mod 2 ^ k) ≠ so_regularkey lkey) as Hne; [|lia].
  intros E. pose proof (regular_odd lkey) as Ho. rewrite <- E, dummy_even in Ho by lia. done.
Qed.

(** ** Parents *)

(** [t]'s bit [i] says whether [b] has a bit among [i .. i + n - 1]. *)
Definition smeared (n b t : Z) : Prop :=
  ∀ i, 0 ≤ i → Z.testbit t i = true ↔ ∃ j, i ≤ j < i + n ∧ Z.testbit b j = true.

Lemma smear_spec n b t : 0 < n → smeared n b t → smeared (2 * n) b (smear n t).
Proof.
  intros Hn Ht i Hi. unfold smear. rewrite Z.lor_spec, Z.shiftr_spec, orb_true_iff by done.
  rewrite (Ht i), (Ht (i + n)) by lia. split.
  - intros [(j & ? & ?)|(j & ? & ?)]; exists j; split; [lia|done|lia|done].
  - intros (j & ? & ?). destruct (Z.lt_ge_cases j (i + n)); [left|right]; exists j; split; [lia|done|lia|done].
Qed.

Lemma smear_all b : smeared 64 b (smear 32 (smear 16 (smear 8 (smear 4 (smear 2 (smear 1 b)))))).
Proof.
  apply (smear_spec 32), (smear_spec 16), (smear_spec 8), (smear_spec 4), (smear_spec 2), (smear_spec 1); try lia.
  intros i Hi. split; [intros; by exists i; split; [lia|]|].
  intros (j & ? & ?). by replace i with j by lia.
Qed.

(** A bucket's parent is the bucket without its most significant bit. *)
Lemma get_parent_spec b i :
  0 < b < 2 ^ 63 → 0 ≤ i → Z.testbit (get_parent b) i = Z.testbit b i && (i <? Z.log2 b).
Proof.
  intros Hb Hi. unfold get_parent. rewrite Z.land_spec, Z.shiftr_spec by done. f_equal.
  pose proof (smear_all b (i + 1) ltac:(lia)) as Hs. apply eq_true_iff_eq. rewrite Hs, Z.ltb_lt.
  assert (Z.log2 b < 63) by (apply Z.log2_lt_pow2; lia). split.
  - intros (j & Hj & Hbj). destruct (Z.lt_ge_cases i (Z.log2 b)); [done|].
    rewrite Z.bits_above_log2 in Hbj by lia. done.
  - intros Hl. exists (Z.log2 b). split; [lia|]. apply Z.bit_log2. lia.
Qed.

Lemma parent_range b : 0 < b < 2 ^ 63 → 0 ≤ get_parent b < b.
Proof.
  intros Hb. assert (0 ≤ get_parent b) by (apply Z.land_nonneg; left; lia). split; [done|].
  assert (get_parent b ≤ b).
  { apply subset_le; [done|lia|]. intros i Hi. rewrite get_parent_spec by done. by intros [? _]%andb_true_iff. }
  assert (get_parent b ≠ b); [|lia]. intros E. pose proof (Z.bit_log2 b ltac:(lia)) as Hl.
  rewrite <- E in Hl at 1. rewrite get_parent_spec in Hl by (try apply Z.log2_nonneg; lia).
  apply andb_true_iff in Hl as [_ Hl]. lia.
Qed.

(** The split order.  The dummy node of a bucket comes before that of every bucket
    it is the parent of, and before every key that the bucket holds, for every size of
    the table; and different hashes have different keys, none of them a dummy's. *)
Theorem split_order b lkey lkey' k :
  0 < b < 2 ^ 63 → 0 ≤ lkey < 2 ^ 63 → 0 ≤ lkey' < 2 ^ 63 → 0 ≤ k ≤ 63 →
  0 ≤ get_parent b < b ∧
  so_dummykey (get_parent b) < so_dummykey b ∧
  so_dummykey (lkey mod 2 ^ k) < so_regularkey lkey ∧
  (so_regularkey lkey = so_regularkey lkey' → lkey = lkey') ∧
  so_regularkey lkey ≠ so_dummykey b.
Proof.
  intros Hb Hl Hl' Hk. pose proof (parent_range b Hb) as Hp. split; [done|]. split.
  - assert (so_dummykey (get_parent b) ≤ so_dummykey b).
    { apply subset_reverse; [lia..|]. intros i Hi. rewrite get_parent_spec by done. by intros [? _]%andb_true_iff. }
    assert (so_dummykey (get_parent b) ≠ so_dummykey b); [|lia].
    unfold so_dummykey. intros E%REVERSE_inj; unfold two64; lia.
  - split; [by apply bucket_before|]. split; [by apply regular_inj|].
    intros E. pose proof (regular_odd lkey) as Ho. by rewrite E, dummy_even in Ho by lia.
Qed.

Lemma split_order_witness :
  get_parent 13 = 5 ∧ so_dummykey (get_parent 13) < so_dummykey 13 ∧
  so_dummykey (29 mod 2 ^ 4) < so_regularkey 29.
Proof.
  destruct (split_order 13 29 30 4 ltac:(lia) ltac:(lia) ltac:(lia) ltac:(lia)) as (_ & H1 & H2 & _).
  split; [reflexivity|]. split; [exact H1|exact H2].
Defined.
