(* ===== verification/SplitOrdered.v ===== *)
(** The split-ordered hash table: [src/split_ordered.cc].

    One linked list, ordered by split-ordered keys, holds the nodes of all buckets;
    a table entry points to the dummy node of its bucket, which is created when the
    bucket is first used.  The operations are modelled for one thread: a
    compare-and-swap keeps its retry loop, and [Heap::Free(op, p)] leaves the
    contents of a node as they are until the epoch ends. *)

From S2P Require Import Prelude TagPtr Fam Reverse.

(** ** Data *)

(** [SplitOrderedList::Node]. *)
Record SoNode := mkSo {
  byte_key_ : bytes;
  byte_key_size : nat;
  so_key : Z;
  so_value : Z;
  so_next : TagGptr
}.

(** [typedef char ByteKey[40]]. *)
Definition BYTE_KEY : nat := 40.
Definition sizeof_SoNode : Z := 80.
Definition sizeof_Descriptor : Z := 24.
Definition hard_max_buckets : Z := 1024 * 1024.

(** A node as zeroed memory reads. *)
Definition zero_so : SoNode := mkSo (replicate BYTE_KEY 0) 0 0 0 TagGptr_null.

Definition set_next (t : TagGptr) (n : SoNode) : SoNode :=
  mkSo (byte_key_ n) (byte_key_size n) (so_key n) (so_value n) t.
Definition set_so_value (v : Z) (n : SoNode) : SoNode :=
  mkSo (byte_key_ n) (byte_key_size n) (so_key n) v (so_next n).

(** [memcpy(node->byte_key, byte_key, byte_key_size)] and the fields set after it. *)
Definition init_so (byte_key : bytes) (size : nat) (key value : Z) (n : SoNode) : SoNode :=
  mkSo (take size byte_key ++ drop size (byte_key_ n)) size key value TagGptr_null.

(** The cells that hold tagged pointers: an entry of the table, or the [next] field of
    a node. *)
Inductive loc := TableSlot (b : Z) | NextOf (p : Gptr).

Section SplitOrdered.
Context {N : Nvmm}.

(** A list: the heap, its nodes, and the [Descriptor] with its table. *)
Record sol := mkSol {
  so_heap : HeapSt;
  nodes : gmap Gptr SoNode;
  table : gmap Z TagGptr;
  count : Z;
  size : Z
}.

Definition with_so_heap h (s : sol) := mkSol h (nodes s) (table s) (count s) (size s).
Definition with_nodes ns (s : sol) := mkSol (so_heap s) ns (table s) (count s) (size s).
Definition with_so_table t (s : sol) := mkSol (so_heap s) (nodes s) t (count s) (size s).
Definition with_count c (s : sol) := mkSol (so_heap s) (nodes s) (table s) c (size s).
Definition with_size z (s : sol) := mkSol (so_heap s) (nodes s) (table s) (count s) z.

(** ** Operations on a list *)

Inductive res (A : Type) :=
  | Ok (a : A) (s : sol)
  | AllocFailed (h : HeapSt) (sz : Z)   (* the null pointer of [Alloc] is asserted not to be, or dereferenced *)
  | AssertFailed
  | Timeout
  | Crash.
Arguments Ok {A} a s.
Arguments AllocFailed {A} h sz.
Arguments AssertFailed {A}.
Arguments Timeout {A}.
Arguments Crash {A}.

Definition M (A : Type) : Type := sol → res A.

#[global] Instance M_ret : MRet M := λ A a s, Ok a s.
#[global] Instance M_bind : MBind M := λ A B f m s,
  match m s with
  | Ok a s' => f a s'
  | AllocFailed h sz => AllocFailed h sz
  | AssertFailed => AssertFailed
  | Timeout => Timeout
  | Crash => Crash
  end.

Definition get_sol : M sol := λ s, Ok s s.
Definition put_sol (s : sol) : M unit := λ _, Ok tt s.
Definition so_assert (b : bool) : M unit := λ s, if b then Ok tt s else AssertFailed.

(** [heap_->Alloc(sz)], whose result is used as if it were not null. *)
Definition alloc_mem (sz : Z) : M Gptr := λ s,
  let '(p, h) := heap_Alloc (so_heap s) sz in
  if p =? 0 then AllocFailed (so_heap s) sz else Ok p (with_so_heap h s).

(** [heap_->Alloc(sizeof(Node))]. *)
Definition alloc_so : M Gptr :=
  p ← alloc_mem sizeof_SoNode;
  s ← get_sol;
  put_sol (with_nodes (<[p := zero_so]> (nodes s)) s);;
  mret p.

Definition free_so (p : Gptr) : M unit := λ s, Ok tt (with_so_heap (heap_FreeOp (so_heap s) p) s).

Definition load_so (p : Gptr) : M SoNode := λ s,
  match nodes s !! p with Some n => Ok n s | None => Crash end.
Definition store_so (p : Gptr) (f : SoNode → SoNode) : M unit := λ s,
  match nodes s !! p with Some n => Ok tt (with_nodes (<[p := f n]> (nodes s)) s) | None => Crash end.

Definition load_loc (l : loc) : M TagGptr :=
  match l with
  | TableSlot b => λ s, Ok (default TagGptr_null (table s !! b)) s
  | NextOf p => n ← load_so p; mret (so_next n)
  end.

Definition store_loc (l : loc) (t : TagGptr) : M unit :=
  match l with
  | TableSlot b => λ s, Ok tt (with_so_table (<[b := t]> (table s)) s)
  | NextOf p => store_so p (set_next t)
  end.

(** [atomic_compare_and_swap(target, old, new)]: the value seen. *)
Definition cas_loc (l : loc) (old new : TagGptr) : M TagGptr :=
  cur ← load_loc l;
  let '(seen, cell) := fam_cas128 cur old new in
  store_loc l cell;; mret seen.

(** [TagGptr(0, t.gptr(), t.tag())]. *)
Definition unmarked (t : TagGptr) : TagGptr := TagGptr_marked 0 (gptr t) (tag t).

(** What [ListFind] returns and stores through its last three arguments. *)
Record place := mkPlace { p_value : Z; p_prev : loc; p_cur : TagGptr; p_next : TagGptr }.

(** The two loops of [ListFind]. *)
Fixpoint find_loop (fuel : nat) (head : loc) (byte_key : bytes) (key : Z)
    (prev : loc) (cur next : TagGptr) : M place :=
  match fuel with
  | O => λ _, Timeout
  | S fuel' =>
      if gptr cur =? 0 then mret (mkPlace 0 prev cur next) else
      n ← load_so (gptr cur);
      let next := so_next n in
      let ckey := so_key n in
      now ← load_loc prev;
      let restart := t ← load_loc head; find_loop fuel' head byte_key key head t next in
      if negb (TagGptr_eqb now (unmarked cur)) then restart else
      if TagPtr.mark next =? 0 then
        let go_on := find_loop fuel' head byte_key key (NextOf (gptr cur)) next next in
        if key <=? ckey then
          if ckey =? key then
            if fam_memcmp (take (byte_key_size n) (byte_key_ n)) (take (byte_key_size n) byte_key) =? 0
            then mret (mkPlace (so_value n) prev cur next)
            else go_on
          else mret (mkPlace 0 prev cur next)
        else go_on
      else
        seen ← cas_loc prev (unmarked cur) (TagGptr_marked 0 (gptr next) (tag_succ cur));
        if TagGptr_eqb seen (unmarked cur) then
          free_so (gptr cur);; find_loop fuel' head byte_key key prev next next
        else restart
  end.

Definition ListFind (fuel : nat) (head : loc) (byte_key : bytes) (key : Z) : M place :=
  t ← load_loc head;
  find_loop fuel head byte_key key head t TagGptr_null.

(** The flag and [*ocur_tgptr]. *)
Fixpoint ListInsert (fuel : nat) (head : loc) (node_tgptr : TagGptr) : M (bool * TagGptr) :=
  match fuel with
  | O => λ _, Timeout
  | S fuel' =>
      node ← load_so (gptr node_tgptr);
      p ← ListFind fuel head (byte_key_ node) (so_key node);
      if negb (p_value p =? 0) then mret (false, p_cur p) else
      store_so (gptr node_tgptr) (set_next (TagGptr_marked 0 (gptr (p_cur p)) 0));;
      seen ← cas_loc (p_prev p) (unmarked (p_cur p))
               (TagGptr_marked 0 (gptr node_tgptr) (tag_succ (p_cur p)));
      if TagGptr_eqb seen (unmarked (p_cur p)) then mret (true, p_cur p)
      else ListInsert fuel' head node_tgptr
  end.

(** With [ocur_tgptr] not null, as its only caller calls it: the flag and [*ocur_tgptr],
    which is null to begin with. *)
Fixpoint ListDelete (fuel : nat) (head : loc) (byte_key : bytes) (sokey : Z)
    : M (bool * TagGptr) :=
  match fuel with
  | O => λ _, Timeout
  | S fuel' =>
      p ← ListFind fuel head byte_key sokey;
      if p_value p =? 0 then mret (false, TagGptr_null) else
      let next := p_next p in
      seen ← cas_loc (NextOf (gptr (p_cur p))) (unmarked next)
               (TagGptr_marked 1 (gptr next) (tag_succ next));
      if negb (TagGptr_eqb seen (unmarked next)) then ListDelete fuel' head byte_key sokey else
      seen ← cas_loc (p_prev p) (unmarked (p_cur p))
               (TagGptr_marked 0 (gptr next) (tag_succ (p_cur p)));
      if TagGptr_eqb seen (unmarked (p_cur p)) then mret (true, p_cur p)
      else ListFind fuel head byte_key sokey;; mret (true, TagGptr_null)
  end.

(** ** Buckets *)

(** [fuel] is for the loops over the list, [depth] for the recursion on parents. *)
Fixpoint InitializeBucket (depth fuel : nat) (bucket : Z) : M unit :=
  match depth with
  | O => λ _, Timeout
  | S depth' =>
      let parent := get_parent bucket in
      tmp ← load_loc (TableSlot parent);
      (if TagGptr_eqb tmp TagGptr_null then InitializeBucket depth' fuel parent else mret tt);;
      dummy ← alloc_so;
      store_so dummy (λ n, mkSo (byte_key_ n) 0 (so_dummykey bucket) 0 TagGptr_null);;
      let dummy_tgptr := TagGptr_marked 0 dummy 0 in
      '(ok, cur) ← ListInsert fuel (TableSlot parent) dummy_tgptr;
      d ← (if ok : bool then mret dummy_tgptr else free_so dummy;; mret cur);
      store_loc (TableSlot bucket) (unmarked d)
  end.

(** [SplitOrderedList(mmgr, heap, metrics, 0)]: the descriptor, an empty table and the
    dummy node of bucket 0. *)
Definition SplitOrderedList_new : M unit :=
  alloc_mem sizeof_Descriptor;;
  s ← get_sol;
  put_sol (mkSol (so_heap s) (nodes s) (table s) 0 2);;
  alloc_mem (hard_max_buckets * 16);;
  s ← get_sol;
  put_sol (with_so_table ∅ s);;
  dummy ← alloc_so;
  store_so dummy (λ n, mkSo (byte_key_ n) (byte_key_size n) (so_dummykey 0) (so_value n) (so_next n));;
  store_loc (TableSlot 0) (TagGptr_marked 0 dummy 0).

(** ** The operations *)

(** CityHash is not part of this repository. *)
Context (CityHash64 : bytes → Z).

Definition Hash64 (key : bytes) : Z := Z.land (CityHash64 key) (u64 (- MSB - 1)).

Context (depth fuel : nat).

Definition load_bucket (bucket : Z) : M unit :=
  t ← load_loc (TableSlot bucket);
  if TagGptr_eqb t TagGptr_null then InitializeBucket depth fuel bucket else mret tt.

(** [count / size > 0.75] in double precision; the size is a power of two, for which
    this is exact. *)
Definition over_load (c size : Z) : bool := 3 * size <? 4 * c.

(** One more node: count it, and double the table when it is too full. *)
Definition count_node : M unit :=
  s ← get_sol;
  let csize := size s in
  put_sol (with_count (u64 (count s + 1)) s);;
  if over_load (count s) csize && (2 * csize <=? hard_max_buckets)
  then s ← get_sol; put_sol (with_size (if size s =? csize then 2 * csize else size s) s)
  else mret tt.

(** A new node for the key, in its bucket's list, unless one is there: the flag, the
    node that is there, and the new node. *)
Definition insert_node (byte_key : bytes) (byte_key_size : nat) (value : Z)
    : M (bool * TagGptr * Gptr) :=
  node ← alloc_so;
  let lkey := Hash64 (take byte_key_size byte_key) in
  s ← get_sol;
  let bucket := lkey mod size s in
  so_assert (Z.land lkey MSB =? 0);;
  store_so node (init_so byte_key byte_key_size (so_regularkey lkey) value);;
  load_bucket bucket;;
  '(ok, cur) ← ListInsert fuel (TableSlot bucket) (TagGptr_marked 0 node 0);
  mret (ok, cur, node).

(** The flag and [value], which is also an output. *)
Definition FindOrInsert (byte_key : bytes) (byte_key_size : nat) (value : Z) : M (bool * Z) :=
  '(ok, cur, node) ← insert_node byte_key byte_key_size value;
  if negb ok then
    n ← load_so (gptr cur); free_so node;; mret (false, so_value n)
  else count_node;; mret (true, value).

Definition Insert (byte_key : bytes) (byte_key_size : nat) (value : Z) : M bool :=
  '(ok, cur, node) ← insert_node byte_key byte_key_size value;
  if negb ok then free_so node;; mret false
  else count_node;; mret true.

(** The result is [*old_gptr]: the new node when it was not needed, else null. *)
Definition InsertOrUpdate (byte_key : bytes) (byte_key_size : nat) (value : Z) : M Gptr :=
  '(ok, cur, node) ← insert_node byte_key byte_key_size value;
  if negb ok then
    store_so (gptr cur) (set_so_value value);; mret (gptr (TagGptr_marked 0 node 0))
  else count_node;; mret 0.

Definition Find (byte_key : bytes) (byte_key_size : nat) : M Z :=
  let lkey := Hash64 (take byte_key_size byte_key) in
  s ← get_sol;
  let bucket := lkey mod size s in
  load_bucket bucket;;
  p ← ListFind fuel (TableSlot bucket) byte_key (so_regularkey lkey);
  mret (p_value p).

(** The flag and [*ocur_ptr]. *)
Definition Delete (byte_key : bytes) (byte_key_size : nat) : M (bool * Gptr) :=
  let lkey := Hash64 (take byte_key_size byte_key) in
  s ← get_sol;
  let bucket := lkey mod size s in
  load_bucket bucket;;
  '(ok, cur) ← ListDelete fuel (TableSlot bucket) byte_key (so_regularkey lkey);
  if negb ok then mret (false, 0)
  else
    s ← get_sol;
    put_sol (with_count (u64 (count s - 1)) s);;
    mret (true, gptr cur).

(** [foreach]: the arguments of the calls of [f], in order. *)
Fixpoint foreach_loop (n : nat) (cur : TagGptr) : M (list (bytes * nat * Z)) :=
  match n with
  | O => λ _, Timeout
  | S n' =>
      if gptr cur =? 0 then mret [] else
      node ← load_so (gptr cur);
      l ← foreach_loop n' (so_next node);
      mret ((byte_key_ node, byte_key_size node, so_value node) :: l)
  end.

Definition foreach : M (list (bytes * nat * Z)) :=
  t ← load_loc (TableSlot 0);
  foreach_loop fuel t.

End SplitOrdered.

Arguments Ok {N A} a s.
Arguments AllocFailed {N A} h sz.
Arguments AssertFailed {N A}.
Arguments Timeout {N A}.
Arguments Crash {N A}.

(** ** Reasoning about operations *)

Section Wp.
Context {N : Nvmm} {LN : NvmmLaws N}.
Implicit Types (s : sol).

(** The operation returns, and the result satisfies [Q]; or the heap refused memory. *)
Definition so_wp {A} (m : M A) s (Q : A → sol → Prop) : Prop :=
  match m s with
  | Ok a s' => Q a s'
  | AllocFailed h sz => (heap_Alloc h sz).1 = 0
  | _ => False
  end.

Lemma so_wp_ret {A} (a : A) s Q : Q a s → so_wp (mret a) s Q.
Proof. done. Qed.

Lemma so_wp_bind {A B} (m : M A) (f : A → M B) s Q :
  so_wp m s (λ a s', so_wp (f a) s' Q) → so_wp (m ≫= f) s Q.
Proof. unfold so_wp, mbind, M_bind. by destruct (m s). Qed.

Lemma so_wp_mono {A} (m : M A) s (P Q : A → sol → Prop) :
  so_wp m s P → (∀ a s', P a s' → Q a s') → so_wp m s Q.
Proof. unfold so_wp. destruct (m s); eauto. Qed.

Lemma so_wp_ok {A} (m : M A) s a s' (Q : A → sol → Prop) : m s = Ok a s' → Q a s' → so_wp m s Q.
Proof. unfold so_wp. by intros ->. Qed.

Lemma bind_ok {A B} (m : M A) (f : A → M B) s a s' : m s = Ok a s' → (m ≫= f) s = f a s'.
Proof. unfold mbind, M_bind. by intros ->. Qed.

(** *** Tagged pointers *)

(** An unmarked pointer word. *)
Definition clean (t : TagGptr) : Prop := wf_ptr (gptr_ t) ∧ TagPtr.mark t = 0.
Definition aligned (p : Gptr) : Prop := wf_ptr p ∧ p mod 2 = 0.

Lemma clean_gptr t : clean t → gptr t = gptr_ t.
Proof.
  intros [Hw Hm]. unfold gptr, TagPtr.mark in *. rewrite land_1_mod in Hm. rewrite gptr_mask_even by done. lia.
Qed.

Lemma aligned_mask p : aligned p → gptr_mask p = p.
Proof. intros [Hw Hm]. rewrite gptr_mask_even by done. lia. Qed.

Lemma clean_aligned t : clean t → aligned (gptr t).
Proof. intros H. rewrite clean_gptr by done. destruct H as [? Hm]. unfold TagPtr.mark in Hm. by rewrite land_1_mod in Hm. Qed.

Lemma marked0 p t : aligned p → TagGptr_marked 0 p t = mkTagGptr p t.
Proof. intros H. unfold TagGptr_marked. rewrite aligned_mask by done. simpl. by rewrite Z.lor_0_r. Qed.

Lemma mk_clean p t : aligned p → clean (mkTagGptr p t) ∧ gptr (mkTagGptr p t) = p.
Proof.
  intros H. pose proof H as [Hw Hm]. split; [split; [done|]|by apply aligned_mask].
  unfold TagPtr.mark. by rewrite land_1_mod.
Qed.

Lemma unmarked_clean t : clean t → unmarked t = t.
Proof.
  intros H. unfold unmarked. rewrite marked0 by (by apply clean_aligned).
  rewrite clean_gptr by done. by destruct t.
Qed.

Lemma clean_null : clean TagGptr_null.
Proof. split; [by split|done]. Qed.

(** *** Cells *)

Definition loc_val s (l : loc) : option TagGptr :=
  match l with
  | TableSlot b => Some (default TagGptr_null (table s !! b))
  | NextOf p => so_next <$> nodes s !! p
  end.

Definition set_loc s (l : loc) (t : TagGptr) : sol :=
  match l with
  | TableSlot b => with_so_table (<[b := t]> (table s)) s
  | NextOf p => match nodes s !! p with
                | Some n => with_nodes (<[p := set_next t n]> (nodes s)) s
                | None => s
                end
  end.

Lemma load_loc_ok s l t : loc_val s l = Some t → load_loc l s = Ok t s.
Proof.
  destruct l as [b|p]; simpl; [by intros [= <-]|].
  intros Hp. unfold load_so, mbind, M_bind. destruct (nodes s !! p); [|done]. by injection Hp as <-.
Qed.

Lemma cas_loc_ok s l t new :
  loc_val s l = Some t → cas_loc l t new s = Ok t (set_loc s l new).
Proof.
  intros Hl. unfold cas_loc. rewrite (bind_ok _ _ _ _ _ (load_loc_ok _ _ _ Hl)).
  rewrite cas128_spec, decide_True by done. destruct l as [b|p]; [done|]. simpl in *.
  unfold store_so, mbind, M_bind. destruct (nodes s !! p); done.
Qed.

Lemma load_so_ok s p n : nodes s !! p = Some n → load_so p s = Ok n s.
Proof. intros Hp. unfold load_so. by rewrite Hp. Qed.

Lemma store_so_ok s p n f : nodes s !! p = Some n → store_so p f s = Ok tt (with_nodes (<[p := f n]> (nodes s)) s).
Proof. intros Hp. unfold store_so. by rewrite Hp. Qed.

(** *** Linked lists *)

(** Following [next] pointers from [t] leads through the nodes [L] to null. *)
Fixpoint linked (ns : gmap Gptr SoNode) (t : TagGptr) (L : list Gptr) : Prop :=
  clean t ∧
  match L with
  | [] => gptr t = 0
  | q :: L' => gptr t = q ∧ q ≠ 0 ∧ ∃ n, ns !! q = Some n ∧ linked ns (so_next n) L'
  end.

Lemma linked_clean ns t L : linked ns t L → clean t.
Proof. destruct L; by intros [? _]. Qed.

Lemma linked_frame ns ns' t L : (∀ q, q ∈ L → ns' !! q = ns !! q) → linked ns t L → linked ns' t L.
Proof.
  revert t. induction L as [|q L IH]; intros t Hq; [done|]. intros (Hc & Hg & H0 & n & Hn & Hl).
  split; [done|]. split; [done|]. split; [done|]. exists n. split; [rewrite Hq; [done|by left]|].
  apply IH; [|done]. intros. apply Hq. by right.
Qed.

Lemma linked_suffix ns t pre q post t' :
  linked ns t (pre ++ q :: post) → clean t' → gptr t' = q → linked ns t' (q :: post).
Proof.
  revert t. induction pre as [|x pre IH]; intros t Hl Hc Hg.
  - destruct Hl as (_ & _ & H0 & n & Hn & Hl). split; [done|]. split; [done|]. split; [done|]. by exists n.
  - destruct Hl as (_ & _ & _ & n & _ & Hl). by eapply IH.
Qed.

(** Insertion of [q] after [p]. *)
Lemma linked_insert ns t A p np q nq l2 t1 :
  linked ns t (A ++ p :: l2) → NoDup (A ++ p :: l2) → q ∉ A ++ p :: l2 →
  ns !! p = Some np → clean t1 → gptr t1 = q → q ≠ 0 → linked ns (so_next nq) l2 →
  linked (<[p := set_next t1 np]> (<[q := nq]> ns)) t (A ++ p :: q :: l2).
Proof.
  revert t. induction A as [|x A IH]; intros t Hl Hnd Hq Hp Hc Hg H0 Hl2; cbn [app] in *.
  - apply list.NoDup_cons in Hnd as [Hp2 _]. apply not_elem_of_cons in Hq as [Hqp Hq2].
    destruct Hl as (Hct & Hgt & Hp0 & n & Hn & _). split; [done|]. split; [done|]. split; [done|].
    eexists. split; [apply lookup_insert_eq|]. simpl. split; [done|]. split; [done|]. split; [done|].
    exists nq. rewrite lookup_insert_ne, lookup_insert_eq by done. split; [done|].
    eapply linked_frame; [|done]. intros y Hy. rewrite !lookup_insert_ne; [done|congruence|congruence].
  - apply list.NoDup_cons in Hnd as [Hx Hnd]. apply not_elem_of_cons in Hq as [Hqx Hq2].
    destruct Hl as (Hct & Hgt & Hx0 & n & Hn & Hl). split; [done|]. split; [done|]. split; [done|].
    exists n. rewrite !lookup_insert_ne; [|congruence|set_solver]. split; [done|]. by apply IH.
Qed.

(** Removal of [q], after [p]. *)
Lemma linked_remove ns t A p np q nq l2 t1 nq' :
  linked ns t (A ++ p :: q :: l2) → NoDup (A ++ p :: q :: l2) →
  ns !! p = Some np → ns !! q = Some nq → clean t1 → gptr t1 = gptr (so_next nq) →
  linked (<[p := set_next t1 np]> (<[q := nq']> ns)) t (A ++ p :: l2).
Proof.
  revert t. induction A as [|x A IH]; intros t Hl Hnd Hp Hq Hc Hg; cbn [app] in *.
  - apply list.NoDup_cons in Hnd as [Hp2 Hnd]. apply list.NoDup_cons in Hnd as [Hq2 _].
    destruct Hl as (Hct & Hgt & Hp0 & n1 & Hn1 & Hl). simplify_eq. destruct Hl as (_ & _ & Hq0 & n2 & Hn2 & Hl).
    simplify_eq. split; [done|]. split; [done|]. split; [done|].
    eexists. split; [apply lookup_insert_eq|]. simpl. destruct l2 as [|y l2].
    + destruct Hl as [_ Hz]. split; [done|congruence].
    + destruct Hl as (Hcn & Hgn & Hy0 & ny & Hny & Hl). split; [done|]. split; [congruence|]. split; [done|].
      exists ny. rewrite !lookup_insert_ne; [|set_solver..]. split; [done|].
      eapply linked_frame; [|done]. intros z Hz. rewrite !lookup_insert_ne; [done|set_solver..].
  - apply list.NoDup_cons in Hnd as [Hx Hnd].
    destruct Hl as (Hct & Hgt & Hx0 & n & Hn & Hl). split; [done|]. split; [done|]. split; [done|].
    exists n. rewrite !lookup_insert_ne; [|set_solver..]. split; [done|]. by eapply IH.
Qed.

(** Changing a node but for its [next]. *)
Lemma linked_update ns t L q n n' :
  linked ns t L → ns !! q = Some n → so_next n' = so_next n → linked (<[q := n']> ns) t L.
Proof.
  intros Hl Hq Hn. revert t Hl. induction L as [|x L IH]; intros t; [done|].
  intros (Hc & Hg & H0 & m & Hm & Hl). split; [done|]. split; [done|]. split; [done|].
  destruct (decide (x = q)) as [->|Hne].
  - exists n'. rewrite lookup_insert_eq. split; [done|]. simplify_eq. rewrite Hn. auto.
  - exists m. rewrite lookup_insert_ne by done. auto.
Qed.

(** *** Searching *)

(** The search for [key] stops at this node. *)
Definition stops (key : Z) (byte_key : bytes) (n : SoNode) : bool :=
  if so_key n =? key
  then fam_memcmp (take (byte_key_size n) (byte_key_ n)) (take (byte_key_size n) byte_key) =? 0
  else key <? so_key n.

Definition last_loc (prev : loc) (l : list Gptr) : loc :=
  match list.last l with Some q => NextOf q | None => prev end.

(** Where the search ends: after [l1], whose nodes it passed, and before [l2]. *)
Record found_at s key byte_key prev (l1 l2 : list Gptr) (p : place) : Prop := {
  fa_passed q : q ∈ l1 → ∃ n, nodes s !! q = Some n ∧ stops key byte_key n = false;
  fa_prev : p_prev p = last_loc prev l1;
  fa_cur : loc_val s (p_prev p) = Some (p_cur p);
  fa_linked : linked (nodes s) (p_cur p) l2;
  fa_value : match l2 with
             | [] => p_value p = 0
             | q :: _ => ∃ n, nodes s !! q = Some n ∧ stops key byte_key n = true ∧
                 p_next p = so_next n ∧ p_value p = if so_key n =? key then so_value n else 0
             end
}.

Lemma last_loc_cons prev q l : last_loc prev (q :: l) = last_loc (NextOf q) l.
Proof. unfold last_loc. rewrite last_cons. by destruct (list.last l). Qed.

Lemma find_loop_ok fuel head byte_key key prev t nxt s L :
  loc_val s prev = Some t → linked (nodes s) t L → (length L < fuel)%nat →
  ∃ p l1 l2, find_loop fuel head byte_key key prev t nxt s = Ok p s ∧ L = l1 ++ l2 ∧
    found_at s key byte_key prev l1 l2 p.
Proof.
  revert prev t nxt L. induction fuel as [|fuel IH]; intros prev t nxt L Hv Hl Hf; [lia|].
  cbn [find_loop]. destruct L as [|q L].
  { destruct Hl as [Hc Hg]. rewrite Hg. simpl. eexists _, [], []. split; [done|]. split; [done|].
    by split; simpl; [intros q Hq; apply elem_of_nil in Hq|..]. }
  pose proof Hl as (Hc & Hg & H0 & n & Hn & Hl'). rewrite Hg, (proj2 (Z.eqb_neq q 0) H0).
  rewrite (bind_ok _ _ _ _ _ (load_so_ok _ _ _ Hn)), (bind_ok _ _ _ _ _ (load_loc_ok _ _ _ Hv)).
  rewrite (unmarked_clean t Hc), TagGptr_eqb_refl. cbn [negb].
  rewrite (proj2 (linked_clean _ _ _ Hl')). cbn [Z.eqb]. simpl length in Hf.
  assert (so_key n = key ∨ key < so_key n ∨ so_key n < key) as Hcmp by lia.
  assert (stops key byte_key n = true → found_at s key byte_key prev [] (q :: L)
    (mkPlace (if so_key n =? key then so_value n else 0) prev t (so_next n))) as Hstop.
  { intros Hs. split; simpl; try done.
    - intros x Hx. by apply elem_of_nil in Hx.
    - by exists n. }
  assert (stops key byte_key n = false → ∃ p l1 l2,
    find_loop fuel head byte_key key (NextOf q) (so_next n) (so_next n) s = Ok p s ∧
    q :: L = l1 ++ l2 ∧ found_at s key byte_key prev l1 l2 p) as Hgo.
  { intros Hs. destruct (IH (NextOf q) (so_next n) (so_next n) L) as (p & l1 & l2 & E & -> & HF);
      [simpl; by rewrite Hn|done|lia|]. exists p, (q :: l1), l2. split; [done|]. split; [done|].
    destruct HF as [F1 F2 F3 F4 F5]. split; try done; [|by rewrite last_loc_cons].
    intros x [->|Hx]%elem_of_cons; [by exists n|by apply F1]. }
  unfold stops in Hstop, Hgo. destruct (Z.leb_spec key (so_key n)) as [Hle|Hle].
  - destruct (Z.eqb_spec (so_key n) key) as [Ek|Ek].
    + destruct (_ =? 0); [|by apply Hgo]. eexists _, [], (q :: L). split; [done|]. split; [done|]. by apply Hstop.
    + eexists _, [], (q :: L). split; [done|]. split; [done|]. apply Hstop, Z.ltb_lt. lia.
  - rewrite (proj2 (Z.eqb_neq _ _)) in Hgo by lia. apply Hgo. apply Z.ltb_ge. lia.
Qed.

Lemma ListFind_ok fuel head byte_key key s t L :
  loc_val s head = Some t → linked (nodes s) t L → (length L < fuel)%nat →
  ∃ p l1 l2, ListFind fuel head byte_key key s = Ok p s ∧ L = l1 ++ l2 ∧
    found_at s key byte_key head l1 l2 p.
Proof.
  intros Hv Hl Hf. unfold ListFind. rewrite (bind_ok _ _ _ _ _ (load_loc_ok _ _ _ Hv)).
  by apply find_loop_ok.
Qed.

End Wp.
