(* ===== verification/SplitOrderedSpec.v ===== *)
(** The split-ordered hash table is a map.

    The invariant: the nodes reachable from the first table entry form one list,
    ordered by key; a regular node holds a key under its split-ordered key; and a table
    entry in use points to the dummy node of its bucket, somewhere in that list. *)

From Stdlib Require Import Sorting.Sorted.
From S2P Require Import Prelude TagPtr Fam Reverse SplitOrdered.

Section Spec.
Context {N : Nvmm} {LN : NvmmLaws N}.
Context (CityHash64 : bytes → Z).

Abbreviation Hash64 := (Hash64 CityHash64).

(** The keys in use: where two of them have one hash, neither buffer begins with the
    other key. *)
Context (P : list bytes).

(** The 40-byte buffer of a key, as the store fills it. *)
Definition kbuf (k : bytes) : bytes := k ++ replicate (BYTE_KEY - length k) 0.

Definition keys_ok : Prop :=
  (∀ k, k ∈ P → (length k ≤ BYTE_KEY)%nat) ∧
  (∀ k k', k ∈ P → k' ∈ P → Hash64 k = Hash64 k' → k `prefix_of` kbuf k' → k = k').

Lemma Hash64_range k : 0 ≤ Hash64 k < 2 ^ 63.
Proof.
  unfold Hash64. change (u64 (- MSB - 1)) with (Z.ones 63). rewrite Z.land_ones by lia.
  by apply Z.mod_pos_bound.
Qed.

Lemma length_kbuf k : (length k ≤ BYTE_KEY)%nat → length (kbuf k) = BYTE_KEY.
Proof. intros. unfold kbuf. rewrite length_app, length_replicate. lia. Qed.

Lemma take_kbuf k : take (length k) (kbuf k) = k.
Proof. apply take_app_length. Qed.

(** ** Nodes *)

Definition dummy_node (b : Z) (n : SoNode) : Prop :=
  0 ≤ b < hard_max_buckets ∧ so_key n = so_dummykey b ∧ byte_key_size n = O ∧ so_value n = 0.

Definition regular_node (k : bytes) (n : SoNode) : Prop :=
  k ∈ P ∧ byte_key_ n = kbuf k ∧ byte_key_size n = length k ∧
  so_key n = so_regularkey (Hash64 k) ∧ so_value n ≠ 0.

Definition node_ok (n : SoNode) : Prop := (∃ b, dummy_node b n) ∨ (∃ k, regular_node k n).

(** The two kinds of nodes differ in the parity of their keys. *)
Lemma dummy_key b n : dummy_node b n → Z.testbit (so_key n) 0 = false.
Proof. intros (Hb & -> & _). apply dummy_even. unfold hard_max_buckets in Hb. lia. Qed.

Lemma regular_key k n : regular_node k n → Z.testbit (so_key n) 0 = true.
Proof. intros (_ & _ & _ & -> & _). apply regular_odd. Qed.

Lemma regular_set_next k t n : regular_node k (set_next t n) ↔ regular_node k n.
Proof. done. Qed.

Lemma node_ok_set_next t n : node_ok (set_next t n) ↔ node_ok n.
Proof. done. Qed.

(** ** The list *)

Definition kk (ns : gmap Gptr SoNode) (q : Gptr) : Z := default 0 (so_key <$> ns !! q).
Definition kle (ns : gmap Gptr SoNode) (p q : Gptr) : Prop := kk ns p ≤ kk ns q.

Record shape (ns : gmap Gptr SoNode) (L : list Gptr) : Prop := {
  sh_nodup : NoDup L;
  sh_sorted : StronglySorted (kle ns) L;
  sh_node q : q ∈ L → aligned q ∧ ∃ n, ns !! q = Some n ∧ node_ok n
}.

(** What the map sees of the list: the keys and values of the regular nodes. *)
Record content (ns : gmap Gptr SoNode) (L : list Gptr) (K : gmap bytes Z) : Prop := {
  ct_lookup k v : K !! k = Some v ↔
    ∃ q n, q ∈ L ∧ ns !! q = Some n ∧ regular_node k n ∧ so_value n = v;
  ct_unique q q' n n' k : q ∈ L → q' ∈ L → ns !! q = Some n → ns !! q' = Some n' →
    regular_node k n → regular_node k n' → q = q'
}.

(** [ns'] has the nodes [L] of [ns], but for their [next] pointers. *)
Definition same_but_next (ns ns' : gmap Gptr SoNode) (L : list Gptr) : Prop :=
  ∀ q n, q ∈ L → ns !! q = Some n → ∃ t, ns' !! q = Some (set_next t n).

Lemma set_next_self n : set_next (so_next n) n = n.
Proof. by destruct n. Qed.

Lemma same_but_next_insert ns L q n t :
  ns !! q = Some n → same_but_next ns (<[q := set_next t n]> ns) L.
Proof.
  intros Hq x m Hx Hm. destruct (decide (x = q)) as [->|Hne].
  - simplify_eq. exists t. by rewrite lookup_insert_eq.
  - exists (so_next m). rewrite lookup_insert_ne, set_next_self by done. done.
Qed.

Lemma same_but_next_new ns L q n : q ∉ L → same_but_next ns (<[q := n]> ns) L.
Proof.
  intros Hq x m Hx Hm. exists (so_next m). rewrite set_next_self, lookup_insert_ne; [done|]. intros ->. done.
Qed.

Lemma same_but_next_trans ns1 ns2 ns3 L :
  same_but_next ns1 ns2 L → same_but_next ns2 ns3 L → same_but_next ns1 ns3 L.
Proof.
  intros H1 H2 q n Hq Hn. destruct (H1 q n Hq Hn) as [t Ht]. destruct (H2 _ _ Hq Ht) as [t' Ht'].
  by exists t'.
Qed.

Lemma same_kk ns ns' L q : shape ns L → same_but_next ns ns' L → q ∈ L → kk ns' q = kk ns q.
Proof.
  intros [_ _ Hn] Hs Hq. destruct (Hn q Hq) as (_ & n & Hqn & _). destruct (Hs q n Hq Hqn) as [t Ht].
  unfold kk. by rewrite Hqn, Ht.
Qed.

Lemma sorted_kk ns ns' L : (∀ q, q ∈ L → kk ns' q = kk ns q) → StronglySorted (kle ns) L → StronglySorted (kle ns') L.
Proof.
  intros He. induction 1 as [|q L Hs IH Hf]; [constructor|]. constructor.
  - apply IH. intros. apply He. by right.
  - apply list.Forall_forall. intros x Hx. rewrite list.Forall_forall in Hf. unfold kle.
    rewrite !He by (by constructor). apply Hf. done.
Qed.

Lemma shape_same ns ns' L : shape ns L → same_but_next ns ns' L → shape ns' L.
Proof.
  intros HL Hs. pose proof HL as [H1 H2 H3]. split; [done| |].
  - eapply sorted_kk; [|done]. intros. by eapply same_kk.
  - intros q Hq. destruct (H3 q Hq) as (Ha & n & Hn & Hok). split; [done|].
    destruct (Hs q n Hq Hn) as [t Ht]. eauto.
Qed.

Lemma content_same ns ns' L K : shape ns L → content ns L K → same_but_next ns ns' L → content ns' L K.
Proof.
  intros HL [H1 H2] Hs.
  assert (∀ q n', q ∈ L → ns' !! q = Some n' → ∃ n, ns !! q = Some n ∧ ∃ t, n' = set_next t n) as Hb.
  { intros q n' Hq Hn'. destruct (sh_node _ _ HL q Hq) as (_ & n & Hn & _).
    destruct (Hs q n Hq Hn) as [t Ht]. simplify_eq. eauto. }
  split.
  - intros k v. rewrite H1. split; intros (q & n & Hq & Hn & Hr & Hv).
    + destruct (Hs q n Hq Hn) as [t Ht]. by exists q, (set_next t n).
    + destruct (Hb q n Hq Hn) as (m & Hm & t & ->). by exists q, m.
  - intros q q' n n' k Hq Hq' Hn Hn' Hr Hr'.
    destruct (Hb q n Hq Hn) as (m & Hm & t & ->). destruct (Hb q' n' Hq' Hn') as (m' & Hm' & t' & ->).
    by eapply H2.
Qed.

(** A node more in the list. *)
Lemma shape_add ns A q nq B :
  shape ns (A ++ B) → q ∉ A ++ B → aligned q → ns !! q = Some nq → node_ok nq →
  (∀ x, x ∈ A → kk ns x ≤ so_key nq) → (∀ x, x ∈ B → so_key nq ≤ kk ns x) →
  shape ns (A ++ q :: B).
Proof.
  intros [H1 H2 H3] Hq Ha Hn Hok HA HB.
  assert (kk ns q = so_key nq) as Ek by (unfold kk; by rewrite Hn).
  split.
  - apply list.NoDup_app in H1 as (HA1 & HAB & HB1). apply not_elem_of_app in Hq as [HqA HqB].
    apply list.NoDup_app. split; [done|]. split; [set_solver|]. by apply list.NoDup_cons.
  - clear H1 H3 Hq. induction A as [|x A IH]; cbn [app] in *.
    + constructor; [done|]. apply list.Forall_forall. intros y Hy. unfold kle. rewrite Ek. auto.
    + inversion_clear H2 as [|? ? Hs Hf]. constructor; [apply IH; [done|]; intros; apply HA; by right|].
      rewrite list.Forall_forall in *. intros y. rewrite elem_of_app, elem_of_cons.
      intros [Hy|[->|Hy]]; [apply Hf; set_solver| |apply Hf; set_solver].
      unfold kle. rewrite Ek. apply HA. by left.
  - intros x. rewrite elem_of_app, elem_of_cons. intros [Hx|[->|Hx]]; [apply H3; set_solver|eauto|apply H3; set_solver].
Qed.

(** A node less. *)
Lemma shape_drop ns A q B : shape ns (A ++ q :: B) → shape ns (A ++ B).
Proof.
  intros [H1 H2 H3]. split.
  - apply list.NoDup_app in H1 as (HA1 & HAB & HB1). apply list.NoDup_cons in HB1 as [_ HB1].
    apply list.NoDup_app. split; [done|]. split; [|done]. intros x Hx HB. apply (HAB x Hx). by right.
  - clear H1 H3. induction A as [|x A IH]; cbn [app] in *; inversion_clear H2 as [|? ? Hs Hf]; [done|].
    constructor; [by apply IH|]. rewrite list.Forall_forall in *. intros y Hy. apply Hf.
    rewrite elem_of_app, elem_of_cons. apply elem_of_app in Hy. tauto.
  - intros x Hx. apply H3. rewrite elem_of_app, elem_of_cons. apply elem_of_app in Hx. tauto.
Qed.

Lemma sorted_split ns A B x y : StronglySorted (kle ns) (A ++ B) → x ∈ A → y ∈ B → kk ns x ≤ kk ns y.
Proof.
  induction A as [|z A IH]; intros H Hx Hy; [by apply elem_of_nil in Hx|].
  inversion_clear H as [|? ? Hs Hf]. apply elem_of_cons in Hx as [->|Hx]; [|by apply IH].
  rewrite list.Forall_forall in Hf. apply Hf. apply elem_of_app. by right.
Qed.

(** *** Content after an insertion, an update and a removal *)

Lemma content_add_dummy ns A q nq B K b :
  content ns (A ++ B) K → ns !! q = Some nq → dummy_node b nq → content ns (A ++ q :: B) K.
Proof.
  intros [H1 H2] Hq Hd.
  assert (∀ x n k, x ∈ A ++ q :: B → ns !! x = Some n → regular_node k n → x ∈ A ++ B) as Hx.
  { intros x n k Hx Hn Hr. rewrite elem_of_app, elem_of_cons in Hx. apply elem_of_app.
    destruct Hx as [?|[->|?]]; [by left| |by right]. simplify_eq.
    apply dummy_key in Hd. apply regular_key in Hr. congruence. }
  split.
  - intros k v. rewrite H1. split; intros (x & n & Hin & Hn & Hr & Hv); exists x, n; split_and!; try done; [|by eapply Hx].
    rewrite elem_of_app, elem_of_cons. apply elem_of_app in Hin. tauto.
  - intros x x' n n' k Hin Hin' Hn Hn' Hr Hr'. eapply H2; eauto.
Qed.

Lemma regular_unique k k' n : regular_node k n → regular_node k' n → k = k'.
Proof.
  intros (_ & Hb & Hs & _) (_ & Hb' & Hs' & _). rewrite <- (take_kbuf k), <- (take_kbuf k'), <- Hs, <- Hs', <- Hb, <- Hb'.
  by rewrite Hs, Hs' in *.
Qed.

Lemma content_add ns A q nq B K k :
  content ns (A ++ B) K → q ∉ A ++ B → ns !! q = Some nq → regular_node k nq → K !! k = None →
  content ns (A ++ q :: B) (<[k := so_value nq]> K).
Proof.
  intros [H1 H2] Hq Hn Hr Hk.
  assert (∀ x n, x ∈ A ++ B → ns !! x = Some n → ¬ regular_node k n) as Hno.
  { intros x n Hx Hxn Hr'. assert (K !! k = Some (so_value n)); [|congruence]. apply H1. eauto 6. }
  assert (∀ x, x ∈ A ++ q :: B ↔ x = q ∨ x ∈ A ++ B) as Hin.
  { intros x. rewrite !elem_of_app, elem_of_cons. tauto. }
  split.
  - intros k' v. destruct (decide (k' = k)) as [->|Hne].
    + rewrite lookup_insert_eq. split.
      * intros [= <-]. exists q, nq. rewrite Hin. auto.
      * intros (x & n & Hx & Hxn & Hr' & <-). apply Hin in Hx as [->|Hx]; [by simplify_eq|].
        by destruct (Hno x n).
    + rewrite lookup_insert_ne, H1 by done. split; intros (x & n & Hx & Hxn & Hr' & Hv); exists x, n; split_and!; try done.
      * apply Hin. by right.
      * apply Hin in Hx as [->|?]; [|done]. simplify_eq. destruct Hne. eauto using regular_unique.
  - intros x x' n n' k' Hx Hx' Hxn Hxn' Hr1 Hr2. apply Hin in Hx, Hx'. destruct Hx as [->|Hx], Hx' as [->|Hx']; [done|..|by eapply H2].
    + simplify_eq. assert (k' = k) as -> by (eauto using regular_unique). by destruct (Hno x' n').
    + simplify_eq. assert (k' = k) as -> by (eauto using regular_unique). by destruct (Hno x n).
Qed.

Lemma content_drop ns A q nq B K k :
  content ns (A ++ q :: B) K → NoDup (A ++ q :: B) → ns !! q = Some nq → regular_node k nq →
  content ns (A ++ B) (delete k K).
Proof.
  intros [H1 H2] Hnd Hn Hr.
  assert (∀ x, x ∈ A ++ B ↔ x ≠ q ∧ x ∈ A ++ q :: B) as Hin.
  { intros x. apply list.NoDup_app in Hnd as (_ & HA & HB). apply list.NoDup_cons in HB as [HB _].
    rewrite !elem_of_app, elem_of_cons. specialize (HA x). split; [|tauto].
    intros [Hx|Hx]; (split; [intros ->|tauto]); [|done]. apply HA; [done|]. by left. }
  assert (q ∈ A ++ q :: B) as Hq by (rewrite elem_of_app, elem_of_cons; tauto).
  split.
  - intros k' v. destruct (decide (k' = k)) as [->|Hne].
    + rewrite lookup_delete_eq. split; [done|]. intros (x & n & Hx & Hxn & Hr' & _). exfalso.
      apply Hin in Hx as [Hne Hx]. apply Hne. by eapply H2.
    + rewrite lookup_delete_ne, H1 by done. split; intros (x & n & Hx & Hxn & Hr' & Hv); exists x, n; split_and!; try done.
      * apply Hin. split; [|done]. intros ->. simplify_eq. destruct Hne. eauto using regular_unique.
      * by apply Hin.
  - intros x x' n n' k' Hx Hx'. apply Hin in Hx as [_ Hx], Hx' as [_ Hx']. by apply H2.
Qed.

Lemma content_update ns L q nq K k v :
  content ns L K → q ∈ L → ns !! q = Some nq → regular_node k nq → v ≠ 0 →
  content (<[q := set_so_value v nq]> ns) L (<[k := v]> K).
Proof.
  intros [H1 H2] Hq Hn Hr Hv0.
  assert (∀ x n', <[q := set_so_value v nq]> ns !! x = Some n' → ∃ n, ns !! x = Some n ∧
    (∀ k', regular_node k' n' ↔ regular_node k' n) ∧
    so_value n' = if decide (x = q) then v else so_value n) as Hb.
  { intros x n' Hx. destruct (decide (x = q)) as [->|Hne].
    - rewrite lookup_insert_eq in Hx. simplify_eq. exists nq. split_and!; [done| |done].
      intros k'. destruct Hr as (_ & _ & _ & _ & Hnz). unfold regular_node. simpl. tauto.
    - rewrite lookup_insert_ne in Hx by done. exists n'. done. }
  split.
  - intros k' v'. destruct (decide (k' = k)) as [->|Hne].
    + rewrite lookup_insert_eq. split.
      * intros [= <-]. exists q, (set_so_value v nq). rewrite lookup_insert_eq. split_and!; try done.
        destruct Hr as (? & ? & ? & ? & _). split_and!; done.
      * intros (x & n' & Hx & Hxn & Hr' & <-). destruct (Hb x n' Hxn) as (n & Hxn' & Hreg & ->).
        apply Hreg in Hr'. assert (x = q) as -> by (by eapply H2). by rewrite decide_True.
    + rewrite lookup_insert_ne, H1 by done. split.
      * intros (x & n & Hx & Hxn & Hr' & Hv). exists x, n. assert (x ≠ q) by (intros ->; simplify_eq; destruct Hne; eauto using regular_unique).
        rewrite lookup_insert_ne by done. done.
      * intros (x & n' & Hx & Hxn & Hr' & <-). destruct (Hb x n' Hxn) as (n & Hxn' & Hreg & ->).
        apply Hreg in Hr'. exists x, n. assert (x ≠ q) by (intros ->; simplify_eq; destruct Hne; eauto using regular_unique).
        rewrite decide_False by done. done.
  - intros x x' n n' k' Hx Hx' Hxn Hxn' Hr1 Hr2.
    destruct (Hb x n Hxn) as (m & Hm & Hreg & _), (Hb x' n' Hxn') as (m' & Hm' & Hreg' & _).
    eapply (H2 x x' m m' k'); try done; [by apply Hreg|by apply Hreg'].
Qed.

(** ** The invariant *)

Record sol_ok (s : sol) (L : list Gptr) (K : gmap bytes Z) : Prop := {
  ok_head : ∃ t, table s !! 0 = Some t ∧ linked (nodes s) t L;
  ok_shape : shape (nodes s) L;
  ok_content : content (nodes s) L K;
  ok_table b t : table s !! b = Some t →
    0 ≤ b < hard_max_buckets ∧ clean t ∧ gptr t ∈ L ∧ kk (nodes s) (gptr t) = so_dummykey b;
  ok_size : ∃ j, 1 ≤ j ≤ 20 ∧ size s = 2 ^ j;
  ok_live : dom (nodes s) ⊆ live (so_heap s)
}.

Lemma linked_nonzero ns t L q : linked ns t L → q ∈ L → q ≠ 0.
Proof.
  revert t. induction L as [|x L IH]; intros t Hl Hq; [by apply elem_of_nil in Hq|].
  destruct Hl as (_ & _ & H0 & n & _ & Hl). apply elem_of_cons in Hq as [->|Hq]; [done|by eapply IH].
Qed.

Lemma nonnull_eqb t : gptr t ≠ 0 → TagGptr_eqb t TagGptr_null = false.
Proof.
  intros H. unfold TagGptr_eqb. change (gptr TagGptr_null) with 0. by rewrite (proj2 (Z.eqb_neq _ _) H).
Qed.

Lemma entry_nonnull s L K b t : sol_ok s L K → table s !! b = Some t → gptr t ≠ 0.
Proof.
  intros HS Ht. destruct (ok_head _ _ _ HS) as (t0 & _ & Hl). destruct (ok_table _ _ _ HS b t Ht) as (_ & _ & Hin & _).
  by eapply linked_nonzero.
Qed.

(** *** Allocation *)

Definition fresh_so (s : sol) (q : Gptr) (s' : sol) : Prop :=
  nodes s !! q = None ∧ aligned q ∧ q ≠ 0 ∧
  ∃ h, s' = with_nodes (<[q := zero_so]> (nodes s)) (with_so_heap h s) ∧
    dom (<[q := zero_so]> (nodes s)) ⊆ live h.

Lemma alloc_mem_wp sz s : so_wp (alloc_mem sz) s (λ p s', p ≠ 0 ∧ ∃ h,
  heap_Alloc (so_heap s) sz = (p, h) ∧ s' = with_so_heap h s).
Proof.
  unfold so_wp, alloc_mem. destruct (heap_Alloc (so_heap s) sz) as [q h] eqn:E.
  destruct (Z.eqb_spec q 0); [by rewrite E|eauto].
Qed.

Lemma alloc_so_wp s : dom (nodes s) ⊆ live (so_heap s) → so_wp alloc_so s (fresh_so s).
Proof.
  intros Hl. unfold alloc_so. apply so_wp_bind. eapply so_wp_mono; [apply alloc_mem_wp|].
  intros q s1 (H0 & h & E & ->). apply so_wp_bind. eapply so_wp_ok; [reflexivity|].
  apply so_wp_bind. eapply so_wp_ok; [reflexivity|]. apply so_wp_ret.
  destruct (alloc_fresh _ _ _ _ E H0) as (_ & Hw & Hnl & Hl').
  pose proof (alloc_aligned (so_heap s) sizeof_SoNode) as Ha. rewrite E in Ha. simpl in Ha.
  split_and!; [apply not_elem_of_dom; set_solver| |done|].
  - split; [done|]. rewrite (Z.div_mod q 16), Ha by lia. rewrite Z.add_0_r.
    replace (16 * (q / 16)) with (q / 16 * 8 * 2) by lia. apply Z_mod_mult.
  - exists h. split; [done|]. rewrite dom_insert_L, Hl'. set_solver.
Qed.

Lemma shape_dom ns L q : shape ns L → ns !! q = None → q ∉ L.
Proof. intros HL Hq Hin. destruct (sh_node _ _ HL q Hin) as (_ & n & Hn & _). congruence. Qed.

(** A node that is not in the list may be anything. *)
Lemma sol_ok_outside s L K q n h :
  sol_ok s L K → q ∉ L → dom (<[q := n]> (nodes s)) ⊆ live h →
  sol_ok (with_nodes (<[q := n]> (nodes s)) (with_so_heap h s)) L K.
Proof.
  intros [Hh Hs Hc Ht Hz Hl] Hq Hd. pose proof (same_but_next_new (nodes s) L q n Hq) as Hsame.
  split; cbn [with_nodes with_so_heap nodes table size count so_heap]; try done.
  - destruct Hh as (t & ? & Hlk). exists t. split; [done|]. eapply linked_frame; [|done].
    intros x Hx. rewrite lookup_insert_ne; [done|]. by intros ->.
  - by eapply shape_same.
  - by eapply content_same.
  - intros b t Hbt. destruct (Ht b t Hbt) as (? & ? & Hin & Hk). do 3 (split; [done|]). by rewrite (same_kk _ _ _ _ Hs Hsame Hin).
Qed.

Lemma with_heap_self s ns : with_nodes ns s = with_nodes ns (with_so_heap (so_heap s) s).
Proof. by destruct s. Qed.

(** *** Searching from a bucket *)

(** The search for [key] ended between [x] and [l2]. *)
Record between s (L : list Gptr) key byte_key (p : place) A x l2 : Prop := {
  bt_list : L = A ++ x :: l2;
  bt_prev : p_prev p = NextOf x;
  bt_cur : loc_val s (NextOf x) = Some (p_cur p);
  bt_linked : linked (nodes s) (p_cur p) l2;
  bt_before q n : q ∈ A ++ [x] → nodes s !! q = Some n → so_key n ≤ key ∧ stops key byte_key n = false;
  bt_after q : q ∈ l2 → key ≤ kk (nodes s) q;
  bt_value : match l2 with
             | [] => p_value p = 0
             | q :: _ => ∃ n, nodes s !! q = Some n ∧ stops key byte_key n = true ∧
                 p_next p = so_next n ∧ p_value p = if so_key n =? key then so_value n else 0
             end
}.

Lemma not_stops_le key byte_key n : stops key byte_key n = false → so_key n ≤ key.
Proof. unfold stops. destruct (Z.eqb_spec (so_key n) key); [lia|]. intros ?%Z.ltb_ge. done. Qed.

Lemma stops_ge key byte_key n : stops key byte_key n = true → key ≤ so_key n.
Proof. unfold stops. destruct (Z.eqb_spec (so_key n) key); [lia|]. intros ?%Z.ltb_lt. lia. Qed.

Lemma below_not_stops key byte_key n : so_key n < key → stops key byte_key n = false.
Proof. intros. unfold stops. rewrite (proj2 (Z.eqb_neq _ _)) by lia. apply Z.ltb_ge. lia. Qed.

Lemma find_bucket fuel s L K b t byte_key key :
  sol_ok s L K → table s !! b = Some t → so_dummykey b < key → (length L < fuel)%nat →
  ∃ p A x l2, ListFind fuel (TableSlot b) byte_key key s = Ok p s ∧ between s L key byte_key p A x l2.
Proof.
  intros HS Ht Hk Hf. destruct (ok_table _ _ _ HS b t Ht) as (_ & Hc & Hin & Hkk).
  destruct (ok_head _ _ _ HS) as (t0 & _ & Hl). pose proof (ok_shape _ _ _ HS) as HL.
  apply list_elem_of_split in Hin as (pre & post & E). set (d := gptr t) in *. subst L.
  pose proof (linked_suffix _ _ _ _ _ t Hl Hc eq_refl) as Hlt. rewrite length_app in Hf. simpl in Hf.
  destruct (ListFind_ok fuel (TableSlot b) byte_key key s t (d :: post)) as (p & l1 & l2 & E & Esp & [F1 F2 F3 F4 F5]);
    [simpl; by rewrite Ht|done|simpl; lia|].
  destruct (sh_node _ _ HL d) as (_ & nd & Hnd & _); [apply elem_of_app; right; by left|].
  assert (so_key nd = so_dummykey b) as Hkd by (unfold kk in Hkk; rewrite Hnd in Hkk; done).
  destruct l1 as [|d' l1].
  { exfalso. cbn [app] in Esp. subst l2. destruct F5 as (n & Hn & Hst & _). rewrite Hnd in Hn. injection Hn as <-.
    rewrite below_not_stops in Hst by lia. done. }
  cbn [app] in Esp. injection Esp as <- ->.
  destruct (exists_last (l := d :: l1)) as (A' & x & Ex); [done|].
  exists p, (pre ++ A'), x, l2. split; [done|].
  assert (pre ++ d :: l1 ++ l2 = (pre ++ A') ++ x :: l2) as EL.
  { change (d :: l1 ++ l2) with ((d :: l1) ++ l2). rewrite Ex, <- !app_assoc. done. }
  assert (p_prev p = NextOf x) as Hpx by (rewrite F2, Ex; unfold last_loc; by rewrite last_snoc).
  split; try done.
  - by rewrite <- Hpx.
  - intros q n Hq Hn. rewrite <- app_assoc, elem_of_app, <- Ex in Hq. destruct Hq as [Hq|Hq].
    + assert (kk (nodes s) q ≤ so_dummykey b) as Hle.
      { rewrite <- Hkk. eapply sorted_split; [apply (sh_sorted _ _ HL)|done|by left]. }
      unfold kk in Hle. rewrite Hn in Hle. simpl in Hle. split; [lia|]. apply below_not_stops. lia.
    + destruct (F1 q Hq) as (n' & Hn' & Hst). simplify_eq. split; [by eapply not_stops_le|done].
  - intros q Hq. destruct l2 as [|y l2]; [by apply elem_of_nil in Hq|]. destruct F5 as (n & Hn & Hst & _).
    apply stops_ge in Hst. assert (kk (nodes s) y = so_key n) as Ey by (unfold kk; by rewrite Hn).
    apply elem_of_cons in Hq as [->|Hq]; [lia|]. etrans; [exact Hst|]. rewrite <- Ey.
    eapply (sorted_split _ ((pre ++ A') ++ [x; y]) l2); [|set_solver|done].
    rewrite <- app_assoc. cbn [app]. rewrite <- EL. apply (sh_sorted _ _ HL).
Qed.

(** What the search says about a key in use. *)
Lemma memcmp_eq a b : length a = length b → (fam_memcmp a b =? 0) = bool_decide (a = b).
Proof.
  intros Hl. pose proof (memcmp_spec a b Hl) as H. destruct (lex_cmp a b) eqn:E.
  - apply lex_cmp_eq in E as ->. rewrite H. by rewrite bool_decide_eq_true_2.
  - rewrite bool_decide_eq_false_2; [apply Z.eqb_neq; lia|]. intros ->. by rewrite lex_cmp_refl in E.
  - rewrite bool_decide_eq_false_2; [apply Z.eqb_neq; lia|]. intros ->. by rewrite lex_cmp_refl in E.
Qed.

Lemma stops_regular k n : k ∈ P → keys_ok → regular_node k n → stops (so_regularkey (Hash64 k)) (kbuf k) n = true.
Proof.
  intros Hk [HP _] (_ & Hb & Hs & Hkey & _). unfold stops. rewrite Hkey, Z.eqb_refl, Hb, Hs, memcmp_eq by done.
  by rewrite bool_decide_eq_true_2.
Qed.

Lemma stops_found k n : k ∈ P → keys_ok → node_ok n →
  stops (so_regularkey (Hash64 k)) (kbuf k) n = true → so_key n = so_regularkey (Hash64 k) → regular_node k n.
Proof.
  intros Hk [HP Hsep] [[b Hd]|[k' Hr]] Hst Hkey.
  - apply dummy_key in Hd. rewrite Hkey, regular_odd in Hd. done.
  - assert (k' = k) as <-; [|done]. pose proof Hr as (Hk' & Hb & Hs & Hkey' & _).
    apply Hsep; [done..| |].
    + apply regular_inj; [apply Hash64_range..|congruence].
    + unfold stops in Hst. rewrite Hkey, Z.eqb_refl, Hb, Hs, take_kbuf in Hst.
      rewrite memcmp_eq in Hst.
      * apply bool_decide_eq_true in Hst. exists (drop (length k') (kbuf k)). rewrite Hst at 1. by rewrite take_drop.
      * rewrite length_take, length_kbuf by auto. specialize (HP k' Hk'). lia.
Qed.

(** The value found is the key's, or 0. *)
Lemma search_result s L K p A x l2 k :
  sol_ok s L K → keys_ok → k ∈ P →
  between s L (so_regularkey (Hash64 k)) (kbuf k) p A x l2 →
  p_value p = default 0 (K !! k) ∧
  if p_value p =? 0 then K !! k = None
  else ∃ q n l3, l2 = q :: l3 ∧ nodes s !! q = Some n ∧ regular_node k n ∧ p_next p = so_next n ∧ gptr (p_cur p) = q.
Proof.
  intros HS HK Hk [E Hp Hc Hl Hbef Haft Hval]. pose proof (ok_shape _ _ _ HS) as HL.
  pose proof (ok_content _ _ _ HS) as [Hlk _]. set (key := so_regularkey (Hash64 k)) in *.
  destruct l2 as [|q l3].
  - assert (K !! k = None) as HN.
    { destruct (K !! k) as [v|] eqn:EK; [|done]. apply Hlk in EK as (q & n & Hq & Hn & Hr & _).
      rewrite E in Hq. destruct (Hbef q n Hq Hn) as [_ Hst].
      pose proof (stops_regular k n Hk HK Hr) as Hs. fold key in Hs. congruence. }
    rewrite Hval, HN. done.
  - destruct Hval as (n & Hn & Hst & Hnx & Hv). assert (q ∈ L) as Hq by (rewrite E; set_solver).
    destruct (sh_node _ _ HL q Hq) as (_ & n' & Hn' & Hok). simplify_eq.
    destruct (Z.eqb_spec (so_key n) key) as [Ek|Ek].
    + pose proof (stops_found k n Hk HK Hok Hst Ek) as Hr. assert (K !! k = Some (so_value n)) as -> by (apply Hlk; eauto 6).
      rewrite Hv. split; [done|]. destruct Hr as (?&?&?&?&Hnz). rewrite (proj2 (Z.eqb_neq _ _) Hnz).
      exists q, n, l3. split_and!; try done. by destruct Hl as (_ & ? & _).
    + assert (K !! k = None) as HN; [|by rewrite Hv, HN].
      destruct (K !! k) as [v|] eqn:EK; [|done]. apply Hlk in EK as (y & m & Hy & Hm & Hr & _).
      assert (so_key m = key) as Hmk by (by destruct Hr as (_ & _ & _ & ? & _)).
      assert (y ∈ A ++ [x] ∨ y = q ∨ y ∈ l3) as [Hy'|[->|Hy']] by (clear -Hy; set_solver).
      * destruct (Hbef y m Hy' Hm) as [_ Hs']. pose proof (stops_regular k m Hk HK Hr) as Hs. fold key in Hs. congruence.
      * congruence.
      * apply stops_ge in Hst. assert (kk (nodes s) q ≤ kk (nodes s) y) as Hle.
        { eapply (sorted_split _ (A ++ [x; q]) l3); [|set_solver|done]. rewrite <- app_assoc. cbn [app]. apply (sh_sorted _ _ HL). }
        unfold kk in Hle. rewrite Hn, Hm in Hle. simpl in Hle. lia.
Qed.

(** *** Insertion *)

(** The node [q] linked in after [x]. *)
Definition inserted_nodes (ns : gmap Gptr SoNode) (x q : Gptr) (cur : TagGptr) nx nq : gmap Gptr SoNode :=
  <[x := set_next (TagGptr_marked 0 q (tag_succ cur)) nx]>
    (<[q := set_next (TagGptr_marked 0 (gptr cur) 0) nq]> ns).

Lemma same_inserted ns x q cur nx nq L :
  ns !! x = Some nx → ns !! q = Some nq → x ≠ q → same_but_next ns (inserted_nodes ns x q cur nx nq) L.
Proof.
  intros Hx Hq Hne. unfold inserted_nodes. eapply same_but_next_trans; [by apply same_but_next_insert|].
  apply same_but_next_insert. by rewrite lookup_insert_ne.
Qed.

Lemma sol_insert s L K K' byte_key p A x l2 q nq :
  sol_ok s L K → between s L (so_key nq) byte_key p A x l2 →
  nodes s !! q = Some nq → q ∉ L → aligned q → q ≠ 0 → node_ok nq →
  content (nodes s) ((A ++ [x]) ++ q :: l2) K' →
  ∃ nx, nodes s !! x = Some nx ∧
    sol_ok (with_nodes (inserted_nodes (nodes s) x q (p_cur p) nx nq) s) ((A ++ [x]) ++ q :: l2) K'.
Proof.
  intros HS [E Hp Hc Hl Hbef Haft Hval] Hq HqL Ha H0 Hok HC. pose proof (ok_shape _ _ _ HS) as HL.
  assert (x ∈ L) as Hx by (rewrite E; set_solver). destruct (sh_node _ _ HL x Hx) as (_ & nx & Hnx & _).
  exists nx. split; [done|]. assert (x ≠ q) as Hxq by (by intros ->).
  assert (shape (nodes s) ((A ++ [x]) ++ q :: l2)) as HL'.
  { assert (A ++ x :: l2 = (A ++ [x]) ++ l2) as EA by (by rewrite <- app_assoc). rewrite E, EA in HL.
    eapply (shape_add (nodes s) (A ++ [x]) q nq l2); try done.
    - by rewrite <- EA, <- E.
    - intros y Hy. destruct (sh_node _ _ HL y) as (_ & ny & Hny & _); [set_solver|].
      unfold kk. rewrite Hny. by destruct (Hbef y ny Hy Hny). }
  pose proof (same_inserted (nodes s) x q (p_cur p) nx nq ((A ++ [x]) ++ q :: l2) Hnx Hq Hxq) as Hsame.
  pose proof (linked_clean _ _ _ Hl) as Hcc.
  split; cbn [with_nodes nodes table size so_heap].
  - destruct (ok_head _ _ _ HS) as (t0 & Ht0 & Hl0). exists t0. split; [done|]. rewrite <- app_assoc. cbn [app].
    unfold inserted_nodes. rewrite !marked0 by (done || by apply clean_aligned). rewrite E in *.
    apply linked_insert; try done; [apply HL|by apply mk_clean..|]. simpl.
    destruct (mk_clean (gptr (p_cur p)) 0) as [Hc1 Hg1]; [by apply clean_aligned|].
    destruct l2 as [|y l2]; destruct Hl as (_ & Hl); split; try done; [by rewrite Hg1|by rewrite Hg1].
  - by eapply shape_same.
  - by eapply content_same.
  - intros b t Hbt. destruct (ok_table _ _ _ HS b t Hbt) as (? & ? & Hin & Hk). do 2 (split; [done|]).
    assert (gptr t ∈ (A ++ [x]) ++ q :: l2) as Hin' by (rewrite E in Hin; set_solver).
    split; [done|]. by rewrite (same_kk _ _ _ _ HL' Hsame Hin').
  - apply (ok_size _ _ _ HS).
  - unfold inserted_nodes. rewrite !dom_insert_L. pose proof (ok_live _ _ _ HS).
    assert (x ∈ dom (nodes s) ∧ q ∈ dom (nodes s)) as [? ?] by (split; by apply elem_of_dom).
    set_solver.
Qed.

Lemma ListInsert_ok fuel s L K b t q nq :
  sol_ok s L K → table s !! b = Some t → so_dummykey b < so_key nq → (length L < fuel)%nat →
  nodes s !! q = Some nq → q ∉ L → aligned q →
  ∃ p A x l2, between s L (so_key nq) (byte_key_ nq) p A x l2 ∧
    ∀ nx, nodes s !! x = Some nx →
    ListInsert fuel (TableSlot b) (TagGptr_marked 0 q 0) s =
      if p_value p =? 0
      then Ok (true, p_cur p) (with_nodes (inserted_nodes (nodes s) x q (p_cur p) nx nq) s)
      else Ok (false, p_cur p) s.
Proof.
  intros HS Ht Hk Hf Hq HqL Ha.
  destruct (find_bucket fuel s L K b t (byte_key_ nq) (so_key nq) HS Ht Hk Hf) as (p & A & x & l2 & E & HB).
  exists p, A, x, l2. split; [done|]. intros nx Hnx. destruct fuel as [|fuel]; [lia|]. cbn [ListInsert].
  rewrite marked0 by done. destruct (mk_clean q 0 Ha) as [_ ->].
  rewrite (bind_ok _ _ _ _ _ (load_so_ok _ _ _ Hq)), (bind_ok _ _ _ _ _ E).
  destruct (p_value p =? 0); [|done]. cbn [negb]. destruct HB as [EL Hp Hc Hl _ _ _].
  assert (x ≠ q) as Hxq by (intros ->; apply HqL; rewrite EL; set_solver).
  rewrite (bind_ok _ _ _ _ _ (store_so_ok _ _ _ _ Hq)).
  pose proof (linked_clean _ _ _ Hl) as Hcc. rewrite Hp, (unmarked_clean _ Hcc).
  match goal with |- context [with_nodes ?ns s] =>
    assert (loc_val (with_nodes ns s) (NextOf x) = Some (p_cur p)) as Hv by (simpl; by rewrite lookup_insert_ne)
  end.
  rewrite (bind_ok _ _ _ _ _ (cas_loc_ok _ _ _ _ Hv)).
  rewrite TagGptr_eqb_refl. unfold set_loc, inserted_nodes. cbn [with_nodes nodes table so_heap size count].
  rewrite lookup_insert_ne, Hnx by done. rewrite (marked0 q) by done. done.
Qed.

(** *** Buckets *)

(** Only dummy nodes have been added to the list. *)
Record extends (s : sol) (L : list Gptr) (K : gmap bytes Z) (d : nat) (s' : sol) (L' : list Gptr) : Prop := {
  ex_ok : sol_ok s' L' K;
  ex_size : size s' = size s;
  ex_count : count s' = count s;
  ex_length : (length L' ≤ length L + d)%nat;
  ex_outside q n : nodes s !! q = Some n → q ∉ L → nodes s' !! q = Some n ∧ q ∉ L'
}.

Lemma extends_refl s L K : sol_ok s L K → extends s L K 0 s L.
Proof. intros. split; try done. lia. Qed.

Lemma extends_trans s1 L1 K d1 s2 L2 d2 s3 L3 :
  extends s1 L1 K d1 s2 L2 → extends s2 L2 K d2 s3 L3 → extends s1 L1 K (d1 + d2) s3 L3.
Proof.
  intros [? ? ? ? H1] [? ? ? ? H2]. split; [done|congruence|congruence|lia|].
  intros q n Hq HqL. destruct (H1 q n Hq HqL) as [Hq' HqL']. by apply H2.
Qed.

(** A search for a dummy's key finds no value. *)
Lemma dummy_search s L K b byte_key p A x l2 :
  sol_ok s L K → 0 ≤ b < hard_max_buckets → between s L (so_dummykey b) byte_key p A x l2 → p_value p = 0.
Proof.
  intros HS Hb [E _ _ _ _ _ Hv]. destruct l2 as [|q l2]; [done|]. destruct Hv as (n & Hn & _ & _ & ->).
  destruct (Z.eqb_spec (so_key n) (so_dummykey b)) as [Ek|]; [|done].
  destruct (sh_node _ _ (ok_shape _ _ _ HS) q) as (_ & m & Hm & Hok); [rewrite E; set_solver|]. simplify_eq.
  destruct Hok as [(b' & _ & _ & _ & ?)|[k Hr]]; [done|]. apply regular_key in Hr. rewrite Ek, dummy_even in Hr; [done|].
  unfold hard_max_buckets in Hb. lia.
Qed.

(** The last steps of [InitializeBucket]: a dummy node below the parent's. *)
Definition make_dummy (fuel : nat) (parent bucket : Z) : M unit :=
  dummy ← alloc_so;
  store_so dummy (λ n, mkSo (byte_key_ n) 0 (so_dummykey bucket) 0 TagGptr_null);;
  '(ok, cur) ← ListInsert fuel (TableSlot parent) (TagGptr_marked 0 dummy 0);
  d ← (if ok : bool then mret (TagGptr_marked 0 dummy 0) else free_so dummy;; mret cur);
  store_loc (TableSlot bucket) (unmarked d).

Lemma set_table_ok s L K b t :
  sol_ok s L K → 0 < b < hard_max_buckets → clean t → gptr t ∈ L → kk (nodes s) (gptr t) = so_dummykey b →
  sol_ok (with_so_table (<[b := t]> (table s)) s) L K.
Proof.
  intros [Hh Hs Hc Ht Hz Hl] Hb Hct Hin Hk. split; cbn [with_so_table nodes table size so_heap]; try done.
  - destruct Hh as (t0 & ? & ?). exists t0. rewrite lookup_insert_ne by lia. done.
  - intros b' t'. destruct (decide (b' = b)) as [->|Hne]; [|rewrite lookup_insert_ne by done; apply Ht].
    rewrite lookup_insert_eq. intros [= <-]. do 3 (split; [done || lia|]). done.
Qed.

Lemma make_dummy_wp fuel s L K parent b t :
  sol_ok s L K → table s !! parent = Some t → so_dummykey parent < so_dummykey b →
  0 < b < hard_max_buckets → (length L < fuel)%nat →
  so_wp (make_dummy fuel parent b) s (λ _ s', ∃ L' t', extends s L K 1 s' L' ∧ table s' !! b = Some t').
Proof.
  intros HS Ht Hlt Hb Hf. unfold make_dummy. apply so_wp_bind.
  eapply so_wp_mono; [apply alloc_so_wp, (ok_live _ _ _ HS)|]. intros q s1 (Hq & Ha & H0 & h & -> & Hd).
  pose proof (shape_dom _ _ _ (ok_shape _ _ _ HS) Hq) as HqL.
  set (nq := mkSo (byte_key_ zero_so) 0 (so_dummykey b) 0 TagGptr_null).
  apply so_wp_bind. eapply so_wp_ok; [apply store_so_ok; simpl; apply lookup_insert_eq|].
  cbn [with_nodes with_so_heap nodes so_heap table size count]. rewrite insert_insert_eq. fold nq.
  set (s2 := with_nodes _ _).
  assert (sol_ok s2 L K) as HS2.
  { apply sol_ok_outside; [done..|]. by rewrite dom_insert_L in *. }
  destruct (ListInsert_ok fuel s2 L K parent t q nq) as (p & A & x & l2 & HB & HI); [done..|apply lookup_insert_eq|done|done|].
  assert (p_value p = 0) as Hp0 by (eapply (dummy_search s2 L K b); [done|lia|done]).
  destruct (sol_insert s2 L K K (byte_key_ nq) p A x l2 q nq) as (nx & Hnx & HS3); try done; [apply lookup_insert_eq|..].
  { left. exists b. split; [lia|done]. }
  { pose proof HB as [E _ _ _ _ _ _]. eapply (content_add_dummy _ _ _ _ _ _ b); [|apply lookup_insert_eq|split; [lia|done]].
    rewrite <- app_assoc. cbn [app]. rewrite <- E. apply HS2. }
  apply so_wp_bind. eapply so_wp_ok; [rewrite (HI nx Hnx), Hp0; reflexivity|]. cbv beta iota.
  apply so_wp_bind, so_wp_ret. rewrite marked0, unmarked_clean by (done || by apply mk_clean).
  eapply so_wp_ok; [reflexivity|]. destruct (mk_clean q 0 Ha) as [Hc Hg].
  set (L' := (A ++ [x]) ++ q :: l2) in *. exists L', (mkTagGptr q 0).
  assert (q ∈ L') as Hin by (unfold L'; set_solver).
  assert (x ≠ q) as Hxq by (pose proof HB as [E _ _ _ _ _ _]; intros ->; apply HqL; rewrite E; set_solver).
  split; [|simpl; apply lookup_insert_eq]. split; try done.
  - apply set_table_ok; try done; rewrite Hg; [done|].
    unfold kk, inserted_nodes. simpl. rewrite lookup_insert_ne, lookup_insert_eq by done. done.
  - pose proof HB as [E _ _ _ _ _ _]. rewrite E. unfold L'. rewrite !length_app. simpl. lia.
  - intros y n Hy HyL. assert (y ≠ q ∧ y ≠ x) as [Hyq Hyx].
    { pose proof HB as [E _ _ _ _ _ _]. split; [congruence|]. intros ->. apply HyL. rewrite E. set_solver. }
    split.
    + unfold inserted_nodes. cbn [with_so_table with_nodes nodes]. rewrite !lookup_insert_ne by done. unfold s2. simpl. by rewrite lookup_insert_ne.
    + pose proof HB as [E _ _ _ _ _ _]. unfold L'. rewrite E in HyL. set_solver.
Qed.

Lemma InitializeBucket_unfold d fuel b s :
  InitializeBucket (S d) fuel b s =
  (tmp ← load_loc (TableSlot (get_parent b));
   (if TagGptr_eqb tmp TagGptr_null then InitializeBucket d fuel (get_parent b) else mret tt);;
   make_dummy fuel (get_parent b) b) s.
Proof. reflexivity. Qed.

Lemma parent_depth b (d : nat) : 0 < b < 2 ^ Z.of_nat (S d) → (d < 63)%nat → 0 ≤ get_parent b < 2 ^ Z.of_nat d.
Proof.
  intros Hb Hd. assert (2 ^ Z.of_nat (S d) ≤ 2 ^ 63) by (apply Z.pow_le_mono_r; lia).
  assert (Z.log2 b < Z.of_nat (S d)) by (apply Z.log2_lt_pow2; lia).
  assert (0 ≤ get_parent b) by (apply parent_range; lia). split; [done|].
  destruct (Z.eq_dec (get_parent b) 0) as [->|Hp0]; [apply Z.pow_pos_nonneg; lia|].
  apply Z.log2_lt_pow2; [lia|]. pose proof (Z.bit_log2 (get_parent b) ltac:(lia)) as Hbit.
  rewrite get_parent_spec in Hbit by (try apply Z.log2_nonneg; lia). lia.
Qed.

Lemma parent_before b : 0 < b < 2 ^ 63 → so_dummykey (get_parent b) < so_dummykey b.
Proof.
  intros Hb. pose proof (parent_range b Hb) as Hp.
  assert (so_dummykey (get_parent b) ≤ so_dummykey b).
  { apply subset_reverse; [lia..|]. intros i Hi. rewrite get_parent_spec by done. by intros [? _]%andb_true_iff. }
  assert (so_dummykey (get_parent b) ≠ so_dummykey b); [|lia].
  unfold so_dummykey. intros E%REVERSE_inj; unfold two64; lia.
Qed.

(** The bucket is ready, and at most [d] dummy nodes have been added. *)
Definition bucket_ready (s : sol) L K (b : Z) (d : nat) (s' : sol) : Prop :=
  ∃ L' t, extends s L K d s' L' ∧ table s' !! b = Some t.

Lemma InitializeBucket_wp depth fuel s L K b :
  sol_ok s L K → 0 < b < hard_max_buckets → b < 2 ^ Z.of_nat depth → (depth ≤ 63)%nat →
  (length L + depth ≤ fuel)%nat →
  so_wp (InitializeBucket depth fuel b) s (λ _ s', bucket_ready s L K b depth s').
Proof.
  revert s L b. induction depth as [|d IH]; intros s L b HS Hb Hd H63 Hf; [simpl in Hd; lia|].
  assert (hard_max_buckets < 2 ^ 63) by done.
  pose proof (parent_depth b d ltac:(lia) ltac:(lia)) as Hpd. pose proof (parent_range b ltac:(lia)) as Hpr.
  unfold so_wp. rewrite InitializeBucket_unfold. fold (so_wp (A := unit)).
  change (so_wp (tmp ← load_loc (TableSlot (get_parent b));
   (if TagGptr_eqb tmp TagGptr_null then InitializeBucket d fuel (get_parent b) else mret tt);;
   make_dummy fuel (get_parent b) b) s (λ _ s', bucket_ready s L K b (S d) s')).
  apply so_wp_bind. eapply so_wp_ok; [reflexivity|]. apply so_wp_bind.
  apply (so_wp_mono _ _ (λ _ s', bucket_ready s L K (get_parent b) d s')).
  - destruct (table s !! get_parent b) as [t|] eqn:Et; cbn [default from_option id].
    + rewrite nonnull_eqb by (by eapply entry_nonnull). apply so_wp_ret. exists L, t. split; [|done].
      destruct (extends_refl s L K HS). split; try done. lia.
    + change (TagGptr_eqb TagGptr_null TagGptr_null) with true. cbv iota.
      assert (get_parent b ≠ 0).
      { intros E0. rewrite E0 in Et. destruct (ok_head _ _ _ HS) as (t & Ht & _). congruence. }
      apply IH; [done|lia|lia|lia|lia].
  - intros [] s1 (L1 & t1 & HE & Ht1). destruct HE as [HS1 E1 E2 E3 E4] eqn:HE'.
    eapply so_wp_mono; [apply (make_dummy_wp fuel s1 L1 K (get_parent b) b t1); try done;
      [apply parent_before; lia|lia]|].
    intros [] s2 (L2 & t2 & HE2 & Ht2). exists L2, t2. split; [|done].
    replace (S d) with (d + 1)%nat by lia. by eapply extends_trans.
Qed.

Lemma load_bucket_wp depth fuel s L K b :
  sol_ok s L K → 0 ≤ b < hard_max_buckets → (21 ≤ depth ≤ 63)%nat → (length L + depth ≤ fuel)%nat →
  so_wp (load_bucket depth fuel b) s (λ _ s', bucket_ready s L K b depth s').
Proof.
  intros HS Hb Hd Hf. unfold load_bucket. apply so_wp_bind. eapply so_wp_ok; [reflexivity|].
  destruct (table s !! b) as [t|] eqn:Et; cbn [default from_option id].
  - rewrite nonnull_eqb by (by eapply entry_nonnull). apply so_wp_ret. exists L, t. split; [|done].
    destruct (extends_refl s L K HS). split; try done. lia.
  - change (TagGptr_eqb TagGptr_null TagGptr_null) with true. cbv iota.
    assert (b ≠ 0).
    { intros ->. destruct (ok_head _ _ _ HS) as (t & Ht & _). congruence. }
    apply InitializeBucket_wp; [done|lia| |lia|lia].
    assert (2 ^ 21 ≤ 2 ^ Z.of_nat depth) by (apply Z.pow_le_mono_r; lia). unfold hard_max_buckets in Hb. lia.
Qed.

Lemma bucket_range s L K k : sol_ok s L K → 0 ≤ Hash64 k mod size s < hard_max_buckets.
Proof.
  intros HS. destruct (ok_size _ _ _ HS) as (j & Hj & ->).
  pose proof (Z.mod_pos_bound (Hash64 k) (2 ^ j) ltac:(apply Z.pow_pos_nonneg; lia)).
  assert (2 ^ j ≤ 2 ^ 20) by (apply Z.pow_le_mono_r; lia). unfold hard_max_buckets. lia.
Qed.

Lemma bucket_key s L K k :
  sol_ok s L K → so_dummykey (Hash64 k mod size s) < so_regularkey (Hash64 k).
Proof.
  intros HS. destruct (ok_size _ _ _ HS) as (j & Hj & ->). apply bucket_before; [apply Hash64_range|lia].
Qed.

(** ** The operations *)

Context (HK : keys_ok).

(** The result of looking for the key and adding a node if it is not there. *)
Definition insert_post (depth : nat) (s : sol) (L : list Gptr) (K : gmap bytes Z) (k : bytes) (v : Z) (r : bool * TagGptr * Gptr) s' : Prop :=
  let '(ok, cur, q) := r in
  size s' = size s ∧ count s' = count s ∧ aligned q ∧ q ≠ 0 ∧
  ∃ L', (length L' ≤ length L + depth + 1)%nat ∧
    if ok : bool then K !! k = None ∧ sol_ok s' L' (<[k := v]> K)
    else sol_ok s' L' K ∧ gptr cur ∈ L' ∧
      ∃ n, nodes s' !! gptr cur = Some n ∧ regular_node k n ∧ K !! k = Some (so_value n).

Lemma Hash64_msb k : (Z.land (Hash64 k) MSB =? 0) = true.
Proof.
  apply Z.eqb_eq, Z.bits_inj'. intros i Hi. rewrite Z.land_spec, MSB_spec, Z.bits_0 by done.
  destruct (Z.eqb_spec i 63) as [->|]; [|apply andb_false_r].
  rewrite (testbit_above _ 63); [done|apply Hash64_range|lia].
Qed.

Lemma init_regular k v : k ∈ P → v ≠ 0 →
  regular_node k (init_so (kbuf k) (length k) (so_regularkey (Hash64 k)) v zero_so).
Proof.
  intros Hk Hv. destruct HK as [HP _]. specialize (HP k Hk). split_and!; try done.
  cbn [init_so byte_key_]. rewrite take_kbuf. unfold kbuf. f_equal.
  change (byte_key_ zero_so) with (replicate BYTE_KEY 0). by rewrite drop_replicate.
Qed.

Lemma insert_node_wp depth fuel s L K k v :
  sol_ok s L K → k ∈ P → v ≠ 0 → (21 ≤ depth ≤ 63)%nat → (length L + depth + 1 ≤ fuel)%nat →
  so_wp (insert_node CityHash64 depth fuel (kbuf k) (length k) v) s (insert_post depth s L K k v).
Proof using HK LN.
  intros HS Hk Hv Hd Hf. unfold insert_node. apply so_wp_bind.
  eapply so_wp_mono; [apply alloc_so_wp, (ok_live _ _ _ HS)|]. intros q s1 (Hq & Ha & H0 & h & -> & Hdom).
  rewrite take_kbuf. pose proof (shape_dom _ _ _ (ok_shape _ _ _ HS) Hq) as HqL.
  apply so_wp_bind. eapply so_wp_ok; [reflexivity|]. apply so_wp_bind.
  eapply so_wp_ok; [unfold so_assert; rewrite Hash64_msb; reflexivity|].
  apply so_wp_bind. eapply so_wp_ok; [apply store_so_ok; simpl; apply lookup_insert_eq|].
  cbn [with_nodes with_so_heap nodes so_heap table size count]. rewrite insert_insert_eq.
  set (nq := init_so _ _ _ _ _). pose proof (init_regular k v Hk Hv) as Hreg. fold nq in Hreg.
  set (s2 := with_nodes _ _).
  assert (sol_ok s2 L K) as HS2 by (apply sol_ok_outside; [done..|by rewrite dom_insert_L in *]).
  apply so_wp_bind. change (size s) with (size s2).
  eapply so_wp_mono; [apply (load_bucket_wp depth fuel s2 L K); [done|by eapply bucket_range|done|lia]|].
  intros [] s3 (L3 & t3 & [HS3 E1 E2 E3 E4] & Ht3).
  destruct (E4 q nq) as [Hq3 HqL3]; [apply lookup_insert_eq|done|].
  destruct (ListInsert_ok fuel s3 L3 K (Hash64 k mod size s2) t3 q nq) as (p & A & x & l2 & HB & HI);
    [done|done|rewrite <- E1; by eapply bucket_key|lia|done..|].
  assert (so_key nq = so_regularkey (Hash64 k) ∧ byte_key_ nq = kbuf k) as [Ekey Ebuf].
  { split; [done|]. by destruct Hreg as (_ & ? & _). }
  rewrite Ekey, Ebuf in HB. destruct (search_result s3 L3 K p A x l2 k HS3 HK Hk HB) as [Hval Hcase].
  pose proof HB as [EL _ _ _ _ _ _].
  destruct (sh_node _ _ (ok_shape _ _ _ HS3) x) as (_ & nx & Hnx & _); [rewrite EL; set_solver|].
  specialize (HI nx Hnx). apply so_wp_bind. destruct (p_value p =? 0).
  - destruct (sol_insert s3 L3 K (<[k := v]> K) (byte_key_ nq) p A x l2 q nq) as (nx' & Hnx' & HS4); try done.
    { by rewrite Ekey, Ebuf. }
    { right. by exists k. }
    { eapply (content_add _ (A ++ [x]) q nq l2 K k); try done; rewrite <- app_assoc; cbn [app]; rewrite <- EL;
        [apply HS3|done]. }
    assert (nx' = nx) as -> by congruence. eapply so_wp_ok; [exact HI|]. apply so_wp_ret. do 4 (split; [done|]).
    eexists. split; [|split; [done|exact HS4]]. rewrite EL in E3. rewrite !length_app in *. simpl in *. lia.
  - destruct Hcase as (y & n & l3 & -> & Hy & Hr & _ & Hg). eapply so_wp_ok; [exact HI|]. apply so_wp_ret.
    do 4 (split; [done|]). exists L3. split; [lia|]. split; [done|]. rewrite Hg. split; [rewrite EL; set_solver|].
    exists n. split_and!; try done. apply (ok_content _ _ _ HS3). exists y, n. split_and!; try done. rewrite EL. set_solver.
Qed.

(** The state represents [K], and the list has grown by at most [d] nodes. *)
Definition represents (s : sol) (K : gmap bytes Z) (len : nat) : Prop :=
  (∃ L, sol_ok s L K ∧ (length L ≤ len)%nat) ∧ count s = u64 (Z.of_nat (base.size K)).

Lemma u64_succ n : u64 (u64 n + 1) = u64 (n + 1).
Proof. unfold u64. by rewrite Zplus_mod_idemp_l. Qed.

Lemma u64_pred n : u64 (u64 n - 1) = u64 (n - 1).
Proof. unfold u64. by rewrite Zminus_mod_idemp_l. Qed.

Lemma sol_ok_counters s L K c z :
  sol_ok s L K → (∃ j, 1 ≤ j ≤ 20 ∧ z = 2 ^ j) → sol_ok (with_count c (with_size z s)) L K.
Proof. intros [H1 H2 H3 H4 _ H6] Hz. split; done. Qed.

Lemma count_node_wp s L K n :
  sol_ok s L K → count s = u64 n →
  so_wp count_node s (λ _ s', sol_ok s' L K ∧ count s' = u64 (n + 1)).
Proof.
  intros HS Hc. destruct (ok_size _ _ _ HS) as (j & Hj & Hz). unfold count_node.
  apply so_wp_bind. eapply so_wp_ok; [reflexivity|]. apply so_wp_bind. eapply so_wp_ok; [reflexivity|].
  rewrite Hc, u64_succ.
  assert (∀ z, (∃ j, 1 ≤ j ≤ 20 ∧ z = 2 ^ j) → sol_ok (with_size z (with_count (u64 (n + 1)) s)) L K) as Hok.
  { intros z Hz'. by apply (sol_ok_counters s L K (u64 (n + 1)) z). }
  destruct (over_load (u64 n) (size s)); cbn [andb].
  - destruct (Z.leb_spec (2 * size s) hard_max_buckets) as [Hle|].
    + apply so_wp_bind. eapply so_wp_ok; [reflexivity|]. eapply so_wp_ok; [reflexivity|]. split; [|done].
      apply Hok. cbn [with_count size]. rewrite Z.eqb_refl. exists (j + 1). rewrite Z.pow_add_r, <- Hz by lia.
      split; [|lia]. split; [lia|]. destruct (Z.le_gt_cases (j + 1) 20); [done|]. replace j with 20 in Hz by lia.
      unfold hard_max_buckets in Hle. lia.
    + apply so_wp_ret. split; [|done]. specialize (Hok (size s)). destruct s. apply Hok. eauto.
  - apply so_wp_ret. split; [|done]. specialize (Hok (size s)). destruct s. apply Hok. eauto.
Qed.

Lemma free_so_ok s L K q : sol_ok s L K → sol_ok (with_so_heap (heap_FreeOp (so_heap s) q) s) L K.
Proof. intros [H1 H2 H3 H4 H5 H6]. split; try done. cbn [with_so_heap nodes so_heap]. by rewrite free_op_live. Qed.

(** *** A uniform interface to the operations *)

Inductive so_op :=
  | SInsert (k : bytes) (v : Z)
  | SFindOrInsert (k : bytes) (v : Z)
  | SInsertOrUpdate (k : bytes) (v : Z)
  | SFind (k : bytes)
  | SDelete (k : bytes).

Definition so_op_ok (o : so_op) : Prop :=
  match o with
  | SInsert k v | SFindOrInsert k v | SInsertOrUpdate k v => k ∈ P ∧ v ≠ 0
  | SFind k | SDelete k => k ∈ P
  end.

(** Whether a node was added, found or deleted, and the value that came back. *)
Definition run_so_op (depth fuel : nat) (o : so_op) : M (bool * Z) :=
  match o with
  | SInsert k v => ok ← Insert CityHash64 depth fuel (kbuf k) (length k) v; mret (ok, 0)
  | SFindOrInsert k v => FindOrInsert CityHash64 depth fuel (kbuf k) (length k) v
  | SInsertOrUpdate k v => old ← InsertOrUpdate CityHash64 depth fuel (kbuf k) (length k) v; mret (old =? 0, 0)
  | SFind k => v ← Find CityHash64 depth fuel (kbuf k) (length k); mret (negb (v =? 0), v)
  | SDelete k => r ← Delete CityHash64 depth fuel (kbuf k) (length k); mret (r.1, 0)
  end.

Definition spec_so_op (K : gmap bytes Z) (o : so_op) : (bool * Z) * gmap bytes Z :=
  match o with
  | SInsert k v => match K !! k with None => ((true, 0), <[k := v]> K) | Some _ => ((false, 0), K) end
  | SFindOrInsert k v => match K !! k with None => ((true, v), <[k := v]> K) | Some x => ((false, x), K) end
  | SInsertOrUpdate k v => ((bool_decide (K !! k = None), 0), <[k := v]> K)
  | SFind k => ((bool_decide (is_Some (K !! k)), default 0 (K !! k)), K)
  | SDelete k => ((bool_decide (is_Some (K !! k)), 0), delete k K)
  end.

Definition op_post (K : gmap bytes Z) (len : nat) (o : so_op) (r : bool * Z) (s' : sol) : Prop :=
  r = (spec_so_op K o).1 ∧ represents s' (spec_so_op K o).2 len.

Section Op.
Context (depth fuel : nat) (Hd : (21 ≤ depth ≤ 63)%nat).
Context (s : sol) (K : gmap bytes Z) (len : nat) (HR : represents s K len).
Context (Hf : (len + depth + 1 ≤ fuel)%nat).

(** After a node has been added. *)
Lemma added_wp {A} s1 L1 k v (r : A) :
  K !! k = None → sol_ok s1 L1 (<[k := v]> K) → count s1 = count s → (length L1 ≤ len + depth + 1)%nat →
  so_wp (count_node;; mret r) s1 (λ r' s', r' = r ∧ represents s' (<[k := v]> K) (len + depth + 1)).
Proof using HR Hd Hf.
  intros Hk HS Hc Hl. apply so_wp_bind. destruct HR as [_ HC].
  eapply so_wp_mono; [apply (count_node_wp s1 L1 _ (Z.of_nat (base.size K)) HS); congruence|].
  intros [] s2 [HS2 Hc2]. apply so_wp_ret. split; [done|]. split; [eauto|]. rewrite Hc2, map_size_insert_None by done.
  f_equal. lia.
Qed.

Lemma insert_node_rep k v : k ∈ P → v ≠ 0 →
  so_wp (insert_node CityHash64 depth fuel (kbuf k) (length k) v) s (λ '(ok, cur, q) s',
    count s' = count s ∧ aligned q ∧ q ≠ 0 ∧
    ∃ L', (length L' ≤ len + depth + 1)%nat ∧
      if ok : bool then K !! k = None ∧ sol_ok s' L' (<[k := v]> K)
      else sol_ok s' L' K ∧ gptr cur ∈ L' ∧
        ∃ n, nodes s' !! gptr cur = Some n ∧ regular_node k n ∧ K !! k = Some (so_value n)).
Proof using HK LN HR Hd Hf.
  intros Hk Hv. destruct HR as [(L & HS & Hl) _].
  eapply so_wp_mono; [apply (insert_node_wp depth fuel s L K k v HS Hk Hv Hd); lia|].
  intros [[ok cur] q] s' (_ & ? & ? & ? & L' & HL' & Hc). do 3 (split; [done|]). exists L'. split; [lia|done].
Qed.

Lemma represents_found s' L' K' : sol_ok s' L' K' → base.size K' = base.size K → count s' = count s →
  (length L' ≤ len + depth + 1)%nat → represents s' K' (len + depth + 1).
Proof using HR. intros HS Hsz Hc Hl. split; [eauto|]. rewrite Hc, Hsz. apply HR. Qed.

Lemma SInsert_wp k v : k ∈ P → v ≠ 0 →
  so_wp (run_so_op depth fuel (SInsert k v)) s (op_post K (len + depth + 1) (SInsert k v)).
Proof using HK LN HR Hd Hf.
  intros Hk Hv. unfold run_so_op, Insert. apply so_wp_bind, so_wp_bind.
  eapply so_wp_mono; [by apply insert_node_rep|]. intros [[ok cur] q] s' (Hc & _ & _ & L' & HL' & H).
  unfold op_post, spec_so_op. destruct ok; cbn [negb].
  - destruct H as [HN HS]. rewrite HN. eapply so_wp_mono; [by eapply (added_wp s' L' k v true)|].
    intros r s2 [-> ?]. by apply so_wp_ret.
  - destruct H as (HS & _ & n & _ & _ & ->). apply so_wp_bind. eapply so_wp_ok; [reflexivity|].
    do 2 apply so_wp_ret. split; [done|]. by eapply represents_found; [apply free_so_ok| | |].
Qed.

Lemma SFindOrInsert_wp k v : k ∈ P → v ≠ 0 →
  so_wp (run_so_op depth fuel (SFindOrInsert k v)) s (op_post K (len + depth + 1) (SFindOrInsert k v)).
Proof using HK LN HR Hd Hf.
  intros Hk Hv. unfold run_so_op, FindOrInsert. apply so_wp_bind.
  eapply so_wp_mono; [by apply insert_node_rep|]. intros [[ok cur] q] s' (Hc & _ & _ & L' & HL' & H).
  unfold op_post, spec_so_op. destruct ok; cbn [negb].
  - destruct H as [HN HS]. rewrite HN. by eapply (added_wp s' L' k v (true, v)).
  - destruct H as (HS & _ & n & Hn & _ & ->). apply so_wp_bind. eapply so_wp_ok; [by apply load_so_ok|].
    apply so_wp_bind. eapply so_wp_ok; [reflexivity|].
    apply so_wp_ret. split; [done|]. by eapply represents_found; [apply free_so_ok| | |].
Qed.

(** The value of a node in the list changes. *)
Lemma sol_update s1 L K1 q n k v :
  sol_ok s1 L K1 → q ∈ L → nodes s1 !! q = Some n → regular_node k n → v ≠ 0 →
  sol_ok (with_nodes (<[q := set_so_value v n]> (nodes s1)) s1) L (<[k := v]> K1).
Proof.
  intros [(t & Ht & Hl) HL HC HT HZ Hd'] Hq Hn Hr Hv.
  assert (∀ x, kk (<[q := set_so_value v n]> (nodes s1)) x = kk (nodes s1) x) as Hkk.
  { intros x. unfold kk. destruct (decide (x = q)) as [->|]; [by rewrite lookup_insert_eq, Hn|by rewrite lookup_insert_ne]. }
  split; cbn [with_nodes nodes table size so_heap]; try done.
  - exists t. split; [done|]. by eapply linked_update.
  - destruct HL as [H1 H2 H3]. split; [done|eapply sorted_kk; eauto|]. intros x Hx. destruct (H3 x Hx) as (Ha & m & Hm & Hok).
    split; [done|]. destruct (decide (x = q)) as [->|Hne]; [|rewrite lookup_insert_ne by done; eauto].
    rewrite lookup_insert_eq. eexists. split; [done|]. right. exists k. destruct Hr as (? & ? & ? & ? & ?). split_and!; done.
  - by apply content_update.
  - intros b t' Hb. rewrite Hkk. by apply HT.
  - rewrite dom_insert_L. assert (q ∈ dom (nodes s1)) by (by apply elem_of_dom). set_solver.
Qed.

Lemma SInsertOrUpdate_wp k v : k ∈ P → v ≠ 0 →
  so_wp (run_so_op depth fuel (SInsertOrUpdate k v)) s (op_post K (len + depth + 1) (SInsertOrUpdate k v)).
Proof using HK LN HR Hd Hf.
  intros Hk Hv. unfold run_so_op, InsertOrUpdate. apply so_wp_bind, so_wp_bind.
  eapply so_wp_mono; [by apply insert_node_rep|]. intros [[ok cur] q] s' (Hc & Ha & H0 & L' & HL' & H).
  unfold op_post, spec_so_op. destruct ok; cbn [negb].
  - destruct H as [HN HS]. rewrite HN. eapply so_wp_mono; [by eapply (added_wp s' L' k v 0)|].
    intros r s2 [-> ?]. by apply so_wp_ret.
  - destruct H as (HS & Hin & n & Hn & Hr & HKk). apply so_wp_bind. eapply so_wp_ok; [by apply store_so_ok|].
    do 2 apply so_wp_ret. rewrite marked0 by done. rewrite (proj2 (mk_clean q 0 Ha)), (proj2 (Z.eqb_neq _ _) H0).
    split; [cbn [fst]; by rewrite bool_decide_eq_false_2 by congruence|]. cbn [snd].
    eapply represents_found; [by apply sol_update| |done|done]. by apply map_size_insert_Some.
Qed.

(** Looking for a key in its bucket. *)
Lemma bucket_search k : k ∈ P →
  so_wp (load_bucket depth fuel (Hash64 k mod size s)) s (λ _ s1, ∃ L1 p A x l2,
    sol_ok s1 L1 K ∧ count s1 = count s ∧ (length L1 ≤ len + depth)%nat ∧
    ListFind fuel (TableSlot (Hash64 k mod size s)) (kbuf k) (so_regularkey (Hash64 k)) s1 = Ok p s1 ∧
    between s1 L1 (so_regularkey (Hash64 k)) (kbuf k) p A x l2).
Proof using HR Hd Hf LN.
  intros Hk. destruct HR as [(L & HS & Hl) _].
  eapply so_wp_mono; [apply (load_bucket_wp depth fuel s L K); [done|by eapply bucket_range|done|lia]|].
  intros [] s1 (L1 & t & [HS1 E1 E2 E3 _] & Ht).
  destruct (find_bucket fuel s1 L1 K (Hash64 k mod size s) t (kbuf k) (so_regularkey (Hash64 k))) as (p & A & x & l2 & E & HB);
    [done|done|rewrite <- E1; by eapply bucket_key|lia|].
  exists L1, p, A, x, l2. do 2 (split; [done|]). split; [lia|done].
Qed.

Lemma SFind_wp k : k ∈ P → so_wp (run_so_op depth fuel (SFind k)) s (op_post K (len + depth + 1) (SFind k)).
Proof using HK LN HR Hd Hf.
  intros Hk. unfold run_so_op, Find. rewrite take_kbuf. apply so_wp_bind, so_wp_bind. eapply so_wp_ok; [reflexivity|].
  apply so_wp_bind. eapply so_wp_mono; [by apply bucket_search|].
  intros [] s1 (L1 & p & A & x & l2 & HS & Hc & Hl & E & HB). apply so_wp_bind. eapply so_wp_ok; [exact E|].
  do 2 apply so_wp_ret. destruct (search_result s1 L1 K p A x l2 k HS HK Hk HB) as [Hv Hcase].
  split; [|eapply represents_found; [done..|lia]]. unfold spec_so_op. cbn [fst]. rewrite Hv in *.
  destruct (K !! k) as [v|] eqn:EK; cbn [default from_option id] in *; [|done].
  destruct (Z.eqb_spec v 0); [done|]. by rewrite bool_decide_eq_true_2.
Qed.

(** The node [q] after [x] marked, and unlinked. *)
Definition removed_nodes (ns : gmap Gptr SoNode) (x q : Gptr) (cur next : TagGptr) nx nq : gmap Gptr SoNode :=
  <[x := set_next (TagGptr_marked 0 (gptr next) (tag_succ cur)) nx]>
    (<[q := set_next (TagGptr_marked 1 (gptr next) (tag_succ next)) nq]> ns).

Lemma sol_remove s1 L K1 A x nx q nq l3 k cur :
  sol_ok s1 L K1 → L = A ++ x :: q :: l3 → nodes s1 !! x = Some nx → nodes s1 !! q = Some nq → regular_node k nq →
  sol_ok (with_nodes (removed_nodes (nodes s1) x q cur (so_next nq) nx nq) s1) (A ++ x :: l3) (delete k K1).
Proof.
  intros [(t & Ht & Hl) HL HC HT HZ Hlv] EL Hx Hq Hr. pose proof (sh_nodup _ _ HL) as Hnd.
  assert (A ++ x :: q :: l3 = (A ++ [x]) ++ q :: l3) as E1 by (by rewrite <- app_assoc).
  assert (A ++ x :: l3 = (A ++ [x]) ++ l3) as E2 by (by rewrite <- app_assoc).
  subst L. assert (x ≠ q) as Hxq.
  { apply list.NoDup_app in Hnd as (_ & _ & [Hnx _]%list.NoDup_cons). intros ->. apply Hnx. by left. }
  assert (clean (so_next nq)) as Hcn.
  { rewrite E1 in Hl. destruct (linked_suffix _ _ _ q l3 (mkTagGptr q 0) Hl) as (_ & _ & _ & n & Hn & Hl').
    1,2: apply mk_clean, (sh_node _ _ HL); set_solver. simplify_eq. by eapply linked_clean. }
  pose proof (clean_aligned _ Hcn) as Han.
  assert (∀ L0, same_but_next (nodes s1) (removed_nodes (nodes s1) x q cur (so_next nq) nx nq) L0) as Hsame.
  { intros L0. unfold removed_nodes. eapply same_but_next_trans; [by apply same_but_next_insert|].
    apply same_but_next_insert. by rewrite lookup_insert_ne. }
  assert (shape (nodes s1) (A ++ x :: l3)) as HL'.
  { rewrite E2. apply (shape_drop _ _ q). by rewrite <- E1. }
  split; cbn [with_nodes nodes table size so_heap]; try done.
  - exists t. split; [done|]. unfold removed_nodes. rewrite marked0 by done.
    eapply linked_remove; [done|done|done|done|by apply mk_clean|]. apply (proj2 (mk_clean _ _ Han)).
  - by eapply shape_same.
  - eapply content_same; [done| |done]. rewrite E2. rewrite E1 in HC, Hnd. by eapply content_drop.
  - intros b t' Hb. destruct (HT b t' Hb) as (Hbr & Hct & Hin & Hk).
    assert (gptr t' ≠ q) as Hne.
    { intros E. rewrite E in Hk. unfold kk in Hk. rewrite Hq in Hk. simpl in Hk. apply regular_key in Hr.
      rewrite Hk, dummy_even in Hr; [done|]. unfold hard_max_buckets in Hbr. lia. }
    assert (gptr t' ∈ A ++ x :: l3) as Hin' by (clear -Hin Hne; set_solver).
    do 3 (split; [done|]). by rewrite (same_kk _ _ _ _ HL' (Hsame _) Hin').
  - unfold removed_nodes. rewrite !dom_insert_L.
    assert (x ∈ dom (nodes s1) ∧ q ∈ dom (nodes s1)) as [? ?] by (split; by apply elem_of_dom). set_solver.
Qed.

Lemma ListDelete_ok s1 L K1 b byte_key key p A x q l3 nq nx :
  sol_ok s1 L K1 → ListFind fuel (TableSlot b) byte_key key s1 = Ok p s1 →
  between s1 L key byte_key p A x (q :: l3) → p_value p ≠ 0 → p_next p = so_next nq → gptr (p_cur p) = q →
  nodes s1 !! x = Some nx → nodes s1 !! q = Some nq →
  ListDelete fuel (TableSlot b) byte_key key s1 =
    Ok (true, p_cur p) (with_nodes (removed_nodes (nodes s1) x q (p_cur p) (so_next nq) nx nq) s1).
Proof using LN Hd Hf.
  intros HS E HB Hv Hnx Hg Hx Hq. destruct fuel as [|f] eqn:Ef; [lia|]. rewrite <- Ef in *. rewrite Ef. cbn [ListDelete].
  rewrite <- Ef. rewrite (bind_ok _ _ _ _ _ E), (proj2 (Z.eqb_neq _ _) Hv), Hnx, Hg.
  destruct HB as [EL Hp Hc Hl _ _ _]. pose proof (sh_nodup _ _ (ok_shape _ _ _ HS)) as Hnd. rewrite EL in Hnd.
  assert (x ≠ q) as Hxq.
  { apply list.NoDup_app in Hnd as (_ & _ & [Hn _]%list.NoDup_cons). intros ->. apply Hn. by left. }
  pose proof (linked_clean _ _ _ Hl) as Hcc. destruct Hl as (_ & _ & _ & n & Hn & Hl). subst q.
  rewrite Hq in Hn. injection Hn as <-.
  pose proof (linked_clean _ _ _ Hl) as Hcn. rewrite (unmarked_clean _ Hcn), (unmarked_clean _ Hcc).
  assert (loc_val s1 (NextOf (gptr (p_cur p))) = Some (so_next nq)) as Hv1 by (simpl; by rewrite Hq).
  rewrite (bind_ok _ _ _ _ _ (cas_loc_ok _ _ _ _ Hv1)), TagGptr_eqb_refl. cbn [negb set_loc]. rewrite Hq, Hp.
  match goal with |- context [with_nodes ?ns s1] =>
    assert (loc_val (with_nodes ns s1) (NextOf x) = Some (p_cur p)) as Hv2 by (simpl; by rewrite lookup_insert_ne)
  end.
  rewrite (bind_ok _ _ _ _ _ (cas_loc_ok _ _ _ _ Hv2)), TagGptr_eqb_refl. cbn [set_loc with_nodes nodes].
  by rewrite lookup_insert_ne, Hx.
Qed.

Lemma ListDelete_none s1 b byte_key key p :
  ListFind fuel (TableSlot b) byte_key key s1 = Ok p s1 → p_value p = 0 →
  ListDelete fuel (TableSlot b) byte_key key s1 = Ok (false, TagGptr_null) s1.
Proof using LN Hd Hf.
  intros E Hv. destruct fuel as [|f] eqn:Ef; [lia|]. cbn [ListDelete]. by rewrite (bind_ok _ _ _ _ _ E), Hv.
Qed.

Lemma SDelete_wp k : k ∈ P → so_wp (run_so_op depth fuel (SDelete k)) s (op_post K (len + depth + 1) (SDelete k)).
Proof using HK LN HR Hd Hf.
  intros Hk. unfold run_so_op, Delete. rewrite take_kbuf. apply so_wp_bind, so_wp_bind. eapply so_wp_ok; [reflexivity|].
  apply so_wp_bind. eapply so_wp_mono; [by apply bucket_search|].
  intros [] s1 (L1 & p & A & x & l2 & HS & Hc & Hl & E & HB).
  destruct (search_result s1 L1 K p A x l2 k HS HK Hk HB) as [Hv Hcase]. apply so_wp_bind.
  destruct (Z.eqb_spec (p_value p) 0) as [H0|H0].
  - eapply so_wp_ok; [by eapply ListDelete_none|]. do 2 apply so_wp_ret. unfold op_post, spec_so_op. rewrite Hcase.
    split; [done|]. cbn [snd]. rewrite delete_id by done. eapply represents_found; [done..|lia].
  - destruct Hcase as (q & n & l3 & -> & Hq & Hr & Hnx & Hg). pose proof HB as [EL _ _ _ _ _ _].
    destruct (sh_node _ _ (ok_shape _ _ _ HS) x) as (_ & nx & Hx & _); [rewrite EL; set_solver|].
    eapply so_wp_ok; [by eapply (ListDelete_ok s1 L1 K)|]. apply so_wp_bind. eapply so_wp_ok; [reflexivity|].
    apply so_wp_bind. eapply so_wp_ok; [reflexivity|]. do 2 apply so_wp_ret.
    destruct (K !! k) as [v|] eqn:EK; [|done]. unfold op_post, spec_so_op. rewrite EK. split; [done|]. split.
    + exists (A ++ x :: l3). split; [|rewrite EL, length_app in Hl; rewrite length_app; simpl in *; lia].
      pose proof (sol_remove s1 L1 K A x nx q n l3 k (p_cur p) HS EL Hx Hq Hr) as HS2. destruct HS2. by split.
    + cbn [snd with_count with_nodes count]. rewrite Hc, (proj2 HR), u64_pred, map_size_delete_Some by eauto.
      assert (0 < base.size K)%nat by (apply Nat.neq_0_lt_0; intros ->%map_size_empty_iff; by rewrite lookup_empty in EK).
      f_equal. lia.
Qed.

Lemma run_so_op_wp o : so_op_ok o → so_wp (run_so_op depth fuel o) s (op_post K (len + depth + 1) o).
Proof using HK LN HR Hd Hf.
  destruct o as [k v|k v|k v|k|k]; cbn [so_op_ok].
  - intros [? ?]. by apply SInsert_wp.
  - intros [? ?]. by apply SFindOrInsert_wp.
  - intros [? ?]. by apply SInsertOrUpdate_wp.
  - apply SFind_wp.
  - apply SDelete_wp.
Qed.
End Op.

(** *** From the constructor on *)

(** No list yet. *)
Definition no_sol (h : HeapSt) : sol := mkSol h ∅ ∅ 0 0.

Lemma new_wp h : so_wp SplitOrderedList_new (no_sol h) (λ _ s, represents s ∅ 1).
Proof.
  unfold SplitOrderedList_new.
  apply so_wp_bind. eapply so_wp_mono; [apply alloc_mem_wp|]. intros d s0 (_ & h1 & _ & ->).
  do 2 (apply so_wp_bind; eapply so_wp_ok; [reflexivity|]).
  apply so_wp_bind. eapply so_wp_mono; [apply alloc_mem_wp|]. intros tb s0 (_ & h2 & _ & ->).
  do 2 (apply so_wp_bind; eapply so_wp_ok; [reflexivity|]).
  apply so_wp_bind. eapply so_wp_mono; [apply alloc_so_wp; cbn; set_solver|].
  intros q s1 (Hq & Ha & H0 & h' & -> & Hd). apply so_wp_bind.
  eapply so_wp_ok; [apply store_so_ok; apply lookup_insert_eq|]. eapply so_wp_ok; [reflexivity|].
  destruct (mk_clean q 0 Ha) as [Hc Hg]. rewrite marked0 by done.
  cbn in Hd |- *. rewrite insert_insert_eq. split; [|done]. exists [q]. split; [|done].
  set (nq := mkSo _ _ _ _ _). assert (dummy_node 0 nq) as Hdn by done.
  assert (∀ k n, <[q := nq]> (∅ : gmap Gptr SoNode) !! q = Some n → ¬ regular_node k n) as Hno.
  { intros k n [= <-]%lookup_insert_rev Hr. apply regular_key in Hr. by rewrite (dummy_key 0 nq Hdn) in Hr. }
  split; cbn.
  - exists (mkTagGptr q 0). rewrite lookup_insert_eq. split; [done|]. do 3 (split; [done|]). exists nq.
    rewrite lookup_insert_eq. split; [done|]. by split; [apply clean_null|].
  - split; [apply NoDup_singleton|repeat constructor|]. intros x ->%list_elem_of_singleton. split; [done|].
    exists nq. rewrite lookup_insert_eq. split; [done|]. left. by exists 0.
  - split.
    + intros k v. rewrite lookup_empty. split; [done|]. intros (x & n & ->%list_elem_of_singleton & Hn & Hr & _).
      by destruct (Hno k n).
    + intros x x' n n' k ->%list_elem_of_singleton ->%list_elem_of_singleton. done.
  - intros b t [[<- <-]|[_ Hb]]%lookup_insert_Some; [|by rewrite lookup_empty in Hb]. do 2 (split; [done|]).
    rewrite Hg. split; [by apply list_elem_of_singleton|]. unfold kk. by rewrite lookup_insert_eq.
  - by exists 1.
  - rewrite dom_insert_L in *. set_solver.
Qed.

Fixpoint run_so_ops (depth fuel : nat) (os : list so_op) : M (list (bool * Z)) :=
  match os with
  | [] => mret []
  | o :: os' => r ← run_so_op depth fuel o; rs ← run_so_ops depth fuel os'; mret (r :: rs)
  end.

Fixpoint spec_so_ops (K : gmap bytes Z) (os : list so_op) : list (bool * Z) * gmap bytes Z :=
  match os with
  | [] => ([], K)
  | o :: os' => let '(r, K1) := spec_so_op K o in let '(rs, K2) := spec_so_ops K1 os' in (r :: rs, K2)
  end.

Lemma run_so_ops_wp depth fuel os s K len :
  (21 ≤ depth ≤ 63)%nat → Forall so_op_ok os → represents s K len → (len + length os * (depth + 1) ≤ fuel)%nat →
  so_wp (run_so_ops depth fuel os) s (λ rs s', rs = (spec_so_ops K os).1 ∧
    represents s' (spec_so_ops K os).2 (len + length os * (depth + 1))).
Proof using HK LN.
  intros Hd Hos. revert s K len. induction Hos as [|o os Ho Hos IH]; intros s K len HR Hf.
  { apply so_wp_ret. split; [done|]. cbn. by rewrite Nat.add_0_r. }
  cbn [run_so_ops spec_so_ops length] in *. apply so_wp_bind.
  eapply so_wp_mono; [apply (run_so_op_wp depth fuel Hd s K len HR); [lia|done]|].
  intros r s1 [-> HR1]. destruct (spec_so_op K o) as [r K1]. cbn [fst snd] in *. apply so_wp_bind.
  eapply so_wp_mono; [apply (IH s1 K1 _ HR1); lia|]. intros rs s2 [-> HR2]. apply so_wp_ret.
  destruct (spec_so_ops K1 os) as [rs K2]. cbn [fst snd] in *. split; [done|].
  by replace (len + S (length os) * (depth + 1))%nat with (len + depth + 1 + length os * (depth + 1))%nat by lia.
Qed.

(** *** Enumeration *)

(** The regular nodes among what [foreach] passes to its callback: dummy nodes are
    passed as well, and are those with no value. *)
Definition entries (l : list (bytes * nat * Z)) : list (bytes * Z) :=
  (λ '(b, n, v), (take n b, v)) <$> filter (λ e, e.2 ≠ 0) l.

Definition entry_of (n : SoNode) : bytes * nat * Z := (byte_key_ n, byte_key_size n, so_value n).

Lemma foreach_loop_ok s L t fuel : linked (nodes s) t L → (length L < fuel)%nat →
  ∃ l, foreach_loop fuel t s = Ok l s ∧ Forall2 (λ q e, ∃ n, nodes s !! q = Some n ∧ e = entry_of n) L l.
Proof.
  revert L t. induction fuel as [|f IH]; intros L t Hl Hf; [lia|]. cbn [foreach_loop].
  destruct L as [|q L]; [destruct Hl as [_ ->]; by exists []|].
  destruct Hl as (_ & -> & H0 & n & Hn & Hl). rewrite (proj2 (Z.eqb_neq _ _) H0).
  destruct (IH L (so_next n) Hl) as (l & E & HF); [cbn [length] in Hf; lia|].
  exists (entry_of n :: l). rewrite (bind_ok _ _ _ _ _ (load_so_ok _ _ _ Hn)), (bind_ok _ _ _ _ _ E).
  split; [done|]. constructor; eauto.
Qed.

Lemma regular_entry k n : regular_node k n → take (byte_key_size n) (byte_key_ n) = k ∧ so_value n ≠ 0.
Proof. intros (_ & -> & -> & _ & ?). by rewrite take_kbuf. Qed.

Lemma entries_cons n l : node_ok n →
  (∃ k, regular_node k n ∧ entries (entry_of n :: l) = (k, so_value n) :: entries l) ∨
  (so_value n = 0 ∧ entries (entry_of n :: l) = entries l).
Proof.
  intros [[b Hd]|[k Hr]].
  - right. destruct Hd as (_ & _ & _ & Hv). split; [done|]. unfold entries.
    rewrite filter_cons_False; [done|]. simpl. rewrite Hv. intros H. by apply H.
  - left. exists k. split; [done|]. destruct (regular_entry k n Hr) as [Hk Hv]. unfold entries.
    rewrite filter_cons_True by done. cbn. by rewrite Hk.
Qed.

Lemma entries_map ns L l K : shape ns L → content ns L K →
  Forall2 (λ q e, ∃ n, ns !! q = Some n ∧ e = entry_of n) L l → entries l ≡ₚ map_to_list K.
Proof.
  intros HL HC HF.
  assert (∀ k v, (k, v) ∈ entries l ↔ ∃ q n, q ∈ L ∧ ns !! q = Some n ∧ regular_node k n ∧ so_value n = v) as Hin.
  { clear HC. intros k v. assert (∀ q n, q ∈ L → ns !! q = Some n → node_ok n) as Hok.
    { intros q n Hq Hn. destruct (sh_node _ _ HL q Hq) as (_ & n' & Hn' & ?). by simplify_eq. }
    clear HL. induction HF as [|q e L l (n & Hn & ->) HF IH].
    { split; [intros []%elem_of_nil|]. intros (q & n & []%elem_of_nil & _). }
    specialize (IH (λ q n Hq, Hok q n (list_elem_of_further _ _ _ Hq))).
    destruct (entries_cons n l (Hok q n (list_elem_of_here _ _) Hn)) as [(k' & Hr & ->)|[Hv ->]].
    - rewrite elem_of_cons, IH. split.
      + intros [[= -> ->]|(x & m & ? & ?)]; [exists q, n|exists x, m]; set_solver.
      + intros (x & m & [->|Hx]%elem_of_cons & Hm & Hr' & <-); [|right; eauto 6]. simplify_eq. left.
        f_equal. eauto using regular_unique.
    - rewrite IH. split; [intros (x & m & ? & ?); exists x, m; set_solver|].
      intros (x & m & [->|Hx]%elem_of_cons & Hm & Hr' & <-); [|eauto 6]. simplify_eq. by apply regular_entry in Hr' as []. }
  apply NoDup_Permutation; [|apply NoDup_map_to_list|].
  - clear Hin. destruct HC as [_ Hu]. destruct HL as [Hnd _ Hok].
    induction HF as [|q e L l (n & Hn & ->) HF IH]; [constructor|].
    apply list.NoDup_cons in Hnd as [Hq Hnd].
    assert (NoDup (entries l)) as HN.
    { apply IH; [done|intros; apply Hok; by right|intros x x' m m' k ? ?; apply (Hu x x' m m' k); by right]. }
    destruct (Hok q) as (_ & m & Hm & Hnok); [by left|]. simplify_eq.
    destruct (entries_cons n l Hnok) as [(k & Hr & ->)|[_ ->]]; [|done]. apply list.NoDup_cons. split; [|done].
    unfold entries. intros ([[b0 n0] v0] & [= Hk Hv] & [Hv0 Hin]%list_elem_of_filter)%list_elem_of_fmap.
    apply list_elem_of_lookup in Hin as [i Hi]. eapply Forall2_lookup_r in HF as (x & Hx & m & Hxm & Ee); [|done].
    unfold entry_of in Ee. injection Ee as -> -> ->.
    destruct (Hok x) as (_ & m' & Hm' & Hm'ok); [right; by eapply list_elem_of_lookup_2|]. simplify_eq.
    destruct Hm'ok as [[b (_ & _ & _ & Hz)]|[k' Hr']]; [done|]. destruct (regular_entry k' m Hr') as [<- _].
    pose proof (list_elem_of_lookup_2 _ _ _ Hx) as HxL. apply Hq.
    rewrite (Hu q x n m _ (list_elem_of_here _ _) (list_elem_of_further _ _ _ HxL) Hn Hxm Hr Hr'). done.
  - intros [k v]. rewrite elem_of_map_to_list, (ct_lookup _ _ _ HC). apply Hin.
Qed.

(** A list is made, used, and enumerated. *)
Definition session (depth fuel : nat) (os : list so_op) : M (list (bool * Z) * list (bytes * Z)) :=
  SplitOrderedList_new;;
  rs ← run_so_ops depth fuel os;
  l ← foreach fuel;
  mret (rs, entries l).


End Spec.

(** *** An example: two keys of one hash, and enough keys for the table to double twice *)

Definition byte_sum (k : bytes) : Z := foldr Z.add 0 k.

Definition demo_keys : list bytes := [[1; 2]; [2; 1]; [3; 0; 0]; [4]; [5]; [6]; [7]].

Definition demo_so_ops : list so_op :=
  [SInsert [1; 2] 10; SInsert [2; 1] 20; SFind [1; 2]; SFindOrInsert [2; 1] 99; SInsertOrUpdate [4] 40;
   SInsert [5] 50; SInsert [6] 60; SInsert [7] 70; SDelete [1; 2]; SFind [1; 2]; SFind [2; 1];
   SInsertOrUpdate [2; 1] 21; SFind [3; 0; 0]; SFind [2; 1]].

Lemma demo_keys_ok : keys_ok byte_sum demo_keys.
Proof.
  assert (Forall (λ k, length k ≤ BYTE_KEY)%nat demo_keys) as H1 by (by apply (bool_decide_unpack _)).
  assert (Forall (λ k, Forall (λ k', Hash64 byte_sum k = Hash64 byte_sum k' →
    k `prefix_of` kbuf k' → k = k') demo_keys) demo_keys) as H2
    by (apply (bool_decide_unpack _); vm_compute; exact I).
  rewrite list.Forall_forall in H1. split; [done|]. intros k k' Hk Hk'. rewrite list.Forall_forall in H2.
  specialize (H2 k Hk). rewrite list.Forall_forall in H2. by apply H2.
Qed.

