(* ===== verification/KvsSplitOrdered.v ===== *)
(** The key-value store on the split-ordered hash table: [src/kvs_split_ordered.cc].

    As in the store on the radix tree, a value is a [ValBuf] of its own in the heap;
    the table maps the key, padded with zeros to 40 bytes, to its pointer. *)

From S2P Require Import Prelude TagPtr Fam KvsRadixTree Reverse SplitOrdered SplitOrderedSpec.

(** [sizeof(SplitOrderedList::ByteKey)]. *)
Definition kMaxKeyLen : nat := BYTE_KEY.
Definition kMaxValLen : Z := two64 - 1.

Section KVSSplitOrdered.
Context {N : Nvmm}.

(** The table, and the value buffers in the heap. *)
Record kvs := mkKvs { sol_ : sol; vals : gmap Gptr ValBuf }.

Inductive kres (A : Type) :=
  | Done (a : A) (st : kvs)
  | Stopped (h : HeapSt) (sz : Z)   (* the table was refused memory *)
  | Stuck.                          (* a failed assertion, an endless loop, a wild pointer *)
Arguments Done {A} a st.
Arguments Stopped {A} h sz.
Arguments Stuck {A}.

Definition KM (A : Type) : Type := kvs → kres A.

#[global] Instance KM_ret : MRet KM := λ A a st, Done a st.
#[global] Instance KM_bind : MBind KM := λ A B f m st,
  match m st with
  | Done a st' => f a st'
  | Stopped h sz => Stopped h sz
  | Stuck => Stuck
  end.

(** An operation of the table. *)
Definition on_sol {A} (m : M A) : KM A := λ st,
  match m (sol_ st) with
  | Ok a s => Done a (mkKvs s (vals st))
  | AllocFailed h sz => Stopped h sz
  | AssertFailed | Timeout | Crash => Stuck
  end.

(** [heap_->Alloc(op, val_len + sizeof(ValBuf))]. *)
Definition alloc_val_so (val_len : Z) : KM Gptr := λ st,
  let h := so_heap (sol_ st) in
  let '(p, h') := heap_Alloc h (u64 (val_len + sizeof_ValBuf)) in
  let vs := if ptr_IsValid p then <[p := fresh_val h p val_len]> (vals st) else vals st in
  Done p (mkKvs (with_so_heap h' (sol_ st)) vs).

Definition store_val_so (p : Gptr) (v : ValBuf) : KM unit := λ st,
  Done tt (mkKvs (sol_ st) (<[p := v]> (vals st))).

Definition load_val_so (p : Gptr) : KM ValBuf := λ st,
  match vals st !! p with Some v => Done v st | None => Stuck end.

Definition free_val_so (p : Gptr) : KM unit := on_sol (free_so p).

(** [memset(&key_buf, 0, sizeof(key_buf)); memcpy(&key_buf, key, key_len)]. *)
Definition key_buf (key : bytes) : bytes := key ++ replicate (BYTE_KEY - length key) 0.

Definition key_too_long (key : bytes) : bool := (kMaxKeyLen <? length key)%nat.

Context (CityHash64 : bytes → Z) (depth fuel : nat).

Definition Put (key val : bytes) : KM Z :=
  if key_too_long key then mret (-1) else
  if kMaxValLen <? Z.of_nat (length val) then mret (-1) else
  val_gptr ← alloc_val_so (Z.of_nat (length val));
  if negb (ptr_IsValid val_gptr) then mret (-1) else
  store_val_so val_gptr (mkValBuf (Z.of_nat (length val)) val);;
  old_val_gptr ← on_sol (InsertOrUpdate CityHash64 depth fuel (key_buf key) (length key) val_gptr);
  (if old_val_gptr =? 0 then mret tt else free_val_so old_val_gptr);;
  mret 0.

Definition Get (key : bytes) (val_len : Z) : KM fetched :=
  if key_too_long key then mret (mkFetched (-1) val_len None) else
  val_gptr ← on_sol (Find CityHash64 depth fuel (key_buf key) (length key));
  if val_gptr =? 0 then mret (mkFetched (-1) val_len None) else
  val_ptr ← load_val_so val_gptr;
  let val_size := vb_size val_ptr in
  if val_len <? val_size then mret (mkFetched (-1) val_size None)
  else mret (mkFetched 0 val_size (Some (take (Z.to_nat val_size) (vb_val val_ptr)))).

Definition Del (key : bytes) : KM Z :=
  if key_too_long key then mret (-1) else
  '(success, val_gptr) ← on_sol (Delete CityHash64 depth fuel (key_buf key) (length key));
  if success : bool then free_val_so val_gptr;; mret 0 else mret (-1).

(** [FindOrCreate] does nothing; [ret_len] is left as it is. *)
Definition FindOrCreate (key val : bytes) (ret_len : Z) : KM fetched := mret (mkFetched 0 ret_len None).

(** [KVSSplitOrdered::Open] with no descriptor: a new table in the heap. *)
Definition Open : KM unit := on_sol SplitOrderedList_new.

End KVSSplitOrdered.

Arguments Done {N A} a st.
Arguments Stopped {N A} h sz.
Arguments Stuck {N A}.

(** ** The table never gives memory back *)

Section Grows.
Context {N : Nvmm} {LN : NvmmLaws N}.

(** Run in [s], the operation leaves what was in use in use. *)
Definition grows {A} (s : sol) (m : M A) : Prop :=
  ∀ a s', m s = Ok a s' → live (so_heap s) ⊆ live (so_heap s').

Lemma grows_bind {A B} s (m : M A) (f : A → M B) :
  grows s m → (∀ a s1, m s = Ok a s1 → grows s1 (f a)) → grows s (m ≫= f).
Proof.
  intros Hm Hf b s'. unfold mbind, M_bind. destruct (m s) as [a s1| | | |] eqn:E; try done.
  intros Hb. etrans; [exact (Hm a s1 E)|exact (Hf a s1 eq_refl b s' Hb)].
Qed.

(** An operation that leaves the heap alone. *)
Definition keeps_heap {A} (m : M A) : Prop := ∀ s a s', m s = Ok a s' → so_heap s' = so_heap s.

Lemma grows_keeps {A} s (m : M A) : keeps_heap m → grows s m.
Proof. intros H a s' E. by rewrite (H _ _ _ E). Qed.

Lemma grows_ret {A} s (a : A) : grows s (mret a).
Proof. by intros ? ? [= -> ->]. Qed.

Lemma grows_alloc_mem s sz : grows s (alloc_mem sz).
Proof.
  intros a s'. unfold alloc_mem. destruct (heap_Alloc (so_heap s) sz) as [p h] eqn:E. destruct (Z.eqb_spec p 0); [done|].
  intros [= <- <-]. destruct (alloc_fresh _ _ _ _ E) as (_ & _ & _ & Hl); [done|]. cbn. rewrite Hl. set_solver.
Qed.

Lemma grows_alloc_so s : grows s alloc_so.
Proof. apply grows_bind; [apply grows_alloc_mem|]. by intros p s1 _ a s' [= <- <-]. Qed.

Lemma grows_free s p : grows s (free_so p).
Proof. intros a s' [= <- <-]. cbn. by rewrite free_op_live. Qed.

Lemma grows_load s p : grows s (load_so p).
Proof. apply grows_keeps. intros s0 a s'. unfold load_so. by case_match; intros [= <- <-]. Qed.

Lemma grows_store s p f : grows s (store_so p f).
Proof. apply grows_keeps. intros s0 a s'. unfold store_so. by case_match; intros [= <- <-]. Qed.

Lemma grows_load_loc s l : grows s (load_loc l).
Proof.
  destruct l; [by intros a s' [= <- <-]|]. apply grows_bind; [apply grows_load|]. intros. apply grows_ret.
Qed.

Lemma grows_store_loc s l t : grows s (store_loc l t).
Proof. destruct l; [by intros a s' [= <- <-]|]. apply grows_store. Qed.

Lemma grows_cas s l t t' : grows s (cas_loc l t t').
Proof.
  apply grows_bind; [apply grows_load_loc|]. intros cur s1 _. destruct (fam_cas128 cur t t').
  apply grows_bind; [apply grows_store_loc|]. intros. apply grows_ret.
Qed.

Lemma grows_stop {A} s (m : M A) : (∀ a s', m s ≠ Ok a s') → grows s m.
Proof. intros H a s' E. by destruct (H a s'). Qed.

End Grows.

Create HintDb grows.
#[export] Hint Resolve grows_ret grows_alloc_so grows_alloc_mem grows_free grows_load grows_store grows_load_loc
  grows_store_loc grows_cas : grows.

Ltac grow :=
  repeat first
    [ progress intros
    | solve [eauto with grows]
    | apply grows_bind
    | match goal with
      | |- grows _ (match ?x with _ => _ end) => destruct x
      | |- grows _ (if ?x then _ else _) => destruct x
      | |- grows _ (let '_ := ?x in _) => destruct x
      | |- grows _ (let _ := _ in _) => cbv zeta
      end ].

Section GrowsOps.
Context {N : Nvmm} {LN : NvmmLaws N}.

Lemma grows_get_sol s : grows s get_sol.
Proof. by intros a s' [= <- <-]. Qed.

Lemma grows_find_loop fuel head bk key prev cur next s : grows s (find_loop fuel head bk key prev cur next).
Proof. revert prev cur next s. induction fuel; intros; [by apply grows_stop|]. cbn [find_loop]. grow. Qed.

Lemma grows_ListFind fuel head bk key s : grows s (ListFind fuel head bk key).
Proof. unfold ListFind. grow. apply grows_find_loop. Qed.

Lemma grows_ListInsert fuel head t s : grows s (ListInsert fuel head t).
Proof. revert s. induction fuel; intros; [by apply grows_stop|]. cbn [ListInsert]. pose proof grows_ListFind. grow. Qed.

Lemma grows_ListDelete fuel head bk key s : grows s (ListDelete fuel head bk key).
Proof. revert s. induction fuel; intros; [by apply grows_stop|]. cbn [ListDelete]. pose proof grows_ListFind. grow. Qed.

Lemma grows_InitializeBucket depth fuel b s : grows s (InitializeBucket depth fuel b).
Proof.
  revert b s. induction depth; intros; [by apply grows_stop|]. cbn [InitializeBucket]. pose proof grows_ListInsert. grow.
Qed.

Lemma grows_load_bucket depth fuel b s : grows s (load_bucket depth fuel b).
Proof. unfold load_bucket. pose proof grows_InitializeBucket. grow. Qed.

(** Changing a counter: what [get_sol] read is the current state. *)
Lemma grows_put s0 s1 : so_heap s0 = so_heap s1 → grows s1 (put_sol s0).
Proof. intros E a s' [= _ <-]. by rewrite E. Qed.

Lemma grows_count_node s : grows s count_node.
Proof.
  unfold count_node. apply grows_bind; [apply grows_get_sol|]. intros s0 s1 [= <- <-].
  apply grows_bind; [by apply grows_put|]. intros _ s2 _. case_match; [|apply grows_ret].
  apply grows_bind; [apply grows_get_sol|]. intros s3 s4 [= <- <-]. by apply grows_put.
Qed.

Context (CityHash64 : bytes → Z) (depth fuel : nat).

Lemma grows_insert_node bk n v s : grows s (insert_node CityHash64 depth fuel bk n v).
Proof using LN.
  unfold insert_node. pose proof grows_ListInsert. pose proof (grows_load_bucket depth fuel). pose proof grows_get_sol.
  assert (∀ s b, grows s (so_assert b)) by (intros ? []; [by intros ? ? [= <- <-]|by apply grows_stop]). grow.
Qed.

Lemma grows_InsertOrUpdate bk n v s : grows s (InsertOrUpdate CityHash64 depth fuel bk n v).
Proof using LN. unfold InsertOrUpdate. pose proof grows_insert_node. pose proof grows_count_node. grow. Qed.

Lemma grows_Find bk n s : grows s (Find CityHash64 depth fuel bk n).
Proof using LN.
  unfold Find. pose proof grows_ListFind. pose proof (grows_load_bucket depth fuel). pose proof grows_get_sol. grow.
Qed.

Lemma grows_Delete bk n s : grows s (Delete CityHash64 depth fuel bk n).
Proof using LN.
  unfold Delete. pose proof grows_ListDelete. pose proof (grows_load_bucket depth fuel). pose proof grows_get_sol.
  apply grows_bind; [apply grows_get_sol|]. intros. apply grows_bind; [auto|]. intros. apply grows_bind; [auto|].
  intros [[] cur] s2 _; cbn [negb]; [|apply grows_ret].
  apply grows_bind; [apply grows_get_sol|]. intros s5 s6 [= <- <-]. apply grows_bind; [by apply grows_put|].
  intros. apply grows_ret.
Qed.
End GrowsOps.

(** ** The store is a map from keys to values *)

Section KvSpec.
Context {N : Nvmm} {LN : NvmmLaws N}.
Context (CityHash64 : bytes → Z) (P : list bytes) (HK : keys_ok CityHash64 P).

Abbreviation represents := (represents CityHash64 P).

(** The operation returns, and the result satisfies [Q]; or the table was refused memory. *)
Definition kwp {A} (m : KM A) st (Q : A → kvs → Prop) : Prop :=
  match m st with
  | Done a st' => Q a st'
  | Stopped h sz => (heap_Alloc h sz).1 = 0
  | Stuck => False
  end.

Lemma kwp_bind {A B} (m : KM A) (f : A → KM B) st Q :
  kwp m st (λ a st', kwp (f a) st' Q) → kwp (m ≫= f) st Q.
Proof. unfold kwp, mbind, KM_bind. by destruct (m st). Qed.

Lemma kwp_mono {A} (m : KM A) st (Q R : A → kvs → Prop) :
  kwp m st Q → (∀ a st', Q a st' → R a st') → kwp m st R.
Proof. unfold kwp. destruct (m st); eauto. Qed.

Lemma kwp_done {A} (m : KM A) st a st' (Q : A → kvs → Prop) : m st = Done a st' → Q a st' → kwp m st Q.
Proof. unfold kwp. by intros ->. Qed.

(** What the table promises carries over, with the growth of the heap. *)
Lemma on_sol_wp {A B} (m : M A) (g : A → B) st Q :
  so_wp (x ← m; mret (g x)) (sol_ st) Q → grows (sol_ st) m →
  kwp (on_sol m) st (λ a st', Q (g a) (sol_ st') ∧ vals st' = vals st ∧
    live (so_heap (sol_ st)) ⊆ live (so_heap (sol_ st'))).
Proof.
  unfold so_wp, kwp, on_sol, mbind, M_bind. intros HQ Hg. destruct (m (sol_ st)) as [a s'| | | |] eqn:E; try done.
  cbn [sol_ vals]. split; [done|]. split; [done|]. by apply (Hg a s').
Qed.

(** The table points to the buffers of the values in [K]. *)
Definition values_ok (vs : gmap Gptr ValBuf) (M : gmap bytes Z) (K : gmap bytes bytes) : Prop :=
  ∀ k, match M !! k, K !! k with
       | Some p, Some v => vs !! p = Some (mkValBuf (Z.of_nat (length v)) v)
       | None, None => True
       | _, _ => False
       end.

Definition kv_rep (st : kvs) (K : gmap bytes bytes) (len : nat) : Prop :=
  ∃ M, represents (sol_ st) M len ∧ dom (vals st) ⊆ live (so_heap (sol_ st)) ∧
    map_Forall (λ _ p, p ≠ 0) M ∧ values_ok (vals st) M K.

Inductive kop := KPut (k v : bytes) | KGet (k : bytes) (val_len : Z) | KDel (k : bytes).

Definition run_kop (fuel : nat) (o : kop) : KM fetched :=
  match o with
  | KPut k v => r ← Put CityHash64 21 fuel k v; mret (mkFetched r 0 None)
  | KGet k val_len => Get CityHash64 21 fuel k val_len
  | KDel k => r ← Del CityHash64 21 fuel k; mret (mkFetched r 0 None)
  end.

Definition kop_key (o : kop) : bytes := match o with KPut k _ | KGet k _ | KDel k => k end.

(** A key that is not rejected is one of [P]; a value fits in the address space. *)
Definition kop_ok (o : kop) : Prop :=
  ((length (kop_key o) ≤ kMaxKeyLen)%nat → kop_key o ∈ P) ∧
  match o with KPut _ v => Z.of_nat (length v) ≤ kMaxValLen | _ => True end.

(** The heap has room for the value. *)
Definition room (st : kvs) (o : kop) : bool :=
  match o with
  | KPut _ v => negb ((heap_Alloc (so_heap (sol_ st)) (u64 (Z.of_nat (length v) + sizeof_ValBuf))).1 =? 0)
  | _ => true
  end.

Definition spec_kop (room : bool) (K : gmap bytes bytes) (o : kop) : fetched * gmap bytes bytes :=
  if key_too_long (kop_key o) then (mkFetched (-1) (match o with KGet _ n => n | _ => 0 end) None, K) else
  match o with
  | KPut k v => if room then (mkFetched 0 0 None, <[k := v]> K) else (mkFetched (-1) 0 None, K)
  | KGet k val_len =>
      (match K !! k with
       | None => mkFetched (-1) val_len None
       | Some v => if val_len <? Z.of_nat (length v) then mkFetched (-1) (Z.of_nat (length v)) None
                   else mkFetched 0 (Z.of_nat (length v)) (Some v)
       end, K)
  | KDel k => (mkFetched (if K !! k then 0 else -1) 0 None, delete k K)
  end.

Lemma represents_mono s M len len' : represents s M len → (len ≤ len')%nat → represents s M len'.
Proof. intros [(L & HS & HL) Hc] Hle. split; [|done]. exists L. split; [done|lia]. Qed.

Lemma kv_rep_mono st K len len' : kv_rep st K len → (len ≤ len')%nat → kv_rep st K len'.
Proof. intros (M & HR & H) Hle. exists M. split; [by eapply represents_mono|done]. Qed.

(** Memory in use is not lost, so a new heap is as good. *)
Lemma represents_heap s M len h :
  represents s M len → live (so_heap s) ⊆ live h → represents (with_so_heap h s) M len.
Proof.
  intros [(L & [H1 H2 H3 H4 H5 H6] & HL) Hc] Hh. split; [|done]. exists L. split; [|done]. split; try done. cbn. set_solver.
Qed.

Lemma values_insert vs M K k p v : values_ok vs M K → vs !! p = Some (mkValBuf (Z.of_nat (length v)) v) →
  values_ok vs (<[k := p]> M) (<[k := v]> K).
Proof.
  intros H Hp k'. destruct (decide (k' = k)) as [->|]; [by rewrite !lookup_insert_eq|].
  rewrite !lookup_insert_ne by done. apply H.
Qed.

Lemma values_delete vs M K k : values_ok vs M K → values_ok vs (delete k M) (delete k K).
Proof.
  intros H k'. destruct (decide (k' = k)) as [->|]; [by rewrite !lookup_delete_eq|].
  rewrite !lookup_delete_ne by done. apply H.
Qed.

Lemma values_none vs M K k : values_ok vs M K → M !! k = None → K !! k = None.
Proof. intros H E. specialize (H k). rewrite E in H. by destruct (K !! k). Qed.

(** A buffer at a new address. *)
Lemma values_frame vs M K p b : values_ok vs M K → vs !! p = None → values_ok (<[p := b]> vs) M K.
Proof.
  intros H Hp k. specialize (H k). destruct (M !! k) as [q|], (K !! k); try done.
  rewrite lookup_insert_ne; [done|]. congruence.
Qed.

Lemma free_val_wp st p K len (Q : unit → kvs → Prop) :
  kv_rep st K len → (∀ st', kv_rep st' K len → Q tt st') → kwp (free_val_so p) st Q.
Proof.
  intros (M & HR & Hd & Hz & HV) HQ. eapply kwp_done; [reflexivity|]. apply HQ. exists M. cbn.
  rewrite free_op_live. split; [|done]. apply represents_heap; [done|]. by rewrite free_op_live.
Qed.

Section KvOp.
Context (fuel : nat) (st : kvs) (K : gmap bytes bytes) (len : nat).
Context (HR : kv_rep st K len) (Hf : (len + 22 ≤ fuel)%nat).

Lemma so_Put_wp k v : k ∈ P → Z.of_nat (length v) ≤ kMaxValLen →
  kwp (run_kop fuel (KPut k v)) st (λ r st',
    r = (spec_kop (room st (KPut k v)) K (KPut k v)).1 ∧
    kv_rep st' (spec_kop (room st (KPut k v)) K (KPut k v)).2 (len + 22)).
Proof using HK HR Hf LN.
  intros Hk Hv. destruct HR as (M & HRs & Hd & Hz & HV). pose proof (proj1 HK k Hk) as Hlen.
  unfold run_kop, Put, spec_kop. cbn [kop_key].
  assert (key_too_long k = false) as -> by (apply Nat.ltb_ge; done). cbv iota.
  rewrite (proj2 (Z.ltb_ge _ _) Hv). unfold alloc_val_so, room. do 2 apply kwp_bind.
  destruct (heap_Alloc (so_heap (sol_ st)) _) as [p h'] eqn:E. cbn [fst].
  destruct (Z.eqb_spec p 0) as [->|H0]; cbn [negb].
  { eapply kwp_done; [rewrite E; reflexivity|]. rewrite null_invalid. cbn [negb]. do 2 (eapply kwp_done; [reflexivity|]).
    split; [done|]. exists M. cbn. rewrite (alloc_fail _ _ _ _ E) by done. split; [|done].
    eapply represents_mono; [apply represents_heap; [done|]|lia]. by rewrite (alloc_fail _ _ _ _ E). }
  destruct (alloc_fresh _ _ _ _ E H0) as (Hval & _ & Hfr & Hlv).
  eapply kwp_done; [rewrite E; reflexivity|]. rewrite Hval. cbn [negb]. apply kwp_bind.
  eapply kwp_done; [reflexivity|]. cbn [sol_ vals]. rewrite insert_insert_eq. set (b := mkValBuf _ _).
  set (st1 := mkKvs _ _). apply kwp_bind. eapply kwp_mono; [apply (on_sol_wp _ (λ old, (old =? 0, 0)))|].
  { apply (SInsertOrUpdate_wp CityHash64 P HK 21 fuel ltac:(lia) (sol_ st1) M len).
    - apply represents_heap; [done|]. rewrite Hlv. set_solver.
    - lia.
    - done.
    - done. }
  { apply grows_InsertOrUpdate. }
  intros old st2 ([_ HR2] & Hvs & Hl2). cbn [snd spec_so_op] in HR2.
  assert (kv_rep st2 (<[k := v]> K) (len + 22)) as HR'.
  { exists (<[k := p]> M). split; [by replace (len + 22)%nat with (len + 21 + 1)%nat by lia|]. rewrite Hvs. cbn.
    assert (vals st !! p = None) by (apply not_elem_of_dom; set_solver).
    split; [rewrite dom_insert_L; cbn in Hl2; set_solver|]. split; [by apply map_Forall_insert_2|].
    apply values_insert; [by apply values_frame|]. by rewrite lookup_insert_eq. }
  apply kwp_bind. destruct (old =? 0).
  - do 3 (eapply kwp_done; [reflexivity|]). done.
  - eapply free_val_wp; [done|]. intros st3 HR3. do 2 (eapply kwp_done; [reflexivity|]). done.
Qed.

Lemma so_Get_wp k val_len : k ∈ P →
  kwp (run_kop fuel (KGet k val_len)) st (λ r st',
    r = (spec_kop true K (KGet k val_len)).1 ∧ kv_rep st' K (len + 22)).
Proof using HK HR Hf LN.
  intros Hk. destruct HR as (M & HRs & Hd & Hz & HV). pose proof (proj1 HK k Hk) as Hlen.
  unfold run_kop, Get, spec_kop. cbn [kop_key].
  assert (key_too_long k = false) as -> by (apply Nat.ltb_ge; done). cbv iota. cbn [fst].
  apply kwp_bind. eapply kwp_mono; [apply (on_sol_wp _ (λ v, (negb (v =? 0), v)))|].
  { by apply (SFind_wp CityHash64 P HK 21 fuel ltac:(lia) (sol_ st) M len HRs ltac:(lia) k). }
  { apply grows_Find. }
  intros v st1 ([[= _ ->] HR1] & Hvs & Hl1). cbn [snd spec_so_op] in HR1.
  assert (kv_rep st1 K (len + 22)) as HR'.
  { exists M. split; [by replace (len + 22)%nat with (len + 21 + 1)%nat by lia|]. rewrite Hvs. split; [set_solver|done]. }
  specialize (HV k). destruct (M !! k) as [p|] eqn:EM, (K !! k) as [x|]; try done; cbn [default from_option id].
  rewrite (proj2 (Z.eqb_neq _ _) (Hz k p EM)). apply kwp_bind. unfold load_val_so.
  eapply kwp_done; [rewrite Hvs, HV; reflexivity|]. cbn [vb_size vb_val]. rewrite Nat2Z.id, take_ge by done.
  destruct (val_len <? _); by eapply kwp_done.
Qed.

Lemma so_Del_wp k : k ∈ P →
  kwp (run_kop fuel (KDel k)) st (λ r st',
    r = (spec_kop true K (KDel k)).1 ∧ kv_rep st' (delete k K) (len + 22)).
Proof using HK HR Hf LN.
  intros Hk. destruct HR as (M & HRs & Hd & Hz & HV). pose proof (proj1 HK k Hk) as Hlen.
  unfold run_kop, Del, spec_kop. cbn [kop_key].
  assert (key_too_long k = false) as -> by (apply Nat.ltb_ge; done). cbv iota. cbn [fst].
  do 2 apply kwp_bind. eapply kwp_mono; [apply (on_sol_wp _ (λ r, (r.1, 0)))|].
  { by apply (SDelete_wp CityHash64 P HK 21 fuel ltac:(lia) (sol_ st) M len HRs ltac:(lia) k). }
  { apply grows_Delete. }
  intros [ok q] st1 ([E HR1] & Hvs & Hl1). cbn [fst snd spec_so_op] in E, HR1. injection E as ->.
  assert (kv_rep st1 (delete k K) (len + 22)) as HR'.
  { exists (delete k M). split; [by replace (len + 22)%nat with (len + 21 + 1)%nat by lia|]. rewrite Hvs.
    split; [set_solver|]. split; [by apply map_Forall_delete|by apply values_delete]. }
  specialize (HV k). destruct (M !! k) as [p|] eqn:EM, (K !! k) as [x|]; try done.
  rewrite bool_decide_eq_true_2 by done. apply kwp_bind. eapply free_val_wp; [done|]. intros st2 HR2.
  do 2 (eapply kwp_done; [reflexivity|]). done.
Qed.

End KvOp.


End KvSpec.

(** *** An example *)

(** A store opened, and used. *)
Definition kvs_demo : KM (N := RefNvmm) (list Z) :=
  Open;;
  r1 ← run_kop byte_sum 1000 (KPut [1; 2] [7; 7]);
  r2 ← run_kop byte_sum 1000 (KPut [2; 1] [8]);
  r3 ← run_kop byte_sum 1000 (KPut [1; 2] [9; 9; 9]);
  r4 ← run_kop byte_sum 1000 (KGet [1; 2] 2);
  r5 ← run_kop byte_sum 1000 (KGet [1; 2] 3);
  r6 ← run_kop byte_sum 1000 (KDel [2; 1]);
  r7 ← run_kop byte_sum 1000 (KGet [2; 1] 3);
  mret [f_ret r1; f_ret r2; f_ret r3; f_len r4; f_ret r5; f_ret r6; f_ret r7].

Definition no_kvs : kvs := mkKvs (no_sol (N := RefNvmm) ref_heap) ∅.
Definition opened : kvs := match Open no_kvs with Done _ st => st | _ => no_kvs end.

