(* ===== verification/CacheIface.v ===== *)
(** What the cache service relies on: a store that hands out pointers to keys and
    versioned pointers to values, and a local cache of items.

    [extra/KVS-DRAM-Cache/cache_api.cc] is written against these two interfaces: the
    [KeyValueStore] of [include/radixtree/kvs.h], and the item functions of memcached
    ([items.c], [thread.c]).  A client's theorems are proved against the laws. *)

From S2P Require Import Prelude TagPtr Fam RadixTree KvsRadixTree.

(** ** The store *)

Class Store {N : Nvmm} := {
  sst : Type;
  kvs_Get : bytes → Z → sst → answer (fetched * sst);
  kvs_GetC : bytes → Z → sst → answer (fetched * Gptr * TagGptr * sst);
  kvs_GetP : Gptr → TagGptr → Z → bool → sst → answer (fetched * TagGptr * sst);
  kvs_Put : bytes → bytes → sst → answer (Z * sst);
  kvs_PutC : bytes → bytes → Gptr → TagGptr → sst → answer (pointers * sst);
  kvs_PutP : Gptr → TagGptr → bytes → sst → answer (pointers * sst);
  kvs_Del : bytes → sst → answer (Z * sst);
  kvs_DelP : Gptr → TagGptr → sst → answer (pointers * sst)
}.

(** [s_inv n s g K]: the state represents the map [K], and [n] more updates do not
    exhaust the version tags.  [s_cached s g k q t v]: a client that asked for the key
    [k] was given the node [q] and the value pointer [t] for the value [v]. *)
Class StoreLaws {N : Nvmm} (S : Store) := {
  sview : Type;
  s_inv : nat → sst → sview → gmap bytes bytes → Prop;
  s_cached : sst → sview → bytes → Gptr → TagGptr → bytes → Prop;
  s_key : bytes → Prop;
  s_less n s g K : s_inv (Datatypes.S n) s g K → s_inv n s g K;
  cached_valid s g k q t v : s_cached s g k q t v →
    ptr_IsValid q = true ∧ IsValid t = true ∧ gptr_ t ≠ 0;

  (** A state after an operation: the map is [K'], and what clients hold stays. *)
  s_step := λ n s g s' K', ∃ g', s_inv n s' g' K' ∧
    ∀ k q t v, s_cached s g k q t v → s_cached s' g' k q t v;

  law_Get n s g K k len : s_inv n s g K → s_key k →
    kvs_Get k len s = Answer (match K !! k with
      | None => mkFetched (-2) len None
      | Some v => if len <? Z.of_nat (length v) then mkFetched (-1) (Z.of_nat (length v)) None
                  else mkFetched 0 (Z.of_nat (length v)) (Some v)
      end, s);
  law_GetC n s g K k len : s_inv n s g K → s_key k →
    ∃ f q t, kvs_GetC k len s = Answer (f, q, t, s) ∧
      match K !! k with
      | None => f_ret f = 0 ∧ ptr_IsValid q && IsValid t = false
      | Some v => if len <? Z.of_nat (length v) then f_ret f = -1
                  else f = mkFetched 0 (Z.of_nat (length v)) (Some v) ∧ s_cached s g k q t v
      end;
  (** The pointer is current and the value is not copied; or the value is copied, and
      its version is newer unless the pointer was current. *)
  law_GetP n s g K k q t v len get_value : s_inv n s g K → s_cached s g k q t v →
    len ≤ kMaxValLen →
    ∃ f t', kvs_GetP q t len get_value s = Answer (f, t', s) ∧
      match K !! k with
      | None => f_ret f = 0 ∧ gptr_ t' = 0
      | Some v' =>
          (get_value = false ∧ v' = v ∧ f = mkFetched 0 len None ∧ t' = t) ∨
          if len <? Z.of_nat (length v') then f_ret f = -1
          else f = mkFetched 0 (Z.of_nat (length v')) (Some v') ∧ s_cached s g k q t' v' ∧
            (t' = t ∧ v' = v ∨ tag t < tag t')
      end;
  law_Put n s g K k v : s_inv (Datatypes.S n) s g K → s_key k → Z.of_nat (length v) ≤ kMaxValLen →
    kvs_Put k v s ≠ Assertion ∧ ∀ r, kvs_Put k v s = Answer r →
    fst r = 0 ∧ s_step n s g (snd r) (<[k := v]> K) ∨ fst r = -1 ∧ s_step n s g (snd r) K;
  law_PutC n s g K k v q t : s_inv (Datatypes.S n) s g K → s_key k → Z.of_nat (length v) ≤ kMaxValLen →
    kvs_PutC k v q t s ≠ Assertion ∧ ∀ r, kvs_PutC k v q t s = Answer r →
    p_ret (fst r) = 0 ∧ (∃ g', s_inv n (snd r) g' (<[k := v]> K) ∧
       (∀ k q t v, s_cached s g k q t v → s_cached (snd r) g' k q t v) ∧
       s_cached (snd r) g' k (p_key (fst r)) (p_val (fst r)) v) ∨
    p_ret (fst r) = -1 ∧ s_step n s g (snd r) K;
  law_PutP n s g K k v q t v0 : s_inv (Datatypes.S n) s g K → s_cached s g k q t v0 →
    Z.of_nat (length v) ≤ kMaxValLen →
    kvs_PutP q t v s ≠ Assertion ∧ ∀ r, kvs_PutP q t v s = Answer r →
    p_ret (fst r) = 0 ∧ p_key (fst r) = q ∧ tag t < tag (p_val (fst r)) ∧
       (∃ g', s_inv n (snd r) g' (<[k := v]> K) ∧
       (∀ k q t v, s_cached s g k q t v → s_cached (snd r) g' k q t v) ∧
       s_cached (snd r) g' k q (p_val (fst r)) v) ∨
    p_ret (fst r) = -1 ∧ s_step n s g (snd r) K;
  law_Del n s g K k : s_inv (Datatypes.S n) s g K → s_key k →
    ∃ s', kvs_Del k s = Answer (match K !! k with Some _ => 0 | None => -2 end, s') ∧
      s_step n s g s' (delete k K);
  law_DelP n s g K k q t v : s_inv (Datatypes.S n) s g K → s_cached s g k q t v →
    ∃ r s', kvs_DelP q t s = Answer (r, s') ∧ s_step n s g s' (delete k K)
}.

(** ** The local cache *)

(** Items are named by their addresses; 0 is null.  The hash value of a key, which the
    item functions take as an argument, is a function of the key. *)
Class ItemCache := {
  ics : Type;
  it_key : ics → Z → bytes;
  it_nbytes : ics → Z → Z;
  it_exptime : ics → Z → Z;
  (** the client's flags, and [ITEM_get_cas(it)] *)
  it_client_flags : ics → Z → Z;
  it_cas : ics → Z → Z;
  (** [do_item_get(key, nkey, hv, c, do_update)], [c] being null or not *)
  do_item_get : bytes → bool → bool → ics → answer (Z * ics);
  (** [item_alloc(key, nkey, flags, exptime, nbytes)]; whether the caller holds the lock
      of the key *)
  item_alloc : bool → bytes → Z → Z → Z → ics → answer (Z * ics);
  do_item_update : Z → ics → answer ics;
  do_item_link : Z → ics → answer ics;
  do_item_replace : Z → Z → ics → answer ics;
  do_item_unlink : Z → ics → answer ics;
  do_item_remove : Z → ics → answer ics;
  refcount_decr : Z → ics → answer ics
}.

Class ItemLaws (I : ItemCache) := {
  (** [n] more operations overflow no counter. *)
  i_inv : nat → ics → Prop;
  (** the items in the hash table *)
  linked : ics → gmap bytes Z;
  (** a lower bound on the references of the callers *)
  refs : ics → Z → Z;
  (** the largest value an item of the key can hold in one chunk *)
  i_max : bytes → Z;
  i_less n s : i_inv (S n) s → i_inv n s;
  refs_nonneg n s a : i_inv n s → 0 ≤ refs s a;
  refs_null n s : i_inv n s → ¬ 1 ≤ refs s 0;
  linked_key n s k a : i_inv n s → linked s !! k = Some a → a ≠ 0 ∧ it_key s a = k;

  (** the item is the caller's still, or still in the table *)
  keeps := λ s s' a, refs s a ≤ refs s' a ∧ it_key s' a = it_key s a ∧ it_nbytes s' a = it_nbytes s a;

  ilaw_get n s k c u : i_inv (S n) s → ∃ a s', do_item_get k c u s = Answer (a, s') ∧ i_inv n s' ∧
    (a = 0 ∧ linked s' = delete k (linked s) ∨
     linked s !! k = Some a ∧ linked s' = linked s ∧ refs s a + 1 ≤ refs s' a ∧ it_nbytes s' a = it_nbytes s a) ∧
    ∀ b, b ≠ a → 1 ≤ refs s b ∨ (∃ k', linked s' !! k' = Some b) → keeps s s' b;
  ilaw_alloc n s locked k flags exptime nb : i_inv (S n) s → nb ≤ i_max k →
    match item_alloc locked k flags exptime nb s with
    | Assertion => False
    | Never => True
    | Answer (a, s') => i_inv n s' ∧ linked s' ⊆ linked s ∧ (locked = true → linked s' !! k = linked s !! k) ∧
        (∀ b, 1 ≤ refs s b ∨ (∃ k', linked s' !! k' = Some b) → b ≠ a ∧ keeps s s' b) ∧
        if nb <? 2 then a = 0
        else a ≠ 0 ∧ refs s' a = 1 ∧ it_key s' a = k ∧ it_nbytes s' a = nb
    end;
  ilaw_link n s k a : i_inv (S n) s → linked s !! k = None → 1 ≤ refs s a →
    (∀ k', linked s !! k' ≠ Some a) → it_key s a = k →
    ∃ s', do_item_link a s = Answer s' ∧ i_inv n s' ∧ linked s' = <[k := a]> (linked s) ∧
      ∀ b, 1 ≤ refs s b ∨ (∃ k', linked s' !! k' = Some b) → keeps s s' b;
  ilaw_unlink n s k a : i_inv (S n) s → linked s !! k = Some a →
    ∃ s', do_item_unlink a s = Answer s' ∧ i_inv n s' ∧ linked s' = delete k (linked s) ∧
      ∀ b, 1 ≤ refs s b ∨ (∃ k', linked s' !! k' = Some b) → keeps s s' b;
  ilaw_replace n s k a b : i_inv (S n) s → linked s !! k = Some a → 1 ≤ refs s b →
    (∀ k', linked s !! k' ≠ Some b) → it_key s b = k →
    ∃ s', do_item_replace a b s = Answer s' ∧ i_inv n s' ∧ linked s' = <[k := b]> (linked s) ∧
      ∀ d, 1 ≤ refs s d ∨ (∃ k', linked s' !! k' = Some d) → keeps s s' d;
  ilaw_remove n s a : i_inv (S n) s → 1 ≤ refs s a →
    ∃ s', do_item_remove a s = Answer s' ∧ i_inv n s' ∧ linked s' = linked s ∧
      (2 ≤ refs s a ∨ (∃ k, linked s !! k = Some a) →
         refs s a - 1 ≤ refs s' a ∧ it_key s' a = it_key s a ∧ it_nbytes s' a = it_nbytes s a) ∧
      ∀ b, b ≠ a → 1 ≤ refs s b ∨ (∃ k', linked s' !! k' = Some b) → keeps s s' b;
  ilaw_decr n s k a : i_inv (S n) s → linked s !! k = Some a → 1 ≤ refs s a →
    ∃ s', refcount_decr a s = Answer s' ∧ i_inv n s' ∧ linked s' = linked s ∧ it_nbytes s' a = it_nbytes s a ∧
      ∀ b, b ≠ a → 1 ≤ refs s b ∨ (∃ k', linked s' !! k' = Some b) → keeps s s' b
}.
