(* ===== verification/CacheItems.v ===== *)
(** The local cache that the service uses: the items of [items.c], in the memory of
    [slabs.c], found by the table of [assoc.c].

    The functions of [items.c] are those that [thread.c] and [cache_api.cc] call.  Each
    call takes the time, the locks that other threads hold, the space in the bump buffer
    and the answers of the C library from the world outside, which may do anything between
    two calls. *)

From S2P Require Import Prelude TagPtr Fam KvsRadixTree CacheIface.
From S2P Require Import Item Slabs Assoc Items Itoa ItemFrame ItemInv ItemAlloc ItemAllocSpec ItemNew ItemOps.

Record env := mkEnv {
  e_now : Z;                  (* [current_time] *)
  e_trylock : Z → bool;       (* whether [item_trylock(hv)] succeeds, but for our own locks *)
  e_space : bool;             (* whether the bump buffer takes an entry *)
  e_os : slab_state → os;
  e_fuel : nat                (* how many rounds an allocation may take *)
}.

(** The client's flags are in the suffix of the item.  [si_world i] is the world outside at
    the [i]-th call from now. *)
Record sitems := mkSItems { si_cache : cache; si_flags : gmap Z Z; si_world : nat → env }.

Section CacheItems.
Context (st : alloc_settings) (hash : bytes → Z).

Definition later (s : sitems) : nat → env := λ i, si_world s (S i).
Definition with_cache (s : sitems) (c : cache) : sitems := mkSItems c (si_flags s) (later s).

Definition on_cache (f : env → cache → option cache) (s : sitems) : answer sitems :=
  c ← asserting (f (si_world s 0%nat) (si_cache s)); Answer (with_cache s c).

Definition hash_of (c : cache) (a : Z) : Z := hash (key (ith c a)).

#[export] Instance SlabItems : ItemCache := {
  ics := sitems;
  it_key s a := key (ith (si_cache s) a);
  it_nbytes s a := nbytes (ith (si_cache s) a);
  it_exptime s a := exptime (ith (si_cache s) a);
  it_client_flags s a := u32 (default 0 (si_flags s !! a));
  it_cas s a := u64 (ITEM_get_cas (ith (si_cache s) a));
  do_item_get k conn u s :=
    let e := si_world s 0%nat in
    '(c, a) ← asserting (Items.do_item_get (item_st st) (e_now e) (si_cache s) k (hash k)
                           (if conn then Some (e_space e) else None) u);
    Answer (a, with_cache s c);
  item_alloc locked k flags ex nb s :=
    let e := si_world s 0%nat in
    '(c, a) ← do_item_alloc st hash (e_now e) (λ hv, e_trylock e hv && negb (locked && (hv =? hash k)))
                (e_os e) (e_fuel e) (si_cache s) k flags ex nb;
    Answer (a, mkSItems c (<[a := flags]> (si_flags s)) (later s));
  do_item_update a := on_cache (λ e c, Items.do_item_update (item_st st) (e_now e) c a);
  do_item_link a := on_cache (λ e c, Items.do_item_link (item_st st) (e_now e) c a (hash_of c a));
  do_item_replace a b := on_cache (λ e c, Items.do_item_replace (item_st st) (e_now e) c a b (hash_of c a));
  do_item_unlink a := on_cache (λ _ c, Items.do_item_unlink (item_st st) c a (hash_of c a));
  do_item_remove a := on_cache (λ _ c, Items.do_item_remove (item_st st) c a);
  refcount_decr a := on_cache (λ _ c, Some (Items.refcount_decr c a))
}.

End CacheItems.

(** ** The laws *)

Definition linked_of (c : cache) : gmap bytes Z := it_id <$> amap (table c).
Definition refs_of (c : cache) (a : Z) : Z := if decide (used c a) then extra c a else 0.

Definition keep (c c' : cache) (b : Z) : Prop :=
  refs_of c b ≤ refs_of c' b ∧ key (ith c' b) = key (ith c b) ∧ nbytes (ith c' b) = nbytes (ith c b).

Lemma refs_used c a : 1 ≤ refs_of c a → used c a ∧ 1 ≤ extra c a.
Proof. unfold refs_of. destruct (decide (used c a)); [done|lia]. Qed.

Lemma refs_extra c a : used c a → refs_of c a = extra c a.
Proof. intros Hu. unfold refs_of. by rewrite decide_True. Qed.

Lemma keep_refl c b : keep c c b.
Proof. done. Qed.

Lemma keep_trans c1 c2 c3 b : keep c1 c2 b → keep c2 c3 b → keep c1 c3 b.
Proof. intros (A1 & A2 & A3) (B1 & B2 & B3). split_and!; [lia|congruence|congruence]. Qed.

Lemma keep_step c c' a b : step c c' a → b ≠ a → keep c c' b.
Proof.
  intros HS Hb. destruct (step_key c c' a b HS) as [Hk Hn]. split_and!; try done.
  unfold refs_of. pose proof (step_used c c' a b HS Hb) as Hu. destruct (step_fields c c' a b HS Hb) as (_ & _ & He).
  destruct (decide (used c b)), (decide (used c' b)); try tauto; lia.
Qed.

Lemma keep_self c c' a : step c c' a → used c a → used c' a → extra c a ≤ extra c' a → keep c c' a.
Proof. intros HS Hu Hu' He. destruct (step_key c c' a a HS). split_and!; [|done..]. by rewrite !refs_extra. Qed.

Section Laws.
Context (st : alloc_settings) (hash : bytes → Z).
Abbreviation inv := (ItemInv.inv (item_st st) hash).

Lemma linked_lookup n c L k a : inv n c L →
  linked_of c !! k = Some a ↔ amap (table c) !! k = Some (mkItem k a).
Proof.
  intros HI. unfold linked_of. rewrite lookup_fmap, fmap_Some. split; [|by intros ->; eexists].
  intros ([k' a'] & Hk & ->). pose proof Hk as [_ Hkey]%(amap_lookup hash); [|apply (v_ok _ _ _ _ _ HI)]. cbn in *. by subst.
Qed.

(** An item of the table is in a queue. *)
Lemma linked_in n c L k a : inv n c L → linked_of c !! k = Some a →
  ∃ id, (id < LARGEST_ID)%nat ∧ a ∈ L id ∧ key (ith c a) = k ∧ used c a ∧ is_linked c a = true ∧ a ≠ 0.
Proof.
  intros HI Hk. apply (linked_lookup n c L k a HI) in Hk.
  destruct (co_map _ _ _ _ _ (v_ok _ _ _ _ _ HI) k _ Hk) as (id & Hid & Hin & Hkey); [apply not_elem_of_nil|].
  destruct (inv_queued _ _ _ _ _ _ _ HI Hid Hin) as (Hu & Hl & _ & H0 & _). exists id. done.
Qed.

(** An item with the mark is in the table. *)
Lemma unlinked_mark n c L a : inv n c L → used c a → (∀ k, linked_of c !! k ≠ Some a) → is_linked c a = false.
Proof.
  intros HI Hu Hn. destruct (is_linked c a) eqn:E; [|done]. exfalso.
  destruct (v_flag _ _ _ _ _ HI a Hu E) as (id & Hid & Ha). destruct (inv_queued _ _ _ _ _ _ _ HI Hid Ha) as (_ & _ & _ & _ & Hm).
  apply (Hn (key (ith c a))). by apply (linked_lookup n c L _ a HI).
Qed.

Lemma keep_evolving lk n c L c' b :
  inv n c L → evolving lk c c' → 1 ≤ refs_of c b ∨ (∃ k, linked_of c' !! k = Some b) →
  (∀ k, linked_of c' !! k = Some b → amap (table c') !! k = Some (mkItem k b)) → keep c c' b.
Proof.
  intros HI HE Hb Hlk. assert (used c b ∧ (1 ≤ extra c b ∨ in_table c' b)) as [Hu Hc].
  { destruct Hb as [[Hu He]%refs_used|[k Hk]]; [by auto|]. pose proof (Hlk k Hk) as Hk'. split; [|right; by exists k].
    assert (linked_of c !! k = Some b) as Hk2.
    { apply (linked_lookup n c L k b HI). eapply lookup_weaken; [exact Hk'|apply HE]. }
    by destruct (linked_in n c L k b HI Hk2) as (_ & _ & _ & _ & ? & _). }
  destruct (ev_keep _ _ HE b Hu Hc) as [Hu' He]. destruct (ev_key _ _ HE b Hu'). split_and!; try done.
  rewrite !refs_extra by done. lia.
Qed.

Lemma step_sizes c c' a : step c c' a → same_sizes (slab c) (slab c').
Proof. intros HS. apply same_shape_sizes, (fr_shape _ _ _ (st_frame _ _ _ HS)). Qed.

(** What a call leaves: the invariant, the classes, and the table [M]. *)
Record left_ (n : nat) (c c' : cache) (M : gmap bytes Z) : Prop := {
  le_inv : ∃ L', inv n c' L';
  le_sizes : same_sizes (slab c) (slab c');
  le_linked : linked_of c' = M
}.

Lemma op_get now n c L k conn u :
  inv (S n) c L → ∃ c' a, Items.do_item_get (item_st st) now c k (hash k) conn u = Some (c', a) ∧
    (a = 0 ∧ left_ n c c' (delete k (linked_of c)) ∨
     linked_of c !! k = Some a ∧ left_ n c c' (linked_of c) ∧ refs_of c a + 1 ≤ refs_of c' a ∧ nbytes (ith c' a) = nbytes (ith c a)) ∧
    ∀ b, b ≠ a → 1 ≤ refs_of c b ∨ (∃ k', linked_of c' !! k' = Some b) → keep c c' b.
Proof.
  intros HI. destruct (get_inv _ hash now n c L k conn u HI) as (c' & L' & a & E & HI' & Hcase). exists c', a. split; [done|].
  destruct Hcase as [(-> & Hm & HE)|(Ha0 & Hk & Ht & HS & Hu & Hu' & He)]; (split; [|intros b Hb Hr]).
  - left. split; [done|]. split; [eauto|apply same_shape_sizes, HE|]. unfold linked_of. by rewrite Hm, fmap_delete.
  - eapply keep_evolving; [done..|]. intros k' Hk'. by apply (linked_lookup n c' L' k' b HI').
  - right. split; [by apply (linked_lookup _ c L k a HI)|]. split; [split; [eauto|by eapply step_sizes|]|].
    + unfold linked_of. by rewrite Ht.
    + rewrite !refs_extra by done. split; [done|]. by destruct (step_key c c' a a HS).
  - by eapply keep_step.
Qed.

Lemma op_link now n c L k a :
  inv (S n) c L → linked_of c !! k = None → 1 ≤ refs_of c a → (∀ k', linked_of c !! k' ≠ Some a) → key (ith c a) = k →
  ∃ c', Items.do_item_link (item_st st) now c a (hash_of hash c a) = Some c' ∧ left_ n c c' (<[k := a]> (linked_of c)) ∧
    ∀ b, keep c c' b.
Proof.
  intros HI Hn [Hu He]%refs_used Hun Hk. pose proof (unlinked_mark _ _ _ _ HI Hu Hun) as Hl.
  destruct (link_inv _ hash now n c L a HI Hu Hl) as (c' & L' & E & HI' & HS & Hm & Hu' & He').
  { rewrite Hk. unfold linked_of in Hn. rewrite lookup_fmap in Hn. by apply fmap_None in Hn. }
  exists c'. split; [done|]. split; [split; [eauto|by eapply step_sizes|]|].
  - unfold linked_of. by rewrite Hm, fmap_insert, Hk.
  - intros b. destruct (decide (b = a)) as [->|Hb]; [|by eapply keep_step]. apply keep_self; try done. lia.
Qed.

Lemma op_unlink n c L k a :
  inv n c L → linked_of c !! k = Some a →
  ∃ c', Items.do_item_unlink (item_st st) c a (hash_of hash c a) = Some c' ∧ left_ n c c' (delete k (linked_of c)) ∧
    ∀ b, 1 ≤ refs_of c b ∨ b ≠ a → keep c c' b.
Proof.
  intros HI Hk. destruct (linked_in n c L k a HI Hk) as (id & Hid & Ha & Hkey & Hu & Hl & Ha0).
  pose proof Ha as (l1 & l2 & HL)%list_elem_of_split.
  destruct (unlink_inv _ hash n c L a id l1 l2 HI Hid HL) as (c' & E & HI' & HS & Hm & Hcase).
  exists c'. split; [done|]. split; [split; [eauto|by eapply step_sizes|]|].
  - unfold linked_of. by rewrite Hm, fmap_delete, Hkey.
  - intros b Hb. destruct (decide (b = a)) as [->|Hne]; [|by eapply keep_step].
    destruct Hb as [[_ He]%refs_used|]; [|done]. unfold extra in He. rewrite Hl in He.
    rewrite (proj2 (Z.eqb_neq _ _)) in Hcase by lia. destruct Hcase as (Hu' & Hr' & Hl').
    apply keep_self; try done. unfold extra. rewrite Hl, Hl', Hr'. lia.
Qed.

Lemma op_remove n c L a :
  inv n c L → 1 ≤ refs_of c a →
  ∃ c', Items.do_item_remove (item_st st) c a = Some c' ∧ left_ n c c' (linked_of c) ∧
    (2 ≤ refs_of c a ∨ (∃ k, linked_of c !! k = Some a) →
       refs_of c a - 1 ≤ refs_of c' a ∧ key (ith c' a) = key (ith c a) ∧ nbytes (ith c' a) = nbytes (ith c a)) ∧
    ∀ b, b ≠ a → keep c c' b.
Proof.
  intros HI Hr. pose proof (refs_used _ _ Hr) as [Hu He].
  destruct (remove_inv _ hash n c L a HI Hu He) as (c' & E & HI' & HS & Ht & Hcase). destruct (step_key c c' a a HS) as [Hkey Hnb].
  exists c'. split; [done|]. split; [split; [eauto|by eapply step_sizes|by unfold linked_of; rewrite Ht]|].
  split; [|intros b Hb; by eapply keep_step]. intros H. split_and!; try done.
  rewrite (refs_extra c a Hu) in H |- *. assert (refcount (ith c a) ≠ 1) as Hne.
  { unfold extra in *. destruct H as [H|[k Hk]]; [destruct (is_linked c a); lia|].
    destruct (linked_in n c L k a HI Hk) as (_ & _ & _ & _ & _ & Hl & _). rewrite Hl in He. lia. }
  rewrite (proj2 (Z.eqb_neq _ _) Hne) in Hcase. destruct Hcase as (Hu' & Hr' & Hl'). rewrite (refs_extra c' a Hu').
  unfold extra. rewrite Hl', Hr'. lia.
Qed.

Lemma op_decr n c L k a :
  inv n c L → linked_of c !! k = Some a → 1 ≤ refs_of c a →
  let c' := Items.refcount_decr c a in left_ n c c' (linked_of c) ∧ nbytes (ith c' a) = nbytes (ith c a) ∧
    ∀ b, b ≠ a → keep c c' b.
Proof.
  intros HI Hk [Hu He]%refs_used c'. destruct (linked_in n c L k a HI Hk) as (id & Hid & Ha & _).
  destruct (decr_inv _ hash n c L a id HI Hid Ha He) as (HI' & HS & _ & _ & Ht).
  split; [split; [eauto|by eapply step_sizes|done]|]. split; [by destruct (step_key c c' a a HS)|].
  intros b Hb. by eapply keep_step.
Qed.

(** A replacement is an unlinking and a linking. *)
Lemma op_replace now n c L k a b :
  inv (S n) c L → linked_of c !! k = Some a → 1 ≤ refs_of c b → (∀ k', linked_of c !! k' ≠ Some b) → key (ith c b) = k →
  ∃ c', Items.do_item_replace (item_st st) now c a b (hash_of hash c a) = Some c' ∧ left_ n c c' (<[k := b]> (linked_of c)) ∧
    ∀ d, 1 ≤ refs_of c d ∨ d ≠ a → keep c c' d.
Proof.
  intros HI Hk Hr Hun Hkb. destruct (linked_in _ c L k a HI Hk) as (id & Hid & Ha & Hkey & Hu & _).
  destruct (op_unlink (S n) c L k a HI Hk) as (c1 & E1 & [[L1 HI1] HS1 HM1] & Hkeep1).
  destruct (Hkeep1 b) as (Hr1 & Hk1 & _); [by left|].
  destruct (op_link now n c1 L1 k b HI1) as (c' & E' & Hleft & Hkeep2).
  { rewrite HM1. apply lookup_delete_eq. }
  { lia. }
  { rewrite HM1. intros k' [_ Hk']%lookup_delete_Some. by apply (Hun k'). }
  { congruence. }
  exists c'. split_and!.
  - unfold Items.do_item_replace. rewrite (u_slabbed _ _ _ Hu). cbn [negb assert_ mbind option_bind]. rewrite E1.
    cbn [mbind option_bind]. rewrite <-E'. f_equal. unfold hash_of. congruence.
  - destruct Hleft as [HI' HS' HM']. split; [done|by eapply same_sizes_trans|]. rewrite HM', HM1. apply insert_delete_eq.
  - intros d Hd. eapply keep_trans; [by apply Hkeep1|apply Hkeep2].
Qed.

(** *** Allocation *)

Context (now : Z) (trylock : Z → bool) (os_of : slab_state → os).
Context (Hrep : tail_repair_time st = 0).
Context (Hseg : lru_segmented (item_st st) = true).
Context (Hsizes : slab_chunk_size_max (slab_settings (item_st st)) ≤ item_size_max (slab_settings (item_st st))).
Context (Hmalloc : ∀ s id, slabs_ok (slab_settings (item_st st)) s → valid s id → malloc_ok (slab_settings (item_st st)) s id (os_of s)).

(** The largest class has the largest chunks. *)
Definition largest_ok (c : cache) : Prop :=
  slab_chunk_size_max (slab_settings (item_st st)) ≤ size (cls (slab c) (power_largest (slab c))).

(** What fits in one chunk, whatever the client's flags: the suffix has at most 255 bytes. *)
Definition max_bytes (k : bytes) : Z :=
  if decide (Z.of_nat (length k) ≤ 250) then
    slab_chunk_size_max (slab_settings (item_st st)) - (sizeof_item + Z.of_nat (length k) + 1 + 255 + 8) else 1.

Lemma total_fits k flags nb : 2 ≤ nb ≤ max_bytes k →
  Z.of_nat (length k) ≤ 250 ∧ item_total st k flags nb ≤ slab_chunk_size_max (slab_settings (item_st st)).
Proof.
  intros [H2 Hm]. unfold max_bytes in Hm. destruct (decide _) as [Hk|]; [|lia]. split; [done|].
  unfold item_total, item_make_header. cbn [snd].
  assert (∀ x, u8 x ≤ 255) as Hu by (intros x; assert (u8 x < 256); [by apply Z.mod_pos_bound|lia]).
  pose proof (Hu (Z.of_nat (length (dec flags) + length (sdec (nb - 2))) + 4)).
  assert (u8 (Z.of_nat (length k) + 1) = Z.of_nat (length k) + 1) as -> by (apply Z.mod_small; lia).
  destruct (inline_ascii_response st), (flags =? 0), (use_cas _); lia.
Qed.

Lemma op_alloc fuel n c L k flags ex nb :
  inv (S n) c L → Z.of_nat n < 2 ^ 14 → largest_ok c → nb ≤ max_bytes k →
  ends (do_item_alloc st hash now trylock os_of fuel c k flags ex nb) (λ '(c', a), ∃ M, left_ n c c' M ∧
    M ⊆ linked_of c ∧ (∀ k', trylock (hash k') = false → M !! k' = linked_of c !! k') ∧
    (∀ b, 1 ≤ refs_of c b ∨ (∃ k', M !! k' = Some b) → b ≠ a ∧ keep c c' b) ∧
    if nb <? 2 then a = 0 else a ≠ 0 ∧ refs_of c' a = 1 ∧ key (ith c' a) = k ∧ nbytes (ith c' a) = nb).
Proof using Hmalloc Hrep Hseg Hsizes.
  intros HI Hn Hbig Hnb. destruct (Z.ltb_spec nb 2) as [H2|H2].
  { unfold do_item_alloc. rewrite (proj2 (Z.ltb_lt _ _) H2). exists (linked_of c).
    split_and!; [split; [exists L; by apply inv_less|done|done]|done|done| |done]. intros b Hb. split; [|apply keep_refl]. intros ->.
    destruct Hb as [[Hu _]%refs_used|[k' Hk']]; [|by destruct (linked_in _ c L k' 0 HI Hk') as (? & ? & ? & ? & ? & ? & ?)].
    by apply (use_nonzero _ _ (v_ok _ _ _ _ _ HI)) in Hu. }
  destruct (total_fits k flags nb) as [Hk Htot]; [lia|].
  eapply ends_mono; [apply (item_alloc_ok st hash now trylock os_of Hrep Hmalloc fuel n c L); done|].
  intros [c' a] (HS & L' & Hcase). cbn [fst snd] in *. destruct (Z.eqb_spec a 0) as [->|Ha0].
  { exfalso. destruct Hcase as (_ & _ & [?|[?|?]]); [lia|lia|congruence]. }
  destruct Hcase as [HI' [Hu [Hr Hl] (Hkey & Hnbs & _) _ _ Hsub Hlk Hkeep]].
  assert (linked_of c' ⊆ linked_of c) as HM by by apply map_fmap_mono.
  assert (∀ b, 1 ≤ refs_of c b ∨ (∃ k', linked_of c' !! k' = Some b) → used c b) as Hold.
  { intros b [[? _]%refs_used|[k' Hk']]; [done|].
    by destruct (linked_in _ c L k' b HI (lookup_weaken _ _ _ _ Hk' HM)) as (_ & _ & _ & _ & ? & _). }
  exists (linked_of c'). split_and!; try done.
  - split; [eauto|done|done].
  - intros k' Hk'. unfold linked_of. rewrite !lookup_fmap. by rewrite (Hlk k' Hk').
  - intros b Hb. destruct (Hkeep b (Hold b Hb)) as (Hne & Hub & Heb & Hkb & Hnb').
    + destruct Hb as [[_ ?]%refs_used|[k' Hk']]; [by left|right]. exists k'. by apply (linked_lookup n c' L' k' b HI').
    + split; [done|]. split_and!; try done. rewrite (refs_extra c' b Hub), (refs_extra c b (Hold b Hb)). lia.
  - rewrite refs_extra by done. unfold extra. rewrite Hl, Hr. lia.
Qed.

End Laws.

(** The settings that the laws ask for. *)
Record items_settings_ok (st : alloc_settings) : Prop := {
  so_repair : tail_repair_time st = 0;
  so_segmented : lru_segmented (item_st st) = true;
  so_sizes : slab_chunk_size_max (slab_settings (item_st st)) ≤ item_size_max (slab_settings (item_st st))
}.

(** What the C library promises. *)
Definition world_ok (st : alloc_settings) (w : nat → env) : Prop :=
  ∀ i s id, slabs_ok (slab_settings (item_st st)) s → valid s id →
    malloc_ok (slab_settings (item_st st)) s id (e_os (w i) s).

Section Instance_.
Context (st : alloc_settings) (hash : bytes → Z) (Hst : items_settings_ok st).

Definition items_inv (n : nat) (s : sitems) : Prop :=
  Z.of_nat n < 2 ^ 14 ∧ largest_ok st (si_cache s) ∧ world_ok st (si_world s) ∧ ∃ L, inv (item_st st) hash n (si_cache s) L.

Lemma largest_kept n c L c' : inv (item_st st) hash n c L → largest_ok st c → same_sizes (slab c) (slab c') → largest_ok st c'.
Proof.
  intros HI Hl [Hpl Hs]. unfold largest_ok in *. rewrite Hpl, Hs; [done|].
  pose proof (p_largest _ _ (s_pages _ _ (co_slabs _ _ _ _ _ (v_ok _ _ _ _ _ HI)))). unfold valid. lia.
Qed.

(** The invariant after a call of [items.c]. *)
Lemma left_inv n m s c L c' M f :
  items_inv n s → si_cache s = c → inv (item_st st) hash n c L → left_ st hash m c c' M → (m = n ∨ n = S m) →
  items_inv m (mkSItems c' f (later s)) ∧ linked_of c' = M.
Proof.
  intros (Hn & Hl & Hw & _) <- HI [HI' HS HM] Hm. split; [|done].
  split_and!; [lia|by eapply largest_kept|intros i; apply (Hw (S i))|done].
Qed.

Lemma left_less n s c L c' M f :
  items_inv (S n) s → si_cache s = c → inv (item_st st) hash (S n) c L → left_ st hash (S n) c c' M →
  items_inv n (mkSItems c' f (later s)) ∧ linked_of c' = M.
Proof.
  intros Hs Hc HI Hlf. destruct (left_inv (S n) (S n) s c L c' M f Hs Hc HI Hlf) as [(? & ? & ? & L' & HI') HM]; [by left|].
  split; [|done]. split_and!; [lia|done|done|]. exists L'. by apply inv_less.
Qed.

Lemma linked_one n c L k k' a :
  inv (item_st st) hash n c L → linked_of c !! k = Some a → linked_of c !! k' = Some a → k = k'.
Proof.
  intros HI Hk Hk'.
  destruct (linked_in _ _ _ _ L k a HI Hk) as (_ & _ & _ & <- & _), (linked_in _ _ _ _ L k' a HI Hk') as (_ & _ & _ & <- & _). done.
Qed.

#[local] Abbreviation I := (SlabItems st hash).

#[export] Instance SlabItemsLaws : ItemLaws (SlabItems st hash).
Proof.
  refine {| i_inv n (s : @ics I) := items_inv n s; linked (s : @ics I) := linked_of (si_cache s);
            refs (s : @ics I) a := refs_of (si_cache s) a; i_max := max_bytes st |}.
  - intros n s (Hn & Hl & Hw & L & HI). split_and!; [lia|done|done|]. exists L. by apply inv_less.
  - intros n s a (_ & _ & _ & L & HI). unfold refs_of. destruct (decide _) as [Hu|]; [by apply (v_low _ _ _ _ _ HI)|done].
  - intros n s (_ & _ & _ & L & HI) [Hu _]%refs_used. by apply (use_nonzero _ _ (v_ok _ _ _ _ _ HI)) in Hu.
  - intros n s k a (_ & _ & _ & L & HI) Hk. by destruct (linked_in _ _ n _ L k a HI Hk) as (_ & _ & _ & ? & _ & _ & ?).
  - intros n s k conn u Hi. pose proof Hi as (_ & _ & _ & L & HI). set (e := si_world s 0%nat).
    destruct (op_get st hash (e_now e) n (si_cache s) L k (if conn then Some (e_space e) else None) u HI)
      as (c' & a & E & Hcase & Hkeep).
    cbn. fold e. rewrite E. exists a, (with_cache s c'). split; [done|]. cbn [with_cache si_cache].
    destruct Hcase as [[-> Hlf]|(Hk & Hlf & Hr & Hnb)]; (eapply left_inv in Hlf as [Hi' HM]; [|done..|by right]);
      (split; [done|]); (split; [|done]); [by left|by right].
  - intros n s locked k flags ex nb Hi Hnb. pose proof Hi as (Hn & Hl & Hw & L & HI). cbn [item_alloc SlabItems].
    set (e := si_world s 0%nat). set (tl := λ hv, e_trylock e hv && negb (locked && (hv =? hash k))).
    pose proof (op_alloc st hash (e_now e) tl (e_os e) (so_repair _ Hst) (so_segmented _ Hst) (so_sizes _ Hst)
      (Hw 0%nat) (e_fuel e) n (si_cache s) L k flags ex nb HI ltac:(lia) Hl Hnb) as H.
    destruct (do_item_alloc _ _ _ _ _ _ _ _ _ _ _) as [[c' a]| |]; [|done..]. cbn [ends mbind answer_bind] in *.
    destruct H as (M & Hlf & Hsub & Hlk & Hkeep & Hnew). eapply left_inv in Hlf as [Hi' HM]; [|done..|by right].
    cbn [si_cache]. rewrite HM. split_and!; try done. intros ->. apply Hlk. unfold tl. rewrite Z.eqb_refl. apply andb_false_r.
  - intros n s k a Hi Hk Hr Hun Hkey. pose proof Hi as (_ & _ & _ & L & HI).
    destruct (op_link st hash (e_now (si_world s 0%nat)) n (si_cache s) L k a HI Hk Hr Hun Hkey) as (c' & E & Hlf & Hkeep).
    cbn. unfold on_cache. rewrite E. exists (with_cache s c'). split; [done|]. eapply left_inv in Hlf as [Hi' HM]; [|done..|by right].
    split_and!; try done. intros b _. apply Hkeep.
  - intros n s k a Hi Hk. pose proof Hi as (_ & _ & _ & L & HI).
    destruct (op_unlink st hash (S n) (si_cache s) L k a HI Hk) as (c' & E & Hlf & Hkeep).
    cbn. unfold on_cache. rewrite E. exists (with_cache s c'). split; [done|]. eapply left_less in Hlf as [Hi' HM]; [|done..].
    split_and!; try done. intros b Hb. apply Hkeep. destruct Hb as [Hb|[k' Hk']]; [by left|right]. intros ->.
    cbn [with_cache si_cache] in Hk'. rewrite HM in Hk'. apply lookup_delete_Some in Hk' as [Hne Hk']. by apply Hne, (linked_one _ _ _ _ _ _ HI Hk).
  - intros n s k a b Hi Hk Hr Hun Hkey. pose proof Hi as (_ & _ & _ & L & HI).
    destruct (op_replace st hash (e_now (si_world s 0%nat)) n (si_cache s) L k a b HI Hk Hr Hun Hkey) as (c' & E & Hlf & Hkeep).
    cbn. unfold on_cache. rewrite E. exists (with_cache s c'). split; [done|]. eapply left_inv in Hlf as [Hi' HM]; [|done..|by right].
    split_and!; try done. intros d Hd. apply Hkeep. destruct Hd as [Hd|[k' Hk']]; [by left|].
    cbn [with_cache si_cache] in Hk'. rewrite HM in Hk'. apply lookup_insert_Some in Hk' as [[<- <-]|[Hne Hk']]; [by left|right].
    intros ->. by apply Hne, (linked_one _ _ _ _ _ _ HI Hk).
  - intros n s a Hi Hr. pose proof Hi as (_ & _ & _ & L & HI).
    destruct (op_remove st hash (S n) (si_cache s) L a HI Hr) as (c' & E & Hlf & Hself & Hkeep).
    cbn. unfold on_cache. rewrite E. exists (with_cache s c'). split; [done|]. eapply left_less in Hlf as [Hi' HM]; [|done..].
    split_and!; try done. intros b Hb _. by apply Hkeep.
  - intros n s k a Hi Hk Hr. pose proof Hi as (_ & _ & _ & L & HI).
    destruct (op_decr st hash (S n) (si_cache s) L k a HI Hk Hr) as (Hlf & Hnb & Hkeep).
    eexists. split; [done|]. eapply left_less in Hlf as [Hi' HM]; [|done..].
    split_and!; try done. intros b Hb _. by apply Hkeep.
Defined.

End Instance_.
