(* ===== verification/CacheApi.v ===== *)
(** The DRAM cache in front of the store: [extra/KVS-DRAM-Cache/cache_api.cc].

    An item in the cache has, besides its value, the pointers that the store gave for
    its key: the node of the key ([skey]) and the versioned pointer of the value
    ([val_ptr]).  How much is cached depends on [CACHE_MODE]: 0 values and no pointers;
    1 ("full") both; 2 ("short") pointers only; 3 ("hybrid") both, values dropping out
    first; 4 nothing; 5 values, without a store.  [VERSION_MODE] says whether a cached
    value is used as it is (0), after its version has been checked (1), or is always
    fetched again (2).

    The functions are modelled for one thread: taking and releasing the item lock has
    no effect.  Messages are left out, and so are the counters of the connection. *)

From S2P Require Import Prelude TagPtr Fam RadixTree KvsRadixTree CacheIface.

(** The part of an item that the item functions do not look at. *)
Record body := mkBody { skey : Gptr; val_ptr : TagGptr; data : bytes }.

Definition no_body : body := mkBody 0 TagGptr_null [].

Inductive store_item_type := NOT_STORED | STORED | EXISTS | NOT_FOUND.

Section CacheApi.
Context {N : Nvmm} {S : Store} {I : ItemCache}.
Context (CACHE_MODE VERSION_MODE : nat).

(** What [char val[2048]] holds before anything is copied to it. *)
Context (stack : bytes).

(** The state: the cache, the store, the rest of the items, and the counter of hits. *)
Record api := mkApi { items : ics; store : sst; bodies : gmap Z body; num_hit : Z }.

Inductive ares (A : Type) :=
  | AOk (a : A) (s : api)
  | AStore     (* the store aborted *)
  | AAssert    (* an assertion failed, in the store or the item functions *)
  | ANever.    (* an allocation does not return *)
Arguments AOk {A} a s.
Arguments AStore {A}.
Arguments AAssert {A}.
Arguments ANever {A}.

Definition AM (A : Type) : Type := api → ares A.

#[global] Instance AM_ret : MRet AM := λ A a s, AOk a s.
#[global] Instance AM_bind : MBind AM := λ A B f m s,
  match m s with
  | AOk a s' => f a s'
  | AStore => AStore
  | AAssert => AAssert
  | ANever => ANever
  end.

(** *** Calls of the two components *)

Definition with_items (i : ics) (s : api) : api := mkApi i (store s) (bodies s) (num_hit s).
Definition with_store (x : sst) (s : api) : api := mkApi (items s) x (bodies s) (num_hit s).

Definition on_items {A} (f : ics → answer (A * ics)) : AM A := λ s,
  match f (items s) with
  | Answer (a, i) => AOk a (with_items i s)
  | Assertion => AAssert
  | Never => ANever
  end.

Definition on_items_ (f : ics → answer ics) : AM unit := λ s,
  match f (items s) with
  | Answer i => AOk tt (with_items i s)
  | Assertion => AAssert
  | Never => ANever
  end.

Definition on_store {A} (f : sst → answer (A * sst)) : AM A := λ s,
  match f (store s) with
  | Answer (a, x) => AOk a (with_store x s)
  | Assertion => AAssert
  | Never => AStore
  end.

Definition get_body (a : Z) : AM body := λ s, AOk (default no_body (bodies s !! a)) s.
Definition set_body (a : Z) (b : body) : AM unit := λ s,
  AOk tt (mkApi (items s) (store s) (<[a := b]> (bodies s)) (num_hit s)).
Definition set_data (a : Z) (d : bytes) : AM unit :=
  b ← get_body a; set_body a (mkBody (skey b) (val_ptr b) d).
Definition set_ptrs (a : Z) (q : Gptr) (t : TagGptr) : AM unit :=
  b ← get_body a; set_body a (mkBody q t (data b)).
Definition get_nbytes (a : Z) : AM Z := λ s, AOk (it_nbytes (items s) a) s.
Definition get_key (a : Z) : AM bytes := λ s, AOk (it_key (items s) a) s.
Definition HIT : AM unit := λ s, AOk tt (mkApi (items s) (store s) (bodies s) (u64 (num_hit s + 1))).

(** *** Values and items *)

(** [size_t val_len = 2048]. *)
Definition VAL_LEN : Z := 2048.

(** The line end that a value has in an item of a connection. *)
Definition crlf (c : bool) : bytes := if c then [13; 10] else [].

(** [val_len + 2] or [val_len]. *)
Definition item_len (c : bool) (val_len : Z) : Z := if c then val_len + 2 else val_len.

(** [item_alloc(key, nkey, 0, realtime(0), nbytes)]: an item that never expires.  Most
    callers hold the lock of the key. *)
Definition alloc (locked : bool) (key : bytes) (nbytes : Z) : AM Z := on_items (item_alloc locked key 0 0 nbytes).

(** The buffer [val] after a fetch, and its first [val_len] bytes. *)
Definition landed (val : bytes) (f : fetched) : bytes :=
  match f_val f with Some v => v ++ drop (length v) val | None => val end.
Definition copied (val : bytes) (f : fetched) : bytes := take (Z.to_nat (f_len f)) (landed val f).

(** The value of an item that came with a connection, without its line end. *)
Definition value_of (c : bool) (d : bytes) : bytes := if c then take (length d - 2) d else d.

(** *** item_get *)

(** [CACHE_MODE == 0] *)
Definition item_get_0 (key : bytes) (c do_update : bool) : AM Z :=
  it ← on_items (do_item_get key c do_update);
  if it =? 0 then
    f ← on_store (kvs_Get key VAL_LEN);
    if negb (f_ret f =? 0) then mret 0 else
    it ← alloc true key (item_len c (f_len f));
    if it =? 0 then mret 0 else
    set_data it (copied stack f ++ crlf c);;
    on_items_ (do_item_link it);;
    mret it
  else HIT;; mret it.

(** [CACHE_MODE == 4]: the line end is added in any case. *)
Definition item_get_4 (key : bytes) : AM Z :=
  f ← on_store (kvs_Get key VAL_LEN);
  if negb (f_ret f =? 0) then mret 0 else
  it ← alloc false key (f_len f + 2);
  if it =? 0 then mret 0 else
  set_data it (copied stack f ++ crlf true);;
  mret it.

(** The item's pointers and its value, as the store gave them. *)
Definition fill (it : Z) (c : bool) (q : Gptr) (t : TagGptr) (v : bytes) : AM unit :=
  set_body it (mkBody q t (v ++ crlf c)).

(** The labels [full_null] and [hybrid_null]: not in the cache. *)
Definition fetch_and_link (key : bytes) (c : bool) : AM Z :=
  '(f, q, t) ← on_store (λ s, kvs_GetC key VAL_LEN s);
  if (f_ret f =? 0) && (ptr_IsValid q && IsValid t) then
    res ← alloc true key (item_len c (f_len f));
    if res =? 0 then mret 0 else
    on_items_ (do_item_link res);;
    fill res c q t (copied stack f);;
    mret res
  else mret 0.

(** A newer value than that of the item [res] goes into [res] if it has the size for
    it, else into a new item that replaces it; null if there is none. *)
Definition refresh (key : bytes) (c : bool) (res : Z) (q : Gptr) (t : TagGptr) (f : fetched) : AM Z :=
  nb ← get_nbytes res;
  if negb (nb =? item_len c (f_len f)) then
    new ← alloc true key (item_len c (f_len f));
    if new =? 0 then mret 0 else
    on_items_ (do_item_replace res new);;
    on_items_ (do_item_remove res);;
    fill new c q t (copied stack f);;
    mret new
  else fill res c q t (copied stack f);; mret res.

(** [CACHE_MODE == 1] *)
Definition item_get_full (key : bytes) (c do_update : bool) : AM Z :=
  res ← on_items (do_item_get key c do_update);
  if res =? 0 then fetch_and_link key c
  else if (VERSION_MODE =? 0)%nat then HIT;; mret res
  else
    HIT;;
    b ← get_body res;
    on_items_ (do_item_remove res);;
    '(f, t) ← on_store (λ s, kvs_GetP (skey b) (val_ptr b) VAL_LEN (negb (VERSION_MODE =? 1)%nat) s);
    res ← on_items (do_item_get key c do_update);
    if res =? 0 then fetch_and_link key c
    else if (f_ret f =? 0) && (gptr_ t =? 0) then on_items_ (do_item_remove res);; mret 0
    else if f_ret f =? 0 then
      b' ← get_body res;
      if negb (VERSION_MODE =? 1)%nat || (tag (val_ptr b') <? tag t)
      then refresh key c res (skey b) t f
      else mret res
    else on_items_ (do_item_unlink res);; on_items_ (do_item_remove res);; mret 0.

(** An item of its own for the value, which is not linked. *)
Definition detached (key : bytes) (c : bool) (val : bytes) (f : fetched) : AM Z :=
  it ← alloc true key (item_len c (f_len f));
  if it =? 0 then mret 0 else
  set_data it (copied val f ++ crlf c);;
  mret it.

(** [CACHE_MODE == 2]: items in the cache have only the line end for a value. *)
Definition item_get_short (key : bytes) (c : bool) : AM Z :=
  let short_null :=
    '(f, q, t) ← on_store (λ s, kvs_GetC key VAL_LEN s);
    if (f_ret f =? 0) && (ptr_IsValid q && IsValid t) then
      res ← alloc true key 2;
      (if res =? 0 then mret tt
       else on_items_ (do_item_link res);; set_body res (mkBody q t (crlf true));;
            on_items_ (refcount_decr res));;
      detached key c stack f
    else mret 0 in
  res ← on_items (do_item_get key c true);
  if res =? 0 then short_null
  else
    HIT;;
    b ← get_body res;
    on_items_ (do_item_remove res);;
    '(f, t) ← on_store (λ s, kvs_GetP (skey b) (val_ptr b) VAL_LEN true s);
    res ← on_items (do_item_get key c true);
    if res =? 0 then short_null
    else if (f_ret f =? 0) && (gptr_ t =? 0) then mret 0
    else if f_ret f =? 0 then
      b' ← get_body res;
      let val := landed stack f in
      '(f, t) ← (if tag (val_ptr b') <=? tag t then mret (f, t)
                 else on_store (λ s, kvs_GetP (skey b) t (f_len f) true s));
      set_ptrs res (skey b) t;;
      key' ← get_key res;
      it ← detached key' c val f;
      if it =? 0 then mret 0
      else on_items_ (do_item_remove res);; mret it
    else on_items_ (do_item_unlink res);; on_items_ (do_item_remove res);; mret 0.

(** A new item with pointers and value takes the place of [res]. *)
Definition upgrade (c : bool) (res : Z) (q : Gptr) (t : TagGptr) (val : bytes) (f : fetched) : AM Z :=
  key ← get_key res;
  it ← alloc true key (item_len c (f_len f));
  if it =? 0 then mret 0 else
  fill it c q t (copied val f);;
  on_items_ (do_item_replace res it);;
  on_items_ (do_item_remove res);;
  mret it.

(** [kvs->Get(skey, val_ptr_, val, val_len, true)] once more, if [again]. *)
Definition fetch_again (again : bool) (q : Gptr) (t : TagGptr) (f : fetched) : AM (fetched * TagGptr) :=
  if again then on_store (λ s, kvs_GetP q t VAL_LEN true s) else mret (f, t).

(** [CACHE_MODE == 3]: an item with two bytes has only its pointers. *)
Definition item_get_hybrid (key : bytes) (c do_update : bool) : AM Z :=
  res ← on_items (do_item_get key c do_update);
  if res =? 0 then fetch_and_link key c
  else
    nb ← get_nbytes res;
    if negb (nb =? 2) then
      if (VERSION_MODE =? 0)%nat then HIT;; mret res
      else
        HIT;;
        b ← get_body res;
        on_items_ (do_item_remove res);;
        '(f, t) ← on_store (λ s, kvs_GetP (skey b) (val_ptr b) VAL_LEN false s);
        res ← on_items (do_item_get key c do_update);
        if res =? 0 then fetch_and_link key c
        else
          b' ← get_body res;
          nb ← get_nbytes res;
          if nb =? 2 then
            let val := landed stack f in
            '(f, t) ← fetch_again (tag t <=? tag (val_ptr b')) (skey b) t f;
            upgrade c res (skey b) t val f
          else if (f_ret f =? 0) && (gptr_ t =? 0) then on_items_ (do_item_remove res);; mret 0
          else if f_ret f =? 0 then
            if tag (val_ptr b') <? tag t then
              (* the item is replaced even if it keeps its size *)
              new ← (if negb (nb =? item_len c (f_len f))
                     then alloc true key (item_len c (f_len f)) else mret res);
              if new =? 0 then mret 0 else
              on_items_ (do_item_replace res new);;
              on_items_ (do_item_remove res);;
              fill new c (skey b) t (copied stack f);;
              mret new
            else mret res
          else on_items_ (do_item_unlink res);; on_items_ (do_item_remove res);; mret 0
    else
      HIT;;
      b ← get_body res;
      on_items_ (do_item_remove res);;
      '(f, t) ← on_store (λ s, kvs_GetP (skey b) (val_ptr b) VAL_LEN true s);
      res ← on_items (do_item_get key c true);
      if res =? 0 then fetch_and_link key c
      else
        b' ← get_body res;
        nb ← get_nbytes res;
        if negb (nb =? 2) then
          if tag (val_ptr b') <? tag t then refresh key c res (skey b) t f else mret res
        else if (f_ret f =? 0) && (gptr_ t =? 0) then mret 0
        else if f_ret f =? 0 then
          let val := landed stack f in
          '(f, t) ← fetch_again (tag t <? tag (val_ptr b')) (skey b) t f;
          upgrade c res (skey b) t val f
        else on_items_ (do_item_unlink res);; on_items_ (do_item_remove res);; mret 0.

Definition item_get (key : bytes) (c do_update : bool) : AM Z :=
  match CACHE_MODE with
  | 0%nat => item_get_0 key c do_update
  | 1%nat => item_get_full key c do_update
  | 2%nat => item_get_short key c
  | 3%nat => item_get_hybrid key c do_update
  | 4%nat => item_get_4 key
  | _ => on_items (do_item_get key c do_update)
  end.

(** *** store_item *)

(** [comm] of [memcached.h]. *)
Inductive nread := NREAD_ADD | NREAD_SET | NREAD_REPLACE | NREAD_APPEND | NREAD_PREPEND | NREAD_CAS.

(** [_store_item_copy_data(comm, old_it, new_it, add_it)], for items of one chunk. *)
Definition store_item_copy_data (append : bool) (old_it new_it add_it : Z) : AM unit :=
  old ← get_body old_it;
  add ← get_body add_it;
  set_data new_it (if append then take (length (data old) - 2) (data old) ++ data add
                   else take (length (data add) - 2) (data add) ++ data old).

Definition get_cas (a : Z) : AM Z := λ s, AOk (it_cas (items s) a) s.

(** [item_replace(old_it, it, hv)] or [do_item_link(it, hv)]. *)
Definition put_item (old_it it : Z) : AM unit :=
  if old_it =? 0 then on_items_ (do_item_link it) else on_items_ (do_item_replace old_it it).

(** [do_store_item(it, comm, c, hv)] of [memcached.c].  [new_it] is null unless the old
    and the new value are combined. *)
Definition do_store_item (it : Z) (comm : nread) (c : bool) : AM store_item_type :=
  key ← get_key it;
  old_it ← on_items (do_item_get key c false);
  let found := negb (old_it =? 0) in
  '(stored, new_it) ←
    (match comm with
     | NREAD_ADD =>
         if found then on_items_ (do_item_update old_it);; mret (NOT_STORED, 0)
         else put_item old_it it;; mret (STORED, 0)
     | NREAD_SET => put_item old_it it;; mret (STORED, 0)
     | NREAD_REPLACE =>
         if found then put_item old_it it;; mret (STORED, 0) else mret (NOT_STORED, 0)
     | NREAD_CAS =>
         if found then
           mine ← get_cas it;
           theirs ← get_cas old_it;
           if mine =? theirs then put_item old_it it;; mret (STORED, 0) else mret (EXISTS, 0)
         else mret (NOT_FOUND, 0)
     | NREAD_APPEND | NREAD_PREPEND =>
         if found then
           mine ← get_cas it;
           theirs ← get_cas old_it;
           if negb (mine =? 0) && negb (mine =? theirs) then mret (EXISTS, 0)
           else
             n ← get_nbytes it;
             m ← get_nbytes old_it;
             new_it ← (λ s, on_items (item_alloc true key (it_client_flags (items s) old_it)
                                        (it_exptime (items s) old_it) (n + m - 2)) s);
             if new_it =? 0 then mret (NOT_STORED, 0)
             else
               store_item_copy_data (match comm with NREAD_APPEND => true | _ => false end) old_it new_it it;;
               put_item old_it new_it;;
               mret (STORED, new_it)
         else mret (NOT_STORED, 0)
     end : AM (store_item_type * Z));
  (if found then on_items_ (do_item_remove old_it) else mret tt);;
  (if new_it =? 0 then mret tt else on_items_ (do_item_remove new_it));;
  mret stored.

(** [CACHE_MODE == 0]: the result of the second step is ignored. *)
Definition store_item_0 (it : Z) (comm : nread) (c : bool) : AM store_item_type :=
  key ← get_key it;
  b ← get_body it;
  ret ← on_store (kvs_Put key (value_of c (data b)));
  if ret =? 0 then do_store_item it comm c;; mret STORED else mret NOT_STORED.

(** [CACHE_MODE == 4]: the line end is taken off in any case. *)
Definition store_item_4 (it : Z) : AM store_item_type :=
  key ← get_key it;
  b ← get_body it;
  ret ← on_store (kvs_Put key (value_of true (data b)));
  mret (if ret =? 0 then STORED else NOT_STORED).

(** [CACHE_MODE == 1] and [CACHE_MODE == 3] *)
Definition store_item_full (it : Z) (c : bool) : AM store_item_type :=
  key ← get_key it;
  res ← on_items (do_item_get key c false);
  b ← get_body it;
  if negb (res =? 0) then
    HIT;;
    old ← get_body res;
    p ← on_store (kvs_PutP (skey old) (val_ptr old) (value_of c (data b)));
    if p_ret p =? 0 then
      if negb (ptr_IsValid (p_key p)) || negb (IsValid (p_val p)) then
        on_items_ (refcount_decr res);; mret NOT_STORED
      else
        (if negb (tag (val_ptr old) =? tag (p_val p)) || negb (gptr_ (val_ptr old) =? gptr_ (p_val p)) then
           on_items_ (do_item_replace res it);;
           on_items_ (do_item_remove res);;
           set_ptrs it (p_key p) (p_val p)
         else mret tt);;
        mret STORED
    else on_items_ (refcount_decr res);; mret NOT_STORED
  else
    p ← on_store (kvs_PutC key (value_of c (data b)) 0 TagGptr_null);
    if p_ret p =? 0 then
      if negb (ptr_IsValid (p_key p)) || negb (IsValid (p_val p)) then mret NOT_STORED
      else
        set_ptrs it (p_key p) (p_val p);;
        on_items_ (do_item_link it);;
        mret STORED
    else mret NOT_STORED.

(** [CACHE_MODE == 2]: the item itself is not linked, but one with its pointers is. *)
Definition store_item_short (it : Z) (c : bool) : AM store_item_type :=
  key ← get_key it;
  res ← on_items (do_item_get key c false);
  b ← get_body it;
  if negb (res =? 0) then
    HIT;;
    old ← get_body res;
    p ← on_store (kvs_PutP (skey old) (val_ptr old) (value_of c (data b)));
    if p_ret p =? 0 then
      if negb (ptr_IsValid (p_key p)) || negb (IsValid (p_val p)) then
        on_items_ (refcount_decr res);; mret NOT_STORED
      else
        (if negb (tag (val_ptr old) =? tag (p_val p)) || negb (gptr_ (val_ptr old) =? gptr_ (p_val p))
         then set_ptrs res (p_key p) (p_val p) else mret tt);;
        on_items_ (refcount_decr res);;
        mret STORED
    else on_items_ (refcount_decr res);; mret NOT_STORED
  else
    p ← on_store (kvs_PutC key (value_of c (data b)) 0 TagGptr_null);
    if p_ret p =? 0 then
      if negb (ptr_IsValid (p_key p)) || negb (IsValid (p_val p)) then mret NOT_STORED
      else
        res ← alloc true key 2;
        (if res =? 0 then mret tt
         else set_body res (mkBody (p_key p) (p_val p) (crlf true));;
              on_items_ (do_item_link res);;
              on_items_ (refcount_decr res));;
        mret STORED
    else mret NOT_STORED.

Definition store_item (it : Z) (comm : nread) (c : bool) : AM store_item_type :=
  match CACHE_MODE with
  | 0%nat => store_item_0 it comm c
  | 1%nat | 3%nat => store_item_full it c
  | 2%nat => store_item_short it c
  | 4%nat => store_item_4 it
  | _ => do_store_item it comm c
  end.

(** *** Deletion *)

Definition item_remove (it : Z) : AM unit := on_items_ (do_item_remove it).

Definition item_unlink (it : Z) : AM unit :=
  match CACHE_MODE with
  | 0%nat => key ← get_key it; on_items_ (do_item_unlink it);; on_store (kvs_Del key);; mret tt
  | 4%nat => key ← get_key it; on_store (kvs_Del key);; mret tt
  | 5%nat => on_items_ (do_item_unlink it)
  | _ => on_items_ (do_item_unlink it);; b ← get_body it; on_store (kvs_DelP (skey b) (val_ptr b));; mret tt
  end.

Definition item_unlink_kvs (key : bytes) : AM Z := on_store (kvs_Del key).

(** *** The public functions *)

Definition Cache_Put (key val : bytes) : AM Z :=
  if (CACHE_MODE =? 4)%nat then on_store (kvs_Put key val)
  else
    it ← alloc false key (Z.of_nat (length val));
    if it =? 0 then mret (-1) else
    set_data it val;;
    ret ← store_item it NREAD_SET false;
    item_remove it;;
    mret (match ret with STORED | EXISTS => 0 | _ => -1 end).

(** The code, and the value copied to [val] if there is one; [len] is [val_len] on
    entry. *)
Definition Cache_Get (key : bytes) (len : Z) : AM (Z * option bytes) :=
  if (CACHE_MODE =? 4)%nat then f ← on_store (kvs_Get key len); mret (f_ret f, f_val f)
  else
    it ← item_get key false true;
    if it =? 0 then mret (-1, None)
    else
      n ← get_nbytes it;
      b ← get_body it;
      item_remove it;;
      mret (0, Some (take (Z.to_nat n) (data b))).

(** [None]: the function ends without a [return]. *)
Definition Cache_Del (key : bytes) : AM (option Z) :=
  if (CACHE_MODE =? 4)%nat then r ← on_store (kvs_Del key); mret (Some r)
  else
    it ← on_items (do_item_get key false false);
    if it =? 0 then
      if (CACHE_MODE =? 5)%nat then r ← item_unlink_kvs key; mret (Some r) else mret None
    else
      item_unlink it;;
      item_remove it;;
      mret (Some 0).

End CacheApi.

Arguments AOk {N S I A} a s.
Arguments AStore {N S I A}.
Arguments AAssert {N S I A}.
Arguments ANever {N S I A}.
