(* ===== verification/Command.v ===== *)
(** The text protocol: [process_command] of [extra/KVS-DRAM-Cache/memcached.c] and the
    functions it hands a command to.

    The functions that work on the items, the slabs, the crawler and the log are an
    interface.  What the text functions themselves change is the connection, the
    settings and [errno].  The statistics of the threads and the messages for the
    terminal are left out. *)

From stdpp Require Import strings.
From S2P Require Import Prelude Itoa Util Tokenize KvsRadixTree CacheIface CacheApi SlabRebalance.

(** ** The data *)

Inductive conn_states :=
  | conn_listening | conn_new_cmd | conn_waiting | conn_read | conn_parse_cmd | conn_write | conn_nread
  | conn_swallow | conn_closing | conn_mwrite | conn_closed | conn_watch.

(** The fields of [conn] that the commands use; [wbuf] are the bytes to write. *)
Record conn := mkConn {
  state : conn_states;
  write_and_go : conn_states;
  noreply : bool;
  wsize : nat;
  wbuf : bytes;
  c_item : Z;
  rlbytes : Z;
  cmd : nread;
  sbytes : Z
}.

Definition set_state (x : conn_states) (c : conn) : conn :=
  mkConn x (write_and_go c) (noreply c) (wsize c) (wbuf c) (c_item c) (rlbytes c) (cmd c) (sbytes c).
Definition set_write_and_go (x : conn_states) (c : conn) : conn :=
  mkConn (state c) x (noreply c) (wsize c) (wbuf c) (c_item c) (rlbytes c) (cmd c) (sbytes c).
Definition set_noreply (x : bool) (c : conn) : conn :=
  mkConn (state c) (write_and_go c) x (wsize c) (wbuf c) (c_item c) (rlbytes c) (cmd c) (sbytes c).
Definition set_wbuf (x : bytes) (c : conn) : conn :=
  mkConn (state c) (write_and_go c) (noreply c) (wsize c) x (c_item c) (rlbytes c) (cmd c) (sbytes c).
Definition set_c_item (x : Z) (c : conn) : conn :=
  mkConn (state c) (write_and_go c) (noreply c) (wsize c) (wbuf c) x (rlbytes c) (cmd c) (sbytes c).
Definition set_nread (n : Z) (m : nread) (c : conn) : conn :=
  mkConn (state c) (write_and_go c) (noreply c) (wsize c) (wbuf c) (c_item c) n m (sbytes c).
Definition set_sbytes (n : Z) (c : conn) : conn :=
  mkConn (state c) (write_and_go c) (noreply c) (wsize c) (wbuf c) (c_item c) (rlbytes c) (cmd c) n.

Inductive delta_result_type :=
  | OK (text : bytes) | NON_NUMERIC | EOM | DELTA_ITEM_NOT_FOUND | DELTA_ITEM_CAS_MISMATCH.

Inductive crawler_result_type := CRAWLER_OK | CRAWLER_RUNNING | CRAWLER_BADCLASS | CRAWLER_NOTSTARTED | CRAWLER_ERROR.
Inductive watcher_result := LOGGER_ADD_WATCHER_TOO_MANY | LOGGER_ADD_WATCHER_FAILED | LOGGER_ADD_WATCHER_OK.

(** The doubles of C, with [strtod] (the value, the end, [ERANGE]) and the comparison [x <= 0]. *)
Class Doubles := { double : Type; strtod : bytes → double * nat * bool; not_above_0 : double → bool }.

(** What the commands ask of the rest of the program.  [item_alloc] and the like are those
    of [thread.c] and [cache_api.cc]. *)
Class Calls := {
  cst : Type;
  call_alloc : bytes → Z → Z → Z → cst → answer (Z * cst);
  call_size_ok : nat → Z → Z → cst → bool;
  (** [item_get], and the [do_item_get] of a deletion *)
  call_get : bytes → cst → answer (Z * cst);
  call_do_get : bytes → cst → answer (Z * cst);
  call_unlink : Z → cst → answer cst;
  call_remove : Z → cst → answer cst;
  call_unlink_kvs : bytes → cst → answer (Z * cst);
  call_touch : bytes → Z → cst → answer (Z * cst);
  call_add_delta : bytes → bool → Z → cst → answer (delta_result_type * cst);
  call_store : Z → nread → cst → answer (store_item_type * cst);
  call_set_cas : Z → Z → cst → cst;
  call_get_cas_id : cst → Z * cst;
  call_nbytes : Z → cst → Z;
  call_data : Z → cst → bytes;
  call_adjust_mem_limit : Z → cst → bool * cst;
  call_reassign : Z → Z → cst → reassign_result_type * cst;
  call_crawl : bytes → bool → cst → crawler_result_type * cst;
  (** [settings.lru_crawler], which the crawler's functions set *)
  call_crawler_enabled : cst → bool;
  call_crawler_thread : bool → cst → Z * cst;
  call_add_watcher : Z → cst → watcher_result * cst;
  (** [raise(SIGINT)] *)
  call_raise : cst → cst;
  (** [settings.detail_enabled], [stats_prefix_record_set] and [stats_prefix_record_delete] *)
  call_detail_enabled : cst → bool;
  call_record_set : bytes → cst → cst;
  call_record_delete : bytes → cst → cst;
  (** [process_get_command(c, tokens, ntokens, return_cas)] and [process_stat(c, tokens, ntokens)]: the
      connection and [errno] afterwards *)
  call_get_command : bytes → list token_t → bool → conn → bool → cst → answer (conn * bool * cst);
  call_stat : bytes → list token_t → conn → bool → cst → answer (conn * bool * cst)
}.

(** The settings that a command can change or that decide what it does. *)
Record tunables {D : Doubles} := mkTunables {
  verbose : Z;
  oldest_live : Z;
  oldest_cas : Z;
  use_cas : bool;
  flush_enabled : bool;
  shutdown_command : bool;
  slab_reassign : bool;
  slab_automove : Z;
  slab_automove_ratio : double;
  dump_enabled : bool;
  lru_crawler_tocrawl : Z;
  lru_crawler_sleep : Z;
  lru_maintainer_thread : bool;
  lru_segmented : bool;
  hot_lru_pct : Z;
  warm_lru_pct : Z;
  hot_max_factor : double;
  warm_max_factor : double;
  temp_lru : bool;
  temporary_ttl : Z
}.

Arguments mkTunables {D}.

Definition MAX_VERBOSITY_LEVEL : Z := 2.
Definition REALTIME_MAXDELTA : Z := 60 * 60 * 24 * 30.
Definition INT_MAX : Z := 2 ^ 31 - 1.

Section Command.
Context {D : Doubles} {C : Calls}.

Definition set_verbose (x : Z) (t : tunables) : tunables :=
  mkTunables x (oldest_live t) (oldest_cas t) (use_cas t) (flush_enabled t) (shutdown_command t)
    (slab_reassign t) (slab_automove t) (slab_automove_ratio t) (dump_enabled t) (lru_crawler_tocrawl t)
    (lru_crawler_sleep t) (lru_maintainer_thread t) (lru_segmented t) (hot_lru_pct t) (warm_lru_pct t)
    (hot_max_factor t) (warm_max_factor t) (temp_lru t) (temporary_ttl t).
Definition set_oldest (live cas : Z) (t : tunables) : tunables :=
  mkTunables (verbose t) live cas (use_cas t) (flush_enabled t) (shutdown_command t) (slab_reassign t)
    (slab_automove t) (slab_automove_ratio t) (dump_enabled t) (lru_crawler_tocrawl t)
    (lru_crawler_sleep t) (lru_maintainer_thread t) (lru_segmented t) (hot_lru_pct t) (warm_lru_pct t)
    (hot_max_factor t) (warm_max_factor t) (temp_lru t) (temporary_ttl t).
Definition set_automove (x : Z) (t : tunables) : tunables :=
  mkTunables (verbose t) (oldest_live t) (oldest_cas t) (use_cas t) (flush_enabled t)
    (shutdown_command t) (slab_reassign t) x (slab_automove_ratio t) (dump_enabled t)
    (lru_crawler_tocrawl t) (lru_crawler_sleep t) (lru_maintainer_thread t) (lru_segmented t)
    (hot_lru_pct t) (warm_lru_pct t) (hot_max_factor t) (warm_max_factor t) (temp_lru t) (temporary_ttl
    t).
Definition set_ratio (x : double) (t : tunables) : tunables :=
  mkTunables (verbose t) (oldest_live t) (oldest_cas t) (use_cas t) (flush_enabled t)
    (shutdown_command t) (slab_reassign t) (slab_automove t) x (dump_enabled t) (lru_crawler_tocrawl t)
    (lru_crawler_sleep t) (lru_maintainer_thread t) (lru_segmented t) (hot_lru_pct t) (warm_lru_pct t)
    (hot_max_factor t) (warm_max_factor t) (temp_lru t) (temporary_ttl t).
Definition set_tocrawl (x : Z) (t : tunables) : tunables :=
  mkTunables (verbose t) (oldest_live t) (oldest_cas t) (use_cas t) (flush_enabled t)
    (shutdown_command t) (slab_reassign t) (slab_automove t) (slab_automove_ratio t) (dump_enabled t) x
    (lru_crawler_sleep t) (lru_maintainer_thread t) (lru_segmented t) (hot_lru_pct t) (warm_lru_pct t)
    (hot_max_factor t) (warm_max_factor t) (temp_lru t) (temporary_ttl t).
Definition set_sleep (x : Z) (t : tunables) : tunables :=
  mkTunables (verbose t) (oldest_live t) (oldest_cas t) (use_cas t) (flush_enabled t)
    (shutdown_command t) (slab_reassign t) (slab_automove t) (slab_automove_ratio t) (dump_enabled t)
    (lru_crawler_tocrawl t) x (lru_maintainer_thread t) (lru_segmented t) (hot_lru_pct t) (warm_lru_pct
    t) (hot_max_factor t) (warm_max_factor t) (temp_lru t) (temporary_ttl t).
Definition set_segmented (x : bool) (t : tunables) : tunables :=
  mkTunables (verbose t) (oldest_live t) (oldest_cas t) (use_cas t) (flush_enabled t)
    (shutdown_command t) (slab_reassign t) (slab_automove t) (slab_automove_ratio t) (dump_enabled t)
    (lru_crawler_tocrawl t) (lru_crawler_sleep t) (lru_maintainer_thread t) x (hot_lru_pct t)
    (warm_lru_pct t) (hot_max_factor t) (warm_max_factor t) (temp_lru t) (temporary_ttl t).
Definition set_lru (hot warm : Z) (hf wf : double) (t : tunables) : tunables :=
  mkTunables (verbose t) (oldest_live t) (oldest_cas t) (use_cas t) (flush_enabled t)
    (shutdown_command t) (slab_reassign t) (slab_automove t) (slab_automove_ratio t) (dump_enabled t)
    (lru_crawler_tocrawl t) (lru_crawler_sleep t) (lru_maintainer_thread t) (lru_segmented t) hot warm
    hf wf (temp_lru t) (temporary_ttl t).
Definition set_temp (x : bool) (ttl : Z) (t : tunables) : tunables :=
  mkTunables (verbose t) (oldest_live t) (oldest_cas t) (use_cas t) (flush_enabled t)
    (shutdown_command t) (slab_reassign t) (slab_automove t) (slab_automove_ratio t) (dump_enabled t)
    (lru_crawler_tocrawl t) (lru_crawler_sleep t) (lru_maintainer_thread t) (lru_segmented t)
    (hot_lru_pct t) (warm_lru_pct t) (hot_max_factor t) (warm_max_factor t) x ttl.

(** ** The state *)

Record server := mkServer { the_conn : conn; tuned : tunables; erange : bool; rest : cst }.

Definition CM (A : Type) : Type := server → answer (A * server).

#[global] Instance CM_ret : MRet CM := λ A a s, Answer (a, s).
#[global] Instance CM_bind : MBind CM := λ A B f m s, '(a, s') ← m s; f a s'.

Definition get_conn : CM conn := λ s, Answer (the_conn s, s).
Definition get_set : CM tunables := λ s, Answer (tuned s, s).
Definition upd_conn (f : conn → conn) : CM unit := λ s,
  Answer (tt, mkServer (f (the_conn s)) (tuned s) (erange s) (rest s)).
Definition upd_set (f : tunables → tunables) : CM unit := λ s,
  Answer (tt, mkServer (the_conn s) (f (tuned s)) (erange s) (rest s)).
Definition get_errno : CM bool := λ s, Answer (erange s, s).
Definition set_errno (b : bool) : CM unit := λ s, Answer (tt, mkServer (the_conn s) (tuned s) b (rest s)).
Definition asking {A} (f : cst → A) : CM A := λ s, Answer (f (rest s), s).
Definition call {A} (f : cst → answer (A * cst)) : CM A := λ s,
  '(a, x) ← f (rest s); Answer (a, mkServer (the_conn s) (tuned s) (erange s) x).
Definition call_ (f : cst → answer cst) : CM unit := λ s,
  x ← f (rest s); Answer (tt, mkServer (the_conn s) (tuned s) (erange s) x).
Definition calls {A} (f : cst → A * cst) : CM A := call (λ x, Answer (f x)).

(** [safe_strtoul] and the like set [errno] to 0 first; [strtol] and [strtoul] only set it
    when the number is out of range. *)
Definition with_errno {A} (r : Z * nat * bool) (a : A) : CM A := set_errno r.2;; mret a.
Definition c_strtoull (x : bytes) : CM (bool * Z) := with_errno (strtoull x) (safe_strtoull x).
Definition c_strtoul (x : bytes) : CM (bool * Z) := with_errno (strtoull x) (safe_strtoul x).
Definition c_strtol (x : bytes) : CM (bool * Z) := with_errno (strtoll x) (safe_strtol x).
Definition libc_strtol (x : bytes) : CM Z :=
  let '(v, _, r) := strtoll x in e ← get_errno; set_errno (e || r);; mret v.
Definition libc_strtoul (x : bytes) : CM Z :=
  let '(v, _, r) := strtoull x in e ← get_errno; set_errno (e || r);; mret v.

Definition safe_strtod (x : bytes) : CM (option double) :=
  let '(d, e, r) := strtod x in
  set_errno r;;
  mret (if r || (e =? 0)%nat then None else if at_end x e then Some d else None).

(** ** Answers *)

Definition too_long : bytes := chars "SERVER_ERROR output line too long".

(** [conn_set_state(c, state)] *)
Definition conn_set_state (x : conn_states) : CM unit := upd_conn (set_state x).

Definition out_string (str : bytes) : CM unit :=
  c ← get_conn;
  if noreply c then upd_conn (set_noreply false);; conn_set_state conn_new_cmd
  else
    let str := if (wsize c <? length str + 2)%nat then too_long else str in
    upd_conn (set_wbuf (str ++ crlf true));;
    conn_set_state conn_write;;
    upd_conn (set_write_and_go conn_new_cmd).

Definition out (str : string) : CM unit := out_string (chars str).

(** A connection of the text protocol. *)
Definition out_of_memory (ascii_error : string) : CM unit := out ascii_error.

Definition bad_line : CM unit := out "CLIENT_ERROR bad command line format".

(** ** The commands *)

(** [process_started] and [current_time]; the build's [CACHE_MODE]. *)
Context (process_started current_time : Z) (CACHE_MODE : nat).

Definition realtime (exptime : Z) : Z :=
  if exptime =? 0 then 0
  else if REALTIME_MAXDELTA <? exptime then
    if exptime <=? process_started then 1 else u32 (exptime - process_started)
  else u32 (exptime + current_time).

Section Line.
(** The buffer with the line in it, and its tokens. *)
Context (buf : bytes) (tokens : list token_t).

Definition ntokens : nat := length tokens.
(** [tokens[i].value] as a string, and whether it is [str] *)
Definition arg (i : nat) : bytes := cstr buf (default 0%nat (value (tokens !!! i))).
Definition is_arg (i : nat) (str : string) : bool := bool_decide (arg i = chars str).

Definition nkey : nat := length_ (tokens !!! 1%nat).
Definition key_arg : bytes := take nkey (drop (default 0%nat (value (tokens !!! 1%nat))) buf).

Definition set_noreply_maybe : CM bool :=
  (match value (tokens !!! (ntokens - 2)%nat) with
   | Some _ => if is_arg (ntokens - 2) "noreply" then upd_conn (set_noreply true) else mret tt
   | None => mret tt
   end);;
  c ← get_conn; mret (noreply c).

Definition record_set : CM unit :=
  d ← asking call_detail_enabled; if d : bool then calls (λ x, (tt, call_record_set key_arg x)) else mret tt.
Definition record_delete : CM unit :=
  d ← asking call_detail_enabled; if d : bool then calls (λ x, (tt, call_record_delete key_arg x)) else mret tt.

(** The three numbers of a storage command; evaluation stops at the first bad one. *)
Definition update_numbers : CM (option (Z * Z * Z)) :=
  '(ok, flags) ← c_strtoul (arg 2);
  if negb ok then mret None else
  '(ok, exptime) ← c_strtol (arg 3);
  if negb ok then mret None else
  '(ok, vlen) ← c_strtol (arg 4);
  if negb ok then mret None else mret (Some (flags, exptime, vlen)).

(** There is no item: the data line is swallowed, and what a set would have replaced goes. *)
Definition update_refused (comm : nread) (flags vlen : Z) : CM unit :=
  size_ok ← asking (call_size_ok nkey flags vlen);
  (if negb size_ok then out "SERVER_ERROR object too large for cache"
   else out_of_memory "SERVER_ERROR out of memory storing object");;
  upd_conn (set_write_and_go conn_swallow);;
  upd_conn (set_sbytes vlen);;
  match comm with
  | NREAD_SET =>
      it ← call (call_get key_arg);
      if it =? 0 then mret tt else call_ (call_unlink it);; call_ (call_remove it)
  | _ => mret tt
  end.

Definition update_item (comm : nread) (flags exptime vlen req_cas_id : Z) : CM unit :=
  if (vlen <? 0) || (INT_MAX - 2 <? vlen) then bad_line
  else
    let vlen := vlen + 2 in
    record_set;;
    it ← call (call_alloc key_arg flags (realtime exptime) vlen);
    if it =? 0 then update_refused comm flags vlen
    else
      calls (λ x, (tt, call_set_cas it req_cas_id x));;
      nbytes ← asking (call_nbytes it);
      upd_conn (set_c_item it);;
      upd_conn (set_nread nbytes comm);;
      conn_set_state conn_nread.

Definition process_update_command (comm : nread) (handle_cas : bool) : CM unit :=
  set_noreply_maybe;;
  if (KEY_MAX_LENGTH <? nkey)%nat then bad_line else
  nums ← update_numbers;
  match nums with
  | None => bad_line
  | Some (flags, exptime, vlen) =>
      let exptime := if exptime <? 0 then REALTIME_MAXDELTA + 1 else exptime in
      if handle_cas then
        '(ok, req_cas_id) ← c_strtoull (arg 5);
        if negb ok then bad_line else update_item comm flags exptime vlen req_cas_id
      else update_item comm flags exptime vlen 0
  end.

Definition process_touch_command : CM unit :=
  set_noreply_maybe;;
  if (KEY_MAX_LENGTH <? nkey)%nat then bad_line else
  '(ok, exptime_int) ← c_strtol (arg 2);
  if negb ok then out "CLIENT_ERROR invalid exptime argument" else
  it ← call (call_touch key_arg (realtime exptime_int));
  if it =? 0 then out "NOT_FOUND" else out "TOUCHED";; call_ (call_remove it).

Definition process_arithmetic_command (incr : bool) : CM unit :=
  set_noreply_maybe;;
  if (KEY_MAX_LENGTH <? nkey)%nat then bad_line else
  '(ok, delta) ← c_strtoull (arg 2);
  if negb ok then out "CLIENT_ERROR invalid numeric delta argument" else
  r ← call (call_add_delta key_arg incr delta);
  match r with
  | OK temp => out_string temp
  | NON_NUMERIC => out "CLIENT_ERROR cannot increment or decrement non-numeric value"
  | EOM => out_of_memory "SERVER_ERROR out of memory"
  | DELTA_ITEM_NOT_FOUND => out "NOT_FOUND"
  | DELTA_ITEM_CAS_MISMATCH => mret tt
  end.

Definition delete_valid : CM bool :=
  if (3 <? ntokens)%nat then
    let hold_is_zero := is_arg 2 "0" in
    sets_noreply ← set_noreply_maybe;
    mret ((ntokens =? 4)%nat && (hold_is_zero || sets_noreply) || (ntokens =? 5)%nat && hold_is_zero && sets_noreply)
  else mret true.

Definition process_delete_command : CM unit :=
  valid ← delete_valid;
  if negb valid then out "CLIENT_ERROR bad command line format.  Usage: delete <key> [noreply]" else
  if (KEY_MAX_LENGTH <? nkey)%nat then bad_line else
  record_delete;;
  it ← call (call_do_get key_arg);
  if negb (it =? 0) then
    call_ (call_unlink it);; call_ (call_remove it);; out "DELETED"
  else if (CACHE_MODE =? 5)%nat then out "NOT_FOUND"
  else
    ret ← call (call_unlink_kvs key_arg);
    out (if ret =? 0 then "DELETED" else "NOT_FOUND").

Definition process_verbosity_command : CM unit :=
  set_noreply_maybe;;
  l ← libc_strtoul (arg 1);
  let level := u32 l in
  upd_set (set_verbose (if MAX_VERBOSITY_LEVEL <? level then MAX_VERBOSITY_LEVEL else level));;
  out "OK".

Definition process_slabs_automove_command : CM unit :=
  set_noreply_maybe;;
  if is_arg 2 "ratio" then
    ratio ← (if (ntokens <? 5)%nat then mret None else safe_strtod (arg 3));
    match ratio with
    | None => out "ERROR"
    | Some r => upd_set (set_ratio r);; out "OK"
    end
  else
    l ← libc_strtoul (arg 2);
    let level := u32 l in
    if level =? 0 then upd_set (set_automove 0);; out "OK"
    else if (level =? 1) || (level =? 2) then upd_set (set_automove level);; out "OK"
    else out "ERROR".

Definition LOG_SYSEVENTS : Z := Z.shiftl 1 1.
Definition LOG_FETCHERS : Z := Z.shiftl 1 2.
Definition LOG_MUTATIONS : Z := Z.shiftl 1 3.
Definition LOG_EVICTIONS : Z := Z.shiftl 1 6.
Definition LOG_RAWCMDS : Z := Z.shiftl 1 9.

(** The loop over the [k] arguments from the [x]-th on. *)
Fixpoint watch_flags (k x : nat) (f : Z) : option Z :=
  match k with
  | O => Some f
  | S k =>
      if is_arg x "rawcmds" then watch_flags k (S x) (Z.lor f LOG_RAWCMDS)
      else if is_arg x "evictions" then watch_flags k (S x) (Z.lor f LOG_EVICTIONS)
      else if is_arg x "fetchers" then watch_flags k (S x) (Z.lor f LOG_FETCHERS)
      else if is_arg x "mutations" then watch_flags k (S x) (Z.lor f LOG_MUTATIONS)
      else if is_arg x "sysevents" then watch_flags k (S x) (Z.lor f LOG_SYSEVENTS)
      else None
  end.

Definition process_watch_command : CM unit :=
  set_noreply_maybe;;
  match (if (2 <? ntokens)%nat then watch_flags (ntokens - 2) 1 0 else Some (Z.lor 0 LOG_FETCHERS)) with
  | None => out "ERROR"
  | Some f =>
      r ← calls (call_add_watcher f);
      match r with
      | LOGGER_ADD_WATCHER_TOO_MANY => out "WATCHER_TOO_MANY log watcher limit reached"
      | LOGGER_ADD_WATCHER_FAILED => out "WATCHER_FAILED failed to add log watcher"
      | LOGGER_ADD_WATCHER_OK => conn_set_state conn_watch
      end
  end.

Definition process_memlimit_command : CM unit :=
  set_noreply_maybe;;
  '(ok, memlimit) ← c_strtoul (arg 1);
  if negb ok then out "ERROR"
  else if memlimit <? 8 then out "MEMLIMIT_TOO_SMALL cannot set maxbytes to less than 8m"
  else if 1000000000 <? memlimit then out "MEMLIMIT_ADJUST_FAILED input value is megabytes not bytes"
  else
    r ← calls (call_adjust_mem_limit (u64 (memlimit * 1024 * 1024)));
    out (if r : bool then "OK" else "MEMLIMIT_ADJUST_FAILED out of bounds or unable to adjust").

(** The four numbers of [lru tune]. *)
Definition tune_numbers : CM (option (Z * Z * double * double)) :=
  '(ok, pct_hot) ← c_strtoul (arg 2);
  if negb ok then mret None else
  '(ok, pct_warm) ← c_strtoul (arg 3);
  if negb ok then mret None else
  hot_factor ← safe_strtod (arg 4);
  match hot_factor with
  | None => mret None
  | Some hot_factor =>
      factor ← safe_strtod (arg 5);
      mret (factor ← factor; Some (pct_hot, pct_warm, hot_factor, factor))
  end.

Definition process_lru_command : CM unit :=
  set_noreply_maybe;;
  st ← get_set;
  if is_arg 1 "tune" && (7 <=? ntokens)%nat then
    nums ← tune_numbers;
    match nums with
    | None => out "ERROR"
    | Some (pct_hot, pct_warm, hot_factor, factor) =>
        if 80 <? u32 (pct_hot + pct_warm) then out "ERROR hot and warm pcts must not exceed 80"
        else if not_above_0 factor || not_above_0 hot_factor then out "ERROR hot/warm age factors must be greater than 0"
        else upd_set (set_lru (s32 pct_hot) (s32 pct_warm) hot_factor factor);; out "OK"
    end
  else if is_arg 1 "mode" && (3 <=? ntokens)%nat && lru_maintainer_thread st then
    if is_arg 2 "flat" then upd_set (set_segmented false);; out "OK"
    else if is_arg 2 "segmented" then upd_set (set_segmented true);; out "OK"
    else out "ERROR"
  else if is_arg 1 "temp_ttl" && (3 <=? ntokens)%nat && lru_maintainer_thread st then
    '(ok, ttl) ← c_strtol (arg 2);
    if negb ok then out "ERROR"
    else
      (if ttl <? 0 then upd_set (λ t, set_temp false (temporary_ttl t) t) else upd_set (set_temp true ttl));;
      out "OK"
  else out "ERROR".

(** *** The commands that [process_command] handles itself *)

Definition flush_all : CM unit :=
  set_noreply_maybe;;
  st ← get_set;
  if negb (flush_enabled st) then out "CLIENT_ERROR flush_all not allowed" else
  c ← get_conn;
  exptime ← (if (ntokens =? if noreply c then 3 else 2)%nat then mret (Some 0)
             else x ← libc_strtol (arg 1); e ← get_errno; mret (if e : bool then None else Some x));
  match exptime with
  | None => bad_line
  | Some exptime =>
      let new_oldest := if 0 <? exptime then realtime exptime else current_time in
      (if use_cas st then
         let live := u32 (new_oldest - 1) in
         if live <=? current_time then
           id ← calls call_get_cas_id; upd_set (set_oldest live id)
         else upd_set (λ t, set_oldest live (oldest_cas t) t)
       else upd_set (λ t, set_oldest new_oldest (oldest_cas t) t));;
      out "OK"
  end.

Definition shutdown : CM unit :=
  st ← get_set;
  if shutdown_command st then conn_set_state conn_closing;; calls (λ x, (tt, call_raise x))
  else out "ERROR: shutdown not enabled".

Definition reassign_text (r : reassign_result_type) : string :=
  match r with
  | REASSIGN_OK => "OK"
  | REASSIGN_RUNNING => "BUSY currently processing reassign request"
  | REASSIGN_BADCLASS => "BADCLASS invalid src or dst class id"
  | REASSIGN_NOSPARE => "NOSPARE source class has no spare pages"
  | REASSIGN_SRC_DST_SAME => "SAME src and dst class are identical"
  end.

Definition slabs_command : CM unit :=
  st ← get_set;
  if (ntokens =? 5)%nat && is_arg 1 "reassign" then
    if negb (slab_reassign st) then out "CLIENT_ERROR slab reassignment disabled" else
    src ← libc_strtol (arg 2);
    dst ← libc_strtol (arg 3);
    e ← get_errno;
    if e : bool then bad_line else
    rv ← calls (call_reassign (s32 src) (s32 dst));
    out (reassign_text rv)
  else if (4 <=? ntokens)%nat && is_arg 1 "automove" then process_slabs_automove_command
  else out "ERROR".

Definition crawl_text (r : crawler_result_type) : string :=
  match r with
  | CRAWLER_OK => "OK"
  | CRAWLER_RUNNING => "BUSY currently processing crawler request"
  | CRAWLER_BADCLASS => "BADCLASS invalid class id"
  | CRAWLER_NOTSTARTED => "NOTSTARTED no items to crawl"
  | CRAWLER_ERROR => "ERROR an unknown error happened"
  end.

Definition lru_crawler_command : CM unit :=
  st ← get_set;
  enabled ← asking call_crawler_enabled;
  if (ntokens =? 4)%nat && is_arg 1 "crawl" then
    if negb enabled then out "CLIENT_ERROR lru crawler disabled" else
    rv ← calls (call_crawl (arg 2) false);
    out (crawl_text rv)
  else if (ntokens =? 4)%nat && is_arg 1 "metadump" then
    if negb enabled then out "CLIENT_ERROR lru crawler disabled"
    else if negb (dump_enabled st) then out "ERROR metadump not allowed"
    else
      rv ← calls (call_crawl (arg 2) true);
      out (crawl_text rv);;
      match rv with CRAWLER_OK => conn_set_state conn_watch | _ => mret tt end
  else if (ntokens =? 4)%nat && is_arg 1 "tocrawl" then
    '(ok, tocrawl) ← c_strtoul (arg 2);
    if negb ok then bad_line else upd_set (set_tocrawl tocrawl);; out "OK"
  else if (ntokens =? 4)%nat && is_arg 1 "sleep" then
    '(ok, tosleep) ← c_strtoul (arg 2);
    if negb ok then bad_line
    else if 1000000 <? tosleep then out "CLIENT_ERROR sleep must be one second or less"
    else upd_set (set_sleep tosleep);; out "OK"
  else if (ntokens =? 3)%nat then
    if is_arg 1 "enable" then
      r ← calls (call_crawler_thread true);
      out (if r =? 0 then "OK" else "ERROR failed to start lru crawler thread")
    else if is_arg 1 "disable" then
      r ← calls (call_crawler_thread false);
      out (if r =? 0 then "OK" else "ERROR failed to stop lru crawler thread")
    else out "ERROR"
  else out "ERROR".

(** [process_get_command] and [process_stat] *)
Definition conn_call (f : conn → bool → cst → answer (conn * bool * cst)) : CM unit := λ s,
  '(c, e, x) ← f (the_conn s) (erange s) (rest s); Answer (tt, mkServer c (tuned s) e x).

(** The storage command that the line starts with. *)
Definition update_comm : option nread :=
  if is_arg 0 "add" then Some NREAD_ADD
  else if is_arg 0 "set" then Some NREAD_SET
  else if is_arg 0 "replace" then Some NREAD_REPLACE
  else if is_arg 0 "prepend" then Some NREAD_PREPEND
  else if is_arg 0 "append" then Some NREAD_APPEND
  else None.

Definition VERSION : string := "1.4.39".

Definition dispatch : CM unit :=
  let n := ntokens in
  let between a b := ((a <=? n) && (n <=? b))%nat in
  if (3 <=? n)%nat && (is_arg 0 "get" || is_arg 0 "bget") then conn_call (call_get_command buf tokens false)
  else
  match (if between 6%nat 7%nat then update_comm else None) with
  | Some comm => process_update_command comm false
  | None =>
  if between 7%nat 8%nat && is_arg 0 "cas" then process_update_command NREAD_CAS true
  else if between 4%nat 5%nat && is_arg 0 "incr" then process_arithmetic_command true
  else if (3 <=? n)%nat && is_arg 0 "gets" then conn_call (call_get_command buf tokens true)
  else if between 4%nat 5%nat && is_arg 0 "decr" then process_arithmetic_command false
  else if between 3%nat 5%nat && is_arg 0 "delete" then process_delete_command
  else if between 4%nat 5%nat && is_arg 0 "touch" then process_touch_command
  else if (2 <=? n)%nat && is_arg 0 "stats" then conn_call (call_stat buf tokens)
  else if between 2%nat 4%nat && is_arg 0 "flush_all" then flush_all
  else if (n =? 2)%nat && is_arg 0 "version" then out ("VERSION " +:+ VERSION)
  else if (n =? 2)%nat && is_arg 0 "quit" then conn_set_state conn_closing
  else if (n =? 2)%nat && is_arg 0 "shutdown" then shutdown
  else if (1 <? n)%nat && is_arg 0 "slabs" then slabs_command
  else if (1 <? n)%nat && is_arg 0 "lru_crawler" then lru_crawler_command
  else if (1 <? n)%nat && is_arg 0 "watch" then process_watch_command
  else if between 3%nat 4%nat && is_arg 0 "cache_memlimit" then process_memlimit_command
  else if between 3%nat 4%nat && is_arg 0 "verbosity" then process_verbosity_command
  else if (3 <=? n)%nat && is_arg 0 "lru" then process_lru_command
  else out "ERROR"
  end.
End Line.

(** [process_command(c, command)], the command being at [command] in the buffer [buf];
    [msg_ok]: whether [add_msghdr] has the memory it needs. *)
Definition process_command (msg_ok : bool) (buf : bytes) (command : nat) : CM unit :=
  if negb msg_ok then out_of_memory "SERVER_ERROR out of memory preparing response"
  else let '(buf, tokens) := tokenize_command buf command MAX_TOKENS in dispatch buf tokens.

(** ** After the data line *)

Definition store_text (r : store_item_type) : string :=
  match r with STORED => "STORED" | EXISTS => "EXISTS" | NOT_FOUND => "NOT_FOUND" | NOT_STORED => "NOT_STORED" end.

(** [complete_nread_ascii], for an item of one chunk. *)
Definition complete_nread_ascii : CM unit :=
  c ← get_conn;
  let it := c_item c in
  d ← asking (call_data it);
  n ← asking (call_nbytes it);
  (if bool_decide (take 2 (drop (Z.to_nat (n - 2)) d) = crlf true) then
     ret ← call (call_store it (cmd c)); out (store_text ret)
   else out "CLIENT_ERROR bad data chunk");;
  call_ (call_remove it);;
  upd_conn (set_c_item 0).
End Command.
