(* ===== verification/CacheApiSpec.v ===== *)
(** The cache in full mode is coherent with the store: [cache_api.cc].

    With versions checked ([CACHE_MODE] 1, [VERSION_MODE] 1), a client that reads and
    writes through its cache sees what it would see in the store alone, although other
    clients change the store behind its back. *)

From S2P Require Import Prelude TagPtr Fam RadixTree KvsRadixTree CacheIface CacheApi.

Section Spec.
Context {N : Nvmm} {S : Store} {SL : StoreLaws S} {I : ItemCache} {IL : ItemLaws I}.
Context (stack : bytes).

(** The function returns, and the result satisfies [Q]; or the store aborted, or an
    allocation does not return. *)
Definition awp {A} (m : AM A) (s : api) (Q : A → api → Prop) : Prop :=
  match m s with AOk a s' => Q a s' | AAssert => False | _ => True end.

Lemma awp_ret {A} (a : A) s (Q : A → api → Prop) : Q a s → awp (mret a) s Q.
Proof. done. Qed.

Lemma awp_bind {A B} (m : AM A) (f : A → AM B) s Q :
  awp m s (λ a s', awp (f a) s' Q) → awp (m ≫= f) s Q.
Proof. unfold awp, mbind, AM_bind. by destruct (m s). Qed.

Lemma awp_mono {A} (m : AM A) s (P Q : A → api → Prop) :
  awp m s P → (∀ a s', P a s' → Q a s') → awp m s Q.
Proof. unfold awp. destruct (m s); eauto. Qed.

Lemma awp_ok {A} (m : AM A) s a s' (Q : A → api → Prop) : m s = AOk a s' → Q a s' → awp m s Q.
Proof. unfold awp. by intros ->. Qed.

(** *** The invariant *)

Abbreviation len v := (Z.of_nat (length v)).

(** The item in the cache has a value that the key once had, with the pointers that the
    store gave for it. *)
Definition item_ok (x : sst) (g : sview) (k : bytes) (nb : Z) (b : body) : Prop :=
  2 ≤ nb ∧ nb = len (data b) ∧ s_cached x g k (skey b) (val_ptr b) (data b).

Record coherent (n : nat) (s : api) (g : sview) (K : gmap bytes bytes) : Prop := {
  co_items : i_inv n (items s);
  co_store : s_inv n (store s) g K;
  co_short : map_Forall (λ _ v, len v ≤ VAL_LEN) K;
  co_max k : s_key k → VAL_LEN ≤ i_max k;
  co_linked k a : linked (items s) !! k = Some a →
    ∃ b, bodies s !! a = Some b ∧ item_ok (store s) g k (it_nbytes (items s) a) b
}.

Lemma coherent_less n s g K : coherent (Datatypes.S n) s g K → coherent n s g K.
Proof. intros [H1 H2 H3 H4 H5]. split; try done; [by apply i_less|by apply s_less]. Qed.

Lemma coherent_le m n s g K : coherent m s g K → (n ≤ m)%nat → coherent n s g K.
Proof. intros H Hle. induction Hle; [done|]. apply IHHle. by apply coherent_less. Qed.

Lemma s_inv_le m n (x : sst) g K : s_inv m x g K → (n ≤ m)%nat → s_inv n x g K.
Proof using Type. intros H Hle. induction Hle; [done|]. apply IHHle. by apply s_less. Qed.

(** The items change, and those that stay linked are as they were. *)
Lemma coherent_items n s g K i m :
  coherent m s g K → (n ≤ m)%nat → i_inv n i → linked i ⊆ linked (items s) →
  (∀ k a, linked i !! k = Some a → it_nbytes i a = it_nbytes (items s) a) →
  coherent n (with_items i s) g K.
Proof.
  intros HC Hle Hi Hsub Hnb. pose proof (coherent_le _ _ _ _ _ HC Hle) as [_ H2 H3 H4 H5].
  split; try done. intros k a Ha. cbn [with_items items bodies store] in *. rewrite (Hnb k a Ha).
  apply H5. by eapply lookup_weaken.
Qed.

(** The store changes; what was cached stays. *)
Lemma coherent_store n s g K x g' K' m :
  coherent m s g K → (n ≤ m)%nat → s_inv n x g' K' → map_Forall (λ _ v, len v ≤ VAL_LEN) K' →
  (∀ k q t v, s_cached (store s) g k q t v → s_cached x g' k q t v) →
  coherent n (with_store x s) g' K'.
Proof.
  intros HC Hle Hx Hs Hc. pose proof (coherent_le _ _ _ _ _ HC Hle) as [H1 H2 H3 H4 H5].
  split; try done. intros k a Ha. destruct (H5 k a Ha) as (b & Hb & Hnb & Hl & Hcb). exists b.
  do 3 (split; [done|]). by apply Hc.
Qed.

(** An item whose value is [v], in the hands of the caller. *)
Record holds (s : api) (a : Z) (k v : bytes) : Prop := {
  h_refs : 1 ≤ refs (items s) a;
  h_nbytes : it_nbytes (items s) a = len v;
  h_data : ∃ b, bodies s !! a = Some b ∧ data b = v
}.

(** A new item is linked under [k], or takes the place of the one there. *)
Lemma coherent_fill n s g K i k a q t v m h :
  coherent m s g K → (n ≤ m)%nat → i_inv n i →
  delete k (linked i) ⊆ linked (items s) → linked i !! k = Some a →
  (∀ k' b, k' ≠ k → linked i !! k' = Some b → b ≠ a ∧ it_nbytes i b = it_nbytes (items s) b) →
  it_nbytes i a = len v → 2 ≤ len v → s_cached (store s) g k q t v →
  coherent n (mkApi i (store s) (<[a := mkBody q t v]> (bodies s)) h) g K.
Proof.
  intros HC Hle Hi Hsub Hka Hother Hnb H2v Hc. pose proof (coherent_le _ _ _ _ _ HC Hle) as [_ H2 H3 H4 H5].
  split; try done. intros k' b Hb. cbn [items bodies store] in *.
  destruct (decide (k' = k)) as [->|Hne].
  - assert (b = a) as -> by congruence. eexists. rewrite lookup_insert_eq. split; [done|]. rewrite Hnb. by split.
  - destruct (Hother k' b Hne Hb) as [Hba Hnb']. rewrite lookup_insert_ne, Hnb' by done. apply H5.
    eapply lookup_weaken; [|exact Hsub]. by rewrite lookup_delete_ne.
Qed.

Lemma linked_inj n i k k' a : i_inv n i → linked i !! k = Some a → linked i !! k' = Some a → k = k'.
Proof. intros Hi H1 H2. destruct (linked_key _ _ _ _ Hi H1) as [_ <-], (linked_key _ _ _ _ Hi H2) as [_ <-]. done. Qed.

(** *** Calls *)

Lemma item_lookup_wp n s g K k u :
  coherent (Datatypes.S n) s g K →
  awp (on_items (do_item_get k false u)) s (λ a s', coherent n s' g K ∧ store s' = store s ∧ bodies s' = bodies s ∧
    linked (items s') ⊆ linked (items s) ∧
    (∀ b, b ≠ a → 1 ≤ refs (items s) b → keeps (items s) (items s') b) ∧
    (a = 0 ∧ linked (items s') !! k = None ∨
     a ≠ 0 ∧ linked (items s) !! k = Some a ∧ linked (items s') !! k = Some a ∧ 1 ≤ refs (items s') a)).
Proof.
  intros HC. pose proof HC as [Hi _ _ _ _].
  destruct (ilaw_get n (items s) k false u Hi) as (a & i & E & Hi' & Hcase & Hkeep).
  unfold awp, on_items. rewrite E. cbn [with_items items store bodies].
  assert (linked i ⊆ linked (items s)) as Hsub.
  { destruct Hcase as [[_ ->]|(_ & -> & _)]; [apply delete_subseteq|done]. }
  split; [|do 3 (split; [done|]); split].
  - eapply coherent_items; [done|lia|done|done|]. intros k' b Hb. destruct (decide (b = a)) as [->|Hne].
    + destruct Hcase as [[-> _]|(_ & _ & _ & Hnb)]; [|done].
      destruct (linked_key n i k' 0 Hi' Hb) as [[] _]; done.
    + destruct (Hkeep b Hne) as (_ & _ & ?); [by right; exists k'|done].
  - intros b Hne Hb. apply Hkeep; [done|by left].
  - destruct Hcase as [[-> ->]|(Hk & -> & Hr & _)].
    + left. by rewrite lookup_delete_eq.
    + right. destruct (linked_key _ _ _ _ Hi Hk) as [H0 _]. pose proof (refs_nonneg _ _ a Hi). do 3 (split; [done|]). lia.
Qed.

Lemma item_remove_wp n s g K a :
  coherent (Datatypes.S n) s g K → 1 ≤ refs (items s) a →
  awp (on_items_ (do_item_remove a)) s (λ _ s', coherent n s' g K ∧ store s' = store s ∧ bodies s' = bodies s ∧
    linked (items s') = linked (items s) ∧
    ∀ b, b ≠ a → 1 ≤ refs (items s) b → keeps (items s) (items s') b).
Proof.
  intros HC Hr. pose proof HC as [Hi _ _ _ _].
  destruct (ilaw_remove n (items s) a Hi Hr) as (i & E & Hi' & Hl & Ha & Hkeep).
  unfold awp, on_items_. rewrite E. cbn [with_items items store bodies].
  split; [|split; [done|split; [done|split; [done|]]]].
  - eapply coherent_items; [done|lia|done|by rewrite Hl|]. intros k' b Hb. destruct (decide (b = a)) as [->|Hne].
    + apply Ha. right. exists k'. by rewrite <- Hl.
    + destruct (Hkeep b Hne) as (_ & _ & ?); [by right; exists k'|done].
  - intros b Hne Hb. apply Hkeep; [done|by left].
Qed.

Lemma item_unlink_wp n s g K k a :
  coherent (Datatypes.S n) s g K → linked (items s) !! k = Some a →
  awp (on_items_ (do_item_unlink a)) s (λ _ s', coherent n s' g K ∧ store s' = store s ∧ bodies s' = bodies s ∧
    linked (items s') = delete k (linked (items s)) ∧
    ∀ b, 1 ≤ refs (items s) b → keeps (items s) (items s') b).
Proof.
  intros HC Hk. pose proof HC as [Hi _ _ _ _].
  destruct (ilaw_unlink n (items s) k a Hi Hk) as (i & E & Hi' & Hl & Hkeep).
  unfold awp, on_items_. rewrite E. cbn [with_items items store bodies].
  split; [|split; [done|split; [done|split; [done|]]]].
  - eapply coherent_items; [done|lia|done|rewrite Hl; apply delete_subseteq|]. intros k' b Hb.
    destruct (Hkeep b) as (_ & _ & ?); [by right; exists k'|done].
  - intros b Hb. apply Hkeep. by left.
Qed.

(** A new item; 0 when the value is too short for one. *)
Record fresh_item (s s' : api) (locked : bool) (k : bytes) (nb a : Z) : Prop := {
  fi_store : store s' = store s;
  fi_bodies : bodies s' = bodies s;
  fi_sub : linked (items s') ⊆ linked (items s);
  fi_same : locked = true → linked (items s') !! k = linked (items s) !! k;
  fi_old b : 1 ≤ refs (items s) b → b ≠ a ∧ keeps (items s) (items s') b;
  fi_new : if nb <? 2 then a = 0
           else a ≠ 0 ∧ 1 ≤ refs (items s') a ∧ it_key (items s') a = k ∧ it_nbytes (items s') a = nb ∧
             ∀ k', linked (items s') !! k' ≠ Some a
}.

Lemma item_alloc_wp n s g K locked k nb :
  coherent (Datatypes.S n) s g K → s_key k → nb ≤ VAL_LEN →
  awp (alloc locked k nb) s (λ a s', coherent n s' g K ∧ fresh_item s s' locked k nb a).
Proof.
  intros HC Hkey Hnb. pose proof HC as [Hi _ _ Hmax _]. specialize (Hmax k Hkey).
  pose proof (ilaw_alloc n (items s) locked k 0 0 nb Hi ltac:(lia)) as H.
  unfold awp, alloc, on_items. destruct (item_alloc locked k 0 0 nb (items s)) as [[a i]| |]; try done.
  destruct H as (Hi' & Hsub & Hsame & Hkeep & Hnew). split.
  - eapply coherent_items; [done|lia|done|done|]. intros k' b Hb.
    destruct (Hkeep b) as (_ & _ & _ & ?); [by right; exists k'|done].
  - split; cbn [with_items items store bodies]; try done.
    + intros b Hb. apply Hkeep. by left.
    + destruct (nb <? 2); [done|]. destruct Hnew as (H0 & Hr & Hk & Hn). split; [done|]. split; [lia|].
      do 2 (split; [done|]). intros k' Hk'. destruct (Hkeep a) as [[] _]; [by right; exists k'|done].
Qed.

(** What a read through the cache finds: a value of fewer than two bytes has no item. *)
Definition readable (K : gmap bytes bytes) (k : bytes) : option bytes :=
  v ← K !! k; if len v <? 2 then None else Some v.

Definition found (K : gmap bytes bytes) (k : bytes) (a : Z) (s : api) : Prop :=
  match readable K k with None => a = 0 | Some v => a ≠ 0 ∧ holds s a k v end.

Lemma copied_value v st : copied st (mkFetched 0 (len v) (Some v)) = v.
Proof. unfold copied, landed. cbn [f_len f_val]. by rewrite Nat2Z.id, take_app_length. Qed.

Lemma ret_found n s g K k :
  coherent n s g K → readable K k = None → awp (mret 0 : AM Z) s (λ a s', coherent n s' g K ∧ found K k a s').
Proof. intros HC Hr. apply awp_ret. unfold found. by rewrite Hr. Qed.

Lemma fetch_and_link_wp n s g K k :
  coherent (Datatypes.S (Datatypes.S n)) s g K → linked (items s) !! k = None → s_key k →
  awp (fetch_and_link stack k false) s (λ a s', coherent n s' g K ∧ found K k a s').
Proof.
  intros HC Hk Hkey. unfold fetch_and_link. apply awp_bind. pose proof HC as [_ Hs Hsh _ _].
  destruct (law_GetC _ _ _ _ k VAL_LEN Hs Hkey) as (f & q & t & E & Hf).
  eapply awp_ok; [unfold on_store; rewrite E; reflexivity|]. cbv beta iota.
  replace (with_store (store s) s) with s by by destruct s.
  destruct (K !! k) as [v|] eqn:EK.
  2: { destruct Hf as [_ ->]. rewrite andb_false_r. apply ret_found; [by do 2 apply coherent_less|].
       unfold readable. by rewrite EK. }
  pose proof (Hsh k v EK) as Hlen. cbn beta in Hlen. rewrite (proj2 (Z.ltb_ge _ _) Hlen) in Hf. destruct Hf as [-> Hc].
  destruct (cached_valid _ _ _ _ _ _ Hc) as (-> & -> & _). cbn [f_ret f_len Z.eqb andb]. unfold item_len.
  apply awp_bind. eapply awp_mono; [by apply (item_alloc_wp (Datatypes.S n) s g K true k (len v))|].
  intros a s1 [HC1 [F1 F2 F3 F4 F5 F6]]. unfold found, readable. rewrite EK. cbn [mbind option_bind].
  destruct (Z.ltb_spec (len v) 2); [subst a; apply awp_ret; split; [by apply coherent_less|done]|].
  destruct F6 as (H0 & Hr & Hka & Hnb & Hnl). rewrite (proj2 (Z.eqb_neq _ _) H0).
  apply awp_bind. pose proof HC1 as [Hi1 _ _ _ _].
  assert (linked (items s1) !! k = None) as Hk1 by (rewrite F4 by done; exact Hk).
  destruct (ilaw_link n (items s1) k a Hi1) as (i & E2 & Hi2 & Hl2 & Hkeep); [done..|].
  eapply awp_ok; [unfold on_items_; rewrite E2; reflexivity|].
  apply awp_bind. eapply awp_ok; [reflexivity|]. apply awp_ret. cbn [with_items items store bodies num_hit].
  rewrite copied_value, app_nil_r.
  assert (keeps (items s1) i a) as (Hra & _ & Hna) by (apply Hkeep; by left).
  split.
  - eapply coherent_fill; [exact HC1|lia|done| |by rewrite Hl2, lookup_insert_eq| |congruence|lia|by rewrite F1].
    + rewrite Hl2, delete_insert_id by congruence. done.
    + intros k' b Hne Hb. assert (linked (items s1) !! k' = Some b) as Hb1 by (by rewrite Hl2, lookup_insert_ne in Hb).
      split; [intros ->; by apply (Hnl k')|]. destruct (Hkeep b) as (_ & _ & ?); [by right; exists k'|done].
  - split; [done|]. split; cbn [items bodies]; [lia|congruence|]. eexists. by rewrite lookup_insert_eq.
Qed.

(** The item linked under [k] takes a newer value, in place or by a new item. *)
Lemma refresh_wp n s g K k a q t v :
  coherent (Datatypes.S (Datatypes.S (Datatypes.S n))) s g K → linked (items s) !! k = Some a →
  1 ≤ refs (items s) a → K !! k = Some v → s_cached (store s) g k q t v → s_key k →
  awp (refresh stack k false a q t (mkFetched 0 (len v) (Some v))) s
    (λ r s', coherent n s' g K ∧ found K k r s').
Proof.
  intros HC Hk Hr HK Hc Hkey. unfold refresh. apply awp_bind. eapply awp_ok; [reflexivity|]. cbn [f_len item_len].
  unfold item_len. pose proof (co_short _ _ _ _ HC k v HK) as Hlen. cbn beta in Hlen.
  pose proof (co_items _ _ _ _ HC) as Hi. destruct (linked_key _ _ _ _ Hi Hk) as [Ha0 Hka].
  destruct (Z.eqb_spec (it_nbytes (items s) a) (len v)) as [Enb|Enb]; cbn [negb].
  - apply awp_bind. eapply awp_ok; [reflexivity|]. apply awp_ret. rewrite copied_value, app_nil_r.
    destruct (co_linked _ _ _ _ HC k a Hk) as (b & Hb & H2 & _). rewrite Enb in H2.
    split.
    + eapply coherent_fill; [exact HC|lia| |apply delete_subseteq|done| |done|done|done].
      * by do 3 apply i_less.
      * intros k' b' Hne Hb'. split; [|done]. intros ->. destruct (linked_key _ _ _ _ Hi Hb') as [_ ?]. congruence.
    + unfold found, readable. rewrite HK. cbn [mbind option_bind]. rewrite (proj2 (Z.ltb_ge _ _) H2).
      split; [done|]. split; cbn [items bodies]; [done|done|]. eexists. by rewrite lookup_insert_eq.
  - apply awp_bind. eapply awp_mono; [by apply (item_alloc_wp (Datatypes.S (Datatypes.S n)) s g K true k (len v))|].
    intros a' s1 [HC1 [F1 F2 F3 F4 F5 F6]]. unfold found, readable. rewrite HK. cbn [mbind option_bind].
    destruct (Z.ltb_spec (len v) 2); [subst a'; apply awp_ret; split; [by do 2 apply coherent_less|done]|].
    destruct F6 as (H0 & Hr' & Hk' & Hnb & Hnl). rewrite (proj2 (Z.eqb_neq _ _) H0).
    specialize (F4 eq_refl). destruct (F5 a Hr) as (Hne & Hra & _). pose proof (co_items _ _ _ _ HC1) as Hi1.
    destruct (ilaw_replace (Datatypes.S n) (items s1) k a a' Hi1) as (i & E2 & Hi2 & Hl2 & Hkeep); [congruence|done..|].
    apply awp_bind. eapply awp_ok; [unfold on_items_; rewrite E2; reflexivity|].
    assert (keeps (items s1) i a') as (Hra' & _ & Hna') by (apply Hkeep; by left).
    assert (keeps (items s1) i a) as (Hraa & _) by (apply Hkeep; left; lia).
    destruct (ilaw_remove n i a Hi2) as (i3 & E3 & Hi3 & Hl3 & _ & Hkeep3); [lia|].
    apply awp_bind. eapply awp_ok; [unfold on_items_; cbn [with_items items]; rewrite E3; reflexivity|].
    apply awp_bind. eapply awp_ok; [reflexivity|]. apply awp_ret. cbn [with_items items store bodies num_hit].
    rewrite copied_value, app_nil_r.
    assert (keeps i i3 a') as (Hr3 & _ & Hn3) by (apply Hkeep3; [done|left; lia]).
    split.
    + eapply coherent_fill; [exact HC1|lia|done| |by rewrite Hl3, Hl2, lookup_insert_eq| |congruence|lia|by rewrite F1].
      * rewrite Hl3, Hl2, delete_insert_eq. apply delete_subseteq.
      * intros k' b Hne' Hb. rewrite Hl3 in Hb. assert (linked (items s1) !! k' = Some b) as Hb1 by (by rewrite Hl2, lookup_insert_ne in Hb).
        assert (b ≠ a') by (intros ->; by apply (Hnl k')). split; [done|].
        assert (b ≠ a) by (intros ->; destruct (linked_key _ _ _ _ Hi1 Hb1) as [_ ?];
          destruct (linked_key _ _ _ _ Hi1 (eq_trans F4 Hk)) as [_ ?]; congruence).
        destruct (Hkeep b) as (_ & _ & Hx); [by right; exists k'|].
        destruct (Hkeep3 b) as (_ & _ & Hy); [done|right; exists k'; by rewrite Hl3|congruence].
    + split; [done|]. split; cbn [items bodies]; [lia|congruence|]. eexists. by rewrite lookup_insert_eq.
Qed.

(** *** Reading *)

Lemma hit_wp n s g K (Q : unit → api → Prop) :
  coherent n s g K → (∀ h, let s' := mkApi (items s) (store s) (bodies s) h in coherent n s' g K → Q tt s') → awp HIT s Q.
Proof. intros [H1 H2 H3 H4 H5] HQ. eapply awp_ok; [reflexivity|]. apply HQ. split; done. Qed.

Lemma item_get_full_wp n s g K k u :
  coherent (6 + n) s g K → s_key k →
  awp (item_get_full 1 stack k false u) s (λ a s', coherent n s' g K ∧ found K k a s').
Proof.
  intros HC Hkey. unfold item_get_full. apply awp_bind.
  eapply awp_mono; [by apply (item_lookup_wp (5 + n))|]. intros a s1 (HC1 & _ & _ & _ & _ & [[-> Hk1]|(H0 & _ & Hk1 & Hr1)]).
  { rewrite Z.eqb_refl. eapply awp_mono; [apply (fetch_and_link_wp (3 + n) s1 g K k); done|].
    intros r s' [? ?]. split; [|done]. eapply coherent_le; [done|lia]. }
  rewrite (proj2 (Z.eqb_neq _ _) H0). cbn [Nat.eqb negb]. apply awp_bind. eapply hit_wp; [exact HC1|].
  intros h s1' HC1'. assert (items s1' = items s1 ∧ bodies s1' = bodies s1) as [Ei1 Eb1] by done.
  apply awp_bind. destruct (co_linked _ _ _ _ HC1' k a Hk1) as (b & Hb & H2 & Hnb & Hc).
  eapply awp_ok; [unfold get_body; rewrite Hb; reflexivity|]. cbn [default from_option id].
  apply awp_bind. eapply awp_mono; [by apply (item_remove_wp (4 + n) s1' g K a)|].
  intros [] s2 (HC2 & Es2 & Eb2 & El2 & _). apply awp_bind. rewrite <- Es2 in Hc.
  destruct (law_GetP _ _ _ _ k _ _ _ VAL_LEN false (co_store _ _ _ _ HC2) Hc) as (f & t & E & Hf); [done|].
  eapply awp_ok; [unfold on_store; rewrite E; reflexivity|]. replace (with_store (store s2) s2) with s2 by by destruct s2.
  cbv beta iota. apply awp_bind. eapply awp_mono; [by apply (item_lookup_wp (3 + n))|].
  intros a2 s3 (HC3 & Es3 & Eb3 & _ & _ & [[-> Hk3]|(H03 & Hk2 & Hk3 & Hr3)]).
  { rewrite Z.eqb_refl. eapply awp_mono; [apply (fetch_and_link_wp (1 + n) s3 g K k); done|].
    intros r s' [? ?]. split; [|done]. by apply coherent_less. }
  rewrite (proj2 (Z.eqb_neq _ _) H03). rewrite El2 in Hk2. assert (a2 = a) as -> by congruence.
  destruct (co_linked _ _ _ _ HC3 k a Hk3) as (b3 & Hb3 & _ & Hnb3 & _).
  assert (b3 = b) as -> by congruence. destruct (cached_valid _ _ _ _ _ _ Hc) as (_ & _ & Hg).
  assert (K !! k = Some (data b) → awp (mret a : AM Z) s3 (λ a0 s', coherent n s' g K ∧ found K k a0 s')) as Hsame.
  { intros HK. apply awp_ret. split; [eapply coherent_le; [done|lia]|]. unfold found, readable. rewrite HK.
    cbn [mbind option_bind]. rewrite (proj2 (Z.ltb_ge _ _)) by lia. split; [done|]. split; [done|done|eauto]. }
  destruct (K !! k) as [v|] eqn:EK.
  - destruct Hf as [(_ & -> & -> & ->)|Hf].
    + cbn [f_ret Z.eqb andb]. rewrite (proj2 (Z.eqb_neq _ _) Hg). apply awp_bind.
      eapply awp_ok; [unfold get_body; rewrite Hb3; reflexivity|]. cbn [Nat.eqb negb orb default from_option id].
      rewrite Z.ltb_irrefl. by apply Hsame.
    + pose proof (co_short _ _ _ _ HC k v EK) as Hlen. cbn beta in Hlen. rewrite (proj2 (Z.ltb_ge _ _) Hlen) in Hf.
      destruct Hf as (-> & Hct & Hver). destruct (cached_valid _ _ _ _ _ _ Hct) as (_ & _ & Hgt).
      cbn [f_ret Z.eqb andb]. rewrite (proj2 (Z.eqb_neq _ _) Hgt). apply awp_bind.
      eapply awp_ok; [unfold get_body; rewrite Hb3; reflexivity|]. cbn [Nat.eqb negb orb default from_option id].
      destruct (Z.ltb_spec (tag (val_ptr b)) (tag t)) as [Hlt|Hge].
      * eapply awp_mono; [apply (refresh_wp n s3 g K k a (skey b) t v); try done; by rewrite Es3|]. done.
      * destruct Hver as [[-> ->]|?]; [by apply Hsame|lia].
  - destruct Hf as [-> ->]. cbn [Z.eqb andb]. apply awp_bind.
    eapply awp_mono; [by apply (item_remove_wp (2 + n) s3 g K a)|]. intros [] s4 (HC4 & _). apply awp_ret.
    split; [eapply coherent_le; [done|lia]|]. unfold found, readable. by rewrite EK.
Qed.

Definition put_spec (K : gmap bytes bytes) (k v : bytes) (r : Z) (K' : gmap bytes bytes) : Prop :=
  2 ≤ len v ∧ r = 0 ∧ K' = <[k := v]> K ∨ r = -1 ∧ K' = K.

(** *** Writing *)

(** An item that is not linked may have any content. *)
Lemma set_body_wp n s g K a b (Q : unit → api → Prop) :
  coherent n s g K → (∀ k, linked (items s) !! k ≠ Some a) →
  (∀ s', s' = mkApi (items s) (store s) (<[a := b]> (bodies s)) (num_hit s) → coherent n s' g K → Q tt s') →
  awp (set_body a b) s Q.
Proof.
  intros [H1 H2 H3 H4 H5] Ha HQ. eapply awp_ok; [reflexivity|]. apply HQ; [done|]. split; try done.
  intros k a' Hk. cbn [items bodies] in *. rewrite lookup_insert_ne; [by apply H5|]. intros ->. by apply (Ha k).
Qed.

Lemma decr_wp n s g K k a :
  coherent (Datatypes.S n) s g K → linked (items s) !! k = Some a → 1 ≤ refs (items s) a →
  awp (on_items_ (refcount_decr a)) s (λ _ s', coherent n s' g K ∧
    ∀ b, b ≠ a → 1 ≤ refs (items s) b → keeps (items s) (items s') b).
Proof.
  intros HC Hk Hr. destruct (ilaw_decr n (items s) k a (co_items _ _ _ _ HC) Hk Hr) as (i & E & Hi & Hl & Hn & Hkeep).
  unfold awp, on_items_. rewrite E. split.
  - eapply coherent_items; [done|lia|done|by rewrite Hl|]. intros k' b Hb. destruct (decide (b = a)) as [->|Hne]; [done|].
    destruct (Hkeep b Hne) as (_ & _ & ?); [by right; exists k'|done].
  - intros b Hne Hb. apply Hkeep; [done|by left].
Qed.

(** The caller's item with the value to store. *)
Record to_store (s : api) (it : Z) (k v : bytes) : Prop := {
  ts_refs : 1 ≤ refs (items s) it;
  ts_key : it_key (items s) it = k;
  ts_nbytes : it_nbytes (items s) it = len v;
  ts_data : data (default no_body (bodies s !! it)) = v;
  ts_unlinked k' : linked (items s) !! k' ≠ Some it
}.

Lemma to_store_keeps s s' it k v :
  to_store s it k v → keeps (items s) (items s') it → bodies s' = bodies s → linked (items s') ⊆ linked (items s) →
  to_store s' it k v.
Proof.
  intros [H1 H2 H3 H4 H5] (Hr & Hk & Hn) Eb Hsub. split; [lia|congruence|congruence|by rewrite Eb|].
  intros k' Hk'. apply (H5 k'). by eapply lookup_weaken.
Qed.

(** The item is in the table, with the store's pointers; the caller still holds it. *)
Lemma stored_fill n s g K k it q t v i h m :
  coherent m s g K → (n ≤ m)%nat → 2 ≤ len v → i_inv n i → linked i = <[k := it]> (linked (items s)) →
  (∀ k', linked (items s) !! k' ≠ Some it) → it_nbytes i it = len v →
  (∀ k' b, k' ≠ k → linked (items s) !! k' = Some b → it_nbytes i b = it_nbytes (items s) b) →
  s_cached (store s) g k q t v →
  coherent n (mkApi i (store s) (<[it := mkBody q t v]> (bodies s)) h) g K.
Proof.
  intros HC Hle H2 Hi Hl Hun Hnb Hoth Hc.
  eapply coherent_fill; [exact HC|done|done|rewrite Hl, delete_insert_eq; apply delete_subseteq|by rewrite Hl, lookup_insert_eq| |done|done|done].
  intros k' b Hne Hb. rewrite Hl, lookup_insert_ne in Hb by done. split; [intros ->; by apply (Hun k')|by eapply Hoth].
Qed.

Lemma on_store_wp {A} (f : sst → answer (A * sst)) s (Q : A → api → Prop) :
  f (store s) ≠ Assertion ∧ (∀ r, f (store s) = Answer r → Q (fst r) (with_store (snd r) s)) → awp (on_store f) s Q.
Proof. intros [Hn H]. unfold awp, on_store. destruct (f (store s)) as [[r x]| |]; [by apply (H (r, x))|done..]. Qed.

Definition stored_post (n : nat) (K : gmap bytes bytes) (k v : bytes) (it : Z) (r : store_item_type) (s' : api) : Prop :=
  1 ≤ refs (items s') it ∧ ∃ g' K', coherent n s' g' K' ∧
    (r = STORED ∧ K' = <[k := v]> K ∨ r = NOT_STORED ∧ K' = K).

Lemma short_insert (K : gmap bytes bytes) (k v : bytes) : map_Forall (λ _ v, len v ≤ VAL_LEN) K → len v ≤ VAL_LEN →
  map_Forall (λ _ v, len v ≤ VAL_LEN) (<[k := v]> K).
Proof. intros. by apply map_Forall_insert_2. Qed.

(** The key is in the cache: the store is updated through the key's node. *)
Lemma store_hit_wp n s g K k v it res old :
  coherent (3 + n) s g K → to_store s it k v → 2 ≤ len v ≤ VAL_LEN →
  linked (items s) !! k = Some res → 1 ≤ refs (items s) res → bodies s !! res = Some old →
  awp (p ← on_store (kvs_PutP (skey old) (val_ptr old) v);
    if p_ret p =? 0 then
      if negb (ptr_IsValid (p_key p)) || negb (IsValid (p_val p)) then
        on_items_ (refcount_decr res);; mret NOT_STORED
      else
        (if negb (tag (val_ptr old) =? tag (p_val p)) || negb (gptr_ (val_ptr old) =? gptr_ (p_val p)) then
           on_items_ (do_item_replace res it);;
           on_items_ (do_item_remove res);;
           set_ptrs it (p_key p) (p_val p)
         else mret tt);;
        mret STORED
    else on_items_ (refcount_decr res);; mret NOT_STORED) s (stored_post n K k v it).
Proof.
  intros HC HT Hv Hk Hr Hb. destruct (co_linked _ _ _ _ HC k res Hk) as (b & Hb' & _ & _ & Hc). simplify_eq.
  destruct (law_PutP (2 + n) _ _ _ k v _ _ _ (co_store _ _ _ _ HC) Hc ltac:(unfold VAL_LEN, kMaxValLen, two64 in *; lia)) as [Hna Hp].
  apply awp_bind, on_store_wp. split; [done|]. intros [p x] E. specialize (Hp _ E).
  cbn [fst snd] in Hp |- *. destruct Hp as [(-> & Eq & Htag & g' & Hx & Hst & Hcn)|(-> & g' & Hx & Hst)]; cbn [Z.eqb].
  - assert (coherent (2 + n) (with_store x s) g' (<[k := v]> K)) as HC1.
    { eapply coherent_store; [exact HC|lia|done|apply short_insert; [apply HC|lia]|done]. }
    rewrite Eq in *. destruct (cached_valid _ _ _ _ _ _ Hcn) as (-> & -> & _). cbn [Z.eqb negb orb].
    rewrite (proj2 (Z.eqb_neq (tag (val_ptr old)) _)) by lia. cbn [negb orb].
    set (s1 := with_store x s) in *. destruct HT as [T1 T2 T3 T4 T5].
    destruct (ilaw_replace (1 + n) (items s1) k res it (co_items _ _ _ _ HC1)) as (i & E2 & Hi2 & Hl2 & Hkeep); try done.
    destruct (Hkeep it) as (Hri & _ & Hni); [by left|]. destruct (Hkeep res) as (Hrr & _); [by left|].
    assert (it ≠ res) as Hne by (intros ->; by apply (T5 k)).
    destruct (ilaw_remove n i res Hi2) as (i3 & E3 & Hi3 & Hl3 & _ & Hkeep3); [cbn in *; lia|].
    destruct (Hkeep3 it Hne) as (Hri3 & _ & Hni3); [left; cbn in *; lia|].
    do 2 apply awp_bind. eapply awp_ok; [unfold on_items_; rewrite E2; reflexivity|].
    apply awp_bind. eapply awp_ok; [unfold on_items_; cbn [with_items items]; rewrite E3; reflexivity|].
    unfold set_ptrs. apply awp_bind. eapply awp_ok; [reflexivity|]. eapply awp_ok; [reflexivity|]. apply awp_ret.
    cbn [with_items items store bodies num_hit] in *. change (bodies s1) with (bodies s). change (items s1) with (items s) in *. rewrite T4. split; [cbn [items]; lia|].
    exists g', (<[k := v]> K). split; [|by left]. rewrite T3 in Hni.
    eapply (stored_fill n s1); [exact HC1|lia|lia|done|by rewrite Hl3, Hl2|done|congruence| |done].
    intros k' b Hne' Hb''. assert (linked i !! k' = Some b) as Hbi by (by rewrite Hl2, lookup_insert_ne).
    assert (b ≠ res) by (intros ->; by apply Hne', (linked_inj _ _ _ _ _ (co_items _ _ _ _ HC) Hb'' Hk)).
    destruct (Hkeep b) as (_ & _ & Hx1); [right; by exists k'|].
    destruct (Hkeep3 b) as (_ & _ & Hx2); [done|right; exists k'; by rewrite Hl3|exact (eq_trans Hx2 Hx1)].
  - assert (coherent (2 + n) (with_store x s) g' K) as HC1.
    { eapply coherent_store; [exact HC|lia|done|apply HC|done]. }
    cbn [Z.eqb]. apply awp_bind. eapply awp_mono; [by apply (decr_wp (1 + n) _ g' K k res)|].
    intros [] s2 [HC2 Hkeep]. apply awp_ret. destruct HT as [T1 T2 T3 T4 T5].
    destruct (Hkeep it) as (Hri & _); [intros ->; by apply (T5 k)|done|]. split; [cbn in *; lia|].
    exists g', K. split; [by apply coherent_less|by right].
Qed.

(** It is not: the store is updated by the key, and the item is linked. *)
Lemma store_miss_wp n s g K k v it :
  coherent (2 + n) s g K → to_store s it k v → 2 ≤ len v ≤ VAL_LEN → linked (items s) !! k = None → s_key k →
  awp (p ← on_store (kvs_PutC k v 0 TagGptr_null);
    if p_ret p =? 0 then
      if negb (ptr_IsValid (p_key p)) || negb (IsValid (p_val p)) then mret NOT_STORED
      else
        set_ptrs it (p_key p) (p_val p);;
        on_items_ (do_item_link it);;
        mret STORED
    else mret NOT_STORED) s (stored_post n K k v it).
Proof.
  intros HC HT Hv Hk Hkey. destruct HT as [T1 T2 T3 T4 T5].
  destruct (law_PutC (1 + n) _ _ _ k v 0 TagGptr_null (co_store _ _ _ _ HC) Hkey ltac:(unfold VAL_LEN, kMaxValLen, two64 in *; lia)) as [Hna Hp].
  apply awp_bind, on_store_wp. split; [done|]. intros [p x] E. specialize (Hp _ E).
  cbn [fst snd] in Hp |- *. destruct Hp as [(-> & g' & Hx & Hst & Hcn)|(-> & g' & Hx & Hst)]; cbn [Z.eqb].
  - assert (coherent (1 + n) (with_store x s) g' (<[k := v]> K)) as HC1.
    { eapply coherent_store; [exact HC|lia|done|apply short_insert; [apply HC|lia]|done]. }
    destruct (cached_valid _ _ _ _ _ _ Hcn) as (-> & -> & _). cbn [negb orb].
    set (s1 := with_store x s) in *.
    destruct (ilaw_link n (items s1) k it (co_items _ _ _ _ HC1)) as (i & E2 & Hi2 & Hl2 & Hkeep); try done.
    destruct (Hkeep it) as (Hri & _ & Hni); [by left|].
    unfold set_ptrs. do 2 apply awp_bind. eapply awp_ok; [reflexivity|]. eapply awp_ok; [reflexivity|].
    apply awp_bind. eapply awp_ok; [unfold on_items_; cbn [with_store items]; rewrite E2; reflexivity|]. apply awp_ret.
    cbn [with_items with_store items store bodies num_hit] in *. change (bodies s1) with (bodies s). change (items s1) with (items s) in *. rewrite T4. split; [exact (Z.le_trans _ _ _ T1 Hri)|].
    exists g', (<[k := v]> K). split; [|by left]. rewrite T3 in Hni.
    eapply (stored_fill n s1); [exact HC1|lia|lia|done|done|done|done| |done].
    intros k' b Hne' Hb. destruct (Hkeep b) as (_ & _ & Hx1); [|done]. right. exists k'. by rewrite Hl2, lookup_insert_ne.
  - apply awp_ret. split; [done|]. exists g', K. split; [|by right].
    apply coherent_less. eapply coherent_store; [exact HC|lia|done|apply HC|done].
Qed.

Lemma value_of_local d : value_of false d = d.
Proof. done. Qed.

Lemma store_item_full_wp n s g K k v it :
  coherent (4 + n) s g K → to_store s it k v → 2 ≤ len v ≤ VAL_LEN → s_key k →
  awp (store_item_full it false) s (stored_post n K k v it).
Proof.
  intros HC HT Hv Hkey. unfold store_item_full. apply awp_bind. eapply awp_ok; [reflexivity|].
  rewrite (ts_key _ _ _ _ HT). apply awp_bind. eapply awp_mono; [by apply (item_lookup_wp (3 + n))|].
  intros a s1 (HC1 & _ & Eb1 & Hsub & Hkeep & Hcase). apply awp_bind. eapply awp_ok; [reflexivity|].
  assert (it ≠ a → to_store s1 it k v) as HT1.
  { intros Hne. eapply to_store_keeps; [done| |done|done]. apply Hkeep; [done|apply HT]. }
  rewrite Eb1, (ts_data _ _ _ _ HT), value_of_local. pose proof (ts_refs _ _ _ _ HT) as Hit.
  destruct Hcase as [[-> Hk1]|(H0 & Hk & Hk1 & Hr1)].
  - rewrite Z.eqb_refl. cbn [negb]. destruct (decide (it = 0)) as [->|Hne].
    + exfalso. eapply (refs_null _ _ (co_items _ _ _ _ HC)). done.
    + apply (store_miss_wp (1 + n) s1 g K k v it) in Hkey; [|done|by apply HT1|done|done].
      eapply awp_mono; [exact Hkey|]. intros r s' (Hr & g' & K' & HC' & Hcase). split; [done|]. exists g', K'.
      split; [by apply coherent_less|done].
  - rewrite (proj2 (Z.eqb_neq _ _) H0). cbn [negb]. apply awp_bind. eapply hit_wp; [exact HC1|].
    intros h s1' HC1'. destruct (co_linked _ _ _ _ HC1' k a Hk1) as (b & Hb & _).
    apply awp_bind. eapply awp_ok; [unfold get_body; rewrite Hb; reflexivity|]. cbn [default from_option id].
    apply (store_hit_wp n s1' g K k v it a b HC1'); [|done..].
    assert (it ≠ a) as Hne by (intros ->; by apply (ts_unlinked _ _ _ _ HT k)).
    destruct (HT1 Hne) as [T1 T2 T3 T4 T5]. by split.
Qed.

(** *** The functions of the service, in full mode *)

Lemma cache_put_wp n s g K k v :
  coherent (6 + n) s g K → s_key k → len v ≤ VAL_LEN →
  awp (Cache_Put 1 k v) s (λ r s', ∃ g' K', coherent n s' g' K' ∧ put_spec K k v r K').
Proof.
  intros HC Hkey Hv. unfold Cache_Put. cbn [Nat.eqb store_item]. apply awp_bind.
  eapply awp_mono; [by apply (item_alloc_wp (5 + n) s g K false k (len v))|].
  intros a s1 [HC1 [F1 F2 F3 F4 F5 F6]]. destruct (Z.ltb_spec (len v) 2).
  { subst a. apply awp_ret. exists g, K. split; [eapply coherent_le; [done|lia]|by right]. }
  destruct F6 as (H0 & Hr & Hka & Hnb & Hnl). rewrite (proj2 (Z.eqb_neq _ _) H0).
  apply awp_bind. unfold set_data. apply awp_bind. eapply awp_ok; [reflexivity|].
  eapply set_body_wp; [exact HC1|done|]. intros s2 Es2 HC2.
  apply awp_bind. eapply awp_mono; [apply (store_item_full_wp (1 + n) s2 g K k v a); [done| |lia|done]|].
  { rewrite Es2. split; cbn [items bodies]; [done..| |done]. by rewrite lookup_insert_eq. }
  intros r s3 (Hr3 & g' & K' & HC3 & Hcase). apply awp_bind. unfold item_remove.
  eapply awp_mono; [by apply (item_remove_wp n s3 g' K' a)|]. intros [] s4 (HC4 & _). apply awp_ret.
  exists g', K'. split; [done|]. unfold put_spec. destruct Hcase as [[-> ->]|[-> ->]]; [left; by split_and!|by right].
Qed.

Lemma cache_get_wp n s g K k l :
  coherent (7 + n) s g K → s_key k →
  awp (Cache_Get 1 1 stack k l) s (λ r s', coherent n s' g K ∧
    r = match readable K k with Some v => (0, Some v) | None => (-1, None) end).
Proof.
  intros HC Hkey. unfold Cache_Get. cbn [Nat.eqb item_get]. apply awp_bind.
  eapply awp_mono; [by apply (item_get_full_wp (1 + n) s g K k true)|]. unfold found.
  intros a s1 [HC1 Hf]. destruct (readable K k) as [v|].
  - destruct Hf as [H0 [Hr Hnb (b & Hb & Hd)]]. rewrite (proj2 (Z.eqb_neq _ _) H0).
    apply awp_bind. eapply awp_ok; [reflexivity|]. apply awp_bind. eapply awp_ok; [unfold get_body; rewrite Hb; reflexivity|].
    cbn [default from_option id]. apply awp_bind. unfold item_remove.
    eapply awp_mono; [by apply (item_remove_wp n s1 g K a)|]. intros [] s2 (HC2 & _). apply awp_ret. split; [done|].
    by rewrite Hnb, Hd, Nat2Z.id, firstn_all.
  - subst a. apply awp_ret. split; [by apply coherent_less|done].
Qed.

Definition del_spec (K : gmap bytes bytes) (k : bytes) (r : option Z) (K' : gmap bytes bytes) : Prop :=
  r = Some 0 ∧ K' = delete k K ∨ r = None ∧ K' = K.

Lemma cache_del_wp n s g K k :
  coherent (4 + n) s g K →
  awp (Cache_Del 1 k) s (λ r s', ∃ g' K', coherent n s' g' K' ∧ del_spec K k r K' ∧
    (r = None → linked (items s') !! k = None)).
Proof.
  intros HC. unfold Cache_Del. cbn [Nat.eqb]. apply awp_bind. eapply awp_mono; [by apply (item_lookup_wp (3 + n))|].
  intros a s1 (HC1 & _ & _ & _ & _ & [[-> Hk1]|(H0 & _ & Hk1 & Hr1)]).
  { rewrite Z.eqb_refl. apply awp_ret. exists g, K. split; [eapply coherent_le; [done|lia]|]. split; [by right|done]. }
  rewrite (proj2 (Z.eqb_neq _ _) H0). unfold item_unlink. do 2 apply awp_bind.
  destruct (co_linked _ _ _ _ HC1 k a Hk1) as (b & Hb & _ & _ & Hc).
  eapply awp_mono; [by apply (item_unlink_wp (2 + n) s1 g K k a)|]. intros [] s2 (HC2 & Es2 & Eb2 & El2 & Hkeep).
  apply awp_bind. eapply awp_ok; [unfold get_body; rewrite Eb2, Hb; reflexivity|]. cbn [default from_option id].
  rewrite <- Es2 in Hc. apply awp_bind.
  destruct (law_DelP (1 + n) _ _ _ k _ _ _ (co_store _ _ _ _ HC2) Hc) as (r & x & E & g' & Hx & Hst).
  eapply awp_ok; [unfold on_store; rewrite E; reflexivity|]. apply awp_ret.
  assert (coherent (1 + n) (with_store x s2) g' (delete k K)) as HC3.
  { eapply coherent_store; [exact HC2|lia|done| |done]. apply map_Forall_delete, HC2. }
  apply awp_bind. destruct (Hkeep a Hr1) as (Hr2 & _).
  eapply awp_mono; [apply (item_remove_wp n _ g' _ a HC3); cbn [with_store items]; lia|]. intros [] s4 (HC4 & _). apply awp_ret.
  exists g', (delete k K). split; [done|]. split; [by left|done].
Qed.

(** *** Histories *)

(** A call of this client, or a change that another client makes to the store. *)
Inductive call :=
  | CallPut (k v : bytes) | CallGet (k : bytes) | CallDel (k : bytes)
  | OtherPut (k v : bytes) | OtherDel (k : bytes).

Inductive result :=
  | RPut (r : Z) | RGet (r : Z * option bytes) | RDel (r : option Z) | ROther (r : Z).

Definition perform (c : call) : AM result :=
  match c with
  | CallPut k v => r ← Cache_Put 1 k v; mret (RPut r)
  | CallGet k => r ← Cache_Get 1 1 stack k VAL_LEN; mret (RGet r)
  | CallDel k => r ← Cache_Del 1 k; mret (RDel r)
  | OtherPut k v => r ← on_store (kvs_Put k v); mret (ROther r)
  | OtherDel k => r ← on_store (kvs_Del k); mret (ROther r)
  end.

Fixpoint performs (cs : list call) : AM (list result) :=
  match cs with
  | [] => mret []
  | c :: cs => r ← perform c; rs ← performs cs; mret (r :: rs)
  end.

(** What the map shared by all clients is after the call, and what the call returns. *)
Definition shared_step (K : gmap bytes bytes) (c : call) (r : result) (K' : gmap bytes bytes) : Prop :=
  match c, r with
  | CallPut k v, RPut r => put_spec K k v r K'
  | CallGet k, RGet r => r = match readable K k with Some v => (0, Some v) | None => (-1, None) end ∧ K' = K
  | CallDel k, RDel r => del_spec K k r K'
  | OtherPut k v, ROther r => r = 0 ∧ K' = <[k := v]> K ∨ r = -1 ∧ K' = K
  | OtherDel k, ROther r => r = match K !! k with Some _ => 0 | None => -2 end ∧ K' = delete k K
  | _, _ => False
  end.

Inductive shared_run : gmap bytes bytes → list call → list result → gmap bytes bytes → Prop :=
  | shared_nil K : shared_run K [] [] K
  | shared_cons K c r K' cs rs K'' :
      shared_step K c r K' → shared_run K' cs rs K'' → shared_run K (c :: cs) (r :: rs) K''.

Definition call_ok (c : call) : Prop :=
  match c with
  | CallPut k v | OtherPut k v => s_key k ∧ len v ≤ VAL_LEN
  | CallGet k | CallDel k | OtherDel k => s_key k
  end.

Lemma perform_wp n s g K c :
  coherent (7 + n) s g K → call_ok c →
  awp (perform c) s (λ r s', ∃ g' K', coherent n s' g' K' ∧ shared_step K c r K').
Proof.
  intros HC Hok. destruct c as [k v|k|k|k v|k]; cbn [perform call_ok] in *; apply awp_bind.
  - destruct Hok. eapply awp_mono; [by apply (cache_put_wp (1 + n) s g K k v)|]. intros r s' (g' & K' & HC' & Hp).
    apply awp_ret. exists g', K'. split; [by apply coherent_less|done].
  - eapply awp_mono; [by apply (cache_get_wp n s g K k VAL_LEN)|]. intros r s' [HC' ->]. apply awp_ret. by exists g, K.
  - eapply awp_mono; [by apply (cache_del_wp (3 + n) s g K k)|]. intros r s' (g' & K' & HC' & Hd & _).
    apply awp_ret. exists g', K'. split; [eapply coherent_le; [done|lia]|done].
  - destruct Hok as [Hkey Hv].
    destruct (law_Put (6 + n) _ _ _ k v (co_store _ _ _ _ HC) Hkey ltac:(unfold VAL_LEN, kMaxValLen, two64 in *; lia)) as [Hna Hp].
    apply on_store_wp. split; [done|]. intros [r x] E. apply awp_ret. specialize (Hp _ E). cbn [fst snd] in Hp |- *. destruct Hp as [(-> & g' & Hx & Hst)|(-> & g' & Hx & Hst)].
    + exists g', (<[k := v]> K). split; [|by left].
      eapply coherent_store; [exact HC|lia|eapply s_inv_le; [exact Hx|lia]|apply short_insert; [apply HC|done]|done].
    + exists g', K. split; [|by right].
      eapply coherent_store; [exact HC|lia|eapply s_inv_le; [exact Hx|lia]|apply HC|done].
  - destruct (law_Del (6 + n) _ _ _ k (co_store _ _ _ _ HC) Hok) as (x & E & g' & Hx & Hst).
    eapply awp_ok; [unfold on_store; rewrite E; reflexivity|]. apply awp_ret. exists g', (delete k K). split; [|done].
    eapply coherent_store; [exact HC|lia|eapply s_inv_le; [exact Hx|lia]|apply map_Forall_delete, HC|done].
Qed.

Lemma performs_wp n cs s g K :
  coherent (7 * length cs + n) s g K → Forall call_ok cs →
  awp (performs cs) s (λ rs s', ∃ g' K', coherent n s' g' K' ∧ shared_run K cs rs K').
Proof.
  intros HC Hok. revert s g K HC. induction Hok as [|c cs Hc Hok IH]; intros s g K HC; cbn [performs].
  { apply awp_ret. exists g, K. split; [done|constructor]. }
  apply awp_bind. eapply awp_mono; [apply (perform_wp (7 * length cs + n) s g K c); [|done]|].
  { eapply coherent_le; [exact HC|]. cbn [length]. lia. }
  intros r s1 (g1 & K1 & HC1 & Hs). apply awp_bind. eapply awp_mono; [by apply (IH s1 g1 K1)|].
  intros rs s2 (g2 & K2 & HC2 & Hs2). apply awp_ret. exists g2, K2. split; [done|by econstructor].
Qed.

End Spec.
