(* ===== verification/CacheValues.v ===== *)
(** The values in the local cache, as a client of the text protocol sees them: for each key the
    bytes of its item, with their line end.

    The item functions of [items.c], [thread.c] and [memcached.c] are steps on these values: a key may
    lose its item, when it has expired or its memory is needed, but no key gets a value that
    it was not given. *)

From stdpp Require Import strings.
From S2P Require Import Prelude TagPtr Fam Itoa Util Item Slabs Assoc Items ItemFrame ItemInv ItemAlloc ItemOps CacheItems.
From S2P Require Import KvsRadixTree CacheIface CacheApi CacheApiSpec.

(** ** What is asked of the items besides *)

Class DeltaItems (I : ItemCache) := {
  it_refcount : ics → Z → Z;
  it_chunked : ics → Z → bool;
  (** [ITEM_set_cas(it, settings.use_cas ? get_cas_id() : 0)] *)
  renew_cas : Z → ics → ics;
  (** [ITEM_set_cas(it, settings.use_cas ? ITEM_get_cas(new_it) : 0)] *)
  copy_cas : Z → Z → ics → ics
}.

(** The items after a change of one header are as before. *)
Definition same_items {I : ItemCache} {IL : ItemLaws I} (n : nat) (s s' : ics) : Prop :=
  i_inv n s' ∧ linked s' = linked s ∧ ∀ b, refs s' b = refs s b ∧ it_key s' b = it_key s b ∧ it_nbytes s' b = it_nbytes s b.

Class DeltaLaws (I : ItemCache) {IL : ItemLaws I} (DI : DeltaItems I) := {
  dlaw_refcount n s k a : i_inv n s → linked s !! k = Some a → refs s a < it_refcount s a;
  dlaw_chunked n s k a : i_inv n s → linked s !! k = Some a → it_chunked s a = false;
  dlaw_renew n s k a : i_inv n s → linked s !! k = Some a → same_items n s (renew_cas a s);
  dlaw_copy n s b a : i_inv n s → 1 ≤ refs s a → same_items n s (copy_cas b a s);
  dlaw_update n s k a : i_inv (S n) s → linked s !! k = Some a →
    ∃ s', do_item_update a s = Answer s' ∧ i_inv n s' ∧ linked s' = linked s ∧
      ∀ b, 1 ≤ refs s b ∨ (∃ k', linked s' !! k' = Some b) → keeps s s' b
}.

Section Header.
Context {N : Nvmm} {S : Store} {I : ItemCache}.

Definition header {A} (f : ics → Z → A) (a : Z) : AM A := λ s, AOk (f (items s) a) s.
Definition upd_items (f : ics → ics) : AM unit := λ s, AOk tt (with_items (f (items s)) s).

End Header.

(** ** The items of [items.c] *)

Section Instances.
Context (st : alloc_settings) (hash : bytes → Z).

Definition upd_cache (f : cache → cache) (s : sitems) : sitems := mkSItems (f (si_cache s)) (si_flags s) (si_world s).

Definition renew_cas_ (a : Z) (c : cache) : cache :=
  let '(c, v) := if Slabs.use_cas (slab_settings (item_st st)) then get_cas_id c else (c, 0) in
  set_item c a (ITEM_set_cas v).
Definition copy_cas_ (b a : Z) (c : cache) : cache :=
  set_item c a (ITEM_set_cas (if Slabs.use_cas (slab_settings (item_st st)) then ITEM_get_cas (ith c b) else 0)).

#[export] Instance SlabDeltaItems : DeltaItems (SlabItems st hash) := {|
  it_refcount (s : @ics (SlabItems st hash)) a := refcount (ith (si_cache s) a);
  it_chunked (s : @ics (SlabItems st hash)) a := has_flag (ith (si_cache s) a) ITEM_CHUNKED;
  renew_cas a (s : @ics (SlabItems st hash)) := upd_cache (renew_cas_ a) s;
  copy_cas b a (s : @ics (SlabItems st hash)) := upd_cache (copy_cas_ b a) s
|}.

Abbreviation inv := (ItemInv.inv (item_st st) hash).

Lemma with_cas_inv n c L v : inv n c L → inv n (with_cas c v) L.
Proof. intros [[? ? ? Hq ? ?] ? ? ? ?]. split; [split; try done|done..]. intros id Hid. by destruct (Hq id Hid); split. Qed.

(** A new version number changes nothing else. *)
Lemma set_cas_inv n c L a v :
  inv n c L → used c a → let c' := set_item c a (ITEM_set_cas v) in
  inv n c' L ∧ step c c' a ∧ used c' a ∧ extra c' a = extra c a ∧ table c' = table c.
Proof.
  intros HI Hu c'. destruct (set_cas_same v (ith c a)) as (Hs & Hn & Hp & Hk & Hr & Hf).
  assert (has_flag (ITEM_set_cas v (ith c a)) ITEM_LINKED = has_flag (ith c a) ITEM_LINKED) as Hfl by (unfold has_flag; by rewrite Hf).
  pose proof (v_ok _ _ _ _ _ HI) as Hok.
  assert (cache_ok (item_st st) hash c' L []) as Hok'.
  { apply (set_item_ok _ _ Hok); try done. intros _ M [H1 H2 H3]. split; [by rewrite Hfl|by rewrite Hr|by rewrite Hk]. }
  pose proof (set_item_held _ _ c L [] a (ITEM_set_cas v) Hok Hu) as Hh.
  assert (step c c' a) as HS.
  { apply step_same; [|done]. apply frame_set_item. intros i. unfold ITEM_set_cas. destruct (has_flag i ITEM_CAS); split; reflexivity. }
  assert (ith c' a = ITEM_set_cas v (ith c a)) as Hi by apply ith_set_eq.
  assert (used c' a) as Hu' by (unfold used; rewrite Hi; eapply in_use_held; [exact Hh|]; by eapply in_use_same).
  assert (extra c' a = extra c a ∧ is_linked c' a = is_linked c a) as [He Hl].
  { unfold extra, is_linked. by rewrite Hi, Hr, Hfl. }
  split_and!; try done. eapply inv_step; [exact HI|done|done|done|]. intros _. rewrite He, Hl, Hi, Hr.
  split_and!; [by apply (v_low _ _ _ _ _ HI)|by apply (v_high _ _ _ _ _ HI)|by apply (v_flag _ _ _ _ _ HI)].
Qed.

Lemma update_inv now n c L a id :
  inv n c L → (id < LARGEST_ID)%nat → a ∈ L id →
  ∃ c' L', Items.do_item_update (item_st st) now c a = Some c' ∧ inv n c' L' ∧ step c c' a ∧ table c' = table c ∧
    used c' a ∧ extra c' a = extra c a.
Proof.
  intros HI Hid Ha. destruct (inv_queued _ _ _ _ _ _ _ HI Hid Ha) as (Hu & Hl & Hr & _).
  destruct (do_item_update_ok (item_st st) hash now c L a id) as (c' & L' & E & Hok & [Hmem Ht Hh _] & Hr'); [apply HI|done|done|].
  pose proof (update_frame _ _ _ _ _ E) as HF. assert (step c c' a) as HS by by apply step_same.
  destruct (members_in L L' a id Hmem Hid Ha) as (i & Hi & Ha').
  destruct (queue_use _ _ Hok i a Hi Ha') as [Hu' _]. destruct (linked_queued _ _ _ _ _ _ Hok Hi Ha') as [Hl' _ _].
  assert (extra c' a = extra c a) as He by (unfold extra, is_linked in *; rewrite Hl', Hl, Hr'; lia).
  exists c', L'. split_and!; try done. eapply inv_members; [exact HI|done|done|..].
  - intros b j _ Hj Hbj. by apply (members_in L L' b j).
  - intros _. rewrite He, Hr'. split_and!; [by apply (v_low _ _ _ _ _ HI)|by apply (v_high _ _ _ _ _ HI)|eauto].
Qed.

Context (Hst : items_settings_ok st).
#[local] Existing Instance SlabItemsLaws.
#[local] Abbreviation I := (SlabItems st hash).

Lemma same_cache n (s : @ics I) c' L :
  items_inv st hash n s → inv n (si_cache s) L → (∃ L', inv n c' L') → (∀ b, refs_of c' b = refs_of (si_cache s) b) →
  (∃ a, step (si_cache s) c' a) → table c' = table (si_cache s) →
  @same_items I (SlabItemsLaws st hash Hst) n s (mkSItems c' (si_flags s) (si_world s)).
Proof.
  intros (Hn & Hlg & Hw & _) HI HI' Hr [a HS] Ht. split_and!.
  - split_and!; try done. eapply largest_kept; [exact HI|done|by eapply step_sizes].
  - cbn. unfold linked_of. by rewrite Ht.
  - intros b. destruct (step_key _ _ a b HS) as [Hk Hnb]. split_and!; [exact (Hr b)|done|done].
Qed.

Lemma set_cas_refs n c L a v : inv n c L → used c a → ∀ b, refs_of (set_item c a (ITEM_set_cas v)) b = refs_of c b.
Proof.
  intros HI Hu b. destruct (set_cas_inv n c L a v HI Hu) as (_ & HS & Hu' & He & _). unfold refs_of.
  destruct (decide (b = a)) as [->|Hne]; [by rewrite !decide_True|].
  pose proof (step_used _ _ a b HS Hne) as Hub. destruct (step_fields _ _ a b HS Hne) as (_ & _ & Heb).
  destruct (decide (used c b)), (decide (used (set_item c a (ITEM_set_cas v)) b)); tauto || done.
Qed.

#[export] Instance SlabDeltaLaws : @DeltaLaws I (SlabItemsLaws st hash Hst) SlabDeltaItems.
Proof.
  split.
  - intros n s k a (_ & _ & _ & L & HI) Hk. destruct (linked_in _ _ n _ L k a HI Hk) as (_ & _ & _ & _ & Hu & Hl & _).
    cbn. rewrite refs_extra by done. unfold extra. rewrite Hl. lia.
  - intros n s k a (_ & _ & _ & L & HI) Hk. destruct (linked_in _ _ n _ L k a HI Hk) as (_ & _ & _ & _ & Hu & _).
    by destruct Hu.
  - intros n s k a Hi Hk. pose proof Hi as (_ & _ & _ & L & HI).
    destruct (linked_in _ _ n _ L k a HI Hk) as (_ & _ & _ & _ & Hu & _). cbn [renew_cas SlabDeltaItems]. unfold upd_cache, renew_cas_.
    assert (∃ c1 v, (if Slabs.use_cas (slab_settings (item_st st)) then get_cas_id (si_cache s) else (si_cache s, 0)) = (c1, v) ∧
      (c1 = si_cache s ∨ c1 = with_cas (si_cache s) v)) as (c1 & v & -> & Hc1).
    { destruct (Slabs.use_cas _); eexists _, _; split; [reflexivity|by right|reflexivity|by left]. }
    assert (inv n c1 L ∧ used c1 a) as [HI1 Hu1] by (destruct Hc1 as [-> | ->]; [done|split; [by apply with_cas_inv|exact Hu]]).
    destruct (set_cas_inv n c1 L a v HI1 Hu1) as (HI' & HS & _ & _ & Ht).
    apply (same_cache n s _ L Hi HI); [eauto| |exists a|].
    + intros b. rewrite (set_cas_refs n c1 L a v HI1 Hu1). by destruct Hc1 as [-> | ->].
    + destruct Hc1 as [-> | ->]; [done|]. destruct HS as [[H1 H2 H3 H4] H5 H6]. by split; [split|..].
    + rewrite Ht. by destruct Hc1 as [-> | ->].
  - intros n s b a Hi Hr. change (1 ≤ refs_of (si_cache s) a) in Hr. apply refs_used in Hr as [Hu He]. pose proof Hi as (_ & _ & _ & L & HI). cbn [copy_cas SlabDeltaItems]. unfold upd_cache, copy_cas_.
    set (v := if Slabs.use_cas _ then _ else _). destruct (set_cas_inv n (si_cache s) L a v HI Hu) as (HI' & HS & _ & _ & Ht).
    apply (same_cache n s _ L Hi HI); [eauto|by apply (set_cas_refs n _ L)|eauto|done].
  - intros n s k a Hi Hk. pose proof Hi as (_ & _ & _ & L & HI).
    destruct (linked_in _ _ _ _ L k a HI Hk) as (id & Hid & Ha & _ & Hu & _).
    destruct (update_inv (e_now (si_world s 0%nat)) _ _ L a id HI Hid Ha) as (c' & L' & E & HI' & HS & Ht & Hu' & He).
    cbn. unfold on_cache. rewrite E. exists (with_cache s c'). split; [done|].
    destruct (left_less st hash n s (si_cache s) L c' (linked_of (si_cache s)) (si_flags s) Hi eq_refl HI) as [Hi' HM].
    { split; [eauto|by eapply step_sizes|]. unfold linked_of. by rewrite Ht. }
    split_and!; [done|done|]. intros b _. change (keep (si_cache s) c' b). destruct (decide (b = a)) as [->|Hb]; [apply keep_self; try done; lia|by eapply keep_step].
Qed.
End Instances.

(** ** The values *)

Section Spec.
Context {N : Nvmm} {S : Store} {I : ItemCache} {IL : ItemLaws I} {DI : DeltaItems I} {DL : DeltaLaws I DI}.

(** The items in the table have the bytes of a connection's value: with a line end. *)
Definition data_ok (n : nat) (s : api) : Prop :=
  i_inv n (items s) ∧ ∀ k a, linked (items s) !! k = Some a →
    ∃ b v, bodies s !! a = Some b ∧ data b = v ++ crlf true ∧ it_nbytes (items s) a = Z.of_nat (length (data b)).

(** The bytes cached for a key. *)
Definition val_at (s : api) (k : bytes) : option bytes :=
  a ← linked (items s) !! k; b ← bodies s !! a; Some (data b).

(** Other keys keep their values, or lose their items. *)
Definition others (k : bytes) (s s' : api) : Prop :=
  store s' = store s ∧ ∀ k', k' ≠ k → val_at s' k' = val_at s k' ∨ val_at s' k' = None.

Lemma others_refl k s : others k s s.
Proof using. split; [done|]. intros k' _. by left. Qed.

Lemma others_then k s1 s2 s3 : others k s1 s2 → others k s2 s3 → others k s1 s3.
Proof using.
  intros [E1 H1] [E2 H2]. split; [congruence|]. intros k' Hk. destruct (H2 k' Hk) as [->|]; [by apply H1|by right].
Qed.

(** The items change; those in the table were there, with as many bytes. *)
Lemma data_items n m s i k :
  data_ok m s → i_inv n i → linked i ⊆ linked (items s) →
  (∀ k a, linked i !! k = Some a → it_nbytes i a = it_nbytes (items s) a) →
  data_ok n (with_items i s) ∧ others k s (with_items i s) ∧
  ∀ k', linked i !! k' = linked (items s) !! k' → val_at (with_items i s) k' = val_at s k'.
Proof using.
  intros [_ HD] Hi Hsub Hnb. split; [|split; [split; [done|]|]].
  - split; [done|]. intros k' a Ha. cbn [with_items items bodies] in *. rewrite (Hnb k' a Ha). apply (HD k'). by eapply lookup_weaken.
  - intros k' _. unfold val_at. cbn [with_items items bodies]. destruct (linked i !! k') as [a|] eqn:Ea; [left|by right].
    by rewrite (lookup_weaken _ _ _ _ Ea Hsub).
  - intros k' E. unfold val_at. cbn [with_items items bodies]. by rewrite E.
Qed.

(** The table stays as it is. *)
Lemma data_same n m s i k :
  data_ok m s → i_inv n i → linked i = linked (items s) →
  (∀ k a, linked i !! k = Some a → it_nbytes i a = it_nbytes (items s) a) →
  data_ok n (with_items i s) ∧ others k s (with_items i s) ∧ val_at (with_items i s) k = val_at s k.
Proof using.
  intros HD Hi Hl Hnb. destruct (data_items n m s i k HD Hi) as (H1 & H2 & H3); [by rewrite Hl|done|].
  split_and!; try done. apply H3. by rewrite Hl.
Qed.

(** The bytes of an item in the table, or of one that is not, change. *)
Lemma data_put n s k a q t v h :
  data_ok n s → linked (items s) !! k = Some a → it_nbytes (items s) a = Z.of_nat (length (v ++ crlf true)) →
  let s' := mkApi (items s) (store s) (<[a := mkBody q t (v ++ crlf true)]> (bodies s)) h in
  data_ok n s' ∧ others k s s' ∧ val_at s' k = Some (v ++ crlf true).
Proof using.
  intros [Hi HD] Hk Hn s'. assert (∀ k' a', linked (items s) !! k' = Some a' → k' ≠ k → a' ≠ a) as Hne.
  { intros k' a' Hk' Hkk ->. by apply Hkk, (linked_inj n (items s) k' k a). }
  split; [|split; [split; [done|]|]].
  - split; [done|]. intros k' a' Hk'. cbn [s' items bodies] in *. destruct (decide (k' = k)) as [->|Hkk].
    + replace a' with a by congruence. eexists _, v. rewrite lookup_insert_eq. done.
    + rewrite lookup_insert_ne; [by apply (HD k')|]. apply not_eq_sym. by eapply Hne.
  - intros k' Hkk. left. unfold val_at, s'. cbn [items bodies]. destruct (linked (items s) !! k') as [a'|] eqn:Ea; [|done].
    cbn [mbind option_bind]. rewrite lookup_insert_ne; [done|]. apply not_eq_sym. by eapply Hne.
  - unfold val_at, s'. cbn [items bodies]. rewrite Hk. cbn [mbind option_bind]. by rewrite lookup_insert_eq.
Qed.

Lemma data_new n s k a b h :
  data_ok n s → (∀ k', linked (items s) !! k' ≠ Some a) →
  let s' := mkApi (items s) (store s) (<[a := b]> (bodies s)) h in
  data_ok n s' ∧ others k s s' ∧ ∀ k', val_at s' k' = val_at s k'.
Proof using.
  intros [Hi HD] Hn s'. assert (∀ k', val_at s' k' = val_at s k') as Hv.
  { intros k'. unfold val_at, s'. cbn [items bodies]. destruct (linked (items s) !! k') as [a'|] eqn:Ea; [|done].
    cbn [mbind option_bind]. rewrite lookup_insert_ne; [done|]. intros <-. by apply (Hn k'). }
  split; [|split; [split; [done|by left]|done]]. split; [done|]. intros k' a' Hk'. cbn [s' items bodies] in *.
  rewrite lookup_insert_ne; [by apply (HD k')|]. intros <-. by apply (Hn k').
Qed.

(** A new item takes the place of the one of the key. *)
Lemma data_replace n m s i k a b v :
  data_ok m s → i_inv n i → linked i = <[k := a]> (linked (items s)) → bodies s !! a = Some b → data b = v ++ crlf true →
  it_nbytes i a = Z.of_nat (length (data b)) →
  (∀ k' a', k' ≠ k → linked i !! k' = Some a' → it_nbytes i a' = it_nbytes (items s) a') →
  data_ok n (with_items i s) ∧ others k s (with_items i s) ∧ val_at (with_items i s) k = Some (v ++ crlf true).
Proof using.
  intros [_ HD] Hi Hl Hb Hd Hna Hnb. split; [|split; [split; [done|]|]].
  - split; [done|]. intros k' a' Ha'. cbn [with_items items bodies] in *. destruct (decide (k' = k)) as [->|Hkk].
    + rewrite Hl, lookup_insert_eq in Ha'. injection Ha' as <-. eauto.
    + rewrite (Hnb k' a' Hkk Ha'). apply (HD k'). by rewrite Hl, lookup_insert_ne in Ha'.
  - intros k' Hkk. left. unfold val_at. cbn [with_items items bodies]. by rewrite Hl, lookup_insert_ne.
  - unfold val_at. cbn [with_items items bodies]. rewrite Hl, lookup_insert_eq. cbn [mbind option_bind]. by rewrite Hb, <-Hd.
Qed.

(** *** Steps *)

Lemma remove_step n s k a :
  data_ok (Datatypes.S n) s → 1 ≤ refs (items s) a →
  ∃ s', on_items_ (do_item_remove a) s = AOk tt s' ∧ data_ok n s' ∧ others k s s' ∧ val_at s' k = val_at s k ∧
    ∀ b, b ≠ a → 1 ≤ refs (items s) b → 1 ≤ refs (items s') b.
Proof using.
  intros HD Hr. pose proof HD as [Hi _]. destruct (ilaw_remove n (items s) a Hi Hr) as (i & E & Hi' & Hl & Ha & Hkeep).
  unfold on_items_. rewrite E. eexists. split; [reflexivity|].
  destruct (data_same n _ s i k HD Hi' Hl) as (H1 & H2 & H3).
  { intros k' b Hb. destruct (decide (b = a)) as [->|Hne].
    - apply Ha. right. exists k'. by rewrite <-Hl.
    - destruct (Hkeep b Hne) as (_ & _ & ?); [by right; exists k'|done]. }
  split_and!; try done. intros b Hne Hb. destruct (Hkeep b Hne) as (? & _); [by left|]. cbn [with_items items]. lia.
Qed.

Lemma set_data_step s a b d :
  bodies s !! a = Some b → set_data a d s =
  AOk tt (mkApi (items s) (store s) (<[a := mkBody (skey b) (val_ptr b) d]> (bodies s)) (num_hit s)).
Proof using. intros Hb. unfold set_data, get_body, mbind, AM_bind. by rewrite Hb. Qed.

Lemma abind_ok {A B} (m : AM A) (f : A → AM B) s a s' : m s = AOk a s' → (m ≫= f) s = f a s'.
Proof using. unfold mbind, AM_bind. by intros ->. Qed.

Lemma set_data_new s a d :
  ∃ q t, set_data a d s = AOk tt (mkApi (items s) (store s) (<[a := mkBody q t d]> (bodies s)) (num_hit s)).
Proof using. unfold set_data, get_body, mbind, AM_bind. destruct (bodies s !! a); eauto. Qed.

Lemma data_less m n s : data_ok m s → (n ≤ m)%nat → data_ok n s.
Proof using. intros [Hi H] Hle. split; [|done]. induction Hle; [done|]. by apply IHHle, i_less. Qed.

(** An item is found, and referenced once more. *)
Lemma lookup_step n s k c u :
  data_ok (Datatypes.S n) s →
  ∃ a s1, on_items (do_item_get k c u) s = AOk a s1 ∧ data_ok n s1 ∧ others k s s1 ∧
    (a = 0 ∧ val_at s1 k = None ∨
     a ≠ 0 ∧ linked (items s1) !! k = Some a ∧ 1 ≤ refs (items s1) a ∧ val_at s1 k = val_at s k) ∧
    bodies s1 = bodies s ∧ (∀ k', linked (items s1) !! k' = linked (items s) !! k' ∨ linked (items s1) !! k' = None) ∧
    ∀ b, b ≠ a → 1 ≤ refs (items s) b → keeps (items s) (items s1) b.
Proof using.
  intros HD. pose proof HD as [Hi _]. destruct (ilaw_get n (items s) k c u Hi) as (a & i & E & Hi' & Hcase & Hkeep).
  exists a, (with_items i s). split; [unfold on_items; by rewrite E|].
  assert (linked i ⊆ linked (items s)) as Hsub.
  { destruct Hcase as [[_ ->]|(_ & -> & _)]; [apply delete_subseteq|done]. }
  destruct (data_items n _ s i k HD Hi' Hsub) as (HD1 & HO1 & HV1).
  { intros k' b Hb. destruct (decide (b = a)) as [->|Hne].
    - destruct Hcase as [[-> _]|(_ & _ & _ & ?)]; [by destruct (linked_key n i k' 0 Hi' Hb)|done].
    - destruct (Hkeep b Hne) as (_ & _ & ?); [by right; exists k'|done]. }
  split_and!; try done.
  2:{ intros k'. cbn [with_items items]. destruct (linked i !! k') as [b|] eqn:Eb; [left|by right].
      by rewrite (lookup_weaken _ _ _ _ Eb Hsub). }
  2:{ intros b Hb Hr. apply Hkeep; [done|by left]. }
  destruct Hcase as [[-> Hl]|(Hk & Hl & Hr & _)]; [left|right].
  - split; [done|]. unfold val_at. cbn [with_items items]. by rewrite Hl, lookup_delete_eq.
  - destruct (linked_key _ _ _ _ Hi Hk) as [H0 _]. pose proof (refs_nonneg _ _ a Hi). cbn [with_items items].
    split_and!; [done|by rewrite Hl|lia|]. apply HV1. by rewrite Hl.
Qed.


(** An item in the hands of the caller, with the key [k] and the value [v], and not in the table. *)
Record mine (s : api) (k v : bytes) (a : Z) : Prop := {
  mi_refs : 1 ≤ refs (items s) a;
  mi_key : it_key (items s) a = k;
  mi_free k' : linked (items s) !! k' ≠ Some a;
  mi_nbytes : it_nbytes (items s) a = Z.of_nat (length (v ++ crlf true));
  mi_data : ∃ q t, bodies s !! a = Some (mkBody q t (v ++ crlf true))
}.

(** It stays so when the references and the table do. *)
Lemma mine_kept s s' k v a :
  mine s k v a → bodies s' !! a = bodies s !! a → keeps (items s) (items s') a →
  (∀ k', linked (items s') !! k' = linked (items s) !! k' ∨ linked (items s') !! k' = None) → mine s' k v a.
Proof using.
  intros [H1 H2 H3 H4 H5] Hb (Hr & Hk & Hn) Hl. split; [lia|congruence| |congruence|by rewrite Hb].
  intros k' E. destruct (Hl k') as [E'|E']; [|congruence]. apply (H3 k'). congruence.
Qed.

(** A new item; the item of the key, whose lock is held, stays. *)
Lemma alloc_step n s k flags ex v :
  data_ok (Datatypes.S n) s → Z.of_nat (length v) + 2 ≤ i_max k →
  awp (on_items (item_alloc true k flags ex (Z.of_nat (length v) + 2))) s (λ a s1, ∃ s', bodies s1 = bodies s ∧
    set_data a (v ++ crlf true) s1 = AOk tt s' ∧ a ≠ 0 ∧ data_ok n s' ∧ others k s s' ∧ val_at s' k = val_at s k ∧ linked (items s') !! k = linked (items s) !! k ∧
    mine s' k v a ∧
    ∀ b, 1 ≤ refs (items s) b → b ≠ a ∧ keeps (items s) (items s') b ∧ bodies s' !! b = bodies s !! b).
Proof using.
  intros HD Hmax. pose proof HD as [Hi _]. set (nb := Z.of_nat (length v) + 2) in *.
  pose proof (ilaw_alloc n (items s) true k flags ex nb Hi Hmax) as Hal. unfold awp, on_items.
  destruct (item_alloc true k flags ex nb (items s)) as [[a i]| |]; [|done..].
  destruct Hal as (Hi1 & Hsub & Hsame & Hkeep & Hnew). specialize (Hsame eq_refl).
  rewrite (proj2 (Z.ltb_ge nb 2)) in Hnew by lia. destruct Hnew as (H0 & Hr & Hk & Hn).
  assert (∀ k', linked i !! k' ≠ Some a) as Hnl.
  { intros k' Hk'. destruct (Hkeep a) as [[] _]; [by right; exists k'|done]. }
  destruct (data_items n _ s i k HD Hi1 Hsub) as (HD1 & HO1 & HV1).
  { intros k' b Hb. destruct (Hkeep b) as (_ & _ & _ & ?); [by right; exists k'|done]. }
  set (s1 := with_items i s) in *. destruct (set_data_new s1 a (v ++ crlf true)) as (q & t & Esd).
  destruct (data_new n s1 k a (mkBody q t (v ++ crlf true)) (num_hit s1) HD1 Hnl) as (HD2 & HO2 & HV2).
  set (s2 := mkApi _ _ _ _) in *. exists s2. split_and!; [done|exact Esd|done|done|by eapply others_then|by rewrite HV2, HV1|done| |].
  - split; cbn [s2 s1 with_items items bodies]; [lia|done|done|rewrite Hn, length_app; unfold nb; cbn [crlf length]; lia|].
    exists q, t. by rewrite lookup_insert_eq.
  - intros b Hb. destruct (Hkeep b) as [Hne Hkb]; [by left|]. split_and!; [done|done|]. cbn [s2 bodies]. by rewrite lookup_insert_ne.
Qed.

(** An item of the caller goes into the table, in the place of the one of its key. *)
Lemma put_step n s k old a v :
  data_ok (Datatypes.S n) s → linked (items s) !! k = (if old =? 0 then None else Some old) → mine s k v a →
  ∃ s', put_item old a s = AOk tt s' ∧ data_ok n s' ∧ others k s s' ∧ val_at s' k = Some (v ++ crlf true) ∧
    linked (items s') !! k = Some a ∧ ∀ b, 1 ≤ refs (items s) b → keeps (items s) (items s') b.
Proof using.
  intros HD Hk [Hr Hka Hf Hn (q & t & Hb)]. pose proof HD as [Hi _].
  assert (∃ i, put_item old a s = AOk tt (with_items i s) ∧ i_inv n i ∧ linked i = <[k := a]> (linked (items s)) ∧
    ∀ b, 1 ≤ refs (items s) b ∨ (∃ k', linked i !! k' = Some b) → keeps (items s) i b) as (i & E & Hi' & Hl & Hkeep).
  { unfold put_item, on_items_. destruct (old =? 0).
    - destruct (ilaw_link n (items s) k a Hi Hk Hr Hf Hka) as (i & -> & ?). by exists i.
    - destruct (ilaw_replace n (items s) k old a Hi Hk Hr Hf Hka) as (i & -> & ?). by exists i. }
  destruct (data_replace n _ s i k a _ v HD Hi' Hl Hb eq_refl) as (HD' & HO' & HV').
  { cbn [data]. destruct (Hkeep a) as (_ & _ & ->); [by left|done]. }
  { intros k' b _ Hb'. destruct (Hkeep b) as (_ & _ & ?); [by right; exists k'|done]. }
  exists (with_items i s). split_and!; try done; [cbn [with_items items]; by rewrite Hl, lookup_insert_eq|].
  intros b Hb'. apply Hkeep. by left.
Qed.
End Spec.
