(* ===== verification/StoreCommands.v ===== *)
(** The storage commands on the local cache: [do_store_item] of [extra/KVS-DRAM-Cache/memcached.c] does
    to the values what the protocol says of [set], [add], [replace], [append], [prepend] and
    [cas]. *)

From S2P Require Import Prelude TagPtr Fam KvsRadixTree CacheIface CacheApi CacheApiSpec CacheValues.

(** What the protocol says: the answer and the value afterwards, for a key with the value [o], and
    [new] from the client; [same] says whether the version the client gave is the current
    one. *)
Definition stored_as (comm : nread) (o : option bytes) (new : bytes) (same : bool) : store_item_type * option bytes :=
  match comm, o with
  | NREAD_SET, _ => (STORED, Some new)
  | NREAD_ADD, None => (STORED, Some new)
  | NREAD_ADD, Some d => (NOT_STORED, Some d)
  | NREAD_REPLACE, None => (NOT_STORED, None)
  | NREAD_REPLACE, Some _ => (STORED, Some new)
  | NREAD_CAS, None => (NOT_FOUND, None)
  | NREAD_CAS, Some d => if same then (STORED, Some new) else (EXISTS, Some d)
  | NREAD_APPEND, None | NREAD_PREPEND, None => (NOT_STORED, None)
  | NREAD_APPEND, Some d => if same then (STORED, Some (take (length d - 2) d ++ new)) else (EXISTS, Some d)
  | NREAD_PREPEND, Some d => if same then (STORED, Some (take (length new - 2) new ++ d)) else (EXISTS, Some d)
  end.

Section StoreCommands.
Context {N : Nvmm} {S : Store} {I : ItemCache} {IL : ItemLaws I} {DI : DeltaItems I} {DL : DeltaLaws I DI}.

(** The references that the function took are given back. *)
Lemma release n s k old new :
  data_ok (2 + n) s → (old ≠ 0 → 1 ≤ refs (items s) old) → (new ≠ 0 → 1 ≤ refs (items s) new ∧ new ≠ old) →
  ∃ s1 s', (if negb (old =? 0) then on_items_ (do_item_remove old) else mret tt) s = AOk tt s1 ∧
    (if new =? 0 then mret tt else on_items_ (do_item_remove new)) s1 = AOk tt s' ∧ data_ok n s' ∧ others k s s' ∧ val_at s' k = val_at s k.
Proof using.
  intros HD Hold Hnew. assert (∃ s1, (if negb (old =? 0) then on_items_ (do_item_remove old) else mret tt) s = AOk tt s1 ∧
    data_ok (1 + n) s1 ∧ others k s s1 ∧ val_at s1 k = val_at s k ∧ (new ≠ 0 → 1 ≤ refs (items s1) new)) as (s1 & E1 & HD1 & HO1 & HV1 & Hn1).
  { destruct (Z.eqb_spec old 0) as [->|H0]; cbn [negb].
    - exists s. split_and!; [done|eapply data_less; [exact HD|lia]|apply others_refl|done|intros H; by apply Hnew].
    - destruct (remove_step (1 + n) s k old HD (Hold H0)) as (s1 & E & ? & ? & ? & Hr). exists s1. split_and!; try done.
      intros [? ?]%Hnew. by apply Hr. }
  exists s1. destruct (Z.eqb_spec new 0) as [->|H0].
  - exists s1. split_and!; [done|done|eapply data_less; [exact HD1|lia]|done|done].
  - destruct (remove_step n s1 k new HD1 (Hn1 H0)) as (s2 & E & ? & ? & ? & _). exists s2.
    split_and!; [done|done|done|by eapply others_then|congruence].
Qed.

(** The part of the function between the lookup and the release, for [append] and [prepend]. *)
Definition combined (append : bool) (key : bytes) (it old_it : Z) : AM (store_item_type * Z) :=
  mine ← get_cas it;
  theirs ← get_cas old_it;
  if negb (mine =? 0) && negb (mine =? theirs) then mret (EXISTS, 0)
  else
    n ← get_nbytes it;
    m ← get_nbytes old_it;
    new_it ← (λ s, on_items (item_alloc true key (it_client_flags (items s) old_it)
                               (it_exptime (items s) old_it) (n + m - 2)) s);
    if new_it =? 0 then mret (NOT_STORED, 0)
    else
      store_item_copy_data append old_it new_it it;;
      put_item old_it new_it;;
      mret (STORED, new_it).

(** What is there before the release: the answer and the value, and the references to give back. *)
Definition between (n : nat) (s : api) (k : bytes) (old : Z) (w : store_item_type * option bytes) (r : store_item_type * Z) (s' : api) : Prop :=
  r.1 = w.1 ∧ data_ok (2 + n) s' ∧ others k s s' ∧ val_at s' k = w.2 ∧ (old ≠ 0 → 1 ≤ refs (items s') old) ∧
  (r.2 ≠ 0 → 1 ≤ refs (items s') r.2 ∧ r.2 ≠ old).

Lemma combined_ok n s k a old v d append :
  data_ok (4 + n) s → linked (items s) !! k = Some old → old ≠ 0 → 1 ≤ refs (items s) old → mine s k v a →
  val_at s k = Some d → Z.of_nat (length d + length v) ≤ i_max k →
  awp (combined append k a old) s (λ r s', ∃ same,
    between n s k old (stored_as (if append then NREAD_APPEND else NREAD_PREPEND) (Some d) (v ++ crlf true) same) r s').
Proof using.
  intros HD Hk H0 Hr Hm HV Hmax. pose proof HD as [_ HDl]. destruct (HDl k old Hk) as (b & x & Hb & Hd & Hn).
  assert (data b = d) as <- by (unfold val_at in HV; rewrite Hk in HV; cbn [mbind option_bind] in HV; rewrite Hb in HV; by injection HV).
  pose proof Hm as [Hra Hka Hfr Hna (q & t & Hba)]. unfold combined, awp.
  rewrite (abind_ok (get_cas a) _ s _ s eq_refl), (abind_ok (get_cas old) _ s _ s eq_refl). destruct (negb _ && negb _).
  { exists false. destruct append; (split_and!; [done|eapply data_less; [exact HD|lia]|apply others_refl|done|done|done]). }
  rewrite (abind_ok (get_nbytes a) _ s _ s eq_refl), (abind_ok (get_nbytes old) _ s _ s eq_refl).
  set (w := if append then x ++ v else v ++ x).
  assert (it_nbytes (items s) a + it_nbytes (items s) old - 2 = Z.of_nat (length w) + 2) as ->.
  { rewrite Hna, Hn, Hd. unfold w. destruct append; rewrite !length_app; cbn [crlf length]; lia. }
  rewrite Hd, length_app in Hmax. cbn [crlf length] in Hmax.
  apply awp_bind. eapply awp_mono; [apply (alloc_step (3 + n) s k _ _ w HD)|].
  { unfold w. destruct append; rewrite length_app; lia. }
  intros new s1 (s2 & Hbs & E2 & Hn0 & HD2 & HO2 & HV2 & Hl2 & Hm2 & Hkeep2). cbv beta. rewrite (proj2 (Z.eqb_neq _ _) Hn0). unfold awp.
  assert (store_item_copy_data append old new a s1 = AOk tt s2) as E3.
  { rewrite <-E2. unfold store_item_copy_data, get_body, mbind, AM_bind. rewrite Hbs, Hb, Hba. cbn [default from_option id data]. rewrite Hd.
    f_equal. unfold w. destruct append; rewrite length_app; cbn [crlf length].
    - replace (length x + 2 - 2)%nat with (length x) by lia. by rewrite take_app_length, app_assoc.
    - replace (length v + 2 - 2)%nat with (length v) by lia. by rewrite take_app_length, app_assoc. }
  rewrite (abind_ok (store_item_copy_data _ _ _ _) _ s1 tt s2 E3). destruct (Hkeep2 old Hr) as (Hne & (Hro & _) & _).
  destruct (put_step (2 + n) s2 k old new w HD2) as (s4 & E4 & HD4 & HO4 & HV4 & _ & Hkeep4);
    [by rewrite Hl2, Hk, (proj2 (Z.eqb_neq _ _) H0)|done|].
  rewrite (abind_ok (put_item old new) _ s2 tt s4 E4). exists true.
  destruct (Hkeep4 old) as (Hr4 & _); [lia|]. pose proof (mi_refs _ _ _ _ Hm2) as Hr2. destruct (Hkeep4 new Hr2) as (Hn4 & _).
  destruct append; (split_and!; [done|done|by eapply others_then| |lia|cbn [snd]; intros _; split; [lia|congruence]]);
    rewrite HV4; cbn [stored_as snd]; unfold w; rewrite Hd, ?length_app; cbn [crlf length]; f_equal.
  - replace (length x + 2 - 2)%nat with (length x) by lia. by rewrite take_app_length, app_assoc.
  - replace (length v + 2 - 2)%nat with (length v) by lia. by rewrite take_app_length, app_assoc.
Qed.

(** An item is put into the table, and that is the answer. *)
Lemma put_between n s k a old v w :
  data_ok (4 + n) s → linked (items s) !! k = (if old =? 0 then None else Some old) → mine s k v a →
  (old ≠ 0 → 1 ≤ refs (items s) old) → w = (STORED, Some (v ++ crlf true)) →
  awp (put_item old a;; mret (STORED, 0)) s (between n s k old w).
Proof using.
  intros HD Hk Hm Hr ->. destruct (put_step (3 + n) s k old a v HD Hk Hm) as (s' & E & HD' & HO' & HV' & _ & Hkeep).
  unfold awp. rewrite (abind_ok (put_item old a) _ s tt s' E). split_and!; [done|eapply data_less; [exact HD'|lia]|done|done| |done].
  intros H0. destruct (Hkeep old (Hr H0)) as (? & _). specialize (Hr H0). lia.
Qed.

(** Nothing is put. *)
Lemma kept_between n s k old r o :
  data_ok (4 + n) s → (old ≠ 0 → 1 ≤ refs (items s) old) → val_at s k = o →
  awp (mret (r, 0) : AM (store_item_type * Z)) s (between n s k old (r, o)).
Proof using. intros HD Hr <-. split_and!; [done|eapply data_less; [exact HD|lia]|apply others_refl|done|done|done]. Qed.

Lemma refreshed n s k old d :
  data_ok (4 + n) s → linked (items s) !! k = Some old → (old ≠ 0 → 1 ≤ refs (items s) old) → val_at s k = Some d →
  awp (on_items_ (do_item_update old);; mret (NOT_STORED, 0)) s (between n s k old (NOT_STORED, Some d)).
Proof using DL.
  intros HD Hk Hr HV. pose proof HD as [Hi _]. destruct (dlaw_update (3 + n) (items s) k old Hi Hk) as (i & E & Hi' & Hl & Hkeep).
  destruct (data_same (3 + n) _ s i k HD Hi' Hl) as (HD' & HO' & HV').
  { intros k' b Hb. destruct (Hkeep b) as (_ & _ & ?); [by right; exists k'|done]. }
  unfold awp. rewrite (abind_ok (on_items_ _) _ s tt (with_items i s)) by (unfold on_items_; by rewrite E).
  split_and!; [done|eapply data_less; [exact HD'|lia]|done|by rewrite HV', HV| |done].
  intros H0. destruct (Hkeep old) as (? & _); [left; by apply Hr|]. specialize (Hr H0). cbn [with_items items]. lia.
Qed.

(** What the function does to the value of the key, and tells the client. *)
Definition stored_post (n : nat) (k : bytes) (comm : nread) (v : bytes) (s : api) (r : store_item_type) (s' : api) : Prop :=
  data_ok n s' ∧ others k s s' ∧
  ∃ o same, (o = val_at s k ∨ o = None) ∧ (r, val_at s' k) = stored_as comm o (v ++ crlf true) same.

Lemma finish n s s1 k comm v o old (M : AM (store_item_type * Z)) :
  others k s s1 → (o = val_at s k ∨ o = None) →
  awp M s1 (λ r s2, ∃ same, between n s1 k old (stored_as comm o (v ++ crlf true) same) r s2) →
  awp ('(stored, new_it) ← M;
       (if negb (old =? 0) then on_items_ (do_item_remove old) else mret tt);;
       (if new_it =? 0 then mret tt else on_items_ (do_item_remove new_it));;
       mret stored) s1 (stored_post n k comm v s).
Proof using.
  intros HO Ho HM. apply awp_bind. eapply awp_mono; [exact HM|]. intros [stored new] s2 (same & Hr & HD & HO2 & HV & Hold & Hnew).
  cbn [fst snd] in *. destruct (release n s2 k old new HD Hold Hnew) as (s3 & s4 & E3 & E4 & HD4 & HO4 & HV4). unfold awp.
  erewrite abind_ok by exact E3. erewrite abind_ok by exact E4.
  split; [done|]. split; [eapply others_then; [exact HO|by eapply others_then]|]. exists o, same. split; [done|].
  rewrite HV4, HV, Hr. by destruct (stored_as _ _ _ _).
Qed.

Lemma store_item_wp n s k v a comm c :
  data_ok (5 + n) s → mine s k v a → (∀ d, val_at s k = Some d → Z.of_nat (length d + length v) ≤ i_max k) →
  awp (do_store_item a comm c) s (stored_post n k comm v s).
Proof using DL.
  intros HD Hm Hmax. unfold do_store_item, awp. rewrite (abind_ok (get_key a) _ s k s) by (unfold get_key; by rewrite (mi_key _ _ _ _ Hm)).
  destruct (lookup_step (4 + n) s k c false HD) as (old & s1 & E1 & HD1 & HO1 & Hcase & Hb1 & Hl1 & Hkeep1).
  rewrite (abind_ok (on_items _) _ s old s1 E1). pose proof HD as [Hi _].
  assert (mine s1 k v a) as Hm1.
  { apply (mine_kept s); [done|by rewrite Hb1| |done]. apply Hkeep1; [|apply Hm]. intros ->.
    destruct Hcase as [[-> _]|(_ & Hk & _)]; [by apply (refs_null _ _ Hi), (mi_refs _ _ _ _ Hm)|].
    apply (mi_free _ _ _ _ Hm k). destruct (Hl1 k) as [<-|E]; congruence. }
  destruct Hcase as [[-> HV]|(H0 & Hk & Hr & HV)].
  - assert (linked (items s1) !! k = None) as Hk.
    { unfold val_at in HV. destruct (linked (items s1) !! k) as [x|] eqn:Ex; [|done]. cbn [mbind option_bind] in HV.
      destruct (proj2 HD1 k x Ex) as (b & _ & Hb & _). by rewrite Hb in HV. }
    apply (finish n s s1 k comm v None 0); [done|by right|]. cbn [Z.eqb negb].
    destruct comm; (eapply awp_mono; [|intros r s' H; by exists true]); cbn [stored_as];
      first [by apply kept_between|by apply (put_between n s1 k a 0 v)].
  - destruct (val_at s k) as [d|] eqn:Hd; [|by destruct (proj2 HD1 k old Hk) as (b & _ & Hb & _);
      unfold val_at in HV; rewrite Hk in HV; cbn [mbind option_bind] in HV; rewrite Hb in HV].
    specialize (Hmax d eq_refl). rewrite (proj2 (Z.eqb_neq _ _) H0). cbn [negb].
    assert (linked (items s1) !! k = (if old =? 0 then None else Some old)) as Hk' by by rewrite (proj2 (Z.eqb_neq _ _) H0).
    assert (∀ w, w = (STORED, Some (v ++ crlf true)) → awp (put_item old a;; mret (STORED, 0)) s1 (between n s1 k old w)) as Hput
      by (intros w; by apply put_between).
    pose proof (finish n s s1 k comm v (Some d) old) as Hfin. rewrite (proj2 (Z.eqb_neq _ _) H0) in Hfin. apply Hfin; [done|left; congruence|].
    destruct comm.
    + eapply awp_mono; [by apply refreshed|]. intros r s' H. by exists true.
    + eapply awp_mono; [by apply Hput|]. intros r s' H. by exists true.
    + eapply awp_mono; [by apply Hput|]. intros r s' H. by exists true.
    + by apply (combined_ok n s1 k a old v d true).
    + by apply (combined_ok n s1 k a old v d false).
    + unfold awp. rewrite (abind_ok (get_cas a) _ s1 _ s1 eq_refl), (abind_ok (get_cas old) _ s1 _ s1 eq_refl). destruct (it_cas (items s1) a =? it_cas (items s1) old).
      * eapply awp_mono; [by apply Hput|]. intros r s' H. by exists true.
      * eapply awp_mono; [by apply (kept_between n s1 k old EXISTS (Some d))|]. intros r s' H. by exists false.
Qed.
End StoreCommands.
