(* ===== verification/CommandSpec.v ===== *)
(** What the text commands do: the settings stay in their ranges, lines that are no command are
    answered [ERROR] and change nothing, and the line that a client prints for a storage
    command is the command. *)

From stdpp Require Import strings.
From S2P Require Import Prelude Itoa Util Tokenize KvsRadixTree CacheIface CacheApi SlabRebalance Command.

Section Safe.
Context {D : Doubles} {C : Calls}.

(** ** The settings stay in their ranges *)

Record tunables_ok (t : tunables) : Prop := {
  ok_verbose : 0 ≤ verbose t ≤ MAX_VERBOSITY_LEVEL;
  ok_automove : 0 ≤ slab_automove t ≤ 2;
  ok_sleep : 0 ≤ lru_crawler_sleep t ≤ 1000000;
  ok_tocrawl : 0 ≤ lru_crawler_tocrawl t < two32;
  ok_oldest : 0 ≤ oldest_live t < two32;
  ok_ttl : 0 ≤ temporary_ttl t < 2 ^ 31
}.

Definition safe {A} (m : CM A) (Q : A → Prop) : Prop :=
  ∀ s a s', tunables_ok (tuned s) → m s = Answer (a, s') → tunables_ok (tuned s') ∧ Q a.

Lemma safe_bind {A B} (m : CM A) (f : A → CM B) P Q : safe m P → (∀ a, P a → safe (f a) Q) → safe (m ≫= f) Q.
Proof.
  intros Hm Hf s b s' Hs. unfold mbind, CM_bind. destruct (m s) as [[a s1]| |] eqn:E; try done.
  destruct (Hm s a s1 Hs E) as [Hs1 Ha]. by apply Hf.
Qed.

Lemma safe_mono {A} (m : CM A) (P Q : A → Prop) : safe m P → (∀ a, P a → Q a) → safe m Q.
Proof. intros Hm HPQ s a s' Hs E. destruct (Hm s a s' Hs E). auto. Qed.

Lemma safe_ret {A} (a : A) (Q : A → Prop) : Q a → safe (mret a) Q.
Proof. intros H s a' s' Hs [= <- <-]. done. Qed.

(** What does not write the settings. *)
Lemma safe_same {A} (m : CM A) : (∀ s a s', m s = Answer (a, s') → tuned s' = tuned s) → safe m (λ _, True).
Proof. intros H s a s' Hs E. by rewrite (H s a s' E). Qed.

Lemma safe_upd_set f : (∀ t, tunables_ok t → tunables_ok (f t)) → safe (upd_set f) (λ _, True).
Proof. intros Hf s a s' Hs [= <- <-]. split; [|done]. by apply Hf. Qed.

(** A part whose result does not matter. *)
Lemma safe_then {A B} (m : CM A) (f : A → CM B) Q : safe m (λ _, True) → (∀ a, safe (f a) Q) → safe (m ≫= f) Q.
Proof. intros Hm Hf. by eapply safe_bind; [exact Hm|]. Qed.

Lemma safe_call {A} (f : cst → answer (A * cst)) : safe (call f) (λ _, True).
Proof. apply safe_same. intros s a s'. unfold call. destruct (f (rest s)) as [[? ?]| |]; [|done..]. by intros [= <- <-]. Qed.

Lemma safe_call_ f : safe (call_ f) (λ _, True).
Proof. apply safe_same. intros s a s'. unfold call_. destruct (f (rest s)); [|done..]. by intros [= <- <-]. Qed.

Lemma safe_calls {A} (f : cst → A * cst) : safe (calls f) (λ _, True).
Proof. apply safe_call. Qed.

Lemma safe_conn_call f : safe (conn_call f) (λ _, True).
Proof.
  apply safe_same. intros s a s'. unfold conn_call. destruct (f _ _ _) as [[[? ?] ?]| |]; [|done..]. by intros [= <- <-].
Qed.

Lemma safe_upd_conn f : safe (upd_conn f) (λ _, True).
Proof. apply safe_same. by intros s a s' [= <- <-]. Qed.

Lemma safe_asking {A} (f : cst → A) : safe (asking f) (λ _, True).
Proof. apply safe_same. by intros s a s' [= <- <-]. Qed.

Lemma safe_get_conn : safe get_conn (λ _, True).
Proof. apply safe_same. by intros s a s' [= <- <-]. Qed.

Lemma safe_get_set : safe get_set (λ _, True).
Proof. apply safe_same. by intros s a s' [= <- <-]. Qed.

Lemma safe_get_errno : safe get_errno (λ _, True).
Proof. apply safe_same. by intros s a s' [= <- <-]. Qed.

Lemma safe_with_errno {A} r (a : A) (Q : A → Prop) : Q a → safe (with_errno r a) Q.
Proof. intros HQ s a' s' Hs [= <- <-]. done. Qed.

Lemma safe_libc_strtol x : safe (libc_strtol x) (λ _, True).
Proof. apply safe_same. intros s a s'. unfold libc_strtol. destruct (strtoll x) as [[v ?] r]. by intros [= <- <-]. Qed.

Lemma safe_libc_strtoul x : safe (libc_strtoul x) (λ _, True).
Proof. apply safe_same. intros s a s'. unfold libc_strtoul. destruct (strtoull x) as [[v ?] r]. by intros [= <- <-]. Qed.

Lemma safe_safe_strtod x : safe (safe_strtod x) (λ _, True).
Proof. apply safe_same. intros s a s'. unfold safe_strtod. destruct (strtod x) as [[d ?] r]. by intros [= <- <-]. Qed.

Lemma safe_strtoul_range x : 0 ≤ (safe_strtoul x).2 < two32.
Proof.
  unfold safe_strtoul. destruct (strtoull x) as [[v e] r].
  destruct (r || _); [done|]. destruct (at_end x e); [|done]. destruct (_ && _); [done|]. by apply Z.mod_pos_bound.
Qed.

Lemma s32_range z : - 2 ^ 31 ≤ s32 z < 2 ^ 31.
Proof.
  unfold s32. assert (0 ≤ u32 z < two32) as H by by apply Z.mod_pos_bound. cbv zeta.
  destruct (Z.ltb_spec (u32 z) (2 ^ 31)); [lia|]. change two32 with (2 * 2 ^ 31) in *. lia.
Qed.

Lemma safe_strtol_range x : - 2 ^ 31 ≤ (safe_strtol x).2 < 2 ^ 31.
Proof.
  unfold safe_strtol. destruct (strtoll x) as [[v e] r].
  destruct (r || _); [done|]. destruct (at_end x e); [|done]. apply s32_range.
Qed.

Lemma safe_c_strtoul x : safe (c_strtoul x) (λ r, 0 ≤ r.2 < two32).
Proof. apply safe_with_errno, safe_strtoul_range. Qed.
Lemma safe_c_strtol x : safe (c_strtol x) (λ r, - 2 ^ 31 ≤ r.2 < 2 ^ 31).
Proof. apply safe_with_errno, safe_strtol_range. Qed.
Lemma safe_c_strtoull x : safe (c_strtoull x) (λ _, True).
Proof. by apply safe_with_errno. Qed.
End Safe.

Create HintDb safe.
#[export] Hint Resolve safe_call safe_call_ safe_calls safe_conn_call safe_upd_conn safe_asking safe_get_conn safe_get_set
  safe_get_errno safe_libc_strtol safe_libc_strtoul safe_safe_strtod safe_c_strtoull : safe.
#[export] Hint Extern 1 (safe (mret _) _) => by apply safe_ret : safe.

(** Goes through a function of the monad, one call or branch at a time. *)
Ltac safe_step :=
  lazymatch goal with
  | |- safe (match ?x with _ => _ end) _ => let E := fresh "E" in destruct x eqn:E; cbn [snd] in *
  | |- safe (c_strtoul _ ≫= _) _ => eapply safe_bind; [apply safe_c_strtoul|intros [? ?] ?]
  | |- safe (c_strtol _ ≫= _) _ => eapply safe_bind; [apply safe_c_strtol|intros [? ?] ?]
  | |- safe (_ ≫= _) _ => apply safe_then; [|intros ?]
  | |- safe _ _ => solve [eauto with safe]
  end.
Ltac safely := repeat (cbv zeta; safe_step).

Section Settings.
Context {D : Doubles} {C : Calls}.

Lemma safe_out str : safe (out_string str) (λ _, True).
Proof. unfold out_string. safely. Qed.
#[local] Hint Resolve safe_out : safe.

Lemma safe_set_noreply_maybe buf tokens : safe (set_noreply_maybe buf tokens) (λ _, True).
Proof. unfold set_noreply_maybe. safely. Qed.
#[local] Hint Resolve safe_set_noreply_maybe : safe.

Lemma safe_upd_verbose l :
  safe (upd_set (set_verbose (if MAX_VERBOSITY_LEVEL <? u32 l then MAX_VERBOSITY_LEVEL else u32 l))) (λ _, True).
Proof.
  apply safe_upd_set. intros t []. split; try done. cbn [verbose set_verbose].
  assert (0 ≤ u32 l) by by apply Z.mod_pos_bound. destruct (Z.ltb_spec MAX_VERBOSITY_LEVEL (u32 l)); unfold MAX_VERBOSITY_LEVEL in *; lia.
Qed.

Lemma safe_upd_automove x : 0 ≤ x ≤ 2 → safe (upd_set (set_automove x)) (λ _, True).
Proof. intros Hx. apply safe_upd_set. intros t []. by split. Qed.

Lemma safe_upd_tocrawl x : 0 ≤ x < two32 → safe (upd_set (set_tocrawl x)) (λ _, True).
Proof. intros Hx. apply safe_upd_set. intros t []. by split. Qed.

Lemma safe_upd_sleep x : 0 ≤ x → (1000000 <? x) = false → safe (upd_set (set_sleep x)) (λ _, True).
Proof. intros H0 Hx%Z.ltb_ge. apply safe_upd_set. intros t []. by split. Qed.

Lemma safe_upd_oldest live f : 0 ≤ live < two32 → safe (upd_set (λ t, set_oldest live (f t) t)) (λ _, True).
Proof. intros Hx. apply safe_upd_set. intros t []. by split. Qed.

Lemma safe_upd_ratio x : safe (upd_set (set_ratio x)) (λ _, True).
Proof. apply safe_upd_set. intros t []. by split. Qed.

Lemma safe_upd_segmented x : safe (upd_set (set_segmented x)) (λ _, True).
Proof. apply safe_upd_set. intros t []. by split. Qed.

Lemma safe_upd_lru h w hf wf : safe (upd_set (set_lru h w hf wf)) (λ _, True).
Proof. apply safe_upd_set. intros t []. by split. Qed.

Lemma safe_upd_temp x : - 2 ^ 31 ≤ x < 2 ^ 31 → (x <? 0) = false → safe (upd_set (set_temp true x)) (λ _, True).
Proof. intros Hx H0%Z.ltb_ge. apply safe_upd_set. intros t []. split; try done. cbn [temporary_ttl set_temp]. lia. Qed.

Lemma safe_upd_no_temp : safe (upd_set (λ t, set_temp false (temporary_ttl t) t)) (λ _, True).
Proof. apply safe_upd_set. intros t []. by split. Qed.

#[local] Hint Resolve safe_upd_verbose safe_upd_ratio safe_upd_segmented safe_upd_lru safe_upd_no_temp : safe.
#[local] Hint Extern 1 (safe (upd_set (set_tocrawl _)) _) => apply safe_upd_tocrawl; assumption : safe.
#[local] Hint Extern 1 (safe (upd_set (set_sleep _)) _) => apply safe_upd_sleep; [tauto|assumption] : safe.
#[local] Hint Extern 1 (safe (upd_set (set_temp true _)) _) => apply safe_upd_temp; assumption : safe.

Lemma safe_verbosity buf tokens : safe (process_verbosity_command buf tokens) (λ _, True).
Proof. unfold process_verbosity_command, out. safely. Qed.

Lemma safe_automove buf tokens : safe (process_slabs_automove_command buf tokens) (λ _, True).
Proof.
  unfold process_slabs_automove_command, out. safely; apply safe_upd_automove; [done|].
  apply orb_true_iff in E1 as [E1%Z.eqb_eq|E1%Z.eqb_eq]; lia.
Qed.

Lemma safe_watch buf tokens : safe (process_watch_command buf tokens) (λ _, True).
Proof. unfold process_watch_command, out, conn_set_state. safely. Qed.

Lemma safe_memlimit buf tokens : safe (process_memlimit_command buf tokens) (λ _, True).
Proof. unfold process_memlimit_command, out. safely. Qed.

Lemma safe_lru buf tokens : safe (process_lru_command buf tokens) (λ _, True).
Proof. unfold process_lru_command, tune_numbers, out. safely. Qed.

Lemma safe_slabs buf tokens : safe (slabs_command buf tokens) (λ _, True).
Proof. unfold slabs_command, bad_line, out. safely. apply safe_automove. Qed.

Lemma safe_crawler buf tokens : safe (lru_crawler_command buf tokens) (λ _, True).
Proof. unfold lru_crawler_command, bad_line, out, conn_set_state. safely. Qed.

Context (process_started current_time : Z) (CACHE_MODE : nat).

Lemma realtime_range x : 0 ≤ realtime process_started current_time x < two32.
Proof. unfold realtime. repeat case_match; try done; by apply Z.mod_pos_bound. Qed.

Lemma safe_update buf tokens comm cas :
  safe (process_update_command process_started current_time buf tokens comm cas) (λ _, True).
Proof.
  unfold process_update_command, update_numbers, update_item, update_refused, record_set, bad_line, out_of_memory, out, conn_set_state.
  safely.
Qed.

Lemma safe_touch buf tokens : safe (process_touch_command process_started current_time buf tokens) (λ _, True).
Proof. unfold process_touch_command, bad_line, out. safely. Qed.

Lemma safe_arithmetic buf tokens incr : safe (process_arithmetic_command buf tokens incr) (λ _, True).
Proof. unfold process_arithmetic_command, bad_line, out_of_memory, out. safely. Qed.

Lemma safe_delete buf tokens : safe (process_delete_command CACHE_MODE buf tokens) (λ _, True).
Proof. unfold process_delete_command, delete_valid, record_delete, bad_line, out. safely. Qed.

Context (Hnow : 0 ≤ current_time < two32).

Lemma safe_flush buf tokens : safe (flush_all process_started current_time buf tokens) (λ _, True).
Proof.
  unfold flush_all, bad_line, out. safely.
  all: try (apply safe_upd_oldest).
  all: try (by apply Z.mod_pos_bound).
  destruct (_ <? _); [apply realtime_range|done].
Qed.

#[local] Hint Resolve safe_verbosity safe_watch safe_memlimit safe_lru safe_slabs safe_crawler safe_update safe_touch
  safe_arithmetic safe_delete safe_flush : safe.

Lemma safe_dispatch buf tokens : safe (dispatch process_started current_time CACHE_MODE buf tokens) (λ _, True).
Proof. unfold dispatch, shutdown, out, conn_set_state. safely. Qed.

Lemma safe_command msg_ok buf p : safe (process_command process_started current_time CACHE_MODE msg_ok buf p) (λ _, True).
Proof.
  unfold process_command, out_of_memory, out. destruct msg_ok; cbn [negb]; [|by eauto with safe].
  destruct (tokenize_command _ _ _) as [buf' tokens]. apply safe_dispatch.
Qed.
End Settings.

(** ** The lines that are commands *)

(** The names of the commands, with the fewest and the most tokens they take; the terminal token
    counts. *)
Definition command_table : list (string * nat * nat) :=
  [("get", 3, 8); ("bget", 3, 8); ("add", 6, 7); ("set", 6, 7); ("replace", 6, 7); ("prepend", 6, 7); ("append", 6, 7);
   ("cas", 7, 8); ("incr", 4, 5); ("gets", 3, 8); ("decr", 4, 5); ("delete", 3, 5); ("touch", 4, 5); ("stats", 2, 8);
   ("flush_all", 2, 4); ("version", 2, 2); ("quit", 2, 2); ("shutdown", 2, 2); ("slabs", 2, 8); ("lru_crawler", 2, 8);
   ("watch", 2, 8); ("cache_memlimit", 3, 4); ("verbosity", 3, 4); ("lru", 3, 8)]%nat.

(** Whether a line of [n] tokens whose first is [w] is in the table. *)
Definition in_table (w : bytes) (n : nat) : bool :=
  existsb (λ '(name, lo, hi), bool_decide (w = chars name) && ((lo <=? n) && (n <=? hi)))%nat command_table.

Definition is_command (line : bytes) : bool :=
  match words line with [] => false | w :: ws => in_table w (2 + Nat.min 6 (length ws)) end.

(** The tokens of a line are its first seven words. *)
Lemma line_tokens line post :
  no_nul line → at_ post 0 = 0 →
  ∃ buf new t ws more, tokenize_command (line ++ post) 0 MAX_TOKENS = (buf, new ++ [t]) ∧ Forall2 (is_word buf) new ws ∧
    words line = ws ++ more ∧ length ws = Nat.min 7 (length (words line)) ∧ length new = length ws.
Proof.
  intros Hz Hp. destruct (tokenize_at _ MAX_TOKENS [] line post eq_refl Hz Hp) as (buf & toks & E & Hok); [unfold MAX_TOKENS; lia|].
  destruct Hok as (new & t & ws & more & -> & Hw & Hl & Hr & H2 & _). exists buf, new, t, ws, (words more). cbn [app length] in E.
  unfold MAX_TOKENS in *. split_and!; try done; [|by eapply Forall2_length].
  rewrite Hw, length_app. destruct more as [|c more]; [cbn [words words_from length]; lia|]. destruct Hr; [done|]. lia.
Qed.

Lemma arg_word buf new t ws i w : Forall2 (is_word buf) new ws → ws !! i = Some w → arg buf (new ++ [t]) i = w.
Proof.
  intros H Hi. destruct (Forall2_lookup_r _ _ _ _ _ H Hi) as (t' & Ht' & o & Ho & _ & Hc).
  unfold arg. rewrite lookup_total_app_l, (list_lookup_total_correct _ _ _ Ht'), Ho by by eapply lookup_lt_Some. done.
Qed.

Section Table.
Context {D : Doubles} {C : Calls} (process_started current_time : Z) (CACHE_MODE : nat).

Lemma not_in_table buf tokens s :
  (ntokens tokens ≤ 8)%nat → (ntokens tokens = 1%nat ∨ in_table (arg buf tokens 0) (ntokens tokens) = false) →
  dispatch process_started current_time CACHE_MODE buf tokens s = out "ERROR" s.
Proof using.
  intros Hn H. unfold dispatch, update_comm, is_arg, in_table in *. cbv zeta. cbn [existsb command_table] in H.
  set (w := arg buf tokens 0) in *. clearbody w. set (n := ntokens tokens) in *. clearbody n.
  destruct n as [|[|[|[|[|[|[|[|[|n]]]]]]]]]; [| |destruct H as [H|H]; [done|]..|lia];
    cbn [Nat.leb Nat.ltb Nat.eqb andb] in *; rewrite ?andb_true_r, ?andb_false_r in *; cbn [orb] in *;
    rewrite ?orb_false_r in *; rewrite ?orb_false_iff in *; try done.
  all: destruct_and! H; repeat match goal with E : bool_decide _ = false |- _ => rewrite E; clear E end; done.
Qed.

(** The answer [str], when the client wants one. *)
Definition answers (str : string) (s s' : server) : Prop :=
  ∃ c', s' = mkServer c' (tuned s) (erange s) (rest s) ∧ noreply c' = false ∧
    if noreply (the_conn s) then state c' = conn_new_cmd ∧ wbuf c' = wbuf (the_conn s)
    else state c' = conn_write ∧ write_and_go c' = conn_new_cmd ∧ wbuf c' = chars str ++ crlf true.

Lemma out_answers str s : (length (chars str) + 2 ≤ wsize (the_conn s))%nat → ∃ s', out str s = Answer (tt, s') ∧ answers str s s'.
Proof using.
  intros Hw. unfold out, out_string, answers, conn_set_state, upd_conn, get_conn, mbind, CM_bind. destruct s as [c t e x].
  cbn [the_conn mbind answer_bind noreply] in *. destruct (noreply c) eqn:Hn.
  - eexists. split; [reflexivity|]. eexists. split; [reflexivity|]. done.
  - rewrite (proj2 (Nat.ltb_ge _ _)) by lia. eexists. split; [reflexivity|]. eexists. split; [reflexivity|]. done.
Qed.
End Table.

(** ** Lines that a client prints *)

(** The words with one space between them. *)
Fixpoint unwords (ws : list bytes) : bytes :=
  match ws with [] => [] | [w] => w | w :: ws => w ++ space :: unwords ws end.

Definition word (w : bytes) : Prop := w ≠ [] ∧ no_space w ∧ no_nul w.

Lemma words_unwords ws : Forall word ws → words (unwords ws) = ws ∧ no_nul (unwords ws).
Proof.
  induction 1 as [|w ws (Hne & Hs & Hz) H [IH IHz]]; [split; [done|by apply list.Forall_nil]|].
  destruct ws as [|w' ws]; unfold words; cbn [unwords].
  - split; [|done]. rewrite <-(app_nil_r w) at 1. rewrite words_from_app by done. by destruct w.
  - rewrite words_from_app by done. cbn [words_from app]. rewrite Z.eqb_refl. split.
    + destruct w; [done|]. f_equal. exact IH.
    + apply list.Forall_app. split; [done|]. by constructor.
Qed.

Lemma digits_word l : l ≠ [] → Forall (λ c, 48 ≤ c ≤ 57) l → word l.
Proof. intros Hne H. split_and!; [done|..]; (eapply list.Forall_impl; [exact H|]); unfold space; cbn; lia. Qed.

Lemma dec_word u : 0 ≤ u → word (dec u).
Proof. intros Hu. destruct (dec_spec u Hu) as (_ & Hd & Hne & _). by apply digits_word. Qed.

Lemma strtoul_dec u : 0 ≤ u < two32 → safe_strtoul (dec u) = (true, u) ∧ (strtoull (dec u)).2 = false.
Proof.
  intros Hu. destruct (dec_numeral u) as [Hn Hd]; [lia|].
  assert (safe_strtoull (dec u) = (true, u)) as E.
  { apply safe_strtoull_iff; [eapply list.Forall_impl; [exact Hd|simpl; lia]|]. exists false, u.
    split_and!; [done|unfold two32, two64 in *; lia|done|]. intros _. by apply no_minus. }
  unfold safe_strtoull in E. unfold safe_strtoul. destruct (strtoull (dec u)) as [[v e] r].
  destruct r; [done|]. cbn [orb] in *. destruct (e =? 0)%nat; [done|]. destruct (at_end _ _); [|done]. destruct (_ && _); [done|].
  injection E as ->. split; [|done]. f_equal. apply Z.mod_small. exact Hu.
Qed.

Lemma strtol_dec x : 0 ≤ x < 2 ^ 31 → safe_strtol (dec x) = (true, x) ∧ (strtoll (dec x)).2 = false.
Proof.
  intros Hx. destruct (dec_numeral x) as [Hn Hd]; [lia|].
  assert (safe_strtoll (dec x) = (true, x)) as E.
  { apply safe_strtoll_iff; [eapply list.Forall_impl; [exact Hd|simpl; lia]|]. exists false, x. split_and!; [done|done|lia..]. }
  unfold safe_strtoll in E. unfold safe_strtol. destruct (strtoll (dec x)) as [[v e] r].
  destruct r; [done|]. cbn [orb] in *. destruct (e =? 0)%nat; [done|]. destruct (at_end _ _); [|done].
  injection E as ->. split; [|done]. f_equal. unfold s32. cbv zeta.
  assert (u32 x = x) as -> by (apply Z.mod_small; unfold two32; lia). rewrite (proj2 (Z.ltb_lt _ _)) by lia. done.
Qed.

(** The names of the storage commands without a version. *)
Definition update_name (comm : nread) : string :=
  match comm with
  | NREAD_ADD => "add" | NREAD_SET => "set" | NREAD_REPLACE => "replace"
  | NREAD_APPEND => "append" | NREAD_PREPEND => "prepend" | NREAD_CAS => "cas"
  end.

Lemma name_word comm : word (chars (update_name comm)).
Proof. destruct comm; (split_and!; [done|..]); repeat constructor; discriminate. Qed.

(** The line of a storage command. *)
Definition update_line (comm : nread) (key : bytes) (flags exptime len : Z) (quiet : bool) : bytes :=
  unwords ([chars (update_name comm); key; dec flags; dec exptime; dec len] ++ if quiet then [chars "noreply"] else []).

Lemma cm_bind_ok `{D : Doubles} `{C : Calls} {A B} (m : CM A) (f : A → CM B) s a s' : m s = Answer (a, s') → (m ≫= f) s = f a s'.
Proof. unfold mbind, CM_bind. by intros ->. Qed.

Section Update.
Context {D : Doubles} {C : Calls} (process_started current_time : Z) (CACHE_MODE : nat).

Lemma dispatch_update buf tokens comm s :
  comm ≠ NREAD_CAS → ntokens tokens = 6%nat ∨ ntokens tokens = 7%nat → arg buf tokens 0 = chars (update_name comm) →
  dispatch process_started current_time CACHE_MODE buf tokens s =
  process_update_command process_started current_time buf tokens comm false s.
Proof using. intros Hc Hn Ha. unfold dispatch, update_comm, is_arg. rewrite Ha. destruct Hn as [-> | ->], comm; done. Qed.

(** The connection, waiting for the data of a new item. *)
Definition awaiting (c : conn) (quiet : bool) (it n : Z) (comm : nread) : conn :=
  mkConn conn_nread (write_and_go c) quiet (wsize c) (wbuf c) it n comm (sbytes c).

Lemma noreply_last buf tokens t w s :
  tokens !! (ntokens tokens - 2)%nat = Some t → is_word buf t w →
  set_noreply_maybe buf tokens s = Answer
    (if bool_decide (w = chars "noreply") then true else noreply (the_conn s),
     if bool_decide (w = chars "noreply") then mkServer (set_noreply true (the_conn s)) (tuned s) (erange s) (rest s) else s).
Proof using.
  intros Ht (o & Ho & _ & Hc). unfold set_noreply_maybe, is_arg, arg. rewrite (list_lookup_total_correct _ _ _ Ht), Ho. cbn [from_option id].
  rewrite Hc. by case_bool_decide.
Qed.

Lemma update_numbers_ok buf tokens flags exptime len s :
  arg buf tokens 2 = dec flags → arg buf tokens 3 = dec exptime → arg buf tokens 4 = dec len →
  0 ≤ flags < two32 → 0 ≤ exptime < 2 ^ 31 → 0 ≤ len < 2 ^ 31 →
  update_numbers buf tokens s = Answer (Some (flags, exptime, len), mkServer (the_conn s) (tuned s) false (rest s)).
Proof using.
  intros H2 H3 H4 Hf He Hl. unfold update_numbers, c_strtoul, c_strtol, with_errno. rewrite H2, H3, H4.
  destruct (strtoul_dec flags Hf) as [-> ->], (strtol_dec exptime He) as [-> ->], (strtol_dec len Hl) as [-> ->]. done.
Qed.

Lemma key_word buf tokens t w : tokens !! 1%nat = Some t → is_word buf t w → key_arg buf tokens = w ∧ nkey tokens = length w.
Proof using.
  intros Ht Hw. unfold key_arg, nkey. rewrite (list_lookup_total_correct _ _ _ Ht), (word_bytes _ _ _ Hw).
  by destruct Hw as (o & _ & -> & _).
Qed.

Lemma update_ok buf new t key flags exptime len quiet comm it x s :
  Forall2 (is_word buf) new ([chars (update_name comm); key; dec flags; dec exptime; dec len] ++
                             if quiet : bool then [chars "noreply"] else []) →
  (length key ≤ KEY_MAX_LENGTH)%nat → 0 ≤ flags < two32 → 0 ≤ exptime < 2 ^ 31 → 0 ≤ len ≤ INT_MAX - 2 →
  noreply (the_conn s) = false → call_detail_enabled (rest s) = false →
  call_alloc key flags (realtime process_started current_time exptime) (len + 2) (rest s) = Answer (it, x) → it ≠ 0 →
  process_update_command process_started current_time buf (new ++ [t]) comm false s =
  Answer (tt, let x := call_set_cas it 0 x in
              mkServer (awaiting (the_conn s) quiet it (call_nbytes it x) comm) (tuned s) false x).
Proof using.
  intros H2 Hk Hf He Hl Hq Hdt Ha Hit. set (W := _ ++ _) in H2. assert (length new = length W) as Hlen by by eapply Forall2_length.
  assert (∀ i w, W !! i = Some w → ∃ t', (new ++ [t]) !! i = Some t' ∧ is_word buf t' w) as Hget.
  { intros i w Hi. destruct (Forall2_lookup_r _ _ _ _ _ H2 Hi) as (t' & Ht' & Hw). exists t'. split; [|done]. by apply lookup_app_l_Some. }
  assert (∃ w, W !! (ntokens (new ++ [t]) - 2)%nat = Some w ∧ bool_decide (w = chars "noreply") = quiet) as (w & Hw & Hqu).
  { unfold ntokens. rewrite length_app, Hlen. unfold W. destruct quiet; cbn [app length Nat.add Nat.sub lookup]; (eexists; split; [reflexivity|]);
      [by apply bool_decide_eq_true|apply bool_decide_eq_false]. intros E. destruct (dec_spec len) as (_ & Hd & _); [lia|].
    rewrite E in Hd. apply list.Forall_cons in Hd as [Hd _]. unfold is_digit in Hd. cbn in Hd. lia. }
  destruct (Hget _ _ Hw) as (t' & Ht' & Hw'). destruct (Hget 1%nat key eq_refl) as (t1 & Ht1 & Hw1).
  destruct (key_word _ _ _ _ Ht1 Hw1) as [Ek En].
  unfold process_update_command, mbind, CM_bind. rewrite (noreply_last buf (new ++ [t]) t' w s Ht' Hw'), Hqu. cbn [mbind answer_bind].
  rewrite En, (proj2 (Nat.ltb_ge _ _)) by done.
  rewrite (update_numbers_ok buf (new ++ [t]) flags exptime len) by (try (unfold INT_MAX in *; lia); by eapply arg_word).
  cbn [mbind answer_bind]. rewrite (proj2 (Z.ltb_ge exptime 0)) by lia. unfold update_item, INT_MAX in *.
  rewrite (proj2 (Z.ltb_ge len 0)), (proj2 (Z.ltb_ge _ len)) by lia. cbn [orb].
  rewrite Ek. set (s1 := mkServer _ _ _ _). assert (rest s1 = rest s) as Er by by (unfold s1; destruct quiet).
  rewrite (cm_bind_ok (record_set buf (new ++ [t])) _ s1 tt s1) by (unfold record_set, asking, mbind, CM_bind; cbn [mbind answer_bind]; by rewrite Er, Hdt).
  erewrite cm_bind_ok by (unfold call; rewrite Er, Ha; reflexivity). rewrite (proj2 (Z.eqb_neq it 0) Hit).
  unfold s1, awaiting. destruct quiet; [done|]. by rewrite <-Hq.
Qed.
End Update.

(** *** Concrete calls *)

(** Doubles that are whole numbers, and a program with nothing in its cache and memory for one item;
    the state is the length of that. *)
Definition whole_doubles : Doubles := {| double := Z; strtod := strtoll; not_above_0 x := x <=? 0 |}.

Definition no_calls : Calls := {|
  cst := Z;
  call_alloc _ _ _ n _ := Answer (64, n);
  call_size_ok _ _ _ _ := true;
  call_get _ x := Answer (0, x);
  call_do_get _ x := Answer (0, x);
  call_unlink _ x := Answer x;
  call_remove _ x := Answer x;
  call_unlink_kvs _ x := Answer (-2, x);
  call_touch _ _ x := Answer (0, x);
  call_add_delta _ _ _ x := Answer (DELTA_ITEM_NOT_FOUND, x);
  call_store _ _ x := Answer (NOT_STORED, x);
  call_set_cas _ _ x := x;
  call_get_cas_id x := (1, x);
  call_nbytes _ x := x;
  call_data _ _ := [];
  call_adjust_mem_limit _ x := (true, x);
  call_reassign _ _ x := (REASSIGN_NOSPARE, x);
  call_crawl _ _ x := (CRAWLER_NOTSTARTED, x);
  call_crawler_enabled _ := true;
  call_crawler_thread _ x := (0, x);
  call_add_watcher _ x := (LOGGER_ADD_WATCHER_FAILED, x);
  call_raise x := x;
  call_detail_enabled _ := false;
  call_record_set _ x := x;
  call_record_delete _ x := x;
  call_get_command _ _ _ c e x := Answer (c, e, x);
  call_stat _ _ c e x := Answer (c, e, x)
|}.

Definition idle_conn : conn := mkConn conn_parse_cmd conn_new_cmd false 2048 [] 0 0 NREAD_SET 0.

Definition default_tunables : @tunables whole_doubles :=
  @mkTunables whole_doubles 0 0 0 true true false true 1 1 true 0 100 true true 20 40 1 2 false 61.

Definition idle_server : @server whole_doubles no_calls := @mkServer whole_doubles no_calls idle_conn default_tunables false 0.

(** What can be seen of a run of the idle server. *)
Definition shows (f : @server whole_doubles no_calls → bool) (r : answer (unit * @server whole_doubles no_calls)) : bool :=
  match r with Answer (_, s) => f s | _ => false end.

Lemma shows_true f r : shows f r = true → ∃ s, r = Answer (tt, s) ∧ f s = true.
Proof. destruct r as [[[] s]| |]; cbn; [|done..]. eauto. Qed.

(** The line, given to the idle server. *)
Definition run_line (line : bytes) : answer (unit * @server whole_doubles no_calls) :=
  @process_command whole_doubles no_calls 1000 5 0 true line 0 idle_server.

(** ** The properties *)



(** C14: a line that is no command, because its first word is none of the names or the number of its
    words does not fit, is answered [ERROR], and neither the cache nor the settings change. *)
Theorem not_a_command {D : Doubles} {C : Calls} started now mode line post s :
  no_nul line → at_ post 0 = 0 → is_command line = false → (7 ≤ wsize (the_conn s))%nat →
  ∃ s', process_command started now mode true (line ++ post) 0 s = Answer (tt, s') ∧ answers "ERROR" s s'.
Proof.
  intros Hz Hp Hc Hw. unfold process_command. cbn [negb].
  destruct (line_tokens line post Hz Hp) as (buf & new & t & ws & more & -> & H2 & Hws & Hl & Hnew).
  assert (ntokens (new ++ [t]) = S (length ws)) as Hn by (unfold ntokens; rewrite length_app; cbn; lia).
  rewrite not_in_table; [by apply out_answers|lia|]. rewrite Hn. unfold is_command in Hc.
  destruct ws as [|w ws]; [by left|right]. rewrite (arg_word buf new t (w :: ws) 0 w) by done. rewrite Hws in Hc, Hl. cbn [app length] in *.
  rewrite <-Hc. f_equal. lia.
Qed.

Lemma not_a_command_witness : ∃ s', run_line (chars "set key 0 0") = Answer (tt, s') ∧ answers "ERROR" idle_server s'.
Proof.
  apply (@not_a_command whole_doubles no_calls 1000 5 0 (chars "set key 0 0") [] idle_server);
    [repeat constructor; discriminate|reflexivity|vm_compute; reflexivity|cbn; lia].
Defined.

(** C15: the line that a client prints for a storage command is that command: an item is allocated
    for exactly the key, the flags, the expiration time and the length it gave (with the line
    end), and the connection waits for the data; an answer is wanted unless the line says
    otherwise. *)
Theorem update_line_command {D : Doubles} {C : Calls} started now mode comm key flags exptime len quiet it x s :
  comm ≠ NREAD_CAS → word key → (length key ≤ KEY_MAX_LENGTH)%nat → 0 ≤ flags < two32 → 0 ≤ exptime < 2 ^ 31 →
  0 ≤ len ≤ INT_MAX - 2 → noreply (the_conn s) = false → call_detail_enabled (rest s) = false →
  call_alloc key flags (realtime started now exptime) (len + 2) (rest s) = Answer (it, x) → it ≠ 0 →
  process_command started now mode true (update_line comm key flags exptime len quiet) 0 s =
  Answer (tt, let x := call_set_cas it 0 x in
              mkServer (awaiting (the_conn s) quiet it (call_nbytes it x) comm) (tuned s) false x).
Proof.
  intros Hc Hk Hlk Hf He Hl Hq Hdt Ha Hit. unfold process_command, update_line. cbn [negb]. set (W := _ ++ _).
  destruct (words_unwords W) as [Hw Hz].
  { apply list.Forall_app. split; [|destruct quiet; [|by apply list.Forall_nil]].
    - apply Forall_cons_2; [apply name_word|]. apply Forall_cons_2; [done|].
      do 3 (apply Forall_cons_2; [apply dec_word; lia|]). by apply list.Forall_nil.
    - apply list.Forall_singleton. split_and!; [done|..]; repeat constructor; discriminate. }
  destruct (line_tokens (unwords W) [] Hz eq_refl) as (buf & new & t & ws & more & E & H2 & Hws & Hlen & Hnew).
  rewrite app_nil_r in E. rewrite E. rewrite Hw in Hws, Hlen. assert (length W = 5 ∨ length W = 6)%nat as HW by (destruct quiet; cbn; lia).
  assert (ws = W) as ->.
  { destruct more as [|w more]; [by rewrite app_nil_r in Hws|]. apply (f_equal length) in Hws. rewrite length_app in Hws. cbn [length] in Hws. lia. }
  rewrite (dispatch_update _ _ _ _ _ comm); [by apply (update_ok started now buf new t key flags exptime len)|done|unfold ntokens; rewrite length_app; cbn [length]; lia|].
  by eapply arg_word.
Qed.

Lemma update_line_command_witness : ∃ s',
  run_line (update_line NREAD_SET (chars "key") 7 100 5 true) = Answer (tt, s') ∧
  the_conn s' = mkConn conn_nread conn_new_cmd true 2048 [] 64 7 NREAD_SET 0.
Proof.
  eexists. split.
  - apply (@update_line_command whole_doubles no_calls 1000 5 0 NREAD_SET (chars "key") 7 100 5 true 64 7 idle_server);
      [discriminate| |unfold KEY_MAX_LENGTH; cbn; lia|unfold two32; lia|lia|unfold INT_MAX; lia|reflexivity|reflexivity|reflexivity|discriminate].
    split_and!; [done|..]; repeat constructor; discriminate.
  - reflexivity.
Defined.

(** *** Lines with surprising effects *)

(** The sum of the two percentages wraps around. *)
Lemma lru_tune_wraps :
  shows (λ s, (hot_lru_pct (tuned s) =? -1) && (warm_lru_pct (tuned s) =? 1)) (run_line (chars "lru tune 4294967295 1 1 1")) = true.
Proof. vm_compute. reflexivity. Qed.

(** A number that was out of range in an earlier command makes a good line a bad one: [errno] is not reset. *)
Lemma flush_stale_errno :
  let says str s := bool_decide (wbuf (the_conn s) = chars str ++ crlf true) in
  shows (says "OK") (run_line (chars "flush_all 10")) = true ∧
  shows (says "CLIENT_ERROR bad command line format")
    ('(_, s) ← run_line (chars "incr k 99999999999999999999");
     @process_command whole_doubles no_calls 1000 5 0 true (chars "flush_all 10") 0 s) = true.
Proof. split; vm_compute; reflexivity. Qed.

(** [touch] does not treat negative times as a storage command does: the time wraps around. *)
Lemma touch_wraps : realtime 1000 5 (-10) = 4294967291.
Proof. reflexivity. Qed.
