(* ===== verification/CacheDelta.v ===== *)
(** Arithmetic on values: [do_add_delta] of [extra/KVS-DRAM-Cache/memcached.c].

    The function works on the items of the local cache alone, in every [CACHE_MODE]: it asks
    neither the store for an item that is not cached, nor writes the new value to it.  The
    tracking of item sizes, which is off unless a client asks for it, is left out.  The
    number is read from the bytes of the item: a null byte is taken to follow them. *)

From stdpp Require Import strings.
From S2P Require Import Prelude TagPtr Fam Itoa Util KvsRadixTree CacheIface CacheApi CacheApiSpec CacheValues.
From S2P Require Import Tokenize Command CommandSpec.

Section Delta.
Context {N : Nvmm} {S : Store} {I : ItemCache} {DI : DeltaItems I}.

(** The new value; [delta] is signed, and compared as an unsigned number. *)
Definition new_value (incr : bool) (value delta : Z) : Z :=
  if incr then u64 (value + delta) else if value <? u64 delta then 0 else u64 (value - delta).

(** [memcpy(ITEM_data(it), buf, res)], and spaces up to the line end. *)
Definition padded (buf : bytes) (nbytes : Z) (old : bytes) : bytes :=
  buf ++ replicate (Z.to_nat nbytes - length buf - 2) space ++ drop (Z.to_nat nbytes - 2) old.

(** A new item with the new value, which replaces the old one. *)
Definition replacing (key : bytes) (it : Z) (buf : bytes) : AM (delta_result_type * Z) :=
  new_it ← (λ s, on_items (item_alloc true key (it_client_flags (items s) it) (it_exptime (items s) it)
                             (Z.of_nat (length buf) + 2)) s);
  if new_it =? 0 then on_items_ (do_item_remove it);; mret (EOM, 0) else
  set_data new_it (buf ++ crlf true);;
  on_items_ (do_item_replace it new_it);;
  upd_items (copy_cas new_it it);;
  on_items_ (do_item_remove new_it);;
  cas ← get_cas it;
  on_items_ (do_item_remove it);;
  mret (OK buf, cas).

Definition do_add_delta (key : bytes) (incr : bool) (delta : Z) (cas : option Z) : AM (delta_result_type * Z) :=
  it ← on_items (do_item_get key true false);
  if it =? 0 then mret (DELTA_ITEM_NOT_FOUND, 0) else
  nbytes ← get_nbytes it;
  chunked ← header it_chunked it;
  if (nbytes <=? 2) || chunked then mret (NON_NUMERIC, 0) else
  mine ← get_cas it;
  if (match cas with Some x => negb (x =? 0) && negb (mine =? x) | None => false end)
  then on_items_ (do_item_remove it);; mret (DELTA_ITEM_CAS_MISMATCH, 0) else
  b ← get_body it;
  let '(ok, value) := safe_strtoull (data b) in
  if negb ok then on_items_ (do_item_remove it);; mret (NON_NUMERIC, 0) else
  let buf := dec (new_value incr value delta) in
  let res := Z.of_nat (length buf) in
  refcount ← header it_refcount it;
  if (res + 2 <=? nbytes) && (refcount =? 2) then
    upd_items (renew_cas it);;
    set_data it (padded buf nbytes (data b));;
    on_items_ (do_item_update it);;
    cas ← get_cas it;
    on_items_ (do_item_remove it);;
    mret (OK buf, cas)
  else if 1 <? refcount then
    replacing key it buf
  else
    (if refcount =? 1 then on_items_ (do_item_remove it) else mret tt);;
    mret (DELTA_ITEM_NOT_FOUND, 0).
End Delta.

(** ** What the function does *)

Section Spec.
Context {N : Nvmm} {S : Store} {I : ItemCache} {IL : ItemLaws I} {DI : DeltaItems I} {DL : DeltaLaws I DI}.

(** *** Numbers *)

Lemma new_value_range incr v delta : 0 ≤ v < two64 → 0 ≤ new_value incr v delta < two64.
Proof using. intros Hv. unfold new_value. destruct incr; [apply u64_range|]. destruct (_ <? _); [done|apply u64_range]. Qed.

(** A number with spaces after it and a line end is read back. *)
Lemma read_padded u m : 0 ≤ u < two64 → safe_strtoull (dec u ++ replicate m space ++ crlf true) = (true, u).
Proof using.
  intros Hu. destruct (dec_spec u) as (Hv & Hd & Hne & _); [lia|]. destruct (dec_numeral u) as [_ Hd2]; [lia|].
  set (sp := replicate m space ++ crlf true).
  assert (Forall (λ c, c = space ∨ c = 13 ∨ c = 10) sp) as Hsp.
  { apply list.Forall_app. split; [apply Forall_replicate; by left|]. repeat constructor; tauto. }
  assert (starts isspace sp = true) as Hst by by destruct m.
  apply safe_strtoull_iff.
  - apply list.Forall_app. split; [eapply list.Forall_impl; [exact Hd2|cbn; lia]|].
    eapply list.Forall_impl; [exact Hsp|]. unfold space. cbn. lia.
  - exists false, u. split_and!; [|lia|done|].
    + exists [], [], (dec u), sp. split_and!; try done; [|by left|by right].
      eapply list.Forall_impl; [exact Hd2|]. unfold isdigit. cbn. lia.
    + intros _. unfold strchr. rewrite existsb_app. apply orb_false_iff. split; [by apply no_minus|].
      apply not_true_is_false. intros (c & Hc & E%Z.eqb_eq)%existsb_exists. subst c.
      apply list.Forall_forall with (x := 45) in Hsp; [unfold space in Hsp; lia|]. by apply list_elem_of_In.
Qed.

Lemma length_value incr v delta : 0 ≤ v < two64 → (1 ≤ length (dec (new_value incr v delta)) ≤ 20)%nat.
Proof using.
  intros Hv. pose proof (new_value_range incr v delta Hv) as Hr. split.
  - destruct (dec_spec (new_value incr v delta)) as (_ & _ & Hne & _); [lia|]. destruct (dec _); [done|cbn; lia].
  - apply length_dec; [|lia]. cbn. unfold two64 in Hr. lia.
Qed.

Lemma strtoull_range d v : safe_strtoull d = (true, v) → 0 ≤ v < two64.
Proof using.
  unfold safe_strtoull, strtoull. destruct (scan_int d) as [[[neg x] e]|] eqn:Es; [|done].
  destruct (Z.leb_spec two64 x); [done|]. cbn [orb]. destruct (e =? 0)%nat; [done|]. destruct (at_end d e); [|done].
  destruct (_ && _); [done|]. intros [= <-]. destruct neg; [apply u64_range|].
  destruct (scan_int_inv _ _ _ _ Es) as (ws & sg & ds & r & _ & _ & Hds & _ & _ & -> & _).
  split; [by apply dec_value_nonneg|done].
Qed.

(** What is there after the new value [u] has been written. *)
Definition written (n : nat) (k : bytes) (u : Z) (s : api) (r : delta_result_type * Z) (s' : api) : Prop :=
  r.1 = OK (dec u) ∧ data_ok n s' ∧ others k s s' ∧ ∃ d, val_at s' k = Some d ∧ safe_strtoull d = (true, u).

Lemma in_place n s k a b v u :
  data_ok (2 + n) s → linked (items s) !! k = Some a → 1 ≤ refs (items s) a →
  bodies s !! a = Some b → data b = v ++ crlf true → 0 ≤ u < two64 → (length (dec u) + 2 ≤ length (data b))%nat →
  awp (upd_items (renew_cas a);;
       set_data a (padded (dec u) (Z.of_nat (length (data b))) (data b));;
       on_items_ (do_item_update a);;
       cas ← get_cas a;
       on_items_ (do_item_remove a);;
       mret (OK (dec u), cas)) s (written n k u s).
Proof using DL.
  intros HD Hk Hr Hb Hd Hu Hlen. pose proof HD as [Hi HDl].
  destruct (dlaw_renew _ _ _ _ Hi Hk) as (Hi1 & Hl1 & Hs1).
  destruct (data_same (2 + n) _ s (renew_cas a (items s)) k HD Hi1 Hl1) as (HD1 & HO1 & HV1); [by intros k' b' _; apply Hs1|].
  set (s1 := with_items (renew_cas a (items s)) s) in *. unfold awp. rewrite (abind_ok (upd_items (renew_cas a)) _ s tt s1 eq_refl).
  assert (padded (dec u) (Z.of_nat (length (data b))) (data b) = (dec u ++ replicate (length v - length (dec u)) space) ++ crlf true) as ->.
  { unfold padded. rewrite Hd, Nat2Z.id, length_app. cbn [length crlf]. replace (length v + 2 - 2)%nat with (length v) by lia.
    rewrite drop_app_length, <-app_assoc. do 3 f_equal. lia. }
  rewrite Hd, length_app in Hlen. cbn [crlf length] in Hlen. set (d := dec u ++ replicate (length v - length (dec u)) space).
  assert (length d = length v) as Eld by (unfold d; rewrite length_app, length_replicate; lia).
  rewrite (abind_ok (set_data a (d ++ crlf true)) _ s1 tt _ (set_data_step s1 a b (d ++ crlf true) Hb)). set (s2 := mkApi _ _ _ _).
  assert (linked (items s1) !! k = Some a) as Hk1 by (cbn [s1 with_items items]; by rewrite Hl1).
  destruct (data_put (2 + n) s1 k a (skey b) (val_ptr b) d (num_hit s1) HD1 Hk1) as (HD2 & HO2 & HV2).
  { cbn [s1 with_items items]. destruct (Hs1 a) as (_ & _ & ->). destruct (HDl k a Hk) as (b' & v' & Hb' & _ & ->).
    replace b' with b by congruence. rewrite Hd, !length_app. lia. }
  fold s2 in HD2, HO2, HV2. pose proof HD2 as [Hi2 _].
  destruct (dlaw_update _ (items s2) k a Hi2 Hk1) as (i3 & E3 & Hi3 & Hl3 & Hkeep).
  destruct (data_same (1 + n) _ s2 i3 k HD2 Hi3 Hl3) as (HD3 & HO3 & HV3).
  { intros k' b' Hb'. destruct (Hkeep b') as (_ & _ & ?); [by right; exists k'|done]. }
  set (s3 := with_items i3 s2) in *. rewrite (abind_ok (on_items_ (do_item_update a)) _ s2 tt s3) by (unfold on_items_; by rewrite E3).
  assert (1 ≤ refs (items s3) a) as Hr3.
  { assert (1 ≤ refs (items s2) a) as Hr2 by (cbn [s2 s1 with_items items]; by rewrite (proj1 (Hs1 a))).
    destruct (Hkeep a) as (Ha & _); [by left|]. cbn [s3 with_items items]. lia. }
  rewrite (abind_ok (get_cas a) _ s3 _ s3 eq_refl). destruct (remove_step n s3 k a HD3 Hr3) as (s4 & E4 & HD4 & HO4 & HV4 & _).
  rewrite (abind_ok (on_items_ (do_item_remove a)) _ s3 tt s4 E4). split_and!; [done|done| |].
  - eapply others_then; [exact HO1|]. eapply others_then; [exact HO2|]. by eapply others_then.
  - exists (d ++ crlf true). rewrite HV4, HV3, HV2. split; [done|]. unfold d. rewrite <-app_assoc. by apply read_padded.
Qed.

Lemma replaced n s k a u :
  data_ok (4 + n) s → linked (items s) !! k = Some a → a ≠ 0 → 1 ≤ refs (items s) a → 0 ≤ u < two64 →
  Z.of_nat (length (dec u)) + 2 ≤ i_max k →
  awp (replacing k a (dec u)) s (written n k u s).
Proof using DL.
  intros HD Hk Ha0 Hr Hu Hmax. unfold replacing. apply awp_bind.
  eapply awp_mono; [by apply (alloc_step (3 + n) s k (it_client_flags (items s) a) (it_exptime (items s) a) (dec u))|].
  intros a2 s1 (s2 & _ & E2 & H0 & HD2 & HO2 & _ & Hl2 & Hm2 & Hkeep2). cbv beta. rewrite (proj2 (Z.eqb_neq _ _) H0).
  unfold awp. rewrite (abind_ok (set_data _ _) _ s1 tt s2 E2). destruct (Hkeep2 a Hr) as (Hne & (Hra2 & _) & _).
  destruct (put_step (2 + n) s2 k a a2 (dec u) HD2) as (s3 & E3 & HD3 & HO3 & HV3 & _ & Hkeep3);
    [by rewrite Hl2, Hk, (proj2 (Z.eqb_neq _ _) Ha0)|done|].
  unfold put_item in E3. rewrite (proj2 (Z.eqb_neq _ _) Ha0) in E3. rewrite (abind_ok (on_items_ _) _ s2 tt s3 E3).
  pose proof (mi_refs _ _ _ _ Hm2) as Hr2. destruct (Hkeep3 a2 Hr2) as (Hr3 & _), (Hkeep3 a) as (Hra3 & _); [lia|].
  pose proof HD3 as [Hi3 _]. destruct (dlaw_copy (2 + n) (items s3) a2 a Hi3) as (Hi4 & Hl4 & Hs4); [lia|].
  destruct (data_same (2 + n) _ s3 (copy_cas a2 a (items s3)) k HD3 Hi4 Hl4) as (HD4 & HO4 & HV4); [by intros k' b _; apply Hs4|].
  set (s4 := with_items (copy_cas a2 a (items s3)) s3) in *. rewrite (abind_ok (upd_items (copy_cas a2 a)) _ s3 tt s4 eq_refl).
  assert (1 ≤ refs (items s4) a2 ∧ 1 ≤ refs (items s4) a) as [Hr4 Hra4].
  { cbn [s4 with_items items]. rewrite !(proj1 (Hs4 _)). lia. }
  destruct (remove_step (1 + n) s4 k a2 HD4 Hr4) as (s5 & E5 & HD5 & HO5 & HV5 & Hr5).
  rewrite (abind_ok (on_items_ (do_item_remove a2)) _ s4 tt s5 E5), (abind_ok (get_cas a) _ s5 _ s5 eq_refl).
  destruct (remove_step n s5 k a HD5) as (s6 & E6 & HD6 & HO6 & HV6 & _); [by apply Hr5|].
  rewrite (abind_ok (on_items_ (do_item_remove a)) _ s5 tt s6 E6). split_and!; [done|done| |].
  - eapply others_then; [exact HO2|]. eapply others_then; [exact HO3|]. eapply others_then; [exact HO4|]. by eapply others_then.
  - exists (dec u ++ crlf true). rewrite HV6, HV5, HV4, HV3. split; [done|]. by apply (read_padded u 0).
Qed.

(** What a client is told, and what is cached afterwards. *)
Definition delta_post (n : nat) (k : bytes) (incr : bool) (delta : Z) (s : api) (r : delta_result_type * Z) (s' : api) : Prop :=
  data_ok n s' ∧ others k s s' ∧
  match r.1 with
  | OK text => ∃ d v d', val_at s k = Some d ∧ safe_strtoull d = (true, v) ∧ text = dec (new_value incr v delta) ∧
      val_at s' k = Some d' ∧ safe_strtoull d' = (true, new_value incr v delta)
  | NON_NUMERIC => ∃ d, val_at s k = Some d ∧ val_at s' k = Some d ∧ ((length d ≤ 2)%nat ∨ (safe_strtoull d).1 = false)
  | DELTA_ITEM_NOT_FOUND => val_at s' k = None
  | _ => False
  end.

Lemma delta_written n k incr delta v d s s1 r s' :
  others k s s1 → val_at s k = Some d → safe_strtoull d = (true, v) → written n k (new_value incr v delta) s1 r s' →
  delta_post n k incr delta s r s'.
Proof using.
  intros HO Hd Hv (Hr & HD & HO' & d' & Hd' & Hv'). split; [done|]. split; [by eapply others_then|]. rewrite Hr.
  exists d, v, d'. done.
Qed.

Lemma add_delta_wp n s k incr delta :
  data_ok (5 + n) s → 22 ≤ i_max k →
  awp (do_add_delta k incr delta None) s (delta_post n k incr delta s).
Proof using DL.
  intros HD Hmax. unfold do_add_delta. destruct (lookup_step (4 + n) s k true false HD) as (a & s1 & E1 & HD1 & HO1 & Hcase & _).
  unfold awp. rewrite (abind_ok (on_items _) _ s a s1 E1). destruct Hcase as [[-> HV]|(H0 & Hk & Hr & HV)].
  { cbn [Z.eqb]. split; [eapply data_less; [exact HD1|lia]|done]. }
  rewrite (proj2 (Z.eqb_neq _ _) H0). pose proof HD1 as [Hi1 HDl]. destruct (HDl k a Hk) as (b & v & Hb & Hd & Hn).
  assert (val_at s k = Some (data b)) as Hval by (rewrite <-HV; unfold val_at; rewrite Hk; cbn [mbind option_bind]; by rewrite Hb).
  rewrite (abind_ok (get_nbytes a) _ s1 (it_nbytes (items s1) a) s1 eq_refl).
  rewrite (abind_ok (header it_chunked a) _ s1 false s1) by (unfold header; by rewrite (dlaw_chunked _ _ _ _ Hi1 Hk)).
  rewrite orb_false_r, Hn. destruct (Z.leb_spec (Z.of_nat (length (data b))) 2) as [H2|H2].
  { split; [eapply data_less; [exact HD1|lia]|]. split; [done|]. exists (data b). split_and!; [done|by rewrite HV|left; lia]. }
  rewrite (abind_ok (get_cas a) _ s1 (it_cas (items s1) a) s1 eq_refl).
  rewrite (abind_ok (get_body a) _ s1 b s1) by (unfold get_body; by rewrite Hb).
  destruct (safe_strtoull (data b)) as [ok x] eqn:Ex. destruct ok; cbn [negb].
  2:{ destruct (remove_step (3 + n) s1 k a HD1 Hr) as (s2 & E2 & HD2 & HO2 & HV2 & _). rewrite (abind_ok (on_items_ _) _ s1 tt s2 E2).
      split; [eapply data_less; [exact HD2|lia]|]. split; [by eapply others_then|]. exists (data b).
      split_and!; [done|by rewrite HV2, HV|right; by rewrite Ex]. }
  pose proof (strtoull_range _ _ Ex) as Hx. pose proof (new_value_range incr x delta Hx) as Hu. pose proof (length_value incr x delta Hx) as Hlen.
  pose proof (dlaw_refcount _ _ _ _ Hi1 Hk) as Hrc.
  rewrite (abind_ok (header it_refcount a) _ s1 (it_refcount (items s1) a) s1 eq_refl).
  destruct (_ && _) eqn:Ein.
  - apply andb_true_iff in Ein as [Ein%Z.leb_le _]. eapply awp_mono; [apply (in_place n s1 k a b v); try done|].
    + eapply data_less; [exact HD1|lia].
    + lia.
    + intros r s'. by apply (delta_written n k incr delta x (data b)).
  - rewrite (proj2 (Z.ltb_lt 1 _)) by lia. eapply awp_mono; [apply (replaced n s1 k a); try done; lia|].
    intros r s'. by apply (delta_written n k incr delta x (data b)).
Qed.
End Spec.
