(* ===== verification/GetCommand.v ===== *)
(** The answer to a [get]: [process_get_command] of [extra/KVS-DRAM-Cache/memcached.c], with [limited_get] and
    [make_ascii_get_suffix].

    An answer is a list of pieces, one for each [iovec].  Where memory is needed for the
    answer, the model is told whether there is any.  The items are those of one chunk;
    statistics and messages are left out. *)

From stdpp Require Import strings.
From S2P Require Import Prelude TagPtr Fam Itoa Util CacheItems KvsRadixTree CacheIface CacheApi CacheApiSpec CacheValues.
From S2P Require Import Tokenize Command CommandSpec.

(** ** The line of a value *)

Definition SUFFIX_SIZE : nat := 50.

(** [make_ascii_get_suffix(suffix, it, return_cas)]: what [suffix] holds, and the length of the text; [None] if a byte
    is written outside of it.  [flags] are null when the item has no place for them. *)
Definition make_ascii_get_suffix (inline_ascii_response return_cas : bool) (flags : option Z) (nbytes cas : Z) (suffix : bytes) :
    option (bytes * nat) :=
  let o := (suffix, 0%nat) in
  o ← (if inline_ascii_response then Some o
       else
         o ← out1 32 o;
         o ← (match flags with None => out1 48 o | Some f => itoa_u32 f o end);
         o ← out1 32 o;
         itoa_u32 (u32 (nbytes - 2)) o);
  '(b, p) ← (if return_cas then o ← out1 32 o; itoa_u64 cas o else Some o);
  '(b, _) ← out1 13 (b, p);
  '(b, _) ← out1 10 (b, S p);
  '(b, _) ← out1 0 (b, S (S p));
  Some (b, (p + 2)%nat).

(** [ITEM_suffix(it)] when [settings.inline_ascii_response] is set: what [item_make_header] prints. *)
Definition item_suffix (flags nbytes : Z) : bytes := [32] ++ dec flags ++ [32] ++ sdec (nbytes - 2) ++ crlf true.

(** ** The command *)

(** Which allocations succeed for one key: those of the three lists, and so many calls of [add_iov]. *)
Record memory := mkMemory { m_ilist : bool; m_suffixlist : bool; m_suffix : bool; m_iovs : nat }.

Section Get.
Context {N : Nvmm} {S : Store} {I : ItemCache} {DI : DeltaItems I}.
Context (CACHE_MODE VERSION_MODE : nat) (stack : bytes) (inline_ascii_response return_cas : bool).
(** The memory for the [n]-th key that is looked up. *)
Context (mem : nat → memory).

(** The cache, the pieces of the answer, [ilist] up to [i], the sizes of [ilist] and [suffixlist], how many objects
    have been taken from the suffix cache, and how many keys have been looked up. *)
Record get_st := mkGet {
  g_api : api; iov : list bytes; ilist : list Z; isize : nat; suffixsize : nat; suffixes : nat; tries : nat
}.

Definition reply_of {A} (r : ares A) : answer (A * api) :=
  match r with AOk a s => Answer (a, s) | AAssert => Assertion | AStore | ANever => Never end.

Definition IT_REFCOUNT_LIMIT : Z := 60000.

Definition limited_get (key : bytes) : AM Z :=
  it ← item_get CACHE_MODE VERSION_MODE stack key true true;
  if it =? 0 then mret 0 else
  rc ← header it_refcount it;
  if IT_REFCOUNT_LIMIT <? rc then item_remove it;; mret 0 else mret it.

(** [while (i-- > 0) item_remove( *(c->ilist + i))] *)
Fixpoint remove_all (l : list Z) : AM unit :=
  match l with [] => mret tt | it :: l => item_remove it;; remove_all l end.

(** The item is not used after all. *)
Definition back_out (it : Z) (r : served) (g : get_st) : answer (served * get_st) :=
  '(_, s) ← reply_of (item_remove it (g_api g));
  Answer (r, mkGet s (iov g) (ilist g) (isize g) (suffixsize g) (suffixes g) (tries g)).

(** The pieces are added, as many as there is memory for. *)
Definition add_pieces (n : nat) (l : list bytes) (g : get_st) : get_st :=
  mkGet (g_api g) (iov g ++ take n l) (ilist g) (isize g) (suffixsize g) (suffixes g) (tries g).
Definition add_item (it : Z) (g : get_st) : get_st :=
  mkGet (g_api g) (iov g) (ilist g ++ [it]) (isize g) (suffixsize g) (suffixes g) (tries g).

(** The pieces for an item with a suffix from the suffix cache. *)
Definition serve_suffix (m : memory) (key : bytes) (it : Z) (g : get_st) : answer (served * get_st) :=
  let i := length (ilist g) in
  if (suffixsize g <=? i)%nat && negb (m_suffixlist m) then back_out it SNoMemory g else
  let ssize := (if suffixsize g <=? i then suffixsize g * 2 else suffixsize g)%nat in
  let g := mkGet (g_api g) (iov g) (ilist g) (isize g) ssize (suffixes g) (tries g) in
  if negb (m_suffix m) then
    '(_, g) ← back_out it SNoSuffix g;
    '(_, s) ← reply_of (remove_all (reverse (ilist g)) (g_api g));
    Answer (SNoSuffix, mkGet s [] [] (isize g) (suffixsize g) (suffixes g) (tries g))
  else
    let g := mkGet (g_api g) (iov g) (ilist g) (isize g) (suffixsize g) (suffixes g + 1) (tries g) in
    let x := items (g_api g) in
    let flags := it_client_flags x it in
    match make_ascii_get_suffix inline_ascii_response return_cas (if flags =? 0 then None else Some flags) (it_nbytes x it) (it_cas x it)
            (replicate SUFFIX_SIZE 0) with
    | None => Assertion
    | Some (suffix, suffix_len) =>
        let head := item_suffix flags (it_nbytes x it) in
        let pieces := [chars "VALUE "; it_key x it] ++ (if inline_ascii_response then [take (length head - 2) head] else []) ++
                      [take suffix_len suffix] in
        if (m_iovs m <? length pieces)%nat then back_out it SNoMemory (add_pieces (m_iovs m) pieces g)
        else
          let d := data (default no_body (bodies (g_api g) !! it)) in
          Answer (SHit, add_item it (add_pieces (m_iovs m) (pieces ++ [d]) g))
    end.

(** The pieces for an item whose suffix is the one in it. *)
Definition serve_inline (m : memory) (key : bytes) (it : Z) (g : get_st) : answer (served * get_st) :=
  let x := items (g_api g) in
  let d := data (default no_body (bodies (g_api g) !! it)) in
  let pieces := [chars "VALUE "; it_key x it; item_suffix (it_client_flags x it) (it_nbytes x it) ++ d] in
  if (m_iovs m <? length pieces)%nat then back_out it SNoMemory (add_pieces (m_iovs m) pieces g)
  else Answer (SHit, add_item it (add_pieces (m_iovs m) pieces g)).

(** The body of the inner loop. *)
Definition serve_key (key : bytes) (g : get_st) : answer (served * get_st) :=
  let m := mem (tries g) in
  '(it, s) ← reply_of (limited_get key (g_api g));
  let g := mkGet s (iov g) (ilist g) (isize g) (suffixsize g) (suffixes g) (tries g + 1) in
  if it =? 0 then Answer (SMiss, g)
  else
    let i := length (ilist g) in
    if (isize g <=? i)%nat && negb (m_ilist m) then back_out it SNoMemory g else
    let size := (if isize g <=? i then isize g * 2 else isize g)%nat in
    let g := mkGet s (iov g) (ilist g) size (suffixsize g) (suffixes g) (tries g) in
    if return_cas || negb inline_ascii_response then serve_suffix m key it g else serve_inline m key it g.

(** The answers of the command, and what is left of the lists. *)
Inductive get_reply := Values (l : list bytes) | Line (str : bytes).

(** [process_get_command]; [end_ok]: whether the last piece can be added. *)
Definition process_get_command (fuel : nat) (end_ok : bool) (buf : bytes) (tokens : list token_t) (g : get_st) :
    answer (option get_reply * get_st) :=
  '(e, g) ← get_keys serve_key fuel buf tokens g;
  match e with
  | GetRunning => Answer (None, g)
  | GetBadLine =>
      '(_, s) ← reply_of (remove_all (reverse (ilist g)) (g_api g));
      let freed := if return_cas || negb inline_ascii_response then length (ilist g) else 0%nat in
      Answer (Some (Line (chars "CLIENT_ERROR bad command line format")),
              mkGet s [] [] (isize g) (suffixsize g) (suffixes g - freed) (tries g))
  | GetNoMemory => Answer (Some (Line (chars "SERVER_ERROR out of memory making CAS suffix")), g)
  | GetDone =>
      if end_ok then Answer (Some (Values (iov g ++ [chars "END" ++ crlf true])), g)
      else Answer (Some (Line (chars "SERVER_ERROR out of memory writing get response")), g)
  end.
End Get.

(** ** The suffix *)

(** [f] writes [t], and perhaps a null byte after it. *)
Definition wrote (f : Itoa.out → option Itoa.out) (t : bytes) : Prop :=
  ∀ b p, (p + length t < length b)%nat →
    ∃ x, f (b, p) = Some (splice b p (t ++ x), (p + length t)%nat) ∧ (length x ≤ 1)%nat.

Lemma emits_wrote f t : emits f t → wrote f t.
Proof. intros H b p Hp. exists []. rewrite app_nil_r. split; [apply H; lia|cbn; lia]. Qed.

Lemma prints_wrote f t : prints f t → wrote f t.
Proof. intros H b p Hp. exists [0]. split; [by apply H|done]. Qed.

Lemma wrote_bind f g t t' : wrote f t → wrote g t' → t' ≠ [] → wrote (λ o, o ← f o; g o) (t ++ t').
Proof.
  intros Hf Hg Hne b p Hp. rewrite length_app in Hp. destruct (Hf b p) as (x & -> & Hx); [lia|]. cbn [mbind option_bind].
  destruct (Hg (splice b p (t ++ x)) (p + length t)%nat) as (x' & -> & Hx').
  { rewrite length_splice; rewrite ?length_app; [lia|]. destruct t'; [done|cbn in *; lia]. }
  assert (1 ≤ length t')%nat by (destruct t'; [done|cbn; lia]).
  exists x'. split; [|done]. rewrite splice_splice; rewrite ?length_app; [by rewrite <-app_assoc, Nat.add_assoc|lia|lia].
Qed.

Lemma wrote_ext f g t : (∀ o, f o = g o) → wrote g t → wrote f t.
Proof. intros H Hg b p Hp. rewrite H. by apply Hg. Qed.

(** The line end, and a null byte over what is there. *)
Lemma line_end f t b :
  wrote f t → (length t + 3 ≤ length b)%nat →
  ('(b, p) ← f (b, 0%nat); '(b, _) ← out1 13 (b, p); '(b, _) ← out1 10 (b, S p); '(b, _) ← out1 0 (b, S (S p)); Some (b, (p + 2)%nat)) =
    Some (splice b 0 (t ++ [13; 10; 0]), length (t ++ crlf true)) ∧
  take (length (t ++ crlf true)) (splice b 0 (t ++ [13; 10; 0])) = t ++ crlf true ∧ length (splice b 0 (t ++ [13; 10; 0])) = length b.
Proof.
  intros Hf Hb. destruct (Hf b 0%nat) as (x & E & Hx); [lia|]. rewrite E. cbn [mbind option_bind Nat.add]. split_and!.
  - assert (∀ y l c, (length y ≤ 1)%nat → (length l < length t + 3)%nat →
      out1 c (splice b 0 (l ++ y), length l) = Some (splice b 0 ((l ++ [c])), S (length l))) as Hstep.
    { intros y l c Hy Hl. rewrite (emits_out1 c); [|cbn [length]; rewrite length_splice; rewrite ?length_app; cbn [length]; lia].
      change (length l) with (0 + length l)%nat at 1. rewrite (splice_splice b 0 l y [c]); cbn [length]; [|lia|lia]. cbn [length]. by rewrite Nat.add_1_r. }
    rewrite Hstep by lia. cbn [mbind option_bind].
    pose proof (Hstep [] (t ++ [13]) 10) as H2. rewrite app_nil_r, length_app, Nat.add_1_r in H2. rewrite H2 by (cbn; lia). cbn [mbind option_bind].
    pose proof (Hstep [] ((t ++ [13]) ++ [10]) 0) as H3. rewrite app_nil_r, !length_app, !Nat.add_1_r in H3. rewrite H3 by (cbn; lia).
    cbn [mbind option_bind]. rewrite <-!app_assoc, length_app. done.
  - unfold splice. rewrite take_0. cbn [app]. replace (t ++ [13; 10; 0]) with ((t ++ crlf true) ++ [0]) by by rewrite <-app_assoc.
    by rewrite <-app_assoc, take_app_length.
  - apply length_splice. rewrite length_app. cbn [length]. lia.
Qed.

(** The text of the suffix. *)
Definition suffix_text (inline_ascii_response return_cas : bool) (flags nbytes cas : Z) : bytes :=
  (if inline_ascii_response then [] else [32] ++ dec flags ++ [32] ++ dec (nbytes - 2)) ++
  (if return_cas then [32] ++ dec cas else []) ++ crlf true.

Lemma suffix_head inline flags nbytes :
  0 ≤ flags < two32 → 0 ≤ nbytes - 2 < two32 →
  wrote (λ o, if inline : bool then Some o
              else o ← out1 32 o; o ← (match (if flags =? 0 then None else Some flags) with None => out1 48 o | Some f => itoa_u32 f o end);
                   o ← out1 32 o; itoa_u32 (u32 (nbytes - 2)) o)
    (if inline then [] else [32] ++ dec flags ++ [32] ++ dec (nbytes - 2)).
Proof.
  intros Hf Hn. destruct inline.
  { intros b p Hp. exists []. cbn [app length]. split; [|lia]. unfold splice. cbn [app length]. by rewrite Nat.add_0_r, take_drop. }
  assert (∀ u, 0 ≤ u → dec u ≠ []) as Hne by (intros u Hu; by destruct (dec_spec u Hu) as (_ & _ & ? & _)).
  assert (u32 (nbytes - 2) = nbytes - 2) as -> by by apply Z.mod_small.
  apply wrote_bind; [apply emits_wrote, emits_out1| |destruct (dec flags); done].
  apply wrote_bind; [| |done].
  - destruct (Z.eqb_spec flags 0) as [->|H0]; [apply emits_wrote, emits_out1|by apply prints_wrote, itoa_u32_prints].
  - apply wrote_bind; [apply emits_wrote, emits_out1|by apply prints_wrote, itoa_u32_prints|apply Hne; lia].
Qed.

Lemma suffix_ok inline rc flags nbytes cas :
  0 ≤ flags < two32 → 0 ≤ nbytes - 2 < 2 ^ 31 → 0 ≤ cas < two64 →
  ∃ b, make_ascii_get_suffix inline rc (if flags =? 0 then None else Some flags) nbytes cas (replicate SUFFIX_SIZE 0) =
    Some (b, length (suffix_text inline rc flags nbytes cas)) ∧
  take (length (suffix_text inline rc flags nbytes cas)) b = suffix_text inline rc flags nbytes cas ∧ length b = SUFFIX_SIZE.
Proof.
  intros Hf Hn Hc. assert (0 ≤ nbytes - 2 < two32) as Hn' by (unfold two32; lia).
  pose proof (suffix_head inline flags nbytes Hf Hn') as Hh. set (t1 := if inline then [] else _) in Hh.
  assert (wrote (λ o, if rc then o ← out1 32 o; itoa_u64 cas o else Some o) (if rc then [32] ++ dec cas else [])) as Hv.
  { destruct rc.
    - apply wrote_bind; [apply emits_wrote, emits_out1|by apply prints_wrote, itoa_u64_prints|].
      destruct (dec_spec cas) as (_ & _ & ? & _); [lia|done].
    - intros b p Hp. exists []. cbn [app length]. split; [|lia]. unfold splice. cbn [app length]. by rewrite Nat.add_0_r, take_drop. }
  set (t2 := if rc then _ else _) in Hv.
  assert (length t1 ≤ 22 ∧ length t2 ≤ 21)%nat as [Hl1 Hl2].
  { assert (length (dec flags) ≤ 10)%nat by (apply length_dec; [unfold two32 in *; cbn; lia|lia]).
    assert (length (dec (nbytes - 2)) ≤ 10)%nat by (apply length_dec; [cbn; lia|lia]).
    assert (length (dec cas) ≤ 20)%nat by (apply length_dec; [unfold two64 in *; cbn; lia|lia]).
    unfold t1, t2. destruct inline, rc; rewrite ?length_app; cbn [length]; rewrite ?length_app; cbn [length]; lia. }
  assert (wrote (λ o, o ← (if inline then Some o else o ← out1 32 o;
      o ← (match (if flags =? 0 then None else Some flags) with None => out1 48 o | Some f => itoa_u32 f o end);
      o ← out1 32 o; itoa_u32 (u32 (nbytes - 2)) o); if rc then o ← out1 32 o; itoa_u64 cas o else Some o) (t1 ++ t2)) as Hw.
  { destruct rc; [by apply wrote_bind|]. unfold t2. rewrite app_nil_r. eapply wrote_ext; [|exact Hh]. intros o.
    lazymatch goal with |- mbind _ ?m = _ => by destruct m end. }
  assert (suffix_text inline rc flags nbytes cas = (t1 ++ t2) ++ crlf true) as -> by (unfold suffix_text, t1, t2; by rewrite app_assoc).
  destruct (line_end _ (t1 ++ t2) (replicate SUFFIX_SIZE 0) Hw) as (E & Ht & Hl).
  { rewrite length_app, length_replicate. unfold SUFFIX_SIZE. lia. }
  eexists. split; [|split; [exact Ht|by rewrite Hl]]. rewrite <-E. unfold make_ascii_get_suffix. cbv zeta.
  by rewrite option_bind_assoc.
Qed.

(** ** The values in an answer *)

(** The client's flags and the version are of 32 and 64 bits. *)
Class GetLaws (I : ItemCache) := {
  g_flags s a : 0 ≤ it_client_flags s a < two32;
  g_cas s a : 0 ≤ it_cas s a < two64
}.

(** A value in an answer; [d] has its line end. *)
Definition entry (return_cas : bool) (k : bytes) (flags cas : Z) (d : bytes) : bytes :=
  chars "VALUE " ++ k ++ [32] ++ dec flags ++ [32] ++ dec (Z.of_nat (length d) - 2) ++
  (if return_cas then [32] ++ dec cas else []) ++ crlf true ++ d.

Lemma take_suffix flags nbytes :
  0 ≤ nbytes - 2 → take (length (item_suffix flags nbytes) - 2) (item_suffix flags nbytes) = [32] ++ dec flags ++ [32] ++ dec (nbytes - 2).
Proof.
  intros Hn. unfold item_suffix, sdec. rewrite (proj2 (Z.ltb_ge _ _)) by done. set (x := [32] ++ dec flags ++ [32] ++ dec (nbytes - 2)).
  replace ([32] ++ dec flags ++ [32] ++ dec (nbytes - 2) ++ crlf true) with (x ++ crlf true) by (unfold x; by rewrite <-!app_assoc).
  rewrite length_app. cbn [crlf length]. rewrite Nat.add_sub. apply take_app_length.
Qed.

Section Spec.
Context {N : Nvmm} {S : Store} {I : ItemCache} {IL : ItemLaws I} {DI : DeltaItems I} {DL : DeltaLaws I DI} {GL : GetLaws I}.
Context (VERSION_MODE : nat) (stack : bytes) (inline return_cas : bool) (mem : nat → memory).

Definition plenty (m : memory) : Prop := m_ilist m = true ∧ m_suffixlist m = true ∧ m_suffix m = true ∧ (6 ≤ m_iovs m)%nat.
Context (Hmem : ∀ i, plenty (mem i)).

(** Keys only lose their items. *)
Definition shrinks (s s' : api) : Prop := store s' = store s ∧ ∀ k, val_at s' k = val_at s k ∨ val_at s' k = None.

Lemma shrinks_refl s : shrinks s s.
Proof using. split; [done|]. intros k. by left. Qed.

Lemma shrinks_trans s1 s2 s3 : shrinks s1 s2 → shrinks s2 s3 → shrinks s1 s3.
Proof using. intros [E1 H1] [E2 H2]. split; [congruence|]. intros k. destruct (H2 k) as [->|]; [apply H1|by right]. Qed.

Lemma others_shrinks k s s' : others k s s' → val_at s' k = val_at s k ∨ val_at s' k = None → shrinks s s'.
Proof using. intros [E H] Hk. split; [done|]. intros k'. destruct (decide (k' = k)) as [->|]; auto. Qed.

(** Values have a line end, and their length is an [int]. *)
Definition sized (s : api) : Prop := ∀ k d, val_at s k = Some d → 2 ≤ Z.of_nat (length d) < 2 ^ 31.

Lemma sized_shrinks s s' : sized s → shrinks s s' → sized s'.
Proof using. intros Hs [_ H] k d Hd. destruct (H k) as [E|E]; [apply (Hs k); congruence|congruence]. Qed.

(** The item has too many references. *)
Definition over_limit (a : Z) : Prop := ∃ x : ics, IT_REFCOUNT_LIMIT < it_refcount x a.

(** The lookup: an item of the key, in the hands of the caller, or none. *)
Lemma limited_get_ok n s k :
  data_ok (2 + n) s →
  ∃ a s', limited_get 5 VERSION_MODE stack k s = AOk a s' ∧ data_ok n s' ∧ shrinks s s' ∧
    (a = 0 ∧ (val_at s' k = None ∨ ∃ b, over_limit b) ∨
     a ≠ 0 ∧ it_key (items s') a = k ∧ ∃ b d, bodies s' !! a = Some b ∧ data b = d ∧ val_at s k = Some d ∧ it_nbytes (items s') a = Z.of_nat (length d)).
Proof using.
  intros HD. destruct (lookup_step (1 + n) s k true true HD) as (a & s1 & E1 & HD1 & HO1 & Hcase & _). unfold limited_get.
  change (item_get 5 VERSION_MODE stack k true true) with (on_items (A := Z) (do_item_get k true true)).
  rewrite (abind_ok (on_items _) _ s a s1 E1). destruct Hcase as [[-> HV]|(H0 & Hk & Hr & HV)].
  { exists 0, s1. split_and!; [done|eapply data_less; [exact HD1|lia]| |by left; auto]. by eapply others_shrinks; [|right]. }
  assert (shrinks s s1) as Hs1 by (eapply others_shrinks; [exact HO1|by left]).
  rewrite (proj2 (Z.eqb_neq _ _) H0). rewrite (abind_ok (header it_refcount a) _ s1 (it_refcount (items s1) a) s1 eq_refl).
  destruct (Z.ltb_spec IT_REFCOUNT_LIMIT (it_refcount (items s1) a)) as [Hlim|Hlim].
  - destruct (remove_step n s1 k a HD1 Hr) as (s2 & E2 & HD2 & HO2 & HV2 & _). exists 0, s2. unfold item_remove.
    rewrite (abind_ok (on_items_ _) _ s1 tt s2 E2). split_and!; [done|done| |].
    + eapply shrinks_trans; [exact Hs1|]. eapply others_shrinks; [exact HO2|by left].
    + left. split; [done|]. right. exists a. by exists (items s1).
  - exists a, s1. split_and!; [done|eapply data_less; [exact HD1|lia]|done|]. right. pose proof HD1 as [Hi1 HDl].
    destruct (linked_key _ _ _ _ Hi1 Hk) as [_ Hka]. destruct (HDl k a Hk) as (b & v & Hb & Hd & Hn).
    split_and!; [done|done|]. exists b, (data b). split_and!; try done. rewrite <-HV. unfold val_at. rewrite Hk. cbn [mbind option_bind]. by rewrite Hb.
Qed.

(** What is added to the answer for an item. *)
Definition adds (k : bytes) (d : bytes) (g g' : get_st) : Prop :=
  g_api g' = g_api g ∧ ∃ l flags cas, iov g' = iov g ++ l ∧ concat l = entry return_cas k flags cas d.

Lemma serve_inline_ok m k a g b :
  plenty m → it_key (items (g_api g)) a = k → bodies (g_api g) !! a = Some b → return_cas = false →
  it_nbytes (items (g_api g)) a = Z.of_nat (length (data b)) → 2 ≤ Z.of_nat (length (data b)) →
  ∃ g', serve_inline m k a g = Answer (SHit, g') ∧ adds k (data b) g g'.
Proof using.
  intros (_ & _ & _ & Hm) Hk Hb Hrc Hn H2. unfold serve_inline. rewrite Hk, Hb, Hn. cbn [default from_option id length].
  rewrite (proj2 (Nat.ltb_ge _ _)) by lia. eexists. split; [reflexivity|]. split; [done|]. unfold add_item, add_pieces. cbn [iov].
  eexists _, (it_client_flags (items (g_api g)) a), 0. split; [reflexivity|]. rewrite take_ge by (cbn; lia).
  cbn [concat]. unfold entry, item_suffix, sdec. rewrite (proj2 (Z.ltb_ge _ _)) by lia. rewrite Hrc, !app_nil_r, <-!app_assoc. done.
Qed.

Lemma serve_suffix_ok m k a g b :
  plenty m → it_key (items (g_api g)) a = k → bodies (g_api g) !! a = Some b →
  it_nbytes (items (g_api g)) a = Z.of_nat (length (data b)) → 2 ≤ Z.of_nat (length (data b)) < 2 ^ 31 →
  ∃ g', serve_suffix inline return_cas m k a g = Answer (SHit, g') ∧ adds k (data b) g g'.
Proof using GL.
  intros (_ & Hs & Hsf & Hm) Hk Hb Hn H2. unfold serve_suffix. rewrite Hs, Hsf, andb_false_r. cbn [negb g_api].
  set (x := items (g_api g)) in *. set (flags := it_client_flags x a). set (cas := it_cas x a).
  destruct (suffix_ok inline return_cas flags (it_nbytes x a) cas) as (sb & -> & Ht & _); [apply g_flags|lia|apply g_cas|].
  rewrite Ht, Hk, Hb, take_suffix by lia. cbn [default from_option id].
  set (pieces := _ ++ _ ++ _). assert (length pieces ≤ 5)%nat as Hl by (unfold pieces; destruct inline; cbn; lia).
  rewrite (proj2 (Nat.ltb_ge _ _)) by lia. eexists. split; [reflexivity|]. split; [done|].
  unfold add_item, add_pieces. cbn [iov]. eexists _, flags, cas. split; [reflexivity|].
  rewrite take_ge by (rewrite length_app; cbn [length]; lia). unfold pieces, entry, suffix_text. rewrite !concat_app, Hn.
  destruct inline; do 4 (cbn [concat app]; rewrite ?app_nil_r, <-?app_assoc); done.
Qed.

(** What a key gives: its value as it was, or nothing, when it has lost its item or that has too many references. *)
Definition given (s s' : api) (k : bytes) (t : bytes) : Prop :=
  (∃ d flags cas, val_at s k = Some d ∧ t = entry return_cas k flags cas d) ∨
  t = [] ∧ (val_at s' k = None ∨ ∃ a, over_limit a).

Lemma serve_ok n k g :
  data_ok (2 + n) (g_api g) → sized (g_api g) →
  ∃ r g' l, serve_key 5 VERSION_MODE stack inline return_cas mem k g = Answer (r, g') ∧ (r = SHit ∨ r = SMiss) ∧
    data_ok n (g_api g') ∧ shrinks (g_api g) (g_api g') ∧ iov g' = iov g ++ l ∧ given (g_api g) (g_api g') k (concat l).
Proof using GL Hmem.
  intros HD Hsz. destruct (limited_get_ok n (g_api g) k HD) as (a & s1 & E & HD1 & HS1 & Hcase). unfold serve_key. rewrite E.
  cbn [reply_of mbind answer_bind]. destruct Hcase as [[-> Hv]|(H0 & Hk & b & d & Hb & <- & Hval & Hn)].
  { cbn [Z.eqb]. eexists _, _, []. split; [reflexivity|]. cbn [g_api iov]. rewrite app_nil_r. split_and!; try done; [by right|]. by right. }
  rewrite (proj2 (Z.eqb_neq _ _) H0). pose proof (Hmem (tries g)) as Hm. pose proof (Hsz k (data b) Hval) as Hl.
  pose proof Hm as (-> & _). rewrite andb_false_r. cbn [ilist isize iov suffixsize suffixes tries]. set (g1 := mkGet _ _ _ _ _ _ _).
  assert (∃ g', (if return_cas || negb inline then serve_suffix inline return_cas (mem (tries g)) k a g1 else serve_inline (mem (tries g)) k a g1) =
    Answer (SHit, g') ∧ adds k (data b) g1 g') as (g' & -> & Ha & l & flags & cas & Hi & Hc).
  { destruct (return_cas || negb inline) eqn:Em.
    - by apply serve_suffix_ok.
    - apply orb_false_iff in Em as [? _]. apply serve_inline_ok; try done. lia. }
  exists SHit, g', l. rewrite Ha. cbn [g1 g_api]. split_and!; try done; [by left|]. left. by exists (data b), flags, cas.
Qed.

Lemma given_wider s s1 s2 s3 k t : shrinks s s1 → shrinks s2 s3 → given s1 s2 k t → given s s3 k t.
Proof using.
  intros [_ H1] [_ H2] [(d & flags & cas & Hd & ->)|[-> Hn]].
  - left. exists d, flags, cas. split; [|done]. destruct (H1 k) as [E|E]; congruence.
  - right. split; [done|]. destruct Hn as [Hn|]; [|by right]. left. destruct (H2 k) as [E|E]; congruence.
Qed.

Lemma serve_all_ok ks : ∀ n g, data_ok (2 * length ks + n) (g_api g) → sized (g_api g) →
  ∃ g' l ts, serve_all (serve_key 5 VERSION_MODE stack inline return_cas mem) ks g = Answer g' ∧ data_ok n (g_api g') ∧
    shrinks (g_api g) (g_api g') ∧ iov g' = iov g ++ l ∧ concat l = concat ts ∧ Forall2 (given (g_api g) (g_api g')) ks ts.
Proof using GL Hmem.
  induction ks as [|k ks IH]; intros n g HD Hsz; cbn [serve_all].
  { exists g, [], []. rewrite app_nil_r. split_and!; try done. apply shrinks_refl. }
  destruct (serve_ok (2 * length ks + n) k g) as (r & g1 & l1 & E1 & _ & HD1 & HS1 & Hi1 & Hg1).
  { eapply data_less; [exact HD|cbn [length]; lia]. }
  { done. }
  rewrite E1. cbn [mbind answer_bind].
  destruct (IH n g1 HD1 (sized_shrinks _ _ Hsz HS1)) as (g2 & l2 & ts & E2 & HD2 & HS2 & Hi2 & Hc2 & HF).
  exists g2, (l1 ++ l2), (concat l1 :: ts). split_and!; [done|done|by eapply shrinks_trans|by rewrite Hi2, Hi1, app_assoc|by rewrite concat_app, Hc2|].
  constructor; [by eapply given_wider; [apply shrinks_refl|exact HS2|]|].
  eapply Forall2_impl; [|exact HF]. intros k' t. by apply given_wider; [|apply shrinks_refl].
Qed.

(** With memory, a key is found or not. *)
Lemma serve_hit k g r g' :
  serve_key 5 VERSION_MODE stack inline return_cas mem k g = Answer (r, g') → r = SHit ∨ r = SMiss.
Proof using Hmem.
  unfold serve_key. destruct (Hmem (tries g)) as (E1 & E2 & E3 & Hm).
  destruct (reply_of _) as [[it s]| |]; [|done..]. cbn [mbind answer_bind]. destruct (it =? 0); [intros [= <- <-]; by right|].
  rewrite E1, andb_false_r. cbn [negb]. destruct (return_cas || negb inline).
  - unfold serve_suffix. rewrite E2, E3, andb_false_r. cbn [negb]. destruct (make_ascii_get_suffix _ _ _ _ _ _) as [[sb sl]|]; [|done].
    rewrite (proj2 (Nat.ltb_ge _ _)); [intros [= <- <-]; by left|]. rewrite !length_app. destruct inline; cbn [length]; lia.
  - unfold serve_inline. rewrite (proj2 (Nat.ltb_ge _ _)); [intros [= <- <-]; by left|]. cbn [length]. lia.
Qed.

(** The whole answer: the values of the keys, in order, and the end. *)
Lemma get_answer fuel line post cmd keys buf toks n g :
  no_nul line → at_ post 0 = 0 → words line = cmd :: keys → short_keys keys →
  tokenize_command (line ++ post) 0 MAX_TOKENS = (buf, toks) → (length line < fuel)%nat →
  data_ok (2 * length keys + n) (g_api g) → sized (g_api g) → iov g = [] →
  ∃ g' l ts, process_get_command 5 VERSION_MODE stack inline return_cas mem fuel true buf toks g = Answer (Some (Values l), g') ∧
    concat l = concat ts ++ chars "END" ++ crlf true ∧ Forall2 (given (g_api g) (g_api g')) keys ts ∧
    data_ok n (g_api g') ∧ shrinks (g_api g) (g_api g').
Proof using GL Hmem.
  intros Hz Hp Hw Hs E Hf HD Hsz Hi. unfold process_get_command.
  rewrite (get_keys_ok _ fuel line post cmd keys buf toks g serve_hit Hz Hp Hw Hs E Hf).
  destruct (serve_all_ok keys n g HD Hsz) as (g' & l & ts & -> & HD' & HS' & Hi' & Hc & HF). cbn [mbind answer_bind].
  eexists _, _, ts. split; [reflexivity|]. split_and!; try done. rewrite Hi', Hi. cbn [app]. rewrite concat_app, Hc. cbn [concat]. by rewrite app_nil_r.
Qed.
End Spec.

Lemma slab_get_laws st hash : GetLaws (CacheItems.SlabItems st hash).
Proof. split; intros s a; by apply Z.mod_pos_bound. Qed.
