(* ===== verification/ConnOut.v ===== *)
(** The answers that wait to be sent: [add_msghdr], [ensure_iov_space], [add_iov], [build_udp_headers] and
    [transmit] of [extra/KVS-DRAM-Cache/memcached.c].

    The arrays [iov] and [msglist] are lists of the size allocated.  [msg_iov] is the index that the
    pointer of a message has in [iov].  A buffer is the bytes from its address on.  The
    state of the connection and the statistics are left to the callers. *)

From S2P Require Import Prelude Items.

(** ** The data *)

(** No [iov_base]: the room for a header that is filled in later. *)
Record iovec := mkIov { iov_base : option bytes; iov_len : nat }.
Record msghdr := mkMsg { msg_iov : nat; msg_iovlen : nat }.

(** [iovsize] and [msgsize] are the lengths of the lists; [allocs] numbers the calls of [realloc]. *)
Record outgoing := mkOut {
  iov : list iovec;
  iovused : nat;
  msglist : list msghdr;
  msgused : nat;
  msgcurr : nat;
  msgbytes : nat;
  hdrsize : nat;
  allocs : nat
}.

Inductive transmit_result := TRANSMIT_COMPLETE | TRANSMIT_INCOMPLETE | TRANSMIT_SOFT_ERROR | TRANSMIT_HARD_ERROR.

Definition IOV_MAX : nat := 1024.
Definition UDP_MAX_PAYLOAD_SIZE : nat := 1400.
Definition UDP_HEADER_SIZE : nat := 8.

Section Out.
(** [IS_UDP(c->transport)]; whether the n-th [realloc] finds the memory. *)
Context (udp : bool) (granted : nat → bool).

Definition one_alloc (c : outgoing) : outgoing :=
  mkOut (iov c) (iovused c) (msglist c) (msgused c) (msgcurr c) (msgbytes c) (hdrsize c) (S (allocs c)).

(** *** Adding data *)

(** [add_msghdr] up to the room for a header *)
Definition new_msghdr (c : outgoing) : bool * outgoing :=
  let full := (length (msglist c) =? msgused c)%nat in
  if full && negb (granted (allocs c)) then (false, one_alloc c)
  else
    let c := if full then one_alloc c else c in
    let l := if full then msglist c ++ replicate (length (msglist c)) (mkMsg 0 0) else msglist c in
    (true, mkOut (iov c) (iovused c) (<[msgused c := mkMsg (iovused c) 0]> l) (S (msgused c)) (msgcurr c) 0
             (hdrsize c) (allocs c)).

(** All the messages point to where their entries are, from [p] on. *)
Fixpoint repoint (p : nat) (l : list msghdr) : list msghdr :=
  match l with
  | [] => []
  | m :: l => mkMsg p (msg_iovlen m) :: repoint (p + msg_iovlen m) l
  end.

Definition ensure_iov_space (c : outgoing) : bool * outgoing :=
  if (length (iov c) <=? iovused c)%nat then
    if granted (allocs c) then
      (true, mkOut (iov c ++ replicate (length (iov c)) (mkIov None 0)) (iovused c)
               (repoint 0 (take (msgused c) (msglist c)) ++ drop (msgused c) (msglist c)) (msgused c) (msgcurr c)
               (msgbytes c) (hdrsize c) (S (allocs c)))
    else (false, one_alloc c)
  else (true, c).

(** [&c->msglist[c->msgused - 1]] *)
Definition last_msg (c : outgoing) : answer msghdr :=
  if (msgused c =? 0)%nat then Assertion else asserting (msglist c !! (msgused c - 1)%nat).

(** The entry after the last one of the last message. *)
Definition put_iov (buf : option bytes) (len : nat) (c : outgoing) : answer outgoing :=
  m ← last_msg c;
  let p := (msg_iov m + msg_iovlen m)%nat in
  if (length (iov c) <=? p)%nat then Assertion
  else
    Answer (mkOut (<[p := mkIov buf len]> (iov c)) (S (iovused c))
              (<[(msgused c - 1)%nat := mkMsg (msg_iov m) (S (msg_iovlen m))]> (msglist c)) (msgused c) (msgcurr c)
              (msgbytes c + len) (hdrsize c) (allocs c)).

(** The loop of [add_iov] for UDP, with the call of [add_msghdr] in it; the result of that call is
    ignored.  [msgbytes] is not above the limit. *)
Fixpoint add_iov_udp (fuel : nat) (buf : option bytes) (len : nat) (c : outgoing) : answer (bool * outgoing) :=
  match fuel with
  | O => Never
  | S fuel =>
      m ← last_msg c;
      c ← (if (msg_iovlen m =? IOV_MAX)%nat || (UDP_MAX_PAYLOAD_SIZE <=? msgbytes c)%nat then
             let '(ok, c) := new_msghdr c in
             if ok then '(_, c) ← add_iov_udp fuel None UDP_HEADER_SIZE c; Answer c else Answer c
           else Answer c);
      let '(ok, c) := ensure_iov_space c in
      if negb ok then Answer (false, c)
      else
        let leftover := (len + msgbytes c - UDP_MAX_PAYLOAD_SIZE)%nat in
        let len := (len - leftover)%nat in
        c ← put_iov buf len c;
        if (0 <? leftover)%nat then add_iov_udp fuel (drop len <$> buf) leftover c else Answer (true, c)
  end.

Definition add_iov_tcp (buf : option bytes) (len : nat) (c : outgoing) : answer (bool * outgoing) :=
  m ← last_msg c;
  let c := if (msg_iovlen m =? IOV_MAX)%nat then (new_msghdr c).2 else c in
  let '(ok, c) := ensure_iov_space c in
  if negb ok then Answer (false, c) else c ← put_iov buf len c; Answer (true, c).

Definition add_iov (fuel : nat) (buf : option bytes) (len : nat) (c : outgoing) : answer (bool * outgoing) :=
  if udp then add_iov_udp fuel buf len c else add_iov_tcp buf len c.

Definition add_msghdr (fuel : nat) (c : outgoing) : answer (bool * outgoing) :=
  let '(ok, c) := new_msghdr c in
  if negb ok then Answer (false, c) else if udp then add_iov fuel None UDP_HEADER_SIZE c else Answer (true, c).

(** What [process_command] and [out_string] start with. *)
Definition fresh_out (c : outgoing) : outgoing := mkOut (iov c) 0 (msglist c) 0 0 (msgbytes c) (hdrsize c) (allocs c).

(** Several pieces, up to the first that finds no memory. *)
Fixpoint add_iovs (fuel : nat) (l : list bytes) (c : outgoing) : answer (bool * outgoing) :=
  match l with
  | [] => Answer (true, c)
  | b :: l =>
      '(ok, c) ← add_iov fuel (Some b) (length b) c;
      if ok : bool then add_iovs fuel l c else Answer (false, c)
  end.

(** *** Headers *)

(** The eight bytes, each an [unsigned char]. *)
Definition udp_header (request_id i n : Z) : bytes :=
  [u8 (request_id / 256); u8 (request_id mod 256); u8 (i / 256); u8 (i mod 256); u8 (n / 256); u8 (n mod 256); 0; 0].

Fixpoint put_headers (request_id n : Z) (i : nat) (l : list msghdr) (v : list iovec) : answer (list iovec) :=
  match l with
  | [] => Answer v
  | m :: l =>
      if (length v <=? msg_iov m)%nat then Assertion
      else put_headers request_id n (S i) l
             (<[msg_iov m := mkIov (Some (udp_header request_id (Z.of_nat i) n)) UDP_HEADER_SIZE]> v)
  end.

Definition build_udp_headers (request_id : Z) (c : outgoing) : answer (bool * outgoing) :=
  let short := (hdrsize c <? msgused c)%nat in
  if short && negb (granted (allocs c)) then Answer (false, one_alloc c)
  else
    let c := if short then one_alloc c else c in
    v ← put_headers request_id (Z.of_nat (msgused c)) 0 (take (msgused c) (msglist c)) (iov c);
    Answer (true, mkOut v (iovused c) (msglist c) (msgused c) (msgcurr c) (msgbytes c)
                    (if short then msgused c * 2 else hdrsize c)%nat (allocs c)).

(** *** Sending *)

(** What [sendmsg] answers: it took [n] bytes, or as many as there are; it would block; another error. *)
Inductive send_answer := Sent (n : nat) | SendAgain | SendError.

Definition iov_data (e : iovec) : bytes :=
  match iov_base e with Some b => take (iov_len e) b | None => replicate (iov_len e) 0 end.
Definition flat (l : list iovec) : bytes := concat (iov_data <$> l).

(** The entries of a message. *)
Definition entries (v : list iovec) (m : msghdr) : list iovec := take (msg_iovlen m) (drop (msg_iov m) v).

(** The entries that are sent in whole are dropped: the message and what remains of [res]. *)
Fixpoint skip_sent (k p : nat) (v : list iovec) (res : nat) : msghdr * nat :=
  match k with
  | O => (mkMsg p O, res)
  | S k' =>
      let e := nth p v (mkIov None 0) in
      if (iov_len e <=? res)%nat then skip_sent k' (S p) v (res - iov_len e) else (mkMsg p k, res)
  end.

(** The result, the bytes that the socket has taken, and the rest; [event_ok]: the answer of [update_event]. *)
Definition transmit (event_ok : bool) (r : send_answer) (c : outgoing) : answer (transmit_result * bytes * outgoing) :=
  let done := match msglist c !! msgcurr c with Some m => (msg_iovlen m =? 0)%nat | None => false end in
  let curr := if (msgcurr c <? msgused c)%nat && done then S (msgcurr c) else msgcurr c in
  let upd v l := mkOut v (iovused c) l (msgused c) curr (msgbytes c) (hdrsize c) (allocs c) in
  if (msgcurr c <? msgused c)%nat && (length (msglist c) <=? msgcurr c)%nat then Assertion else
  if (curr <? msgused c)%nat then
    match msglist c !! curr with
    | None => Assertion
    | Some m =>
        let all := flat (entries (iov c) m) in
        match r with
        | Sent n =>
            let res := Nat.min n (length all) in
            if (res =? 0)%nat then Answer (TRANSMIT_HARD_ERROR, [], upd (iov c) (msglist c))
            else
              let '(m', rest) := skip_sent (msg_iovlen m) (msg_iov m) (iov c) res in
              let cut e := mkIov (drop rest <$> iov_base e) (iov_len e - rest) in
              let v := if (0 <? rest)%nat then alter cut (msg_iov m') (iov c) else iov c in
              Answer (TRANSMIT_INCOMPLETE, take res all, upd v (<[curr := m']> (msglist c)))
        | SendAgain => Answer (if event_ok then TRANSMIT_SOFT_ERROR else TRANSMIT_HARD_ERROR, [], upd (iov c) (msglist c))
        | SendError => Answer (TRANSMIT_HARD_ERROR, [], upd (iov c) (msglist c))
        end
    end
  else Answer (TRANSMIT_COMPLETE, [], upd (iov c) (msglist c)).

(** ** The entries of each message *)

(** The headers of messages with the entries [gs], from index [p] on. *)
Fixpoint layout (p : nat) (gs : list (list iovec)) : list msghdr :=
  match gs with
  | [] => []
  | g :: gs => mkMsg p (length g) :: layout (p + length g) gs
  end.

Definition size (g : list iovec) : nat := sum_list_with iov_len g.

(** [gs] are the entries of the messages, before anything is sent. *)
Record view (c : outgoing) (gs : list (list iovec)) : Prop := {
  v_curr : msgcurr c = 0%nat;
  v_iov : take (iovused c) (iov c) = concat gs;
  v_used : iovused c = length (concat gs);
  v_msgs : take (msgused c) (msglist c) = layout 0 gs;
  v_mused : msgused c = length gs;
  v_bytes : ∀ gs' g, gs = gs' ++ [g] → msgbytes c = size g;
  v_room : (0 < length (iov c))%nat ∧ (0 < length (msglist c))%nat
}.

Lemma layout_length p gs : length (layout p gs) = length gs.
Proof using. revert p. induction gs as [|g gs IH]; intros p; cbn; [done|]. by rewrite IH. Qed.

Lemma layout_app p gs hs : layout p (gs ++ hs) = layout p gs ++ layout (p + length (concat gs)) hs.
Proof using.
  revert p. induction gs as [|g gs IH]; intros p; cbn; [by rewrite Nat.add_0_r|].
  by rewrite IH, length_app, Nat.add_assoc.
Qed.

Lemma repoint_layout p q gs : repoint p (layout q gs) = layout p gs.
Proof using. revert p q. induction gs as [|g gs IH]; intros p q; cbn; [done|]. by rewrite IH. Qed.

Lemma concat_snoc {A} (gs : list (list A)) g : concat (gs ++ [g]) = concat gs ++ g.
Proof using. by rewrite concat_app; cbn; rewrite app_nil_r. Qed.

Lemma size_app g h : size (g ++ h) = (size g + size h)%nat.
Proof using. unfold size. by rewrite sum_list_with_app. Qed.

Lemma flat_app g h : flat (g ++ h) = flat g ++ flat h.
Proof using. unfold flat. by rewrite fmap_app, concat_app. Qed.

Lemma take_insert_one {A} (l : list A) n x : (n < length l)%nat → take (S n) (<[n:=x]> l) = take n l ++ [x].
Proof using.
  intros H. rewrite (take_S_r _ n x); [|by apply list_lookup_insert_eq].
  by rewrite take_insert_ge.
Qed.

Lemma snoc_inj {A} (l l' : list A) x x' : l ++ [x] = l' ++ [x'] → l = l' ∧ x = x'.
Proof using. intros H. apply app_inj_2 in H as [-> H]; [|done]. by injection H as ->. Qed.

Lemma answered {A B} (a : A) (f : A → answer B) : Answer a ≫= f = f a.
Proof using. done. Qed.

Lemma Forall_one_more {A} (P : A → Prop) l x : Forall P (l ++ [x]) ↔ Forall P l ∧ P x.
Proof using. rewrite list.Forall_app, list.Forall_singleton. done. Qed.

Lemma view_lengths c gs : view c gs → (iovused c ≤ length (iov c))%nat ∧ (msgused c ≤ length (msglist c))%nat.
Proof using.
  intros [_ Hi Hu Hm Hn _ _]. apply (f_equal length) in Hi, Hm. rewrite length_take in Hi. rewrite length_take, layout_length in Hm. lia.
Qed.

Lemma view_alloc c gs : view c gs → view (one_alloc c) gs.
Proof using. intros [?????? ?]. by split. Qed.

Lemma new_msghdr_view c gs : view c gs → ∃ b c', new_msghdr c = (b, c') ∧
  view c' (if b then gs ++ [[]] else gs) ∧ ((∀ n, granted n = true) → b = true).
Proof using.
  intros Hv. pose proof (view_lengths c gs Hv) as [_ Hl]. unfold new_msghdr.
  destruct (length (msglist c) =? msgused c)%nat eqn:Ef; cbn [andb].
  2:{ apply Nat.eqb_neq in Ef. eexists true, _. split_and!; [done| |done]. destruct Hv as [H1 H2 H3 H4 H5 H6 H7].
      split; cbn; rewrite ?concat_snoc, ?app_nil_r; try done.
      - rewrite take_insert_one by lia. rewrite H4, layout_app. cbn. by rewrite H3.
      - rewrite length_app. cbn. lia.
      - intros gs' g [_ <-]%snoc_inj. done.
      - by rewrite length_insert. }
  destruct (granted (allocs c)) eqn:Eg; cbn [negb].
  2:{ eexists false, _. split_and!; [done|by apply view_alloc|]. intros H. by rewrite H in Eg. }
  apply Nat.eqb_eq in Ef. eexists true, _. split_and!; [done| |done]. destruct Hv as [H1 H2 H3 H4 H5 H6 H7].
  split; cbn; rewrite ?concat_snoc, ?app_nil_r; try done.
  - rewrite take_insert_one by (rewrite length_app, length_replicate; lia).
    rewrite take_app_le by lia. rewrite H4, layout_app. cbn. by rewrite H3.
  - rewrite length_app. cbn. lia.
  - intros gs' g [_ <-]%snoc_inj. done.
  - rewrite length_insert, length_app. lia.
Qed.

Lemma ensure_view c gs : view c gs → ∃ b c', ensure_iov_space c = (b, c') ∧ view c' gs ∧ msgbytes c' = msgbytes c ∧
  (b = true → (iovused c' < length (iov c'))%nat) ∧ ((∀ n, granted n = true) → b = true).
Proof using.
  intros Hv. pose proof (view_lengths c gs Hv) as [Hl Hl']. unfold ensure_iov_space.
  destruct (length (iov c) <=? iovused c)%nat eqn:Ef; [|apply Nat.leb_gt in Ef; by eexists true, _].
  apply Nat.leb_le in Ef. destruct (granted (allocs c)) eqn:Eg.
  2:{ eexists false, _. split_and!; [done|by apply view_alloc|done|done|]. intros H. by rewrite H in Eg. }
  destruct Hv as [H1 H2 H3 H4 H5 H6 H7].
  eexists true, _. split_and!; [done| |done| |done]; cbn; [|rewrite length_app, length_replicate; lia].
  assert (length (repoint 0 (layout 0 gs)) = msgused c) as HL by (rewrite repoint_layout, layout_length; done).
  split; cbn; try done.
  - by rewrite take_app_le by lia.
  - rewrite H4, take_app_le by lia. rewrite take_ge by lia. apply repoint_layout.
  - rewrite !length_app, length_replicate, H4, HL, length_drop. lia.
Qed.

Lemma view_last c gs g : view c (gs ++ [g]) → last_msg c = Answer (mkMsg (length (concat gs)) (length g)) ∧
  (msgused c - 1 = length gs)%nat ∧ msgbytes c = size g.
Proof using.
  intros [H1 H2 H3 H4 H5 H6 H7]. rewrite length_app in H5. cbn in H5. split_and!; [|lia|by apply (H6 gs)].
  unfold last_msg. destruct (msgused c =? 0)%nat eqn:E; [apply Nat.eqb_eq in E; lia|].
  rewrite <- (lookup_take_lt _ (msgused c)) by lia. rewrite H4, layout_app.
  by rewrite lookup_app_r, layout_length, H5, Nat.add_sub, Nat.sub_diag by (rewrite layout_length; lia).
Qed.

Lemma put_iov_view c gs g b len : view c (gs ++ [g]) → (iovused c < length (iov c))%nat →
  ∃ c', put_iov b len c = Answer c' ∧ view c' (gs ++ [g ++ [mkIov b len]]) ∧ msgbytes c' = (msgbytes c + len)%nat.
Proof using.
  intros Hv Hr. destruct (view_last c gs g Hv) as (El & Hp & Hb). unfold put_iov. rewrite El. cbn.
  pose proof (view_lengths _ _ Hv) as [_ Hl]. destruct Hv as [H1 H2 H3 H4 H5 H6 H7].
  rewrite concat_snoc, length_app in H3. rewrite length_app in H5. cbn in H5. rewrite <- H3.
  destruct (length (iov c) <=? iovused c)%nat eqn:E; [apply Nat.leb_le in E; lia|].
  eexists. split_and!; [done| |done]. split; cbn; try done.
  - rewrite take_insert_one by done. rewrite H2. by rewrite !concat_snoc, app_assoc.
  - rewrite concat_snoc, app_assoc, length_app. cbn. rewrite length_app. lia.
  - rewrite Hp. replace (msgused c) with (S (length gs)) by lia. rewrite take_insert_one by lia.
    rewrite layout_app. f_equal; [|cbn; by rewrite length_app, Nat.add_1_r].
    rewrite <- (take_app_length (layout 0 gs) (layout (0 + length (concat gs)) [g])), <- layout_app, <- H4, layout_length.
    rewrite take_take. f_equal. lia.
  - rewrite length_app. cbn. lia.
  - intros gs' g' [_ <-]%snoc_inj. rewrite size_app, Hb. cbn. lia.
  - by rewrite !length_insert.
Qed.

(** ** TCP *)

(** The data of all the messages, in order. *)
Definition stream (gs : list (list iovec)) : bytes := flat (concat gs).

Lemma stream_snoc gs g : stream (gs ++ [g]) = stream gs ++ flat g.
Proof using. unfold stream. by rewrite concat_snoc, flat_app. Qed.

(** There is a message to add to. *)
Definition open_view (c : outgoing) (gs : list (list iovec)) : Prop := view c gs ∧ gs ≠ [].

Definition iov_wf (e : iovec) : Prop := length (iov_data e) = iov_len e.

(** What [sendmsg] takes: not too many entries, and something to send. *)
Definition in_limit (g : list iovec) : Prop := (length g ≤ IOV_MAX)%nat ∧ Forall iov_wf g.
Definition filled (g : list iovec) : Prop := in_limit g ∧ flat g ≠ [].
(** The messages of an answer, that may have no piece yet. *)
Definition sendable (gs : list (list iovec)) : Prop := gs = [[]] ∨ Forall filled gs.

Definition enough_memory : Prop := ∀ n, granted n = true.

Lemma flat_one e : flat [e] = iov_data e.
Proof using. unfold flat. cbn. by rewrite app_nil_r. Qed.

(** The message that the next entry goes to; there is none if the memory for one lacks. *)
Lemma tcp_room c gs g : view c (gs ++ [g]) → ∃ c1 gs1 g1, (if (length g =? IOV_MAX)%nat then (new_msghdr c).2 else c) = c1 ∧
  view c1 (gs1 ++ [g1]) ∧ stream (gs1 ++ [g1]) = stream (gs ++ [g]) ∧
  (enough_memory → sendable (gs ++ [g]) → Forall filled gs1 ∧ in_limit g1 ∧ (length g1 < IOV_MAX)%nat).
Proof using.
  intros Hv. destruct (length g =? IOV_MAX)%nat eqn:Ef.
  - apply Nat.eqb_eq in Ef. destruct (new_msghdr_view c _ Hv) as (b1 & c1 & -> & Hv1 & Hg). cbn [snd]. destruct b1.
    + exists c1, (gs ++ [g]), []. split_and!; [done|done|by rewrite (stream_snoc _ []), app_nil_r|].
      intros _ [H|H]; [|split_and!; [done|by split; cbn; [unfold IOV_MAX; lia|]|cbn; unfold IOV_MAX; lia]].
      destruct gs as [|? [|??]]; [|done..]. injection H as ->. done.
    + exists c1, gs, g. split_and!; [done..|]. intros Hm. by specialize (Hg Hm).
  - apply Nat.eqb_neq in Ef. exists c, gs, g. split_and!; [done..|]. intros _ [H|[H1 [H2 _]]%Forall_one_more].
    + destruct gs as [|? [|??]]; [|done..]. injection H as ->. split_and!; [done|by split; cbn; [unfold IOV_MAX; lia|]|cbn; unfold IOV_MAX; lia].
    + split_and!; [done..|]. destruct H2. lia.
Qed.

(** Without memory a piece may be refused: then the stream is as it was. *)
Lemma add_iov_tcp_ok c gs b len : open_view c gs → ∃ ok c' gs', add_iov_tcp b len c = Answer (ok, c') ∧
  open_view c' gs' ∧ stream gs' = stream gs ++ (if ok : bool then iov_data (mkIov b len) else []) ∧
  (enough_memory → sendable gs → iov_wf (mkIov b len) → iov_data (mkIov b len) ≠ [] → ok = true ∧ Forall filled gs').
Proof using.
  intros [Hv Hne]. destruct (exists_last Hne) as (gs0 & g & ->).
  destruct (view_last c gs0 g Hv) as (El & _ & _). unfold add_iov_tcp. rewrite El, answered. cbn [msg_iovlen].
  destruct (tcp_room c gs0 g Hv) as (c1 & gs1 & g1 & -> & Hv1 & Hs1 & Hm1).
  destruct (ensure_view c1 _ Hv1) as (b2 & c2 & -> & Hv2 & _ & Hr & Hg2). destruct b2; cbn [negb].
  2:{ exists false, c2, (gs1 ++ [g1]). split_and!; [done|by split; [|by destruct gs1]|by rewrite app_nil_r|]. intros Hm. by specialize (Hg2 Hm). }
  destruct (put_iov_view c2 gs1 g1 b len Hv2 (Hr eq_refl)) as (c3 & -> & Hv3 & _). rewrite answered.
  exists true, c3, (gs1 ++ [g1 ++ [mkIov b len]]). split_and!; [done|by split; [|by destruct gs1]| |].
  - by rewrite stream_snoc, flat_app, app_assoc, <- stream_snoc, Hs1, flat_one.
  - intros Hm Hl Hw Hd. destruct (Hm1 Hm Hl) as (H1 & [H2 H3] & H4). split; [done|]. apply Forall_one_more. split; [done|].
    split; [split|].
    + rewrite length_app. cbn. lia.
    + by apply Forall_one_more.
    + rewrite flat_app, flat_one. by intros [_ ?]%app_eq_nil.
Qed.

(** A whole answer. *)
Lemma add_iovs_tcp fuel l c gs : udp = false → enough_memory → Forall (λ b, b ≠ []) l → open_view c gs → sendable gs →
  ∃ c' gs', add_iovs fuel l c = Answer (true, c') ∧ open_view c' gs' ∧ sendable gs' ∧ stream gs' = stream gs ++ concat l.
Proof using.
  intros Hu Hm Hl. revert c gs. induction Hl as [|b l Hb _ IH]; intros c gs Hv Hs; cbn [add_iovs concat].
  - exists c, gs. by rewrite app_nil_r.
  - unfold add_iov. rewrite Hu. destruct (add_iov_tcp_ok c gs (Some b) (length b) Hv) as (ok & c1 & gs1 & -> & Hv1 & Hs1 & H).
    assert (iov_data (mkIov (Some b) (length b)) = b) as Hd by (cbn; by rewrite take_ge).
    destruct H as [-> Hf]; [done|done|unfold iov_wf; by rewrite Hd|by rewrite Hd|]. rewrite answered.
    destruct (IH c1 gs1 Hv1) as (c' & gs' & E & Hv' & Hs' & Hst); [by right|]. exists c', gs'. split_and!; [done..|].
    by rewrite Hst, Hs1, Hd, <- app_assoc.
Qed.

(** ** UDP *)

Definition payload (g : list iovec) : bytes := flat (drop 1 g).
Definition payloads (gs : list (list iovec)) : bytes := concat (payload <$> gs).

(** A datagram that is being filled: the room for its header first. *)
Record packet (g : list iovec) : Prop := {
  pk_head : ∃ es, g = mkIov None UDP_HEADER_SIZE :: es ∧ Forall iov_wf es;
  pk_size : (size g ≤ UDP_MAX_PAYLOAD_SIZE)%nat;
  pk_len : (length g ≤ IOV_MAX)%nat
}.

Lemma flat_length g : Forall iov_wf g → length (flat g) = size g.
Proof using. induction 1 as [|e g He _ IH]; cbn; [done|]. rewrite length_app. unfold iov_wf in He. unfold flat, size in IH. rewrite He, IH. done. Qed.

Lemma packet_put g b len : packet g → (length g < IOV_MAX)%nat → (size g + len ≤ UDP_MAX_PAYLOAD_SIZE)%nat → (len ≤ length b)%nat →
  packet (g ++ [mkIov (Some b) len]) ∧ payload (g ++ [mkIov (Some b) len]) = payload g ++ take len b.
Proof using.
  intros [(es & -> & Hw) Hs Hl] Hl' Hs' Hb. split; [split|].
  - exists (es ++ [mkIov (Some b) len]). split; [done|]. apply Forall_one_more. split; [done|].
    unfold iov_wf. cbn. rewrite length_take. lia.
  - rewrite size_app. cbn. cbn in Hs'. lia.
  - rewrite length_app. cbn in *. lia.
  - unfold payload. cbn [drop app]. rewrite !drop_0, flat_app. f_equal. cbn. by rewrite app_nil_r.
Qed.

Lemma payloads_snoc gs g : payloads (gs ++ [g]) = payloads gs ++ payload g.
Proof using. unfold payloads. by rewrite fmap_app, concat_app; cbn; rewrite app_nil_r. Qed.

(** The header of a new message. *)
Lemma add_header fuel c gs : enough_memory → view c (gs ++ [[]]) → ∃ c', add_iov_udp (S fuel) None UDP_HEADER_SIZE c = Answer (true, c') ∧
  view c' (gs ++ [[mkIov None UDP_HEADER_SIZE]]).
Proof using.
  intros Hm Hv. destruct (view_last c gs [] Hv) as (El & _ & Hb). cbn [add_iov_udp]. rewrite El. cbn [mbind answer_bind msg_iovlen length].
  rewrite Hb. cbn [size sum_list_with]. change (_ || _) with false. cbn iota. rewrite answered.
  destruct (ensure_view c _ Hv) as (b2 & c2 & -> & Hv2 & Hb2 & Hr & Hg2). rewrite (Hg2 Hm) in Hr |- *. cbn [negb].
  rewrite Hb2, Hb. change (UDP_HEADER_SIZE + size [] - UDP_MAX_PAYLOAD_SIZE)%nat with 0%nat. rewrite Nat.sub_0_r.
  destruct (put_iov_view c2 gs [] None UDP_HEADER_SIZE Hv2 (Hr eq_refl)) as (c3 & -> & Hv3 & _). by exists c3.
Qed.

Lemma packet_new : packet [mkIov None UDP_HEADER_SIZE].
Proof using. split; [by exists []|cbn; unfold UDP_HEADER_SIZE, UDP_MAX_PAYLOAD_SIZE; lia|cbn; unfold IOV_MAX; lia]. Qed.

(** The message that the next piece goes to has room. *)
Lemma udp_room fuel c gs g : enough_memory → view c (gs ++ [g]) → Forall packet (gs ++ [g]) →
  ∃ c1 gs1 g1, (if (length g =? IOV_MAX)%nat || (UDP_MAX_PAYLOAD_SIZE <=? size g)%nat then
      let '(ok, c) := new_msghdr c in
      if ok then '(_, c) ← add_iov_udp (S fuel) None UDP_HEADER_SIZE c; Answer c else Answer c
    else Answer c) = Answer c1 ∧ view c1 (gs1 ++ [g1]) ∧ Forall packet (gs1 ++ [g1]) ∧ payloads (gs1 ++ [g1]) = payloads (gs ++ [g]) ∧
    (length g1 < IOV_MAX)%nat ∧ (size g1 < UDP_MAX_PAYLOAD_SIZE)%nat.
Proof using.
  intros Hm Hv HP. destruct (_ || _) eqn:E.
  - destruct (new_msghdr_view c _ Hv) as (b1 & c1 & -> & Hv1 & Hg). rewrite (Hg Hm) in Hv1 |- *.
    destruct (add_header fuel c1 _ Hm Hv1) as (c2 & -> & Hv2). cbn [mbind answer_bind].
    exists c2, (gs ++ [g]), [mkIov None UDP_HEADER_SIZE]. split_and!; [done|done| | | |].
    + apply Forall_one_more. split; [done|]. apply packet_new.
    + by rewrite (payloads_snoc (_ ++ _)), app_nil_r.
    + cbn. unfold IOV_MAX. lia.
    + cbn. unfold UDP_HEADER_SIZE, UDP_MAX_PAYLOAD_SIZE. lia.
  - apply orb_false_iff in E as [E1%Nat.eqb_neq E2%Nat.leb_gt]. exists c, gs, g. split_and!; try done.
    apply Forall_one_more in HP as [_ HP]. pose proof (pk_len g HP). lia.
Qed.

(** One piece is cut over as many datagrams as it needs. *)
Lemma add_iov_udp_ok fuel c gs b len : enough_memory → open_view c gs → Forall packet gs → (len ≤ length b)%nat → (S len < fuel)%nat →
  ∃ c' gs', add_iov_udp fuel (Some b) len c = Answer (true, c') ∧ open_view c' gs' ∧ Forall packet gs' ∧
    payloads gs' = payloads gs ++ take len b.
Proof using.
  intros Hm. revert c gs b len. induction fuel as [|fuel IH]; intros c gs b len [Hv Hne] HP Hb Hf; [lia|].
  destruct (exists_last Hne) as (gs0 & g & ->). destruct (view_last c gs0 g Hv) as (El & _ & Hs). cbn [add_iov_udp].
  rewrite El, Hs. cbn [msg_iovlen]. destruct fuel as [|fuel]; [lia|].
  destruct (udp_room fuel c gs0 g Hm Hv HP) as (c1 & gs1 & g1 & E1 & Hv1 & HP1 & <- & Hl1 & Hs1).
  rewrite answered. cbn [msg_iovlen]. rewrite E1, answered.
  destruct (ensure_view c1 _ Hv1) as (b2 & c2 & -> & Hv2 & Hb2 & Hr & Hg2). rewrite (Hg2 Hm) in Hr |- *. cbn [negb].
  destruct (view_last c2 gs1 g1 Hv2) as (_ & _ & Hs2). rewrite Hs2.
  set (leftover := (len + size g1 - UDP_MAX_PAYLOAD_SIZE)%nat). set (n := (len - leftover)%nat).
  destruct (put_iov_view c2 gs1 g1 (Some b) n Hv2 (Hr eq_refl)) as (c3 & -> & Hv3 & _). cbn [mbind answer_bind].
  apply Forall_one_more in HP1 as [HP1 HPg].
  destruct (packet_put g1 b n HPg Hl1) as [HP3 Hpay]; [lia|lia|].
  assert (Forall packet (gs1 ++ [g1 ++ [mkIov (Some b) n]])) as HP3' by (by apply Forall_one_more).
  assert (payloads (gs1 ++ [g1 ++ [mkIov (Some b) n]]) = payloads (gs1 ++ [g1]) ++ take n b) as Hp3.
  { rewrite !payloads_snoc, Hpay. by rewrite app_assoc. }
  assert (open_view c3 (gs1 ++ [g1 ++ [mkIov (Some b) n]])) as Hv3' by (split; [done|by destruct gs1]).
  destruct (0 <? leftover)%nat eqn:E.
  - apply Nat.ltb_lt in E. cbn [fmap option_fmap option_map].
    destruct (IH c3 _ (drop n b) leftover Hv3' HP3') as (c' & gs' & E' & Hv' & HP' & Hp'); [rewrite length_drop; lia|lia|].
    exists c', gs'. split_and!; [done..|]. rewrite Hp', Hp3, <- app_assoc. f_equal.
    rewrite take_drop_commute. replace (n + leftover)%nat with len by lia.
    rewrite <- (take_drop n (take len b)) at 2. f_equal. rewrite take_take. f_equal. lia.
  - apply Nat.ltb_ge in E. exists c3, (gs1 ++ [g1 ++ [mkIov (Some b) n]]). split_and!; [done..|]. rewrite Hp3. do 2 f_equal. lia.
Qed.

Lemma add_iovs_udp fuel l c gs : udp = true → enough_memory → Forall (λ b, (S (length b) < fuel)%nat) l → open_view c gs →
  Forall packet gs →
  ∃ c' gs', add_iovs fuel l c = Answer (true, c') ∧ open_view c' gs' ∧ Forall packet gs' ∧ payloads gs' = payloads gs ++ concat l.
Proof using.
  intros Hu Hm Hl. revert c gs. induction Hl as [|b l Hb _ IH]; intros c gs Hv Hs; cbn [add_iovs concat].
  - exists c, gs. by rewrite app_nil_r.
  - unfold add_iov. rewrite Hu. destruct (add_iov_udp_ok fuel c gs b (length b) Hm Hv Hs) as (c1 & gs1 & -> & Hv1 & Hs1 & Hp1); [done..|].
    rewrite answered. destruct (IH c1 gs1 Hv1 Hs1) as (c' & gs' & E & Hv' & Hs' & Hst). exists c', gs'. split_and!; [done..|].
    by rewrite Hst, Hp1, take_ge, <- app_assoc by done.
Qed.

(** The datagrams with their headers filled in. *)
Definition with_header (id n : Z) (i : nat) (g : list iovec) : list iovec :=
  mkIov (Some (udp_header id (Z.of_nat i) n)) UDP_HEADER_SIZE :: drop 1 g.

Lemma put_headers_ok id n gs : Forall (λ g, g ≠ []) gs → ∀ i pre post,
  put_headers id n i (layout (length pre) gs) (pre ++ concat gs ++ post) =
  Answer (pre ++ concat (imap (λ j, with_header id n (i + j)) gs) ++ post).
Proof using.
  induction 1 as [|g gs Hg _ IH]; intros i pre post; [done|]. destruct g as [|e es]; [done|].
  cbn [layout put_headers msg_iov concat]. destruct (_ <=? _)%nat eqn:E.
  { apply Nat.leb_le in E. rewrite !length_app in E. cbn in E. lia. }
  rewrite insert_app_r_alt, Nat.sub_diag by done. cbn [app insert list_insert].
  set (h := mkIov _ _). specialize (IH (S i) (pre ++ h :: es) post).
  rewrite length_app in IH. cbn [length] in IH |- *. rewrite <- !app_assoc in IH |- *. cbn [app] in IH.
  rewrite IH. f_equal. cbn [imap concat]. rewrite Nat.add_0_r. unfold with_header at 2. cbn [drop]. rewrite drop_0, <- !app_assoc.
  f_equal. cbn [app]. do 3 f_equal. f_equal. apply imap_ext. intros j g' _. unfold compose. by rewrite Nat.add_succ_r.
Qed.

Lemma concat_lengths {A} (f : nat → list A → list A) gs : (∀ i g, g ∈ gs → length (f i g) = length g) →
  length (concat (imap f gs)) = length (concat gs).
Proof using.
  revert f. induction gs as [|g gs IH]; intros f H; cbn; [done|]. rewrite !length_app, H by left. f_equal. apply IH.
  intros i g' Hg. by apply H; right.
Qed.

Lemma layout_imap f p gs : (∀ i g, g ∈ gs → length (f i g) = length g) → layout p (imap f gs) = layout p gs.
Proof using.
  revert f p. induction gs as [|g gs IH]; intros f p H; cbn; [done|]. rewrite H by left. f_equal. apply IH.
  intros i g' Hg. by apply H; right.
Qed.

Lemma build_headers_view id c gs : enough_memory → open_view c gs → Forall packet gs →
  ∃ c', build_udp_headers id c = Answer (true, c') ∧ view c' (imap (with_header id (Z.of_nat (length gs))) gs).
Proof using.
  intros Hm [Hv Hne] HP. pose proof (view_lengths c gs Hv) as [Hl _]. unfold build_udp_headers. rewrite (Hm (allocs c)), andb_false_r. cbn iota.
  assert (∀ n i g, g ∈ gs → length (with_header id n i g) = length g) as HL.
  { intros n i g Hg. rewrite list.Forall_forall in HP. destruct (pk_head g (HP g Hg)) as (es & -> & _). cbn. by rewrite drop_0. }
  assert (Forall (λ g, g ≠ []) gs) as Hn.
  { eapply list.Forall_impl; [exact HP|]. intros g Hg. destruct (pk_head g Hg) as (es & -> & _). done. }
  set (c1 := if (hdrsize c <? msgused c)%nat then one_alloc c else c).
  assert (view c1 gs ∧ iov c1 = iov c) as [Hv1 Hi] by (unfold c1; destruct (_ <? _)%nat; split; try done; by apply view_alloc).
  destruct Hv1 as [H1 H2 H3 H4 H5 H6 H7]. rewrite H4, H5. rewrite <- (take_drop (iovused c1) (iov c1)), H2.
  rewrite (put_headers_ok id _ gs Hn 0 [] (drop (iovused c1) (iov c1))), answered. cbn [app].
  eexists. split; [done|]. split; cbn [iov iovused msglist msgused msgcurr msgbytes]; rewrite ?concat_lengths by auto; try done.
  - rewrite take_app_le by (rewrite concat_lengths by auto; lia). rewrite take_ge; [done|]. rewrite concat_lengths by auto. lia.
  - rewrite layout_imap by auto. by rewrite <- H5.
  - by rewrite length_imap.
  - intros gs' g E. destruct (exists_last Hne) as (gs0 & g0 & ->). rewrite imap_app in E. cbn in E. apply snoc_inj in E as [_ <-].
    rewrite (H6 gs0 g0 eq_refl). apply Forall_one_more in HP as [_ HP]. destruct (pk_head g0 HP) as (es & -> & _). cbn. by rewrite drop_0.
  - rewrite !length_app, concat_lengths, length_drop by auto. lia.
Qed.

(** What [sendmsg] is given, message by message. *)
Definition datagrams (c : outgoing) : list bytes := (λ m, flat (entries (iov c) m)) <$> take (msgused c) (msglist c).

Lemma layout_entries gs : ∀ pre post, entries (pre ++ concat gs ++ post) <$> layout (length pre) gs = gs.
Proof using.
  induction gs as [|g gs IH]; intros pre post; [done|]. cbn [layout fmap list_fmap concat]. f_equal.
  - unfold entries. cbn [msg_iov msg_iovlen]. rewrite drop_app_length, <- app_assoc, take_app_length. done.
  - specialize (IH (pre ++ g) post). rewrite length_app, <- !app_assoc in IH. rewrite <- !app_assoc. exact IH.
Qed.

Lemma view_datagrams c gs : view c gs → datagrams c = flat <$> gs.
Proof using.
  intros [H1 H2 H3 H4 H5 H6 H7]. unfold datagrams. rewrite H4. rewrite <- (take_drop (iovused c) (iov c)), H2.
  rewrite <- (layout_entries gs [] (drop (iovused c) (iov c))) at 2. cbn [app length]. by rewrite <- list_fmap_compose.
Qed.

Definition has_arrays (c : outgoing) : Prop := (0 < length (iov c))%nat ∧ (0 < length (msglist c))%nat.

Lemma fresh_view c : has_arrays c → view (fresh_out c) [].
Proof using. intros [??]. split; cbn; try done. by intros [|??] ?. Qed.

Lemma add_msghdr_ok fuel c : enough_memory → has_arrays c → ∃ c', add_msghdr (S fuel) (fresh_out c) = Answer (true, c') ∧
  open_view c' [if udp then [mkIov None UDP_HEADER_SIZE] else []].
Proof using.
  intros Hm Ha. destruct (new_msghdr_view _ _ (fresh_view c Ha)) as (b & c1 & E & Hv & Hg). rewrite (Hg Hm) in E, Hv.
  unfold add_msghdr. rewrite E. cbn [negb]. destruct udp eqn:Hu; [|by exists c1].
  unfold add_iov. rewrite Hu. destruct (add_header fuel c1 [] Hm Hv) as (c2 & -> & Hv2). by exists c2.
Qed.

(** The datagrams of an answer. *)
Lemma udp_datagrams fuel id l c : udp = true → enough_memory → has_arrays c → Forall (λ b, (S (length b) < fuel)%nat) l → (0 < fuel)%nat →
  ∃ c1 c2 c3 ps, add_msghdr fuel (fresh_out c) = Answer (true, c1) ∧ add_iovs fuel l c1 = Answer (true, c2) ∧
    build_udp_headers id c2 = Answer (true, c3) ∧
    datagrams c3 = imap (λ i p, udp_header id (Z.of_nat i) (Z.of_nat (length ps)) ++ p) ps ∧ concat ps = concat l ∧
    Forall (λ d, (length d ≤ UDP_MAX_PAYLOAD_SIZE)%nat) (datagrams c3).
Proof using.
  intros Hu Hm Ha Hl Hf. destruct fuel as [|fuel]; [lia|].
  destruct (add_msghdr_ok fuel c Hm Ha) as (c1 & E1 & Hv1). rewrite Hu in Hv1.
  destruct (add_iovs_udp (S fuel) l c1 _ Hu Hm Hl Hv1) as (c2 & gs & E2 & Hv2 & HP & Hp); [apply list.Forall_singleton, packet_new|].
  destruct (build_headers_view id c2 gs Hm Hv2 HP) as (c3 & E3 & Hv3). exists c1, c2, c3, (payload <$> gs).
  assert (datagrams c3 = imap (λ i p, udp_header id (Z.of_nat i) (Z.of_nat (length (payload <$> gs))) ++ p) (payload <$> gs)) as HD.
  { rewrite (view_datagrams _ _ Hv3), fmap_imap, imap_fmap, length_fmap. apply imap_ext. intros i g _. done. }
  split_and!; [done..| |].
  - exact Hp.
  - rewrite HD. apply list.Forall_lookup. intros i d Hd. rewrite list_lookup_imap, list_lookup_fmap in Hd.
    destruct (gs !! i) as [g|] eqn:Eg; [|done]. injection Hd as <-. rewrite list.Forall_lookup in HP. specialize (HP i g Eg).
    destruct (pk_head g HP) as (es & -> & Hw). pose proof (pk_size _ HP) as Hs. cbn in Hs. unfold payload. cbn [drop]. rewrite drop_0.
    cbn [length]. rewrite flat_length by done. exact Hs.
Qed.

(** ** Sending *)

(** The messages [ms] have the entries [gs], in ranges of [v] one after the other from [p] on. *)
Fixpoint spans (v : list iovec) (p : nat) (ms : list msghdr) (gs : list (list iovec)) : Prop :=
  match ms, gs with
  | [], [] => True
  | m :: ms, g :: gs => (p ≤ msg_iov m)%nat ∧ msg_iovlen m = length g ∧ entries v m = g ∧ spans v (msg_iov m + msg_iovlen m) ms gs
  | _, _ => False
  end.

(** [gs]: what is left to send.  The first message may be finished. *)
Record sending (c : outgoing) (gs : list (list iovec)) : Prop := {
  s_used : (msgused c ≤ length (msglist c))%nat;
  s_spans : spans (iov c) 0 (drop (msgcurr c) (take (msgused c) (msglist c))) gs;
  s_arrays : has_arrays c
}.

Definition left_to_send (gs : list (list iovec)) : Prop :=
  match gs with [] => True | g :: gs => (g = [] ∨ filled g) ∧ Forall filled gs end.

Lemma spans_layout gs : ∀ q pre post, (q ≤ length pre)%nat → spans (pre ++ concat gs ++ post) q (layout (length pre) gs) gs.
Proof using.
  induction gs as [|g gs IH]; intros q pre post Hq; [done|]. cbn [layout spans msg_iov msg_iovlen concat]. split_and!; [done|done| |].
  - unfold entries. cbn [msg_iov msg_iovlen]. rewrite drop_app_length, <- app_assoc. apply take_app_length.
  - specialize (IH (length pre + length g)%nat (pre ++ g) post). rewrite length_app, <- !app_assoc in IH. rewrite <- !app_assoc.
    apply IH. lia.
Qed.

Lemma view_sending c gs : view c gs → sending c gs.
Proof using.
  intros Hv. pose proof (view_lengths c gs Hv) as [_ Hl]. destruct Hv as [H1 H2 H3 H4 H5 H6 H7]. split; [done| |done].
  rewrite H1, drop_0, H4, <- (take_drop (iovused c) (iov c)), H2. by apply (spans_layout gs 0 []).
Qed.

Lemma sendable_left gs : sendable gs → left_to_send gs.
Proof using. intros [->|H]; [cbn; by split; [left|]|]. destruct H as [|g gs]; cbn; [done|]. by split; [right|]. Qed.

(** Entries before the ranges may change. *)
Lemma spans_alter f v i p ms gs : (i < p)%nat → spans v p ms gs → spans (alter f i v) p ms gs.
Proof using.
  revert p gs. induction ms as [|m ms IH]; intros p [|g gs] Hi; cbn [spans]; try done. intros (H1 & H2 & H3 & H4).
  split_and!; [done|done| |apply IH; [lia|done]]. rewrite <- H3. unfold entries. f_equal. rewrite drop_alter, decide_False by lia. done.
Qed.

Lemma spans_weaken v p q ms gs : (q ≤ p)%nat → spans v p ms gs → spans v q ms gs.
Proof using. destruct ms, gs; cbn; try done. intros ? (? & ?). split; [lia|done]. Qed.

(** How many bytes of the first entry left are sent, and the entries left. *)
Lemma skip_sent_ok v : ∀ k p res m' rest, skip_sent k p v res = (m', rest) → (k ≤ length v - p)%nat →
  Forall iov_wf (take k (drop p v)) → (res ≤ length (flat (take k (drop p v))))%nat →
  (p ≤ msg_iov m')%nat ∧ (msg_iov m' + msg_iovlen m' = p + k)%nat ∧
  (msg_iovlen m' = 0%nat → rest = 0%nat) ∧
  (∀ e, v !! msg_iov m' = Some e → (0 < msg_iovlen m')%nat → (rest < iov_len e)%nat) ∧
  drop rest (flat (entries v m')) = drop res (flat (take k (drop p v))) ∧ Forall iov_wf (entries v m').
Proof using.
  induction k as [|k IH]; intros p res m' rest E Hk Hw Hr; cbn [skip_sent] in E.
  - injection E as <- <-. change (flat _) with (@nil Z) in Hr. cbn in Hr. assert (res = 0%nat) as -> by lia. cbn [msg_iov msg_iovlen].
    split_and!; [lia|lia|done|lia|done|constructor].
  - destruct (lookup_lt_is_Some_2 v p ltac:(lia)) as [e He]. rewrite (drop_S v e p He) in Hw, Hr |- *. cbn [take] in Hw, Hr |- *.
    apply list.Forall_cons in Hw as [Hwe Hw]. change (e :: ?l) with ([e] ++ l) in Hr |- *. rewrite flat_app, flat_one in Hr |- *.
    rewrite length_app, Hwe in Hr. rewrite (nth_lookup_Some v p _ e He) in E. destruct (iov_len e <=? res)%nat eqn:El.
    + apply Nat.leb_le in El. destruct (IH (S p) (res - iov_len e)%nat m' rest E) as (H1 & H2 & H3 & H4 & H5 & H6); [lia|done|lia|].
      split_and!; [lia|lia|done|done| |done]. unfold iov_wf in Hwe. rewrite H5, drop_app_ge, Hwe by lia. done.
    + apply Nat.leb_gt in El. injection E as <- <-. cbn [msg_iov msg_iovlen]. split_and!; [lia|lia|done| | |].
      * intros e' He' _. rewrite He in He'. by injection He' as <-.
      * unfold entries. cbn [msg_iov msg_iovlen]. rewrite (drop_S v e p He). cbn [take]. change (e :: ?l) with ([e] ++ l).
        by rewrite flat_app, flat_one.
      * unfold entries. cbn [msg_iov msg_iovlen]. rewrite (drop_S v e p He). cbn [take]. by constructor.
Qed.

(** Part of the first entry is sent. *)
Lemma cut_entry v m rest : (msg_iovlen m ≤ length v - msg_iov m)%nat → Forall iov_wf (entries v m) →
  (msg_iovlen m = 0%nat → rest = 0%nat) → (∀ e, v !! msg_iov m = Some e → (0 < msg_iovlen m)%nat → (rest < iov_len e)%nat) →
  let v' := if (0 <? rest)%nat then alter (λ e, mkIov (drop rest <$> iov_base e) (iov_len e - rest)) (msg_iov m) v else v in
  flat (entries v' m) = drop rest (flat (entries v m)) ∧ Forall iov_wf (entries v' m) ∧ length (entries v' m) = msg_iovlen m.
Proof using.
  intros Hl Hw H0 He. cbv zeta. destruct (0 <? rest)%nat eqn:E.
  2:{ apply Nat.ltb_ge in E. assert (rest = 0%nat) as -> by lia. split_and!; [done|done|]. unfold entries. rewrite length_take, length_drop. lia. }
  apply Nat.ltb_lt in E. destruct m as [p k]. cbn [msg_iov msg_iovlen] in *. unfold entries in *. cbn [msg_iov msg_iovlen] in *.
  destruct k as [|k]; [lia|]. destruct (lookup_lt_is_Some_2 v p ltac:(lia)) as [e Ee]. specialize (He e Ee ltac:(lia)).
  rewrite (drop_alter _ v p p), decide_True, Nat.sub_diag by lia. rewrite (drop_S v e p Ee) in Hw |- *.
  cbn [alter list_alter take] in Hw |- *. set (t := take k _) in *. apply list.Forall_cons in Hw as [Hwe Hw].
  set (e' := mkIov _ _). assert (iov_data e' = drop rest (iov_data e)) as Hd.
  { subst e'. unfold iov_data. cbn. destruct (iov_base e) as [b|]; cbn; [by rewrite take_drop_commute, Nat.add_sub_assoc, Nat.add_comm, Nat.add_sub by lia|].
    by rewrite drop_replicate. }
  change (e' :: t) with ([e'] ++ t). change (e :: t) with ([e] ++ t). rewrite !flat_app, !flat_one, Hd. unfold iov_wf in Hwe. split_and!.
  - by rewrite drop_app_le by lia.
  - constructor; [|done]. unfold iov_wf. rewrite Hd, length_drop, Hwe. done.
  - cbn. subst t. rewrite length_take, length_drop. lia.
Qed.

(** The first message that has something to send. *)
Definition current (gs : list (list iovec)) : list (list iovec) := match gs with [] :: gs => gs | _ => gs end.

Lemma stream_current gs : stream (current gs) = stream gs.
Proof using. by destruct gs as [|[|??] ?]. Qed.

Lemma current_filled gs : left_to_send gs → Forall filled (current gs).
Proof using. destruct gs as [|[|e g] gs]; cbn; try done; [by intros [_ ?]|]. intros [[?|?] ?]; [done|]. by constructor. Qed.

(** What [transmit] decides first. *)
Definition curr_of (c : outgoing) : nat :=
  if (msgcurr c <? msgused c)%nat && match msglist c !! msgcurr c with Some m => (msg_iovlen m =? 0)%nat | None => false end
  then S (msgcurr c) else msgcurr c.

Lemma curr_spans c gs : sending c gs → spans (iov c) 0 (drop (curr_of c) (take (msgused c) (msglist c))) (current gs).
Proof using.
  intros [Hu Hs _]. unfold curr_of. destruct (msgcurr c <? msgused c)%nat eqn:E; cbn [andb].
  - apply Nat.ltb_lt in E. destruct (lookup_lt_is_Some_2 (msglist c) (msgcurr c) ltac:(lia)) as [m Em]. rewrite Em.
    assert (take (msgused c) (msglist c) !! msgcurr c = Some m) as Et by (by rewrite lookup_take_lt).
    rewrite (drop_S _ m _ Et) in Hs. destruct gs as [|g gs]; [done|]. cbn [spans] in Hs. destruct Hs as (H1 & H2 & H3 & H4). rewrite H2.
    destruct g as [|e g]; cbn; [by eapply spans_weaken; [|exact H4]; lia|]. rewrite (drop_S _ m _ Et). cbn [spans]. split_and!; done.
  - apply Nat.ltb_ge in E. rewrite drop_ge in Hs |- * by (rewrite length_take; lia). by destruct gs.
Qed.

(** What a call of [transmit] does, by its result. *)
Definition transmitted (event_ok : bool) (r : send_answer) (res : transmit_result) (out : bytes) (gs gs' : list (list iovec)) : Prop :=
  match res with
  | TRANSMIT_COMPLETE => gs' = [] ∧ out = []
  | TRANSMIT_INCOMPLETE => out ≠ []
  | TRANSMIT_SOFT_ERROR => out = [] ∧ r = SendAgain
  | TRANSMIT_HARD_ERROR => out = [] ∧ (r = SendError ∨ r = Sent 0 ∨ r = SendAgain ∧ event_ok = false)
  end.

(** Part of a message is sent. *)
Lemma partly_sent v l (curr used : nat) m g gs n : (used ≤ length l)%nat → drop curr (take used l) = m :: drop (S curr) (take used l) →
  spans v 0 (m :: drop (S curr) (take used l)) (g :: gs) → filled g → (0 < n ≤ length (flat g))%nat →
  let '(m', rest) := skip_sent (msg_iovlen m) (msg_iov m) v n in
  let v' := if (0 <? rest)%nat then alter (λ e, mkIov (drop rest <$> iov_base e) (iov_len e - rest)) (msg_iov m') v else v in
  ∃ g', spans v' 0 (drop curr (take used (<[curr := m']> l))) (g' :: gs) ∧ flat g' = drop n (flat g) ∧ (g' = [] ∨ filled g').
Proof using.
  intros Hu Hd (_ & Hlg & He & Hs) [[Hl Hw] Hf] Hn. destruct (skip_sent _ _ v n) as [m' rest] eqn:E. cbv zeta.
  assert (msg_iovlen m ≤ length v - msg_iov m)%nat as Hk.
  { pose proof (f_equal length He) as H. unfold entries in H. rewrite length_take, length_drop in H. lia. }
  rewrite <- He in Hw, Hn. destruct (skip_sent_ok v _ _ n m' rest E Hk Hw ltac:(exact (proj2 Hn))) as (H1 & H2 & H3 & H4 & H5 & H6).
  destruct (cut_entry v m' rest) as (C1 & C2 & C3); [lia|done|done|done|]. set (v' := if (0 <? rest)%nat then _ else v) in *.
  exists (entries v' m').
  assert (curr < length (take used l))%nat as Hc.
  { apply Nat.nle_gt. intros H. rewrite drop_ge in Hd by done. done. }
  rewrite length_take in Hc.
  assert (drop curr (take used (<[curr:=m']> l)) = m' :: drop (S curr) (take used l)) as ->.
  { rewrite take_insert_lt by lia. rewrite (drop_S _ m' curr) by (apply list_lookup_insert_eq; rewrite length_take; lia).
    by rewrite drop_insert_lt by lia. }
  split_and!.
  - cbn [spans]. split_and!; [lia|done|done|]. replace (msg_iov m' + msg_iovlen m')%nat with (msg_iov m + msg_iovlen m)%nat by lia.
    subst v'. destruct (0 <? rest)%nat eqn:Er; [|done]. apply Nat.ltb_lt in Er. apply spans_alter; [|done].
    assert (msg_iovlen m' ≠ 0%nat) by (intros H0; specialize (H3 H0); lia). lia.
  - rewrite C1, H5, <- He. done.
  - destruct (decide (msg_iovlen m' = 0%nat)) as [Z0|Hz]; [left; apply length_zero_iff_nil; lia|right].
    split; [split; [lia|done]|]. intros H0. apply (f_equal length) in H0. rewrite flat_length in H0 by done.
    destruct (entries v' m') as [|e es] eqn:Ee; [cbn in C3; lia|].
    rewrite <- flat_length, C1 in H0 by done. rewrite length_drop in H0.
    destruct (lookup_lt_is_Some_2 v (msg_iov m') ltac:(lia)) as [e0 Ee0]. specialize (H4 e0 Ee0 ltac:(lia)).
    unfold entries in H0, H6. destruct (msg_iovlen m') as [|k]; [done|]. rewrite (drop_S v e0 _ Ee0) in H0, H6. cbn [take] in H0, H6.
    apply list.Forall_cons in H6 as [H6 H6']. change (e0 :: ?l) with ([e0] ++ l) in H0. rewrite flat_app, flat_one, length_app in H0.
    unfold iov_wf in H6. cbn in H0. lia.
Qed.

(** A call of [transmit] sends the next bytes of what is left, in order, and keeps the rest. *)
Lemma transmit_ok ev r c gs : sending c gs → left_to_send gs →
  ∃ res out c' gs', transmit ev r c = Answer (res, out, c') ∧ sending c' gs' ∧ left_to_send gs' ∧
    out ++ stream gs' = stream gs ∧ transmitted ev r res out gs gs'.
Proof using.
  intros HS HL. pose proof (curr_spans c gs HS) as Hs. pose proof (current_filled gs HL) as Hf. destruct HS as [Hu Hs0 Ha].
  unfold transmit. fold (curr_of c). rewrite <- (stream_current gs). set (gs1 := current gs) in *. clearbody gs1.
  destruct (_ && (_ <=? _)%nat) eqn:Ex.
  { apply andb_true_iff in Ex as [E1%Nat.ltb_lt E2%Nat.leb_le]. lia. }
  assert (∀ res, transmitted ev r res [] gs gs1 → ∃ res' out c' gs', Answer (res, [], mkOut (iov c) (iovused c) (msglist c) (msgused c) (curr_of c) (msgbytes c) (hdrsize c) (allocs c)) =
    Answer (res', out, c') ∧ sending c' gs' ∧ left_to_send gs' ∧ out ++ stream gs' = stream gs1 ∧ transmitted ev r res' out gs gs') as Hstay.
  { intros res Hres. eexists res, [], _, gs1. split_and!; [done|by split|by apply sendable_left; right|done|done]. }
  destruct (curr_of c <? msgused c)%nat eqn:Ec.
  2:{ apply Nat.ltb_ge in Ec. apply Hstay. rewrite drop_ge in Hs by (rewrite length_take; lia). by destruct gs1. }
  apply Nat.ltb_lt in Ec. destruct (lookup_lt_is_Some_2 (msglist c) (curr_of c) ltac:(lia)) as [m Em]. rewrite Em.
  assert (drop (curr_of c) (take (msgused c) (msglist c)) = m :: drop (S (curr_of c)) (take (msgused c) (msglist c))) as Hd.
  { apply drop_S. by rewrite lookup_take_lt. }
  rewrite Hd in Hs. destruct gs1 as [|g gs1]; [done|]. apply list.Forall_cons in Hf as [Hfg Hf].
  assert (entries (iov c) m = g) as Hg by apply Hs. rewrite Hg.
  destruct r as [n| |]; [|apply Hstay; destruct ev; cbn; auto|apply Hstay; cbn; auto].
  assert (0 < length (flat g))%nat as Hpos by (destruct Hfg as [_ Hfg]; destruct (flat g); [done|cbn; lia]).
  destruct (Nat.min n (length (flat g)) =? 0)%nat eqn:En.
  { apply Nat.eqb_eq in En. apply Hstay. cbn. split; [done|]. right. left. f_equal. lia. }
  apply Nat.eqb_neq in En. set (k := Nat.min n (length (flat g))) in *.
  pose proof (partly_sent (iov c) (msglist c) (curr_of c) (msgused c) m g gs1 k Hu Hd Hs Hfg ltac:(lia)) as HP.
  destruct (skip_sent _ _ (iov c) k) as [m' rest]. destruct HP as (g' & Hs' & Hfl & Hf').
  eexists _, _, _, (g' :: gs1). split_and!; [done| |by split| |].
  - split; cbn [iov msglist msgused msgcurr]; [by rewrite length_insert|done|]. destruct Ha. split; cbn [iov msglist]; [|by rewrite length_insert].
    destruct (0 <? rest)%nat; [by rewrite length_alter|done].
  - unfold stream. cbn [concat]. rewrite !flat_app, Hfl, app_assoc, take_drop. done.
  - cbn. intros H. apply (f_equal length) in H. rewrite length_take in H. cbn in H. lia.
Qed.
End Out.
