(* ===== verification/Drive.v ===== *)
(** The state machine of a client's connection: [drive_machine] of [extra/KVS-DRAM-Cache/memcached.c], with
    [try_read_network], [try_read_command], [reset_cmd_handler], [conn_shrink], [conn_release_items] and [conn_close].

    The connection speaks the text protocol over TCP, and its items have one chunk.  What the commands do
    is an interface.  The network is what the calls of [read] and [sendmsg] answer. *)

From stdpp Require Import strings.
From S2P Require Import Prelude Itoa Util Tokenize CacheApi Command ConnOut.

(** ** The data *)

(** What the machine asks of the commands.  [svc_line]: [process_command] on a line: the connection
    and the pieces of an answer that are added with [add_iov].  [svc_put]: bytes arrive in the data of an item. *)
Class Service := {
  svc : Type;
  svc_line : bytes → conn → svc → answer (conn * list bytes * svc);
  svc_complete : conn → svc → answer (conn * svc);
  svc_put : Z → nat → bytes → svc → svc;
  (** [item_remove(c->item)]; the items and suffixes of the answer that [conn_release_items] gives back *)
  svc_remove : Z → svc → answer svc;
  svc_release : svc → answer svc
}.

Inductive try_read_result := READ_DATA_RECEIVED | READ_NO_DATA_RECEIVED | READ_ERROR | READ_MEMORY_ERROR.

Definition DATA_BUFFER_SIZE : nat := 2048.
Definition READ_BUFFER_HIGHWAT : nat := 8192.
Definition MSG_LIST_HIGHWAT : nat := 100.
Definition MSG_LIST_INITIAL : nat := 10.
Definition IOV_LIST_HIGHWAT : nat := 600.
Definition IOV_LIST_INITIAL : nat := 400.

(** What a call of [read] answers: bytes, as many as there is room for; it would block; the
    end of the stream; another error. *)
Inductive read_answer := Got (b : bytes) | ReadAgain | ReadEof | ReadError.

(** The answers to come of [read], [sendmsg], [update_event] and [realloc], and the bytes that the socket has taken.
    Nothing comes after the last answer of [read]; the events and the memory are there. *)
Record net := mkNet {
  reads : list read_answer;
  sends : list send_answer;
  events : list bool;
  memory_left : list bool;
  sent : bytes
}.

Section Drive.
Context {V : Service} (granted : nat → bool).

(** [rsize] is the length of [rbuf], [rcurr] an index in it, and [ritem] one in the data of the item. *)
Record machine := mkMachine {
  m_conn : conn;
  rbuf : bytes;
  rcurr : nat;
  rbytes : nat;
  ritem : nat;
  m_out : outgoing;
  m_svc : svc
}.

Definition set_conn (c : conn) (m : machine) : machine :=
  mkMachine c (rbuf m) (rcurr m) (rbytes m) (ritem m) (m_out m) (m_svc m).
Definition to_state (x : conn_states) (m : machine) : machine := set_conn (set_state x (m_conn m)) m.
Definition set_out (o : outgoing) (m : machine) : machine :=
  mkMachine (m_conn m) (rbuf m) (rcurr m) (rbytes m) (ritem m) o (m_svc m).
(** [n] bytes of the buffer are used. *)
Definition used (n : nat) (m : machine) : machine :=
  mkMachine (m_conn m) (rbuf m) (rcurr m + n) (rbytes m - n) (ritem m) (m_out m) (m_svc m).

(** The bytes that are read and not used yet. *)
Definition window (m : machine) : bytes := take (rbytes m) (drop (rcurr m) (rbuf m)).

(** ** The system calls *)

Definition read (n : nat) (w : net) : read_answer * net :=
  let next a l := (a, mkNet l (sends w) (events w) (memory_left w) (sent w)) in
  match reads w with
  | [] => (ReadAgain, w)
  | Got b :: l => if (length b <=? n)%nat then next (Got b) l else next (Got (take n b)) (Got (drop n b) :: l)
  | a :: l => next a l
  end.

Definition update_event (w : net) : bool * net :=
  match events w with [] => (true, w) | b :: l => (b, mkNet (reads w) (sends w) l (memory_left w) (sent w)) end.

Definition realloc (w : net) : bool * net :=
  match memory_left w with [] => (true, w) | b :: l => (b, mkNet (reads w) (sends w) (events w) l (sent w)) end.

(** [update_event] in the states that wait; without it the connection is closed. *)
Definition waiting (m : machine) (w : net) : bool * machine * net :=
  let '(ok, w) := update_event w in if ok then (true, m, w) else (false, to_state conn_closing m, w).

(** ** Reading *)

(** [out_string] on the connection *)
Definition out_conn (str : bytes) (c : conn) : conn :=
  if noreply c then set_state conn_new_cmd (set_noreply false c)
  else
    let str := if (wsize c <? length str + 2)%nat then too_long else str in
    set_write_and_go conn_new_cmd (set_state conn_write (set_wbuf (str ++ crlf true) c)).

(** The answer starts afresh, with one message. *)
Definition new_answer (o : outgoing) : outgoing := (new_msghdr granted (fresh_out o)).2.

Definition set_read (b : bytes) (curr n : nat) (m : machine) : machine :=
  mkMachine (m_conn m) b curr n (ritem m) (m_out m) (m_svc m).

(** The fragment of a command goes to the start of the buffer. *)
Definition moved (m : machine) : machine :=
  if (rcurr m =? 0)%nat then m else set_read (window m ++ drop (rbytes m) (rbuf m)) 0 (rbytes m) m.

(** One [read] into the rest of the buffer, which goes on with [more] when that is full. *)
Definition read_more (more : machine → net → try_read_result * machine * net) (gotdata : try_read_result) (m : machine) (w : net) :
    try_read_result * machine * net :=
  let avail := (length (rbuf m) - rbytes m)%nat in
  match read avail w with
  | (Got b, w) =>
      if (length b =? 0)%nat then (READ_ERROR, m, w)
      else
        let m := set_read (take (rbytes m) (rbuf m) ++ b ++ drop (rbytes m + length b) (rbuf m)) (rcurr m) (rbytes m + length b) m in
        if (length b =? avail)%nat then more m w else (READ_DATA_RECEIVED, m, w)
  | (ReadAgain, w) => (gotdata, m, w)
  | (ReadEof, w) | (ReadError, w) => (READ_ERROR, m, w)
  end.

(** The loop when the buffer is full, with [k] allocations to go. *)
Fixpoint read_full (k : nat) (gotdata : try_read_result) (m : machine) (w : net) : try_read_result * machine * net :=
  match k with
  | O => (gotdata, m, w)
  | S k =>
      let '(ok, w) := realloc w in
      if ok then
        read_more (read_full k READ_DATA_RECEIVED) gotdata
          (set_read (rbuf m ++ replicate (length (rbuf m)) 0) 0 (rbytes m) m) w
      else
        let c := set_write_and_go conn_closing (out_conn (chars "SERVER_ERROR out of memory reading request") (m_conn m)) in
        (READ_MEMORY_ERROR, set_out (if noreply (m_conn m) then m_out m else new_answer (m_out m)) (set_conn c (set_read (rbuf m) (rcurr m) 0 m)), w)
  end.

Definition try_read_network (m : machine) (w : net) : try_read_result * machine * net :=
  let m := moved m in
  if (length (rbuf m) <=? rbytes m)%nat then read_full 4 READ_NO_DATA_RECEIVED m w
  else read_more (read_full 4 READ_DATA_RECEIVED) READ_NO_DATA_RECEIVED m w.

(** [try_read_udp]: a datagram arrives, as much of it as there is room for; the number of the request is kept. *)
Definition try_read_udp (datagram : bytes) (request_id : Z) (m : machine) : try_read_result * Z * machine :=
  let res := Nat.min (length datagram) (length (rbuf m)) in
  let buf := take res datagram ++ drop res (rbuf m) in
  if (8 <? res)%nat then
    let id := at_ buf 0 * 256 + at_ buf 1 in
    if negb (at_ buf 4 =? 0) || negb (at_ buf 5 =? 1) then
      let c := out_conn (chars "SERVER_ERROR multi-packet request not supported") (m_conn m) in
      let o := match add_msghdr true granted 1 (fresh_out (m_out m)) with Answer (_, o) => o | _ => m_out m end in
      (READ_NO_DATA_RECEIVED, id, set_out (if noreply (m_conn m) then m_out m else o) (set_conn c (set_read buf (rcurr m) (rbytes m) m)))
    else
      (READ_DATA_RECEIVED, id, set_read (take (res - 8) (drop 8 buf) ++ drop (res - 8) buf) 0 (res - 8) m)
  else (READ_NO_DATA_RECEIVED, request_id, set_read buf (rcurr m) (rbytes m) m).

(** What [drive_machine] does with the result of reading. *)
Definition read_done (res : try_read_result) (m : machine) : machine :=
  match res with
  | READ_NO_DATA_RECEIVED => to_state conn_waiting m
  | READ_DATA_RECEIVED => to_state conn_parse_cmd m
  | READ_ERROR => to_state conn_closing m
  | READ_MEMORY_ERROR => m
  end.

(** *** A line *)

(** [memchr(b, '\n', ...)] *)
Fixpoint find_nl (b : bytes) : option nat :=
  match b with [] => None | x :: b => if x =? 10 then Some 0%nat else S <$> find_nl b end.

(** [strncmp] of the memory with a string, which it may read past its end. *)
Fixpoint strncmp (b s : bytes) : answer bool :=
  match s, b with
  | [], _ => Answer true
  | _, [] => Assertion
  | x :: s, y :: b => if x =? y then strncmp b s else Answer false
  end.

Fixpoint spaces (b : bytes) : nat := match b with x :: b => if x =? 32 then S (spaces b) else 0%nat | [] => 0%nat end.

(** More than a kilobyte and no end of the line: is it a [get]?  [b] is the buffer from [rcurr] on. *)
Definition long_get (b : bytes) : answer bool :=
  let n := spaces b in
  if (length b <=? n)%nat then Assertion
  else if (100 <? n)%nat then Answer false
  else
    g ← strncmp (drop n b) (chars "get ");
    if g : bool then Answer true else strncmp (drop n b) (chars "gets ").

(** The line is cut before its end, and before a carriage return there. *)
Definition line_of (l : bytes) : bytes :=
  cstr (if (1 <? length l)%nat && (at_ l (length l - 1) =? 13) then take (length l - 1) l else l) 0.

(** The pieces of the answer, those that the command found memory for.  Only [out_string] goes to [conn_write],
    and it starts afresh. *)
Definition answer_out (c : conn) (pieces : list bytes) (o : outgoing) : answer outgoing :=
  match state c with
  | conn_write => Answer (new_answer o)
  | _ => '(ok, o) ← add_iovs false granted 0 pieces (new_answer o); if ok : bool then Answer o else Never
  end.

(** [try_read_command]: whether it had what it needs.  The [assert]s come first. *)
Definition try_read_command (m : machine) : answer (bool * machine) :=
  if (rbytes m =? 0)%nat || (length (rbuf m) <? rcurr m)%nat then Assertion else
  match find_nl (window m) with
  | None =>
      if (1024 <? rbytes m)%nat then
        g ← long_get (drop (rcurr m) (rbuf m));
        if g : bool then Answer (false, m) else Answer (true, to_state conn_closing m)
      else Answer (false, m)
  | Some i =>
      '(c, pieces, v) ← svc_line (line_of (take i (window m))) (m_conn m) (m_svc m);
      o ← answer_out c pieces (m_out m);
      let m' := mkMachine c (rbuf m) (rcurr m) (rbytes m) (match state c with conn_nread => 0%nat | _ => ritem m end) o v in
      Answer (true, used (S i) m')
  end.

(** ** Between commands *)

(** The item that the connection still holds. *)
Definition drop_item (m : machine) : answer machine :=
  if c_item (m_conn m) =? 0 then Answer m
  else
    v ← svc_remove (c_item (m_conn m)) (m_svc m);
    Answer (mkMachine (set_c_item 0 (m_conn m)) (rbuf m) (rcurr m) (rbytes m) (ritem m) (m_out m) v).

(** [conn_shrink], without the list of items. *)
Definition shrink_read (m : machine) (w : net) : machine * net :=
  if (READ_BUFFER_HIGHWAT <? length (rbuf m))%nat && (rbytes m <? DATA_BUFFER_SIZE)%nat then
    let b := rbuf (moved m) in
    let '(ok, w) := realloc w in
    (set_read (if ok then take DATA_BUFFER_SIZE b else b) 0 (rbytes m) m, w)
  else (m, w).

Definition shrink_msgs (m : machine) (w : net) : machine * net :=
  let o := m_out m in
  if (MSG_LIST_HIGHWAT <? length (msglist o))%nat then
    let '(ok, w) := realloc w in
    (if ok then set_out (mkOut (iov o) (iovused o) (take MSG_LIST_INITIAL (msglist o)) (msgused o) (msgcurr o) (msgbytes o) (hdrsize o) (allocs o)) m
     else m, w)
  else (m, w).

Definition shrink_iov (m : machine) (w : net) : machine * net :=
  let o := m_out m in
  if (IOV_LIST_HIGHWAT <? length (iov o))%nat then
    let '(ok, w) := realloc w in
    (if ok then set_out (mkOut (take IOV_LIST_INITIAL (iov o)) (iovused o) (msglist o) (msgused o) (msgcurr o) (msgbytes o) (hdrsize o) (allocs o)) m
     else m, w)
  else (m, w).

Definition conn_shrink (m : machine) (w : net) : machine * net :=
  let '(m, w) := shrink_read m w in let '(m, w) := shrink_msgs m w in shrink_iov m w.

Definition reset_cmd_handler (m : machine) (w : net) : answer (machine * net) :=
  m ← drop_item m;
  let '(m, w) := conn_shrink m w in
  Answer (to_state (if (0 <? rbytes m)%nat then conn_parse_cmd else conn_waiting) m, w).

Definition conn_release_items (m : machine) : answer machine :=
  m ← drop_item m;
  v ← svc_release (m_svc m);
  Answer (mkMachine (m_conn m) (rbuf m) (rcurr m) (rbytes m) (ritem m) (m_out m) v).

Definition conn_close (m : machine) : answer machine :=
  m ← conn_release_items m; Answer (to_state conn_closed m).

(** ** The machine *)

(** The data of an item: what is in the buffer, then what is in the socket. *)
Definition put_item_data (b : bytes) (m : machine) : machine :=
  mkMachine (set_nread (rlbytes (m_conn m) - Z.of_nat (length b)) (cmd (m_conn m)) (m_conn m)) (rbuf m) (rcurr m) (rbytes m)
    (ritem m + length b) (m_out m) (svc_put (c_item (m_conn m)) (ritem m) b (m_svc m)).

Definition nread_step (m : machine) (w : net) : answer (bool * machine * net) :=
  let n := rlbytes (m_conn m) in
  if n =? 0 then
    '(c, v) ← svc_complete (m_conn m) (m_svc m);
    let o := match state c with conn_write => new_answer (m_out m) | _ => m_out m end in
    Answer (false, mkMachine c (rbuf m) (rcurr m) (rbytes m) (ritem m) o v, w)
  else if n <? 0 then Answer (false, to_state conn_closing m, w)
  else
    let tocopy := Nat.min (rbytes m) (Z.to_nat n) in
    let m := if (0 <? rbytes m)%nat then used tocopy (put_item_data (take tocopy (window m)) m) else m in
    if rlbytes (m_conn m) =? 0 then Answer (false, m, w)
    else
      match read (Z.to_nat (rlbytes (m_conn m))) w with
      | (Got b, w) => Answer (false, if (length b =? 0)%nat then to_state conn_closing m else put_item_data b m, w)
      | (ReadAgain, w) => Answer (waiting m w)
      | (ReadEof, w) | (ReadError, w) => Answer (false, to_state conn_closing m, w)
      end.

Definition swallow_step (m : machine) (w : net) : bool * machine * net :=
  let n := sbytes (m_conn m) in
  let swallowed k m := set_conn (set_sbytes (n - Z.of_nat k) (m_conn m)) m in
  if n <=? 0 then (false, to_state conn_new_cmd m, w)
  else if (0 <? rbytes m)%nat then
    let tocopy := Nat.min (rbytes m) (Z.to_nat n) in (false, used tocopy (swallowed tocopy m), w)
  else
    match read (Nat.min (length (rbuf m)) (Z.to_nat n)) w with
    | (Got b, w) =>
        if (length b =? 0)%nat then (false, to_state conn_closing m, w)
        else (false, swallowed (length b) (set_read (b ++ drop (length b) (rbuf m)) (rcurr m) 0 m), w)
    | (ReadAgain, w) => waiting m w
    | (ReadEof, w) | (ReadError, w) => (false, to_state conn_closing m, w)
    end.

(** The answers that [transmit] uses up, and what it has sent. *)
Definition after_transmit (r : send_answer) (res : transmit_result) (out : bytes) (w : net) : net :=
  match res with
  | TRANSMIT_COMPLETE => w
  | _ => mkNet (reads w) (drop 1 (sends w)) (match r with SendAgain => drop 1 (events w) | _ => events w end) (memory_left w) (sent w ++ out)
  end.

Definition mwrite_step (m : machine) (w : net) : answer (bool * machine * net) :=
  let r := default SendAgain (head (sends w)) in
  '(res, out, o) ← transmit (update_event w).1 r (m_out m);
  let w := after_transmit r res out w in
  let m := set_out o m in
  match res with
  | TRANSMIT_COMPLETE =>
      match state (m_conn m) with
      | conn_mwrite => m ← conn_release_items m; Answer (false, to_state conn_new_cmd m, w)
      | conn_write => Answer (false, to_state (write_and_go (m_conn m)) m, w)
      | _ => Answer (false, to_state conn_closing m, w)
      end
  | TRANSMIT_INCOMPLETE => Answer (false, m, w)
  | TRANSMIT_HARD_ERROR => Answer (false, to_state conn_closing m, w)
  | TRANSMIT_SOFT_ERROR => Answer (true, m, w)
  end.

Definition write_step (m : machine) (w : net) : answer (bool * machine * net) :=
  if (iovused (m_out m) =? 0)%nat then
    '(ok, o) ← add_iov false granted 0 (Some (wbuf (m_conn m))) (length (wbuf (m_conn m))) (m_out m);
    if ok : bool then mwrite_step (set_out o m) w else Answer (false, to_state conn_closing (set_out o m), w)
  else mwrite_step m w.

(** One turn of the loop: whether it stops, and the requests left.  A listening socket is another kind of connection;
    [abort] is an assertion that fails. *)
Definition drive_step (nreqs : nat) (m : machine) (w : net) : answer (bool * nat * machine * net) :=
  let with_nreqs '(stop, m, w) := (stop, nreqs, m, w) in
  match state (m_conn m) with
  | conn_listening => Assertion
  | conn_waiting =>
      let '(ok, m, w) := waiting m w in Answer (ok, nreqs, if ok : bool then to_state conn_read m else m, w)
  | conn_read =>
      let '(res, m, w) := try_read_network m w in
      Answer (false, nreqs, read_done res m, w)
  | conn_parse_cmd =>
      '(r, m) ← try_read_command m;
      Answer (false, nreqs, if r : bool then m else to_state conn_waiting m, w)
  | conn_new_cmd =>
      match nreqs with
      | S nreqs => '(m, w) ← reset_cmd_handler m w; Answer (false, nreqs, m, w)
      | O => if (0 <? rbytes m)%nat then Answer (with_nreqs (waiting m w)) else Answer (true, O, m, w)
      end
  | conn_nread => r ← nread_step m w; Answer (with_nreqs r)
  | conn_swallow => Answer (with_nreqs (swallow_step m w))
  | conn_write => r ← write_step m w; Answer (with_nreqs r)
  | conn_mwrite => r ← mwrite_step m w; Answer (with_nreqs r)
  | conn_closing => m ← conn_close m; Answer (true, nreqs, m, w)
  | conn_closed => Assertion
  | conn_watch => Answer (true, nreqs, m, w)
  end.

Fixpoint drive_loop (fuel nreqs : nat) (m : machine) (w : net) : answer (machine * net) :=
  match fuel with
  | O => Never
  | S fuel =>
      '(stop, nreqs, m, w) ← drive_step nreqs m w;
      if stop : bool then Answer (m, w) else drive_loop fuel nreqs m w
  end.

(** [drive_machine(c)]; [reqs_per_event]: the setting. *)
Definition drive_machine (fuel reqs_per_event : nat) (m : machine) (w : net) : answer (machine * net) :=
  drive_loop fuel reqs_per_event m w.

(** [k] events on the connection; a closed one has none. *)
Fixpoint event_loop (k fuel reqs : nat) (m : machine) (w : net) : answer (machine * net) :=
  match k, state (m_conn m) with
  | O, _ | _, conn_closed => Answer (m, w)
  | S k, _ => '(m, w) ← drive_machine fuel reqs m w; event_loop k fuel reqs m w
  end.
End Drive.
