(* ===== verification/DriveSpec.v ===== *)
(** What a connection does, without buffers and without the network: a session that is given all the bytes of the
    client at once.  The state machine of [Drive] refines it, however the bytes are cut into
    reads and the answers into writes. *)

From stdpp Require Import strings relations.
From S2P Require Import Prelude Itoa Util Tokenize CacheApi Command ConnOut Drive.

(** Where a connection goes after a command: it has an answer, or goes on with another part of the session. *)
Definition goes_on (x : conn_states) : Prop := x = conn_new_cmd ∨ x = conn_swallow ∨ x = conn_closing.
Definition command_done (c : conn) : Prop :=
  match state c with
  | conn_write => wbuf c ≠ [] ∧ goes_on (write_and_go c)
  | conn_listening | conn_waiting | conn_read | conn_closed => False
  | _ => True
  end.

(** What the machine relies on: the data of an item can arrive in parts; no piece of an answer is empty. *)
Class ServiceLaws (V : Service) := {
  put_more : ∀ it o x y l v, svc_put it o (x :: y :: l) v = svc_put it (S o) (y :: l) (svc_put it o [x] v);
  line_done : ∀ l c v c' ps v', state c = conn_parse_cmd → svc_line l c v = Answer (c', ps, v') → Forall (λ b, b ≠ []) ps ∧ command_done c';
  complete_done : ∀ c v c' v', svc_complete c v = Answer (c', v') → (state c' ≠ conn_mwrite ∧ state c' ≠ conn_nread) ∧ command_done c'
}.

Section Session.
Context {V : Service}.

(** ** Sessions *)

(** [s_in]: the bytes of the client that are not used yet; [s_out]: all that is answered. *)
Record session := mkSession { s_conn : conn; s_in : bytes; s_off : nat; s_svc : svc; s_out : bytes }.

Definition in_state (x : conn_states) (a : session) : session :=
  mkSession (set_state x (s_conn a)) (s_in a) (s_off a) (s_svc a) (s_out a).

(** The answer of a command. *)
Definition answers (c : conn) (pieces : list bytes) : bytes :=
  match state c with conn_write => wbuf c | conn_mwrite => concat pieces | _ => [] end.

Definition no_item (a : session) : answer session :=
  if c_item (s_conn a) =? 0 then Answer a
  else v ← svc_remove (c_item (s_conn a)) (s_svc a);
       Answer (mkSession (set_c_item 0 (s_conn a)) (s_in a) (s_off a) v (s_out a)).

Definition released (a : session) : answer session :=
  a ← no_item a; v ← svc_release (s_svc a); Answer (mkSession (s_conn a) (s_in a) (s_off a) v (s_out a)).

(** What the session does next, if it has the bytes for it. *)
Definition next (a : session) : option (answer session) :=
  let c := s_conn a in
  match state c with
  | conn_new_cmd => Some (a ← no_item a; Answer (in_state conn_parse_cmd a))
  | conn_parse_cmd =>
      i ← find_nl (s_in a);
      Some ('(c, ps, v) ← svc_line (line_of (take i (s_in a))) c (s_svc a);
            Answer (mkSession c (drop (S i) (s_in a)) (match state c with conn_nread => 0%nat | _ => s_off a end) v
                      (s_out a ++ answers c ps)))
  | conn_write => Some (Answer (in_state (write_and_go c) a))
  | conn_mwrite => Some (a ← released a; Answer (in_state conn_new_cmd a))
  | conn_nread =>
      if rlbytes c =? 0 then
        Some ('(c, v) ← svc_complete c (s_svc a); Answer (mkSession c (s_in a) (s_off a) v (s_out a ++ answers c [])))
      else if rlbytes c <? 0 then Some (Answer (in_state conn_closing a))
      else
        match s_in a with
        | [] => None
        | x :: l =>
            Some (Answer (mkSession (set_nread (rlbytes c - 1) (cmd c) c) l (S (s_off a)) (svc_put (c_item c) (s_off a) [x] (s_svc a)) (s_out a)))
        end
  | conn_swallow =>
      if sbytes c <=? 0 then Some (Answer (in_state conn_new_cmd a))
      else
        match s_in a with
        | [] => None
        | x :: l => Some (Answer (mkSession (set_sbytes (sbytes c - 1) c) l (s_off a) (s_svc a) (s_out a)))
        end
  | conn_closing => Some (a ← released a; Answer (in_state conn_closed a))
  | _ => None
  end.

Definition astep (a a' : session) : Prop := next a = Some (Answer a').

Lemma astep_det a a1 a2 : astep a a1 → astep a a2 → a1 = a2.
Proof using. unfold astep. congruence. Qed.

(** The session has done all it can. *)
Lemma rest_unique a a1 a2 : rtc astep a a1 → rtc astep a a2 → next a1 = None → next a2 = None → a1 = a2.
Proof using.
  induction 1 as [a|a b a1 Hab _ IH]; intros H2 N1 N2.
  - inversion H2 as [|? ? ? H]; [done|]. unfold astep in H. congruence.
  - inversion H2 as [|? b' ? Hab']; subst; [unfold astep in Hab; congruence|].
    apply IH; [|done..]. by rewrite (astep_det _ _ _ Hab Hab').
Qed.

(** A line that goes on for more than a kilobyte, and is no [get]: whether the connection survives it is up to
    the network. *)
Definition is_get (b : bytes) : bool :=
  let n := spaces b in
  (n <=? 100)%nat && (bool_decide (take 4 (drop n b) = chars "get ") || bool_decide (take 5 (drop n b) = chars "gets ")).
Definition too_long_line (a : session) : Prop :=
  state (s_conn a) = conn_parse_cmd ∧ (1024 < length (s_in a))%nat ∧ is_get (s_in a) = false ∧
  ∀ i, find_nl (s_in a) = Some i → (1024 < i)%nat.

(** ** The session of a machine *)

(** The bytes to come, up to an end of the stream. *)
Fixpoint incoming (l : list read_answer) : bytes :=
  match l with
  | Got [] :: _ => []
  | Got b :: l => b ++ incoming l
  | ReadAgain :: l => incoming l
  | _ => []
  end.

(** The bytes that all the answers of [read] hold. *)
Fixpoint to_come (l : list read_answer) : nat :=
  match l with [] => 0%nat | Got b :: l => (length b + to_come l)%nat | _ :: l => to_come l end.

(** What is left to send, once it is in the messages. *)
Definition unsent (o : outgoing) : bytes :=
  concat ((λ m, flat (entries (iov o) m)) <$> drop (msgcurr o) (take (msgused o) (msglist o))).

Definition remaining (m : machine) : bytes :=
  match state (m_conn m) with
  | conn_write => if (iovused (m_out m) =? 0)%nat then wbuf (m_conn m) else unsent (m_out m)
  | conn_mwrite => unsent (m_out m)
  | _ => []
  end.

(** Waiting and reading is part of parsing. *)
Definition norm (c : conn) : conn :=
  match state c with conn_waiting | conn_read => set_state conn_parse_cmd c | _ => c end.

Definition session_of (m : machine) (w : net) : session :=
  mkSession (norm (m_conn m)) (window m ++ incoming (reads w)) (ritem m) (m_svc m) (sent w ++ remaining m).

(** *** The invariant of the machine *)

Definition out_ready (m : machine) : Prop :=
  match state (m_conn m) with
  | conn_write => goes_on (write_and_go (m_conn m)) ∧
      if (iovused (m_out m) =? 0)%nat then open_view (m_out m) [[]] ∧ wbuf (m_conn m) ≠ []
      else ∃ gs, sending (m_out m) gs ∧ left_to_send gs
  | conn_mwrite => ∃ gs, sending (m_out m) gs ∧ left_to_send gs
  | _ => True
  end.

Record machine_ok (m : machine) : Prop := {
  mo_window : (rcurr m + rbytes m ≤ length (rbuf m))%nat;
  mo_rbuf : (0 < length (rbuf m))%nat;
  mo_arrays : has_arrays (m_out m);
  mo_out : out_ready m
}.

(** The network answers without errors; the memory is there. *)
Definition smooth (w : net) : Prop :=
  Forall (λ r, match r with Got b => b ≠ [] | ReadAgain => True | _ => False end) (reads w) ∧
  Forall (λ r, match r with Sent n => n ≠ 0%nat | SendAgain => True | SendError => False end) (sends w) ∧
  Forall (λ b, b = true) (events w).
Definition roomy (w : net) : Prop := Forall (λ b, b = true) (memory_left w).

(** ** The system calls *)

Lemma window_length m : machine_ok m → length (window m) = rbytes m.
Proof using. intros [H _ _ _]. unfold window. rewrite length_take, length_drop. lia. Qed.

Lemma read_ok n w a w' : (0 < n)%nat → read n w = (a, w') →
  sends w' = sends w ∧ events w' = events w ∧ memory_left w' = memory_left w ∧ sent w' = sent w ∧ (smooth w → smooth w') ∧
  match a with
  | Got [] => ¬ smooth w
  | Got b => (length b ≤ n)%nat ∧ incoming (reads w) = b ++ incoming (reads w')
  | ReadAgain => incoming (reads w') = incoming (reads w)
  | _ => ¬ smooth w
  end.
Proof using.
  intros Hn. unfold read, smooth. destruct (reads w) as [|[b| | |] l] eqn:E.
  - intros [= <- <-]. by rewrite E.
  - destruct (length b <=? n)%nat eqn:El; intros [= <- <-]; cbn.
    + apply Nat.leb_le in El. split_and!; try done; [by intros [[_ ?]%list.Forall_cons ?]|].
      destruct b as [|x b]; [|done]. by intros [[? _]%list.Forall_cons _].
    + apply Nat.leb_gt in El. assert (drop n b ≠ []) as Hd.
      { intros H. apply (f_equal length) in H. rewrite length_drop in H. cbn in H. lia. }
      split_and!; try done.
      * intros [[_ ?]%list.Forall_cons ?]. split; [by constructor|done].
      * destruct (take n b) as [|x b'] eqn:Et.
        { apply (f_equal length) in Et. rewrite length_take in Et. cbn in Et. lia. }
        split; [rewrite <- Et, length_take; lia|]. destruct b as [|y b]; [by rewrite take_nil in Et|].
        destruct (drop n (y :: b)) as [|z d] eqn:Ed; [done|]. by rewrite app_assoc, <- Et, <- Ed, take_drop.
  - intros [= <- <-]. cbn. split_and!; try done. by intros [[_ ?]%list.Forall_cons ?].
  - intros [= <- <-]. cbn. split_and!; try done; [by intros [[_ ?]%list.Forall_cons ?]|by intros [[? _]%list.Forall_cons _]].
  - intros [= <- <-]. cbn. split_and!; try done; [by intros [[_ ?]%list.Forall_cons ?]|by intros [[? _]%list.Forall_cons _]].
Qed.

Lemma read_size n w a w' : read n w = (a, w') →
  to_come (reads w) = (match a with Got b => length b | _ => 0 end + to_come (reads w'))%nat.
Proof using.
  unfold read. destruct (reads w) as [|[b| | |] l] eqn:E; try (intros [= <- <-]; cbn; by rewrite ?E).
  destruct (length b <=? n)%nat eqn:El; intros [= <- <-]; cbn; [done|]. rewrite length_take, length_drop. lia.
Qed.

Lemma update_event_ok w ok w' : update_event w = (ok, w') →
  reads w' = reads w ∧ sends w' = sends w ∧ memory_left w' = memory_left w ∧ sent w' = sent w ∧ (smooth w → smooth w') ∧ (smooth w → ok = true).
Proof using.
  unfold update_event, smooth. destruct (events w) as [|b l] eqn:E; intros [= <- <-]; cbn; rewrite ?E; split_and!; try done.
  - by intros (? & ? & [_ ?]%list.Forall_cons).
  - by intros (? & ? & [? _]%list.Forall_cons).
Qed.

Lemma realloc_ok w ok w' : roomy w → realloc w = (ok, w') →
  ok = true ∧ reads w' = reads w ∧ sends w' = sends w ∧ events w' = events w ∧ sent w' = sent w ∧ roomy w'.
Proof using.
  unfold realloc, roomy. destruct (memory_left w) as [|b l] eqn:E; intros H [= <- <-]; cbn; rewrite ?E; [done|].
  apply list.Forall_cons in H as [-> ?]. done.
Qed.

(** ** Reading *)

Definition same_rest (m m' : machine) : Prop :=
  m_conn m' = m_conn m ∧ ritem m' = ritem m ∧ m_out m' = m_out m ∧ m_svc m' = m_svc m.
Definition buffer_ok (m : machine) : Prop := (rcurr m + rbytes m ≤ length (rbuf m))%nat ∧ (0 < length (rbuf m))%nat.
Definition same_net (w w' : net) : Prop := sends w' = sends w ∧ events w' = events w ∧ sent w' = sent w.

(** What a part of [try_read_network] has done. *)
Record reading (m : machine) (w : net) (res : try_read_result) (m' : machine) (w' : net) : Prop := {
  rd_rest : same_rest m m';
  rd_buffer : buffer_ok m' ∧ rcurr m' = 0%nat;
  rd_net : same_net w w' ∧ roomy w' ∧ (smooth w → smooth w');
  rd_bytes : res ≠ READ_ERROR → window m' ++ incoming (reads w') = window m ++ incoming (reads w);
  rd_res : res ≠ READ_MEMORY_ERROR ∧ (res = READ_ERROR → ¬ smooth w);
  rd_size : (rbytes m' + to_come (reads w') = rbytes m + to_come (reads w))%nat
}.

Lemma reading_trans m w m1 w1 res m' w' : reading m w READ_DATA_RECEIVED m1 w1 → reading m1 w1 res m' w' → reading m w res m' w'.
Proof using.
  intros [(? & ? & ? & ?) ? ((? & ? & ?) & ? & ?) Hb ? ?] [(? & ? & ? & ?) ? ((? & ? & ?) & ? & ?) Hb' [? ?] ?].
  split; [unfold same_rest; split_and!; congruence|done| | |naive_solver|lia].
  - split_and!; [unfold same_net; split_and!; congruence|done|by auto].
  - intros Hne. by rewrite Hb', Hb.
Qed.

Lemma window_start m : rcurr m = 0%nat → window m = take (rbytes m) (rbuf m).
Proof using. intros H. unfold window. by rewrite H, drop_0. Qed.

Lemma read_more_ok more gotdata m w res m' w' : gotdata ≠ READ_MEMORY_ERROR → gotdata ≠ READ_ERROR →
  (∀ m w res m' w', buffer_ok m → rcurr m = 0%nat → roomy w → more m w = (res, m', w') → reading m w res m' w') →
  buffer_ok m → rcurr m = 0%nat → (rbytes m < length (rbuf m))%nat → roomy w →
  read_more more gotdata m w = (res, m', w') → reading m w res m' w'.
Proof using.
  intros Hg1 Hg2 Hmore Hb Hc Hr Hroom. unfold read_more. destruct (read _ w) as [a w1] eqn:E.
  destruct (read_ok (length (rbuf m) - rbytes m) w a w1 ltac:(lia) E) as (H1 & H2 & H3 & H4 & H5 & H6).
  assert (same_net w w1 ∧ roomy w1 ∧ (smooth w → smooth w1)) as Hn by (unfold roomy; rewrite H3; done).
  pose proof (read_size _ _ _ _ E) as Hsz.
  assert (¬ smooth w → to_come (reads w1) = to_come (reads w) → reading m w READ_ERROR m w1) as Herr.
  { intros Hs Hz. split; try done. lia. }
  destruct a as [[|x b]| | |].
  - intros [= <- <- <-]. by apply Herr.
  - set (b' := x :: b) in *. destruct H6 as [Hl Hi]. change (length b' =? 0)%nat with false. cbv iota.
    set (m1 := set_read _ _ _ m).
    assert (reading m w READ_DATA_RECEIVED m1 w1) as Hr1.
    { subst m1. destruct Hb. split; [done| |done| |done|cbn [rbytes set_read]; lia].
      - split; [|done]. split; cbn [rcurr rbytes rbuf set_read]; rewrite !length_app, length_take, length_drop; lia.
      - intros _. rewrite (window_start m Hc), window_start by done. cbn [rbytes rbuf set_read]. rewrite Hi, !app_assoc. f_equal.
        rewrite take_app_le by (rewrite length_app, length_take; lia).
        apply take_ge. rewrite length_app, length_take. lia. }
    destruct (length b' =? _)%nat; [|by intros [= <- <- <-]]. intros Em. eapply reading_trans; [exact Hr1|].
    destruct Hr1 as [? [? ?] (? & ? & ?) ? ? ?]. by apply Hmore.
  - intros [= <- <- <-]. split; [done|done|done|by rewrite H6|by split|lia].
  - intros [= <- <- <-]. by apply Herr.
  - intros [= <- <- <-]. by apply Herr.
Qed.

Context (granted : nat → bool).

Lemma read_full_ok k : ∀ gotdata m w res m' w', gotdata ≠ READ_MEMORY_ERROR → gotdata ≠ READ_ERROR → buffer_ok m → rcurr m = 0%nat → roomy w →
  read_full granted k gotdata m w = (res, m', w') → reading m w res m' w'.
Proof using.
  induction k as [|k IH]; intros gotdata m w res m' w' Hg1 Hg2 Hb Hc Hroom; cbn [read_full].
  - by intros [= <- <- <-].
  - destruct (realloc w) as [ok w1] eqn:E. destruct (realloc_ok w ok w1 Hroom E) as (-> & H1 & H2 & H3 & H4 & H5).
    set (m1 := set_read _ _ _ m). destruct Hb as [Hb1 Hb2]. rewrite Hc in Hb1. cbn in Hb1.
    assert (reading m w READ_DATA_RECEIVED m1 w1) as Hr1.
    { subst m1. split; [done| | | |done|cbn [rbytes set_read]; by rewrite H1].
      - split; [|done]. split; cbn; rewrite length_app; lia.
      - split_and!; [done|done|]. unfold smooth. by rewrite H1, H2, H3.
      - intros _. rewrite (window_start m Hc), window_start by done. cbn [rbytes rbuf set_read]. rewrite H1. f_equal. by rewrite take_app_le by lia. }
    intros Em. eapply reading_trans; [exact Hr1|]. destruct Hr1 as [? [? ?] (? & ? & ?) ? ? ?].
    eapply read_more_ok; [done|done| |done|done| |done|exact Em].
    + intros. by eapply IH; [| |done..].
    + subst m1. cbn. rewrite length_app, length_replicate. lia.
Qed.

Lemma moved_ok m : buffer_ok m → same_rest m (moved m) ∧ buffer_ok (moved m) ∧ rcurr (moved m) = 0%nat ∧ window (moved m) = window m ∧
  rbytes (moved m) = rbytes m ∧ length (rbuf (moved m)) = length (rbuf m).
Proof using.
  intros [H1 H2]. unfold moved. destruct (rcurr m =? 0)%nat eqn:E; [by apply Nat.eqb_eq in E|].
  assert (length (window m) = rbytes m) as Hw by (unfold window; rewrite length_take, length_drop; lia).
  assert (length (window m ++ drop (rbytes m) (rbuf m)) = length (rbuf m)) as Hl by (rewrite length_app, length_drop; lia).
  split_and!; try done.
  - split; cbn; lia.
  - unfold window at 1. cbn. rewrite drop_0, take_app_le by lia. by rewrite take_ge by lia.
Qed.

Lemma try_read_network_ok m w res m' w' : buffer_ok m → roomy w → try_read_network granted m w = (res, m', w') → reading m w res m' w'.
Proof using.
  intros Hb Hroom. destruct (moved_ok m Hb) as (H1 & H2 & H3 & H4 & H5 & H6).
  assert (reading m w READ_DATA_RECEIVED (moved m) w) as Hr by (split; [done|done|split; [by unfold same_net|done]|by rewrite H4|done|by rewrite H5]).
  unfold try_read_network. destruct (_ <=? _)%nat eqn:E; intros Em; (eapply reading_trans; [exact Hr|]).
  - by eapply read_full_ok in Em.
  - apply Nat.leb_gt in E. refine (read_more_ok _ _ _ _ _ _ _ _ _ _ H2 H3 E Hroom Em); [done|done|].
    intros m1 w1 res1 m2 w2 Hb1 Hc1 Hr1 Em1. by eapply read_full_ok in Em1.
Qed.

(** ** A line *)

Lemma strncmp_ok u x s : (length s ≤ length u)%nat → strncmp (u ++ x) s = Answer (bool_decide (take (length s) u = s)).
Proof using.
  revert u. induction s as [|y s IH]; intros u H; [cbn [length]; rewrite take_0, bool_decide_eq_true_2 by done; by destruct (u ++ x)|]. destruct u as [|z u]; [cbn in H; lia|]. cbn in H. cbn [strncmp app length take].
  destruct (Z.eqb_spec y z) as [->|Hne].
  - rewrite IH by lia. f_equal. apply bool_decide_ext. split; [by intros ->|by intros [= ?]].
  - rewrite bool_decide_eq_false_2; [done|]. intros [= ? _]. congruence.
Qed.

Lemma spaces_app u x : spaces (u ++ x) = if (spaces u =? length u)%nat then (length u + spaces x)%nat else spaces u.
Proof using.
  induction u as [|y u IH]; [done|]. cbn [app spaces length]. destruct (y =? 32); [|done]. rewrite IH. cbn [Nat.eqb]. by case_match.
Qed.

Lemma spaces_le u : (spaces u ≤ length u)%nat.
Proof using. induction u as [|y u IH]; cbn; [lia|]. case_match; lia. Qed.

(** The first bytes decide. *)
Lemma is_get_app u y : (1024 < length u)%nat → is_get (u ++ y) = is_get u.
Proof using.
  intros H. unfold is_get. rewrite spaces_app. destruct (spaces u =? length u)%nat eqn:E.
  - apply Nat.eqb_eq in E. rewrite E. by rewrite !(proj2 (Nat.leb_gt _ _)) by lia.
  - destruct (spaces u <=? 100)%nat eqn:E1; [|done]. apply Nat.leb_le in E1. cbn [andb]. rewrite drop_app_le by lia.
    by rewrite !take_app_le by (rewrite length_drop; lia).
Qed.

Lemma long_get_ok u x g : (1024 < length u)%nat → long_get (u ++ x) = Answer g → g = is_get u.
Proof using.
  intros H. unfold long_get. rewrite <- (is_get_app u x H). unfold is_get. destruct (_ <=? spaces (u ++ x))%nat; [done|].
  destruct (100 <? spaces (u ++ x))%nat eqn:E.
  - apply Nat.ltb_lt in E. intros [= <-]. by rewrite (proj2 (Nat.leb_gt _ _)) by lia.
  - apply Nat.ltb_ge in E. rewrite (proj2 (Nat.leb_le _ _)) by lia. rewrite (drop_app_le _ _ (spaces (u ++ x))) by lia.
    rewrite !strncmp_ok by (rewrite length_drop; cbn; lia). cbn [mbind answer_bind]. rewrite !take_app_le by (rewrite length_drop; lia).
    change (length (chars "get ")) with 4%nat. change (length (chars "gets ")) with 5%nat.
    destruct (bool_decide (take 4 _ = _)); by intros [= <-].
Qed.

Lemma find_nl_app b l i : find_nl b = Some i → find_nl (b ++ l) = Some i ∧ (i < length b)%nat.
Proof using.
  revert i. induction b as [|x b IH]; intros i; [done|]. cbn [find_nl app length]. destruct (x =? 10); [intros [= <-]; split; [done|lia]|].
  destruct (find_nl b) as [j|]; [|done]. intros [= <-]. destruct (IH j eq_refl) as [-> ?]. cbn. split; [done|lia].
Qed.

Lemma find_nl_none b l i : find_nl b = None → find_nl (b ++ l) = Some i → (length b ≤ i)%nat.
Proof using.
  revert i. induction b as [|x b IH]; intros i; [cbn; lia|]. cbn [find_nl app length]. destruct (x =? 10); [done|].
  destruct (find_nl b) as [j|]; [done|]. intros _. destruct (find_nl (b ++ l)) as [j|]; [|done]. intros [= <-]. specialize (IH j eq_refl eq_refl). lia.
Qed.

(** ** The answer *)

Lemma new_answer_ok o : enough_memory granted → has_arrays o → open_view (new_answer granted o) [[]] ∧ has_arrays (new_answer granted o) ∧
  iovused (new_answer granted o) = 0%nat.
Proof using.
  intros Hm Ha. unfold new_answer. destruct (new_msghdr_view granted _ _ (fresh_view o Ha)) as (b & c1 & -> & Hv & Hg). rewrite (Hg Hm) in Hv.
  cbn [snd]. cbn [app] in Hv. split_and!; [by split|apply Hv|by rewrite (v_used _ _ Hv)].
Qed.

Lemma spans_stream v p ms gs : spans v p ms gs → concat ((λ m, flat (entries v m)) <$> ms) = stream gs.
Proof using.
  revert p gs. induction ms as [|m ms IH]; intros p [|g gs]; cbn [spans]; try done. intros (_ & _ & <- & H).
  unfold stream. cbn [fmap list_fmap concat]. rewrite flat_app. f_equal. by eapply IH.
Qed.

Lemma unsent_ok o gs : sending o gs → unsent o = stream gs.
Proof using. intros [_ H _]. by eapply spans_stream. Qed.

Lemma answer_out_ok c ps o o' : enough_memory granted → has_arrays o → Forall (λ b, b ≠ []) ps → answer_out granted c ps o = Answer o' →
  has_arrays o' ∧
  match state c with
  | conn_write => iovused o' = 0%nat ∧ open_view o' [[]]
  | _ => ∃ gs, sending o' gs ∧ left_to_send gs ∧ stream gs = concat ps
  end.
Proof using.
  intros Hm Ha Hp. destruct (new_answer_ok o Hm Ha) as (Hv & Ha' & Hu). unfold answer_out.
  destruct (add_iovs_tcp false granted 0 ps _ _ eq_refl Hm Hp Hv) as (o2 & gs & E & [Hv2 Hne] & Hs & Hst); [by left|]. rewrite E, answered.
  destruct (state c); intros [= <-]; (split; [first [done|apply Hv2]|]); try done;
    (exists gs; split_and!; [by apply view_sending|by apply sendable_left|done]).
Qed.

Lemma answer_out_returns c ps o : enough_memory granted → has_arrays o → Forall (λ b, b ≠ []) ps → ∃ o', answer_out granted c ps o = Answer o'.
Proof using.
  intros Hm Ha Hp. destruct (new_answer_ok o Hm Ha) as (Hv & _ & _). unfold answer_out.
  destruct (add_iovs_tcp false granted 0 ps _ _ eq_refl Hm Hp Hv) as (o2 & gs & E & _); [by left|]. rewrite E, answered.
  destruct (state c); eauto.
Qed.

Lemma long_get_returns b : long_get b ≠ Never.
Proof using.
  assert (∀ s u, strncmp u s ≠ Never) as H.
  { induction s as [|x s IH]; intros [|y u]; cbn [strncmp]; try done. case_match; [apply IH|done]. }
  unfold long_get. case_match; [done|]. case_match; [done|]. pose proof (H (chars "get ") (drop (spaces b) b)) as Hg.
  destruct (strncmp _ _) as [[|]| |]; try done. apply H.
Qed.

Lemma transmit_iovused ev r c res out c' : transmit ev r c = Answer (res, out, c') → iovused c' = iovused c.
Proof using. unfold transmit. repeat (case_match; try done); by intros [= <- <- <-]. Qed.

(** ** The simulation *)

(** What a turn of the machine is for the session: some steps of it, or the connection is closed early, because of
    the length of a line or of an error of the network. *)
Record simulated (m : machine) (w : net) (m' : machine) (w' : net) : Prop := {
  sim_ok : machine_ok m';
  sim_roomy : roomy w';
  sim_smooth : smooth w → smooth w';
  sim_steps : rtc astep (session_of m w) (session_of m' w') ∨
    state (m_conn m') = conn_closing ∧ sent w' = sent w ∧ (too_long_line (session_of m w) ∨ ¬ smooth w)
}.

Lemma buffer_of m : machine_ok m → buffer_ok m.
Proof using. by intros [? ? _ _]. Qed.

(** Another state, in which nothing is sent. *)
Definition silent (x : conn_states) : Prop := x ≠ conn_write ∧ x ≠ conn_mwrite.

Lemma silent_ready m : silent (state (m_conn m)) → out_ready m ∧ remaining m = [].
Proof using. unfold silent, out_ready, remaining. by destruct (state (m_conn m)); intros [? ?]. Qed.

Lemma silent_ok m : buffer_ok m → has_arrays (m_out m) → silent (state (m_conn m)) → machine_ok m.
Proof using. intros [? ?] ? Hs. split; [done..|]. by apply silent_ready. Qed.

Lemma to_closing m w w' : machine_ok m → roomy w' → ¬ smooth w → sent w' = sent w → simulated m w (to_state conn_closing m) w'.
Proof using.
  intros Hm Hr Hs He. split; [|done|done|by right; auto]. apply silent_ok; [by apply buffer_of in Hm|apply Hm|done].
Qed.

Lemma waiting_sim m w ok m' w' : machine_ok m → roomy w → waiting m w = (ok, m', w') → simulated m w m' w' ∧ (ok = true → m' = m).
Proof using.
  intros Hm Hr. unfold waiting. destruct (update_event w) as [b w1] eqn:E.
  destruct (update_event_ok w b w1 E) as (H1 & H2 & H3 & H4 & H5 & H6). destruct b; intros [= <- <- <-]; (split; [|done]).
  - split; [done|unfold roomy; by rewrite H3|done|left]. unfold session_of. rewrite H1, H4. apply rtc_refl.
  - apply to_closing; [done|unfold roomy; by rewrite H3| |done]. intros Hs. by specialize (H6 Hs).
Qed.

Lemma window_used n m : window (used n m) = drop n (window m).
Proof using. unfold window. cbn. by rewrite skipn_firstn_comm, drop_drop. Qed.

Lemma norm_same c : state c ≠ conn_waiting → state c ≠ conn_read → norm c = c.
Proof using. unfold norm. by destruct (state c). Qed.

Lemma set_state_same c x : state c = x → set_state x c = c.
Proof using. intros <-. by destruct c. Qed.

(** The session when nothing is being sent. *)
Lemma session_silent m w : silent (state (m_conn m)) →
  session_of m w = mkSession (norm (m_conn m)) (window m ++ incoming (reads w)) (ritem m) (m_svc m) (sent w).
Proof using. intros H. unfold session_of. destruct (silent_ready m H) as [_ ->]. by rewrite app_nil_r. Qed.

Lemma read_sim m w res m1 w1 : machine_ok m → roomy w → state (m_conn m) = conn_read → try_read_network granted m w = (res, m1, w1) →
  simulated m w (read_done res m1) w1.
Proof using.
  intros Hm Hr Hst E. destruct (try_read_network_ok _ _ _ _ _ (buffer_of m Hm) Hr E) as [(C1 & C2 & C3 & C4) [Hb _] ((N1 & N2 & N3) & N4 & N5) Hby [R1 R2] _].
  assert (has_arrays (m_out m1)) as Ha by (rewrite C3; apply Hm).
  assert (∀ x, x = conn_waiting ∨ x = conn_parse_cmd → res ≠ READ_ERROR → simulated m w (to_state x m1) w1) as Hgo.
  { intros x Hx Hne. assert (silent x) as Hsx by (by destruct Hx; subst). split; [by apply silent_ok|done|done|left].
    rewrite !session_silent by (cbn; rewrite ?Hst; done). unfold window, norm in *. cbn [to_state set_conn m_conn rbuf rcurr rbytes ritem m_svc state set_state].
    rewrite (Hby Hne), C1, C2, C4, N3, Hst. destruct Hx; subst x; apply rtc_refl. }
  destruct res; [apply Hgo; auto|apply Hgo; auto| |done].
  split; [by apply silent_ok|done|done|right]. auto.
Qed.

Lemma parse_sim m w r m1 : ServiceLaws V → enough_memory granted → machine_ok m → roomy w → state (m_conn m) = conn_parse_cmd →
  try_read_command granted m = Answer (r, m1) → simulated m w (if r then m1 else to_state conn_waiting m1) w.
Proof using.
  intros L Hmem Hm Hr Hst. unfold try_read_command. destruct (_ || _); [done|].
  assert (silent (state (m_conn m))) as Hsil by (by rewrite Hst). pose proof (window_length m Hm) as Hwl.
  assert (simulated m w (to_state conn_waiting m) w) as Hwait.
  { split; [by apply silent_ok; [exact (buffer_of m Hm)|apply Hm|]|done|done|left]. rewrite !session_silent by done.
    unfold norm. cbn [to_state set_conn m_conn state set_state]. rewrite Hst.
    change (set_state conn_parse_cmd (set_state _ ?c)) with (set_state conn_parse_cmd c). rewrite set_state_same by done. apply rtc_refl. }
  destruct (find_nl (window m)) as [i|] eqn:Ei.
  - destruct (find_nl_app _ (incoming (reads w)) i Ei) as [Ei' Hi].
    destruct (svc_line _ _ _) as [[[c ps] v]| |] eqn:El; [|done..]. rewrite answered.
    destruct (line_done _ _ _ _ _ _ Hst El) as [Hps Hdone].
    destruct (answer_out granted c ps (m_out m)) as [o| |] eqn:Eo; [|done..]. rewrite answered. intros [= <- <-].
    destruct (answer_out_ok c ps _ _ Hmem (mo_arrays m Hm) Hps Eo) as [Ha Ho]. unfold command_done in Hdone.
    set (m1 := used _ _).
    assert (remaining m1 = answers c ps ∧ out_ready m1) as [Hrem Hor].
    { unfold remaining, answers, out_ready. cbn. destruct (state c); try done.
      - destruct Ho as [-> Hv]. cbn. naive_solver.
      - destruct Ho as (gs & H1 & H2 & <-). split; [by apply unsent_ok|by exists gs]. }
    split; [|done|done|].
    + split; [|apply Hm|done|done]. cbn. destruct Hm as [? ? _ _]. lia.
    + left. apply rtc_once. rewrite (session_silent m) by done. unfold astep, next. cbn [s_conn s_in s_off s_svc s_out].
      rewrite norm_same by (by rewrite Hst). rewrite Hst, Ei'. cbn [mbind option_bind].
      rewrite (take_app_le (window m) (incoming (reads w)) i) by lia. rewrite El, answered. do 2 f_equal. unfold session_of. rewrite Hrem.
      change (m_conn m1) with c. rewrite (norm_same c) by (by intros E; rewrite E in Hdone). f_equal.
      subst m1. rewrite drop_app_le by lia. f_equal. by rewrite window_used.
  - destruct (1024 <? rbytes m)%nat eqn:Er; [|by intros [= <- <-]]. apply Nat.ltb_lt in Er.
    assert (drop (rcurr m) (rbuf m) = window m ++ drop (rbytes m) (drop (rcurr m) (rbuf m))) as -> by (unfold window; by rewrite take_drop).
    destruct (long_get _) as [g| |] eqn:Eg; [|done..]. rewrite answered. apply long_get_ok in Eg; [|lia]. destruct g; intros [= <- <-]; [done|].
    split; [by apply silent_ok; [exact (buffer_of m Hm)|apply Hm|]|done|done|right]. split_and!; [done|done|left].
    rewrite session_silent by done. split_and!; cbn.
    + by rewrite norm_same; rewrite Hst.
    + rewrite length_app. lia.
    + rewrite is_get_app by lia. done.
    + intros i Hi. pose proof (find_nl_none _ _ _ Ei Hi). lia.
Qed.

(** *** Between commands *)

(** The item of the connection is given back, in the machine as in the session. *)
Lemma drop_item_ok m m' : drop_item m = Answer m' →
  state (m_conn m') = state (m_conn m) ∧ rbuf m' = rbuf m ∧ rcurr m' = rcurr m ∧ rbytes m' = rbytes m ∧ ritem m' = ritem m ∧ m_out m' = m_out m ∧
  ∀ i o, no_item (mkSession (m_conn m) i (ritem m) (m_svc m) o) = Answer (mkSession (m_conn m') i (ritem m) (m_svc m') o).
Proof using.
  unfold drop_item, no_item. cbn. destruct (c_item (m_conn m) =? 0); [by intros [= <-]|].
  destruct (svc_remove _ _) as [v| |]; [|done..]. by intros [= <-].
Qed.

Lemma conn_release_ok m m' : conn_release_items m = Answer m' →
  state (m_conn m') = state (m_conn m) ∧ rbuf m' = rbuf m ∧ rcurr m' = rcurr m ∧ rbytes m' = rbytes m ∧ ritem m' = ritem m ∧ m_out m' = m_out m ∧
  ∀ i o, released (mkSession (m_conn m) i (ritem m) (m_svc m) o) = Answer (mkSession (m_conn m') i (ritem m) (m_svc m') o).
Proof using.
  unfold conn_release_items, released. destruct (drop_item m) as [m1| |] eqn:E; [|done..].
  destruct (drop_item_ok m m1 E) as (H1 & H2 & H3 & H4 & H5 & H6 & H7). rewrite answered.
  destruct (svc_release _) as [v| |] eqn:Ev; [|done..]. intros [= <-]. cbn. split_and!; try done.
  intros i o. rewrite H7, answered. cbn. by rewrite Ev.
Qed.

Lemma shrink_ok m w m' w' : buffer_ok m → has_arrays (m_out m) → roomy w → conn_shrink m w = (m', w') →
  m_conn m' = m_conn m ∧ ritem m' = ritem m ∧ m_svc m' = m_svc m ∧ window m' = window m ∧ rbytes m' = rbytes m ∧ buffer_ok m' ∧ has_arrays (m_out m') ∧
  same_net w w' ∧ reads w' = reads w ∧ roomy w'.
Proof using.
  intros Hb Ha Hr. unfold conn_shrink.
  destruct (shrink_read m w) as [m1 w1] eqn:E1.
  assert (m_conn m1 = m_conn m ∧ ritem m1 = ritem m ∧ m_svc m1 = m_svc m ∧ window m1 = window m ∧ rbytes m1 = rbytes m ∧ buffer_ok m1 ∧ m_out m1 = m_out m ∧
    same_net w w1 ∧ reads w1 = reads w ∧ roomy w1) as (A1 & A2 & A3 & A4 & A5 & A6 & A7 & (A8 & A9 & A10) & A11 & A12).
  { destruct (moved_ok m Hb) as (_ & B1 & B2 & B3 & B4 & B5). revert E1. unfold shrink_read.
    destruct (_ && _) eqn:E; [|intros [= <- <-]; by unfold same_net].
    apply andb_true_iff in E as [C1%Nat.ltb_lt C2%Nat.ltb_lt]. destruct (realloc w) as [ok w2] eqn:Er.
    destruct (realloc_ok w ok w2 Hr Er) as (-> & D1 & D2 & D3 & D4 & D5). intros [= <- <-].
    assert (0 < DATA_BUFFER_SIZE < READ_BUFFER_HIGHWAT)%nat as Hlen by (split; apply Nat.ltb_lt; vm_compute; reflexivity).
    split_and!; try done.
    - rewrite <- B3, (window_start (moved m) B2), window_start by done. cbn [rbytes rbuf set_read]. rewrite B4, take_take. f_equal. lia.
    - split; cbn [rcurr rbytes rbuf set_read]; rewrite length_take; lia. }
  destruct (shrink_msgs m1 w1) as [m2 w2] eqn:E2.
  assert (m_conn m2 = m_conn m1 ∧ ritem m2 = ritem m1 ∧ m_svc m2 = m_svc m1 ∧ window m2 = window m1 ∧ rbytes m2 = rbytes m1 ∧ (buffer_ok m1 → buffer_ok m2) ∧ has_arrays (m_out m2) ∧
    same_net w1 w2 ∧ reads w2 = reads w1 ∧ roomy w2) as (B1 & B2 & B3 & B4 & B5 & B6 & B7 & (B8 & B9 & B10) & B11 & B12).
  { revert E2. unfold shrink_msgs. rewrite <- A7 in Ha. destruct (_ <? _)%nat eqn:El; [|intros [= <- <-]; by unfold same_net].
    apply Nat.ltb_lt in El. destruct (realloc w1) as [ok w3] eqn:Er. destruct (realloc_ok w1 ok w3 A12 Er) as (-> & D1 & D2 & D3 & D4 & D5).
    intros [= <- <-]. split_and!; try done. destruct Ha. split; cbn [m_out set_out iov msglist]; [done|]. rewrite length_take. unfold MSG_LIST_INITIAL. lia. }
  unfold shrink_iov. destruct (_ <? _)%nat eqn:El.
  - apply Nat.ltb_lt in El. destruct (realloc w2) as [ok w3] eqn:Er. destruct (realloc_ok w2 ok w3 B12 Er) as (-> & D1 & D2 & D3 & D4 & D5).
    intros [= <- <-]. unfold same_net. cbn [m_conn ritem m_svc rbytes set_out]. change (window (set_out _ m2)) with (window m2).
    split_and!; try congruence; [exact (B6 A6)|]. destruct B7. split; cbn [m_out set_out iov msglist]; [|done]. rewrite length_take. unfold IOV_LIST_INITIAL. lia.
  - intros [= <- <-]. unfold same_net. split_and!; try congruence; exact (B6 A6).
Qed.

Lemma reset_sim m w m' w' : machine_ok m → roomy w → state (m_conn m) = conn_new_cmd → reset_cmd_handler m w = Answer (m', w') → simulated m w m' w'.
Proof using.
  intros Hm Hr Hst. unfold reset_cmd_handler. destruct (drop_item m) as [m1| |] eqn:E; [|done..]. rewrite answered.
  destruct (drop_item_ok m m1 E) as (H1 & H2 & H3 & H4 & H5 & H6 & H7). destruct (conn_shrink m1 w) as [m2 w2] eqn:E2.
  assert (buffer_ok m1) as Hb by (unfold buffer_ok; rewrite H2, H3, H4; exact (buffer_of m Hm)).
  assert (has_arrays (m_out m1)) as Ha by (rewrite H6; apply Hm).
  destruct (shrink_ok m1 w m2 w2 Hb Ha Hr E2) as (S1 & S2 & S3 & S4 & S5 & S6 & S7 & (S8 & S9 & S10) & S11 & S12).
  intros [= <- <-]. set (x := if (_ <? _)%nat then _ else _).
  assert (silent x) as Hx by (unfold x; by destruct (_ <? _)%nat).
  split; [by apply silent_ok|done|unfold smooth; by rewrite S8, S9, S11|left]. apply rtc_once.
  rewrite !session_silent by (cbn; rewrite ?Hst; done). unfold astep, next. cbn [s_conn]. rewrite norm_same by (by rewrite Hst). rewrite Hst, H7, answered.
  do 2 f_equal. unfold in_state. change (window (to_state x m2)) with (window m2).
  cbn [s_conn s_in s_off s_svc s_out to_state set_conn m_conn ritem m_svc].
  rewrite S1, S2, S3, S4, S10, S11, H5. f_equal; [|unfold window; by rewrite H2, H3, H4].
  unfold x. by destruct (_ <? _)%nat.
Qed.

(** *** Data *)

Lemma bytes_put {L : ServiceLaws V} b : ∀ c l o v out, state c = conn_nread → b ≠ [] → Z.of_nat (length b) ≤ rlbytes c →
  rtc astep (mkSession c (b ++ l) o v out)
    (mkSession (set_nread (rlbytes c - Z.of_nat (length b)) (cmd c) c) l (o + length b) (svc_put (c_item c) o b v) out).
Proof using.
  induction b as [|x b IH]; intros c l o v out Hst Hne Hl; [done|]. cbn [length] in Hl.
  eapply rtc_l.
  { unfold astep, next. cbn [s_conn s_in s_off s_svc s_out app]. rewrite Hst.
    destruct (Z.eqb_spec (rlbytes c) 0); [lia|]. destruct (Z.ltb_spec (rlbytes c) 0); [lia|]. reflexivity. }
  destruct b as [|y b].
  - cbn [length app]. rewrite Nat.add_1_r. apply rtc_refl.
  - specialize (IH (set_nread (rlbytes c - 1) (cmd c) c) l (S o) (svc_put (c_item c) o [x] v) out Hst ltac:(done)).
    rewrite put_more. change (c_item (set_nread _ _ c)) with (c_item c) in IH.
    replace (o + length (x :: y :: b))%nat with (S o + length (y :: b))%nat by (cbn; lia).
    change (set_nread ?n (cmd c) c) with (set_nread n (cmd c) (set_nread (rlbytes c - 1) (cmd c) c)) at 2.
    replace (rlbytes c - Z.of_nat (length (x :: y :: b))) with (rlbytes c - 1 - Z.of_nat (length (y :: b))) by (cbn [length]; lia).
    apply IH. cbn [rlbytes set_nread length]. cbn [length] in Hl. lia.
Qed.

Lemma bytes_swallowed b : ∀ c l o v out, state c = conn_swallow → Z.of_nat (length b) ≤ sbytes c →
  rtc astep (mkSession c (b ++ l) o v out) (mkSession (set_sbytes (sbytes c - Z.of_nat (length b)) c) l o v out).
Proof using.
  induction b as [|x b IH]; intros c l o v out Hst Hl.
  - cbn [length app]. replace (set_sbytes _ c) with c; [apply rtc_refl|]. rewrite Z.sub_0_r. by destruct c.
  - cbn [length] in Hl. eapply rtc_l.
    { unfold astep, next. cbn [s_conn s_in s_off s_svc s_out app]. rewrite Hst. destruct (Z.leb_spec (sbytes c) 0); [lia|]. reflexivity. }
    specialize (IH (set_sbytes (sbytes c - 1) c) l o v out Hst). cbn [sbytes set_sbytes] in IH.
    replace (sbytes c - Z.of_nat (length (x :: b))) with (sbytes c - 1 - Z.of_nat (length b)) by (cbn [length]; lia). apply IH. lia.
Qed.

(** Steps of the session, with nothing to send. *)
Lemma sim_silent m w m' w' : buffer_ok m' → has_arrays (m_out m') → silent (state (m_conn m')) → roomy w' → (smooth w → smooth w') →
  rtc astep (session_of m w) (session_of m' w') → simulated m w m' w'.
Proof using. intros. split; [by apply silent_ok|done|done|by left]. Qed.

Lemma sim_after m w m1 m' w' : rtc astep (session_of m w) (session_of m1 w) → state (m_conn m1) = conn_nread → simulated m1 w m' w' →
  simulated m w m' w'.
Proof using.
  intros H1 Hst [? ? Hs2 [H|(H2 & H3 & [(H4 & _)|H4])]].
  - split; [done|done|done|left]. by etrans.
  - cbn in H4. rewrite norm_same, Hst in H4; by rewrite ?Hst.
  - split; [done|done|done|right]. auto.
Qed.

(** The data of an item that is in the buffer. *)
Lemma copied_sim {L : ServiceLaws V} m w : machine_ok m → roomy w → state (m_conn m) = conn_nread → (0 < rbytes m)%nat → 0 < rlbytes (m_conn m) →
  let n := Nat.min (rbytes m) (Z.to_nat (rlbytes (m_conn m))) in
  let m' := used n (put_item_data (take n (window m)) m) in
  simulated m w m' w ∧ rtc astep (session_of m w) (session_of m' w) ∧ machine_ok m' ∧
  rlbytes (m_conn m') = rlbytes (m_conn m) - Z.of_nat n ∧ state (m_conn m') = conn_nread ∧ rbytes m' = (rbytes m - n)%nat.
Proof using.
  intros Hm Hr Hst Hb Hl n m'. pose proof (window_length m Hm) as Hwl.
  assert (length (take n (window m)) = n) as Hn by (rewrite length_take; lia).
  assert (rtc astep (session_of m w) (session_of m' w)) as Hs.
  { rewrite !session_silent by (subst m'; cbn; by rewrite Hst). rewrite !norm_same by (subst m'; cbn; by rewrite Hst).
    rewrite <- (take_drop n (window m)) at 1. rewrite <- app_assoc. subst m'. rewrite window_used.
    eapply (bytes_put (take n (window m)) (m_conn m)); [done| |lia]. intros E. rewrite E in Hn. cbn in Hn. lia. }
  assert (buffer_ok m') as Hb' by (destruct Hm; split; cbn; lia).
  assert (machine_ok m') as Hm' by (apply silent_ok; [done|apply Hm|cbn; by rewrite Hst]).
  split_and!; [by apply sim_silent; [|apply Hm|cbn; by rewrite Hst|done|done|]|done|done|cbn; by rewrite Hn|done|done].
Qed.

Lemma roomy_read w w' : roomy w → memory_left w' = memory_left w → roomy w'.
Proof using. unfold roomy. by intros ? ->. Qed.

(** [read] into the item. *)
Lemma socket_sim {L : ServiceLaws V} m w a w1 : machine_ok m → roomy w → state (m_conn m) = conn_nread → window m = [] → 0 < rlbytes (m_conn m) →
  read (Z.to_nat (rlbytes (m_conn m))) w = (a, w1) →
  match a with
  | Got b => simulated m w (if (length b =? 0)%nat then to_state conn_closing m else put_item_data b m) w1
  | ReadAgain => ∀ ok m' w', waiting m w1 = (ok, m', w') → simulated m w m' w'
  | _ => simulated m w (to_state conn_closing m) w1
  end.
Proof using.
  intros Hm Hr Hst Hw Hl E. destruct (read_ok (Z.to_nat (rlbytes (m_conn m))) w a w1 ltac:(lia) E) as (H1 & H2 & H3 & H4 & H5 & H6).
  pose proof (roomy_read w w1 Hr H3) as Hr1.
  destruct a as [b| | |]; [|intros ok m' w' Ew|by apply to_closing..].
  - destruct b as [|x b]; [by apply to_closing|]. destruct H6 as [Hb Hi]. set (b' := x :: b) in *. change (length b' =? 0)%nat with false. cbv iota.
    apply sim_silent; [exact (buffer_of m Hm)|apply Hm|cbn; by rewrite Hst|done|done|].
    rewrite !session_silent by (cbn; by rewrite Hst). rewrite !norm_same by (cbn; by rewrite Hst).
    rewrite Hi, H4. change (window (put_item_data b' m)) with (window m). rewrite Hw. cbn [app].
    apply bytes_put; [done|done|lia].
  - destruct (waiting_sim m w1 ok m' w' Hm Hr1 Ew) as [Hs _]. destruct Hs as [S1 S2 S3 S4]. split; [done|done|by auto|].
    assert (session_of m w1 = session_of m w) as <- by (unfold session_of; by rewrite H4, H6).
    destruct S4 as [?|(? & ? & [?|?])]; [by left|right; split_and!; [done|congruence|by left]|right; split_and!; [done|congruence|right; by auto]].
Qed.

Lemma nread_sim {L : ServiceLaws V} m w stop m' w' : enough_memory granted → machine_ok m → roomy w → state (m_conn m) = conn_nread →
  nread_step granted m w = Answer (stop, m', w') → simulated m w m' w'.
Proof using.
  intros Hmem Hm Hr Hst. unfold nread_step. assert (silent (state (m_conn m))) as Hsil by (by rewrite Hst).
  assert (∀ x, norm (m_conn m) = x → x = m_conn m) as Hnorm by (intros x <-; apply norm_same; by rewrite Hst).
  destruct (Z.eqb_spec (rlbytes (m_conn m)) 0) as [Hz|Hz].
  { destruct (svc_complete _ _) as [[c v]| |] eqn:E; [|done..]. rewrite answered. intros [= _ <- <-].
    destruct (complete_done _ _ _ _ E) as [[Hnm _] Hd]. destruct (new_answer_ok (m_out m) Hmem (mo_arrays m Hm)) as (N1 & N2 & N3).
    set (o := match state c with conn_write => _ | _ => _ end). set (m1 := mkMachine _ _ _ _ _ _ _). unfold command_done in Hd.
    assert (remaining m1 = answers c [] ∧ out_ready m1 ∧ has_arrays o) as (R1 & R2 & R3).
    { unfold remaining, answers, out_ready. cbn. subst o. destruct (state c); try done; try (split_and!; [done..|apply Hm]).
      rewrite N3. cbn. naive_solver. }
    split; [by split; [apply Hm..| |]|done|done|left]. apply rtc_once. rewrite session_silent by done. unfold astep, next.
    cbn [s_conn s_in s_off s_svc s_out]. rewrite norm_same by (by rewrite Hst). rewrite Hst, Hz. cbn [Z.eqb]. rewrite E, answered.
    do 2 f_equal. unfold session_of. rewrite R1. change (m_conn m1) with c. by rewrite (norm_same c) by (by intros E'; rewrite E' in Hd). }
  destruct (Z.ltb_spec (rlbytes (m_conn m)) 0) as [Hneg|Hneg].
  { intros [= _ <- <-]. apply sim_silent; [exact (buffer_of m Hm)|apply Hm|done|done|done|]. apply rtc_once.
    rewrite !session_silent by done. unfold astep, next. cbn [s_conn s_in s_off s_svc s_out]. rewrite norm_same by (by rewrite Hst).
    rewrite Hst. destruct (Z.eqb_spec (rlbytes (m_conn m)) 0); [done|]. by destruct (Z.ltb_spec (rlbytes (m_conn m)) 0); [|lia]. }
  set (m1 := if (0 <? rbytes m)%nat then _ else m).
  assert (rtc astep (session_of m w) (session_of m1 w) ∧ machine_ok m1 ∧ state (m_conn m1) = conn_nread ∧ 0 ≤ rlbytes (m_conn m1) ∧
    (rlbytes (m_conn m1) ≠ 0 → rbytes m1 = 0%nat)) as (H1 & H2 & H3 & H4 & H5).
  { subst m1. destruct (0 <? rbytes m)%nat eqn:Eb.
    - apply Nat.ltb_lt in Eb. destruct (copied_sim m w Hm Hr Hst Eb ltac:(lia)) as (_ & C1 & C2 & C3 & C4 & C5).
      split_and!; [done|done|done|rewrite C3; lia|]. rewrite C3, C5. lia.
    - apply Nat.ltb_ge in Eb. split_and!; [apply rtc_refl|done|done|lia|lia]. }
  clearbody m1. destruct (Z.eqb_spec (rlbytes (m_conn m1)) 0) as [Hz1|Hz1].
  { intros [= _ <- <-]. eapply sim_after; [exact H1|done|]. apply sim_silent; [exact (buffer_of m1 H2)|apply H2|by rewrite H3|done|done|apply rtc_refl]. }
  destruct (read _ w) as [a w1] eqn:Er. intros Eres. eapply sim_after; [exact H1|done|].
  assert (window m1 = []) as Hw by (apply length_zero_iff_nil; rewrite (window_length m1 H2); auto).
  pose proof (socket_sim m1 w a w1 H2 Hr H3 Hw ltac:(lia) Er) as HS.
  destruct a as [b| | |]; [injection Eres as _ <- <-; exact HS| |injection Eres as _ <- <-; exact HS..].
  destruct (waiting m1 w1) as [[ok m2] w2] eqn:Ew. injection Eres as _ <- <-. by eapply HS.
Qed.

Lemma buffer_set b curr n c m : (curr + n ≤ length b)%nat → (0 < length b)%nat → buffer_ok (set_conn c (set_read b curr n m)).
Proof using. by split. Qed.

Lemma swallow_sim m w stop m' w' : machine_ok m → roomy w → state (m_conn m) = conn_swallow →
  swallow_step m w = (stop, m', w') → simulated m w m' w'.
Proof using.
  intros Hm Hr Hst. unfold swallow_step. assert (silent (state (m_conn m))) as Hsil by (by rewrite Hst).
  pose proof (window_length m Hm) as Hwl. pose proof (buffer_of m Hm) as [Hb1 Hb2].
  destruct (Z.leb_spec (sbytes (m_conn m)) 0) as [Hz|Hz].
  { intros [= _ <- <-]. apply sim_silent; [done|apply Hm|done|done|done|]. apply rtc_once. rewrite !session_silent by done.
    unfold astep, next. cbn [s_conn]. rewrite norm_same by (by rewrite Hst). rewrite Hst. by destruct (Z.leb_spec (sbytes (m_conn m)) 0); [|lia]. }
  destruct (0 <? rbytes m)%nat eqn:Eb.
  { apply Nat.ltb_lt in Eb. intros [= _ <- <-]. set (n := Nat.min _ _).
    assert (length (take n (window m)) = n) as Hn by (rewrite length_take; lia).
    apply sim_silent; [split; cbn; lia|apply Hm|cbn; by rewrite Hst|done|done|].
    rewrite !session_silent by (cbn; by rewrite Hst). rewrite !norm_same by (cbn; by rewrite Hst). rewrite window_used.
    rewrite <- (take_drop n (window m)) at 1. rewrite <- app_assoc.
    pose proof (bytes_swallowed (take n (window m)) (m_conn m) (drop n (window m) ++ incoming (reads w)) (ritem m) (m_svc m) (sent w) Hst) as HS.
    rewrite Hn in HS. apply HS. lia. }
  apply Nat.ltb_ge in Eb. assert (window m = []) as Hw by (apply length_zero_iff_nil; lia).
  destruct (read _ w) as [a w1] eqn:Er.
  destruct (read_ok (Nat.min (length (rbuf m)) (Z.to_nat (sbytes (m_conn m)))) w a w1 ltac:(lia) Er) as (H1 & H2 & H3 & H4 & H5 & H6).
  pose proof (roomy_read w w1 Hr H3) as Hr1.
  destruct a as [[|x b]| | |]; [intros [= _ <- <-]; by apply to_closing| | |intros [= _ <- <-]; by apply to_closing..].
  - destruct H6 as [Hb Hi]. set (b' := x :: b) in *. change (length b' =? 0)%nat with false. cbv iota. intros [= _ <- <-].
    apply sim_silent; [|apply Hm|cbn; by rewrite Hst|done|done|].
    { apply buffer_set; cbn [length]; rewrite length_app, length_drop; lia. }
    rewrite !session_silent by (cbn; by rewrite Hst). rewrite !norm_same by (cbn; by rewrite Hst).
    rewrite Hi, H4, Hw. apply (bytes_swallowed b' (m_conn m)); [done|lia].
  - intros Ew. destruct (waiting_sim m w1 stop m' w' Hm Hr1 Ew) as [[S1 S2 S3 S4] _]. split; [done|done|by auto|].
    assert (session_of m w1 = session_of m w) as <- by (unfold session_of; by rewrite H4, H6).
    destruct S4 as [?|(? & ? & [?|?])]; [by left|right; split_and!; [done|congruence|by left]|right; split_and!; [done|congruence|right; by auto]].
Qed.

(** *** Sending *)

(** A connection with something to send, in its messages already. *)
Definition writing (m : machine) : Prop :=
  state (m_conn m) = conn_mwrite ∨ state (m_conn m) = conn_write ∧ iovused (m_out m) ≠ 0%nat ∧ goes_on (write_and_go (m_conn m)).

Lemma writing_ready m gs : writing m → sending (m_out m) gs → left_to_send gs → out_ready m ∧ remaining m = stream gs.
Proof using.
  intros Hw Hs Hl. unfold out_ready, remaining. destruct Hw as [->|(-> & Hu & Hg)].
  - split; [by exists gs|by apply unsent_ok].
  - rewrite (proj2 (Nat.eqb_neq _ _) Hu). split; [split; [done|by exists gs]|by apply unsent_ok].
Qed.

Lemma after_transmit_ok ev r res out w : r = default SendAgain (head (sends w)) → ev = (update_event w).1 →
  roomy w → (∀ gs gs', transmitted ev r res out gs gs' → res = TRANSMIT_HARD_ERROR → ¬ smooth w) ∧
  roomy (after_transmit r res out w) ∧ (smooth w → smooth (after_transmit r res out w)) ∧
  reads (after_transmit r res out w) = reads w.
Proof using.
  intros -> -> Hr. split_and!.
  - intros gs gs' Ht ->. cbn in Ht. destruct Ht as [_ Ht]. intros (_ & S2 & S3). destruct (sends w) as [|a l]; cbn in Ht.
    + destruct Ht as [?|[?|[_ He]]]; try done. revert He. unfold update_event. destruct (events w) as [|b l']; [done|]. cbn.
      apply list.Forall_cons in S3 as [-> _]. done.
    + apply list.Forall_cons in S2 as [S2 _]. destruct Ht as [->|[->|[-> He]]]; [done|done|].
      revert He. unfold update_event. destruct (events w) as [|b l']; [done|]. cbn. apply list.Forall_cons in S3 as [-> _]. done.
  - unfold after_transmit. by destruct res.
  - intros (S1 & S2 & S3). unfold after_transmit, smooth. destruct res; cbn [reads sends events]; try done; (split_and!; [done|by apply list.Forall_drop|]);
      (destruct (default _ _); [done|by apply list.Forall_drop|done]).
  - unfold after_transmit. by destruct res.
Qed.

Lemma mwrite_sim m w gs stop m' w' : buffer_ok m → roomy w → writing m → sending (m_out m) gs → left_to_send gs →
  mwrite_step m w = Answer (stop, m', w') → simulated m w m' w'.
Proof using.
  intros Hb Hr Hw Hs Hl. unfold mwrite_step. cbv zeta. set (r := default SendAgain _). set (ev := (update_event w).1).
  destruct (transmit_ok ev r (m_out m) gs Hs Hl) as (res & out & o & gs' & E & Hs' & Hl' & Hst & Ht). rewrite E, answered.
  pose proof (transmit_iovused _ _ _ _ _ _ E) as Hiu.
  destruct (after_transmit_ok ev r res out w eq_refl eq_refl Hr) as (A1 & A2 & A3 & A4). set (w1 := after_transmit r res out w) in *.
  destruct (writing_ready m gs Hw Hs Hl) as [_ Hrem].
  assert (writing (set_out o m)) as Hw' by (unfold writing in *; cbn; by rewrite Hiu).
  destruct (writing_ready _ _ Hw' Hs' Hl') as [Hor Hrem'].
  assert (machine_ok (set_out o m)) as Hm' by (destruct Hb; split; [done|done|apply Hs'|done]).
  assert (sent w1 ++ stream gs' = sent w ++ stream gs) as Hsent.
  { subst w1. unfold after_transmit. destruct res; cbn [sent]; rewrite <- Hst, ?app_assoc; try done. destruct Ht as [_ ->]. by rewrite app_nil_r. }
  assert (session_of (set_out o m) w1 = session_of m w) as Hsame.
  { unfold session_of. rewrite A4, Hrem, Hrem', Hsent. done. }
  assert (simulated m w (set_out o m) w1) as Hsim by (split; [done|done|done|left; rewrite Hsame; apply rtc_refl]).
  cbv beta iota zeta. destruct res; [|by intros [= _ <- <-]..|].
  2:{ intros [= _ <- <-]. destruct Hm'. split; [by apply silent_ok|done|done|right]. split_and!; [done| |right; by eapply A1].
      subst w1. cbn. destruct Ht as [-> _]. apply app_nil_r. }
  destruct Hw as [Hw|(Hw & _ & Hg)]; change (m_conn (set_out o m)) with (m_conn m); rewrite Hw.
  - destruct (conn_release_items (set_out o m)) as [m2| |] eqn:E2; [|done..]. rewrite answered. intros [= _ <- <-].
    destruct (conn_release_ok _ _ E2) as (R1 & R2 & R3 & R4 & R5 & R6 & R7).
    apply sim_silent; [unfold buffer_ok; cbn; rewrite R2, R3, R4; exact Hb|cbn; rewrite R6; apply Hs'|done|done|done|].
    rewrite <- Hsame. apply rtc_once. rewrite (session_silent (to_state _ m2)) by done. unfold session_of. rewrite Hrem'.
    unfold astep, next. cbn [s_conn]. rewrite norm_same by (cbn; by rewrite Hw). change (m_conn (set_out o m)) with (m_conn m). rewrite Hw.
    rewrite R7, answered. do 2 f_equal. destruct Ht as [-> ->]. unfold in_state, window. cbn [s_conn s_in s_off s_svc s_out to_state set_conn m_conn rbuf rcurr rbytes ritem m_svc].
    by rewrite R2, R3, R4, R5, app_nil_r.
  - intros [= _ <- <-]. assert (silent (write_and_go (m_conn m))) as Hsil by (by destruct Hg as [->|[->| ->]]).
    apply sim_silent; [done|apply Hs'|done|done|done|].
    rewrite <- Hsame. apply rtc_once. rewrite (session_silent (to_state _ _)) by done. unfold session_of. rewrite Hrem'.
    unfold astep, next. cbn [s_conn]. rewrite norm_same by (cbn; by rewrite Hw). change (m_conn (set_out o m)) with (m_conn m). rewrite Hw.
    do 2 f_equal. destruct Ht as [-> ->]. unfold in_state. cbn [s_conn s_in s_off s_svc s_out]. rewrite app_nil_r. f_equal.
    cbn [to_state set_conn m_conn]. symmetry. apply norm_same; cbn; by destruct Hg as [->|[->| ->]].
Qed.

(** A simple answer goes into the message. *)
Lemma first_write m : enough_memory granted → open_view (m_out m) [[]] → wbuf (m_conn m) ≠ [] → ∃ o gs,
  add_iov false granted 0 (Some (wbuf (m_conn m))) (length (wbuf (m_conn m))) (m_out m) = Answer (true, o) ∧
  sending o gs ∧ left_to_send gs ∧ iovused o ≠ 0%nat ∧ stream gs = wbuf (m_conn m).
Proof using.
  intros Hmem Hv Hwb. unfold add_iov. set (b := wbuf (m_conn m)) in *.
  destruct (add_iov_tcp_ok granted _ _ (Some b) (length b) Hv) as (ok & o & gs & -> & Hv' & Hst' & Hf).
  assert (iov_data (mkIov (Some b) (length b)) = b) as Hd by (cbn; by rewrite take_ge).
  destruct Hf as [-> Hf]; [done|by left|unfold iov_wf; by rewrite Hd|by rewrite Hd|]. rewrite Hd in Hst'. cbn [app] in Hst'.
  exists o, gs. split_and!; [done|apply view_sending, Hv'|by apply sendable_left; right| |done].
  rewrite (v_used _ _ (proj1 Hv')). intros H0. apply length_zero_iff_nil in H0. unfold stream in Hst'. rewrite H0 in Hst'. cbn in Hst'. by rewrite <- Hst' in Hwb.
Qed.

Lemma write_sim m w stop m' w' : enough_memory granted → machine_ok m → roomy w → state (m_conn m) = conn_write →
  write_step granted m w = Answer (stop, m', w') → simulated m w m' w'.
Proof using.
  intros Hmem Hm Hr Hst. unfold write_step. pose proof (mo_out m Hm) as Ho. unfold out_ready in Ho. rewrite Hst in Ho. destruct Ho as [Hg Ho].
  destruct (iovused (m_out m) =? 0)%nat eqn:Eu.
  2:{ apply Nat.eqb_neq in Eu. destruct Ho as (gs & Hs & Hl). eapply mwrite_sim; [exact (buffer_of m Hm)|done|by right|exact Hs|exact Hl]. }
  destruct Ho as [Hv Hwb]. destruct (first_write m Hmem Hv Hwb) as (o & gs & -> & Hs & Hl & Hu & Hst'). rewrite answered.
  intros E. destruct (mwrite_sim (set_out o m) w gs stop m' w') as [S1 S2 S3 S4]; [exact (buffer_of m Hm)|done|by right|done|done|done|].
  split; [done|done|done|]. assert (session_of (set_out o m) w = session_of m w) as <-; [|done].
  unfold session_of. f_equal. unfold remaining. cbn. rewrite Hst, Eu, (proj2 (Nat.eqb_neq _ _) Hu), (unsent_ok _ _ Hs). by rewrite Hst'.
Qed.

(** *** The whole machine *)

Lemma close_sim m w m' : machine_ok m → roomy w → state (m_conn m) = conn_closing → conn_close m = Answer m' →
  simulated m w m' w ∧ state (m_conn m') = conn_closed.
Proof using.
  intros Hm Hr Hst. unfold conn_close. destruct (conn_release_items m) as [m2| |] eqn:E2; [|done..]. rewrite answered. intros [= <-]. split; [|done].
  destruct (conn_release_ok _ _ E2) as (R1 & R2 & R3 & R4 & R5 & R6 & R7).
  apply sim_silent; [unfold buffer_ok; cbn; rewrite R2, R3, R4; exact (buffer_of m Hm)|cbn; rewrite R6; apply Hm|done|done|done|].
  apply rtc_once. rewrite !session_silent by (cbn; rewrite ?Hst; done). unfold astep, next. cbn [s_conn]. rewrite norm_same by (by rewrite Hst).
  rewrite Hst, R7, answered. do 2 f_equal. unfold in_state, window. cbn [s_conn s_in s_off s_svc s_out to_state set_conn m_conn rbuf rcurr rbytes ritem m_svc].
  by rewrite R2, R3, R4, R5.
Qed.

(** A stop or a change of state on the way to reading. *)
Lemma waiting_state_sim m w ok m1 w1 : machine_ok m → roomy w → state (m_conn m) = conn_waiting → waiting m w = (ok, m1, w1) →
  simulated m w (if ok then to_state conn_read m1 else m1) w1.
Proof using.
  intros Hm Hr Hst E. destruct (waiting_sim m w ok m1 w1 Hm Hr E) as [Hs Hok]. destruct ok; [|done]. rewrite (Hok eq_refl) in *.
  destruct Hs as [S1 S2 S3 S4]. assert (session_of (to_state conn_read m) w1 = session_of m w1) as Heq.
  { rewrite !session_silent by (cbn; rewrite ?Hst; done). unfold norm. cbn. rewrite Hst. done. }
  split; [by apply silent_ok; [exact (buffer_of m Hm)|apply Hm|]|done|done|]. rewrite Heq. destruct S4 as [?|[Hc _]]; [by left|]. by rewrite Hst in Hc.
Qed.

Lemma step_sim {L : ServiceLaws V} n m w stop n' m' w' : enough_memory granted → machine_ok m → roomy w →
  drive_step granted n m w = Answer (stop, n', m', w') → simulated m w m' w'.
Proof using.
  intros Hmem Hm Hr. unfold drive_step. assert (simulated m w m w) as Hrefl by (split; [done|done|done|left; apply rtc_refl]).
  destruct (state (m_conn m)) eqn:Hst; [done| | | | | | | | | |done|by intros [= _ _ <- <-]].
  - destruct n as [|n].
    + destruct (_ <? _)%nat; [|by intros [= _ _ <- <-]]. destruct (waiting m w) as [[ok m1] w1] eqn:E. intros [= _ _ <- <-]. by eapply waiting_sim.
    + destruct (reset_cmd_handler m w) as [[m1 w1]| |] eqn:E; [|done..]. rewrite answered. intros [= _ _ <- <-]. by apply reset_sim.
  - destruct (waiting m w) as [[ok m1] w1] eqn:E. intros [= _ _ <- <-]. by apply waiting_state_sim.
  - destruct (try_read_network granted m w) as [[res m1] w1] eqn:E. intros [= _ _ <- <-]. by apply read_sim.
  - destruct (try_read_command granted m) as [[r m1]| |] eqn:E; [|done..]. rewrite answered. intros [= _ _ <- <-]. by apply parse_sim.
  - destruct (write_step granted m w) as [[[b m1] w1]| |] eqn:E; [|done..]. rewrite answered. intros [= _ _ <- <-]. by eapply write_sim.
  - destruct (nread_step granted m w) as [[[b m1] w1]| |] eqn:E; [|done..]. rewrite answered. intros [= _ _ <- <-]. by eapply nread_sim.
  - destruct (swallow_step m w) as [[b m1] w1] eqn:E. intros [= _ _ <- <-]. by eapply swallow_sim.
  - destruct (conn_close m) as [m1| |] eqn:E; [|done..]. rewrite answered. intros [= _ _ <- <-]. by apply close_sim.
  - destruct (mwrite_step m w) as [[[b m1] w1]| |] eqn:E; [|done..]. rewrite answered. intros [= _ _ <- <-].
    pose proof (mo_out m Hm) as Ho. unfold out_ready in Ho. rewrite Hst in Ho. destruct Ho as (gs & Hs & Hl).
    eapply mwrite_sim; [exact (buffer_of m Hm)|done|by left|exact Hs|exact Hl|exact E].
Qed.

(** Where a connection is that started as the session [a] on the network [w0]. *)
Record follows (a : session) (w0 : net) (m : machine) (w : net) : Prop := {
  fo_ok : machine_ok m;
  fo_roomy : roomy w;
  fo_smooth : smooth w0 → smooth w;
  fo_steps : rtc astep a (session_of m w) ∨
    (state (m_conn m) = conn_closing ∨ state (m_conn m) = conn_closed) ∧
    ∃ a', rtc astep a a' ∧ sent w `prefix_of` s_out a' ∧ (too_long_line a' ∨ ¬ smooth w0)
}.

Lemma follows_step {L : ServiceLaws V} a w0 n m w stop n' m' w' : enough_memory granted → follows a w0 m w →
  drive_step granted n m w = Answer (stop, n', m', w') → follows a w0 m' w'.
Proof using.
  intros Hmem [Hm Hr Hs Hf] E. destruct (step_sim n m w stop n' m' w' Hmem Hm Hr E) as [S1 S2 S3 S4].
  split; [done|done|by auto|]. destruct Hf as [Hf|[[Hc|Hc] (a' & H1 & H2 & H3)]].
  - destruct S4 as [S4|(S4 & S5 & S6)]; [left; by etrans|right]. split; [by left|]. exists (session_of m w).
    split_and!; [done|rewrite S5; cbn; by exists (remaining m)|destruct S6 as [?|?]; [by left|right; by auto]].
  - right. unfold drive_step in E. rewrite Hc in E. destruct (conn_close m) as [m1| |] eqn:Ec; [|done..]. rewrite answered in E.
    injection E as _ _ <- <-. destruct (close_sim m w m1 Hm Hr Hc Ec) as [_ Hcl]. split; [by right|]. eauto.
  - unfold drive_step in E. by rewrite Hc in E.
Qed.

Lemma follows_loop {L : ServiceLaws V} fuel : ∀ a w0 n m w m' w', enough_memory granted → follows a w0 m w →
  drive_loop granted fuel n m w = Answer (m', w') → follows a w0 m' w'.
Proof using.
  induction fuel as [|fuel IH]; intros a w0 n m w m' w' Hmem Hf; cbn [drive_loop]; [done|].
  destruct (drive_step granted n m w) as [[[[stop n1] m1] w1]| |] eqn:E; [|done..]. rewrite answered.
  pose proof (follows_step _ _ _ _ _ _ _ _ _ Hmem Hf E) as Hf1. destruct stop; [by intros [= <- <-]|]. by apply IH.
Qed.

Lemma follows_events {L : ServiceLaws V} k fuel n : ∀ a w0 m w m' w', enough_memory granted → follows a w0 m w →
  event_loop granted k fuel n m w = Answer (m', w') → follows a w0 m' w'.
Proof using.
  induction k as [|k IH]; intros a w0 m w m' w' Hmem Hf; cbn [event_loop]; [by intros [= <- <-]|].
  assert (∀ r, drive_machine granted fuel n m w ≫= (λ '(m, w), event_loop granted k fuel n m w) = r → r = Answer (m', w') → follows a w0 m' w') as Hgo.
  { intros r <-. destruct (drive_machine granted fuel n m w) as [[m1 w1]| |] eqn:E; [|done..]. rewrite answered.
    apply IH; [done|]. by eapply follows_loop. }
  destruct (state (m_conn m)); try exact (Hgo _ eq_refl). by intros [= <- <-].
Qed.

(** A session uses bytes, and gets no others. *)
Lemma astep_shorter a a' : astep a a' → (length (s_in a') ≤ length (s_in a))%nat.
Proof using.
  assert (∀ a r, no_item a = Answer r → s_in r = s_in a) as Hn.
  { intros b r. unfold no_item. destruct (_ =? _); [by intros [= <-]|]. destruct (svc_remove _ _); [|done..]. by intros [= <-]. }
  assert (∀ a r, released a = Answer r → s_in r = s_in a) as Hr.
  { intros b r. unfold released. destruct (no_item b) as [b1| |] eqn:E; [|done..]. rewrite answered. destruct (svc_release _); [|done..].
    intros [= <-]. cbn. exact (Hn b b1 E). }
  unfold astep, next. destruct (state (s_conn a)); try done.
  - destruct (no_item a) as [b| |] eqn:E; [|done..]. rewrite answered. intros [= <-]. cbn. rewrite (Hn a b E). lia.
  - destruct (find_nl _) as [i|]; [|done]. cbn [mbind option_bind]. destruct (svc_line _ _ _) as [[[c ps] v]| |]; [|done..].
    rewrite answered. intros [= <-]. cbn [s_in]. rewrite length_drop. lia.
  - intros [= <-]; cbn; lia.
  - destruct (rlbytes (s_conn a) =? 0).
    { destruct (svc_complete _ _) as [[c v]| |]; [|done..]. rewrite answered. intros [= <-]; cbn; lia. }
    destruct (rlbytes (s_conn a) <? 0); [intros [= <-]; cbn; lia|]. destruct (s_in a); [done|]. intros [= <-]. cbn. lia.
  - destruct (sbytes (s_conn a) <=? 0); [intros [= <-]; cbn; lia|]. destruct (s_in a); [done|]. intros [= <-]. cbn. lia.
  - destruct (released a) as [b| |] eqn:E; [|done..]. rewrite answered. intros [= <-]. cbn. rewrite (Hr a b E). lia.
  - destruct (released a) as [b| |] eqn:E; [|done..]. rewrite answered. intros [= <-]. cbn. rewrite (Hr a b E). lia.
Qed.

Lemma short_session a a' : (length (s_in a) ≤ 1024)%nat → rtc astep a a' → ¬ too_long_line a'.
Proof using.
  intros Hl Hs. assert (length (s_in a') ≤ length (s_in a))%nat as H.
  { induction Hs as [|a b a' Hab _ IH]; [lia|]. pose proof (astep_shorter a b Hab). specialize (IH ltac:(lia)). lia. }
  intros (_ & ? & _). lia.
Qed.

(** A session that is at rest has nothing left to send. *)
Lemma at_rest m w : next (session_of m w) = None →
  session_of m w = mkSession (norm (m_conn m)) (window m ++ incoming (reads w)) (ritem m) (m_svc m) (sent w).
Proof using.
  intros H. apply session_silent. unfold next in H. cbn [s_conn session_of] in H. split; intros Hst; rewrite norm_same, Hst in H; by rewrite ?Hst.
Qed.

Lemma follows_start m w : machine_ok m → roomy w → follows (session_of m w) w m w.
Proof using. intros Hm Hr. split; [done|done|done|left; apply rtc_refl]. Qed.
End Session.
