(* ===== verification/DriveTotal.v ===== *)
(** Every call of [drive_machine] comes back: each turn of its loop uses up bytes of the client, or sends
    bytes, or goes to a later state. *)

From stdpp Require Import strings relations.
From S2P Require Import Prelude Itoa Util Tokenize CacheApi Command ConnOut Drive DriveSpec.

(** The commands come back. *)
Class ServiceReturns (V : Service) := {
  line_returns : ∀ l c v, svc_line l c v ≠ Never;
  complete_returns : ∀ c v, svc_complete c v ≠ Never;
  remove_returns : ∀ it v, svc_remove it v ≠ Never;
  release_returns : ∀ v, svc_release v ≠ Never
}.

(** The states in the order in which a request goes through them, from the last. *)
Definition rank (x : conn_states) : nat :=
  match x with
  | conn_nread => 7
  | conn_write | conn_mwrite => 6
  | conn_swallow => 5
  | conn_new_cmd => 4
  | conn_read => 3
  | conn_parse_cmd => 2
  | conn_waiting => 1
  | _ => 0
  end.

Section Total.
Context {V : Service} (granted : nat → bool).

(** The bytes that are not used yet, here and on the way. *)
Definition unused (m : machine) (w : net) : nat := (rbytes m + to_come (reads w))%nat.

Definition progress (m : machine) (w : net) (m' : machine) (w' : net) : Prop :=
  (unused m' w' < unused m w)%nat ∨
  (unused m' w' = unused m w)%nat ∧
    ((rank (state (m_conn m')) < rank (state (m_conn m)))%nat ∨
     (rank (state (m_conn m')) = rank (state (m_conn m)))%nat ∧ (length (remaining m') < length (remaining m))%nat).

(** The relation has no infinite descent. *)
Lemma progress_ind (P : machine → net → Prop) :
  (∀ m w, (∀ m' w', progress m w m' w' → P m' w') → P m w) → ∀ m w, P m w.
Proof using.
  intros H m w. remember (unused m w) as i eqn:Ei. revert m w Ei. induction (lt_wf i) as [i _ IHi]. intros m w Ei.
  remember (rank (state (m_conn m))) as r eqn:Er. revert m w Ei Er. induction (lt_wf r) as [r _ IHr]. intros m w Ei Er.
  remember (length (remaining m)) as l eqn:El. revert m w Ei Er El. induction (lt_wf l) as [l _ IHl]. intros m w Ei Er El.
  apply H. intros m' w' [Hp|[Hp [Hr|[Hr Hl]]]].
  - by eapply IHi; [|reflexivity]; lia.
  - by eapply IHr; [|lia|reflexivity]; lia.
  - by eapply IHl; [|lia|lia|reflexivity]; lia.
Qed.

Lemma later m w m' w' : unused m' w' = unused m w → (rank (state (m_conn m')) < rank (state (m_conn m)))%nat → progress m w m' w'.
Proof using. intros ? ?. right. auto. Qed.

(** A turn comes back, and makes progress if the machine goes on. *)
Definition turns (m : machine) (w : net) (r : answer (bool * machine * net)) : Prop :=
  match r with
  | Answer (stop, m', w') => stop = false → progress m w m' w'
  | Assertion => True
  | Never => False
  end.

Lemma waiting_turns m w : (0 < rank (state (m_conn m)))%nat → turns m w (Answer (waiting m w)).
Proof using.
  intros Hr. unfold waiting. destruct (update_event w) as [b w1] eqn:E. destruct (update_event_ok w b w1 E) as (H1 & _).
  destruct b; [done|]. intros _. apply later; [unfold unused; cbn; by rewrite H1|]. cbn. lia.
Qed.

Lemma waiting_turns_from m w w1 : (0 < rank (state (m_conn m)))%nat → to_come (reads w1) = to_come (reads w) → turns m w (Answer (waiting m w1)).
Proof using.
  intros Hr Hw. unfold waiting. destruct (update_event w1) as [b w2] eqn:E. destruct (update_event_ok w1 b w2 E) as (H1 & _).
  destruct b; [done|]. intros _. apply later; [unfold unused; cbn; by rewrite H1, Hw|]. cbn. lia.
Qed.

Lemma drop_item_turn {R : ServiceReturns V} m : drop_item m ≠ Never.
Proof using.
  unfold drop_item. destruct (_ =? _); [done|]. pose proof (remove_returns (c_item (m_conn m)) (m_svc m)) as H. by destruct (svc_remove _ _).
Qed.

Lemma release_turn {R : ServiceReturns V} m : conn_release_items m ≠ Never.
Proof using.
  unfold conn_release_items. pose proof (drop_item_turn m) as H. destruct (drop_item m) as [m1| |]; [|done..]. rewrite answered.
  pose proof (release_returns (m_svc m1)) as H1. by destruct (svc_release _).
Qed.

Lemma nread_turns {L : ServiceLaws V} {R : ServiceReturns V} m w : machine_ok m → state (m_conn m) = conn_nread → turns m w (nread_step granted m w).
Proof using.
  intros Hm Hst. unfold nread_step. destruct (Z.eqb_spec (rlbytes (m_conn m)) 0) as [Hz|Hz].
  { pose proof (complete_returns (m_conn m) (m_svc m)) as H. destruct (svc_complete _ _) as [[c v]| |] eqn:E; [|done..]. rewrite answered.
    intros _. apply later; [done|]. destruct (complete_done _ _ _ _ E) as [[_ Hn] _]. rewrite Hst. cbn. by destruct (state c); cbn; try lia. }
  destruct (Z.ltb_spec (rlbytes (m_conn m)) 0); [intros _; apply later; [done|rewrite Hst; cbn; lia]|].
  set (n := Nat.min _ _). set (m1 := if (0 <? rbytes m)%nat then _ else m).
  assert ((unused m1 w < unused m w)%nat ∨ m1 = m ∧ rbytes m = 0%nat) as H1.
  { subst m1. destruct (0 <? rbytes m)%nat eqn:Eb; [left|right; apply Nat.ltb_ge in Eb; split; [done|lia]].
    apply Nat.ltb_lt in Eb. unfold unused. cbn. lia. }
  assert (state (m_conn m1) = conn_nread) as Hst1 by (subst m1; by destruct (0 <? rbytes m)%nat).
  clearbody m1. destruct (Z.eqb_spec (rlbytes (m_conn m1)) 0) as [Hz1|Hz1].
  { intros _. destruct H1 as [H1|[-> _]]; [by left|done]. }
  destruct (read _ w) as [a w1] eqn:Er. pose proof (read_size _ _ _ _ Er) as Hs.
  assert (∀ m2, rbytes m2 = rbytes m1 → (rank (state (m_conn m2)) < 7)%nat → progress m w m2 w1) as Hgo.
  { intros m2 Hb2 Hr2. destruct H1 as [H1|[-> Hb]]; [left; unfold unused in *; lia|]. unfold progress, unused. rewrite Hb2, Hst. cbn [rank]. lia. }
  destruct a as [b| | |]; [|destruct H1 as [H1|[-> Hb]]|intros _; apply Hgo; [done|cbn; lia]..].
  - intros _. destruct (length b =? 0)%nat eqn:Eb; [apply Hgo; [done|cbn; lia]|]. apply Nat.eqb_neq in Eb. left.
    destruct H1 as [H1|[-> Hb]]; unfold unused in *; cbn; lia.
  - unfold waiting. destruct (update_event w1) as [b w2] eqn:E. destruct (update_event_ok w1 b w2 E) as (H3 & _). destruct b; [done|].
    intros _. left. unfold unused in *. cbn. rewrite H3. lia.
  - apply waiting_turns_from; [rewrite Hst; cbn; lia|lia].
Qed.

Lemma swallow_turns m w : machine_ok m → state (m_conn m) = conn_swallow → turns m w (Answer (swallow_step m w)).
Proof using.
  intros Hm Hst. unfold swallow_step. destruct (Z.leb_spec (sbytes (m_conn m)) 0); [intros _; apply later; [done|rewrite Hst; cbn; lia]|].
  destruct (0 <? rbytes m)%nat eqn:Eb.
  { apply Nat.ltb_lt in Eb. intros _. left. unfold unused. cbn. lia. }
  apply Nat.ltb_ge in Eb. destruct (read _ w) as [a w1] eqn:Er. pose proof (read_size _ _ _ _ Er) as Hs.
  destruct a as [b| | |]; [destruct (length b =? 0)%nat eqn:El| |intros _..].
  - intros _. apply Nat.eqb_eq in El. apply later; [unfold unused; cbn; lia|rewrite Hst; cbn; lia].
  - intros _. apply Nat.eqb_neq in El. left. unfold unused. cbn. lia.
  - apply waiting_turns_from; [rewrite Hst; cbn; lia|lia].
  - apply later; [unfold unused; cbn; lia|rewrite Hst; cbn; lia].
  - apply later; [unfold unused; cbn; lia|rewrite Hst; cbn; lia].
Qed.

Lemma mwrite_turns {R : ServiceReturns V} m w gs : writing m → sending (m_out m) gs → left_to_send gs → turns m w (mwrite_step m w).
Proof using.
  intros Hw Hs Hl. unfold mwrite_step. cbv zeta. set (r := default SendAgain _). set (ev := (update_event w).1).
  destruct (transmit_ok ev r (m_out m) gs Hs Hl) as (res & out & o & gs' & E & Hs' & Hl' & Hst & Ht). rewrite E, answered.
  pose proof (transmit_iovused _ _ _ _ _ _ E) as Hiu. destruct (writing_ready m gs Hw Hs Hl) as [_ Hrem].
  assert (writing (set_out o m)) as Hw' by (unfold writing in *; cbn; by rewrite Hiu).
  destruct (writing_ready _ _ Hw' Hs' Hl') as [_ Hrem'].
  assert (rank (state (m_conn m)) = 6%nat) as Hr by (by destruct Hw as [->|[-> _]]).
  set (w1 := after_transmit r res out w). assert (reads w1 = reads w) as Hrd by (subst w1; unfold after_transmit; by destruct res).
  assert (∀ m2, rbytes m2 = rbytes m → (rank (state (m_conn m2)) < 6)%nat → progress m w m2 w1) as Hgo.
  { intros m2 Hb2 Hr2. apply later; [unfold unused; by rewrite Hrd, Hb2|lia]. }
  cbv beta iota zeta. destruct res; [| |done|intros _; apply Hgo; [done|cbn; lia]].
  - change (m_conn (set_out o m)) with (m_conn m). destruct Hw as [Hw|(Hw & _ & Hg)]; rewrite Hw.
    + pose proof (release_turn (set_out o m)) as Hn. destruct (conn_release_items (set_out o m)) as [m2| |] eqn:E2; [|done..]. rewrite answered.
      destruct (conn_release_ok _ _ E2) as (_ & _ & _ & R4 & _). intros _. apply Hgo; [done|cbn; lia].
    + intros _. apply Hgo; [done|]. cbn. destruct Hg as [->|[->| ->]]; cbn; lia.
  - intros _. right. split; [unfold unused; by rewrite Hrd|]. right. split; [done|]. rewrite Hrem, Hrem', <- Hst, length_app. cbn in Ht.
    destruct out; [done|]. cbn. lia.
Qed.

Lemma write_turns {R : ServiceReturns V} m w : enough_memory granted → machine_ok m → state (m_conn m) = conn_write → turns m w (write_step granted m w).
Proof using.
  intros Hmem Hm Hst. unfold write_step. pose proof (mo_out m Hm) as Ho. unfold out_ready in Ho. rewrite Hst in Ho. destruct Ho as [Hg Ho].
  destruct (iovused (m_out m) =? 0)%nat eqn:Eu.
  2:{ apply Nat.eqb_neq in Eu. destruct Ho as (gs & Hs & Hl). eapply mwrite_turns; [by right|exact Hs|exact Hl]. }
  destruct Ho as [Hv Hwb]. destruct (first_write granted m Hmem Hv Hwb) as (o & gs & E & Hs & Hl & Hu & Hst'). rewrite E, answered.
  pose proof (mwrite_turns (set_out o m) w gs ltac:(by right) Hs Hl) as HT. destruct (mwrite_step (set_out o m) w) as [[[stop m1] w1]| |]; [|done..].
  assert (remaining (set_out o m) = remaining m) as Hrem.
  { unfold remaining. cbn. rewrite Hst, Eu, (proj2 (Nat.eqb_neq _ _) Hu), (unsent_ok _ _ Hs). done. }
  intros H. specialize (HT H). unfold progress, unused in *. cbn [m_conn set_out] in HT. by rewrite Hrem in HT.
Qed.

Lemma parse_turns {L : ServiceLaws V} {R : ServiceReturns V} m w : enough_memory granted → machine_ok m → state (m_conn m) = conn_parse_cmd →
  turns m w ('(r, m1) ← try_read_command granted m; Answer (false, if r : bool then m1 else to_state conn_waiting m1, w)).
Proof using.
  intros Hmem Hm Hst. unfold try_read_command. destruct (_ || _); [done|]. pose proof (window_length m Hm) as Hwl.
  assert (∀ x, (rank x < 2)%nat → progress m w (to_state x m) w) as Hgo.
  { intros x Hx. apply later; [done|]. rewrite Hst. cbn. lia. }
  destruct (find_nl (window m)) as [i|] eqn:Ei.
  - destruct (find_nl_app _ [] i Ei) as [_ Hi]. pose proof (line_returns (line_of (take i (window m))) (m_conn m) (m_svc m)) as H.
    destruct (svc_line _ _ _) as [[[c ps] v]| |] eqn:El; [|done..]. rewrite answered. destruct (line_done _ _ _ _ _ _ Hst El) as [Hps _].
    destruct (answer_out_returns granted c ps (m_out m) Hmem (mo_arrays m Hm) Hps) as [o ->]. rewrite !answered. intros _. left. unfold unused. cbn. lia.
  - destruct (1024 <? rbytes m)%nat; [|intros _; apply Hgo; cbn; lia]. pose proof (long_get_returns (drop (rcurr m) (rbuf m))) as Hlg.
    destruct (long_get _) as [[|]| |]; [intros _; apply Hgo; cbn; lia|intros _; apply Hgo; cbn; lia|done|done].
Qed.

Lemma reset_turn {R : ServiceReturns V} m w : machine_ok m → roomy w → state (m_conn m) = conn_new_cmd →
  match reset_cmd_handler m w with Answer (m', w') => progress m w m' w' | Assertion => True | Never => False end.
Proof using.
  intros Hm Hr Hst. unfold reset_cmd_handler. pose proof (drop_item_turn m) as Hn. destruct (drop_item m) as [m1| |] eqn:E; [|done..]. rewrite answered.
  destruct (drop_item_ok m m1 E) as (_ & H2 & H3 & H4 & _ & H6 & _). destruct (conn_shrink m1 w) as [m2 w2] eqn:E2.
  assert (buffer_ok m1) as Hb by (unfold buffer_ok; rewrite H2, H3, H4; exact (buffer_of m Hm)).
  assert (has_arrays (m_out m1)) as Ha by (rewrite H6; apply Hm).
  destruct (shrink_ok m1 w m2 w2 Hb Ha Hr E2) as (_ & _ & _ & _ & S5 & _ & _ & _ & S11 & _).
  apply later; [unfold unused; cbn; by rewrite S5, S11, H4|]. rewrite Hst. cbn [to_state set_conn m_conn state set_state]. case_match; cbn; lia.
Qed.

Lemma step_turns {L : ServiceLaws V} {R : ServiceReturns V} n m w : enough_memory granted → machine_ok m → roomy w →
  match drive_step granted n m w with Answer (stop, _, m', w') => stop = false → progress m w m' w' | Assertion => True | Never => False end.
Proof using.
  intros Hmem Hm Hr.
  assert (∀ r, turns m w r → match r ≫= (λ r, Answer (let '(stop, m, w) := r in (stop, n, m, w))) with
    | Answer (stop, _, m', w') => stop = false → progress m w m' w' | Assertion => True | Never => False end) as Hturn.
  { by intros [[[stop m'] w']| |]. }
  unfold drive_step. destruct (state (m_conn m)) eqn:Hst; try done.
  - destruct n as [|n].
    + destruct (_ <? _)%nat; [|done]. apply (Hturn (Answer (waiting m w))), waiting_turns. rewrite Hst. cbn. lia.
    + pose proof (reset_turn m w Hm Hr Hst) as HT. destruct (reset_cmd_handler m w) as [[m1 w1]| |]; [|done..]. intros _. exact HT.
  - pose proof (waiting_turns m w ltac:(rewrite Hst; cbn; lia)) as HT. destruct (waiting m w) as [[[|] m1] w1]; [done|]. exact HT.
  - destruct (try_read_network granted m w) as [[res m1] w1] eqn:E. intros _.
    destruct (try_read_network_ok granted _ _ _ _ _ (buffer_of m Hm) Hr E) as [_ _ _ _ [R1 _] Hsz]. apply later; [by destruct res|].
    rewrite Hst. destruct res; cbn; [lia..|done].
  - pose proof (parse_turns m w Hmem Hm Hst) as HT. destruct (try_read_command granted m) as [[r m1]| |]; [|done..]. exact HT.
  - apply Hturn. by apply write_turns.
  - apply Hturn. by apply nread_turns.
  - apply (Hturn (Answer (swallow_step m w))). by apply swallow_turns.
  - pose proof (release_turn m) as HT. unfold conn_close. by destruct (conn_release_items m).
  - apply Hturn. pose proof (mo_out m Hm) as Ho. unfold out_ready in Ho. rewrite Hst in Ho. destruct Ho as (gs & Hs & Hl).
    eapply mwrite_turns; [by left|exact Hs|exact Hl].
Qed.

Lemma loop_returns {L : ServiceLaws V} {R : ServiceReturns V} : enough_memory granted → ∀ m w n, machine_ok m → roomy w →
  ∃ fuel, ∀ f, (fuel ≤ f)%nat → drive_loop granted f n m w ≠ Never.
Proof using.
  intros Hmem. refine (progress_ind _ _). intros m w IH n Hm Hr. pose proof (step_turns n m w Hmem Hm Hr) as HT.
  destruct (drive_step granted n m w) as [[[[[|] n1] m1] w1]| |] eqn:E; [exists 1%nat| |exists 1%nat|done].
  - intros [|f] Hf; [lia|]. cbn [drive_loop]. rewrite E. done.
  - destruct (step_sim granted n m w _ _ _ _ Hmem Hm Hr E) as [S1 S2 _ _].
    destruct (IH m1 w1 (HT eq_refl) n1 S1 S2) as [fuel Hfuel]. exists (S fuel). intros [|f] Hf; [lia|]. cbn [drive_loop]. rewrite E, answered. apply Hfuel. lia.
  - intros [|f] Hf; [lia|]. cbn [drive_loop]. by rewrite E.
Qed.
End Total.
