(* ===== verification/CacheClients.v ===== *)
(** Many clients, each with a cache of its own, on one store.

    What a client does to the store leaves alone what the others hold: the pointers they
    cached lead where they did, and versions only grow.  So each cache stays coherent. *)

From S2P Require Import Prelude TagPtr Fam RadixTree KvsRadixTree CacheIface CacheApi CacheApiSpec.

(** ** Facts that a client's calls keep *)

Section Framed.
Context {N : Nvmm} {S : Store} (SL : StoreLaws S).

(** What other clients hold. *)
Context (F : bytes → Gptr → TagGptr → bytes → Prop).

Definition framed (n : nat) (x : sst) (g : sview) (K : gmap bytes bytes) : Prop :=
  s_inv n x g K ∧ ∀ k q t v, F k q t v → s_cached x g k q t v.

Lemma framed_step n x g x' K' : framed (Datatypes.S n) x g K' ∨ (∃ K, framed (Datatypes.S n) x g K) →
  s_step n x g x' K' → ∃ g', framed n x' g' K' ∧ ∀ k q t v, s_cached x g k q t v → s_cached x' g' k q t v.
Proof.
  intros HF (g' & Hx & Hc). exists g'. split; [|done]. split; [done|]. intros k q t v Hf. apply Hc.
  destruct HF as [[_ HF]|[K [_ HF]]]; by apply HF.
Qed.

(** The laws hold with those facts in the invariant. *)
Definition FramedLaws : StoreLaws S.
Proof.
  refine {| sview := sview; s_inv := framed; s_cached := s_cached; CacheIface.s_key := CacheIface.s_key |}.
  - intros n x g K [H HF]. split; [by apply s_less|done].
  - intros x g k q t v. apply cached_valid.
  - intros n x g K k l [H _]. by eapply law_Get.
  - intros n x g K k l [H _]. by eapply law_GetC.
  - intros n x g K k q t v l gv [H _]. by eapply law_GetP.
  - intros n x g K k v HF Hk Hv. destruct (law_Put n x g K k v (proj1 HF) Hk Hv) as [Hn H]. split; [done|].
    intros r Hr. destruct (H r Hr) as [[? ?]|[? ?]]; [left|right]; (split; [done|]); eapply framed_step; eauto.
  - intros n x g K k v q t HF Hk Hv. destruct (law_PutC n x g K k v q t (proj1 HF) Hk Hv) as [Hn H]. split; [done|].
    intros r Hr. destruct (H r Hr) as [(? & g' & Hx & Hc & ?)|[? ?]]; [left|right]; (split; [done|]).
    + exists g'. split; [|done]. split; [done|]. intros. by apply Hc, HF.
    + eapply framed_step; eauto.
  - intros n x g K k v q t v0 HF Hk Hv. destruct (law_PutP n x g K k v q t v0 (proj1 HF) Hk Hv) as [Hn H]. split; [done|].
    intros r Hr. destruct (H r Hr) as [(? & ? & ? & g' & Hx & Hc & ?)|[? ?]]; [left|right]; (split; [done|]).
    + do 2 (split; [done|]). exists g'. split; [|done]. split; [done|]. intros. by apply Hc, HF.
    + eapply framed_step; eauto.
  - intros n x g K k HF Hk. destruct (law_Del n x g K k (proj1 HF) Hk) as (x' & E & Hs). exists x'. split; [done|].
    eapply framed_step; eauto.
  - intros n x g K k q t v HF Hk. destruct (law_DelP n x g K k q t v (proj1 HF) Hk) as (r & x' & E & Hs).
    exists r, x'. split; [done|]. eapply framed_step; eauto.
Defined.

End Framed.

(** ** The clients *)

Section Clients.
Context {N : Nvmm} {S : Store} {SL : StoreLaws S} {I : ItemCache} {IL : ItemLaws I}.
Context (stack : bytes).

Record client := mkClient { c_items : ics; c_bodies : gmap Z body; c_hit : Z }.

(** The caches, and the store that they share. *)
Definition system : Type := list client * sst.

Definition as_api (c : client) (x : sst) : api := mkApi (c_items c) x (c_bodies c) (c_hit c).

(** The client [j] makes a call. *)
Definition act (j : nat) (c : call) (y : system) : answer (result * system) :=
  match fst y !! j with
  | None => Assertion
  | Some cl =>
      match perform stack c (as_api cl (snd y)) with
      | AOk r s => Answer (r, (<[j := mkClient (items s) (bodies s) (num_hit s)]> (fst y), store s))
      | AAssert => Assertion
      | AStore | ANever => Never
      end
  end.

Fixpoint acts (cs : list (nat * call)) (y : system) : answer (list result * system) :=
  match cs with
  | [] => Answer ([], y)
  | (j, c) :: cs =>
      match act j c y with
      | Answer (r, y) =>
          match acts cs y with
          | Answer (rs, y) => Answer (r :: rs, y)
          | Assertion => Assertion
          | Never => Never
          end
      | Assertion => Assertion
      | Never => Never
      end
  end.

Definition all_coherent (n : nat) (y : system) (g : sview) (K : gmap bytes bytes) : Prop :=
  s_inv n (snd y) g K ∧ ∀ j cl, fst y !! j = Some cl → coherent n (as_api cl (snd y)) g K.

Lemma frame_coherent (F : bytes → Gptr → TagGptr → bytes → Prop) n s (g : sview (StoreLaws := SL)) K :
  coherent (SL := SL) n s g K → (∀ k q t v, F k q t v → s_cached (store s) g k q t v) →
  coherent (SL := FramedLaws SL F) n s g K.
Proof. intros [H1 H2 H3 H4 H5] HF. by split. Qed.

Lemma unframe_coherent (F : bytes → Gptr → TagGptr → bytes → Prop) n s (g : sview (StoreLaws := SL)) K :
  coherent (SL := FramedLaws SL F) n s g K →
  coherent (SL := SL) n s g K ∧ ∀ k q t v, F k q t v → s_cached (StoreLaws := SL) (store s) g k q t v.
Proof. intros [H1 [H2 HF] H3 H4 H5]. split; [by split|done]. Qed.

Lemma act_coherent n y g K j c :
  all_coherent (7 + n) y g K → (j < length (fst y))%nat → call_ok c →
  match act j c y with
  | Answer (r, y') => length (fst y') = length (fst y) ∧
      ∃ g' K', all_coherent n y' g' K' ∧ shared_step K c r K'
  | Assertion => False
  | Never => True
  end.
Proof.
  intros HA Hj Hc. unfold act. destruct (lookup_lt_is_Some_2 (fst y) j Hj) as [cl Hcl]. rewrite Hcl.
  pose proof (proj2 HA j cl Hcl) as HC. set (F := s_cached (snd y) g).
  pose proof (perform_wp (SL := FramedLaws SL F) stack n (as_api cl (snd y)) g K c
    (frame_coherent F _ _ _ _ HC ltac:(done)) Hc) as Hp.
  unfold awp in Hp. destruct (perform _ _ _) as [r s| | |]; [|done..]. split; [apply length_insert|].
  destruct Hp as (g' & K' & HC' & Hs). destruct (unframe_coherent _ _ _ _ _ HC') as [HC'' HF]. exists g', K'.
  split; [split; [apply HC''|]|done]. intros j' cl' Hj'. cbn [fst snd] in *. destruct (decide (j = j')) as [<-|Hne].
  - rewrite list_lookup_insert_eq in Hj' by done. injection Hj' as <-. destruct HC'' as [H1 H2 H3 H4 H5]. by split.
  - rewrite list_lookup_insert_ne in Hj' by done.
    exact (coherent_store n _ g K (store s) g' K' (7 + n) (proj2 HA j' cl' Hj') ltac:(lia)
      (co_store _ _ _ _ HC'') (co_short _ _ _ _ HC'') HF).
Qed.

Lemma acts_coherent n cs y g K :
  all_coherent (7 * length cs + n) y g K →
  Forall (λ jc, (fst jc < length (fst y))%nat ∧ call_ok (snd jc)) cs →
  match acts cs y with
  | Answer (rs, y') => ∃ g' K', all_coherent n y' g' K' ∧ shared_run K (map snd cs) rs K'
  | Assertion => False
  | Never => True
  end.
Proof.
  revert y g K. induction cs as [|[j c] cs IH]; intros y g K HA Hok; cbn [acts map snd].
  { exists g, K. split; [done|constructor]. }
  apply list.Forall_cons in Hok as [[Hj Hc] Hok]. cbn [fst snd] in Hj, Hc.
  assert (all_coherent (7 + (7 * length cs + n)) y g K) as HA'.
  { destruct HA as [Hs HA]. split; [eapply s_inv_le; [exact Hs|cbn [length]; lia]|].
    intros j' cl' Hj'. eapply coherent_le; [exact (HA j' cl' Hj')|]. cbn [length]. lia. }
  pose proof (act_coherent _ y g K j c HA' Hj Hc) as H.
  destruct (act j c y) as [[r y']| |]; [|done..]. destruct H as (Hlen & g' & K' & HA1 & Hs).
  specialize (IH y' g' K' HA1). rewrite Hlen in IH. specialize (IH Hok).
  destruct (acts cs y') as [[rs y'']| |]; [|done..]. destruct IH as (g'' & K'' & HA2 & Hr).
  exists g'', K''. split; [done|by econstructor].
Qed.

End Clients.
