(* ===== verification/CacheStore.v ===== *)
(** The store on the radix tree gives the cache what it needs.

    The operations of [src/kvs_radix_tree.cc], run on the shared memory, are an instance
    of the store of [CacheIface], and keep its laws: the version of a key grows with every
    update, so that a client tells from a pointer whether its copy is current.  So the
    clients of any cache of items that keeps its laws see one shared map. *)

From S2P Require Import Prelude TagPtr Fam RadixTree RadixInv RadixSpec RadixPut RadixOps.
From S2P Require Import KvsRadixTree CacheIface CacheApi CacheApiSpec CacheClients.

Section RadixStore.
Context {N : Nvmm} {L : NvmmLaws N}.
Context (fuel : nat) (root : Gptr) (past : Z).
Context (Hfuel : (S MAX_KEY_LEN < fuel)%nat) (Hpast : is_byte past).

(** The result of a run.  [abort] is called when a node cannot be allocated. *)
Definition reply {A B} (f : A → B) (o : outcome A) : answer (B * world) :=
  match o with
  | Done a w => Answer (f a, w)
  | Aborted => Never
  | NoFuel | Fault => Assertion
  end.

#[local] Instance RadixStore : Store := {
  sst := world;
  kvs_Get k len w := reply id (run (Get root k len) w);
  kvs_GetC k len w := reply id (run (GetC past root k len 0 TagGptr_null) w);
  kvs_GetP q t len get_value w := reply id (run (GetC_ptr q t len get_value) w);
  kvs_Put k v w := reply id (run (Put fuel root k v) w);
  kvs_PutC k v q t w := reply id (run (PutC fuel root k v q t) w);
  kvs_PutP q t v w := reply id (run (PutC_ptr fuel q t v) w);
  kvs_Del k w := reply id (run (Del fuel root k) w);
  kvs_DelP q t w := reply id (run (DelC_ptr fuel q) w)
}.

(** [n] more updates do not wrap a version around. *)
Definition version_ok (n : nat) (t : TagGptr) : Prop :=
  0 ≤ tag t ∧ tag t + Z.of_nat n < two64 ∧ wf_ptr (gptr_ t) ∧ (IsValid t = false → gptr_ t = 0).

Definition versions_ok (n : nat) (M : gmap bytes TagGptr) : Prop :=
  Z.of_nat n < two64 ∧ map_Forall (λ _, version_ok n) M.

Definition store_inv (n : nat) (w : world) (M : gmap bytes TagGptr) (K : gmap bytes bytes) : Prop :=
  kv_inv w root M K ∧ versions_ok n M.

Definition store_key (k : bytes) : Prop := key_ok k = true ∧ byte_key k.

(** The pointer is a version of the key, the current one if it has the current tag. *)
Definition cached (w : world) (M : gmap bytes TagGptr) (k : bytes) (q : Gptr) (t : TagGptr) (v : bytes) : Prop :=
  store_key k ∧ key_node (mem w) root k q ∧ ptr_IsValid q = true ∧ IsValid t = true ∧ wf_ptr (gptr_ t) ∧ mem w !! gptr t = Some (BlkVal (buf v)) ∧
  ∃ t', M !! k = Some t' ∧ (t' = t ∨ tag t < tag t').

Lemma version_less n t : version_ok (S n) t → version_ok n t.
Proof. intros (? & ? & ?). split_and!; [done|lia|naive_solver..]. Qed.

Lemma versions_less n M : versions_ok (S n) M → versions_ok n M.
Proof. intros [? HV]. split; [lia|]. eapply map_Forall_impl; [exact HV|]. intros k t. apply version_less. Qed.

Lemma succ_version n t p : version_ok (S n) t → wf_ptr p → (ptr_IsValid p = false → p = 0) →
  version_ok n (TagGptr_make p (tag_succ t)) ∧ tag t < tag (TagGptr_make p (tag_succ t)).
Proof.
  intros (H0 & H1 & _) Hw Hp. unfold version_ok. cbn [tag tag_ gptr_ TagGptr_make].
  assert (tag_succ t = tag t + 1) as -> by (unfold tag_succ; rewrite u64_small; lia). split; [|lia].
  split_and!; [lia|lia|done|]. unfold IsValid. done.
Qed.

(** Every version is the one it was, or a later one. *)
Definition advances (M M' : gmap bytes TagGptr) : Prop :=
  ∀ k t, M !! k = Some t → ∃ t', M' !! k = Some t' ∧ (t' = t ∨ tag t < tag t').

Lemma advances_update n M k t p :
  versions_ok (S n) M → M !! k = Some t → wf_ptr p → (ptr_IsValid p = false → p = 0) →
  versions_ok n (<[k := TagGptr_make p (tag_succ t)]> M) ∧ advances M (<[k := TagGptr_make p (tag_succ t)]> M).
Proof.
  intros HV Ht Hw Hp. destruct (succ_version n t p (proj2 HV _ _ Ht) Hw Hp) as [H1 H2].
  pose proof (versions_less _ _ HV) as [H3 H4]. split; [split; [done|by apply map_Forall_insert_2]|].
  intros k' t' Hk'. destruct (decide (k = k')) as [<-|].
  - rewrite lookup_insert_eq. assert (t' = t) as -> by congruence. eauto.
  - rewrite lookup_insert_ne by done. eauto.
Qed.

Lemma advances_put n M k p M' :
  versions_ok (S n) M → Put_spec M k p M' → wf_ptr p → ptr_IsValid p = true → versions_ok n M' ∧ advances M M'.
Proof.
  intros HV HP Hw Hp. pose proof (versions_less _ _ HV) as [H3 H4].
  assert (version_ok n (TagGptr_make p 0)) as Hnew.
  { split_and!; [done|done|done|]. unfold IsValid. cbn. congruence. }
  destruct HP as [t Ht|Hn|pre Hn Hpre _ _].
  - apply advances_update; [done..|congruence].
  - split; [split; [done|by apply map_Forall_insert_2]|].
    intros k' t' Hk'. rewrite lookup_insert_ne by congruence. eauto.
  - split; [split; [done|]|].
    + do 2 (apply map_Forall_insert_2; [done || split_and!; try done; unfold wf_ptr, two64; lia|]). done.
    + intros k' t' Hk'. rewrite !lookup_insert_ne by congruence. eauto.
Qed.

Lemma advances_del n M k : versions_ok (S n) M → versions_ok n (Del_spec M k) ∧ advances M (Del_spec M k).
Proof.
  intros HV. unfold Del_spec. destruct (M !! k) as [t|] eqn:E.
  - apply advances_update; [done|done|by_decide|done].
  - split; [by apply versions_less|]. intros k' t' Hk'. eauto.
Qed.

(** What a client holds stays, whatever happens to the keys. *)
Lemma cached_kept w w' M M' k q t v :
  kept root w w' → advances M M' → cached w M k q t v → cached w' M' k q t v.
Proof.
  intros [Hs Hn] HA (Hkey & Hq & Hqv & Hv & Hw & Hb & t' & Ht' & Hle). split_and!; [done|by apply Hn|done..|by apply Hs|].
  destruct (HA k t' Ht') as (t'' & Ht'' & Hle'). exists t''. split; [done|].
  destruct Hle as [->|], Hle' as [->|]; auto. right. lia.
Qed.

Lemma cached_current w M K k q v n :
  store_inv n w M K → store_key k → key_node (mem w) root k q → K !! k = Some v → cached w M k q (ver M k) v.
Proof.
  intros [HK [_ HV]] Hkey Hq Hv. pose proof (kv_lookup _ _ _ _ k HK) as Hl. rewrite Hv in Hl. destruct Hl as [H1 H2].
  destruct (key_node_value _ _ _ _ _ (inv_repr _ _ _ (kv_rt _ _ _ _ HK)) Hq) as (x & _ & _ & _ & HM).
  assert (M !! k = Some (ver M k)) as HMk by (unfold ver; by rewrite HM).
  split_and!; [done|done|by eapply key_node_valid; [apply HK|]|done|by apply (HV _ _ HMk)|done|]. exists (ver M k). auto.
Qed.

(** *** The laws *)

Definition stepped (n : nat) (w : world) (M : gmap bytes TagGptr) (w' : world) (K' : gmap bytes bytes) : Prop :=
  ∃ M', store_inv n w' M' K' ∧ ∀ k q t v, cached w M k q t v → cached w' M' k q t v.

Lemma fuel_key k : store_key k → (S (length k) < fuel)%nat.
Proof using Hfuel. intros [Hk _]. destruct (key_ok_length _ Hk). lia. Qed.

Lemma stepped_updated n w M K k v w' M' :
  versions_ok (S n) M → kv_updated root k w M K v w' M' →
  store_inv n w' M' (<[k := v]> K) ∧ ∀ k' q t v', cached w M k' q t v' → cached w' M' k' q t v'.
Proof.
  intros HV (HK' & Hkept & p & Hp & Hw & _ & HP). destruct (advances_put n M k p M' HV HP Hw Hp) as [HV' HA].
  split; [done|]. intros k' q t v'. by apply cached_kept.
Qed.

Lemma stepped_same n w M K w' :
  versions_ok (S n) M → kv_inv w' root M K → kept root w w' → stepped n w M w' K.
Proof.
  intros HV HK' Hkept. exists M. split; [split; [done|by apply versions_less]|].
  intros k' q t v'. apply cached_kept; [done|]. intros k t' Ht'. eauto.
Qed.

Lemma stepped_del n w M K k w' :
  versions_ok (S n) M → kv_inv w' root (Del_spec M k) (delete k K) → kept root w w' → stepped n w M w' (delete k K).
Proof.
  intros HV HK' Hkept. destruct (advances_del n M k HV) as [HV' HA]. exists (Del_spec M k).
  split; [done|]. intros k' q t v'. by apply cached_kept.
Qed.

Lemma reply_wp {A} ab (m : prog A) w Q :
  wp ab m w Q → reply id (run m w) ≠ Assertion ∧ ∀ r, reply id (run m w) = Answer r → Q (fst r) (snd r).
Proof. unfold wp, reply, id. destruct (run m w); [|done..]. split; [done|]. by intros r [= <-]. Qed.

Lemma radix_Put n w M K k v :
  store_inv (S n) w M K → store_key k → Z.of_nat (length v) ≤ kMaxValLen →
  kvs_Put k v w ≠ Assertion ∧ ∀ r, kvs_Put k v w = Answer r →
  fst r = 0 ∧ stepped n w M (snd r) (<[k := v]> K) ∨ fst r = -1 ∧ stepped n w M (snd r) K.
Proof using Hfuel L.
  intros [HK HV] Hkey Hv. pose proof (fuel_key k Hkey) as Hf. destruct Hkey as [Hk Hb].
  destruct (reply_wp _ _ _ _ (Put_wp fuel root k Hk Hb Hf w M K v HK Hv)) as [Hn H]. split; [exact Hn|].
  intros [r w'] Er. destruct (H _ Er) as [(Hr & M' & HU)|(Hr & HK' & Hkept & _)]; [left|right]; (split; [done|]).
  - exists M'. by eapply stepped_updated.
  - by apply stepped_same.
Qed.

Lemma putC_updated n w M K k v kp0 vp0 r w' :
  store_inv (S n) w M K → store_key k → putC_outcome root k w M K v kp0 vp0 r w' →
  p_ret r = 0 ∧ (∃ M', store_inv n w' M' (<[k := v]> K) ∧
     (∀ k q t v, cached w M k q t v → cached w' M' k q t v) ∧
     cached w' M' k (p_key r) (p_val r) v ∧ p_val r = ver M' k ∧
     ∃ p, Put_spec M k p M' ∧ wf_ptr p ∧ ptr_IsValid p = true) ∨
  r = mkPointers (-1) kp0 vp0 ∧ stepped n w M w' K.
Proof.
  intros [HK HV] Hkey [(Hr & Hq & M' & HU & Hv)|(Hr & HK' & Hkept & _)]; [left|right]; (split; [done|]).
  - destruct (stepped_updated n w M K k v w' M' HV HU) as [HI' Hc]. exists M'. split_and!; [done|done| |done|].
    + rewrite Hv. eapply cached_current; [exact HI'|done|done|by rewrite lookup_insert_eq].
    + destruct HU as (_ & _ & p & ? & ? & _ & ?). eauto.
  - by apply stepped_same.
Qed.

Lemma radix_PutC n w M K k v q t :
  store_inv (S n) w M K → store_key k → Z.of_nat (length v) ≤ kMaxValLen →
  kvs_PutC k v q t w ≠ Assertion ∧ ∀ r, kvs_PutC k v q t w = Answer r →
  p_ret (fst r) = 0 ∧ (∃ M', store_inv n (snd r) M' (<[k := v]> K) ∧
     (∀ k q t v, cached w M k q t v → cached (snd r) M' k q t v) ∧
     cached (snd r) M' k (p_key (fst r)) (p_val (fst r)) v) ∨
  p_ret (fst r) = -1 ∧ stepped n w M (snd r) K.
Proof using Hfuel L.
  intros HI Hkey Hv. pose proof (fuel_key k Hkey) as Hf. pose proof Hkey as [Hk Hb].
  destruct (reply_wp _ _ _ _ (PutC_wp fuel root k Hk Hb Hf w M K v q t (proj1 HI) Hv)) as [Hn H]. split; [exact Hn|].
  intros [r w'] Er. pose proof (H _ Er) as Ho. cbn [fst snd] in Ho |- *.
  destruct (putC_updated n w M K k v q t _ _ HI Hkey Ho) as [(? & M' & ? & ? & ? & _)|[-> ?]]; [left|by right].
  split; [done|]. by exists M'.
Qed.

Lemma radix_PutP n w M K k v q t v0 :
  store_inv (S n) w M K → cached w M k q t v0 → Z.of_nat (length v) ≤ kMaxValLen →
  kvs_PutP q t v w ≠ Assertion ∧ ∀ r, kvs_PutP q t v w = Answer r →
  p_ret (fst r) = 0 ∧ p_key (fst r) = q ∧ tag t < tag (p_val (fst r)) ∧
     (∃ M', store_inv n (snd r) M' (<[k := v]> K) ∧
     (∀ k q t v, cached w M k q t v → cached (snd r) M' k q t v) ∧
     cached (snd r) M' k q (p_val (fst r)) v) ∨
  p_ret (fst r) = -1 ∧ stepped n w M (snd r) K.
Proof using Hfuel L.
  intros HI (Hkey & Hq & _ & _ & _ & _ & t' & Ht' & Hle) Hv.
  destruct (reply_wp _ _ _ _ (PutC_ptr_wp fuel root k (fuel_key k Hkey) w M K v q t (proj1 HI) Hq Hv)) as [Hn H]. split; [exact Hn|].
  intros r Er. destruct (H r Er) as [Hpk Ho]. destruct r as [r w']; cbn [fst snd] in *.
  destruct (putC_updated n w M K k v q t _ _ HI Hkey Ho) as [(? & M' & HI' & ? & ? & Hpv & p & HP & Hw & Hp)|[-> ?]]; [left|by right].
  split; [done|]. split; [done|]. split; [|exists M'; by rewrite <- Hpk].
  rewrite Hpv. unfold ver. rewrite (Put_spec_same _ _ _ _ HP). unfold put_result. rewrite Ht'. cbn [default from_option id].
  destruct (succ_version n t' p (proj2 (proj2 HI) _ _ Ht') Hw ltac:(congruence)) as [_ ?].
  destruct Hle as [->|]; lia.
Qed.

Lemma reply_total {A} (m : prog A) w Q :
  wp False m w Q → ∃ a w', reply id (run m w) = Answer (a, w') ∧ Q a w'.
Proof. intros H. destruct (wp_total _ _ _ H) as (a & w' & -> & HQ). by exists a, w'. Qed.

Lemma radix_Get n w M K k len :
  store_inv n w M K → store_key k →
  kvs_Get k len w = Answer (match K !! k with
    | None => mkFetched (-2) len None
    | Some v => if len <? Z.of_nat (length v) then mkFetched (-1) (Z.of_nat (length v)) None
                else mkFetched 0 (Z.of_nat (length v)) (Some v)
    end, w).
Proof using L.
  intros [HK _] [Hk Hb]. destruct (reply_total _ _ _ (Get_wp root k Hk Hb False w M K len HK)) as (a & w' & E & -> & ->).
  exact E.
Qed.

Lemma radix_GetC n w M K k len :
  store_inv n w M K → store_key k →
  ∃ f q t, kvs_GetC k len w = Answer (f, q, t, w) ∧
    match K !! k with
    | None => f_ret f = 0 ∧ ptr_IsValid q && IsValid t = false
    | Some v => if len <? Z.of_nat (length v) then f_ret f = -1
                else f = mkFetched 0 (Z.of_nat (length v)) (Some v) ∧ cached w M k q t v
    end.
Proof using Hpast L.
  intros HI Hkey. pose proof Hkey as [Hk Hb]. pose proof (proj1 HI) as HK.
  destruct (reply_total _ _ _ (GetC_wp root k Hk Hb False past w M K len 0 TagGptr_null HK Hpast)) as (a & w' & E & -> & q & -> & Hq).
  exists (fetch_result k K len), q, (ver M k). split; [exact E|]. unfold fetch_result.
  pose proof (kv_lookup _ _ _ _ k HK) as Hl. destruct (K !! k) as [v|] eqn:EK.
  - destruct (len <? Z.of_nat (length v)); [done|]. split; [done|]. eapply cached_current; [done|done| |done].
    unfold key_ptr_ok in Hq. destruct (M !! k) eqn:EM; [done|]. destruct Hl as [Hl _]. unfold ver in Hl.
    rewrite EM in Hl. unfold IsValid in Hl. cbn in Hl. by rewrite null_invalid in Hl.
  - rewrite Hl. by rewrite andb_false_r.
Qed.

Lemma ver_wf n w M K k q : store_inv n w M K → key_node (mem w) root k q → M !! k = Some (ver M k) ∧ version_ok n (ver M k).
Proof.
  intros [HK HV] Hq. destruct (key_node_value _ _ _ _ _ (inv_repr _ _ _ (kv_rt _ _ _ _ HK)) Hq) as (x & _ & _ & _ & HM).
  assert (M !! k = Some (ver M k)) as HMk by (unfold ver; by rewrite HM). split; [done|]. by apply HV in HMk.
Qed.

Lemma radix_GetP n w M K k q t v len get_value :
  store_inv n w M K → cached w M k q t v → len ≤ kMaxValLen →
  ∃ f t', kvs_GetP q t len get_value w = Answer (f, t', w) ∧
    match K !! k with
    | None => f_ret f = 0 ∧ gptr_ t' = 0
    | Some v' =>
        (get_value = false ∧ v' = v ∧ f = mkFetched 0 len None ∧ t' = t) ∨
        if len <? Z.of_nat (length v') then f_ret f = -1
        else f = mkFetched 0 (Z.of_nat (length v')) (Some v') ∧ cached w M k q t' v' ∧
          (t' = t ∧ v' = v ∨ tag t < tag t')
    end.
Proof using L.
  intros HI (Hkey & Hq & _ & Hvt & Hwt & Hbt & t' & Ht' & Hle) Hl. pose proof (proj1 HI) as HK.
  destruct (ver_wf n w M K k q HI Hq) as (HMk & _ & _ & Hwv & Hnull). assert (t' = ver M k) as -> by congruence.
  destruct (reply_total _ _ _ (GetC_ptr_wp root k False w M K q t len get_value HK Hq Hl)) as (a & w' & E & -> & ->).
  pose proof (kv_lookup _ _ _ _ k HK) as Hlk. unfold fetch_result in E. cbv zeta in E.
  destruct (TagGptr_eqb (ver M k) t && negb get_value) eqn:Eb.
  - apply andb_true_iff in Eb as [Et Eg]. apply TagGptr_eqb_spec in Et; [|done..]. eexists _, _. split; [exact E|].
    rewrite Et in Hlk. destruct (K !! k) as [v'|]; [|congruence]. left. destruct Hlk as [_ Hb].
    destruct get_value; [done|]. rewrite Hbt in Hb. by injection Hb as _ ->.
  - destruct (K !! k) as [v'|] eqn:EK.
    + destruct Hlk as [Hv' Hb']. destruct (len <? Z.of_nat (length v')); eexists _, _; (split; [exact E|]); [by right|].
      right. split; [done|]. cbn [f_ret Z.eqb]. split; [by eapply cached_current|].
      destruct Hle as [Heq|]; [left|by right]. split; [done|]. rewrite Heq, Hbt in Hb'. by injection Hb' as _ ->.
    + eexists _, _. split; [exact E|]. split; [done|]. cbn [f_ret Z.eqb]. by apply Hnull.
Qed.

Lemma radix_Del n w M K k :
  store_inv (S n) w M K → store_key k →
  ∃ w', kvs_Del k w = Answer (match K !! k with Some _ => 0 | None => -2 end, w') ∧ stepped n w M w' (delete k K).
Proof using Hfuel L.
  intros [HK HV] Hkey. pose proof (fuel_key k Hkey) as Hf. destruct Hkey as [Hk Hb].
  destruct (reply_total _ _ _ (Del_wp fuel root k Hk Hb Hf False w M K HK)) as (a & w' & E & -> & HK' & Hkept).
  exists w'. split; [exact E|]. by apply stepped_del.
Qed.

Lemma radix_DelP n w M K k q t v :
  store_inv (S n) w M K → cached w M k q t v →
  ∃ r w', kvs_DelP q t w = Answer (r, w') ∧ stepped n w M w' (delete k K).
Proof using Hfuel L.
  intros [HK HV] (Hkey & Hq & _).
  destruct (reply_total _ _ _ (DelC_ptr_wp fuel root k (fuel_key k Hkey) False w M K q HK Hq)) as (a & w' & E & _ & _ & _ & HK' & Hkept).
  exists a, w'. split; [exact E|]. by apply stepped_del.
Qed.

#[local] Instance RadixStoreLaws : StoreLaws RadixStore.
Proof using Hfuel Hpast L.
  refine {| sview := gmap bytes TagGptr; s_inv := store_inv; s_cached := cached; CacheIface.s_key := store_key |}.
  - intros n w M K [? ?]. split; [done|]. by apply versions_less.
  - intros w M k q t v (_ & _ & Hq & Hv & _). split_and!; [done|done|].
    intros H0. unfold IsValid in Hv. by rewrite H0, null_invalid in Hv.
  - intros. by eapply (radix_Get n).
  - intros. by eapply (radix_GetC n).
  - intros. by eapply (radix_GetP n).
  - intros. by eapply radix_Put.
  - intros. by eapply radix_PutC.
  - intros. by eapply radix_PutP.
  - intros. by eapply radix_Del.
  - intros. by eapply radix_DelP.
Defined.

End RadixStore.

(** ** Histories *)

Section History.
Context {N : Nvmm} {L : NvmmLaws N} {I : ItemCache} {IL : ItemLaws I}.
Context (fuel : nat) (root : Gptr) (past : Z) (Hfuel : (S MAX_KEY_LEN < fuel)%nat) (Hpast : is_byte past).
Context (stack : bytes).

#[local] Abbreviation radix := (RadixStore fuel root past).
#[local] Instance TheLaws : StoreLaws radix := RadixStoreLaws fuel root past Hfuel Hpast.

(** Clients that have nothing in their caches. *)
Definition fresh_clients (xs : list ics) : list client := map (λ i, mkClient i ∅ 0) xs.

Definition empty_cache (n : nat) (i : ics) : Prop := i_inv n i ∧ linked i = ∅.

(** A cache with nothing in it is coherent with any store of short values. *)
Lemma coherent_empty n xs w M K :
  Forall (empty_cache n) xs → (∀ k, s_key (S := radix) k → VAL_LEN ≤ i_max k) → store_inv root n w M K →
  map_Forall (λ _ v, Z.of_nat (length v) ≤ VAL_LEN) K →
  all_coherent (S := radix) n (fresh_clients xs, w : sst (Store := radix)) M K.
Proof using Hfuel Hpast L.
  intros Hi Hm Hs Hsh. split; [exact Hs|]. intros j cl Hj. cbn [fst snd] in *. unfold fresh_clients in Hj.
  apply list_lookup_fmap_Some in Hj as (i & -> & Hj). pose proof (Forall_lookup_1 _ _ _ _ Hi Hj) as [Hn Hl].
  split; [done|exact Hs|done|done|]. intros k a Hk. cbn [as_api items c_items] in Hk.
  by rewrite Hl, lookup_empty in Hk.
Qed.

(** Whatever the items are, if they keep the laws. *)
Lemma coherent_history n cs xs w M K :
  Forall (empty_cache (7 * length cs + n)) xs → (∀ k, s_key (S := radix) k → VAL_LEN ≤ i_max k) →
  store_inv root (7 * length cs + n) w M K → map_Forall (λ _ v, Z.of_nat (length v) ≤ VAL_LEN) K →
  Forall (λ jc, (fst jc < length xs)%nat ∧ call_ok (S := radix) (snd jc)) cs →
  match acts (S := radix) stack cs (fresh_clients xs, w : sst (Store := radix)) with
  | Answer (rs, (_, w')) => ∃ M' K', store_inv root n w' M' K' ∧ shared_run K (map snd cs) rs K'
  | Assertion => False
  | Never => True
  end.
Proof using Hfuel Hpast IL L.
  intros Hi Hm Hs Hsh Hok.
  pose proof (acts_coherent (S := radix) stack n cs _ M K (coherent_empty _ xs w M K Hi Hm Hs Hsh)) as H.
  cbn [fst] in H. unfold fresh_clients in H at 1. rewrite length_map in H. specialize (H Hok).
  destruct (acts _ _ _) as [[rs [xs' w']]| |]; [|done..]. destruct H as (M' & K' & HA & Hr). exists M', K'.
  split; [apply HA|done].
Qed.

End History.
