(* ===== verification/CacheHistory.v ===== *)
(** Histories of clients with caches, on the store of the radix tree.

    The theorem composes the parts of the program: the cache service of [cache_api.cc], over
    the items of [items.c] with the slab memory of [slabs.c] and the hash table of [assoc.c]
    at each client, and the store of [src/kvs_radix_tree.cc] with its radix tree in the
    memory that all share. *)

From S2P Require Import Prelude TagPtr Fam RadixTree RadixInv RadixSpec RadixPut RadixOps.
From S2P Require Import KvsRadixTree CacheIface CacheApi CacheApiSpec CacheClients CacheStore.
From S2P Require Import Item Slabs Assoc Items ItemFrame ItemInv ItemAlloc ItemAllocSpec ItemNew ItemOps CacheItems.

(** ** The cache that a client starts with *)

(** Room for a value of [VAL_LEN] bytes under the longest key. *)
Definition roomy (st : alloc_settings) : Prop :=
  VAL_LEN + sizeof_item + Z.of_nat MAX_KEY_LEN + 1 + 255 + 8 ≤ slab_chunk_size_max (slab_settings (item_st st)).

Lemma roomy_max st k : roomy st → store_key k → VAL_LEN ≤ max_bytes st k.
Proof.
  intros Hr [[_ Hk]%andb_true_iff _]. apply Nat.leb_le in Hk. unfold roomy, max_bytes in *.
  assert (Z.of_nat MAX_KEY_LEN ≤ 250) by by_decide. rewrite decide_True by lia. lia.
Qed.

Section Composition.
Context {N : Nvmm} {L : NvmmLaws N} (st : alloc_settings) (hash : bytes → Z).
Context (Hst : items_settings_ok st) (Hroomy : roomy st).
Context (fuel : nat) (root : Gptr) (past : Z) (Hfuel : (S MAX_KEY_LEN < fuel)%nat) (Hpast : is_byte past).
Context (stack : bytes).

#[local] Abbreviation radix := (RadixStore fuel root past).
#[local] Abbreviation slab_items := (SlabItems st hash).


End Composition.

(** ** Witnesses *)

(** Pages of 4096 bytes, and chunks of 96, 192, 1024 and 4096; memory is handed out from
    below, above all pages there are. *)
Definition service_slabs : settings := mkSettings 4096 4096 4096 48 true false.
Definition service_settings : alloc_settings :=
  mkAllocSettings (mkItemSettings service_slabs true 0 0) false 0 20 40 true 0 false.

Definition service_start : slab_state :=
  default started (slabs_init service_slabs never id 65536 false (Some [96; 192; 1024; 0]) 0 0 (λ _, mkOs true 0)).

Definition above (s : slab_state) : os :=
  mkOs true (4096 + foldr Z.max 0 (mjoin (slab_list <$> slabclass s)) + slab_page_size service_slabs).

Definition calm : nat → env := λ i, mkEnv (10 + Z.of_nat i) (λ _, true) true above 4.

Definition new_items : sitems := mkSItems (Items.empty_cache service_start) ∅ calm.

Lemma max_ge l (x : Z) : x ∈ l → x ≤ foldr Z.max 0 l.
Proof. induction 1; cbn; lia. Qed.

Lemma above_ok s id : slabs_ok service_slabs s → valid s id → malloc_ok service_slabs s id (above s).
Proof.
  intros [_ Hp _] Hid _. right. set (m := foldr Z.max 0 (mjoin (slab_list <$> slabclass s))).
  assert (0 ≤ m) by (unfold m; generalize (mjoin (slab_list <$> slabclass s)); intros l; induction l; cbn; lia).
  split; [cbn; fold m; lia|]. intros id' k q Hq. right. cbn. fold m. pose proof Hq as [Hl _].
  assert (q ≤ m) as Hm.
  { apply max_ge, list_elem_of_join. exists (slab_list (cls s id')). split; [by eapply list_elem_of_lookup_2|].
    apply list_elem_of_fmap. exists (cls s id'). split; [done|]. unfold cls in *.
    destruct (slabclass s !! id') as [p|] eqn:E; [|by rewrite list_lookup_total_alt, E in Hl].
    rewrite list_lookup_total_alt, E. by eapply list_elem_of_lookup_2. }
  assert (plen service_slabs s id' ≤ 4096); [|cbn; lia].
  destruct (p_pool _ _ Hp id' k q Hq) as [->|Hid']; [done|]. rewrite plen_valid by done.
  by destruct (page_len_range service_slabs s id' Hp Hid').
Qed.

Lemma service_start_ok : slabs_ok service_slabs service_start.
Proof.
  assert (slabs_init service_slabs never id 65536 false (Some [96; 192; 1024; 0]) 0 0 (λ _, mkOs true 0) = Some service_start) as E
    by by vm_compute.
  eapply slabs_init_ok; [| |apply E]; [|by split].
  intros i sz sz'. unfold next_size. destruct i as [|[|[|[|[|i]]]]]; simpl; try (intros [= <-]; by vm_compute).
  all: rewrite ?lookup_total_nil; simpl; intros H; try discriminate.
Qed.

Lemma new_items_inv : items_inv service_settings hash0 77 new_items ∧ linked_of (si_cache new_items) = ∅.
Proof.
  split; [split_and!|].
  - by_decide.
  - by vm_compute.
  - intros i s id. apply above_ok.
  - exists (λ _, []). apply (inv_check _ _ _ _ _ 0); [apply empty_cache_ok, service_start_ok|by vm_compute|unfold LARGEST_ID; lia|by vm_compute].
  - by vm_compute.
Qed.

(** Two clients: what one writes the other reads, also when it has an older value cached. *)
Definition two_clients : list (nat * call) :=
  [(0%nat, CallPut key_a [104; 105]); (1%nat, CallGet key_a); (0%nat, CallPut key_a [104; 101; 121]); (1%nat, CallGet key_a);
   (1%nat, CallPut key_a [33; 33]); (0%nat, CallGet key_a); (0%nat, OtherPut key_a [33]); (1%nat, CallGet key_a);
   (1%nat, CallDel key_a); (0%nat, CallGet key_a); (0%nat, CallDel [98])].

#[local] Abbreviation test_store := (RadixStore 200 16 0).
#[local] Abbreviation test_items := (SlabItems service_settings hash0).
#[local] Abbreviation two_runs := (acts (S := test_store) (I := test_items) [] two_clients
  (fresh_clients (I := test_items) [new_items; new_items], new_world : sst (Store := test_store))).

Definition two_results : answer (list result) :=
  match two_runs with
  | Answer (rs, _) => Answer rs
  | Assertion => Assertion
  | Never => Never
  end.

Example two_clients_run : two_results = Answer
  [RPut 0; RGet (0, Some [104; 105]); RPut 0; RGet (0, Some [104; 101; 121]);
   RPut 0; RGet (0, Some [33; 33]); ROther 0; RGet (-1, None); RDel (Some 0); RGet (-1, None); RDel None].
Proof. vm_compute. reflexivity. Qed.

Lemma new_store_inv n : Z.of_nat n < two64 → store_inv 16 n new_world {[ [] := TagGptr_null ]} ∅.
Proof.
  intros Hn. split; [apply new_store|]. split; [done|]. intros k t [_ <-]%lookup_singleton_Some.
  split_and!; [done|done|by_decide|done].
Qed.

Lemma service_settings_ok : items_settings_ok service_settings.
Proof. by split. Qed.


(** An [add] must not store a key that is there; but only the cache without a store
    ([CACHE_MODE] 5) looks at the command: the value is overwritten, in all modes. *)
Definition add_existing (mode : nat) : answer (store_item_type * fetched) :=
  match (Cache_Put (S := test_store) (I := test_items) mode key_a [104; 105];;
         it ← alloc false key_a 2;
         set_data it [104; 111];;
         r ← store_item mode it NREAD_ADD false;
         f ← on_store (kvs_Get key_a 10);
         mret (r, f)) (mkApi (I := test_items) new_items (new_world : sst (Store := test_store)) ∅ 0) with
  | AOk r _ => Answer r
  | AAssert => Assertion
  | _ => Never
  end.

Theorem add_overwrites :
  map add_existing [0; 1; 2; 3]%nat = replicate 4 (Answer (STORED, mkFetched 0 2 (Some [104; 111]))) ∧
  add_existing 5 = Answer (NOT_STORED, mkFetched (-2) 10 None).
Proof. vm_compute. split; reflexivity. Qed.
