(* ===== verification/TextService.v ===== *)
(** What the text protocol does to the values in the cache, on the items of [items.c]: the storage
    commands and the arithmetic. *)

From stdpp Require Import strings.
From S2P Require Import Prelude TagPtr Fam Itoa Util Item Slabs Assoc Items ItemInv ItemAlloc CacheItems.
From S2P Require Import RadixTree RadixOps KvsRadixTree CacheIface CacheApi CacheApiSpec CacheStore CacheHistory CacheValues StoreCommands.
From S2P Require Import Tokenize Command CommandSpec CacheDelta GetCommand.

(** ** The properties *)



(** C18: the text after the key in the line of a value, written by [make_ascii_get_suffix], is right in both formats,
    with and without the version, and always fits in the 50 bytes that an object of the suffix cache has:
    for all flags, lengths and versions. *)
Theorem get_suffix_fits inline return_cas flags nbytes cas :
  0 ≤ flags < two32 → 0 ≤ nbytes - 2 < 2 ^ 31 → 0 ≤ cas < two64 →
  ∃ b, make_ascii_get_suffix inline return_cas (if flags =? 0 then None else Some flags) nbytes cas (replicate SUFFIX_SIZE 0) =
    Some (b, length (suffix_text inline return_cas flags nbytes cas)) ∧
  take (length (suffix_text inline return_cas flags nbytes cas)) b = suffix_text inline return_cas flags nbytes cas ∧
  length b = SUFFIX_SIZE.
Proof. apply suffix_ok. Qed.


(** ** Witnesses *)

Lemma get_suffix_fits_witness : ∃ b,
  make_ascii_get_suffix false true (Some 7) 12 99 (replicate SUFFIX_SIZE 0) = Some (b, 10%nat) ∧ take 10 b = chars " 7 10 99" ++ crlf true.
Proof.
  destruct (get_suffix_fits false true 7 12 99) as (b & E & Ht & _); [unfold two32; lia|lia|unfold two64; lia|].
  exists b. split; [exact E|exact Ht].
Defined.

#[local] Existing Instance SlabItemsLaws.
#[local] Existing Instance SlabDeltaItems.
#[local] Existing Instance SlabDeltaLaws.
#[local] Abbreviation test_store := (RadixStore 200 16 0).
#[local] Abbreviation test_items := (SlabItems service_settings hash0).
#[local] Abbreviation test_laws := (SlabItemsLaws service_settings hash0 service_settings_ok).
#[local] Abbreviation test_delta := (SlabDeltaItems service_settings hash0).
#[local] Abbreviation test_delta_laws := (SlabDeltaLaws service_settings hash0 service_settings_ok).

Definition empty_api : @api _ test_store test_items := mkApi (I := test_items) new_items (new_world : sst (Store := test_store)) ∅ 0.

Lemma empty_data : data_ok (S := test_store) (I := test_items) (IL := test_laws) 77 empty_api.
Proof.
  destruct new_items_inv as [H1 H2]. split; [exact H1|]. intros k a Ha.
  change (linked_of (si_cache new_items) !! k = Some a) in Ha. rewrite H2 in Ha. done.
Qed.

(** The client's item for the number 41, the item stored, and the item a second time. *)
Definition alloc_41 : @AM _ test_store test_items Z :=
  a ← on_items (item_alloc true key_a 0 0 (Z.of_nat (length (chars "41")) + 2)); set_data a (chars "41" ++ crlf true);; mret a.

Definition is_ok {A} (r : @ares _ test_store test_items A) : bool := match r with AOk _ _ => true | _ => false end.

Lemma is_ok_true {A} (r : @ares _ test_store test_items A) : is_ok r = true → ∃ a s, r = AOk a s.
Proof. destruct r; [eauto|done..]. Qed.

Lemma alloc_41_runs : is_ok (alloc_41 empty_api) = true.
Proof. vm_compute. reflexivity. Qed.

(** An item of the client, which is not stored yet. *)
Lemma client_item : ∃ a s, data_ok (S := test_store) (I := test_items) (IL := test_laws) 76 s ∧
  mine (S := test_store) (I := test_items) (IL := test_laws) s key_a (chars "41") a ∧
  (∀ k, val_at (IL := test_laws) s k = None) ∧ alloc_41 empty_api = AOk a s.
Proof.
  pose proof (alloc_step (S := test_store) (I := test_items) (IL := test_laws) 76 empty_api key_a 0 0 (chars "41") empty_data ltac:(by_decide)) as H.
  destruct (is_ok_true _ alloc_41_runs) as (a & s & E). unfold awp in H. unfold alloc_41 in E |- *.
  destruct (on_items _ empty_api) as [a1 s1| | |] eqn:E1 in H; [|by unfold mbind, AM_bind in E; rewrite E1 in E..].
  destruct H as (s2 & _ & E2 & _ & HD & [_ HO] & HV & _ & Hm & _).
  exists a1, s2. split_and!; [done|done| |].
  - assert (∀ k, val_at (IL := test_laws) empty_api k = None) as He.
    { intros k. unfold val_at. change (linked (items empty_api)) with (linked_of (si_cache new_items)). by rewrite (proj2 new_items_inv). }
    intros k. destruct (decide (k = key_a)) as [->|Hk]; [by rewrite HV|]. by destruct (HO k Hk) as [-> |].
  - rewrite (abind_ok (on_items _) _ empty_api a1 s1 E1). by rewrite (abind_ok (set_data _ _) _ s1 tt s2 E2).
Qed.


Definition store_41 : @AM _ test_store test_items store_item_type := a ← alloc_41; do_store_item a NREAD_ADD true.

Lemma store_41_runs : is_ok (store_41 empty_api) = true.
Proof. vm_compute. reflexivity. Qed.

(** The number is cached. *)
Lemma cached_41 : ∃ s, store_41 empty_api = AOk STORED s ∧
  data_ok (S := test_store) (I := test_items) (IL := test_laws) 71 s ∧ val_at (IL := test_laws) s key_a = Some (chars "41" ++ crlf true) ∧
  ∀ k, k ≠ key_a → val_at (IL := test_laws) s k = None.
Proof.
  destruct (is_ok_true _ store_41_runs) as (r & s' & E). destruct client_item as (a & s & HD & Hm & HV & Ea).
  pose proof (store_item_wp (IL := test_laws) (DI := test_delta) (DL := test_delta_laws) 71 s key_a (chars "41") a NREAD_ADD true HD Hm
    ltac:(intros d Hd; rewrite (HV key_a) in Hd; discriminate)) as H.
  unfold store_41 in *. rewrite (abind_ok alloc_41 _ empty_api a s Ea) in *. unfold awp in H. rewrite E in H.
  destruct H as (HD' & [_ HO] & o & same & Ho & Hr). exists s'. assert (o = None) as -> by (destruct Ho as [->|]; [apply HV|done]).
  cbn [stored_as] in Hr. injection Hr as -> HV'. split_and!; [exact E|exact HD'|exact HV'|].
  intros k Hk. destruct (HO k Hk) as [-> |]; [apply HV|done].
Qed.


(** The answer to [incr] is 42, and that to a [decr] by more than the number is 0, with the old width. *)
Definition delta_run (incr : bool) (delta : Z) : option (delta_result_type * option bytes) :=
  match (a ← alloc_41; do_store_item a NREAD_ADD true;; item_remove a) empty_api with
  | AOk _ s =>
      match do_add_delta (S := test_store) (I := test_items) (DI := test_delta) key_a incr delta None s with
      | AOk r s' => Some (r.1, val_at (IL := test_laws) s' key_a)
      | _ => None
      end
  | _ => None
  end.

Example delta_runs :
  delta_run true 1 = Some (OK (chars "42"), Some (chars "42" ++ crlf true)) ∧
  delta_run true 100 = Some (OK (chars "141"), Some (chars "141" ++ crlf true)) ∧
  delta_run false 50 = Some (OK (chars "0"), Some (chars "0 " ++ crlf true)).
Proof. vm_compute. split_and!; reflexivity. Qed.

Definition much : memory := mkMemory true true true 9.

