(* ===== verification/TextSession.v ===== *)
(** The text commands behind the state machine of a connection: [process_command] and [complete_nread_ascii] are a
    service of [Drive], and keep its laws.  With it: what a client sees does not depend on how the network cuts its bytes. *)

From stdpp Require Import strings relations.
From S2P Require Import Prelude Itoa Util Tokenize KvsRadixTree CacheIface CacheApi SlabRebalance Command CommandSpec ConnOut Drive DriveSpec DriveTotal.

(** What a session asks besides: the pieces of the answer to a [get], the bytes of an item that arrive, and what [conn_release_items] gives
    back after the answer. *)
Class Sessions (C : Calls) := {
  call_pieces : cst → list bytes;
  call_put : Z → nat → bytes → cst → cst;
  call_release : cst → answer cst
}.

Class SessionLaws (C : Calls) (T : Sessions C) := {
  pieces_full x : Forall (λ b, b ≠ []) (call_pieces x);
  call_put_more it o a b l x : call_put it o (a :: b :: l) x = call_put it (S o) (b :: l) (call_put it o [a] x);
  get_done buf toks cas c e x c' e' x' : call_get_command buf toks cas c e x = Answer (c', e', x') → command_done c → command_done c';
  stat_done buf toks c e x c' e' x' : call_stat buf toks c e x = Answer (c', e', x') → command_done c → command_done c'
}.

Section Text.
Context {D : Doubles} {C : Calls} {T : Sessions C}.
Context (process_started current_time : Z) (CACHE_MODE : nat).

(** The state of the service: the settings, [errno] and the rest.  A new answer always finds a message. *)
#[global] Instance TextService : Service := {|
  svc := tunables * bool * cst;
  svc_line l c v :=
    let '(t, e, x) := v in
    '(_, s) ← process_command process_started current_time CACHE_MODE true l 0 (mkServer c t e x);
    Answer (the_conn s, match state (the_conn s) with conn_mwrite => call_pieces (rest s) | _ => [] end, (tuned s, erange s, rest s));
  svc_complete c v :=
    let '(t, e, x) := v in
    '(_, s) ← complete_nread_ascii (mkServer c t e x);
    Answer (the_conn s, (tuned s, erange s, rest s));
  svc_put it o b v := let '(t, e, x) := v in (t, e, call_put it o b x);
  svc_remove it v := let '(t, e, x) := v in x ← call_remove it x; Answer (t, e, x);
  svc_release v := let '(t, e, x) := v in x ← call_release x; Answer (t, e, x)
|}.

(** ** The commands answer, or go on *)

Definition leaves {A} (m : CM A) : Prop := ∀ s a s', command_done (the_conn s) → m s = Answer (a, s') → command_done (the_conn s').

Lemma leaves_bind {A B} (m : CM A) (f : A → CM B) : leaves m → (∀ a, leaves (f a)) → leaves (m ≫= f).
Proof using.
  intros Hm Hf s b s' Hs. unfold mbind, CM_bind. destruct (m s) as [[a s1]| |] eqn:E; try done. apply Hf. by eapply Hm.
Qed.

Lemma leaves_same {A} (m : CM A) : (∀ s a s', m s = Answer (a, s') → the_conn s' = the_conn s) → leaves m.
Proof using. intros H s a s' Hs E. by rewrite (H s a s' E). Qed.

Lemma leaves_upd_conn f : (∀ c, command_done c → command_done (f c)) → leaves (upd_conn f).
Proof using. intros Hf s a s' Hs [= <- <-]. by apply Hf. Qed.

Lemma leaves_ret {A} (a : A) : leaves (mret a).
Proof using. apply leaves_same. by intros s a' s' [= <- <-]. Qed.

Lemma leaves_call {A} (f : cst → answer (A * cst)) : leaves (call f).
Proof using. apply leaves_same. intros s a s'. unfold call. destruct (f (rest s)) as [[? ?]| |]; [|done..]. by intros [= <- <-]. Qed.

Lemma leaves_call_ f : leaves (call_ f).
Proof using. apply leaves_same. intros s a s'. unfold call_. destruct (f (rest s)); [|done..]. by intros [= <- <-]. Qed.

Lemma leaves_calls {A} (f : cst → A * cst) : leaves (calls f).
Proof using. apply leaves_call. Qed.

Lemma leaves_asking {A} (f : cst → A) : leaves (asking f).
Proof using. apply leaves_same. by intros s a s' [= <- <-]. Qed.

Lemma leaves_upd_set f : leaves (upd_set f).
Proof using. apply leaves_same. by intros s a s' [= <- <-]. Qed.

Lemma leaves_get_conn : leaves get_conn.
Proof using. apply leaves_same. by intros s a s' [= <- <-]. Qed.

Lemma leaves_get_set : leaves get_set.
Proof using. apply leaves_same. by intros s a s' [= <- <-]. Qed.

Lemma leaves_get_errno : leaves get_errno.
Proof using. apply leaves_same. by intros s a s' [= <- <-]. Qed.

Lemma leaves_with_errno {A} r (a : A) : leaves (with_errno r a).
Proof using. apply leaves_same. by intros s a' s' [= <- <-]. Qed.

Lemma leaves_libc_strtol x : leaves (libc_strtol x).
Proof using. apply leaves_same. intros s a s'. unfold libc_strtol. destruct (strtoll x) as [[v ?] r]. by intros [= <- <-]. Qed.

Lemma leaves_libc_strtoul x : leaves (libc_strtoul x).
Proof using. apply leaves_same. intros s a s'. unfold libc_strtoul. destruct (strtoull x) as [[v ?] r]. by intros [= <- <-]. Qed.

Lemma leaves_safe_strtod x : leaves (safe_strtod x).
Proof using. apply leaves_same. intros s a s'. unfold safe_strtod. destruct (strtod x) as [[d ?] r]. by intros [= <- <-]. Qed.

(** The fields that have no part in it. *)
Lemma leaves_noreply b : leaves (upd_conn (set_noreply b)).
Proof using. apply leaves_upd_conn. intros c. unfold command_done. cbn. by destruct (state c). Qed.

Lemma leaves_c_item x : leaves (upd_conn (set_c_item x)).
Proof using. apply leaves_upd_conn. intros c. unfold command_done. cbn. by destruct (state c). Qed.

Lemma leaves_nread n x : leaves (upd_conn (set_nread n x)).
Proof using. apply leaves_upd_conn. intros c. unfold command_done. cbn. by destruct (state c). Qed.

Lemma leaves_sbytes n : leaves (upd_conn (set_sbytes n)).
Proof using. apply leaves_upd_conn. intros c. unfold command_done. cbn. by destruct (state c). Qed.

Lemma leaves_swallow : leaves (upd_conn (set_write_and_go conn_swallow)).
Proof using.
  apply leaves_upd_conn. intros c. unfold command_done, goes_on. cbn. destruct (state c); try done. intros [? _]. auto.
Qed.

Lemma leaves_state x : match x with conn_nread | conn_closing | conn_watch => True | _ => False end → leaves (conn_set_state x).
Proof using. intros Hx. apply leaves_upd_conn. intros c _. unfold command_done. cbn. by destruct x. Qed.

Lemma out_string_conn str s : out_string str s = Answer (tt, mkServer (out_conn str (the_conn s)) (tuned s) (erange s) (rest s)).
Proof using. unfold out_string, out_conn, mbind, CM_bind, get_conn. cbn. by destruct (noreply (the_conn s)). Qed.

Lemma out_conn_done str c : command_done (out_conn str c) ∧ (state (out_conn str c) = conn_write ∨ state (out_conn str c) = conn_new_cmd).
Proof using.
  unfold out_conn. destruct (noreply c); cbn; [by auto|]. split; [|by auto]. unfold command_done. cbn. split; [|by left].
  by intros [_ ?]%app_eq_nil.
Qed.

Lemma leaves_out_string str : leaves (out_string str).
Proof using. intros s a s' _. rewrite out_string_conn. intros [= <- <-]. apply out_conn_done. Qed.
End Text.

Create HintDb leaves.
#[export] Hint Resolve leaves_call leaves_call_ leaves_calls leaves_asking leaves_upd_set leaves_get_conn leaves_get_set leaves_get_errno
  leaves_with_errno leaves_libc_strtol leaves_libc_strtoul leaves_safe_strtod leaves_noreply leaves_c_item leaves_nread leaves_sbytes
  leaves_swallow leaves_out_string leaves_ret : leaves.
#[export] Hint Extern 1 (leaves (conn_set_state _)) => by apply leaves_state : leaves.

Ltac leave_step :=
  lazymatch goal with
  | |- leaves (match ?x with _ => _ end) => destruct x
  | |- leaves (_ ≫= _) => apply leaves_bind; [|intros ?]
  | |- leaves _ => solve [eauto with leaves]
  end.
Ltac leaving := repeat (cbv zeta; leave_step).

Section Commands.
Context {D : Doubles} {C : Calls} {T : Sessions C} {L : SessionLaws C T}.
Context (process_started current_time : Z) (CACHE_MODE : nat).

Lemma leaves_set_noreply_maybe buf tokens : leaves (set_noreply_maybe buf tokens).
Proof. unfold set_noreply_maybe. leaving. Qed.
#[local] Hint Resolve leaves_set_noreply_maybe : leaves.

Lemma leaves_update comm cas buf tokens : leaves (process_update_command process_started current_time buf tokens comm cas).
Proof.
  unfold process_update_command, update_item, update_refused, update_numbers, record_set, bad_line, out_of_memory, out, c_strtoul, c_strtol, c_strtoull. leaving.
Qed.

Lemma leaves_touch buf tokens : leaves (process_touch_command process_started current_time buf tokens).
Proof. unfold process_touch_command, bad_line, out, c_strtol. leaving. Qed.

Lemma leaves_arithmetic incr buf tokens : leaves (process_arithmetic_command buf tokens incr).
Proof. unfold process_arithmetic_command, bad_line, out_of_memory, out, c_strtoull. leaving. Qed.

Lemma leaves_delete buf tokens : leaves (process_delete_command CACHE_MODE buf tokens).
Proof. unfold process_delete_command, delete_valid, record_delete, bad_line, out. leaving. Qed.

Lemma leaves_settings buf tokens : leaves (process_verbosity_command buf tokens) ∧ leaves (process_slabs_automove_command buf tokens) ∧
  leaves (process_watch_command buf tokens) ∧ leaves (process_memlimit_command buf tokens) ∧ leaves (process_lru_command buf tokens) ∧
  leaves (lru_crawler_command buf tokens) ∧ leaves (flush_all process_started current_time buf tokens) ∧ leaves shutdown.
Proof.
  unfold process_verbosity_command, process_slabs_automove_command, process_watch_command, process_memlimit_command, process_lru_command,
    lru_crawler_command, flush_all, shutdown, tune_numbers, bad_line, out, c_strtoul, c_strtol. split_and!; leaving.
Qed.

Lemma leaves_slabs buf tokens : leaves (slabs_command buf tokens).
Proof. destruct (leaves_settings buf tokens) as (_ & ? & _). unfold slabs_command, bad_line, out. leaving. Qed.

Lemma leaves_conn_call f : (∀ c e x c' e' x', f c e x = Answer (c', e', x') → command_done c → command_done c') → leaves (conn_call f).
Proof.
  intros Hf s a s' Hs. unfold conn_call. destruct (f _ _ _) as [[[? ?] ?]| |] eqn:E; [|done..]. intros [= <- <-]. by eapply Hf.
Qed.

Lemma leaves_dispatch buf tokens : leaves (dispatch process_started current_time CACHE_MODE buf tokens).
Proof.
  destruct (leaves_settings buf tokens) as (? & _ & ? & ? & ? & ? & ? & ?). pose proof (leaves_slabs buf tokens). pose proof (leaves_delete buf tokens).
  pose proof (leaves_touch buf tokens). pose proof (λ b, leaves_arithmetic b buf tokens). pose proof (λ a b, leaves_update a b buf tokens).
  assert (∀ b, leaves (conn_call (call_get_command buf tokens b))) by (intros b; apply leaves_conn_call; intros; by eapply get_done).
  assert (leaves (conn_call (call_stat buf tokens))) by (apply leaves_conn_call; intros; by eapply stat_done).
  unfold dispatch, out. leaving.
Qed.

Lemma leaves_command ok buf p : leaves (process_command process_started current_time CACHE_MODE ok buf p).
Proof.
  unfold process_command, out_of_memory, out. destruct (negb ok); [leaving|]. destruct (tokenize_command _ _ _). apply leaves_dispatch.
Qed.

Lemma bind_inv {A B} (m : CM A) (f : A → CM B) s b s' : (m ≫= f) s = Answer (b, s') → ∃ a s1, m s = Answer (a, s1) ∧ f a s1 = Answer (b, s').
Proof. unfold mbind, CM_bind. destruct (m s) as [[a s1]| |] eqn:E; [|done..]. eauto. Qed.

(** The text of the answer to a data line is never empty, and nothing is read after it. *)
Lemma complete_answers s a s' : complete_nread_ascii s = Answer (a, s') →
  command_done (the_conn s') ∧ (state (the_conn s') = conn_write ∨ state (the_conn s') = conn_new_cmd).
Proof.
  unfold complete_nread_ascii. intros (c & s1 & _ & E)%bind_inv. apply bind_inv in E as (d & s2 & _ & E).
  apply bind_inv in E as (n & s3 & _ & E). apply bind_inv in E as (b & s4 & E4 & E).
  assert (command_done (the_conn s4) ∧ (state (the_conn s4) = conn_write ∨ state (the_conn s4) = conn_new_cmd)) as [H1 H2].
  { destruct (bool_decide _); [apply bind_inv in E4 as (r & s5 & _ & E4)|]; unfold out in E4; rewrite out_string_conn in E4; injection E4 as _ <-; apply out_conn_done. }
  apply bind_inv in E as (b' & s5 & E5 & E). assert (the_conn s5 = the_conn s4) as H5.
  { unfold call_ in E5. destruct (call_remove _ _); [|done..]. by injection E5 as <- <-. }
  injection E as <- <-. cbn. rewrite H5. split; [|done]. unfold command_done in *. cbn. by destruct (state (the_conn s4)).
Qed.

#[global] Instance TextServiceLaws : ServiceLaws (TextService process_started current_time CACHE_MODE).
Proof.
  split.
  - intros it o x y l [[t e] v]. cbn. by rewrite call_put_more.
  - intros l c [[t e] v] c' ps v' Hc. unfold svc_line, TextService.
    destruct (process_command process_started current_time CACHE_MODE true l 0 (mkServer c t e v)) as [[a s]| |] eqn:E; [|done..]. cbn. intros [= <- <- <-].
    split; [destruct (state (the_conn s)); try done; apply pieces_full|]. eapply leaves_command; [|exact E]. cbn. unfold command_done. by rewrite Hc.
  - intros c [[t e] v] c' v'. unfold svc_complete, TextService. destruct (complete_nread_ascii (mkServer c t e v)) as [[a s]| |] eqn:E; [|done..].
    cbn. intros [= <- <-]. destruct (complete_answers _ _ _ E) as [H1 [->| ->]]; done.
Qed.
End Commands.

(** ** The commands come back *)

Class CallsReturn (C : Calls) (T : Sessions C) := {
  alloc_back k f e n x : call_alloc k f e n x ≠ Never;
  get_back k x : call_get k x ≠ Never;
  do_get_back k x : call_do_get k x ≠ Never;
  unlink_back it x : call_unlink it x ≠ Never;
  remove_back it x : call_remove it x ≠ Never;
  unlink_kvs_back k x : call_unlink_kvs k x ≠ Never;
  touch_back k e x : call_touch k e x ≠ Never;
  add_delta_back k i d x : call_add_delta k i d x ≠ Never;
  store_back it n x : call_store it n x ≠ Never;
  get_command_back buf toks cas c e x : call_get_command buf toks cas c e x ≠ Never;
  stat_back buf toks c e x : call_stat buf toks c e x ≠ Never;
  release_back x : call_release x ≠ Never
}.

Definition back {D : Doubles} {C : Calls} {A} (m : CM A) : Prop := ∀ s, m s ≠ Never.

Section Back.
Context {D : Doubles} {C : Calls}.

Lemma back_bind {A B} (m : CM A) (f : A → CM B) : back m → (∀ a, back (f a)) → back (m ≫= f).
Proof. intros Hm Hf s. unfold mbind, CM_bind. specialize (Hm s). destruct (m s) as [[a s1]| |]; [|done..]. apply Hf. Qed.

Lemma back_answer {A} (m : CM A) : (∀ s, ∃ r, m s = Answer r) → back m.
Proof. intros H s. by destruct (H s) as [r ->]. Qed.

Lemma back_call {A} (f : cst → answer (A * cst)) : (∀ x, f x ≠ Never) → back (call f).
Proof. intros H s. unfold call. specialize (H (rest s)). by destruct (f (rest s)) as [[? ?]| |]. Qed.

Lemma back_call_ f : (∀ x, f x ≠ Never) → back (call_ f).
Proof. intros H s. unfold call_. specialize (H (rest s)). by destruct (f (rest s)). Qed.

Lemma back_conn_call f : (∀ c e x, f c e x ≠ Never) → back (conn_call f).
Proof. intros H s. unfold conn_call. specialize (H (the_conn s) (erange s) (rest s)). by destruct (f _ _ _) as [[[? ?] ?]| |]. Qed.

Lemma back_calls {A} (f : cst → A * cst) : back (calls f).
Proof. by apply back_call. Qed.

Lemma back_out_string str : back (out_string str).
Proof. intros s. by rewrite out_string_conn. Qed.

Lemma back_libc_strtol x : back (libc_strtol x).
Proof. unfold libc_strtol. destruct (strtoll x) as [[v ?] r]. apply back_answer. eauto. Qed.

Lemma back_libc_strtoul x : back (libc_strtoul x).
Proof. unfold libc_strtoul. destruct (strtoull x) as [[v ?] r]. apply back_answer. eauto. Qed.

Lemma back_safe_strtod x : back (safe_strtod x).
Proof. unfold safe_strtod. destruct (strtod x) as [[d ?] r]. apply back_answer. eauto. Qed.
End Back.

Create HintDb back.
#[export] Hint Resolve back_calls back_out_string back_libc_strtol back_libc_strtoul back_safe_strtod alloc_back get_back do_get_back unlink_back
  remove_back unlink_kvs_back touch_back add_delta_back store_back : back.
#[export] Hint Extern 1 (back (call _)) => apply back_call; intros ? : back.
#[export] Hint Extern 1 (back (call_ _)) => apply back_call_; intros ? : back.
#[export] Hint Extern 3 (back _) => apply back_answer; eauto : back.

Ltac back_step :=
  lazymatch goal with
  | |- back (match ?x with _ => _ end) => destruct x
  | |- back (_ ≫= _) => apply back_bind; [|intros ?]
  | |- back _ => solve [eauto with back]
  end.
Ltac coming_back := repeat (cbv zeta; back_step).

Section CommandsBack.
Context {D : Doubles} {C : Calls} {T : Sessions C} {R : CallsReturn C T}.
Context (process_started current_time : Z) (CACHE_MODE : nat).

Lemma back_set_noreply_maybe buf tokens : back (set_noreply_maybe buf tokens).
Proof. unfold set_noreply_maybe. coming_back. Qed.
#[local] Hint Resolve back_set_noreply_maybe : back.

Lemma back_dispatch buf tokens : back (dispatch process_started current_time CACHE_MODE buf tokens).
Proof.
  assert (∀ comm cas, back (process_update_command process_started current_time buf tokens comm cas)).
  { intros comm cas. unfold process_update_command, update_item, update_refused, update_numbers, record_set, bad_line, out_of_memory, out, c_strtoul, c_strtol, c_strtoull.
    coming_back. }
  assert (back (process_touch_command process_started current_time buf tokens)) by (unfold process_touch_command, bad_line, out, c_strtol; coming_back).
  assert (∀ i, back (process_arithmetic_command buf tokens i)) by (intros i; unfold process_arithmetic_command, bad_line, out_of_memory, out, c_strtoull; coming_back).
  assert (back (process_delete_command CACHE_MODE buf tokens)) by (unfold process_delete_command, delete_valid, record_delete, bad_line, out; coming_back).
  assert (back (process_slabs_automove_command buf tokens)) by (unfold process_slabs_automove_command, out; coming_back).
  assert (back (slabs_command buf tokens)) by (unfold slabs_command, bad_line, out; coming_back).
  assert (back (process_watch_command buf tokens)) by (unfold process_watch_command, out; coming_back).
  assert (∀ b, back (conn_call (call_get_command buf tokens b))) by (intros b; apply back_conn_call; intros; apply get_command_back).
  assert (back (conn_call (call_stat buf tokens))) by (apply back_conn_call; intros; apply stat_back).
  unfold dispatch, process_verbosity_command, process_memlimit_command, process_lru_command, lru_crawler_command, flush_all, shutdown, tune_numbers,
    bad_line, out, c_strtoul, c_strtol. coming_back.
Qed.

Lemma back_command ok buf p : back (process_command process_started current_time CACHE_MODE ok buf p).
Proof.
  unfold process_command, out_of_memory, out. destruct (negb ok); [coming_back|]. destruct (tokenize_command _ _ _). apply back_dispatch.
Qed.

Lemma back_complete : back complete_nread_ascii.
Proof. unfold complete_nread_ascii, out. coming_back. Qed.

#[global] Instance TextServiceReturns : ServiceReturns (TextService process_started current_time CACHE_MODE).
Proof.
  split.
  - intros l c [[t e] x]. unfold svc_line, TextService. pose proof (back_command true l 0 (mkServer c t e x)) as H.
    by destruct (process_command process_started current_time CACHE_MODE true l 0 (mkServer c t e x)) as [[? ?]| |].
  - intros c [[t e] x]. unfold svc_complete, TextService. pose proof (back_complete (mkServer c t e x)) as H.
    by destruct (complete_nread_ascii (mkServer c t e x)) as [[? ?]| |].
  - intros it [[t e] x]. cbn. pose proof (remove_back it x) as H. by destruct (call_remove it x).
  - intros [[t e] x]. cbn. pose proof (release_back x) as H. by destruct (call_release x).
Qed.
End CommandsBack.
