(* ===== verification/TextServer.v ===== *)
(** The text commands over the cache: the calls of [Command] are the functions of [cache_api.cc], [memcached.c] and [items.c], and a
    session is what a client sees of all of them. *)

From stdpp Require Import strings relations.
From S2P Require Import Prelude TagPtr Fam Itoa Util Tokenize KvsRadixTree CacheIface CacheApi CacheValues SlabRebalance Command CacheDelta GetCommand.
From S2P Require Import Drive TextSession.

(** The calls that have no part in the values: the administration, the statistics, the times and the versions of single items. *)
Class Admin {N : Nvmm} {S : Store} {I : ItemCache} := {
  ast : Type;
  adm_size_ok : nat → Z → Z → bool;
  adm_touch : bytes → Z → api → answer (Z * api);
  adm_set_cas : Z → Z → api → api;
  adm_get_cas_id : api → Z * api;
  adm_mem_limit : Z → ast → bool * ast;
  adm_reassign : Z → Z → ast → reassign_result_type * ast;
  adm_crawl : bytes → bool → ast → crawler_result_type * ast;
  adm_crawler_enabled : ast → bool;
  adm_crawler_thread : bool → ast → Z * ast;
  adm_add_watcher : Z → ast → watcher_result * ast;
  adm_raise : ast → ast;
  adm_detail_enabled : ast → bool;
  adm_record_set : bytes → ast → ast;
  adm_record_delete : bytes → ast → ast;
  adm_stat : bytes → list token_t → conn → bool → ast → answer (conn * bool * ast)
}.

Section Server.
Context {N : Nvmm} {S : Store} {I : ItemCache} {DI : DeltaItems I} {A : Admin}.
Context (CACHE_MODE VERSION_MODE : nat) (stack : bytes) (inline_ascii_response : bool) (mem : nat → memory).

Record server_st := mkServerSt { sv_get : get_st; sv_admin : ast }.

Definition sv_api (x : server_st) : api := g_api (sv_get x).
Definition with_api (s : api) (x : server_st) : server_st :=
  let g := sv_get x in
  mkServerSt (mkGet s (iov g) (ilist g) (isize g) (suffixsize g) (suffixes g) (tries g)) (sv_admin x).

Definition asks {B} (f : AM B) (x : server_st) : answer (B * server_st) :=
  '(b, s) ← reply_of (f (sv_api x)); Answer (b, with_api s x).
Definition asks_ (f : AM unit) (x : server_st) : answer server_st := '(_, x) ← asks f x; Answer x.
Definition admin {B} (f : ast → B * ast) (x : server_st) : B * server_st :=
  let '(b, y) := f (sv_admin x) in (b, mkServerSt (sv_get x) y).
Definition admin_ (f : ast → ast) (x : server_st) : server_st := mkServerSt (sv_get x) (f (sv_admin x)).

(** A new item: its data is what the memory held. *)
Definition new_item (key : bytes) (flags exptime nbytes : Z) : AM Z :=
  it ← on_items (item_alloc false key flags exptime nbytes);
  if it =? 0 then mret 0 else set_data it (replicate (Z.to_nat nbytes) 0);; mret it.

(** [process_get_command] on the connection; the pieces of the answer wait to be sent. *)
Definition get_command (buf : bytes) (tokens : list token_t) (return_cas : bool) (c : conn) (e : bool) (x : server_st) :
    answer (conn * bool * server_st) :=
  let g := sv_get x in
  let g := mkGet (g_api g) [] [] (isize g) (suffixsize g) (suffixes g) (tries g) in
  '(r, g) ← process_get_command CACHE_MODE VERSION_MODE stack inline_ascii_response return_cas mem (Datatypes.S (length buf)) true buf tokens g;
  match r with
  | None => Never
  | Some (Line str) => Answer (out_conn str c, e, mkServerSt g (sv_admin x))
  | Some (Values l) =>
      Answer (set_state conn_mwrite c, e,
        mkServerSt (mkGet (g_api g) l (ilist g) (isize g) (suffixsize g) (suffixes g) (tries g)) (sv_admin x))
  end.

(** Bytes arrive in the data of an item. *)
Definition data_put (it : Z) (off : nat) (b : bytes) : AM unit :=
  x ← get_body it;
  set_data it (take off (data x) ++ b ++ drop (off + length b) (data x)).

#[global] Instance CacheCalls : Calls := {|
  cst := server_st;
  call_alloc key flags exptime nbytes := asks (new_item key flags exptime nbytes);
  call_size_ok nkey flags nbytes _ := adm_size_ok nkey flags nbytes;
  call_get key := asks (item_get CACHE_MODE VERSION_MODE stack key true false);
  call_do_get key := asks (on_items (do_item_get key true false));
  call_unlink it := asks_ (item_unlink CACHE_MODE it);
  call_remove it := asks_ (item_remove it);
  call_unlink_kvs key := asks (item_unlink_kvs key);
  call_touch key exptime x := '(it, s) ← adm_touch key exptime (sv_api x); Answer (it, with_api s x);
  call_add_delta key incr delta x := '(r, x) ← asks (do_add_delta key incr delta None) x; Answer (r.1, x);
  call_store it comm := asks (store_item CACHE_MODE it comm true);
  call_set_cas it cas x := with_api (adm_set_cas it cas (sv_api x)) x;
  call_get_cas_id x := let '(id, s) := adm_get_cas_id (sv_api x) in (id, with_api s x);
  call_nbytes it x := it_nbytes (items (sv_api x)) it;
  call_data it x := data (default no_body (bodies (sv_api x) !! it));
  call_adjust_mem_limit n := admin (adm_mem_limit n);
  call_reassign src dst := admin (adm_reassign src dst);
  call_crawl ids dump := admin (adm_crawl ids dump);
  call_crawler_enabled x := adm_crawler_enabled (sv_admin x);
  call_crawler_thread b := admin (adm_crawler_thread b);
  call_add_watcher f := admin (adm_add_watcher f);
  call_raise := admin_ adm_raise;
  call_detail_enabled x := adm_detail_enabled (sv_admin x);
  call_record_set k := admin_ (adm_record_set k);
  call_record_delete k := admin_ (adm_record_delete k);
  call_get_command := get_command;
  call_stat buf tokens c e x := '(c, e, y) ← adm_stat buf tokens c e (sv_admin x); Answer (c, e, mkServerSt (sv_get x) y)
|}.

(** What is given back after an answer: its items and its suffixes. *)
#[global] Instance CacheSessions : Sessions CacheCalls := {|
  call_pieces (x : @cst CacheCalls) := iov (sv_get x);
  call_put it off b (x : @cst CacheCalls) := match data_put it off b (sv_api x) with AOk _ s => with_api s x | _ => x end;
  call_release (x : @cst CacheCalls) :=
    '(_, s) ← reply_of (remove_all (ilist (sv_get x)) (sv_api x));
    let g := sv_get x in Answer (mkServerSt (mkGet s [] [] (isize g) (suffixsize g) 0 (tries g)) (sv_admin x))
|}.
End Server.

