(* ===== verification/Network.v ===== *)
(** What a client of the cache service sees over the network: the answers of the session it holds, whole and in order, over
    TCP however its bytes are cut, and over UDP as numbered datagrams. *)

From stdpp Require Import strings relations.
From S2P Require Import Prelude TagPtr Fam Itoa Util Item Slabs Assoc Items ItemInv ItemAlloc CacheItems.
From S2P Require Import RadixTree RadixOps KvsRadixTree CacheIface CacheApi CacheApiSpec CacheStore CacheHistory CacheValues StoreCommands.
From S2P Require Import Tokenize SlabRebalance Command CommandSpec CacheDelta GetCommand TextService ConnOut Drive DriveSpec DriveTotal TextSession TextServer.

(** The number in two bytes of a header. *)
Definition two_bytes (l : bytes) (i : nat) : Z := at_ l i * 256 + at_ l (S i).

Lemma header_reads id i n : 0 ≤ id < 65536 → 0 ≤ i < 65536 → 0 ≤ n < 65536 →
  two_bytes (udp_header id i n) 0 = id ∧ two_bytes (udp_header id i n) 2 = i ∧ two_bytes (udp_header id i n) 4 = n.
Proof.
  assert (∀ x, 0 ≤ x < 65536 → u8 (x / 256) * 256 + u8 (x mod 256) = x) as H.
  { intros x Hx. unfold u8. change (2 ^ 8) with 256. rewrite (Z.mod_small (x / 256)); [|split; [apply Z.div_pos; lia|apply Z.div_lt_upper_bound; lia]].
    rewrite Zmod_mod. pose proof (Z.div_mod x 256). lia. }
  intros Hid Hi Hn. unfold two_bytes, at_, udp_header. cbn [nth]. auto.
Qed.

(** ** The properties *)

(** C19: an answer over UDP is cut into datagrams of at most 1400 bytes, each with a header of eight bytes; what follows the
    headers is the answer, in order; and while there are less than 65536 datagrams, each header holds the
    number of the request, the number of the datagram and how many there are. *)
Theorem udp_answer granted fuel id l c :
  enough_memory granted → has_arrays c → Forall (λ b, (S (length b) < fuel)%nat) l → (0 < fuel)%nat → 0 ≤ id < 65536 →
  ∃ c1 c2 c3 ps, add_msghdr true granted fuel (fresh_out c) = Answer (true, c1) ∧ add_iovs true granted fuel l c1 = Answer (true, c2) ∧
    build_udp_headers granted id c2 = Answer (true, c3) ∧ concat ps = concat l ∧
    Forall (λ d, (length d ≤ UDP_MAX_PAYLOAD_SIZE)%nat) (datagrams c3) ∧
    datagrams c3 = imap (λ i p, udp_header id (Z.of_nat i) (Z.of_nat (length ps)) ++ p) ps ∧
    (Z.of_nat (length ps) < 65536 → ∀ i d, datagrams c3 !! i = Some d →
      two_bytes d 0 = id ∧ two_bytes d 2 = Z.of_nat i ∧ two_bytes d 4 = Z.of_nat (length (datagrams c3))).
Proof.
  intros Hm Ha Hl Hf Hid. destruct (udp_datagrams true granted fuel id l c eq_refl Hm Ha Hl Hf) as (c1 & c2 & c3 & ps & E1 & E2 & E3 & HD & Hc & HF).
  exists c1, c2, c3, ps. split_and!; [done..|]. intros Hn i d Hi. rewrite HD in Hi |- *. rewrite length_imap. rewrite list_lookup_imap in Hi.
  destruct (ps !! i) as [p|] eqn:Ep; [|done]. injection Hi as <-. apply lookup_lt_Some in Ep.
  apply (header_reads id (Z.of_nat i) (Z.of_nat (length ps))); lia.
Qed.

(** C6: a connection follows the session of its client: after any number of events, the commands that have run, the state of the service, and the
    bytes sent or about to be sent are those of the session on the bytes of the client, step by step; whatever the reads and writes return.
    Or the connection has been closed, for an error of the network or for a line of more than a kilobyte that is no get, and then what was sent
    is the start of the session's answer. *)
Theorem session_refined {V : Service} {L : ServiceLaws V} granted k fuel reqs m w m' w' :
  enough_memory granted → machine_ok m → roomy w → event_loop granted k fuel reqs m w = Answer (m', w') →
  rtc astep (session_of m w) (session_of m' w') ∨
  (state (m_conn m') = conn_closing ∨ state (m_conn m') = conn_closed) ∧
  ∃ a, rtc astep (session_of m w) a ∧ sent w' `prefix_of` s_out a ∧ (too_long_line a ∨ ¬ smooth w).
Proof. intros Hmem Hm Hr E. by apply (follows_events granted k fuel reqs (session_of m w) w m w m' w' Hmem (follows_start m w Hm Hr)). Qed.

(** C7: how the network cuts the bytes does not matter: two connections that get the same bytes, in other parts and with other delays,
    have sent the same answers and left the service in the same state, with the same bytes unused, once both have done all they
    can; unless a line is longer than a kilobyte. *)
Theorem network_irrelevant {V : Service} {L : ServiceLaws V} granted k1 k2 fuel1 fuel2 reqs1 reqs2 m w1 w2 m1 m2 w1' w2' :
  enough_memory granted → machine_ok m → roomy w1 → roomy w2 → smooth w1 → smooth w2 → sent w1 = sent w2 →
  incoming (reads w1) = incoming (reads w2) → (∀ a, rtc astep (session_of m w1) a → ¬ too_long_line a) →
  event_loop granted k1 fuel1 reqs1 m w1 = Answer (m1, w1') → event_loop granted k2 fuel2 reqs2 m w2 = Answer (m2, w2') →
  next (session_of m1 w1') = None → next (session_of m2 w2') = None →
  sent w1' = sent w2' ∧ m_svc m1 = m_svc m2 ∧ window m1 ++ incoming (reads w1') = window m2 ++ incoming (reads w2').
Proof.
  intros Hmem Hm R1 R2 S1 S2 Hs Hi Hlong E1 E2 N1 N2.
  assert (session_of m w1 = session_of m w2) as Heq by (unfold session_of; by rewrite Hs, Hi).
  destruct (follows_events granted k1 fuel1 reqs1 (session_of m w1) w1 m w1 m1 w1' Hmem (follows_start m w1 Hm R1) E1) as [_ _ _ F1].
  destruct (follows_events granted k2 fuel2 reqs2 (session_of m w2) w2 m w2 m2 w2' Hmem (follows_start m w2 Hm R2) E2) as [_ _ _ F2].
  destruct F1 as [F1|[_ (a & Ha & _ & [Hl|Hl])]]; [|by destruct (Hlong a Ha)|done].
  rewrite <- Heq in F2. destruct F2 as [F2|[_ (a & Ha & _ & [Hl|Hl])]]; [|by destruct (Hlong a Ha)|done].
  pose proof (rest_unique _ _ _ F1 F2 N1 N2) as Hsame. rewrite !at_rest in Hsame by done. injection Hsame as _ H2 _ H4 H5. done.
Qed.


(** ** Witnesses *)

(** Pieces of 3000 and 5 bytes make three datagrams. *)
Definition new_out : outgoing := mkOut (replicate 400 (mkIov None 0)) 0 (replicate 10 (mkMsg 0 0)) 0 0 0 0 0.

Lemma udp_answer_witness : ∃ c3 ps, datagrams c3 = imap (λ i p, udp_header 7 (Z.of_nat i) (Z.of_nat (length ps)) ++ p) ps ∧
  concat ps = replicate 3000 65 ++ chars "END" ++ crlf true ∧ Forall (λ d, (length d ≤ UDP_MAX_PAYLOAD_SIZE)%nat) (datagrams c3).
Proof.
  destruct (udp_answer (λ _, true) 4000 7 [replicate 3000 65; chars "END" ++ crlf true] new_out) as (c1 & c2 & c3 & ps & _ & _ & _ & H1 & H2 & H3 & _).
  - done.
  - by split; apply Nat.ltb_lt.
  - apply Forall_cons_2; [by apply Nat.ltb_lt|]. apply Forall_cons_2; [by apply Nat.ltb_lt|constructor].
  - by apply Nat.ltb_lt.
  - lia.
  - exists c3, ps. split; [exact H3|]. split; [|exact H2]. rewrite H1. cbn [concat]. by rewrite app_nil_r.
Defined.

(** A service with nothing in its cache. *)
Definition no_sessions : Sessions no_calls := {|
  call_pieces _ := []; call_put _ _ _ x := x; call_release x := Answer x
|}.

Lemma no_session_laws : SessionLaws no_calls no_sessions.
Proof. split; [constructor|done|by intros ????????? [= <- <- <-]|by intros ???????? [= <- <- <-]]. Qed.

Lemma no_calls_return : CallsReturn no_calls no_sessions.
Proof. by split. Qed.

#[local] Abbreviation idle_service := (@TextSession.TextService whole_doubles no_calls no_sessions 1000 5 0).
#[local] Abbreviation idle_laws := (@TextServiceLaws whole_doubles no_calls no_sessions no_session_laws 1000 5 0).
#[local] Abbreviation idle_returns := (@TextServiceReturns whole_doubles no_calls no_sessions no_calls_return 1000 5 0).

Definition idle_machine : @machine idle_service :=
  mkMachine (V := idle_service) (mkConn conn_new_cmd conn_new_cmd false 2048 [] 0 0 NREAD_SET 0) (replicate 64 0) 0 0 0 new_out
    (default_tunables, false, 0).

Lemma idle_machine_ok : machine_ok (V := idle_service) idle_machine.
Proof. split; [cbn; lia|cbn; lia|by split; apply Nat.ltb_lt|done]. Qed.


(** What can be seen of a run. *)
Definition ran {V : Service} (f : machine → net → bool) (r : answer (machine * net)) : bool :=
  match r with Answer (m, w) => f m w | _ => false end.

Lemma ran_true {V : Service} f r : ran f r = true → ∃ m w, r = Answer (m, w) ∧ f m w = true.
Proof. destruct r as [[m w]| |]; cbn; [|done..]. eauto. Qed.

Definition resting {V : Service} (m : machine) (w : net) : bool := match next (session_of m w) with None => true | Some _ => false end.

Lemma resting_true {V : Service} m w : resting m w = true → next (session_of m w) = None.
Proof. unfold resting. by destruct (next _). Qed.

(** A client's lines: the data of an item, a command and a part of another. *)
Definition lines : bytes := chars "set key 0 0 3" ++ crlf true ++ chars "abc" ++ crlf true ++ chars "version" ++ crlf true ++ chars "verb".

#[local] Abbreviation idle_run k reads sends :=
  (event_loop (V := idle_service) (λ _, true) k 100 20 idle_machine (mkNet reads sends [] [] [])).

(** All at once, and byte by byte. *)
Definition at_once : list read_answer := [Got lines].
Definition bytewise : list read_answer := (λ b, Got [b]) <$> lines.

Lemma session_refined_witness : ∃ m w, idle_run 9 at_once (replicate 20 (Sent 5)) = Answer (m, w) ∧
  sent w = chars "CLIENT_ERROR bad data chunk" ++ crlf true ++ chars "VERSION 1.4.39" ++ crlf true ∧
  rtc (astep (V := idle_service)) (session_of idle_machine (mkNet at_once (replicate 20 (Sent 5)) [] [] [])) (session_of m w).
Proof.
  destruct (ran_true (V := idle_service) (λ m w, bool_decide (sent w = chars "CLIENT_ERROR bad data chunk" ++ crlf true ++ chars "VERSION 1.4.39" ++ crlf true) &&
      match state (m_conn m) with conn_read => true | _ => false end) (idle_run 9 at_once (replicate 20 (Sent 5)))) as (m & w & E & H);
    [vm_compute; reflexivity|].
  apply andb_true_iff in H as [H1%bool_decide_eq_true H2]. exists m, w. split; [exact E|]. split; [exact H1|].
  destruct (@session_refined idle_service idle_laws (λ _, true) 9 100 20 idle_machine (mkNet at_once (replicate 20 (Sent 5)) [] [] []) m w) as [H|[H _]];
    [exact (λ _, eq_refl)|exact idle_machine_ok|constructor|exact E|exact H|].
  exfalso. destruct H as [H|H]; rewrite H in H2; discriminate.
Defined.

Lemma incoming_bytes b : incoming ((λ x, Got [x]) <$> b) = b.
Proof. induction b as [|x b IH]; cbn; [done|]. by rewrite IH. Qed.

Lemma smooth_at_once : smooth (mkNet at_once (replicate 20 (Sent 5)) [] [] []).
Proof. split_and!; [apply Forall_cons_2; [discriminate|constructor]|by apply Forall_replicate|constructor]. Qed.

Lemma smooth_bytewise : smooth (mkNet bytewise (replicate 99 (Sent 1)) [] [] []).
Proof. split_and!; [apply list.Forall_fmap, Forall_true; discriminate|by apply Forall_replicate|constructor]. Qed.

Lemma same_incoming : incoming (reads (mkNet at_once (replicate 20 (Sent 5)) [] [] [])) = incoming (reads (mkNet bytewise (replicate 99 (Sent 1)) [] [] [])).
Proof. cbn [reads]. unfold bytewise. by rewrite incoming_bytes. Qed.

Lemma short_lines : (length (s_in (session_of (V := idle_service) idle_machine (mkNet at_once (replicate 20 (Sent 5)) [] [] []))) ≤ 1024)%nat.
Proof. apply Nat.leb_le. vm_compute. reflexivity. Qed.

Lemma network_irrelevant_witness : ∃ m1 w1 m2 w2, idle_run 9 at_once (replicate 20 (Sent 5)) = Answer (m1, w1) ∧
  idle_run 99 bytewise (replicate 99 (Sent 1)) = Answer (m2, w2) ∧ sent w1 = sent w2 ∧ window m1 ++ incoming (reads w1) = window m2 ++ incoming (reads w2).
Proof.
  destruct (ran_true (V := idle_service) resting (idle_run 9 at_once (replicate 20 (Sent 5)))) as (m1 & w1 & E1 & H1); [vm_compute; reflexivity|].
  destruct (ran_true (V := idle_service) resting (idle_run 99 bytewise (replicate 99 (Sent 1)))) as (m2 & w2 & E2 & H2); [vm_compute; reflexivity|].
  exists m1, w1, m2, w2. split; [exact E1|]. split; [exact E2|].
  destruct (@network_irrelevant idle_service idle_laws (λ _, true) 9 99 100 100 20 20 idle_machine (mkNet at_once (replicate 20 (Sent 5)) [] [] [])
    (mkNet bytewise (replicate 99 (Sent 1)) [] [] []) m1 m2 w1 w2) as (H3 & _ & H4).
  - exact (λ _, eq_refl).
  - exact idle_machine_ok.
  - constructor.
  - constructor.
  - exact smooth_at_once.
  - exact smooth_bytewise.
  - reflexivity.
  - exact same_incoming.
  - intros a. apply short_session. exact short_lines.
  - exact E1.
  - exact E2.
  - exact (resting_true m1 w1 H1).
  - exact (resting_true m2 w2 H2).
  - split; [exact H3|exact H4].
Defined.

(** ** Runs of the whole service *)

#[local] Abbreviation test_store := (RadixStore 200 16 0).
#[local] Abbreviation test_items := (SlabItems service_settings hash0).
#[local] Abbreviation test_delta := (SlabDeltaItems service_settings hash0).

(** An administration that refuses everything. *)
Definition quiet_admin : @Admin _ test_store test_items := {|
  ast := unit;
  adm_size_ok _ _ _ := true;
  adm_touch _ _ s := Answer (0, s);
  adm_set_cas _ _ s := s;
  adm_get_cas_id s := (1, s);
  adm_mem_limit _ x := (false, x);
  adm_reassign _ _ x := (REASSIGN_NOSPARE, x);
  adm_crawl _ _ x := (CRAWLER_NOTSTARTED, x);
  adm_crawler_enabled _ := false;
  adm_crawler_thread _ x := (-1, x);
  adm_add_watcher _ x := (LOGGER_ADD_WATCHER_FAILED, x);
  adm_raise x := x;
  adm_detail_enabled _ := false;
  adm_record_set _ x := x;
  adm_record_delete _ x := x;
  adm_stat _ _ c e x := Answer (out_conn (chars "END") c, e, x)
|}.

#[local] Abbreviation test_calls := (@CacheCalls _ test_store test_items test_delta quiet_admin 5 0 [] true (λ _, much)).
#[local] Abbreviation test_sessions := (@CacheSessions _ test_store test_items test_delta quiet_admin 5 0 [] true (λ _, much)).
#[local] Abbreviation test_service := (@TextSession.TextService whole_doubles test_calls test_sessions 1000 5 5).

Definition new_connection : @machine test_service :=
  mkMachine (V := test_service) (mkConn conn_new_cmd conn_new_cmd false 2048 [] 0 0 NREAD_SET 0) (replicate DATA_BUFFER_SIZE 0) 0 0 0 new_out
    (default_tunables, false, mkServerSt (A := quiet_admin) (mkGet empty_api [] [] 200 100 0 0) tt).

(** The bytes sent, and whether the connection is closed. *)
Definition serves (reads : list read_answer) : answer (bytes * bool) :=
  '(m, w) ← event_loop (V := test_service) (λ _, true) 99 999 20 new_connection (mkNet reads (replicate 99 (Sent 7)) [] [] []);
  Answer (sent w, match state (m_conn m) with conn_closed => true | _ => false end).

Definition text (l : list string) : bytes := concat ((λ x, chars x ++ crlf true) <$> l).

(** A value is stored, changed and fetched, through the buffers, the parser, the hash table and the slabs. *)
Example client_served :
  let client := text ["set a 0 0 2"; "41"; "incr a 1"; "get a b"; "delete a"; "get a"] in
  let reply := text ["STORED"; "42"; "VALUE a 0 2"; "42"; "END"; "DELETED"; "END"] in
  serves [Got client] = Answer (reply, false) ∧ serves ((λ b, Got [b]) <$> client) = Answer (reply, false) ∧
  serves [Got client; ReadEof] = Answer (reply, true).
Proof. vm_compute. split_and!; reflexivity. Qed.

(** A value too large is refused and its data swallowed; but with [noreply] the data is taken for commands. *)
Example refused_data_runs :
  serves [Got (text ["set a 0 0 30000"; "version"])] = Answer (text ["SERVER_ERROR out of memory storing object"], false) ∧
  serves [Got (text ["set a 0 0 30000 noreply"; "version"])] = Answer (text ["VERSION 1.4.39"], false).
Proof. vm_compute. split_and!; reflexivity. Qed.

(** A client that sends its commands and closes is answered, unless the commands just fill the buffer. *)
Example eof_drops_commands :
  let client := text (replicate 227 "version" ++ ["foo"]) in
  length client = DATA_BUFFER_SIZE ∧ serves [Got client; ReadEof] = Answer ([], true) ∧
  serves [Got (chars "version" ++ crlf true); ReadEof] = Answer (text ["VERSION 1.4.39"], true).
Proof. vm_compute. split_and!; reflexivity. Qed.

(** A long line that is no [get] closes the connection when it comes in two parts. *)
Example long_line_depends :
  let long := replicate 1100 65 in
  serves [Got (long ++ crlf true)] = Answer (text ["ERROR"], false) ∧ serves [Got long; ReadAgain; Got (crlf true)] = Answer ([], true).
Proof. vm_compute. split_and!; reflexivity. Qed.

(** The search for the start of a long line leaves the buffer, when that is full of spaces. *)
Example spaces_overrun : serves [Got (replicate 32768 32)] = Assertion.
Proof. vm_compute. reflexivity. Qed.

(** A request in several datagrams is to be answered with an error; but the machine waits for the next datagram instead. *)
Lemma udp_error_not_sent {V : Service} granted d id m : (8 < length d)%nat → (8 < length (rbuf m))%nat → at_ d 4 ≠ 0 ∨ at_ d 5 ≠ 1 → noreply (m_conn m) = false →
  let '(res, _, m') := try_read_udp granted d id m in
  state (m_conn m') = conn_write ∧ state (m_conn (read_done res m')) = conn_waiting.
Proof.
  intros Hd Hr Hp Hn. unfold try_read_udp. destruct (8 <? _)%nat eqn:E; [|apply Nat.ltb_ge in E; lia]. apply Nat.ltb_lt in E.
  set (n := Nat.min _ _) in *. assert (∀ i, (i < 8)%nat → at_ (take n d ++ drop n (rbuf m)) i = at_ d i) as Hat.
  { intros i Hi. unfold at_. rewrite app_nth1 by (rewrite length_take; lia). rewrite <- (take_drop n d) at 2. by rewrite app_nth1 by (rewrite length_take; lia). }
  rewrite !Hat by lia. destruct (negb _ || negb _) eqn:Ep.
  - cbn. unfold out_conn. rewrite Hn. done.
  - apply orb_false_iff in Ep as [E4%negb_false_iff%Z.eqb_eq E5%negb_false_iff%Z.eqb_eq]. destruct Hp; done.
Qed.

(** Without memory for another message, an entry too many goes into the last one. *)
Example entry_too_many :
  let full := mkOut (replicate 1400 (mkIov None 0)) 1024 [mkMsg 0 1024] 1 0 0 0 0 in
  match add_iov false (λ _, false) 0 (Some (chars "x")) 1 full with Answer (true, c) => msglist c = [mkMsg 0 1025] | _ => False end.
Proof. vm_compute. reflexivity. Qed.
