(* ===== verification/CrawlQueue.v ===== *)
(** Crawlers in the LRU queues: the last part of [extra/KVS-DRAM-Cache/items.c].

    A crawler is an entry without data that is linked into an LRU queue at its tail and then
    moves towards its head, one item at a time; items that are linked or unlinked meanwhile
    do not disturb it.  The queues with the crawlers in them are related to the queues without
    them, of which the theorems about items speak: what an operation on an item does to the
    one it does to the other. *)

From S2P Require Import Prelude Item Slabs Assoc Items ItemFrame ItemInv.

Definition with_heads (c : cache) (hd : list Z) : cache := with_queues c hd (tails c) (sizes c) (sizes_bytes c).
Definition with_tails (c : cache) (tl : list Z) : cache := with_queues c (heads c) tl (sizes c) (sizes_bytes c).

(** ** The operations *)

(** The crawler is the new tail. *)
Definition do_item_linktail_q (c : cache) (a : Z) : option cache :=
  let id := qid c a in
  let head := heads c !!! id in
  let tail := tails c !!! id in
  assert_ (it_flags (ith c a) =? 1);;
  assert_ (nbytes (ith c a) =? 0);;
  assert_ (negb (a =? tail));;
  assert_ ((negb (head =? 0) && negb (tail =? 0)) || ((head =? 0) && (tail =? 0)));;
  let c := set_item c a (set_prev tail) in
  let c := set_item c a (set_next 0) in
  c ← (let pv := prev (ith c a) in
       if pv =? 0 then Some c
       else assert_ (next (ith c pv) =? 0);; Some (set_item c pv (set_next a)));
  let c := with_tails c (<[id := a]> (tails c)) in
  Some (if head =? 0 then with_heads c (<[id := a]> (heads c)) else c).

Definition do_item_unlinktail_q (c : cache) (a : Z) : option cache :=
  let it := ith c a in
  let id := qid c a in
  let head := heads c !!! id in
  let tail := tails c !!! id in
  assert_ (negb (head =? a) || (prev it =? 0));;
  let hd := if head =? a then <[id := next it]> (heads c) else heads c in
  assert_ (negb (tail =? a) || (next it =? 0));;
  let tl := if tail =? a then <[id := prev it]> (tails c) else tails c in
  assert_ (negb (next it =? a));;
  assert_ (negb (prev it =? a));;
  let c := with_heap c (cut a (mem_of_cache c)) in
  Some (with_queues c hd tl (sizes c) (sizes_bytes c)).

(** [it->prev->next = it->next; it->next->prev = it->prev;], or with no next entry
    [it->prev->next = 0;] *)
Definition detach (a : Z) (h : heap) : option heap :=
  let pv := prev (hdr h a) in
  let nx := next (hdr h a) in
  if nx =? 0 then Some (upd pv (set_next 0) h)
  else assert_ (next (hdr h pv) =? a);;
       let h := upd pv (set_next nx) h in
       Some (upd nx (set_prev (prev (hdr h a))) h).

(** [it->next = it->prev; it->prev = it->next->prev; it->next->prev = it;
    if (it->prev) it->prev->next = it;] *)
Definition attach (a : Z) (h : heap) : heap :=
  let h := upd a (set_next (prev (hdr h a))) h in
  let h := upd a (set_prev (prev (hdr h (next (hdr h a))))) h in
  let h := upd (next (hdr h a)) (set_prev a) h in
  let pv := prev (hdr h a) in
  if pv =? 0 then h else upd pv (set_next a) h.

(** One place towards the head; the entry that was passed, or null at the head. *)
Definition do_item_crawl_q (c : cache) (a : Z) : option (cache * Z) :=
  let it := ith c a in
  let id := qid c a in
  let head := heads c !!! id in
  let tail := tails c !!! id in
  assert_ (it_flags it =? 1);;
  assert_ (nbytes it =? 0);;
  if prev it =? 0 then
    assert_ (head =? a);;
    if next it =? 0 then Some (c, 0)
    else
      let c := with_heads c (<[id := next it]> (heads c)) in
      assert_ (prev (ith c (next it)) =? a);;
      Some (set_item c (next it) (set_prev 0), 0)
  else
    assert_ (negb (prev it =? a));;
    let hd := if head =? prev it then <[id := a]> (heads c) else heads c in
    let tl := if tail =? a then <[id := prev it]> (tails c) else tails c in
    assert_ (negb (next it =? a));;
    h ← detach a (mem_of_cache c);
    let h := attach a h in
    assert_ (negb (next (hdr h a) =? a));;
    assert_ (negb (prev (hdr h a) =? a));;
    Some (with_queues (with_heap c h) hd tl (sizes c) (sizes_bytes c), next (hdr h a)).

(** ** Lists with an entry put in *)

(** What putting [a] before [p], an entry after [pp], does to the pointers. *)
Record placed (a p pp : Z) (h h' : heap) : Prop := {
  pl_next b : next (hdr h' b) = if decide (b = a) then p else if decide (b = pp ∧ b ≠ 0) then a else next (hdr h b);
  pl_prev b : prev (hdr h' b) = if decide (b = a) then pp else if decide (b = p) then a else prev (hdr h b)
}.

Lemma placed_dll a p pp h h' pv q l1 l2 :
  placed a p pp h h' → NoDup (l1 ++ p :: l2) → pv ∉ l1 ++ p :: l2 → a ∉ l1 ++ p :: l2 → a ≠ 0 →
  pp = default pv (list.last l1) → dll h pv q (l1 ++ p :: l2) →
  dll h' pv (if q =? p then a else q) (l1 ++ a :: p :: l2).
Proof.
  intros [Hn Hp] Hnd Hpv Ha Ha0 Hpp Hl. revert pv q Hnd Hpv Hpp Hl. induction l1 as [|b l1 IH]; intros pv q Hnd Hpv Hpp Hl.
  - cbn [app] in *. cbn [list.last default] in Hpp. subst pp. destruct Hl as (-> & Hp0 & Hpp & Hl). rewrite Z.eqb_refl.
    apply list.NoDup_cons in Hnd as [Hpl Hnd]. cbn [dll]. rewrite Hp, Hn, decide_True by done.
    rewrite decide_True by done. split_and!; try done.
    { rewrite Hp, decide_False, decide_True by set_solver. done. }
    rewrite Hn, decide_False, decide_False by set_solver.
    eapply dll_frame; [|done]. intros d Hd. rewrite Hn, Hp, !decide_False by set_solver. done.
  - cbn [app dll] in *. destruct Hl as (-> & Hb & Hbp & Hl). apply list.NoDup_cons in Hnd as [Hbl Hnd].
    rewrite (proj2 (Z.eqb_neq b p)) by set_solver. split_and!; [done|done| |].
    { rewrite Hp, !decide_False by set_solver. done. }
    specialize (IH ltac:(set_solver) b (next (hdr h b)) Hnd Hbl). rewrite last_cons in Hpp.
    assert (pp = default b (list.last l1)) as Hpp' by (rewrite Hpp; by destruct (list.last l1)).
    specialize (IH Hpp' Hl). rewrite Hn, decide_False by set_solver. destruct l1 as [|d l1].
    + cbn in Hpp', Hl. destruct Hl as (Hl & _). rewrite decide_True by done. rewrite Hl, Z.eqb_refl in IH. done.
    + cbn [app dll] in Hl. destruct Hl as (Hl & _). apply list.NoDup_cons in Hnd as [Hd _]. rewrite Hl in *.
      rewrite (proj2 (Z.eqb_neq d p)) in IH by set_solver. rewrite decide_False; [done|].
      intros [-> _]. destruct (list.last (d :: l1)) as [z|] eqn:E; [|by apply last_None in E].
      cbn in Hpp'. subst z. apply last_Some_elem_of in E. apply Hbl. set_solver.
Qed.

(** ** Queues *)

(** The list [l] with its head and its tail pointer. *)
Record line (h : heap) (hd tl : Z) (l : list Z) : Prop := {
  ln_dll : dll h 0 hd l;
  ln_tail : tl = default 0 (list.last l);
  ln_nodup : NoDup l
}.

Section Line.
Context {h : heap} {hd tl : Z} {l1 l2 : list Z} {a : Z}.
Context (Hline : line h hd tl (l1 ++ a :: l2)).

Lemma line_nonzero : 0 ∉ l1 ++ a :: l2.
Proof using Hline. intros H0. by apply (dll_nonzero _ _ _ _ 0 (ln_dll _ _ _ _ Hline)). Qed.

Lemma line_pointers :
  prev (hdr h a) = default 0 (list.last l1) ∧ next (hdr h a) = default 0 (head l2) ∧
  next (hdr h a) ≠ a ∧ prev (hdr h a) ≠ a.
Proof using Hline.
  pose proof Hline as [Hd _ Hnd]. destruct (dll_neighbours _ _ _ _ _ _ Hd).
  destruct (dll_not_self _ _ _ _ _ _ Hnd line_nonzero Hd). done.
Qed.

Lemma line_ends : (hd = a ↔ l1 = []) ∧ (tl = a ↔ l2 = []).
Proof using Hline. pose proof Hline as [Hd -> Hnd]. by apply (dll_ends h). Qed.

Lemma line_cut :
  line (cut a h) (if hd =? a then next (hdr h a) else hd) (if tl =? a then prev (hdr h a) else tl) (l1 ++ l2).
Proof using Hline.
  pose proof Hline as [Hd Ht Hnd]. split.
  - by apply cut_dll_at; [|apply line_nonzero|].
  - destruct line_pointers as (-> & _). destruct line_ends as [_ Hlast].
    destruct (Z.eqb_spec tl a) as [Hta|Hta].
    + by rewrite (proj1 Hlast Hta), app_nil_r.
    + rewrite Ht. destruct l2 as [|b l2' _] using rev_ind; [by destruct Hta; apply Hlast|].
      by rewrite app_comm_cons, !(assoc_L (++)), !last_snoc.
  - apply list.NoDup_app in Hnd as (? & Hdj & [_ ?]%list.NoDup_cons). apply list.NoDup_app.
    split_and!; [done| |done]. intros b Hb Hb2. apply (Hdj b Hb). by right.
Qed.

Lemma line_cut_other b : b ∉ l1 ++ a :: l2 → hdr (cut a h) b = hdr h b.
Proof using Hline. pose proof Hline as [Hd _ Hnd]. by apply (cut_other h hd). Qed.

Lemma line_cut_payload b : payload (hdr (cut a h) b) = payload (hdr h b).
Proof using Hline. destruct line_pointers as (_ & _ & ? & ?). by apply cut_payload. Qed.

(** The entry that is cut out keeps its header. *)
Lemma line_cut_self : hdr (cut a h) a = hdr h a.
Proof using Hline.
  destruct line_pointers as (_ & _ & Hn & Hp). destruct (cut_hdr a h a Hn Hp) as (En & Ep & Epl).
  rewrite bool_decide_false in En, Ep by naive_solver.
  destruct (hdr (cut a h) a), (hdr h a). simpl in *. injection Epl. by intros; subst.
Qed.

End Line.

Lemma line_frame h h' hd tl l : (∀ b, b ∈ l → hdr h' b = hdr h b) → line h hd tl l → line h' hd tl l.
Proof. intros Hh [Hd Ht Hn]. split; [|done..]. eapply dll_frame; [|done]. intros b Hb. by rewrite Hh. Qed.

Lemma line_empty h hd tl l : line h hd tl l → (hd = 0 ↔ l = []) ∧ (tl = 0 ↔ l = []).
Proof.
  intros [Hd -> _]. pose proof (dll_head _ _ _ _ Hd) as Hh. split.
  - destruct l as [|b l]; [by rewrite Hh|]. split; [|done]. cbn in Hh. intros ->.
    destruct (dll_nonzero _ _ _ _ b Hd); [by left|done].
  - destruct l as [|b l _] using rev_ind; [done|]. rewrite last_snoc. cbn. split; [|by destruct l].
    intros ->. destruct (dll_nonzero _ _ _ _ 0 Hd); [|done]. apply elem_of_app. right. by left.
Qed.

Lemma upd_comm a b f g h : a ≠ b → upd a f (upd b g h) = upd b g (upd a f h).
Proof. intros Hne. unfold upd at 1 3. rewrite !hdr_upd_ne by done. unfold upd. by apply insert_insert_ne. Qed.

(** Taking the crawler out of the middle is cutting it out. *)
Lemma detach_cut h hd tl l1 p a l2 :
  line h hd tl ((l1 ++ [p]) ++ a :: l2) → detach a h = Some (cut a h).
Proof.
  intros Hline. destruct (line_pointers Hline) as (Hpv & Hnx & Hna & Hpa). rewrite last_snoc in Hpv. cbn in Hpv.
  pose proof Hline as [Hd _ Hnd]. pose proof (line_nonzero Hline) as H0.
  unfold detach, cut. rewrite Hpv in *. destruct (Z.eqb_spec (next (hdr h a)) 0) as [Hz|Hz].
  - rewrite Hpv, (proj2 (Z.eqb_neq p 0)), Hz; [done|]. intros ->. apply H0. set_solver.
  - assert (next (hdr h p) = a) as Hp.
    { pose proof Hd as Hd'. rewrite <-(assoc_L (++)) in Hd'. cbn in Hd'.
      by destruct (dll_neighbours _ _ _ _ _ _ Hd') as [_ ->]. }
    assert (p ≠ next (hdr h a)) as Hpn.
    { rewrite Hnx in *. destruct l2 as [|b l2]; cbn in *; [done|]. intros ->.
      apply list.NoDup_app in Hnd as (_ & Hdj & _). apply (Hdj b); set_solver. }
    rewrite Hp, Z.eqb_refl. cbn [assert_ mbind option_bind]. f_equal.
    rewrite hdr_upd_ne by done. rewrite Hpv. rewrite hdr_upd_ne by done. rewrite Hpv.
    rewrite (proj2 (Z.eqb_neq p 0)) by (intros ->; apply H0; set_solver).
    apply upd_comm. done.
Qed.

Lemma attach_placed a p h :
  prev (hdr h a) = p → p ≠ a → prev (hdr h p) ≠ a → placed a p (prev (hdr h p)) h (attach a h).
Proof.
  intros Hp Hpa Hppa. unfold attach. rewrite Hp. set (h1 := upd a (set_next p) h).
  assert (hdr h1 a = set_next p (hdr h a)) as E1 by apply hdr_upd_eq. rewrite E1. cbn [next set_next].
  assert (hdr h1 p = hdr h p) as E2 by by apply hdr_upd_ne. rewrite E2. set (pp := prev (hdr h p)) in *.
  set (h2 := upd a (set_prev pp) h1). assert (hdr h2 a = set_prev pp (set_next p (hdr h a))) as E3.
  { unfold h2. by rewrite hdr_upd_eq, E1. } rewrite E3. cbn [next set_next set_prev].
  set (h3 := upd p (set_prev a) h2).
  assert (hdr h3 a = set_prev pp (set_next p (hdr h a))) as E4 by (unfold h3; by rewrite hdr_upd_ne).
  rewrite E4. cbn [prev set_prev].
  assert (∀ b, b ≠ a → hdr h2 b = hdr h b) as E5 by (intros b Hb; unfold h2, h1; by rewrite !hdr_upd_ne).
  assert (∀ b, b ≠ a → b ≠ p → hdr h3 b = hdr h b) as E6 by (intros b Hb Hb2; unfold h3; by rewrite hdr_upd_ne, E5).
  assert (hdr h3 p = set_prev a (hdr h p)) as E7 by (unfold h3; by rewrite hdr_upd_eq, E5).
  assert (∀ b, next (hdr h3 b) = if decide (b = a) then p else next (hdr h b)) as N3.
  { intros b. case_decide as H1; [by subst b; rewrite E4|]. destruct (decide (b = p)) as [->|]; [by rewrite E7|by rewrite E6]. }
  assert (∀ b, prev (hdr h3 b) = if decide (b = a) then pp else if decide (b = p) then a else prev (hdr h b)) as P3.
  { intros b. case_decide as H1; [by subst b; rewrite E4|]. case_decide as H2; [by subst b; rewrite E7|by rewrite E6]. }
  destruct (Z.eqb_spec pp 0) as [Hz|Hz].
  - split; [|done]. intros b. rewrite N3. case_decide; [done|]. rewrite decide_False; [done|]. intros [-> ?]. done.
  - split; intros b; (destruct (decide (pp = b)) as [<-|Hb]; [rewrite hdr_upd_eq|rewrite hdr_upd_ne by done]); cbn [next prev set_next].
    + rewrite decide_False, decide_True by done. done.
    + rewrite N3. case_decide; [done|]. rewrite decide_False by naive_solver. done.
    + apply P3.
    + apply P3.
Qed.

Lemma payload_ext i j : payload i = payload j → next i = next j → prev i = prev j → i = j.
Proof. destruct i, j. cbn. intros [=] -> ->. by subst. Qed.

Lemma upd_payload a f h b : (∀ i, payload (f i) = payload i) → payload (hdr (upd a f h) b) = payload (hdr h b).
Proof. intros Hf. destruct (decide (a = b)) as [<-|]; [by rewrite hdr_upd_eq|by rewrite hdr_upd_ne]. Qed.

Lemma attach_payload a h b : payload (hdr (attach a h) b) = payload (hdr h b).
Proof. unfold attach. case_match; by rewrite !upd_payload. Qed.

(** The crawler passes the entry [p]. *)
Lemma line_crawl h hd tl l1 p a l2 :
  line h hd tl (l1 ++ p :: a :: l2) →
  let h' := attach a (cut a h) in
  line h' (if hd =? p then a else hd) (if tl =? a then p else tl) (l1 ++ a :: p :: l2) ∧
  next (hdr h' a) = p ∧ prev (hdr h' a) ≠ a ∧ (∀ b, payload (hdr h' b) = payload (hdr h b)) ∧
  ∀ b, b ∉ l1 ++ p :: a :: l2 → hdr h' b = hdr h b.
Proof.
  intros Hl0 h'. assert (line h hd tl ((l1 ++ [p]) ++ a :: l2)) as Hl by by rewrite <-(assoc_L (++)).
  destruct (line_pointers Hl) as (Hpv & Hnx & Hna & Hpa). rewrite last_snoc in Hpv. cbn in Hpv.
  pose proof (line_nonzero Hl) as H0. pose proof (line_ends Hl) as [Hhd _].
  pose proof (line_cut Hl) as Hc. rewrite <-(assoc_L (++)) in Hc. cbn [app] in Hc.
  rewrite (proj2 (Z.eqb_neq hd a)) in Hc by (intros ->; by destruct l1; destruct Hhd as [Hhd _]; specialize (Hhd eq_refl)).
  rewrite Hpv in Hc. pose proof Hc as [Hd Ht Hnd]. pose proof (ln_nodup _ _ _ _ Hl0) as Hnd0.
  destruct (dll_neighbours _ _ _ _ _ _ Hd) as [Hpp _]. pose proof (line_cut_self Hl) as Hself.
  assert (a ∉ l1 ++ p :: l2) as Ha.
  { apply list.NoDup_app in Hnd0 as (_ & Hdj & Hnd0).
    apply list.NoDup_cons in Hnd0 as [Hn1 [Hn2 _]%list.NoDup_cons]. clear -Hdj Hn1 Hn2. specialize (Hdj a).
    rewrite elem_of_app, elem_of_cons. intros [Hi|[->|Hi]]; [apply Hdj; [done|]; by right; left|by apply Hn1; left|done]. }
  assert (a ≠ 0) as Ha0 by (intros ->; apply H0; clear; set_solver).
  assert (placed a p (prev (hdr (cut a h) p)) (cut a h) h') as Hpl.
  { apply attach_placed; [by rewrite Hself|congruence|]. rewrite Hpp. destruct (list.last l1) as [z|] eqn:E; cbn; [|done].
    apply last_Some_elem_of in E. intros ->. apply Ha, elem_of_app. by left. }
  rewrite Hpp in Hpl. split_and!.
  - split.
    + eapply placed_dll; try done. intros Hz. apply H0. clear -Hz. set_solver.
    + rewrite Ht. by destruct l2 as [|b l2 _] using rev_ind; rewrite ?app_comm_cons, ?(assoc_L (++)), ?last_snoc, ?last_app.
    + apply list.NoDup_app in Hnd as (? & Hdj & Hnd). apply list.NoDup_app. split_and!; [done| |].
      * intros b Hb [->|Hb2]%elem_of_cons; [by apply Ha, elem_of_app; left|by apply (Hdj b)].
      * apply list.NoDup_cons. split; [|done]. intros Hb. apply Ha, elem_of_app. by right.
  - rewrite (pl_next _ _ _ _ _ Hpl). by rewrite decide_True.
  - rewrite (pl_prev _ _ _ _ _ Hpl), decide_True by done. destruct (list.last l1) as [z|] eqn:E; cbn; [|done].
    apply last_Some_elem_of in E. intros ->. apply Ha, elem_of_app. by left.
  - intros b. unfold h'. rewrite attach_payload. apply (line_cut_payload Hl).
  - intros b Hb. assert (hdr (cut a h) b = hdr h b) as Hcb.
    { apply (line_cut_other Hl). by rewrite <-(assoc_L (++)). }
    assert (b ≠ a ∧ b ≠ p) as [??] by (clear -Hb; set_solver).
    apply payload_ext; [unfold h'; rewrite attach_payload; apply (line_cut_payload Hl)|..].
    + rewrite (pl_next _ _ _ _ _ Hpl), decide_False, decide_False, Hcb; [done| |done]. intros [-> Hz].
      destruct (list.last l1) as [z|] eqn:E; cbn in *; [|done].
      apply last_Some_elem_of in E. apply Hb, elem_of_app. by left.
    + by rewrite (pl_prev _ _ _ _ _ Hpl), !decide_False, Hcb by done.
Qed.

(** What linking [a] behind the entry [tl] does to the headers. *)
Definition append (a tl : Z) (h : heap) : heap :=
  let h := upd a (set_next 0) (upd a (set_prev tl) h) in
  if tl =? 0 then h else upd tl (set_next a) h.

Lemma append_other a tl h b : b ≠ a → (tl ≠ 0 → b ≠ tl) → hdr (append a tl h) b = hdr h b.
Proof.
  intros Hb Ht. unfold append. destruct (Z.eqb_spec tl 0); [by rewrite !hdr_upd_ne|].
  rewrite !hdr_upd_ne; try done. apply not_eq_sym. auto.
Qed.

Lemma append_payload a tl h b : payload (hdr (append a tl h) b) = payload (hdr h b).
Proof. unfold append. case_match; by rewrite !upd_payload. Qed.

Lemma append_self a tl h : tl ≠ a → hdr (append a tl h) a = set_next 0 (set_prev tl (hdr h a)).
Proof. intros. unfold append. case_match; rewrite ?(hdr_upd_ne tl) by done; by rewrite !hdr_upd_eq. Qed.

Lemma append_last a tl h : tl ≠ a → tl ≠ 0 → hdr (append a tl h) tl = set_next a (hdr h tl).
Proof.
  intros Ha H0. unfold append. rewrite (proj2 (Z.eqb_neq _ _) H0), hdr_upd_eq. by rewrite !hdr_upd_ne by done.
Qed.

Lemma append_dll a h pv q l :
  NoDup l → 0 ∉ l → a ∉ l → a ≠ 0 → pv ∉ l → a ≠ pv → dll h pv q l →
  let tl := default pv (list.last l) in
  let h' := append a tl h in
  dll h' pv (if q =? 0 then a else q) (l ++ [a]).
Proof.
  intros Hnd H0 Ha Ha0 Hpv Hapv. cbv zeta. revert pv q Hnd Hpv Hapv. induction l as [|b l IH]; intros pv q Hnd Hpv Hapv Hl; cbn in Hl.
  - subst q. cbn. rewrite append_self by done. done.
  - destruct Hl as (-> & Hb & Hbp & Hl). apply list.NoDup_cons in Hnd as [Hbl Hnd]. rewrite not_elem_of_cons in *.
    destruct H0 as [_ H0], Ha as [Hab Ha], Hpv as [Hpb Hpv]. rewrite (proj2 (Z.eqb_neq b 0)) by done.
    specialize (IH H0 Ha b (next (hdr h b)) Hnd Hbl Hab Hl). rewrite last_cons.
    replace (default pv match list.last l with Some y => Some y | None => Some b end) with (default b (list.last l))
      by (by destruct (list.last l)).
    cbn [app dll]. set (tl := default b (list.last l)) in *. set (h' := append a tl h) in *.
    destruct l as [|d l].
    + cbn in tl. unfold h' in *. rewrite append_last by done. cbn [prev next set_next]. split_and!; try done.
      cbn in Hl. by rewrite Hl in IH.
    + assert (tl ∈ d :: l) as Htl.
      { unfold tl. destruct (list.last (d :: l)) as [z|] eqn:E; [by apply last_Some_elem_of in E|by apply last_None in E]. }
      assert (hdr h' b = hdr h b) as -> by (apply append_other; [done|]; intros _ Hx; by apply Hbl; rewrite Hx).
      split_and!; try done. rewrite (proj2 (Z.eqb_neq (next (hdr h b)) 0)) in IH; [done|].
      cbn in Hl. destruct Hl as (-> & ? & _). done.
Qed.

Lemma line_append h hd tl l a :
  line h hd tl l → a ∉ l → a ≠ 0 → line (append a tl h) (if hd =? 0 then a else hd) a (l ++ [a]).
Proof.
  intros [Hd -> Hnd] Ha Ha0. assert (0 ∉ l) as H0 by (intros H0; by apply (dll_nonzero _ _ _ _ 0 Hd)). split.
  - by apply append_dll.
  - by rewrite last_snoc.
  - apply list.NoDup_app. split_and!; [done| |apply NoDup_singleton]. intros b Hb ->%list_elem_of_singleton. done.
Qed.

(** ** Crawlers hidden in the queues *)

(** [sizeof(crawler)] *)
Definition sizeof_crawler : Z := 72.

Section Hidden.
(** The address of the array [crawlers]. *)
Context (crawlers_base : Z).
Context (st : item_settings).

(** [&crawlers[i]] *)
Definition crawler_at (i : nat) : Z := crawlers_base + sizeof_crawler * Z.of_nat i.

(** In the array. *)
Definition in_crawlers (b : Z) : Prop := crawlers_base ≤ b < crawlers_base + sizeof_crawler * Z.of_nat LARGEST_ID.

#[export] Instance in_crawlers_dec b : Decision (in_crawlers b).
Proof. unfold in_crawlers. apply _. Defined.

(** The queue without the crawlers. *)
Definition reals (l : list Z) : list Z := filter (λ b, ¬ in_crawlers b) l.

Lemma crawler_at_in i : (i < LARGEST_ID)%nat → in_crawlers (crawler_at i).
Proof using. unfold in_crawlers, crawler_at, LARGEST_ID, sizeof_crawler. lia. Qed.

Lemma crawler_at_inj i j : crawler_at i = crawler_at j → i = j.
Proof using. unfold crawler_at, sizeof_crawler. lia. Qed.

(** [c] is the cache, with crawlers in its queues [Q]; [c0] is what it would be without them. *)
Record hides (c0 c : cache) (Q : nat → list Z) : Prop := {
  hi_table : table c = table c0;
  hi_sizes : sizes c = sizes c0 ∧ sizes_bytes c = sizes_bytes c0;
  hi_stats : curr_bytes c = curr_bytes c0 ∧ curr_items c = curr_items c0 ∧ total_items c = total_items c0 ∧
    cas_id c = cas_id c0 ∧ bumps c = bumps c0;
  hi_slab : slab c = with_mem (slab c0) (mem_of_cache c);
  hi_slabs : slabs_ok (slab_settings st) (slab c0);
  hi_lengths : length (heads c) = LARGEST_ID ∧ length (tails c) = LARGEST_ID;
  hi_lengths0 : length (heads c0) = LARGEST_ID ∧ length (tails c0) = LARGEST_ID;
  hi_line id : (id < LARGEST_ID)%nat → line (mem_of_cache c) (heads c !!! id) (tails c !!! id) (Q id);
  hi_line0 id : (id < LARGEST_ID)%nat → line (mem_of_cache c0) (heads c0 !!! id) (tails c0 !!! id) (reals (Q id));
  hi_apart id id' b : (id < LARGEST_ID)%nat → (id' < LARGEST_ID)%nat → b ∈ Q id → b ∈ Q id' → id = id';
  hi_own id b : (id < LARGEST_ID)%nat → b ∈ Q id → in_crawlers b → b = crawler_at id;
  hi_payload b : ¬ in_crawlers b → payload (ith c b) = payload (ith c0 b);
  hi_free i b : valid (slab c0) i → b ∈ free_list (slab c0) i → ith c b = ith c0 b;
  hi_busy id i b : (id < LARGEST_ID)%nat → b ∈ Q id → valid (slab c0) i → b ∉ free_list (slab c0) i;
  hi_static i b : valid (slab c0) i → chunk (slab c0) i b → ¬ in_crawlers b
}.

Lemma elem_of_reals b l : b ∈ reals l ↔ b ∈ l ∧ ¬ in_crawlers b.
Proof using. unfold reals. rewrite list_elem_of_filter. tauto. Qed.

Lemma reals_app l1 l2 : reals (l1 ++ l2) = reals l1 ++ reals l2.
Proof using. apply list.filter_app. Qed.

Lemma reals_real a l : ¬ in_crawlers a → reals (a :: l) = a :: reals l.
Proof using. intros Ha. unfold reals. by rewrite filter_cons_True. Qed.

Lemma reals_crawler a l : in_crawlers a → reals (a :: l) = reals l.
Proof using. intros Ha. unfold reals. rewrite filter_cons_False; [done|]. by intros []. Qed.

(** Both heaps and the queue pointers change. *)
Lemma hides_heaps c0 c Q h0' h' hd0 tl0 hd tl sz sb Q' :
  hides c0 c Q →
  (∀ i b, valid (slab c0) i → b ∈ free_list (slab c0) i → hdr h0' b = ith c0 b ∧ hdr h' b = ith c b) →
  (∀ b, ¬ in_crawlers b → payload (hdr h' b) = payload (hdr h0' b)) →
  length hd = LARGEST_ID ∧ length tl = LARGEST_ID → length hd0 = LARGEST_ID ∧ length tl0 = LARGEST_ID →
  (∀ id, (id < LARGEST_ID)%nat → line h' (hd !!! id) (tl !!! id) (Q' id)) →
  (∀ id, (id < LARGEST_ID)%nat → line h0' (hd0 !!! id) (tl0 !!! id) (reals (Q' id))) →
  (∀ id b, (id < LARGEST_ID)%nat → b ∈ Q' id → b ∈ Q id ∨ b = crawler_at id) →
  hides (with_queues (with_heap c0 h0') hd0 tl0 sz sb) (with_queues (with_heap c h') hd tl sz sb) Q'.
Proof using.
  intros H Hfree Hpay Hlen Hlen0 Hline Hline0 Hsub.
  destruct (slabs_frame (slab_settings st) (slab c0) h0') as [Hs Hf]; [apply H|by intros id b Hid Hb; apply (Hfree id)|].
  assert (∀ id b, (id < LARGEST_ID)%nat → b ∈ Q' id → in_crawlers b → b = crawler_at id) as Hown.
  { intros id b Hid Hb Hc. destruct (Hsub id b Hid Hb) as [Hb'| ->]; [by apply (hi_own _ _ _ H)|done]. }
  split; unfold mem_of_cache; cbn [table slab heads tails sizes sizes_bytes curr_bytes curr_items total_items cas_id bumps
    with_queues with_heap with_slab with_mem chunks_mem]; try done; try apply H.
  - rewrite (hi_slab _ _ _ H). done.
  - intros id id' b Hid Hid' Hb Hb'. destruct (decide (in_crawlers b)) as [Hc|Hc].
    { apply crawler_at_inj. rewrite <-(Hown id b), <-(Hown id' b); done. }
    assert (∀ j, (j < LARGEST_ID)%nat → b ∈ Q' j → b ∈ Q j) as Hq.
    { intros j Hj Hbj. destruct (Hsub j b Hj Hbj) as [Hy|Hx]; [done|]. destruct Hc. rewrite Hx. by apply crawler_at_in. }
    apply (hi_apart _ _ _ H id id' b); auto.
  - intros i b Hi Hb. rewrite Hf in Hb by done. destruct (Hfree i b Hi Hb) as [H1 H2].
    change (ith (with_queues (with_heap c h') hd tl sz sb) b) with (hdr h' b).
    change (ith (with_queues (with_heap c0 h0') hd0 tl0 sz sb) b) with (hdr h0' b). rewrite H1, H2. by apply (hi_free _ _ _ H i).
  - intros id i b Hid Hb Hi. rewrite Hf by done. destruct (Hsub id b Hid Hb) as [Hb'| ->]; [by apply (hi_busy _ _ _ H id)|].
    intros Hin. apply (s_chunks _ _ (hi_slabs _ _ _ H)) in Hin; [|done].
    apply (hi_static _ _ _ H) in Hin; [|done]. by apply Hin, crawler_at_in.
Qed.

(** The crawlers move: the queue without them stays. *)
Lemma hides_crawl c0 c Q id l' h' hd tl :
  hides c0 c Q → (id < LARGEST_ID)%nat →
  line h' (hd !!! id) (tl !!! id) l' → reals l' = reals (Q id) →
  (∀ b, b ∈ l' → b ∈ Q id ∨ b = crawler_at id) →
  (∀ b, b ∉ Q id → b ≠ crawler_at id → hdr h' b = ith c b) →
  (∀ b, ¬ in_crawlers b → payload (hdr h' b) = payload (ith c b)) →
  length hd = LARGEST_ID ∧ length tl = LARGEST_ID →
  (∀ i, i ≠ id → hd !!! i = heads c !!! i ∧ tl !!! i = tails c !!! i) →
  hides c0 (with_queues (with_heap c h') hd tl (sizes c) (sizes_bytes c)) (set_list Q id l').
Proof using.
  intros H Hid Hl Hr Hsub Hoth Hpay Hlen Hne.
  assert (∀ i b, (i < LARGEST_ID)%nat → i ≠ id → b ∈ Q i → hdr h' b = ith c b) as Hq.
  { intros i b Hi Hni Hb. apply Hoth.
    - intros Hb'. apply Hni. by apply (hi_apart _ _ _ H i id b).
    - intros ->. apply Hni. symmetry. apply crawler_at_inj. apply (hi_own _ _ _ H i); [done|done|by apply crawler_at_in]. }
  enough (hides (with_queues (with_heap c0 (mem_of_cache c0)) (heads c0) (tails c0) (sizes c) (sizes_bytes c))
    (with_queues (with_heap c h') hd tl (sizes c) (sizes_bytes c)) (set_list Q id l')) as Hh.
  { destruct (hi_sizes _ _ _ H) as [E1 E2]. rewrite E1, E2 in *.
    replace (with_queues (with_heap c0 (mem_of_cache c0)) (heads c0) (tails c0) (sizes c0) (sizes_bytes c0)) with c0 in Hh; [done|].
    destruct c0 as [t s x1 x2 x3 x4 x5 x6 x7 x8 x9]. by destruct s. }
  apply (hides_heaps c0 c Q); try done.
  - intros i b Hi Hb. split; [done|]. apply Hoth.
    + intros Hb'. by apply (hi_busy _ _ _ H id i b).
    + intros ->. apply (s_chunks _ _ (hi_slabs _ _ _ H)) in Hb; [|done].
      apply (hi_static _ _ _ H) in Hb; [|done]. by apply Hb, crawler_at_in.
  - intros b Hb. rewrite Hpay by done. by apply (hi_payload _ _ _ H).
  - apply H.
  - intros i Hi. unfold set_list. case_decide as E; [by subst i|]. destruct (Hne i E) as [-> ->].
    apply (line_frame (mem_of_cache c)); [|by apply (hi_line _ _ _ H)]. intros b Hb. by apply (Hq i).
  - intros i Hi. unfold set_list. case_decide as E; [subst i; rewrite Hr|]; by apply (hi_line0 _ _ _ H).
  - intros i b Hi. unfold set_list. case_decide as E; [subst i; apply Hsub|by left].
Qed.

(** ** The crawler's operations *)

Context (Hbase : 0 < crawlers_base).

Lemma crawler_at_nonzero i : crawler_at i ≠ 0.
Proof using Hbase. unfold crawler_at, sizeof_crawler. lia. Qed.

(** Writing to a crawler that keeps its place. *)
Lemma hides_set_crawler c0 c Q id f :
  hides c0 c Q → (id < LARGEST_ID)%nat → (∀ it, next (f it) = next it ∧ prev (f it) = prev it) ∨ crawler_at id ∉ Q id →
  hides c0 (set_item c (crawler_at id) f) Q.
Proof using.
  intros H Hid Hf. set (cr := crawler_at id).
  assert (∀ b, ¬ in_crawlers b → hdr (upd cr f (mem_of_cache c)) b = ith c b) as Hne.
  { intros b Hb. rewrite hdr_upd_ne; [done|]. intros <-. by apply Hb, crawler_at_in. }
  assert (∀ i b, valid (slab c0) i → b ∈ free_list (slab c0) i → ¬ in_crawlers b) as Hfree.
  { intros i b Hi Hb. apply (s_chunks _ _ (hi_slabs _ _ _ H)) in Hb; [|done]. by apply (hi_static _ _ _ H) in Hb. }
  pose proof H as [T1 T2 T3 T4 T5 T6 T6' T7 T8 T9 T10 T11 T12 T13 T14].
  split; try done.
  - cbn [set_item with_heap with_slab slab]. rewrite T4. done.
  - intros i Hi. destruct (T7 i Hi) as [Hd Ht Hn]. split; [|done..]. eapply dll_frame; [|done]. intros b Hb.
    unfold set_item, mem_of_cache. cbn [with_heap with_slab slab with_mem chunks_mem].
    destruct (decide (cr = b)) as [<-|]; [|by rewrite hdr_upd_ne]. rewrite hdr_upd_eq. destruct Hf as [Hf|Hf]; [apply Hf|].
    destruct Hf. assert (crawler_at id = crawler_at i) as E%crawler_at_inj by (apply (T10 i); [done|done|by apply crawler_at_in]). by subst i.
  - intros b Hb. change (ith (set_item c cr f) b) with (hdr (upd cr f (mem_of_cache c)) b). rewrite Hne by done. by apply T11.
  - intros i b Hi Hb. change (ith (set_item c cr f) b) with (hdr (upd cr f (mem_of_cache c)) b).
    rewrite Hne by by apply (Hfree i). by apply (T12 i).
Qed.

(** A crawler that is switched on. *)
Record enabled (c : cache) (id : nat) : Prop := {
  en_flags : it_flags (ith c (crawler_at id)) = 1;
  en_nbytes : nbytes (ith c (crawler_at id)) = 0;
  en_class : qid c (crawler_at id) = id
}.

Lemma insert_queue {A} `{Inhabited A} (l : list A) (b : bool) id x i :
  i ≠ id → (if b then <[id := x]> l else l) !!! i = l !!! i.
Proof using. intros Hi. destruct b; [|done]. by rewrite list_lookup_total_insert_ne. Qed.

Lemma insert_queue_eq {A} `{Inhabited A} (l : list A) (b : bool) id x :
  (id < length l)%nat → (if b then <[id := x]> l else l) !!! id = if b then x else l !!! id.
Proof using. intros Hi. destruct b; [|done]. by rewrite list_lookup_total_insert_eq. Qed.

Lemma insert_queue_length {A} (l : list A) (b : bool) id x : length (if b then <[id := x]> l else l) = length l.
Proof using. destruct b; [|done]. apply length_insert. Qed.

Lemma linktail_ok c0 c Q id :
  hides c0 c Q → (id < LARGEST_ID)%nat → crawler_at id ∉ Q id → enabled c id →
  ∃ c', do_item_linktail_q c (crawler_at id) = Some c' ∧ hides c0 c' (set_list Q id (Q id ++ [crawler_at id])) ∧
    ∀ b, payload (ith c' b) = payload (ith c b).
Proof using Hbase.
  intros H Hid Hq [Hfl Hnb Hcl]. set (cr := crawler_at id) in *. pose proof (hi_line _ _ _ H id Hid) as Hl.
  pose proof (crawler_at_nonzero id) as Hcr0. fold cr in Hcr0. destruct (line_empty _ _ _ _ Hl) as [Hh0 Ht0].
  destruct (hi_lengths _ _ _ H) as [Hlh Hlt].
  unfold do_item_linktail_q. rewrite Hfl, Hnb, Hcl. set (hd := heads c !!! id) in *. set (tl := tails c !!! id) in *.
  assert (tl ≠ cr) as Htl.
  { destruct Hl as [Hd Ht _]. rewrite Ht. destruct (list.last (Q id)) as [z|] eqn:E; cbn; [|done].
    apply last_Some_elem_of in E. by intros ->. }
  rewrite (proj2 (Z.eqb_neq cr tl)) by done. cbn [Z.eqb Pos.eqb negb assert_ mbind option_bind].
  assert ((negb (hd =? 0) && negb (tl =? 0)) || ((hd =? 0) && (tl =? 0)) = true) as ->.
  { destruct (Z.eqb_spec hd 0) as [E|E], (Z.eqb_spec tl 0) as [F|F]; try done; exfalso; tauto. }
  cbn [assert_ mbind option_bind].
  assert (prev (ith (set_item (set_item c cr (set_prev tl)) cr (set_next 0)) cr) = tl) as Hpv by by rewrite !ith_set_eq.
  rewrite Hpv. set (c1 := set_item (set_item c cr (set_prev tl)) cr (set_next 0)) in *.
  assert (∃ c2, (if tl =? 0 then Some c1 else assert_ (next (ith c1 tl) =? 0);; Some (set_item c1 tl (set_next cr))) = Some c2 ∧
    c2 = with_heap c (append cr tl (mem_of_cache c))) as (c2 & -> & ->).
  { unfold append. destruct (Z.eqb_spec tl 0) as [E|E]; [by eexists|].
    assert (next (ith c1 tl) = 0) as ->; [|by eexists].
    unfold c1. rewrite !ith_set_ne by done. destruct Hl as [Hd Ht _]. fold tl in Ht.
    destruct (Q id) as [|b l _] using rev_ind; [done|]. rewrite last_snoc in Ht. cbn in Ht. subst b.
    unfold ith. by destruct (dll_neighbours _ _ _ _ _ _ Hd) as [_ ->]. }
  cbn [mbind option_bind]. eexists. split; [done|].
  set (h' := append cr tl (mem_of_cache c)).
  assert (∀ b, payload (hdr h' b) = payload (ith c b)) as Hpay by (intros; apply append_payload).
  pose proof (hides_crawl c0 c Q id (Q id ++ [cr]) h' (if hd =? 0 then <[id := cr]> (heads c) else heads c)
    (<[id := cr]> (tails c)) H Hid) as Hh.
  split; [|by destruct (hd =? 0)].
  match goal with |- hides _ ?x _ => replace x with (with_queues (with_heap c h') (if hd =? 0 then <[id := cr]> (heads c) else heads c)
    (<[id := cr]> (tails c)) (sizes c) (sizes_bytes c)) by (by destruct (hd =? 0)) end.
  apply Hh.
  - rewrite list_lookup_total_insert_eq by lia. rewrite insert_queue_eq by lia. by apply line_append.
  - rewrite reals_app, (reals_crawler cr) by by apply crawler_at_in. apply app_nil_r.
  - intros b [Hb|Hb%list_elem_of_singleton]%elem_of_app; auto.
  - intros b Hb Hbc. apply append_other; [done|]. intros Hz ->. apply Hb. destruct Hl as [_ Ht _]. rewrite Ht.
    destruct (list.last (Q id)) as [z|] eqn:E; cbn; [by apply last_Some_elem_of in E|]. by rewrite Ht in Hz.
  - intros b _. apply Hpay.
  - by rewrite insert_queue_length, length_insert.
  - intros i Hi. by rewrite insert_queue, list_lookup_total_insert_ne.
Qed.

Lemma unlinktail_ok c0 c Q id q1 q2 :
  hides c0 c Q → (id < LARGEST_ID)%nat → Q id = q1 ++ crawler_at id :: q2 → qid c (crawler_at id) = id →
  ∃ c', do_item_unlinktail_q c (crawler_at id) = Some c' ∧ hides c0 c' (set_list Q id (q1 ++ q2)) ∧
    ∀ b, payload (ith c' b) = payload (ith c b).
Proof using.
  intros H Hid HQ Hcl. set (cr := crawler_at id) in *. pose proof (hi_line _ _ _ H id Hid) as Hl. rewrite HQ in Hl.
  destruct (line_pointers Hl) as (Hpv & Hnx & Hna & Hpa), (line_ends Hl) as [Hhd Htl], (hi_lengths _ _ _ H) as [Hlh Hlt].
  fold (ith c cr) in Hpv, Hnx, Hna, Hpa. unfold do_item_unlinktail_q. rewrite Hcl.
  assert (negb (heads c !!! id =? cr) || (prev (ith c cr) =? 0) = true) as ->.
  { destruct (Z.eqb_spec (heads c !!! id) cr) as [E|]; [|done]. by rewrite Hpv, (proj1 Hhd E). }
  assert (negb (tails c !!! id =? cr) || (next (ith c cr) =? 0) = true) as ->.
  { destruct (Z.eqb_spec (tails c !!! id) cr) as [E|]; [|done]. by rewrite Hnx, (proj1 Htl E). }
  rewrite (proj2 (Z.eqb_neq _ _) Hna), (proj2 (Z.eqb_neq _ _) Hpa). cbn [negb assert_ mbind option_bind].
  eexists. split; [done|]. split; [|intros b; apply (line_cut_payload Hl)].
  apply (hides_crawl c0 c Q id); try done.
  - rewrite !insert_queue_eq by lia. apply (line_cut Hl).
  - by rewrite HQ, !reals_app, (reals_crawler cr) by by apply crawler_at_in.
  - intros b Hb. left. rewrite HQ. rewrite elem_of_app in *. rewrite elem_of_cons. tauto.
  - intros b Hb Hbc. rewrite HQ in Hb. by apply (line_cut_other Hl).
  - intros b _. apply (line_cut_payload Hl).
  - by rewrite !insert_queue_length.
  - intros i Hi. by rewrite !insert_queue.
Qed.

(** The crawler is switched off and leaves its queue. *)
Definition leave (c : cache) (id : nat) : option cache :=
  do_item_unlinktail_q (set_item c (crawler_at id) (set_it_flags 0)) (crawler_at id).

Lemma leave_ok c0 c Q id q1 q2 :
  hides c0 c Q → (id < LARGEST_ID)%nat → Q id = q1 ++ crawler_at id :: q2 → enabled c id →
  ∃ c', leave c id = Some c' ∧ hides c0 c' (set_list Q id (q1 ++ q2)) ∧
    (∀ b, b ≠ crawler_at id → payload (ith c' b) = payload (ith c b)) ∧ it_flags (ith c' (crawler_at id)) = 0.
Proof using.
  intros H Hid HQ [_ _ Hcl]. pose proof (hides_set_crawler c0 c Q id (set_it_flags 0) H Hid) as H1.
  destruct (unlinktail_ok c0 (set_item c (crawler_at id) (set_it_flags 0)) Q id q1 q2) as (c' & E & H' & Hp);
    [apply H1; by left|done|done|unfold qid; rewrite ith_set_eq; done|].
  exists c'. split_and!; [done|done| |].
  - intros b Hb. rewrite Hp. by rewrite ith_set_ne.
  - specialize (Hp (crawler_at id)). rewrite ith_set_eq in Hp. by apply (f_equal it_flags) in Hp.
Qed.

(** One place forward. *)
Lemma crawl_ok c0 c Q id q1 p q2 :
  hides c0 c Q → (id < LARGEST_ID)%nat → Q id = q1 ++ p :: crawler_at id :: q2 → enabled c id →
  ∃ c', do_item_crawl_q c (crawler_at id) = Some (c', p) ∧ p ≠ 0 ∧
    hides c0 c' (set_list Q id (q1 ++ crawler_at id :: p :: q2)) ∧ ∀ b, payload (ith c' b) = payload (ith c b).
Proof using.
  intros H Hid HQ [Hfl Hnb Hcl]. set (cr := crawler_at id) in *. pose proof (hi_line _ _ _ H id Hid) as Hl. rewrite HQ in Hl.
  assert (line (mem_of_cache c) (heads c !!! id) (tails c !!! id) ((q1 ++ [p]) ++ cr :: q2)) as Hl2 by by rewrite <-(assoc_L (++)).
  destruct (line_pointers Hl2) as (Hpv & Hnx & Hna & Hpa). fold (ith c cr) in Hpv, Hnx, Hna, Hpa.
  rewrite last_snoc in Hpv. cbn in Hpv. destruct (hi_lengths _ _ _ H) as [Hlh Hlt].
  destruct (line_crawl _ _ _ _ _ _ _ Hl) as (Hl' & Hn' & Hp' & Hpay & Hoth).
  assert (p ≠ 0 ∧ p ≠ cr) as [Hp0 Hpc] by (split; [|congruence]; intros ->; apply (line_nonzero Hl), elem_of_app; right; by left).
  unfold do_item_crawl_q. rewrite Hfl, Hnb, Hcl, Hpv. cbn [Z.eqb Pos.eqb assert_ mbind option_bind].
  rewrite (proj2 (Z.eqb_neq _ _) Hp0), (proj2 (Z.eqb_neq _ _) Hpc), (proj2 (Z.eqb_neq _ _) Hna). cbn [negb assert_ mbind option_bind].
  rewrite (detach_cut _ _ _ _ _ _ _ Hl2). cbn [mbind option_bind]. rewrite Hn'.
  rewrite (proj2 (Z.eqb_neq _ _) Hpc), (proj2 (Z.eqb_neq _ _) Hp'). cbn [negb assert_ mbind option_bind].
  eexists. split; [done|]. split; [done|]. split; [|done]. apply (hides_crawl c0 c Q id); try done.
  - rewrite !insert_queue_eq by lia. done.
  - rewrite HQ, !reals_app. f_equal. destruct (decide (in_crawlers p)).
    + by rewrite !reals_crawler by (done || by apply crawler_at_in).
    + rewrite (reals_crawler cr) by by apply crawler_at_in. rewrite !(reals_real p) by done.
      by rewrite (reals_crawler cr) by by apply crawler_at_in.
  - intros b Hb. left. rewrite HQ. rewrite elem_of_app, !elem_of_cons in *. tauto.
  - intros b Hb _. rewrite HQ in Hb. by apply Hoth.
  - by rewrite !insert_queue_length.
  - intros i Hi. by rewrite !insert_queue.
Qed.

Lemma upd_upd a f g h : upd a f (upd a g h) = upd a (λ i, f (g i)) h.
Proof using. unfold upd at 1. rewrite hdr_upd_eq. unfold upd. apply insert_insert_eq. Qed.

(** At the head the crawler gives up its place; switching it off has the effect it would have
    had before. *)
Lemma crawl_head c0 c Q id q2 :
  hides c0 c Q → (id < LARGEST_ID)%nat → Q id = crawler_at id :: q2 → enabled c id →
  ∃ c', do_item_crawl_q c (crawler_at id) = Some (c', 0) ∧ leave c' id = leave c id ∧
    ∀ b, payload (ith c' b) = payload (ith c b).
Proof using.
  intros H Hid HQ [Hfl Hnb Hcl]. set (cr := crawler_at id) in *. pose proof (hi_line _ _ _ H id Hid) as Hl. rewrite HQ in Hl.
  change (cr :: q2) with ([] ++ cr :: q2) in Hl.
  destruct (line_pointers Hl) as (Hpv & Hnx & Hna & Hpa), (line_ends Hl) as [Hhd Htl]. cbn in Hpv.
  fold (ith c cr) in Hpv, Hnx, Hna, Hpa. rewrite (proj2 Hhd eq_refl) in Hl. destruct (hi_lengths _ _ _ H) as [Hlh Hlt].
  unfold do_item_crawl_q. rewrite Hfl, Hnb, Hcl, Hpv, (proj2 Hhd eq_refl), (Z.eqb_refl cr). cbn [Z.eqb Pos.eqb assert_ mbind option_bind].
  destruct q2 as [|b q2]; cbn in Hnx.
  { rewrite Hnx. cbn [Z.eqb]. by exists c. }
  pose proof (ln_dll _ _ _ _ Hl) as (_ & _ & _ & _ & Hb0 & Hbp & _). change (hdr (mem_of_cache c) b) with (ith c b) in Hbp.
  assert (b ≠ cr) as Hbc by congruence. rewrite Hnx in *. rewrite (proj2 (Z.eqb_neq _ _) Hb0).
  change (ith (with_heads c (<[id:=b]> (heads c))) b) with (ith c b). rewrite Hbp, Z.eqb_refl. cbn [assert_ mbind option_bind].
  eexists. split; [done|]. split; [|intros d; by apply upd_payload]. set (c' := set_item _ b _).
  assert (∀ f, (∀ it, next (f it) = next it ∧ prev (f it) = prev it) → ith (set_item c' cr f) cr = f (ith c cr)) as Hi'.
  { intros f _. rewrite ith_set_eq. unfold c'. by rewrite ith_set_ne. }
  set (h := mem_of_cache c). change (ith c cr) with (hdr h cr) in *.
  assert (cut cr (upd cr (set_it_flags 0) (upd b (set_prev 0) h)) = cut cr (upd cr (set_it_flags 0) h)) as Hcut.
  { unfold cut. rewrite !hdr_upd_eq, (hdr_upd_ne b cr) by done. cbn [next prev set_it_flags]. rewrite Hnx, Hpv.
    rewrite (proj2 (Z.eqb_neq _ _) Hb0). rewrite !(hdr_upd_ne b cr), !hdr_upd_eq by done. rewrite ?(hdr_upd_ne b cr) by done.
    cbn [next prev set_it_flags]. rewrite Hpv. cbn [Z.eqb]. rewrite (upd_comm cr b) by done. by rewrite upd_upd. }
  unfold leave, do_item_unlinktail_q. unfold qid. fold cr. rewrite (Hi' (set_it_flags 0)), ith_set_eq by done.
  change (ith c cr) with (hdr h cr). cbn [Item.slabs_clsid set_it_flags prev next]. rewrite Hpv, Hnx.
  change (Z.to_nat (Item.slabs_clsid (hdr h cr))) with (qid c cr). rewrite Hcl.
  change (heads (set_item c' cr (set_it_flags 0))) with (<[id := b]> (heads c)).
  change (heads (set_item c cr (set_it_flags 0))) with (heads c).
  change (tails (set_item c' cr (set_it_flags 0))) with (tails c). change (tails (set_item c cr (set_it_flags 0))) with (tails c).
  rewrite list_lookup_total_insert_eq by lia. rewrite (proj2 Hhd eq_refl), (Z.eqb_refl cr), (proj2 (Z.eqb_neq _ _) Hbc).
  rewrite (proj2 (Z.eqb_neq (tails c !!! id) cr)) by (intros E; by apply Htl in E).
  rewrite (proj2 (Z.eqb_neq 0 cr)) by by rewrite <-Hpv. cbn [negb orb Z.eqb assert_ mbind option_bind].
  change (mem_of_cache (set_item c' cr (set_it_flags 0))) with (upd cr (set_it_flags 0) (upd b (set_prev 0) h)).
  change (mem_of_cache (set_item c cr (set_it_flags 0))) with (upd cr (set_it_flags 0) h). by rewrite Hcut.
Qed.

(** ** Operations on items, with and without the crawlers *)

(** The header at [a] changes, apart from its queue pointers. *)
Lemma hides_set c0 c Q a f :
  hides c0 c Q → ¬ in_crawlers a → (∀ i, valid (slab c0) i → a ∉ free_list (slab c0) i) →
  (∀ i j, payload i = payload j → payload (f i) = payload (f j)) → (∀ i, next (f i) = next i ∧ prev (f i) = prev i) →
  hides (set_item c0 a f) (set_item c a f) Q.
Proof using.
  intros H Hna Hfr Hf Hp.
  change (hides (with_queues (with_heap c0 (upd a f (mem_of_cache c0))) (heads c0) (tails c0) (sizes c0) (sizes_bytes c0))
    (with_queues (with_heap c (upd a f (mem_of_cache c))) (heads c) (tails c) (sizes c) (sizes_bytes c)) Q).
  destruct (hi_sizes _ _ _ H) as [-> ->].
  assert (∀ h hd tl l, line h hd tl l → line (upd a f h) hd tl l) as Hline.
  { intros h hd tl l [Hd Ht Hn]. split; [|done..]. eapply dll_frame; [|done]. intros b _.
    destruct (decide (a = b)) as [<-|]; [rewrite hdr_upd_eq; apply Hp|by rewrite hdr_upd_ne]. }
  apply (hides_heaps c0 c Q); try done; try apply H.
  - intros i b Hi Hb. assert (a ≠ b) by (intros <-; by apply (Hfr i)). by rewrite !hdr_upd_ne.
  - intros b Hb. destruct (decide (a = b)) as [<-|]; [rewrite !hdr_upd_eq; by apply Hf, (hi_payload _ _ _ H)|].
    rewrite !hdr_upd_ne by done. by apply (hi_payload _ _ _ H).
  - intros id Hid. by apply Hline, (hi_line _ _ _ H).
  - intros id Hid. by apply Hline, (hi_line0 _ _ _ H).
  - auto.
Qed.

Lemma payload_ntotal i j : payload i = payload j → ITEM_ntotal i = ITEM_ntotal j ∧ Item.slabs_clsid i = Item.slabs_clsid j ∧
  it_flags i = it_flags j ∧ refcount i = refcount j ∧ key i = key j.
Proof using. destruct i, j. intros [=]; subst. done. Qed.

Lemma hides_unlink_q c0 c Q a id q1 q2 c0' :
  hides c0 c Q → (id < LARGEST_ID)%nat → ¬ in_crawlers a → Q id = q1 ++ a :: q2 → qid c0 a = id →
  do_item_unlink_q c0 a = Some c0' →
  ∃ c', do_item_unlink_q c a = Some c' ∧ hides c0' c' (set_list Q id (q1 ++ q2)) ∧
    (∀ b, payload (ith c' b) = payload (ith c b)).
Proof using.
  intros H Hid Hna HQ Hq. pose proof (hi_line _ _ _ H id Hid) as Hl. pose proof (hi_line0 _ _ _ H id Hid) as Hl0.
  destruct (payload_ntotal _ _ (hi_payload _ _ _ H a Hna)) as (Ent & Ecl & _).
  assert (qid c a = id) as Hqc by (unfold qid in *; by rewrite Ecl).
  rewrite HQ in Hl, Hl0. rewrite reals_app, reals_real in Hl0 by done.
  destruct (hi_lengths _ _ _ H) as [Hlh Hlt], (hi_lengths0 _ _ _ H) as [Hlh0 Hlt0].
  unfold do_item_unlink_q. rewrite Hq, Hqc. intros [_ [_ [_ [_ [= <-]]%assert_some]%assert_some]%assert_some]%assert_some.
  destruct (line_pointers Hl) as (Hpv & Hnx & Hn & Hp), (line_ends Hl) as [Hhd Htl]. fold (ith c a) in Hpv, Hnx, Hn, Hp.
  assert (negb (heads c !!! id =? a) || (prev (ith c a) =? 0) = true) as ->.
  { destruct (Z.eqb_spec (heads c !!! id) a) as [E|]; [|done]. by rewrite Hpv, (proj1 Hhd E). }
  assert (negb (tails c !!! id =? a) || (next (ith c a) =? 0) = true) as ->.
  { destruct (Z.eqb_spec (tails c !!! id) a) as [E|]; [|done]. by rewrite Hnx, (proj1 Htl E). }
  rewrite (proj2 (Z.eqb_neq _ _) Hn), (proj2 (Z.eqb_neq _ _) Hp), Ent. cbn [negb assert_ mbind option_bind].
  change (sizes (with_heap c ?h)) with (sizes c). change (sizes_bytes (with_heap c ?h)) with (sizes_bytes c).
  change (sizes (with_heap c0 ?h)) with (sizes c0). change (sizes_bytes (with_heap c0 ?h)) with (sizes_bytes c0).
  destruct (hi_sizes _ _ _ H) as [-> ->]. eexists. split; [done|]. split; [|intros b; apply (line_cut_payload Hl)].
  assert (∀ b, b ∉ Q id → hdr (cut a (mem_of_cache c)) b = ith c b ∧ hdr (cut a (mem_of_cache c0)) b = ith c0 b) as Hoth.
  { intros b Hb. rewrite HQ in Hb. split; [by apply (line_cut_other Hl)|]. apply (line_cut_other Hl0).
    rewrite <-(reals_real a), <-reals_app by done. rewrite elem_of_reals. tauto. }
  apply (hides_heaps c0 c Q); try done.
  - intros i b Hi Hb. destruct (Hoth b) as [E1 E2]; [|done]. intros Hb'. by apply (hi_busy _ _ _ H id i b).
  - intros b Hb. rewrite (line_cut_payload Hl), (line_cut_payload Hl0). by apply (hi_payload _ _ _ H).
  - by rewrite !insert_queue_length.
  - by rewrite !insert_queue_length.
  - intros i Hi. unfold set_list. case_decide as E; [subst i; rewrite !insert_queue_eq by lia; apply (line_cut Hl)|].
    rewrite !insert_queue by done. apply (line_frame (mem_of_cache c)); [|by apply (hi_line _ _ _ H)].
    intros b Hb. apply Hoth. intros Hb'. apply E. by apply (hi_apart _ _ _ H i id b).
  - intros i Hi. unfold set_list. case_decide as E.
    + subst i. rewrite !insert_queue_eq, reals_app by lia. apply (line_cut Hl0).
    + rewrite !insert_queue by done. apply (line_frame (mem_of_cache c0)); [|by apply (hi_line0 _ _ _ H)].
      intros b [Hb _]%elem_of_reals. apply Hoth. intros Hb'. apply E. by apply (hi_apart _ _ _ H i id b).
  - intros i b Hi. unfold set_list. case_decide as E; [subst i|by left]. rewrite HQ, !elem_of_app, elem_of_cons. tauto.
Qed.

Lemma push_hdr a hd h b : hd ≠ a →
  hdr (push a hd h) b = if decide (b = a) then set_next hd (set_prev 0 (hdr h a))
    else if decide (b = hd ∧ hd ≠ 0) then set_prev a (hdr h b) else hdr h b.
Proof using.
  intros Hne. unfold push. set (h1 := upd a (set_next hd) (upd a (set_prev 0) h)).
  assert (hdr h1 a = set_next hd (set_prev 0 (hdr h a))) as E1 by (unfold h1; by rewrite !hdr_upd_eq).
  assert (∀ b, b ≠ a → hdr h1 b = hdr h b) as E2 by (intros d Hd; unfold h1; by rewrite !hdr_upd_ne).
  destruct (Z.eqb_spec hd 0) as [Hz|Hz].
  - case_decide; [by subst b|]. rewrite decide_False by tauto. auto.
  - case_decide as Hb; [subst b; by rewrite hdr_upd_ne|]. case_decide as Hd.
    + destruct Hd as [-> _]. rewrite hdr_upd_eq, E2; done.
    + rewrite hdr_upd_ne, E2 by naive_solver. done.
Qed.

(** The chunk of an item that is in no queue goes back to its class. *)
Lemma hides_item_free c0 c Q a c0' :
  hides c0 c Q → in_use (slab c0) a (ith c0 a) → free_room c0 a → (∀ id, (id < LARGEST_ID)%nat → a ∉ Q id) → a ≠ 0 →
  item_free st c0 a = Some c0' →
  ∃ c', item_free st c a = Some c' ∧ hides c0' c' Q ∧ Item.slabs_clsid (ith c' a) = 0 ∧
    (∀ b, in_crawlers b → ith c' b = ith c b).
Proof using Hbase.
  intros H Hu Hroom Hun Ha0. pose proof Hu as [Hv Hheld Hsl Hck Hcl]. set (id := clsid_of (ith c0 a)) in *.
  assert (¬ in_crawlers a) as Hna by (apply (hi_static _ _ _ H id); [done|]; apply Hheld).
  destruct (payload_ntotal _ _ (hi_payload _ _ _ H a Hna)) as (Ent & Ecl & Efl & Erf & _).
  assert (clsid_of (ith c a) = id) as Eid by (unfold id, clsid_of, ITEM_clsid; by rewrite Ecl).
  assert (has_flag (ith c a) ITEM_CHUNKED = false) as Hck' by (unfold has_flag in *; by rewrite Efl).
  destruct (free_ok (slab_settings st) (slab c0) a (ITEM_ntotal (ith c0 a)) id (hi_slabs _ _ _ H) Hv Hheld Hck Hroom) as (Ef & Hs' & Hfl').
  unfold item_free. fold (clsid_of (ith c0 a)) (clsid_of (ith c a)). rewrite Eid. fold id. rewrite Ef.
  intros [Hlk [_ [_ [Hrc [= <-]]%assert_some]%assert_some]%assert_some]%assert_some.
  assert (qid c a < LARGEST_ID)%nat as Hqid by (unfold qid, LARGEST_ID; rewrite Ecl; lia).
  pose proof (hi_line _ _ _ H _ Hqid) as [Hd Ht _]. pose proof (dll_head _ _ _ _ Hd) as Hh.
  assert (heads c !!! qid c a ≠ a) as Hha.
  { rewrite Hh. specialize (Hun _ Hqid). destruct (Q (qid c a)); cbn; [done|]. set_solver. }
  assert (tails c !!! qid c a ≠ a) as Hta.
  { rewrite Ht. specialize (Hun _ Hqid). destruct (list.last (Q (qid c a))) as [z|] eqn:E; cbn; [|done].
    apply last_Some_elem_of in E. by intros ->. }
  assert (has_flag (ith c a) ITEM_LINKED = has_flag (ith c0 a) ITEM_LINKED) as -> by (unfold has_flag; by rewrite Efl).
  rewrite Hlk, Erf, Hrc. rewrite (proj2 (Z.eqb_neq a _)), (proj2 (Z.eqb_neq a _)) by done. cbn [negb assert_ mbind option_bind].
  assert (do_slabs_free (slab_settings st) (slab c) a (ITEM_ntotal (ith c a)) id
    = Some (push_free (slab c) id a (ITEM_ntotal (ith c0 a)))) as ->.
  { unfold do_slabs_free in Ef |- *. rewrite (hi_slab _ _ _ H). cbn [power_largest with_mem chunks_mem].
    destruct (_ || _); [done|]. change (hdr (mem_of_cache c) a) with (ith c a). by rewrite Hck', Ent. }
  cbn [mbind option_bind]. eexists. split; [done|].
  set (s0' := push_free (slab c0) id a (ITEM_ntotal (ith c0 a))) in *. set (s' := push_free (slab c) id a (ITEM_ntotal (ith c0 a))).
  assert (∀ b, b ≠ a → b ∉ free_list (slab c0) id → hdr (chunks_mem s0') b = ith c0 b) as Hoth0.
  { intros b Hb Hb2. by apply (free_other (slab_settings st)); [apply H|..]. }
  pose proof (s_lists _ _ (hi_slabs _ _ _ H)) as Hlists. pose proof (l_class _ _ Hlists id Hv) as [Hcd _ _ _ _].
  set (sl := slots (cls (slab c0) id)) in *. assert (sl ≠ 0 → sl ∈ free_list (slab c0) id) as Hslots.
  { intros Hz. apply dll_head in Hcd. destruct (free_list (slab c0) id) as [|x l]; cbn in Hcd; [done|]. rewrite Hcd. by left. }
  set (g := λ i, set_slabs_clsid 0 (set_it_flags ITEM_SLABBED i)).
  assert (chunks_mem s0' = push a sl (upd a g (mem_of_cache c0)) ∧ chunks_mem s' = push a sl (upd a g (mem_of_cache c))) as [M0 M].
  { split; [done|]. unfold s', push_free. rewrite (hi_slab _ _ _ H). done. }
  assert (sl ≠ a) as Hsla.
  { intros E. apply (proj2 Hheld). rewrite <-E. apply Hslots. by rewrite E. }
  assert (∀ c b, hdr (push a sl (upd a g (mem_of_cache c))) b = if decide (b = a) then set_next sl (set_prev 0 (g (ith c a)))
    else if decide (b = sl ∧ sl ≠ 0) then set_prev a (ith c b) else ith c b) as Hpush.
  { intros x b. rewrite push_hdr by done. repeat case_decide; try done; rewrite ?hdr_upd_eq, ?hdr_upd_ne by naive_solver; done. }
  assert (∀ id' b, (id' < LARGEST_ID)%nat → b ∈ Q id' → ∀ x, hdr (push a sl (upd a g (mem_of_cache x))) b = ith x b) as Hqueue.
  { intros id' b Hid' Hb x. rewrite Hpush, decide_False by (intros ->; by apply (Hun id')).
    rewrite decide_False; [done|]. intros [-> Hz]. by apply (hi_busy _ _ _ H id' id sl); auto. }
  assert (∀ x b, in_crawlers b → hdr (push a sl (upd a g (mem_of_cache x))) b = ith x b) as Hcrawl.
  { intros x b Hb. rewrite Hpush, !decide_False; [done| |by intros ->]. intros [-> Hz].
    apply (hi_static _ _ _ H id sl); [done| |done]. apply (s_chunks _ _ (hi_slabs _ _ _ H)); auto. }
  assert (set_next sl (set_prev 0 (g (ith c a))) = set_next sl (set_prev 0 (g (ith c0 a)))) as Hsame.
  { pose proof (hi_payload _ _ _ H a Hna) as Hp. destruct (ith c a), (ith c0 a). injection Hp. intros. by subst. }
  change (ith (with_slab c s')) with (hdr (chunks_mem s')). rewrite M. split_and!.
  - pose proof H as [T1 T2 T3 T4 T5 T6 T6' T7 T8 T9 T10 T11 T12 T13 T14].
    split; cbn [table slab heads tails sizes sizes_bytes curr_bytes curr_items total_items cas_id bumps with_slab];
      unfold mem_of_cache; cbn [slab with_slab]; try done.
    + unfold s', s0', push_free. by rewrite T4.
    + intros i Hi. rewrite M. apply (line_frame (mem_of_cache c)); [|by apply T7]. intros b Hb. by apply (Hqueue i).
    + intros i Hi. rewrite M0. apply (line_frame (mem_of_cache c0)); [|by apply T8]. intros b [Hb _]%elem_of_reals. by apply (Hqueue i).
    + intros b Hb. unfold ith, mem_of_cache. cbn [slab with_slab]. rewrite M, M0, !Hpush.
      destruct (decide (b = a)); [by rewrite Hsame|]. specialize (T11 b Hb). destruct (decide (b = sl ∧ sl ≠ 0)); [|done].
      by destruct (ith c b), (ith c0 b); injection T11; intros; subst.
    + intros i b Hi Hb. unfold ith, mem_of_cache. cbn [slab with_slab]. rewrite M, M0, !Hpush.
      destruct (decide (b = a)) as [E|E]; [done|]. rewrite Hfl' in Hb by done.
      assert (b ∈ free_list (slab c0) i) as Hb'.
      { destruct (decide (i = id)) as [->|]; [|done]. by apply elem_of_cons in Hb as [?|?]. }
      by rewrite (T12 i b Hi Hb').
    + intros id' i b Hid' Hb Hi. rewrite Hfl' by done. destruct (decide (i = id)) as [->|]; [|by apply (T13 id')].
      rewrite not_elem_of_cons. split; [intros ->; by apply (Hun id')|by apply (T13 id')].
    + intros i b Hi Hch. apply (T14 i); [done|]. by apply (sh_chunk _ _ (push_free_shape (slab c0) id a (ITEM_ntotal (ith c0 a))) i b).
  - rewrite Hpush, decide_True by done. done.
  - intros b Hb. by apply Hcrawl.
Qed.

Lemma hides_stats c0 c Q x y z : hides c0 c Q → hides (with_stats c0 x y z) (with_stats c x y z) Q.
Proof using. intros []. split; try done. naive_solver. Qed.

Lemma hides_table c0 c Q t : hides c0 c Q → hides (with_table c0 t) (with_table c t) Q.
Proof using. by intros []. Qed.

(** References and flags. *)
Lemma hides_refcount c0 c Q a k :
  hides c0 c Q → ¬ in_crawlers a → (∀ i, valid (slab c0) i → a ∉ free_list (slab c0) i) →
  let f := λ i, set_refcount (u16 (refcount i + k)) i in
  hides (set_item c0 a f) (set_item c a f) Q.
Proof using.
  intros H Hna Hfr f. apply hides_set; try done. intros i j E. destruct i, j. injection E. intros. by subst.
Qed.

Lemma hides_unlinked c0 c Q a :
  hides c0 c Q → ¬ in_crawlers a → (∀ i, valid (slab c0) i → a ∉ free_list (slab c0) i) →
  hides (set_item c0 a (clear_flag ITEM_LINKED)) (set_item c a (clear_flag ITEM_LINKED)) Q.
Proof using.
  intros H Hna Hfr. apply hides_set; try done. intros i j E. destruct i, j. injection E. intros. by subst.
Qed.

(** The chunks in use stay when the headers of the free ones do. *)
Lemma same_held_free s h' :
  slabs_ok (slab_settings st) s → (∀ i b, valid s i → b ∈ free_list s i → hdr h' b = hdr (chunks_mem s) b) →
  same_held s (with_mem s h').
Proof using.
  intros Hs Hh. destruct (slabs_frame (slab_settings st) s h' Hs Hh) as [_ Hf].
  split_and!; [done|done|]. intros id b Hid. unfold held. by rewrite Hf.
Qed.

(** A reference is dropped. *)
Lemma hides_remove c0 c Q a c0' :
  hides c0 c Q → in_use (slab c0) a (ith c0 a) → free_room c0 a →
  (u16 (refcount (ith c0 a) - 1) = 0 → a ≠ 0 ∧ ∀ id, (id < LARGEST_ID)%nat → a ∉ Q id) →
  do_item_remove st c0 a = Some c0' →
  ∃ c', do_item_remove st c a = Some c' ∧ hides c0' c' Q ∧ (∀ b, in_crawlers b → ith c' b = ith c b) ∧
    (u16 (refcount (ith c0 a) - 1) = 0 → Item.slabs_clsid (ith c' a) = 0).
Proof using Hbase.
  intros H Hu Hroom Hun. pose proof (u_held _ _ _ Hu) as Hheld. pose proof (u_valid _ _ _ Hu) as Hv.
  assert (¬ in_crawlers a) as Hna by (apply (hi_static _ _ _ H _ a Hv); apply Hheld).
  assert (∀ i, valid (slab c0) i → a ∉ free_list (slab c0) i) as Hfr.
  { intros i Hi. by apply (held_not_free (slab_settings st) _ (clsid_of (ith c0 a))); [apply H|..]. }
  destruct (payload_ntotal _ _ (hi_payload _ _ _ H a Hna)) as (_ & _ & Efl & Erf & _).
  unfold do_item_remove. unfold has_flag. rewrite Efl, Erf. intros [-> [-> E]%assert_some]%assert_some. cbn [assert_ mbind option_bind].
  pose proof (hides_refcount c0 c Q a (-1) H Hna Hfr) as H1. cbv zeta in H1. change (?x + -1) with (x - 1) in H1.
  fold (refcount_decr c0 a) (refcount_decr c a) in H1.
  assert (ith (refcount_decr c0 a) a = set_refcount (u16 (refcount (ith c0 a) - 1)) (ith c0 a)) as I0 by (unfold refcount_decr; by rewrite ith_set_eq).
  assert (ith (refcount_decr c a) a = set_refcount (u16 (refcount (ith c a) - 1)) (ith c a)) as I1 by (unfold refcount_decr; by rewrite ith_set_eq).
  assert (∀ b, in_crawlers b → ith (refcount_decr c a) b = ith c b) as Hcr.
  { intros b Hb. apply ith_set_ne. by intros <-. }
  rewrite I0 in E. rewrite I1. cbn [refcount set_refcount] in E |- *. rewrite Erf.
  destruct (Z.eqb_spec (u16 (refcount (ith c0 a) - 1)) 0) as [Hz|Hz].
  - destruct (Hun Hz) as [Ha0 Hq].
    assert (same_held (slab c0) (slab (refcount_decr c0 a))) as Hsh.
    { apply same_held_free; [apply H|]. intros i b Hi Hb. change (ith (refcount_decr c0 a) b = ith c0 b).
      unfold refcount_decr. rewrite ith_set_ne; [done|]. intros <-. by apply (Hfr i). }
    assert (in_use (slab (refcount_decr c0 a)) a (ith (refcount_decr c0 a) a)) as Hu1.
    { eapply in_use_held; [done|]. rewrite I0. by eapply in_use_same; [|exact Hu]. }
    destruct (hides_item_free _ _ Q a c0' H1 Hu1) as (c' & E' & H' & Hcl & Hcr'); try done.
    { unfold free_room. rewrite I0. done. }
    exists c'. split_and!; [done|done| |done]. intros b Hb. rewrite Hcr' by done. by apply Hcr.
  - injection E as <-. eexists. by split_and!.
Qed.

Lemma set_list_other (Q : nat → list Z) id l i : i ≠ id → set_list Q id l i = Q i.
Proof using. intros Hi. unfold set_list. by rewrite decide_False. Qed.

Lemma set_list_eq (Q : nat → list Z) id l : set_list Q id l id = l.
Proof using. unfold set_list. by rewrite decide_True. Qed.

(** An item is unlinked. *)
Lemma hides_unlink c0 c Q a id q1 q2 hv c0' :
  hides c0 c Q → (id < LARGEST_ID)%nat → in_use (slab c0) a (ith c0 a) → free_room c0 a → a ≠ 0 →
  has_flag (ith c0 a) ITEM_LINKED = true → Q id = q1 ++ a :: q2 → qid c0 a = id →
  do_item_unlink st c0 a hv = Some c0' →
  ∃ c', do_item_unlink st c a hv = Some c' ∧ hides c0' c' (set_list Q id (q1 ++ q2)) ∧
    ∀ b, in_crawlers b → payload (ith c' b) = payload (ith c b).
Proof using Hbase.
  intros H Hid Hu Hroom Ha0 Hlk HQ Hq. pose proof (u_held _ _ _ Hu) as Hheld. pose proof (u_valid _ _ _ Hu) as Hv.
  assert (¬ in_crawlers a) as Hna by (apply (hi_static _ _ _ H _ a Hv); apply Hheld).
  assert (∀ i, valid (slab c0) i → a ∉ free_list (slab c0) i) as Hfr.
  { intros i Hi. by apply (held_not_free (slab_settings st) _ (clsid_of (ith c0 a))); [apply H|..]. }
  destruct (payload_ntotal _ _ (hi_payload _ _ _ H a Hna)) as (_ & _ & Efl & _ & _).
  unfold do_item_unlink. assert (has_flag (ith c a) ITEM_LINKED = has_flag (ith c0 a) ITEM_LINKED) as -> by (unfold has_flag; by rewrite Efl).
  rewrite Hlk. set (c1 := set_item c a (clear_flag ITEM_LINKED)). set (d1 := set_item c0 a (clear_flag ITEM_LINKED)).
  pose proof (hides_unlinked c0 c Q a H Hna Hfr) as H1. fold c1 d1 in H1.
  destruct (payload_ntotal _ _ (hi_payload _ _ _ H1 a Hna)) as (Ent & _ & _ & _ & Ekey).
  destruct (hi_stats _ _ _ H1) as (S1 & S2 & S3 & _). rewrite Ent, S1, S2, S3.
  match goal with |- context [with_stats d1 ?x ?y ?z] => pose proof (hides_stats d1 c1 Q x y z H1) as H2;
    set (d2 := with_stats d1 x y z) in *; set (c2 := with_stats c1 x y z) in * end.
  change (key (ith c2 a)) with (key (ith c1 a)). change (key (ith d2 a)) with (key (ith d1 a)). rewrite Ekey, (hi_table _ _ _ H2).
  destruct (assoc_delete _ _ _) as [t|]; [|done]. cbn [mbind option_bind].
  apply (hides_table _ _ _ t) in H2. set (d3 := with_table d2 t) in *. set (c3 := with_table c2 t) in *.
  assert (ith d3 a = clear_flag ITEM_LINKED (ith c0 a)) as I3 by apply (ith_set_eq c0).
  destruct (do_item_unlink_q d3 a) as [d4|] eqn:E4; [|done]. cbn [mbind option_bind]. intros E.
  destruct (hides_unlink_q d3 c3 Q a id q1 q2 d4 H2 Hid Hna HQ) as (c4 & -> & H4 & Hp4); [unfold qid; rewrite I3; done|done|].
  cbn [mbind option_bind]. destruct (unlink_q_payload _ _ _ E4) as [Hp0 _].
  destruct (payload_fields _ _ (Hp0 a)) as (_ & Hr4 & Hf4 & Hc4 & _). rewrite I3 in Hr4, Hf4, Hc4. cbn in Hr4, Hc4.
  assert (same_held (slab c0) (slab d4)) as Hsh.
  { revert E4. unfold do_item_unlink_q. intros [_ [_ [_ [_ [= <-]]%assert_some]%assert_some]%assert_some]%assert_some.
    apply (same_held_free (slab c0)); [apply H|]. intros i b Hi Hb.
    pose proof (hi_line0 _ _ _ H2 id Hid) as Hl. rewrite HQ, reals_app, reals_real in Hl by done.
    change (hdr (cut a (mem_of_cache d3)) b = ith c0 b). rewrite (line_cut_other Hl).
    - change (ith d1 b = ith c0 b). apply ith_set_ne. intros <-. by apply (Hfr i).
    - rewrite <-(reals_real a), <-reals_app, <-HQ, elem_of_reals by done. intros [Hb' _]. by apply (hi_busy _ _ _ H id i b). }
  assert (in_use (slab d4) a (ith d4 a)) as Hu4.
  { eapply in_use_held; [done|]. eapply in_use_same; [|exact Hu].
    destruct (payload_use _ _ (Hp0 a)) as (P1 & P2 & P3), (clear_linked_use (ith c0 a)) as (P4 & P5 & P6).
    rewrite I3 in P1, P2, P3. split_and!; congruence. }
  assert (clsid_of (ith d4 a) = clsid_of (ith c0 a)) as Hcl4 by (unfold clsid_of, ITEM_clsid; by rewrite Hc4).
  destruct (hides_remove d4 c4 _ a c0' H4 Hu4) as (c' & -> & H' & Hcr & _); [| |done|].
  { unfold free_room in *. rewrite Hcl4. unfold cls. by destruct Hsh as (_ & -> & _). }
  { intros _. split; [done|]. intros i Hi Hin. pose proof (ln_nodup _ _ _ _ (hi_line _ _ _ H id Hid)) as Hnd.
    destruct (decide (i = id)) as [->|Hne].
    - rewrite set_list_eq in Hin. rewrite HQ in Hnd. apply list.NoDup_app in Hnd as (_ & Hdj & [Hn2 _]%list.NoDup_cons).
      apply elem_of_app in Hin as [Hin|Hin]; [|done]. apply (Hdj a Hin). by left.
    - rewrite set_list_other in Hin by done. apply Hne. apply (hi_apart _ _ _ H i id a); try done.
      rewrite HQ, elem_of_app. right. by left. }
  exists c'. split_and!; [done|done|]. intros b Hb. rewrite Hcr by done. rewrite Hp4. change (ith c3 b) with (ith c1 b).
  unfold c1. rewrite ith_set_ne; [done|]. by intros <-.
Qed.

(** ** No crawlers *)

Context (hash : bytes → Z).

(** The crawlers are not in the memory of the slabs. *)
Definition static (c : cache) : Prop := ∀ i b, valid (slab c) i → chunk (slab c) i b → ¬ in_crawlers b.

Lemma queued_real n c L id b :
  inv st hash n c L → static c → (id < LARGEST_ID)%nat → b ∈ L id → ¬ in_crawlers b.
Proof using.
  intros HI Hst Hid Hb. destruct (inv_queued st hash n c L b id HI Hid Hb) as ([Hv Hh _ _ _] & _). by apply (Hst _ _ Hv), Hh.
Qed.

Lemma reals_all l : (∀ b, b ∈ l → ¬ in_crawlers b) → reals l = l.
Proof using.
  induction l as [|b l IH]; intros Hl; [done|]. rewrite reals_real by (apply Hl; by left). f_equal. apply IH.
  intros d Hd. apply Hl. by right.
Qed.

Lemma queue_line c id l : queue_ok c id l → line (mem_of_cache c) (heads c !!! id) (tails c !!! id) l.
Proof using. intros []. by split. Qed.

Lemma hides_refl n c L : inv st hash n c L → static c → hides c c L.
Proof using.
  intros HI Hst. pose proof (v_ok _ _ _ _ _ HI) as Hok. pose proof Hok as [Hs Ht (Hl1 & Hl2 & _) Hq _ _].
  split; try done.
  - unfold mem_of_cache. by destruct (slab c).
  - intros id Hid. by apply queue_line, Hq.
  - intros id Hid. rewrite reals_all by (intros b; by apply (queued_real n c L id)). by apply queue_line, Hq.
  - intros id id' b. apply (queue_unique st hash Hok).
  - intros id b Hid Hb Hc. by destruct (queued_real n c L id b HI Hst Hid Hb).
  - intros id i b Hid Hb Hi. apply (use_not_free st hash Hok); [|done]. by apply (inv_queued st hash n c L b id).
Qed.

Lemma hides_held c0 c Q : hides c0 c Q → same_held (slab c0) (slab c).
Proof using. intros H. rewrite (hi_slab _ _ _ H). apply same_held_free; [apply H|apply (hi_free _ _ _ H)]. Qed.

Lemma hides_used c0 c Q b : hides c0 c Q → used c b ↔ used c0 b.
Proof using.
  intros H. pose proof (hides_held c0 c Q H) as Hsh. pose proof Hsh as (Hpl & Hcl & Hheld). split; intros Hu.
  - assert (∀ i, valid (slab c) i ↔ valid (slab c0) i) as Hv by (intros i; unfold valid; by rewrite Hpl).
    pose proof Hu as [Hv' Hh _ _ _]. apply Hv in Hv'. apply Hheld in Hh; [|done].
    pose proof (hi_payload _ _ _ H b (hi_static _ _ _ H _ b Hv' (proj1 Hh))) as Hp.
    destruct (payload_use _ _ (eq_sym Hp)) as (E1 & E2 & E3). destruct Hu as [A1 A2 A3 A4 A5].
    assert (clsid_of (ith c0 b) = clsid_of (ith c b)) as Ec by (unfold clsid_of, ITEM_clsid; by rewrite E1).
    split; rewrite ?Ec, ?E1, ?E2, ?E3; try done.
  - pose proof Hu as [Hv' Hh _ _ _]. pose proof (hi_payload _ _ _ H b (hi_static _ _ _ H _ b Hv' (proj1 Hh))) as Hp.
    eapply in_use_held; [done|]. eapply in_use_same; [|exact Hu]. by apply payload_use.
Qed.

(** When the crawlers have left, the invariant of the items holds of the cache itself. *)
Lemma hides_inv n c0 c L Q :
  hides c0 c Q → inv st hash n c0 L → (∀ id, (id < LARGEST_ID)%nat → Q id = L id) → inv st hash n c L.
Proof using.
  intros H HI HQ. pose proof (v_ok _ _ _ _ _ HI) as Hok. pose proof (hides_held c0 c Q H) as Hsh.
  assert (static c0) as Hst by (intros i b; apply (hi_static _ _ _ H)).
  assert (∀ b, used c0 b → payload (ith c b) = payload (ith c0 b)) as Hp.
  { intros b [Hv Hh _ _ _]. by apply (hi_payload _ _ _ H), (Hst _ _ Hv), Hh. }
  assert (∀ id b, (id < LARGEST_ID)%nat → b ∈ L id → used c0 b) as HL by (intros id b Hid Hb; by eapply inv_queued).
  pose proof Hok as [Hs Ht (Hl1 & Hl2 & Hl3) Hq Hm Hcm]. destruct (hi_sizes _ _ _ H) as [Hsz _], (hi_lengths _ _ _ H).
  assert (slabs_ok (slab_settings st) (slab c)) as Hs'.
  { rewrite (hi_slab _ _ _ H). apply (slabs_frame (slab_settings st)); [done|apply (hi_free _ _ _ H)]. }
  assert (∀ b, used c b → refcount (ith c b) = refcount (ith c0 b) ∧ is_linked c b = is_linked c0 b) as Hf.
  { intros b Hu. apply (hides_used c0 c Q b H) in Hu. destruct (payload_refcount _ _ (Hp b Hu)) as (E1 & E2 & _).
    split; [done|]. unfold is_linked, has_flag. by rewrite E2. }
  split.
  - split; rewrite ?(hi_table _ _ _ H); try done; [by rewrite Hsz|..].
    + intros id Hid. destruct (hi_line _ _ _ H id Hid) as [Hd Htl Hnd]. rewrite HQ in Hd, Htl, Hnd by done.
      destruct (Hq id Hid) as [_ _ _ Hz Hi]. split; try done; [by rewrite Hsz|]. intros b Hb. destruct (Hi b Hb) as [_ Hqb].
      split; [by apply (hides_used c0 c Q b H), (HL id)|]. destruct (payload_use _ _ (Hp b (HL id b Hid Hb))) as [-> _]. done.
    + intros id b Hid Hb HX. eapply payload_mapped; [by apply Hp, (HL id)|]. by apply (Hm id).
    + intros k e Hk HX. destruct (Hcm k e Hk HX) as (id & Hid & Hin & Hke). exists id. split_and!; try done.
      destruct (payload_refcount _ _ (Hp _ (HL id _ Hid Hin))) as (_ & _ & _ & ->). done.
  - rewrite (hi_slab _ _ _ H). apply (v_fits _ _ _ _ _ HI).
  - intros b Hu. destruct (Hf b Hu) as [E1 E2]. unfold extra. rewrite E1, E2. by apply (v_low _ _ _ _ _ HI), (hides_used c0 c Q b H).
  - intros b Hu. destruct (Hf b Hu) as [E1 E2]. rewrite E1. by apply (v_high _ _ _ _ _ HI), (hides_used c0 c Q b H).
  - intros b Hu. destruct (Hf b Hu) as [E1 E2]. rewrite E2. by apply (v_flag _ _ _ _ _ HI), (hides_used c0 c Q b H).
Qed.

End Hidden.
