(* ===== verification/Crawler.v ===== *)
(** The LRU crawler: [extra/KVS-DRAM-Cache/crawler.c].

    A crawl walks the LRU queues from their tails to their heads and hands every item nobody
    else works on to a module: one removes the items that have expired and keeps statistics of
    the others, one writes a line for every item to a client.  The crawlers of the queues take
    turns, one item each. *)

From stdpp Require Import strings.
From S2P Require Import Prelude Item Slabs Assoc Items Itoa ItemFrame ItemInv Bipbuffer Util Tokenize Command CrawlQueue.

(** ** Data *)

(** The fields of [crawler] that are not those of an item. *)
Record crawler := mkCrawler {
  remaining : Z;
  reclaimed : Z;
  unfetched : Z;
  checked : Z
}.

#[global] Instance crawler_inhabited : Inhabited crawler := populate (mkCrawler 0 0 0 0).

Record crawlerstats_t := mkCrawlerstats {
  histo : list Z;
  ttl_hourplus : Z;
  noexp : Z;
  s_reclaimed : Z;
  seen : Z;
  start_time : Z;
  end_time : Z;
  run_complete : bool
}.

#[global] Instance crawlerstats_inhabited : Inhabited crawlerstats_t := populate (mkCrawlerstats [] 0 0 0 0 0 0 false).

Record crawler_expired_data := mkExpiredData {
  crawlerstats : list crawlerstats_t;
  d_start_time : Z;
  d_end_time : Z;
  crawl_complete : bool;
  is_external : bool
}.

(** [crawler_client_t]: the output buffer and the place in it to write to. *)
Record crawler_client_t := mkClient { c_buf : bipbuf; c_cbuf : Z }.

Inductive crawler_run_type := CRAWLER_AUTOEXPIRE | CRAWLER_EXPIRED | CRAWLER_METADUMP.

#[global] Instance crawler_run_type_eq_dec : EqDecision crawler_run_type.
Proof. solve_decision. Defined.

(** The counters of [itemstats[i]] a crawl adds to. *)
Record crawl_counts := mkCounts { crawler_reclaimed : Z; expired_unfetched : Z; crawler_items_checked : Z }.

#[global] Instance crawl_counts_inhabited : Inhabited crawl_counts := populate (mkCounts 0 0 0).

(** What a call of [poll] on the client's socket finds: an error, nothing within a second, or
    the events.  [pollin] tells whether the read finds the connection closed; [pollout] what
    the socket does with a write. *)
Inductive write_result := Accepts (n : Z) | WouldBlock | WriteError.
Record revents := mkRevents { pollin : option bool; pollhup : bool; pollout : option write_result }.
Inductive poll_result := PollError | PollTimeout | PollEvents (r : revents).

(** The state of the crawler thread. *)
Record crawl_state := mkCrawl {
  cs_cache : cache;
  crawlers : list crawler;
  crawler_count : Z;
  active_mod : option crawler_run_type;        (* [active_crawler_mod.mod] *)
  active_crawler_type : crawler_run_type;
  active_data : option crawler_expired_data;   (* [active_crawler_mod.data] *)
  client : option crawler_client_t;            (* [active_crawler_mod.c] *)
  lru_crawler_running : bool;
  lru_crawler_starts : Z;
  block_ae_until : Z;
  counts : list crawl_counts;
  polls : nat → poll_result;                   (* what the next calls of [poll] will find *)
  client_sent : bytes                          (* what the client has been sent *)
}.

Definition set_cache (c : cache) (w : crawl_state) : crawl_state :=
  mkCrawl c (crawlers w) (crawler_count w) (active_mod w) (active_crawler_type w) (active_data w) (client w)
    (lru_crawler_running w) (lru_crawler_starts w) (block_ae_until w) (counts w) (polls w) (client_sent w).
Definition set_crawlers (l : list crawler) (n : Z) (w : crawl_state) : crawl_state :=
  mkCrawl (cs_cache w) l n (active_mod w) (active_crawler_type w) (active_data w) (client w)
    (lru_crawler_running w) (lru_crawler_starts w) (block_ae_until w) (counts w) (polls w) (client_sent w).
Definition set_module (m : option crawler_run_type) (w : crawl_state) : crawl_state :=
  mkCrawl (cs_cache w) (crawlers w) (crawler_count w) m (active_crawler_type w) (active_data w) (client w)
    (lru_crawler_running w) (lru_crawler_starts w) (block_ae_until w) (counts w) (polls w) (client_sent w).
Definition set_type (t : crawler_run_type) (w : crawl_state) : crawl_state :=
  mkCrawl (cs_cache w) (crawlers w) (crawler_count w) (active_mod w) t (active_data w) (client w)
    (lru_crawler_running w) (lru_crawler_starts w) (block_ae_until w) (counts w) (polls w) (client_sent w).
Definition set_active_data (d : option crawler_expired_data) (w : crawl_state) : crawl_state :=
  mkCrawl (cs_cache w) (crawlers w) (crawler_count w) (active_mod w) (active_crawler_type w) d (client w)
    (lru_crawler_running w) (lru_crawler_starts w) (block_ae_until w) (counts w) (polls w) (client_sent w).
Definition set_client (cl : option crawler_client_t) (ps : nat → poll_result) (snt : bytes) (w : crawl_state) : crawl_state :=
  mkCrawl (cs_cache w) (crawlers w) (crawler_count w) (active_mod w) (active_crawler_type w) (active_data w) cl
    (lru_crawler_running w) (lru_crawler_starts w) (block_ae_until w) (counts w) ps snt.
Definition set_running (b : bool) (n : Z) (w : crawl_state) : crawl_state :=
  mkCrawl (cs_cache w) (crawlers w) (crawler_count w) (active_mod w) (active_crawler_type w) (active_data w) (client w)
    b n (block_ae_until w) (counts w) (polls w) (client_sent w).
Definition set_block (t : Z) (w : crawl_state) : crawl_state :=
  mkCrawl (cs_cache w) (crawlers w) (crawler_count w) (active_mod w) (active_crawler_type w) (active_data w) (client w)
    (lru_crawler_running w) (lru_crawler_starts w) t (counts w) (polls w) (client_sent w).
Definition set_counts (l : list crawl_counts) (w : crawl_state) : crawl_state :=
  mkCrawl (cs_cache w) (crawlers w) (crawler_count w) (active_mod w) (active_crawler_type w) (active_data w) (client w)
    (lru_crawler_running w) (lru_crawler_starts w) (block_ae_until w) l (polls w) (client_sent w).

(** [crawlers[i]] *)
Definition upd_crawler (i : nat) (f : crawler → crawler) (w : crawl_state) : crawl_state :=
  set_crawlers (<[i := f (crawlers w !!! i)]> (crawlers w)) (crawler_count w) w.

(** [crawler_module_reg_t]; a null pointer where there is no function. *)
Record crawler_module_reg_t := mkModule {
  m_init : option (option crawler_expired_data → bool → option crawler_expired_data → option crawler_expired_data);
  m_eval : crawl_state → Z → Z → nat → option crawl_state;
  m_doneclass : option (nat → crawler_expired_data → crawler_expired_data);
  m_finalize : option (crawler_expired_data → option crawler_expired_data);
  needs_lock : bool;
  needs_client : bool
}.

Definition LRU_CRAWLER_WRITEBUF : Z := 8192.

Section Crawler.
Context (st : item_settings) (hash : bytes → Z).
(** [current_time] and [process_started]; the address of [crawlers]. *)
Context (now started crawlers_base : Z).
(** Whether another thread holds the lock of the item at this address when the crawler is there. *)
Context (busy : Z → bool).
(** What is on the stack where [keybuf] is. *)
Context (stack : bytes).
(** How many calls of [poll] the thread makes in a row before the model takes it to wait for ever. *)
Context (patience : nat).

Abbreviation crawler_at := (CrawlQueue.crawler_at crawlers_base).

(** ** The module that removes expired items *)

(** Given the statistics to use, or none; [mem] is whether [calloc] finds memory, without which
    the pointer stays what it was. *)
Definition crawler_expired_init (data : option crawler_expired_data) (mem : bool) (old : option crawler_expired_data)
    : option crawler_expired_data :=
  let fresh := replicate LARGEST_ID (mkCrawlerstats (replicate 61 0) 0 0 0 0 now 0 false) in
  match data with
  | Some d => Some (mkExpiredData fresh (d_start_time d) (d_end_time d) (crawl_complete d) true)
  | None => if mem then Some (mkExpiredData fresh now 0 false false) else old
  end.

Definition crawler_expired_doneclass (i : nat) (d : crawler_expired_data) : crawler_expired_data :=
  let s := crawlerstats d !!! i in
  mkExpiredData (<[i := mkCrawlerstats (histo s) (ttl_hourplus s) (noexp s) (s_reclaimed s) (seen s) (start_time s) now true]> (crawlerstats d))
    (d_start_time d) (d_end_time d) (crawl_complete d) (is_external d).

(** Statistics that nobody else has are freed. *)
Definition crawler_expired_finalize (d : crawler_expired_data) : option crawler_expired_data :=
  let d := mkExpiredData (crawlerstats d) (d_start_time d) now true (is_external d) in
  if is_external d then Some d else None.

(** Expired or flushed. *)
Definition is_dead (it : stritem) : bool :=
  (negb (exptime it =? 0) && (exptime it <? now)) || item_is_flushed st now it.

(** The statistics of a live item. *)
Definition count_live (it : stritem) (s : crawlerstats_t) : crawlerstats_t :=
  let seen' := u64 (seen s + 1) in
  if exptime it =? 0 then
    mkCrawlerstats (histo s) (ttl_hourplus s) (u64 (noexp s + 1)) (s_reclaimed s) seen' (start_time s) (end_time s) (run_complete s)
  else if 3599 <? u32 (exptime it - now) then
    mkCrawlerstats (histo s) (u64 (ttl_hourplus s + 1)) (noexp s) (s_reclaimed s) seen' (start_time s) (end_time s) (run_complete s)
  else
    let bucket := u32 (exptime it - now) / 60 in
    let h := if bucket <=? 60 then <[Z.to_nat bucket := u64 (histo s !!! Z.to_nat bucket + 1)]> (histo s) else histo s in
    mkCrawlerstats h (ttl_hourplus s) (noexp s) (s_reclaimed s) seen' (start_time s) (end_time s) (run_complete s).

Definition count_dead (s : crawlerstats_t) : crawlerstats_t :=
  mkCrawlerstats (histo s) (ttl_hourplus s) (noexp s) (u64 (s_reclaimed s + 1)) (seen s) (start_time s) (end_time s) (run_complete s).

Definition upd_stats (i : nat) (f : crawlerstats_t → crawlerstats_t) (d : crawler_expired_data) : crawler_expired_data :=
  mkExpiredData (<[i := f (crawlerstats d !!! i)]> (crawlerstats d)) (d_start_time d) (d_end_time d) (crawl_complete d) (is_external d).

Definition crawler_expired_eval (w : crawl_state) (a hv : Z) (i : nat) : option crawl_state :=
  d ← active_data w;
  let it := ith (cs_cache w) a in
  if is_dead it then
    let w := upd_crawler i (λ k, mkCrawler (remaining k) (u64 (reclaimed k + 1)) (unfetched k) (checked k)) w in
    let w := set_active_data (Some (upd_stats i count_dead d)) w in
    let w := if negb (has_flag it ITEM_FETCHED) && negb (item_is_flushed st now it)
             then upd_crawler i (λ k, mkCrawler (remaining k) (reclaimed k) (u64 (unfetched k + 1)) (checked k)) w else w in
    c ← do_item_unlink st (cs_cache w) a hv;
    c ← do_item_remove st c a;
    assert_ (Item.slabs_clsid (ith c a) =? 0);;
    Some (set_cache c w)
  else
    let w := set_cache (refcount_decr (cs_cache w) a) w in
    Some (set_active_data (Some (upd_stats i (count_live it) d)) w).

(** ** The module that lists the items *)

(** The C string in a buffer; none if it is not terminated. *)
Definition c_string (b : bytes) : option bytes :=
  if decide (0 ∈ b) then Some (cstr b 0) else None.

(** [key=%s exp=%ld la=%llu cas=%llu fetch=%s\n] *)
Definition metadump_line (keybuf : bytes) (it : stritem) : bytes :=
  chars "key=" ++ keybuf ++ chars " exp=" ++ sdec (if exptime it =? 0 then -1 else exptime it + started) ++
  chars " la=" ++ dec (u64 (time it + started)) ++ chars " cas=" ++ dec (ITEM_get_cas it) ++
  chars " fetch=" ++ chars (if has_flag it ITEM_FETCHED then "yes" else "no") ++ [10].

(** [None]: the key's string runs out of its buffer, or there is no output buffer. *)
Definition crawler_metadump_eval (w : crawl_state) (a hv : Z) (i : nat) : option crawl_state :=
  let it := ith (cs_cache w) a in
  if is_dead it then Some (set_cache (refcount_decr (cs_cache w) a) w)
  else
    '(_, keybuf) ← uriencode (key it) stack (Z.of_nat KEY_MAX_LENGTH * 3 + 1);
    keybuf ← c_string keybuf;
    cl ← client w;
    let line := metadump_line keybuf it in
    let total := Z.of_nat (length line) in
    let written := if total <? 4096 then line ++ [0] else take 4095 line ++ [0] in    (* [snprintf] *)
    let buf := with_data (write_at (c_cbuf cl) written (data (c_buf cl))) (c_buf cl) in
    let w := set_cache (refcount_decr (cs_cache w) a) w in
    let buf := if (LRU_CRAWLER_WRITEBUF - 1 <=? total) || (total <=? 0) then buf else (bipbuf_push buf total).2 in
    Some (set_client (Some (mkClient buf (c_cbuf cl))) (polls w) (client_sent w) w).

Definition crawler_expired_mod : crawler_module_reg_t :=
  mkModule (Some crawler_expired_init) crawler_expired_eval (Some crawler_expired_doneclass) (Some crawler_expired_finalize) true false.

Definition crawler_metadump_mod : crawler_module_reg_t := mkModule None crawler_metadump_eval None None false true.

Definition crawler_mod_regs (t : crawler_run_type) : crawler_module_reg_t :=
  match t with
  | CRAWLER_AUTOEXPIRE | CRAWLER_EXPIRED => crawler_expired_mod
  | CRAWLER_METADUMP => crawler_metadump_mod
  end.

(** ** The client *)

(** The result, the client unless its connection was closed, and what it has been sent. *)
Definition lru_crawler_poll (r : poll_result) (cl : crawler_client_t) (snt : bytes)
    : Z * option crawler_client_t * bytes :=
  match r with
  | PollError => (-1, Some cl, snt)
  | PollTimeout => (0, Some cl, snt)
  | PollEvents ev =>
      if default false (pollin ev) then (-1, None, snt)
      else
        match bipbuf_peek_all (c_buf cl) with
        | None => (0, Some cl, snt)
        | Some (off, data_size) =>
            if pollhup ev then (-1, None, snt)
            else match pollout ev with
                 | None | Some WouldBlock => (0, Some cl, snt)
                 | Some WriteError => (-1, None, snt)
                 | Some (Accepts n) =>
                     let total := Z.min n data_size in
                     if total =? 0 then (-1, None, snt)
                     else (0, Some (mkClient (bipbuf_poll (c_buf cl) total).2 (c_cbuf cl)),
                           snt ++ slice off (off + total) (data (c_buf cl)))
                 end
        end
  end.

(** The calls of [poll] after the first. *)
Definition later (ps : nat → poll_result) : nat → poll_result := λ i, ps (S i).

(** Space for an item; [Never]: after [k] calls of [poll] the client has not made room and has not
    gone away. *)
Fixpoint getbuf_loop (k : nat) (ps : nat → poll_result) (cl : crawler_client_t) (snt : bytes)
    : answer (bool * option crawler_client_t * (nat → poll_result) * bytes) :=
  match bipbuf_request (c_buf cl) LRU_CRAWLER_WRITEBUF with
  | Some off => Answer (true, Some (mkClient (c_buf cl) off), ps, snt)
  | None =>
      match k with
      | O => Never
      | S k =>
          match lru_crawler_poll (ps O) cl snt with
          | (ret, None, snt) => Answer (false, None, later ps, snt)
          | (ret, Some cl, snt) => if ret <? 0 then Answer (false, Some cl, later ps, snt) else getbuf_loop k (later ps) cl snt
          end
      end
  end.

Definition lru_crawler_client_getbuf (w : crawl_state) (cl : crawler_client_t) : answer (bool * crawl_state) :=
  '(ok, cl, ps, snt) ← getbuf_loop patience (polls w) cl (client_sent w);
  Answer (ok, set_client cl ps snt w).

(** The last part of a round: what is still in the buffer is sent. *)
Fixpoint flush_loop (k : nat) (ps : nat → poll_result) (cl : option crawler_client_t) (snt : bytes)
    : answer (option crawler_client_t * (nat → poll_result) * bytes) :=
  match cl with
  | None => Answer (None, ps, snt)
  | Some c =>
      if bipbuf_used (c_buf c) =? 0 then Answer (Some c, ps, snt)
      else match k with
           | O => Never
           | S k => let '(_, cl, snt) := lru_crawler_poll (ps O) c snt in flush_loop k (later ps) cl snt
           end
  end.

(** ** A round of the thread *)

(** [do_item_stats_add_crawl] *)
Definition do_item_stats_add_crawl (i : nat) (k : crawler) (w : crawl_state) : crawl_state :=
  let s := counts w !!! i in
  set_counts (<[i := mkCounts (u64 (crawler_reclaimed s + reclaimed k)) (u64 (expired_unfetched s + unfetched k))
    (u64 (crawler_items_checked s + checked k))]> (counts w)) w.

Section Module.
Context (m : crawler_module_reg_t).

Definition lru_crawler_class_done (w : crawl_state) (i : nat) : answer crawl_state :=
  let w := set_cache (set_item (cs_cache w) (crawler_at i) (set_it_flags 0)) w in
  let w := set_crawlers (crawlers w) (crawler_count w - 1) w in
  c ← asserting (do_item_unlinktail_q (cs_cache w) (crawler_at i));
  let w := do_item_stats_add_crawl i (crawlers w !!! i) (set_cache c w) in
  match m_doneclass m, active_data w with
  | None, _ => Answer w
  | Some f, Some d => Answer (set_active_data (Some (f i d)) w)
  | Some f, None => Assertion
  end.

(** [crawlers[i].remaining && --crawlers[i].remaining < 1] *)
Definition count_down (i : nat) (w : crawl_state) : bool * crawl_state :=
  let r := remaining (crawlers w !!! i) in
  if r =? 0 then (false, w)
  else let w := upd_crawler i (λ k, mkCrawler (r - 1) (reclaimed k) (unfetched k) (checked k)) w in (r - 1 <? 1, w).

(** The crawler of queue [i] passes an item. *)
Definition crawl_item (w : crawl_state) (i : nat) : answer crawl_state :=
  '(c, search) ← asserting (do_item_crawl_q (cs_cache w) (crawler_at i));
  let w := set_cache c w in
  let '(stop, w) := if search =? 0 then (true, w) else count_down i w in
  if stop then lru_crawler_class_done w i
  else
    let hv := hash (key (ith (cs_cache w) search)) in
    if busy search then Answer w
    else
      let w := set_cache (refcount_incr (cs_cache w) search) w in
      if negb (refcount (ith (cs_cache w) search) =? 2)
      then Answer (set_cache (refcount_decr (cs_cache w) search) w)
      else
        let w := upd_crawler i (λ k, mkCrawler (remaining k) (reclaimed k) (unfetched k) (u64 (checked k + 1))) w in
        asserting (m_eval m w search hv i).

(** The body of the loop over the queues. *)
Definition crawl_class (w : crawl_state) (i : nat) : answer crawl_state :=
  if negb (it_flags (ith (cs_cache w) (crawler_at i)) =? 1) then Answer w
  else match client w with
       | Some cl =>
           '(ok, w) ← lru_crawler_client_getbuf w cl;
           if ok : bool then crawl_item w i else lru_crawler_class_done w i
       | None => if needs_client m then lru_crawler_class_done w i else crawl_item w i
       end.

Fixpoint crawl_pass (ids : list nat) (w : crawl_state) : answer crawl_state :=
  match ids with
  | [] => Answer w
  | i :: ids => w ← crawl_class w i; crawl_pass ids w
  end.

(** [Never]: the fuel is used up. *)
Fixpoint crawl_loop (fuel : nat) (w : crawl_state) : answer crawl_state :=
  if crawler_count w =? 0 then Answer w
  else match fuel with
       | O => Never
       | S fuel => w ← crawl_pass (seq POWER_SMALLEST (LARGEST_ID - POWER_SMALLEST)) w; crawl_loop fuel w
       end.

(** After the crawl: the statistics are closed and the client is served and let go. *)
Definition end_round (w : crawl_state) : answer crawl_state :=
  w ← (match m_finalize m, active_data w with
       | None, _ => Answer w
       | Some f, Some d => Answer (set_active_data (f d) w)
       | Some f, None => Assertion
       end);
  '(_, ps, snt) ← flush_loop patience (polls w) (client w) (client_sent w);
  Answer (set_module None (set_client None ps snt w)).

End Module.

(** The thread is woken up. *)
Definition item_crawler_round (fuel : nat) (w : crawl_state) : answer crawl_state :=
  w ← (match active_mod w with
       | Some t => w ← crawl_loop (crawler_mod_regs t) fuel w; end_round (crawler_mod_regs t) w
       | None => if crawler_count w =? 0 then Answer w else Assertion
       end);
  Answer (set_running false (lru_crawler_starts w) w).

(** ** Starting a crawl *)

Definition do_lru_crawler_start (w : crawl_state) (sid : nat) (rem : Z) : option (crawl_state * Z) :=
  if it_flags (ith (cs_cache w) (crawler_at sid)) =? 0 then
    let c := set_item (cs_cache w) (crawler_at sid) (λ i, mkStritem 0 0 (h_next i) 0 (exptime i) 0 (refcount i) (nsuffix i) 1
               (Z.of_nat sid) 0 (cas i) (key i)) in
    let w := upd_crawler sid (λ _, mkCrawler rem 0 0 0) (set_cache c w) in
    c ← do_item_linktail_q (cs_cache w) (crawler_at sid);
    let w := set_crawlers (crawlers w) (crawler_count w + 1) (set_cache c w) in
    Some (set_running true (u64 (lru_crawler_starts w + 1)) w, 1)
  else Some (w, 0).

(** The result is 0 when it succeeds; [garbage] is what the memory of the new buffer holds. *)
Definition lru_crawler_set_client (w : crawl_state) (garbage : bytes) : Z * crawl_state :=
  match client w with
  | Some _ => (-1, w)
  | None => (0, set_client (Some (mkClient (bipbuf_init (mkBip 0 0 0 0 0 garbage) (1024 * 128)) 0)) (polls w) (client_sent w) w)
  end.

Fixpoint start_loop (sids : list nat) (ids : nat → bool) (rem : Z) (w : crawl_state) (starts : Z) : option (crawl_state * Z) :=
  match sids with
  | [] => Some (w, starts)
  | sid :: sids =>
      if ids sid then '(w, n) ← do_lru_crawler_start w sid rem; start_loop sids ids rem w (starts + n)
      else start_loop sids ids rem w starts
  end.

(** [conn] is whether a connection is given; [mem] whether the statistics can be allocated. *)
Definition lru_crawler_start (w : crawl_state) (ids : nat → bool) (rem : Z) (type : crawler_run_type)
    (data : option crawler_expired_data) (conn : bool) (mem : bool) (garbage : bytes) : option (crawl_state * Z) :=
  let autoexpire := bool_decide (type = CRAWLER_AUTOEXPIRE) in
  let is_running := lru_crawler_running w in
  if is_running && negb (autoexpire && bool_decide (active_crawler_type w = CRAWLER_AUTOEXPIRE))
  then Some (set_block (u32 (now + 60)) w, -1)
  else if autoexpire && (now <? block_ae_until w) then Some (w, -1)
  else
    let start w := start_loop (seq POWER_SMALLEST (LARGEST_ID - POWER_SMALLEST)) ids rem w 0 in
    if is_running then start w
    else
      let m := crawler_mod_regs type in
      let w := set_type type (set_module (Some type) w) in
      let w := match m_init m with Some f => set_active_data (f data mem (active_data w)) w | None => w end in
      if needs_client m then
        if negb conn then Some (w, -2)
        else let '(r, w) := lru_crawler_set_client w garbage in
             if negb (r =? 0) then Some (w, -2) else start w
      else start w.

(** [strtok_r] with a comma: the parts that are not empty. *)
Fixpoint strtok_comma (s tok : bytes) : list bytes :=
  match s with
  | [] => match tok with [] => [] | _ => [rev tok] end
  | x :: s => if x =? 44 then match tok with [] => strtok_comma s [] | _ => rev tok :: strtok_comma s [] end
              else strtok_comma s (x :: tok)
  end.

(** The queues of the class. *)
Definition class_queues (sid : nat) (i : nat) : bool :=
  existsb (λ lru, Z.of_nat i =? Z.lor (Z.of_nat sid) lru) [TEMP_LRU; HOT_LRU; WARM_LRU; COLD_LRU].

(** The queues that are named; none if a name is bad. *)
Fixpoint tocrawl_loop (l : list bytes) (tocrawl : nat → bool) : option (nat → bool) :=
  match l with
  | [] => Some tocrawl
  | p :: l =>
      let '(ok, sid) := safe_strtoul p in
      if negb ok || (sid <? Z.of_nat POWER_SMALLEST) || (Z.of_nat MAX_NUMBER_OF_SLAB_CLASSES <=? sid) then None
      else tocrawl_loop l (λ i, tocrawl i || class_queues (Z.to_nat sid) i)
  end.

Definition lru_crawler_crawl (w : crawl_state) (slabs : bytes) (type : crawler_run_type) (rem : Z) (conn mem : bool)
    (garbage : bytes) : option (crawl_state * crawler_result_type) :=
  match (if decide (slabs = chars "all") then Some (λ _, true) else tocrawl_loop (strtok_comma slabs []) (λ _, false)) with
  | None => Some (w, CRAWLER_BADCLASS)
  | Some tocrawl =>
      '(w, starts) ← lru_crawler_start w tocrawl rem type None conn mem garbage;
      Some (w, if starts =? -1 then CRAWLER_RUNNING else if starts =? -2 then CRAWLER_ERROR
               else if negb (starts =? 0) then CRAWLER_OK else CRAWLER_NOTSTARTED)
  end.

End Crawler.
