(* ===== verification/CrawlerSpec.v ===== *)
(** What a crawl does.

    The queues with their crawlers go through phases: a queue that is not crawled, and one
    that is, with the items the crawler has still to pass and those it has passed.  The rounds
    of the thread follow these phases, whatever module the crawl runs, as long as the module
    keeps its promises. *)

From S2P Require Import Prelude Item Slabs Assoc Items ItemFrame ItemInv Bipbuffer Util CrawlQueue Crawler.

(** ** Phases *)

(** A queue that is not crawled holds the items [l]; one that is holds, from the tail on, the
    passed items that were kept, the crawler, and the items [todo].  [v] are the items that
    were passed, [r] is how many a crawl passes, plus one, or 0 for all. *)
Inductive phase := Idle (l v : list Z) | Walking (r : Z) (todo v : list Z).

Section Phases.
Context (keeps : Z → bool).

Definition kept (v : list Z) : list Z := filter (λ b, keeps b = true) v.

Definition items_of (p : phase) : list Z :=
  match p with Idle l _ => l | Walking _ todo v => rev todo ++ kept v end.

Definition visited (p : phase) : list Z := match p with Idle _ v => v | Walking _ _ v => v end.

Definition walking (p : phase) : bool := match p with Idle _ _ => false | Walking _ _ _ => true end.

Definition stops (r : Z) (v : list Z) : bool := negb (r =? 0) && (r - Z.of_nat (length v) - 1 <? 1).

(** The crawler's turn. *)
Definition next_phase (p : phase) : phase :=
  match p with
  | Idle l v => Idle l v
  | Walking r [] v => Idle (kept v) v
  | Walking r (b :: todo) v => if stops r v then Idle (rev (b :: todo) ++ kept v) v else Walking r todo (b :: v)
  end.

(** The item it meets. *)
Definition met (p : phase) : option Z :=
  match p with Walking r (b :: todo) v => if stops r v then None else Some b | _ => None end.

(** The items a crawl of the queue [l] meets, the tail of the queue. *)
Definition reached (r : Z) (l : list Z) : list Z :=
  if r =? 0 then l else drop (length l - Z.to_nat (r - 1)) l.

(** What is left of the queue. *)
Definition swept (r : Z) (l : list Z) : list Z :=
  if r =? 0 then kept l else take (length l - Z.to_nat (r - 1)) l ++ kept (reached r l).

Lemma next_met p : visited (next_phase p) = match met p with Some b => b :: visited p | None => visited p end.
Proof using. destruct p as [|r [|b todo] v]; cbn; [done|done|]. by destruct (stops r v). Qed.

Fixpoint steps (k : nat) (p : phase) : phase := match k with O => p | S k => steps k (next_phase p) end.

Lemma steps_idle k l v : steps k (Idle l v) = Idle l v.
Proof using. by induction k. Qed.

(** A crawl ends after one turn more than there are items. *)
Lemma steps_walking r todo v k :
  0 ≤ r → (r ≠ 0 → Z.of_nat (length v) < r) → (length todo < k)%nat →
  steps k (Walking r todo v) =
    let l := rev todo ++ v in
    let m := if r =? 0 then length todo else Nat.min (length todo) (Z.to_nat (r - 1) - length v) in
    Idle (take (length todo - m) (rev todo) ++ kept (drop (length todo - m) (rev todo) ++ v))
      (drop (length todo - m) (rev todo) ++ v).
Proof using.
  intros Hr. revert v k. induction todo as [|b todo IH]; intros v k Hv Hk; destruct k as [|k]; cbn [length] in *; try lia;
    [|assert (∀ l, rev (b :: todo) ++ l = rev todo ++ b :: l) as Hcons by (intros l; cbn [rev]; by rewrite <-app_assoc)].
  - cbn [steps next_phase]. rewrite steps_idle. cbn. by rewrite take_nil, drop_nil.
  - cbn [steps next_phase]. unfold stops. destruct (Z.eqb_spec r 0) as [->|Hr0]; cbn [negb andb].
    + rewrite IH by (cbn; lia). cbn [Z.eqb]. rewrite !Nat.sub_diag. cbn [take drop]. by rewrite !Hcons.
    + specialize (Hv Hr0). destruct (Z.ltb_spec (r - Z.of_nat (length v) - 1) 1) as [Hs|Hs].
      * rewrite steps_idle. replace (Nat.min (S (length todo)) (Z.to_nat (r - 1) - length v)) with 0%nat by lia.
        cbv zeta. rewrite Nat.sub_0_r. change (S (length todo)) with (length (b :: todo)). rewrite <-length_rev.
        by rewrite firstn_all, drop_all.
      * rewrite IH by (cbn; lia). cbv zeta. cbn [length].
        set (m := Nat.min (length todo) (Z.to_nat (r - 1) - S (length v))).
        replace (Nat.min (S (length todo)) (Z.to_nat (r - 1) - length v)) with (S m) by lia.
        cbn [rev]. replace (S (length todo) - S m)%nat with (length todo - m)%nat by lia.
        rewrite take_app_le, drop_app_le by (rewrite length_rev; lia). by rewrite <-!app_assoc.
Qed.

Lemma steps_swept r l k : 0 ≤ r → (length l < k)%nat → steps k (Walking r (rev l) []) = Idle (swept r l) (reached r l).
Proof using.
  intros Hr Hk. rewrite steps_walking by (cbn; rewrite ?length_rev; lia). cbv zeta. rewrite rev_involutive, length_rev, !app_nil_r.
  unfold swept, reached. destruct (Z.eqb_spec r 0) as [->|]; [by rewrite Nat.sub_diag|]. cbn [length].
  replace (length l - Nat.min (length l) (Z.to_nat (r - 1) - 0))%nat with (length l - Z.to_nat (r - 1))%nat by lia. done.
Qed.
End Phases.

(** ** Visits *)

Section Visits.
Context (st : item_settings) (hash : bytes → Z).
Abbreviation inv := (ItemInv.inv st hash).

Lemma inv_ext n c L L' : (∀ id, (id < LARGEST_ID)%nat → L id = L' id) → inv n c L → inv n c L'.
Proof using.
  intros HL [[S1 S2 S3 S4 S5 S6] V2 V3 V4 V5]. split; try done; [split; try done|].
  - intros id Hid. rewrite <-HL by done. by apply S4.
  - intros id a Hid. rewrite <-HL by done. by apply S5.
  - intros k e Hk HX. destruct (S6 k e Hk HX) as (id & Hid & Ha & Hke). exists id. by rewrite <-HL.
  - intros a Hu Hl. destruct (V5 a Hu Hl) as (id & Hid & Ha). exists id. by rewrite <-HL.
Qed.

Lemma hides_ext base c0 c Q Q' :
  (∀ id, (id < LARGEST_ID)%nat → Q id = Q' id) → hides base st c0 c Q → hides base st c0 c Q'.
Proof using.
  intros HQ [T1 T2 T3 T4 T5 T6 T6' T7 T8 T9 T10 T11 T12 T13 T14]. split; try done.
  - intros id Hid. rewrite <-HQ by done. by apply T7.
  - intros id Hid. rewrite <-HQ by done. by apply T8.
  - intros id id' b Hid Hid'. rewrite <-!HQ by done. by apply T9.
  - intros id b Hid. rewrite <-HQ by done. by apply T10.
  - intros id i b Hid. rewrite <-HQ by done. by apply T13.
Qed.

(** The reference a visitor takes and drops. *)
Lemma taken_and_dropped c a :
  0 ≤ refcount (ith c a) → refcount (ith c a) + 1 < 2 ^ 16 → ∀ b, ith (refcount_decr (refcount_incr c a) a) b = ith c b.
Proof using.
  intros H0 H1 b. unfold refcount_decr, refcount_incr. rewrite set_item_twice. destruct (decide (a = b)) as [<-|].
  - rewrite ith_set_eq. destruct (ith c a) as [x1 x2 x3 x4 x5 x6 x7 x8 x9 x10 x11 x12 x13]. unfold set_refcount. cbn in *. f_equal.
    unfold u16. change (2 ^ 16) with 65536 in *. rewrite (Z.mod_small (_ + 1)) by lia. rewrite Z.mod_small; lia.
  - by rewrite ith_set_ne.
Qed.

Lemma visit_same n c L a id :
  inv (S n) c L → (id < LARGEST_ID)%nat → a ∈ L id → inv (S n) (refcount_decr (refcount_incr c a) a) L.
Proof using.
  intros HI Hid Ha. destruct (inv_queued st hash _ c L a id HI Hid Ha) as (Hu & _ & Hr & _).
  pose proof (v_high _ _ _ _ _ HI a Hu) as Hhi. set (c' := refcount_decr _ a).
  assert (∀ b, ith c' b = ith c b) as Hsame by (apply taken_and_dropped; lia). pose proof (v_ok _ _ _ _ _ HI) as Hok.
  assert (cache_ok st hash c' L []) as Hok'.
  { change c' with (with_heap c (mem_of_cache c')). apply heap_ok; [done|..].
    - intros b _. apply Hsame.
    - intros b. change (hdr (mem_of_cache c') b) with (ith c' b). by rewrite Hsame.
    - intros b _ M. change (hdr (mem_of_cache c') b) with (ith c' b). by rewrite Hsame. }
  assert (same_held (slab c) (slab c')) as Hsh.
  { apply (same_held_free st (slab c)); [apply Hok|]. intros i b _ _. apply (Hsame b). }
  apply (inv_step st hash (S n) c L c' L a HI Hok'); [|done|].
  - apply step_same; [|done]. split; rewrite ?Hsame; try done. intros b _. by rewrite Hsame.
  - intros _. unfold extra, is_linked. rewrite Hsame. pose proof (v_low _ _ _ _ _ HI a Hu). split_and!; [done|lia|eauto].
Qed.

(** An item only the queue refers to is removed. *)
Lemma visit_dead n c L a id l1 l2 :
  inv (S n) c L → (id < LARGEST_ID)%nat → L id = l1 ++ a :: l2 → refcount (ith c a) = 1 →
  let c1 := refcount_incr c a in
  ∃ c2 c3, do_item_unlink st c1 a (hash (key (ith c1 a))) = Some c2 ∧ do_item_remove st c2 a = Some c3 ∧
    inv (S n) c3 (set_list L id (l1 ++ l2)) ∧ step c c3 a ∧
    used c1 a ∧ free_room c1 a ∧ is_linked c1 a = true ∧ qid c1 a = id ∧
    used c2 a ∧ free_room c2 a ∧ refcount (ith c2 a) = 1.
Proof using.
  intros HI Hid HL Hr c1. assert (a ∈ L id) as Ha by (rewrite HL, elem_of_app, elem_of_cons; auto).
  destruct (incr_inv st hash n c L a id HI Hid Ha) as (HI1 & HS1 & Hu1 & Hr1 & Ht1). fold c1 in HI1, HS1, Hu1, Hr1, Ht1.
  destruct (inv_queued st hash n c1 L a id HI1 Hid Ha) as (_ & Hl1 & _).
  destruct (unlink_inv st hash n c1 L a id l1 l2 HI1 Hid HL) as (c2 & E2 & HI2 & HS2 & Ht2 & Hcase).
  rewrite Hr1, Hr in Hcase. destruct Hcase as (Hu2 & Hr2 & Hl2). cbn in Hr2.
  destruct (remove_inv st hash n c2 _ a HI2 Hu2) as (c3 & E3 & HI3 & HS3 & Ht3 & Hcase).
  { unfold extra. rewrite Hl2, Hr2. lia. }
  rewrite Hr2 in Hcase. destruct Hcase as [Hnu3 _].
  assert (step c c3 a) as HS by (eapply step_trans; [exact HS1|eapply step_trans; [exact HS2|exact HS3]]).
  exists c2, c3. split_and!; try done.
  - apply (inv_step st hash (S n) c L c3 _ a HI); [apply HI3|done| |done]. intros b i Hb Hin. by eapply set_list_remove.
  - eapply fits_free_room; [apply HI1|apply HI1|done].
  - destruct (queue_use st hash (v_ok _ _ _ _ _ HI1) id a Hid Ha) as [_ Hq]. unfold qid. rewrite Hq. lia.
  - eapply fits_free_room; [apply HI2|apply HI2|done].
Qed.
End Visits.

(** ** Modules *)

(** The same item, up to its place and its references. *)
Definition alike (i j : stritem) : Prop := payload (set_refcount 0 i) = payload (set_refcount 0 j).

(** The part of the state that belongs to the module and its client. *)
Definition same_module (w w' : crawl_state) : Prop :=
  active_data w' = active_data w ∧ client w' = client w ∧ polls w' = polls w ∧ client_sent w' = client_sent w.

(** The part that belongs to the thread. *)
Definition same_thread (w w' : crawl_state) : Prop :=
  crawler_count w' = crawler_count w ∧ remaining <$> crawlers w' = remaining <$> crawlers w.

(** The call of [doneclass]. *)
Definition call_doneclass (m : crawler_module_reg_t) (i : nat) (w : crawl_state) : answer crawl_state :=
  match m_doneclass m, active_data w with
  | None, _ => Answer w
  | Some f, Some d => Answer (set_active_data (Some (f i d)) w)
  | Some f, None => Assertion
  end.

(** What a module promises: [P] holds of the state and the items that were handed to it, and
    [R] too when its client has space for the next one; it removes the items that are
    [doomed], and knows how to deal with those that are [fine]. *)
Class ModuleLaws (st : item_settings) (patience : nat) (m : crawler_module_reg_t) (start : cache) (doomed : stritem → bool) (fine : stritem → Prop)
    (P R : crawl_state → list Z → Prop) : Prop := {
  law_alike i j : alike i j → doomed i = doomed j ∧ (fine i → fine j);
  law_frame w w' log : same_module w w' → (P w log → P w' log) ∧ (R w log → R w' log);
  law_client w log cl : P w log → client w = Some cl →
    ∃ w', lru_crawler_client_getbuf patience w cl = Answer (true, w') ∧ same_thread w w' ∧ cs_cache w' = cs_cache w ∧ R w' log;
  law_alone w log : P w log → client w = None → needs_client m = false ∧ R w log;
  law_passed w log : R w log → P w log;
  law_done w log i : R w log →
    ∃ w', call_doneclass m i w = Answer w' ∧ same_thread w w' ∧ cs_cache w' = cs_cache w ∧ P w' log;
  law_live w log a hv i : R w log → fine (ith (cs_cache w) a) → doomed (ith (cs_cache w) a) = false →
    alike (ith (cs_cache w) a) (ith start a) → (i < LARGEST_ID)%nat →
    ∃ w', m_eval m w a hv i = Some w' ∧ cs_cache w' = refcount_decr (cs_cache w) a ∧ same_thread w w' ∧ P w' (log ++ [a]);
  law_dead w log a hv i c1 c2 : R w log → fine (ith (cs_cache w) a) → doomed (ith (cs_cache w) a) = true →
    alike (ith (cs_cache w) a) (ith start a) → (i < LARGEST_ID)%nat →
    do_item_unlink st (cs_cache w) a hv = Some c1 → do_item_remove st c1 a = Some c2 → Item.slabs_clsid (ith c2 a) = 0 →
    ∃ w', m_eval m w a hv i = Some w' ∧ cs_cache w' = c2 ∧ same_thread w w' ∧ P w' (log ++ [a])
}.

Definition set_phase (ph : nat → phase) (id : nat) (p : phase) : nat → phase := λ j, if decide (j = id) then p else ph j.

(** The queues the thread goes round. *)
Definition crawl_ids : list nat := seq POWER_SMALLEST (LARGEST_ID - POWER_SMALLEST).

Definition count_walking (ph : nat → phase) : nat := length (List.filter (λ id, walking (ph id)) crawl_ids).

Lemma count_ext (f g : nat → bool) ids : (∀ i, i ∈ ids → f i = g i) → List.filter f ids = List.filter g ids.
Proof.
  induction ids as [|i ids IH]; intros H; [done|]. cbn. rewrite (H i) by by left. rewrite IH; [done|].
  intros j Hj. apply H. by right.
Qed.

Lemma set_phase_eq ph id p : set_phase ph id p id = p.
Proof. unfold set_phase. by rewrite decide_True. Qed.

Lemma set_phase_ne ph id p j : j ≠ id → set_phase ph id p j = ph j.
Proof. intros Hj. unfold set_phase. by rewrite decide_False. Qed.

Lemma count_off ph id : id ∈ crawl_ids → walking (ph id) = true → ∀ l v,
  count_walking ph = S (count_walking (set_phase ph id (Idle l v))).
Proof.
  unfold count_walking. assert (NoDup crawl_ids) as Hnd by apply NoDup_seq. revert Hnd. generalize crawl_ids as ids.
  induction ids as [|j ids IH]; intros Hnd Hin Hw l v; [by apply elem_of_nil in Hin|].
  apply list.NoDup_cons in Hnd as [Hj Hnd]. cbn [List.filter]. destruct (decide (j = id)) as [->|Hne].
  - rewrite Hw, set_phase_eq. cbn [walking length]. do 2 f_equal.
    apply count_ext. intros k Hk. rewrite set_phase_ne; [done|]. by intros ->.
  - rewrite set_phase_ne by done. apply elem_of_cons in Hin as [?|Hin]; [done|]. specialize (IH Hnd Hin Hw l v).
    destruct (walking (ph j)); cbn [length]; congruence.
Qed.

Lemma count_same ph id p : walking p = walking (ph id) → count_walking (set_phase ph id p) = count_walking ph.
Proof.
  intros Hp. unfold count_walking. f_equal. apply count_ext. intros j _. destruct (decide (j = id)) as [->|].
  - by rewrite set_phase_eq.
  - by rewrite set_phase_ne.
Qed.

Lemma crawl_ids_lt id : id ∈ crawl_ids → (id < LARGEST_ID)%nat.
Proof. unfold crawl_ids, POWER_SMALLEST, LARGEST_ID. rewrite elem_of_seq. lia. Qed.

(** ** A round of the thread *)

Section Thread.
Context (st : item_settings) (hash : bytes → Z) (base : Z) (busy : Z → bool) (patience : nat).
Context (m : crawler_module_reg_t) (start : cache) (doomed : stritem → bool) (fine : stritem → Prop).
Context (P R : crawl_state → list Z → Prop) (n : nat).
Abbreviation crawler_at := (CrawlQueue.crawler_at base).

(** The items that are handed to the module, and those that stay. *)
Definition examined (b : Z) : bool := negb (busy b) && (refcount (ith start b) =? 1).
Definition stays (b : Z) : bool := negb (examined b && doomed (ith start b)).

Definition queue_of (id : nat) (p : phase) : list Z :=
  match p with Idle l _ => l | Walking _ todo v => rev todo ++ crawler_at id :: kept stays v end.

Definition phase_ok (w : crawl_state) (id : nat) (p : phase) : Prop :=
  match p with
  | Idle _ _ => it_flags (ith (cs_cache w) (crawler_at id)) = 0
  | Walking r _ v => enabled base (cs_cache w) id ∧
      remaining (crawlers w !!! id) = (if r =? 0 then 0 else r - Z.of_nat (length v)) ∧ 0 ≤ r ∧ (r ≠ 0 → Z.of_nat (length v) < r)
  end.

(** The cache without the crawlers. *)
Record ghost (c0 c : cache) (ph : nat → phase) : Prop := {
  gh_hides : hides base st c0 c (λ id, queue_of id (ph id));
  gh_inv : ItemInv.inv st hash (S n) c0 (λ id, items_of stays (ph id));
  gh_payload id b : (id < LARGEST_ID)%nat → b ∈ items_of stays (ph id) → payload (ith c0 b) = payload (ith start b)
}.

Record crawling (w : crawl_state) (ph : nat → phase) : Prop := {
  cw_ghost : ∃ c0, ghost c0 (cs_cache w) ph;
  cw_phase id : (id < LARGEST_ID)%nat → phase_ok w id (ph id);
  cw_count : crawler_count w = Z.of_nat (count_walking ph);
  cw_len : length (crawlers w) = LARGEST_ID;
  cw_fine id b : (id < LARGEST_ID)%nat → b ∈ items_of stays (ph id) → fine (ith start b)
}.

(** What the class's turn adds to the items handed to the module. *)
Definition handed (p : phase) : list Z :=
  match met p with Some b => if examined b then [b] else [] | None => [] end.

Context {laws : ModuleLaws st patience m start doomed fine P R}.
Context (Hbase : 0 < base).

Lemma phase_frame w w' id p :
  payload (ith (cs_cache w') (crawler_at id)) = payload (ith (cs_cache w) (crawler_at id)) →
  remaining (crawlers w' !!! id) = remaining (crawlers w !!! id) → phase_ok w id p → phase_ok w' id p.
Proof using.
  intros Hp Hr. destruct (payload_fields _ _ Hp) as (_ & _ & Hf & Hc & _), (payload_refcount _ _ Hp) as (_ & _ & Hn & _).
  destruct p as [l v|r todo v]; cbn [phase_ok]; [by rewrite Hf|]. intros ([E1 E2 E3] & HR). rewrite Hr. split; [|done].
  split; [by rewrite Hf|by rewrite Hn|]. unfold qid in *. by rewrite Hc.
Qed.

Lemma remaining_frame w w' id : same_thread w w' → remaining (crawlers w' !!! id) = remaining (crawlers w !!! id).
Proof using.
  intros [_ H]. assert (∀ l : list crawler, remaining (l !!! id) = default 0 ((remaining <$> l) !! id)) as Hl.
  { intros l. rewrite list_lookup_fmap, list_lookup_total_alt. by destruct (l !! id). }
  by rewrite !Hl, H.
Qed.

Lemma same_thread_length w w' : same_thread w w' → length (crawlers w') = length (crawlers w).
Proof using. intros [_ H]. apply (f_equal length) in H. by rewrite !length_fmap in H. Qed.

Lemma same_thread_trans w1 w2 w3 : same_thread w1 w2 → same_thread w2 w3 → same_thread w1 w3.
Proof using. intros [A1 A2] [B1 B2]. split; congruence. Qed.

Lemma ghost_queues c0 c ph id p Q L :
  hides base st c0 c Q → ItemInv.inv st hash (S n) c0 L →
  (∀ j, (j < LARGEST_ID)%nat → Q j = queue_of j (set_phase ph id p j)) →
  (∀ j, (j < LARGEST_ID)%nat → L j = items_of stays (set_phase ph id p j)) →
  (∀ j b, (j < LARGEST_ID)%nat → b ∈ L j → payload (ith c0 b) = payload (ith start b)) →
  ghost c0 c (set_phase ph id p).
Proof using.
  intros H HI HQ HL Hp. split.
  - by eapply hides_ext; [|exact H].
  - by eapply inv_ext; [|exact HI].
  - intros j b Hj Hb. apply (Hp j); [done|]. by rewrite HL.
Qed.

(** A crawler is switched off; the others are where they were. *)
Lemma class_done_ok w ph log id l v c' c0 :
  R w log → id ∈ crawl_ids → walking (ph id) = true → crawler_count w = Z.of_nat (count_walking ph) →
  length (crawlers w) = LARGEST_ID →
  leave base (cs_cache w) id = Some c' → ghost c0 c' (set_phase ph id (Idle l v)) →
  it_flags (ith c' (crawler_at id)) = 0 →
  (∀ j, (j < LARGEST_ID)%nat → j ≠ id → phase_ok w j (ph j)) →
  (∀ j, (j < LARGEST_ID)%nat → j ≠ id → payload (ith c' (crawler_at j)) = payload (ith (cs_cache w) (crawler_at j))) →
  (∀ j b, (j < LARGEST_ID)%nat → b ∈ items_of stays (set_phase ph id (Idle l v) j) → fine (ith start b)) →
  ∃ w', lru_crawler_class_done base m w id = Answer w' ∧ crawling w' (set_phase ph id (Idle l v)) ∧ P w' log.
Proof using laws.
  intros HR Hid Hw Hcnt Hlen E Hg Hf Hph Hpay Hfine. unfold lru_crawler_class_done.
  cbn [set_cache set_crawlers cs_cache]. unfold leave in E. rewrite E. cbn [asserting mbind answer_bind].
  set (w1 := do_item_stats_add_crawl id _ _). fold (call_doneclass m id w1).
  assert (R w1 log) as HR1 by (by apply (law_frame w w1)).
  destruct (law_done w1 log id HR1) as (w' & Ew & Hs & Hc & HP). exists w'. split; [exact Ew|]. split; [|done].
  assert (∀ j, remaining (crawlers w' !!! j) = remaining (crawlers w !!! j)) as Hrem by (intros j; by rewrite (remaining_frame w1 w' j Hs)).
  assert (cs_cache w' = c') as Hcw by by rewrite Hc.
  split.
  - exists c0. by rewrite Hcw.
  - intros j Hj. destruct (decide (j = id)) as [->|Hne].
    + rewrite set_phase_eq. cbn [phase_ok]. by rewrite Hcw.
    + rewrite set_phase_ne by done. apply (phase_frame w); [rewrite Hcw; by apply Hpay|apply Hrem|by apply Hph].
  - destruct Hs as [-> _]. change (crawler_count w1) with (crawler_count w - 1). rewrite Hcnt, (count_off ph id Hid Hw l v). lia.
  - rewrite (same_thread_length w1 w' Hs). done.
  - done.
Qed.

Lemma kept_cons b v : kept stays (b :: v) = if stays b then b :: kept stays v else kept stays v.
Proof using. unfold kept. rewrite filter_cons. by destruct (stays b). Qed.

Lemma rev_cons_app (b : Z) todo l : rev (b :: todo) ++ l = rev todo ++ b :: l.
Proof using. cbn [rev]. by rewrite <-app_assoc. Qed.

(** The crawler has gone on. *)
Lemma walked_ok w ph id r b todo v w' c0 :
  crawling w ph → (id < LARGEST_ID)%nat → ph id = Walking r (b :: todo) v → stops r v = false →
  ghost c0 (cs_cache w') (set_phase ph id (Walking r todo (b :: v))) →
  (∀ d, in_crawlers base d → payload (ith (cs_cache w') d) = payload (ith (cs_cache w) d)) →
  crawler_count w' = crawler_count w → length (crawlers w') = length (crawlers w) →
  remaining (crawlers w' !!! id) = (if r =? 0 then 0 else r - Z.of_nat (length (b :: v))) →
  (∀ j, j ≠ id → remaining (crawlers w' !!! j) = remaining (crawlers w !!! j)) →
  crawling w' (set_phase ph id (Walking r todo (b :: v))).
Proof using.
  intros Hw Hid Hph Hst Hg Hpay Hcnt Hlen Hrem Hoth. pose proof Hw as [_ Hphase Hc Hl Hfine].
  pose proof (Hphase id Hid) as Hp. rewrite Hph in Hp. destruct Hp as ([E1 E2 E3] & Hr1 & Hr2 & Hr3).
  destruct (payload_fields _ _ (Hpay (crawler_at id) (crawler_at_in base id Hid))) as (_ & _ & Hf & Hcl & _).
  destruct (payload_refcount _ _ (Hpay (crawler_at id) (crawler_at_in base id Hid))) as (_ & _ & Hn & _). split.
  - by exists c0.
  - intros j Hj. destruct (decide (j = id)) as [->|Hne].
    + rewrite set_phase_eq. cbn [phase_ok]. split_and!; [split; [by rewrite Hf|by rewrite Hn|]|done|done|].
      * unfold qid in *. by rewrite Hcl.
      * intros Hr. unfold stops in Hst. rewrite (proj2 (Z.eqb_neq r 0) Hr) in Hst. cbn [negb andb] in Hst.
        apply Z.ltb_ge in Hst. cbn [length]. lia.
    + rewrite set_phase_ne by done. apply (phase_frame w); [by apply Hpay, crawler_at_in|by apply Hoth|by apply Hphase].
  - rewrite Hcnt, Hc. f_equal. symmetry. apply count_same. by rewrite Hph.
  - by rewrite Hlen.
  - intros j d Hj. destruct (decide (j = id)) as [->|Hne].
    + rewrite set_phase_eq. intros Hd. apply (Hfine id d Hid). rewrite Hph. revert Hd. cbn [items_of].
      rewrite rev_cons_app, !elem_of_app, elem_of_cons, kept_cons. destruct (stays b); rewrite ?elem_of_cons; tauto.
    + rewrite set_phase_ne by done. by apply Hfine.
Qed.

(** A turn at the head, or when enough items were passed. *)
Lemma crawl_item_stops w ph log id r todo v :
  crawling w ph → R w log → id ∈ crawl_ids → ph id = Walking r todo v → todo = [] ∨ stops r v = true →
  ∃ w', crawl_item hash base busy m w id = Answer w' ∧
    crawling w' (set_phase ph id (Idle (rev todo ++ kept stays v) v)) ∧ P w' log.
Proof using laws.
  intros Hw HR Hin Hph Hstop. pose proof (crawl_ids_lt id Hin) as Hid. pose proof Hw as [(c0 & [H HI Hpay]) Hphase Hc Hl Hfine].
  pose proof (Hphase id Hid) as Hp. rewrite Hph in Hp. destruct Hp as (Hen & Hr1 & Hr2 & Hr3).
  assert (queue_of id (ph id) = rev todo ++ crawler_at id :: kept stays v) as HQ by by rewrite Hph.
  assert (items_of stays (ph id) = rev todo ++ kept stays v) as HL by by rewrite Hph.
  set (p' := Idle (rev todo ++ kept stays v) v).
  assert (∀ c'', hides base st c0 c'' (set_list (λ i, queue_of i (ph i)) id (rev todo ++ kept stays v)) → ghost c0 c'' (set_phase ph id p')) as Hghost.
  { intros c'' H'. eapply ghost_queues; [exact H'|exact HI| | |exact Hpay].
    - intros j Hj. destruct (decide (j = id)) as [->|Hne]; [by rewrite set_list_eq, set_phase_eq|by rewrite set_list_other, set_phase_ne].
    - intros j Hj. destruct (decide (j = id)) as [->|Hne]; [by rewrite set_phase_eq|by rewrite set_phase_ne]. }
  assert (∀ j b, (j < LARGEST_ID)%nat → b ∈ items_of stays (set_phase ph id p' j) → fine (ith start b)) as Hfine'.
  { intros j b Hj Hb. apply (Hfine j b Hj). destruct (decide (j = id)) as [->|Hne]; [by rewrite set_phase_eq in Hb; rewrite HL|].
    by rewrite set_phase_ne in Hb. }
  assert (∀ j, j ≠ id → crawler_at j ≠ crawler_at id) as Hne by (intros j Hj E; by apply Hj, (crawler_at_inj base)).
  unfold crawl_item. destruct todo as [|b todo].
  - cbn [rev app] in HQ. destruct (crawl_head base st c0 (cs_cache w) _ id (kept stays v) H Hid HQ Hen) as (c1 & E1 & Elv & Hp1).
    rewrite E1. cbn [asserting mbind answer_bind]. rewrite Z.eqb_refl.
    destruct (leave_ok base st c0 (cs_cache w) _ id [] (kept stays v) H Hid HQ Hen) as (c2 & E2 & H2 & Hp2 & Hf2).
    apply (class_done_ok (set_cache c1 w) ph log id _ v c2 c0); try done.
    + by apply (law_frame w).
    + by rewrite Hph.
    + cbn [cs_cache set_cache]. by rewrite Elv.
    + by apply Hghost.
    + intros j Hj Hji. apply (phase_frame w); [apply Hp1|done|by apply Hphase].
    + intros j Hj Hji. cbn [cs_cache set_cache]. rewrite Hp1. by apply Hp2, Hne.
  - destruct Hstop as [?|Hst]; [done|]. rewrite rev_cons_app in HQ.
    destruct (crawl_ok base st c0 (cs_cache w) _ id (rev todo) b (kept stays v) H Hid HQ Hen) as (c1 & E1 & Hb0 & H1 & Hp1).
    rewrite E1. cbn [asserting mbind answer_bind]. rewrite (proj2 (Z.eqb_neq b 0) Hb0).
    unfold stops in Hst. apply andb_true_iff in Hst as [Hr0 Hst]. apply negb_true_iff, Z.eqb_neq in Hr0.
    rewrite (proj2 (Z.eqb_neq r 0) Hr0) in Hr1. specialize (Hr3 Hr0).
    unfold count_down. cbn [crawlers set_cache]. rewrite Hr1, (proj2 (Z.eqb_neq _ 0)) by lia. rewrite Hst.
    assert (enabled base c1 id) as Hen1.
    { destruct Hen as [A1 A2 A3]. destruct (payload_fields _ _ (Hp1 (crawler_at id))) as (_ & _ & Hf & Hcl & _).
      destruct (payload_refcount _ _ (Hp1 (crawler_at id))) as (_ & _ & Hn & _).
      split; [by rewrite Hf|by rewrite Hn|unfold qid in *; by rewrite Hcl]. }
    destruct (leave_ok base st c0 c1 _ id (rev todo) (b :: kept stays v) H1 Hid (set_list_eq _ _ _) Hen1) as (c2 & E2 & H2 & Hp2 & Hf2).
    match goal with |- context [lru_crawler_class_done base m ?x id] => set (w1 := x) end.
    apply (class_done_ok w1 ph log id _ v c2 c0); try done.
    + by apply (law_frame w).
    + by rewrite Hph.
    + unfold w1. cbn. by rewrite length_insert.
    + apply Hghost. rewrite rev_cons_app. eapply hides_ext; [|exact H2]. intros j Hj.
      destruct (decide (j = id)) as [->|Hji]; [by rewrite !set_list_eq|by rewrite !set_list_other].
    + intros j Hj Hji. apply (phase_frame w); [apply Hp1| |by apply Hphase].
      unfold w1. cbn. by rewrite list_lookup_total_insert_ne.
    + intros j Hj Hji. unfold w1. cbn [cs_cache upd_crawler set_crawlers set_cache]. by apply Hp2, Hne.
Qed.

Lemma count_down_ok w id r v :
  remaining (crawlers w !!! id) = (if r =? 0 then 0 else r - Z.of_nat (length v)) → (r ≠ 0 → Z.of_nat (length v) < r) →
  stops r v = false → (id < length (crawlers w))%nat →
  ∃ w', count_down id w = (false, w') ∧ cs_cache w' = cs_cache w ∧ crawler_count w' = crawler_count w ∧
    length (crawlers w') = length (crawlers w) ∧ same_module w w' ∧
    remaining (crawlers w' !!! id) = (if r =? 0 then 0 else r - Z.of_nat (S (length v))) ∧
    ∀ j, j ≠ id → remaining (crawlers w' !!! j) = remaining (crawlers w !!! j).
Proof using.
  intros Hr Hv Hst Hid. unfold count_down. unfold stops in Hst. destruct (Z.eqb_spec r 0) as [->|Hr0]; cbn [negb andb] in Hst.
  - rewrite Hr. cbn [Z.eqb]. exists w. by split_and!.
  - rewrite Hr, (proj2 (Z.eqb_neq _ 0)), Hst by (specialize (Hv Hr0); lia). eexists. split; [done|].
    unfold upd_crawler. cbn [set_crawlers crawlers cs_cache crawler_count].
    split_and!; [done|done|by rewrite length_insert|done| |].
    + rewrite list_lookup_total_insert_eq by lia. cbn [remaining]. lia.
    + intros j Hj. by rewrite list_lookup_total_insert_ne.
Qed.

(** The state of the queues after a step of the crawler of queue [id] past the item [b]. *)
Section Visit.
Context (ph : nat → phase) (id : nat) (r b : Z) (todo v : list Z) (c0 c1 : cache).
Context (Hid : (id < LARGEST_ID)%nat) (Hph : ph id = Walking r (b :: todo) v).
Context (H1 : hides base st c0 c1 (set_list (λ i, queue_of i (ph i)) id (rev todo ++ crawler_at id :: b :: kept stays v))).
Context (HI : ItemInv.inv st hash (S n) c0 (λ i, items_of stays (ph i))).
Context (Hpay : ∀ i d, (i < LARGEST_ID)%nat → d ∈ items_of stays (ph i) → payload (ith c0 d) = payload (ith start d)).

Lemma visit_items : items_of stays (ph id) = rev todo ++ b :: kept stays v.
Proof using Hph. rewrite Hph. cbn [items_of]. apply rev_cons_app. Qed.

Lemma visit_in : b ∈ items_of stays (ph id).
Proof using Hph. rewrite visit_items, elem_of_app. right. by left. Qed.

Lemma visit_header :
  ¬ in_crawlers base b ∧ payload (ith c1 b) = payload (ith start b) ∧ payload (ith c0 b) = payload (ith start b) ∧
  1 ≤ refcount (ith c0 b) ∧ refcount (ith c0 b) + 1 < 2 ^ 16 ∧ b ≠ 0.
Proof using Hid Hph H1 HI Hpay.
  destruct (inv_queued st hash _ c0 _ b id HI Hid visit_in) as (Hu & _ & Hr & Hb0 & _).
  assert (¬ in_crawlers base b) as Hb.
  { destruct Hu as [Hv Hh _ _ _]. by apply (hi_static _ _ _ _ _ H1 _ _ Hv), Hh. }
  pose proof (v_high _ _ _ _ _ HI b Hu). split_and!; [done| |by apply (Hpay id), visit_in|lia|lia|done].
  rewrite (hi_payload _ _ _ _ _ H1 b Hb). apply (Hpay id); [done|apply visit_in].
Qed.

Lemma visit_queues c0' c1' :
  stays b = true → hides base st c0' c1' (set_list (λ i, queue_of i (ph i)) id (rev todo ++ crawler_at id :: b :: kept stays v)) →
  ItemInv.inv st hash (S n) c0' (λ i, items_of stays (ph i)) → (∀ d, ith c0' d = ith c0 d) →
  ghost c0' c1' (set_phase ph id (Walking r todo (b :: v))).
Proof using Hph Hpay.
  intros Hs H' HI' Hsame. eapply ghost_queues; [exact H'|exact HI'|..].
  - intros j Hj. destruct (decide (j = id)) as [->|Hne]; [|by rewrite set_list_other, set_phase_ne].
    rewrite set_list_eq, set_phase_eq. cbn [queue_of]. by rewrite kept_cons, Hs.
  - intros j Hj. destruct (decide (j = id)) as [->|Hne]; [|by rewrite set_phase_ne].
    rewrite set_phase_eq, visit_items. cbn [items_of]. by rewrite kept_cons, Hs.
  - intros j d Hj Hd. rewrite Hsame. by apply (Hpay j).
Qed.

(** The reference is taken and dropped again. *)
Lemma visit_keep : stays b = true →
  ghost (refcount_decr (refcount_incr c0 b) b) (refcount_decr (refcount_incr c1 b) b) (set_phase ph id (Walking r todo (b :: v))) ∧
  ∀ d, in_crawlers base d → ith (refcount_decr (refcount_incr c1 b) b) d = ith c1 d.
Proof using Hid Hph H1 HI Hpay.
  intros Hs. destruct visit_header as (Hb & _ & _ & Hr1 & Hr2 & _).
  assert (∀ c0' c1', hides base st c0' c1' (set_list (λ i, queue_of i (ph i)) id (rev todo ++ crawler_at id :: b :: kept stays v)) →
    ∀ i, valid (slab c0') i → b ∉ free_list (slab c0') i) as Hfr.
  { intros c0' c1' H' i Hi. apply (hi_busy _ _ _ _ _ H' id); [done| |done]. rewrite set_list_eq, elem_of_app. right. right. by left. }
  pose proof (hides_refcount base st c0 c1 _ b 1 H1 Hb (Hfr _ _ H1)) as H2. cbv zeta in H2.
  fold (refcount_incr c0 b) (refcount_incr c1 b) in H2.
  pose proof (hides_refcount base st _ _ _ b (-1) H2 Hb (Hfr _ _ H2)) as H3. cbv zeta in H3. change (?x + -1) with (x - 1) in H3.
  fold (refcount_decr (refcount_incr c0 b) b) (refcount_decr (refcount_incr c1 b) b) in H3. split.
  - apply visit_queues; [done|done| |apply taken_and_dropped; lia]. apply (visit_same st hash n c0 _ b id HI Hid visit_in).
  - intros d Hd. unfold refcount_decr, refcount_incr. rewrite !ith_set_ne; [done|by intros <-..].
Qed.

(** The item is removed. *)
Lemma visit_drop : stays b = false → refcount (ith c0 b) = 1 →
  ∃ c0' c2 c3, do_item_unlink st (refcount_incr c1 b) b (hash (key (ith c1 b))) = Some c2 ∧ do_item_remove st c2 b = Some c3 ∧
    Item.slabs_clsid (ith c3 b) = 0 ∧ ghost c0' c3 (set_phase ph id (Walking r todo (b :: v))) ∧
    ∀ d, in_crawlers base d → payload (ith c3 d) = payload (ith c1 d).
Proof using Hid Hph H1 HI Hpay Hbase.
  intros Hs Hrc. destruct visit_header as (Hb & Hp1 & Hp0 & _ & _ & Hb0).
  destruct (visit_dead st hash n c0 _ b id (rev todo) (kept stays v) HI Hid visit_items Hrc)
    as (d2 & d3 & E2 & E3 & HI3 & HS & Hu1 & Hroom1 & Hl1 & Hq1 & Hu2 & Hroom2 & Hr2).
  assert (key (ith (refcount_incr c0 b) b) = key (ith c1 b)) as Hkey.
  { unfold refcount_incr. rewrite ith_set_eq. cbn [key set_refcount]. destruct (payload_fields _ _ Hp0) as [-> _].
    by destruct (payload_fields _ _ Hp1) as [-> _]. }
  rewrite Hkey in E2.
  assert (∀ i, valid (slab c0) i → b ∉ free_list (slab c0) i) as Hfr.
  { intros i Hi. apply (hi_busy _ _ _ _ _ H1 id); [done| |done]. rewrite set_list_eq, elem_of_app. right. right. by left. }
  pose proof (hides_refcount base st c0 c1 _ b 1 H1 Hb Hfr) as H2. cbv zeta in H2.
  fold (refcount_incr c0 b) (refcount_incr c1 b) in H2.
  set (Q := set_list (λ i, queue_of i (ph i)) id (rev todo ++ crawler_at id :: b :: kept stays v)) in *.
  assert (Q id = (rev todo ++ [crawler_at id]) ++ b :: kept stays v) as HQ.
  { unfold Q. rewrite set_list_eq. by rewrite <-app_assoc. }
  destruct (hides_unlink base st Hbase (refcount_incr c0 b) (refcount_incr c1 b) Q b id (rev todo ++ [crawler_at id]) (kept stays v)
    (hash (key (ith c1 b))) d2) as (c2 & E2' & H3 & Hcr2); try done.
  assert (∀ i, (i < LARGEST_ID)%nat → b ∉ set_list Q id ((rev todo ++ [crawler_at id]) ++ kept stays v) i) as Hun.
  { intros i Hi Hin. pose proof (ln_nodup _ _ _ _ (hi_line _ _ _ _ _ H2 id Hid)) as Hnd.
    destruct (decide (i = id)) as [->|Hne].
    - rewrite set_list_eq in Hin. rewrite HQ in Hnd. apply list.NoDup_app in Hnd as (_ & Hdj & [Hn2 _]%list.NoDup_cons).
      apply elem_of_app in Hin as [Hin|Hin]; [|done]. apply (Hdj b Hin). by left.
    - rewrite set_list_other in Hin by done. apply Hne. apply (hi_apart _ _ _ _ _ H2 i id b); try done.
      rewrite HQ, elem_of_app. right. by left. }
  destruct (hides_remove base st Hbase d2 c2 _ b d3 H3 Hu2 Hroom2) as (c3 & E3' & H4 & Hcr3 & Hcl); [done|done|].
  exists d3, c2, c3. split_and!; [done|done|by apply Hcl; rewrite Hr2| |].
  - eapply ghost_queues; [exact H4|exact HI3|..].
    + intros j Hj. destruct (decide (j = id)) as [->|Hne].
      * rewrite set_list_eq, set_phase_eq. cbn [queue_of]. by rewrite kept_cons, Hs, <-app_assoc.
      * rewrite set_list_other, set_phase_ne by done. unfold Q. by rewrite set_list_other.
    + intros j Hj. destruct (decide (j = id)) as [->|Hne].
      * rewrite set_list_eq, set_phase_eq. cbn [items_of]. by rewrite kept_cons, Hs.
      * by rewrite set_list_other, set_phase_ne by done.
    + intros j d Hj Hd. assert (d ∈ items_of stays (ph j) ∧ d ≠ b) as [Hd' Hdb].
      { destruct (decide (j = id)) as [->|Hne].
        - rewrite set_list_eq in Hd. rewrite visit_items. split; [rewrite elem_of_app, elem_of_cons in *; tauto|].
          intros ->. pose proof (q_nodup _ _ _ (co_queue _ _ _ _ _ (v_ok _ _ _ _ _ HI) id Hid)) as Hnd. rewrite visit_items in Hnd.
          apply list.NoDup_app in Hnd as (_ & Hdj & [Hn2 _]%list.NoDup_cons).
          apply elem_of_app in Hd as [Hd|Hd]; [|done]. apply (Hdj b Hd). by left.
        - rewrite set_list_other in Hd by done. split; [done|]. intros ->. apply Hne.
          apply (queue_unique st hash (v_ok _ _ _ _ _ HI) j id b Hj Hid Hd). apply visit_in. }
      rewrite <-(Hpay j d Hj Hd'). by apply HS.
  - intros d Hd. rewrite Hcr3, Hcr2 by done. unfold refcount_incr. rewrite ith_set_ne; [done|by intros <-].
Qed.
End Visit.

Lemma alike_payload i j : payload i = payload j → alike i j.
Proof using. destruct i, j. unfold alike. intros [=]; subst. done. Qed.

Lemma alike_trans i j k : alike i j → alike j k → alike i k.
Proof using. unfold alike. congruence. Qed.

Lemma alike_incr c b : alike (ith (refcount_incr c b) b) (ith c b).
Proof using. unfold refcount_incr. rewrite ith_set_eq. by destruct (ith c b). Qed.

(** A turn that passes an item. *)
Lemma crawl_item_walks w ph log id r b todo v :
  crawling w ph → R w log → id ∈ crawl_ids → ph id = Walking r (b :: todo) v → stops r v = false →
  ∃ w', crawl_item hash base busy m w id = Answer w' ∧
    crawling w' (set_phase ph id (Walking r todo (b :: v))) ∧ P w' (log ++ (if examined b then [b] else [])).
Proof using laws Hbase.
  intros Hw HR Hin Hph Hst. pose proof (crawl_ids_lt id Hin) as Hid. pose proof Hw as [(c0 & [H HI Hpay]) Hphase Hc Hl Hfine].
  pose proof (Hphase id Hid) as Hp. rewrite Hph in Hp. destruct Hp as (Hen & Hr1 & Hr2 & Hr3).
  assert (queue_of id (ph id) = rev todo ++ b :: crawler_at id :: kept stays v) as HQ by (rewrite Hph; apply rev_cons_app).
  destruct (crawl_ok base st c0 (cs_cache w) _ id (rev todo) b (kept stays v) H Hid HQ Hen) as (c1 & E1 & Hb0 & H1 & Hp1).
  unfold crawl_item. rewrite E1. cbn [asserting mbind answer_bind]. rewrite (proj2 (Z.eqb_neq b 0) Hb0).
  destruct (count_down_ok (set_cache c1 w) id r v Hr1 Hr3 Hst) as (w2 & -> & Hc2 & Hcnt2 & Hl2 & Hm2 & Hrm2 & Hro2); [cbn; rewrite Hl; done|].
  cbn [cs_cache set_cache] in Hc2. cbn [crawler_count crawlers set_cache] in Hcnt2, Hl2, Hro2. rewrite Hc2.
  assert (R w2 log) as HR2 by (by apply (law_frame w); [destruct Hm2 as (?&?&?&?)|]).
  destruct (visit_header ph id r b todo v c0 c1 Hid Hph H1 HI Hpay) as (Hbc & Hpb & Hpb0 & Hrc1 & Hrc2 & _).
  assert (∀ w' c0', ghost c0' (cs_cache w') (set_phase ph id (Walking r todo (b :: v))) →
    (∀ d, in_crawlers base d → payload (ith (cs_cache w') d) = payload (ith c1 d)) → same_thread w2 w' →
    crawling w' (set_phase ph id (Walking r todo (b :: v)))) as Hdone.
  { intros w' c0' Hg Hcr Hs. apply (walked_ok w ph id r b todo v w' c0'); try done.
    - intros d Hd. by rewrite Hcr, Hp1.
    - by rewrite (proj1 Hs).
    - by rewrite (same_thread_length _ _ Hs).
    - by rewrite (remaining_frame _ _ id Hs), Hrm2.
    - intros j Hj. rewrite (remaining_frame _ _ j Hs). by apply Hro2. }
  destruct (payload_fields _ _ Hpb) as (_ & Hrcb & _), (payload_fields _ _ Hpb0) as (_ & Hrcb0 & _).
  assert (∀ x, same_thread w2 (set_cache x w2)) as Hst2 by done.
  destruct (busy b) eqn:Hbusy.
  { assert (examined b = false) as Hex by (unfold examined; by rewrite Hbusy).
    exists w2. split; [done|]. rewrite Hex, app_nil_r. split; [|by apply law_passed].
    apply (Hdone w2 c0); [|by rewrite Hc2|done]. rewrite Hc2. apply (visit_queues ph id r b todo v c0 Hph Hpay c0 c1); try done.
    unfold stays. by rewrite Hex. }
  assert (refcount (ith (refcount_incr c1 b) b) = refcount (ith start b) + 1) as Hri.
  { unfold refcount_incr. rewrite ith_set_eq. cbn [refcount set_refcount]. rewrite Hrcb. apply Z.mod_small. lia. }
  cbn [cs_cache set_cache]. rewrite Hri.
  assert ((refcount (ith start b) + 1 =? 2) = examined b) as Hex.
  { unfold examined. rewrite Hbusy. cbn. destruct (Z.eqb_spec (refcount (ith start b)) 1), (Z.eqb_spec (refcount (ith start b) + 1) 2); (done || lia). }
  rewrite Hex. destruct (examined b) eqn:Hexb; cbn [negb].
  2: { destruct (visit_keep ph id r b todo v c0 c1 Hid Hph H1 HI Hpay) as [Hg Hcr]; [unfold stays; by rewrite Hexb|].
       eexists. split; [done|]. rewrite app_nil_r. split; [|apply law_passed; by apply (law_frame w2)].
       eapply Hdone; [exact Hg| |done]. intros d Hd. cbn [cs_cache set_cache]. by rewrite Hcr. }
  match goal with |- context [m_eval m ?x b _ id] => set (w3 := x) end.
  assert (same_thread w2 w3) as Hs3.
  { split; [done|]. unfold w3, upd_crawler. cbn [set_crawlers crawlers set_cache]. rewrite list_fmap_insert. cbn [remaining].
    apply list_insert_id. rewrite list_lookup_fmap. destruct (lookup_lt_is_Some_2 (crawlers w2) id ltac:(rewrite Hl2, Hl; done)) as [k Hk].
    rewrite (list_lookup_total_correct _ _ _ Hk), Hk. done. }
  assert (R w3 log) as HR3 by by apply (law_frame w2).
  assert (cs_cache w3 = refcount_incr c1 b) as Hc3 by done.
  assert (alike (ith (cs_cache w3) b) (ith start b)) as Hal.
  { rewrite Hc3. eapply alike_trans; [apply alike_incr|]. by apply alike_payload. }
  assert (alike (ith start b) (ith (cs_cache w3) b)) as Hal' by done.
  destruct (law_alike _ _ Hal') as [Hdm Hfn].
  assert (fine (ith (cs_cache w3) b)) as Hfb by (apply Hfn, (Hfine id); [done|]; apply (visit_in ph id r b todo v Hph)).
  destruct (doomed (ith (cs_cache w3) b)) eqn:Hd.
  - destruct (visit_drop ph id r b todo v c0 c1 Hid Hph H1 HI Hpay) as (c0' & c2 & c3 & F2 & F3 & Hcl & Hg & Hcr).
    { unfold stays. by rewrite Hexb, Hdm. }
    { rewrite Hrcb0. unfold examined in Hexb. apply andb_true_iff in Hexb as [_ Hexb]. by apply Z.eqb_eq. }
    destruct (law_dead w3 log b (hash (key (ith c1 b))) id c2 c3 HR3 Hfb Hd Hal Hid F2 F3 Hcl) as (w' & -> & Hcw & Hs' & HP).
    exists w'. split; [done|]. split; [|done]. apply (Hdone w' c0'); [by rewrite Hcw| |by eapply same_thread_trans].
    intros d Hdd. rewrite Hcw. by apply Hcr.
  - destruct (visit_keep ph id r b todo v c0 c1 Hid Hph H1 HI Hpay) as [Hg Hcr]; [unfold stays; by rewrite Hexb, Hdm|].
    destruct (law_live w3 log b (hash (key (ith c1 b))) id HR3 Hfb Hd Hal Hid) as (w' & -> & Hcw & Hs' & HP).
    exists w'. split; [done|]. split; [|done]. eapply (Hdone w'); [rewrite Hcw, Hc3; exact Hg| |by eapply same_thread_trans].
    intros d Hdd. rewrite Hcw, Hc3. by rewrite Hcr.
Qed.

(** A class's turn. *)
Lemma crawl_class_ok w ph log id :
  crawling w ph → P w log → id ∈ crawl_ids →
  ∃ w' ph', crawl_class hash base busy patience m w id = Answer w' ∧ crawling w' ph' ∧ P w' (log ++ handed (ph id)) ∧
    ph' id = next_phase stays (ph id) ∧ ∀ j, j ≠ id → ph' j = ph j.
Proof using laws Hbase.
  intros Hw HP Hin. pose proof (crawl_ids_lt id Hin) as Hid. pose proof (cw_phase _ _ Hw id Hid) as Hp. unfold crawl_class.
  destruct (ph id) as [l v|r todo v] eqn:Hph; cbn [phase_ok] in Hp.
  { rewrite Hp. cbn [Z.eqb negb]. exists w, ph. unfold handed. cbn [met]. by rewrite app_nil_r. }
  destruct Hp as (Hen & _). rewrite (en_flags _ _ _ Hen). cbn [Z.eqb Pos.eqb negb].
  assert (∀ w1, crawling w1 ph → R w1 log → ∃ w' ph', crawl_item hash base busy m w1 id = Answer w' ∧ crawling w' ph' ∧
    P w' (log ++ handed (Walking r todo v)) ∧ ph' id = next_phase stays (Walking r todo v) ∧ ∀ j, j ≠ id → ph' j = ph j) as Hitem.
  { intros w1 Hw1 HR. unfold handed. destruct todo as [|b todo].
    - destruct (crawl_item_stops w1 ph log id r [] v Hw1 HR Hin Hph) as (w' & E & Hw' & HP'); [by left|].
      eexists w', _. split_and!; [exact E|exact Hw'|by rewrite app_nil_r|by rewrite set_phase_eq|intros j Hj; by rewrite set_phase_ne].
    - cbn [next_phase met]. destruct (stops r v) eqn:Hst.
      + destruct (crawl_item_stops w1 ph log id r (b :: todo) v Hw1 HR Hin Hph) as (w' & E & Hw' & HP'); [by right|].
        eexists w', _. split_and!; [exact E|exact Hw'|by rewrite app_nil_r|by rewrite set_phase_eq|intros j Hj; by rewrite set_phase_ne].
      + destruct (crawl_item_walks w1 ph log id r b todo v Hw1 HR Hin Hph Hst) as (w' & E & Hw' & HP').
        eexists w', _. split_and!; [exact E|exact Hw'|exact HP'|by rewrite set_phase_eq|intros j Hj; by rewrite set_phase_ne]. }
  destruct (client w) as [cl|] eqn:Hcl.
  - destruct (law_client w log cl HP Hcl) as (w1 & -> & Hs & Hc & HR). cbn [mbind answer_bind]. apply Hitem; [|done].
    destruct Hw as [Hg Hphase Hcnt Hlen Hfine]. split; rewrite ?Hc; try done.
    + intros j Hj. apply (phase_frame w); [by rewrite Hc|by apply remaining_frame|by apply Hphase].
    + by rewrite (proj1 Hs).
    + by rewrite (same_thread_length _ _ Hs).
  - destruct (law_alone w log HP Hcl) as [-> HR]. by apply Hitem.
Qed.

Lemma crawl_pass_ok ids : ∀ w ph log,
  crawling w ph → P w log → NoDup ids → (∀ id, id ∈ ids → id ∈ crawl_ids) →
  ∃ w' ph', crawl_pass hash base busy patience m ids w = Answer w' ∧ crawling w' ph' ∧
    P w' (log ++ concat ((λ id, handed (ph id)) <$> ids)) ∧
    (∀ j, j ∈ ids → ph' j = next_phase stays (ph j)) ∧ ∀ j, j ∉ ids → ph' j = ph j.
Proof using laws Hbase.
  induction ids as [|id ids IH]; intros w ph log Hw HP Hnd Hin; cbn [crawl_pass].
  { exists w, ph. cbn. rewrite app_nil_r. split_and!; try done. intros j Hj. by apply elem_of_nil in Hj. }
  apply list.NoDup_cons in Hnd as [Hid Hnd].
  destruct (crawl_class_ok w ph log id Hw HP) as (w1 & ph1 & -> & Hw1 & HP1 & Hn1 & Ho1); [apply Hin; by left|].
  cbn [mbind answer_bind]. destruct (IH w1 ph1 _ Hw1 HP1 Hnd) as (w' & ph' & E & Hw' & HP' & Hn' & Ho').
  { intros j Hj. apply Hin. by right. }
  exists w', ph'. split_and!; [done|done| |..].
  - cbn [fmap list_fmap concat]. rewrite (assoc_L (++)).
    replace ((λ i, handed (ph i)) <$> ids) with ((λ i, handed (ph1 i)) <$> ids); [done|].
    apply list_fmap_ext. intros i j Hj%list_elem_of_lookup_2. rewrite Ho1; [done|]. by intros ->.
  - intros j [->|Hj]%elem_of_cons; [by rewrite Ho'|]. rewrite Hn' by done. rewrite Ho1; [done|]. by intros ->.
  - intros j [Hj1 Hj2]%not_elem_of_cons. by rewrite Ho', Ho1.
Qed.

(** The items handed to the module in [k] rounds. *)
Definition pass_log (ph : nat → phase) : list Z := concat ((λ id, handed (ph id)) <$> crawl_ids).
Fixpoint loop_log (k : nat) (ph : nat → phase) : list Z :=
  match k with O => [] | S k => pass_log ph ++ loop_log k (λ id, next_phase stays (ph id)) end.

Lemma pass_log_ext ph ph' : (∀ id, id ∈ crawl_ids → ph id = ph' id) → pass_log ph = pass_log ph'.
Proof using.
  intros H. unfold pass_log. f_equal. apply list_fmap_ext. intros i j Hj%list_elem_of_lookup_2. by rewrite H.
Qed.

Lemma loop_log_ext k : ∀ ph ph', (∀ id, id ∈ crawl_ids → ph id = ph' id) → loop_log k ph = loop_log k ph'.
Proof using.
  induction k as [|k IH]; intros ph ph' H; cbn [loop_log]; [done|]. rewrite (pass_log_ext ph ph' H). f_equal.
  apply IH. intros id Hid. by rewrite H.
Qed.

Lemma loop_log_idle k : ∀ ph, (∀ id, id ∈ crawl_ids → walking (ph id) = false) → loop_log k ph = [].
Proof using.
  induction k as [|k IH]; intros ph H; cbn [loop_log]; [done|]. rewrite IH.
  - rewrite app_nil_r. unfold pass_log. revert H. generalize crawl_ids as ids. induction ids as [|i ids IHi]; intros H; [done|].
    cbn [fmap list_fmap concat]. rewrite IHi by (intros j Hj; apply H; by right). specialize (H i ltac:(by left)).
    unfold handed. by destruct (ph i).
  - intros id Hid. specialize (H id Hid). by destruct (ph id).
Qed.

Lemma no_walkers ph : count_walking ph = 0%nat → ∀ id, id ∈ crawl_ids → walking (ph id) = false.
Proof using.
  unfold count_walking. generalize crawl_ids as ids. induction ids as [|i ids IH]; intros H id; [by intros ?%elem_of_nil|].
  cbn in H. destruct (walking (ph i)) eqn:E; [done|]. intros [->|Hid]%elem_of_cons; [done|]. by apply IH.
Qed.

(** Every walker has fewer than [k] items before it. *)
Definition short (k : nat) (ph : nat → phase) : Prop :=
  ∀ id, id ∈ crawl_ids → match ph id with Idle _ _ => True | Walking _ todo _ => (length todo < k)%nat end.

Lemma crawl_loop_ok k : ∀ w ph log,
  crawling w ph → P w log → short k ph →
  ∃ w' ph', crawl_loop hash base busy patience m k w = Answer w' ∧ crawling w' ph' ∧ P w' (log ++ loop_log k ph) ∧
    (∀ id, id ∈ crawl_ids → ph' id = steps stays k (ph id)) ∧ (∀ id, id ∉ crawl_ids → ph' id = ph id) ∧ crawler_count w' = 0.
Proof using laws Hbase.
  induction k as [|k IH]; intros w ph log Hw HP Hsh; cbn [crawl_loop]; pose proof (cw_count _ _ Hw) as Hcnt.
  - assert (count_walking ph = 0%nat) as H0.
    { unfold count_walking. revert Hsh. unfold short. generalize crawl_ids as ids. induction ids as [|i ids IHi]; intros Hsh; [done|].
      cbn [List.filter]. pose proof (Hsh i ltac:(by left)) as Hi. destruct (ph i); [|lia]. cbn [walking]. apply IHi. intros j Hj. apply Hsh. by right. }
    rewrite Hcnt, H0. cbn [Z.of_nat Z.eqb]. exists w, ph. cbn [loop_log]. rewrite app_nil_r. split_and!; try done. by rewrite Hcnt, H0.
  - destruct (Z.eqb_spec (crawler_count w) 0) as [Hz|Hz].
    { rewrite Hcnt in Hz. assert (count_walking ph = 0%nat) as H0 by lia. pose proof (no_walkers ph H0) as Hno.
      exists w, ph. rewrite loop_log_idle by done. rewrite app_nil_r. split_and!; try done; [|by rewrite Hcnt, H0].
      intros id Hid. specialize (Hno id Hid). destruct (ph id); [|done]. by rewrite steps_idle. }
    fold crawl_ids. destruct (crawl_pass_ok crawl_ids w ph log Hw HP) as (w1 & ph1 & -> & Hw1 & HP1 & Hn1 & Ho1); [apply NoDup_seq|done|].
    cbn [mbind answer_bind]. destruct (IH w1 ph1 _ Hw1 HP1) as (w' & ph' & -> & Hw' & HP' & Hn' & Ho' & Hc').
    { intros id Hid. rewrite Hn1 by done. specialize (Hsh id Hid). destruct (ph id) as [|r [|b todo] v]; [done|done|].
      cbn [next_phase]. destruct (stops r v); [done|]. cbn [length] in Hsh. lia. }
    exists w', ph'. split_and!; try done.
    + cbn [loop_log]. rewrite (loop_log_ext k _ ph1), (assoc_L (++)); [done|]. intros id Hid. by rewrite Hn1.
    + intros id Hid. rewrite Hn', Hn1 by done. done.
    + intros id Hid. by rewrite Ho', Ho1.
Qed.

(** The items of the queues that were handed to the module. *)
Definition seen_of (p : phase) : list Z := List.filter examined (visited p).
Definition seen_all (ph : nat → phase) : list Z := concat ((λ id, seen_of (ph id)) <$> crawl_ids).

Lemma seen_next p : seen_of (next_phase stays p) = handed p ++ seen_of p.
Proof using. unfold seen_of, handed. rewrite next_met. destruct (met p); [|done]. cbn [List.filter]. by destruct (examined z). Qed.

Lemma pass_seen ph : pass_log ph ++ seen_all ph ≡ₚ seen_all (λ id, next_phase stays (ph id)).
Proof using.
  unfold pass_log, seen_all. generalize crawl_ids as ids. induction ids as [|i ids IH]; [done|].
  cbn [fmap list_fmap concat]. rewrite seen_next, <-IH. unfold fmap. solve_Permutation.
Qed.

Lemma loop_seen k : ∀ ph, loop_log k ph ++ seen_all ph ≡ₚ seen_all (λ id, steps stays k (ph id)).
Proof using.
  induction k as [|k IH]; intros ph; cbn [loop_log steps]; [done|]. rewrite <-IH, <-pass_seen.
  rewrite <-(assoc_L (++)). apply Permutation_app_swap_app.
Qed.

(** *** The start *)

Lemma start_class_ok w ph id r l v :
  crawling w ph → id ∈ crawl_ids → ph id = Idle l v → 0 ≤ r →
  ∃ w', do_lru_crawler_start base w id r = Some (w', 1) ∧ crawling w' (set_phase ph id (Walking r (rev l) [])) ∧
    same_module w w' ∧ active_mod w' = active_mod w.
Proof using Hbase.
  intros Hw Hin Hph Hr. pose proof (crawl_ids_lt id Hin) as Hid. pose proof Hw as [(c0 & [H HI Hpay]) Hphase Hc Hl Hfine].
  pose proof (Hphase id Hid) as Hf. rewrite Hph in Hf. cbn [phase_ok] in Hf. unfold do_lru_crawler_start. rewrite Hf. cbn [Z.eqb].
  set (f := λ i : stritem, _). set (c1 := set_item (cs_cache w) (crawler_at id) f).
  assert (crawler_at id ∉ queue_of id (ph id)) as Hnq.
  { rewrite Hph. cbn [queue_of]. intros Hq. destruct (inv_queued st hash _ c0 _ (crawler_at id) id HI Hid) as ([Hv Hh _ _ _] & _); [by rewrite Hph|].
    apply (hi_static _ _ _ _ _ H _ _ Hv (proj1 Hh)). by apply crawler_at_in. }
  assert (hides base st c0 c1 (λ i, queue_of i (ph i))) as H1 by (apply hides_set_crawler; [done|done|by right]).
  assert (ith c1 (crawler_at id) = f (ith (cs_cache w) (crawler_at id))) as Hcr by apply ith_set_eq.
  assert (enabled base c1 id) as Hen by (split; rewrite ?Hcr; try done; unfold qid; rewrite Hcr; cbn; lia).
  destruct (linktail_ok base st Hbase c0 c1 _ id H1 Hid Hnq Hen) as (c2 & E2 & H2 & Hp2).
  match goal with |- context [do_item_linktail_q ?x _] => change x with c1 end. rewrite E2. cbn [mbind option_bind].
  assert (∀ j, (j < LARGEST_ID)%nat → j ≠ id → payload (ith c2 (crawler_at j)) = payload (ith (cs_cache w) (crawler_at j))) as Hoth.
  { intros j Hj Hji. rewrite Hp2. unfold c1. rewrite ith_set_ne; [done|]. intros E. apply Hji. by apply (crawler_at_inj base). }
  eexists. split; [done|]. split; [|done]. split.
  - exists c0. eapply ghost_queues; [exact H2|exact HI|..|exact Hpay].
    + intros j Hj. destruct (decide (j = id)) as [->|Hne].
      * rewrite set_list_eq, set_phase_eq, Hph. cbn [queue_of]. by rewrite rev_involutive.
      * by rewrite set_list_other, set_phase_ne.
    + intros j Hj. destruct (decide (j = id)) as [->|Hne]; [|by rewrite set_phase_ne].
      rewrite set_phase_eq, Hph. cbn [items_of]. unfold kept. by rewrite rev_involutive, app_nil_r.
  - intros j Hj. cbn [cs_cache set_running set_crawlers set_cache crawlers upd_crawler].
    destruct (decide (j = id)) as [->|Hne].
    + rewrite set_phase_eq. cbn [phase_ok cs_cache set_running set_crawlers set_cache crawlers upd_crawler].
      rewrite list_lookup_total_insert_eq by (rewrite Hl; done). cbn [remaining length]. split_and!; [|by destruct (Z.eqb_spec r 0); [subst|lia]|done|lia].
      destruct Hen as [A1 A2 A3]. destruct (payload_fields _ _ (Hp2 (crawler_at id))) as (_ & _ & Hff & Hcl & _).
      destruct (payload_refcount _ _ (Hp2 (crawler_at id))) as (_ & _ & Hn & _).
      split; [by rewrite Hff|by rewrite Hn|unfold qid in *; by rewrite Hcl].
    + rewrite set_phase_ne by done. apply (phase_frame w); [by apply Hoth| |by apply Hphase].
      cbn [crawlers set_running set_crawlers set_cache upd_crawler]. by rewrite list_lookup_total_insert_ne.
  - change (crawler_count w + 1 = Z.of_nat (count_walking (set_phase ph id (Walking r (rev l) [])))). rewrite Hc.
    rewrite (count_off (set_phase ph id (Walking r (rev l) [])) id Hin ltac:(by rewrite set_phase_eq) l v).
    unfold count_walking. rewrite (count_ext (λ i, walking (set_phase (set_phase ph id _) id _ i)) (λ i, walking (ph i))); [lia|].
    intros j _. destruct (decide (j = id)) as [->|]; [by rewrite set_phase_eq, Hph|by rewrite !set_phase_ne].
  - cbn [crawlers set_running set_crawlers set_cache upd_crawler]. by rewrite length_insert.
  - intros j b Hj. destruct (decide (j = id)) as [->|Hne]; [|rewrite set_phase_ne by done; by apply Hfine].
    rewrite set_phase_eq. cbn [items_of]. unfold kept. rewrite rev_involutive, app_nil_r. intros Hb. apply (Hfine id); [done|]. by rewrite Hph.
Qed.

Definition chosen (ids : nat → bool) (sid : nat) : bool := bool_decide (sid ∈ crawl_ids) && ids sid.

Lemma start_loop_ok (ids : nat → bool) r sids : ∀ w ph k,
  crawling w ph → 0 ≤ r → NoDup sids → (∀ id, id ∈ sids → id ∈ crawl_ids ∧ ∃ l v, ph id = Idle l v) →
  ∃ w' ph', start_loop base sids ids r w k = Some (w', k + Z.of_nat (length (List.filter ids sids))) ∧ crawling w' ph' ∧
    (∀ id, id ∈ sids → ph' id = if ids id then Walking r (rev (items_of stays (ph id))) [] else ph id) ∧
    (∀ id, id ∉ sids → ph' id = ph id) ∧ same_module w w' ∧ active_mod w' = active_mod w.
Proof using Hbase.
  induction sids as [|sid sids IH]; intros w ph k Hw Hr Hnd Hin; cbn [start_loop].
  { exists w, ph. cbn. rewrite Z.add_0_r. split_and!; try done. intros id Hid. by apply elem_of_nil in Hid. }
  apply list.NoDup_cons in Hnd as [Hsid Hnd]. destruct (Hin sid) as [Hsc (l & v & Hph)]; [by left|]. cbn [List.filter].
  destruct (ids sid) eqn:Hs.
  - destruct (start_class_ok w ph sid r l v Hw Hsc Hph Hr) as (w1 & -> & Hw1 & Hm1 & Ha1). cbn [mbind option_bind].
    destruct (IH w1 _ (k + 1) Hw1 Hr Hnd) as (w' & ph' & -> & Hw' & Hn & Ho & Hm & Ha).
    { intros id Hid. rewrite set_phase_ne by (by intros ->). apply Hin. by right. }
    exists w', ph'. split_and!; try done.
    + cbn [length]. do 2 f_equal. lia.
    + intros id [->|Hid]%elem_of_cons; [by rewrite Ho, set_phase_eq, Hs, Hph|]. rewrite Hn by done. rewrite set_phase_ne; [done|by intros ->].
    + intros id [H1 H2]%not_elem_of_cons. by rewrite Ho, set_phase_ne.
    + destruct Hm1 as (A1 & A2 & A3 & A4), Hm as (B1 & B2 & B3 & B4). split_and!; congruence.
    + congruence.
  - destruct (IH w ph k Hw Hr Hnd) as (w' & ph' & -> & Hw' & Hn & Ho & Hm & Ha); [intros id Hid; apply Hin; by right|].
    exists w', ph'. split_and!; try done.
    + intros id [->|Hid]%elem_of_cons; [by rewrite Ho, Hs|by apply Hn].
    + intros id [H1 H2]%not_elem_of_cons. by apply Ho.
Qed.

(** No queue is crawled. *)
Record resting (w : crawl_state) (L : nat → list Z) : Prop := {
  rs_inv : ItemInv.inv st hash (S n) (cs_cache w) L;
  rs_static : static base (cs_cache w);
  rs_flags id : (id < LARGEST_ID)%nat → it_flags (ith (cs_cache w) (crawler_at id)) = 0;
  rs_count : crawler_count w = 0;
  rs_length : length (crawlers w) = LARGEST_ID
}.

Lemma resting_crawling w L :
  resting w L → start = cs_cache w → (∀ id b, (id < LARGEST_ID)%nat → b ∈ L id → fine (ith start b)) →
  crawling w (λ id, Idle (L id) []).
Proof using.
  intros [HI Hs Hf Hc Hl] Hst Hfine. split; try done.
  - exists (cs_cache w). split; [|done|by rewrite Hst]. by apply (hides_refl base st hash (S n)).
Qed.

Lemma crawling_resting w ph :
  crawling w ph → (∀ id, (id < LARGEST_ID)%nat → walking (ph id) = false) → crawler_count w = 0 →
  resting w (λ id, items_of stays (ph id)) ∧
  ∀ id b, (id < LARGEST_ID)%nat → b ∈ items_of stays (ph id) → payload (ith (cs_cache w) b) = payload (ith start b).
Proof using.
  intros [(c0 & [H HI Hpay]) Hphase Hc Hl Hfine] Hidle Hcnt.
  assert (∀ id, (id < LARGEST_ID)%nat → queue_of id (ph id) = items_of stays (ph id)) as HQ.
  { intros id Hid. specialize (Hidle id Hid). by destruct (ph id). }
  assert (static base c0) as Hst by (intros i b; apply (hi_static _ _ _ _ _ H)). split.
  - split; [by eapply hides_inv; [exact H|exact HI|]| | |done|done].
    + intros i b Hi Hb. rewrite (hi_slab _ _ _ _ _ H) in Hi, Hb. by apply (Hst i).
    + intros id Hid. specialize (Hphase id Hid). specialize (Hidle id Hid). by destruct (ph id).
  - intros id b Hid Hb. rewrite <-(Hpay id b Hid Hb). apply (hi_payload _ _ _ _ _ H).
    by apply (queued_real base st hash (S n) c0 _ id b HI Hst).
Qed.

(** A crawl of the chosen queues, from the start to the end of the loop. *)
Lemma crawl_run w L (ids : nat → bool) r k log :
  resting w L → start = cs_cache w → (∀ id b, (id < LARGEST_ID)%nat → b ∈ L id → fine (ith start b)) →
  0 ≤ r → (∀ id, (id < LARGEST_ID)%nat → (length (L id) < k)%nat) → P w log →
  let starts := Z.of_nat (length (List.filter ids crawl_ids)) in
  ∃ w1 w2 L' log', start_loop base crawl_ids ids r w 0 = Some (w1, starts) ∧ same_module w w1 ∧ active_mod w1 = active_mod w ∧
    crawl_loop hash base busy patience m k w1 = Answer w2 ∧ resting w2 L' ∧ P w2 (log ++ log') ∧
    (∀ id, (id < LARGEST_ID)%nat → L' id = if chosen ids id then swept stays r (L id) else L id) ∧
    (∀ id b, (id < LARGEST_ID)%nat → b ∈ L' id → payload (ith (cs_cache w2) b) = payload (ith start b)) ∧
    log' ≡ₚ concat ((λ id, if ids id then List.filter examined (reached r (L id)) else []) <$> crawl_ids).
Proof using laws Hbase.
  intros Hr Hstart Hfine Hr0 Hk HP starts. pose proof (resting_crawling w L Hr Hstart Hfine) as Hw.
  destruct (start_loop_ok ids r crawl_ids w _ 0 Hw Hr0) as (w1 & ph1 & E1 & Hw1 & Hn1 & Ho1 & Hm1 & Ha1); [apply NoDup_seq|eauto|].
  rewrite Z.add_0_l in E1. destruct (crawl_loop_ok k w1 ph1 log Hw1) as (w2 & ph2 & E2 & Hw2 & HP2 & Hn2 & Ho2 & Hc2); [by apply (law_frame w)| |].
  { intros id Hid. rewrite Hn1 by done. destruct (ids id); [|done]. cbn [items_of]. rewrite length_rev. apply Hk. by apply crawl_ids_lt. }
  assert (∀ id, id ∈ crawl_ids → ph2 id = if ids id then Idle (swept stays r (L id)) (reached r (L id)) else Idle (L id) []) as Hph2.
  { intros id Hid. rewrite Hn2, Hn1 by done. destruct (ids id); [|by rewrite steps_idle]. cbn [items_of].
    apply steps_swept; [done|]. apply Hk. by apply crawl_ids_lt. }
  assert (∀ id, id ∉ crawl_ids → ph2 id = Idle (L id) []) as Hph2' by (intros id Hid; by rewrite Ho2, Ho1).
  assert (∀ id, ph2 id = if chosen ids id then Idle (swept stays r (L id)) (reached r (L id)) else Idle (L id) []) as Hph.
  { intros id. unfold chosen. case_bool_decide; [by apply Hph2|by apply Hph2']. }
  destruct (crawling_resting w2 ph2 Hw2) as [Hrest Hpay]; [intros id Hid; rewrite Hph; by destruct (chosen ids id)|done|].
  eexists w1, w2, _, (loop_log k ph1). split_and!; [exact E1|done|done|exact E2|exact Hrest|exact HP2| |exact Hpay|].
  - intros id Hid. cbn beta. rewrite Hph. by destruct (chosen ids id).
  - pose proof (loop_seen k ph1) as Hseen. assert (seen_all ph1 = []) as Hs0.
    { unfold seen_all. revert Hn1. generalize crawl_ids as l. induction l as [|i l IHl]; intros Hn1; [done|].
      cbn [fmap list_fmap concat]. rewrite IHl by (intros j Hj; apply Hn1; by right). rewrite Hn1 by by left. by destruct (ids i). }
    rewrite Hs0, app_nil_r in Hseen. rewrite Hseen. unfold seen_all. apply reflexive_eq. f_equal.
    apply list_fmap_ext. intros i id Hid%list_elem_of_lookup_2. rewrite <-Hn2, Hph2 by done. by destruct (ids id).
Qed.
End Thread.
