(* ===== verification/CrawlExpired.v ===== *)
(** The crawl that removes expired items. *)

From S2P Require Import Prelude Item Slabs Assoc Items Itoa ItemFrame ItemInv ItemAlloc ItemNew Bipbuffer Util CrawlQueue Crawler CrawlerSpec.

(** ** Changes of a crawler and of the statistics *)

Lemma same_thread_upd i f w : (∀ k, remaining (f k) = remaining k) → same_thread w (upd_crawler i f w).
Proof.
  intros Hf. split; [done|]. unfold upd_crawler. cbn [set_crawlers crawlers]. rewrite list_fmap_insert, Hf.
  destruct (decide (i < length (crawlers w))%nat) as [Hi|Hi].
  - apply list_insert_id. rewrite list_lookup_fmap. destruct (lookup_lt_is_Some_2 (crawlers w) i Hi) as [k Hk].
    by rewrite (list_lookup_total_correct _ _ _ Hk), Hk.
  - apply list_insert_ge. rewrite length_fmap. lia.
Qed.

(** The items the statistics count. *)
Definition tally_of (s : crawlerstats_t) : Z := seen s + s_reclaimed s.
Definition tally (l : list crawlerstats_t) : Z := foldr (λ s n, tally_of s + n) 0 l.

Lemma tally_insert l : ∀ i s,
  (i < length l)%nat → tally (<[i := s]> l) = tally l - tally_of (l !!! i) + tally_of s.
Proof.
  induction l as [|x l IH]; intros i s Hi; [cbn in Hi; lia|]. destruct i as [|i]; cbn [length] in Hi.
  - cbn. lia.
  - change (tally (x :: <[i := s]> l) = tally (x :: l) - tally_of (l !!! i) + tally_of s). cbn [tally foldr].
    fold (tally (<[i := s]> l)) (tally l). rewrite IH by lia. lia.
Qed.

Lemma u64_add_idemp a b : u64 (u64 a + b) = u64 (a + b).
Proof. unfold u64. apply Zplus_mod_idemp_l. Qed.

Lemma count_live_tally now it s : u64 (tally_of (count_live now it s)) = u64 (tally_of s + 1).
Proof.
  assert (u64 (u64 (seen s + 1) + s_reclaimed s) = u64 (seen s + s_reclaimed s + 1)) as E.
  { rewrite u64_add_idemp. f_equal. lia. }
  unfold count_live, tally_of. repeat case_match; exact E.
Qed.

Lemma count_dead_tally s : u64 (tally_of (count_dead s)) = u64 (tally_of s + 1).
Proof. unfold count_dead, tally_of. cbn [seen s_reclaimed]. rewrite Z.add_comm, u64_add_idemp. f_equal. lia. Qed.

Lemma upd_stats_tally i f d :
  (i < length (crawlerstats d))%nat → (∀ s, u64 (tally_of (f s)) = u64 (tally_of s + 1)) →
  u64 (tally (crawlerstats (upd_stats i f d))) = u64 (tally (crawlerstats d) + 1).
Proof.
  intros Hi Hf. unfold upd_stats. cbn [crawlerstats]. rewrite tally_insert by done. specialize (Hf (crawlerstats d !!! i)).
  rewrite Z.add_comm, <-u64_add_idemp, Hf, u64_add_idemp. f_equal. lia.
Qed.

(** ** The module *)

(** The statistics, which belong to somebody else or not, count the items that were handed to
    the module. *)
Definition counted (ext : bool) (w : crawl_state) (log : list Z) : Prop :=
  client w = None ∧ ∃ d, active_data w = Some d ∧ is_external d = ext ∧ length (crawlerstats d) = LARGEST_ID ∧
    u64 (tally (crawlerstats d)) = u64 (Z.of_nat (length log)).

Lemma counted_next ext w log a f i d w' :
  counted ext w log → active_data w = Some d → (i < LARGEST_ID)%nat → (∀ s, u64 (tally_of (f s)) = u64 (tally_of s + 1)) →
  client w' = client w → active_data w' = Some (upd_stats i f d) → counted ext w' (log ++ [a]).
Proof.
  intros (Hcl & d' & Hd & Hx & Hl & Ht) Hd' Hi Hf Hc Hw. rewrite Hd' in Hd. injection Hd as <-. split; [congruence|].
  exists (upd_stats i f d). split_and!; [done|done|unfold upd_stats; cbn; by rewrite length_insert|].
  rewrite upd_stats_tally by (done || by rewrite Hl). rewrite <-u64_add_idemp, Ht, u64_add_idemp, length_app. f_equal. cbn. lia.
Qed.

Section Expired.
Context (st : item_settings) (now : Z).

Lemma dead_alike i j : alike i j → is_dead st now i = is_dead st now j.
Proof using. destruct i, j. unfold alike. intros [=]; subst. done. Qed.

#[export] Instance expired_laws patience start ext :
  ModuleLaws st patience (crawler_expired_mod st now) start (is_dead st now) (λ _, True) (counted ext) (counted ext).
Proof using.
  split.
  - intros i j H. split; [by apply dead_alike|done].
  - intros w w' log (E1 & E2 & _). unfold counted. rewrite E1, E2. done.
  - intros w log cl [Hcl _] Hc. congruence.
  - done.
  - done.
  - intros w log i (Hcl & d & Hd & Hx & Hl & Ht). unfold call_doneclass. cbn [m_doneclass crawler_expired_mod]. rewrite Hd.
    eexists. do 3 (split; [done|]). split; [done|]. eexists. split_and!; [done|done|..].
    + cbn. by rewrite length_insert.
    + rewrite <-Ht. f_equal. cbn [crawler_expired_doneclass crawlerstats]. destruct (decide (i < LARGEST_ID)%nat) as [Hi|Hi].
      * rewrite tally_insert by (by rewrite Hl). unfold tally_of. cbn [seen s_reclaimed]. lia.
      * rewrite list_insert_ge; [done|]. rewrite Hl. lia.
  - intros w log a hv i HR _ Hd _ Hi. pose proof HR as (Hcl & d & Hdata & Hx & Hl & Ht).
    cbn [m_eval crawler_expired_mod]. unfold crawler_expired_eval. rewrite Hdata. cbn [mbind option_bind]. rewrite Hd.
    eexists. do 3 (split; [done|]).
    eapply counted_next; [exact HR|exact Hdata|exact Hi|apply count_live_tally|done|done].
  - intros w log a hv i c1 c2 HR _ Hd _ Hi E1 E2 Hcls. pose proof HR as (Hcl & d & Hdata & Hx & Hl & Ht).
    cbn [m_eval crawler_expired_mod]. unfold crawler_expired_eval. rewrite Hdata. cbn [mbind option_bind]. rewrite Hd.
    match goal with |- context [if ?x then upd_crawler i ?f ?y else _] => set (w1 := if x then upd_crawler i f y else y) end.
    assert (cs_cache w1 = cs_cache w ∧ same_thread w w1 ∧ client w1 = client w ∧ active_data w1 = Some (upd_stats i count_dead d)) as (-> & Hs & Hc & Ha).
    { set (f := λ k, mkCrawler (remaining k) (u64 (reclaimed k + 1)) (unfetched k) (checked k)) in w1.
      assert (same_thread w (set_active_data (Some (upd_stats i count_dead d)) (upd_crawler i f w))) as H1 by exact (same_thread_upd i f w ltac:(done)).
      unfold w1. case_match; (split; [done|split; [|done]]); [|done]. eapply same_thread_trans; [exact H1|by apply same_thread_upd]. }
    rewrite E1. cbn [mbind option_bind]. rewrite E2. cbn [mbind option_bind]. rewrite Hcls. cbn [Z.eqb assert_ mbind option_bind].
    eexists. do 2 (split; [done|]). split; [exact Hs|].
    eapply counted_next; [exact HR|exact Hdata|exact Hi|apply count_dead_tally|exact Hc|exact Ha].
Qed.
End Expired.

Lemma flush_none k ps snt : flush_loop k ps None snt = Answer (None, ps, snt).
Proof. by destruct k. Qed.

(** The number of queues that are chosen. *)
Definition chosen_count (ids : nat → bool) : Z := Z.of_nat (length (List.filter ids crawl_ids)).

Section Crawl.
Context (st : item_settings) (hash : bytes → Z) (now started base : Z) (busy : Z → bool) (stack : bytes) (patience : nat).

(** C29: a crawl for expired items, requested while the crawler thread rests, starts a crawler in
    each chosen queue and comes back.  Of the items its crawlers reach (all of a queue, or one
    fewer than the limit, from the tail on) those that have expired or been flushed, and that
    nobody holds or has locked, are gone from the queues, the table and the memory of the
    cache; all others are in their queues as before, in the same order and with the same
    contents.  The crawlers have left the queues, the thread rests again, and the statistics
    that were asked for count every item that was looked at. *)
Theorem crawl_expires n w L (ids : nat → bool) rem type data conn mem garbage k :
  0 < base → resting st hash base n w L → client w = None → lru_crawler_running w = false → block_ae_until w ≤ now →
  type ≠ CRAWLER_METADUMP → (data ≠ None ∨ mem = true) → 0 ≤ rem → (∀ id, (id < LARGEST_ID)%nat → (length (L id) < k)%nat) →
  let stays := stays busy (cs_cache w) (is_dead st now) in
  ∃ w1 w2 L', lru_crawler_start st now started base stack w ids rem type data conn mem garbage = Some (w1, chosen_count ids) ∧
    item_crawler_round st hash now started base busy stack patience k w1 = Answer w2 ∧
    resting st hash base n w2 L' ∧ client w2 = None ∧ lru_crawler_running w2 = false ∧
    (∀ id, (id < LARGEST_ID)%nat → L' id = if chosen ids id then swept stays rem (L id) else L id) ∧
    (∀ id b, (id < LARGEST_ID)%nat → b ∈ L' id → payload (ith (cs_cache w2) b) = payload (ith (cs_cache w) b)) ∧
    (data ≠ None → ∃ d, active_data w2 = Some d ∧ crawl_complete d = true ∧ u64 (tally (crawlerstats d)) =
       u64 (Z.of_nat (length (concat ((λ id, if ids id then List.filter (examined busy (cs_cache w)) (reached rem (L id)) else []) <$> crawl_ids))))).
Proof.
  intros Hbase Hrest Hcl Hrun Hblock Htype Hdata Hrem Hk stays.
  set (d0 := crawler_expired_init now data mem (active_data w)).
  assert (∃ d, d0 = Some d ∧ length (crawlerstats d) = LARGEST_ID ∧ tally (crawlerstats d) = 0 ∧ is_external d = bool_decide (data ≠ None)) as (d & Hd & Hdl & Hdt & Hext).
  { unfold d0, crawler_expired_init. destruct data as [d|]; [|destruct Hdata as [?| ->]; [done|]]; by eexists. }
  set (w0 := set_active_data d0 (set_type type (set_module (Some type) w))).
  assert (resting st hash base n w0 L) as Hrest0 by by destruct Hrest.
  assert (counted (bool_decide (data ≠ None)) w0 []) as HP0.
  { split; [done|]. exists d. split_and!; [done|done|done|]. by rewrite Hdt. }
  destruct (crawl_run st hash base busy patience (crawler_expired_mod st now) (cs_cache w) (is_dead st now) (λ _, True)
    (counted (bool_decide (data ≠ None))) (counted (bool_decide (data ≠ None))) n Hbase
    w0 L ids rem k [] Hrest0 eq_refl) as (w1 & w2 & L' & log & E1 & Hm1 & Ha1 & E2 & Hrest2 & HP2 & HL' & Hpay & Hlog); try done.
  assert (crawler_mod_regs st now started stack type = crawler_expired_mod st now) as Hreg by (by destruct type).
  pose proof HP2 as (Hcl2 & d2 & Hd2 & Hx2 & _ & Ht2). cbn [app] in Ht2. rewrite Hlog in Ht2.
  set (w3 := set_module None (set_client None (polls w2) (client_sent w2) (set_active_data (crawler_expired_finalize now d2) w2))).
  exists w1, (set_running false (lru_crawler_starts w3) w3), L'.
  split; [|split; [|split; [by destruct Hrest2; split|split; [done|split; [done|split; [exact HL'|split; [exact Hpay|]]]]]]].
  - unfold lru_crawler_start. rewrite Hrun. cbn [andb]. rewrite (proj2 (Z.ltb_ge _ _) Hblock), andb_false_r, Hreg. exact E1.
  - unfold item_crawler_round. rewrite Ha1. cbn [active_mod w0 set_active_data set_type set_module]. rewrite Hreg, E2.
    cbn [mbind answer_bind]. unfold end_round. cbn [m_finalize crawler_expired_mod]. rewrite Hd2. cbn [mbind answer_bind].
    cbn [client polls client_sent set_active_data]. rewrite Hcl2, flush_none. cbn [mbind answer_bind]. reflexivity.
  - intros Hdn. rewrite bool_decide_true in Hx2 by done. cbn [active_data w3 set_running set_module set_client set_active_data].
    unfold crawler_expired_finalize. cbn [is_external]. rewrite Hx2. eexists. split; [reflexivity|]. split; [reflexivity|exact Ht2].
Qed.
End Crawl.

(** *** A crawl of a cache with a flushed item *)

Definition flushed_settings : item_settings := mkItemSettings small_settings true 50 0.

Definition crawl_base : Z := 1000000.

Definition no_polls : nat → poll_result := λ _, PollTimeout.

Definition quiet_crawler (ps : nat → poll_result) (c : cache) : crawl_state :=
  mkCrawl c (replicate LARGEST_ID (mkCrawler 0 0 0 0)) 0 None CRAWLER_EXPIRED None None false 0 0
    (replicate LARGEST_ID (mkCounts 0 0 0)) ps [].

Lemma static_check base c :
  forallb (λ id, forallb (λ b, negb (bool_decide (in_crawlers base b))) (all_chunks (slab c) id)) (seq 1 (power_largest (slab c))) = true →
  static base c.
Proof.
  intros H i b Hi Hb. rewrite forallb_forall in H. specialize (H i). rewrite forallb_forall in H.
  apply elem_of_all_chunks, list_elem_of_In in Hb. specialize (H ltac:(apply in_seq; unfold valid, POWER_SMALLEST in Hi; lia) b Hb).
  apply negb_true_iff in H. by apply bool_decide_eq_false in H.
Qed.

(** The invariant depends on the settings of the slabs only. *)
Lemma inv_settings st st' hash n c L :
  slab_settings st = slab_settings st' → ItemInv.inv st hash n c L → ItemInv.inv st' hash n c L.
Proof. intros E [[S1 S2 S3 S4 S5 S6] V2 V3 V4 V5]. split; try done. split; try done. by rewrite <-E. Qed.

Lemma cold_resting st ps :
  slab_settings st = small_settings → resting st hash0 crawl_base 1 (quiet_crawler ps cold_cache) cold_queue.
Proof.
  intros Hst. split.
  - apply (inv_settings test_settings); [by rewrite Hst|exact cold_inv].
  - apply static_check. vm_compute. reflexivity.
  - intros id Hid. assert (forallb (λ id, it_flags (ith cold_cache (CrawlQueue.crawler_at crawl_base id)) =? 0) (seq 0 LARGEST_ID) = true) as H
      by (vm_compute; reflexivity).
    rewrite forallb_forall in H. apply Z.eqb_eq, H, in_seq. lia.
  - reflexivity.
  - reflexivity.
Qed.

Lemma crawl_expires_witness : ∃ w1 w2,
  lru_crawler_start flushed_settings 100 0 crawl_base [] (quiet_crawler no_polls cold_cache) (λ i, i =? 130)%nat 0 CRAWLER_EXPIRED None false true []
    = Some (w1, 1) ∧
  item_crawler_round flushed_settings hash0 100 0 crawl_base (λ _, false) [] 0 2 w1 = Answer w2 ∧
  tails (cs_cache (quiet_crawler no_polls cold_cache)) !!! 130%nat = item_a ∧ tails (cs_cache w2) !!! 130%nat = 0.
Proof.
  destruct (crawl_expires flushed_settings hash0 100 0 crawl_base (λ _, false) [] 0 1 (quiet_crawler no_polls cold_cache) cold_queue
    (λ i, i =? 130)%nat 0 CRAWLER_EXPIRED None false true [] 2) as (w1 & w2 & L' & E1 & E2 & Hr & _ & _ & HL & _);
    [reflexivity|exact (cold_resting flushed_settings no_polls eq_refl)|reflexivity|reflexivity|vm_compute; discriminate|discriminate|right; reflexivity|reflexivity| |].
  { intros id _. unfold cold_queue, set_list. destruct (decide (id = 130%nat)); simpl; lia. }
  exists w1, w2. split; [exact E1|]. split; [exact E2|]. split; [vm_compute; reflexivity|].
  assert (130 < LARGEST_ID)%nat as H130 by (unfold LARGEST_ID; lia).
  pose proof (q_tail _ _ _ (co_queue _ _ _ _ _ (v_ok _ _ _ _ _ (rs_inv _ _ _ _ _ _ Hr)) 130%nat H130)) as Ht.
  rewrite Ht, (HL 130%nat H130). vm_compute. reflexivity.
Defined.
