(* ===== verification/CrawlDump.v ===== *)
(** The crawl that lists the items for a client. *)

From stdpp Require Import strings.
From S2P Require Import Prelude Item Slabs Assoc Items Itoa ItemFrame ItemInv ItemAlloc ItemNew Bipbuffer Util Tokenize Command.
From S2P Require Import CrawlQueue Crawler CrawlerSpec CrawlExpired.

(** ** The output buffer *)

(** When the first region is empty the second is not in use. *)
Record bip_live (me : bipbuf) : Prop := {
  bl_ok : bip_ok me;
  bl_first : b_inuse me = 1 → a_start me < a_end me
}.

Lemma switch_live me : bip_ok me → (b_inuse me = 1 → a_start me < a_end me) → bip_live (check_for_switch_to_b me).
Proof.
  intros Hok Hf. split; [by apply switch_ok|]. pose proof Hok as [K1 K2 K3 K4 K5 K6 K7]. unfold check_for_switch_to_b.
  destruct (Z.ltb_spec (u64 (size_ me - a_end me)) (u32 (a_start me - b_end me))) as [H|H]; [|done].
  cbn [with_inuse a_start a_end]. intros _. revert H. bip_arith. intros H. destruct (decide (a_start me = a_end me)) as [E|]; [|lia].
  specialize (K7 E). lia.
Qed.

Lemma switch_size me : size_ (check_for_switch_to_b me) = size_ me.
Proof. unfold check_for_switch_to_b. by case_match. Qed.

(** An empty buffer has room for an item. *)
Lemma request_empty me size : bip_live me → contents me = [] → size ≤ size_ me → bipbuf_request me size ≠ None.
Proof.
  intros [Hok Hf] Hc Hs. pose proof (contents_length me Hok) as Hl. rewrite Hc in Hl. cbn in Hl. pose proof Hok as [K1 K2 K3 K4 K5 K6 K7].
  unfold bipbuf_request. rewrite (unused_spec me Hok). destruct (Z.eqb_spec (b_inuse me) 1) as [Hi|Hi]; [specialize (Hf Hi); lia|].
  rewrite (proj2 (Z.ltb_ge _ _)) by lia. done.
Qed.

Lemma poll_live me size : bip_live me → 0 ≤ size ≤ a_end me - a_start me → contents me ≠ [] →
  ∃ me', bipbuf_poll me size = (Some (a_start me), me') ∧ bip_live me' ∧ size_ me' = size_ me ∧
    slice (a_start me) (a_start me + size) (data me) = take (Z.to_nat size) (contents me) ∧
    contents me' = drop (Z.to_nat size) (contents me).
Proof.
  intros [Hok Hf] Hs Hc. pose proof (bipbuf_poll_takes me size Hok Hs) as H.
  destruct (bipbuf_is_empty me) eqn:He; [by apply empty_spec in He|]. destruct H as (me' & E & Hok' & H1 & H2).
  exists me'. split_and!; try done.
  - split; [done|]. revert E. unfold bipbuf_poll. rewrite He. pose proof Hok as [K1 K2 K3 K4 K5 K6 K7]. bip_arith.
    rewrite (proj2 (Z.ltb_ge _ _)) by lia. intros [= <-]. intros Hi. revert Hi.
    match goal with |- context [check_for_switch_to_b ?x] => set (m := x) end.
    assert (bip_ok m ∧ (b_inuse m = 1 → a_start m < a_end m)) as [Hm1 Hm2]; [|apply (switch_live m Hm1 Hm2)].
    unfold m. cbn [a_start a_end b_inuse size_ b_end data]. apply Z.eqb_neq in He.
    destruct (Z.eqb_spec (a_start me + size) (a_end me)) as [Ee|Ee]; [destruct (Z.eqb_spec (b_inuse me) 1) as [Hi|Hi]|].
    + split; [split; simpl; auto; lia|]. done.
    + destruct K6 as [?|[Hi0 Hb]]; [done|]. split; [split; simpl; auto; lia|]. cbn. lia.
    + split; [split; simpl; auto; lia|]. cbn. lia.
  - revert E. unfold bipbuf_poll. rewrite He. case_match; [done|]. intros [= <-]. rewrite switch_size. by repeat case_match.
Qed.

Lemma slice_write_prefix from off d e buf :
  0 ≤ from ≤ off → (Z.to_nat off + length (d ++ e) ≤ length buf)%nat →
  slice from (off + Z.of_nat (length d)) (write_at off (d ++ e) buf) = slice from off buf ++ d.
Proof.
  intros Hf Hl. rewrite length_app in Hl.
  assert (write_at off (d ++ e) buf = write_at off d (write_at (off + Z.of_nat (length d)) e buf)) as ->.
  { unfold write_at. rewrite length_app. replace (Z.to_nat (off + Z.of_nat (length d))) with (Z.to_nat off + length d)%nat by lia.
    rewrite take_app_le by (rewrite length_take; lia). rewrite take_take, Nat.min_l by lia. f_equal.
    rewrite <-app_assoc. f_equal. rewrite drop_app_ge by (rewrite length_take; lia).
    rewrite (length_take _ (Z.to_nat off + length d)), Nat.min_l, Nat.sub_diag by lia. rewrite drop_0. f_equal. f_equal. lia. }
  rewrite slice_write_at by (rewrite ?write_at_length; lia). f_equal. apply slice_write_before; lia.
Qed.

(** A line is written where [bipbuf_request] said, with a null after it, and pushed. *)
Lemma push_line me line off size :
  bip_live me → bipbuf_request me size = Some off → Z.of_nat (length line) < size →
  let me' := (bipbuf_push (with_data (write_at off (line ++ [0]) (data me)) me) (Z.of_nat (length line))).2 in
  bip_live me' ∧ size_ me' = size_ me ∧ contents me' = contents me ++ line.
Proof.
  intros [Hok Hf] Hreq Hlen. pose proof (unused_spec me Hok) as Hu. unfold bipbuf_request in Hreq.
  destruct (Z.ltb_spec (bipbuf_unused me) size) as [|Hfit]; [done|].
  unfold bipbuf_push. change (bipbuf_unused (with_data _ me)) with (bipbuf_unused me).
  rewrite (proj2 (Z.ltb_ge _ _)) by lia. cbn [snd]. rewrite Hu in Hfit. pose proof Hok as [K1 K2 K3 K4 K5 K6 K7].
  assert (length (line ++ [0]) = S (length line)) as Hl1 by (rewrite length_app; cbn; lia).
  rewrite switch_contents, switch_size. unfold grow. cbn [b_inuse with_data].
  destruct (Z.eqb_spec (b_inuse me) 1) as [Hi|Hi]; injection Hreq as <-.
  - split; [apply switch_live; [split|]; simpl; bip_arith; rewrite ?write_at_length by lia; auto; lia|]. split; [done|].
    unfold contents. cbn [data a_start a_end b_end with_data]. bip_arith.
    rewrite slice_write_after, slice_write_prefix by lia. by rewrite (assoc_L (++)).
  - destruct K6 as [|[Hi0 Hb]]; [done|].
    split; [apply switch_live; [split|]; simpl; bip_arith; rewrite ?write_at_length by lia; auto; try lia; intros ?; done|]. split; [done|].
    unfold contents. cbn [data a_start a_end b_end with_data]. bip_arith.
    rewrite slice_write_prefix by lia. rewrite Hb. unfold slice. by rewrite !app_nil_r.
Qed.

(** ** A client that reads *)

(** Every call of [poll] finds that the client takes something. *)
Definition takes (r : poll_result) : Prop :=
  match r with
  | PollEvents (mkRevents pin false (Some (Accepts n))) => default false pin = false ∧ 0 < n
  | _ => False
  end.

Definition accepting (ps : nat → poll_result) : Prop := ∀ i, takes (ps i).

Lemma poll_sends r cl snt :
  takes r → bip_live (c_buf cl) → contents (c_buf cl) ≠ [] →
  ∃ cl' snt', lru_crawler_poll r cl snt = (0, Some cl', snt') ∧ bip_live (c_buf cl') ∧ size_ (c_buf cl') = size_ (c_buf cl) ∧
    snt' ++ contents (c_buf cl') = snt ++ contents (c_buf cl) ∧ (length (contents (c_buf cl')) < length (contents (c_buf cl)))%nat.
Proof.
  intros Hr Hb Hc. destruct r as [| |[pin [] [[n| |]|]]]; try done. destruct Hr as [Hpin Hn].
  unfold lru_crawler_poll. cbn [pollin pollhup pollout]. rewrite Hpin. pose proof Hb as [Hok _]. pose proof Hok as [K1 K2 K3 K4 K5 K6 K7].
  unfold bipbuf_peek_all. destruct (bipbuf_is_empty (c_buf cl)) eqn:He; [by apply empty_spec in He|].
  apply Z.eqb_neq in He. bip_arith. set (total := Z.min n (a_end (c_buf cl) - a_start (c_buf cl))).
  rewrite (proj2 (Z.eqb_neq total 0)) by lia.
  destruct (poll_live (c_buf cl) total Hb ltac:(lia) Hc) as (me' & -> & Hb' & Hs' & Hsl & Hct). cbn [snd].
  eexists _, _. split; [reflexivity|]. cbn [c_buf]. rewrite Hsl, Hct. split_and!; [done|done| |].
  - by rewrite <-app_assoc, take_drop.
  - rewrite length_drop. destruct (contents (c_buf cl)); [done|]. cbn [length]. lia.
Qed.

Lemma getbuf_takes k : ∀ ps cl snt,
  accepting ps → bip_live (c_buf cl) → LRU_CRAWLER_WRITEBUF ≤ size_ (c_buf cl) → (length (contents (c_buf cl)) ≤ k)%nat →
  ∃ cl' ps' snt', getbuf_loop k ps cl snt = Answer (true, Some cl', ps', snt') ∧ accepting ps' ∧ bip_live (c_buf cl') ∧
    size_ (c_buf cl') = size_ (c_buf cl) ∧ snt' ++ contents (c_buf cl') = snt ++ contents (c_buf cl) ∧
    bipbuf_request (c_buf cl') LRU_CRAWLER_WRITEBUF = Some (c_cbuf cl').
Proof.
  induction k as [|k IH]; intros ps cl snt Hps Hb Hs Hk; cbn [getbuf_loop].
  - destruct (bipbuf_request _ _) as [off|] eqn:E; [by eexists _, _, _|]. exfalso. apply (request_empty (c_buf cl) LRU_CRAWLER_WRITEBUF); try done.
    destruct (contents (c_buf cl)); [done|]. cbn in Hk. lia.
  - destruct (bipbuf_request _ _) as [off|] eqn:E; [by eexists _, _, _|].
    destruct (poll_sends (ps 0%nat) cl snt (Hps 0%nat) Hb) as (cl1 & snt1 & -> & Hb1 & Hs1 & Heq & Hlt).
    { intros Hc. by apply (request_empty (c_buf cl) LRU_CRAWLER_WRITEBUF). }
    cbn [Z.ltb Z.compare]. destruct (IH (later ps) cl1 snt1) as (cl' & ps' & snt' & E' & H1 & H2 & H3 & H4 & H5);
      [intros i; apply Hps|done|by rewrite Hs1|lia|]. exists cl', ps', snt'. split_and!; try done; congruence.
Qed.

Lemma flush_takes k : ∀ ps cl snt,
  accepting ps → bip_live (c_buf cl) → (length (contents (c_buf cl)) ≤ k)%nat →
  ∃ cl' ps', flush_loop k ps (Some cl) snt = Answer (Some cl', ps', snt ++ contents (c_buf cl)).
Proof.
  assert (∀ me, bip_live me → bipbuf_used me = Z.of_nat (length (contents me))) as Hused.
  { intros me [Hok _]. rewrite (contents_length me Hok). pose proof Hok as [K1 K2 K3 K4 K5 K6 K7]. unfold bipbuf_used.
    rewrite (u32_small (a_end me - a_start me)) by (unfold two32; lia). by bip_arith. }
  induction k as [|k IH]; intros ps cl snt Hps Hb Hk; cbn [flush_loop]; rewrite (Hused _ Hb).
  - destruct (contents (c_buf cl)); [|cbn in Hk; lia]. cbn. rewrite app_nil_r. eauto.
  - destruct (contents (c_buf cl)) as [|x l] eqn:Hc; [cbn; rewrite app_nil_r; eauto|]. rewrite (proj2 (Z.eqb_neq _ 0)) by (cbn; lia).
    destruct (poll_sends (ps 0%nat) cl snt (Hps 0%nat) Hb) as (cl1 & snt1 & -> & Hb1 & Hs1 & Heq & Hlt); [by rewrite Hc|].
    destruct (IH (later ps) cl1 snt1) as (cl' & ps' & ->); [intros i; apply Hps|done|rewrite Hc in Hlt; cbn [length] in *; lia|].
    exists cl', ps'. by rewrite Heq, Hc.
Qed.

(** ** The module *)

Lemma length_sdec z k : 0 ≤ z < 10 ^ Z.of_nat k → (2 ≤ k)%nat → (length (sdec z) ≤ k)%nat.
Proof.
  intros Hz Hk. unfold sdec. rewrite (proj2 (Z.ltb_ge _ _)) by lia. apply length_dec; lia.
Qed.

Section Dump.
Context (st : item_settings) (now started : Z) (stack : bytes) (patience : nat) (start : cache) (before : bytes).

(** The longest key that is listed, encoded: [keybuf] is four bytes longer. *)
Definition ENCODED_MAX : nat := 747.

(** An item whose line is right. *)
Record listable (it : stritem) : Prop := {
  li_key : byte_key (key it);
  li_encoded : (length (encoded (key it)) ≤ ENCODED_MAX)%nat;
  li_exptime : 0 ≤ exptime it < two32;
  li_cas : 0 ≤ ITEM_get_cas it < two64
}.

(** What the client is told of an item. *)
Definition dump_line (it : stritem) : bytes :=
  if is_dead st now it then [] else metadump_line started (encoded (key it)) it.

Context (Hstarted : 0 ≤ started < 2 ^ 62) (Hstack : length stack = 751%nat).

Lemma keybuf_holds it : listable it →
  ∃ buf, uriencode (key it) stack (Z.of_nat KEY_MAX_LENGTH * 3 + 1) = Some (true, buf) ∧ c_string buf = Some (encoded (key it)).
Proof using Hstack Hstarted.
  intros [Hk He _ _]. unfold uriencode. change (Z.of_nat KEY_MAX_LENGTH * 3 + 1) with 751. unfold ENCODED_MAX in He.
  destruct (uriencode_loop_spec (key it) 751 stack 0) as (r & l & p' & -> & Hl & Hr); [lia|rewrite Hstack; lia|].
  cbn [mbind option_bind fst]. destruct r; [|lia]. subst l. eexists. split; [done|]. unfold c_string.
  assert (0 ∈ splice stack 0 (encoded (key it) ++ [0])) as H0.
  { unfold splice. rewrite !elem_of_app. right. left. right. by left. }
  rewrite decide_True by done. f_equal. rewrite length_app in Hl. cbn in Hl.
  apply cstr_splice; [rewrite Hstack; lia|]. by apply encoded_spec.
Qed.

Lemma line_short it : listable it → 0 < Z.of_nat (length (metadump_line started (encoded (key it)) it)) < 4096.
Proof using Hstarted Hstack.
  intros [_ He Hx Hc]. unfold metadump_line, ENCODED_MAX in *. rewrite !length_app.
  assert (length (sdec (if exptime it =? 0 then -1 else exptime it + started)%Z) ≤ 20)%nat.
  { case_match; [vm_compute; lia|]. apply length_sdec; [|lia]. unfold two32 in Hx. cbn. lia. }
  assert (length (dec (u64 (time it + started)%Z)) ≤ 20)%nat.
  { apply length_dec; [|lia]. unfold u64. pose proof (Z.mod_pos_bound (time it + started) two64 ltac:(done)). unfold two64 in *. cbn. lia. }
  assert (length (dec (ITEM_get_cas it)) ≤ 20)%nat by (apply length_dec; [unfold two64 in Hc; cbn; lia|lia]).
  destruct (has_flag it ITEM_FETCHED); 
    repeat match goal with |- context [length (chars ?s)] => let n := eval vm_compute in (length (chars s)) in change (length (chars s)) with n end;
    cbn [length]; lia.
Qed.

Lemma alike_listable i j : alike i j → listable i → listable j.
Proof using. destruct i, j. unfold alike. intros [=]; subst. intros []. by split. Qed.

Lemma alike_line i j : alike i j → dump_line i = dump_line j.
Proof using. destruct i, j. unfold alike. intros [=]; subst. done. Qed.

(** The client has been sent, or will be from the buffer, the lines of the items so far. *)
Definition listing_with (cl : crawler_client_t) (w : crawl_state) (log : list Z) : Prop :=
  client w = Some cl ∧ bip_live (c_buf cl) ∧ size_ (c_buf cl) = 131072 ∧ accepting (polls w) ∧
  client_sent w ++ contents (c_buf cl) = before ++ concat ((λ b, dump_line (ith start b)) <$> log).

Definition listing (w : crawl_state) (log : list Z) : Prop := ∃ cl, listing_with cl w log.

Definition ready (w : crawl_state) (log : list Z) : Prop :=
  ∃ cl, listing_with cl w log ∧ bipbuf_request (c_buf cl) LRU_CRAWLER_WRITEBUF = Some (c_cbuf cl).

Context (Hpatience : 131072 ≤ Z.of_nat patience).

Lemma contents_short cl w log : listing_with cl w log → (length (contents (c_buf cl)) ≤ patience)%nat.
Proof using Hpatience Hstack Hstarted.
  intros (_ & [Hok _] & Hs & _). pose proof (contents_length _ Hok) as Hl. pose proof Hok as [K1 K2 K3 K4 K5 K6 K7]. lia.
Qed.

#[export] Instance metadump_laws :
  ModuleLaws st patience (crawler_metadump_mod st now started stack) start (λ _, false) listable listing ready.
Proof using Hstarted Hstack Hpatience.
  split.
  - intros i j H. split; [done|by apply alike_listable].
  - intros w w' log (E1 & E2 & E3 & E4). unfold listing, ready, listing_with. by rewrite E2, E3, E4.
  - intros w log cl (cl0 & Hl) Hc. pose proof (contents_short _ _ _ Hl) as Hk. destruct Hl as (Hcl & Hb & Hs & Ha & Hout).
    rewrite Hc in Hcl. injection Hcl as <-. unfold lru_crawler_client_getbuf.
    destruct (getbuf_takes patience (polls w) cl (client_sent w) Ha Hb) as (cl' & ps' & snt' & -> & Ha' & Hb' & Hs' & Hout' & Hreq);
      [rewrite Hs; unfold LRU_CRAWLER_WRITEBUF; lia|done|].
    cbn [mbind answer_bind]. eexists. do 3 (split; [done|]). exists cl'. split; [|done].
    split; [done|]. split; [done|]. split; [congruence|]. split; [done|]. cbn [client_sent set_client]. congruence.
  - intros w log (cl & Hcl & _) Hn. congruence.
  - intros w log (cl & H & _). by exists cl.
  - intros w log i (cl & H & _). unfold call_doneclass. cbn [m_doneclass crawler_metadump_mod]. exists w. do 3 (split; [done|]). by exists cl.
  - intros w log a hv i (cl & (Hcl & Hb & Hs & Ha & Hout) & Hreq) Hfine _ Hal Hi.
    cbn [m_eval crawler_metadump_mod]. unfold crawler_metadump_eval.
    assert (dump_line (ith start a) = dump_line (ith (cs_cache w) a)) as Hline by (symmetry; by apply alike_line).
    assert (∀ x y, concat ((λ b, dump_line (ith start b)) <$> x ++ [y]) = concat ((λ b, dump_line (ith start b)) <$> x) ++ dump_line (ith start y)) as Hcat.
    { intros x y. rewrite fmap_app, concat_app. cbn. by rewrite app_nil_r. }
    destruct (is_dead st now (ith (cs_cache w) a)) eqn:Hd.
    + eexists. do 3 (split; [done|]). exists cl. do 4 (split; [done|]). rewrite Hcat, Hline. unfold dump_line at 2. rewrite Hd.
      cbn [client_sent set_cache]. by rewrite Hout, app_nil_r.
    + destruct (keybuf_holds _ Hfine) as (buf & -> & Hstr). cbn [mbind option_bind]. rewrite Hstr. cbn [mbind option_bind].
      rewrite Hcl. cbn [mbind option_bind]. pose proof (line_short _ Hfine) as Hlen.
      set (line := metadump_line started (encoded (key (ith (cs_cache w) a))) (ith (cs_cache w) a)) in *.
      rewrite (proj2 (Z.ltb_lt _ 4096)) by lia. rewrite (proj2 (Z.leb_gt (LRU_CRAWLER_WRITEBUF - 1) _)) by (unfold LRU_CRAWLER_WRITEBUF; lia).
      rewrite (proj2 (Z.leb_gt _ 0)) by lia. cbn [orb].
      destruct (push_line (c_buf cl) line (c_cbuf cl) LRU_CRAWLER_WRITEBUF Hb Hreq) as (Hb' & Hs' & Hc'); [unfold LRU_CRAWLER_WRITEBUF; lia|].
      eexists. do 3 (split; [done|]). eexists. split; [done|]. cbn [c_buf]. split; [done|]. split; [congruence|]. split; [done|].
      rewrite Hcat, Hline. unfold dump_line at 2. rewrite Hd. fold line. cbn [client_sent set_client set_cache].
      by rewrite Hc', (assoc_L (++)), Hout, (assoc_L (++)).
  - done.
Qed.
End Dump.

Lemma swept_all keeps r l : (∀ b, keeps b = true) → swept keeps r l = l.
Proof.
  intros Hk. assert (∀ l, kept keeps l = l) as Hall.
  { intros x. unfold kept. induction x as [|b x IH]; [done|]. by rewrite filter_cons_True, IH. }
  unfold swept. rewrite !Hall. unfold reached. destruct (r =? 0); [done|]. apply take_drop.
Qed.


(** *** A listing of a cache with one item *)

Definition reading : nat → poll_result := λ _, PollEvents (mkRevents None false (Some (Accepts 100))).
Definition old_stack : bytes := replicate 751 7.
Definition patient : nat := Z.to_nat 131072.
Definition old_memory : bytes := replicate patient 0.


(** ** Behaviour at the edges *)

(** A limit of one item reaches none. *)
Lemma limit_one l : reached 1 l = [].
Proof. unfold reached. cbn. rewrite Nat.sub_0_r. apply drop_all. Qed.

(** The longest key that has to be encoded throughout does not fit into [keybuf], which then has
    no end: the string that is printed goes on over what is on the stack. *)
Lemma long_key_unterminated : ∃ buf,
  uriencode (replicate KEY_MAX_LENGTH 37) (replicate 751 7) (Z.of_nat KEY_MAX_LENGTH * 3 + 1) = Some (false, buf) ∧ c_string buf = None.
Proof. eexists. split; vm_compute; reflexivity. Qed.

(** A listing of no queue is not started, and keeps the client: no listing can be requested after
    it. *)
Lemma stray_client :
  let w := quiet_crawler reading cold_cache in
  let crawl w slabs := lru_crawler_crawl test_settings 9 1000 crawl_base old_stack w (chars slabs) CRAWLER_METADUMP 0 true true [] in
  ∃ w1, crawl w "," = Some (w1, CRAWLER_NOTSTARTED) ∧ client w1 ≠ None ∧ lru_crawler_running w1 = false ∧
    ∃ w2, crawl w1 "all" = Some (w2, CRAWLER_ERROR).
Proof. eexists. split; [vm_compute; reflexivity|]. split; [discriminate|]. split; [reflexivity|]. eexists. vm_compute. reflexivity. Qed.
