(* ===== verification/Config.v ===== *)
(** The configuration of a cluster: [class Config] of [include/cluster/config.h] and
    [src/cluster/config.cc].

    A configuration says how many partitions, nodes and servers there are, how partitions
    are replicated, where each server is and which store holds each partition.  It is read
    from and written to a file by the YAML library, which is a parameter: the class [Yaml]
    has the calls that the code makes.  An exception that the library throws is not caught
    anywhere: the call does not come back ([Never]).  [ConfigFile] says what the library
    does with a document that it wrote itself. *)

From stdpp Require Import strings pretty.
From S2P Require Import Prelude.

#[local] Open Scope string_scope.
#[local] Open Scope Z_scope.

Inductive ReplicationScheme := INVALID | NO_REPLICATION | MASTER_SLAVE | DYNAMO | MODC.

#[global] Instance ReplicationScheme_eq_dec : EqDecision ReplicationScheme.
Proof. solve_decision. Defined.

Abbreviation KVS := (gmap string string).

Record Config := mkConfig {
  shelf_base_ : string;
  shelf_user_ : string;
  partition_cnt_ : Z;
  server_cnt_ : Z;
  node_cnt_ : Z;
  starting_port_ : Z;
  kvs_type_ : string;
  kvs_size_ : Z;
  cache_size_ : Z;
  server_thread_ : Z;
  partition_ : gmap Z KVS;
  server_ : gmap Z string;
  replication_scheme_ : ReplicationScheme;
  replication_factor_ : Z
}.

(** [Config::Config()].  The constructor does not set the port, the number of threads and
    the replication factor: they hold whatever their memory held. *)
Definition Config_new (port thread factor : Z) : Config :=
  mkConfig "" "" 0 0 0 port "" 0 0 thread ∅ ∅ NO_REPLICATION factor.

(** ** Setters *)

Definition SetShelfBase (s : string) (c : Config) : Config :=
  mkConfig s (shelf_user_ c) (partition_cnt_ c) (server_cnt_ c) (node_cnt_ c) (starting_port_ c) (kvs_type_ c)
    (kvs_size_ c) (cache_size_ c) (server_thread_ c) (partition_ c) (server_ c) (replication_scheme_ c)
    (replication_factor_ c).

Definition SetShelfUser (s : string) (c : Config) : Config :=
  mkConfig (shelf_base_ c) s (partition_cnt_ c) (server_cnt_ c) (node_cnt_ c) (starting_port_ c) (kvs_type_ c)
    (kvs_size_ c) (cache_size_ c) (server_thread_ c) (partition_ c) (server_ c) (replication_scheme_ c)
    (replication_factor_ c).

Definition SetPartitionCnt (n : Z) (c : Config) : Config :=
  mkConfig (shelf_base_ c) (shelf_user_ c) n (server_cnt_ c) (node_cnt_ c) (starting_port_ c) (kvs_type_ c)
    (kvs_size_ c) (cache_size_ c) (server_thread_ c) (partition_ c) (server_ c) (replication_scheme_ c)
    (replication_factor_ c).

Definition SetServerCnt (n : Z) (c : Config) : Config :=
  mkConfig (shelf_base_ c) (shelf_user_ c) (partition_cnt_ c) n (node_cnt_ c) (starting_port_ c) (kvs_type_ c)
    (kvs_size_ c) (cache_size_ c) (server_thread_ c) (partition_ c) (server_ c) (replication_scheme_ c)
    (replication_factor_ c).

Definition SetNodeCnt (n : Z) (c : Config) : Config :=
  mkConfig (shelf_base_ c) (shelf_user_ c) (partition_cnt_ c) (server_cnt_ c) n (starting_port_ c) (kvs_type_ c)
    (kvs_size_ c) (cache_size_ c) (server_thread_ c) (partition_ c) (server_ c) (replication_scheme_ c)
    (replication_factor_ c).

Definition SetStartingPort (n : Z) (c : Config) : Config :=
  mkConfig (shelf_base_ c) (shelf_user_ c) (partition_cnt_ c) (server_cnt_ c) (node_cnt_ c) n (kvs_type_ c)
    (kvs_size_ c) (cache_size_ c) (server_thread_ c) (partition_ c) (server_ c) (replication_scheme_ c)
    (replication_factor_ c).

Definition SetKVSType (s : string) (c : Config) : Config :=
  mkConfig (shelf_base_ c) (shelf_user_ c) (partition_cnt_ c) (server_cnt_ c) (node_cnt_ c) (starting_port_ c) s
    (kvs_size_ c) (cache_size_ c) (server_thread_ c) (partition_ c) (server_ c) (replication_scheme_ c)
    (replication_factor_ c).

Definition SetKVSSize (n : Z) (c : Config) : Config :=
  mkConfig (shelf_base_ c) (shelf_user_ c) (partition_cnt_ c) (server_cnt_ c) (node_cnt_ c) (starting_port_ c)
    (kvs_type_ c) n (cache_size_ c) (server_thread_ c) (partition_ c) (server_ c) (replication_scheme_ c)
    (replication_factor_ c).

Definition SetCacheSize (n : Z) (c : Config) : Config :=
  mkConfig (shelf_base_ c) (shelf_user_ c) (partition_cnt_ c) (server_cnt_ c) (node_cnt_ c) (starting_port_ c)
    (kvs_type_ c) (kvs_size_ c) n (server_thread_ c) (partition_ c) (server_ c) (replication_scheme_ c)
    (replication_factor_ c).

Definition SetServerThread (n : Z) (c : Config) : Config :=
  mkConfig (shelf_base_ c) (shelf_user_ c) (partition_cnt_ c) (server_cnt_ c) (node_cnt_ c) (starting_port_ c)
    (kvs_type_ c) (kvs_size_ c) (cache_size_ c) n (partition_ c) (server_ c) (replication_scheme_ c)
    (replication_factor_ c).

Definition SetReplicationScheme (rs : ReplicationScheme) (c : Config) : Config :=
  mkConfig (shelf_base_ c) (shelf_user_ c) (partition_cnt_ c) (server_cnt_ c) (node_cnt_ c) (starting_port_ c)
    (kvs_type_ c) (kvs_size_ c) (cache_size_ c) (server_thread_ c) (partition_ c) (server_ c) rs
    (replication_factor_ c).

(** [replication_factor_ = f]. *)
Definition with_factor (f : Z) (c : Config) : Config :=
  mkConfig (shelf_base_ c) (shelf_user_ c) (partition_cnt_ c) (server_cnt_ c) (node_cnt_ c) (starting_port_ c)
    (kvs_type_ c) (kvs_size_ c) (cache_size_ c) (server_thread_ c) (partition_ c) (server_ c) (replication_scheme_ c) f.

Definition with_partitions (m : gmap Z KVS) (c : Config) : Config :=
  mkConfig (shelf_base_ c) (shelf_user_ c) (partition_cnt_ c) (server_cnt_ c) (node_cnt_ c) (starting_port_ c)
    (kvs_type_ c) (kvs_size_ c) (cache_size_ c) (server_thread_ c) m (server_ c) (replication_scheme_ c)
    (replication_factor_ c).

Definition with_servers (m : gmap Z string) (c : Config) : Config :=
  mkConfig (shelf_base_ c) (shelf_user_ c) (partition_cnt_ c) (server_cnt_ c) (node_cnt_ c) (starting_port_ c)
    (kvs_type_ c) (kvs_size_ c) (cache_size_ c) (server_thread_ c) (partition_ c) m (replication_scheme_ c)
    (replication_factor_ c).

(** What follows an assertion. *)
Definition checked {A} (b : bool) (k : answer A) : answer A := if b then k else Assertion.

Definition SetReplicationFactor (factor : Z) (c : Config) : answer Config :=
  match replication_scheme_ c with
  | NO_REPLICATION => mret (with_factor 1 c)
  | MASTER_SLAVE =>
      checked ((0 <? partition_cnt_ c) && (0 <? node_cnt_ c) && (partition_cnt_ c <=? node_cnt_ c))
        (checked (factor <=? server_cnt_ c) (mret (with_factor (node_cnt_ c / partition_cnt_ c) c)))
  | DYNAMO | MODC =>
      checked ((0 <? partition_cnt_ c) && (0 <? node_cnt_ c) && (factor <=? node_cnt_ c))
        (checked (factor <=? server_cnt_ c) (mret (with_factor factor c)))
  | INVALID => Assertion
  end.

(** ** Partitions and servers *)

(** [std::to_string] of an unsigned number. *)
Definition to_string (n : Z) : string := pretty (Z.to_N n).

Definition GetShelfBaseForPartition (c : Config) (pid : Z) : string := shelf_base_ c +:+ "/" +:+ to_string pid.

Definition GetShelfUserForPartition (c : Config) (pid : Z) : string := shelf_user_ c +:+ "_" +:+ to_string pid.

Definition UpdateRoot (pid : Z) (root : string) (c : Config) : Config :=
  let kvs : KVS := ∅ in
  let kvs := <["shelf_base" := GetShelfBaseForPartition c pid]> kvs in
  let kvs := <["shelf_user" := GetShelfUserForPartition c pid]> kvs in
  let kvs := <["kvs_type" := kvs_type_ c]> kvs in
  let kvs := <["kvs_size" := to_string (kvs_size_ c)]> kvs in
  let kvs := <["kvs_root" := root]> kvs in
  let kvs := <["cache_size" := to_string (cache_size_ c)]> kvs in
  let kvs := <["server_thread" := to_string (server_thread_ c)]> kvs in
  with_partitions (<[pid := kvs]> (partition_ c)) c.

Definition AddPartition (pid : Z) (kvs : KVS) (c : Config) : Z * Config :=
  match partition_ c !! pid with
  | None => (0, with_partitions (<[pid := kvs]> (partition_ c)) c)
  | Some _ => (-1, c)
  end.

Definition AddServer (sid : Z) (ip : string) (c : Config) : Z * Config :=
  match server_ c !! sid with
  | None => (0, with_servers (<[sid := ip]> (server_ c)) c)
  | Some _ => (-1, c)
  end.

Definition RemovePartition (pid : Z) (c : Config) : Config := with_partitions (delete pid (partition_ c)) c.

Definition RemoveServer (sid : Z) (c : Config) : Config := with_servers (delete sid (server_ c)) c.

Definition Config_IsValid (c : Config) : bool :=
  (0 <? partition_cnt_ c) && (0 <? node_cnt_ c) && (0 <? server_cnt_ c) &&
  (Z.of_nat (size (partition_ c)) =? partition_cnt_ c) &&
  (Z.of_nat (size (server_ c)) =? server_cnt_ c) &&
  (replication_factor_ c <=? server_cnt_ c) && negb (bool_decide (replication_scheme_ c = INVALID)).

Definition str2rs (str : string) : ReplicationScheme :=
  if bool_decide (str = "NO_REPLICATION") || bool_decide (str = "no_replication") then NO_REPLICATION
  else if bool_decide (str = "MASTER_SLAVE") || bool_decide (str = "master_slave") then MASTER_SLAVE
  else if bool_decide (str = "DYNAMO") || bool_decide (str = "dynamo") then DYNAMO
  else if bool_decide (str = "MODC") || bool_decide (str = "modc") then MODC
  else INVALID.

Definition rs2str (rs : ReplicationScheme) : string :=
  match rs with
  | NO_REPLICATION => "NO_REPLICATION"
  | MASTER_SLAVE => "MASTER_SLAVE"
  | DYNAMO => "DYNAMO"
  | MODC => "MODC"
  | INVALID => "INVALID"
  end.

(** ** Reading a file *)

(** The calls on a [YAML::Node]: [n[key]], [if (n)], [n.IsNull()], [n.as<T>()], and the
    pairs of nodes that an iterator over [n] visits.  [as_u64] is [as<size_t>] and
    [as<uint64_t>]. *)
Class Yaml (Y : Type) := {
  subscript : Y → string → answer Y;
  IsDefined : Y → bool;
  IsNull : Y → answer bool;
  as_string : Y → answer string;
  as_u64 : Y → answer Z;
  as_KVS : Y → answer KVS;
  pairs : Y → answer (list (Y * Y))
}.

Section Load.
Context `{Yaml Y}.

(** [if (n[key]) set(n[key].as<T>())]. *)
Definition field {T} (n : Y) (key : string) (as_ : Y → answer T) (set : T → Config → answer Config) (c : Config) :
    answer Config :=
  v ← subscript n key;
  if IsDefined v then t ← as_ v; set t c else mret c.

(** A field that a setter takes, which has no error. *)
Definition plain {T} (set : T → Config → Config) (t : T) (c : Config) : answer Config := mret (set t c).

(** [for (i = config.begin(); ...)] over [kvs["partitions"]]. *)
Fixpoint load_partitions (l : list (Y * Y)) (ret : Z) (c : Config) : answer (Z * Config) :=
  match l with
  | [] => mret (ret, c)
  | (i, s) :: l =>
      pid ← as_u64 i;
      kvs ← as_KVS s;
      let '(res, c) := AddPartition pid kvs c in
      load_partitions l (if res =? -1 then -1 else ret) c
  end.

(** The loop over [kvs["servers"]]. *)
Fixpoint load_servers (l : list (Y * Y)) (ret : Z) (c : Config) : answer (Z * Config) :=
  match l with
  | [] => mret (ret, c)
  | (i, s) :: l =>
      sid ← as_u64 i;
      ip ← as_string s;
      let '(res, c) := AddServer sid ip c in
      load_servers l (if res =? -1 then -1 else ret) c
  end.

(** [kvs["replication_scheme"]]. *)
Definition load_scheme (kvs : Y) (ret : Z) (c : Config) : answer (Z * Config) :=
  v ← subscript kvs "replication_scheme";
  if IsDefined v then
    str ← as_string v;
    mret (if bool_decide (str2rs str = INVALID) then (-1, c) else (ret, SetReplicationScheme (str2rs str) c))
  else mret (ret, c).

(** A collection under [key], entered by [load]. *)
Definition load_pairs (kvs : Y) (key : string) (load : list (Y * Y) → Z → Config → answer (Z * Config)) (ret : Z)
    (c : Config) : answer (Z * Config) :=
  v ← subscript kvs key;
  if IsDefined v then l ← pairs v; load l ret c else mret (ret, c).

(** The fields of the "kvs" map up to the replication scheme. *)
Definition load_sizes (kvs : Y) (c : Config) : answer Config :=
  c ← field kvs "partition_cnt" as_u64 (plain SetPartitionCnt) c;
  c ← field kvs "server_cnt" as_u64 (plain SetServerCnt) c;
  c ← field kvs "node_cnt" as_u64 (plain SetNodeCnt) c;
  c ← field kvs "starting_port" as_u64 (plain SetStartingPort) c;
  c ← field kvs "kvs_type" as_string (plain SetKVSType) c;
  c ← field kvs "kvs_size" as_u64 (plain SetKVSSize) c;
  c ← field kvs "cache_size" as_u64 (plain SetCacheSize) c;
  field kvs "server_thread" as_u64 (plain SetServerThread) c.

(** [Config::LoadConfigFile], from the call of [YAML::LoadFile], which answers [file]. *)
Definition LoadConfigFile (file : answer Y) (c : Config) : answer (Z * Config) :=
  file ← file;
  null ← IsNull file;
  if null : bool then mret (-1, c) else
  nvmm ← subscript file "nvmm";
  null ← IsNull nvmm;
  if null : bool then mret (-1, c) else
  c ← field nvmm "shelf_base" as_string (plain SetShelfBase) c;
  c ← field nvmm "shelf_user" as_string (plain SetShelfUser) c;
  kvs ← subscript file "kvs";
  null ← IsNull kvs;
  if null : bool then mret (-1, c) else
  c ← load_sizes kvs c;
  '(ret, c) ← load_scheme kvs 0 c;
  c ← field kvs "replication_factor" as_u64 SetReplicationFactor c;
  '(ret, c) ← load_pairs kvs "partitions" load_partitions ret c;
  '(ret, c) ← load_pairs kvs "servers" load_servers ret c;
  mret (if Config_IsValid c then ret else -1, c).

End Load.

(** ** Writing a file *)

(** What is sent to a [YAML::Emitter]; the library emits a [std::map] as one value. *)
Inductive emitted :=
  | BeginMap
  | EndMap
  | Key (s : string)
  | ValueStr (s : string)
  | ValueNum (n : Z)
  | ValuePartitions (m : gmap Z KVS)
  | ValueServers (m : gmap Z string).

(** [Config::SaveConfigFile]: what it emits.  It answers 0. *)
Definition SaveConfigFile (c : Config) : list emitted :=
  [BeginMap;
   Key "nvmm"; BeginMap;
   Key "shelf_base"; ValueStr (shelf_base_ c);
   Key "shelf_user"; ValueStr (shelf_user_ c);
   EndMap;
   Key "kvs"; BeginMap;
   Key "partition_cnt"; ValueNum (partition_cnt_ c);
   Key "server_cnt"; ValueNum (server_cnt_ c);
   Key "node_cnt"; ValueNum (node_cnt_ c);
   Key "starting_port"; ValueNum (starting_port_ c);
   Key "kvs_type"; ValueStr (kvs_type_ c);
   Key "kvs_size"; ValueNum (kvs_size_ c);
   Key "cache_size"; ValueNum (cache_size_ c);
   Key "server_thread"; ValueNum (server_thread_ c);
   Key "replication_scheme"; ValueStr (rs2str (replication_scheme_ c));
   Key "replication_factor"; ValueNum (replication_factor_ c);
   Key "partitions"; ValuePartitions (partition_ c);
   Key "servers"; ValueServers (server_ c);
   EndMap;
   EndMap].
